(* ===== verification/_CoqProject ===== *)
-Q . S2P
Prelude.v
GoStd.v
Hash.v
Types.v
GoFloat.v
Rounding.v
BinHeap.v
ExpiryHeap.v
Glob.v
KV.v
Reaper.v
KVCalls.v
StringStore.v
TypedStore.v
HashStore.v
ListStore.v
SetStore.v
ZSetStore.v
StreamStore.v
BitmapStore.v
RESP.v
Commands.v
Auth.v
WAL.v
Log.v
Transaction.v
VectorPayload.v
Float32.v
Hnsw.v
VectorRows.v
VectorIndex.v
VectorIndexCorrect.v
VectorHistory.v
Recovery.v
Vectors.v
VectorsCorrect.v
VectorOps.v
VectorSim.v
VectorCrash.v
VectorRecovery.v
Replication.v
ReplSession.v
PubSub.v
Executor.v
DispatchTyped.v
Durability.v
ReplStream.v
StateFile.v
Config.v
Isolation.v
Orchestrator.v
OrchestratorCorrect.v
OrchestratorPorts.v
OrchestratorAccess.v
Ingress.v
IngressCorrect.v
VectorQuery.v
VectorDurable.v
Cluster.v
Cache.v
Workflow.v
Limits.v
Server.v
ServerCorrect.v
HashRing.v
