(* ===== verification/Prelude.v ===== *)
(** * DBX: a Rocq development of the core of the DBX database server

    DBX ([src/internal], Go) is a Redis-like multi-tenant server: a sharded
    in-memory store with typed values and expiry, vector indexes, a RESP protocol,
    access control, a command executor, transactions, durability by a write-ahead
    log, checkpoints and recovery, replication, and an orchestrator that runs one
    engine per tenant. A command travels from the public port ([orchestrator],
    the ingress) to the engine of its tenant, there from the wire reader
    ([protocol]) through access control ([api], [security], [auth]) to the executor
    ([query]), which logs its effects ([persistence]) and runs it on the stores
    ([engine]); after a crash [persistence/recovery.go] rebuilds the store from a
    checkpoint and the log, and a replica is fed from the log ([replication]). The
    library models these parts and the supporting ones (configuration, isolation,
    cluster ring, caches, quotas, job queues, publish/subscribe).

    ** Files and the code they model

    - [Prelude], [GoStd], [GoFloat], [Rounding], [Float32]: machine integers with
      their wrap-around, byte slices (a nil slice is [None]), results that are a
      value, an error or a panic; the functions of Go's standard library the
      sources use (strconv, sort, encoding/binary, crc32, fmt), binary64 and
      binary32 arithmetic on [SpecFloat] and that its results stay in the format.
    - [Hash]: [util/hash.go], [util/codec.go].
    - [Types]: type tags, errors, payloads and [Entry] ([protocol/command.go],
      [util/errors.go], [engine/kv.go]).
    - [BinHeap], [ExpiryHeap], [Glob], [KV], [Reaper], [KVCalls]: [engine/kv.go]. A
      store is a list of shards, each a map of entries and a heap of deadlines. [KV]
      has the operations and the interface [EntryStore] that the typed stores are
      written against; [Reaper] relates heap and entries; [KVCalls] shows that every
      exported operation is one on a finite map; [BinHeap] is container/heap, used
      here and by the vector search.
    - [StringStore], [TypedStore], [HashStore], [ListStore], [SetStore],
      [ZSetStore], [StreamStore], [BitmapStore]: the files of [engine] of those
      names, against [EntryStore]; [TypedStore] holds the access pattern
      (getOrCreate, getReadOnly) they share.
    - [RESP], [Commands], [Auth]: [protocol/parser.go], [protocol/response.go],
      [protocol/command.go]; [auth/*.go] and [security/acl_enforcer.go], with
      SHA-256 written out.
    - [WAL], [Log], [VectorPayload]: [persistence/wal.go]: frames and their
      scan, the tail repair, encrypted frames; the writers and the flusher as a
      step relation with crashes; the payloads of vector records.
    - [Transaction]: [transaction/*.go], one Module per file.
    - [Hnsw]: [engine/hnsw.go], the layered graph of the approximate search.
      [VectorRows]: the float32 and int8 rows of [engine/vector.go] and their dot
      products. [VectorIndex], [VectorIndexCorrect], [VectorHistory]: one index
      with its rows, names, tombstones, metadata and eight graphs; its invariant
      [index_ok] and its histories. [Vectors], [VectorsCorrect], [VectorOps],
      [VectorSim]: the store of indexes with its files, quotas, seals and
      migrations ([engine/vector.go], [engine/vector_migration.go]) and its
      refinement of one map per key. [VectorCrash], [VectorRecovery]: what a
      crash leaves and what recovery makes of it; [mmap_store] is the instance of
      the interface [VectorStore] of [Recovery].
    - [Recovery], [Replication]: [persistence/snapshot.go],
      [persistence/recovery.go] and the replica side of [query/executor.go].
    - [Executor], [DispatchTyped], [VectorQuery]: [query/executor.go] and
      [query/vector_query.go]: [Execute] with its gates, [prepareDurableEffects],
      [effectsFitQuota] and the cases of [Dispatch]. [Durability] and
      [VectorDurable] compose them with the log and recovery.
    - [ReplSession], [ReplStream]: [replication/*.go]: handshake, session cipher
      and frames; the primary with its relay and bootstraps, and the rounds of a
      replica, as a step relation.
    - [Server], [ServerCorrect]: [api/server.go]: connections of the RESP server
      and the HTTP endpoints over one executor, an iteration of a connection in two
      steps.
    - [Config], [Isolation]: [config/*.go]; [isolation/*.go] except the system
      calls: profiles, startup checks, wrapped keys, sealed files, peer checks.
    - [StateFile], [Orchestrator], [OrchestratorCorrect], [OrchestratorPorts],
      [OrchestratorAccess]: [orchestrator/manager.go] and the files around it: the
      tenants as objects in a heap with a table of pointers, engines that are never
      forgotten, every answer from outside taken from an oracle; then the theorems
      on engines, ports, failover and keys.
    - [Ingress], [IngressCorrect]: [orchestrator/resp_proxy.go], [backend.go],
      [proxy.go]: the public port and the pool of connections to the engines.
    - [PubSub], [Workflow]: [events/*.go], [workflow/*.go], [util/backoff.go].
      [Cluster], [HashRing]: [cluster/*.go] and [orchestrator/hashring.go].
      [Cache]: [cache/*.go]. [Limits]: token buckets, tenant quotas and the audit
      buffer. [Replication] also has the lag monitor and the quorum.

    ** Conventions

    A handler is a function from its arguments and the state to its result and
    the new state; locks are dropped where one operation holds its lock for its
    whole body, and interleaving is explicit where the code interleaves (the
    log, two-phase commit, the broker, client schedules). Clock readings are
    arguments; in the executor and in recovery the readings of one command, or of
    one recovery, are one instant. Randomness (nonces, shuffles, the level of a
    graph node) is an argument. So is the order of a loop over a Go map where its
    result can show ([range_order], one for each loop); elsewhere it is that of
    [map_to_list]. What the file system does is an argument: [Env] says for each
    vector command which writes succeed, [wal_fault] whether a record of the log
    could not be sealed, not written, or not synced, in which case its frame may
    survive. A slice whose capacity exceeds the address space panics; running out of
    memory is not modelled. The operations of the orchestrator run one after another,
    except provisioning, whose critical sections interleave with them in
    [OrchestratorPorts].
    SHA-256 names of vector files and the hash of their metadata are functions
    passed in, with injectivity as a hypothesis where it is needed. [sort.Slice]
    is a stable sort; float products are rounded separately (no fused
    multiply-add); case folding is ASCII; VADDBIN reads little-endian floats; the
    text of a recovered panic is left out.

    Recursion that is not structural has fuel that is proved enough where it is
    used: the length of the heap or of the input bounds each loop, the number of
    rows bounds the search of a graph layer; [Dispatch] has depth two because a
    queue never holds an EXEC. The AES-GCM primitive is an argument.

    ** What the theorems show

    - Store: [kv_refines_map] (every exported operation refines one map),
      [reachable_tracked] and [reaper_exact] (every deadline is in the heap, the
      reaper removes exactly the dead entries), [matchGlob_correct].
    - Typed stores: functional behaviour of each command against the abstract
      payload, errors and frame included ([hash_store_correct] and the like),
      with the sorted-set invariant and the delivery of a stream to a group over a
      whole history ([xreadgroup_exactly_once]).
    - Wire and access control: round trip and bounds of the reader
      ([ReadCommand_WriteBytes], [ReadCommand_bounds]), [Enforce_iff].
    - The way of a command: [sessions_isolated] (a session of the public port
      belongs to a client with a valid key and has a connection of its own to the
      engine of that tenant) and [server_confined] (on an engine a key changes only
      by a command admitted for the user the connection acts as, or acted as when it
      queued the command, whose patterns cover the key, with the exemptions its
      comment names, under every interleaving of connections and changes of users).
    - Log: [wal_roundtrip], [wal_torn_tail], and [wal_crash_safe]: after a crash
      at any step a prefix of the written records is read back, with every synced
      one, and in mode always every acknowledged one, as long as the frames are
      within the limits of the reader.
    - Durability: [durable_recovery]: from a checkpoint and the records the log
      accepted after it, recovery rebuilds the values the commands left, for any
      history of durable commands over keys and strings that are [replayable];
      [write_stop]: a log that failed takes no more records.
    - Replication: [handshake_mutual], [stream_integrity], [replica_catches_up]
      (a replica that is connected and drained has the primary's values, for
      commands that log sets and deletions), [replica_agrees], [replica_unchanged].
    - Executor: [affected_keys_sound] (no command changes a key that
      [AffectedKeys] does not name).
    - Vectors: [hnsw_validates], [hnsw_search], [row_roundtrip], [index_search]
      (with the panic of a very large K), [index_refines] (also when metadata,
      growth and compactions fail), [vectors_simulate] (the store refines one map of
      names to vectors per key while only growth fails), and
      [vector_commands_durable]: any sequence of vector commands other than
      migrations survives a crash through the log, given files that can be written
      and room in the quota.
    - Orchestrator: [engines_served] (every registered engine is live, on the
      directory of its tenant, and registered once), [ports_unique],
      [promote_correct], [keys_correct] (with the poll by which an engine learns of
      keys it was not told of), [state_file_crash_safe] (the state in its file, only
      in the backup, or nowhere yet).
    - Configuration and isolation: [parse_bytes_exact], [validate_sound],
      [envelope_keys], [production_sealed] (startup checks, and what [Listen] hands
      over).
    - Supporting parts: the ring partitions the slots, failed nodes are found,
      the cache refines a recency list and its loop ends, no job starves, delivery
      of published messages.
    - Examples that pin down behaviour which differs from what the code means to
      do, among others [px_subsecond_never_expires], [matchGlob_star_in_key],
      [xread_count_stuck], [xreadgroup_loses_tenth], [zset_nan_ghost],
      [acl_key_gap], [two_pc_commit_unguarded], [watch_never_aborts],
      [migration_blocks_recovery], [compaction_is_not_replayed],
      [bootstrap_overwrites_live], [provision_race], [promoted_directory_shared],
      [failed_revoke_unrevokes], [replies_lost], [queued_before_role_change],
      [refused_write_recovered], [empty_value_recovers_nil], [search_inserts_entry],
      [narrow_search_misses], [stat_error_replaces_key], [second_crash_loses_state].

    ** Not modelled

    The geo index (trigonometric functions) and the JSON document paths (a JSON
    library); the file formats of checkpoints, stored graphs and backup archives
    (gob, zip), segments of the log; the Raft library and its adapters; the
    sandboxing system calls (landlock, seccomp, cgroups); starting and listening
    of the processes, TLS, the administrative and support HTTP APIs, metrics and
    logging; the command-line programs and benchmarks. They are input and output
    around the modelled parts, or third-party code. *)

From stdpp Require Export base tactics list gmap fin_maps strings sorting.
From Stdlib Require Export ZArith Lia.
From Stdlib Require Import Strings.Byte Strings.Ascii.

Declare Scope go_scope.
Delimit Scope go_scope with go.
Open Scope Z_scope.

(** ** Machine integers

    Go's fixed-width integers are values of [Z]; every operation of the source
    that can leave the width is followed by the wrap-around below. *)
Definition u8 (z : Z) : Z := z mod 2 ^ 8.
Definition u16 (z : Z) : Z := z mod 2 ^ 16.
Definition u32 (z : Z) : Z := z mod 2 ^ 32.
Definition u64 (z : Z) : Z := z mod 2 ^ 64.
Definition i64 (z : Z) : Z := (z + 2 ^ 63) mod 2 ^ 64 - 2 ^ 63.

Definition MaxInt64 : Z := 2 ^ 63 - 1.
Definition MinInt64 : Z := - 2 ^ 63.
Definition in_i64 (z : Z) : Prop := MinInt64 ≤ z ≤ MaxInt64.
Definition in_i64b (z : Z) : bool := (MinInt64 <=? z) && (z <=? MaxInt64).

Lemma in_i64b_spec z : in_i64b z = true ↔ in_i64 z.
Proof. unfold in_i64b, in_i64. rewrite andb_true_iff, !Z.leb_le. done. Qed.

Lemma i64_id z : in_i64 z → i64 z = z.
Proof. unfold in_i64, MinInt64, MaxInt64, i64. intros. rewrite Z.mod_small; lia. Qed.

Lemma i64_in z : in_i64 (i64 z).
Proof.
  unfold in_i64, MinInt64, MaxInt64, i64.
  pose proof (Z.mod_pos_bound (z + 2 ^ 63) (2 ^ 64)). lia.
Qed.

Lemma u64_id z : 0 ≤ z < 2 ^ 64 → u64 z = z.
Proof. intros. unfold u64. by apply Z.mod_small. Qed.

(** Reinterpreting a 64-bit word as signed and back ([int64(uint64(v))]). *)
Lemma i64_u64 z : in_i64 z → i64 (u64 z) = z.
Proof.
  intros Hz. rewrite <- (i64_id z Hz) at 2. unfold i64, u64.
  rewrite Zplus_mod_idemp_l. done.
Qed.

(** ** Bytes, byte slices and strings

    A Go [string] is a Rocq [string] (a sequence of 8-bit characters), a Go
    [[]byte] is an [option (list byte)]: [None] is the nil slice, which the
    RESP writer and several handlers tell apart from the empty one. *)
Abbreviation byte := Byte.byte.

#[export] Instance byte_eq_dec : EqDecision byte := Byte.byte_eq_dec.

#[export] Program Instance byte_countable : Countable byte :=
  inj_countable Byte.to_N Byte.of_N _.
Next Obligation. intros b. apply Byte.of_to_N. Qed.

#[export] Instance byte_inhabited : Inhabited byte := populate Byte.x00.

Definition b2z (b : byte) : Z := Z.of_N (Byte.to_N b).
Definition z2b (z : Z) : byte :=
  match Byte.of_N (Z.to_N (u8 z)) with Some b => b | None => Byte.x00 end.

Lemma b2z_range b : 0 ≤ b2z b < 256.
Proof.
  unfold b2z. pose proof (Byte.to_N_bounded b). split; [lia|].
  change 256 with (Z.of_N 256). apply N2Z.inj_lt. lia.
Qed.

Lemma b2z_inj b1 b2 : b2z b1 = b2z b2 → b1 = b2.
Proof.
  unfold b2z. intros H%N2Z.inj.
  pose proof (Byte.of_to_N b1). pose proof (Byte.of_to_N b2). congruence.
Qed.

Lemma b2z_z2b z : b2z (z2b z) = u8 z.
Proof.
  unfold z2b. pose proof (Z.mod_pos_bound z (2 ^ 8)) as Hr. fold (u8 z) in Hr.
  destruct (Byte.of_N (Z.to_N (u8 z))) as [b|] eqn:E.
  - apply Byte.to_of_N in E. unfold b2z. rewrite E. lia.
  - apply Byte.of_N_None_iff in E. lia.
Qed.

Lemma z2b_b2z b : z2b (b2z b) = b.
Proof.
  apply b2z_inj. rewrite b2z_z2b. unfold u8. pose proof (b2z_range b).
  apply Z.mod_small. lia.
Qed.

Abbreviation slice := (option (list byte)).

(** The elements of a slice; reading a nil slice is reading an empty one. *)
Definition contents (s : slice) : list byte := default [] s.
Definition slen (s : slice) : Z := Z.of_nat (length (contents s)).

(** [append(s, xs...)]: nil stays nil when nothing is appended. *)
Definition sappend (s : slice) (xs : list byte) : slice :=
  match s, xs with
  | None, [] => None
  | _, _ => Some (contents s ++ xs)
  end.

Lemma contents_sappend s xs : contents (sappend s xs) = contents s ++ xs.
Proof. by destruct s, xs. Qed.

(** [append([]byte(nil), v...)], the copy idiom of the source. *)
Definition scopy (v : slice) : slice := sappend None (contents v).

Lemma contents_scopy v : contents (scopy v) = contents v.
Proof. unfold scopy. by rewrite contents_sappend. Qed.

(** The conversions [[]byte(s)] and [string(b)]. *)
Definition bytes_of (s : string) : list byte := String.list_byte_of_string s.
Definition str_of (l : list byte) : string := String.string_of_list_byte l.
Definition to_str (s : slice) : string := str_of (contents s).
Definition to_slice (s : string) : slice := Some (bytes_of s).

Lemma str_of_bytes_of s : str_of (bytes_of s) = s.
Proof. apply String.string_of_list_byte_of_string. Qed.

Lemma bytes_of_str_of l : bytes_of (str_of l) = l.
Proof. apply String.list_byte_of_string_of_list_byte. Qed.

#[export] Instance bytes_of_inj : Inj (=) (=) bytes_of.
Proof.
  intros s1 s2 H. by rewrite <- (str_of_bytes_of s1), H, str_of_bytes_of.
Qed.

Definition strlen (s : string) : Z := Z.of_nat (String.length s).

Lemma length_bytes_of s : length (bytes_of s) = String.length s.
Proof.
  unfold bytes_of, String.list_byte_of_string.
  rewrite length_map. by induction s; simpl; f_equal.
Qed.

(** ** Results

    An operation of the source either returns a value, returns an error, or
    panics (an index out of range, a type assertion that fails). *)
Inductive res (E A : Type) : Type :=
| Ok (a : A)
| Err (e : E)
| Panic.
Arguments Ok {E A} a.
Arguments Err {E A} e.
Arguments Panic {E A}.

#[export] Instance res_eq_dec {E A} `{EqDecision E} `{EqDecision A} : EqDecision (res E A).
Proof.
  intros [a|e|] [b|e'|]; try (right; discriminate); [| |by left].
  - destruct (decide (a = b)) as [->|]; [by left|right; congruence].
  - destruct (decide (e = e')) as [->|]; [by left|right; congruence].
Defined.

Definition rbind {E A B} (r : res E A) (k : A → res E B) : res E B :=
  match r with Ok a => k a | Err e => Err e | Panic => Panic end.

Notation "'let?' x := c 'in' k" := (rbind c (fun x => k))
  (at level 10, x pattern, c at level 100, k at level 200) : go_scope.
Open Scope go_scope.

Lemma rbind_Ok {E A B} (r : res E A) (k : A → res E B) b :
  rbind r k = Ok b ↔ ∃ a, r = Ok a ∧ k a = Ok b.
Proof.
  destruct r as [a|e|]; simpl; split.
  - intros H. by exists a.
  - by intros (a' & [= ->] & H).
  - done.
  - by intros (a' & [=] & _).
  - done.
  - by intros (a' & [=] & _).
Qed.

(** ** Automation *)

(** Case analysis on the booleans and matches the handlers branch on. *)
Ltac case_if :=
  match goal with
  | |- context [if ?b then _ else _] => let E := fresh "E" in destruct b eqn:E
  | H : context [if ?b then _ else _] |- _ => let E := fresh "E" in destruct b eqn:E
  end.

(** Turn boolean comparisons in the context into propositions. *)
Ltac bool_to_prop :=
  repeat match goal with
  | H : (_ && _)%bool = true |- _ => apply andb_true_iff in H as [? ?]
  | H : (_ || _)%bool = false |- _ => apply orb_false_iff in H as [? ?]
  | H : negb _ = true |- _ => apply negb_true_iff in H
  | H : negb _ = false |- _ => apply negb_false_iff in H
  | H : (_ <? _) = true |- _ => apply Z.ltb_lt in H
  | H : (_ <? _) = false |- _ => apply Z.ltb_ge in H
  | H : (_ <=? _) = true |- _ => apply Z.leb_le in H
  | H : (_ <=? _) = false |- _ => apply Z.leb_gt in H
  | H : (_ >? _) = true |- _ => rewrite Z.gtb_ltb in H; apply Z.ltb_lt in H
  | H : (_ >? _) = false |- _ => rewrite Z.gtb_ltb in H; apply Z.ltb_ge in H
  | H : (_ >=? _) = true |- _ => rewrite Z.geb_leb in H; apply Z.leb_le in H
  | H : (_ >=? _) = false |- _ => rewrite Z.geb_leb in H; apply Z.leb_gt in H
  | H : (_ =? _) = true |- _ => apply Z.eqb_eq in H
  | H : (_ =? _) = false |- _ => apply Z.eqb_neq in H
  | H : bool_decide _ = true |- _ => apply bool_decide_eq_true in H
  | H : bool_decide _ = false |- _ => apply bool_decide_eq_false in H
  end.

(** Evaluate closed boolean side conditions. *)
Ltac crush := repeat (case_if; bool_to_prop; simplify_eq/=; try lia; try done).

(** Split a conjunction without unfolding its conjuncts. *)
Ltac conjs := repeat match goal with |- _ ∧ _ => split end.

Create HintDb dbx.
Create Rewrite HintDb dbx.
#[export] Hint Resolve b2z_range i64_in : dbx.
#[export] Hint Rewrite contents_sappend contents_scopy str_of_bytes_of bytes_of_str_of
  length_bytes_of b2z_z2b z2b_b2z : dbx.

(** ** Lists *)

(** Go's slice expression [l[i:j]], for indices already checked by the code. *)
Definition sub {A} (l : list A) (i j : Z) : list A :=
  take (Z.to_nat (j - i)) (drop (Z.to_nat i) l).

Definition zlen {A} (l : list A) : Z := Z.of_nat (length l).

Lemma zlen_nonneg {A} (l : list A) : 0 ≤ zlen l.
Proof. unfold zlen. lia. Qed.

Lemma zlen_app {A} (l k : list A) : zlen (l ++ k) = zlen l + zlen k.
Proof. unfold zlen. rewrite length_app. lia. Qed.

Lemma length_sub {A} (l : list A) i j :
  0 ≤ i ≤ j → j ≤ zlen l → zlen (sub l i j) = j - i.
Proof. unfold zlen, sub. intros. rewrite length_take, length_drop. lia. Qed.

Lemma lookup_sub {A} (l : list A) i j (k : nat) :
  0 ≤ i → (Z.of_nat k < j - i) → sub l i j !! k = l !! (Z.to_nat i + k)%nat.
Proof. intros. unfold sub. rewrite lookup_take_lt by lia. apply lookup_drop. Qed.

#[export] Hint Rewrite @zlen_app : dbx.

Lemma nltb_false a b : (b ≤ a)%nat → (a <? b)%nat = false.
Proof. apply Nat.ltb_ge. Qed.

Lemma nltb_true a b : (a < b)%nat → (a <? b)%nat = true.
Proof. apply Nat.ltb_lt. Qed.

(** The index arithmetic shared by the range commands of the engine: negative
    indices count from the end, then both ends are clamped to the sequence. *)
Definition clamp_range (n start stop : Z) : Z * Z :=
  let start := if start <? 0 then n + start else start in
  let stop := if stop <? 0 then n + stop else stop in
  let start := if start <? 0 then 0 else start in
  let stop := if n <=? stop then n - 1 else stop in
  (start, stop).

(** A possibly negative index as a position. *)
Definition norm_index (n i : Z) : Z := if i <? 0 then n + i else i.

Lemma clamp_range_spec n start stop :
  0 ≤ n →
  let '(a, b) := clamp_range n start stop in
  0 ≤ a ∧ b < n ∧
  ∀ i, a ≤ i ≤ b ↔ 0 ≤ i < n ∧ norm_index n start ≤ i ≤ norm_index n stop.
Proof.
  intros Hn. unfold clamp_range, norm_index.
  destruct (start <? 0) eqn:E1, (stop <? 0) eqn:E2; bool_to_prop;
    repeat match goal with |- context [if ?b then _ else _] => destruct b eqn:? end;
    bool_to_prop; (split; [lia|split; [lia|intros i; lia]]).
Qed.

(** The elements a range command selects: those whose position lies between
    the two normalised indices, in order. *)
Definition range_spec {A} (l : list A) (start stop : Z) (r : list A) : Prop :=
  ∃ a, 0 ≤ a ∧ r = take (length r) (drop (Z.to_nat a) l) ∧
    ∀ i, (a ≤ i < a + zlen r ↔
          0 ≤ i < zlen l ∧ norm_index (zlen l) start ≤ i ≤ norm_index (zlen l) stop).

Lemma clamp_range_sub {A} (l : list A) start stop a b :
  clamp_range (zlen l) start stop = (a, b) →
  range_spec l start stop (if b <? a then [] else sub l a (b + 1)).
Proof.
  intros Hc. pose proof (clamp_range_spec (zlen l) start stop (zlen_nonneg l)) as Hs.
  rewrite Hc in Hs. destruct Hs as (Ha & Hb & Hi). exists a. split; [done|].
  destruct (b <? a) eqn:E; bool_to_prop.
  { split; [done|]. intros i. rewrite <- Hi. change (@zlen A []) with 0. lia. }
  assert (Hl : zlen (sub l a (b + 1)) = b + 1 - a) by (apply length_sub; lia).
  split; [|intros i; rewrite <- Hi, Hl; lia].
  unfold sub at 1. f_equal. unfold zlen in Hl. lia.
Qed.

(** The common tail of the range commands. *)
Definition range_of {A} (start stop : Z) (l : list A) : list A :=
  let '(start, stop) := clamp_range (zlen l) start stop in
  if start >? stop then [] else sub l start (stop + 1).

Lemma range_of_spec {A} start stop (l : list A) : range_spec l start stop (range_of start stop l).
Proof.
  unfold range_of. destruct (clamp_range _ _ _) as [a b] eqn:E. rewrite Z.gtb_ltb.
  by apply clamp_range_sub.
Qed.

Lemma range_of_nil {A} start stop : range_of start stop (@nil A) = [].
Proof.
  destruct (range_of_spec start stop (@nil A)) as (a & _ & Hl & _).
  by rewrite drop_nil, take_nil in Hl.
Qed.

(** A fold over a list whose step preserves an invariant preserves it. *)
Lemma foldl_invariant {A B} (P : A → Prop) (f : A → B → A) l a :
  P a → (∀ a b, b ∈ l → P a → P (f a b)) → P (foldl f a l).
Proof.
  revert a. induction l as [|b l IH]; intros a Ha Hf; simpl; [done|].
  apply IH; [apply Hf; [left|done]|]. intros a' b' Hb. apply Hf. by right.
Qed.

(** Positions of a strongly sorted list are in order. *)
Lemma StronglySorted_lookup {A} (R : A → A → Prop) l (i j : nat) x y :
  StronglySorted R l → (i < j)%nat → l !! i = Some x → l !! j = Some y → R x y.
Proof.
  intros Hs. revert i j. induction Hs as [|a l _ IH Ha]; intros [|i] [|j] Hij Hi Hj;
    simplify_eq/=; try lia.
  - by eapply Forall_lookup_1 in Ha.
  - by eapply (IH i j); [lia|..].
Qed.

Lemma StronglySorted_filter {A} (R : A → A → Prop) (f : A → bool) l :
  StronglySorted R l → StronglySorted R (List.filter f l).
Proof.
  intros Hs. induction Hs as [|a l _ IH Ha]; cbn [List.filter]; [constructor|].
  destruct (f a); [|done]. constructor; [done|]. rewrite Forall_forall in Ha |- *.
  intros x [Hx _]%list_elem_of_In%filter_In. by apply Ha, list_elem_of_In.
Qed.

(** A filter that every element passes changes nothing. *)
Lemma list_filter_all {A} (P : A → Prop) `{∀ x, Decision (P x)} (l : list A) :
  (∀ x, x ∈ l → P x) → filter P l = l.
Proof.
  induction l as [|x l IH]; intros Hl; [done|].
  rewrite filter_cons_True by (apply Hl; left). by rewrite IH by (intros; apply Hl; by right).
Qed.

Lemma mjoin_app {A} (a b : list (list A)) : mjoin (a ++ b) = mjoin a ++ mjoin b.
Proof.
  induction a as [|x a IH]; [done|]. cbn [app]. change (mjoin (?x :: ?l)) with (x ++ mjoin l).
  by rewrite IH, app_assoc.
Qed.

(** ** The order of Go strings *)
Lemma String_ltb_irrefl a : String.ltb a a = false.
Proof.
  unfold String.ltb. destruct (String.compare a a) eqn:E; [done| |done].
  pose proof (String.compare_antisym a a) as Ha. by rewrite E in Ha.
Qed.

Lemma String_ltb_trans a b c : String.ltb a b = true → String.ltb b c = true → String.ltb a c = true.
Proof.
  assert (Hl : ∀ x y, String.ltb x y = true ↔ String.le x y ∧ x ≠ y).
  { intros x y. unfold String.ltb, String.le, String.leb. split.
    - destruct (String.compare x y) eqn:E; [done| |done]. intros _. split; [done|]. intros ->.
      pose proof (String_ltb_irrefl y) as Hi. unfold String.ltb in Hi. by rewrite E in Hi.
    - intros [Hle Hne]. destruct (String.compare x y) eqn:E; [|done|done].
      by apply String.compare_eq_iff in E. }
  rewrite !Hl. intros [H1 N1] [H2 N2]. split; [by etrans|]. intros ->.
  apply N1. by apply (anti_symm String.le).
Qed.

Lemma String_ltb_total a b : String.ltb a b = false → a ≠ b → String.ltb b a = true.
Proof.
  unfold String.ltb. rewrite (String.compare_antisym b a).
  destruct (String.compare a b) eqn:E; cbn [CompOpp]; [|done|done].
  apply String.compare_eq_iff in E. by intros _ Hne.
Qed.
