(* ===== verification/GoStd.v ===== *)
(** * The parts of Go's standard library the DBX sources call

    The order of [range] over a map, [strconv.ParseInt]/[FormatInt]/[Atoi], [strings.ToUpper]/[HasPrefix]/
    [TrimSuffix], [sort.Search], [encoding/binary] in both byte orders and
    [hash/crc32] (IEEE), each written as the algorithm of the library, with the
    lemmas the components share. *)

From S2P Require Import Prelude.
From Stdlib Require Import Strings.Byte.

(** ** range over a map

    A loop over a Go map visits its pairs in an order the runtime picks anew for
    each loop. A definition whose answer shows the order takes it as an argument:
    any rearrangement of the pairs. *)
Record range_order := {
  ord_list : ∀ {A : Type}, list A → list A;
  ord_perm : ∀ {A : Type} (l : list A), ord_list l ≡ₚ l
}.

(** Two of the orders. *)
Definition forwards : range_order := {| ord_list := λ _ l, l; ord_perm := λ _ l, Permutation_refl l |}.
Definition backwards : range_order :=
  {| ord_list := @reverse; ord_perm := λ _ l, reverse_Permutation l |}.

(** ** strconv *)
Inductive NumError := ErrSyntaxNum | ErrRangeNum.

#[export] Instance NumError_eq_dec : EqDecision NumError.
Proof. solve_decision. Defined.

Definition maxUint64 : Z := 2 ^ 64 - 1.

(** The digit loop of [ParseUint(s, 10, 64)], from the accumulator [n]. *)
Fixpoint parse_uint (l : list byte) (n : Z) : Z * option NumError :=
  match l with
  | [] => (n, None)
  | c :: l' =>
      let d := b2z c - 48 in
      if negb ((0 <=? d) && (d <=? 9)) then (0, Some ErrSyntaxNum)
      else if maxUint64 / 10 + 1 <=? n then (maxUint64, Some ErrRangeNum)
      else if maxUint64 <? n * 10 + d then (maxUint64, Some ErrRangeNum)
      else parse_uint l' (n * 10 + d)
  end.

Definition ParseUint (l : list byte) : Z * option NumError :=
  match l with [] => (0, Some ErrSyntaxNum) | _ => parse_uint l 0 end.

(** [ParseInt(s, 10, 64)]: the value is meaningful on a range error too (the
    nearest bound), and callers that drop the error use it. *)
Definition ParseInt (s : string) : Z * option NumError :=
  let l := bytes_of s in
  let '(neg, digits) :=
    match l with
    | Byte.x2b :: l' => (false, l')
    | Byte.x2d :: l' => (true, l')
    | _ => (false, l)
    end in
  match l with
  | [] => (0, Some ErrSyntaxNum)
  | _ =>
      match ParseUint digits with
      | (_, Some ErrSyntaxNum) => (0, Some ErrSyntaxNum)
      | (un, _) =>
          if negb neg && (2 ^ 63 <=? un) then (MaxInt64, Some ErrRangeNum)
          else if neg && (2 ^ 63 <? un) then (MinInt64, Some ErrRangeNum)
          else (if neg then - un else un, None)
      end
  end.

Definition Atoi (s : string) : Z * option NumError := ParseInt s.

(** [n, err := ParseInt(..)] with the error turned into an option. *)
Definition ParseInt_ok (s : string) : option Z :=
  match ParseInt s with (n, None) => Some n | (_, Some _) => None end.

(** The digits of a non-negative [u], most significant first; [fuel] bounds the
    number of digits, and twenty are enough for 64 bits. *)
Fixpoint format_uint (fuel : nat) (u : Z) (acc : list byte) : list byte :=
  match fuel with
  | O => acc
  | S fuel' =>
      if u <? 10 then z2b (48 + u) :: acc
      else format_uint fuel' (u / 10) (z2b (48 + u mod 10) :: acc)
  end.

Definition FormatInt (n : Z) : string :=
  str_of (if n <? 0 then Byte.x2d :: format_uint 20 (- n) [] else format_uint 20 n []).

Lemma digit_byte d : 0 ≤ d ≤ 9 → b2z (z2b (48 + d)) - 48 = d.
Proof. intros. rewrite b2z_z2b. unfold u8. rewrite Z.mod_small; lia. Qed.

Lemma parse_uint_digit d l n :
  0 ≤ d ≤ 9 → 0 ≤ n → n * 10 + d ≤ maxUint64 →
  parse_uint (z2b (48 + d) :: l) n = parse_uint l (n * 10 + d).
Proof.
  intros Hd Hn Hmax. cbn [parse_uint]. rewrite digit_byte by done.
  unfold maxUint64 in *. change ((2 ^ 64 - 1) / 10 + 1) with 1844674407370955162.
  replace ((0 <=? d) && (d <=? 9))%bool with true by lia. cbn [negb].
  destruct (_ <=? n) eqn:E1; bool_to_prop; [lia|].
  destruct (_ <? _) eqn:E2; bool_to_prop; [lia|done].
Qed.

Lemma parse_format_uint fuel u acc :
  0 ≤ u ≤ maxUint64 → u < 10 ^ Z.of_nat fuel →
  parse_uint (format_uint fuel u acc) 0 = parse_uint acc u.
Proof.
  revert u acc. induction fuel as [|fuel IH]; intros u acc Hu Hf.
  { change (10 ^ Z.of_nat 0) with 1 in Hf. simpl. f_equal. lia. }
  cbn [format_uint]. destruct (u <? 10) eqn:E; bool_to_prop.
  { rewrite parse_uint_digit by lia. f_equal; lia. }
  assert (Hdiv : 0 ≤ u / 10 ≤ u) by
    (split; [apply Z.div_pos|apply Z.div_le_upper_bound]; lia).
  pose proof (Z.div_mod u 10) as Hdm. pose proof (Z.mod_pos_bound u 10).
  rewrite IH; [|lia|]; cycle 1.
  { apply Z.div_lt_upper_bound; [lia|].
    rewrite Nat2Z.inj_succ, Z.pow_succ_r in Hf; lia. }
  rewrite parse_uint_digit by lia. f_equal. lia.
Qed.

Lemma format_uint_cons fuel u acc :
  0 ≤ u → ∃ d l, format_uint (S fuel) u acc = z2b (48 + d) :: l ∧ 0 ≤ d ≤ 9.
Proof.
  revert u acc. induction fuel as [|fuel IH]; intros u acc Hu.
  - cbn. destruct (u <? 10) eqn:E; bool_to_prop; [by exists u, acc; auto with lia|].
    pose proof (Z.mod_pos_bound u 10). exists (u mod 10), acc. split; [done|lia].
  - remember (S fuel) as f. cbn. destruct (u <? 10) eqn:E; bool_to_prop.
    + exists u, acc. auto with lia.
    + subst f. apply IH. apply Z.div_pos; lia.
Qed.

Lemma ParseUint_format u :
  0 ≤ u ≤ maxUint64 → ParseUint (format_uint 20 u []) = (u, None).
Proof.
  intros Hu. unfold ParseUint.
  destruct (format_uint_cons 19 u []) as (d & l & E & _); [lia|].
  rewrite E. rewrite <- E, parse_format_uint; [done|lia|].
  unfold maxUint64 in Hu. change (10 ^ Z.of_nat 20) with 100000000000000000000. lia.
Qed.

Lemma digit_not_sign d :
  0 ≤ d ≤ 9 → z2b (48 + d) ≠ Byte.x2b ∧ z2b (48 + d) ≠ Byte.x2d.
Proof.
  intros Hd. pose proof (digit_byte d Hd) as E.
  split; intros H; rewrite H in E; vm_compute in E; lia.
Qed.

Lemma ParseInt_FormatInt n : in_i64 n → ParseInt (FormatInt n) = (n, None).
Proof.
  unfold in_i64, MinInt64, MaxInt64, ParseInt, FormatInt. intros Hn.
  rewrite bytes_of_str_of. destruct (n <? 0) eqn:E; bool_to_prop.
  - rewrite ParseUint_format by (unfold maxUint64; lia). cbn [negb andb].
    destruct (2 ^ 63 <? - n) eqn:E2; bool_to_prop; [lia|]. f_equal. lia.
  - destruct (format_uint_cons 19 n []) as (d & l & El & Hd); [lia|].
    destruct (digit_not_sign d Hd) as [H1 H2].
    assert (match format_uint 20 n [] with
      | Byte.x2b :: l' => (false, l') | Byte.x2d :: l' => (true, l')
      | _ => (false, format_uint 20 n []) end = (false, format_uint 20 n [])) as ->.
    { rewrite El. destruct (z2b (48 + d)); done. }
    rewrite ParseUint_format by (unfold maxUint64; lia). cbn [negb andb].
    rewrite El. destruct (2 ^ 63 <=? n) eqn:E2; bool_to_prop; [lia|done].
Qed.

(** ** strings *)

(** [strings.ToUpper] on ASCII text, the alphabet of the command names. *)
Definition upper_byte (b : byte) : byte :=
  let z := b2z b in if (97 <=? z) && (z <=? 122) then z2b (z - 32) else b.
Definition ToUpper (s : string) : string := str_of (map upper_byte (bytes_of s)).

Lemma upper_byte_idem b : upper_byte (upper_byte b) = upper_byte b.
Proof. by destruct b. Qed.

Lemma ToUpper_idem s : ToUpper (ToUpper s) = ToUpper s.
Proof.
  unfold ToUpper. rewrite bytes_of_str_of, map_map. f_equal.
  apply map_ext. apply upper_byte_idem.
Qed.

Lemma bytes_of_append (s t : string) : bytes_of (s ++ t)%string = bytes_of s ++ bytes_of t.
Proof. unfold bytes_of, String.list_byte_of_string. rewrite <- map_app. f_equal. induction s as [|c s IH]; [done|]. exact (f_equal (cons c) IH). Qed.

(** [strings.ToLower] on ASCII text. *)
Definition lower_byte (b : byte) : byte :=
  if (65 <=? b2z b) && (b2z b <=? 90) then z2b (b2z b + 32) else b.
Definition ToLower (s : string) : string := str_of (map lower_byte (bytes_of s)).

Definition HasPrefix (s prefix : string) : bool := String.prefix prefix s.

Fixpoint has_prefix (p l : list byte) : bool :=
  match p, l with
  | [], _ => true
  | a :: p, b :: l => bool_decide (a = b) && has_prefix p l
  | _, [] => false
  end.

(** [strings.TrimSpace]: the white space of Unicode, in UTF-8. *)
Definition spaces : list (list byte) :=
  (map (λ c, [z2b c]) [9; 10; 11; 12; 13; 32]) ++ map (map z2b)
    ([[194; 133]; [194; 160]; [225; 154; 128]; [226; 128; 168]; [226; 128; 169]; [226; 128; 175]; [226; 129; 159]; [227; 128; 128]]
     ++ map (λ c, [226; 128; 128 + Z.of_nat c]) (List.seq 0 11)).
Fixpoint trim_left (fuel : nat) (ps : list (list byte)) (l : list byte) : list byte :=
  match fuel with
  | O => l
  | S fuel => match List.find (λ p, has_prefix p l) ps with Some p => trim_left fuel ps (drop (length p) l) | None => l end
  end.
Definition TrimSpace (s : string) : string :=
  let l := trim_left (length (bytes_of s)) spaces (bytes_of s) in
  str_of (rev (trim_left (length l) (map (@rev byte) spaces) (rev l))).

(** [%q] of a string that needs no escape. *)
Definition quoted (s : string) : string := str_of (z2b 34 :: bytes_of s ++ [z2b 34]).

(** [strings.TrimSuffix(s, "*")] *)
Definition TrimSuffix_star (s : string) : string :=
  match rev (bytes_of s) with
  | Byte.x2a :: l => str_of (rev l)
  | _ => s
  end.

(** ** sort.Search: the smallest index at which [f] holds, by bisection *)
Fixpoint search_loop (fuel : nat) (i j : nat) (f : nat → bool) : nat :=
  match fuel with
  | O => i
  | S fuel' =>
      if (i <? j)%nat then
        let h := Nat.div2 (i + j) in
        if f h then search_loop fuel' i h f else search_loop fuel' (S h) j f
      else i
  end.
Definition sort_Search (n : nat) (f : nat → bool) : nat := search_loop n 0 n f.

Lemma search_loop_spec (f : nat → bool) fuel i j :
  (∀ a b, (a ≤ b)%nat → f a = true → f b = true) →
  (i ≤ j)%nat → (j - i ≤ fuel)%nat →
  let r := search_loop fuel i j f in
  (i ≤ r ≤ j)%nat ∧ (∀ k, (i ≤ k < r)%nat → f k = false) ∧ ((r < j)%nat → f r = true).
Proof.
  intros Hmono. revert i j. induction fuel as [|fuel IH]; intros i j Hij Hf;
    cbn [search_loop]; cbv zeta.
  { repeat split; intros; lia. }
  destruct (Nat.ltb_spec i j) as [Hlt|Hge]; [|repeat split; intros; lia].
  pose proof (Nat.div2_div (i + j)) as Hd.
  assert (i ≤ Nat.div2 (i + j) < j)%nat as Hh.
  { rewrite Hd. pose proof (Nat.div_mod_eq (i + j) 2).
    pose proof (Nat.mod_upper_bound (i + j) 2). lia. }
  destruct (f (Nat.div2 (i + j))) eqn:E.
  - destruct (IH i (Nat.div2 (i + j))) as (H1 & H2 & H3); [lia..|].
    repeat split; [lia..|done|]. intros _.
    destruct (decide (search_loop fuel i (Nat.div2 (i + j)) f < Nat.div2 (i + j))%nat);
      [auto|]. by eapply Hmono, E; lia.
  - destruct (IH (S (Nat.div2 (i + j))) j) as (H1 & H2 & H3); [lia..|].
    repeat split; [lia..| |done]. intros k Hk.
    destruct (decide (k ≤ Nat.div2 (i + j))%nat).
    + destruct (f k) eqn:Ek; [|done]. by rewrite (Hmono k (Nat.div2 (i + j))) in E.
    + apply H2. lia.
Qed.

Lemma sort_Search_spec n f :
  (∀ a b, (a ≤ b)%nat → f a = true → f b = true) →
  let r := sort_Search n f in
  (r ≤ n)%nat ∧ (∀ k, (k < r)%nat → f k = false) ∧ (∀ k, (r ≤ k < n)%nat → f k = true).
Proof.
  intros Hmono. destruct (search_loop_spec f n 0 n Hmono) as (H1 & H2 & H3); [lia..|].
  fold (sort_Search n f) in *. cbn. repeat split; [lia| |].
  - intros k Hk. apply H2. lia.
  - intros k Hk. eapply Hmono, H3; lia.
Qed.

Lemma parse_uint_nonneg l n : 0 ≤ n → 0 ≤ fst (parse_uint l n).
Proof.
  revert n. induction l as [|c l IH]; intros n Hn; cbn [parse_uint]; [done|].
  destruct (negb _) eqn:E1; [done|]. destruct (_ <=? n); [done|]. destruct (_ <? _); [done|].
  apply IH. bool_to_prop. lia.
Qed.

Lemma ParseInt_ok_range s n : ParseInt_ok s = Some n → in_i64 n.
Proof.
  unfold ParseInt_ok, ParseInt, in_i64, MinInt64, MaxInt64.
  destruct (match bytes_of s with Byte.x2b :: _ => _ | _ => _ end) as [neg digits].
  destruct (bytes_of s) as [|b0 l0]; [done|].
  assert (0 ≤ fst (ParseUint digits)) as Hu by (destruct digits; [done|by apply parse_uint_nonneg]).
  destruct (ParseUint digits) as [un [[]|]]; cbn [fst] in Hu; [done| |];
    (destruct (negb neg && _) eqn:E1; [done|]; destruct (neg && _) eqn:E2; [done|]);
    intros [= <-]; destruct neg; cbn in E1, E2; bool_to_prop; lia.
Qed.

(** ** encoding/binary *)
Fixpoint be_put (n : nat) (z : Z) : list byte :=
  match n with O => [] | S n' => be_put n' (z / 256) ++ [z2b z] end.
Definition be_get (l : list byte) : Z := foldl (fun acc b => acc * 256 + b2z b) 0 l.
Definition le_put (n : nat) (z : Z) : list byte := rev (be_put n z).
Definition le_get (l : list byte) : Z := be_get (rev l).

Lemma length_be_put n z : length (be_put n z) = n.
Proof. revert z. induction n; intros; cbn; [done|]. rewrite length_app, IHn. cbn. lia. Qed.

Lemma be_get_snoc l b : be_get (l ++ [b]) = be_get l * 256 + b2z b.
Proof. unfold be_get. by rewrite foldl_app. Qed.

Lemma be_get_put n z : be_get (be_put n z) = z mod 256 ^ Z.of_nat n.
Proof.
  revert z. induction n as [|n IH]; intros z; cbn [be_put].
  { cbn. by rewrite Z.mod_1_r. }
  rewrite be_get_snoc, IH, b2z_z2b, Nat2Z.inj_succ, Z.pow_succ_r by lia.
  unfold u8. change (2 ^ 8) with 256.
  rewrite (Z.rem_mul_r z 256) by (try apply Z.pow_pos_nonneg; lia). lia.
Qed.

Lemma be_get_range l : 0 ≤ be_get l < 256 ^ zlen l.
Proof.
  induction l as [|b l IH] using rev_ind; [done|].
  rewrite be_get_snoc, zlen_app, Z.pow_add_r by (unfold zlen; lia).
  change (256 ^ zlen [b]) with 256. pose proof (b2z_range b). lia.
Qed.

Lemma be_put_get l : be_put (length l) (be_get l) = l.
Proof.
  induction l as [|b l IH] using rev_ind; [done|].
  rewrite length_app, Nat.add_1_r. cbn [be_put]. rewrite be_get_snoc.
  pose proof (b2z_range b). f_equal.
  - rewrite Z.div_add_l, Z.div_small, Z.add_0_r; [done|lia..].
  - f_equal. apply b2z_inj. rewrite b2z_z2b. unfold u8. change (2 ^ 8) with 256.
    rewrite Z.add_comm, Z.mod_add by lia. apply Z.mod_small. lia.
Qed.

Lemma length_le_put n z : length (le_put n z) = n.
Proof. unfold le_put. rewrite length_rev. apply length_be_put. Qed.

Lemma le_get_put n z : le_get (le_put n z) = z mod 256 ^ Z.of_nat n.
Proof. unfold le_get, le_put. rewrite rev_involutive. apply be_get_put. Qed.

Lemma be_get_put_small n z : 0 ≤ z < 256 ^ Z.of_nat n → be_get (be_put n z) = z.
Proof. intros. rewrite be_get_put. by apply Z.mod_small. Qed.

Lemma le_get_put_small n z : 0 ≤ z < 256 ^ Z.of_nat n → le_get (le_put n z) = z.
Proof. intros. rewrite le_get_put. by apply Z.mod_small. Qed.

#[export] Hint Rewrite length_be_put length_le_put : dbx.

(** ** hash/crc32, the IEEE polynomial in reflected form *)
Fixpoint crc32_bits (n : nat) (crc : Z) : Z :=
  match n with
  | O => crc
  | S n' =>
      crc32_bits n' (if Z.testbit crc 0 then Z.lxor (Z.shiftr crc 1) 0xEDB88320
                     else Z.shiftr crc 1)
  end.
Definition crc32_update (crc : Z) (b : byte) : Z := crc32_bits 8 (Z.lxor crc (b2z b)).
Definition ChecksumIEEE (data : list byte) : Z :=
  Z.lxor (foldl crc32_update 0xFFFFFFFF data) 0xFFFFFFFF.

Example ChecksumIEEE_check : ChecksumIEEE (bytes_of "123456789") = 0xCBF43926.
Proof. vm_compute. reflexivity. Qed.

Lemma lxor_range n a b : 0 ≤ n → 0 ≤ a < 2 ^ n → 0 ≤ b < 2 ^ n → 0 ≤ Z.lxor a b < 2 ^ n.
Proof.
  intros Hn Ha Hb. assert (Hl : 0 ≤ Z.lxor a b) by (apply Z.lxor_nonneg; lia).
  split; [done|]. destruct (decide (Z.lxor a b = 0)) as [->|Hne]; [lia|].
  apply Z.log2_lt_pow2; [lia|].
  eapply Z.le_lt_trans; [apply Z.log2_lxor; lia|].
  destruct (decide (n = 0)) as [->|]; [change (2 ^ 0) with 1 in *; assert (a = 0) by lia; assert (b = 0) by lia; subst; done|].
  apply Z.max_lub_lt.
  - destruct (decide (a = 0)) as [->|]; [cbn; lia|]. apply Z.log2_lt_pow2; lia.
  - destruct (decide (b = 0)) as [->|]; [cbn; lia|]. apply Z.log2_lt_pow2; lia.
Qed.

Lemma crc32_bits_range n crc : 0 ≤ crc < 2 ^ 32 → 0 ≤ crc32_bits n crc < 2 ^ 32.
Proof.
  revert crc. induction n as [|n IH]; intros crc H; cbn [crc32_bits]; [done|].
  assert (0 ≤ Z.shiftr crc 1 < 2 ^ 32) as Hs.
  { rewrite Z.shiftr_div_pow2 by lia. split; [apply Z.div_pos; lia|].
    apply Z.div_lt_upper_bound; lia. }
  apply IH. destruct (Z.testbit crc 0); [|done]. apply lxor_range; [lia|done|lia].
Qed.

Lemma ChecksumIEEE_range data : 0 ≤ ChecksumIEEE data < 2 ^ 32.
Proof.
  unfold ChecksumIEEE. apply lxor_range; [lia| |lia].
  apply foldl_invariant; [lia|]. intros crc b _ H. unfold crc32_update.
  apply crc32_bits_range, lxor_range; [lia|done|]. pose proof (b2z_range b). lia.
Qed.

(** ** fmt.Sscanf with the verb %d

    Spaces before the number are skipped (a newline is an error), an optional
    sign and decimal digits are taken, and the token goes to [ParseInt]. The
    result is the number and the unread input; [None] is a scan error, which
    leaves the variable as it was. White space outside ASCII is not skipped. *)
Definition is_blank (b : byte) : bool :=
  let c := b2z b in (c =? 32) || (c =? 9) || (c =? 11) || (c =? 12) || (c =? 13).
Definition is_digit (b : byte) : bool := (48 <=? b2z b) && (b2z b <=? 57).

Fixpoint skip_blanks (l : list byte) : list byte :=
  match l with
  | b :: l' => if is_blank b then skip_blanks l' else l
  | [] => []
  end.
Fixpoint span_digits (l : list byte) : list byte * list byte :=
  match l with
  | b :: l' => if is_digit b then let '(d, r) := span_digits l' in (b :: d, r) else ([], l)
  | [] => ([], [])
  end.

Definition scan_d (l : list byte) : option (Z * list byte) :=
  let l := skip_blanks l in
  let '(sign, l) := match l with
                    | b :: l' => if (b2z b =? 43) || (b2z b =? 45) then ([b], l') else ([], l)
                    | [] => ([], [])
                    end in
  let '(ds, rest) := span_digits l in
  match ds with
  | [] => None
  | _ => match ParseInt_ok (str_of (sign ++ ds)) with
         | Some n => Some (n, rest)
         | None => None
         end
  end.

(** [fmt.Sscanf(s, "%d", &n)] with [n] starting at [n0]. *)
Definition Sscanf_d (s : string) (n0 : Z) : Z :=
  match scan_d (bytes_of s) with Some (n, _) => n | None => n0 end.

(** [fmt.Sscanf(s, "%d-%d", &a, &b)] with both starting at 0. *)
Definition Sscanf_d_d (s : string) : Z * Z :=
  match scan_d (bytes_of s) with
  | None => (0, 0)
  | Some (a, Byte.x2d :: rest) =>
      match scan_d rest with Some (b, _) => (a, b) | None => (a, 0) end
  | Some (a, _) => (a, 0)
  end.
