(* ===== verification/Hash.v ===== *)
(** * Hashing and binary codecs (src/internal/util/hash.go, codec.go)

    The Redis-style CRC-16 with its 256-entry table, hash slots with hash tags,
    MurmurHash3 (x86, 32 bits) with the shard index the key-value store uses,
    FNV-1a, and the fixed-width and length-prefixed codecs. The table-driven
    CRC is compared step by step with the bit-serial CRC-CCITT. *)

From S2P Require Import Prelude GoStd.
From Stdlib Require Import Strings.Byte.

(** ** CRC-16 *)
Definition crc16Table : list Z := [
  0x0000; 0x1021; 0x2042; 0x3063; 0x4084; 0x50a5; 0x60c6; 0x70e7;
  0x8108; 0x9129; 0xa14a; 0xb16b; 0xc18c; 0xd1ad; 0xe1ce; 0xf1ef;
  0x1231; 0x0210; 0x3273; 0x2252; 0x52b5; 0x4294; 0x72f7; 0x62d6;
  0x9339; 0x8318; 0xb37b; 0xa35a; 0xd3bd; 0xc39c; 0xf3ff; 0xe3de;
  0x2462; 0x3443; 0x0420; 0x1401; 0x64e6; 0x74c7; 0x44a4; 0x5485;
  0xa56a; 0xb54b; 0x8528; 0x9509; 0xe5ee; 0xf5cf; 0xc5ac; 0xd58d;
  0x3653; 0x2672; 0x1611; 0x0630; 0x76d7; 0x66f6; 0x5695; 0x46b4;
  0xb75b; 0xa77a; 0x9719; 0x8738; 0xf7df; 0xe7fe; 0xd79d; 0xc7bc;
  0x4864; 0x5845; 0x6826; 0x7807; 0x08e0; 0x18c1; 0x28a2; 0x38c3;
  0xc92c; 0xd90d; 0xe96e; 0xf94f; 0x89a8; 0x9989; 0xa9ea; 0xb9cb;
  0x5a15; 0x4a34; 0x7a57; 0x6a76; 0x1a91; 0x0ab0; 0x3ad3; 0x2af2;
  0xdb1d; 0xcb3c; 0xfb5f; 0xeb7e; 0x9b99; 0x8bb8; 0xbbdb; 0xabba;
  0x6ca6; 0x7c87; 0x4ce4; 0x5cc5; 0x2c22; 0x3c03; 0x0c60; 0x1c41;
  0xedae; 0xfd8f; 0xcdec; 0xddcd; 0xad2a; 0xbd0b; 0x8d68; 0x9d49;
  0x7e97; 0x6eb6; 0x5ed5; 0x4ef4; 0x3e13; 0x2e32; 0x1e51; 0x0e70;
  0xff9f; 0xefbe; 0xdfdd; 0xcffc; 0xbf1b; 0xaf3a; 0x9f59; 0x8f78;
  0x9188; 0x81a9; 0xb1ca; 0xa1eb; 0xd10c; 0xc12d; 0xf14e; 0xe16f;
  0x1080; 0x00a1; 0x30c2; 0x20e3; 0x5004; 0x4025; 0x7046; 0x6067;
  0x83b9; 0x9398; 0xa3fb; 0xb3da; 0xc33d; 0xd31c; 0xe37f; 0xf35e;
  0x02b1; 0x1290; 0x22f3; 0x32d2; 0x4235; 0x5214; 0x6277; 0x7256;
  0xb5ea; 0xa5cb; 0x95a8; 0x8589; 0xf56e; 0xe54f; 0xd52c; 0xc50d;
  0x34e2; 0x24c3; 0x14a0; 0x0481; 0x7466; 0x6447; 0x5424; 0x4405;
  0xa7db; 0xb7fa; 0x8799; 0x97b8; 0xe75f; 0xf77e; 0xc71d; 0xd73c;
  0x26d3; 0x36f2; 0x0691; 0x16b0; 0x6657; 0x7676; 0x4615; 0x5634;
  0xd94c; 0xc96d; 0xf90e; 0xe92f; 0x99c8; 0x89e9; 0xb98a; 0xa9ab;
  0x5844; 0x4865; 0x7806; 0x6827; 0x18c0; 0x08e1; 0x3882; 0x28a3;
  0xcb7d; 0xdb5c; 0xeb3f; 0xfb1e; 0x8bf9; 0x9bd8; 0xabbb; 0xbb9a;
  0x4a75; 0x5a54; 0x6a37; 0x7a16; 0x0af1; 0x1ad0; 0x2ab3; 0x3a92;
  0xfd2e; 0xed0f; 0xdd6c; 0xcd4d; 0xbdaa; 0xad8b; 0x9de8; 0x8dc9;
  0x7c26; 0x6c07; 0x5c64; 0x4c45; 0x3ca2; 0x2c83; 0x1ce0; 0x0cc1;
  0xef1f; 0xff3e; 0xcf5d; 0xdf7c; 0xaf9b; 0xbfba; 0x8fd9; 0x9ff8;
  0x6e17; 0x7e36; 0x4e55; 0x5e74; 0x2e93; 0x3eb2; 0x0ed1; 0x1ef0
].

(** One byte of the table-driven update, on [uint16]. *)
Definition crc16_update (crc : Z) (b : byte) : Z :=
  Z.lxor (u16 (Z.shiftl crc 8))
         (crc16Table !!! Z.to_nat (Z.lxor (u8 (Z.shiftr crc 8)) (b2z b))).

Definition crc16 (buf : list byte) : Z := foldl crc16_update 0 buf.

(** The reference: shift the message through the polynomial 0x1021, one bit at
    a time, most significant bit first. *)
Definition ccitt_bit (crc : Z) : Z :=
  Z.lxor (u16 (Z.shiftl crc 1)) (if Z.testbit crc 15 then 0x1021 else 0).
Fixpoint ccitt_bits (n : nat) (crc : Z) : Z :=
  match n with O => crc | S n' => ccitt_bits n' (ccitt_bit crc) end.
Definition ccitt_update (crc : Z) (b : byte) : Z :=
  ccitt_bits 8 (Z.lxor crc (Z.shiftl (b2z b) 8)).
Definition crc16_ref (buf : list byte) : Z :=
  foldl ccitt_update 0 buf.

(** ** Hash slots *)

(** The scan for a hash tag: [i] is the index of the head of [l] in [key],
    [start] the index of the latest opening brace or -1. *)
Fixpoint hash_tag (key l : list byte) (i start : Z) : list byte :=
  match l with
  | [] => key
  | c :: l' =>
      if bool_decide (c = Byte.x7b) then hash_tag key l' (i + 1) i
      else if bool_decide (c = Byte.x7d) && (0 <=? start) then
        if start + 1 <? i then sub key (start + 1) i else key
      else hash_tag key l' (i + 1) start
  end.

Definition HashSlot (key : string) : Z :=
  crc16 (hash_tag (bytes_of key) (bytes_of key) 0 (-1)) mod 16384.

(** ** MurmurHash3 *)
Definition rotl32 (x r : Z) : Z := Z.lor (u32 (Z.shiftl x r)) (Z.shiftr x (32 - r)).
Definition mur_c1 : Z := 0xcc9e2d51.
Definition mur_c2 : Z := 0x1b873593.

Definition mur_mix (k1 : Z) : Z := u32 (rotl32 (u32 (k1 * mur_c1)) 15 * mur_c2).

(** The body loop over four-byte little-endian blocks; returns the tail too. *)
Fixpoint mur_blocks (h1 : Z) (data : list byte) : Z * list byte :=
  match data with
  | b0 :: b1 :: b2 :: b3 :: rest =>
      let k1 := mur_mix (le_get [b0; b1; b2; b3]) in
      mur_blocks (u32 (rotl32 (Z.lxor h1 k1) 13 * 5 + 0xe6546b64)) rest
  | _ => (h1, data)
  end.

Definition mur_tail (h1 : Z) (tail : list byte) : Z :=
  match tail with
  | [b0] => Z.lxor h1 (mur_mix (b2z b0))
  | [b0; b1] => Z.lxor h1 (mur_mix (Z.lxor (Z.shiftl (b2z b1) 8) (b2z b0)))
  | [b0; b1; b2] =>
      Z.lxor h1 (mur_mix (Z.lxor (Z.lxor (Z.shiftl (b2z b2) 16) (Z.shiftl (b2z b1) 8)) (b2z b0)))
  | _ => h1
  end.

Definition mur_final (h1 : Z) : Z :=
  let h1 := Z.lxor h1 (Z.shiftr h1 16) in
  let h1 := u32 (h1 * 0x85ebca6b) in
  let h1 := Z.lxor h1 (Z.shiftr h1 13) in
  let h1 := u32 (h1 * 0xc2b2ae35) in
  Z.lxor h1 (Z.shiftr h1 16).

Definition murmur32 (data : list byte) (seed : Z) : Z :=
  let '(h1, tail) := mur_blocks seed data in
  mur_final (Z.lxor (mur_tail h1 tail) (u32 (zlen data))).

Definition MurmurHash32 (key : string) : Z := murmur32 (bytes_of key) 0.

(** [int(MurmurHash32(key)) % numShards] on a 64-bit [int]. *)
Definition ShardIndex (key : string) (numShards : Z) : Z :=
  if numShards <=? 0 then 0 else Z.rem (MurmurHash32 key) numShards.

Definition FNVHash64 (key : string) : Z :=
  foldl (fun h b => u64 (Z.lxor h (b2z b) * 1099511628211)) 14695981039346656037 (bytes_of key).

(** ** Codecs *)
Definition UInt64ToBytes (v : Z) : list byte := be_put 8 v.

(** [binary.BigEndian.UintN(b)]: the slice must hold the word. *)
Definition be_uint (n : nat) (b : list byte) : res unit Z :=
  if (length b <? n)%nat then Panic else Ok (be_get (take n b)).
Definition BytesToUInt64 (b : list byte) : res unit Z := be_uint 8 b.

Definition EncodeInt64 (v : Z) : list byte := be_put 8 (u64 v).
Definition DecodeInt64 (b : list byte) : res unit Z :=
  let? w := be_uint 8 b in Ok (i64 w).

Definition EncodeUint16 (v : Z) : list byte := be_put 2 v.
Definition DecodeUint16 (b : list byte) : res unit Z := be_uint 2 b.

(** [copy(buf[off:], src)]: writes as much of [src] as fits. *)
Definition copy_at (buf : list byte) (off : nat) (src : list byte) : list byte :=
  take off buf ++ take (length buf - off) src ++ drop (off + length src) buf.

Definition EncodeString (buf : list byte) (offset : nat) (s : string)
    : res unit (list byte * nat) :=
  let l := String.length s in
  if (length buf <? offset + 4)%nat then Panic
  else
    let buf := copy_at buf offset (be_put 4 (Z.of_nat l)) in
    Ok (copy_at buf (offset + 4) (bytes_of s), (offset + 4 + l)%nat).

Definition DecodeString (buf : list byte) (offset : nat) : res unit (string * nat) :=
  if (length buf <? offset + 4)%nat then Panic
  else
    let l := Z.to_nat (be_get (take 4 (drop offset buf))) in
    if (length buf <? offset + 4 + l)%nat then Panic
    else Ok (str_of (take l (drop (offset + 4) buf)), (offset + 4 + l)%nat).

Example murmur_abc : MurmurHash32 "abc" = 0xb3dd93fa.
Proof. vm_compute. reflexivity. Qed.

Example murmur_hello : MurmurHash32 "hello" = 0x248bfa47.
Proof. vm_compute. reflexivity. Qed.

Example HashSlot_check : HashSlot "123456789" = 12739.
Proof. vm_compute. reflexivity. Qed.

(** ** CRC-16: the table is the polynomial *)

Lemma u16_lxor a b : u16 (Z.lxor a b) = Z.lxor (u16 a) (u16 b).
Proof.
  unfold u16. rewrite <- !Z.land_ones by lia. apply Z.bits_inj'. intros n Hn.
  rewrite !Z.land_spec, !Z.lxor_spec, !Z.land_spec. by destruct (Z.testbit (Z.ones 16) n), (Z.testbit a n), (Z.testbit b n).
Qed.

Lemma ccitt_bit_lxor a b : ccitt_bit (Z.lxor a b) = Z.lxor (ccitt_bit a) (ccitt_bit b).
Proof.
  unfold ccitt_bit. rewrite Z.shiftl_lxor, u16_lxor, Z.lxor_spec.
  apply Z.bits_inj'. intros n Hn.
  destruct (Z.testbit a 15), (Z.testbit b 15); cbn [xorb]; rewrite !Z.lxor_spec, ?Z.bits_0;
    destruct (Z.testbit (u16 (a ≪ 1)) n), (Z.testbit (u16 (b ≪ 1)) n),
      (Z.testbit 0x1021 n); done.
Qed.

Lemma ccitt_bits_lxor n a b :
  ccitt_bits n (Z.lxor a b) = Z.lxor (ccitt_bits n a) (ccitt_bits n b).
Proof.
  revert a b. induction n as [|n IH]; intros a b; cbn [ccitt_bits]; [done|].
  by rewrite ccitt_bit_lxor, IH.
Qed.

(** The finite facts about the table: it holds 16-bit values, an entry is eight
    bit steps of its index exactly outside the rows 64 to 95, and a low byte is
    only shifted by eight bit steps. *)
Lemma forallb_below (n : nat) (f : nat → bool) k :
  forallb f (seq 0 n) = true → 0 ≤ k < Z.of_nat n → f (Z.to_nat k) = true.
Proof. rewrite forallb_forall. intros H Hk. apply H, in_seq. lia. Qed.

Lemma crc16Table_bits k :
  0 ≤ k < 256 →
  (crc16Table !!! Z.to_nat k = ccitt_bits 8 (Z.shiftl k 8) ↔ ¬ 64 ≤ k < 96).
Proof.
  intros Hk.
  pose proof (forallb_below 256 (fun i =>
    Bool.eqb (crc16Table !!! i =? ccitt_bits 8 (Z.shiftl (Z.of_nat i) 8))
             (negb ((64 <=? Z.of_nat i) && (Z.of_nat i <? 96)))) k) as H.
  cbv beta in H. rewrite Z2Nat.id, eqb_true_iff in H by lia.
  assert (Hk' := H ltac:(vm_compute; reflexivity) ltac:(lia)). clear H.
  rewrite <- Z.eqb_eq, Hk'. lia.
Qed.

Lemma crc16Table_range k : 0 ≤ k < 256 → 0 ≤ crc16Table !!! Z.to_nat k < 2 ^ 16.
Proof.
  intros Hk. pose proof (forallb_below 256 (fun i =>
    (0 <=? crc16Table !!! i) && (crc16Table !!! i <? 2 ^ 16)) k) as H. cbv beta in H.
  assert (Hk' := H ltac:(vm_compute; reflexivity) ltac:(lia)). bool_to_prop. lia.
Qed.

Lemma ccitt_bits_low k : 0 ≤ k < 256 → ccitt_bits 8 k = Z.shiftl k 8.
Proof.
  intros Hk. pose proof (forallb_below 256 (fun i =>
    ccitt_bits 8 (Z.of_nat i) =? Z.shiftl (Z.of_nat i) 8) k) as H. cbv beta in H.
  rewrite Z2Nat.id, Z.eqb_eq in H by lia. apply H; [vm_compute; reflexivity|lia].
Qed.

Lemma split_bytes crc : Z.lxor (Z.shiftl (Z.shiftr crc 8) 8) (u8 crc) = crc.
Proof.
  unfold u8. rewrite <- Z.land_ones by lia. apply Z.bits_inj'. intros n Hn.
  rewrite Z.lxor_spec, Z.land_spec, Z.shiftl_spec by lia.
  destruct (decide (n < 8)).
  - rewrite Z.testbit_neg_r, Z.ones_spec_low by lia. by destruct (Z.testbit crc n).
  - rewrite Z.shiftr_spec, Z.ones_spec_high by lia. replace (n - 8 + 8) with n by lia.
    by destruct (Z.testbit crc n).
Qed.

Lemma u16_shiftl8 crc : u16 (Z.shiftl crc 8) = Z.shiftl (u8 crc) 8.
Proof.
  unfold u16, u8. rewrite !Z.shiftl_mul_pow2 by lia.
  change (2 ^ 16) with (2 ^ 8 * 2 ^ 8). by rewrite Z.mul_mod_distr_r by lia.
Qed.

(** The table index of one update. *)
Definition crc16_index (crc : Z) (b : byte) : Z := Z.lxor (u8 (Z.shiftr crc 8)) (b2z b).

Lemma crc16_index_range crc b : 0 ≤ crc16_index crc b < 256.
Proof.
  unfold crc16_index. apply (lxor_range 8); [lia| |apply b2z_range].
  apply Z.mod_pos_bound. lia.
Qed.

(** The reference update, split the way the table computes it. *)
Lemma ccitt_update_split crc b :
  0 ≤ crc < 2 ^ 16 →
  ccitt_update crc b
  = Z.lxor (u16 (Z.shiftl crc 8)) (ccitt_bits 8 (Z.shiftl (crc16_index crc b) 8)).
Proof.
  intros Hc. unfold ccitt_update, crc16_index.
  assert (0 ≤ Z.shiftr crc 8 < 2 ^ 8) as Hs.
  { rewrite Z.shiftr_div_pow2 by lia. split; [apply Z.div_pos; lia|].
    apply Z.div_lt_upper_bound; lia. }
  replace (u8 (Z.shiftr crc 8)) with (Z.shiftr crc 8) by (symmetry; by apply Z.mod_small).
  rewrite <- (split_bytes crc) at 1.
  rewrite Z.lxor_assoc, (Z.lxor_comm (u8 crc)), <- Z.lxor_assoc, <- Z.shiftl_lxor.
  rewrite ccitt_bits_lxor, (ccitt_bits_low (u8 crc)), u16_shiftl8.
  - apply Z.lxor_comm.
  - unfold u8. by apply Z.mod_pos_bound.
Qed.

Lemma lxor_cancel_l a b c : Z.lxor a b = Z.lxor a c ↔ b = c.
Proof.
  split; [|by intros ->]. intros H.
  rewrite <- (Z.lxor_0_l b), <- (Z.lxor_0_l c), <- (Z.lxor_nilpotent a).
  by rewrite !Z.lxor_assoc, H.
Qed.

Lemma crc16_update_range crc b : 0 ≤ crc16_update crc b < 2 ^ 16.
Proof.
  unfold crc16_update. apply lxor_range; [lia|apply Z.mod_pos_bound; lia|].
  apply crc16Table_range, crc16_index_range.
Qed.

(** One step of the table-driven CRC equals one step of
    the bit-serial CRC-CCITT the source names, for every state and byte whose
    table index is outside rows 64 to 95, and differs from it for every other
    one: those 32 entries of the table are not the polynomial's. *)
Theorem crc16_update_ccitt crc b :
  0 ≤ crc < 2 ^ 16 →
  (crc16_update crc b = ccitt_update crc b ↔ ¬ 64 ≤ crc16_index crc b < 96).
Proof.
  intros Hc. rewrite ccitt_update_split by done. unfold crc16_update.
  fold (crc16_index crc b). rewrite lxor_cancel_l. apply crc16Table_bits, crc16_index_range.
Qed.

Lemma crc16_update_ccitt_witness :
  crc16_update 0 Byte.x41 ≠ ccitt_update 0 Byte.x41 ∧
  crc16_update 0 Byte.x61 = ccitt_update 0 Byte.x61.
Proof.
  split.
  - intros H. apply (crc16_update_ccitt 0 Byte.x41) in H; [|lia].
    apply H. change (crc16_index 0 Byte.x41) with 65. lia.
  - apply (crc16_update_ccitt 0 Byte.x61); [lia|].
    change (crc16_index 0 Byte.x61) with 97. lia.
Defined.

(** ** Slots and shards *)

Lemma hash_tag_open key a b i start :
  Byte.x7d ∉ a →
  hash_tag key (a ++ Byte.x7b :: b) i start
  = hash_tag key b (i + zlen a + 1) (i + zlen a).
Proof.
  revert i start. induction a as [|c a IH]; intros i start Ha; cbn [hash_tag app].
  { rewrite bool_decide_eq_true_2 by done. change (zlen []) with 0. f_equal; lia. }
  apply not_elem_of_cons in Ha as [Hc Ha].
  rewrite (bool_decide_eq_false_2 (c = Byte.x7d)) by congruence. rewrite andb_false_l.
  replace (zlen (c :: a)) with (zlen a + 1) by (unfold zlen; cbn; lia).
  case_bool_decide; rewrite IH by done; f_equal; lia.
Qed.

Lemma hash_tag_close key t b i start :
  Byte.x7b ∉ t → Byte.x7d ∉ t → 0 ≤ start < i → (start + 1 < i + zlen t) →
  hash_tag key (t ++ Byte.x7d :: b) i start = sub key (start + 1) (i + zlen t).
Proof.
  revert i. induction t as [|c t IH]; intros i H1 H2 Hs Hi; cbn [hash_tag app].
  { change (@zlen byte []) with 0 in *. rewrite bool_decide_eq_false_2 by done.
    rewrite bool_decide_eq_true_2 by done.
    replace (0 <=? start) with true by lia. cbn [andb].
    replace (start + 1 <? i) with true by lia. f_equal; lia. }
  apply not_elem_of_cons in H1 as [? H1], H2 as [? H2].
  rewrite !bool_decide_eq_false_2 by congruence. cbn [andb].
  replace (zlen (c :: t)) with (zlen t + 1) in * by (unfold zlen; cbn; lia).
  rewrite IH by (done || (unfold zlen; lia)). f_equal; lia.
Qed.

Lemma sub_middle {A} (a t b : list A) :
  sub (a ++ t ++ b) (zlen a) (zlen a + zlen t) = t.
Proof.
  unfold sub, zlen. rewrite Nat2Z.id, drop_app_length.
  replace (Z.to_nat _) with (length t) by lia. by rewrite take_app_length.
Qed.

Lemma HashSlot_tagged_aux (a t b : list byte) :
  Byte.x7d ∉ a → Byte.x7b ∉ t → Byte.x7d ∉ t → t ≠ [] →
  HashSlot (str_of (a ++ Byte.x7b :: t ++ Byte.x7d :: b)) = crc16 t mod 16384.
Proof.
  intros Ha H1 H2 Ht. unfold HashSlot. rewrite bytes_of_str_of, hash_tag_open by done.
  pose proof (zlen_nonneg a).
  assert (0 < zlen t) by (destruct t; [done|unfold zlen; cbn; lia]).
  rewrite hash_tag_close by (done || lia). f_equal. f_equal.
  pose proof (sub_middle (a ++ [Byte.x7b]) t (Byte.x7d :: b)) as Hsub.
  rewrite <- app_assoc in Hsub. cbn [app] in Hsub.
  rewrite zlen_app in Hsub. change (zlen [Byte.x7b]) with 1 in Hsub.
  etransitivity; [|exact Hsub]. f_equal; lia.
Qed.

(** A key with a non-empty hash tag [{t}] hashes to the
    slot of the tag alone, so that all keys with one tag share a slot, and that
    slot is one of the 16384. *)
Theorem hash_tag_colocates (a1 b1 a2 b2 t : list byte) :
  Byte.x7d ∉ a1 → Byte.x7d ∉ a2 → Byte.x7b ∉ t → Byte.x7d ∉ t → t ≠ [] →
  HashSlot (str_of (a1 ++ Byte.x7b :: t ++ Byte.x7d :: b1))
  = HashSlot (str_of (a2 ++ Byte.x7b :: t ++ Byte.x7d :: b2)) ∧
  0 ≤ HashSlot (str_of (a1 ++ Byte.x7b :: t ++ Byte.x7d :: b1)) < 16384.
Proof.
  intros. rewrite !HashSlot_tagged_aux by done. split; [done|]. by apply Z.mod_pos_bound.
Qed.

Lemma hash_tag_colocates_witness :
  HashSlot "user:{42}:name" = HashSlot "cart:{42}" ∧ 0 ≤ HashSlot "user:{42}:name" < 16384.
Proof.
  apply (hash_tag_colocates (bytes_of "user:") (bytes_of ":name") (bytes_of "cart:") []
           (bytes_of "42")); solve [apply (bool_decide_unpack _); vm_compute; exact I | done].
Defined.

Lemma u32_range z : 0 ≤ u32 z < 2 ^ 32.
Proof. apply Z.mod_pos_bound. lia. Qed.

Lemma shiftr_range n k a : 0 ≤ n → 0 ≤ k → 0 ≤ a < 2 ^ n → 0 ≤ Z.shiftr a k < 2 ^ n.
Proof.
  intros Hn Hk Ha. rewrite Z.shiftr_div_pow2 by done.
  assert (0 < 2 ^ k) by (by apply Z.pow_pos_nonneg).
  split; [apply Z.div_pos; lia|]. apply Z.div_lt_upper_bound; nia.
Qed.

Lemma MurmurHash32_range key : 0 ≤ MurmurHash32 key < 2 ^ 32.
Proof.
  unfold MurmurHash32, murmur32. destruct (mur_blocks _ _) as [h1 tail].
  unfold mur_final. cbv zeta. set (h := u32 _).
  apply lxor_range; [lia|apply u32_range|]. apply shiftr_range; [lia..|apply u32_range].
Qed.

Lemma ShardIndex_range key n : 0 < n → 0 ≤ ShardIndex key n < n.
Proof.
  intros Hn. unfold ShardIndex. destruct (n <=? 0) eqn:E; bool_to_prop; [lia|].
  pose proof (MurmurHash32_range key). apply Z.rem_bound_pos; lia.
Qed.

(** ** Codec round trips *)
Lemma be_uint_put n z rest :
  0 ≤ z < 256 ^ Z.of_nat n → be_uint n (be_put n z ++ rest) = Ok z.
Proof.
  intros Hz. unfold be_uint. rewrite length_app, length_be_put.
  rewrite nltb_false by lia.
  rewrite take_app_le, take_ge by (rewrite length_be_put; lia).
  by rewrite be_get_put_small.
Qed.

Lemma DecodeInt64_EncodeInt64 v : in_i64 v → DecodeInt64 (EncodeInt64 v) = Ok v.
Proof.
  intros Hv. unfold DecodeInt64, EncodeInt64.
  rewrite <- (app_nil_r (be_put _ _)), be_uint_put.
  - cbn. by rewrite i64_u64.
  - change (256 ^ Z.of_nat 8) with (2 ^ 64). apply Z.mod_pos_bound. lia.
Qed.

Lemma copy_at_fits buf off src :
  (off + length src ≤ length buf)%nat →
  copy_at buf off src = take off buf ++ src ++ drop (off + length src) buf.
Proof. intros H. unfold copy_at. by rewrite (take_ge src) by lia. Qed.

Lemma take_drop_middle_at {A} (a t b : list A) n m :
  n = length a → m = length t → take m (drop n (a ++ t ++ b)) = t.
Proof. intros -> ->. by rewrite drop_app_length, take_app_length. Qed.

(** A string encoded into a buffer with room for
    its four-byte length and its bytes is decoded from the same offset, the
    returned offsets agree, and every byte outside the written range is kept. *)
Theorem DecodeString_EncodeString buf off s :
  (off + 4 + String.length s ≤ length buf)%nat → strlen s < 2 ^ 32 →
  ∃ buf', EncodeString buf off s = Ok (buf', (off + 4 + String.length s)%nat) ∧
    DecodeString buf' off = Ok (s, (off + 4 + String.length s)%nat) ∧
    take off buf' = take off buf ∧
    drop (off + 4 + String.length s) buf' = drop (off + 4 + String.length s) buf.
Proof.
  intros Hlen Hs. unfold strlen in Hs.
  set (hd := be_put 4 (Z.of_nat (String.length s))).
  assert (Hhd : length hd = 4%nat) by apply length_be_put.
  pose proof (length_bytes_of s) as Hbs.
  set (out := take off buf ++ hd ++ bytes_of s ++ drop (off + 4 + String.length s) buf).
  assert (Hto : length (take off buf) = off) by (rewrite length_take; lia).
  exists out. unfold EncodeString.
  rewrite nltb_false by lia.
  assert (Hcopy : copy_at (copy_at buf off hd) (off + 4) (bytes_of s) = out).
  { rewrite (copy_at_fits buf) by lia. set (buf1 := take off buf ++ hd ++ drop (off + length hd) buf).
    assert (Hl1 : length buf1 = length buf).
    { unfold buf1. rewrite !length_app, length_drop. lia. }
    rewrite copy_at_fits by lia. unfold out, buf1.
    rewrite (app_assoc (take off buf) hd), take_app_le, take_ge by (rewrite length_app; lia).
    rewrite <- !app_assoc. do 3 f_equal.
    rewrite app_assoc, drop_app_ge by (rewrite length_app; lia).
    rewrite drop_drop, length_app. f_equal. lia. }
  fold hd. rewrite Hcopy. split; [done|].
  assert (Hlo : length out = length buf).
  { unfold out. rewrite !length_app, length_drop. lia. }
  unfold DecodeString. rewrite Hlo. rewrite nltb_false by lia.
  assert (Hg : take 4 (drop off out) = hd) by (by apply take_drop_middle_at).
  rewrite Hg. unfold hd. rewrite be_get_put_small by (change (256 ^ Z.of_nat 4) with (2 ^ 32); lia).
  rewrite Nat2Z.id. rewrite nltb_false by lia.
  assert (Hd2 : take (String.length s) (drop (off + 4) out) = bytes_of s).
  { unfold out. rewrite app_assoc. apply take_drop_middle_at; rewrite ?length_app; lia. }
  rewrite Hd2, str_of_bytes_of. split; [done|]. unfold out. split.
  - by rewrite take_app_le, take_ge by lia.
  - rewrite !app_assoc, drop_app_ge by (rewrite !length_app; lia).
    rewrite drop_drop, !length_app. f_equal. lia.
Qed.

Lemma DecodeString_EncodeString_witness :
  ∃ buf', EncodeString (replicate 12 Byte.xff) 2 "key" = Ok (buf', 9%nat) ∧
    DecodeString buf' 2 = Ok ("key"%string, 9%nat) ∧
    take 2 buf' = take 2 (replicate 12 Byte.xff) ∧ drop 9 buf' = drop 9 (replicate 12 Byte.xff).
Proof.
  apply (DecodeString_EncodeString (replicate 12 Byte.xff) 2 "key"); vm_compute; [lia|done].
Defined.
