(* ===== verification/Types.v ===== *)
(** * Data types of the engine

    The type tags of [protocol/command.go], the typed errors of
    [util/errors.go], the payloads the type-specific stores keep in an entry,
    and [Entry] itself ([engine/kv.go]). *)

From S2P Require Import Prelude GoStd.
From Stdlib Require Import Floats.SpecFloat.

(** ** Type tags *)
Inductive DataType :=
| TypeString | TypeHash | TypeList | TypeSet | TypeZSet | TypeStream
| TypeDocument | TypeBitmap | TypeGeo | TypeVector | TypeNone.

#[export] Instance DataType_eq_dec : EqDecision DataType.
Proof. solve_decision. Defined.

Definition DataType_string (t : DataType) : string :=
  match t with
  | TypeString => "string" | TypeHash => "hash" | TypeList => "list"
  | TypeSet => "set" | TypeZSet => "zset" | TypeStream => "stream"
  | TypeDocument => "document" | TypeBitmap => "bitmap" | TypeGeo => "geo"
  | TypeVector => "vector" | TypeNone => "none"
  end.

#[export] Instance DataType_string_inj : Inj (=) (=) DataType_string.
Proof. by intros [] []. Qed.

(** ** Errors: the sentinels the engine returns, and formatted messages *)
Inductive error :=
| ErrNotFound
| ErrWrongType
| ErrOutOfRange
| ErrSyntax
| Newf (code : Z) (msg : string)
| Errorf (msg : string).

#[export] Instance error_eq_dec : EqDecision error.
Proof. solve_decision. Defined.

(** [DBXError.Error()]: [DBX[code]: message]. *)
Definition dbx_error (code : Z) (msg : string) : string :=
  ("DBX[" ++ FormatInt code ++ "]: " ++ msg)%string.
Definition error_Error (e : error) : string :=
  match e with
  | ErrNotFound => dbx_error 1 "key not found"
  | ErrWrongType =>
      dbx_error 2 "WRONGTYPE operation against a key holding the wrong kind of value"
  | ErrOutOfRange => dbx_error 3 "value is not an integer or out of range"
  | ErrSyntax => dbx_error 4 "syntax error"
  | Newf code msg => dbx_error code msg
  | Errorf msg => msg
  end.

(** ** Payloads *)

(** A [float64] in the standard library's executable IEEE 754 model. *)
Abbreviation float64 := spec_float.

#[export] Instance float64_eq_dec : EqDecision float64.
Proof. solve_decision. Defined.

Record zsetMember := { Member : string; Score : float64 }.

#[export] Instance zsetMember_eq_dec : EqDecision zsetMember.
Proof. solve_decision. Defined.

Record dbxZSet := { scores : gmap string float64; sorted : list zsetMember }.

#[export] Instance dbxZSet_eq_dec : EqDecision dbxZSet.
Proof. solve_decision. Defined.

Record StreamEntry := { ID : string; Fields : gmap string string }.

#[export] Instance StreamEntry_eq_dec : EqDecision StreamEntry.
Proof. solve_decision. Defined.

Record consumer := { c_Name : string; c_Pending : list StreamEntry }.

#[export] Instance consumer_eq_dec : EqDecision consumer.
Proof. solve_decision. Defined.

Record consumerGroup := {
  g_Name : string;
  g_LastID : string;
  g_Consumers : gmap string consumer;
  g_Pending : list StreamEntry
}.

#[export] Instance consumerGroup_eq_dec : EqDecision consumerGroup.
Proof. solve_decision. Defined.

Record dbxStream := {
  entries : list StreamEntry;
  lastID : string;
  groups : gmap string consumerGroup
}.

#[export] Instance dbxStream_eq_dec : EqDecision dbxStream.
Proof. solve_decision. Defined.

(** What the [interface{}] field [Entry.Value] holds. [VVector] carries the
    identity of an open memory-mapped index. *)
Inductive value :=
| VNil
| VBytes (b : slice)
| VHash (m : gmap string slice)
| VList (items : list slice)
| VSet (s : gset string)
| VZSet (z : dbxZSet)
| VStream (s : dbxStream)
| VVector (idx : nat).

#[export] Instance value_eq_dec : EqDecision value.
Proof. solve_decision. Defined.

(** ** Entries *)
Record Entry := {
  Value : value;
  EType : DataType;
  ExpiresAt : Z;   (* Unix nanoseconds; 0 = no expiry *)
  Version : Z;     (* uint64 *)
  CreatedAt : Z;
  UpdatedAt : Z
}.

#[export] Instance Entry_eq_dec : EqDecision Entry.
Proof. solve_decision. Defined.

(** [Entry.IsExpired], with the clock reading as an argument. *)
Definition IsExpired (now : Z) (e : Entry) : bool :=
  if ExpiresAt e =? 0 then false else now >? ExpiresAt e.

(** The entries literal of the stores: [&Entry{Value: v, Type: t}]. *)
Definition mkEntry (v : value) (t : DataType) : Entry :=
  {| Value := v; EType := t; ExpiresAt := 0; Version := 0; CreatedAt := 0; UpdatedAt := 0 |}.

(** The assignment [e.Value = v]. *)
Definition setValue (v : value) (e : Entry) : Entry :=
  {| Value := v; EType := EType e; ExpiresAt := ExpiresAt e; Version := Version e;
     CreatedAt := CreatedAt e; UpdatedAt := UpdatedAt e |}.

(** An entry is visible when it is present and not expired. *)
Definition live (now : Z) (o : option Entry) : option Entry :=
  match o with
  | Some e => if IsExpired now e then None else Some e
  | None => None
  end.

Lemma live_Some now o e : live now o = Some e ↔ o = Some e ∧ IsExpired now e = false.
Proof.
  destruct o as [e'|]; cbn; [|by split; [|intros [? _]]].
  destruct (IsExpired now e') eqn:E; split; [done| |by intros [= <-]|by intros [[= <-] ?]].
  intros [[= <-] ?]. congruence.
Qed.

Lemma IsExpired_mkEntry now v t : IsExpired now (mkEntry v t) = false.
Proof. done. Qed.

Lemma IsExpired_setValue now v e : IsExpired now (setValue v e) = IsExpired now e.
Proof. done. Qed.

(** Entries do not come back to life as the clock advances. *)
Lemma IsExpired_mono now now' e : now ≤ now' → IsExpired now e = true → IsExpired now' e = true.
Proof. unfold IsExpired. intros. destruct (ExpiresAt e =? 0); [done|]. bool_to_prop. lia. Qed.

#[export] Hint Rewrite IsExpired_mkEntry IsExpired_setValue : dbx.
