(* ===== verification/GoFloat.v ===== *)
(** * Decimal text of doubles: [strconv.ParseFloat] and
      [strconv.FormatFloat(f, 'f', -1, 64)]

    The functions of the Go standard library that the sorted-set commands use
    between the wire and the scores. A [float64] is a value of the Standard
    Library's executable IEEE 754 model. Both directions are exact: a decimal is
    rounded once from its rational value, and the printed digits are the fewest
    that round back to the double. *)
From S2P Require Import Prelude GoStd Types.
From Stdlib Require Import Floats.SpecFloat.
Open Scope Z_scope.

(** [m * base^x], rounded to the nearest float of the format, ties to even. *)
Definition scaled_in (prec emax : Z) (neg : bool) (m base x : Z) : spec_float :=
  match m with
  | Z.pos p =>
      if x >=? 0 then
        match binary_normalize prec emax (m * base ^ x) 0 false with
        | S754_finite _ q e => S754_finite neg q e
        | S754_infinity _ => S754_infinity neg
        | f => f
        end
      else
        match base ^ (- x) with
        | Z.pos d => SFdiv prec emax (S754_finite neg p 0) (S754_finite false d 0)
        | _ => S754_nan
        end
  | _ => S754_zero neg
  end.
Definition scaled : bool → Z → Z → Z → float64 := scaled_in 53 1024.

Definition lower_byte (b : byte) : byte :=
  if (65 <=? b2z b) && (b2z b <=? 90) then z2b (b2z b + 32) else b.

(** The value of a digit in base 10 or 16. *)
Definition digit_of (hex : bool) (b : byte) : option Z :=
  let c := b2z (lower_byte b) in
  if (48 <=? c) && (c <=? 57) then Some (c - 48)
  else if hex && (97 <=? c) && (c <=? 102) then Some (c - 87)
  else None.

(** The loop over the digits of the mantissa: the integer they form, how many
    follow the point, whether a point and a digit have been seen, and the rest. *)
Fixpoint read_mantissa (hex : bool) (l : list byte) (m frac : Z) (dot digits : bool)
    : Z * Z * bool * list byte :=
  match l with
  | [] => (m, frac, digits, [])
  | b :: l' =>
      if bool_decide (b = Byte.x5f) then read_mantissa hex l' m frac dot digits
      else if bool_decide (b = Byte.x2e) then
        if dot then (m, frac, digits, l) else read_mantissa hex l' m frac true digits
      else
        match digit_of hex b with
        | Some d => read_mantissa hex l' (m * (if hex then 16 else 10) + d)
                      (if dot then frac + 1 else frac) dot true
        | None => (m, frac, digits, l)
        end
  end.

(** The digits of the exponent; they stop counting at ten thousand. *)
Fixpoint read_exponent (l : list byte) (e : Z) : Z * list byte :=
  match l with
  | b :: l' =>
      if bool_decide (b = Byte.x5f) then read_exponent l' e
      else
        match digit_of false b with
        | Some d => read_exponent l' (if e <? 10000 then e * 10 + d else e)
        | None => (e, l)
        end
  | [] => (e, [])
  end.

(** [underscoreOK] after the sign: underscores lie between digits, or between a
    base prefix and a digit. The state is 0 after a digit, 1 after an
    underscore, 2 otherwise. *)
Fixpoint underscore_ok (hex : bool) (l : list byte) (st : Z) : bool :=
  match l with
  | [] => negb (st =? 1)
  | b :: l' =>
      if digit_of hex b is Some _ then underscore_ok hex l' 0
      else if bool_decide (b = Byte.x5f) then (st =? 0) && underscore_ok hex l' 1
      else negb (st =? 1) && underscore_ok hex l' 2
  end.

Definition is_hex_prefix (l : list byte) : bool :=
  match l with
  | z :: x :: _ :: _ => bool_decide (z = Byte.x30) && bool_decide (lower_byte x = Byte.x78)
  | _ => false
  end.

(** [readFloat] on the text after the sign, which has to be consumed. *)
Definition read_number (prec emax : Z) (neg : bool) (l : list byte) : option spec_float :=
  let hex := is_hex_prefix l in
  let body := if hex then drop 2 l else l in
  let '(m, frac, digits, rest) := read_mantissa hex body 0 0 false false in
  let ok := underscore_ok hex body (if hex then 0 else 2) in
  let value e := if hex then scaled_in prec emax neg m 2 (e - 4 * frac) else scaled_in prec emax neg m 10 (e - frac) in
  if negb (digits && ok) then None else
  match rest with
  | [] => if hex then None else Some (value 0)
  | c :: rest =>
      if bool_decide (lower_byte c = if hex then Byte.x70 else Byte.x65) then
        let '(eneg, rest) := match rest with
                             | Byte.x2b :: r => (false, r)
                             | Byte.x2d :: r => (true, r)
                             | _ => (false, rest)
                             end in
        match rest with
        | d :: _ =>
            if digit_of false d is Some _ then
              let '(e, rest) := read_exponent rest 0 in
              if bool_decide (rest = []) then Some (value (if eneg then - e else e)) else None
            else None
        | [] => None
        end
      else None
  end.

Definition lower_text (l : list byte) : string := str_of (map lower_byte l).

(** [strconv.ParseFloat]: the value, which is 0 after a syntax error and an
    infinity out of range, and whether the text was accepted. *)
Definition parse_float (prec emax : Z) (s : string) : spec_float * bool :=
  let l := bytes_of s in
  let '(neg, signed, body) := match l with
                              | Byte.x2b :: r => (false, true, r)
                              | Byte.x2d :: r => (true, true, r)
                              | _ => (false, false, l)
                              end in
  let t := lower_text body in
  if bool_decide (t = "inf"%string) || bool_decide (t = "infinity"%string) then (S754_infinity neg, true)
  else if negb signed && bool_decide (t = "nan"%string) then (S754_nan, true)
  else match read_number prec emax neg body with
       | Some f => (f, negb (bool_decide (f = S754_infinity neg)))
       | None => (S754_zero false, false)
       end.

(** [ParseFloat(s, 64)] and [ParseFloat(s, 32)]. *)
Definition ParseFloat (s : string) : float64 * bool := parse_float 53 1024 s.
Definition ParseFloat32 (s : string) : spec_float * bool := parse_float 24 128 s.

(** ** Printing *)

(** The exponent [k] with [10^(k-1) <= n/d < 10^k], searched upwards from below. *)
Fixpoint decimal_exponent (fuel : nat) (n d k : Z) : Z :=
  match fuel with
  | O => k
  | S fuel' =>
      let below := if k >=? 0 then n <? d * 10 ^ k else n * 10 ^ (- k) <? d in
      if below then k else decimal_exponent fuel' n d (k + 1)
  end.

(** The [digits]-digit decimals around [n/d], as integers scaled by
    [10^(k - digits)], that read back as [f]; the closer one if both do. *)
Definition candidate (f : float64) (n d k digits : Z) : option (Z * Z) :=
  let x := k - digits in
  let '(n', d') := if x >=? 0 then (n, d * 10 ^ x) else (n * 10 ^ (- x), d) in
  let c := n' / d' in
  let back c := bool_decide (scaled false c 10 x = f) in
  let up := 2 * (n' - c * d') >? d' in
  if back c && back (c + 1) then Some (if up then c + 1 else c, x)
  else if back c then Some (c, x)
  else if back (c + 1) then Some (c + 1, x)
  else None.

Fixpoint shortest (fuel : nat) (f : float64) (n d k digits : Z) : Z * Z :=
  match fuel with
  | O => (0, 0)
  | S fuel' =>
      match candidate f n d k digits with
      | Some r => r
      | None => shortest fuel' f n d k (digits + 1)
      end
  end.

(** The decimal [c * 10^x] without exponent; a double has at most 309 digits
    before the point. *)
Definition fixed_point (c x : Z) : string :=
  if x >=? 0 then str_of (format_uint 320 (c * 10 ^ x) []) else
  let s := format_uint 20 c [] in
  let pad := (Z.to_nat (1 - x) - length s)%nat in
  let l := replicate pad Byte.x30 ++ s in
  let cut := (length l - Z.to_nat (- x))%nat in
  str_of (take cut l ++ Byte.x2e :: drop cut l).

(** Trailing zeros of the shortest decimal are not digits of it. *)
Fixpoint strip_zeros (fuel : nat) (c x : Z) : Z * Z :=
  match fuel with
  | O => (c, x)
  | S fuel' => if negb (c =? 0) && (c mod 10 =? 0) then strip_zeros fuel' (c / 10) (x + 1) else (c, x)
  end.

Definition FormatFloat (f : float64) : string :=
  match f with
  | S754_nan => "NaN"
  | S754_infinity neg => if neg then "-Inf" else "+Inf"
  | S754_zero neg => if neg then "-0" else "0"
  | S754_finite neg m e =>
      let '(n, d) := if e >=? 0 then (Z.pos m * 2 ^ e, 1) else (Z.pos m, 2 ^ (- e)) in
      let k := decimal_exponent 8 n d ((Z.log2 (Z.pos m) + e) * 30103 / 100000 - 2) in
      let '(c, x) := shortest 17 (S754_finite false m e) n d k 1 in
      let '(c, x) := strip_zeros 20 c x in
      ((if neg then "-" else "") ++ fixed_point c x)%string
  end.

(** The verb [%f]: six decimals, half to even; infinities keep their sign. *)
Definition Sprintf_f (x : spec_float) : string :=
  match x with
  | S754_nan => "NaN"
  | S754_infinity neg => if neg then "-Inf" else "+Inf"
  | S754_zero neg => if neg then "-0.000000" else "0.000000"
  | S754_finite neg m e =>
      let '(n, d) := if e >=? 0 then (Z.pos m * 2 ^ e * 10 ^ 6, 1) else (Z.pos m * 10 ^ 6, 2 ^ (- e)) in
      let q := n / d in
      let r := 2 * (n - q * d) in
      let q := if (r >? d) || ((r =? d) && negb (q mod 2 =? 0)) then q + 1 else q in
      let s := format_uint 320 q [] in
      let l := replicate (7 - length s) Byte.x30 ++ s in
      let cut := (length l - 6)%nat in
      ((if neg then "-" else "") ++ str_of (take cut l ++ Byte.x2e :: drop cut l))%string
  end.

(** ** Checks against known values *)
Definition bits (f : float64) : option (Z * Z) :=
  match f with S754_finite false m e => Some (Z.pos m, e) | _ => None end.

Example ParseFloat_values :
  bits (ParseFloat "0.1").1 = Some (7205759403792794, -56)
  ∧ bits (ParseFloat "1").1 = Some (4503599627370496, -52)
  ∧ bits (ParseFloat "1_23.50_0_0e+1_2").1 = bits (ParseFloat "123500000000000").1
  ∧ bits (ParseFloat "0x1.8p1").1 = bits (ParseFloat "3").1
  ∧ bits (ParseFloat "4.9e-324").1 = Some (1, -1074)
  ∧ bits (ParseFloat "9007199254740993").1 = Some (4503599627370496, 1)
  ∧ ParseFloat "-Inf" = (S754_infinity true, true) ∧ ParseFloat "1e400" = (S754_infinity false, false)
  ∧ (ParseFloat "nan").1 = S754_nan ∧ ParseFloat "1.5x" = (S754_zero false, false)
  ∧ ParseFloat "" = (S754_zero false, false) ∧ ParseFloat "._5" = (S754_zero false, false).
Proof. vm_compute. conjs; reflexivity. Qed.

Example FormatFloat_values :
  FormatFloat (ParseFloat "0.1").1 = "0.1"%string
  ∧ FormatFloat (ParseFloat "-2.50").1 = "-2.5"%string
  ∧ FormatFloat (ParseFloat "1e21").1 = "1000000000000000000000"%string
  ∧ FormatFloat (ParseFloat "1e-7").1 = "0.0000001"%string
  ∧ FormatFloat (ParseFloat "100").1 = "100"%string
  ∧ FormatFloat (ParseFloat "3.141592653589793").1 = "3.141592653589793"%string
  ∧ FormatFloat (ParseFloat "9007199254740993").1 = "9007199254740992"%string.
Proof. vm_compute. conjs; reflexivity. Qed.

Example Sprintf_f_values :
  Sprintf_f (ParseFloat32 "0.1").1 = "0.100000"%string ∧ Sprintf_f (ParseFloat32 "-1").1 = "-1.000000"%string
  ∧ Sprintf_f (ParseFloat32 "12.3456785").1 = "12.345678"%string ∧ Sprintf_f (ParseFloat32 "0.0000005").1 = "0.000000"%string
  ∧ Sprintf_f (ParseFloat32 "0.9999999").1 = "1.000000"%string ∧ Sprintf_f (ParseFloat "0.5").1 = "0.500000"%string.
Proof. vm_compute. conjs; reflexivity. Qed.

(** ** The order on floats that are not NaN *)
Definition not_nan (f : float64) : Prop := f ≠ S754_nan.

#[export] Instance not_nan_dec f : Decision (not_nan f) := _.

(** Signed class, exponent and mantissa: the order of [SFcompare] is the
    lexicographic order of this triple. *)
Definition rank3 (f : float64) : Z * Z * Z :=
  match f with
  | S754_infinity true => (-2, 0, 0)
  | S754_finite true m e => (-1, -e, Zneg m)
  | S754_zero _ | S754_nan => (0, 0, 0)
  | S754_finite false m e => (1, e, Zpos m)
  | S754_infinity false => (2, 0, 0)
  end.

Definition lex3 (a b : Z * Z * Z) : Prop :=
  a.1.1 < b.1.1 ∨ a.1.1 = b.1.1 ∧ (a.1.2 < b.1.2 ∨ a.1.2 = b.1.2 ∧ a.2 < b.2).

Lemma pos_compare_cont m1 m2 : Pos.compare_cont Eq m1 m2 = (Zpos m1 ?= Zpos m2).
Proof. done. Qed.

Lemma SFcompare_rank x y :
  not_nan x → not_nan y →
  match SFcompare x y with
  | Some Lt => lex3 (rank3 x) (rank3 y)
  | Some Eq => rank3 x = rank3 y
  | Some Gt => lex3 (rank3 y) (rank3 x)
  | None => False
  end.
Proof.
  unfold not_nan, lex3. intros Hx Hy.
  destruct x as [[]|[]| |[] m1 e1], y as [[]|[]| |[] m2 e2]; cbn -[Pos.compare_cont Z.compare];
    try congruence; try lia; rewrite pos_compare_cont;
    destruct (Z.compare_spec e1 e2); try lia; subst;
    destruct (Z.compare_spec (Zpos m1) (Zpos m2)) as [[=]| |]; cbn [CompOpp]; subst; try lia; done.
Qed.

Lemma SFltb_rank x y : not_nan x → not_nan y → SFltb x y = true ↔ lex3 (rank3 x) (rank3 y).
Proof.
  intros Hx Hy. pose proof (SFcompare_rank x y Hx Hy) as Hc. unfold SFltb.
  destruct (SFcompare x y) as [[]|]; split; try done; unfold lex3 in *; [rewrite Hc|]; lia.
Qed.

Lemma SFeqb_rank x y : not_nan x → not_nan y → SFeqb x y = true ↔ rank3 x = rank3 y.
Proof.
  intros Hx Hy. pose proof (SFcompare_rank x y Hx Hy) as Hc. unfold SFeqb.
  destruct (SFcompare x y) as [[]|]; split; try done; intros Hr; rewrite Hr in Hc; unfold lex3 in Hc; lia.
Qed.
