(* ===== verification/Rounding.v ===== *)
(** * Rounding stays in the format

    The executable IEEE 754 model of the Standard Library comes without proofs;
    here the results of its quotients and of its normalisation are shown to be
    numbers of the format, with a canonical mantissa and an exponent in range. *)

From S2P Require Import Prelude.
From Stdlib Require Import Floats.SpecFloat.
Open Scope Z_scope.
Section Rounding.
Variables prec emax : Z.
Hypothesis prec_pos : 1 < prec.
Abbreviation fexp := (fexp prec emax).

Lemma digits_bounds m : 2 ^ (Zpos (digits2_pos m) - 1) ≤ Zpos m < 2 ^ Zpos (digits2_pos m).
Proof.
  induction m as [m IH|m IH|]; cbn [digits2_pos]; [| |done];
    rewrite Pos2Z.inj_succ, Z.sub_1_r, Z.pred_succ, Z.pow_succ_r by done;
    replace (2 ^ Z.pos (digits2_pos m)) with (2 * 2 ^ (Z.pos (digits2_pos m) - 1)) in *
      by (rewrite <- Z.pow_succ_r by lia; f_equal; lia); lia.
Qed.

Lemma digits_unique m d : 2 ^ (d - 1) ≤ Zpos m < 2 ^ d → 1 ≤ d → Zpos (digits2_pos m) = d.
Proof.
  intros [H1 H2] Hd. pose proof (digits_bounds m) as [H3 H4]. 
  assert (d - 1 < Zpos (digits2_pos m)) by (apply (Z.pow_lt_mono_r_iff 2); lia).
  assert (Zpos (digits2_pos m) - 1 < d) by (apply (Z.pow_lt_mono_r_iff 2); lia). lia.
Qed.

Lemma shr_1_div mrs : 0 ≤ shr_m mrs → shr_m (shr_1 mrs) = shr_m mrs / 2.
Proof.
  destruct mrs as [m r s]. cbn [shr_m]. intros Hm. destruct m as [|[p|p|]|p]; try done; cbn [shr_1 shr_m].
  - change (Z.pos p~1) with (2 * Z.pos p + 1). symmetry. rewrite Z.mul_comm, Z.div_add_l by done. by rewrite Z.add_0_r.
  - change (Z.pos p~0) with (2 * Z.pos p). by rewrite Z.mul_comm, Z.div_mul.
Qed.

Lemma iter_div p mrs : 0 ≤ shr_m mrs → shr_m (iter_pos shr_1 p mrs) = shr_m mrs / 2 ^ Zpos p.
Proof.
  revert mrs. induction p as [p IH|p IH|]; intros mrs Hm; cbn [iter_pos].
  - assert (H1 : 0 ≤ shr_m (shr_1 mrs)) by (rewrite shr_1_div by done; apply Z.div_pos; lia).
    assert (H2 : 0 ≤ shr_m (iter_pos shr_1 p (shr_1 mrs))) by (rewrite IH by done; apply Z.div_pos; lia).
    rewrite IH, IH, shr_1_div by done. rewrite !Z.div_div by lia. f_equal.
    change (Z.pos p~1) with (2 * Z.pos p + 1). rewrite Z.pow_add_r, Z.mul_comm, Z.pow_mul_r by lia. 
    change (2 ^ 2) with (2 * 2). rewrite Z.pow_mul_l. lia.
  - assert (H2 : 0 ≤ shr_m (iter_pos shr_1 p mrs)) by (rewrite IH by done; apply Z.div_pos; lia).
    rewrite IH, IH by done. rewrite !Z.div_div by lia. f_equal.
    change (Z.pos p~0) with (2 * Z.pos p). rewrite Z.pow_mul_r by lia. change (2 ^ 2) with (2 * 2). by rewrite Z.pow_mul_l.
  - by apply shr_1_div.
Qed.

(** One rounding step brings a mantissa that is long enough to its exponent. *)
Lemma shr_fexp_spec m e l :
  0 ≤ m → e ≤ fexp (Zdigits2 m + e) →
  let '(mrs, e') := shr_fexp prec emax m e l in
  e' = fexp (Zdigits2 m + e) ∧ shr_m mrs = m / 2 ^ (e' - e).
Proof.
  intros Hm He. unfold shr_fexp. set (n := fexp (Zdigits2 m + e) - e).
  assert (Hr : shr_m (shr_record_of_loc m l) = m) by (by destruct l as [|[]]).
  destruct n as [|p|p] eqn:En; cbn [shr].
  - subst n. split; [lia|]. rewrite Hr, Z.sub_diag. by rewrite Z.div_1_r.
  - split; [lia|]. rewrite iter_div, Hr by (by rewrite Hr). f_equal. f_equal. lia.
  - lia.
Qed.

Lemma emin_eq : emin prec emax = 3 - emax - prec.
Proof. done. Qed.

Lemma digits_nonneg m : 0 ≤ Zdigits2 m.
Proof. by destruct m. Qed.

(** A mantissa in the range of its exponent. *)
Definition in_range (m e : Z) : Prop :=
  0 ≤ m < 2 ^ prec ∧ emin prec emax ≤ e ∧ (2 ^ (prec - 1) ≤ m ∨ e = emin prec emax).

Lemma shifted_range m e :
  0 ≤ m → e ≤ fexp (Zdigits2 m + e) → let e' := fexp (Zdigits2 m + e) in in_range (m / 2 ^ (e' - e)) e'.
Proof.
  intros Hm He e'. assert (He' : e' = Z.max (Zdigits2 m + e - prec) (emin prec emax)) by done.
  unfold in_range. destruct m as [|m|m]; [| |lia].
  - cbn [Zdigits2] in *. rewrite Z.div_0_l by (apply Z.pow_nonzero; lia).
    pose proof (Z.pow_pos_nonneg 2 prec ltac:(lia) ltac:(lia)). lia.
  - cbn [Zdigits2] in *. pose proof (digits_bounds m) as [Hd1 Hd2]. set (d := Z.pos (digits2_pos m)) in *.
    assert (Hp : 0 < 2 ^ (e' - e)) by (apply Z.pow_pos_nonneg; lia).
    split; [split; [by apply Z.div_pos|]|split; [lia|]].
    + apply Z.div_lt_upper_bound; [done|]. rewrite <- Z.pow_add_r by lia.
      eapply Z.lt_le_trans; [exact Hd2|]. apply Z.pow_le_mono_r; lia.
    + destruct (Z.le_gt_cases (d + e - prec) (emin prec emax)); [right; lia|left]. apply Z.div_le_lower_bound; [done|].
      rewrite <- Z.pow_add_r by lia. etransitivity; [|exact Hd1]. apply Z.pow_le_mono_r; lia.
Qed.

Lemma round_aux_valid s m e l :
  0 ≤ m → e ≤ fexp (Zdigits2 m + e) → valid_binary prec emax (binary_round_aux prec emax s m e l) = true.
Proof.
  intros Hm He. unfold binary_round_aux.
  pose proof (shr_fexp_spec m e l Hm He) as H1. destruct (shr_fexp prec emax m e l) as [mrs1 e1]. destruct H1 as [He1 Hm1].
  pose proof (shifted_range m e Hm He) as Hr. cbn zeta in Hr. rewrite <- He1, <- Hm1 in Hr. clear He1 Hm1.
  destruct Hr as ([Hr0 Hr1] & Hr2 & Hr3). set (m2 := round_nearest_even (shr_m mrs1) (loc_of_shr_record mrs1)).
  assert (Hm2 : shr_m mrs1 ≤ m2 ≤ shr_m mrs1 + 1).
  { unfold m2, round_nearest_even. destruct (loc_of_shr_record mrs1) as [|[]]; [lia|destruct (Z.even _); lia|lia|lia]. }
  clearbody m2. assert (Hpow : 2 ^ prec = 2 * 2 ^ (prec - 1)) by (rewrite <- Z.pow_succ_r by lia; f_equal; lia).
  assert (Hpos : 0 < 2 ^ (prec - 1)) by (apply Z.pow_pos_nonneg; lia).
  assert (Hfe : ∀ x, fexp x = Z.max (x - prec) (emin prec emax)) by done.
  assert (Hdig : 2 ^ (prec - 1) ≤ m2 → Zdigits2 m2 = if m2 =? 2 ^ prec then prec + 1 else prec).
  { intros Hb. destruct m2 as [|p|p]; [lia| |lia]. cbn [Zdigits2]. destruct (Z.eqb_spec (Z.pos p) (2 ^ prec)) as [E|E]; apply digits_unique; try lia.
    - rewrite E, Z.add_simpl_r, Z.pow_add_r by lia. lia. }
  assert (Hsmall : m2 < 2 ^ (prec - 1) → Zdigits2 m2 < prec ∧ e1 = emin prec emax).
  { intros Hb. split; [|lia]. destruct m2 as [|p|p]; [cbn; lia| |lia]. cbn [Zdigits2]. pose proof (digits_bounds p) as [Hd _].
    assert (Z.pos (digits2_pos p) - 1 < prec - 1) by (apply (Z.pow_lt_mono_r_iff 2); lia). lia. }
  pose proof (digits_nonneg m2) as Hdn.
  assert (He1 : e1 ≤ fexp (Zdigits2 m2 + e1)).
  { rewrite Hfe. destruct (Z.lt_ge_cases m2 (2 ^ (prec - 1))); [lia|]. rewrite Hdig by done. destruct (m2 =? 2 ^ prec); lia. }
  pose proof (shr_fexp_spec m2 e1 loc_Exact ltac:(lia) He1) as H2. destruct (shr_fexp prec emax m2 e1 loc_Exact) as [mrs2 e2]. destruct H2 as [He2 Hm3].
  destruct (shr_m mrs2) as [|m3|m3] eqn:E3; [done| |done]. destruct (Z.leb_spec e2 (emax - prec)); [|done]. cbn [valid_binary].
  unfold bounded, canonical_mantissa. apply andb_true_intro. split; [|lia]. apply Z.eqb_eq.
  destruct (Z.eq_dec m2 (2 ^ prec)) as [E|E].
  - rewrite Hdig, (proj2 (Z.eqb_eq _ _) E), Hfe in He2 by lia. assert (E2 : e2 = e1 + 1) by lia. clear He2. subst e2.
    assert (Z.pos m3 = 2 ^ (prec - 1)).
    { rewrite Hm3, E, Hpow. replace (e1 + 1 - e1) with 1 by lia. change (2 ^ 1) with 2. rewrite (Z.mul_comm 2 (2 ^ (prec - 1))). by apply Z.div_mul. }
    rewrite (digits_unique m3 prec), Hfe by lia. lia.
  - assert (E2 : e2 = e1).
    { rewrite Hfe in He2. destruct (Z.lt_ge_cases m2 (2 ^ (prec - 1))); [lia|]. rewrite Hdig, (proj2 (Z.eqb_neq _ _) E) in He2 by done. lia. }
    rewrite E2 in *. rewrite Z.sub_diag, Z.div_1_r in Hm3. rewrite <- Hm3 in He2. cbn [Zdigits2] in He2. congruence.
Qed.

(** Quotients, products and normalised numbers are numbers of the format. *)
Lemma fexp_mono x y : x ≤ y → fexp x ≤ fexp y.
Proof. unfold SpecFloat.fexp. lia. Qed.

Lemma digits_lower m k : 0 ≤ k → 2 ^ k ≤ m → k < Zdigits2 m.
Proof.
  intros Hk Hm. pose proof (Z.pow_pos_nonneg 2 k ltac:(lia) Hk). destruct m as [|m|m]; [lia| |lia]. cbn [Zdigits2].
  pose proof (digits_bounds m). apply (Z.pow_lt_mono_r_iff 2); lia.
Qed.

Lemma div_valid x y : valid_binary prec emax (SFdiv prec emax x y) = true.
Proof.
  destruct x as [sx|sx| |sx mx ex], y as [sy|sy| |sy my ey]; try done. cbn [SFdiv].
  unfold SFdiv_core_binary. cbn [Zdigits2]. set (d1 := Z.pos (digits2_pos mx)). set (d2 := Z.pos (digits2_pos my)).
  set (e' := Z.min _ _). set (m' := match _ with Z0 => _ | _ => _ end).
  assert (Hs : 0 ≤ ex - ey - e') by lia.
  assert (Hm' : m' = Z.pos mx * 2 ^ (ex - ey - e')).
  { unfold m'. destruct (ex - ey - e') as [|p|p] eqn:E; [lia| |lia]. by rewrite Z.shiftl_mul_pow2. }
  clearbody m'. destruct (Z.div_eucl m' (Z.pos my)) as [q r] eqn:Eq.
  assert (Hq : q = m' / Z.pos my) by (unfold Z.div; by rewrite Eq). pose proof (digits_bounds mx) as [Hx1 Hx2]. pose proof (digits_bounds my) as [Hy1 Hy2].
  fold d1 in Hx1, Hx2. fold d2 in Hy1, Hy2. assert (Hp : 0 < 2 ^ (ex - ey - e')) by (apply Z.pow_pos_nonneg; lia).
  assert (Hq0 : 0 ≤ q) by (rewrite Hq; apply Z.div_pos; lia). apply round_aux_valid; [done|].
  etransitivity; [apply Z.le_min_l|]. apply fexp_mono. fold e'.
  destruct (Z.le_gt_cases (d1 + (ex - ey - e') - d2) 0) as [Hd|Hd]; [pose proof (digits_nonneg q); lia|].
  assert (2 ^ (d1 + (ex - ey - e') - d2 - 1) ≤ q).
  { rewrite Hq. apply Z.div_le_lower_bound; [lia|]. rewrite Hm'. etransitivity; [apply Z.mul_le_mono_nonneg_r; [apply Z.pow_nonneg; lia|apply Z.lt_le_incl, Hy2]|].
    rewrite <- Z.pow_add_r by lia. replace (d2 + (d1 + (ex - ey - e') - d2 - 1)) with ((d1 - 1) + (ex - ey - e')) by lia.
    rewrite Z.pow_add_r by lia. apply Z.mul_le_mono_nonneg_r; lia. }
  pose proof (digits_lower q (d1 + (ex - ey - e') - d2 - 1) ltac:(lia) ltac:(done)). lia.
Qed.

Lemma iter_xO m d : Z.pos (Pos.iter xO m d) = Z.pos m * 2 ^ Z.pos d.
Proof.
  induction d as [|d IH] using Pos.peano_ind; [cbn; lia|]. rewrite Pos.iter_succ, Pos2Z.inj_succ, Z.pow_succ_r by lia.
  change (Z.pos (Pos.iter xO m d)~0) with (2 * Z.pos (Pos.iter xO m d)). rewrite IH. lia.
Qed.

Lemma normalize_valid m e s : valid_binary prec emax (binary_normalize prec emax m e s) = true.
Proof.
  assert (Hr : ∀ s m, valid_binary prec emax (binary_round prec emax s m e) = true); [|destruct m; [done|apply Hr..]].
  clear m s. intros s m. unfold binary_round, shl_align. destruct (fexp (Z.pos (digits2_pos m) + e) - e) as [|p|p] eqn:E.
  - apply round_aux_valid; [done|]. cbn [Zdigits2]. lia.
  - apply round_aux_valid; [done|]. cbn [Zdigits2]. lia.
  - apply round_aux_valid; [done|]. cbn [Zdigits2].
    assert (Hd : Z.pos (digits2_pos (Pos.iter xO m p)) = Z.pos (digits2_pos m) + Z.pos p).
    { apply digits_unique; [|lia]. rewrite iter_xO. pose proof (digits_bounds m) as [H1 H2].
      replace (Z.pos (digits2_pos m) + Z.pos p - 1) with (Z.pos (digits2_pos m) - 1 + Z.pos p) by lia.
      rewrite !Z.pow_add_r by lia. pose proof (Z.pow_pos_nonneg 2 (Z.pos p) ltac:(lia) ltac:(lia)).
      split; [apply Z.mul_le_mono_nonneg_r|apply Z.mul_lt_mono_pos_r]; lia. }
    rewrite Hd. apply Z.eq_le_incl. replace (Z.pos (digits2_pos m) + Z.pos p + fexp (Z.pos (digits2_pos m) + e)) with (Z.pos (digits2_pos m) + e) by lia. done.
Qed.
End Rounding.
