(* ===== verification/BinHeap.v ===== *)
(** * Binary heaps in a slice

    What the heaps of the program share: [container/heap] over expiry items
    ([ExpiryHeap]) and the two score heaps of the graph search ([Hnsw]). The
    children of position [i] are [2 i + 1] and [2 i + 2]; [R] says that an item
    may lie above another. *)

From S2P Require Import Prelude.

Section BinHeap.
Context {A : Type} `{!Inhabited A}.
Implicit Types h : list A.

Definition swap (h : list A) (i j : nat) : list A := <[i := h !!! j]> (<[j := h !!! i]> h).

Definition child (p c : nat) : Prop := (c = 2 * p + 1 ∨ c = 2 * p + 2)%nat.

Lemma length_swap h i j : length (swap h i j) = length h.
Proof. unfold swap. by rewrite !length_insert. Qed.

Lemma swap_lookup h i j k :
  (i < length h)%nat → (j < length h)%nat →
  swap h i j !!! k
  = if decide (k = i) then h !!! j else if decide (k = j) then h !!! i else h !!! k.
Proof.
  intros Hi Hj. unfold swap. destruct (decide (k = i)) as [->|Hki].
  { rewrite list_lookup_total_insert_eq; [done|]. by rewrite length_insert. }
  rewrite list_lookup_total_insert_ne by done. destruct (decide (k = j)) as [->|Hkj].
  - by rewrite list_lookup_total_insert_eq.
  - by rewrite list_lookup_total_insert_ne.
Qed.

Lemma swap_Permutation h i j : (i < length h)%nat → (j < length h)%nat → swap h i j ≡ₚ h.
Proof.
  intros Hi Hj. apply Permutation_inj. split; [apply length_swap|].
  exists (fun k => if decide (k = i) then j else if decide (k = j) then i else k). split.
  - intros a b. repeat case_decide; congruence.
  - intros k. unfold swap.
    destruct (decide (k = i)) as [->|].
    { rewrite list_lookup_insert_eq by by rewrite length_insert.
      symmetry. by apply list_lookup_lookup_total_lt. }
    rewrite list_lookup_insert_ne by done. destruct (decide (k = j)) as [->|].
    + rewrite list_lookup_insert_eq by done. symmetry. by apply list_lookup_lookup_total_lt.
    + by rewrite list_lookup_insert_ne.
Qed.

Lemma parent_child j : j ≠ 0%nat → child (Nat.div2 (j - 1)) j.
Proof.
  intros Hj. unfold child. rewrite Nat.div2_div.
  pose proof (Nat.div_mod_eq (j - 1) 2). pose proof (Nat.mod_upper_bound (j - 1) 2). lia.
Qed.

Lemma child_unique p q c : child p c → child q c → p = q.
Proof. unfold child. lia. Qed.

(** ** Heap order *)
Variable R : A → A → Prop.
Hypothesis R_trans : ∀ a b c, R a b → R b c → R a c.

Definition heap_ok (h : list A) (n : nat) : Prop :=
  ∀ p c, child p c → (c < n)%nat → R (h !!! p) (h !!! c).

(** [h] is a heap except that the item at [j] may belong further up. *)
Definition up_inv (h : list A) (n j : nat) : Prop :=
  (∀ p c, child p c → (c < n)%nat → c ≠ j → R (h !!! p) (h !!! c)) ∧
  (∀ p c, child p j → child j c → (c < n)%nat → R (h !!! p) (h !!! c)).

(** [h] is a heap except that the item at [i] may belong further down. *)
Definition down_inv (h : list A) (n i : nat) : Prop :=
  (∀ p c, child p c → (c < n)%nat → p ≠ i → R (h !!! p) (h !!! c)) ∧
  (∀ p c, child p i → child i c → (c < n)%nat → R (h !!! p) (h !!! c)).

Lemma up_inv_ok h n j : up_inv h n j → (∀ p, child p j → R (h !!! p) (h !!! j)) → heap_ok h n.
Proof.
  intros [HA _] Hj p c Hc Hn. destruct (decide (c = j)) as [->|]; [by apply Hj|by apply HA].
Qed.

Lemma up_inv_snoc h x : heap_ok h (length h) → up_inv (h ++ [x]) (S (length h)) (length h).
Proof.
  intros Hok. split; intros p c Hpc Hc.
  - intros Hne. assert (p < c)%nat by (unfold child in Hpc; lia).
    rewrite !lookup_total_app_l by lia. apply Hok; [done|lia].
  - unfold child in Hc. lia.
Qed.

Lemma up_inv_step h i j :
  (j < length h)%nat → child i j → R (h !!! j) (h !!! i) →
  up_inv h (length h) j → up_inv (swap h i j) (length h) i.
Proof.
  intros Hj Hij Hlt [HA HB]. assert (i < j)%nat by (unfold child in Hij; lia).
  split; intros p c Hpc; rewrite ?swap_lookup by lia.
  - intros Hc Hci. rewrite (decide_False (P := c = i)) by done.
    destruct (decide (c = j)) as [->|].
    { rewrite (child_unique p i j) by done. by rewrite decide_True. }
    destruct (decide (p = i)) as [->|]; [by eapply R_trans; [|apply HA]|].
    destruct (decide (p = j)) as [->|]; auto.
  - intros Hic Hc. assert (p < i)%nat by (unfold child in Hpc; lia).
    assert (i < c)%nat by (unfold child in Hic; lia).
    rewrite (decide_False (P := p = i)), (decide_False (P := p = j)) by lia.
    rewrite (decide_False (P := c = i)) by lia.
    assert (R (h !!! p) (h !!! i)) by (apply HA; [done|lia|lia]).
    destruct (decide (c = j)) as [->|]; [done|]. by eapply R_trans; [|apply HA].
Qed.

Lemma down_inv_step h n i j :
  (n ≤ length h)%nat → child i j → (j < n)%nat → R (h !!! j) (h !!! i) →
  (∀ c, child i c → (c < n)%nat → R (h !!! j) (h !!! c)) →
  down_inv h n i → down_inv (swap h i j) n j.
Proof.
  intros Hn Hij Hj Hlt Hmin [HA HB]. assert (i < j)%nat by (unfold child in Hij; lia).
  split; intros p c Hpc; rewrite ?swap_lookup by lia.
  - intros Hc Hpj. assert (p < c)%nat by (unfold child in Hpc; lia).
    rewrite (decide_False (P := p = j)) by done.
    destruct (decide (p = i)) as [->|].
    { rewrite (decide_False (P := c = i)) by lia. destruct (decide (c = j)); [done|auto]. }
    destruct (decide (c = i)) as [->|]; [by apply HB|].
    destruct (decide (c = j)) as [->|]; [by destruct (child_unique p i j)|auto].
  - intros Hjc Hc. rewrite (child_unique p i j) by done.
    assert (j < c)%nat by (unfold child in Hjc; lia).
    rewrite decide_True by done.
    rewrite (decide_False (P := c = i)), (decide_False (P := c = j)) by lia.
    apply HA; [done|done|lia].
Qed.

Lemma down_inv_root h n : heap_ok h n → ∀ x, down_inv (<[0%nat := x]> h) n 0.
Proof.
  intros Hok x. split; intros p c Hpc Hc; [|unfold child in Hpc; lia].
  intros Hp0. assert (p < c)%nat by (unfold child in Hpc; lia).
  rewrite !list_lookup_total_insert_ne by lia. by apply Hok.
Qed.

Lemma down_inv_leaf h n i : (n ≤ 2 * i + 1)%nat → down_inv h n i → heap_ok h n.
Proof. intros Hn [HA _] p c Hpc Hc. apply HA; [done..|]. unfold child in Hpc. lia. Qed.

Lemma heap_ok_take h n : heap_ok h n → heap_ok (take n h) n.
Proof.
  intros H1 p c Hpc Hc. assert (p < c)%nat by (unfold child in Hpc; lia).
  rewrite !list_lookup_total_alt, !lookup_take_lt by lia.
  rewrite <- !list_lookup_total_alt. by apply H1.
Qed.

Lemma heap_root h i :
  (∀ a, R a a) → heap_ok h (length h) → (i < length h)%nat → R (h !!! 0%nat) (h !!! i).
Proof.
  intros Hrefl Hok. induction i as [i IH] using lt_wf_ind. intros Hi.
  destruct (decide (i = 0%nat)) as [->|Hi0]; [done|].
  pose proof (parent_child i Hi0) as Hp.
  assert (Nat.div2 (i - 1) < i)%nat by (unfold child in Hp; lia).
  eapply R_trans; [apply (IH (Nat.div2 (i - 1))); lia|by apply Hok].
Qed.

Lemma heap_ok_nil : heap_ok [] 0.
Proof. intros p c _ H. lia. Qed.
End BinHeap.
