(* ===== verification/ExpiryHeap.v ===== *)
(** * The deadline heap of a shard (src/internal/engine/kv.go, [expiryHeap])

    [container/heap] over a slice of expiry items ordered by deadline: [Push]
    appends and sifts up, [Pop] swaps the root with the last item and sifts
    down. Both keep the heap order and the multiset of items, and the root is a
    minimum. *)

From S2P Require Import Prelude BinHeap.

Record expiryItem := { item_key : string; deadline : Z; item_version : Z }.

#[export] Instance expiryItem_eq_dec : EqDecision expiryItem.
Proof. solve_decision. Defined.
#[export] Instance expiryItem_inhabited : Inhabited expiryItem :=
  populate {| item_key := ""; deadline := 0; item_version := 0 |}.

Abbreviation expiryHeap := (list expiryItem).

(** [Less], [Swap] *)
Definition Less (h : expiryHeap) (i j : nat) : bool := deadline (h !!! i) <? deadline (h !!! j).
Definition Swap (h : expiryHeap) (i j : nat) : expiryHeap := swap h i j.

(** [heap.up]: sift the item at [j] towards the root. *)
Fixpoint heap_up (fuel : nat) (h : expiryHeap) (j : nat) : expiryHeap :=
  match fuel with
  | O => h
  | S fuel' =>
      let i := Nat.div2 (j - 1) in
      if (i =? j)%nat || negb (Less h j i) then h
      else heap_up fuel' (Swap h i j) i
  end.

(** [heap.down]: sift the item at [i] down within the first [n] items. *)
Fixpoint heap_down (fuel : nat) (h : expiryHeap) (i n : nat) : expiryHeap :=
  match fuel with
  | O => h
  | S fuel' =>
      let j1 := (2 * i + 1)%nat in
      if (n <=? j1)%nat then h
      else
        let j2 := (j1 + 1)%nat in
        let j := if (j2 <? n)%nat && Less h j2 j1 then j2 else j1 in
        if negb (Less h j i) then h
        else heap_down fuel' (Swap h i j) j n
  end.

Definition heap_Push (h : expiryHeap) (x : expiryItem) : expiryHeap :=
  let h' := h ++ [x] in heap_up (length h') h' (length h).

(** The heap without its root (the popped item is the root). *)
Definition heap_Pop (h : expiryHeap) : expiryHeap :=
  let n := (length h - 1)%nat in
  take n (heap_down n (Swap h 0 n) 0 n).

(** ** Heap order *)
Definition dl (h : expiryHeap) (i : nat) : Z := deadline (h !!! i).
Definition earlier (a b : expiryItem) : Prop := deadline a ≤ deadline b.
Abbreviation heap_ok := (BinHeap.heap_ok earlier).
Abbreviation up_inv := (BinHeap.up_inv earlier).
Abbreviation down_inv := (BinHeap.down_inv earlier).

Lemma earlier_trans a b c : earlier a b → earlier b c → earlier a c.
Proof. unfold earlier. lia. Qed.
#[local] Hint Resolve earlier_trans : core.

Lemma heap_up_spec fuel h j :
  (j < fuel)%nat → (j < length h)%nat → up_inv h (length h) j →
  heap_ok (heap_up fuel h j) (length h) ∧ heap_up fuel h j ≡ₚ h.
Proof.
  revert h j. induction fuel as [|fuel IH]; intros h j Hf Hj Hinv; [lia|].
  cbn [heap_up]. set (i := Nat.div2 (j - 1)).
  destruct (decide (j = 0%nat)) as [->|Hj0].
  { cbn. split; [|done]. eapply up_inv_ok; [done|]. unfold child. intros. lia. }
  pose proof (parent_child j Hj0) as Hij. fold i in Hij.
  assert (i < j)%nat by (unfold child in Hij; lia).
  replace (i =? j)%nat with false by (symmetry; apply Nat.eqb_neq; lia). cbn [orb].
  destruct (Less h j i) eqn:E; cbn [negb]; unfold Less in E; bool_to_prop.
  - unfold Swap. destruct (IH (swap h i j) i) as [H1 H2]; rewrite ?length_swap in *; [lia..| |].
    { apply up_inv_step; eauto. unfold earlier. lia. }
    split; [done|]. rewrite H2. apply swap_Permutation; lia.
  - split; [|done]. eapply up_inv_ok; [done|]. intros p Hp.
    rewrite (child_unique p i j) by done. unfold earlier. lia.
Qed.

Lemma heap_Push_spec h x :
  heap_ok h (length h) →
  heap_ok (heap_Push h x) (length (heap_Push h x)) ∧ heap_Push h x ≡ₚ x :: h.
Proof.
  intros Hok. unfold heap_Push.
  assert (Hl : length (h ++ [x]) = S (length h)) by (rewrite length_app; cbn; lia).
  destruct (heap_up_spec (length (h ++ [x])) (h ++ [x]) (length h)) as [H1 H2]; [lia..| |].
  - rewrite Hl. by apply up_inv_snoc.
  - split; [by rewrite (Permutation_length H2)|].
    rewrite H2. by rewrite Permutation_app_comm.
Qed.

(** The smaller child, as [heap.down] picks it. *)
Lemma smaller_child h n i :
  let j1 := (2 * i + 1)%nat in
  let j := if (j1 + 1 <? n)%nat && Less h (j1 + 1) j1 then (j1 + 1)%nat else j1 in
  (j1 < n)%nat →
  child i j ∧ (j < n)%nat ∧ ∀ c, child i c → (c < n)%nat → dl h j ≤ dl h c.
Proof.
  cbv zeta. intros Hj1. unfold Less, child, dl.
  destruct (Nat.ltb_spec (2 * i + 1 + 1) n); cbn [andb].
  - destruct (_ <? _) eqn:E; bool_to_prop; repeat split; try lia.
    + intros c [->| ->] _; [lia|]. by replace (2 * i + 1 + 1)%nat with (2 * i + 2)%nat by lia.
    + intros c [->| ->] _; [done|]. by replace (2 * i + 1 + 1)%nat with (2 * i + 2)%nat in E by lia.
  - repeat split; [lia..|]. intros c [->| ->] Hc; [done|lia].
Qed.

Lemma heap_down_spec fuel h i n :
  (n ≤ i + fuel)%nat → (n ≤ length h)%nat → down_inv h n i →
  let r := heap_down fuel h i n in
  heap_ok r n ∧ r ≡ₚ h ∧ (∀ k, (n ≤ k)%nat → r !!! k = h !!! k).
Proof.
  revert h i. induction fuel as [|fuel IH]; intros h i Hf Hn Hinv; cbn [heap_down]; cbv zeta.
  { split; [|done]. apply (down_inv_leaf _ _ _ i); [lia|done]. }
  destruct (Nat.leb_spec n (2 * i + 1)) as [Hle|Hgt].
  { split; [|done]. apply (down_inv_leaf _ _ _ i); [lia|done]. }
  destruct (smaller_child h n i Hgt) as (Hij & Hj & Hmin).
  set (j := if _ && _ then _ else _) in *.
  assert (i < j)%nat by (unfold child in Hij; lia).
  destruct (Less h j i) eqn:E; cbn [negb]; unfold Less in E; bool_to_prop.
  - unfold Swap. destruct (IH (swap h i j) j) as (H1 & H2 & H3); rewrite ?length_swap; [lia..| |].
    { apply down_inv_step; eauto. unfold earlier. lia. }
    split; [done|]. split.
    + rewrite H2. apply swap_Permutation; lia.
    + intros k Hk. rewrite H3, swap_lookup, !decide_False by lia. done.
  - split; [|done]. intros p c Hpc Hc. destruct (decide (p = i)) as [->|].
    + specialize (Hmin c Hpc Hc). unfold earlier, dl in *. lia.
    + by apply (proj1 Hinv).
Qed.

Lemma heap_Pop_spec h :
  h ≠ [] → heap_ok h (length h) →
  heap_ok (heap_Pop h) (length (heap_Pop h)) ∧ (h !!! 0%nat) :: heap_Pop h ≡ₚ h.
Proof.
  intros Hne Hok. assert (Hl : (0 < length h)%nat) by (destruct h; [done|cbn; lia]).
  unfold heap_Pop, Swap. set (n := (length h - 1)%nat).
  destruct (heap_down_spec n (swap h 0 n) 0 n) as (H1 & H2 & H3);
    rewrite ?length_swap; [lia..| |].
  { split; intros p c Hpc Hc; [|unfold child in Hpc; lia].
    intros Hp0. assert (p < c)%nat by (unfold child in Hpc; lia).
    rewrite !swap_lookup, !decide_False by lia. apply Hok; [done|lia]. }
  set (r := heap_down n (swap h 0 n) 0 n) in *.
  assert (Hr : length r = length h) by (rewrite H2; apply length_swap).
  assert (Ht : length (take n r) = n) by (rewrite length_take; lia).
  split.
  - rewrite Ht. by apply heap_ok_take.
  - assert (Hlast : r !! n = Some (h !!! 0%nat)).
    { rewrite list_lookup_lookup_total_lt by lia. f_equal.
      rewrite H3, swap_lookup by lia. destruct (decide (n = 0%nat)) as [->|]; [done|].
      by rewrite decide_True. }
    rewrite Permutation_cons_append, <- (take_S_r _ _ _ Hlast).
    rewrite take_ge by lia. rewrite H2. apply swap_Permutation; lia.
Qed.

Lemma heap_root_min h i :
  heap_ok h (length h) → (i < length h)%nat → dl h 0 ≤ dl h i.
Proof. intros Hok Hi. apply (heap_root earlier); eauto. intros a. unfold earlier. lia. Qed.
