(* ===== verification/Glob.v ===== *)
(** * Glob matching of keys (src/internal/engine/kv.go, [matchGlob])

    The iterative matcher with one backtracking point, its termination, and its
    agreement with an inductive definition of glob patterns. *)

From S2P Require Import Prelude.
From Stdlib Require Import Strings.Byte.

(** ** The matcher of the source

    [p] and [s] index the pattern and the subject, [star] is the index of the
    latest star (or none), [mtch] the subject index its current guess ends at. *)
Fixpoint glob_loop (fuel : nat) (pat str : list byte) (p s : nat) (star : option nat) (mtch : nat)
    : option bool :=
  match fuel with
  | O => None
  | S fuel' =>
      match str !! s with
      | Some c =>
          match pat !! p with
          | Some x =>
              if bool_decide (x = Byte.x3f) || bool_decide (x = c)
              then glob_loop fuel' pat str (S p) (S s) star mtch
              else if bool_decide (x = Byte.x2a)
              then glob_loop fuel' pat str (S p) s (Some p) s
              else match star with
                   | Some st => glob_loop fuel' pat str (S st) (S mtch) star (S mtch)
                   | None => Some false
                   end
          | None =>
              match star with
              | Some st => glob_loop fuel' pat str (S st) (S mtch) star (S mtch)
              | None => Some false
              end
          end
      | None => Some (forallb (fun x => bool_decide (x = Byte.x2a)) (drop p pat))
      end
  end.

(** Every iteration advances the star, or the guess, or the subject index, in
    that order of significance. *)
Definition glob_fuel (pat str : list byte) : nat :=
  S ((length pat + 1) * (length str + 2) * (length str + 2)).

Definition globMatch (pattern str : string) : bool :=
  let pat := bytes_of pattern in
  let s := bytes_of str in
  default false (glob_loop (glob_fuel pat s) pat s 0 0 None 0).

Definition matchGlob (pattern s : string) : bool :=
  if bool_decide (pattern = "*"%string) then true else globMatch pattern s.

(** ** Termination *)

Definition star_idx (star : option nat) : nat :=
  match star with Some st => S st | None => 0 end.

Definition glob_measure (P L s mtch : nat) (star : option nat) : nat :=
  ((P - star_idx star) * (L + 2) * (L + 2) + (L + 1 - mtch) * (L + 2) + (L + 1 - s))%nat.

(** Enough fuel gives a result, whatever the pattern and the subject. *)
Lemma glob_loop_total fuel pat str p s star mtch :
  (star_idx star ≤ p)%nat → (p ≤ length pat)%nat →
  (mtch ≤ s)%nat → (s ≤ length str)%nat →
  (glob_measure (length pat) (length str) s mtch star < fuel)%nat →
  is_Some (glob_loop fuel pat str p s star mtch).
Proof.
  revert p s star mtch. induction fuel as [|fuel IH]; intros p s star mtch Hst Hp Hm Hs Hf; [lia|].
  cbn [glob_loop]. destruct (str !! s) as [c|] eqn:Ec; [|by eexists].
  apply lookup_lt_Some in Ec.
  assert (Hback : is_Some match star with
    | Some st => glob_loop fuel pat str (S st) (S mtch) star (S mtch)
    | None => Some false end).
  { destruct star as [st|]; [|by eexists].
    apply IH; unfold glob_measure in *; cbn [star_idx] in *; nia. }
  destruct (pat !! p) as [x|] eqn:Ex; [|done]. apply lookup_lt_Some in Ex.
  case_if; [apply IH; unfold glob_measure in *; nia|].
  case_if; [|done].
  apply IH; unfold glob_measure in *; cbn [star_idx]; [lia..|].
  assert (length pat - S p < length pat - star_idx star)%nat by lia. nia.
Qed.

(** ** The reference: which subjects a pattern denotes *)
Inductive glob : list byte → list byte → Prop :=
| glob_nil : glob [] []
| glob_star_skip p s : glob p s → glob (Byte.x2a :: p) s
| glob_star_take p c s : glob (Byte.x2a :: p) s → glob (Byte.x2a :: p) (c :: s)
| glob_char x p c s :
    x ≠ Byte.x2a → x = Byte.x3f ∨ x = c → glob p s → glob (x :: p) (c :: s).

#[local] Hint Constructors glob : dbx.

(** One pattern character, other than a star, matches one subject character. *)
Definition cmatch (x c : byte) : Prop := x ≠ Byte.x2a ∧ (x = Byte.x3f ∨ x = c).

Lemma glob_cons_inv x p c s : glob (x :: p) (c :: s) → x ≠ Byte.x2a → cmatch x c ∧ glob p s.
Proof. inversion 1; subst; intros; try done. Qed.

Lemma glob_seg seg u r t : Forall2 cmatch seg u → glob (seg ++ r) (u ++ t) ↔ glob r t.
Proof.
  induction 1 as [|x c seg u [Hx Hc] _ IH]; [done|]. cbn [app]. rewrite <- IH. split.
  - intros H. by destruct (glob_cons_inv _ _ _ _ H Hx).
  - auto with dbx.
Qed.

Lemma glob_seg_inv seg r t :
  Byte.x2a ∉ seg → glob (seg ++ r) t →
  ∃ u t', t = u ++ t' ∧ Forall2 cmatch seg u ∧ glob r t'.
Proof.
  revert t. induction seg as [|x seg IH]; intros t Hs H; cbn in H.
  { exists [], t. by repeat constructor. }
  apply not_elem_of_cons in Hs as [Hx Hs].
  inversion H; subst; try done.
  destruct (IH s) as (u & t' & -> & Hu & Ht); [done..|].
  exists (c :: u), t'. split; [done|]. split; [constructor; [by split|done]|done].
Qed.

Lemma glob_star_ext r u t : glob (Byte.x2a :: r) t → glob (Byte.x2a :: r) (u ++ t).
Proof. intros H. induction u; cbn; auto with dbx. Qed.

Lemma glob_star_inv r t :
  glob (Byte.x2a :: r) t → ∃ u t', t = u ++ t' ∧ glob r t'.
Proof.
  intros H. remember (Byte.x2a :: r) as pat eqn:E. revert E.
  induction H as [|p s H IH|p c s H IH|x p c s Hx _ H IH]; intros [= ->]; subst.
  - by exists [], s.
  - destruct IH as (u & t' & -> & Ht); [done|]. by exists (c :: u), t'.
  - done.
Qed.

Lemma glob_nil_r p : glob p [] ↔ forallb (fun x => bool_decide (x = Byte.x2a)) p = true.
Proof.
  induction p as [|x p IH]; cbn; [by split; auto with dbx|].
  rewrite andb_true_iff, bool_decide_eq_true, <- IH. split.
  - inversion 1; subst; auto.
  - intros [-> H]. auto with dbx.
Qed.

Lemma glob_mismatch x P c S :
  x ≠ Byte.x3f → x ≠ c → x ≠ Byte.x2a → ¬ glob (x :: P) (c :: S).
Proof. intros ? ? Hx H. by destruct (glob_cons_inv _ _ _ _ H Hx) as [[_ [|]] _]. Qed.

Lemma cmatch_no_star seg u : Forall2 cmatch seg u → Byte.x2a ∉ seg.
Proof.
  induction 1 as [|x c seg u [Hx _] _ IH]; [apply not_elem_of_nil|].
  apply not_elem_of_cons. auto.
Qed.

(** The greedy step: after the first place where [seg] fits, a later star can
    absorb whatever an earlier one would have skipped. *)
Lemma glob_star_star seg u r t :
  Forall2 cmatch seg u →
  glob (Byte.x2a :: seg ++ Byte.x2a :: r) (u ++ t) ↔ glob (Byte.x2a :: r) t.
Proof.
  intros Hseg. split.
  - intros (a & b & Hab & Hb)%glob_star_inv.
    pose proof (cmatch_no_star _ _ Hseg) as Hns.
    apply glob_seg_inv in Hb as (u2 & t' & -> & Hu2 & Ht'); [|done].
    assert (length u2 = length u) as Hl
      by (by rewrite <- (Forall2_length _ _ _ Hu2), (Forall2_length _ _ _ Hseg)).
    assert (∃ z, t = z ++ t') as [z ->].
    { exists (take (length t - length t') t).
      apply (f_equal (drop (length u + (length t - length t')))) in Hab as Hd.
      assert (length u + length t = length a + length u2 + length t')%nat
        by (apply (f_equal length) in Hab; rewrite !length_app in Hab; lia).
      rewrite drop_app_ge in Hd by lia. rewrite app_assoc, drop_app_ge in Hd by (rewrite length_app; lia).
      rewrite length_app in Hd. replace (_ - (_ + _))%nat with 0%nat in Hd by lia.
      rewrite drop_0 in Hd. rewrite <- Hd at 2. replace (_ - length u)%nat with (length t - length t')%nat by lia.
      by rewrite take_drop. }
    by apply glob_star_ext.
  - intros H. apply glob_star_skip. by apply glob_seg.
Qed.

(** When the subject ends with the segment, only the rest can be left. *)
Lemma glob_star_end seg u r :
  Forall2 cmatch seg u → glob (Byte.x2a :: seg ++ r) u ↔ glob r [].
Proof.
  intros Hseg. split.
  - intros (a & b & Hab & Hb)%glob_star_inv.
    apply glob_seg_inv in Hb as (u2 & t' & -> & Hu2 & Ht'); [|by eapply cmatch_no_star].
    assert (length u2 = length u) as Hl
      by (by rewrite <- (Forall2_length _ _ _ Hu2), (Forall2_length _ _ _ Hseg)).
    apply (f_equal length) in Hab. rewrite !length_app in Hab.
    by destruct t'; cbn in Hab; [|lia].
  - intros H. apply glob_star_skip. rewrite <- (app_nil_r u). by apply glob_seg.
Qed.

(** ** Correctness of the loop *)

Definition glob_inv (pat str : list byte) (p s : nat) (star : option nat) (mtch : nat) : Prop :=
  match star with
  | None => glob pat str ↔ glob (drop p pat) (drop s str)
  | Some st =>
      ∃ seg u, drop st pat = Byte.x2a :: seg ++ drop p pat ∧
        drop mtch str = u ++ drop s str ∧ Forall2 cmatch seg u ∧
        (glob pat str ↔ glob (drop st pat) (drop mtch str))
  end.

(** A mismatch moves the guess of the latest star one character on. *)
Lemma glob_inv_back pat str p s st mtch c S' :
  glob_inv pat str p s (Some st) mtch → drop s str = c :: S' → ¬ glob (drop p pat) (c :: S') →
  glob_inv pat str (S st) (S mtch) (Some st) (S mtch).
Proof.
  intros (seg & u & Hpat & Hstr & Hseg & Hiff) Hs Hno. exists [], [].
  assert (HS : drop (S st) pat = seg ++ drop p pat).
  { replace (S st) with (st + 1)%nat by lia. by rewrite <- drop_drop, Hpat. }
  assert (∃ c0, drop mtch str = c0 :: drop (S mtch) str) as [c0 Hc0].
  { replace (S mtch) with (mtch + 1)%nat by lia. rewrite <- drop_drop, Hstr, Hs.
    destruct u; cbn; rewrite drop_0; eauto. }
  split; [by rewrite Hpat, HS|]. split; [done|]. split; [constructor|].
  rewrite Hiff, Hpat, Hc0. split; [|auto with dbx].
  inversion 1 as [|? ? Hskip| |]; subst; [|done|done]. exfalso. apply Hno.
  rewrite <- Hs. rewrite <- Hc0, Hstr in Hskip. by apply glob_seg in Hskip.
Qed.

Lemma glob_inv_star pat str p s star mtch :
  glob_inv pat str p s star mtch → pat !! p = Some Byte.x2a →
  glob_inv pat str (S p) s (Some p) s.
Proof.
  intros Hinv Hp%drop_S. exists [], []. split; [done|]. split; [done|]. split; [constructor|].
  destruct star as [st|]; [|done]. destruct Hinv as (seg & u & Hpat & Hstr & Hseg & Hiff).
  rewrite Hiff, Hpat, Hstr, Hp. by apply glob_star_star.
Qed.

Lemma glob_inv_char pat str p s star mtch x c :
  glob_inv pat str p s star mtch → pat !! p = Some x → str !! s = Some c → cmatch x c →
  glob_inv pat str (S p) (S s) star mtch.
Proof.
  intros Hinv Hp%drop_S Hs%drop_S Hxc. destruct star as [st|].
  - destruct Hinv as (seg & u & Hpat & Hstr & Hseg & Hiff).
    exists (seg ++ [x]), (u ++ [c]). rewrite <- !app_assoc. cbn [app].
    rewrite <- Hp, <- Hs. split; [done|]. split; [done|]. split; [|done].
    apply Forall2_app; [done|]. by constructor.
  - cbn in *. rewrite Hinv, Hp, Hs. apply (glob_seg [x] [c]). by constructor.
Qed.

Lemma glob_inv_end pat str p s star mtch :
  glob_inv pat str p s star mtch → drop s str = [] →
  glob pat str ↔ forallb (fun x => bool_decide (x = Byte.x2a)) (drop p pat) = true.
Proof.
  intros Hinv Hs. rewrite <- glob_nil_r. destruct star as [st|].
  - destruct Hinv as (seg & u & Hpat & Hstr & Hseg & Hiff).
    rewrite Hiff, Hpat, Hstr, Hs, app_nil_r. by apply glob_star_end.
  - cbn in Hinv. by rewrite Hinv, Hs.
Qed.

Lemma glob_loop_correct fuel pat str p s star mtch b :
  Byte.x2a ∉ str → glob_inv pat str p s star mtch →
  glob_loop fuel pat str p s star mtch = Some b → (b = true ↔ glob pat str).
Proof.
  intros Hstar. revert p s star mtch.
  induction fuel as [|fuel IH]; intros p s star mtch Hinv; [done|].
  cbn [glob_loop]. destruct (str !! s) as [c|] eqn:Ec; cycle 1.
  { intros [= <-]. symmetry. eapply glob_inv_end; [done|].
    apply drop_ge, lookup_ge_None, Ec. }
  assert (Hback : ¬ glob (drop p pat) (drop s str) →
    match star with
    | Some st => glob_loop fuel pat str (S st) (S mtch) star (S mtch)
    | None => Some false end = Some b → (b = true ↔ glob pat str)).
  { apply drop_S in Ec. rewrite Ec. intros Hno. destruct star as [st|].
    - apply IH. by eapply glob_inv_back.
    - intros [= <-]. cbn in Hinv. rewrite Hinv, Ec. done. }
  destruct (pat !! p) as [x|] eqn:Ex; cycle 1.
  { apply Hback. rewrite (drop_S _ _ _ Ec), drop_ge by (by apply lookup_ge_None).
    by inversion 1. }
  destruct (_ || _) eqn:E1.
  { apply IH. eapply glob_inv_char; [done..|]. apply list_elem_of_lookup_2 in Ec.
    assert (c ≠ Byte.x2a) by (by intros ->).
    apply orb_true_iff in E1 as [E1|E1]; bool_to_prop; subst; split; auto. }
  destruct (bool_decide (x = Byte.x2a)) eqn:E2; bool_to_prop.
  { subst. apply IH. by eapply glob_inv_star. }
  apply Hback. rewrite (drop_S _ _ _ Ec), (drop_S _ _ _ Ex). by apply glob_mismatch.
Qed.

(** C19: on a key without a star character, [matchGlob]
    terminates and decides the glob relation: a pattern star stands for any
    run of characters, a question mark for any one character. *)
Theorem matchGlob_correct pattern key :
  Byte.x2a ∉ bytes_of key →
  (matchGlob pattern key = true ↔ glob (bytes_of pattern) (bytes_of key)).
Proof.
  intros Hk. unfold matchGlob. destruct (bool_decide _) eqn:E; bool_to_prop.
  { subst. split; [|done]. intros _. change (bytes_of "*") with [Byte.x2a].
    rewrite <- (app_nil_r (bytes_of key)). apply glob_star_ext. auto with dbx. }
  unfold globMatch.
  destruct (glob_loop_total (glob_fuel (bytes_of pattern) (bytes_of key))
    (bytes_of pattern) (bytes_of key) 0 0 None 0) as [b Hb]; [cbn; lia..| |].
  { unfold glob_measure, glob_fuel. cbn. nia. }
  rewrite Hb. cbn. eapply glob_loop_correct; [done| |done]. done.
Qed.

Lemma matchGlob_correct_witness :
  glob (bytes_of "user:*:n?me") (bytes_of "user:42:name") ∧
  ¬ glob (bytes_of "user:?") (bytes_of "user:42").
Proof.
  split.
  - apply (matchGlob_correct "user:*:n?me" "user:42:name");
      [apply (bool_decide_unpack _); vm_compute; exact I|vm_compute; reflexivity].
  - intros H. apply (matchGlob_correct "user:?" "user:42") in H; [vm_compute in H; done|].
    apply (bool_decide_unpack _); vm_compute; exact I.
Defined.

(** On a key that contains a star the literal
    comparison is tried before the wildcard, and a pattern star that meets it is
    consumed as a character: the glob relation holds and the matcher says no. *)
Theorem matchGlob_star_in_key :
  glob (bytes_of "*a") (bytes_of "*xa") ∧ matchGlob "*a" "*xa" = false.
Proof.
  split; [|vm_compute; reflexivity]. cbn.
  apply glob_star_take, glob_star_take, glob_star_skip, glob_char; auto with dbx.
Qed.
