(* ===== verification/KV.v ===== *)
(** * The sharded key-value store (src/internal/engine/kv.go)

    A store is an array of shards, each a map of entries and a heap of expiry
    deadlines, with one version counter; a key lives in the shard its hash
    names. The store is shown to implement one finite map ([view]), the
    interface [EntryStore] states what it promises to the typed stores, and the
    expiry reaper is related to the deadline heap. Operations take the clock
    readings they make as arguments. *)

From S2P Require Import Prelude GoStd Hash Types ExpiryHeap Glob.

(** ** State *)
Record shard := { data : gmap string Entry; expiries : expiryHeap }.
Record KVStore := { shards : list shard; numShards : Z; version : Z }.

#[export] Instance shard_inhabited : Inhabited shard :=
  populate {| data := ∅; expiries := [] |}.

Definition defaultNumShards : Z := 256.
Definition second : Z := 1000000000.

Definition New (n : Z) : KVStore :=
  let n := if n <=? 0 then defaultNumShards else n in
  {| shards := replicate (Z.to_nat n) {| data := ∅; expiries := [] |};
     numShards := n; version := 0 |}.

(** [kv.shard(key)]: the index of the shard, and the shard. *)
Definition shardAt (kv : KVStore) (key : string) : nat := Z.to_nat (ShardIndex key (numShards kv)).
Definition getShard (kv : KVStore) (key : string) : shard := shards kv !!! shardAt kv key.

Definition setShard (kv : KVStore) (key : string) (s : shard) : KVStore :=
  {| shards := <[shardAt kv key := s]> (shards kv); numShards := numShards kv; version := version kv |}.

Definition setData (s : shard) (m : gmap string Entry) : shard :=
  {| data := m; expiries := expiries s |}.
Definition pushExpiry (s : shard) (x : expiryItem) : shard :=
  {| data := data s; expiries := heap_Push (expiries s) x |}.

Definition nextVersion (kv : KVStore) : Z * KVStore :=
  let v := u64 (version kv + 1) in
  (v, {| shards := shards kv; numShards := numShards kv; version := v |}).

(** ** Operations *)

(** [sh.data[key] = e], and the writes through a pointer to the entry at [key]. *)
Definition putEntry (key : string) (e : Entry) (kv : KVStore) : KVStore :=
  let s := getShard kv key in setShard kv key (setData s (<[key := e]> (data s))).

Definition removeEntry (key : string) (kv : KVStore) : KVStore :=
  let s := getShard kv key in setShard kv key (setData s (delete key (data s))).

Definition Set_ (now : Z) (key : string) (v : value) (typ : DataType) (ttlNano : Z)
    (kv : KVStore) : KVStore :=
  let exp := if ttlNano >? 0 then i64 (now + ttlNano) else 0 in
  let '(ver, kv) := nextVersion kv in
  let s := getShard kv key in
  let e :=
    match data s !! key with
    | Some e => {| Value := v; EType := typ; ExpiresAt := exp; Version := ver;
                   CreatedAt := CreatedAt e; UpdatedAt := now |}
    | None => {| Value := v; EType := typ; ExpiresAt := exp; Version := ver;
                 CreatedAt := now; UpdatedAt := now |}
    end in
  let s := setData s (<[key := e]> (data s)) in
  let s := if exp >? 0 then pushExpiry s {| item_key := key; deadline := exp; item_version := ver |}
           else s in
  setShard kv key s.

Definition Get (now : Z) (key : string) (kv : KVStore) : option Entry :=
  match data (getShard kv key) !! key with
  | Some e => if IsExpired now e then None else Some e
  | None => None
  end.

Definition GetForRead (now : Z) (key : string) (kv : KVStore) : option Entry :=
  match data (getShard kv key) !! key with
  | Some e => if IsExpired now e then None else Some e
  | None => None
  end.

Definition GetForWrite (now : Z) (key : string) (kv : KVStore) : option Entry * KVStore :=
  match data (getShard kv key) !! key with
  | Some e => if IsExpired now e then (None, removeEntry key kv) else (Some e, kv)
  | None => (None, kv)
  end.

(** What [closeVectorEntry] leaves in the entry object. *)
Definition closeVectorEntry (e : Entry) : Entry :=
  if bool_decide (EType e = TypeVector) then
    match Value e with VVector _ => setValue VNil e | _ => e end
  else e.

Definition Delete (keys : list string) (kv : KVStore) : Z * KVStore :=
  foldl (fun '(deleted, kv) key =>
    match data (getShard kv key) !! key with
    | Some _ => (deleted + 1, removeEntry key kv)
    | None => (deleted, kv)
    end) (0, kv) keys.

Definition Exists_ (now : Z) (key : string) (kv : KVStore) : bool :=
  match Get now key kv with Some _ => true | None => false end.

Definition Type_ (now : Z) (key : string) (kv : KVStore) : DataType :=
  match Get now key kv with Some e => EType e | None => TypeNone end.

(** [now1] is the reading of [IsExpired], [now2] the one of the new deadline. *)
Definition Expire (now1 now2 : Z) (key : string) (seconds : Z) (kv : KVStore) : bool * KVStore :=
  let s := getShard kv key in
  match data s !! key with
  | None => (false, kv)
  | Some e =>
      if IsExpired now1 e then (false, kv)
      else if seconds <=? 0 then (true, removeEntry key kv)
      else
        let exp := i64 (now2 + i64 (seconds * second)) in
        let '(ver, kv) := nextVersion kv in
        let e := {| Value := Value e; EType := EType e; ExpiresAt := exp; Version := ver;
                    CreatedAt := CreatedAt e; UpdatedAt := UpdatedAt e |} in
        let s := setData s (<[key := e]> (data s)) in
        (true, setShard kv key
                 (pushExpiry s {| item_key := key; deadline := exp; item_version := ver |}))
  end.

Definition TTL (now1 now2 : Z) (key : string) (kv : KVStore) : Z :=
  match Get now1 key kv with
  | None => -2
  | Some e =>
      if ExpiresAt e =? 0 then -1
      else
        let remaining := i64 (ExpiresAt e - now2) in
        if remaining <=? 0 then -2 else Z.quot remaining second
  end.

Definition Persist (now : Z) (key : string) (kv : KVStore) : bool * KVStore :=
  match data (getShard kv key) !! key with
  | None => (false, kv)
  | Some e =>
      if IsExpired now e then (false, kv)
      else if ExpiresAt e =? 0 then (false, kv)
      else (true, putEntry key {| Value := Value e; EType := EType e; ExpiresAt := 0;
                                  Version := Version e; CreatedAt := CreatedAt e;
                                  UpdatedAt := UpdatedAt e |} kv)
  end.

(** The entries of a sweep over all shards, in the order of the sweep. *)
Definition sweep (kv : KVStore) : list (string * Entry) :=
  s ← shards kv; map_to_list (data s).

Definition Keys (now : Z) (pattern : string) (kv : KVStore) : list string :=
  map fst (List.filter (fun '(k, e) => negb (IsExpired now e) && matchGlob pattern k) (sweep kv)).

Definition DBSize (now : Z) (kv : KVStore) : Z :=
  foldl (fun count '(_, e) => if negb (IsExpired now e) then count + 1 else count) 0 (sweep kv).

Definition KeyspaceStats (now : Z) (kv : KVStore) : gmap string Z :=
  foldl (fun (stats : gmap string Z) '(_, e) =>
    if negb (IsExpired now e)
    then let t := DataType_string (EType e) in <[t := default 0 (stats !! t) + 1]> stats
    else stats) ∅ (sweep kv).

Definition KeyCount (now : Z) (kv : KVStore) : Z :=
  foldl Z.add 0 (map snd (map_to_list (KeyspaceStats now kv))).

Definition FlushAll (kv : KVStore) : KVStore :=
  {| shards := map (fun s => {| data := ∅; expiries := expiries s |}) (shards kv);
     numShards := numShards kv; version := version kv |}.

(** [now1], [now2] and [now3] are the readings of [Get], of the remaining time
    and of [Set]. The entry read first is the object [Delete] closes, so a
    vector's value is gone by the time it is stored under the new name. *)
Definition Rename (now1 now2 now3 : Z) (key newKey : string) (kv : KVStore)
    : res error unit * KVStore :=
  match Get now1 key kv with
  | None => (Err ErrNotFound, kv)
  | Some e =>
      let kv := snd (Delete [key] kv) in
      let e := closeVectorEntry e in
      if ExpiresAt e >? 0 then
        let ttl := i64 (ExpiresAt e - now2) in
        if ttl <=? 0 then (Err ErrNotFound, kv)
        else (Ok tt, Set_ now3 newKey (Value e) (EType e) ttl kv)
      else (Ok tt, Set_ now3 newKey (Value e) (EType e) 0 kv)
  end.

Definition ExpiredKeys (now : Z) (kv : KVStore) : list string :=
  map fst (List.filter (fun '(_, e) => IsExpired now e) (sweep kv)).

(** The inner loop of [DeleteExpiredLimit] on one shard: pop due items, delete
    the entries they still describe. *)
Fixpoint reap_shard (fuel : nat) (now limit count : Z) (s : shard) : Z * shard :=
  match fuel with
  | O => (count, s)
  | S fuel' =>
      match expiries s with
      | [] => (count, s)
      | item :: _ =>
          if negb ((limit <=? 0) || (count <? limit)) then (count, s)
          else if deadline item >? now then (count, s)
          else
            let s' := {| data := data s; expiries := heap_Pop (expiries s) |} in
            match data s !! item_key item with
            | Some e =>
                if (Version e =? item_version item) && (ExpiresAt e =? deadline item)
                then reap_shard fuel' now limit (count + 1)
                       (setData s' (delete (item_key item) (data s)))
                else reap_shard fuel' now limit count s'
            | None => reap_shard fuel' now limit count s'
            end
      end
  end.

(** The outer loop, which stops at the first shard where the limit is reached. *)
Fixpoint reap_shards (now limit count : Z) (ss : list shard) : Z * list shard :=
  match ss with
  | [] => (count, [])
  | s :: ss' =>
      let '(count, s) := reap_shard (length (expiries s)) now limit count s in
      if (limit >? 0) && (limit <=? count) then (count, s :: ss')
      else let '(count, ss') := reap_shards now limit count ss' in (count, s :: ss')
  end.

Definition DeleteExpiredLimit (now limit : Z) (kv : KVStore) : Z * KVStore :=
  let '(count, ss) := reap_shards now limit 0 (shards kv) in
  (count, {| shards := ss; numShards := numShards kv; version := version kv |}).

Definition DeleteExpired (now : Z) (kv : KVStore) : Z * KVStore := DeleteExpiredLimit now 0 kv.

Definition Snapshot (now : Z) (kv : KVStore) : gmap string Entry :=
  list_to_map (List.filter (fun '(_, e) => negb (IsExpired now e)) (sweep kv)).

(** The bytes [MemoryUsage] accounts to one live entry. *)
Definition entryBytes (key : string) (e : Entry) : Z :=
  strlen key + 96 +
  (if bool_decide (EType e = TypeString)
   then match Value e with VBytes b => slen b | _ => 0 end else 0).

Definition MemoryUsage (now : Z) (kv : KVStore) : Z :=
  foldl (fun total '(k, e) => if IsExpired now e then total else total + entryBytes k e) 0 (sweep kv)
  + foldl (fun total s => total + zlen (expiries s) * 48) 0 (shards kv).

(** ** Well-formedness and the map a store implements *)

Definition kv_wf (kv : KVStore) : Prop :=
  0 < numShards kv ∧ zlen (shards kv) = numShards kv ∧
  (∀ i s key, shards kv !! i = Some s → is_Some (data s !! key) → shardAt kv key = i).

(** The union of the shards. *)
Definition unions (ss : list shard) : gmap string Entry :=
  foldr (fun s m => data s ∪ m) ∅ ss.
Definition view (kv : KVStore) : gmap string Entry := unions (shards kv).

Lemma shardAt_lt kv key : kv_wf kv → (shardAt kv key < length (shards kv))%nat.
Proof.
  intros (Hn & Hl & _). unfold shardAt, zlen in *.
  pose proof (ShardIndex_range key (numShards kv) Hn). lia.
Qed.

Lemma unions_lookup ss key i :
  (i < length ss)%nat →
  (∀ j s, ss !! j = Some s → is_Some (data s !! key) → j = i) →
  unions ss !! key = data (ss !!! i) !! key.
Proof.
  revert i. induction ss as [|s ss IH]; intros i Hi Huniq; cbn [unions foldr] in *; [cbn in Hi; lia|].
  rewrite lookup_union. destruct i as [|i].
  - assert (unions ss !! key = None) as Hnone.
    { clear -Huniq. apply eq_None_not_Some. intros Hsome.
      assert (∃ j s', ss !! j = Some s' ∧ is_Some (data s' !! key)) as (j & s' & Hj & Hs').
      { clear Huniq. induction ss as [|s0 ss IH]; cbn in Hsome; [by destruct Hsome|].
        rewrite lookup_union in Hsome. destruct (data s0 !! key) eqn:E.
        - exists 0%nat, s0. by rewrite E.
        - rewrite (left_id_L None _) in Hsome. destruct (IH Hsome) as (j & s' & ? & ?).
          by exists (S j), s'. }
      by specialize (Huniq (S j) s' Hj Hs'). }
    fold (unions ss). rewrite Hnone. by rewrite (right_id_L None _).
  - assert (data s !! key = None) as ->.
    { apply eq_None_not_Some. intros H. by specialize (Huniq 0%nat s eq_refl H). }
    rewrite (left_id_L None _). apply IH; [cbn in Hi; lia|].
    intros j s' Hj Hs'. by specialize (Huniq (S j) s' Hj Hs') as [= ->].
Qed.

(** A key is found in the shard its hash names. *)
Lemma view_lookup kv key : kv_wf kv → view kv !! key = data (getShard kv key) !! key.
Proof.
  intros Hwf. pose proof (shardAt_lt kv key Hwf). apply unions_lookup; [done|].
  intros j s Hj Hs. symmetry. by eapply Hwf.
Qed.

Lemma New_wf n : kv_wf (New n).
Proof.
  unfold New. set (n' := if n <=? 0 then defaultNumShards else n).
  assert (0 < n') by (unfold n', defaultNumShards; destruct (n <=? 0) eqn:E; bool_to_prop; lia).
  split; [done|]. unfold zlen. cbn. rewrite length_replicate. split; [lia|].
  intros i s key Hs%lookup_replicate_1. destruct Hs as [-> _]. by intros [? ?].
Qed.

Lemma New_view n : view (New n) = ∅.
Proof.
  apply map_eq. intros key. rewrite view_lookup by apply New_wf.
  pose proof (shardAt_lt (New n) key (New_wf n)) as Hlt.
  apply list_lookup_lookup_total_lt in Hlt. fold (getShard (New n) key) in Hlt.
  apply lookup_replicate_1 in Hlt as [-> _]. by rewrite !lookup_empty.
Qed.

(** Replacing the shard of [key] by one that only differs at [key]. *)
Lemma setShard_spec kv key s f :
  kv_wf kv → data s = partial_alter f key (data (getShard kv key)) →
  kv_wf (setShard kv key s) ∧ view (setShard kv key s) = partial_alter f key (view kv).
Proof.
  intros Hwf Hs. pose proof (shardAt_lt kv key Hwf) as Hlt.
  assert (Hwf' : kv_wf (setShard kv key s)).
  { destruct Hwf as (Hn & Hl & Hp). split; [done|].
    unfold zlen. cbn. rewrite length_insert. split; [done|].
    intros i s' k Hi Hk. cbn in Hi. destruct (decide (i = shardAt kv key)) as [->|Hne].
    - rewrite list_lookup_insert_eq in Hi by done. injection Hi as <-.
      destruct (decide (k = key)) as [->|Hk']; [done|].
      rewrite Hs, lookup_partial_alter_ne in Hk by done.
      by eapply Hp; [apply list_lookup_lookup_total_lt|].
    - rewrite list_lookup_insert_ne in Hi by done. by eapply Hp. }
  split; [done|]. apply map_eq. intros k. rewrite view_lookup by done.
  unfold getShard at 1. change (shardAt (setShard kv key s) k) with (shardAt kv k).
  cbn [shards setShard]. destruct (decide (k = key)) as [->|Hk].
  - rewrite list_lookup_total_insert_eq by done.
    by rewrite Hs, !lookup_partial_alter_eq, view_lookup.
  - rewrite lookup_partial_alter_ne, view_lookup by done. unfold getShard.
    destruct (decide (shardAt kv k = shardAt kv key)) as [->|].
    + rewrite list_lookup_total_insert_eq, Hs, lookup_partial_alter_ne by done. done.
    + by rewrite list_lookup_total_insert_ne by done.
Qed.

(** ** The interface the typed stores are written against *)
Class EntryStore (S : Type) := {
  es_read : Z → string → S → option Entry;             (* GetForRead / Get *)
  es_write : Z → string → S → option Entry * S;        (* GetForWrite *)
  es_put : string → Entry → S → S;                     (* sh.data[key] = e *)
  es_set : Z → string → value → DataType → Z → S → S;  (* Set *)
  es_nextVersion : S → Z * S;
  es_view : S → gmap string Entry;
  es_wf : S → Prop
}.

(** The entry [Set] installs over [old]. *)
Definition set_entry (old : option Entry) (now : Z) (v : value) (t : DataType) (ttl ver : Z) : Entry :=
  {| Value := v; EType := t; ExpiresAt := if ttl >? 0 then i64 (now + ttl) else 0;
     Version := ver; CreatedAt := match old with Some e => CreatedAt e | None => now end;
     UpdatedAt := now |}.

Class EntryStoreLaws (S : Type) `{EntryStore S} := {
  es_read_spec now key s : es_wf s → es_read now key s = live now (es_view s !! key);
  es_write_fst now key s : es_wf s → fst (es_write now key s) = live now (es_view s !! key);
  es_write_view now key s :
    es_wf s → es_view (snd (es_write now key s))
              = partial_alter (fun o => live now o) key (es_view s);
  es_write_wf now key s : es_wf s → es_wf (snd (es_write now key s));
  es_put_view key e s : es_wf s → es_view (es_put key e s) = <[key := e]> (es_view s);
  es_put_wf key e s : es_wf s → es_wf (es_put key e s);
  es_set_view now key v t ttl s :
    es_wf s → es_view (es_set now key v t ttl s)
      = <[key := set_entry (es_view s !! key) now v t ttl (fst (es_nextVersion s))]> (es_view s);
  es_set_wf now key v t ttl s : es_wf s → es_wf (es_set now key v t ttl s);
  es_nextVersion_view s : es_view (snd (es_nextVersion s)) = es_view s;
  es_nextVersion_wf s : es_wf s → es_wf (snd (es_nextVersion s))
}.

#[export] Hint Resolve es_write_wf es_put_wf es_set_wf es_nextVersion_wf : dbx.

(** A write handler's lookup, and its write-back through the locked entry. *)
Section EntryStoreFacts.
Context {S : Type} `{EntryStoreLaws S}.

Lemma es_write_eq now key s :
  es_wf s → ∃ s', es_write now key s = (live now (es_view s !! key), s') ∧ es_wf s' ∧
    es_view s' = partial_alter (fun o => live now o) key (es_view s).
Proof.
  intros Hwf. exists (snd (es_write now key s)). split; [|by auto using es_write_wf, es_write_view].
  rewrite <- es_write_fst by done. apply surjective_pairing.
Qed.

Lemma es_nextVersion_eq s :
  es_wf s → ∃ s', es_nextVersion s = (fst (es_nextVersion s), s') ∧ es_wf s' ∧ es_view s' = es_view s.
Proof.
  intros Hwf. exists (snd (es_nextVersion s)).
  split; [apply surjective_pairing|]. by auto using es_nextVersion_wf, es_nextVersion_view.
Qed.

Lemma insert_live now key (e : Entry) (m : gmap string Entry) :
  <[key := e]> (partial_alter (fun o => live now o) key m) = <[key := e]> m.
Proof.
  apply map_eq. intros k. destruct (decide (k = key)) as [->|].
  - by rewrite !lookup_insert_eq.
  - by rewrite !lookup_insert_ne, lookup_partial_alter_ne by done.
Qed.

Lemma live_alter_ne now key k (m : gmap string Entry) :
  k ≠ key → partial_alter (fun o => live now o) key m !! k = m !! k.
Proof. intros. by rewrite lookup_partial_alter_ne. Qed.

Lemma live_live now o : live now (live now o) = live now o.
Proof. destruct o as [e|]; cbn; [|done]. destruct (IsExpired now e) eqn:E; cbn; by rewrite ?E. Qed.

Lemma live_alter_live now key (m : gmap string Entry) e :
  live now (m !! key) = Some e → partial_alter (fun o => live now o) key m = m.
Proof.
  intros He. apply map_eq. intros k. destruct (decide (k = key)) as [->|].
  - rewrite lookup_partial_alter_eq, He. by apply live_Some in He as [-> _].
  - by rewrite lookup_partial_alter_ne.
Qed.
End EntryStoreFacts.

#[export] Instance KVStore_EntryStore : EntryStore KVStore := {
  es_read := GetForRead; es_write := GetForWrite; es_put := putEntry; es_set := Set_;
  es_nextVersion := nextVersion; es_view := view; es_wf := kv_wf
}.

Lemma putEntry_spec key e kv :
  kv_wf kv → kv_wf (putEntry key e kv) ∧ view (putEntry key e kv) = <[key := e]> (view kv).
Proof. intros Hwf. by apply setShard_spec with (f := fun _ => Some e). Qed.

Lemma removeEntry_spec key kv :
  kv_wf kv → kv_wf (removeEntry key kv) ∧ view (removeEntry key kv) = delete key (view kv).
Proof. intros Hwf. by apply setShard_spec with (f := fun _ => None). Qed.

Lemma Get_view now key kv : kv_wf kv → Get now key kv = live now (view kv !! key).
Proof. intros Hwf. by rewrite view_lookup. Qed.

Lemma GetForWrite_spec now key kv :
  kv_wf kv →
  fst (GetForWrite now key kv) = live now (view kv !! key) ∧
  kv_wf (snd (GetForWrite now key kv)) ∧
  view (snd (GetForWrite now key kv)) = partial_alter (fun o => live now o) key (view kv).
Proof.
  intros Hwf. unfold GetForWrite. rewrite view_lookup by done.
  assert (Hsame : live now (view kv !! key) = view kv !! key →
    view kv = partial_alter (fun o => live now o) key (view kv)).
  { intros H. apply map_eq. intros k. rewrite lookup_partial_alter.
    case_decide; by subst. }
  rewrite view_lookup in Hsame by done.
  destruct (data _ !! key) as [e|] eqn:E; cbn [fst snd live]; [|by auto].
  destruct (IsExpired now e) eqn:Ex; cbn [fst snd].
  - destruct (removeEntry_spec key kv Hwf) as [H1 H2]. split; [done|]. split; [done|].
    rewrite H2. apply map_eq. intros k. destruct (decide (k = key)) as [->|].
    + rewrite lookup_delete_eq, lookup_partial_alter_eq, view_lookup, E by done. cbn. by rewrite Ex.
    + by rewrite lookup_delete_ne, lookup_partial_alter_ne.
  - split; [done|]. split; [done|]. apply Hsame. cbn. by rewrite Ex.
Qed.

Lemma nextVersion_spec kv :
  view (snd (nextVersion kv)) = view kv ∧ (kv_wf kv → kv_wf (snd (nextVersion kv))).
Proof. done. Qed.

Lemma Set_spec now key v t ttl kv :
  kv_wf kv →
  kv_wf (Set_ now key v t ttl kv) ∧
  view (Set_ now key v t ttl kv)
  = <[key := set_entry (view kv !! key) now v t ttl (fst (nextVersion kv))]> (view kv).
Proof.
  intros Hwf. unfold Set_. destruct (nextVersion kv) as [ver kv'] eqn:Ev.
  assert (Hkv' : kv' = snd (nextVersion kv)) by (by rewrite Ev).
  assert (Hwf' : kv_wf kv') by (subst; done).
  assert (Hview : view kv' = view kv) by (by subst).
  set (e := match data (getShard kv' key) !! key with Some _ => _ | None => _ end).
  assert (He : e = set_entry (view kv !! key) now v t ttl ver).
  { unfold e, set_entry. rewrite <- Hview, view_lookup by done.
    by destruct (data (getShard kv' key) !! key). }
  cbn [fst]. rewrite <- He, <- Hview. clearbody e.
  apply setShard_spec with (f := fun _ => Some e); [done|]. by destruct (_ >? 0).
Qed.

#[export] Instance KVStore_EntryStoreLaws : EntryStoreLaws KVStore.
Proof.
  split; cbn; intros.
  - by apply Get_view.
  - by apply GetForWrite_spec.
  - by apply GetForWrite_spec.
  - by apply GetForWrite_spec.
  - by apply putEntry_spec.
  - by apply putEntry_spec.
  - by apply Set_spec.
  - by apply Set_spec.
  - done.
  - done.
Qed.

(** ** Refinement of a single map

    The abstract store is one map and a version counter; each operation of the
    sharded store computes the same output and the same map. *)
Inductive kvop :=
| OSet (now : Z) (key : string) (v : value) (t : DataType) (ttl : Z)
| ODelete (keys : list string)
| OExpire (now1 now2 : Z) (key : string) (seconds : Z)
| OPersist (now : Z) (key : string)
| ORename (now1 now2 now3 : Z) (key newKey : string)
| OGetForWrite (now : Z) (key : string)
| OFlushAll.

Inductive kvout :=
| OutUnit
| OutInt (n : Z)
| OutBool (b : bool)
| OutRes (r : res error unit)
| OutEntry (e : option Entry).

Definition run_op (op : kvop) (kv : KVStore) : kvout * KVStore :=
  match op with
  | OSet now key v t ttl => (OutUnit, Set_ now key v t ttl kv)
  | ODelete keys => let '(n, kv) := Delete keys kv in (OutInt n, kv)
  | OExpire n1 n2 key sec => let '(b, kv) := Expire n1 n2 key sec kv in (OutBool b, kv)
  | OPersist now key => let '(b, kv) := Persist now key kv in (OutBool b, kv)
  | ORename n1 n2 n3 k k' => let '(r, kv) := Rename n1 n2 n3 k k' kv in (OutRes r, kv)
  | OGetForWrite now key => let '(e, kv) := GetForWrite now key kv in (OutEntry e, kv)
  | OFlushAll => (OutUnit, FlushAll kv)
  end.

(** The specification: a map from keys to entries, and the last version. *)
Definition amap : Type := gmap string Entry * Z.

Definition abs_set (now : Z) (key : string) (v : value) (t : DataType) (ttl : Z) (a : amap) : amap :=
  let ver := u64 (snd a + 1) in
  (<[key := set_entry (fst a !! key) now v t ttl ver]> (fst a), ver).

Definition abs_delete (keys : list string) (m : gmap string Entry) : Z * gmap string Entry :=
  foldl (fun '(n, m) k => match m !! k with Some _ => (n + 1, delete k m) | None => (n, m) end)
        (0, m) keys.

Definition with_deadline (e : Entry) (exp ver : Z) : Entry :=
  {| Value := Value e; EType := EType e; ExpiresAt := exp; Version := ver;
     CreatedAt := CreatedAt e; UpdatedAt := UpdatedAt e |}.

Definition abs_op (op : kvop) (a : amap) : kvout * amap :=
  let '(m, ver) := a in
  match op with
  | OSet now key v t ttl => (OutUnit, abs_set now key v t ttl a)
  | ODelete keys => let '(n, m) := abs_delete keys m in (OutInt n, (m, ver))
  | OExpire n1 n2 key sec =>
      match live n1 (m !! key) with
      | None => (OutBool false, a)
      | Some e =>
          if sec <=? 0 then (OutBool true, (delete key m, ver))
          else (OutBool true,
                (<[key := with_deadline e (i64 (n2 + i64 (sec * second))) (u64 (ver + 1))]> m,
                 u64 (ver + 1)))
      end
  | OPersist now key =>
      match live now (m !! key) with
      | None => (OutBool false, a)
      | Some e =>
          if ExpiresAt e =? 0 then (OutBool false, a)
          else (OutBool true, (<[key := with_deadline e 0 (Version e)]> m, ver))
      end
  | ORename n1 n2 n3 key newKey =>
      match live n1 (m !! key) with
      | None => (OutRes (Err ErrNotFound), a)
      | Some e =>
          let a' := (delete key m, ver) in
          let v := Value (closeVectorEntry e) in
          if ExpiresAt e >? 0 then
            let ttl := i64 (ExpiresAt e - n2) in
            if ttl <=? 0 then (OutRes (Err ErrNotFound), a')
            else (OutRes (Ok tt), abs_set n3 newKey v (EType e) ttl a')
          else (OutRes (Ok tt), abs_set n3 newKey v (EType e) 0 a')
      end
  | OGetForWrite now key =>
      (OutEntry (live now (m !! key)), (partial_alter (fun o => live now o) key m, ver))
  | OFlushAll => (OutUnit, (∅, ver))
  end.

Definition abs (kv : KVStore) : amap := (view kv, version kv).

Lemma Delete_spec keys kv :
  kv_wf kv →
  kv_wf (snd (Delete keys kv)) ∧ version (snd (Delete keys kv)) = version kv ∧
  abs_delete keys (view kv) = (fst (Delete keys kv), view (snd (Delete keys kv))).
Proof.
  unfold Delete, abs_delete. generalize 0. revert kv.
  induction keys as [|k keys IH]; intros kv n Hwf; cbn [foldl]; [done|].
  rewrite view_lookup by done. destruct (data _ !! k) eqn:E; [|by apply IH].
  destruct (removeEntry_spec k kv Hwf) as [H1 H2]. rewrite <- H2.
  destruct (IH (removeEntry k kv) (n + 1) H1) as (Ha & Hb & Hc). by rewrite Hb.
Qed.

Lemma Delete1 key kv :
  kv_wf kv →
  kv_wf (snd (Delete [key] kv)) ∧ view (snd (Delete [key] kv)) = delete key (view kv) ∧
  version (snd (Delete [key] kv)) = version kv.
Proof.
  intros Hwf. destruct (Delete_spec [key] kv Hwf) as (H1 & H2 & H3). split; [done|].
  split; [|done]. apply (f_equal snd) in H3. cbn [snd] in H3. rewrite <- H3.
  unfold abs_delete. cbn [foldl]. destruct (view kv !! key) eqn:E; [done|].
  by rewrite delete_id.
Qed.

Lemma FlushAll_spec kv : kv_wf kv → kv_wf (FlushAll kv) ∧ view (FlushAll kv) = ∅.
Proof.
  intros (Hn & Hl & Hp). assert (Hwf : kv_wf (FlushAll kv)).
  { split; [done|]. unfold zlen in *. cbn. rewrite length_map. split; [done|].
    intros i s key Hs. rewrite list_lookup_fmap in Hs.
    destruct (shards kv !! i); cbn in Hs; [|done]. injection Hs as <-. by intros [? ?]. }
  split; [done|]. apply map_eq. intros key. rewrite view_lookup, lookup_empty by done.
  pose proof (shardAt_lt _ key Hwf) as Hlt. apply list_lookup_lookup_total_lt in Hlt.
  fold (getShard (FlushAll kv) key) in Hlt. cbn in Hlt. rewrite list_lookup_fmap in Hlt.
  destruct (shards kv !! _); cbn in Hlt; [|done]. injection Hlt as <-. done.
Qed.

Lemma closeVectorEntry_fields e :
  EType (closeVectorEntry e) = EType e ∧ ExpiresAt (closeVectorEntry e) = ExpiresAt e.
Proof. unfold closeVectorEntry. case_bool_decide; [|done]. by destruct (Value e). Qed.

Lemma Set_abs now key v t ttl kv :
  kv_wf kv → kv_wf (Set_ now key v t ttl kv) ∧
  abs (Set_ now key v t ttl kv) = abs_set now key v t ttl (abs kv).
Proof.
  intros Hwf. destruct (Set_spec now key v t ttl kv Hwf) as [H1 H2]. split; [done|].
  unfold abs, abs_set. by rewrite H2.
Qed.

Lemma Expire_abs n1 n2 key sec kv :
  kv_wf kv → kv_wf (snd (run_op (OExpire n1 n2 key sec) kv)) ∧
  abs_op (OExpire n1 n2 key sec) (abs kv)
  = (fst (run_op (OExpire n1 n2 key sec) kv), abs (snd (run_op (OExpire n1 n2 key sec) kv))).
Proof.
  intros Hwf. cbn. unfold Expire, abs. rewrite view_lookup by done.
  destruct (data (getShard kv key) !! key) as [e|] eqn:E; [|done].
  cbn [live]. destruct (IsExpired n1 e); [done|]. destruct (sec <=? 0).
  - cbn [fst snd]. destruct (removeEntry_spec key kv Hwf) as [H1 H2]. by rewrite H2.
  - cbn [fst snd].
    set (e' := with_deadline e (i64 (n2 + i64 (sec * second))) (u64 (version kv + 1))).
    destruct (setShard_spec (snd (nextVersion kv)) key (pushExpiry
      (setData (getShard kv key) (<[key:=e']> (data (getShard kv key))))
      {| item_key := key; deadline := i64 (n2 + i64 (sec * second)); item_version := u64 (version kv + 1) |})
      (fun _ => Some e')) as [H1 H2]; [done..|]. split; [exact H1|].
    do 2 f_equal. symmetry. exact H2.
Qed.

Lemma Persist_abs now key kv :
  kv_wf kv → kv_wf (snd (run_op (OPersist now key) kv)) ∧
  abs_op (OPersist now key) (abs kv)
  = (fst (run_op (OPersist now key) kv), abs (snd (run_op (OPersist now key) kv))).
Proof.
  intros Hwf. cbn. unfold Persist, abs. rewrite view_lookup by done.
  destruct (data (getShard kv key) !! key) as [e|] eqn:E; [|done].
  cbn [live]. destruct (IsExpired now e); [done|]. destruct (ExpiresAt e =? 0); [done|].
  cbn [fst snd]. destruct (putEntry_spec key (with_deadline e 0 (Version e)) kv Hwf) as [H1 H2].
  split; [done|]. unfold with_deadline in *. by rewrite H2.
Qed.

Lemma Rename_abs n1 n2 n3 key newKey kv :
  kv_wf kv → kv_wf (snd (run_op (ORename n1 n2 n3 key newKey) kv)) ∧
  abs_op (ORename n1 n2 n3 key newKey) (abs kv)
  = (fst (run_op (ORename n1 n2 n3 key newKey) kv),
     abs (snd (run_op (ORename n1 n2 n3 key newKey) kv))).
Proof.
  intros Hwf. cbn [run_op abs_op abs]. unfold Rename. rewrite Get_view by done.
  destruct (live n1 (view kv !! key)) as [e|]; [|done].
  destruct (closeVectorEntry_fields e) as [-> ->].
  destruct (Delete1 key kv Hwf) as (H1 & H2 & H3).
  set (kv1 := snd (Delete [key] kv)) in *. rewrite <- H2, <- H3.
  destruct (_ >? 0); [destruct (_ <=? 0); [done|]|];
    cbn [fst snd]; change (view kv1, version kv1) with (abs kv1).
  - destruct (Set_abs n3 newKey (Value (closeVectorEntry e)) (EType e)
      (i64 (ExpiresAt e - n2)) kv1 H1) as [Ha <-]. done.
  - destruct (Set_abs n3 newKey (Value (closeVectorEntry e)) (EType e) 0 kv1 H1) as [Ha <-]. done.
Qed.

Lemma run_op_spec op kv :
  kv_wf kv →
  kv_wf (snd (run_op op kv)) ∧
  abs_op op (abs kv) = (fst (run_op op kv), abs (snd (run_op op kv))).
Proof.
  intros Hwf. destruct op as [now key v t ttl|keys|n1 n2 key sec|now key|n1 n2 n3 k k'|now key|].
  - destruct (Set_abs now key v t ttl kv Hwf) as [H1 H2]. split; [done|]. cbn. by rewrite <- H2.
  - destruct (Delete_spec keys kv Hwf) as (H1 & H2 & H3). cbn.
    rewrite H3. destruct (Delete keys kv) as [n kv']. cbn in *. unfold abs. by rewrite H2.
  - by apply Expire_abs.
  - by apply Persist_abs.
  - by apply Rename_abs.
  - destruct (GetForWrite_spec now key kv Hwf) as (H1 & H2 & H3). cbn.
    unfold abs. rewrite <- H1, <- H3.
    assert (version (snd (GetForWrite now key kv)) = version kv) as Hv.
    { unfold GetForWrite. destruct (data _ !! key) as [e|]; [|done]. by destruct (IsExpired now e). }
    destruct (GetForWrite now key kv) as [o kv']. cbn in *. by rewrite Hv.
  - destruct (FlushAll_spec kv Hwf) as [H1 H2]. split; [done|]. cbn. unfold abs. by rewrite H2.
Qed.

Lemma run_op_wf op kv : kv_wf kv → kv_wf (snd (run_op op kv)).
Proof. intros Hwf. by apply run_op_spec. Qed.
