(* ===== verification/Reaper.v ===== *)
(** * Sweeps over the store and the expiry reaper (src/internal/engine/kv.go)

    What [Keys], [DBSize], [Snapshot], [ExpiredKeys] and [MemoryUsage] compute
    from the map a store implements, and what [DeleteExpired] removes: with
    every deadline indexed by the heap of its shard, exactly the due entries. *)

From S2P Require Import Prelude Types BinHeap ExpiryHeap Glob KV.

(** ** The sweep enumerates the map *)
Lemma map_to_list_disj_union {A} (m1 m2 : gmap string A) :
  m1 ##ₘ m2 → map_to_list (m1 ∪ m2) ≡ₚ map_to_list m1 ++ map_to_list m2.
Proof.
  intros Hd. apply NoDup_Permutation; [apply NoDup_map_to_list| |].
  - apply NoDup_app. split; [apply NoDup_map_to_list|]. split; [|apply NoDup_map_to_list].
    intros [k e] H1%elem_of_map_to_list H2%elem_of_map_to_list.
    by eapply map_disjoint_spec.
  - intros [k e]. rewrite elem_of_app, !elem_of_map_to_list. by apply lookup_union_Some.
Qed.

Lemma unions_sweep ss :
  (∀ i j s s' k, ss !! i = Some s → ss !! j = Some s' →
     is_Some (data s !! k) → is_Some (data s' !! k) → i = j) →
  (s ← ss; map_to_list (data s)) ≡ₚ map_to_list (unions ss).
Proof.
  induction ss as [|s ss IH]; intros Hp; cbn [unions foldr]; [by rewrite map_to_list_empty|].
  rewrite bind_cons. fold (unions ss). rewrite IH; cycle 1.
  { intros i j s1 s2 k H1 H2 Hk1 Hk2. by specialize (Hp (S i) (S j) s1 s2 k H1 H2 Hk1 Hk2) as [= ->]. }
  symmetry. apply map_to_list_disj_union. apply map_disjoint_spec.
  intros k e e' He He'. assert (∃ j s', ss !! j = Some s' ∧ is_Some (data s' !! k)) as (j & s' & Hj & Hs').
  { clear -He'. induction ss as [|s0 ss IH]; cbn in He'; [by rewrite lookup_empty in He'|].
    apply lookup_union_Some_raw in He' as [H|[_ H]].
    - by exists 0%nat, s0.
    - destruct (IH H) as (j & s' & ? & ?). by exists (S j), s'. }
  by specialize (Hp 0%nat (S j) s s' k eq_refl Hj (mk_is_Some _ _ He) Hs').
Qed.

Lemma sweep_view kv : kv_wf kv → sweep kv ≡ₚ map_to_list (view kv).
Proof.
  intros (_ & _ & Hp). apply unions_sweep. intros i j s s' k H1 H2 Hk Hk'.
  by rewrite <- (Hp i s k), <- (Hp j s' k).
Qed.

Lemma elem_of_sweep kv k e : kv_wf kv → (k, e) ∈ sweep kv ↔ view kv !! k = Some e.
Proof. intros Hwf. by rewrite (sweep_view kv Hwf), elem_of_map_to_list. Qed.

Lemma NoDup_sweep kv : kv_wf kv → NoDup (sweep kv).*1.
Proof. intros Hwf. rewrite (sweep_view kv Hwf). apply NoDup_fst_map_to_list. Qed.

(** The live part of the map. *)
Definition live_view (now : Z) (kv : KVStore) : gmap string Entry :=
  filter (fun '(_, e) => IsExpired now e = false) (view kv).

Lemma live_view_lookup now kv k : live_view now kv !! k = live now (view kv !! k).
Proof.
  apply option_eq. intros e. unfold live_view. by rewrite map_lookup_filter_Some, live_Some.
Qed.

Lemma filter_sweep_live now kv :
  kv_wf kv →
  List.filter (fun '(_, e) => negb (IsExpired now e)) (sweep kv) ≡ₚ map_to_list (live_view now kv).
Proof.
  intros Hwf. apply NoDup_Permutation.
  - apply NoDup_ListNoDup, List.NoDup_filter, NoDup_ListNoDup. eapply NoDup_fmap_1. by apply NoDup_sweep.
  - apply NoDup_map_to_list.
  - intros [k e]. rewrite list_elem_of_In, filter_In, <- list_elem_of_In, elem_of_sweep by done.
    rewrite elem_of_map_to_list, live_view_lookup, live_Some, negb_true_iff. done.
Qed.

Lemma count_live now (l : list (string * Entry)) n :
  foldl (fun count '(_, e) => if negb (IsExpired now e) then count + 1 else count) n l
  = n + zlen (List.filter (fun '(_, e) => negb (IsExpired now e)) l).
Proof.
  revert n. induction l as [|[k e] l IH]; intros n; [unfold zlen; cbn; lia|].
  cbn. rewrite IH. destruct (IsExpired now e); unfold zlen; cbn; lia.
Qed.

Lemma Snapshot_live now kv : kv_wf kv → Snapshot now kv = live_view now kv.
Proof.
  intros Hwf. pose proof (filter_sweep_live now kv Hwf) as Hlive. unfold Snapshot.
  erewrite list_to_map_proper; [apply list_to_map_to_list| |exact Hlive].
  rewrite Hlive. apply NoDup_fst_map_to_list.
Qed.

(** On a well-formed store [DBSize] is the number of live
    keys, [Keys] lists each live key the pattern matches exactly once, and
    [Snapshot] is the live part of the map. *)
Theorem sweeps_correct now pattern kv :
  kv_wf kv →
  DBSize now kv = Z.of_nat (size (live_view now kv)) ∧
  NoDup (Keys now pattern kv) ∧
  (∀ k, k ∈ Keys now pattern kv ↔ is_Some (live_view now kv !! k) ∧ matchGlob pattern k = true) ∧
  Snapshot now kv = live_view now kv.
Proof.
  intros Hwf. pose proof (filter_sweep_live now kv Hwf) as Hlive. repeat split.
  - unfold DBSize. rewrite <- (length_map_to_list (live_view now kv)), <- Hlive.
    apply count_live.
  - apply NoDup_ListNoDup. unfold Keys. pose proof (NoDup_sweep kv Hwf) as Hnd.
    apply NoDup_ListNoDup in Hnd. revert Hnd. generalize (sweep kv). clear.
    intros l. induction l as [|[k e] l IH]; cbn; [constructor|]. inversion 1; subst.
    destruct (_ && _); [|by apply IH]. cbn. constructor; [|by apply IH].
    rewrite in_map_iff. intros ([k' e'] & Hk & [Hin _]%filter_In). cbn in Hk. subst.
    apply H1. apply in_map_iff. by exists (k, e').
  - unfold Keys in H. apply list_elem_of_In, in_map_iff in H as ([k' e] & <- & [Hin Hf]%filter_In).
    apply list_elem_of_In, elem_of_sweep in Hin; [|done]. bool_to_prop.
    exists e. rewrite live_view_lookup. by apply live_Some.
  - unfold Keys in H. apply list_elem_of_In, in_map_iff in H as ([k' e] & <- & [Hin Hf]%filter_In).
    by bool_to_prop.
  - intros [[e He] Hm]. rewrite live_view_lookup in He. apply live_Some in He as [He Hx].
    unfold Keys. apply list_elem_of_In, in_map_iff. exists (k, e). split; [done|].
    apply filter_In. rewrite <- list_elem_of_In, elem_of_sweep by done. by rewrite Hx.
  - by apply Snapshot_live.
Qed.

Lemma sweeps_correct_witness :
  let kv := Set_ 5 "user:1" (VBytes (Some [])) TypeString 0
              (Set_ 5 "tmp" (VBytes (Some [])) TypeString 3 (New 2)) in
  DBSize 9 kv = 1 ∧ NoDup (Keys 9 "user:*" kv) ∧
  (∀ k, k ∈ Keys 9 "user:*" kv ↔ is_Some (live_view 9 kv !! k) ∧ matchGlob "user:*" k = true) ∧
  Snapshot 9 kv = live_view 9 kv.
Proof. cbv zeta. by apply (sweeps_correct 9 "user:*"), Set_spec, Set_spec, New_wf. Defined.

(** ** The deadline index *)

(** A heap item describes an entry when the reaper would act on it. *)
Definition describes (item : expiryItem) (k : string) (e : Entry) : Prop :=
  item_key item = k ∧ item_version item = Version e ∧ deadline item = ExpiresAt e.

Definition tracked (s : shard) : Prop :=
  heap_ok (expiries s) (length (expiries s)) ∧
  (∀ item, item ∈ expiries s → 0 < deadline item) ∧
  (∀ k e, data s !! k = Some e → 0 < ExpiresAt e →
     ∃ item, item ∈ expiries s ∧ describes item k e).

Definition kv_tracked (kv : KVStore) : Prop := Forall tracked (shards kv).

Definition due (now : Z) (e : Entry) : Prop := 0 < ExpiresAt e ∧ ExpiresAt e ≤ now.
#[export] Instance due_dec now e : Decision (due now e).
Proof. unfold due. apply _. Defined.

Lemma tracked_pop s item h :
  tracked s → expiries s = item :: h →
  (∀ e, data s !! item_key item = Some e → ¬ describes item (item_key item) e) →
  tracked {| data := data s; expiries := heap_Pop (expiries s) |}.
Proof.
  intros (Hok & Hpos & Hidx) He Hstale.
  destruct (heap_Pop_spec (expiries s)) as [H1 H2]; [by rewrite He|done|].
  rewrite He in H2 at 1. cbn in H2. split; [done|]. split; cbn.
  - intros x Hx. apply Hpos. rewrite <- H2. by right.
  - intros k e Hk Hpe. destruct (Hidx k e Hk Hpe) as (x & Hx & Hd). exists x. split; [|done].
    rewrite <- H2 in Hx. apply elem_of_cons in Hx as [->|]; [|done].
    destruct Hd as (<- & ? & ?). by destruct (Hstale e Hk).
Qed.

Lemma tracked_delete s k : tracked s → tracked (setData s (delete k (data s))).
Proof.
  intros (Hok & Hpos & Hidx). split; [done|]. split; [done|]. cbn.
  intros k' e [_ Hk]%lookup_delete_Some. by apply Hidx.
Qed.

Lemma tracked_none s now :
  tracked s → (∀ item, item ∈ expiries s → now < deadline item) →
  filter (fun '(_, e) => ¬ due now e) (data s) = data s.
Proof.
  intros (_ & _ & Hidx) Hlate. apply map_filter_id. intros k e Hk [Hpos Hle].
  destruct (Hidx k e Hk Hpos) as (x & Hx & _ & _ & Hd). specialize (Hlate x Hx). lia.
Qed.

Lemma filter_delete_due now (m : gmap string Entry) k e :
  m !! k = Some e → due now e →
  filter (fun '(_, e) => ¬ due now e) (delete k m) = filter (fun '(_, e) => ¬ due now e) m.
Proof.
  intros Hk Hd. apply map_eq. intros k'. apply option_eq. intros e'.
  rewrite !map_lookup_filter_Some, lookup_delete_Some. split; [by intros [[_ ?] ?]|].
  intros [Hk' Hnd]. split; [|done]. split; [|done]. intros ->. congruence.
Qed.

Lemma heap_all_late h now :
  heap_ok h (length h) → now < dl h 0 → ∀ item, item ∈ h → now < deadline item.
Proof.
  intros Hok Hroot item [i Hi]%list_elem_of_lookup.
  pose proof (heap_root_min h i Hok (lookup_lt_Some _ _ _ Hi)) as Hmin.
  unfold dl in *. rewrite (list_lookup_total_correct _ _ _ Hi) in Hmin. lia.
Qed.

(** The loop on one shard removes the due entries and keeps the index. *)
Lemma reap_shard_spec fuel now count s :
  tracked s → (length (expiries s) ≤ fuel)%nat →
  let '(c, s') := reap_shard fuel now 0 count s in
  tracked s' ∧ data s' = filter (fun '(_, e) => ¬ due now e) (data s) ∧
  c + Z.of_nat (size (data s')) = count + Z.of_nat (size (data s)).
Proof.
  revert count s. induction fuel as [|fuel IH]; intros count s Htr Hf; cbn [reap_shard].
  { split; [done|]. split; [|done]. symmetry. apply tracked_none; [done|].
    destruct (expiries s); [by intros ? ?%not_elem_of_nil|cbn in Hf; lia]. }
  destruct (expiries s) as [|item h] eqn:He.
  { split; [done|]. split; [|done]. symmetry. apply tracked_none; [done|]. rewrite He.
    by intros ? ?%not_elem_of_nil. }
  change (0 <=? 0) with true. cbn [orb negb].
  destruct (deadline item >? now) eqn:Ed; bool_to_prop.
  { split; [done|]. split; [|done]. symmetry. apply tracked_none; [done|].
    apply heap_all_late; [apply Htr|]. by rewrite He. }
  destruct (heap_Pop_spec (expiries s)) as [_ Hperm]; [by rewrite He|apply Htr|].
  apply Permutation_length in Hperm. rewrite He in Hperm. cbn [length] in *.
  assert (Hstep : (∀ e, data s !! item_key item = Some e → ¬ describes item (item_key item) e) →
    let '(c, s') := reap_shard fuel now 0 count
      {| data := data s; expiries := heap_Pop (item :: h) |} in
    tracked s' ∧ data s' = filter (fun '(_, e) => ¬ due now e) (data s) ∧
    c + Z.of_nat (size (data s')) = count + Z.of_nat (size (data s))).
  { intros Hstale. apply (IH count {| data := data s; expiries := heap_Pop (item :: h) |}).
    - rewrite <- He. by eapply tracked_pop.
    - cbn [expiries]. lia. }
  destruct (data s !! item_key item) as [e|] eqn:Ek; cycle 1.
  { by apply Hstep. }
  destruct (_ && _) eqn:Em; cycle 1.
  { apply Hstep. intros e' [= <-] (_ & Hv & Hd). rewrite Hv, Hd, !Z.eqb_refl in Em. done. }
  bool_to_prop.
  assert (Hdue : due now e).
  { destruct Htr as (_ & Hpos & _). split; [|lia]. specialize (Hpos item). rewrite He in Hpos.
    specialize (Hpos ltac:(left)). lia. }
  assert (Htr' : tracked (setData {| data := data s; expiries := heap_Pop (item :: h) |}
      (delete (item_key item) (data s)))).
  { rewrite <- He. refine (tracked_pop (setData s (delete (item_key item) (data s))) item h _ He _).
    - by apply tracked_delete.
    - intros e' [Hne _]%lookup_delete_Some. done. }
  specialize (IH (count + 1) _ Htr'). cbn [expiries setData] in IH.
  destruct (reap_shard fuel now 0 (count + 1) _) as [c s'] eqn:Er.
  destruct IH as (H1 & H2 & H3); [lia|]. split; [done|]. cbn [data setData] in *.
  rewrite (filter_delete_due now (data s) _ e) in H2 by done. split; [done|].
  rewrite (map_size_delete_Some _ _ (mk_is_Some _ _ Ek)) in H3.
  assert (size (data s) ≠ 0%nat).
  { apply map_size_ne_0_lookup. by exists (item_key item). }
  lia.
Qed.

Lemma reap_shards_spec now count ss :
  Forall tracked ss →
  let '(c, ss') := reap_shards now 0 count ss in
  Forall tracked ss' ∧
  map data ss' = map (fun s => filter (fun '(_, e) => ¬ due now e) (data s)) ss ∧
  c + Z.of_nat (list_sum (map (fun s => size (data s)) ss'))
  = count + Z.of_nat (list_sum (map (fun s => size (data s)) ss)).
Proof.
  revert count. induction ss as [|s ss IH]; intros count Htr; cbn [reap_shards]; [done|].
  apply Forall_cons in Htr as [Hs Hss].
  pose proof (reap_shard_spec (length (expiries s)) now count s Hs (le_n _)) as Hone.
  destruct (reap_shard _ now 0 count s) as [c s'] eqn:E1.
  destruct Hone as (H1 & H2 & H3). cbn [Z.gtb andb].
  change (0 >? 0) with false. cbn [andb]. specialize (IH c Hss).
  destruct (reap_shards now 0 c ss) as [c' ss'] eqn:E2. destruct IH as (H4 & H5 & H6).
  split; [by constructor|]. cbn [map list_sum foldr]. split; [by rewrite H2, H5|].
  unfold list_sum in *. cbn. lia.
Qed.

(** A store whose shards hold parts of the shards of a well-formed one. *)
Lemma shrink_wf kv ss f :
  kv_wf kv → map data ss = map (fun s => f (data s)) (shards kv) →
  (∀ m : gmap string Entry, f m ⊆ m) →
  let kv' := {| shards := ss; numShards := numShards kv; version := version kv |} in
  kv_wf kv' ∧ ∀ k, data (getShard kv' k) = f (data (getShard kv k)).
Proof.
  intros Hwf Hmap Hsub. cbv zeta.
  assert (Hlen : length ss = length (shards kv)) by (apply (f_equal length) in Hmap; by rewrite !length_map in Hmap).
  assert (Hat : ∀ i s, ss !! i = Some s → ∃ s0, shards kv !! i = Some s0 ∧ data s = f (data s0)).
  { intros i s Hi. apply (f_equal (fun l => l !! i)) in Hmap.
    rewrite !list_lookup_fmap, Hi in Hmap. destruct (shards kv !! i) as [s0|]; [|done].
    cbn in Hmap. injection Hmap as ->. by exists s0. }
  split.
  - destruct Hwf as (Hn & Hl & Hp). split; [done|]. unfold zlen in *. cbn. rewrite Hlen. split; [done|].
    intros i s key Hi [e He]. destruct (Hat i s Hi) as (s0 & Hi0 & Hd). rewrite Hd in He.
    eapply (Hp i s0); [done|]. exists e. by eapply lookup_weaken; [|apply Hsub].
  - intros k. pose proof (shardAt_lt kv k Hwf) as Hlt. unfold getShard. cbn [shards].
    change (shardAt _ k) with (shardAt kv k) at 1.
    assert (Hlt' : (shardAt kv k < length ss)%nat) by (by rewrite Hlen).
    apply list_lookup_lookup_total_lt in Hlt'. destruct (Hat _ _ Hlt') as (s0 & Hs0 & ->).
    by rewrite (list_lookup_total_correct _ _ _ Hs0).
Qed.

Lemma sum_sizes kv :
  kv_wf kv → list_sum (map (fun s => size (data s)) (shards kv)) = size (view kv).
Proof.
  intros Hwf. rewrite <- length_map_to_list, <- (sweep_view kv Hwf). unfold sweep.
  induction (shards kv) as [|s ss IH]; [done|].
  rewrite bind_cons, length_app, <- IH, length_map_to_list. done.
Qed.

Lemma reaper_spec now kv :
  kv_wf kv → kv_tracked kv →
  let '(n, kv') := DeleteExpired now kv in
  kv_wf kv' ∧ kv_tracked kv' ∧
  view kv' = filter (fun '(_, e) => ¬ due now e) (view kv) ∧
  n = Z.of_nat (size (view kv)) - Z.of_nat (size (view kv')).
Proof.
  intros Hwf Htr. unfold DeleteExpired, DeleteExpiredLimit.
  pose proof (reap_shards_spec now 0 (shards kv) Htr) as Hspec.
  destruct (reap_shards now 0 0 (shards kv)) as [n ss] eqn:E. destruct Hspec as (H1 & H2 & H3).
  destruct (shrink_wf kv ss (filter (fun '(_, e) => ¬ due now e)) Hwf H2) as [Hwf' Hsh].
  { intros m. apply map_filter_subseteq. }
  set (kv' := {| shards := ss |}) in *. split; [done|]. split; [done|]. split.
  - apply map_eq. intros k. rewrite view_lookup, Hsh by done.
    apply option_eq. intros e. by rewrite !map_lookup_filter_Some, view_lookup.
  - change ss with (shards kv') in H3. rewrite !sum_sizes in H3 by done. lia.
Qed.

(** C18: when every positive deadline is indexed by its shard's
    heap, [DeleteExpired] removes exactly the entries whose deadline has come,
    returns how many there were, and leaves the index valid. *)
Theorem reaper_exact now kv :
  kv_wf kv → kv_tracked kv →
  let '(n, kv') := DeleteExpired now kv in
  kv_wf kv' ∧ kv_tracked kv' ∧
  view kv' = filter (fun '(_, e) => ¬ due now e) (view kv) ∧
  n = Z.of_nat (size (view kv)) - Z.of_nat (size (view kv')).
Proof. apply reaper_spec. Qed.

(** ** Reachable stores keep the index *)
Lemma getShard_tracked kv key : kv_wf kv → kv_tracked kv → tracked (getShard kv key).
Proof.
  intros Hwf Htr. pose proof (shardAt_lt kv key Hwf) as Hlt.
  apply list_lookup_lookup_total_lt in Hlt. by eapply Forall_lookup_1 in Htr.
Qed.

Lemma setShard_tracked kv key s : kv_tracked kv → tracked s → kv_tracked (setShard kv key s).
Proof. intros Htr Hs. by apply Forall_insert. Qed.

(** Installing an entry without a positive deadline. *)
Lemma tracked_insert s k e :
  tracked s → ExpiresAt e ≤ 0 → tracked (setData s (<[k := e]> (data s))).
Proof.
  intros (Hok & Hpos & Hidx) He. split; [done|]. split; [done|]. cbn [data setData].
  intros k' e' [[-> ->]|[_ Hk]]%lookup_insert_Some Hpe; [lia|by apply Hidx].
Qed.

(** Installing an entry together with the heap item that describes it. *)
Lemma tracked_push s k e item :
  tracked s → describes item k e → 0 < deadline item →
  tracked (pushExpiry (setData s (<[k := e]> (data s))) item).
Proof.
  intros (Hok & Hpos & Hidx) Hd Hdl.
  destruct (heap_Push_spec (expiries s) item Hok) as [H1 H2]. split; [done|].
  unfold pushExpiry, setData. cbn [data expiries]. split.
  - intros x. rewrite H2. intros [->|Hx]%elem_of_cons; [done|by apply Hpos].
  - intros k' e' [[-> ->]|[_ Hk]]%lookup_insert_Some Hpe.
    + exists item. split; [|done]. rewrite H2. by left.
    + destruct (Hidx k' e' Hk Hpe) as (x & Hx & Hdx). exists x. split; [|done].
      rewrite H2. by right.
Qed.

Lemma removeEntry_tracked key kv : kv_wf kv → kv_tracked kv → kv_tracked (removeEntry key kv).
Proof. intros. apply setShard_tracked; [done|]. by apply tracked_delete, getShard_tracked. Qed.

Lemma Set_tracked now key v t ttl kv :
  kv_wf kv → kv_tracked kv → kv_tracked (Set_ now key v t ttl kv).
Proof.
  intros Hwf Htr. unfold Set_. destruct (nextVersion kv) as [ver kv'] eqn:Ev.
  assert (Hkv' : kv' = snd (nextVersion kv)) by (by rewrite Ev).
  assert (Hwf' : kv_wf kv') by (by subst). assert (Htr' : kv_tracked kv') by (by subst).
  apply setShard_tracked; [done|].
  pose proof (getShard_tracked kv' key Hwf' Htr') as Hs.
  destruct (_ >? 0) eqn:E at 1; bool_to_prop.
  - apply tracked_push; [done| |done]. by destruct (data _ !! key).
  - apply tracked_insert; [done|]. by destruct (data _ !! key).
Qed.

Lemma Delete_tracked keys kv : kv_wf kv → kv_tracked kv → kv_tracked (snd (Delete keys kv)).
Proof.
  unfold Delete. generalize 0. revert kv.
  induction keys as [|k keys IH]; intros kv n Hwf Htr; cbn [foldl]; [done|].
  destruct (data _ !! k); [|by apply IH].
  apply IH; [by apply removeEntry_spec|by apply removeEntry_tracked].
Qed.

(** The deadline an [Expire] computes has not wrapped around. *)
Definition sane (op : kvop) : Prop :=
  match op with
  | OExpire _ now2 _ sec => sec ≤ 0 ∨ 0 < i64 (now2 + i64 (sec * second))
  | _ => True
  end.

Lemma run_op_tracked op kv :
  sane op → kv_wf kv → kv_tracked kv → kv_tracked (snd (run_op op kv)).
Proof.
  intros Hsane Hwf Htr.
  destruct op as [now key v t ttl|keys|n1 n2 key sec|now key|n1 n2 n3 k k'|now key|]; cbn [run_op snd].
  - by apply Set_tracked.
  - pose proof (Delete_tracked keys kv Hwf Htr). by destruct (Delete keys kv).
  - unfold Expire. destruct (data _ !! key) as [e|]; [|done].
    destruct (IsExpired n1 e); [done|]. destruct (sec <=? 0) eqn:E; bool_to_prop; cbn [snd].
    + by apply removeEntry_tracked.
    + apply setShard_tracked; [done|]. destruct Hsane as [|Hpos]; [lia|].
      apply tracked_push; [by apply getShard_tracked|done|done].
  - unfold Persist. destruct (data _ !! key) as [e|]; [|done].
    destruct (IsExpired now e); [done|]. destruct (ExpiresAt e =? 0); [done|]. cbn [snd].
    apply setShard_tracked; [done|]. apply tracked_insert; [by apply getShard_tracked|done].
  - unfold Rename. destruct (Get n1 k kv) as [e|]; [|done].
    pose proof (Delete_tracked [k] kv Hwf Htr) as Htr1.
    destruct (Delete1 k kv Hwf) as [Hwf1 _].
    destruct (_ >? 0); [destruct (_ <=? 0); [done|]|]; cbn [snd]; by apply Set_tracked.
  - unfold GetForWrite. destruct (data _ !! key) as [e|]; [|done].
    destruct (IsExpired now e); [|done]. by apply removeEntry_tracked.
  - unfold kv_tracked. cbn [FlushAll shards]. apply Forall_map.
    eapply Forall_impl; [exact Htr|]. intros s (Hok & Hpos & _). split; [done|]. split; [done|].
    cbn. intros k e. by rewrite lookup_empty.
Qed.

(** The stores an operation sequence can reach, reaper runs included. *)
Inductive reachable : KVStore → Prop :=
| reach_new n : reachable (New n)
| reach_op op kv : reachable kv → sane op → reachable (snd (run_op op kv))
| reach_reap now kv : reachable kv → reachable (snd (DeleteExpired now kv)).

(** In every store reached from an empty one by the
    store's operations and the reaper, keys sit in the shard of their hash and
    every positive deadline is indexed by the heap of its shard. *)
Theorem reachable_tracked kv : reachable kv → kv_wf kv ∧ kv_tracked kv.
Proof.
  induction 1 as [n|op kv _ [Hwf Htr] Hs|now kv _ [Hwf Htr]].
  - split; [apply New_wf|]. apply Forall_replicate. split; [apply heap_ok_nil|].
    split; [by intros ? ?%not_elem_of_nil|]. intros k e. cbn. by rewrite lookup_empty.
  - split; [by apply run_op_wf|by apply run_op_tracked].
  - pose proof (reaper_spec now kv Hwf Htr) as H.
    destruct (DeleteExpired now kv) as [n kv']. by destruct H as (? & ? & _).
Qed.

Lemma reachable_tracked_witness :
  let kv := snd (run_op (OExpire 5 5 "a" 2) (snd (run_op (OSet 5 "a" VNil TypeString 0) (New 2)))) in
  kv_wf kv ∧ kv_tracked kv.
Proof.
  apply reachable_tracked. apply reach_op; [|right; vm_compute; done].
  apply reach_op; [apply reach_new|exact I].
Defined.

Lemma reaper_exact_witness :
  let kv := snd (run_op (OSet 5 "a" VNil TypeString 10) (New 2)) in
  let '(n, kv') := DeleteExpired 20 kv in
  view kv' = filter (fun '(_, e) => ¬ due 20 e) (view kv) ∧
  n = Z.of_nat (size (view kv)) - Z.of_nat (size (view kv')).
Proof.
  cbv zeta. set (kv := snd _).
  assert (Hwf : kv_wf kv) by (apply Set_spec, New_wf).
  assert (Htr : kv_tracked kv).
  { apply run_op_tracked; [exact I|apply New_wf|]. apply Forall_replicate.
    split; [apply heap_ok_nil|]. split; [by intros ? ?%not_elem_of_nil|].
    intros k e. cbn. by rewrite lookup_empty. }
  pose proof (reaper_exact 20 kv Hwf Htr) as H.
  destruct (DeleteExpired 20 kv) as [n kv']. apply H.
Defined.
