(* ===== verification/KVCalls.v ===== *)
(** * The whole interface of the key-value store ([engine/kv.go])

    Every exported operation of the store as one call, its answer, and what the
    same call does to one map from keys to entries and a version counter. The
    sweeps ([Keys], [DBSize], [KeyspaceStats], [ExpiredKeys], [Snapshot],
    [MemoryUsage]) visit a Go map, whose order is not fixed, so a list they answer
    is specified up to its order. [Rename] runs here without another call between
    its lookup, its removal and its store: the executor runs mutations of a
    durable store one at a time. *)

From S2P Require Import Prelude GoStd Types BinHeap ExpiryHeap Glob KV Reaper.

(** ** Calls *)
Inductive kvcall :=
| CUpdate (op : kvop)
| CGet (now : Z) (key : string)
| CGetForRead (now : Z) (key : string)
| CExists (now : Z) (key : string)
| CType (now : Z) (key : string)
| CTTL (now1 now2 : Z) (key : string)
| CKeys (now : Z) (pattern : string)
| CDBSize (now : Z)
| CKeyspaceStats (now : Z)
| CKeyCount (now : Z)
| CExpiredKeys (now : Z)
| CSnapshot (now : Z)
| CMemoryUsage (now : Z)
| CDeleteExpired (now : Z)
| CDeleteExpiredLimit (now limit : Z).

Inductive kvanswer :=
| AOut (o : kvout)
| AEntry (e : option Entry)
| ABool (b : bool)
| AType (t : DataType)
| AInt (n : Z)
| AKeys (l : list string)
| AStats (m : gmap string Z)
| AMap (m : gmap string Entry).

Definition run_call (c : kvcall) (kv : KVStore) : kvanswer * KVStore :=
  match c with
  | CUpdate op => let '(o, kv) := run_op op kv in (AOut o, kv)
  | CGet now key => (AEntry (Get now key kv), kv)
  | CGetForRead now key => (AEntry (GetForRead now key kv), kv)
  | CExists now key => (ABool (Exists_ now key kv), kv)
  | CType now key => (AType (Type_ now key kv), kv)
  | CTTL n1 n2 key => (AInt (TTL n1 n2 key kv), kv)
  | CKeys now pattern => (AKeys (Keys now pattern kv), kv)
  | CDBSize now => (AInt (DBSize now kv), kv)
  | CKeyspaceStats now => (AStats (KeyspaceStats now kv), kv)
  | CKeyCount now => (AInt (KeyCount now kv), kv)
  | CExpiredKeys now => (AKeys (ExpiredKeys now kv), kv)
  | CSnapshot now => (AMap (Snapshot now kv), kv)
  | CMemoryUsage now => (AInt (MemoryUsage now kv), kv)
  | CDeleteExpired now => let '(n, kv) := DeleteExpired now kv in (AInt n, kv)
  | CDeleteExpiredLimit now limit => let '(n, kv) := DeleteExpiredLimit now limit kv in (AInt n, kv)
  end.

(** ** The specification on one map *)
Definition live_map (now : Z) (m : gmap string Entry) : gmap string Entry :=
  filter (fun '(_, e) => IsExpired now e = false) m.

Definition zsum (l : list Z) : Z := foldr Z.add 0 l.
#[export] Instance zsum_perm : Proper ((≡ₚ) ==> eq) zsum.
Proof. intros l l'. unfold zsum. induction 1; cbn; lia. Qed.

(** [l] lists, once each, the keys of [m] that satisfy [P]. *)
Definition enumerates (l : list string) (m : gmap string Entry) (P : string → Entry → Prop) : Prop :=
  NoDup l ∧ ∀ k, k ∈ l ↔ ∃ e, m !! k = Some e ∧ P k e.

Definition spec_ttl (n2 : Z) (o : option Entry) : Z :=
  match o with
  | None => -2
  | Some e => if ExpiresAt e =? 0 then -1
              else if i64 (ExpiresAt e - n2) <=? 0 then -2 else Z.quot (i64 (ExpiresAt e - n2)) second
  end.

(** The number of live entries of a type; a type without any has no count. *)
Definition typed (now : Z) (t : string) (m : gmap string Entry) : gmap string Entry :=
  filter (fun '(_, e) => DataType_string (EType e) = t) (live_map now m).

(** The entries a run of the reaper removes: each has a deadline that has come,
    at most [limit] of them when the limit is positive. *)
Definition spec_reap (now limit : Z) (m m' : gmap string Entry) (n : Z) : Prop :=
  m' ⊆ m ∧ n = Z.of_nat (size m) - Z.of_nat (size m') ∧
  (∀ k e, m !! k = Some e → m' !! k = None → ExpiresAt e ≤ now) ∧ (0 < limit → n ≤ limit).

Definition spec_call (c : kvcall) (a : amap) (ans : kvanswer) (a' : amap) : Prop :=
  let '(m, ver) := a in
  match c with
  | CUpdate op => (ans, a') = (AOut (fst (abs_op op a)), snd (abs_op op a))
  | CGet now key | CGetForRead now key => ans = AEntry (live now (m !! key)) ∧ a' = a
  | CExists now key => ans = ABool (bool_decide (is_Some (live now (m !! key)))) ∧ a' = a
  | CType now key => ans = AType (from_option EType TypeNone (live now (m !! key))) ∧ a' = a
  | CTTL n1 n2 key => ans = AInt (spec_ttl n2 (live n1 (m !! key))) ∧ a' = a
  | CKeys now pattern =>
      (∃ l, ans = AKeys l ∧ enumerates l m (λ k e, IsExpired now e = false ∧ matchGlob pattern k = true)) ∧ a' = a
  | CDBSize now | CKeyCount now => ans = AInt (Z.of_nat (size (live_map now m))) ∧ a' = a
  | CKeyspaceStats now =>
      (∃ s, ans = AStats s ∧
         ∀ t, s !! t = if decide (typed now t m = ∅) then None else Some (Z.of_nat (size (typed now t m)))) ∧
      a' = a
  | CExpiredKeys now => (∃ l, ans = AKeys l ∧ enumerates l m (λ _ e, IsExpired now e = true)) ∧ a' = a
  | CSnapshot now => ans = AMap (live_map now m) ∧ a' = a
  | CMemoryUsage now =>
      (∃ pending, 0 ≤ pending ∧
         ans = AInt (zsum ((λ p, entryBytes p.1 p.2) <$> map_to_list (live_map now m)) + pending * 48)) ∧ a' = a
  | CDeleteExpired now => ∃ n, ans = AInt n ∧ spec_reap now 0 m (fst a') n ∧ snd a' = ver
  | CDeleteExpiredLimit now limit => ∃ n, ans = AInt n ∧ spec_reap now limit m (fst a') n ∧ snd a' = ver
  end.

(** ** The sweeps *)
Lemma enumerates_filter kv (f : string → Entry → bool) (P : string → Entry → Prop) :
  kv_wf kv → (∀ k e, f k e = true ↔ P k e) →
  enumerates (map fst (List.filter (λ '(k, e), f k e) (sweep kv))) (view kv) P.
Proof.
  intros Hwf HP. split.
  - apply NoDup_ListNoDup. pose proof (NoDup_sweep kv Hwf) as Hnd. apply NoDup_ListNoDup in Hnd.
    revert Hnd. generalize (sweep kv). clear. intros l.
    induction l as [|[k e] l IH]; cbn; [constructor|]. inversion 1; subst.
    destruct (f k e); [|by apply IH]. cbn. constructor; [|by apply IH].
    rewrite in_map_iff. intros ([k' e'] & Hk & [Hin _]%filter_In). cbn in Hk. subst.
    apply H1. apply in_map_iff. by exists (k, e').
  - intros k. rewrite list_elem_of_In, in_map_iff. split.
    + intros ([k' e] & <- & [Hin Hf]%filter_In). apply list_elem_of_In, elem_of_sweep in Hin; [|done].
      exists e. split; [done|]. by apply HP.
    + intros (e & He & Hp). exists (k, e). split; [done|]. apply filter_In.
      rewrite <- list_elem_of_In, elem_of_sweep by done. split; [done|]. by apply HP.
Qed.

Lemma live_sweep now kv :
  kv_wf kv → List.filter (fun '(_, e) => negb (IsExpired now e)) (sweep kv) ≡ₚ map_to_list (live_map now (view kv)).
Proof. apply filter_sweep_live. Qed.

Lemma DBSize_live now kv : kv_wf kv → DBSize now kv = Z.of_nat (size (live_map now (view kv))).
Proof.
  intros Hwf. unfold DBSize. rewrite count_live, <- length_map_to_list, <- (live_sweep now kv Hwf). done.
Qed.

(** The counting loop, entry by entry. *)
Definition bump (now : Z) (stats : gmap string Z) (p : string * Entry) : gmap string Z :=
  let '(_, e) := p in
  if negb (IsExpired now e)
  then let t := DataType_string (EType e) in <[t := default 0 (stats !! t) + 1]> stats else stats.

Definition counted (now : Z) (t : string) (p : string * Entry) : bool :=
  negb (IsExpired now p.2) && bool_decide (DataType_string (EType p.2) = t).

Lemma bump_lookup now t l (stats : gmap string Z) :
  foldl (bump now) stats l !! t =
  match List.filter (counted now t) l with
  | [] => stats !! t
  | l' => Some (default 0 (stats !! t) + zlen l')
  end.
Proof.
  revert stats. induction l as [|[k e] l IH]; intros stats; [done|]. cbn [foldl List.filter]. rewrite IH.
  assert (counted now t (k, e) = negb (IsExpired now e) && bool_decide (DataType_string (EType e) = t)) as -> by done.
  cbn [bump]. destruct (IsExpired now e); cbn [negb andb]; [done|]. case_bool_decide as Ht.
  - subst t. rewrite lookup_insert_eq. unfold zlen.
    destruct (List.filter _ l) as [|x l']; f_equal; cbn [length default from_option id]; unfold id; lia.
  - by rewrite lookup_insert_ne.
Qed.

Lemma zsum_cons x l : zsum (x :: l) = x + zsum l.
Proof. done. Qed.

Definition total (m : gmap string Z) : Z := foldl Z.add 0 (map snd (map_to_list m)).

Lemma foldl_zsum l n : foldl Z.add n l = n + zsum l.
Proof. revert n. induction l as [|x l IH]; intros n; cbn; [lia|]. rewrite IH. fold (zsum l). lia. Qed.

Lemma total_fresh (m : gmap string Z) t n : m !! t = None → total (<[t := n]> m) = n + total m.
Proof.
  intros Hm. unfold total. rewrite !foldl_zsum. change (map snd ?l) with (snd <$> l).
  rewrite map_to_list_insert by done. rewrite fmap_cons. rewrite zsum_cons. cbn [snd]. lia.
Qed.

Lemma total_insert (m : gmap string Z) t : total (<[t := default 0 (m !! t) + 1]> m) = total m + 1.
Proof.
  destruct (m !! t) as [n|] eqn:E; cbn [default from_option id].
  - unfold id. pose proof (lookup_delete_eq m t) as Hd.
    rewrite <- (insert_delete_id m t n E) at 2. rewrite <- insert_delete_eq.
    rewrite !total_fresh by done. lia.
  - rewrite total_fresh by done. lia.
Qed.

Lemma bump_total now l stats :
  total (foldl (bump now) stats l) = total stats + zlen (List.filter (fun '(_, e) => negb (IsExpired now e)) l).
Proof.
  revert stats. induction l as [|[k e] l IH]; intros stats; cbn [foldl List.filter]; [unfold zlen; cbn; lia|].
  rewrite IH. cbn [bump]. destruct (negb _); [|done]. cbv zeta. rewrite total_insert. unfold zlen. cbn [length]. lia.
Qed.

Lemma KeyCount_live now kv : kv_wf kv → KeyCount now kv = Z.of_nat (size (live_map now (view kv))).
Proof.
  intros Hwf. change (KeyCount now kv) with (total (foldl (bump now) ∅ (sweep kv))).
  rewrite bump_total. rewrite <- length_map_to_list, <- (live_sweep now kv Hwf). done.
Qed.

Lemma counted_sweep now t kv :
  kv_wf kv → List.filter (counted now t) (sweep kv) ≡ₚ map_to_list (typed now t (view kv)).
Proof.
  intros Hwf. apply NoDup_Permutation.
  - apply NoDup_ListNoDup, List.NoDup_filter, NoDup_ListNoDup. eapply NoDup_fmap_1. by apply NoDup_sweep.
  - apply NoDup_map_to_list.
  - intros [k e]. rewrite list_elem_of_In, filter_In, <- list_elem_of_In, elem_of_sweep by done.
    unfold counted, typed, live_map. rewrite elem_of_map_to_list, !map_lookup_filter_Some. cbn [snd].
    rewrite andb_true_iff, negb_true_iff, bool_decide_eq_true. naive_solver.
Qed.

Lemma KeyspaceStats_typed now t kv :
  kv_wf kv → KeyspaceStats now kv !! t =
    if decide (typed now t (view kv) = ∅) then None else Some (Z.of_nat (size (typed now t (view kv)))).
Proof.
  intros Hwf. change (KeyspaceStats now kv) with (foldl (bump now) ∅ (sweep kv)). rewrite bump_lookup, lookup_empty.
  pose proof (counted_sweep now t kv Hwf) as Hp. pose proof (Permutation_length Hp) as Hlen.
  rewrite length_map_to_list in Hlen.
  destruct (decide (typed now t (view kv) = ∅)) as [Ht|Ht].
  - rewrite Ht, map_to_list_empty in Hp. apply Permutation_nil_r in Hp. by rewrite Hp.
  - destruct (List.filter _ _) as [|x l] eqn:E; [|unfold zlen; f_equal; cbn [default from_option id] in *; unfold id in *; lia]. symmetry in Hp.
    apply Permutation_nil_r, map_to_list_empty_iff in Hp. done.
Qed.

Lemma MemoryUsage_live now kv :
  kv_wf kv → ∃ pending, 0 ≤ pending ∧
    MemoryUsage now kv = zsum ((λ p, entryBytes p.1 p.2) <$> map_to_list (live_map now (view kv))) + pending * 48.
Proof.
  intros Hwf. exists (zsum ((λ s, zlen (expiries s)) <$> shards kv)). split.
  { induction (shards kv) as [|s ss IH]; cbn; [done|]. fold (zsum ((λ s, zlen (expiries s)) <$> ss)). unfold zlen in *. lia. }
  rewrite <- (live_sweep now kv Hwf). unfold MemoryUsage. f_equal.
  - assert (∀ l n, foldl (fun total '(k, e) => if IsExpired now e then total else total + entryBytes k e) n l =
      n + zsum ((λ p, entryBytes p.1 p.2) <$> List.filter (fun '(_, e) => negb (IsExpired now e)) l)) as Hl.
    { intros l. induction l as [|[k e] l IH]; intros n; [cbn; lia|]. cbn [foldl List.filter]. rewrite IH.
      destruct (IsExpired now e); cbn [negb]; [done|]. rewrite fmap_cons, zsum_cons. cbn [fst snd]. lia. }
    rewrite Hl. lia.
  - assert (∀ l n, foldl (fun total s => total + zlen (expiries s) * 48) n l =
      n + zsum ((λ s, zlen (expiries s)) <$> l) * 48) as Hl.
    { intros l. induction l as [|s l IH]; intros n; [cbn; lia|]. cbn [foldl]. rewrite IH, fmap_cons, zsum_cons. lia. }
    rewrite Hl. lia.
Qed.

(** ** The reaper on any store *)
Definition reaped (now : Z) (m m' : gmap string Entry) : Prop :=
  m' ⊆ m ∧ ∀ k e, m !! k = Some e → m' !! k = None → ExpiresAt e ≤ now.

Lemma reaped_refl now m : reaped now m m.
Proof. split; [done|]. intros. congruence. Qed.

Lemma reaped_delete now m k e m' :
  m !! k = Some e → ExpiresAt e ≤ now → reaped now (delete k m) m' → reaped now m m'.
Proof.
  intros Hk He [Hs Hr]. split; [etrans; [exact Hs|apply delete_subseteq]|].
  intros k' e' Hk' Hn. destruct (decide (k' = k)) as [->|]; [congruence|].
  apply (Hr k'); [|done]. by rewrite lookup_delete_ne.
Qed.

Lemma reap_shard_reaped fuel now limit count s :
  let '(c, s') := reap_shard fuel now limit count s in
  reaped now (data s) (data s') ∧
  c + Z.of_nat (size (data s')) = count + Z.of_nat (size (data s)) ∧
  (0 < limit → count ≤ limit → c ≤ limit).
Proof.
  revert count s. induction fuel as [|fuel IH]; intros count s; cbn [reap_shard]; [by auto using reaped_refl|].
  destruct (expiries s) as [|item h] eqn:He; [by auto using reaped_refl|].
  destruct (negb _) eqn:El; [by auto using reaped_refl|].
  destruct (deadline item >? now) eqn:Ed; [by auto using reaped_refl|]. bool_to_prop.
  destruct (data s !! item_key item) as [e|] eqn:Ek; cycle 1.
  { apply (IH count {| data := data s; expiries := heap_Pop (item :: h) |}). }
  destruct (_ && _) eqn:Em; [|apply (IH count {| data := data s; expiries := heap_Pop (item :: h) |})].
  specialize (IH (count + 1) (setData {| data := data s; expiries := heap_Pop (item :: h) |} (delete (item_key item) (data s)))).
  destruct (reap_shard fuel now limit (count + 1) _) as [c s'] eqn:Er. cbn [data setData] in IH.
  destruct IH as (H1 & H2 & H3). apply andb_true_iff in Em as [_ Em]. bool_to_prop. conjs.
  - eapply reaped_delete; [done|lia|done].
  - rewrite (map_size_delete_Some _ _ (mk_is_Some _ _ Ek)) in H2.
    assert (size (data s) ≠ 0%nat) by (apply map_size_ne_0_lookup; by exists (item_key item)). lia.
  - intros Hl Hc. apply H3; [done|]. apply orb_true_iff in El as [El|El]; bool_to_prop; lia.
Qed.

Lemma reap_shards_reaped now limit count ss :
  let '(c, ss') := reap_shards now limit count ss in
  Forall2 (λ s s', reaped now (data s) (data s')) ss ss' ∧
  c + Z.of_nat (list_sum (map (fun s => size (data s)) ss'))
  = count + Z.of_nat (list_sum (map (fun s => size (data s)) ss)) ∧
  (0 < limit → count ≤ limit → c ≤ limit).
Proof.
  revert count. induction ss as [|s ss IH]; intros count; cbn [reap_shards]; [done|].
  pose proof (reap_shard_reaped (length (expiries s)) now limit count s) as Hone.
  destruct (reap_shard _ now limit count s) as [c s']. destruct Hone as (H1 & H2 & H3).
  destruct (_ && _) eqn:E.
  - split; [|split; [cbn; unfold list_sum in *; cbn; lia|done]]. constructor; [done|].
    clear. induction ss; constructor; [apply reaped_refl|done].
  - specialize (IH c). destruct (reap_shards now limit c ss) as [c' ss']. destruct IH as (H4 & H5 & H6).
    split; [by constructor|]. split; [unfold list_sum in *; cbn; lia|]. auto.
Qed.

(** The version of [shrink_wf] for shards that lost some entries each. *)
Lemma reaped_store now kv ss :
  kv_wf kv → Forall2 (λ s s', reaped now (data s) (data s')) (shards kv) ss →
  let kv' := {| shards := ss; numShards := numShards kv; version := version kv |} in
  kv_wf kv' ∧ reaped now (view kv) (view kv').
Proof.
  intros Hwf Hr. cbv zeta. set (kv' := {| shards := ss |}).
  assert (Hwf' : kv_wf kv').
  { destruct Hwf as (Hn & Hl & Hp). split; [done|]. unfold zlen in *. cbn.
    rewrite <- (Forall2_length _ _ _ Hr). split; [done|]. intros i s' key Hi [e He].
    destruct (Forall2_lookup_r _ _ _ _ _ Hr Hi) as (s & Hs & Hsub & _).
    eapply (Hp i s); [done|]. exists e. by eapply lookup_weaken. }
  assert (Hat : ∀ k, reaped now (data (getShard kv k)) (data (getShard kv' k))).
  { intros k. pose proof (shardAt_lt kv k Hwf) as Hlt. apply list_lookup_lookup_total_lt in Hlt.
    destruct (Forall2_lookup_l _ _ _ _ _ Hr Hlt) as (s' & Hs' & Hx). unfold getShard.
    change (shards kv') with ss. change (shardAt kv' k) with (shardAt kv k).
    by rewrite (list_lookup_total_correct ss _ _ Hs'). }
  split; [done|]. split.
  - apply map_subseteq_spec. intros k e. rewrite !view_lookup by done. intros He.
    eapply lookup_weaken; [done|]. apply Hat.
  - intros k e. rewrite !view_lookup by done. apply Hat.
Qed.

Lemma reap_spec now limit kv :
  kv_wf kv → let '(n, kv') := DeleteExpiredLimit now limit kv in
  kv_wf kv' ∧ version kv' = version kv ∧ spec_reap now limit (view kv) (view kv') n.
Proof.
  intros Hwf. unfold DeleteExpiredLimit. pose proof (reap_shards_reaped now limit 0 (shards kv)) as Hs.
  destruct (reap_shards now limit 0 (shards kv)) as [n ss]. destruct Hs as (H1 & H2 & H3).
  destruct (reaped_store now kv ss Hwf H1) as (Hwf' & Hsub & Hexp). split; [done|]. split; [done|].
  set (kv' := {| shards := ss |}) in *. change ss with (shards kv') in H2.
  rewrite !sum_sizes in H2 by done. unfold spec_reap. conjs; [done|lia|done|]. intros Hl. apply H3; lia.
Qed.

(** ** Refinement *)


