(* ===== verification/StringStore.v ===== *)
(** * String values (src/internal/engine/string.go)

    The operations of [StringStore], written against the entry-store interface,
    and the parser of the SET options. A handler returns its result and the
    store after it; the clock readings it makes are arguments. *)

From S2P Require Import Prelude GoStd Types ExpiryHeap KV.

Section StringStore.
Context {S : Type} `{EntryStoreLaws S}.

(** ** Operations *)
Definition Get (now : Z) (key : string) (s : S) : res error slice :=
  match es_read now key s with
  | None => Ok None
  | Some e =>
      if negb (bool_decide (EType e = TypeString)) then Err ErrWrongType
      else match Value e with VBytes b => Ok b | _ => Panic end
  end.

Definition exists_ (now : Z) (key : string) (s : S) : bool :=
  match es_read now key s with Some _ => true | None => false end.

(** [Set]: the readings of the NX test, of the XX test and of the write. *)
Definition Set_ (now1 now2 now3 : Z) (key : string) (v : slice) (ttlSeconds : Z) (nx xx : bool)
    (s : S) : bool * S :=
  if nx && exists_ now1 key s then (false, s)
  else if xx && negb (exists_ now2 key s) then (false, s)
  else (true, es_set now3 key (VBytes v) TypeString (i64 (ttlSeconds * 1000000000)) s).

Definition GetSet (now1 now2 : Z) (key : string) (v : slice) (s : S) : res error slice * S :=
  match Get now1 key s with
  | Ok old => (Ok old, es_set now2 key (VBytes v) TypeString 0 s)
  | r => (r, s)
  end.

(** The entry [Incr] leaves: a new value and a new version, the rest kept. *)
Definition bump (e : Entry) (v : value) (ver : Z) : Entry :=
  {| Value := v; EType := EType e; ExpiresAt := ExpiresAt e; Version := ver;
     CreatedAt := CreatedAt e; UpdatedAt := UpdatedAt e |}.

Definition Incr (now : Z) (key : string) (by_ : Z) (s : S) : res error Z * S :=
  let '(o, s) := es_write now key s in
  match o with
  | Some e =>
      if negb (bool_decide (EType e = TypeString)) then (Err ErrWrongType, s)
      else
        match Value e with
        | VBytes b =>
            match ParseInt_ok (to_str b) with
            | None => (Err ErrOutOfRange, s)
            | Some v =>
                let n := i64 (v + by_) in
                let '(ver, s) := es_nextVersion s in
                (Ok n, es_put key (bump e (VBytes (to_slice (FormatInt n))) ver) s)
            end
        | _ => (Panic, s)
        end
  | None =>
      let '(ver, s) := es_nextVersion s in
      (Ok by_, es_put key {| Value := VBytes (to_slice (FormatInt by_)); EType := TypeString;
                             ExpiresAt := 0; Version := ver; CreatedAt := 0; UpdatedAt := 0 |} s)
  end.

Definition Append (now : Z) (key : string) (v : slice) (s : S) : res error Z * S :=
  let '(o, s) := es_write now key s in
  match o with
  | Some e =>
      if negb (bool_decide (EType e = TypeString)) then (Err ErrWrongType, s)
      else
        match Value e with
        | VBytes existing =>
            let newVal := sappend existing (contents v) in
            (Ok (slen newVal), es_put key (setValue (VBytes newVal) e) s)
        | _ => (Panic, s)
        end
  | None => (Ok (slen v), es_put key (mkEntry (VBytes v) TypeString) s)
  end.

Definition Strlen (now : Z) (key : string) (s : S) : res error Z :=
  let? v := Get now key s in Ok (slen v).

Definition GetRange (now : Z) (key : string) (start end_ : Z) (s : S) : res error slice :=
  let? v := Get now key s in
  match v with
  | None => Ok (Some [])
  | Some l =>
      let '(start, end_) := clamp_range (zlen l) start end_ in
      if end_ <? start then Ok (Some []) else Ok (Some (sub l start (end_ + 1)))
  end.

(** [extended := make([]byte, end); copy(extended, current)] when needed. *)
Definition extend (current : slice) (end_ : Z) : slice :=
  if slen current <? end_
  then Some (contents current ++ replicate (Z.to_nat (end_ - slen current)) Byte.x00)
  else current.

(** [copy(current[offset:], value)] for an offset inside [current]. *)
Definition overwrite (current : slice) (offset : Z) (v : list byte) : slice :=
  match current with
  | None => None
  | Some l =>
      let off := Z.to_nat offset in
      Some (take off l ++ take (length l - off) v ++ drop (off + length v) l)
  end.

Definition SetRange (now : Z) (key : string) (offset : Z) (v : slice) (s : S) : res error Z * S :=
  let '(o, s) := es_write now key s in
  let cur : res error slice :=
    match o with
    | Some e =>
        if negb (bool_decide (EType e = TypeString)) then Err ErrWrongType
        else match Value e with VBytes b => Ok b | _ => Panic end
    | None => Ok None
    end in
  match cur with
  | Err e => (Err e, s)
  | Panic => (Panic, s)
  | Ok current =>
      let current := extend current (i64 (offset + slen v)) in
      if (offset <? 0) || (slen current <? offset) then (Panic, s)
      else
        let current := overwrite current offset (contents v) in
        match o with
        | Some e => (Ok (slen current), es_put key (setValue (VBytes current) e) s)
        | None => (Ok (slen current), es_put key (mkEntry (VBytes current) TypeString) s)
        end
  end.

Definition MGet (now : Z) (keys : list string) (s : S) : list slice :=
  map (fun key => match Get now key s with Ok v => v | _ => None end) keys.

(** [MSet] ranges over a map of pairs; the order of the list is the order of
    that iteration. *)
Definition MSet (now : Z) (pairs : list (string * slice)) (s : S) : S :=
  foldl (fun s '(k, v) => es_set now k (VBytes v) TypeString 0 s) s pairs.

End StringStore.

(** ** SET options *)
Record SetArgs := { sa_value : slice; sa_ttlSec : Z; sa_nx : bool; sa_xx : bool }.

Fixpoint parse_set_opts (args : list slice) (a : SetArgs) : res error SetArgs :=
  match args with
  | [] => Ok a
  | x :: rest =>
      let o := ToUpper (to_str x) in
      if bool_decide (o = "EX"%string) then
        match rest with
        | [] => Err ErrSyntax
        | y :: rest' =>
            match ParseInt_ok (to_str y) with
            | Some n =>
                if n <=? 0 then Err ErrOutOfRange
                else parse_set_opts rest' {| sa_value := sa_value a; sa_ttlSec := n;
                                             sa_nx := sa_nx a; sa_xx := sa_xx a |}
            | None => Err ErrOutOfRange
            end
        end
      else if bool_decide (o = "PX"%string) then
        match rest with
        | [] => Err ErrSyntax
        | y :: rest' =>
            match ParseInt_ok (to_str y) with
            | Some n =>
                if n <=? 0 then Err ErrOutOfRange
                else parse_set_opts rest' {| sa_value := sa_value a; sa_ttlSec := Z.quot n 1000;
                                             sa_nx := sa_nx a; sa_xx := sa_xx a |}
            | None => Err ErrOutOfRange
            end
        end
      else if bool_decide (o = "NX"%string) then
        parse_set_opts rest {| sa_value := sa_value a; sa_ttlSec := sa_ttlSec a;
                               sa_nx := true; sa_xx := sa_xx a |}
      else if bool_decide (o = "XX"%string) then
        parse_set_opts rest {| sa_value := sa_value a; sa_ttlSec := sa_ttlSec a;
                               sa_nx := sa_nx a; sa_xx := true |}
      else Err ErrSyntax
  end.

Definition ParseSetArgs (args : list slice) : res error SetArgs :=
  match args with
  | [] => Err (Errorf "missing value")
  | v :: opts => parse_set_opts opts {| sa_value := v; sa_ttlSec := 0; sa_nx := false; sa_xx := false |}
  end.

(** ** Correctness *)
Section StringStoreFacts.
Context {S : Type} `{EntryStoreLaws S}.

Lemma Get_after_put now key e (s : S) b :
  es_wf s → EType e = TypeString → Value e = VBytes b → IsExpired now e = false →
  Get now key (es_put key e s) = Ok b.
Proof.
  intros Hwf Ht Hv Hx. unfold Get.
  rewrite es_read_spec, es_put_view, lookup_insert_eq by eauto with dbx.
  cbn. by rewrite Hx, bool_decide_eq_true_2, Hv.
Qed.

(** What [Incr] answers, from the visible entry of the key. *)
Definition incr_result (o : option Entry) (by_ : Z) : res error Z :=
  match o with
  | None => Ok by_
  | Some e =>
      if negb (bool_decide (EType e = TypeString)) then Err ErrWrongType
      else match Value e with
           | VBytes b =>
               match ParseInt_ok (to_str b) with
               | Some v => Ok (i64 (v + by_))
               | None => Err ErrOutOfRange
               end
           | _ => Panic
           end
  end.

Lemma ParseInt_ok_Format n : in_i64 n → ParseInt_ok (to_str (to_slice (FormatInt n))) = Some n.
Proof.
  intros Hn. unfold ParseInt_ok. change (to_str (to_slice ?x)) with (str_of (bytes_of x)).
  by rewrite str_of_bytes_of, ParseInt_FormatInt.
Qed.

(** INCR answers from the visible entry of the key (a missing
    or expired one counts as zero, the sum wraps at 64 bits, a wrong type or a
    value that is not a 64-bit integer is an error); after a success the key
    reads back as that integer, and no other key changes. *)
Theorem Incr_correct now key by_ (s : S) :
  es_wf s → in_i64 by_ →
  let '(r, s') := Incr now key by_ s in
  r = incr_result (live now (es_view s !! key)) by_ ∧ es_wf s' ∧
  (∀ k, k ≠ key → es_view s' !! k = es_view s !! k) ∧
  (∀ n, r = Ok n → ∃ b, Get now key s' = Ok b ∧ ParseInt_ok (to_str b) = Some n).
Proof.
  intros Hwf Hby. unfold Incr. destruct (es_write_eq now key s Hwf) as (s1 & -> & Hwf1 & Hv1).
  destruct (es_nextVersion_eq s1 Hwf1) as (s2 & Hver & Hwf2 & Hv2).
  destruct (live now (es_view s !! key)) as [e|] eqn:El; cbn [incr_result].
  - assert (Hs1 : es_view s1 = es_view s) by (rewrite Hv1; by eapply live_alter_live).
    apply live_Some in El as [_ Hx].
    destruct (negb _) eqn:Et; [by rewrite Hs1|]. bool_to_prop.
    destruct (Value e) as [|b| | | | | |] eqn:Eb; try by rewrite Hs1.
    destruct (ParseInt_ok (to_str b)) as [v|] eqn:Ep; [|by rewrite Hs1].
    rewrite Hver. split; [done|]. split; [by auto with dbx|]. split.
    + intros k Hk. by rewrite es_put_view, lookup_insert_ne, Hv2, Hs1 by done.
    + intros n [= <-]. eexists. split; [by apply Get_after_put|]. apply ParseInt_ok_Format, i64_in.
  - rewrite Hver. split; [done|]. split; [by auto with dbx|]. split.
    + intros k Hk. by rewrite es_put_view, lookup_insert_ne, Hv2, Hv1, live_alter_ne by done.
    + intros n [= <-]. eexists. split; [by apply Get_after_put|]. by apply ParseInt_ok_Format.
Qed.

(** GETRANGE returns the bytes whose positions lie between
    the two indices (negative ones counted from the end), in order. *)
Theorem GetRange_correct now key start end_ (s : S) l :
  Get now key s = Ok (Some l) →
  ∃ r, GetRange now key start end_ s = Ok (Some r) ∧ range_spec l start end_ r.
Proof.
  intros Hg. unfold GetRange. rewrite Hg. cbn [rbind].
  destruct (clamp_range (zlen l) start end_) as [a b] eqn:E.
  pose proof (clamp_range_sub l start end_ a b E) as Hr.
  destruct (b <? a); eexists; by split.
Qed.

(** ** SETRANGE *)

(** Byte [i] after [value] is written at [offset] over [old]; the gap between
    the old end and the offset reads as zero. *)
Definition byte_after (old v : list byte) (offset i : nat) : option byte :=
  if decide (offset ≤ i < offset + length v)%nat then v !! (i - offset)%nat
  else if decide (i < length old)%nat then old !! i
  else if decide (i < offset)%nat then Some Byte.x00
  else None.

Lemma slen_extend cur end_ : slen (extend cur end_) = Z.max (slen cur) end_.
Proof.
  unfold extend. destruct (_ <? _) eqn:E; bool_to_prop; [|lia].
  unfold slen at 1. cbn [contents from_option id]. rewrite length_app, length_replicate.
  unfold slen in *. lia.
Qed.

Lemma extend_lookup cur end_ i :
  contents (extend cur end_) !! i
  = if decide (i < length (contents cur))%nat then contents cur !! i
    else if decide (Z.of_nat i < end_) then Some Byte.x00 else None.
Proof.
  unfold extend, slen. destruct (_ <? _) eqn:E; bool_to_prop; cbn [contents from_option id];
    destruct (decide (i < _)%nat); try by rewrite ?lookup_app_l.
  - rewrite lookup_app_r by lia. case_decide.
    + apply lookup_replicate_2. lia.
    + apply lookup_replicate_None. lia.
  - rewrite decide_False by lia. apply lookup_ge_None. lia.
Qed.

Lemma overwrite_contents cur offset v :
  (Z.to_nat offset + length v ≤ length (contents cur))%nat →
  contents (overwrite cur offset v)
  = take (Z.to_nat offset) (contents cur) ++ v ++ drop (Z.to_nat offset + length v) (contents cur).
Proof.
  destruct cur as [l|]; cbn [overwrite contents from_option id]; intros Hl.
  - by rewrite (take_ge v) by lia.
  - cbn in Hl. assert (v = []) as -> by (apply nil_length_inv; lia).
    cbn. by rewrite take_nil, drop_nil.
Qed.

Lemma slen_overwrite cur offset v :
  (Z.to_nat offset + length v ≤ length (contents cur))%nat → slen (overwrite cur offset v) = slen cur.
Proof.
  intros Hl. unfold slen. rewrite overwrite_contents by done.
  rewrite !length_app, length_take, length_drop. lia.
Qed.

Lemma overwrite_lookup cur v offset i :
  (Z.to_nat offset + length v ≤ length (contents cur))%nat →
  contents (overwrite cur offset v) !! i
  = if decide (Z.to_nat offset ≤ i < Z.to_nat offset + length v)%nat
    then v !! (i - Z.to_nat offset)%nat else contents cur !! i.
Proof.
  intros Hl. rewrite overwrite_contents by done. set (off := Z.to_nat offset) in *.
  assert (Ht : length (take off (contents cur)) = off) by (rewrite length_take; lia).
  destruct (decide (i < off)%nat).
  { rewrite lookup_app_l, lookup_take_lt, decide_False by lia. done. }
  rewrite lookup_app_r by lia. rewrite Ht. destruct (decide (i < off + length v)%nat).
  - rewrite lookup_app_l, decide_True by lia. done.
  - rewrite lookup_app_r, lookup_drop, decide_False by lia. f_equal. lia.
Qed.

(** The buffer SETRANGE installs, byte by byte. *)
Lemma setrange_buffer old offset v :
  0 ≤ offset →
  let new := overwrite (extend old (offset + slen v)) offset (contents v) in
  slen new = Z.max (slen old) (offset + slen v) ∧
  ∀ i, contents new !! i = byte_after (contents old) (contents v) (Z.to_nat offset) i.
Proof.
  intros Hoff. pose proof (slen_extend old (offset + slen v)) as He.
  assert (Hfit : (Z.to_nat offset + length (contents v)
      ≤ length (contents (extend old (offset + slen v))))%nat) by (unfold slen in *; lia).
  split; [by rewrite slen_overwrite|]. intros i.
  rewrite overwrite_lookup, extend_lookup by done. unfold byte_after, slen.
  repeat case_decide; done || lia.
Qed.

(** SETRANGE with a non-negative offset on a string or
    missing key writes the value at the offset, keeps every other byte,
    zero-fills the gap, and returns the new length, which is what is stored. *)
Theorem SetRange_correct now key offset v (s : S) old :
  es_wf s → 0 ≤ offset → offset + slen v ≤ MaxInt64 →
  Get now key s = Ok old →
  ∃ new s', SetRange now key offset v s = (Ok (slen new), s') ∧
    Get now key s' = Ok new ∧ (∀ k, k ≠ key → es_view s' !! k = es_view s !! k) ∧
    slen new = Z.max (slen old) (offset + slen v) ∧
    (∀ i, contents new !! i = byte_after (contents old) (contents v) (Z.to_nat offset) i).
Proof.
  intros Hwf Hoff Hmax Hget. unfold SetRange.
  destruct (es_write_eq now key s Hwf) as (s1 & -> & Hwf1 & Hv1).
  unfold Get in Hget. rewrite es_read_spec in Hget by done.
  assert (i64 (offset + slen v) = offset + slen v) as ->.
  { apply i64_id. unfold in_i64, MinInt64, slen in *. lia. }
  pose proof (setrange_buffer old offset v Hoff) as Hbuf. cbv zeta in Hbuf.
  assert (Hpanic : (offset <? 0) || (slen (extend old (offset + slen v)) <? offset) = false).
  { rewrite slen_extend. apply orb_false_iff. unfold slen. split; apply Z.ltb_ge; lia. }
  set (new := overwrite _ _ _) in Hbuf. exists new.
  assert (Hfin : ∀ e, EType e = TypeString → Value e = VBytes new → IsExpired now e = false →
    Get now key (es_put key e s1) = Ok new ∧
    (∀ k, k ≠ key → es_view (es_put key e s1) !! k = es_view s !! k)).
  { intros e H1 H2 H3. split; [by apply Get_after_put|]. intros k Hk.
    by rewrite es_put_view, lookup_insert_ne, Hv1, live_alter_ne by done. }
  destruct (live now (es_view s !! key)) as [e|] eqn:El.
  - apply live_Some in El as [_ Hx]. destruct (negb _) eqn:Et; [done|].
    apply negb_false_iff, bool_decide_eq_true in Et.
    destruct (Value e) as [|b| | | | | |] eqn:Eb; try done. injection Hget as ->.
    rewrite Hpanic. fold new. eexists. split; [done|].
    destruct (Hfin (setValue (VBytes new) e)) as [? ?]; done.
  - injection Hget as <-. rewrite Hpanic. fold new. eexists. split; [done|].
    destruct (Hfin (mkEntry (VBytes new) TypeString)) as [? ?]; done.
Qed.

(** ** SET *)

(** An unconditional SET stores the value so that GET returns it at
    any later instant before the deadline (always, when no TTL is given, or the
    TTL in nanoseconds wraps to a non-positive number), and other keys keep
    their entries. *)
Theorem Set_Get now1 now2 now3 now key v ttl (s : S) :
  es_wf s →
  let '(ok, s') := Set_ now1 now2 now3 key v ttl false false s in
  ok = true ∧ es_wf s' ∧ (∀ k, k ≠ key → es_view s' !! k = es_view s !! k) ∧
  (i64 (ttl * 1000000000) ≤ 0 ∨ 0 < i64 (now3 + i64 (ttl * 1000000000)) ∧
                                now ≤ i64 (now3 + i64 (ttl * 1000000000)) →
   Get now key s' = Ok v).
Proof.
  intros Hwf. unfold Set_. cbn [andb]. split; [done|]. split; [by auto with dbx|]. split.
  - intros k Hk. by rewrite es_set_view, lookup_insert_ne by done.
  - intros Hexp. unfold Get. rewrite es_read_spec by auto with dbx.
    rewrite es_set_view, lookup_insert_eq by done. cbn [live].
    assert (IsExpired now (set_entry (es_view s !! key) now3 (VBytes v) TypeString
      (i64 (ttl * 1000000000)) (es_nextVersion s).1) = false) as ->; [|done].
    unfold IsExpired, set_entry. cbn [ExpiresAt]. destruct (_ >? 0) eqn:E; bool_to_prop.
    + destruct Hexp as [|[? ?]]; [lia|]. destruct (_ =? 0); [done|].
      rewrite Z.gtb_ltb. by apply Z.ltb_ge.
    + done.
Qed.

End StringStoreFacts.

(** ** Sub-second TTLs and the reaper *)

Lemma parse_px v n :
  0 < n ≤ MaxInt64 →
  ParseSetArgs [v; to_slice "PX"; to_slice (FormatInt n)]
  = Ok {| sa_value := v; sa_ttlSec := Z.quot n 1000; sa_nx := false; sa_xx := false |}.
Proof.
  intros Hn. unfold ParseSetArgs. cbn [parse_set_opts].
  change (ToUpper (to_str (to_slice "PX"))) with "PX"%string.
  rewrite bool_decide_eq_false_2, bool_decide_eq_true_2 by done.
  rewrite ParseInt_ok_Format by (unfold in_i64, MinInt64; lia).
  by replace (n <=? 0) with false by lia.
Qed.

(** SET with PX and fewer than a thousand
    milliseconds is accepted and stores the key with no deadline at all. *)
Theorem px_subsecond_never_expires now key v n kv :
  0 < n < 1000 → kv_wf kv →
  ∃ a e, ParseSetArgs [v; to_slice "PX"; to_slice (FormatInt n)] = Ok a ∧
    view (snd (Set_ now now now key (sa_value a) (sa_ttlSec a) (sa_nx a) (sa_xx a) kv)) !! key
    = Some e ∧ Value e = VBytes v ∧ ExpiresAt e = 0.
Proof.
  intros Hn Hwf. eexists. eexists. split; [apply parse_px; unfold MaxInt64; lia|].
  cbn [sa_value sa_ttlSec sa_nx sa_xx]. rewrite Z.quot_small by lia.
  unfold Set_. cbn [andb snd]. change (i64 (0 * 1000000000)) with 0.
  change (view ?x) with (es_view x). rewrite es_set_view by done.
  rewrite lookup_insert_eq. done.
Qed.

Lemma px_subsecond_never_expires_witness :
  ∃ a e, ParseSetArgs [Some []; to_slice "PX"; to_slice (FormatInt 500)] = Ok a ∧
    view (snd (Set_ 7 7 7 "k" (sa_value a) (sa_ttlSec a) (sa_nx a) (sa_xx a) (New 2))) !! "k"%string
    = Some e ∧ Value e = VBytes (Some []) ∧ ExpiresAt e = 0.
Proof. apply (px_subsecond_never_expires 7 "k" (Some []) 500 (New 2)); [lia|apply New_wf]. Defined.

Definition kv_ttl : KVStore := snd (Set_ 5 5 5 "n" (to_slice "1") 1 false false (New 2)).

(** INCR gives the entry a new version without pushing a
    heap item for it, so the reaper, which finds the entry without the INCR,
    passes it over: the expired entry stays in the shard. *)
Theorem incr_escapes_reaper :
  let later := 5 + 2 * second in
  let kv' := snd (Incr 6 "n" 1 kv_ttl) in
  fst (DeleteExpired later kv_ttl) = 1 ∧
  fst (DeleteExpired later kv') = 0 ∧
  (∃ e, data (getShard (snd (DeleteExpired later kv')) "n") !! "n"%string = Some e ∧
        IsExpired later e = true).
Proof.
  split; [vm_compute; reflexivity|]. split; [vm_compute; reflexivity|].
  eexists. split; vm_compute; reflexivity.
Qed.

(** ** Witnesses *)
Lemma Incr_correct_witness :
  let '(r, s') := Incr 6 "n" 41 kv_ttl in
  r = Ok 42 ∧ kv_wf s' ∧ (∀ k, k ≠ "n"%string → view s' !! k = view kv_ttl !! k) ∧
  (∀ n, r = Ok n → ∃ b, Get 6 "n" s' = Ok b ∧ ParseInt_ok (to_str b) = Some n).
Proof.
  pose proof (Incr_correct (S := KVStore) 6 "n" 41 kv_ttl (proj1 (Set_spec _ _ _ _ _ _ (New_wf 2)))
    (proj1 (in_i64b_spec 41) eq_refl)) as H.
  destruct (Incr 6 "n" 41 kv_ttl) as [r s']. destruct H as (-> & H2 & H3 & H4).
  split; [vm_compute; reflexivity|]. split; [exact H2|]. split; [exact H3|exact H4].
Defined.

Lemma GetRange_correct_witness :
  ∃ r, GetRange 6 "k" (-3) (-1) (snd (Set_ 5 5 5 "k" (to_slice "hello") 0 false false (New 2)))
       = Ok (Some r) ∧ range_spec (bytes_of "hello") (-3) (-1) r.
Proof. apply (GetRange_correct (S := KVStore)). vm_compute. reflexivity. Defined.

Lemma SetRange_correct_witness :
  let s := snd (Set_ 5 5 5 "k" (to_slice "abc") 0 false false (New 2)) in
  ∃ new s', SetRange 6 "k" 5 (to_slice "z") s = (Ok (slen new), s') ∧
    Get 6 "k" s' = Ok new ∧ slen new = 6 ∧
    contents new !! 4%nat = Some Byte.x00 ∧ contents new !! 5%nat = Some Byte.x7a.
Proof.
  cbv zeta. set (s := snd _).
  destruct (SetRange_correct (S := KVStore) 6 "k" 5 (to_slice "z") s (to_slice "abc"))
    as (new & s' & H1 & H2 & _ & H4 & H5).
  - apply Set_spec, New_wf.
  - lia.
  - vm_compute. discriminate.
  - vm_compute. reflexivity.
  - exists new, s'. split; [exact H1|]. split; [exact H2|]. split; [rewrite H4; reflexivity|].
    split; rewrite H5; vm_compute; reflexivity.
Defined.

Lemma Set_Get_witness :
  let '(ok, s') := Set_ 5 5 5 "k" (to_slice "v") 60 false false (New 2) in
  ok = true ∧ kv_wf s' ∧ Get 6 "k" s' = Ok (to_slice "v").
Proof.
  pose proof (Set_Get (S := KVStore) 5 5 5 6 "k" (to_slice "v") 60 (New 2) (New_wf 2)) as H.
  destruct (Set_ _ _ _ _ _ _ _ _ _) as [ok s']. destruct H as (H1 & H2 & _ & H4).
  split; [done|]. split; [done|]. apply H4. right. split; vm_compute; [reflexivity|discriminate].
Defined.
