(* ===== verification/TypedStore.v ===== *)
(** * The access pattern of the typed stores

    Every typed store of the engine reads with [getReadOnly] and updates with
    [getOrCreate] followed by writes to the payload it returns (a Go map or a
    pointer, so the writes are visible in the store). The two functions are the
    same in each file up to the payload; they are defined here once, with the
    facts about reading, updating and framing the stores share. *)

From S2P Require Import Prelude Types KV.

(** A payload: its tag, how it sits in [Entry.Value], and the empty one. *)
Class Payload (A : Type) := {
  p_type : DataType;
  p_inj : A → value;
  p_proj : value → option A;
  p_empty : A;
  p_proj_inj a : p_proj (p_inj a) = Some a
}.

#[export] Instance Payload_hash : Payload (gmap string slice) := {
  p_type := TypeHash; p_inj := VHash; p_empty := ∅;
  p_proj v := match v with VHash m => Some m | _ => None end; p_proj_inj _ := eq_refl
}.
#[export] Instance Payload_list : Payload (list slice) := {
  p_type := TypeList; p_inj := VList; p_empty := [];
  p_proj v := match v with VList l => Some l | _ => None end; p_proj_inj _ := eq_refl
}.
#[export] Instance Payload_set : Payload (gset string) := {
  p_type := TypeSet; p_inj := VSet; p_empty := ∅;
  p_proj v := match v with VSet s => Some s | _ => None end; p_proj_inj _ := eq_refl
}.
#[export] Instance Payload_zset : Payload dbxZSet := {
  p_type := TypeZSet; p_inj := VZSet; p_empty := {| scores := ∅; sorted := [] |};
  p_proj v := match v with VZSet z => Some z | _ => None end; p_proj_inj _ := eq_refl
}.
#[export] Instance Payload_stream : Payload dbxStream := {
  p_type := TypeStream; p_inj := VStream;
  p_empty := {| entries := []; lastID := ""; groups := ∅ |};
  p_proj v := match v with VStream s => Some s | _ => None end; p_proj_inj _ := eq_refl
}.

Section TypedStore.
Context {S A : Type} `{EntryStoreLaws S} `{Payload A}.

(** [getOrCreate]: the payload to write to, with the entry that holds it. *)
Definition getOrCreate (now : Z) (key : string) (s : S) : res error (A * Entry) * S :=
  let '(o, s) := es_write now key s in
  match o with
  | None =>
      let e := mkEntry (p_inj p_empty) p_type in
      (Ok (p_empty, e), es_put key e s)
  | Some e =>
      if negb (bool_decide (EType e = p_type)) then (Err ErrWrongType, s)
      else match p_proj (Value e) with
           | Some m => (Ok (m, e), s)
           | None => (Panic, s)
           end
  end.

Definition getReadOnly (now : Z) (key : string) (s : S) : res error (option A) :=
  match es_read now key s with
  | None => Ok None
  | Some e =>
      if negb (bool_decide (EType e = p_type)) then Err ErrWrongType
      else match p_proj (Value e) with Some m => Ok (Some m) | None => Panic end
  end.

(** A handler that gets or creates the payload, computes a result and writes
    the payload back in place. *)
Definition modify {B} (now : Z) (key : string) (f : A → res error B * A) (s : S) : res error B * S :=
  let '(r, s) := getOrCreate now key s in
  match r with
  | Ok (m, e) => let '(b, m') := f m in (b, es_put key (setValue (p_inj m') e) s)
  | Err e => (Err e, s)
  | Panic => (Panic, s)
  end.

(** What the visible entry of a key holds, as this store sees it. *)
Definition payload_of (o : option Entry) : res error (option A) :=
  match o with
  | None => Ok None
  | Some e =>
      if negb (bool_decide (EType e = p_type)) then Err ErrWrongType
      else match p_proj (Value e) with Some m => Ok (Some m) | None => Panic end
  end.

Definition payload_at (now : Z) (key : string) (s : S) : res error (option A) :=
  payload_of (live now (es_view s !! key)).

Lemma getReadOnly_spec now key s : es_wf s → getReadOnly now key s = payload_at now key s.
Proof. intros Hwf. unfold getReadOnly, payload_at. by rewrite es_read_spec. Qed.

Lemma payload_put now key m e s :
  es_wf s → EType e = p_type → IsExpired now e = false →
  payload_at now key (es_put key (setValue (p_inj m) e) s) = Ok (Some m).
Proof.
  intros Hwf Ht Hx. unfold payload_at. rewrite es_put_view, lookup_insert_eq by done.
  cbn [live]. rewrite IsExpired_setValue, Hx. cbn [payload_of].
  cbn [setValue EType Value]. by rewrite Ht, bool_decide_eq_true_2, p_proj_inj.
Qed.

(** What an update of the payload at [key] does: [f] gives the answer and the
    new payload from the visible one, a missing key counting as the empty
    payload; the other keys are kept, and a key of another type is left alone. *)
Definition updates {B} (now : Z) (key : string) (f : A → res error B * A) (s : S)
    (out : res error B * S) : Prop :=
  es_wf (snd out) ∧
  (∀ k, k ≠ key → es_view (snd out) !! k = es_view s !! k) ∧
  match payload_at now key s with
  | Ok o => fst out = fst (f (default p_empty o)) ∧
            payload_at now key (snd out) = Ok (Some (snd (f (default p_empty o))))
  | Err e => fst out = Err e ∧ es_view (snd out) = es_view s
  | Panic => fst out = Panic ∧ es_view (snd out) = es_view s
  end.

(** What a read of the payload at [key] returns. *)
Definition reads {B} (now : Z) (key : string) (f : A → B) (s : S) (r : res error B) : Prop :=
  r = (let? o := payload_at now key s in Ok (f (default p_empty o))).

(** The same up to a relation on the answers, for answers that show the order of
    a loop over a map. *)
Definition reads_up_to {B} (R : relation B) (now : Z) (key : string) (f : A → B) (s : S) (r : res error B) : Prop :=
  match (let? o := payload_at now key s in Ok (f (default p_empty o))) with
  | Ok b => ∃ b', r = Ok b' ∧ R b' b
  | r' => r = r'
  end.

Lemma modify_updates {B} now key (f : A → res error B * A) s :
  es_wf s → updates now key f s (modify now key f s).
Proof.
  intros Hwf. unfold updates, modify, getOrCreate, payload_at at 1.
  destruct (es_write_eq now key s Hwf) as (s1 & -> & Hwf1 & Hv1).
  destruct (live now (es_view s !! key)) as [e|] eqn:El; cbn [payload_of].
  - assert (Hs1 : es_view s1 = es_view s) by (rewrite Hv1; by eapply live_alter_live).
    apply live_Some in El as [_ Hx].
    destruct (negb _) eqn:Et; [by cbn [fst snd]; rewrite Hs1|].
    apply negb_false_iff, bool_decide_eq_true in Et.
    destruct (p_proj (Value e)) as [m|]; [|by cbn [fst snd]; rewrite Hs1].
    cbn [default from_option id]. destruct (f m) as [b m']. cbn [fst snd].
    split; [by auto with dbx|]. split; [|by rewrite payload_put].
    intros k Hk. by rewrite es_put_view, lookup_insert_ne, Hs1 by done.
  - cbn [default from_option id]. destruct (f p_empty) as [b m']. cbn [fst snd].
    assert (Hwf2 : es_wf (es_put key (mkEntry (p_inj p_empty) p_type) s1)) by auto with dbx.
    split; [by auto with dbx|]. split; [|by rewrite payload_put].
    intros k Hk. rewrite !es_put_view, !lookup_insert_ne, Hv1, live_alter_ne by done. done.
Qed.

Lemma modify_wf {B} now key (f : A → res error B * A) s :
  es_wf s → es_wf (snd (modify now key f s)).
Proof. intros Hwf. by destruct (modify_updates now key f s Hwf) as [? _]. Qed.

(** Handlers that agree on every payload update alike. *)
Lemma modify_as {B} now key (f g : A → res error B * A) s :
  es_wf s → (∀ m, f m = g m) → updates now key g s (modify now key f s).
Proof.
  intros Hwf Hfg. pose proof (modify_updates now key f s Hwf) as Hu. unfold updates in *.
  destruct (payload_at now key s) as [o| |]; [|done..]. by rewrite <- !Hfg.
Qed.

Lemma read_as {B} now key (f : A → B) s r :
  es_wf s → r = (let? o := getReadOnly now key s in Ok (f (default p_empty o))) →
  reads now key f s r.
Proof. intros Hwf ->. unfold reads. by rewrite getReadOnly_spec. Qed.

(** Frame for the other direction: an update of another key is not seen. *)
Lemma payload_frame now key s s' :
  es_view s' !! key = es_view s !! key → payload_at now key s' = payload_at now key s.
Proof. intros Hk. unfold payload_at. by rewrite Hk. Qed.

(** An update handler on a missing key makes the key exist. *)
Lemma modify_creates {B} now key (f : A → res error B * A) s :
  es_wf s → live now (es_view s !! key) = None →
  is_Some (live now (es_view (snd (modify now key f s)) !! key)).
Proof.
  intros Hwf Hnone. unfold modify, getOrCreate.
  destruct (es_write_eq now key s Hwf) as (s1 & -> & Hwf1 & Hv1). rewrite Hnone.
  destruct (f p_empty) as [b m']. cbn [snd].
  rewrite es_put_view, lookup_insert_eq by auto with dbx. by eexists.
Qed.

End TypedStore.
