(* ===== verification/HashStore.v ===== *)
(** * The hash store ([engine/hash.go])

    A hash is a Go map from fields to byte slices. The operations that loop over
    a map take the order of the loop, which Go picks anew each time, as an
    argument. *)

From S2P Require Import Prelude GoStd Types KV TypedStore.

Abbreviation hashMap := (gmap string slice).

(** The loop of [HSet]: fields that were absent are counted. *)
Definition hset_loop (pairs : list (string * slice)) (m : hashMap) : Z * hashMap :=
  foldl (fun '(added, m) '(f, v) =>
    ((if m !! f is Some _ then added else added + 1), <[f := v]> m)) (0, m) pairs.

(** The loop of [HDel]. *)
Definition hdel_loop (fields : list string) (m : hashMap) : Z * hashMap :=
  foldl (fun '(deleted, m) f =>
    if m !! f is Some _ then (deleted + 1, delete f m) else (deleted, m)) (0, m) fields.

(** The body of [HIncrBy] after the lookup. *)
Definition hincr (field : string) (delta : Z) (m : hashMap) : res error Z * hashMap :=
  match (match m !! field with
         | Some v => ParseInt_ok (to_str v)
         | None => Some 0
         end) with
  | None => (Err ErrOutOfRange, m)
  | Some n =>
      let n := i64 (n + delta) in
      (Ok n, <[field := to_slice (FormatInt n)]> m)
  end.

Section HashStore.
Context {S : Type} `{EntryStoreLaws S}.

Definition HSet (o : range_order) (now : Z) (key : string) (pairs : hashMap) (s : S) : res error Z * S :=
  modify now key (fun m : hashMap =>
    let '(added, m) := hset_loop (ord_list o (map_to_list pairs)) m in (Ok added, m)) s.

(** A nil Go map and an empty one answer lookups alike. *)
Definition HGet (now : Z) (key field : string) (s : S) : res error slice :=
  let? o := getReadOnly (A := hashMap) now key s in
  match o with
  | None => Ok None
  | Some m => Ok (default None (m !! field))
  end.

Definition HMGet (now : Z) (key : string) (fields : list string) (s : S) : res error (list slice) :=
  let? o := getReadOnly (A := hashMap) now key s in
  Ok (map (fun f =>
    match o with Some m => default None (m !! f) | None => None end) fields).

Definition HDel (now : Z) (key : string) (fields : list string) (s : S) : res error Z * S :=
  modify now key (fun m : hashMap =>
    let '(deleted, m) := hdel_loop fields m in (Ok deleted, m)) s.

Definition HGetAll (ord : range_order) (now : Z) (key : string) (s : S) : res error (option hashMap) :=
  let? o := getReadOnly (A := hashMap) now key s in
  match o with
  | None => Ok None
  | Some m => Ok (Some (foldl (fun r '(k, v) => <[k := v]> r) ∅ (ord_list ord (map_to_list m))))
  end.

Definition HKeys (ord : range_order) (now : Z) (key : string) (s : S) : res error (list string) :=
  let? o := getReadOnly (A := hashMap) now key s in
  match o with
  | None => Ok []
  | Some m => Ok (map fst (ord_list ord (map_to_list m)))
  end.

Definition HVals (ord : range_order) (now : Z) (key : string) (s : S) : res error (list slice) :=
  let? o := getReadOnly (A := hashMap) now key s in
  match o with
  | None => Ok []
  | Some m => Ok (map snd (ord_list ord (map_to_list m)))
  end.

Definition HLen (now : Z) (key : string) (s : S) : res error Z :=
  let? o := getReadOnly (A := hashMap) now key s in
  Ok (match o with Some m => Z.of_nat (size m) | None => 0 end).

Definition HExists (now : Z) (key field : string) (s : S) : res error bool :=
  let? o := getReadOnly (A := hashMap) now key s in
  match o with
  | None => Ok false
  | Some m => Ok (bool_decide (is_Some (m !! field)))
  end.

Definition HIncrBy (now : Z) (key field : string) (delta : Z) (s : S) : res error Z * S :=
  modify now key (hincr field delta) s.

End HashStore.

(** ** The loops as map operations *)

Lemma copy_loop_spec pairs (m : hashMap) :
  NoDup pairs.*1 → foldl (fun r '(k, v) => <[k := v]> r) m pairs = list_to_map pairs ∪ m.
Proof.
  revert m. induction pairs as [|[f v] pairs IH]; intros m Hnd; cbn [foldl].
  { cbn [list_to_map foldr]. by rewrite map_empty_union. }
  apply NoDup_cons in Hnd as [Hf Hnd]. rewrite IH by done.
  cbn [list_to_map foldr fst snd]. rewrite <- insert_union_l.
  symmetry. by apply insert_union_r, not_elem_of_list_to_map_1.
Qed.

Lemma hset_loop_spec pairs m :
  NoDup pairs.*1 →
  snd (hset_loop pairs m) = list_to_map pairs ∪ m ∧
  fst (hset_loop pairs m) = Z.of_nat (size (snd (hset_loop pairs m))) - Z.of_nat (size m).
Proof.
  intros Hnd. rewrite <- copy_loop_spec by done. clear Hnd.
  unfold hset_loop. replace (Z.of_nat (size m)) with (Z.of_nat (size m) - 0) by lia.
  generalize 0 as n. revert m. induction pairs as [|[f v] pairs IH]; intros m n; cbn [foldl].
  { cbn [fst snd]. split; [done|lia]. }
  destruct (IH (<[f := v]> m) (if m !! f is Some _ then n else n + 1)) as [IH1 IH2].
  split; [done|]. rewrite IH2, map_size_insert. destruct (m !! f); cbn [id]; lia.
Qed.

Lemma hdel_loop_spec fields m :
  snd (hdel_loop fields m) = filter (fun p => p.1 ∉ fields) m ∧
  fst (hdel_loop fields m) = Z.of_nat (size m) - Z.of_nat (size (snd (hdel_loop fields m))).
Proof.
  unfold hdel_loop. replace (Z.of_nat (size m)) with (Z.of_nat (size m) + 0) by lia.
  generalize 0 as n. revert m. induction fields as [|f fields IH]; intros m n; cbn [foldl].
  { cbn [fst snd]. split; [|lia]. symmetry. apply map_filter_id.
    intros i x _. apply not_elem_of_nil. }
  assert (Hfil : filter (fun p => p.1 ∉ f :: fields) m
                 = filter (fun p => p.1 ∉ fields) (delete f m)).
  { apply map_eq. intros i. apply option_eq. intros x.
    rewrite !map_lookup_filter_Some, lookup_delete_Some. cbn [fst].
    rewrite not_elem_of_cons. intuition congruence. }
  destruct (m !! f) as [w|] eqn:Em.
  - destruct (IH (delete f m) (n + 1)) as [IH1 IH2]. rewrite IH1, Hfil, IH2, IH1.
    split; [done|]. rewrite map_size_delete_Some by done.
    assert (size m ≠ 0%nat) by (rewrite map_size_empty_iff; intros ->; done). lia.
  - destruct (IH m n) as [IH1 IH2]. by rewrite Hfil, delete_id.
Qed.

Lemma ordered_map (o : range_order) (m : hashMap) : list_to_map (ord_list o (map_to_list m)) = m.
Proof.
  erewrite list_to_map_proper; [apply list_to_map_to_list| |apply ord_perm].
  rewrite ord_perm. apply NoDup_fst_map_to_list.
Qed.

(** ** Behaviour of the store

    A hash is a finite map: an update answers how much it grew or shrank, a
    read is the map's own, and a missing key is the empty map. *)
Section Behaviour.
Context {S : Type} `{EntryStoreLaws S}.

Lemma read_hash_as {B} now key (f : hashMap → B) (g : option hashMap → res error B) (s : S) :
  es_wf s → g None = Ok (f ∅) → (∀ m, g (Some m) = Ok (f m)) →
  reads now key f s (let? o := getReadOnly (A := hashMap) now key s in g o).
Proof.
  intros Hwf Hn Hs. apply read_as; [done|]. unfold rbind.
  destruct (getReadOnly _ _ _) as [[m|]| |]; by rewrite ?Hn, ?Hs.
Qed.

Lemma read_fields_as {B} now key (f g : hashMap → list B) (s : S) :
  es_wf s → (∀ m, g m ≡ₚ f m) → f ∅ = [] →
  reads_up_to (≡ₚ) now key f s
    (let? o := getReadOnly (A := hashMap) now key s in match o with None => Ok [] | Some m => Ok (g m) end).
Proof.
  intros Hwf Hg Hf. unfold reads_up_to. rewrite getReadOnly_spec by done. unfold rbind.
  destruct (payload_at now key s) as [[m|]| |]; [by eexists|eexists|done..].
  split; [done|]. change (Permutation [] (f ∅)). by rewrite Hf.
Qed.

(** C31: HSET stores the union of the new pairs with the old
    hash and answers the number of fields it added, HDEL keeps the fields not
    named and answers the number it removed, HINCRBY wraps around in 64 bits and
    refuses a value that is not a decimal; HGET, HMGET, HLEN, HEXISTS and HGETALL
    are the map's lookup, size, domain and contents, and HKEYS and HVALS list its
    fields and its values, each in an order of its own. In whatever order the
    loops over a map run, every other key is kept, and a key of another type gives
    the type error and no change. *)
Theorem hash_store_correct o1 o2 o3 o4 now key field fields pairs delta (s : S) :
  es_wf s →
  updates now key (fun m : hashMap =>
    (Ok (Z.of_nat (size (pairs ∪ m)) - Z.of_nat (size m)), pairs ∪ m)) s (HSet o1 now key pairs s) ∧
  updates now key (fun m : hashMap =>
    let m' := filter (fun p => p.1 ∉ fields) m in
    (Ok (Z.of_nat (size m) - Z.of_nat (size m')), m')) s (HDel now key fields s) ∧
  updates now key (hincr field delta) s (HIncrBy now key field delta s) ∧
  reads now key (fun m : hashMap => m !! field ≫= id) s (HGet now key field s) ∧
  reads now key (fun m : hashMap => (fun f => m !! f ≫= id) <$> fields) s (HMGet now key fields s) ∧
  reads now key (fun m : hashMap => Z.of_nat (size m)) s (HLen now key s) ∧
  reads now key (fun m : hashMap => bool_decide (field ∈ dom m)) s (HExists now key field s) ∧
  reads now key (fun m : hashMap => m)
    s (let? o := HGetAll o2 now key s in Ok (default ∅ o)) ∧
  reads_up_to (≡ₚ) now key (fun m : hashMap => (map_to_list m).*1) s (HKeys o3 now key s) ∧
  reads_up_to (≡ₚ) now key (fun m : hashMap => (map_to_list m).*2) s (HVals o4 now key s).
Proof.
  intros Hwf. conjs.
  - apply modify_as; [done|]. intros m.
    destruct (hset_loop_spec (ord_list o1 (map_to_list pairs)) m) as [H1 H2];
      [rewrite ord_perm; apply NoDup_fst_map_to_list|].
    rewrite ordered_map in H1.
    destruct (hset_loop (ord_list o1 (map_to_list pairs)) m). cbn [fst snd] in *. by subst.
  - apply modify_as; [done|]. intros m.
    destruct (hdel_loop_spec fields m) as [H1 H2].
    destruct (hdel_loop fields m). cbn [fst snd] in *. by subst.
  - by apply modify_as.
  - apply read_hash_as; [done..|]. intros m. by destruct (m !! field).
  - by apply read_hash_as.
  - by apply read_hash_as.
  - apply read_hash_as; [done..|]. intros m. f_equal. apply bool_decide_ext.
    by rewrite elem_of_dom.
  - apply read_as; [done|]. unfold HGetAll, rbind.
    destruct (getReadOnly _ _ _) as [[m|]| |]; [|done..]. f_equal. cbn [default from_option id].
    rewrite copy_loop_spec, map_union_empty by (rewrite ord_perm; apply NoDup_fst_map_to_list).
    apply ordered_map.
  - apply (read_fields_as now key _ (λ m, (ord_list o3 (map_to_list m)).*1)); [done| |done].
    intros m. apply fmap_Permutation, ord_perm.
  - apply (read_fields_as now key _ (λ m, (ord_list o4 (map_to_list m)).*2)); [done| |done].
    intros m. apply fmap_Permutation, ord_perm.
Qed.
End Behaviour.

Lemma hash_store_correct_witness :
  let s := snd (HSet forwards 1 "h" {["a" := to_slice "1"; "b" := to_slice "x"]} (New 4)) in
  fst (HSet backwards 1 "h" {["b" := to_slice "y"; "c" := to_slice "z"]} s) = Ok 1 ∧
  HLen 1 "h" s = Ok 2 ∧ fst (HIncrBy 1 "h" "a" 41 s) = Ok 42 ∧
  fst (HIncrBy 1 "h" "b" 1 s) = Err ErrOutOfRange ∧
  HKeys forwards 1 "h" s ≠ HKeys backwards 1 "h" s.
Proof.
  intros s. assert (Hwf : es_wf s) by (apply (modify_wf (S := KVStore)); exact (New_wf 4)).
  destruct (hash_store_correct (S := KVStore) backwards forwards forwards backwards 1 "h" "a" ["a"]
    {["b" := to_slice "y"; "c" := to_slice "z"]} 41 s Hwf) as (H1 & _ & H3 & _ & _ & H6 & _).
  conjs.
  - destruct H1 as (_ & _ & H1). vm_compute in H1 |- *. exact (proj1 H1).
  - unfold reads in H6. rewrite H6. vm_compute. reflexivity.
  - destruct H3 as (_ & _ & H3). vm_compute in H3 |- *. exact (proj1 H3).
  - vm_compute. reflexivity.
  - vm_compute. discriminate.
Defined.
