(* ===== verification/ListStore.v ===== *)
(** * The list store ([engine/list.go])

    A list is a Go slice of byte slices behind a pointer. The handlers that
    return elements copy them, so the answers do not alias the list. *)

From S2P Require Import Prelude Types KV TypedStore.

Abbreviation dbxList := (list slice).

(** The body of [LPop]: a negative count makes [make] panic. *)
Definition lpop (count : Z) (l : dbxList) : res error (list slice) * dbxList :=
  if zlen l =? 0 then (Ok [], l)
  else
    let count := if count >? zlen l then zlen l else count in
    if count <? 0 then (Panic, l)
    else (Ok (sub l 0 count), sub l count (zlen l)).

Definition rpop (count : Z) (l : dbxList) : res error (list slice) * dbxList :=
  if zlen l =? 0 then (Ok [], l)
  else
    let count := if count >? zlen l then zlen l else count in
    let start := zlen l - count in
    if count <? 0 then (Panic, l)
    else (Ok (sub l start (zlen l)), sub l 0 start).

Definition lindex (index : Z) (l : dbxList) : slice :=
  let n := zlen l in
  let index := if index <? 0 then n + index else index in
  if (index <? 0) || (index >=? n) then None else l !!! Z.to_nat index.

Definition lset (index : Z) (v : slice) (l : dbxList) : res error unit * dbxList :=
  let n := zlen l in
  let index := if index <? 0 then n + index else index in
  if (index <? 0) || (index >=? n) then (Err (Newf 3 "index out of range"), l)
  else (Ok tt, <[Z.to_nat index := v]> l).

Section ListStore.
Context {S : Type} `{EntryStoreLaws S}.

Definition LPush (now : Z) (key : string) (values : list slice) (s : S) : res error Z * S :=
  modify now key (fun l : dbxList =>
    let l := foldl (fun l v => v :: l) l values in (Ok (zlen l), l)) s.

Definition RPush (now : Z) (key : string) (values : list slice) (s : S) : res error Z * S :=
  modify now key (fun l : dbxList => let l := l ++ values in (Ok (zlen l), l)) s.

Definition LPop (now : Z) (key : string) (count : Z) (s : S) : res error (list slice) * S :=
  modify now key (lpop count) s.

Definition RPop (now : Z) (key : string) (count : Z) (s : S) : res error (list slice) * S :=
  modify now key (rpop count) s.

Definition LRange (now : Z) (key : string) (start stop : Z) (s : S) : res error (list slice) :=
  let? o := getReadOnly (A := dbxList) now key s in
  match o with None => Ok [] | Some l => Ok (range_of start stop l) end.

Definition LLen (now : Z) (key : string) (s : S) : res error Z :=
  let? o := getReadOnly (A := dbxList) now key s in
  match o with None => Ok 0 | Some l => Ok (zlen l) end.

Definition LIndex (now : Z) (key : string) (index : Z) (s : S) : res error slice :=
  let? o := getReadOnly (A := dbxList) now key s in
  match o with None => Ok None | Some l => Ok (lindex index l) end.

Definition LSet (now : Z) (key : string) (index : Z) (v : slice) (s : S) : res error unit * S :=
  modify now key (lset index v) s.

Definition LTrim (now : Z) (key : string) (start stop : Z) (s : S) : res error unit * S :=
  modify now key (fun l : dbxList => (Ok tt, range_of start stop l)) s.

End ListStore.

(** ** The bodies as list operations *)

Lemma sub_0 {A} (l : list A) j : sub l 0 j = take (Z.to_nat j) l.
Proof. unfold sub. by rewrite Z.sub_0_r. Qed.

Lemma sub_end {A} (l : list A) i : 0 ≤ i → sub l i (zlen l) = drop (Z.to_nat i) l.
Proof. intros. unfold sub. apply take_ge. rewrite length_drop. unfold zlen. lia. Qed.

Lemma foldl_cons {A} (l vs : list A) : foldl (fun l v => v :: l) l vs = reverse vs ++ l.
Proof.
  revert l. induction vs as [|v vs IH]; intros l; cbn [foldl]; [done|].
  by rewrite IH, reverse_cons, <- app_assoc.
Qed.

Lemma lpop_spec count l :
  0 ≤ count → lpop count l = (Ok (take (Z.to_nat count) l), drop (Z.to_nat count) l).
Proof.
  intros Hc. unfold lpop. pose proof (zlen_nonneg l). destruct (zlen l =? 0) eqn:E0; bool_to_prop.
  { destruct l; [|unfold zlen in *; simpl in *; lia]. by rewrite take_nil, drop_nil. }
  destruct (count >? zlen l) eqn:E1; bool_to_prop.
  - rewrite (proj2 (Z.ltb_ge _ _)), sub_0, sub_end by lia. unfold zlen in *.
    by rewrite !take_ge, !drop_ge by lia.
  - by rewrite (proj2 (Z.ltb_ge _ _)), sub_0, sub_end by lia.
Qed.

Lemma rpop_spec count l :
  0 ≤ count →
  rpop count l = (Ok (drop (length l - Z.to_nat count) l), take (length l - Z.to_nat count) l).
Proof.
  intros Hc. unfold rpop. pose proof (zlen_nonneg l). destruct (zlen l =? 0) eqn:E0; bool_to_prop.
  { destruct l; [|unfold zlen in *; simpl in *; lia]. by rewrite take_nil, drop_nil. }
  destruct (count >? zlen l) eqn:E1; bool_to_prop;
    rewrite (proj2 (Z.ltb_ge _ _)), sub_0, sub_end by lia; unfold zlen in *; repeat f_equal; lia.
Qed.

(** The position an index names, from the end when it is negative. *)
Definition nth_index (index : Z) (l : dbxList) : option nat :=
  let i := norm_index (zlen l) index in
  if decide (0 ≤ i < zlen l) then Some (Z.to_nat i) else None.

Lemma lindex_spec index l : lindex index l = (nth_index index l ≫= (l !!.)) ≫= id.
Proof.
  unfold lindex, nth_index. fold (norm_index (zlen l) index).
  set (i := norm_index _ _). case_decide as Hd.
  - rewrite (proj2 (orb_false_iff _ _)) by (split; [apply Z.ltb_ge|rewrite Z.geb_leb; apply Z.leb_gt]; lia).
    cbn [mbind option_bind]. unfold zlen in Hd.
    destruct (lookup_lt_is_Some_2 l (Z.to_nat i) ltac:(lia)) as [v Hv].
    by rewrite Hv, (list_lookup_total_correct _ _ _ Hv).
  - destruct (_ || _) eqn:E; [done|]. bool_to_prop. lia.
Qed.

Lemma lset_spec index v l :
  lset index v l = match nth_index index l with
                   | Some i => (Ok tt, <[i := v]> l)
                   | None => (Err (Newf 3 "index out of range"), l)
                   end.
Proof.
  unfold lset, nth_index. fold (norm_index (zlen l) index). set (i := norm_index _ _).
  destruct (_ || _) eqn:E; case_decide; bool_to_prop; try done; try lia.
Qed.

(** ** Behaviour of the store *)
Section Behaviour.
Context {S : Type} `{EntryStoreLaws S}.

Lemma read_list_as {B} now key (f : dbxList → B) (g : option dbxList → res error B) (s : S) :
  es_wf s → g None = Ok (f []) → (∀ l, g (Some l) = Ok (f l)) →
  reads now key f s (let? o := getReadOnly (A := dbxList) now key s in g o).
Proof.
  intros Hwf Hn Hs. apply read_as; [done|]. unfold rbind.
  destruct (getReadOnly _ _ _) as [[m|]| |]; by rewrite ?Hn, ?Hs.
Qed.

(** LPUSH puts the values in front in reverse order and
    RPUSH behind in order, both answering the new length; LPOP and RPOP with a
    non-negative count remove that many elements from their end, or all, and
    answer them in list order; LSET and LINDEX address the same position, from
    the end for a negative index, and report an index outside the list; LTRIM
    keeps exactly what LRANGE answers, the elements between the two indices. *)
Theorem list_store_correct now key values count index v start stop (s : S) :
  es_wf s → 0 ≤ count →
  updates now key (fun l : dbxList =>
    (Ok (zlen values + zlen l), reverse values ++ l)) s (LPush now key values s) ∧
  updates now key (fun l : dbxList =>
    (Ok (zlen l + zlen values), l ++ values)) s (RPush now key values s) ∧
  updates now key (fun l : dbxList =>
    (Ok (take (Z.to_nat count) l), drop (Z.to_nat count) l)) s (LPop now key count s) ∧
  updates now key (fun l : dbxList =>
    let n := (length l - Z.to_nat count)%nat in (Ok (drop n l), take n l)) s (RPop now key count s) ∧
  updates now key (fun l : dbxList =>
    match nth_index index l with
    | Some i => (Ok tt, <[i := v]> l)
    | None => (Err (Newf 3 "index out of range"), l)
    end) s (LSet now key index v s) ∧
  reads now key (fun l : dbxList => (nth_index index l ≫= (l !!.)) ≫= id) s (LIndex now key index s) ∧
  reads now key (zlen : dbxList → Z) s (LLen now key s) ∧
  reads now key (range_of start stop : dbxList → dbxList) s (LRange now key start stop s) ∧
  updates now key (fun l : dbxList => (Ok tt, range_of start stop l)) s (LTrim now key start stop s) ∧
  ∀ l : dbxList, range_spec l start stop (range_of start stop l).
Proof.
  intros Hwf Hc. conjs.
  - apply modify_as; [done|]. intros l. cbn zeta. rewrite foldl_cons, zlen_app.
    unfold zlen. by rewrite length_reverse.
  - apply modify_as; [done|]. intros l. cbn zeta. by rewrite zlen_app.
  - apply modify_as; [done|]. intros l. by apply lpop_spec.
  - apply modify_as; [done|]. intros l. by apply rpop_spec.
  - apply modify_as; [done|]. intros l. apply lset_spec.
  - apply read_list_as; [done| |].
    + unfold nth_index. case_decide; [|done]. unfold zlen in *; simpl in *; lia.
    + intros l. by rewrite lindex_spec.
  - by apply read_list_as.
  - apply read_list_as; [done| |done]. by rewrite range_of_nil.
  - by apply modify_as.
  - apply range_of_spec.
Qed.
End Behaviour.

Lemma list_store_correct_witness :
  let s := snd (RPush 1 "l" (to_slice <$> ["a"; "b"; "c"]) (New 4)) in
  fst (LPush 1 "l" (to_slice <$> ["x"; "y"]) s) = Ok 5 ∧
  fst (RPop 1 "l" 2 s) = Ok (to_slice <$> ["b"; "c"]) ∧
  LRange 1 "l" (-2) 9 s = Ok (to_slice <$> ["b"; "c"]) ∧ fst (LPop 1 "l" (-1) s) = Panic.
Proof.
  intros s. assert (Hwf : es_wf s) by (apply (modify_wf (S := KVStore)); exact (New_wf 4)).
  destruct (list_store_correct (S := KVStore) 1 "l" (to_slice <$> ["x"; "y"]) 2 0 None (-2) 9 s Hwf
    ltac:(lia)) as (H1 & _ & _ & H4 & _ & _ & _ & H8 & _).
  conjs.
  - destruct H1 as (_ & _ & H1). vm_compute in H1 |- *. exact (proj1 H1).
  - destruct H4 as (_ & _ & H4). vm_compute in H4 |- *. exact (proj1 H4).
  - unfold reads in H8. rewrite H8. vm_compute. reflexivity.
  - vm_compute. reflexivity.
Defined.
