(* ===== verification/SetStore.v ===== *)
(** * The set store ([engine/set.go])

    A set is a Go map to empty structs; [range] over it is [elements], whose
    order the theorems do not use. The random source of [SRandMember] and
    [SPop] is an argument: [pick i] is the number drawn in round [i] of
    [rand.Shuffle]. *)

From S2P Require Import Prelude Types KV TypedStore.

Abbreviation dbxSet := (gset string).

(** [rand.Shuffle]: Fisher-Yates from the last index down. *)
Fixpoint shuffle_loop (i : nat) (pick : nat → nat) (l : list string) : list string :=
  match i with
  | O => l
  | S i' =>
      let j := (pick i mod (i + 1))%nat in
      shuffle_loop i' pick (<[i := l !!! j]> (<[j := l !!! i]> l))
  end.
Definition shuffle (pick : nat → nat) (l : list string) : list string :=
  shuffle_loop (length l - 1) pick l.

Definition sadd_loop (members : list slice) (st : dbxSet) : Z * dbxSet :=
  foldl (fun '(added, st) m =>
    let k := to_str m in
    if negb (bool_decide (k ∈ st)) then (added + 1, {[k]} ∪ st) else (added, st)) (0, st) members.

Definition srem_loop (members : list slice) (st : dbxSet) : Z * dbxSet :=
  foldl (fun '(removed, st) m =>
    let k := to_str m in
    if bool_decide (k ∈ st) then (removed + 1, st ∖ {[k]}) else (removed, st)) (0, st) members.

(** The shuffled members cut at [count]; a negative count panics. *)
Definition pick_members (pick : nat → nat) (count : Z) (st : dbxSet) : res error (list string) :=
  let members := shuffle pick (elements st) in
  let count := if count >? zlen members then zlen members else count in
  if count <? 0 then Panic else Ok (sub members 0 count).

Section SetStore.
Context {S : Type} `{EntryStoreLaws S}.

Definition SAdd (now : Z) (key : string) (members : list slice) (s : S) : res error Z * S :=
  modify now key (fun st : dbxSet => let '(n, st) := sadd_loop members st in (Ok n, st)) s.

Definition SRem (now : Z) (key : string) (members : list slice) (s : S) : res error Z * S :=
  modify now key (fun st : dbxSet => let '(n, st) := srem_loop members st in (Ok n, st)) s.

Definition SMembers (now : Z) (key : string) (s : S) : res error (list slice) :=
  let? o := getReadOnly (A := dbxSet) now key s in
  match o with None => Ok [] | Some st => Ok (map to_slice (elements st)) end.

Definition SIsMember (now : Z) (key : string) (member : slice) (s : S) : res error bool :=
  let? o := getReadOnly (A := dbxSet) now key s in
  match o with None => Ok false | Some st => Ok (bool_decide (to_str member ∈ st)) end.

Definition SCard (now : Z) (key : string) (s : S) : res error Z :=
  let? o := getReadOnly (A := dbxSet) now key s in
  match o with None => Ok 0 | Some st => Ok (Z.of_nat (size st)) end.

(** The loops over [keys[1:]]; a missing key is an empty set. *)
Fixpoint inter_loop (now : Z) (keys : list string) (result : dbxSet) (s : S) : res error dbxSet :=
  match keys with
  | [] => Ok result
  | k :: keys =>
      let? o := getReadOnly (A := dbxSet) now k s in
      inter_loop now keys (filter (fun m => m ∈ default ∅ o) result) s
  end.

Fixpoint union_loop (now : Z) (keys : list string) (result : dbxSet) (s : S) : res error dbxSet :=
  match keys with
  | [] => Ok result
  | k :: keys =>
      let? o := getReadOnly (A := dbxSet) now k s in
      union_loop now keys (result ∪ default ∅ o) s
  end.

Fixpoint diff_loop (now : Z) (keys : list string) (result : dbxSet) (s : S) : res error dbxSet :=
  match keys with
  | [] => Ok result
  | k :: keys =>
      let? o := getReadOnly (A := dbxSet) now k s in
      diff_loop now keys (result ∖ default ∅ o) s
  end.

Definition SInter (now : Z) (keys : list string) (s : S) : res error (list slice) :=
  match keys with
  | [] => Ok []
  | k :: keys =>
      let? o := getReadOnly (A := dbxSet) now k s in
      match o with
      | None => Ok []
      | Some first =>
          let? result := inter_loop now keys first s in Ok (map to_slice (elements result))
      end
  end.

Definition SUnion (now : Z) (keys : list string) (s : S) : res error (list slice) :=
  let? result := union_loop now keys ∅ s in Ok (map to_slice (elements result)).

Definition SDiff (now : Z) (keys : list string) (s : S) : res error (list slice) :=
  match keys with
  | [] => Ok []
  | k :: keys =>
      let? o := getReadOnly (A := dbxSet) now k s in
      match o with
      | None => Ok []
      | Some first =>
          let? result := diff_loop now keys first s in Ok (map to_slice (elements result))
      end
  end.

Definition SRandMember (now : Z) (pick : nat → nat) (key : string) (count : Z) (s : S)
    : res error (list slice) :=
  let? o := getReadOnly (A := dbxSet) now key s in
  match o with
  | None => Ok []
  | Some st => let? ms := pick_members pick count st in Ok (map to_slice ms)
  end.

Definition SPop (now : Z) (pick : nat → nat) (key : string) (count : Z) (s : S)
    : res error (list slice) * S :=
  modify now key (fun st : dbxSet =>
    match pick_members pick count st with
    | Ok ms => (Ok (map to_slice ms), foldl (fun st m => st ∖ {[m]}) st ms)
    | Err e => (Err e, st)
    | Panic => (Panic, st)
    end) s.

End SetStore.

(** ** The loops as set operations *)

Lemma shuffle_loop_perm i pick l : (i < length l)%nat ∨ i = O → shuffle_loop i pick l ≡ₚ l.
Proof.
  revert l. induction i as [|i IH]; intros l Hi; cbn [shuffle_loop]; [done|].
  destruct Hi as [Hi|]; [|done]. set (j := (pick (S i) mod (S i + 1))%nat).
  assert (Hj : (j < length l)%nat).
  { pose proof (Nat.mod_upper_bound (pick (S i)) (S i + 1) ltac:(lia)). lia. }
  rewrite IH by (rewrite !length_insert; lia).
  apply Permutation_insert_swap; by apply list_lookup_lookup_total_lt.
Qed.

Lemma shuffle_perm pick l : shuffle pick l ≡ₚ l.
Proof. apply shuffle_loop_perm. destruct l; cbn; [by right|left; lia]. Qed.

Lemma sadd_loop_spec members st :
  snd (sadd_loop members st) = list_to_set (to_str <$> members) ∪ st ∧
  fst (sadd_loop members st) = Z.of_nat (size (snd (sadd_loop members st))) - Z.of_nat (size st).
Proof.
  unfold sadd_loop. replace (Z.of_nat (size st)) with (Z.of_nat (size st) - 0) by lia.
  generalize 0 as n. revert st. induction members as [|m ms IH]; intros st n; cbn [foldl].
  { cbn [fst snd fmap list_fmap list_to_set]. split; [by rewrite union_empty_l_L|lia]. }
  cbn [fmap list_fmap list_to_set]. set (k := to_str m). cbn zeta.
  destruct (negb _) eqn:E; bool_to_prop.
  - destruct (IH ({[k]} ∪ st) (n + 1)) as [-> IH2]. rewrite IH2.
    split; [by rewrite (assoc_L (∪)), (comm_L (∪) _ {[k]})|].
    rewrite (size_union {[k]} st), size_singleton by (apply disjoint_singleton_l; done). lia.
  - destruct (IH st n) as [IH1 IH2]. rewrite IH2, IH1. split; [|done].
    apply leibniz_equiv. intros x. rewrite !elem_of_union, elem_of_singleton. split; [tauto|].
    intros [[->|]|]; auto.
Qed.

Lemma srem_loop_spec members st :
  snd (srem_loop members st) = st ∖ list_to_set (to_str <$> members) ∧
  fst (srem_loop members st) = Z.of_nat (size st) - Z.of_nat (size (snd (srem_loop members st))).
Proof.
  unfold srem_loop. replace (Z.of_nat (size st)) with (Z.of_nat (size st) + 0) by lia.
  generalize 0 as n. revert st. induction members as [|m ms IH]; intros st n; cbn [foldl].
  { cbn [fst snd fmap list_fmap list_to_set]. split; [by rewrite difference_empty_L|lia]. }
  cbn [fmap list_fmap list_to_set]. set (k := to_str m). cbn zeta.
  destruct (bool_decide (k ∈ st)) eqn:E; bool_to_prop.
  - destruct (IH (st ∖ {[k]}) (n + 1)) as [-> IH2]. rewrite IH2.
    split; [by rewrite difference_difference_l_L|].
    assert (size st = (1 + size (st ∖ {[k]}))%nat); [|lia].
    rewrite <- (size_singleton (C := gset string) k), <- size_union
      by (apply disjoint_singleton_l; rewrite elem_of_difference, elem_of_singleton; tauto).
    f_equal. apply union_difference_L. by apply singleton_subseteq_l.
  - destruct (IH st n) as [IH1 IH2]. rewrite IH2, IH1. split; [|done].
    apply leibniz_equiv. intros x. rewrite !elem_of_difference, elem_of_union, elem_of_singleton.
    split; [|tauto]. intros [Hx Hn]. split; [done|]. intros [->|]; tauto.
Qed.

Lemma pick_members_spec pick count (st : dbxSet) :
  0 ≤ count →
  ∃ ms, pick_members pick count st = Ok ms ∧ NoDup ms ∧ (∀ m, m ∈ ms → m ∈ st) ∧
    zlen ms = count `min` Z.of_nat (size st).
Proof.
  intros Hc. unfold pick_members. pose proof (shuffle_perm pick (elements st)) as Hp.
  set (l := shuffle pick (elements st)) in *.
  assert (Hl : zlen l = Z.of_nat (size st)) by (unfold zlen; by rewrite Hp).
  set (n := if count >? zlen l then zlen l else count).
  assert (Hn : n = count `min` Z.of_nat (size st))
    by (unfold n; destruct (count >? zlen l) eqn:E; bool_to_prop; lia).
  rewrite (proj2 (Z.ltb_ge n 0)) by lia. exists (sub l 0 n). unfold sub. rewrite Z.sub_0_r.
  conjs; [done| | |].
  - eapply sublist_NoDup; [|apply sublist_take]. change (drop (Z.to_nat 0) l) with l. rewrite Hp. apply NoDup_elements.
  - intros m Hm%elem_of_take. destruct Hm as (i & Hi & _).
    apply elem_of_elements. rewrite <- Hp. by eapply list_elem_of_lookup_2.
  - rewrite Hn. unfold zlen in *. change (drop (Z.to_nat 0) l) with l.
    rewrite length_take. lia.
Qed.

Lemma remove_all ms (st : dbxSet) : foldl (fun st m => st ∖ {[m]}) st ms = st ∖ list_to_set ms.
Proof.
  revert st. induction ms as [|m ms IH]; intros st; cbn [foldl list_to_set].
  - by rewrite difference_empty_L.
  - by rewrite IH, difference_difference_l_L.
Qed.

(** ** Behaviour of the store *)
Section Behaviour.
Context {S : Type} `{EntryStoreLaws S}.

Lemma read_set_as {B} now key (f : dbxSet → B) (g : option dbxSet → res error B) (s : S) :
  es_wf s → g None = Ok (f ∅) → (∀ l, g (Some l) = Ok (f l)) →
  reads now key f s (let? o := getReadOnly (A := dbxSet) now key s in g o).
Proof.
  intros Hwf Hn Hs. apply read_as; [done|]. unfold rbind.
  destruct (getReadOnly _ _ _) as [[m|]| |]; by rewrite ?Hn, ?Hs.
Qed.

(** SADD stores the union with the new members and SREM the
    difference, each answering the change in cardinality; SISMEMBER, SCARD and
    SMEMBERS are membership, size and the elements without repetition; SPOP with
    a non-negative count, whatever the random source, removes exactly the
    members it answers, which are distinct members of the set, as many as asked
    or all; SRANDMEMBER answers such a sample and changes nothing. *)
Theorem set_store_correct now key members member pick count (s : S) :
  es_wf s → 0 ≤ count →
  let added := list_to_set (to_str <$> members) in
  updates now key (fun st : dbxSet =>
    (Ok (Z.of_nat (size (added ∪ st)) - Z.of_nat (size st)), added ∪ st)) s (SAdd now key members s) ∧
  updates now key (fun st : dbxSet =>
    (Ok (Z.of_nat (size st) - Z.of_nat (size (st ∖ added))), st ∖ added)) s (SRem now key members s) ∧
  reads now key (fun st : dbxSet => bool_decide (to_str member ∈ st)) s (SIsMember now key member s) ∧
  reads now key (fun st : dbxSet => Z.of_nat (size st)) s (SCard now key s) ∧
  reads now key (fun st : dbxSet => to_slice <$> elements st) s (SMembers now key s) ∧
  ∃ sample : dbxSet → list string,
    (∀ st, NoDup (sample st) ∧ (∀ m, m ∈ sample st → m ∈ st) ∧
           zlen (sample st) = count `min` Z.of_nat (size st)) ∧
    updates now key (fun st : dbxSet =>
      (Ok (to_slice <$> sample st), st ∖ list_to_set (sample st))) s (SPop now pick key count s) ∧
    reads now key (fun st => to_slice <$> sample st) s (SRandMember now pick key count s).
Proof.
  intros Hwf Hc added. conjs.
  - apply modify_as; [done|]. intros st. destruct (sadd_loop_spec members st) as [H1 H2].
    destruct (sadd_loop members st). cbn [fst snd] in *. by subst.
  - apply modify_as; [done|]. intros st. destruct (srem_loop_spec members st) as [H1 H2].
    destruct (srem_loop members st). cbn [fst snd] in *. by subst.
  - by apply read_set_as.
  - by apply read_set_as.
  - by apply read_set_as.
  - set (sample := fun st => match pick_members pick count st with Ok ms => ms | _ => [] end).
    assert (Hs : ∀ st, pick_members pick count st = Ok (sample st)).
    { intros st. unfold sample. by destruct (pick_members_spec pick count st Hc) as (ms & -> & _). }
    exists sample. conjs.
    + intros st. destruct (pick_members_spec pick count st Hc) as (ms & Hms & Hrest).
      by rewrite Hs in Hms; simplify_eq.
    + apply modify_as; [done|]. intros st. by rewrite Hs, remove_all.
    + apply read_set_as; [done| |].
      * destruct (pick_members_spec pick count ∅ Hc) as (ms & Hms & _ & Hm & _).
        rewrite Hs in Hms. injection Hms as ->. destruct ms as [|m ms]; [done|].
        by specialize (Hm m ltac:(left)).
      * intros st. unfold rbind. by rewrite Hs.
Qed.

(** The set a key holds, when it is a set or missing. *)
Definition set_at (now : Z) (key : string) (s : S) : dbxSet :=
  match payload_at now key s with Ok (Some st) => st | _ => ∅ end.
Definition is_set (now : Z) (s : S) (key : string) : Prop :=
  ∃ o, payload_at (A := dbxSet) now key s = Ok o.

Lemma read_is_set now key (s : S) :
  es_wf s → is_set now s key →
  ∃ o, getReadOnly (A := dbxSet) now key s = Ok o ∧ default ∅ o = set_at now key s.
Proof.
  intros Hwf [o Ho]. exists o. rewrite getReadOnly_spec, Ho by done. unfold set_at.
  rewrite Ho. by destruct o.
Qed.

Lemma inter_loop_spec now keys r (s : S) :
  es_wf s → Forall (is_set now s) keys →
  ∃ r', inter_loop now keys r s = Ok r' ∧
    ∀ x, x ∈ r' ↔ x ∈ r ∧ Forall (fun k => x ∈ set_at now k s) keys.
Proof.
  intros Hwf Hk. revert r. induction Hk as [|k keys Hk _ IH]; intros r; cbn [inter_loop].
  { exists r. split; [done|]. intros x. rewrite Forall_nil. tauto. }
  destruct (read_is_set now k s Hwf Hk) as (o & -> & Ho). cbn [rbind]. rewrite Ho.
  destruct (IH (filter (fun m => m ∈ set_at now k s) r)) as (r' & -> & Hr'). exists r'.
  split; [done|]. intros x. rewrite Hr', elem_of_filter, Forall_cons. tauto.
Qed.

Lemma union_loop_spec now keys r (s : S) :
  es_wf s → Forall (is_set now s) keys →
  ∃ r', union_loop now keys r s = Ok r' ∧
    ∀ x, x ∈ r' ↔ x ∈ r ∨ Exists (fun k => x ∈ set_at now k s) keys.
Proof.
  intros Hwf Hk. revert r. induction Hk as [|k keys Hk _ IH]; intros r; cbn [union_loop].
  { exists r. split; [done|]. intros x. rewrite Exists_nil. tauto. }
  destruct (read_is_set now k s Hwf Hk) as (o & -> & Ho). cbn [rbind]. rewrite Ho.
  destruct (IH (r ∪ set_at now k s)) as (r' & -> & Hr'). exists r'.
  split; [done|]. intros x. rewrite Hr', elem_of_union, Exists_cons. tauto.
Qed.

Lemma diff_loop_spec now keys r (s : S) :
  es_wf s → Forall (is_set now s) keys →
  ∃ r', diff_loop now keys r s = Ok r' ∧
    ∀ x, x ∈ r' ↔ x ∈ r ∧ Forall (fun k => x ∉ set_at now k s) keys.
Proof.
  intros Hwf Hk. revert r. induction Hk as [|k keys Hk _ IH]; intros r; cbn [diff_loop].
  { exists r. split; [done|]. intros x. rewrite Forall_nil. tauto. }
  destruct (read_is_set now k s Hwf Hk) as (o & -> & Ho). cbn [rbind]. rewrite Ho.
  destruct (IH (r ∖ set_at now k s)) as (r' & -> & Hr'). exists r'.
  split; [done|]. intros x. rewrite Hr', elem_of_difference, Forall_cons. tauto.
Qed.

(** A list of members without repetition, as the set with that membership. *)
Definition lists (r : res error (list slice)) (P : string → Prop) : Prop :=
  ∃ l, r = Ok (to_slice <$> l) ∧ NoDup l ∧ ∀ x, x ∈ l ↔ P x.

Lemma lists_elements r (st : dbxSet) (P : string → Prop) :
  r = Ok (map to_slice (elements st)) → (∀ x, x ∈ st ↔ P x) → lists r P.
Proof.
  intros -> HP. exists (elements st). conjs; [done|apply NoDup_elements|].
  intros x. by rewrite elem_of_elements.
Qed.

Lemma lists_nil P : (∀ x, ¬ P x) → lists (Ok []) P.
Proof.
  intros HP. exists []. conjs; [done|constructor|]. intros x. split; [by intros ?%not_elem_of_nil|].
  intros Hx. by apply HP in Hx.
Qed.

(** When every key is a set or missing, SINTER, SUNION and SDIFF
    answer, without repetition, the members of all the sets, of one of them, and
    of the first and none of the others. *)
Theorem set_algebra now key keys (s : S) :
  es_wf s → Forall (is_set now s) (key :: keys) →
  lists (SInter now (key :: keys) s) (fun x => Forall (fun k => x ∈ set_at now k s) (key :: keys)) ∧
  lists (SUnion now (key :: keys) s) (fun x => Exists (fun k => x ∈ set_at now k s) (key :: keys)) ∧
  lists (SDiff now (key :: keys) s)
    (fun x => x ∈ set_at now key s ∧ Forall (fun k => x ∉ set_at now k s) keys).
Proof.
  intros Hwf Hall. pose proof Hall as [Hk Hks]%Forall_cons.
  destruct (read_is_set now key s Hwf Hk) as (o & Hr & Ho). conjs.
  - unfold SInter. rewrite Hr. cbn [rbind]. destruct o as [st|]; cbn [default from_option id] in Ho.
    + subst st. destruct (inter_loop_spec now keys (set_at now key s) s Hwf Hks) as (r & -> & Hx).
      eapply lists_elements; [done|]. intros x. by rewrite Hx, Forall_cons.
    + apply lists_nil. intros x [Hx _]%Forall_cons. by rewrite <- Ho in Hx.
  - unfold SUnion. destruct (union_loop_spec now (key :: keys) ∅ s Hwf Hall) as (r & -> & Hx).
    eapply lists_elements; [done|]. intros x. rewrite Hx.
    split; [|tauto]. intros [Hm|]; [by apply not_elem_of_empty in Hm|done].
  - unfold SDiff. rewrite Hr. cbn [rbind]. destruct o as [st|]; cbn [default from_option id] in Ho.
    + subst st. destruct (diff_loop_spec now keys (set_at now key s) s Hwf Hks) as (r & -> & Hx).
      by eapply lists_elements.
    + apply lists_nil. intros x [Hx _]. by rewrite <- Ho in Hx.
Qed.
End Behaviour.

Definition demo_sets : KVStore :=
  snd (SAdd 1 "b" (to_slice <$> ["y"; "z"]) (snd (SAdd 1 "a" (to_slice <$> ["x"; "y"]) (New 4)))).

Lemma demo_sets_wf : es_wf demo_sets.
Proof. do 2 apply (modify_wf (S := KVStore)). exact (New_wf 4). Qed.

Lemma set_store_correct_witness :
  fst (SAdd 1 "a" (to_slice <$> ["y"; "q"; "q"]) demo_sets) = Ok 1 ∧
  SCard 1 "a" demo_sets = Ok 2 ∧ fst (SPop 1 (fun _ => 0%nat) "a" 5 demo_sets) = Ok (to_slice <$> ["x"; "y"]).
Proof.
  destruct (set_store_correct (S := KVStore) 1 "a" (to_slice <$> ["y"; "q"; "q"]) None (fun _ => 0%nat) 5
    demo_sets demo_sets_wf ltac:(lia)) as (H1 & _ & _ & H4 & _ & _).
  conjs.
  - destruct H1 as (_ & _ & H1). vm_compute in H1 |- *. exact (proj1 H1).
  - unfold reads in H4. rewrite H4. vm_compute. reflexivity.
  - vm_compute. reflexivity.
Defined.

Lemma set_algebra_witness :
  SInter 1 ["a"; "b"] demo_sets = Ok [to_slice "y"] ∧
  lists (SDiff 1 ["a"; "b"] demo_sets) (fun x => x ∈ set_at 1 "a" demo_sets ∧
    Forall (fun k => x ∉ set_at 1 k demo_sets) ["b"]).
Proof.
  split; [vm_compute; reflexivity|].
  apply (set_algebra (S := KVStore) 1 "a" ["b"] demo_sets demo_sets_wf).
  repeat constructor; eexists; vm_compute; reflexivity.
Defined.
