(* ===== verification/ZSetStore.v ===== *)
(** * The sorted-set store ([engine/zset.go])

    A sorted set keeps the scores in a map and the members in a slice ordered by
    score and then by name, searched with [sort.Search]. Scores are IEEE 754
    doubles in the standard library's executable model ([SpecFloat]); the order
    on names is Go's, by bytes. *)

From S2P Require Import Prelude GoStd Types GoFloat KV TypedStore.
From Stdlib Require Import Floats.SpecFloat.

(** [float64] addition: 53 bits of precision, exponents up to 1024. *)
Definition float_add (x y : float64) : float64 := SFadd 53 1024 x y.
Definition float_zero : float64 := S754_zero false.

(** The predicate both searches use: does element [e] come at or after the
    member? *)
Definition at_or_after (member : string) (score : float64) (e : zsetMember) : bool :=
  if negb (SFeqb (Score e) score) then SFltb score (Score e)
  else String.leb member (Member e).

(** [sort.Search] only asks about indices of the slice; the [true] out of range
    is never read. *)
Definition search_sorted (l : list zsetMember) (member : string) (score : float64) : nat :=
  sort_Search (length l) (fun i =>
    match l !! i with Some e => at_or_after member score e | None => true end).

Definition insertSorted (member : string) (score : float64) (l : list zsetMember) : list zsetMember :=
  let i := search_sorted l member score in
  take i l ++ {| Member := member; Score := score |} :: drop i l.

Definition removeSorted (member : string) (score : float64) (l : list zsetMember) : list zsetMember :=
  let i := search_sorted l member score in
  match l !! i with
  | Some e => if bool_decide (Member e = member) then take i l ++ drop (S i) l else l
  | None => l
  end.

(** One round of the loop of [ZAdd], also the body of [ZIncrBy]. *)
Definition zset_put (member : string) (score : float64) (z : dbxZSet) : dbxZSet :=
  let l := match scores z !! member with
           | Some oldScore => removeSorted member oldScore (sorted z)
           | None => sorted z
           end in
  {| scores := <[member := score]> (scores z); sorted := insertSorted member score l |}.

Definition zadd_loop (members : list (string * float64)) (z : dbxZSet) : Z * dbxZSet :=
  foldl (fun '(added, z) '(member, score) =>
    ((if scores z !! member is Some _ then added else added + 1), zset_put member score z))
    (0, z) members.

Definition zrem_loop (members : list string) (z : dbxZSet) : Z * dbxZSet :=
  foldl (fun '(removed, z) member =>
    match scores z !! member with
    | Some score =>
        (removed + 1, {| scores := delete member (scores z);
                         sorted := removeSorted member score (sorted z) |})
    | None => (removed, z)
    end) (0, z) members.

(** The linear search of [ZRank]. *)
Fixpoint rank_loop (member : string) (i : Z) (l : list zsetMember) : option Z :=
  match l with
  | [] => None
  | e :: l => if bool_decide (Member e = member) then Some i else rank_loop member (i + 1) l
  end.

Definition in_score_range (min max : float64) (e : zsetMember) : bool :=
  SFleb min (Score e) && SFleb (Score e) max.

Section ZSetStore.
Context {S : Type} `{EntryStoreLaws S}.

Definition ZAdd (now : Z) (key : string) (members : gmap string float64) (s : S) : res error Z * S :=
  modify now key (fun z : dbxZSet =>
    let '(added, z) := zadd_loop (map_to_list members) z in (Ok added, z)) s.

Definition ZRem (now : Z) (key : string) (members : list string) (s : S) : res error Z * S :=
  modify now key (fun z : dbxZSet =>
    let '(removed, z) := zrem_loop members z in (Ok removed, z)) s.

Definition ZScore (now : Z) (key member : string) (s : S) : res error (option float64) :=
  let? o := getReadOnly (A := dbxZSet) now key s in
  match o with None => Ok None | Some z => Ok (scores z !! member) end.

Definition ZRank (now : Z) (key member : string) (s : S) : res error (option Z) :=
  let? o := getReadOnly (A := dbxZSet) now key s in
  match o with None => Ok None | Some z => Ok (rank_loop member 0 (sorted z)) end.

(** [ZRevRank] reads the set a second time to learn its length; when the key has
    gone in between, the nil set is dereferenced. *)
Definition ZRevRank (now1 now2 : Z) (key member : string) (s : S) : res error (option Z) :=
  let? rank := ZRank now1 key member s in
  match rank with
  | None => Ok None
  | Some rank =>
      match getReadOnly (A := dbxZSet) now2 key s with
      | Ok (Some z) => Ok (Some (zlen (sorted z) - 1 - rank))
      | _ => Panic
      end
  end.

Definition ZRange (now : Z) (key : string) (start stop : Z) (s : S) : res error (list zsetMember) :=
  let? o := getReadOnly (A := dbxZSet) now key s in
  match o with
  | None => Ok []
  | Some z => Ok (range_of start stop (sorted z))
  end.

Definition ZRangeByScore (now : Z) (key : string) (min max : float64) (s : S)
    : res error (list zsetMember) :=
  let? o := getReadOnly (A := dbxZSet) now key s in
  match o with None => Ok [] | Some z => Ok (List.filter (in_score_range min max) (sorted z)) end.

Definition ZCard (now : Z) (key : string) (s : S) : res error Z :=
  let? o := getReadOnly (A := dbxZSet) now key s in
  match o with None => Ok 0 | Some z => Ok (Z.of_nat (size (scores z))) end.

Definition ZIncrBy (now : Z) (key member : string) (delta : float64) (s : S) : res error float64 * S :=
  modify now key (fun z : dbxZSet =>
    let score := float_add (default float_zero (scores z !! member)) delta in
    (Ok score, zset_put member score z)) s.

Definition ZCount (now : Z) (key : string) (min max : float64) (s : S) : res error Z :=
  let? members := ZRangeByScore now key min max s in Ok (zlen members).

End ZSetStore.

(** ** The order on members: by score, then by name *)
Definition zlt (a b : zsetMember) : Prop :=
  lex3 (rank3 (Score a)) (rank3 (Score b)) ∨
  rank3 (Score a) = rank3 (Score b) ∧ strict String.le (Member a) (Member b).

Definition elt (member : string) (score : float64) : zsetMember :=
  {| Member := member; Score := score |}.

Lemma zlt_irrefl a : ¬ zlt a a.
Proof. unfold zlt, lex3. intros [?|[_ [_ ?]]]; [lia|]. done. Qed.

Lemma zlt_trans a b c : zlt a b → zlt b c → zlt a c.
Proof.
  unfold zlt. intros [H1|[E1 H1]] [H2|[E2 H2]].
  - left. unfold lex3 in *. lia.
  - left. by rewrite <- E2.
  - left. by rewrite E1.
  - right. split; [congruence|]. by etrans.
Qed.

Lemma zlt_total a b : Member a ≠ Member b → zlt a b ∨ zlt b a.
Proof.
  intros Hne. unfold zlt.
  assert (lex3 (rank3 (Score a)) (rank3 (Score b)) ∨ rank3 (Score a) = rank3 (Score b) ∨
          lex3 (rank3 (Score b)) (rank3 (Score a))) as [|[He|]]; [|auto| |auto].
  { unfold lex3. destruct (rank3 (Score a)) as [[a1 a2] a3], (rank3 (Score b)) as [[b1 b2] b3].
    cbn [fst snd]. destruct (Z.lt_total a1 b1) as [|[->|]], (Z.lt_total a2 b2) as [|[->|]],
      (Z.lt_total a3 b3) as [|[->|]]; auto; lia. }
  destruct (total String.le (Member a) (Member b)); [left|right]; right; (split; [done|]);
    (split; [done|]); intros ?; apply Hne; by apply (anti_symm String.le).
Qed.

Lemma at_or_after_spec member score e :
  not_nan score → not_nan (Score e) →
  if at_or_after member score e then ¬ zlt e (elt member score) else zlt e (elt member score).
Proof.
  intros Hs He. unfold at_or_after, zlt, SFeqb, SFltb. cbn [Score Member elt].
  pose proof (SFcompare_rank (Score e) score He Hs) as Hc.
  pose proof (SFcompare_rank score (Score e) Hs He) as Hc'.
  destruct (SFcompare (Score e) score) as [[]|]; cbn [negb]; [| | |done].
  - destruct (String.leb member (Member e)) eqn:E.
    + apply Is_true_true in E. fold (String.le member (Member e)) in E.
      intros [Hx|[_ [Hx Hy]]]; [rewrite Hc in Hx; unfold lex3 in Hx; lia|done].
    + right. split; [done|]. destruct (total String.le member (Member e)) as [Hle|Hle].
      * apply Is_true_true in Hle. congruence.
      * split; [done|]. intros Hle'%Is_true_true. congruence.
  - destruct (SFcompare score (Score e)) as [[]|]; [by left| |by left|done].
    exfalso. unfold lex3 in *. lia.
  - destruct (SFcompare score (Score e)) as [[]|]; [| | |done].
    + exfalso. rewrite Hc' in Hc. unfold lex3 in *. lia.
    + intros [Hx|[Hx _]]; [|rewrite Hx in Hc]; unfold lex3 in *; lia.
    + exfalso. unfold lex3 in *. lia.
Qed.

(** ** The invariant *)
Record zs_ok (z : dbxZSet) : Prop := {
  zs_nan m sc : scores z !! m = Some sc → not_nan sc;
  zs_sorted : StronglySorted zlt (sorted z);
  zs_elem m sc : elt m sc ∈ sorted z ↔ scores z !! m = Some sc
}.

Lemma zs_ok_empty : zs_ok p_empty.
Proof. split; cbn; [done|constructor|]. intros m sc. rewrite lookup_empty. split; [by intros ?%not_elem_of_nil|done]. Qed.

(** The search splits a sorted slice at the place of the member. *)
Lemma search_split l member score :
  not_nan score → Forall (fun e => not_nan (Score e)) l → StronglySorted zlt l →
  let i := search_sorted l member score in
  (i ≤ length l)%nat ∧
  Forall (fun e => zlt e (elt member score)) (take i l) ∧
  Forall (fun e => ¬ zlt e (elt member score)) (drop i l).
Proof.
  intros Hs Hl Hsort i.
  set (f := fun i => match l !! i with Some e => at_or_after member score e | None => true end).
  assert (Hf : ∀ k e, l !! k = Some e →
    if f k then ¬ zlt e (elt member score) else zlt e (elt member score)).
  { intros k e Hk. unfold f. rewrite Hk. apply at_or_after_spec; [done|].
    by eapply Forall_lookup_1 in Hl. }
  destruct (sort_Search_spec (length l) f) as (H1 & H2 & H3).
  { intros a b Hab Ha. destruct (l !! b) as [eb|] eqn:Eb; [|unfold f; by rewrite Eb].
    destruct (lookup_lt_is_Some_2 l a) as [ea Ea]; [apply lookup_lt_Some in Eb; lia|].
    pose proof (Hf b eb Eb) as Hb. destruct (f b); [done|].
    specialize (Hf a ea Ea). rewrite Ha in Hf. destruct Hf.
    destruct (decide (a = b)) as [->|]; [by simplify_eq|].
    eapply zlt_trans; [|done]. eapply (StronglySorted_lookup zlt l a b); eauto with lia. }
  change (sort_Search (length l) f) with i in H1, H2, H3.
  split; [done|]. split; apply Forall_lookup_2; intros k e Hk.
  - apply lookup_take_Some in Hk as [Hk Hlt]. specialize (Hf k e Hk). by rewrite H2 in Hf.
  - rewrite lookup_drop in Hk. pose proof (lookup_lt_Some _ _ _ Hk).
    specialize (Hf _ e Hk). by rewrite (H3 (i + k)%nat) in Hf by lia.
Qed.

(** Inserting a member with a new name keeps the slice sorted. *)
Lemma insertSorted_spec l member score :
  not_nan score → Forall (fun e => not_nan (Score e)) l → StronglySorted zlt l →
  (∀ e, e ∈ l → Member e ≠ member) →
  StronglySorted zlt (insertSorted member score l) ∧
  insertSorted member score l ≡ₚ elt member score :: l.
Proof.
  intros Hs Hl Hsort Hfresh. unfold insertSorted.
  destruct (search_split l member score Hs Hl Hsort) as (_ & Hb & Ha).
  set (i := search_sorted l member score) in *. fold (elt member score).
  split; [|by rewrite <- Permutation_middle, take_drop].
  rewrite <- (take_drop i l) in Hsort. apply StronglySorted_app in Hsort as (Hlt & H1 & H2).
  apply StronglySorted_app. split; [|split; [done|]].
  - intros x y Hx [->|Hy]%elem_of_cons; [|by apply Hlt].
    rewrite Forall_forall in Hb. by apply Hb.
  - apply StronglySorted_cons. split; [|done]. rewrite Forall_forall in Ha |- *. intros y Hy.
    destruct (zlt_total (elt member score) y) as [|Hlt']; [|done|by apply Ha in Hy].
    cbn. intros ->. apply (Hfresh y); [|done]. rewrite <- (take_drop i l). apply elem_of_app. by right.
Qed.

(** Removing a member that is there leaves the rest. *)
Lemma removeSorted_spec l member score :
  not_nan score → Forall (fun e => not_nan (Score e)) l → StronglySorted zlt l →
  elt member score ∈ l →
  StronglySorted zlt (removeSorted member score l) ∧
  elt member score :: removeSorted member score l ≡ₚ l.
Proof.
  intros Hs Hl Hsort Hin. unfold removeSorted.
  destruct (search_split l member score Hs Hl Hsort) as (_ & Hb & Ha).
  set (i := search_sorted l member score) in *.
  assert (Hx : ∃ r, drop i l = elt member score :: r).
  { rewrite <- (take_drop i l) in Hin, Hsort. apply elem_of_app in Hin as [Hin|Hin].
    { rewrite Forall_forall in Hb. apply Hb, zlt_irrefl in Hin. done. }
    apply StronglySorted_app in Hsort as (_ & _ & Hd). destruct (drop i l) as [|y r]; [by apply not_elem_of_nil in Hin|].
    apply elem_of_cons in Hin as [<-|Hin]; [by exists r|].
    apply StronglySorted_cons in Hd as [Hy _]. rewrite Forall_forall in Hy. apply Hy in Hin.
    by apply Forall_cons in Ha as [? _]. }
  destruct Hx as [r Hr]. assert (Hi : l !! i = Some (elt member score)).
  { rewrite <- (Nat.add_0_r i), <- lookup_drop, Hr. done. }
  rewrite Hi, bool_decide_eq_true_2 by done.
  assert (Hr' : drop (S i) l = r) by (apply drop_S in Hi; rewrite Hi in Hr; by injection Hr).
  rewrite Hr'. rewrite <- (take_drop i l) in Hsort. rewrite Hr in Hsort.
  apply StronglySorted_app in Hsort as (Hlt & H1 & H2). apply StronglySorted_cons in H2 as [_ H2].
  split; [|by rewrite Permutation_middle, <- Hr, take_drop].
  apply StronglySorted_app. split; [|done]. intros x y Hx Hy. apply Hlt; [done|by right].
Qed.

Lemma zs_ok_Forall z : zs_ok z → Forall (fun e => not_nan (Score e)) (sorted z).
Proof. intros Hz. apply Forall_forall. intros [m sc] He. by apply (zs_elem z Hz), (zs_nan z Hz) in He. Qed.

(** Dropping a member from the map and the slice. *)
Lemma zs_ok_remove z member score :
  zs_ok z → scores z !! member = Some score →
  zs_ok {| scores := delete member (scores z); sorted := removeSorted member score (sorted z) |}.
Proof.
  intros Hz Hm. pose proof (zs_nan z Hz _ _ Hm) as Hn.
  destruct (removeSorted_spec (sorted z) member score Hn (zs_ok_Forall z Hz) (zs_sorted z Hz))
    as [Hs Hp]; [by apply zs_elem|].
  set (r := removeSorted member score (sorted z)) in *. clearbody r.
  split; cbn [scores sorted].
  - intros m sc [_ Hl]%lookup_delete_Some. by eapply zs_nan.
  - done.
  - intros m sc. rewrite lookup_delete_Some, <- (zs_elem z Hz), <- Hp, elem_of_cons. split.
    + intros He. split; [|by right]. intros <-.
      assert (elt member sc ∈ sorted z) as Hin by (rewrite <- Hp; by right).
      apply (zs_elem z Hz) in Hin. simplify_eq.
      pose proof (zs_sorted z Hz) as Hss. apply (NoDup_cons_1_1 (elt member score)) in He; [done|].
      rewrite Hp. clear -Hss. induction Hss as [|x l _ IH Hx]; constructor; [|done].
      intros Hin. rewrite Forall_forall in Hx. by apply Hx, zlt_irrefl in Hin.
    + intros [Hne [Heq|He]]; [|done]. injection Heq. congruence.
Qed.

Lemma zs_ok_put z member score : zs_ok z → not_nan score → zs_ok (zset_put member score z).
Proof.
  intros Hz Hn. unfold zset_put.
  assert (∃ z0, zs_ok z0 ∧ scores z0 = delete member (scores z) ∧
    sorted z0 = match scores z !! member with
                | Some old => removeSorted member old (sorted z) | None => sorted z end)
    as (z0 & Hz0 & Hsc & <-).
  { destruct (scores z !! member) as [old|] eqn:Em.
    - eexists. split; [by apply zs_ok_remove|done].
    - exists z. by rewrite delete_id. }
  assert (Hfresh : ∀ e, e ∈ sorted z0 → Member e ≠ member).
  { intros [m sc] He; cbn [Member]; intros ->. apply (zs_elem z0 Hz0) in He. by rewrite Hsc, lookup_delete_eq in He. }
  destruct (insertSorted_spec (sorted z0) member score Hn (zs_ok_Forall z0 Hz0) (zs_sorted z0 Hz0) Hfresh)
    as [Hs Hp].
  split; cbn [scores sorted]; [|done|].
  - intros m sc [[<- <-]|[_ Hm]]%lookup_insert_Some; [done|].
    by eapply (zs_nan z Hz).
  - intros m sc. rewrite Hp, elem_of_cons, (zs_elem z0 Hz0), Hsc, lookup_insert_Some, lookup_delete_Some.
    split.
    + intros [Heq|?]; [injection Heq as -> ->; by left|by right].
    + intros [[-> ->]|?]; [by left|by right].
Qed.

Lemma zadd_loop_spec members z :
  NoDup members.*1 → Forall (fun p => not_nan p.2) members → zs_ok z →
  let '(added, z') := zadd_loop members z in
  zs_ok z' ∧ scores z' = list_to_map members ∪ scores z ∧
  added = Z.of_nat (size (scores z')) - Z.of_nat (size (scores z)).
Proof.
  unfold zadd_loop. replace (Z.of_nat (size (scores z))) with (Z.of_nat (size (scores z)) - 0) by lia.
  generalize 0 as n. revert z. induction members as [|[m sc] ms IH]; intros z n Hnd Hn Hz; cbn [foldl].
  { conjs; [done| |lia]. cbn [list_to_map foldr]. by rewrite map_empty_union. }
  cbn [fmap list_fmap] in Hnd. apply NoDup_cons in Hnd as [Hm Hnd]. apply Forall_cons in Hn as [Hsc Hn].
  specialize (IH (zset_put m sc z) (if scores z !! m is Some _ then n else n + 1) Hnd Hn
                (zs_ok_put z m sc Hz Hsc)).
  destruct (foldl _ _ ms) as [added z']. destruct IH as (IH1 & IH2 & IH3). conjs; [done| |].
  - rewrite IH2. cbn [zset_put scores list_to_map foldr fst snd]. rewrite <- insert_union_l.
    symmetry. by apply insert_union_r, not_elem_of_list_to_map_1.
  - rewrite IH3. cbn [zset_put scores]. rewrite map_size_insert.
    destruct (scores z !! m); cbn [id]; lia.
Qed.

Lemma zrem_loop_spec members z :
  zs_ok z →
  let '(removed, z') := zrem_loop members z in
  zs_ok z' ∧ scores z' = filter (fun p => p.1 ∉ members) (scores z) ∧
  removed = Z.of_nat (size (scores z)) - Z.of_nat (size (scores z')).
Proof.
  unfold zrem_loop. replace (Z.of_nat (size (scores z))) with (Z.of_nat (size (scores z)) + 0) by lia.
  generalize 0 as n. revert z. induction members as [|m ms IH]; intros z n Hz; cbn [foldl].
  { conjs; [done| |lia]. symmetry. apply map_filter_id. intros i x _. apply not_elem_of_nil. }
  assert (Hfil : filter (fun p => p.1 ∉ m :: ms) (scores z)
                 = filter (fun p => p.1 ∉ ms) (delete m (scores z))).
  { apply map_eq. intros i. apply option_eq. intros x.
    rewrite !map_lookup_filter_Some, lookup_delete_Some. cbn [fst].
    rewrite not_elem_of_cons. intuition congruence. }
  destruct (scores z !! m) as [w|] eqn:Em.
  - specialize (IH _ (n + 1) (zs_ok_remove z m w Hz Em)).
    destruct (foldl _ _ ms) as [removed z']. destruct IH as (IH1 & IH2 & IH3).
    cbn [scores] in IH2, IH3. conjs; [done|by rewrite Hfil|]. rewrite IH3.
    rewrite map_size_delete_Some by done.
    assert (size (scores z) ≠ 0%nat) by (rewrite map_size_empty_iff; intros He; by rewrite He in Em). lia.
  - specialize (IH z n Hz). destruct (foldl _ _ ms) as [removed z'].
    by rewrite Hfil, delete_id.
Qed.

(** ** Behaviour of the store *)

Lemma StronglySorted_zlt_NoDup l : StronglySorted zlt l → NoDup l.
Proof.
  intros Hs. induction Hs as [|x l _ IH Hx]; constructor; [|done].
  intros Hin. rewrite Forall_forall in Hx. by apply Hx, zlt_irrefl in Hin.
Qed.

Lemma rank_loop_spec member i l :
  match rank_loop member i l with
  | Some r => ∃ k e, r = i + Z.of_nat k ∧ l !! k = Some e ∧ Member e = member
  | None => ∀ e, e ∈ l → Member e ≠ member
  end.
Proof.
  revert i. induction l as [|e l IH]; intros i; cbn [rank_loop]; [by intros e ?%not_elem_of_nil|].
  destruct (bool_decide _) eqn:E; bool_to_prop.
  - exists O, e. split; [lia|done].
  - specialize (IH (i + 1)). destruct (rank_loop member (i + 1) l) as [r|].
    + destruct IH as (k & e' & -> & Hk & He). exists (S k), e'. split; [lia|done].
    + intros e' [->|Hin]%elem_of_cons; auto.
Qed.

Lemma size_scores z : zs_ok z → size (scores z) = length (sorted z).
Proof.
  intros Hz. assert (map_to_list (scores z) ≡ₚ (fun e => (Member e, Score e)) <$> sorted z) as Hp.
  { apply NoDup_Permutation.
    - apply NoDup_map_to_list.
    - apply NoDup_fmap_2; [|by apply StronglySorted_zlt_NoDup, zs_sorted].
      intros [m1 s1] [m2 s2]. cbn. congruence.
    - intros [m sc]. rewrite elem_of_map_to_list, <- (zs_elem z Hz), list_elem_of_fmap. split.
      + intros He. by exists (elt m sc).
      + intros ([m' sc'] & [= -> ->] & He). done. }
  rewrite <- length_map_to_list, Hp. apply length_fmap.
Qed.

(** The number of elements before a position of a sorted slice is the number
    that are smaller. *)
Lemma count_before l k e :
  StronglySorted zlt l → l !! k = Some e →
  ∀ x, x ∈ take k l ↔ x ∈ l ∧ zlt x e.
Proof.
  intros Hs Hk x. split.
  - intros Hx. split; [by eapply elem_of_take in Hx as (i & ? & _); eapply list_elem_of_lookup_2|].
    apply elem_of_take in Hx as (i & Hi & Hlt). by eapply (StronglySorted_lookup zlt l i k).
  - intros [Hx Hlt]. apply list_elem_of_lookup in Hx as [i Hi]. apply elem_of_take.
    exists i. split; [done|]. destruct (decide (i < k)%nat) as [|Hge]; [done|]. exfalso.
    destruct (decide (i = k)) as [->|]; [simplify_eq; by apply zlt_irrefl in Hlt|].
    eapply (zlt_irrefl x), zlt_trans; [done|]. eapply (StronglySorted_lookup zlt l k i); eauto with lia.
Qed.

Section Behaviour.
Context {S : Type} `{EntryStoreLaws S}.

(** Every sorted set in the store satisfies the invariant at [key]. *)
Definition zset_good (now : Z) (key : string) (s : S) : Prop :=
  ∀ z, payload_at now key s = Ok (Some z) → zs_ok z.

(** The sorted set a key holds; a missing key is the empty one. *)
Definition zset_at (now : Z) (key : string) (s : S) : option dbxZSet :=
  match payload_at now key s with Ok o => Some (default p_empty o) | _ => None end.

Lemma zset_at_ok now key (s : S) z : zset_good now key s → zset_at now key s = Some z → zs_ok z.
Proof.
  unfold zset_good, zset_at. intros Hg. destruct (payload_at now key s) as [[z'|]| |]; intros [= <-].
  - by apply Hg.
  - apply zs_ok_empty.
Qed.

Lemma updates_zset {B} now key (f : dbxZSet → res error B * dbxZSet) (s : S) z :
  es_wf s → zset_at now key s = Some z →
  let '(r, s') := modify now key f s in
  es_wf s' ∧ r = fst (f z) ∧ zset_at now key s' = Some (snd (f z)) ∧
  payload_at now key s' = Ok (Some (snd (f z))).
Proof.
  intros Hwf Hz. destruct (modify_updates now key f s Hwf) as (Hwf' & _ & Hu). unfold zset_at in *.
  destruct (payload_at now key s) as [o| |]; [|done..]. simplify_eq. destruct Hu as [Hr Hp].
  destruct (modify now key f s) as [r s']. cbn [fst snd] in *. by rewrite Hp.
Qed.

(** C32: on a key holding a well-formed sorted set or nothing, ZADD of
    scores that are numbers and ZREM keep the slice strictly ordered by score and
    name and equal, as a set of pairs, to the map; the new map is the union,
    respectively the part not named, and the answer is the change in
    cardinality. ZINCRBY with a sum that is a number stores that sum. *)
Theorem zset_updates now key members names member delta (s : S) z :
  es_wf s → zset_good now key s → zset_at now key s = Some z →
  map_Forall (fun _ sc => not_nan sc) members →
  let sum := float_add (default float_zero (scores z !! member)) delta in
  not_nan sum →
  (let '(r, s') := ZAdd now key members s in
   ∃ z', zset_at now key s' = Some z' ∧ zs_ok z' ∧ zset_good now key s' ∧
     scores z' = members ∪ scores z ∧
     r = Ok (Z.of_nat (size (scores z')) - Z.of_nat (size (scores z)))) ∧
  (let '(r, s') := ZRem now key names s in
   ∃ z', zset_at now key s' = Some z' ∧ zs_ok z' ∧ zset_good now key s' ∧
     scores z' = filter (fun p => p.1 ∉ names) (scores z) ∧
     r = Ok (Z.of_nat (size (scores z)) - Z.of_nat (size (scores z')))) ∧
  (let '(r, s') := ZIncrBy now key member delta s in
   ∃ z', zset_at now key s' = Some z' ∧ zs_ok z' ∧ zset_good now key s' ∧
     scores z' = <[member := sum]> (scores z) ∧ r = Ok sum).
Proof.
  intros Hwf Hg Hz Hm sum Hsum. pose proof (zset_at_ok _ _ _ _ Hg Hz) as Hok. conjs.
  - pose proof (zadd_loop_spec (map_to_list members) z (NoDup_fst_map_to_list _)) as Hl.
    unfold ZAdd. pose proof (updates_zset now key (fun z : dbxZSet =>
      let '(added, z) := zadd_loop (map_to_list members) z in (Ok added, z)) s z Hwf Hz) as Hu.
    destruct (modify _ _ _ s) as [r s']. destruct (zadd_loop (map_to_list members) z) as [added z'].
    cbn [fst snd] in Hu. destruct Hu as (_ & -> & Hat & Hp). destruct Hl as (Hz' & Hsc & Hn); [|done|].
    { apply Forall_forall. intros [m sc] Hin. apply elem_of_map_to_list in Hin. by eapply Hm. }
    exists z'. conjs; [done..| | |by rewrite Hn].
    + intros z'' Hz''. rewrite Hp in Hz''. by injection Hz'' as <-.
    + by rewrite list_to_map_to_list in Hsc.
  - pose proof (zrem_loop_spec names z Hok) as Hl. unfold ZRem.
    pose proof (updates_zset now key (fun z : dbxZSet =>
      let '(removed, z) := zrem_loop names z in (Ok removed, z)) s z Hwf Hz) as Hu.
    destruct (modify _ _ _ s) as [r s']. destruct (zrem_loop names z) as [removed z'].
    cbn [fst snd] in Hu. destruct Hu as (_ & -> & Hat & Hp). destruct Hl as (Hz' & Hsc & Hn).
    exists z'. conjs; [done..| |done|by rewrite Hn]. intros z'' Hz''. rewrite Hp in Hz''. by injection Hz'' as <-.
  - unfold ZIncrBy. pose proof (updates_zset now key (fun z : dbxZSet =>
      let score := float_add (default float_zero (scores z !! member)) delta in
      (Ok score, zset_put member score z)) s z Hwf Hz) as Hu.
    destruct (modify _ _ _ s) as [r s']. cbn [fst snd] in Hu. destruct Hu as (_ & -> & Hat & Hp).
    eexists. conjs; [done|by apply zs_ok_put| |done|done].
    intros z'' Hz''. rewrite Hp in Hz''. injection Hz'' as <-. by apply zs_ok_put.
Qed.

(** On a well-formed sorted set, ZCARD is the length of the
    slice; ZSCORE is the map; ZRANK answers how many members are smaller (the
    members before it are exactly those) and ZREVRANK counts from the other end;
    a member without a score has no rank; ZRANGE answers the members between the
    two ranks in order; ZRANGEBYSCORE answers in order exactly the members whose
    score is within the bounds, and ZCOUNT their number. *)
Theorem zset_queries now key member start stop lo hi (s : S) z :
  es_wf s → zset_good now key s → zset_at now key s = Some z →
  ZCard now key s = Ok (zlen (sorted z)) ∧
  ZScore now key member s = Ok (scores z !! member) ∧
  match scores z !! member with
  | Some sc => ∃ before, ZRank now key member s = Ok (Some (zlen before)) ∧
      before `prefix_of` sorted z ∧ (∀ e, e ∈ before ↔ e ∈ sorted z ∧ zlt e (elt member sc)) ∧
      ZRevRank now now key member s = Ok (Some (zlen (sorted z) - 1 - zlen before))
  | None => ZRank now key member s = Ok None ∧ ZRevRank now now key member s = Ok None
  end ∧
  (∃ r, ZRange now key start stop s = Ok r ∧ range_spec (sorted z) start stop r) ∧
  ∃ r, ZRangeByScore now key lo hi s = Ok r ∧ StronglySorted zlt r ∧
    (∀ e, e ∈ r ↔ e ∈ sorted z ∧ SFleb lo (Score e) = true ∧ SFleb (Score e) hi = true) ∧
    ZCount now key lo hi s = Ok (zlen r).
Proof.
  intros Hwf Hg Hz. pose proof (zset_at_ok _ _ _ _ Hg Hz) as Hok.
  assert (Hr : ∀ B (f : dbxZSet → B) d, f p_empty = d →
    (let? o := getReadOnly (A := dbxZSet) now key s in
     match o with None => Ok d | Some z => Ok (f z) end) = Ok (f z)).
  { intros B f d <-. rewrite getReadOnly_spec by done. unfold zset_at in Hz.
    destruct (payload_at now key s) as [[z0|]| |]; by simplify_eq. }
  assert (Hrank : ZRank now key member s = Ok (rank_loop member 0 (sorted z)))
    by by apply (Hr _ (fun z => rank_loop member 0 (sorted z))).
  assert (Hbs : ZRangeByScore now key lo hi s = Ok (List.filter (in_score_range lo hi) (sorted z)))
    by by apply (Hr _ (fun z => List.filter (in_score_range lo hi) (sorted z))).
  conjs.
  - unfold zlen. rewrite <- size_scores by done.
    by apply (Hr _ (fun z => Z.of_nat (size (scores z)))).
  - by apply (Hr _ (fun z => scores z !! member)).
  - pose proof (rank_loop_spec member 0 (sorted z)) as Hl. unfold ZRevRank. rewrite Hrank.
    destruct (scores z !! member) as [sc|] eqn:Em; destruct (rank_loop member 0 (sorted z)) as [r|].
    + destruct Hl as (k & e & -> & Hk & He).
      assert (e = elt member sc) as ->.
      { destruct e as [m sc']. cbn in He. subst m.
        pose proof (list_elem_of_lookup_2 _ _ _ Hk) as Hin. apply (zs_elem z Hok) in Hin.
        by simplify_eq. }
      assert (Hlen : zlen (take k (sorted z)) = 0 + Z.of_nat k).
      { unfold zlen. rewrite length_take. apply lookup_lt_Some in Hk. lia. }
      exists (take k (sorted z)). rewrite Hlen. conjs; [done|apply prefix_take| |].
      * intros e. by apply count_before; [apply zs_sorted|].
      * cbn [rbind]. pose proof (Hr _ (fun z => z) p_empty eq_refl) as Hr'.
        destruct (getReadOnly _ _ _) as [[z0|]| |]; cbn [rbind] in Hr'; simplify_eq; done.
    + exfalso. eapply Hl; [by apply (zs_elem z Hok)|done].
    + exfalso. destruct Hl as (k & [m sc] & _ & Hk & He). cbn in He. subst m.
      apply list_elem_of_lookup_2, (zs_elem z Hok) in Hk. congruence.
    + done.
  - exists (range_of start stop (sorted z)). split; [|apply range_of_spec].
    apply (Hr _ (fun z => range_of start stop (sorted z))). apply range_of_nil.
  - exists (List.filter (in_score_range lo hi) (sorted z)). conjs; [done| | |].
    + by apply StronglySorted_filter, zs_sorted.
    + intros e. unfold in_score_range.
      by rewrite list_elem_of_In, filter_In, <- list_elem_of_In, andb_true_iff.
    + unfold ZCount. by rewrite Hbs.
Qed.
End Behaviour.

(** ** NaN scores *)
Definition nan_set : KVStore :=
  snd (ZAdd 1 "z" {["a" := S754_nan]} (New 4)).

(** A NaN score breaks the agreement of the map and the slice:
    after ZADD of a NaN score and ZREM of the member, ZCARD is 0 but ZRANGE still
    answers the member. *)
Theorem zset_nan_ghost :
  let '(r, s) := ZRem 1 "z" ["a"] nan_set in
  r = Ok 1 ∧ ZCard 1 "z" s = Ok 0 ∧ ZRange 1 "z" 0 (-1) s = Ok [elt "a" S754_nan].
Proof. vm_compute. done. Qed.

(** ** Witnesses *)
Definition one : float64 := S754_finite false 4503599627370496 (-52).
Definition two : float64 := S754_finite false 4503599627370496 (-51).
Definition demo_zset : KVStore :=
  snd (ZAdd 1 "z" {["b" := one; "a" := one; "c" := two]} (New 4)).

Lemma demo_zset_at :
  zset_at 1 "z" demo_zset = Some
    {| scores := {["b" := one; "a" := one; "c" := two]};
       sorted := [elt "a" one; elt "b" one; elt "c" two] |}.
Proof. vm_compute. reflexivity. Qed.

Lemma demo_zset_wf : es_wf demo_zset.
Proof. apply (modify_wf (S := KVStore)). exact (New_wf 4). Qed.

Lemma demo_zset_good : zset_good 1 "z" demo_zset.
Proof.
  pose proof (zadd_loop_spec (map_to_list {["b" := one; "a" := one; "c" := two]}) p_empty
    (NoDup_fst_map_to_list _)) as Hl.
  intros z Hz. assert (z = snd (zadd_loop (map_to_list {["b" := one; "a" := one; "c" := two]}) p_empty)) as ->.
  { vm_compute in Hz |- *. by injection Hz as <-. }
  destruct (zadd_loop _ _) as [n z']. apply Hl; [|apply zs_ok_empty].
  apply (bool_decide_unpack _). vm_compute. exact I.
Qed.

Lemma zset_updates_witness :
  (let '(r, s') := ZIncrBy 1 "z" "a" two demo_zset in
   r = Ok (float_add one two) ∧ zset_good 1 "z" s') ∧
  (let '(r, s') := ZAdd 1 "z" {["a" := two; "d" := one]} demo_zset in zset_good 1 "z" s').
Proof.
  destruct (zset_updates (S := KVStore) 1 "z" {["a" := two; "d" := one]} [] "a" two demo_zset _
    demo_zset_wf demo_zset_good demo_zset_at) as (H1 & _ & H3).
  - apply (bool_decide_unpack _). vm_compute. exact I.
  - apply (bool_decide_unpack _). vm_compute. exact I.
  - split.
    + destruct (ZIncrBy _ _ _ _ _) as [r s']. destruct H3 as (z' & _ & _ & Hg & _ & Hr). by split.
    + destruct (ZAdd _ _ _ _) as [r s']. by destruct H1 as (z' & _ & _ & Hg & _).
Defined.

Lemma zset_queries_witness :
  ZCard 1 "z" demo_zset = Ok 3 ∧ ZRank 1 "z" "c" demo_zset = Ok (Some 2) ∧
  ∃ r, ZRange 1 "z" (-2) (-1) demo_zset = Ok r ∧ range_spec [elt "a" one; elt "b" one; elt "c" two] (-2) (-1) r.
Proof.
  destruct (zset_queries (S := KVStore) 1 "z" "c" (-2) (-1) one two demo_zset _
    demo_zset_wf demo_zset_good demo_zset_at) as (H1 & _ & _ & H4 & _).
  split; [exact H1|]. split; [vm_compute; reflexivity|exact H4].
Defined.
