(* ===== verification/StreamStore.v ===== *)
(** * The stream store ([engine/stream.go])

    A stream is a slice of entries with string identifiers, which the code
    compares as strings, and a map of consumer groups. *)

From S2P Require Import Prelude GoStd Types KV TypedStore.

(** [generateID]: the clock in milliseconds, and the sequence number after the
    last one when the last identifier is of the same millisecond. *)
Definition generateID (now : Z) (last : string) : string :=
  let ms := now / 1000000 in
  let fresh := (FormatInt ms ++ "-0")%string in
  if bool_decide (last ≠ "") then
    let '(lms, lseq) := Sscanf_d_d last in
    if ms =? lms then (FormatInt ms ++ "-" ++ FormatInt (i64 (lseq + 1)))%string else fresh
  else fresh.

Definition xadd (now : Z) (id : string) (fields : gmap string string) (maxLen : Z) (st : dbxStream)
    : res error string * dbxStream :=
  let id := if bool_decide (id = "") || bool_decide (id = "*") then generateID now (lastID st) else id in
  let es := entries st ++ [{| ID := id; Fields := fields |}] in
  let es := if (maxLen >? 0) && (zlen es >? maxLen) then sub es (zlen es - maxLen) (zlen es) else es in
  (Ok id, {| entries := es; lastID := id; groups := groups st |}).

(** The loop of [XRange], with the entries selected so far. *)
Fixpoint xrange_loop (start end_ : string) (count : Z) (es acc : list StreamEntry) : list StreamEntry :=
  match es with
  | [] => acc
  | e :: es =>
      if (bool_decide (start = "-") || String.leb start (ID e)) &&
         (bool_decide (end_ = "+") || String.leb (ID e) end_) then
        let acc := acc ++ [e] in
        if (count >? 0) && (zlen acc >=? count) then acc else xrange_loop start end_ count es acc
      else xrange_loop start end_ count es acc
  end.

(** The loop of [XReadGroup]: the entries delivered and the last identifier. *)
Fixpoint deliver_loop (count : Z) (es acc : list StreamEntry) (last : string)
    : list StreamEntry * string :=
  match es with
  | [] => (acc, last)
  | e :: es =>
      if String.ltb last (ID e) then
        let acc := acc ++ [e] in
        if (count >? 0) && (zlen acc >=? count) then (acc, ID e) else deliver_loop count es acc (ID e)
      else deliver_loop count es acc last
  end.

Definition xgroup_create (group startID : string) (st : dbxStream) : res error unit * dbxStream :=
  if groups st !! group is Some _ then
    (Err (Errorf ("BUSYGROUP consumer group '" ++ group ++ "' already exists")), st)
  else
    (Ok tt, {| entries := entries st; lastID := lastID st;
               groups := <[group := {| g_Name := group; g_LastID := startID;
                                       g_Consumers := ∅; g_Pending := [] |}]> (groups st) |}).

Definition xread_group (group consumerName : string) (count : Z) (st : dbxStream)
    : res error (list StreamEntry) * dbxStream :=
  match groups st !! group with
  | None => (Err (Errorf ("NOGROUP no such consumer group '" ++ group ++ "'")), st)
  | Some g =>
      let c := default {| c_Name := consumerName; c_Pending := [] |} (g_Consumers g !! consumerName) in
      let '(result, last) := deliver_loop count (entries st) [] (g_LastID g) in
      let c := {| c_Name := c_Name c; c_Pending := c_Pending c ++ result |} in
      let g := {| g_Name := g_Name g; g_LastID := last;
                  g_Consumers := <[consumerName := c]> (g_Consumers g); g_Pending := g_Pending g |} in
      (Ok result, {| entries := entries st; lastID := lastID st; groups := <[group := g]> (groups st) |})
  end.

Definition not_in (ids : list string) (e : StreamEntry) : bool := negb (bool_decide (ID e ∈ ids)).

Definition xack (group : string) (ids : list string) (st : dbxStream) : res error Z * dbxStream :=
  match groups st !! group with
  | None => (Ok 0, st)
  | Some g =>
      let remaining := List.filter (not_in ids) (g_Pending g) in
      let acked := zlen (g_Pending g) - zlen remaining in
      let cs := (fun c => {| c_Name := c_Name c; c_Pending := List.filter (not_in ids) (c_Pending c) |})
                <$> g_Consumers g in
      let g := {| g_Name := g_Name g; g_LastID := g_LastID g; g_Consumers := cs; g_Pending := remaining |} in
      (Ok acked, {| entries := entries st; lastID := lastID st; groups := <[group := g]> (groups st) |})
  end.

Section StreamStore.
Context {S : Type} `{EntryStoreLaws S}.

(** [now1] is the clock of the lookup, [now2] the one of [generateID]. *)
Definition XAdd (now1 now2 : Z) (key id : string) (fields : gmap string string) (maxLen : Z) (s : S)
    : res error string * S :=
  modify now1 key (xadd now2 id fields maxLen) s.

Definition XRange (now : Z) (key start end_ : string) (count : Z) (s : S) : res error (list StreamEntry) :=
  let? o := getReadOnly (A := dbxStream) now key s in
  match o with None => Ok [] | Some st => Ok (xrange_loop start end_ count (entries st) []) end.

(** The loop over [keys], reading [ids[i]] by position. *)
Fixpoint xread_loop (now : Z) (keys ids : list string) (count : Z)
    (result : gmap string (list StreamEntry)) (s : S) : res error (gmap string (list StreamEntry)) :=
  match keys with
  | [] => Ok result
  | key :: keys =>
      match ids with
      | [] => Panic
      | startID :: ids =>
          let? es := XRange now key startID "+" count s in
          let filtered := List.filter (fun e => String.ltb startID (ID e)) es in
          xread_loop now keys ids count
            (if zlen filtered >? 0 then <[key := filtered]> result else result) s
      end
  end.
Definition XRead (now : Z) (keys ids : list string) (count : Z) (s : S)
    : res error (gmap string (list StreamEntry)) :=
  xread_loop now keys ids count ∅ s.

Definition XLen (now : Z) (key : string) (s : S) : res error Z :=
  let? o := getReadOnly (A := dbxStream) now key s in
  match o with None => Ok 0 | Some st => Ok (zlen (entries st)) end.

Definition XGroupCreate (now : Z) (key group startID : string) (s : S) : res error unit * S :=
  modify now key (xgroup_create group startID) s.

(** The parameter [lastID] of the source is not used by its body. *)
Definition XReadGroup (now : Z) (key group consumerName : string) (count : Z) (s : S)
    : res error (list StreamEntry) * S :=
  modify now key (xread_group group consumerName count) s.

Definition XAck (now : Z) (key group : string) (ids : list string) (s : S) : res error Z * S :=
  modify now key (xack group ids) s.

End StreamStore.

(** ** Arguments *)
Fixpoint field_pairs (args : list slice) (fields : gmap string string) : gmap string string :=
  match args with
  | f :: v :: args => field_pairs args (<[to_str f := to_str v]> fields)
  | _ => fields
  end.
Definition ParseStreamFields (args : list slice) : res error (gmap string string) :=
  if negb (zlen args mod 2 =? 0) then Err (Errorf "odd number of field-value pairs")
  else Ok (field_pairs args ∅).

(** [args[idx]], which panics out of range. *)
Definition arg_at (args : list slice) (idx : nat) : res error string :=
  match args !! idx with Some a => Ok (to_str a) | None => Panic end.

Definition ParseXAddArgs (args : list slice) : res error (string * string * gmap string string * Z) :=
  if zlen args <? 4 then Err ErrSyntax
  else
    let? key := arg_at args 0 in
    let? a1 := arg_at args 1 in
    let? p :=
      (if bool_decide (ToUpper a1 = "MAXLEN") then
         if zlen args <=? 2 then Err ErrSyntax
         else
           let? a2 := arg_at args 2 in
           let idx := if bool_decide (a2 = "~") then 3%nat else 2%nat in
           let? a := arg_at args idx in
           Ok (Datatypes.S idx, Sscanf_d a 0)
       else Ok (1%nat, 0)) in
    let '(idx, maxLen) := p in
    if zlen args <=? Z.of_nat idx then Err ErrSyntax
    else
      let? id := arg_at args idx in
      let? fields := ParseStreamFields (drop (Datatypes.S idx) args) in
      Ok (key, id, fields, maxLen).

(** ** Selection and delivery *)

Definition id_lt (a b : StreamEntry) : Prop := String.ltb (ID a) (ID b) = true.

(** The entries [XRange] is meant to select. *)
Definition selected (start end_ : string) (e : StreamEntry) : bool :=
  (bool_decide (start = "-") || String.leb start (ID e)) &&
  (bool_decide (end_ = "+") || String.leb (ID e) end_).

(** [take], where a count that is not positive means no limit. *)
Definition limit {A} (count : Z) (l : list A) : list A :=
  if count >? 0 then take (Z.to_nat count) l else l.

Lemma xrange_loop_spec start end_ count es acc :
  ((count >? 0) = true → zlen acc < count) →
  xrange_loop start end_ count es acc = limit count (acc ++ List.filter (selected start end_) es).
Proof.
  revert acc. induction es as [|e es IH]; intros acc Hacc; cbn [xrange_loop List.filter].
  { rewrite app_nil_r. unfold limit. destruct (count >? 0); [|done].
    rewrite take_ge; [done|]. specialize (Hacc eq_refl). unfold zlen in Hacc. lia. }
  fold (selected start end_ e). destruct (selected start end_ e); [|by apply IH].
  destruct (_ && _) eqn:E.
  - bool_to_prop. unfold limit. destruct (count >? 0) eqn:Ec; bool_to_prop; [|lia].
    specialize (Hacc eq_refl). rewrite zlen_app in *. change (zlen [e]) with 1 in *.
    rewrite (cons_middle e acc (List.filter _ _)), app_assoc, take_app_length'; [done|].
    rewrite length_app. unfold zlen in *. cbn. lia.
  - rewrite IH; [by rewrite <- app_assoc|]. intros Hc. rewrite Hc in E. cbn in E.
    by bool_to_prop.
Qed.

Lemma limit_cons {A} count (x : A) l : ∃ l', limit count (x :: l) = x :: l'.
Proof.
  unfold limit. destruct (count >? 0) eqn:E; [|by eexists]. bool_to_prop.
  destruct (Z.to_nat count) as [|n] eqn:En; [lia|]. by exists (take n l).
Qed.

(** The identifier a group moves to: that of the last entry delivered. *)
Definition last_id (dflt : string) (l : list StreamEntry) : string :=
  default dflt (ID <$> list.last l).

Lemma last_id_cons d1 d2 x l : last_id d1 (x :: l) = last_id d2 (x :: l).
Proof. unfold last_id. by destruct (last_is_Some (x :: l)) as [_ [y ->]]. Qed.

(** On entries in increasing order, what a group receives is the entries after
    its last identifier, in order, cut at the count. *)
Lemma deliver_loop_spec count es acc last :
  StronglySorted id_lt es → ((count >? 0) = true → zlen acc < count) → last_id last acc = last →
  let r := limit count (acc ++ List.filter (fun e => String.ltb last (ID e)) es) in
  deliver_loop count es acc last = (r, last_id last r).
Proof.
  intros Hs. revert acc last. induction Hs as [|e es Hs IH He]; intros acc last Hacc Hl r;
    unfold r; cbn [deliver_loop List.filter].
  { rewrite app_nil_r. unfold limit. destruct (count >? 0); [|by rewrite Hl].
    rewrite take_ge; [by rewrite Hl|]. specialize (Hacc eq_refl). unfold zlen in Hacc. lia. }
  destruct (String.ltb last (ID e)) eqn:Elt; [|by apply IH].
  assert (Hall : List.filter (fun x => String.ltb last (ID x)) es = es).
  { clear -He Elt. induction es as [|x es IH]; cbn [List.filter]; [done|].
    apply Forall_cons in He as [Hx He]. by rewrite (String_ltb_trans _ _ _ Elt Hx), IH. }
  assert (Hall' : List.filter (fun x => String.ltb (ID e) (ID x)) es = es).
  { clear -He. induction es as [|x es IH]; cbn [List.filter]; [done|].
    apply Forall_cons in He as [Hx He]. unfold id_lt in Hx. by rewrite Hx, IH. }
  rewrite Hall. destruct (_ && _) eqn:E.
  - bool_to_prop. unfold limit. destruct (count >? 0) eqn:Ec; bool_to_prop; [|lia].
    specialize (Hacc eq_refl). rewrite zlen_app in *. change (zlen [e]) with 1 in *.
    rewrite (cons_middle e acc es), app_assoc, take_app_length'.
    + unfold last_id. by rewrite last_snoc.
    + rewrite length_app. unfold zlen in *. cbn. lia.
  - rewrite IH; [| |unfold last_id; by rewrite last_snoc].
    + rewrite Hall', <- app_assoc. cbn [app]. f_equal.
      destruct (acc ++ e :: es) as [|x l] eqn:Eq; [by destruct acc|].
      destruct (limit_cons count x l) as [l' ->]. apply last_id_cons.
    + intros Hc. rewrite Hc in E. cbn in E. by bool_to_prop.
Qed.

(** ** Behaviour of the store *)

(** Keep the last [n] elements; [n] not positive keeps all. *)
Definition keep_last {A} (n : Z) (l : list A) : list A :=
  if n >? 0 then drop (length l - Z.to_nat n) l else l.

Lemma keep_last_trim {A} n (l : list A) :
  (if (n >? 0) && (zlen l >? n) then sub l (zlen l - n) (zlen l) else l) = keep_last n l.
Proof.
  unfold keep_last. destruct (n >? 0) eqn:E; [|done]. cbn [andb]. bool_to_prop.
  destruct (zlen l >? n) eqn:E2; bool_to_prop; unfold sub, zlen in *.
  - rewrite take_ge by (rewrite length_drop; lia). f_equal. lia.
  - replace (length l - Z.to_nat n)%nat with 0%nat by lia. done.
Qed.

(** What a group has still to receive. *)
Definition undelivered (g : consumerGroup) (st : dbxStream) : list StreamEntry :=
  List.filter (fun e => String.ltb (g_LastID g) (ID e)) (entries st).

Lemma filter_after_take l k e :
  StronglySorted id_lt l → l !! k = Some e →
  List.filter (fun x => String.ltb (ID e) (ID x)) l = drop (S k) l.
Proof.
  intros Hs. revert k. induction Hs as [|x l Hs IH Hx]; intros [|k] Hk; simplify_eq/=.
  - rewrite String_ltb_irrefl, drop_0. clear -Hx. induction l as [|y l IH]; cbn [List.filter]; [done|].
    apply Forall_cons in Hx as [Hy Hx]. unfold id_lt in Hy. by rewrite Hy, IH.
  - destruct (String.ltb (ID e) (ID x)) eqn:E; [|by apply IH].
    rewrite Forall_forall in Hx. apply list_elem_of_lookup_2, Hx in Hk. unfold id_lt in Hk.
    pose proof (String_ltb_trans _ _ _ E Hk) as Hi. by rewrite String_ltb_irrefl in Hi.
Qed.

Lemma filter_filter_id a b es :
  String.ltb a b = true →
  List.filter (fun x => String.ltb b (ID x)) (List.filter (fun x => String.ltb a (ID x)) es)
  = List.filter (fun x => String.ltb b (ID x)) es.
Proof.
  intros Hab. induction es as [|e es IH]; cbn [List.filter]; [done|].
  destruct (String.ltb a (ID e)) eqn:Ea; cbn [List.filter]; [by rewrite IH|]. rewrite IH.
  destruct (String.ltb b (ID e)) eqn:Eb; [|done].
  by rewrite (String_ltb_trans _ _ _ Hab Eb) in Ea.
Qed.

(** Moving a group to the last entry it received leaves the rest undelivered. *)
Lemma undelivered_after es last count :
  StronglySorted id_lt es →
  let pending := List.filter (fun e => String.ltb last (ID e)) es in
  let r := limit count pending in
  List.filter (fun e => String.ltb (last_id last r) (ID e)) es = drop (length r) pending.
Proof.
  intros Hs pending r.
  assert (Hps : StronglySorted id_lt pending) by by apply StronglySorted_filter.
  destruct (list.last r) as [e|] eqn:El; unfold last_id; rewrite El; cbn [fmap option_fmap option_map default from_option id].
  2:{ apply last_None in El. rewrite El. by rewrite drop_0. }
  rewrite last_lookup in El.
  assert (Hk : pending !! Nat.pred (length r) = Some e).
  { unfold r, limit in El |- *. destruct (count >? 0); [|done]. by apply lookup_take_Some in El as [? _]. }
  assert (Hlt : String.ltb last (ID e) = true).
  { apply list_elem_of_lookup_2, list_elem_of_In, filter_In in Hk. tauto. }
  rewrite <- (filter_filter_id last) by done. fold pending. rewrite (filter_after_take _ _ _ Hps Hk).
  f_equal. apply lookup_lt_Some in El. lia.
Qed.

Section Behaviour.
Context {S : Type} `{EntryStoreLaws S}.

Lemma read_stream_as {B} now key (f : dbxStream → B) (g : option dbxStream → res error B) (s : S) :
  es_wf s → g None = Ok (f p_empty) → (∀ l, g (Some l) = Ok (f l)) →
  reads now key f s (let? o := getReadOnly (A := dbxStream) now key s in g o).
Proof.
  intros Hwf Hn Hs. apply read_as; [done|]. unfold rbind.
  destruct (getReadOnly _ _ _) as [[m|]| |]; by rewrite ?Hn, ?Hs.
Qed.

(** XADD appends the entry under the given identifier, or
    under a generated one for the empty name and the star, keeps the last MAXLEN
    entries when MAXLEN is positive, and answers the identifier; XRANGE answers
    in order the entries whose identifiers lie between the bounds, cut at the
    count when it is positive; XLEN is the number of entries. *)
Theorem stream_store_correct now now2 key id fields maxLen start end_ count (s : S) :
  es_wf s →
  updates now key (fun st : dbxStream =>
    let id := if bool_decide (id ∈ [""; "*"]) then generateID now2 (lastID st) else id in
    (Ok id, {| entries := keep_last maxLen (entries st ++ [{| ID := id; Fields := fields |}]);
               lastID := id; groups := groups st |})) s (XAdd now now2 key id fields maxLen s) ∧
  reads now key (fun st => limit count (List.filter (selected start end_) (entries st)))
    s (XRange now key start end_ count s) ∧
  reads now key (fun st => zlen (entries st)) s (XLen now key s).
Proof.
  intros Hwf. conjs.
  - apply modify_as; [done|]. intros st. unfold xadd.
    replace (bool_decide (id = "") || bool_decide (id = "*")) with (bool_decide (id ∈ [""; "*"])).
    + cbv zeta. by rewrite keep_last_trim.
    + rewrite <- bool_decide_or. apply bool_decide_ext.
      rewrite !elem_of_cons. split; [intros [?|[?|Hn%not_elem_of_nil]]; tauto|tauto].
  - apply read_stream_as; [done| |].
    + unfold limit. cbn. by destruct (count >? 0); rewrite ?take_nil.
    + intros st. rewrite xrange_loop_spec; [done|]. intros Hc. bool_to_prop. change (zlen []) with 0. lia.
  - by apply read_stream_as.
Qed.

(** ** Histories of a stream

    The key holds the stream [st], without a deadline. *)
Definition holds_stream (key : string) (st : dbxStream) (s : S) : Prop :=
  es_wf s ∧ ∃ e, es_view s !! key = Some e ∧ EType e = TypeStream ∧ ExpiresAt e = 0 ∧ Value e = VStream st.

Lemma modify_stream {B} now key (f : dbxStream → res error B * dbxStream) (s : S) st :
  holds_stream key st s →
  fst (modify now key f s) = fst (f st) ∧ holds_stream key (snd (f st)) (snd (modify now key f s)).
Proof.
  intros (Hwf & e & He & Ht & Hx & Hv). unfold modify, getOrCreate.
  destruct (es_write_eq now key s Hwf) as (s1 & -> & Hwf1 & _). rewrite He.
  assert (Hl : live now (Some e) = Some e) by (cbn [live]; unfold IsExpired; by rewrite Hx). rewrite Hl.
  change p_type with TypeStream. rewrite bool_decide_eq_true_2 by done. cbn [negb].
  assert (Hp : p_proj (Value e) = Some st) by by rewrite Hv. rewrite Hp.
  destruct (f st) as [b st']. split; [done|]. split; [by apply es_put_wf|].
  exists (setValue (VStream st') e). cbn [fst snd]. by rewrite es_put_view, lookup_insert_eq.
Qed.

(** What the group [G] receives while the stream [key] is used: entries are added
    without a limit on their number, groups are created, read and acknowledged, by
    any consumers at any times, and the rest of the store changes. *)
Definition received (G group : string) (r : res error (list StreamEntry)) : list StreamEntry :=
  match r with Ok l => if decide (group = G) then l else [] | _ => [] end.

Inductive streamed (key G : string) : S → list StreamEntry → S → Prop :=
| sd_nil s : streamed key G s [] s
| sd_add s now now2 id fields maxLen ds s' :
    maxLen ≤ 0 → streamed key G (snd (XAdd now now2 key id fields maxLen s)) ds s' → streamed key G s ds s'
| sd_create s now group startID ds s' :
    streamed key G (snd (XGroupCreate now key group startID s)) ds s' → streamed key G s ds s'
| sd_read s now group c count ds s' :
    streamed key G (snd (XReadGroup now key group c count s)) ds s' →
    streamed key G s (received G group (fst (XReadGroup now key group c count s)) ++ ds) s'
| sd_ack s now group ids ds s' :
    streamed key G (snd (XAck now key group ids s)) ds s' → streamed key G s ds s'
| sd_other s s1 ds s' :
    es_wf s1 → es_view s1 !! key = es_view s !! key → streamed key G s1 ds s' → streamed key G s ds s'.

Abbreviation after last := (List.filter (fun e => String.ltb last (ID e))).

Lemma after_all last l : Forall (fun e => String.ltb last (ID e) = true) l → after last l = l.
Proof. induction 1 as [|e l He _ IH]; cbn [List.filter]; [done|]. by rewrite He, IH. Qed.

(** Entries after those there were at a read do not matter for it. *)
Lemma read_then_rest last count old new :
  StronglySorted id_lt (old ++ new) →
  let r := limit count (after last old) in r ++ after (last_id last r) (old ++ new) = after last (old ++ new).
Proof.
  intros Hs r. apply StronglySorted_app in Hs as (Hcross & Hold & _).
  pose proof (undelivered_after old last count Hold) as Hu. cbv zeta in Hu. fold r in Hu.
  rewrite !List.filter_app, Hu, app_assoc.
  assert (Hr : r ++ drop (length r) (after last old) = after last old).
  { unfold r, limit. destruct (count >? 0).
    - rewrite length_take. destruct (Nat.min_spec (Z.to_nat count) (length (after last old))) as [[? ->]|[? ->]]; [by rewrite take_drop|].
      rewrite take_ge, drop_ge by lia. apply app_nil_r.
    - rewrite drop_all. apply app_nil_r. }
  rewrite Hr. f_equal. destruct (list.last r) as [e|] eqn:El; unfold last_id; rewrite El; cbn; [|done].
  apply last_Some in El as [r' Er].
  assert (Hin : In e (after last old)).
  { apply list_elem_of_In. assert (Hsub : e ∈ r) by (rewrite Er; apply elem_of_app; right; by left).
    unfold r, limit in Hsub. destruct (count >? 0); [|done]. eapply elem_of_sublist; [exact Hsub|apply sublist_take]. }
  apply filter_In in Hin as [Hin Hlt]. rewrite <- list_elem_of_In in Hin.
  assert (Hnew : Forall (fun x => String.ltb (ID e) (ID x) = true) new) by (apply Forall_forall; intros x Hx; by apply (Hcross e x)).
  rewrite (after_all (ID e)) by done. symmetry. apply after_all. eapply Forall_impl; [exact Hnew|].
  intros x Hx. cbn in Hx. by eapply String_ltb_trans.
Qed.

Lemma streamed_keeps key G s ds s' st g :
  streamed key G s ds s' → holds_stream key st s → groups st !! G = Some g →
  ∃ st' g' new, holds_stream key st' s' ∧ groups st' !! G = Some g' ∧ entries st' = entries st ++ new ∧
    (StronglySorted id_lt (entries st') → ds ++ undelivered g' st' = after (g_LastID g) (entries st')).
Proof.
  intros Hrun. revert st g. induction Hrun as [s|s now now2 id fields maxLen ds s' Hm _ IH|s now group startID ds s' _ IH
    |s now group c count ds s' _ IH|s now group ids ds s' _ IH|s s1 ds s' Hwf1 Hview _ IH]; intros st g Hst Hg.
  - exists st, g, []. rewrite app_nil_r. by conjs.
  - assert (H1 : holds_stream key (snd (xadd now2 id fields maxLen st)) (snd (XAdd now now2 key id fields maxLen s)))
      by (by apply modify_stream).
    destruct (IH _ g H1 Hg) as (st' & g' & new & A1 & A2 & A3 & A4). unfold xadd in A3. replace (maxLen >? 0) with false in A3 by lia.
    cbn [andb snd entries] in A3. rewrite <- app_assoc in A3. eexists st', g', _. by conjs.
  - assert (H1 : holds_stream key (snd (xgroup_create group startID st)) (snd (XGroupCreate now key group startID s)))
      by (by apply modify_stream). unfold xgroup_create in H1.
    destruct (groups st !! group) eqn:Eg; [by eapply IH|]. apply (IH _ g H1). cbn. rewrite lookup_insert_ne; [done|congruence].
  - destruct (modify_stream now key (xread_group group c count) s st Hst) as [Hr H1].
    fold (XReadGroup now key group c count s) in Hr, H1. rewrite Hr. clear Hr. revert H1.
    unfold xread_group. destruct (groups st !! group) as [g0|] eqn:Eg; [|intros H1; by eapply IH].
    destruct (deliver_loop count (entries st) [] (g_LastID g0)) as [r last] eqn:Ed. cbn [fst snd received]. intros H1.
    destruct (decide (group = G)) as [->|Hne]; [|apply (IH _ g H1); cbn; by rewrite lookup_insert_ne].
    rewrite Hg in Eg. injection Eg as <-.
    destruct (IH _ _ H1 (lookup_insert_eq _ _ _)) as (st' & g' & new & A1 & A2 & A3 & A4). cbn [entries g_LastID] in A3, A4.
    exists st', g', new. conjs; try done. intros Hs. rewrite <- app_assoc, A4 by done. rewrite A3 in Hs |- *.
    pose proof Hs as (_ & Hold & _)%StronglySorted_app.
    rewrite (deliver_loop_spec count (entries st) [] (g_LastID g)) in Ed; [|done|intros Hc; bool_to_prop; change (zlen []) with 0; lia|done].
    injection Ed as <- <-. by apply (read_then_rest (g_LastID g) count).
  - assert (H1 : holds_stream key (snd (xack group ids st)) (snd (XAck now key group ids s))) by (by apply modify_stream). unfold xack in H1.
    destruct (groups st !! group) as [g0|] eqn:Eg; [|by eapply IH]. cbn [snd] in H1. destruct (decide (group = G)) as [->|Hne].
    + rewrite Hg in Eg. injection Eg as <-. destruct (IH _ _ H1 (lookup_insert_eq _ _ _)) as (st' & g' & new & A). by exists st', g', new.
    + apply (IH _ g H1). cbn. by rewrite lookup_insert_ne.
  - apply (IH st g); [|done]. destruct Hst as (_ & e & He & Hrest). split; [done|]. exists e. by rewrite Hview.
Qed.

(** C33: let a stream without a deadline and one of its
    groups be used in any way, entries added without MAXLEN, groups created, read by
    any consumers and acknowledged, at any times and between any changes of the rest
    of the store. If the identifiers of the entries increase, as strings, then what
    the group has received, in the order of its reads, followed by what it has not
    received yet, is exactly the entries after the identifier the group stood at,
    each one once and in order; and its next read without a count answers all it has
    not received. *)
Theorem xreadgroup_exactly_once key G s ds s' st g :
  holds_stream key st s → groups st !! G = Some g → streamed key G s ds s' →
  ∃ st' g', holds_stream key st' s' ∧ groups st' !! G = Some g' ∧ entries st `prefix_of` entries st' ∧
    (StronglySorted id_lt (entries st') →
     ds ++ undelivered g' st' = after (g_LastID g) (entries st') ∧
     ∀ now c, fst (XReadGroup now key G c 0 s') = Ok (undelivered g' st')).
Proof.
  intros Hst Hg Hrun. destruct (streamed_keeps key G s ds s' st g Hrun Hst Hg) as (st' & g' & new & A1 & A2 & A3 & A4).
  exists st', g'. conjs; [done|done|by exists new|]. intros Hs. split; [by apply A4|]. intros now c.
  destruct (modify_stream now key (xread_group G c 0) s' st' A1) as [Hr _]. unfold XReadGroup. rewrite Hr.
  unfold xread_group. rewrite A2. by rewrite (deliver_loop_spec 0 (entries st') [] (g_LastID g')).
Qed.

(** ** Acknowledgements *)

(** No group of the stream has entries in its own pending list. *)
Definition groups_idle (st : dbxStream) : Prop := map_Forall (fun _ g => g_Pending g = []) (groups st).
Definition stream_idle (now : Z) (key : string) (s : S) : Prop :=
  ∀ st, payload_at now key s = Ok (Some st) → groups_idle st.

Lemma idle_updates {B} now key (f : dbxStream → res error B * dbxStream) (s : S) :
  es_wf s → (∀ st, groups_idle st → groups_idle (snd (f st))) →
  stream_idle now key s → stream_idle now key (snd (modify now key f s)).
Proof.
  intros Hwf Hf Hi st Hst. destruct (modify_updates now key f s Hwf) as (_ & _ & Hu).
  unfold stream_idle, payload_at in *.
  destruct (payload_of (live now (es_view s !! key))) as [o| |] eqn:Ho.
  - destruct Hu as [_ Hp]. rewrite Hst in Hp. injection Hp as ->. apply Hf.
    destruct o as [st0|]; [by apply Hi|]. cbn. apply map_Forall_empty.
  - destruct Hu as [_ Hv]. rewrite Hv, Ho in Hst. done.
  - destruct Hu as [_ Hv]. rewrite Hv, Ho in Hst. done.
Qed.

(** No operation ever adds to the pending list of a group
    (XREADGROUP adds to the consumer's only), so on a stream built by the store
    XACK answers 0, whatever identifiers it is given. *)
Theorem xack_always_zero now now2 key id fields maxLen group startID c count ids (s : S) :
  es_wf s → stream_idle now key s →
  stream_idle now key (snd (XAdd now now2 key id fields maxLen s)) ∧
  stream_idle now key (snd (XGroupCreate now key group startID s)) ∧
  stream_idle now key (snd (XReadGroup now key group c count s)) ∧
  stream_idle now key (snd (XAck now key group ids s)) ∧
  ((∃ o, payload_at (A := dbxStream) now key s = Ok o) → fst (XAck now key group ids s) = Ok 0).
Proof.
  intros Hwf Hi. conjs.
  - apply idle_updates; [done| |done]. done.
  - apply idle_updates; [done| |done]. intros st Hst. unfold xgroup_create.
    destruct (groups st !! group); [done|]. by apply map_Forall_insert_2.
  - apply idle_updates; [done| |done]. intros st Hst. unfold xread_group.
    destruct (groups st !! group) as [g|] eqn:Eg; [|done].
    destruct (deliver_loop _ _ _ _). apply map_Forall_insert_2; [|done]. exact (Hst group g Eg).
  - apply idle_updates; [done| |done]. intros st Hst. unfold xack.
    destruct (groups st !! group) as [g|] eqn:Eg; [|done].
    apply map_Forall_insert_2; [|done]. cbn. by rewrite (Hst group g Eg).
  - intros [o Ho]. destruct (modify_updates now key (xack group ids) s Hwf) as (_ & _ & Hu).
    rewrite Ho in Hu. destruct Hu as [Hr _]. unfold XAck. rewrite Hr. unfold xack.
    destruct (groups (default p_empty o) !! group) as [g|] eqn:Eg; [|done]. cbn [fst].
    destruct o as [st|]; simpl in Eg; [|done].
    by rewrite (Hi st Ho group g Eg).
Qed.
End Behaviour.

(** ** Identifiers are compared as strings *)
Definition add_id (id : string) (s : KVStore) : KVStore := snd (XAdd 1 1 "s" id ∅ 0 s).
Definition demo_stream : KVStore :=
  snd (XGroupCreate 1 "s" "g" "5-0" (add_id "5-2" (add_id "5-1" (New 4)))).

(** XREAD applies the count before it drops the entry equal
    to the given identifier, so reading one entry after an existing one answers
    nothing although later entries exist. *)
Theorem xread_count_stuck :
  XRead 1 ["s"] ["5-1"] 1 demo_stream = Ok ∅ ∧
  ∃ e, XRead 1 ["s"] ["5-1"] 0 demo_stream = Ok {["s" := [e]]} ∧ ID e = "5-2".
Proof. split; [vm_compute; done|]. exists {| ID := "5-2"; Fields := ∅ |}. vm_compute. done. Qed.

(** The identifier generated after sequence number 9
    of a millisecond is smaller as a string, so a group that has received number
    9 is never given number 10. *)
Theorem xreadgroup_loses_tenth :
  let '(r1, s1) := XReadGroup 1 "s" "g" "c" 0 (add_id "5-9" demo_stream) in
  let '(r2, s2) := XAdd 1 5000000 "s" "*" ∅ 0 s1 in
  let '(r3, s3) := XReadGroup 1 "s" "g" "c" 0 s2 in
  (let? l := r1 in Ok (map ID l)) = Ok ["5-1"; "5-2"; "5-9"] ∧ r2 = Ok "5-10" ∧ r3 = Ok [].
Proof. vm_compute. done. Qed.

(** ** Witnesses *)
Lemma demo_stream_wf : es_wf demo_stream.
Proof. do 3 apply (modify_wf (S := KVStore)). exact (New_wf 4). Qed.

Definition demo_st : dbxStream :=
  {| entries := [{| ID := "5-1"; Fields := ∅ |}; {| ID := "5-2"; Fields := ∅ |}]; lastID := "5-2";
     groups := {["g" := {| g_Name := "g"; g_LastID := "5-0"; g_Consumers := ∅; g_Pending := [] |}]} |}.

Lemma demo_stream_at : payload_at 1 "s" demo_stream = Ok (Some demo_st).
Proof. vm_compute. reflexivity. Qed.

Lemma stream_store_correct_witness :
  fst (XAdd 1 7000000 "s" "*" ∅ 2 demo_stream) = Ok "7-0" ∧ XLen 1 "s" demo_stream = Ok 2.
Proof.
  destruct (stream_store_correct (S := KVStore) 1 7000000 "s" "*" ∅ 2 "-" "+" 0 demo_stream demo_stream_wf)
    as (H1 & _ & H3).
  split.
  - destruct H1 as (_ & _ & H1). rewrite demo_stream_at in H1. destruct H1 as [H1 _].
    vm_compute in H1 |- *. exact H1.
  - unfold reads in H3. rewrite H3, demo_stream_at. vm_compute. reflexivity.
Defined.

(** Two consumers, an addition in between. *)
Lemma xreadgroup_exactly_once_witness :
  ∃ ds s', streamed "s" "g" demo_stream ds s' ∧ map ID ds = ["5-1"; "5-2"; "6-0"] ∧
    ∀ now c, fst (XReadGroup now "s" "g" c 0 s') = Ok [].
Proof.
  assert (Hst : holds_stream "s" demo_st demo_stream).
  { split; [exact demo_stream_wf|]. exists (mkEntry (VStream demo_st) TypeStream). vm_compute. repeat split; reflexivity. }
  set (s1 := snd (XReadGroup 1 "s" "g" "c1" 1 demo_stream)). set (s2 := add_id "6-0" s1). set (s3 := snd (XReadGroup 2 "s" "g" "c2" 5 s2)).
  assert (Hrun : streamed "s" "g" demo_stream
    (received "g" "g" (fst (XReadGroup 1 "s" "g" "c1" 1 demo_stream)) ++ received "g" "g" (fst (XReadGroup 2 "s" "g" "c2" 5 s2)) ++ []) s3).
  { apply sd_read. eapply (sd_add _ _ _ 1 1 "6-0" ∅ 0); [done|]. apply sd_read. apply sd_nil. }
  exists (received "g" "g" (fst (XReadGroup 1 "s" "g" "c1" 1 demo_stream)) ++ received "g" "g" (fst (XReadGroup 2 "s" "g" "c2" 5 s2)) ++ []), s3.
  split; [exact Hrun|]. split; [vm_compute; reflexivity|].
  destruct (xreadgroup_exactly_once "s" "g" demo_stream _ s3 demo_st
    {| g_Name := "g"; g_LastID := "5-0"; g_Consumers := ∅; g_Pending := [] |} Hst eq_refl Hrun) as (st' & g' & (_ & e & He & _ & _ & Hv) & Hg & _ & H).
  assert (Est : Some (VStream st') = Value <$> es_view s3 !! "s") by (rewrite He; cbn; by rewrite Hv).
  vm_compute in Est. injection Est as ->. vm_compute in Hg. injection Hg as <-. intros now c.
  rewrite (proj2 (H ltac:(repeat constructor)) now c). vm_compute. reflexivity.
Defined.

Lemma xack_always_zero_witness :
  fst (XAck 1 "s" "g" ["5-1"] (snd (XReadGroup 1 "s" "g" "c" 1 demo_stream))) = Ok 0 ∧
  stream_idle 1 "s" (snd (XReadGroup 1 "s" "g" "c" 1 demo_stream)).
Proof.
  assert (Hi : stream_idle 1 "s" demo_stream).
  { intros st Hst. rewrite demo_stream_at in Hst. injection Hst as <-.
    apply (bool_decide_unpack _). vm_compute. exact I. }
  destruct (xack_always_zero (S := KVStore) 1 1 "s" "*" ∅ 0 "g" "0" "c" 1 ["5-1"] demo_stream
    demo_stream_wf Hi) as (_ & _ & Hi' & _).
  split; [|exact Hi'].
  apply (xack_always_zero (S := KVStore) 1 1 "s" "*" ∅ 0 "g" "0" "c" 1 ["5-1"]); [|exact Hi'|].
  - apply (modify_wf (S := KVStore)), demo_stream_wf.
  - eexists. vm_compute. reflexivity.
Defined.
