(* ===== verification/BitmapStore.v ===== *)
(** * The bitmap store ([engine/bitmap.go])

    Bit operations on byte slices held by bitmap or string entries. Offsets are
    Go [int]s, so division and remainder truncate towards zero. *)

From S2P Require Import Prelude Types KV.

Definition is_bits (t : DataType) : bool := bool_decide (t = TypeBitmap) || bool_decide (t = TypeString).

(** [ensureSize]: append zero bytes until the byte of [bit] is there. *)
Definition ensureSize (buf : slice) (bit : Z) : slice :=
  sappend buf (replicate (Z.to_nat (Z.quot bit 8 + 1 - slen buf)) Byte.x00).

(** [(b >> bitIdx) & 1], and the two assignments to one bit; the shifted 1 is a
    byte, so a shift by 8 or more is 0. *)
Definition bit_of (b : byte) (bitIdx : Z) : Z := Z.land (Z.shiftr (b2z b) bitIdx) 1.
Definition set_bit_of (b : byte) (bitIdx value : Z) : byte :=
  let mask := u8 (Z.shiftl 1 bitIdx) in
  z2b (if value =? 1 then Z.lor (b2z b) mask else Z.ldiff (b2z b) mask).

(** [for b != 0 { count += int(b & 1); b >>= 1 }]; a byte is 0 after 8 rounds. *)
Fixpoint popCount_loop (fuel : nat) (b count : Z) : Z :=
  match fuel with
  | O => count
  | S fuel' => if b =? 0 then count else popCount_loop fuel' (Z.shiftr b 1) (count + Z.land b 1)
  end.
Definition popCount (b : byte) : Z := popCount_loop 9 (b2z b) 0.

Definition bit_count (buf : list byte) (start end_ : Z) : Z :=
  foldl (fun count b => count + popCount b) 0 (if start >? end_ then [] else sub buf start (end_ + 1)).

(** The inner loop of [BitPos] over one byte, from [bitIdx] down. *)
Fixpoint byte_pos (b : byte) (bitVal : Z) (bitIdx : nat) : option Z :=
  if bit_of b (Z.of_nat bitIdx) =? bitVal then Some (7 - Z.of_nat bitIdx)
  else match bitIdx with O => None | S i => byte_pos b bitVal i end.
Fixpoint bit_pos (buf : list byte) (byteIdx : Z) (bitVal : Z) : option Z :=
  match buf with
  | [] => None
  | byt :: buf =>
      match byte_pos byt bitVal 7 with
      | Some p => Some (byteIdx * 8 + p)
      | None => bit_pos buf (byteIdx + 1) bitVal
      end
  end.

Section BitmapStore.
Context {S : Type} `{EntryStoreLaws S}.

(** [getBitmap]: the bytes, with the entry that holds them. *)
Definition getBitmap (now : Z) (key : string) (s : S) : res error (slice * option Entry) * S :=
  let '(o, s) := es_write now key s in
  match o with
  | None => (Ok (None, None), s)
  | Some e =>
      if negb (is_bits (EType e)) then (Err ErrWrongType, s)
      else match Value e with
           | VBytes v => (Ok (v, Some e), s)
           | _ => (Err ErrWrongType, s)
           end
  end.

Definition SetBit (now : Z) (key : string) (offset value : Z) (s : S) : res error Z * S :=
  let '(r, s) := getBitmap now key s in
  match r with
  | Err e => (Err e, s)
  | Panic => (Panic, s)
  | Ok (buf, e) =>
      let buf := ensureSize buf offset in
      let byteIdx := Z.quot offset 8 in
      let bitIdx := 7 - Z.rem offset 8 in
      if byteIdx <? 0 then (Panic, s)
      else
        let b := contents buf !!! Z.to_nat byteIdx in
        let oldBit := bit_of b bitIdx in
        let buf := Some (<[Z.to_nat byteIdx := set_bit_of b bitIdx value]> (contents buf)) in
        let entry := match e with
                     | None => mkEntry (VBytes buf) TypeBitmap
                     | Some e => setValue (VBytes buf) e
                     end in
        (Ok oldBit, es_put key entry s)
  end.

(** The bytes a read sees; the type assertion panics on another payload. *)
Definition readBits (now : Z) (key : string) (s : S) : res error (option (list byte)) :=
  match es_read now key s with
  | None => Ok None
  | Some e =>
      if negb (is_bits (EType e)) then Err ErrWrongType
      else match Value e with VBytes v => Ok (Some (contents v)) | _ => Panic end
  end.

Definition GetBit (now : Z) (key : string) (offset : Z) (s : S) : res error Z :=
  let? o := readBits now key s in
  match o with
  | None => Ok 0
  | Some buf =>
      let byteIdx := Z.quot offset 8 in
      if byteIdx >=? zlen buf then Ok 0
      else if byteIdx <? 0 then Panic
      else Ok (bit_of (buf !!! Z.to_nat byteIdx) (7 - Z.rem offset 8))
  end.

Definition BitCount (now : Z) (key : string) (start end_ : Z) (rangeSet : bool) (s : S) : res error Z :=
  let? o := readBits now key s in
  match o with
  | None => Ok 0
  | Some buf =>
      let start := if negb rangeSet then 0 else start in
      let end_ := if negb rangeSet then zlen buf - 1 else end_ in
      let '(start, end_) := clamp_range (zlen buf) start end_ in
      Ok (bit_count buf start end_)
  end.

Definition BitPos (now : Z) (key : string) (bitVal : Z) (s : S) : res error Z :=
  let? o := readBits now key s in
  match o with
  | None => Ok (if bitVal =? 0 then 0 else -1)
  | Some buf =>
      match bit_pos buf 0 bitVal with
      | Some p => Ok p
      | None => Ok (if bitVal =? 0 then zlen buf * 8 else -1)
      end
  end.

End BitmapStore.

(** ** Bitmaps as sequences of bits, most significant bit of a byte first *)
Definition byte_bits (b : byte) : list bool := (fun k => Z.testbit (b2z b) k) <$> [7; 6; 5; 4; 3; 2; 1; 0].
Definition bits (l : list byte) : list bool := l ≫= byte_bits.

Lemma length_byte_bits b : length (byte_bits b) = 8%nat.
Proof. done. Qed.

Lemma bits_cons b l : bits (b :: l) = byte_bits b ++ bits l.
Proof. done. Qed.

Lemma length_bits l : length (bits l) = (8 * length l)%nat.
Proof.
  induction l as [|b l IH]; [done|]. rewrite bits_cons, length_app, IH, length_byte_bits. cbn [length]. lia.
Qed.

Lemma bits_lookup l i k :
  (k < 8)%nat → bits l !! (8 * i + k)%nat = l !! i ≫= fun b => byte_bits b !! k.
Proof.
  intros Hk. revert i. induction l as [|b l IH]; intros i; [by rewrite lookup_nil|].
  rewrite bits_cons. destruct i as [|i].
  - rewrite lookup_app_l by (rewrite length_byte_bits; lia). by rewrite Nat.mul_0_r.
  - rewrite lookup_app_r by (rewrite length_byte_bits; lia).
    rewrite length_byte_bits. cbn [lookup list_lookup]. rewrite <- IH. f_equal. lia.
Qed.

Definition b2i (b : bool) : Z := if b then 1 else 0.

(** One byte, checked on all of them. *)
Definition byte_ok (b : byte) : bool :=
  forallb (fun k => let bitIdx := 7 - Z.of_nat k in
    bool_decide (bit_of b bitIdx = b2i (default false (byte_bits b !! k))) &&
    bool_decide (byte_bits (set_bit_of b bitIdx 1) = <[k := true]> (byte_bits b)) &&
    bool_decide (byte_bits (set_bit_of b bitIdx 0) = <[k := false]> (byte_bits b))) (seq 0 8) &&
  bool_decide (popCount b = foldr (fun x n => b2i x + n) 0 (byte_bits b)).

Lemma byte_ok_all b : byte_ok b = true.
Proof. destruct b; vm_compute; reflexivity. Qed.

Lemma byte_ok_bit b k :
  (k < 8)%nat →
  bit_of b (7 - Z.of_nat k) = b2i (default false (byte_bits b !! k)) ∧
  byte_bits (set_bit_of b (7 - Z.of_nat k) 1) = <[k := true]> (byte_bits b) ∧
  byte_bits (set_bit_of b (7 - Z.of_nat k) 0) = <[k := false]> (byte_bits b).
Proof.
  intros Hk. pose proof (byte_ok_all b) as Hb. unfold byte_ok in Hb.
  apply andb_true_iff in Hb as [Hb _]. rewrite forallb_forall in Hb.
  specialize (Hb k ltac:(apply in_seq; lia)). by bool_to_prop.
Qed.

Lemma set_bit_of_value b k value :
  (k < 8)%nat → byte_bits (set_bit_of b (7 - Z.of_nat k) value) = <[k := value =? 1]> (byte_bits b).
Proof.
  intros Hk. destruct (byte_ok_bit b k Hk) as (_ & H1 & H0).
  unfold set_bit_of in *. change (1 =? 1) with true in H1. change (0 =? 1) with false in H0.
  destruct (value =? 1); done.
Qed.

Lemma set_bit_of_lookup l (q r : nat) value b :
  (r < 8)%nat → l !! q = Some b →
  bits (<[q := set_bit_of b (7 - Z.of_nat r) value]> l) = <[(8 * q + r)%nat := value =? 1]> (bits l).
Proof.
  intros Hr Hb. apply list_eq. intros i.
  assert (i = 8 * (i / 8) + i mod 8)%nat as Hi by (apply Nat.div_mod; lia).
  pose proof (Nat.mod_upper_bound i 8 ltac:(lia)) as Hm.
  set (q' := (i / 8)%nat) in *. set (r' := (i mod 8)%nat) in *. clearbody q' r'. subst i.
  pose proof (lookup_lt_Some _ _ _ Hb).
  rewrite bits_lookup by done. destruct (decide (q' = q)) as [->|Hq].
  - rewrite list_lookup_insert_eq by done. cbn [mbind option_bind].
    rewrite set_bit_of_value by done. destruct (decide (r' = r)) as [->|].
    + rewrite !list_lookup_insert_eq; [done|rewrite length_bits; lia|rewrite length_byte_bits; lia].
    + rewrite !list_lookup_insert_ne by lia. rewrite bits_lookup by done. by rewrite Hb.
  - rewrite !list_lookup_insert_ne by lia. by rewrite bits_lookup.
Qed.

Lemma bits_replicate n : bits (replicate n Byte.x00) = replicate (8 * n) false.
Proof.
  induction n as [|n IH]; [done|]. cbn [replicate]. rewrite bits_cons, IH.
  replace (8 * S n)%nat with (8 + 8 * n)%nat by lia. by rewrite replicate_add.
Qed.

Lemma bits_app l k : bits (l ++ k) = bits l ++ bits k.
Proof. apply bind_app. Qed.

(** The offset split into byte and bit. *)
Lemma offset_split offset :
  0 ≤ offset → ∃ q r : nat, (r < 8)%nat ∧ Z.quot offset 8 = Z.of_nat q ∧
    Z.rem offset 8 = Z.of_nat r ∧ Z.to_nat offset = (8 * q + r)%nat.
Proof.
  intros Ho. exists (Z.to_nat (Z.quot offset 8)), (Z.to_nat (Z.rem offset 8)).
  pose proof (Z.rem_bound_pos offset 8 Ho ltac:(lia)). pose proof (Z.quot_rem' offset 8).
  pose proof (Z.quot_pos offset 8 Ho ltac:(lia)). conjs; lia.
Qed.

Lemma count_bits l :
  foldl (fun count b => count + popCount b) 0 l = Z.of_nat (length (List.filter id (bits l))).
Proof.
  replace (Z.of_nat _) with (0 + Z.of_nat (length (List.filter id (bits l)))) by lia.
  generalize 0 as n. induction l as [|b l IH]; intros n; cbn [foldl]; [cbn; lia|].
  rewrite IH, bits_cons. pose proof (byte_ok_all b) as Hb. unfold byte_ok in Hb.
  apply andb_true_iff in Hb as [_ Hp]. bool_to_prop. rewrite Hp, List.filter_app, length_app.
  assert (Hf : ∀ xs, foldr (fun x n => b2i x + n) 0 xs = Z.of_nat (length (List.filter id xs))).
  { induction xs as [|[] xs IHx]; cbn [foldr List.filter id length b2i]; lia. }
  rewrite Hf. lia.
Qed.

(** The first position with a given value. *)
Definition first_bit (v : bool) (bs : list bool) (p : nat) : Prop :=
  bs !! p = Some v ∧ ∀ i, (i < p)%nat → bs !! i = Some (negb v).

Lemma byte_pos_spec b v :
  match byte_pos b (b2i v) 7 with
  | Some p => ∃ k : nat, p = Z.of_nat k ∧ first_bit v (byte_bits b) k ∧ (k < 8)%nat
  | None => byte_bits b = replicate 8 (negb v)
  end.
Proof.
  assert (Hfirst : ∀ bs k, bool_decide (bs !! k = Some v) = true →
    forallb (fun i => bool_decide (bs !! i = Some (negb v))) (seq 0 k) = true → first_bit v bs k).
  { intros bs k Hk Hall. bool_to_prop. split; [done|]. intros i Hi.
    rewrite forallb_forall in Hall. specialize (Hall i ltac:(apply in_seq; lia)). by bool_to_prop. }
  destruct v, b;
    match goal with |- context [byte_pos ?x ?y 7] =>
      let r := eval vm_compute in (byte_pos x y 7) in change (byte_pos x y 7) with r; cbv iota beta end;
    first [reflexivity
          |match goal with |- ∃ k, ?p = _ ∧ _ => exists (Z.to_nat p) end;
           split; [reflexivity|]; split; [apply Hfirst; vm_compute; reflexivity|vm_compute; lia]].
Qed.

Lemma bit_pos_spec l i v :
  match bit_pos l i (b2i v) with
  | Some p => ∃ k : nat, p = i * 8 + Z.of_nat k ∧ first_bit v (bits l) k
  | None => bits l = replicate (8 * length l) (negb v)
  end.
Proof.
  revert i. induction l as [|b l IH]; intros i; cbn [bit_pos]; [done|].
  pose proof (byte_pos_spec b v) as Hb. rewrite bits_cons.
  destruct (byte_pos b (b2i v) 7) as [p|].
  - destruct Hb as (k & -> & [H1 H2] & Hk). exists k. split; [done|].
    split; [by apply lookup_app_l_Some|]. intros j Hj. by apply lookup_app_l_Some, H2.
  - specialize (IH (i + 1)). destruct (bit_pos l (i + 1) (b2i v)) as [p|].
    + destruct IH as (k & -> & [H1 H2]). exists (8 + k)%nat. split; [lia|]. rewrite Hb. split.
      * rewrite lookup_app_r, length_replicate by (rewrite length_replicate; lia).
        by replace (8 + k - 8)%nat with k by lia.
      * intros j Hj. destruct (decide (j < 8)%nat).
        { rewrite lookup_app_l by (rewrite length_replicate; lia). by apply lookup_replicate_2. }
        rewrite lookup_app_r, length_replicate by (rewrite length_replicate; lia). apply H2. lia.
    + rewrite Hb, IH, <- replicate_add. f_equal. cbn [length]. lia.
Qed.

(** ** Behaviour of the store *)
Section Behaviour.
Context {S : Type} `{EntryStoreLaws S}.

(** The bytes at a key that a bit operation sees; a missing key is empty. *)
Definition bits_at (now : Z) (key : string) (s : S) : option (list byte) :=
  match live now (es_view s !! key) with
  | None => Some []
  | Some e => if is_bits (EType e) then
                match Value e with VBytes v => Some (contents v) | _ => None end
              else None
  end.

Lemma readBits_spec now key (s : S) l :
  es_wf s → bits_at now key s = Some l →
  readBits now key s = Ok None ∧ l = [] ∨ readBits now key s = Ok (Some l).
Proof.
  intros Hwf Hl. unfold readBits, bits_at in *. rewrite es_read_spec by done.
  destruct (live now (es_view s !! key)) as [e|]; [|left; by simplify_eq].
  destruct (is_bits (EType e)); [|done]. cbn [negb].
  destruct (Value e); simplify_eq; by right.
Qed.

Lemma GetBit_spec now key offset (s : S) l :
  es_wf s → bits_at now key s = Some l → 0 ≤ offset →
  GetBit now key offset s = Ok (b2i (default false (bits l !! Z.to_nat offset))).
Proof.
  intros Hwf Hl Ho. destruct (offset_split offset Ho) as (q & r & Hr & Hq & Hrem & Hto).
  unfold GetBit. destruct (readBits_spec now key s l Hwf Hl) as [[-> ->]| ->]; cbn [rbind].
  { done. }
  rewrite Hq, Hrem, Hto, bits_lookup by done. rewrite Z.geb_leb. unfold zlen.
  destruct (Z.leb_spec (Z.of_nat (length l)) (Z.of_nat q)).
  - by rewrite lookup_ge_None_2 by lia.
  - rewrite (proj2 (Z.ltb_ge _ _)) by lia.
    destruct (lookup_lt_is_Some_2 l q ltac:(lia)) as [b Hb].
    rewrite Hb, Nat2Z.id, (list_lookup_total_correct _ _ _ Hb). cbn [mbind option_bind].
    by rewrite (proj1 (byte_ok_bit b r Hr)).
Qed.

Lemma ensureSize_spec buf offset q :
  Z.quot offset 8 = Z.of_nat q →
  ∃ n, contents (ensureSize buf offset) = contents buf ++ replicate n Byte.x00 ∧
    (q < length (contents (ensureSize buf offset)))%nat ∧
    (n = 0 ∨ length (contents buf) + n = q + 1)%nat.
Proof.
  intros Hq. unfold ensureSize. rewrite contents_sappend, Hq. eexists. split; [done|].
  rewrite length_app, length_replicate. unfold slen. lia.
Qed.

(** What [SetBit] does to the bytes it was given. *)
Definition write_bit (buf : slice) (offset value : Z) : list byte :=
  let buf := contents (ensureSize buf offset) in
  let i := Z.to_nat (Z.quot offset 8) in
  <[i := set_bit_of (buf !!! i) (7 - Z.rem offset 8) value]> buf.

Lemma write_bit_spec buf offset value :
  0 ≤ offset →
  bit_of (contents (ensureSize buf offset) !!! Z.to_nat (Z.quot offset 8)) (7 - Z.rem offset 8)
    = b2i (default false (bits (contents buf) !! Z.to_nat offset)) ∧
  ∃ n, bits (write_bit buf offset value)
       = <[Z.to_nat offset := value =? 1]> (bits (contents buf) ++ replicate (8 * n) false) ∧
    (n = 0 ∨ (8 * (length (contents buf) + n - 1) ≤ Z.to_nat offset))%nat.
Proof.
  intros Ho. destruct (offset_split offset Ho) as (q & r & Hr & Hq & Hrem & Hto).
  destruct (ensureSize_spec buf offset q Hq) as (n & Hc & Hlen & Hn). unfold write_bit. cbv zeta.
  rewrite Hq, Hrem, Hto, Nat2Z.id.
  destruct (lookup_lt_is_Some_2 _ _ Hlen) as [b Hb]. rewrite (list_lookup_total_correct _ _ _ Hb). split.
  - rewrite (proj1 (byte_ok_bit b r Hr)). f_equal. rewrite bits_lookup by done.
    rewrite Hc in Hb. destruct (decide (q < length (contents buf))%nat).
    + rewrite lookup_app_l in Hb by lia. by rewrite Hb.
    + rewrite (lookup_ge_None_2 (contents buf)) by lia. rewrite lookup_app_r in Hb by lia.
      apply lookup_replicate in Hb as [-> _]. do 8 (destruct r; [done|]). lia.
  - exists n. rewrite set_bit_of_lookup by done. rewrite Hc, bits_app, bits_replicate.
    split; [done|]. lia.
Qed.

Lemma SetBit_spec now key offset value (s : S) l :
  es_wf s → bits_at now key s = Some l → 0 ≤ offset →
  let '(r, s') := SetBit now key offset value s in
  es_wf s' ∧ r = Ok (b2i (default false (bits l !! Z.to_nat offset))) ∧
  (∀ k, k ≠ key → es_view s' !! k = es_view s !! k) ∧
  ∃ buf, contents buf = l ∧ bits_at now key s' = Some (write_bit buf offset value).
Proof.
  intros Hwf Hl Ho. unfold SetBit, getBitmap, bits_at in *.
  destruct (es_write_eq now key s Hwf) as (s1 & -> & Hwf1 & Hv1).
  assert (Hq : (Z.quot offset 8 <? 0) = false) by (apply Z.ltb_ge, Z.quot_pos; lia).
  assert (Hput : ∀ e k, k ≠ key → es_view (es_put key e s1) !! k = es_view s !! k).
  { intros e k Hk. by rewrite es_put_view, lookup_insert_ne, Hv1, live_alter_ne by done. }
  destruct (live now (es_view s !! key)) as [e|] eqn:El.
  - destruct (is_bits (EType e)) eqn:Et; [|done]. cbn [negb].
    destruct (Value e) as [|buf| | | | | |] eqn:Ev; simplify_eq. rewrite Hq.
    conjs; [by auto with dbx|f_equal; exact (proj1 (write_bit_spec buf offset value Ho))|apply Hput|].
    exists buf. split; [done|]. rewrite es_put_view, lookup_insert_eq by done.
    cbn [live]. apply live_Some in El as [_ Hx]. by rewrite IsExpired_setValue, Hx; cbn [setValue EType Value]; rewrite Et.
  - simplify_eq. rewrite Hq. conjs; [by auto with dbx|f_equal; exact (proj1 (write_bit_spec None offset value Ho))|apply Hput|].
    exists None. split; [done|]. by rewrite es_put_view, lookup_insert_eq.
Qed.

(** On a string, a bitmap or a missing key, seen as a
    sequence of bits, SETBIT at a non-negative offset answers the old bit, grows
    the value with zero bytes to the byte of the offset and changes that one bit;
    GETBIT answers the bit, 0 past the end; BITCOUNT without a range is the
    number of ones; BITPOS is the first position with the bit, or when there is
    none the length for 0 and -1 for 1. *)
Theorem bitmap_store_correct now key offset value v (s : S) l :
  es_wf s → bits_at now key s = Some l → 0 ≤ offset →
  GetBit now key offset s = Ok (b2i (default false (bits l !! Z.to_nat offset))) ∧
  BitCount now key 0 0 false s = Ok (Z.of_nat (length (List.filter id (bits l)))) ∧
  (∃ p, BitPos now key (b2i v) s = Ok p ∧
     ((∃ k, p = Z.of_nat k ∧ first_bit v (bits l) k) ∨
      bits l = replicate (length (bits l)) (negb v) ∧ p = if v then -1 else Z.of_nat (length (bits l)))) ∧
  let '(r, s') := SetBit now key offset value s in
  es_wf s' ∧ r = Ok (b2i (default false (bits l !! Z.to_nat offset))) ∧
  (∀ k, k ≠ key → es_view s' !! k = es_view s !! k) ∧
  ∃ l' n, bits_at now key s' = Some l' ∧
    bits l' = <[Z.to_nat offset := value =? 1]> (bits l ++ replicate (8 * n) false) ∧
    (n = 0 ∨ (8 * (length l + n - 1) ≤ Z.to_nat offset))%nat.
Proof.
  intros Hwf Hl Ho. conjs.
  - by apply GetBit_spec.
  - unfold BitCount. destruct (readBits_spec now key s l Hwf Hl) as [[-> ->]| ->]; [done|]. cbn [rbind negb].
    assert (clamp_range (zlen l) 0 (zlen l - 1) = (0, zlen l - 1)) as ->.
    { unfold clamp_range. pose proof (zlen_nonneg l). cbn [Z.ltb Z.compare].
      destruct (zlen l - 1 <? 0) eqn:E; bool_to_prop; crush; f_equal; lia. }
    unfold bit_count. destruct (0 >? zlen l - 1) eqn:E; bool_to_prop.
    + destruct l; [done|]. unfold zlen in *. cbn [length] in *. lia.
    + replace (sub l 0 (zlen l - 1 + 1)) with l; [by rewrite count_bits|].
      unfold sub. symmetry. apply take_ge. unfold zlen. cbn [Z.to_nat drop]. lia.
  - unfold BitPos. pose proof (bit_pos_spec l 0 v) as Hp. rewrite length_bits.
    destruct (readBits_spec now key s l Hwf Hl) as [[-> ->]| ->]; cbn [rbind].
    + eexists. split; [done|]. right. split; [done|]. by destruct v.
    + destruct (bit_pos l 0 (b2i v)) as [p|].
      * eexists. split; [done|]. left. destruct Hp as (k & -> & Hk). by exists k.
      * eexists. split; [done|]. right. split; [done|]. destruct v; [done|]. cbn. unfold zlen. lia.
  - pose proof (SetBit_spec now key offset value s l Hwf Hl Ho) as Hs.
    destruct (SetBit now key offset value s) as [r s']. destruct Hs as (? & ? & ? & buf & <- & Hs).
    destruct (proj2 (write_bit_spec buf offset value Ho)) as (n & Hb & Hn).
    conjs; [done..|]. by exists (write_bit buf offset value), n.
Qed.
End Behaviour.

Lemma bitmap_store_correct_witness :
  GetBit 1 "k" 9 (snd (SetBit 1 "k" 9 1 (New 2))) = Ok 1 ∧
  BitCount 1 "k" 0 0 false (snd (SetBit 1 "k" 9 1 (New 2))) = Ok 1 ∧
  BitPos 1 "k" 1 (snd (SetBit 1 "k" 9 1 (New 2))) = Ok 9.
Proof.
  destruct (bitmap_store_correct (S := KVStore) 1 "k" 9 1 true (New 2) []) as (_ & _ & _ & H4);
    [exact (New_wf 2)|reflexivity|lia|].
  destruct (SetBit 1 "k" 9 1 (New 2)) as [r s'] eqn:E. destruct H4 as (Hwf & _ & _ & _).
  assert (Hb : bits_at 1 "k" s' = Some [Byte.x00; Byte.x40]).
  { replace s' with (snd (SetBit 1 "k" 9 1 (New 2))) by by rewrite E. vm_compute. reflexivity. }
  destruct (bitmap_store_correct (S := KVStore) 1 "k" 9 0 true s' [Byte.x00; Byte.x40] Hwf Hb ltac:(lia))
    as (H1 & H2 & _ & _).
  split; [exact H1|]. split; [exact H2|].
  replace s' with (snd (SetBit 1 "k" 9 1 (New 2))) by by rewrite E. vm_compute. reflexivity.
Defined.
