(* ===== verification/RESP.v ===== *)
(** * The wire protocol ([protocol/parser.go], [protocol/response.go])

    The reader is a function from the unread input to a command and the input
    left, or an error; the writer a function to the bytes it sends. The input is
    the whole of what the peer sends before it closes. *)

From S2P Require Import Prelude GoStd.

(** ** Errors of the reader *)
Inductive perror :=
| EOF
| ErrUnexpectedEOF
| PErrorf (msg : string)
| PWrap (prefix : string) (cause : perror).

#[export] Instance perror_eq_dec : EqDecision perror.
Proof. solve_decision. Defined.

Definition maxRESPArrayItems : Z := 4194304.
Definition maxRESPBulkBytes : Z := Z.shiftl 8 20.
Definition maxRESPLineBytes : Z := Z.shiftl 64 10.

Record Command := { Name : string; Args : list slice }.

#[export] Instance Command_eq_dec : EqDecision Command.
Proof. solve_decision. Defined.

(** [%c] of a byte: the code point in UTF-8. *)
Definition fmt_c (b : byte) : list byte :=
  if b2z b <? 128 then [b]
  else [z2b (Z.lor 192 (Z.shiftr (b2z b) 6)); z2b (Z.lor 128 (Z.land (b2z b) 63))].

(** ** The reader *)

(** The input up to the first newline, and what follows it. *)
Fixpoint split_line (l : list byte) : list byte * option (list byte) :=
  match l with
  | [] => ([], None)
  | b :: l' =>
      if bool_decide (b = Byte.x0a) then ([], Some l')
      else let '(line, rest) := split_line l' in (b :: line, rest)
  end.

(** Drop one carriage return at the end, as [bufio.Reader.ReadLine] does. *)
Definition chop_cr (l : list byte) : list byte :=
  match rev l with Byte.x0d :: r => rev r | _ => l end.

(** [bytes.TrimRight(line, "\r\n")]. *)
Fixpoint trim_left_eol (l : list byte) : list byte :=
  match l with
  | b :: l' => if bool_decide (b = Byte.x0d) || bool_decide (b = Byte.x0a) then trim_left_eol l' else l
  | [] => []
  end.
Definition trim_right_eol (l : list byte) : list byte := rev (trim_left_eol (rev l)).

(** [readLine]. A last line without a newline is a line too; when it fills the
    64 KiB buffer of the reader the next read meets the end of the input, except
    that a carriage return in the last place is pushed back. *)
Definition readLine (l : list byte) : res perror (list byte * list byte) :=
  match split_line l with
  | (line, Some rest) =>
      let line := chop_cr line in
      if zlen line >? maxRESPLineBytes then Err (PErrorf "RESP line exceeds limit")
      else Ok (trim_right_eol line, rest)
  | (line, None) =>
      if zlen line =? 0 then Err EOF
      else if zlen line >? maxRESPLineBytes then Err (PErrorf "RESP line exceeds limit")
      else if (zlen line =? maxRESPLineBytes) && bool_decide (chop_cr line = line) then Err EOF
      else Ok (trim_right_eol line, [])
  end.

Definition readInt (l : list byte) : res perror (Z * list byte) :=
  let? p := readLine l in
  let '(line, rest) := p in
  match ParseInt_ok (str_of line) with
  | None => Err (PErrorf ("invalid integer: " ++ str_of line))
  | Some n => Ok (n, rest)
  end.

(** [io.ReadFull] of [n] bytes. *)
Definition read_full (n : Z) (l : list byte) : res perror (list byte * list byte) :=
  if zlen l <? n then Err (if zlen l =? 0 then EOF else ErrUnexpectedEOF)
  else Ok (take (Z.to_nat n) l, drop (Z.to_nat n) l).

Definition readBulkString (l : list byte) : res perror (slice * list byte) :=
  match l with
  | [] => Err EOF
  | b :: l =>
      if negb (bool_decide (b = Byte.x24)) then
        Err (PErrorf ("expected bulk string, got " ++ str_of (fmt_c b)))
      else
        let? p := readInt l in
        let '(length, rest) := p in
        if length <? 0 then Ok (None, rest)
        else if length >? maxRESPBulkBytes then Err (PErrorf "RESP bulk string exceeds limit")
        else
          let? p := read_full (length + 2) rest in
          let '(buf, rest) := p in
          if negb (bool_decide (buf !! Z.to_nat length = Some Byte.x0d)) ||
             negb (bool_decide (buf !! Z.to_nat (length + 1) = Some Byte.x0a)) then
            Err (PErrorf "bulk string missing CRLF terminator")
          else Ok (Some (take (Z.to_nat length) buf), rest)
  end.

(** The loop over the items of an array. *)
Fixpoint read_items (count : nat) (l : list byte) : res perror (list slice * list byte) :=
  match count with
  | O => Ok ([], l)
  | S count =>
      let? p := readBulkString l in
      let '(bulk, rest) := p in
      let? q := read_items count rest in
      let '(args, rest) := q in
      Ok (bulk :: args, rest)
  end.

Definition readArray (l : list byte) : res perror (Command * list byte) :=
  match readInt l with
  | Panic => Panic
  | Err e => Err (PWrap "RESP array count: " e)
  | Ok (count, rest) =>
      if count <=? 0 then Err (PErrorf ("invalid array count: " ++ FormatInt count))
      else if count >? maxRESPArrayItems then Err (PErrorf "RESP array count exceeds limit")
      else
        let? p := read_items (Z.to_nat count) rest in
        match p with
        | ([], _) => Err (PErrorf "empty command")
        | (name :: args, rest) => Ok ({| Name := to_str name; Args := args |}, rest)
        end
  end.

(** [bytes.Fields] on ASCII white space; wider white space does not separate. *)
Definition is_space (b : byte) : bool :=
  let c := b2z b in (c =? 32) || ((9 <=? c) && (c <=? 13)).
Fixpoint fields_loop (l cur : list byte) : list (list byte) :=
  match l with
  | [] => match cur with [] => [] | _ => [rev cur] end
  | b :: l' =>
      if is_space b then
        match cur with [] => fields_loop l' [] | _ => rev cur :: fields_loop l' [] end
      else fields_loop l' (b :: cur)
  end.
Definition Fields (l : list byte) : list (list byte) := fields_loop l [].

Definition readInline (l : list byte) : res perror (Command * list byte) :=
  let? p := readLine l in
  let '(line, rest) := p in
  match Fields line with
  | [] => Err (PErrorf "empty inline command")
  | name :: parts => Ok ({| Name := str_of name; Args := map Some parts |}, rest)
  end.

Definition ReadCommand (l : list byte) : res perror (Command * list byte) :=
  match l with
  | [] => Err EOF
  | b :: rest => if bool_decide (b = Byte.x2a) then readArray rest else readInline l
  end.

(** ** The writer *)
Definition crlf : list byte := [Byte.x0d; Byte.x0a].
Definition fmt_d (n : Z) : list byte := bytes_of (FormatInt n).

Definition WriteSimpleString (s : string) : list byte := Byte.x2b :: bytes_of s ++ crlf.
Definition WriteError (msg : string) : list byte := Byte.x2d :: bytes_of ("ERR " ++ msg) ++ crlf.
Definition WriteErrorRaw (msg : string) : list byte := Byte.x2d :: bytes_of msg ++ crlf.
Definition WriteInteger (n : Z) : list byte := Byte.x3a :: fmt_d n ++ crlf.
Definition WriteNull : list byte := bytes_of "$-1" ++ crlf.
Definition WriteOK : list byte := bytes_of "+OK" ++ crlf.
Definition WriteBulkString (b : slice) : list byte :=
  match b with
  | None => bytes_of "$-1" ++ crlf
  | Some data => Byte.x24 :: fmt_d (zlen data) ++ crlf ++ data ++ crlf
  end.
Definition WriteBulkStringStr (s : string) : list byte := WriteBulkString (to_slice s).
Definition WriteArray (count : Z) : list byte :=
  if count <? 0 then bytes_of "*-1" ++ crlf else Byte.x2a :: fmt_d count ++ crlf.
Definition WriteStrings (strs : list string) : list byte :=
  WriteArray (zlen strs) ++ mjoin (WriteBulkStringStr <$> strs).
Definition WriteBytes (items : list slice) : list byte :=
  WriteArray (zlen items) ++ mjoin (WriteBulkString <$> items).

(** ** What is written is read back *)

Lemma format_uint_bytes fuel u acc :
  0 ≤ u → Forall (fun b => 45 ≤ b2z b ≤ 57) acc →
  Forall (fun b => 45 ≤ b2z b ≤ 57) (format_uint fuel u acc) ∧
  (length (format_uint fuel u acc) ≤ fuel + length acc)%nat.
Proof.
  revert u acc. induction fuel as [|fuel IH]; intros u acc Hu Ha; cbn [format_uint]; [done|].
  destruct (u <? 10) eqn:E; bool_to_prop.
  - split; [|cbn; lia]. constructor; [|done]. pose proof (digit_byte u). lia.
  - pose proof (Z.mod_pos_bound u 10 ltac:(lia)). pose proof (digit_byte (u mod 10)).
    destruct (IH (u / 10) (z2b (48 + u mod 10) :: acc)) as [H1 H2];
      [apply Z.div_pos; lia|constructor; [lia|done]|].
    split; [done|]. cbn [length] in H2. lia.
Qed.

Lemma fmt_d_bytes n : Forall (fun b => 45 ≤ b2z b ≤ 57) (fmt_d n) ∧ zlen (fmt_d n) ≤ 21.
Proof.
  unfold fmt_d, FormatInt, zlen. rewrite bytes_of_str_of. destruct (n <? 0) eqn:E; bool_to_prop.
  - destruct (format_uint_bytes 20 (- n) []) as [H1 H2]; [lia|done|].
    split; [constructor; [vm_compute; split; discriminate|done]|]. cbn [length] in *. lia.
  - destruct (format_uint_bytes 20 n []) as [H1 H2]; [lia|done|]. split; [done|]. cbn [length] in *. lia.
Qed.

Lemma split_line_crlf line rest :
  Byte.x0a ∉ line → split_line (line ++ crlf ++ rest) = (line ++ [Byte.x0d], Some rest).
Proof.
  induction line as [|b line IH]; intros Hn; cbn [app split_line crlf]; [done|].
  apply not_elem_of_cons in Hn as [Hb Hn]. rewrite bool_decide_eq_false_2 by done.
  change (Byte.x0d :: Byte.x0a :: rest) with (crlf ++ rest). by rewrite IH.
Qed.

Lemma chop_cr_snoc line : chop_cr (line ++ [Byte.x0d]) = line.
Proof. unfold chop_cr. rewrite rev_app_distr. cbn. apply rev_involutive. Qed.

Lemma trim_right_eol_id line : Byte.x0a ∉ line → Byte.x0d ∉ line → trim_right_eol line = line.
Proof.
  intros Hn Hr. unfold trim_right_eol. rewrite <- (rev_involutive line) at 2. f_equal.
  destruct (rev line) as [|b l] eqn:E; [done|]. cbn [trim_left_eol].
  assert (b ∈ line) as Hb by (rewrite <- (rev_involutive line), E, list_elem_of_In, <- in_rev; by left).
  rewrite !bool_decide_eq_false_2; [done|congruence..].
Qed.

Lemma readLine_crlf line rest :
  Byte.x0a ∉ line → Byte.x0d ∉ line → zlen line ≤ maxRESPLineBytes →
  readLine (line ++ crlf ++ rest) = Ok (line, rest).
Proof.
  intros Hn Hr Hl. unfold readLine. rewrite split_line_crlf, chop_cr_snoc, trim_right_eol_id by done.
  destruct (zlen line >? maxRESPLineBytes) eqn:E; bool_to_prop; [lia|done].
Qed.

Lemma readInt_fmt n rest : in_i64 n → readInt (fmt_d n ++ crlf ++ rest) = Ok (n, rest).
Proof.
  intros Hn. destruct (fmt_d_bytes n) as [Hb Hl]. rewrite Forall_forall in Hb. unfold readInt.
  rewrite readLine_crlf; cbn [rbind].
  - unfold fmt_d, ParseInt_ok. by rewrite str_of_bytes_of, ParseInt_FormatInt.
  - intros Hin%Hb. vm_compute in Hin. by destruct Hin.
  - intros Hin%Hb. vm_compute in Hin. by destruct Hin.
  - unfold maxRESPLineBytes. change (Z.shiftl 64 10) with 65536. lia.
Qed.

(** A slice the reader accepts: nil, or at most 8 MiB. *)
Definition bulk_ok (b : slice) : Prop := slen b ≤ maxRESPBulkBytes.

Lemma readBulkString_write b rest :
  bulk_ok b → readBulkString (WriteBulkString b ++ rest) = Ok (b, rest).
Proof.
  unfold bulk_ok, slen. change maxRESPBulkBytes with 8388608. intros Hb.
  destruct b as [data|]; cbn [WriteBulkString contents default from_option id] in *; [|done].
  cbn [app readBulkString]. rewrite bool_decide_eq_true_2 by done. cbn [negb].
  fold (zlen data) in Hb. pose proof (zlen_nonneg data).
  rewrite <- !app_assoc, readInt_fmt by (unfold in_i64, MinInt64, MaxInt64; lia). cbn [rbind].
  destruct (zlen data <? 0) eqn:E1; bool_to_prop; [lia|].
  destruct (zlen data >? _) eqn:E2; bool_to_prop; [change maxRESPBulkBytes with 8388608 in *; lia|].
  assert (Htake : take (Z.to_nat (zlen data + 2)) (data ++ crlf ++ rest) = data ++ crlf).
  { rewrite (app_assoc data crlf rest), take_app_length'; [done|]. rewrite length_app. unfold zlen. cbn. lia. }
  assert (Hdrop : drop (Z.to_nat (zlen data + 2)) (data ++ crlf ++ rest) = rest).
  { rewrite (app_assoc data crlf rest), drop_app_length'; [done|]. rewrite length_app. unfold zlen. cbn. lia. }
  unfold read_full. destruct (zlen (data ++ crlf ++ rest) <? _) eqn:E3; bool_to_prop.
  { rewrite !zlen_app in E3. change (zlen crlf) with 2 in E3. pose proof (zlen_nonneg rest). lia. }
  cbn [rbind]. rewrite Htake, Hdrop. unfold zlen.
  rewrite !lookup_app_r by lia.
  replace (Z.to_nat (Z.of_nat (length data)) - length data)%nat with 0%nat by lia.
  replace (Z.to_nat (Z.of_nat (length data) + 1) - length data)%nat with 1%nat by lia.
  cbn [crlf lookup list_lookup]. rewrite !bool_decide_eq_true_2 by done. cbn [negb orb].
  by rewrite Nat2Z.id, take_app_length.
Qed.

Lemma read_items_write items rest :
  Forall bulk_ok items →
  read_items (length items) (mjoin (WriteBulkString <$> items) ++ rest) = Ok (items, rest).
Proof.
  induction 1 as [|b items Hb _ IH]; [done|]. cbn [length read_items]. rewrite fmap_cons.
  change (mjoin (?x :: ?l)) with (x ++ mjoin l). rewrite <- app_assoc, readBulkString_write by done. cbn [rbind]. rewrite IH. done.
Qed.

Lemma ReadCommand_written name args rest :
  Forall bulk_ok (name :: args) → zlen (name :: args) ≤ maxRESPArrayItems →
  ReadCommand (WriteBytes (name :: args) ++ rest) = Ok ({| Name := to_str name; Args := args |}, rest).
Proof.
  intros Hb Hn. unfold WriteBytes, WriteArray. pose proof (zlen_nonneg (name :: args)).
  destruct (zlen (name :: args) <? 0) eqn:E; bool_to_prop; [lia|].
  cbn [app ReadCommand]. rewrite bool_decide_eq_true_2 by done. unfold readArray.
  change maxRESPArrayItems with 4194304 in *.
  rewrite <- !app_assoc, readInt_fmt by (unfold in_i64, MinInt64, MaxInt64; lia).
  assert (0 < zlen (name :: args)) by (unfold zlen; cbn [length]; lia).
  destruct (zlen (name :: args) <=? 0) eqn:E1; bool_to_prop; [lia|].
  destruct (zlen (name :: args) >? _) eqn:E2; bool_to_prop; [change maxRESPArrayItems with 4194304 in *; lia|].
  unfold zlen. rewrite Nat2Z.id, read_items_write by done. done.
Qed.

(** C28: a command sent as an array of bulk strings, nil ones
    included, within the limits on count and size, is read back with its name and
    arguments, and exactly its bytes are consumed. *)
Theorem ReadCommand_WriteBytes name args rest :
  Forall bulk_ok (name :: args) → zlen (name :: args) ≤ maxRESPArrayItems →
  ReadCommand (WriteBytes (name :: args) ++ rest) = Ok ({| Name := to_str name; Args := args |}, rest).
Proof. apply ReadCommand_written. Qed.

Lemma ReadCommand_WriteBytes_witness :
  ReadCommand (WriteBytes [to_slice "SET"; to_slice "k"; None; Some []] ++ [Byte.x2a]) =
  Ok ({| Name := "SET"; Args := [to_slice "k"; None; Some []] |}, [Byte.x2a]).
Proof.
  apply (ReadCommand_WriteBytes (to_slice "SET") [to_slice "k"; None; Some []] [Byte.x2a]).
  - repeat constructor; vm_compute; discriminate.
  - vm_compute. discriminate.
Defined.

(** ** What is accepted is bounded, and input is consumed *)

(** [rest] is what is left of [l] after at least one byte. *)
Definition consumed (l rest : list byte) : Prop := ∃ p, l = p ++ rest ∧ p ≠ [].

Lemma consumed_cons b l : consumed (b :: l) l.
Proof. by exists [b]. Qed.

Lemma consumed_trans a b c : consumed a b → consumed b c → consumed a c.
Proof.
  intros (p & -> & Hp) (q & -> & Hq). exists (p ++ q). rewrite app_assoc. split; [done|].
  by destruct p.
Qed.

Lemma split_line_spec l :
  match split_line l with
  | (line, Some rest) => l = line ++ Byte.x0a :: rest
  | (line, None) => l = line
  end.
Proof.
  induction l as [|b l IH]; [done|]. cbn [split_line]. case_bool_decide as Hb; [by subst|].
  destruct (split_line l) as [line [rest|]]; by rewrite IH at 1.
Qed.

Lemma length_trim_left l : (length (trim_left_eol l) ≤ length l)%nat.
Proof. induction l as [|b l IH]; cbn [trim_left_eol length]; [lia|]. destruct (_ || _); cbn [length]; lia. Qed.

Lemma zlen_trim l : zlen (trim_right_eol l) ≤ zlen l.
Proof.
  unfold zlen, trim_right_eol. rewrite length_rev. pose proof (length_trim_left (rev l)) as Hl.
  rewrite length_rev in Hl. lia.
Qed.

Lemma readLine_consumes l line rest :
  readLine l = Ok (line, rest) → consumed l rest ∧ zlen line ≤ maxRESPLineBytes.
Proof.
  unfold readLine. pose proof (split_line_spec l) as Hs.
  destruct (split_line l) as [ln [r|]].
  - destruct (zlen (chop_cr ln) >? _) eqn:E; bool_to_prop; [done|]. intros [= <- <-]. split.
    + exists (ln ++ [Byte.x0a]). rewrite <- app_assoc. split; [done|by destruct ln].
    + pose proof (zlen_trim (chop_cr ln)). lia.
  - destruct (zlen ln =? 0) eqn:E0; bool_to_prop; [done|].
    destruct (zlen ln >? _) eqn:E; bool_to_prop; [done|]. destruct (_ && _); [done|].
    intros [= <- <-]. split.
    + exists ln. rewrite app_nil_r. split; [done|]. by intros ->.
    + pose proof (zlen_trim ln). lia.
Qed.

Lemma readInt_consumes l n rest : readInt l = Ok (n, rest) → consumed l rest.
Proof.
  unfold readInt. intros ([line r] & Hr & Hk)%rbind_Ok. apply readLine_consumes in Hr as [Hc _].
  destruct (ParseInt_ok _); by simplify_eq.
Qed.

Lemma readBulkString_consumes l b rest :
  readBulkString l = Ok (b, rest) → consumed l rest ∧ bulk_ok b.
Proof.
  destruct l as [|c l]; [done|]. cbn [readBulkString]. case_bool_decide; [|done]. cbn [negb].
  intros ([n r] & Hr & Hk)%rbind_Ok. apply readInt_consumes in Hr.
  pose proof (consumed_trans _ _ _ (consumed_cons c l) Hr) as Hc.
  destruct (n <? 0) eqn:E1; [simplify_eq; split; [done|vm_compute; discriminate]|].
  destruct (n >? maxRESPBulkBytes) eqn:E2; [done|]. bool_to_prop.
  apply rbind_Ok in Hk as ([buf r'] & Hf & Hk). unfold read_full in Hf.
  destruct (zlen r <? n + 2) eqn:E3; [done|]. bool_to_prop. injection Hf as <- <-.
  destruct (_ || _); [done|]. injection Hk as <- <-. split.
  - eapply consumed_trans; [done|]. exists (take (Z.to_nat (n + 2)) r). rewrite take_drop.
    split; [done|]. intros Hn. apply (f_equal length) in Hn. rewrite length_take in Hn.
    unfold zlen in E3. cbn in Hn. lia.
  - unfold bulk_ok, slen. cbn [contents default from_option id]. rewrite length_take. lia.
Qed.

Lemma read_items_consumes n l items rest :
  read_items n l = Ok (items, rest) →
  (rest = l ∨ consumed l rest) ∧ length items = n ∧ Forall bulk_ok items.
Proof.
  revert l items. induction n as [|n IH]; intros l items; cbn [read_items].
  { intros [= <- <-]. auto. }
  intros ([b r] & Hb & Hk)%rbind_Ok. apply rbind_Ok in Hk as ([bs r'] & Hbs & [= <- <-]).
  apply readBulkString_consumes in Hb as [Hc Hb]. apply IH in Hbs as (Hc' & Hl & Hf).
  split; [|split; [by cbn; f_equal|by constructor]]. right.
  destruct Hc' as [->|Hc']; [done|by eapply consumed_trans].
Qed.

Lemma fields_loop_bounds l cur :
  Forall (fun f => zlen f ≤ zlen l + zlen cur) (fields_loop l cur) ∧
  (length (fields_loop l cur) ≤ length l + 1)%nat.
Proof.
  revert cur. induction l as [|b l IH]; intros cur; cbn [fields_loop].
  { destruct cur; [split; [done|cbn; lia]|]. split; [|done]. constructor; [|done].
    unfold zlen. rewrite length_rev. cbn. lia. }
  assert (Hlen : zlen (b :: l) = zlen l + 1) by (unfold zlen; cbn [length]; lia).
  destruct (is_space b).
  - destruct (IH []) as [H1 H2]. assert (Forall (fun f => zlen f ≤ zlen (b :: l) + zlen cur) (fields_loop l [])).
    { eapply Forall_impl; [exact H1|]. intros f Hf. cbn beta in Hf. change (zlen (@nil byte)) with 0 in Hf.
      pose proof (zlen_nonneg cur). lia. }
    destruct cur as [|c cur]; [split; [done|cbn [length]; lia]|].
    split; [|cbn [length]; lia]. constructor; [|done]. pose proof (zlen_nonneg l).
    unfold zlen. rewrite length_rev. lia.
  - destruct (IH (b :: cur)) as [H1 H2]. split; [|cbn [length]; lia].
    eapply Forall_impl; [exact H1|]. intros f Hf. unfold zlen in *. cbn [length] in *. lia.
Qed.

(** C29: whatever bytes arrive, a command that is accepted has
    fewer arguments than the array limit, each of at most 8 MiB, and the input
    left is what follows the bytes of the command, of which there is at least one:
    the reader cannot be made to buffer more and always makes progress. *)
Theorem ReadCommand_bounds l cmd rest :
  ReadCommand l = Ok (cmd, rest) →
  consumed l rest ∧ zlen (Args cmd) < maxRESPArrayItems ∧ Forall bulk_ok (Args cmd).
Proof.
  destruct l as [|b l]; [done|]. cbn [ReadCommand]. case_bool_decide.
  - unfold readArray. destruct (readInt l) as [[n r]| |] eqn:Hr; [|done..].
    apply readInt_consumes in Hr. destruct (n <=? 0) eqn:E1; [done|].
    destruct (n >? _) eqn:E2; [done|]. bool_to_prop.
    intros ([items r'] & Hi & Hk)%rbind_Ok. apply read_items_consumes in Hi as (Hc & Hl & Hf).
    destruct items as [|name args]; [done|]. injection Hk as <- <-. cbn [Args].
    apply Forall_cons in Hf as [_ Hf]. conjs; [|unfold zlen; cbn [length] in Hl; lia|done].
    eapply consumed_trans; [apply consumed_cons|]. destruct Hc as [->|Hc]; [done|by eapply consumed_trans].
  - unfold readInline. intros ([line r] & Hr & Hk)%rbind_Ok.
    apply readLine_consumes in Hr as [Hc Hl]. destruct (fields_loop_bounds line []) as [H1 H2].
    fold (Fields line) in H1, H2. change (zlen (@nil byte)) with 0 in H1. change maxRESPLineBytes with 65536 in Hl.
    destruct (Fields line) as [|name parts]; [done|]. injection Hk as <- <-. cbn [Args].
    change maxRESPArrayItems with 4194304. apply Forall_cons in H1 as [_ H1]. conjs; [done| |].
    + unfold zlen in *. rewrite length_map. cbn [length] in H2. lia.
    + apply Forall_map. eapply Forall_impl; [exact H1|]. intros f Hf. unfold bulk_ok, slen.
      change maxRESPBulkBytes with 8388608. cbn. unfold zlen in *. lia.
Qed.

Lemma ReadCommand_bounds_witness :
  let input := bytes_of "GET  key" ++ crlf ++ bytes_of "PING" in
  ReadCommand input = Ok ({| Name := "GET"; Args := [to_slice "key"] |}, bytes_of "PING") ∧
  consumed input (bytes_of "PING").
Proof.
  intros input. assert (H : ReadCommand input = Ok ({| Name := "GET"; Args := [to_slice "key"] |}, bytes_of "PING"))
    by (vm_compute; reflexivity).
  split; [exact H|]. apply (ReadCommand_bounds _ _ _ H).
Defined.
