(* ===== verification/Commands.v ===== *)
(** * The command registry ([protocol/command.go])

    The metadata of every command, and the keys a command touches, which access
    control and mutation locking rely on. *)

From S2P Require Import Prelude GoStd RESP.

(** ** Commands and their arguments *)
Definition Arg (c : Command) (i : Z) : string :=
  if i <? zlen (Args c) then to_str (default None (Args c !! Z.to_nat i)) else "".
Definition ArgBytes (c : Command) (i : Z) : slice :=
  if i <? zlen (Args c) then default None (Args c !! Z.to_nat i) else None.
Definition NumArgs (c : Command) : Z := zlen (Args c).
Definition Normalized (c : Command) : string := ToUpper (Name c).

(** ** Metadata *)
Record CommandInfo := {
  info_Name : string;
  Arity : Z;        (* -N: at least N *)
  ReadOnly : bool;
  Admin : bool;
  KeyIndex : Z;     (* 0: no key *)
  DurableV1 : bool
}.

Definition info (name : string) (arity : Z) (readOnly admin : bool) (keyIndex : Z) (durable : bool)
    : string * CommandInfo :=
  (name, {| info_Name := name; Arity := arity; ReadOnly := readOnly; Admin := admin;
            KeyIndex := keyIndex; DurableV1 := durable |}).

Definition registry_entries : list (string * CommandInfo) := [
  (* String commands *)
  info "GET" 2 true false 1 false;
  info "SET" (-3) false false 1 true;
  info "SETEX" 4 false false 1 true;
  info "DEL" (-2) false false 1 true;
  info "EXISTS" (-2) true false 1 false;
  info "EXPIRE" 3 false false 1 true;
  info "TTL" 2 true false 1 false;
  info "PERSIST" 2 false false 1 true;
  info "TYPE" 2 true false 1 false;
  info "RENAME" 3 false false 1 true;
  info "KEYS" 2 true false 0 false;
  info "SCAN" (-2) true false 0 false;
  info "INCR" 2 false false 1 true;
  info "INCRBY" 3 false false 1 true;
  info "DECR" 2 false false 1 true;
  info "DECRBY" 3 false false 1 true;
  info "APPEND" 3 false false 1 true;
  info "STRLEN" 2 true false 1 false;
  info "GETRANGE" 4 true false 1 false;
  info "SETRANGE" 4 false false 1 true;
  info "MGET" (-2) true false 1 false;
  info "MSET" (-3) false false 1 true;
  info "SETNX" 3 false false 1 true;
  info "GETSET" 3 false false 1 true;
  (* Hash commands *)
  info "HGET" 3 true false 1 false;
  info "HSET" (-4) false false 1 false;
  info "HMGET" (-3) true false 1 false;
  info "HMSET" (-4) false false 1 false;
  info "HDEL" (-3) false false 1 false;
  info "HGETALL" 2 true false 1 false;
  info "HKEYS" 2 true false 1 false;
  info "HVALS" 2 true false 1 false;
  info "HLEN" 2 true false 1 false;
  info "HEXISTS" 3 true false 1 false;
  info "HINCRBY" 4 false false 1 false;
  (* List commands *)
  info "LPUSH" (-3) false false 1 false;
  info "RPUSH" (-3) false false 1 false;
  info "LPOP" (-2) false false 1 false;
  info "RPOP" (-2) false false 1 false;
  info "LRANGE" 4 true false 1 false;
  info "LLEN" 2 true false 1 false;
  info "LINDEX" 3 true false 1 false;
  info "LSET" 4 false false 1 false;
  info "LREM" 4 false false 1 false;
  info "LTRIM" 4 false false 1 false;
  (* Set commands *)
  info "SADD" (-3) false false 1 false;
  info "SREM" (-3) false false 1 false;
  info "SMEMBERS" 2 true false 1 false;
  info "SISMEMBER" 3 true false 1 false;
  info "SCARD" 2 true false 1 false;
  info "SINTER" (-2) true false 1 false;
  info "SUNION" (-2) true false 1 false;
  info "SDIFF" (-2) true false 1 false;
  info "SRANDMEMBER" (-2) true false 1 false;
  info "SPOP" (-2) false false 1 false;
  (* Sorted set commands *)
  info "ZADD" (-4) false false 1 false;
  info "ZREM" (-3) false false 1 false;
  info "ZSCORE" 3 true false 1 false;
  info "ZRANK" 3 true false 1 false;
  info "ZREVRANK" 3 true false 1 false;
  info "ZRANGE" (-4) true false 1 false;
  info "ZREVRANGE" (-4) true false 1 false;
  info "ZRANGEBYSCORE" (-4) true false 1 false;
  info "ZCARD" 2 true false 1 false;
  info "ZINCRBY" 4 false false 1 false;
  info "ZCOUNT" 4 true false 1 false;
  (* Stream commands *)
  info "XADD" (-5) false false 1 false;
  info "XREAD" (-4) true false 0 false;
  info "XRANGE" (-4) true false 1 false;
  info "XREVRANGE" (-4) true false 1 false;
  info "XLEN" 2 true false 1 false;
  info "XGROUP" (-2) false false 2 false;
  info "XREADGROUP" (-7) false false 0 false;
  info "XACK" (-4) false false 1 false;
  (* Bitmap commands *)
  info "SETBIT" 4 false false 1 false;
  info "GETBIT" 3 true false 1 false;
  info "BITCOUNT" (-2) true false 1 false;
  info "BITPOS" (-3) true false 1 false;
  (* Geo commands *)
  info "GEOADD" (-5) false false 1 false;
  info "GEODIST" (-4) true false 1 false;
  info "GEORADIUS" (-6) true false 1 false;
  info "GEOPOS" (-2) true false 1 false;
  info "GEOSEARCH" (-7) true false 1 false;
  (* Vector commands *)
  info "VADD" (-4) false false 1 true;
  info "VADD_BATCH" (-4) false false 1 true;
  info "VADDBIN" 4 false false 1 true;
  info "VMIGRATE" (-3) false false 2 true;
  info "VDEL" (-3) false false 1 true;
  info "VCOMPACT" (-2) false true 1 true;
  info "VSEARCH" (-4) true false 1 false;
  info "VSIM" (-4) true false 1 false;
  info "VFUSE" (-8) true false 1 false;
  (* Pub/Sub commands *)
  info "PUBLISH" 3 false false 0 false;
  info "SUBSCRIBE" (-2) false false 0 false;
  info "UNSUBSCRIBE" (-1) false false 0 false;
  info "PSUBSCRIBE" (-2) false false 0 false;
  (* Transaction commands *)
  info "MULTI" 1 false false 0 false;
  info "EXEC" 1 false false 0 false;
  info "DISCARD" 1 false false 0 false;
  info "WATCH" (-2) true false 1 false;
  info "UNWATCH" 1 false false 0 false;
  (* Admin/Server commands *)
  info "PING" (-1) true false 0 false;
  info "ECHO" 2 true false 0 false;
  info "QUIT" 1 false false 0 true;
  info "AUTH" (-2) false false 0 true;
  info "SELECT" 2 false false 0 true;
  info "DBSIZE" 1 true false 0 false;
  info "FLUSHDB" (-1) false true 0 false;
  info "FLUSHALL" (-1) false true 0 false;
  info "INFO" (-1) true false 0 false;
  info "HELLO" (-1) true false 0 false;
  info "CONFIG" (-2) false true 0 false;
  info "DEBUG" (-2) false true 0 false;
  info "SAVE" 1 false true 0 false;
  info "BGSAVE" (-1) false true 0 false;
  info "CLUSTER" (-2) false true 0 false;
  info "ACL" (-2) false true 0 false;
  info "COMMAND" (-1) true false 0 false
].

Definition Registry : gmap string CommandInfo := list_to_map registry_entries.

Definition Lookup (name : string) : option CommandInfo := Registry !! ToUpper name.

Definition SupportedInDurableV1 (name : string) : bool :=
  match Lookup name with Some i => ReadOnly i || DurableV1 i | None => false end.

Definition ShouldAudit (name : string) : bool :=
  negb (bool_decide (ToUpper name ∈
    ["SET"; "SETEX"; "GET"; "MSET"; "MGET"; "INCR"; "INCRBY"; "DECR"; "DECRBY";
     "HSET"; "HGET"; "HMSET"; "HMGET"; "HDEL";
     "VADD"; "VADD_BATCH"; "VSEARCH"; "VSIM"; "VFUSE"])).

Definition LookupMustReadOnly (name : string) : bool :=
  match Lookup name with Some i => ReadOnly i | None => false end.

(** The arguments at even positions, as the loop of the MSET case. *)
Fixpoint even_args (args : list slice) : list string :=
  match args with
  | [] => []
  | [k] => [to_str k]
  | k :: _ :: args => to_str k :: even_args args
  end.

Definition registry_key (cmd : Command) : list string :=
  match Lookup (Normalized cmd) with
  | None => []
  | Some i =>
      if (KeyIndex i <=? 0) || (KeyIndex i >? zlen (Args cmd)) then []
      else [Arg cmd (KeyIndex i - 1)]
  end.

Definition AffectedKeys (cmd : Command) : list string :=
  let n := Normalized cmd in
  if bool_decide (n ∈ ["DEL"; "EXISTS"; "MGET"]) then map to_str (Args cmd)
  else if bool_decide (n = "MSET") then even_args (Args cmd)
  else if bool_decide (n = "RENAME") && (NumArgs cmd >=? 2) then [Arg cmd 0; Arg cmd 1]
  else registry_key cmd.
