(* ===== verification/Auth.v ===== *)
(** * Access control ([auth/acl.go], [auth/user.go], [auth/role.go],
    [auth/channel_policy.go], [security/acl_enforcer.go]) *)

From S2P Require Import Prelude GoStd RESP Commands.

(** ** SHA-256 ([crypto/sha256]) *)
(** The constants of FIPS 180-4 by their definition: the first 32 bits of the
    fractional parts of the cube and square roots of the first primes. *)
Definition primes (n : nat) : list Z :=
  take n (List.filter (fun p => forallb (fun d => negb (p mod d =? 0)) (seqZ 2 (p - 2))) (seqZ 2 400)).
Fixpoint cbrt_bits (n : nat) (r x : Z) : Z :=
  match n with
  | O => r
  | S n => let r' := r + 2 ^ Z.of_nat n in cbrt_bits n (if r' * r' * r' <=? x then r' else r) x
  end.
Definition sha_K : list Z :=
  Eval vm_compute in (fun p => u32 (cbrt_bits 40 0 (p * 2 ^ 96))) <$> primes 64.
Definition sha_init : list Z :=
  Eval vm_compute in (fun p => u32 (Z.sqrt (p * 2 ^ 64))) <$> primes 8.

Definition rotr32 (x r : Z) : Z := Z.lor (Z.shiftr x r) (u32 (Z.shiftl x (32 - r))).
Definition sha_s0 (x : Z) : Z := Z.lxor (rotr32 x 7) (Z.lxor (rotr32 x 18) (Z.shiftr x 3)).
Definition sha_s1 (x : Z) : Z := Z.lxor (rotr32 x 17) (Z.lxor (rotr32 x 19) (Z.shiftr x 10)).
Definition sha_S0 (x : Z) : Z := Z.lxor (rotr32 x 2) (Z.lxor (rotr32 x 13) (rotr32 x 22)).
Definition sha_S1 (x : Z) : Z := Z.lxor (rotr32 x 6) (Z.lxor (rotr32 x 11) (rotr32 x 25)).

(** The message schedule, newest word first. *)
Fixpoint sha_schedule (n : nat) (w : list Z) : list Z :=
  match n with
  | O => w
  | S n => sha_schedule n (u32 (sha_s1 (nth 1 w 0) + nth 6 w 0 + sha_s0 (nth 14 w 0) + nth 15 w 0) :: w)
  end.
Definition sha_round (st : list Z) (kw : Z * Z) : list Z :=
  match st with
  | [a; b; c; d; e; f; g; h] =>
      let ch := Z.lxor (Z.land e f) (Z.ldiff g e) in
      let maj := Z.lxor (Z.land a b) (Z.lxor (Z.land a c) (Z.land b c)) in
      let t1 := u32 (h + sha_S1 e + ch + fst kw + snd kw) in
      let t2 := u32 (sha_S0 a + maj) in
      [u32 (t1 + t2); a; b; c; u32 (d + t1); e; f; g]
  | _ => st
  end.
Fixpoint words (n : nat) (l : list byte) : list Z :=
  match n with O => [] | S n => be_get (take 4 l) :: words n (drop 4 l) end.
Definition sha_block (st : list Z) (block : list byte) : list Z :=
  let w := rev (sha_schedule 48 (rev (words 16 block))) in
  zip_with (fun x y => u32 (x + y)) st (foldl sha_round st (zip sha_K w)).
Fixpoint sha_blocks (n : nat) (st : list Z) (l : list byte) : list Z :=
  match n with O => st | S n => sha_blocks n (sha_block st (take 64 l)) (drop 64 l) end.
Definition Sum256 (data : list byte) : list byte :=
  let n := zlen data in
  let pad := Z.to_nat ((55 - n) mod 64) in
  let msg := data ++ Byte.x80 :: replicate pad Byte.x00 ++ be_put 8 (8 * n) in
  mjoin (be_put 4 <$> sha_blocks (length msg / 64) sha_init msg).
Definition hex_digit (n : Z) : byte := z2b (if n <? 10 then 48 + n else 87 + n).
Definition EncodeToString (l : list byte) : string :=
  str_of (l ≫= fun b => [hex_digit (b2z b / 16); hex_digit (b2z b mod 16)]).

Example Sum256_abc :
  EncodeToString (Sum256 (bytes_of "abc")) =
  "ba7816bf8f01cfea414140de5dae2223b00361a396177a9cb410ff61f20015ad".
Proof. vm_compute. reflexivity. Qed.

(** ** Users *)
Definition PermRead : Z := 1.
Definition PermWrite : Z := 2.
Definition PermAdmin : Z := 4.
Definition PermPubSub : Z := 8.
Definition PermAll : Z := Z.lor (Z.lor (Z.lor PermRead PermWrite) PermAdmin) PermPubSub.

Record User := {
  user_Name : string;
  PasswordHash : string;
  Enabled : bool;
  Permissions : Z;
  AllowedKeys : list string;
  AllowedChannels : list string;
  NoPass : bool
}.

#[export] Instance User_eq_dec : EqDecision User.
Proof. solve_decision. Defined.

Definition HashPassword (password : string) : string := EncodeToString (Sum256 (bytes_of password)).

Definition CreateUser (name password : string) (perms : Z) : User :=
  let nopass := bool_decide (password = "") in
  {| user_Name := name; PasswordHash := if nopass then "" else HashPassword password;
     Enabled := true; Permissions := perms; AllowedKeys := ["*"]; AllowedChannels := ["*"];
     NoPass := nopass |}.

(** [Authenticate]: the error, if any. *)
Definition Authenticate (user : User) (password : string) : option string :=
  if negb (Enabled user) then Some "NOAUTH user is disabled"
  else if NoPass user then None
  else if negb (bool_decide (HashPassword password = PasswordHash user))
  then Some "WRONGPASS invalid username-password pair"
  else None.

(** ** The user table *)
Abbreviation ACLStore := (gmap string User).

Definition default_user : User :=
  {| user_Name := "default"; PasswordHash := ""; Enabled := true; Permissions := PermAll;
     AllowedKeys := ["*"]; AllowedChannels := ["*"]; NoPass := true |}.
Definition NewACLStore : ACLStore := {["default" := default_user]}.
Definition DisableDefault (a : ACLStore) : ACLStore := delete "default" a.
Definition GetUser (a : ACLStore) (name : string) : option User := a !! name.
Definition AddUser (a : ACLStore) (u : User) : ACLStore := <[user_Name u := u]> a.
Definition SetDefaultPassword (a : ACLStore) (name password : string) : ACLStore :=
  AddUser a (CreateUser name password PermAll).
Definition DeleteUser (a : ACLStore) (name : string) : bool * ACLStore :=
  match a !! name with Some _ => (true, delete name a) | None => (false, a) end.
Definition ListUsers (a : ACLStore) : list string := map fst (map_to_list a).
Definition SnapshotUsers (a : ACLStore) : list User := map snd (map_to_list a).
(** A nil pointer in the snapshot is [None]. *)
Definition ReplaceUsers (users : list (option User)) : ACLStore :=
  foldl (fun a o => match o with
                    | Some u => if bool_decide (user_Name u = "") then a else <[user_Name u := u]> a
                    | None => a
                    end) ∅ users.

(** ** Roles *)
Record Role := { role_Name : string; role_Permissions : Z; role_Keys : list string; role_Channels : list string }.

Definition BuiltinRoles : gmap string Role := list_to_map [
  ("admin", {| role_Name := "admin"; role_Permissions := PermAll; role_Keys := ["*"]; role_Channels := ["*"] |});
  ("reader", {| role_Name := "reader"; role_Permissions := PermRead; role_Keys := ["*"]; role_Channels := ["*"] |});
  ("writer", {| role_Name := "writer"; role_Permissions := Z.lor PermRead PermWrite; role_Keys := ["*"];
                role_Channels := ["*"] |});
  ("pubsub", {| role_Name := "pubsub"; role_Permissions := Z.lor PermRead PermPubSub; role_Keys := [];
                role_Channels := ["*"] |})].

Definition ApplyRole (user : User) (role : Role) : User :=
  {| user_Name := user_Name user; PasswordHash := PasswordHash user; Enabled := Enabled user;
     Permissions := role_Permissions role; AllowedKeys := role_Keys role;
     AllowedChannels := role_Channels role; NoPass := NoPass user |}.

(** ** Decisions *)
Definition adminCommands : list string := [
  "CONFIG"; "DEBUG"; "FLUSHALL"; "FLUSHDB"; "SAVE"; "BGSAVE"; "CLUSTER"; "ACL"; "REPLICAOF";
   "SLAVEOF"; "SHUTDOWN"; "VCOMPACT"].
Definition writeCommands : list string := [
  "SET"; "SETEX"; "DEL"; "EXPIRE"; "RENAME"; "INCR"; "DECR"; "INCRBY"; "DECRBY"; "APPEND";
   "SETRANGE"; "MSET"; "SETNX"; "GETSET"; "HSET"; "HDEL"; "HMSET"; "HINCRBY"; "LPUSH"; "RPUSH";
   "LPOP"; "RPOP"; "LSET"; "LREM"; "LTRIM"; "SADD"; "SREM"; "SPOP"; "ZADD"; "ZREM"; "ZINCRBY";
   "XADD"; "XGROUP"; "XACK"; "SETBIT"; "GEOADD"; "PERSIST"; "MULTI"; "EXEC"; "DISCARD";
   "PUBLISH"; "VADD"; "VADD_BATCH"; "VADDBIN"; "VDEL"].
Definition isAdminCommand (cmd : string) : bool := bool_decide (cmd ∈ adminCommands).
Definition isWriteCommand (cmd : string) : bool := bool_decide (cmd ∈ writeCommands).

Definition has_perm (user : User) (p : Z) : bool := negb (Z.land (Permissions user) p =? 0).

Definition CanExecute (user : User) (cmdName : string) : bool :=
  if negb (Enabled user) then false
  else
    let cmdName := ToUpper cmdName in
    if isAdminCommand cmdName then has_perm user PermAdmin
    else if isWriteCommand cmdName then has_perm user PermWrite
    else has_perm user PermRead.

Definition matchKeyPattern (pattern key : string) : bool :=
  if bool_decide (pattern = "*") then true else HasPrefix key (TrimSuffix_star pattern).

Definition allowed_by (patterns : list string) (key : string) : bool :=
  existsb (fun pattern => bool_decide (pattern = "*") || matchKeyPattern pattern key) patterns.

Definition CanAccessKey (user : User) (key : string) : bool :=
  if negb (Enabled user) then false else allowed_by (AllowedKeys user) key.
Definition CanAccessChannel (user : User) (channel : string) : bool :=
  allowed_by (AllowedChannels user) channel.

Definition CanSubscribe (user : User) (channel : string) : bool :=
  if negb (has_perm user PermPubSub) && negb (has_perm user PermRead) then false
  else CanAccessChannel user channel.
Definition CanPublish (user : User) (channel : string) : bool :=
  if negb (has_perm user PermWrite) then false else CanAccessChannel user channel.

(** The loop of [Enforce] over the keys. *)
Fixpoint enforce_keys (user : User) (keys : list string) : option string :=
  match keys with
  | [] => None
  | key :: keys =>
      if negb (bool_decide (key = "")) && negb (CanAccessKey user key)
      then Some ("NOPERM no permissions to access key '" ++ key ++ "'")%string
      else enforce_keys user keys
  end.

(** [Enforce]: the error, if any; a nil user is [None]. *)
Definition Enforce (user : option User) (cmd : Command) : option string :=
  match user with
  | None => Some "NOAUTH authentication required"
  | Some user =>
      if negb (CanExecute user (Normalized cmd))
      then Some ("NOPERM this user has no permissions to run the '" ++ Name cmd ++ "' command")%string
      else enforce_keys user (AffectedKeys cmd)
  end.

(** ** What the enforcer admits *)

(** A pattern admits a key that starts with it, without a final star. *)
Definition admits (pattern key : string) : Prop :=
  ∃ suffix, key = (TrimSuffix_star pattern ++ suffix)%string.

Lemma prefix_spec p s : String.prefix p s = true ↔ ∃ q, s = (p ++ q)%string.
Proof.
  revert s. induction p as [|a p IH]; intros s.
  - split; [intros _; by exists s|intros _; by destruct s].
  - destruct s as [|b s].
    + split; [done|]. by intros [q Hq].
    + change (String.prefix (String.String a p) (String.String b s))
        with (if Ascii.ascii_dec a b then String.prefix p s else false).
      destruct (Ascii.ascii_dec a b) as [->|Hne].
      * rewrite IH. split; intros [q Hq]; exists q; [by rewrite Hq|by injection Hq].
      * split; [done|]. intros [q Hq]. by injection Hq.
Qed.

Lemma matchKeyPattern_spec pattern key : matchKeyPattern pattern key = true ↔ admits pattern key.
Proof.
  unfold matchKeyPattern, admits, HasPrefix. case_bool_decide as E; [|apply prefix_spec].
  split; [|done]. intros _. subst pattern. by exists key.
Qed.

Lemma allowed_by_spec patterns key :
  allowed_by patterns key = true ↔ ∃ pattern, pattern ∈ patterns ∧ admits pattern key.
Proof.
  unfold allowed_by. rewrite existsb_exists. split.
  - intros (p & Hin & Hp). exists p. split; [by apply list_elem_of_In|].
    apply orb_true_iff in Hp as [Hp|Hp]; [|by apply matchKeyPattern_spec].
    bool_to_prop. subst p. by exists key.
  - intros (p & Hin & Hp). exists p. split; [by apply list_elem_of_In|].
    apply orb_true_iff. right. by apply matchKeyPattern_spec.
Qed.

Lemma enforce_keys_spec user keys :
  Enabled user = true →
  enforce_keys user keys = None ↔
  ∀ key, key ∈ keys → key ≠ "" → ∃ pattern, pattern ∈ AllowedKeys user ∧ admits pattern key.
Proof.
  intros He. induction keys as [|k keys IH]; cbn [enforce_keys].
  { split; [by intros _ key ?%not_elem_of_nil|done]. }
  assert (Hk : CanAccessKey user k = true ↔ ∃ pattern, pattern ∈ AllowedKeys user ∧ admits pattern k).
  { unfold CanAccessKey. rewrite He. apply allowed_by_spec. }
  destruct (_ && _) eqn:E.
  - bool_to_prop. split; [done|]. intros Hall. exfalso.
    assert (CanAccessKey user k = true) by (apply Hk, Hall; [by left|done]). congruence.
  - rewrite IH. split.
    + intros Hall key [->|Hin]%elem_of_cons Hne; [|by apply Hall]. apply Hk.
      rewrite bool_decide_eq_false_2 in E by done. cbn in E. by bool_to_prop.
    + intros Hall key Hin. apply Hall. by right.
Qed.

(** The permission the class of a command asks for. *)
Definition needed (cmd : string) : Z :=
  if isAdminCommand cmd then PermAdmin else if isWriteCommand cmd then PermWrite else PermRead.

(** C30: a command is let through exactly when there is a user, enabled,
    that holds the permission bit of the command's class (admin, write or read)
    and whose patterns admit every non-empty key the command is said to touch. *)
Theorem Enforce_iff user cmd :
  Enforce user cmd = None ↔
  ∃ u, user = Some u ∧ Enabled u = true ∧ has_perm u (needed (Normalized cmd)) = true ∧
    ∀ key, key ∈ AffectedKeys cmd → key ≠ "" →
      ∃ pattern, pattern ∈ AllowedKeys u ∧ admits pattern key.
Proof.
  destruct user as [u|]; cbn [Enforce]; [|split; [done|by intros (u & [=] & _)]].
  unfold CanExecute. rewrite (ToUpper_idem (Name cmd) : ToUpper (Normalized cmd) = Normalized cmd).
  destruct (Enabled u) eqn:He; cbn [negb]; [|split; [done|]; intros (u' & [= <-] & He' & _); congruence].
  assert (Hn : (if isAdminCommand (Normalized cmd) then has_perm u PermAdmin
                else if isWriteCommand (Normalized cmd) then has_perm u PermWrite else has_perm u PermRead)
               = has_perm u (needed (Normalized cmd))).
  { unfold needed. by destruct (isAdminCommand (Normalized cmd)), (isWriteCommand (Normalized cmd)). }
  rewrite Hn. destruct (has_perm u (needed (Normalized cmd))) eqn:Hp; cbn [negb].
  - rewrite enforce_keys_spec by done. split.
    + intros Hall. by exists u.
    + by intros (u' & [= <-] & _ & _ & Hall).
  - split; [done|]. intros (u' & [= <-] & _ & Hp' & _). congruence.
Qed.

(** ** Gaps between the registry and the enforcer *)

(** The commands the registry does not mark read-only or administrative that a
    user with only the read permission may run. *)
Definition reader_may_run : list string :=
  List.filter (fun name => negb (isAdminCommand name) && negb (isWriteCommand name))
    (map fst (List.filter (fun p => negb (ReadOnly (snd p)) && negb (Admin (snd p))) registry_entries)).

(** Of the commands the registry lists as mutations, the ones
    missing from the write list, so that a user with only the read permission
    passes the check for them, are XREADGROUP and VMIGRATE (which change data) and
    the connection-level SUBSCRIBE, UNSUBSCRIBE, PSUBSCRIBE, UNWATCH, QUIT, AUTH
    and SELECT; and the enforcer lets a reader run VMIGRATE. *)
Theorem acl_write_gap :
  reader_may_run = ["XREADGROUP"; "VMIGRATE"; "SUBSCRIBE"; "UNSUBSCRIBE"; "PSUBSCRIBE"; "UNWATCH";
                    "QUIT"; "AUTH"; "SELECT"] ∧
  Enforce (ApplyRole (CreateUser "r" "" 0) <$> BuiltinRoles !! "reader")
    {| Name := "vmigrate"; Args := [to_slice "x"; to_slice "idx"] |} = None.
Proof. split; vm_compute; reflexivity. Qed.

Definition tenant_a : User :=
  {| user_Name := "a"; PasswordHash := ""; Enabled := true; Permissions := PermAll;
     AllowedKeys := ["a:*"]; AllowedChannels := []; NoPass := true |}.

(** Only the first key of SINTER, SUNION and SDIFF and no key of
    XREAD is reported as touched, so a user restricted to the keys of one prefix
    is let through to read any other set or stream. *)
Theorem acl_key_gap first second sid :
  admits "a:*" first →
  Enforce (Some tenant_a) {| Name := "SUNION"; Args := [to_slice first; to_slice second] |} = None ∧
  Enforce (Some tenant_a) {| Name := "XREAD"; Args := to_slice <$> ["STREAMS"; second; sid] |} = None ∧
  ¬ admits "a:*" "b:1".
Proof.
  intros Hf. conjs.
  - change (Enforce _ _) with (enforce_keys tenant_a [to_str (to_slice first)]).
    rewrite (str_of_bytes_of first : to_str (to_slice first) = first).
    apply enforce_keys_spec; [done|]. intros key [->|?%not_elem_of_nil]%elem_of_cons _; [|done].
    exists "a:*". split; [by left|done].
  - vm_compute. reflexivity.
  - intros [q Hq]. vm_compute in Hq. discriminate.
Qed.

Lemma acl_key_gap_witness :
  Enforce (Some tenant_a) {| Name := "SUNION"; Args := [to_slice "a:1"; to_slice "b:1"] |} = None.
Proof. apply (acl_key_gap "a:1" "b:1" "0"). by exists "1". Defined.
