(* ===== verification/WAL.v ===== *)
(** * The write-ahead log ([persistence/wal.go], [security/encryption.go])

    The frame codec, the scan that recovery uses, the repair of a torn tail, and
    encryption at rest. AES-GCM is a parameter, the record [AEAD], with the laws
    of an authenticated cipher as hypotheses where a theorem needs them. *)

From S2P Require Import Prelude GoStd.

(** ** Records *)
Definition RecordSet : byte := Byte.x01.
Definition RecordDelete : byte := Byte.x02.
Definition RecordExpire : byte := Byte.x03.
Definition RecordVAdd : byte := Byte.x04.
Definition RecordVAddBatch : byte := Byte.x05.
Definition RecordVTombstone : byte := Byte.x06.
Definition RecordDeleteIndex : byte := Byte.x07.
Definition RecordVMigrateStart : byte := Byte.x08.
Definition RecordVMigrateAdd : byte := Byte.x09.
Definition RecordVMigrateSwap : byte := Byte.x0a.
Definition RecordVMigrateCancel : byte := Byte.x0b.

Definition walV2Magic : list byte := bytes_of "DBXWAL2" ++ [Byte.x0a].
Definition walEncMagic : list byte := bytes_of "DBXWALe2".
Definition maxWALFrameSize : Z := Z.shiftl 64 20.

Record WALEffect := {
  we_Type : byte;
  we_Key : string;
  we_Value : slice;
  we_ExpiresAt : Z   (* Unix nanoseconds; 0: no expiry *)
}.

#[export] Instance WALEffect_eq_dec : EqDecision WALEffect.
Proof. solve_decision. Defined.

(** The channel and the error of a queued record are not part of the value. *)
Record WALRecord := {
  r_Type : byte;
  r_Key : string;
  r_Value : slice;
  r_TTLNano : Z;
  Timestamp : Z;
  Sequence : Z;
  Effects : list WALEffect
}.

#[export] Instance WALRecord_eq_dec : EqDecision WALRecord.
Proof. solve_decision. Defined.

(** ** Errors *)
Inductive ioerror := io_EOF | io_ErrUnexpectedEOF.
Inductive werror :=
| FrameLength (cause : ioerror)
| InvalidFrameLength (n : Z)
| FramePayload (cause : ioerror)
| DecryptFailed
| CRCMismatch (expected actual : Z)
| UnsupportedVersion (v : byte)
| TruncatedHeader
| InvalidEffectCount (n : Z)
| TruncatedEffect
| InvalidEffectLengths
| TrailingBytes (n : Z)
| UnsupportedFormat
| MissingHeader (cause : ioerror)
| WrongRecordCount (n : Z)
| StopScan.

#[export] Instance ioerror_eq_dec : EqDecision ioerror.
Proof. solve_decision. Defined.
#[export] Instance werror_eq_dec : EqDecision werror.
Proof. solve_decision. Defined.

(** ** Encryption: nonce, then ciphertext with its tag *)
Record AEAD := {
  Seal : list byte → list byte → list byte;            (* nonce, plaintext *)
  Open : list byte → list byte → option (list byte)    (* nonce, ciphertext *)
}.
Definition NonceSize : nat := 12.

(** [Encrypt], with the random nonce as an argument. *)
Definition Encrypt (g : AEAD) (nonce plaintext : list byte) : list byte := nonce ++ Seal g nonce plaintext.
Definition Decrypt (g : AEAD) (ciphertext : list byte) : option (list byte) :=
  if (length ciphertext <? NonceSize)%nat then None
  else Open g (take NonceSize ciphertext) (drop NonceSize ciphertext).

(** ** The codec *)
Definition encode_effect (e : WALEffect) : list byte :=
  we_Type e :: be_put 4 (strlen (we_Key e)) ++ be_put 4 (slen (we_Value e)) ++
  be_put 8 (u64 (we_ExpiresAt e)) ++ bytes_of (we_Key e) ++ contents (we_Value e).

(** The effects of a record; one without any carries its own fields. *)
Definition expandEffects (rec : WALRecord) : list WALEffect :=
  match Effects rec with
  | [] => [{| we_Type := r_Type rec; we_Key := r_Key rec; we_Value := r_Value rec;
              we_ExpiresAt := r_TTLNano rec |}]
  | _ => Effects rec
  end.

Definition encode_body (rec : WALRecord) : list byte :=
  let effects := expandEffects rec in
  Byte.x02 :: be_put 8 (Sequence rec) ++ be_put 8 (u64 (Timestamp rec)) ++
  be_put 4 (zlen effects) ++ mjoin (encode_effect <$> effects).

Definition encodeRecordPlain (rec : WALRecord) : list byte :=
  let body := encode_body rec in
  be_put 4 (zlen body + 4) ++ body ++ be_put 4 (ChecksumIEEE body).

(** [encodeRecord]; [nonce] is the random nonce an encrypting log draws. *)
Definition encodeRecord (enc : option AEAD) (nonce : list byte) (rec : WALRecord) : list byte :=
  let plain := encodeRecordPlain rec in
  match enc with
  | None => plain
  | Some g => let sealed := Encrypt g nonce (drop 4 plain) in be_put 4 (zlen sealed) ++ sealed
  end.

(** The loop over the effects of a frame; [rest] is [body[off:]]. *)
Fixpoint decode_effects (n : nat) (rest : list byte) : res werror (list WALEffect * list byte) :=
  match n with
  | O => Ok ([], rest)
  | S n =>
      if zlen rest <? 17 then Err TruncatedEffect
      else
        let effectType := rest !!! O in
        let keyLen := be_get (take 4 (drop 1 rest)) in
        let valueLen := be_get (take 4 (drop 5 rest)) in
        let expiresAt := i64 (be_get (take 8 (drop 9 rest))) in
        let rest := drop 17 rest in
        if keyLen + valueLen >? zlen rest then Err InvalidEffectLengths
        else
          let effect := {| we_Type := effectType; we_Key := str_of (sub rest 0 keyLen);
                           we_Value := sappend None (sub rest keyLen (keyLen + valueLen));
                           we_ExpiresAt := expiresAt |} in
          let? p := decode_effects n (drop (Z.to_nat (keyLen + valueLen)) rest) in
          let '(effects, rest) := p in Ok (effect :: effects, rest)
  end.

(** One decrypted frame, checksum included. *)
Definition decode_frame (frame : list byte) : res werror WALRecord :=
  let body := take (length frame - 4) frame in
  let expectedCRC := be_get (drop (length frame - 4) frame) in
  let actual := ChecksumIEEE body in
  if negb (actual =? expectedCRC) then Err (CRCMismatch expectedCRC actual)
  else if negb (bool_decide (body !!! O = Byte.x02)) then Err (UnsupportedVersion (body !!! O))
  else if 1 + 20 >? zlen body then Err TruncatedHeader
  else
    let seq := be_get (take 8 (drop 1 body)) in
    let ts := i64 (be_get (take 8 (drop 9 body))) in
    let effectCount := be_get (take 4 (drop 17 body)) in
    if (effectCount <=? 0) || (effectCount >? 1000000) then Err (InvalidEffectCount effectCount)
    else
      let? p := decode_effects (Z.to_nat effectCount) (drop 21 body) in
      let '(effects, rest) := p in
      if negb (zlen rest =? 0) then Err (TrailingBytes (zlen rest))
      else match effects with
           | [] => Panic
           | first :: _ =>
               Ok {| r_Type := we_Type first; r_Key := we_Key first; r_Value := we_Value first;
                     r_TTLNano := we_ExpiresAt first; Timestamp := ts; Sequence := seq; Effects := effects |}
           end.

(** [io.ReadFull]: the bytes and the rest, or why there were too few. *)
Definition ReadFull (n : nat) (l : list byte) : ioerror + (list byte * list byte) :=
  if (length l <? n)%nat then inl (if (length l =? 0)%nat then io_EOF else io_ErrUnexpectedEOF)
  else inr (take n l, drop n l).

Definition min_frame (enc : option AEAD) : Z := if enc is Some _ then 12 + 16 else 25.

(** The plaintext of a frame read from the log. *)
Definition open_frame (enc : option AEAD) (frame : list byte) : res werror (list byte) :=
  match enc with
  | None => Ok frame
  | Some g =>
      match Decrypt g frame with
      | None => Err DecryptFailed
      | Some plain => if zlen plain <? 25 then Err (InvalidFrameLength (zlen plain)) else Ok plain
      end
  end.

(** [scanFrames]; every round consumes at least four bytes, so [length l] rounds
    of fuel are never used up ([scan_fuel] below). *)
Fixpoint scan_loop {A} (fuel : nat) (allowPartialTail : bool) (enc : option AEAD)
    (emit : A → WALRecord → res werror A) (l : list byte) (acc : A) : A * res werror unit :=
  match fuel with
  | O => (acc, Ok tt)
  | S fuel =>
      match ReadFull 4 l with
      | inl io_EOF => (acc, Ok tt)
      | inl io_ErrUnexpectedEOF =>
          if allowPartialTail then (acc, Ok tt) else (acc, Err (FrameLength io_ErrUnexpectedEOF))
      | inr (lengthBuf, l) =>
          let frameLen := be_get lengthBuf in
          if (frameLen <? min_frame enc) || (frameLen >? maxWALFrameSize)
          then (acc, Err (InvalidFrameLength frameLen))
          else match ReadFull (Z.to_nat frameLen) l with
               | inl io_ErrUnexpectedEOF =>
                   if allowPartialTail then (acc, Ok tt) else (acc, Err (FramePayload io_ErrUnexpectedEOF))
               | inl io_EOF => (acc, Err (FramePayload io_EOF))
               | inr (frame, l) =>
                   match (let? plain := open_frame enc frame in decode_frame plain) with
                   | Err e => (acc, Err e)
                   | Panic => (acc, Panic)
                   | Ok rec =>
                       match emit acc rec with
                       | Ok acc => scan_loop fuel allowPartialTail enc emit l acc
                       | Err e => (acc, Err e)
                       | Panic => (acc, Panic)
                       end
                   end
               end
      end
  end.
Definition scanFrames {A} (allowPartialTail : bool) (enc : option AEAD)
    (emit : A → WALRecord → res werror A) (l : list byte) (acc : A) : A * res werror unit :=
  scan_loop (S (length l)) allowPartialTail enc emit l acc.

Definition collect (acc : list WALRecord) (rec : WALRecord) : res werror (list WALRecord) := Ok (acc ++ [rec]).

Definition decodeFrames (allowPartialTail : bool) (enc : option AEAD) (l : list byte)
    : res werror (list WALRecord) :=
  match scanFrames allowPartialTail enc collect l [] with
  | (records, Ok _) => Ok records
  | (_, Err e) => Err e
  | (_, Panic) => Panic
  end.

Definition DecodeRecord (data : list byte) : res werror WALRecord :=
  let? records := decodeFrames false None data in
  match records with
  | [rec] => Ok rec
  | _ => Err (WrongRecordCount (zlen records))
  end.

Definition walHeader (enc : option AEAD) : list byte :=
  if enc is Some _ then walEncMagic else walV2Magic.

(** [scanRecordsMode] over the contents of a segment. *)
Definition scanRecordsMode {A} (allowPartialTail : bool) (enc : option AEAD)
    (emit : A → WALRecord → res werror A) (file : list byte) (acc : A) : A * res werror unit :=
  match ReadFull (length walV2Magic) file with
  | inl e => (acc, Err (MissingHeader e))
  | inr (header, l) =>
      if negb (bool_decide (header = walHeader enc)) then (acc, Err UnsupportedFormat)
      else scanFrames allowPartialTail enc emit l acc
  end.

(** [repairWALTail]: the length the file is truncated to, or an error. *)
Fixpoint repair_loop (fuel : nat) (enc : option AEAD) (l : list byte) (validOffset : Z)
    : res werror (option Z) :=
  match fuel with
  | O => Ok None
  | S fuel =>
      match ReadFull 4 l with
      | inl io_EOF => Ok None
      | inl io_ErrUnexpectedEOF => Ok (Some validOffset)
      | inr (len, l) =>
          let frameLen := be_get len in
          if (frameLen <? min_frame enc) || (frameLen >? maxWALFrameSize)
          then Err (InvalidFrameLength frameLen)
          else match ReadFull (Z.to_nat frameLen) l with
               | inl io_ErrUnexpectedEOF => Ok (Some validOffset)
               | inl io_EOF => Err (FramePayload io_EOF)
               | inr (frame, l) =>
                   let? _ := decodeFrames false enc (len ++ frame) in
                   repair_loop fuel enc l (validOffset + (4 + frameLen))
               end
      end
  end.
Definition repairWALTail (enc : option AEAD) (file : list byte) : res werror (list byte) :=
  match ReadFull (length walV2Magic) file with
  | inl e => Err UnsupportedFormat
  | inr (header, l) =>
      if negb (bool_decide (header = walHeader enc)) then Err UnsupportedFormat
      else
        let? cut := repair_loop (S (length l)) enc l (zlen header) in
        Ok (match cut with Some n => take (Z.to_nat n) file | None => file end)
  end.

(** ** Round trip of a frame *)

Lemma take_be n z l : take n (be_put n z ++ l) = be_put n z.
Proof. by rewrite take_app_length' by (by rewrite length_be_put). Qed.

Lemma drop_be n z l : drop n (be_put n z ++ l) = l.
Proof. by rewrite drop_app_length' by (by rewrite length_be_put). Qed.

(** Skipping a fixed-width field. *)
Lemma drop_be_add n m z l : drop (n + m) (be_put n z ++ l) = drop m l.
Proof. by rewrite <- drop_drop, drop_be. Qed.

(** An effect whose lengths fit their fields. *)
Definition effect_ok (e : WALEffect) : Prop :=
  strlen (we_Key e) < 2 ^ 32 ∧ slen (we_Value e) < 2 ^ 32 ∧ in_i64 (we_ExpiresAt e).

(** What an effect is read back as: an empty value comes back nil. *)
Definition reread (e : WALEffect) : WALEffect :=
  {| we_Type := we_Type e; we_Key := we_Key e; we_Value := scopy (we_Value e);
     we_ExpiresAt := we_ExpiresAt e |}.

Lemma decode_encode_effect n e rest :
  effect_ok e →
  decode_effects (S n) (encode_effect e ++ rest) =
  (let? p := decode_effects n rest in Ok (reread e :: fst p, snd p)).
Proof.
  intros (Hk & Hv & Hx). cbn [decode_effects]. unfold encode_effect.
  set (kl := be_put 4 (strlen (we_Key e))). set (vl := be_put 4 (slen (we_Value e))).
  set (ex := be_put 8 (u64 (we_ExpiresAt e))).
  set (tail := bytes_of (we_Key e) ++ contents (we_Value e) ++ rest).
  assert (Hin : (we_Type e :: kl ++ vl ++ ex ++ bytes_of (we_Key e) ++ contents (we_Value e)) ++ rest
                = we_Type e :: kl ++ vl ++ ex ++ tail).
  { unfold tail. cbn [app]. by rewrite <- !app_assoc. }
  rewrite Hin. set (inp := we_Type e :: kl ++ vl ++ ex ++ tail).
  assert (H1 : drop 1 inp = kl ++ vl ++ ex ++ tail) by done.
  assert (H5 : drop 5 inp = vl ++ ex ++ tail) by (exact (drop_be 4 (strlen (we_Key e)) _)).
  assert (H9 : drop 9 inp = ex ++ tail).
  { change (drop 9 inp) with (drop (4 + 4) (kl ++ vl ++ ex ++ tail)). unfold kl. rewrite drop_be_add.
    exact (drop_be 4 (slen (we_Value e)) _). }
  assert (H17 : drop 17 inp = tail).
  { change 17%nat with (9 + 8)%nat. rewrite <- drop_drop, H9.
    exact (drop_be 8 (u64 (we_ExpiresAt e)) _). }
  rewrite H1, H5, H9, H17. unfold kl, vl, ex. rewrite !take_be.
  unfold strlen, slen in *. rewrite !be_get_put_small by (change (256 ^ Z.of_nat 4) with (2 ^ 32); lia).
  rewrite be_get_put. change (256 ^ Z.of_nat 8) with (2 ^ 64).
  fold (u64 (u64 (we_ExpiresAt e))). rewrite (u64_id (u64 _)) by (apply Z.mod_pos_bound; lia).
  rewrite i64_u64 by done.
  destruct (zlen inp <? 17) eqn:E; bool_to_prop.
  { exfalso. apply (f_equal length) in H17. unfold zlen in E. rewrite length_drop in H17.
    unfold inp, kl, vl, ex in *. cbn [length] in *. rewrite !length_app, !length_be_put in *. lia. }
  destruct (_ >? zlen tail) eqn:E2; bool_to_prop.
  { exfalso. unfold tail in E2. rewrite !zlen_app in E2. unfold zlen in E2.
    rewrite length_bytes_of in E2. lia. }
  assert (Hkey : sub tail 0 (Z.of_nat (String.length (we_Key e))) = bytes_of (we_Key e)).
  { unfold sub, tail. rewrite Z.sub_0_r, Nat2Z.id. change (drop (Z.to_nat 0) ?x) with x.
    rewrite take_app_length'; [done|by rewrite length_bytes_of]. }
  assert (Hval : sub tail (Z.of_nat (String.length (we_Key e)))
    (Z.of_nat (String.length (we_Key e)) + Z.of_nat (length (contents (we_Value e)))) = contents (we_Value e)).
  { unfold sub, tail. rewrite Nat2Z.id, drop_app_length' by (by rewrite length_bytes_of).
    rewrite take_app_length'; [done|lia]. }
  assert (Hrest : drop (Z.to_nat (Z.of_nat (String.length (we_Key e)) + Z.of_nat (length (contents (we_Value e))))) tail = rest).
  { unfold tail. rewrite app_assoc, drop_app_length'; [done|]. rewrite length_app, length_bytes_of. lia. }
  rewrite Hkey, Hval, Hrest, str_of_bytes_of. destruct (decode_effects n rest) as [[es r]| |]; done.
Qed.

Lemma decode_encode_effects es rest :
  Forall effect_ok es →
  decode_effects (length es) (mjoin (encode_effect <$> es) ++ rest) = Ok (reread <$> es, rest).
Proof.
  induction 1 as [|e es He _ IH]; [done|]. rewrite fmap_cons.
  change (mjoin (?x :: ?l)) with (x ++ mjoin l). rewrite <- app_assoc.
  cbn [length]. rewrite decode_encode_effect by done. rewrite IH. done.
Qed.

(** A record the decoder accepts: field widths and the limits on effects. *)
Definition record_ok (rec : WALRecord) : Prop :=
  0 ≤ Sequence rec < 2 ^ 64 ∧ in_i64 (Timestamp rec) ∧
  zlen (expandEffects rec) ≤ 1000000 ∧ Forall effect_ok (expandEffects rec).

(** What a record is read back as. *)
Definition reread_record (rec : WALRecord) : WALRecord :=
  let effects := reread <$> expandEffects rec in
  match effects with
  | [] => rec
  | first :: _ => {| r_Type := we_Type first; r_Key := we_Key first; r_Value := we_Value first;
                     r_TTLNano := we_ExpiresAt first; Timestamp := Timestamp rec;
                     Sequence := Sequence rec; Effects := effects |}
  end.

Lemma expandEffects_cons rec : ∃ e es, expandEffects rec = e :: es.
Proof. unfold expandEffects. destruct (Effects rec); by eexists _, _. Qed.

Lemma ChecksumIEEE_mod l : ChecksumIEEE l mod 2 ^ 32 = ChecksumIEEE l.
Proof. apply Z.mod_small, ChecksumIEEE_range. Qed.

Lemma decode_frame_encode rec :
  record_ok rec →
  decode_frame (encode_body rec ++ be_put 4 (ChecksumIEEE (encode_body rec))) = Ok (reread_record rec).
Proof.
  intros (Hs & Ht & Hn & He). unfold decode_frame.
  set (body := encode_body rec). set (crc := be_put 4 (ChecksumIEEE body)).
  assert (Hlen : (length (body ++ crc) - 4)%nat = length body).
  { unfold crc. rewrite length_app, length_be_put. lia. }
  rewrite Hlen, take_app_length, drop_app_length. unfold crc. rewrite be_get_put.
  change (256 ^ Z.of_nat 4) with (2 ^ 32). rewrite ChecksumIEEE_mod, Z.eqb_refl. cbn [negb].
  set (sq := be_put 8 (Sequence rec)). set (ts := be_put 8 (u64 (Timestamp rec))).
  set (ct := be_put 4 (zlen (expandEffects rec))).
  set (es := mjoin (encode_effect <$> expandEffects rec)).
  assert (Hb : body = Byte.x02 :: sq ++ ts ++ ct ++ es) by done.
  assert (H1 : drop 1 body = sq ++ ts ++ ct ++ es) by done.
  assert (H9 : drop 9 body = ts ++ ct ++ es) by (exact (drop_be 8 (Sequence rec) _)).
  assert (H17 : drop 17 body = ct ++ es).
  { change 17%nat with (9 + 8)%nat. rewrite <- drop_drop, H9. exact (drop_be 8 (u64 (Timestamp rec)) _). }
  assert (H21 : drop 21 body = es).
  { change 21%nat with (17 + 4)%nat. rewrite <- drop_drop, H17. exact (drop_be 4 (zlen (expandEffects rec)) _). }
  assert (Hz : 21 ≤ zlen body).
  { rewrite Hb. unfold zlen, sq, ts, ct. cbn [length]. rewrite !length_app, !length_be_put. lia. }
  rewrite bool_decide_eq_true_2 by by rewrite Hb. cbn [negb].
  destruct (1 + 20 >? zlen body) eqn:E; bool_to_prop; [lia|].
  rewrite H1, H9, H17, H21. unfold sq, ts, ct. rewrite !take_be.
  rewrite (be_get_put_small 8 (Sequence rec)) by (change (256 ^ Z.of_nat 8) with (2 ^ 64); lia).
  rewrite (be_get_put 8). change (256 ^ Z.of_nat 8) with (2 ^ 64).
  fold (u64 (u64 (Timestamp rec))). rewrite (u64_id (u64 _)) by (apply Z.mod_pos_bound; lia).
  rewrite i64_u64 by done.
  destruct (expandEffects_cons rec) as (e1 & es1 & Heq).
  assert (0 < zlen (expandEffects rec)) by (rewrite Heq; unfold zlen; cbn [length]; lia).
  rewrite (be_get_put_small 4) by (change (256 ^ Z.of_nat 4) with (2 ^ 32); lia).
  destruct (_ || _) eqn:E2; [apply orb_true_iff in E2 as [E2|E2]; bool_to_prop; lia|].
  unfold zlen. rewrite Nat2Z.id. unfold es. rewrite <- (app_nil_r (mjoin _)).
  rewrite decode_encode_effects by done. cbn [rbind length]. change (negb (Z.of_nat 0 =? 0)) with false.
  unfold reread_record. rewrite Heq. done.
Qed.

(** ** Frames of a log *)

(** [bs] is a complete frame that decodes to [rec]. *)
Definition frame_of (enc : option AEAD) (bs : list byte) (rec : WALRecord) : Prop :=
  ∃ payload, bs = be_put 4 (zlen payload) ++ payload ∧
    min_frame enc ≤ zlen payload ≤ maxWALFrameSize ∧
    (let? plain := open_frame enc payload in decode_frame plain) = Ok rec.

(** The laws of the cipher the round trip relies on: opening what was sealed, and
    a tag of 16 bytes. *)
Definition aead_ok (g : AEAD) : Prop :=
  ∀ nonce p, Open g nonce (Seal g nonce p) = Some p ∧ length (Seal g nonce p) = (length p + 16)%nat.

(** The frame, encrypted or not, is within the limit. *)
Definition frame_fits (enc : option AEAD) (rec : WALRecord) : Prop :=
  zlen (encode_body rec) + 4 + (if enc is Some _ then 28 else 0) ≤ maxWALFrameSize.

Lemma zlen_body rec : 21 ≤ zlen (encode_body rec).
Proof.
  unfold encode_body, zlen. cbn [length]. rewrite !length_app, !length_be_put. lia.
Qed.

Lemma encodeRecord_frame enc nonce rec :
  (∀ g, enc = Some g → aead_ok g) → length nonce = NonceSize →
  record_ok rec → frame_fits enc rec →
  frame_of enc (encodeRecord enc nonce rec) (reread_record rec).
Proof.
  intros Hg Hnonce Hr Hf. pose proof (zlen_body rec) as Hz. unfold frame_fits in Hf.
  set (plain := encode_body rec ++ be_put 4 (ChecksumIEEE (encode_body rec))).
  assert (Hp : zlen plain = zlen (encode_body rec) + 4).
  { unfold plain. rewrite zlen_app. unfold zlen at 2. by rewrite length_be_put. }
  destruct enc as [g|]; cbn [min_frame] in *.
  - specialize (Hg g eq_refl). exists (Encrypt g nonce plain). conjs.
    + unfold encodeRecord, encodeRecordPlain. by rewrite drop_be.
    + unfold Encrypt. rewrite zlen_app. unfold zlen at 1 2. rewrite (proj2 (Hg _ _)), Hnonce.
      unfold zlen, NonceSize in *. cbn [min_frame]. lia.
    + unfold Encrypt. rewrite zlen_app. unfold zlen at 1 2. rewrite (proj2 (Hg _ _)), Hnonce.
      unfold zlen, NonceSize in *. lia.
    + unfold open_frame, Decrypt, Encrypt.
      rewrite nltb_false by (rewrite length_app, Hnonce; lia).
      rewrite take_app_length', drop_app_length' by done. rewrite (proj1 (Hg _ _)).
      destruct (zlen plain <? 25) eqn:E; bool_to_prop; [lia|]. cbn [rbind]. by apply decode_frame_encode.
  - exists plain. conjs; [|cbn [min_frame]; lia|lia|].
    + unfold encodeRecord, encodeRecordPlain. by rewrite Hp.
    + cbn [open_frame rbind]. by apply decode_frame_encode.
Qed.

Lemma ReadFull_app n a b : length a = n → ReadFull n (a ++ b) = inr (a, b).
Proof.
  intros <-. unfold ReadFull. rewrite nltb_false by (rewrite length_app; lia).
  by rewrite take_app_length, drop_app_length.
Qed.

Lemma frame_len_get n : 0 ≤ n ≤ maxWALFrameSize → be_get (be_put 4 n) = n.
Proof.
  change maxWALFrameSize with 67108864. intros. apply be_get_put_small.
  change (256 ^ Z.of_nat 4) with 4294967296. lia.
Qed.

Lemma min_frame_pos enc : 25 ≤ min_frame enc.
Proof. destruct enc; cbn; lia. Qed.

(** One complete frame in front of the input. *)
Lemma scan_frame {A} fuel partial enc (emit : A → WALRecord → res werror A) bs rec l acc :
  frame_of enc bs rec →
  scan_loop (S fuel) partial enc emit (bs ++ l) acc =
  match emit acc rec with
  | Ok acc => scan_loop fuel partial enc emit l acc
  | Err e => (acc, Err e)
  | Panic => (acc, Panic)
  end.
Proof.
  intros (payload & -> & Hlen & Hd). pose proof (min_frame_pos enc). cbn [scan_loop].
  rewrite <- app_assoc, ReadFull_app by apply length_be_put. rewrite frame_len_get by lia.
  destruct (_ || _) eqn:E; [apply orb_true_iff in E as [E|E]; bool_to_prop; lia|].
  rewrite ReadFull_app by (unfold zlen; lia). by rewrite Hd.
Qed.

(** A frame cut after [k] bytes. *)
Lemma scan_torn {A} fuel enc (emit : A → WALRecord → res werror A) bs rec k acc :
  frame_of enc bs rec → (k < length bs)%nat →
  scan_loop (S fuel) true enc emit (take k bs) acc =
  (acc, if decide (k = 4%nat) then Err (FramePayload io_EOF) else Ok tt).
Proof.
  intros (payload & -> & Hlen & _) Hk. pose proof (min_frame_pos enc). cbn [scan_loop].
  rewrite length_app, length_be_put in Hk.
  destruct (decide (k < 4)%nat) as [Hlt|Hge].
  { unfold ReadFull. rewrite length_take, length_app, length_be_put.
    rewrite nltb_true by lia. rewrite decide_False by lia. by destruct (_ =? _)%nat. }
  rewrite take_app_ge by (rewrite length_be_put; lia). rewrite length_be_put.
  rewrite ReadFull_app by apply length_be_put. rewrite frame_len_get by lia.
  destruct (_ || _) eqn:E; [apply orb_true_iff in E as [E|E]; bool_to_prop; lia|].
  unfold ReadFull. rewrite length_take. rewrite nltb_true by (unfold zlen; lia).
  destruct (decide (k = 4%nat)) as [->|].
  - done.
  - rewrite (proj2 (Nat.eqb_neq _ _)) by lia. done.
Qed.

(** ** Whole logs *)
Lemma frame_of_length enc bs rec : frame_of enc bs rec → (4 < length bs)%nat.
Proof.
  intros (payload & -> & Hlen & _). pose proof (min_frame_pos enc).
  rewrite length_app, length_be_put. unfold zlen in Hlen. lia.
Qed.

Lemma frames_length enc fs recs :
  Forall2 (frame_of enc) fs recs → (length fs ≤ length (mjoin fs))%nat.
Proof.
  induction 1 as [|bs rec fs recs Hf _ IH]; [cbn; lia|]. change (mjoin (?x :: ?l)) with (x ++ mjoin l).
  apply frame_of_length in Hf. rewrite length_app. cbn [length]. lia.
Qed.

Lemma scan_frames fuel partial enc fs recs l acc :
  Forall2 (frame_of enc) fs recs →
  scan_loop (length fs + fuel) partial enc collect (mjoin fs ++ l) acc =
  scan_loop fuel partial enc collect l (acc ++ recs).
Proof.
  intros Hf. revert acc. induction Hf as [|bs rec fs recs Hf _ IH]; intros acc.
  { by rewrite app_nil_r. }
  change (mjoin (?x :: ?l)) with (x ++ mjoin l). rewrite <- app_assoc. cbn [length Nat.add].
  rewrite (scan_frame _ _ _ _ bs rec) by done. cbn [collect]. rewrite IH. by rewrite <- app_assoc.
Qed.

(** The scan of complete frames followed by [l] is the scan of [l]. *)
Lemma scanFrames_app partial enc fs recs l :
  Forall2 (frame_of enc) fs recs →
  ∃ fuel, scanFrames partial enc collect (mjoin fs ++ l) [] =
    scan_loop (S fuel) partial enc collect l recs.
Proof.
  intros Hf. pose proof (frames_length _ _ _ Hf). unfold scanFrames.
  exists (length (mjoin fs ++ l) - length fs)%nat. rewrite <- (scan_frames _ _ _ _ recs) with (acc := []) by done.
  f_equal. rewrite length_app in *. lia.
Qed.

Lemma scanRecordsMode_header {A} partial enc (emit : A → WALRecord → res werror A) l acc :
  scanRecordsMode partial enc emit (walHeader enc ++ l) acc = scanFrames partial enc emit l acc.
Proof.
  unfold scanRecordsMode. rewrite ReadFull_app by by destruct enc.
  by rewrite bool_decide_eq_true_2.
Qed.

Lemma decodeFrames_one enc bs rec : frame_of enc bs rec → decodeFrames false enc bs = Ok [rec].
Proof.
  intros Hf. unfold decodeFrames. destruct (scanFrames_app false enc [bs] [rec] []) as [fuel Hs];
    [by constructor|]. change (mjoin [bs]) with (bs ++ []) in Hs. rewrite !app_nil_r in Hs.
  by rewrite Hs.
Qed.

Lemma repair_frame fuel enc bs rec l off :
  frame_of enc bs rec →
  repair_loop (S fuel) enc (bs ++ l) off = repair_loop fuel enc l (off + zlen bs).
Proof.
  intros Hf. pose proof (decodeFrames_one enc bs rec Hf) as Hone.
  destruct Hf as (payload & -> & Hlen & Hd). pose proof (min_frame_pos enc). cbn [repair_loop].
  rewrite <- app_assoc, ReadFull_app by apply length_be_put. rewrite frame_len_get by lia.
  destruct (_ || _) eqn:E; [apply orb_true_iff in E as [E|E]; bool_to_prop; lia|].
  rewrite ReadFull_app by (unfold zlen; lia). rewrite Hone. cbn [rbind]. f_equal.
  rewrite zlen_app. unfold zlen at 2. rewrite length_be_put. lia.
Qed.

Lemma repair_frames fuel enc fs recs l off :
  Forall2 (frame_of enc) fs recs →
  repair_loop (length fs + fuel) enc (mjoin fs ++ l) off = repair_loop fuel enc l (off + zlen (mjoin fs)).
Proof.
  intros Hf. revert off. induction Hf as [|bs rec fs recs Hf _ IH]; intros off.
  { by rewrite Z.add_0_r. }
  change (mjoin (?x :: ?l)) with (x ++ mjoin l). rewrite <- app_assoc. cbn [length Nat.add].
  rewrite (repair_frame _ _ bs rec), IH, zlen_app by done. f_equal. lia.
Qed.

Lemma repair_torn fuel enc bs rec k off :
  frame_of enc bs rec → (0 < k < length bs)%nat →
  repair_loop (S fuel) enc (take k bs) off =
  if decide (k = 4%nat) then Err (FramePayload io_EOF) else Ok (Some off).
Proof.
  intros (payload & -> & Hlen & _) Hk. pose proof (min_frame_pos enc). cbn [repair_loop].
  rewrite length_app, length_be_put in Hk.
  destruct (decide (k < 4)%nat) as [Hlt|Hge].
  { unfold ReadFull. rewrite length_take, length_app, length_be_put.
    rewrite nltb_true by lia. rewrite decide_False by lia.
    by rewrite (proj2 (Nat.eqb_neq _ _)) by lia. }
  rewrite take_app_ge by (rewrite length_be_put; lia). rewrite length_be_put.
  rewrite ReadFull_app by apply length_be_put. rewrite frame_len_get by lia.
  destruct (_ || _) eqn:E; [apply orb_true_iff in E as [E|E]; bool_to_prop; lia|].
  unfold ReadFull. rewrite length_take. rewrite nltb_true by (unfold zlen; lia).
  destruct (decide (k = 4%nat)) as [->|]; [done|].
  by rewrite (proj2 (Nat.eqb_neq _ _)) by lia.
Qed.

(** A log: the header and one frame for each record, written in order. *)
Definition log_frames (enc : option AEAD) (l : list (list byte * WALRecord)) : list (list byte) :=
  (fun p => encodeRecord enc p.1 p.2) <$> l.
Definition log_of (enc : option AEAD) (l : list (list byte * WALRecord)) : list byte :=
  walHeader enc ++ mjoin (log_frames enc l).

Definition writable (enc : option AEAD) (p : list byte * WALRecord) : Prop :=
  length p.1 = NonceSize ∧ record_ok p.2 ∧ frame_fits enc p.2.

Lemma log_frames_of enc l :
  (∀ g, enc = Some g → aead_ok g) → Forall (writable enc) l →
  Forall2 (frame_of enc) (log_frames enc l) (reread_record ∘ snd <$> l).
Proof.
  intros Hg. induction 1 as [|[nonce rec] l (Hn & Hr & Hf) _ IH]; constructor; [|done].
  by apply encodeRecord_frame.
Qed.

Lemma scan_torn_log enc l bs rec k :
  (∀ g, enc = Some g → aead_ok g) → Forall (writable enc) l →
  frame_of enc bs rec → (k < length bs)%nat →
  scanRecordsMode true enc collect (log_of enc l ++ take k bs) [] =
  (reread_record ∘ snd <$> l, if decide (k = 4%nat) then Err (FramePayload io_EOF) else Ok tt).
Proof.
  intros Hg Hl Hbs Hk. unfold log_of. rewrite <- app_assoc, scanRecordsMode_header.
  destruct (scanFrames_app true enc (log_frames enc l) _ (take k bs) (log_frames_of enc l Hg Hl)) as [fuel ->].
  by apply scan_torn with rec.
Qed.

Lemma repair_torn_log enc l bs rec k :
  (∀ g, enc = Some g → aead_ok g) → Forall (writable enc) l →
  frame_of enc bs rec → (k < length bs)%nat →
  repairWALTail enc (log_of enc l ++ take k bs) =
  if decide (k = 4%nat) then Err (FramePayload io_EOF) else Ok (log_of enc l).
Proof.
  intros Hg Hl Hbs Hk. unfold repairWALTail.
  rewrite (ReadFull_app _ (walHeader enc) _) with (b := mjoin (log_frames enc l) ++ take k bs)
    || (unfold log_of at 1; rewrite <- app_assoc, ReadFull_app by by destruct enc).
  rewrite bool_decide_eq_true_2 by done. cbn [negb].
  pose proof (log_frames_of enc l Hg Hl) as Hfs. pose proof (frames_length _ _ _ Hfs).
  replace (S (length (mjoin (log_frames enc l) ++ take k bs)))
    with (length (log_frames enc l) + S (length (mjoin (log_frames enc l) ++ take k bs) - length (log_frames enc l)))%nat
    by (rewrite length_app; lia).
  rewrite (repair_frames _ _ _ _ _ _ Hfs). destruct (decide (k = 0%nat)) as [->|Hk0].
  { rewrite take_0, !app_nil_r. rewrite decide_False by done. done. }
  rewrite (repair_torn _ _ bs rec) by (done || lia). case_decide; [done|]. cbn [rbind]. f_equal.
  rewrite take_app_length'; [done|]. unfold log_of, zlen. rewrite length_app. lia.
Qed.

(** C20: a log whose last frame was cut by a crash, plain or encrypted
    with a cipher that opens what it sealed, is read back as the records before
    the cut, and opening it truncates the file to exactly those records' frames,
    whatever the number of bytes of the frame that survived, unless it is four:
    when only the length field survived both report the end of the input. *)
Theorem wal_torn_tail enc l nonce rec k :
  (∀ g, enc = Some g → aead_ok g) → Forall (writable enc) l → writable enc (nonce, rec) →
  let frame := encodeRecord enc nonce rec in
  (k < length frame)%nat →
  let file := log_of enc l ++ take k frame in
  (k ≠ 4%nat →
     scanRecordsMode true enc collect file [] = (reread_record ∘ snd <$> l, Ok tt) ∧
     repairWALTail enc file = Ok (log_of enc l)) ∧
  (k = 4%nat →
     scanRecordsMode true enc collect file [] = (reread_record ∘ snd <$> l, Err (FramePayload io_EOF)) ∧
     repairWALTail enc file = Err (FramePayload io_EOF)).
Proof.
  intros Hg Hl (Hn & Hr & Hf) frame Hk file.
  pose proof (encodeRecord_frame enc nonce rec Hg Hn Hr Hf) as Hfr.
  pose proof (scan_torn_log enc l _ _ k Hg Hl Hfr Hk) as Hs.
  pose proof (repair_torn_log enc l _ _ k Hg Hl Hfr Hk) as Hp.
  split; intros Hk4; case_decide; done.
Qed.

(** C21: the records of a log are read back in order with their
    sequence numbers, timestamps, keys, deadlines and bytes (an empty value comes
    back nil), in strict mode too, and one encoded record decodes by itself. *)
Theorem wal_roundtrip enc l partial :
  (∀ g, enc = Some g → aead_ok g) → Forall (writable enc) l →
  scanRecordsMode partial enc collect (log_of enc l) [] = (reread_record ∘ snd <$> l, Ok tt) ∧
  repairWALTail enc (log_of enc l) = Ok (log_of enc l) ∧
  ∀ rec, record_ok rec → frame_fits None rec → DecodeRecord (encodeRecordPlain rec) = Ok (reread_record rec).
Proof.
  intros Hg Hl. pose proof (log_frames_of enc l Hg Hl) as Hfs. conjs.
  - unfold log_of. rewrite scanRecordsMode_header.
    destruct (scanFrames_app partial enc _ _ [] Hfs) as [fuel Hs]. rewrite app_nil_r in Hs. by rewrite Hs.
  - unfold repairWALTail, log_of. rewrite ReadFull_app by by destruct enc.
    rewrite bool_decide_eq_true_2 by done. cbn [negb]. pose proof (frames_length _ _ _ Hfs).
    rewrite <- (app_nil_r (mjoin _)) at 2.
    replace (S (length (mjoin (log_frames enc l))))
      with (length (log_frames enc l) + S (length (mjoin (log_frames enc l)) - length (log_frames enc l)))%nat by lia.
    rewrite (repair_frames _ _ _ _ _ _ Hfs). done.
  - intros rec Hr Hf. unfold DecodeRecord.
    rewrite (decodeFrames_one None _ (reread_record rec)); [done|].
    by apply (encodeRecord_frame None (replicate 12 Byte.x00)).
Qed.

(** ** Witnesses *)

(** A cipher for the witnesses: no secrecy, a constant tag. *)
Definition toy : AEAD := {|
  Seal _ p := p ++ replicate 16 Byte.x5a;
  Open _ c := if (length c <? 16)%nat then None
              else if bool_decide (drop (length c - 16) c = replicate 16 Byte.x5a)
                   then Some (take (length c - 16) c) else None
|}.

Lemma toy_ok : aead_ok toy.
Proof.
  intros nonce p. cbn [Open Seal toy]. rewrite length_app, length_replicate. split; [|done].
  rewrite nltb_false by lia. replace (length p + 16 - 16)%nat with (length p) by lia.
  rewrite drop_app_length, take_app_length. by rewrite bool_decide_eq_true_2.
Qed.

Definition demo_rec : WALRecord :=
  {| r_Type := Byte.x00; r_Key := ""; r_Value := None; r_TTLNano := 0; Timestamp := 77; Sequence := 5;
     Effects := [{| we_Type := RecordSet; we_Key := "k"; we_Value := to_slice "v"; we_ExpiresAt := -1 |};
                 {| we_Type := RecordDelete; we_Key := "j"; we_Value := Some []; we_ExpiresAt := 0 |}] |}.
Definition demo_nonce : list byte := replicate 12 Byte.x07.

Lemma demo_writable : writable (Some toy) (demo_nonce, demo_rec).
Proof.
  unfold writable, record_ok, frame_fits, in_i64. cbn [fst snd].
  conjs; [reflexivity|vm_compute; discriminate|reflexivity|vm_compute; discriminate..|repeat constructor|];
    vm_compute; discriminate.
Qed.

Lemma wal_torn_tail_witness :
  let file := log_of (Some toy) [(demo_nonce, demo_rec)] ++ take 9 (encodeRecord (Some toy) demo_nonce demo_rec) in
  repairWALTail (Some toy) file = Ok (log_of (Some toy) [(demo_nonce, demo_rec)]).
Proof.
  apply (wal_torn_tail (Some toy) [(demo_nonce, demo_rec)] demo_nonce demo_rec 9).
  - intros g [= <-]. apply toy_ok.
  - constructor; [apply demo_writable|constructor].
  - apply demo_writable.
  - apply (bool_decide_unpack _). vm_compute. exact I.
  - discriminate.
Defined.

Lemma wal_roundtrip_witness :
  scanRecordsMode false (Some toy) collect (log_of (Some toy) [(demo_nonce, demo_rec)]) [] =
  ([reread_record demo_rec], Ok tt) ∧ Sequence (reread_record demo_rec) = 5.
Proof.
  destruct (wal_roundtrip (Some toy) [(demo_nonce, demo_rec)] false) as (H1 & _).
  - intros g [= <-]. apply toy_ok.
  - constructor; [apply demo_writable|constructor].
  - split; [exact H1|reflexivity].
Defined.
