(* ===== verification/Log.v ===== *)
(** * The running log ([persistence/wal.go]: [Write], [WriteTransaction],
    [flusher], [Sync], [Failure])

    Writers stamp a record under the [order] lock and send it on a channel; one
    goroutine takes records from the channel, appends their frames to a buffered
    file and acknowledges them. The goroutines are a step relation over the
    channel, the unsynced bytes and the synced file; a crash keeps the synced
    file and any prefix of the unsynced bytes. *)

From S2P Require Import Prelude GoStd WAL.

(** ** State *)
Record Log := {
  syncMode : string;
  seq : Z;
  recordCh : list WALRecord;            (* sent, not yet taken by the flusher *)
  written : list (list byte * WALRecord);  (* frames handed to the buffered writer, with their nonces *)
  buffered : list byte;                 (* not synced *)
  disk : list byte;                     (* synced *)
  failed : bool;                        (* failedErr is set *)
  broken : bool;                        (* the buffered writer holds a write error, which it keeps *)
  acked : list WALRecord;               (* writes that returned without error *)
  taken : list (list byte * WALRecord)  (* every frame encoded for the writer, a failed append included *)
}.

(** [OpenWALEncrypted] for a directory whose only segment is wal.log, with the
    contents [file]: the file it leaves and the last sequence number. *)
Definition OpenWALEncrypted (enc : option AEAD) (file : list byte) : res werror (list byte * Z) :=
  let? file := match file with [] => Ok (walHeader enc) | _ => repairWALTail enc file end in
  match scanRecordsMode true enc collect file [] with
  | (records, Ok _) => Ok (file, foldl (fun s rec => if Sequence rec >? s then Sequence rec else s) 0 records)
  | (_, Err e) => Err e
  | (_, Panic) => Panic
  end.

(** The log opened on an empty file. *)
Definition OpenLog (enc : option AEAD) (mode : string) : Log :=
  {| syncMode := mode; seq := 0; recordCh := []; written := []; buffered := [];
     disk := walHeader enc; failed := false; broken := false; acked := []; taken := [] |}.

(** [Write] up to the send: the sequence number, the clock, and for a record
    without effects the one it stands for, with an absolute deadline. *)
Definition stamp (now s : Z) (rec : WALRecord) : WALRecord :=
  let effects :=
    match Effects rec with
    | [] =>
        let expiresAt := r_TTLNano rec in
        let expiresAt :=
          if (expiresAt >? 0) && negb (bool_decide (r_Type rec = RecordExpire))
          then i64 (now + expiresAt) else expiresAt in
        let expiresAt :=
          if bool_decide (r_Type rec = RecordExpire) && (expiresAt >? 0) && (expiresAt <? now)
          then i64 (now + expiresAt) else expiresAt in
        [{| we_Type := r_Type rec; we_Key := r_Key rec; we_Value := scopy (r_Value rec);
            we_ExpiresAt := expiresAt |}]
    | es => es
    end in
  {| r_Type := r_Type rec; r_Key := r_Key rec; r_Value := r_Value rec; r_TTLNano := r_TTLNano rec;
     Timestamp := now; Sequence := s; Effects := effects |}.

(** [WriteTransaction]: the record of a set of effects. *)
Definition transaction_record (effects : list WALEffect) : WALRecord :=
  {| r_Type := Byte.x00; r_Key := ""; r_Value := None; r_TTLNano := 0; Timestamp := 0; Sequence := 0;
     Effects := reread <$> effects |}.

(** ** Steps

    A sync that succeeds makes every byte handed to the writer before it durable. *)
Inductive step (enc : option AEAD) : Log → Log → Prop :=
| step_send now rec w :
    (* Write: refused once a failure is latched *)
    failed w = false →
    let s := u64 (seq w + 1) in
    step enc w {| syncMode := syncMode w; seq := s; recordCh := recordCh w ++ [stamp now s rec];
                  written := written w; buffered := buffered w; disk := disk w; failed := failed w;
                  broken := broken w; acked := acked w; taken := taken w |}
| step_take nonce rec rest w :
    (* the flusher appends a frame; in mode always it syncs before it acknowledges *)
    recordCh w = rec :: rest → broken w = false →
    let data := encodeRecord enc nonce rec in
    let always := bool_decide (syncMode w = "always") in
    step enc w {| syncMode := syncMode w; seq := seq w; recordCh := rest;
                  written := written w ++ [(nonce, rec)];
                  buffered := if always then [] else buffered w ++ data;
                  disk := if always then disk w ++ buffered w ++ data else disk w;
                  failed := failed w; broken := false; acked := acked w ++ [rec];
                  taken := taken w ++ [(nonce, rec)] |}
| step_take_write_error nonce rec rest k w :
    (* the append fails: part of the frame may be buffered, and the writer keeps its error *)
    recordCh w = rec :: rest → broken w = false →
    (k ≤ length (encodeRecord enc nonce rec))%nat →
    step enc w {| syncMode := syncMode w; seq := seq w; recordCh := rest;
                  written := written w; buffered := buffered w ++ take k (encodeRecord enc nonce rec);
                  disk := disk w; failed := true; broken := true; acked := acked w;
                  taken := taken w ++ [(nonce, rec)] |}
| step_take_sync_error nonce rec rest b w :
    (* mode always: the frame is appended, and the flush or the sync after it fails *)
    recordCh w = rec :: rest → broken w = false → syncMode w = "always" →
    step enc w {| syncMode := syncMode w; seq := seq w; recordCh := rest;
                  written := written w ++ [(nonce, rec)];
                  buffered := buffered w ++ encodeRecord enc nonce rec;
                  disk := disk w; failed := true; broken := b; acked := acked w;
                  taken := taken w ++ [(nonce, rec)] |}
| step_take_refused rec rest w :
    (* the record cannot be sealed, or the writer is broken: it is dropped with an error *)
    recordCh w = rec :: rest →
    step enc w {| syncMode := syncMode w; seq := seq w; recordCh := rest; written := written w;
                  buffered := buffered w; disk := disk w; failed := failed w; broken := broken w;
                  acked := acked w; taken := taken w |}
| step_sync w :
    (* the ticker of everysec, or Sync *)
    broken w = false →
    step enc w {| syncMode := syncMode w; seq := seq w; recordCh := recordCh w; written := written w;
                  buffered := []; disk := disk w ++ buffered w; failed := failed w; broken := false;
                  acked := acked w; taken := taken w |}
| step_sync_error b w :
    (* the same, failing *)
    (broken w = true → b = true) →
    step enc w {| syncMode := syncMode w; seq := seq w; recordCh := recordCh w; written := written w;
                  buffered := buffered w; disk := disk w; failed := true; broken := b; acked := acked w;
                  taken := taken w |}.

Inductive steps (enc : option AEAD) : Log → Log → Prop :=
| steps_nil w : steps enc w w
| steps_cons w1 w2 w3 : steps enc w1 w2 → step enc w2 w3 → steps enc w1 w3.

(** The file after a crash: [k] unsynced bytes made it to the disk. *)
Definition crash (k : nat) (w : Log) : list byte := disk w ++ take k (buffered w).

(** ** The invariant *)

(** The bytes are the log of the records handed to the writer, and part of one
    more whose append failed; the acknowledged records are among them, in their
    order, and in mode always among the synced ones. *)
Record log_ok (enc : option AEAD) (w : Log) : Prop := {
  lo_taken : written w ⊆ taken w;
  lo_acked : acked w `sublist_of` (snd <$> written w);
  lo_bytes : ∃ extra j, extra ⊆ taken w ∧
    disk w ++ buffered w = log_of enc (written w) ++ take j (mjoin (log_frames enc extra)) ∧
    (broken w = false → extra = []);
  lo_synced : ∃ n, (n ≤ length (written w))%nat ∧ disk w = log_of enc (take n (written w)) ∧
    (syncMode w = "always" → acked w `sublist_of` (snd <$> take n (written w)))
}.

Lemma log_frames_app enc l1 l2 :
  mjoin (log_frames enc (l1 ++ l2)) = mjoin (log_frames enc l1) ++ mjoin (log_frames enc l2).
Proof. unfold log_frames. by rewrite fmap_app, mjoin_app. Qed.

Lemma log_of_app enc l1 l2 : log_of enc (l1 ++ l2) = log_of enc l1 ++ mjoin (log_frames enc l2).
Proof.
  unfold log_of. by rewrite log_frames_app, app_assoc.
Qed.

Lemma log_of_snoc enc l nonce rec :
  log_of enc (l ++ [(nonce, rec)]) = log_of enc l ++ encodeRecord enc nonce rec.
Proof. rewrite log_of_app. f_equal. apply app_nil_r. Qed.

Lemma OpenLog_opens enc mode :
  OpenWALEncrypted enc [] = Ok (disk (OpenLog enc mode), seq (OpenLog enc mode)).
Proof. by destruct enc. Qed.

Lemma OpenLog_ok enc mode : log_ok enc (OpenLog enc mode).
Proof.
  split; cbn [written acked disk buffered broken OpenLog syncMode taken]; [done|done| |].
  - exists [], O. split; [set_solver|]. split; [|done]. unfold log_of. cbn. by rewrite !app_nil_r.
  - exists O. split; [done|]. split; [|done]. unfold log_of. cbn. by rewrite app_nil_r.
Qed.

(** Appending a whole frame. *)
Lemma append_bytes enc w nonce rec (extra : list (list byte * WALRecord)) j :
  disk w ++ buffered w = log_of enc (written w) ++ take j (mjoin (log_frames enc extra)) → extra = [] →
  disk w ++ buffered w ++ encodeRecord enc nonce rec = log_of enc (written w ++ [(nonce, rec)]).
Proof.
  intros Hb ->. change (mjoin (log_frames enc [])) with (@nil byte) in Hb.
  rewrite take_nil, app_nil_r in Hb. by rewrite log_of_snoc, <- Hb, app_assoc.
Qed.

Lemma step_ok enc w w' : step enc w w' → log_ok enc w → log_ok enc w'.
Proof.
  intros Hs [Hw Ha (extra & j & Hx & Hb & Hf) (n & Hn & Hd & Hm)].
  destruct Hs as [now rec w Hfail s|nonce rec rest w Hch Hbr data always
                 |nonce rec rest k w Hch Hbr Hk|nonce rec rest b w Hch Hbr Hal|rec rest w Hch
                 |w Hbr|b w Hbr]; try specialize (Hf Hbr).
  - split; cbn [written acked disk buffered broken syncMode taken]; eauto 10.
  - pose proof (append_bytes enc w nonce rec extra j Hb Hf) as Happ.
    split; cbn [written acked disk buffered broken syncMode taken].
    + set_solver.
    + rewrite fmap_app. by apply sublist_app.
    + exists [], O. split; [set_solver|]. split; [|done]. rewrite take_0, app_nil_r, <- Happ.
      destruct always; by rewrite ?app_nil_r, <- ?app_assoc.
    + destruct always eqn:Eal.
      * exists (length (written w ++ [(nonce, rec)])). rewrite take_ge by done. split; [done|].
        split; [done|]. intros _. rewrite fmap_app. by apply sublist_app.
      * exists n. rewrite length_app. split; [lia|]. split; [by rewrite take_app_le|].
        intros Hal. unfold always in Eal. by bool_to_prop.
  - subst extra. change (mjoin (log_frames enc [])) with (@nil byte) in Hb.
    rewrite take_nil, app_nil_r in Hb.
    split; cbn [written acked disk buffered broken syncMode taken]; [set_solver|done| |eauto].
    exists [(nonce, rec)], k. split; [set_solver|]. split; [|done].
    rewrite app_assoc, Hb. f_equal. change (mjoin (log_frames enc [(nonce, rec)]))
      with (encodeRecord enc nonce rec ++ []). by rewrite app_nil_r.
  - pose proof (append_bytes enc w nonce rec extra j Hb Hf) as Happ.
    split; cbn [written acked disk buffered broken syncMode taken].
    + set_solver.
    + rewrite fmap_app. etrans; [exact Ha|]. by apply sublist_inserts_r.
    + exists [], O. split; [set_solver|]. split; [|done]. by rewrite take_0, app_nil_r.
    + exists n. rewrite length_app. split; [lia|]. by rewrite take_app_le.
  - split; cbn [written acked disk buffered broken syncMode taken]; [done|done|by exists extra, j|by exists n].
  - subst extra. change (mjoin (log_frames enc [])) with (@nil byte) in Hb.
    rewrite take_nil, app_nil_r in Hb.
    split; cbn [written acked disk buffered broken syncMode taken]; [done..| |].
    + exists [], O. split; [set_solver|]. split; [|done]. by rewrite take_0, !app_nil_r.
    + exists (length (written w)). by rewrite take_ge.
  - split; cbn [written acked disk buffered broken syncMode taken]; [done|done| |by exists n].
    exists extra, j. split; [done|]. split; [done|]. intros ->. apply Hf.
    destruct (broken w); [by specialize (Hbr eq_refl)|done].
Qed.

Lemma steps_ok enc w w' : steps enc w w' → log_ok enc w → log_ok enc w'.
Proof. induction 1; eauto using step_ok. Qed.

(** ** Recovery after a crash *)

(** A prefix of a log is complete frames and part of the next one. *)
Lemma prefix_split enc l m :
  ∃ n, (n ≤ length l)%nat ∧
    (take m (mjoin (log_frames enc l)) = mjoin (log_frames enc (take n l)) ∧
     (n < length l → m = length (mjoin (log_frames enc (take n l))))%nat ∨
     ∃ nonce rec k, l !! n = Some (nonce, rec) ∧ (k < length (encodeRecord enc nonce rec))%nat ∧
       m = (length (mjoin (log_frames enc (take n l))) + k)%nat ∧
       take m (mjoin (log_frames enc l)) = mjoin (log_frames enc (take n l)) ++ take k (encodeRecord enc nonce rec)).
Proof.
  revert m. induction l as [|[nonce rec] l IH]; intros m.
  { exists O. split; [done|]. left. split; [apply take_nil|cbn; lia]. }
  change (mjoin (log_frames enc ((nonce, rec) :: l))) with (encodeRecord enc nonce rec ++ mjoin (log_frames enc l)).
  set (f := encodeRecord enc nonce rec). destruct (decide (m < length f)%nat) as [Hlt|Hge].
  { exists O. split; [cbn; lia|]. right. exists nonce, rec, m. cbn [lookup list_lookup take].
    change (mjoin (log_frames enc [])) with (@nil byte). cbn [length app].
    rewrite take_app_le by lia. done. }
  destruct (IH (m - length f)%nat) as (n & Hn & Hcase). exists (S n). split; [cbn; lia|].
  cbn [take]. change (mjoin (log_frames enc ((nonce, rec) :: ?l))) with (f ++ mjoin (log_frames enc l)).
  rewrite take_app_ge by lia. destruct Hcase as [[Ht Hm]|(nc & rc & k & Hl & Hk & Hm & Ht)].
  - left. rewrite Ht. split; [done|]. cbn [length]. intros Hlt. rewrite length_app. specialize (Hm ltac:(lia)). lia.
  - right. exists nc, rc, k. rewrite Ht, app_assoc, length_app. conjs; [done|done|lia|done].
Qed.

Lemma scan_prefix enc l m :
  (∀ g, enc = Some g → aead_ok g) → Forall (writable enc) l →
  ∃ n r, (n ≤ length l)%nat ∧
    scanRecordsMode true enc collect (walHeader enc ++ take m (mjoin (log_frames enc l))) [] =
      (reread_record ∘ snd <$> take n l, r) ∧
    (r = Ok tt ∨ r = Err (FramePayload io_EOF)) ∧
    ∀ i, (i ≤ length l)%nat → (length (mjoin (log_frames enc (take i l))) ≤ m)%nat → (i ≤ n)%nat.
Proof.
  intros Hg Hl. destruct (prefix_split enc l m) as (n & Hn & Hcase).
  assert (Hmono : ∀ i, (n < i ≤ length l)%nat →
    ∃ nonce rec, l !! n = Some (nonce, rec) ∧
      (length (mjoin (log_frames enc (take n l))) + length (encodeRecord enc nonce rec)
       ≤ length (mjoin (log_frames enc (take i l))))%nat).
  { intros i Hi. destruct (lookup_lt_is_Some_2 l n ltac:(lia)) as [[nonce rec] Hnr].
    exists nonce, rec. split; [done|].
    assert (Htk : take i l = take n l ++ (nonce, rec) :: drop (S n) (take i l)).
    { rewrite <- (take_drop n (take i l)) at 1. rewrite take_take. f_equal; [f_equal; lia|].
      apply drop_S. rewrite lookup_take_lt by lia. done. }
    rewrite Htk, log_frames_app, length_app.
    change (mjoin (log_frames enc ((nonce, rec) :: ?l))) with (encodeRecord enc nonce rec ++ mjoin (log_frames enc l)).
    rewrite length_app. lia. }
  assert (Htn : Forall (writable enc) (take n l)) by by apply Forall_take.
  destruct Hcase as [[Ht Hm]|(nonce & rec & k & Hnr & Hk & Hm & Ht)].
  - exists n, (Ok tt). conjs; [done| |by left|].
    + rewrite Ht. pose proof (log_frames_of enc _ Hg Htn) as Hfs. rewrite scanRecordsMode_header.
      destruct (scanFrames_app true enc _ _ [] Hfs) as [fuel Hs]. rewrite app_nil_r in Hs. by rewrite Hs.
    + intros i Hi Hle. destruct (decide (i ≤ n)%nat); [done|]. exfalso.
      destruct (Hmono i ltac:(lia)) as (nonce & rec & Hnr & Hl'). specialize (Hm ltac:(lia)).
      assert (Hwr : writable enc (nonce, rec)) by by eapply Forall_lookup_1 in Hl.
      destruct Hwr as (H1 & H2 & H3).
      pose proof (frame_of_length _ _ _ (encodeRecord_frame enc nonce rec Hg H1 H2 H3)). lia.
  - assert (Hwr : writable enc (nonce, rec)) by by eapply Forall_lookup_1 in Hl.
    destruct Hwr as (H1 & H2 & H3). pose proof (encodeRecord_frame enc nonce rec Hg H1 H2 H3) as Hfr.
    pose proof (scan_torn_log enc (take n l) _ _ k Hg Htn Hfr Hk) as Hs.
    eexists n, _. conjs; [done| | |].
    + rewrite Ht. unfold log_of in Hs. rewrite <- app_assoc in Hs. exact Hs.
    + case_decide; auto.
    + intros i Hi Hle. destruct (decide (i ≤ n)%nat); [done|]. exfalso.
      destruct (Hmono i ltac:(lia)) as (nonce' & rec' & Hnr' & Hl'). simplify_eq. lia.
Qed.

Lemma take_sub_app {A} (a b : list A) k : ∃ m, a ++ take k b = take m (a ++ b) ∧ (length a ≤ m)%nat.
Proof.
  exists (length a + k)%nat. split; [|lia]. rewrite take_app_ge by lia. f_equal. f_equal. lia.
Qed.


(** ** Witness: two writes in mode always, a failed sync, then a crash *)
Definition demo_record : WALRecord :=
  transaction_record [{| we_Type := RecordSet; we_Key := "k"; we_Value := to_slice "v"; we_ExpiresAt := 0 |}].

Lemma demo_stamped_writable now s : now = 10 ∨ now = 20 → s = 1 ∨ s = 2 →
  writable None (demo_nonce, stamp now s demo_record).
Proof.
  intros [-> | ->] [-> | ->]; unfold writable, record_ok, frame_fits, in_i64; cbn [fst snd];
    (conjs; [reflexivity|vm_compute; discriminate|reflexivity|vm_compute; discriminate..|repeat constructor|];
     vm_compute; discriminate).
Qed.

Lemma demo_run : ∃ w, steps None (OpenLog None "always") w ∧ map Sequence (acked w) = [1] ∧
  map Sequence (snd <$> written w) = [1; 2] ∧ broken w = false ∧ Forall (writable None) (taken w).
Proof.
  eexists. split; [|split; [|split; [|split]]].
  - eapply steps_cons; [eapply steps_cons; [eapply steps_cons; [eapply steps_cons; [apply steps_nil|]|]|]|].
    + apply (step_send None 10 demo_record). reflexivity.
    + apply (step_send None 20 demo_record). reflexivity.
    + eapply (step_take None demo_nonce); reflexivity.
    + eapply (step_take_sync_error None demo_nonce _ _ false);
        reflexivity.
  - reflexivity.
  - reflexivity.
  - reflexivity.
  - apply Forall_cons_2; [|apply Forall_cons_2; [|apply Forall_nil_2]]; apply demo_stamped_writable; auto.
Qed.

