(* ===== verification/Transaction.v ===== *)
(** * Transactions ([transaction/*.go])

    The version history and its snapshot reads ([mvcc.go], [isolation.go]), the
    watched keys ([watch.go]), the MULTI queues ([multi.go]), the order of
    multi-key locking ([lock_manager.go]), the rollback log ([rollback.go]) and
    the two-phase commit coordinator ([2pc.go]). *)

From S2P Require Import Prelude GoStd Types KV RESP.

(** ** Version history *)
Module MVCC.

Record VersionedValue := { vv_Value : value; vv_Version : Z; vv_Timestamp : Z; vv_Deleted : bool }.
Record MVCCStore := {
  history : gmap string (list VersionedValue);
  current : Z;               (* uint64 *)
  maxVersionsPerKey : Z
}.

Definition NewMVCCStore (maxVersions : Z) : MVCCStore :=
  {| history := ∅; current := 0;
     maxVersionsPerKey := if maxVersions <=? 0 then 64 else maxVersions |}.

Definition CurrentVersion (m : MVCCStore) : Z := current m.
Definition NextVersion (m : MVCCStore) : Z * MVCCStore :=
  let v := u64 (current m + 1) in
  (v, {| history := history m; current := v; maxVersionsPerKey := maxVersionsPerKey m |}).

Definition hist (m : MVCCStore) (key : string) : list VersionedValue := default [] (history m !! key).

Definition Write (now : Z) (key : string) (v : value) (deleted : bool) (m : MVCCStore) : Z * MVCCStore :=
  let '(ver, m) := NextVersion m in
  let vv := {| vv_Value := v; vv_Version := ver; vv_Timestamp := now; vv_Deleted := deleted |} in
  let h := hist m key ++ [vv] in
  let h := if zlen h >? maxVersionsPerKey m
           then drop (Z.to_nat (zlen h - maxVersionsPerKey m)) h else h in
  (ver, {| history := <[key := h]> (history m); current := current m;
           maxVersionsPerKey := maxVersionsPerKey m |}).

(** The loop of [ReadAt], over the history from its newest element. *)
Fixpoint read_back (rh : list VersionedValue) (snapshotVersion : Z) : option VersionedValue :=
  match rh with
  | [] => None
  | vv :: rh' => if vv_Version vv <=? snapshotVersion then Some vv else read_back rh' snapshotVersion
  end.
Definition ReadAt (key : string) (snapshotVersion : Z) (m : MVCCStore) : option VersionedValue :=
  read_back (rev (hist m key)) snapshotVersion.
Definition ReadLatest (key : string) (m : MVCCStore) : option VersionedValue :=
  ReadAt key (CurrentVersion m) m.
Definition HistoryAt (key : string) (snapshotVersion : Z) (m : MVCCStore) : list VersionedValue :=
  List.filter (fun vv => vv_Version vv <=? snapshotVersion) (hist m key).

Definition GC (minVersion : Z) (m : MVCCStore) : MVCCStore :=
  {| history := omap (fun h =>
       match List.filter (fun vv => minVersion <=? vv_Version vv) h with
       | [] => None
       | keep => Some keep
       end) (history m);
     current := current m; maxVersionsPerKey := maxVersionsPerKey m |}.

(** [IsolationEnforcer]: a read at a snapshot taken before. *)
Definition Snapshot (m : MVCCStore) : Z := CurrentVersion m.
Definition ReadAtSnapshot (key : string) (snapshotVersion : Z) (m : MVCCStore) : option VersionedValue :=
  ReadAt key snapshotVersion m.

(** Histories are in the order of their versions, none newer than the counter. *)
Definition mvcc_wf (m : MVCCStore) : Prop :=
  0 < maxVersionsPerKey m ∧ 0 ≤ current m ∧
  ∀ key, StronglySorted (fun a b => vv_Version a < vv_Version b) (hist m key) ∧
         Forall (fun vv => vv_Version vv ≤ current m) (hist m key).

Lemma NewMVCCStore_wf n : mvcc_wf (NewMVCCStore n).
Proof.
  split; [|split; [done|]].
  - cbn. destruct (n <=? 0) eqn:E; bool_to_prop; lia.
  - intros key. unfold hist. cbn. rewrite lookup_empty. by split; constructor.
Qed.

Lemma read_back_app l1 l2 v :
  read_back (l1 ++ l2) v = match read_back l1 v with Some x => Some x | None => read_back l2 v end.
Proof.
  induction l1 as [|x l1 IH]; cbn [app read_back]; [done|]. by destruct (_ <=? _).
Qed.

Lemma read_back_newer l v : Forall (fun vv => v < vv_Version vv) l → read_back l v = None.
Proof.
  induction 1 as [|x l Hx _ IH]; cbn [read_back]; [done|].
  by rewrite (proj2 (Z.leb_gt _ _) Hx).
Qed.

Lemma StronglySorted_drop {A} (R : A → A → Prop) n l : StronglySorted R l → StronglySorted R (drop n l).
Proof.
  revert n. induction l as [|x l IH]; intros n Hs; [by rewrite drop_nil|].
  destruct n as [|n]; [done|]. cbn [drop]. apply IH. by inversion Hs.
Qed.

Lemma StronglySorted_snoc {A} (R : A → A → Prop) l x :
  StronglySorted R l → Forall (fun y => R y x) l → StronglySorted R (l ++ [x]).
Proof.
  induction 1 as [|y l Hs IH Hy]; intros Hl; cbn [app]; [by repeat constructor|].
  apply Forall_cons in Hl as [Hyx Hl]. constructor; [by apply IH|].
  apply Forall_app. by split; [|constructor].
Qed.

(** What [Write] leaves in the histories. *)
Lemma Write_hist now key v del m :
  0 ≤ current m < 2 ^ 64 - 1 →
  let vv := {| vv_Value := v; vv_Version := current m + 1; vv_Timestamp := now; vv_Deleted := del |} in
  let n := Z.to_nat (zlen (hist m key) + 1 - maxVersionsPerKey m) in
  fst (Write now key v del m) = current m + 1 ∧
  current (snd (Write now key v del m)) = current m + 1 ∧
  maxVersionsPerKey (snd (Write now key v del m)) = maxVersionsPerKey m ∧
  hist (snd (Write now key v del m)) key = drop n (hist m key ++ [vv]) ∧
  ∀ k, k ≠ key → hist (snd (Write now key v del m)) k = hist m k.
Proof.
  intros Hc vv n. unfold Write, NextVersion. cbn [fst snd].
  rewrite (u64_id (current m + 1)) by lia. cbn [current maxVersionsPerKey history].
  fold vv. unfold hist at 2 3 4. cbn [history]. fold (hist m key). split; [done|].
  split; [done|]. split; [done|]. split.
  - unfold hist at 1. cbn [history]. rewrite lookup_insert_eq. cbn [default from_option id].
    rewrite zlen_app. change (zlen [vv]) with 1. subst n.
    destruct (_ >? _) eqn:E; bool_to_prop; [done|].
    replace (Z.to_nat _) with O by lia. done.
  - intros k Hk. unfold hist. cbn [history]. by rewrite lookup_insert_ne.
Qed.

Lemma Write_wf now key v del m :
  mvcc_wf m → current m < 2 ^ 64 - 1 → mvcc_wf (snd (Write now key v del m)).
Proof.
  intros (Hm & Hc & Hh) Hlt.
  destruct (Write_hist now key v del m ltac:(lia)) as (_ & H2 & H3 & H4 & H5).
  split; [by rewrite H3|]. rewrite H2. split; [lia|]. intros k.
  destruct (Hh k) as [Hs Hf]. destruct (decide (k = key)) as [->|Hk].
  - rewrite H4. split.
    + apply StronglySorted_drop, StronglySorted_snoc; [done|].
      eapply Forall_impl; [exact Hf|]. cbn. lia.
    + apply Forall_drop, Forall_app. split; [|by repeat constructor; cbn; lia].
      eapply Forall_impl; [exact Hf|]. cbn. lia.
  - rewrite H5 by done. split; [done|]. eapply Forall_impl; [exact Hf|]. cbn. lia.
Qed.

Lemma read_back_Some l v x : read_back l v = Some x → vv_Version x ≤ v.
Proof.
  induction l as [|z l IH]; cbn [read_back]; [done|].
  destruct (_ <=? _) eqn:E; [|done]. intros [= <-]. by bool_to_prop.
Qed.

Lemma read_back_in l v x : read_back l v = Some x → x ∈ l.
Proof.
  induction l as [|z l IH]; cbn [read_back]; [done|].
  destruct (_ <=? _); [intros [= <-]; left|]. intros Hr. right. by apply IH.
Qed.

Lemma read_back_None l v x : read_back l v = None → x ∈ l → v < vv_Version x.
Proof.
  induction l as [|z l IH]; cbn [read_back]; [by intros _ ?%elem_of_nil|].
  destruct (_ <=? _) eqn:E; [done|]. bool_to_prop. intros Hn [->|Hx]%elem_of_cons; [done|].
  by apply IH.
Qed.

(** A read of what the trimming kept. *)
Lemma read_back_retained n l x v :
  read_back (rev l) v = Some x → x ∈ drop n l → read_back (rev (drop n l)) v = Some x.
Proof.
  intros Hr Hx. rewrite <- (take_drop n l) in Hr. rewrite rev_app_distr, read_back_app in Hr.
  destruct (read_back (rev (drop n l)) v) as [y|] eqn:E; [done|].
  apply read_back_Some in Hr. apply read_back_None with (x := x) in E; [lia|].
  by rewrite list_elem_of_In, <- in_rev, <- list_elem_of_In.
Qed.

Lemma Write_read_latest now key v del m :
  mvcc_wf m → current m < 2 ^ 64 - 1 →
  ReadLatest key (snd (Write now key v del m))
  = Some {| vv_Value := v; vv_Version := current m + 1; vv_Timestamp := now; vv_Deleted := del |}.
Proof.
  intros (Hm & Hc & _) Hlt.
  destruct (Write_hist now key v del m ltac:(lia)) as (_ & H2 & _ & H4 & _).
  unfold ReadLatest, ReadAt, CurrentVersion. rewrite H2, H4, drop_app_le by (unfold zlen; lia).
  rewrite rev_app_distr. cbn [rev app read_back]. by rewrite Z.leb_refl.
Qed.

(** A write gets the next version and is what [ReadLatest] sees;
    a read at a snapshot taken before the write gives what it gave before, for
    the written key as long as the history still holds that value, and for
    every other key always; and the histories stay ordered. *)
Theorem mvcc_snapshot_reads now key v del m :
  mvcc_wf m → current m < 2 ^ 64 - 1 →
  let m' := snd (Write now key v del m) in
  mvcc_wf m' ∧ fst (Write now key v del m) = Snapshot m + 1 ∧
  ReadLatest key m' = Some {| vv_Value := v; vv_Version := Snapshot m + 1;
                              vv_Timestamp := now; vv_Deleted := del |} ∧
  (∀ k s x, s ≤ Snapshot m → ReadAtSnapshot k s m = Some x → (k = key → x ∈ hist m' key) →
            ReadAtSnapshot k s m' = Some x) ∧
  (∀ k s, s ≤ Snapshot m → ReadAtSnapshot k s m = None → ReadAtSnapshot k s m' = None).
Proof.
  intros Hwf Hlt m'. pose proof Hwf as (Hm & Hc & Hh).
  destruct (Write_hist now key v del m ltac:(lia)) as (H1 & H2 & H3 & H4 & H5).
  fold m' in H2, H3, H4, H5. set (vv := {| vv_Value := v |}) in *.
  set (n := Z.to_nat _) in H4.
  assert (Hn : (n ≤ length (hist m key))%nat) by (unfold n, zlen; lia).
  assert (Hd : hist m' key = drop n (hist m key) ++ [vv]) by (by rewrite H4, drop_app_le).
  assert (Hnew : ∀ s, s ≤ current m →
    read_back (rev (hist m' key)) s = read_back (rev (drop n (hist m key))) s).
  { intros s Hs. rewrite Hd, rev_app_distr. cbn [rev app read_back].
    rewrite (proj2 (Z.leb_gt _ _)); [done|]. cbn. lia. }
  split; [by apply Write_wf|]. split; [done|]. split; [by apply Write_read_latest|]. split.
  - intros k s x Hs Hr Hx. unfold ReadAtSnapshot, ReadAt in *.
    destruct (decide (k = key)) as [->|Hk]; [|by rewrite H5].
    rewrite Hnew by done. apply read_back_retained; [done|]. specialize (Hx eq_refl).
    rewrite Hd in Hx. apply elem_of_app in Hx as [Hx| ->%list_elem_of_singleton]; [done|].
    apply read_back_Some in Hr. cbn in Hr. unfold Snapshot, CurrentVersion in Hs. lia.
  - intros k s Hs Hr. unfold ReadAtSnapshot, ReadAt in *.
    destruct (decide (k = key)) as [->|Hk]; [|by rewrite H5].
    rewrite Hnew by done. apply read_back_newer, Forall_forall. intros x Hx.
    apply (read_back_None _ _ x) in Hr; [done|].
    rewrite list_elem_of_In, <- in_rev, <- list_elem_of_In in Hx |- *.
    rewrite <- (take_drop n (hist m key)). apply elem_of_app. by right.
Qed.

Lemma mvcc_snapshot_reads_witness :
  let m := snd (Write 5 "a" (VBytes (Some [])) false (NewMVCCStore 2)) in
  let m' := snd (Write 6 "a" VNil true m) in
  mvcc_wf m ∧ option_map vv_Version (ReadLatest "a" m') = Some 2 ∧
  option_map vv_Version (ReadAtSnapshot "a" 1 m') = Some 1.
Proof.
  assert (Hwf : mvcc_wf (snd (Write 5 "a" (VBytes (Some [])) false (NewMVCCStore 2)))).
  { refine (proj1 (mvcc_snapshot_reads 5 "a" (VBytes (Some [])) false (NewMVCCStore 2) _ _));
      [apply NewMVCCStore_wf|done]. }
  split; [exact Hwf|]. split; by vm_compute.
Defined.

End MVCC.

(** ** Watched keys *)
Module Watch.
Import MVCC.

(** clientID -> key -> version at watch time *)
Abbreviation WatchSet := (gmap Z (gmap string Z)).
Definition NewWatchSet : WatchSet := ∅.

Definition Watch (clientID : Z) (keys : list string) (version : Z) (w : WatchSet) : WatchSet :=
  <[clientID := foldl (fun m k => <[k := version]> m) (default ∅ (w !! clientID)) keys]> w.
Definition Unwatch (clientID : Z) (w : WatchSet) : WatchSet := delete clientID w.

Definition IsDirty (clientID : Z) (mvcc : MVCCStore) (w : WatchSet) : bool :=
  existsb (fun '(key, watchedAt) =>
    match ReadLatest key mvcc with Some latest => vv_Version latest >? watchedAt | None => false end)
    (map_to_list (default ∅ (w !! clientID))).

Definition NotifyWrite (key : string) (currentVersion : Z) (w : WatchSet) : list Z :=
  map fst (List.filter (fun '(_, keys) =>
    match (keys : gmap string Z) !! key with
    | Some watchedAt => currentVersion >? watchedAt
    | None => false
    end) (map_to_list w)).

(** Watched keys are unchanged as long as no version is written. *)
Lemma IsDirty_no_history clientID mvcc w : history mvcc = ∅ → IsDirty clientID mvcc w = false.
Proof.
  intros Hh. unfold IsDirty. apply not_true_iff_false. rewrite existsb_exists.
  intros ([key v] & _ & Hx). unfold ReadLatest, ReadAt, hist in Hx.
  by rewrite Hh, lookup_empty in Hx.
Qed.

Lemma watch_all_lookup keys version (m : gmap string Z) k :
  foldl (fun m k => <[k := version]> m) m keys !! k
  = if bool_decide (k ∈ keys) then Some version else m !! k.
Proof.
  revert m. induction keys as [|k' keys IH]; intros m; cbn [foldl].
  - by rewrite bool_decide_eq_false_2 by apply not_elem_of_nil.
  - rewrite IH. destruct (decide (k ∈ keys)) as [Hk|Hk].
    { rewrite !bool_decide_eq_true_2; [done| |done]. by right. }
    rewrite bool_decide_eq_false_2 by done. destruct (decide (k = k')) as [->|Hne].
    + rewrite lookup_insert_eq, bool_decide_eq_true_2 by left. done.
    + rewrite lookup_insert_ne, bool_decide_eq_false_2 by (try apply not_elem_of_cons; done). done.
Qed.

Lemma Watch_lookup c keys version w k :
  default ∅ (Watch c keys version w !! c) !! k
  = if bool_decide (k ∈ keys) then Some version else default ∅ (w !! c) !! k.
Proof.
  unfold Watch. rewrite lookup_insert_eq. cbn [default from_option id]. apply watch_all_lookup.
Qed.

Lemma IsDirty_true clientID mvcc w :
  IsDirty clientID mvcc w = true ↔
  ∃ key watchedAt x, default ∅ (w !! clientID) !! key = Some watchedAt ∧
    ReadLatest key mvcc = Some x ∧ watchedAt < vv_Version x.
Proof.
  unfold IsDirty. rewrite existsb_exists. split.
  - intros ([key v] & Hin & Hx). rewrite <- list_elem_of_In, elem_of_map_to_list in Hin.
    destruct (ReadLatest key mvcc) as [x|] eqn:E; [|done]. bool_to_prop. by exists key, v, x.
  - intros (key & v & x & Hin & Hr & Hx). exists (key, v).
    rewrite <- list_elem_of_In, elem_of_map_to_list, Hr. split; [done|].
    rewrite Z.gtb_ltb. by apply Z.ltb_lt.
Qed.

(** A client that watches keys is clean until one of them is
    written to the version history; a write makes it dirty exactly when the
    written key is one of those it watches, and watching again after the write
    makes it clean. *)
Theorem watch_detects c keys w m now k v del :
  mvcc_wf m → current m < 2 ^ 64 - 1 → w !! c = None →
  let w' := Watch c keys (CurrentVersion m) w in
  let m' := snd (Write now k v del m) in
  IsDirty c m w' = false ∧
  IsDirty c m' w' = bool_decide (k ∈ keys) ∧
  IsDirty c m' (Watch c keys (CurrentVersion m') w') = false.
Proof.
  intros Hwf Hlt Hw w' m'. pose proof Hwf as (Hm & Hc & Hh).
  destruct (Write_hist now k v del m ltac:(lia)) as (_ & H2 & _ & _ & H5).
  pose proof (Write_wf now k v del m Hwf Hlt) as Hwf'. fold m' in H2, H5, Hwf'.
  assert (Hle : ∀ mm key x, ReadLatest key mm = Some x → vv_Version x ≤ current mm).
  { intros mm key x Hr. by apply read_back_Some in Hr. }
  assert (Hw1 : ∀ key, default ∅ (w' !! c) !! key
            = if bool_decide (key ∈ keys) then Some (current m) else None).
  { intros key. unfold w'. rewrite Watch_lookup, Hw. cbn [default from_option id]. by rewrite lookup_empty. }
  split; [|split].
  - apply not_true_iff_false. rewrite IsDirty_true. intros (key & at_ & x & Hk & Hr & Hx).
    rewrite Hw1 in Hk. apply Hle in Hr. case_bool_decide; [|done]. injection Hk as <-. lia.
  - apply eq_true_iff_eq. rewrite IsDirty_true, bool_decide_eq_true. split.
    + intros (key & at_ & x & Hk & Hr & Hx). rewrite Hw1 in Hk. case_bool_decide; [|done].
      injection Hk as <-. destruct (decide (key = k)) as [->|Hne]; [done|].
      unfold ReadLatest, ReadAt in Hr. rewrite H5 in Hr by done.
      destruct (Hh key) as [_ Hf]. rewrite Forall_forall in Hf.
      pose proof (read_back_in _ _ _ Hr) as Hin.
      rewrite list_elem_of_In, <- in_rev, <- list_elem_of_In in Hin. specialize (Hf x Hin). cbn in Hf. lia.
    + intros Hk. exists k, (current m).
      eexists {| vv_Value := v; vv_Version := current m + 1; vv_Timestamp := now; vv_Deleted := del |}.
      rewrite Hw1, bool_decide_eq_true_2 by done. split; [done|]. cbn [vv_Version]. split; [|lia].
      by apply Write_read_latest.
  - apply not_true_iff_false. rewrite IsDirty_true. intros (key & at_ & x & Hk & Hr & Hx).
    apply Hle in Hr. rewrite Watch_lookup, Hw1 in Hk.
    destruct (bool_decide _); [|done]. injection Hk as <-. rewrite u64_id in Hx by lia. lia.
Qed.

Lemma watch_detects_witness :
  IsDirty 7 (snd (Write 1 "a" VNil false (NewMVCCStore 4))) (Watch 7 ["b"; "a"] 0 NewWatchSet) = true.
Proof.
  refine (proj1 (proj2 (watch_detects 7 ["b"; "a"] NewWatchSet (NewMVCCStore 4) 1 "a" VNil false _ _ _)));
    [apply NewMVCCStore_wf|done|done].
Defined.

End Watch.

(** ** MULTI queues *)
Module Multi.

Inductive TxState := TxStateNone | TxStateOpen | TxStateError.

#[export] Instance TxState_eq_dec : EqDecision TxState.
Proof. solve_decision. Defined.

Record Transaction := { tx_ClientID : Z; tx_State : TxState; tx_Queue : list Command; tx_Error : option string }.
Abbreviation MultiManager := (gmap Z Transaction).

Definition NewMultiManager : MultiManager := ∅.

Definition IsActive (clientID : Z) (m : MultiManager) : bool :=
  match m !! clientID with Some tx => bool_decide (tx_State tx = TxStateOpen) | None => false end.

Definition Begin (clientID : Z) (m : MultiManager) : res string unit * MultiManager :=
  if IsActive clientID m then (Err "ERR MULTI calls can not be nested", m)
  else (Ok tt, <[clientID := {| tx_ClientID := clientID; tx_State := TxStateOpen;
                                tx_Queue := []; tx_Error := None |}]> m).

Definition Queue (clientID : Z) (cmd : Command) (m : MultiManager) : MultiManager :=
  match m !! clientID with
  | None => m
  | Some tx => <[clientID := {| tx_ClientID := tx_ClientID tx; tx_State := tx_State tx;
                                tx_Queue := tx_Queue tx ++ [cmd]; tx_Error := tx_Error tx |}]> m
  end.

Definition SetError (clientID : Z) (err : option string) (m : MultiManager) : MultiManager :=
  match m !! clientID with
  | None => m
  | Some tx => <[clientID := {| tx_ClientID := tx_ClientID tx; tx_State := TxStateError;
                                tx_Queue := tx_Queue tx; tx_Error := err |}]> m
  end.

(** The queue, or the error of the transaction (which may be nil). *)
Definition Exec (clientID : Z) (m : MultiManager) : list Command * option string * MultiManager :=
  match m !! clientID with
  | None => ([], Some "ERR EXEC without MULTI", m)
  | Some tx =>
      let m := delete clientID m in
      if bool_decide (tx_State tx = TxStateError) then ([], tx_Error tx, m)
      else (tx_Queue tx, None, m)
  end.

Definition Discard (clientID : Z) (m : MultiManager) : res string unit * MultiManager :=
  match m !! clientID with
  | None => (Err "ERR DISCARD without MULTI", m)
  | Some _ => (Ok tt, delete clientID m)
  end.

(** Queues of other clients interleave: a schedule of queued commands. *)
Definition queue_all (sched : list (Z * Command)) (m : MultiManager) : MultiManager :=
  foldl (fun m '(c, cmd) => Queue c cmd m) m sched.

Lemma queue_all_lookup sched m c :
  queue_all sched m !! c =
  (fun tx => {| tx_ClientID := tx_ClientID tx; tx_State := tx_State tx;
                tx_Queue := tx_Queue tx ++ map snd (List.filter (fun p => bool_decide (p.1 = c)) sched);
                tx_Error := tx_Error tx |}) <$> m !! c.
Proof.
  revert m. induction sched as [|[c' cmd] sched IH]; intros m; cbn [queue_all foldl List.filter map].
  { destruct (m !! c) as [[]|]; cbn; by rewrite ?app_nil_r. }
  fold (queue_all sched (Queue c' cmd m)). rewrite IH. unfold Queue. cbn [fst].
  destruct (decide (c' = c)) as [->|Hne].
  - rewrite bool_decide_eq_true_2 by done. destruct (m !! c) as [tx|] eqn:E; [|by rewrite E].
    rewrite lookup_insert_eq. cbn. by rewrite <- app_assoc.
  - rewrite bool_decide_eq_false_2 by done. destruct (m !! c') as [tx|] eqn:E; [|done].
    by rewrite lookup_insert_ne.
Qed.

(** After MULTI the client is active, and EXEC hands out
    exactly the commands this client queued, in the order it queued them,
    whatever other clients queued in between; it ends the transaction of this
    client and of no other. *)
Theorem multi_queue_order c sched m :
  IsActive c m = false →
  let '(r, m1) := Begin c m in
  let m2 := queue_all sched m1 in
  let '(cmds, err, m3) := Exec c m2 in
  r = Ok tt ∧ IsActive c m2 = true ∧
  cmds = map snd (List.filter (fun p => bool_decide (p.1 = c)) sched) ∧ err = None ∧
  IsActive c m3 = false ∧ (∀ c', c' ≠ c → m3 !! c' = m2 !! c').
Proof.
  intros Ha. unfold Begin. rewrite Ha.
  assert (H2 := queue_all_lookup sched (<[c := {| tx_ClientID := c; tx_State := TxStateOpen;
    tx_Queue := []; tx_Error := None |}]> m) c).
  rewrite lookup_insert_eq in H2. cbn in H2. unfold Exec, IsActive. rewrite H2.
  cbn [tx_State tx_Queue tx_Error].
  rewrite (bool_decide_eq_false_2 (TxStateOpen = TxStateError)) by done. conjs; try done.
  - by rewrite lookup_delete_eq.
  - intros c' Hc. by rewrite lookup_delete_ne.
Qed.

Lemma multi_queue_order_witness :
  let cmd x := {| Name := x; Args := [] |} in
  IsActive 1 NewMultiManager = false ∧
  fst (Exec 1 (queue_all [(1, cmd "A"); (2, cmd "X"); (1, cmd "B")] (snd (Begin 1 NewMultiManager))))
  = ([cmd "A"; cmd "B"], None).
Proof.
  split; [done|].
  destruct (multi_queue_order 1 [(1, {| Name := "A"; Args := [] |}); (2, {| Name := "X"; Args := [] |});
    (1, {| Name := "B"; Args := [] |})] NewMultiManager eq_refl) as (_ & _ & Hc & He & _).
  apply (f_equal2 pair Hc He).
Defined.

End Multi.

(** ** Locking several keys *)
Module LockManager.

Definition dedup (keys : list string) : list string :=
  snd (foldl (fun '(seen, result) k =>
    if bool_decide (k ∈ (seen : gset string)) then (seen, result)
    else ({[k]} ∪ seen, result ++ [k])) (∅, []) keys).

(** One turn of the outer loop: [x] is [result[i]], compared with each later
    element and exchanged when it is greater. *)
Fixpoint sift (x : string) (rest : list string) : string * list string :=
  match rest with
  | [] => (x, [])
  | y :: rest' =>
      if String.ltb y x then let '(m, r) := sift y rest' in (m, x :: r)
      else let '(m, r) := sift x rest' in (m, y :: r)
  end.
Fixpoint exchange_sort (n : nat) (l : list string) : list string :=
  match n, l with
  | Datatypes.S n, x :: rest => let '(m, r) := sift x rest in m :: exchange_sort n r
  | _, _ => l
  end.

Definition sortedUnique (keys : list string) : list string :=
  let result := dedup keys in exchange_sort (length result) result.

(** The keys [LockMulti] locks, in order; the release function unlocks them in
    the reverse order. *)
Definition LockMulti (keys : list string) : list string * list string :=
  let sorted := sortedUnique keys in (sorted, rev sorted).

Definition str_lt (a b : string) : Prop := String.ltb a b = true.

Lemma sift_perm x rest m r : sift x rest = (m, r) → m :: r ≡ₚ x :: rest.
Proof.
  revert x m r. induction rest as [|y rest IH]; intros x m r; cbn [sift]; [by intros [= <- <-]|].
  destruct (String.ltb y x).
  - destruct (sift y rest) as [m' r'] eqn:E. intros [= <- <-].
    rewrite (Permutation_swap x m'). by rewrite (IH _ _ _ E).
  - destruct (sift x rest) as [m' r'] eqn:E. intros [= <- <-].
    rewrite (Permutation_swap y m'), (IH _ _ _ E). apply Permutation_swap.
Qed.

Lemma sift_min x rest m r :
  sift x rest = (m, r) → Forall (fun y => String.ltb y m = false) (x :: rest).
Proof.
  assert (Hle : ∀ a b, String.ltb a b = true → String.ltb b a = false).
  { intros a b H1. apply not_true_iff_false. intros H2.
    pose proof (String_ltb_trans _ _ _ H1 H2). by rewrite String_ltb_irrefl in *. }
  assert (Htr : ∀ a b c, String.ltb b a = false → String.ltb c b = false → String.ltb c a = false).
  { intros a b c H1 H2. destruct (decide (a = b)) as [->|Hn]; [done|].
    apply not_true_iff_false. intros Hca. apply String_ltb_total in H1; [|congruence].
    pose proof (String_ltb_trans _ _ _ Hca H1). congruence. }
  revert x m r. induction rest as [|y rest IH]; intros x m r; cbn [sift].
  { intros [= <- <-]. repeat constructor. apply String_ltb_irrefl. }
  destruct (String.ltb y x) eqn:Eyx.
  - destruct (sift y rest) as [m' r'] eqn:E. intros [= <- <-]. specialize (IH _ _ _ E).
    constructor; [|done]. inversion IH; subst. eapply Htr; [done|]. by apply Hle.
  - destruct (sift x rest) as [m' r'] eqn:E. intros [= <- <-]. specialize (IH _ _ _ E).
    inversion IH; subst. constructor; [done|]. constructor; [|done]. by eapply Htr.
Qed.

Lemma exchange_sort_spec n l :
  (length l ≤ n)%nat → NoDup l →
  exchange_sort n l ≡ₚ l ∧ StronglySorted str_lt (exchange_sort n l).
Proof.
  revert l. induction n as [|n IH]; intros [|x rest] Hn Hd; cbn in Hn; try lia; try (by repeat constructor).
  cbn [exchange_sort]. destruct (sift x rest) as [m r] eqn:E.
  pose proof (sift_perm _ _ _ _ E) as Hp. pose proof (sift_min _ _ _ _ E) as Hm.
  pose proof (Permutation_length Hp) as Hlen. cbn in Hlen.
  assert (Hd' : NoDup (m :: r)) by (by rewrite Hp). apply NoDup_cons in Hd' as [Hni Hdr].
  destruct (IH r ltac:(lia) Hdr) as [Hp' Hs]. split; [by rewrite Hp', Hp|].
  constructor; [done|]. apply Forall_forall. intros y Hy. rewrite Hp' in Hy.
  apply String_ltb_total; [|by intros ->]. rewrite Forall_forall in Hm. apply Hm.
  rewrite <- Hp. by right.
Qed.

Lemma dedup_spec keys : NoDup (dedup keys) ∧ ∀ k, k ∈ dedup keys ↔ k ∈ keys.
Proof.
  unfold dedup.
  assert (H : ∀ ks (seen : gset string) res, (∀ k, k ∈ seen ↔ k ∈ res) → NoDup res →
    let out := foldl (fun '(seen, result) k =>
      if bool_decide (k ∈ (seen : gset string)) then (seen, result)
      else ({[k]} ∪ seen, result ++ [k])) (seen, res) ks in
    NoDup (snd out) ∧ ∀ k, k ∈ snd out ↔ k ∈ res ∨ k ∈ ks).
  { induction ks as [|k ks IH]; intros seen res Hs Hd; cbn [foldl].
    - split; [done|]. intros k. cbn. rewrite elem_of_nil. tauto.
    - case_bool_decide as Hk.
      + destruct (IH seen res Hs Hd) as [H1 H2]. split; [done|]. intros k'. rewrite H2, elem_of_cons.
        apply Hs in Hk. split; [tauto|]. intros [?|[->|?]]; tauto.
      + rewrite Hs in Hk. destruct (IH ({[k]} ∪ seen) (res ++ [k])) as [H1 H2].
        * intros k'. rewrite elem_of_union, elem_of_singleton, elem_of_app, list_elem_of_singleton, Hs. tauto.
        * apply NoDup_app. split; [done|]. split; [|apply NoDup_singleton].
          intros x Hx ->%list_elem_of_singleton. done.
        * split; [done|]. intros k'. rewrite H2, elem_of_app, list_elem_of_singleton, elem_of_cons. tauto. }
  destruct (H keys ∅ []) as [H1 H2];
    [intros k; by rewrite elem_of_empty, elem_of_nil|constructor|]. split; [done|].
  intros k. rewrite H2, elem_of_nil. tauto.
Qed.

(** Whatever the order and the repetitions in the request,
    the keys are locked once each, in increasing order, and released in the
    reverse order; so of two clients, the keys both lock are met in one order. *)
Theorem LockMulti_ordered keys :
  let '(locked, released) := LockMulti keys in
  StronglySorted str_lt locked ∧ NoDup locked ∧ (∀ k, k ∈ locked ↔ k ∈ keys) ∧
  released = rev locked ∧
  (∀ keys' (i j i' j' : nat) a b, (i < j)%nat → locked !! i = Some a → locked !! j = Some b →
     fst (LockMulti keys') !! i' = Some a → fst (LockMulti keys') !! j' = Some b → (i' < j')%nat).
Proof.
  assert (H : ∀ ks, StronglySorted str_lt (sortedUnique ks) ∧ sortedUnique ks ≡ₚ dedup ks).
  { intros ks. destruct (dedup_spec ks) as [Hd _].
    by destruct (exchange_sort_spec (length (dedup ks)) (dedup ks) (Nat.le_refl _) Hd). }
  unfold LockMulti. destruct (H keys) as [Hs Hp]. destruct (dedup_spec keys) as [Hd He].
  split; [done|]. split; [by rewrite Hp|]. split; [intros k; by rewrite Hp|]. split; [done|].
  intros keys' i j i' j' a b Hij Hi Hj Hi' Hj'. destruct (H keys') as [Hs' _]. cbn [fst] in *.
  assert (Hab : str_lt a b) by (exact (StronglySorted_lookup _ _ i j a b Hs Hij Hi Hj)).
  destruct (decide (i' < j')%nat) as [|Hge]; [done|]. exfalso. unfold str_lt in Hab.
  destruct (decide (i' = j')) as [->|Hne].
  - rewrite Hi' in Hj'. injection Hj' as ->. by rewrite String_ltb_irrefl in Hab.
  - assert (str_lt b a) as Hba by (exact (StronglySorted_lookup _ _ j' i' b a Hs' ltac:(lia) Hj' Hi')).
    unfold str_lt in Hba. pose proof (String_ltb_trans _ _ _ Hab Hba). by rewrite String_ltb_irrefl in *.
Qed.

End LockManager.

(** ** Rollback *)
Module Rollback.

Record rollbackEntry := { rb_Key : string; rb_OldValue : value; rb_Existed : bool }.
Abbreviation RollbackLog := (list rollbackEntry).

Definition NewRollbackLog : RollbackLog := [].
Definition Record_ (key : string) (entry : option Entry) (r : RollbackLog) : RollbackLog :=
  match entry with
  | Some e => r ++ [{| rb_Key := key; rb_OldValue := Value e; rb_Existed := true |}]
  | None => r ++ [{| rb_Key := key; rb_OldValue := VNil; rb_Existed := false |}]
  end.
Definition Rollback (r : RollbackLog) (kv : KVStore) : RollbackLog * KVStore :=
  ([], foldl (fun kv e => if rb_Existed e then kv else snd (Delete [rb_Key e] kv)) kv (rev r)).
Definition Clear (r : RollbackLog) : RollbackLog := [].

(** A transaction's write with its record of the state before. *)
Definition logged_set (now : Z) (key : string) (v : value) (st : RollbackLog * KVStore)
    : RollbackLog * KVStore :=
  let '(r, kv) := st in
  (Record_ key (Get now key kv) r, Set_ now key v TypeString 0 kv).

Lemma Rollback_view l kv :
  kv_wf kv →
  let kv' := foldl (fun kv e => if rb_Existed e then kv else snd (Delete [rb_Key e] kv)) kv l in
  kv_wf kv' ∧
  ∀ k, view kv' !! k =
    if bool_decide (k ∈ map rb_Key (List.filter (fun e => negb (rb_Existed e)) l))
    then None else view kv !! k.
Proof.
  revert kv. induction l as [|e l IH]; intros kv Hwf; cbn [foldl List.filter map].
  { split; [done|]. intros k. by rewrite bool_decide_eq_false_2 by apply not_elem_of_nil. }
  destruct (rb_Existed e); cbn [negb]; [by apply IH|].
  destruct (Delete1 (rb_Key e) kv Hwf) as (H1 & H2 & _). destruct (IH _ H1) as [H3 H4].
  split; [done|]. intros k. rewrite H4, H2. cbn [map].
  destruct (decide (k ∈ map rb_Key (List.filter (fun e => negb (rb_Existed e)) l))) as [Hk|Hk].
  { rewrite !bool_decide_eq_true_2; [done| |done]. by right. }
  rewrite bool_decide_eq_false_2 by done. destruct (decide (k = rb_Key e)) as [->|Hne].
  - rewrite bool_decide_eq_true_2 by left. by rewrite lookup_delete_eq.
  - rewrite bool_decide_eq_false_2 by (by rewrite not_elem_of_cons). by rewrite lookup_delete_ne.
Qed.

(** Rolling back deletes exactly the keys recorded as
    new; a key that existed keeps the value the transaction wrote, its recorded
    old value is not put back. *)
Theorem rollback_removes_only r kv :
  kv_wf kv →
  let '(r', kv') := Rollback r kv in
  r' = [] ∧ kv_wf kv' ∧
  ∀ k, view kv' !! k =
    if bool_decide (k ∈ map rb_Key (List.filter (fun e => negb (rb_Existed e)) r))
    then None else view kv !! k.
Proof.
  intros Hwf. unfold Rollback. split; [done|].
  destruct (Rollback_view (rev r) kv Hwf) as [H1 H2]. split; [done|]. intros k. rewrite H2.
  erewrite bool_decide_ext; [done|]. rewrite !list_elem_of_In, !in_map_iff.
  setoid_rewrite filter_In. by setoid_rewrite <- in_rev.
Qed.

Lemma rollback_removes_only_witness :
  let kv0 := Set_ 1 "a" (VBytes (to_slice "old")) TypeString 0 (New 4) in
  let '(r, kv) := logged_set 2 "b" (VBytes (to_slice "new"))
                    (logged_set 2 "a" (VBytes (to_slice "new")) (NewRollbackLog, kv0)) in
  let kv' := snd (Rollback r kv) in
  view kv' !! "b" = None ∧ Value <$> view kv' !! "a" = Some (VBytes (to_slice "new")).
Proof.
  set (kv0 := Set_ 1 "a" (VBytes (to_slice "old")) TypeString 0 (New 4)).
  set (kv1 := Set_ 2 "b" (VBytes (to_slice "new")) TypeString 0
                (Set_ 2 "a" (VBytes (to_slice "new")) TypeString 0 kv0)).
  assert (kv_wf kv1) as Hwf by (do 3 apply Set_spec; apply New_wf).
  pose proof (rollback_removes_only
    (Record_ "b" (Get 2 "b" (Set_ 2 "a" (VBytes (to_slice "new")) TypeString 0 kv0))
      (Record_ "a" (Get 2 "a" kv0) [])) kv1 Hwf) as H.
  cbn [logged_set]. unfold Rollback in *. cbn [snd]. destruct H as (_ & _ & H).
  rewrite !H. split; by vm_compute.
Defined.

End Rollback.

(** ** Two-phase commit *)
Module TwoPC.

Inductive TwoPCState := TwoPCPrepared | TwoPCCommitted | TwoPCAborted.
Record TwoPCTransaction := {
  t_ID : string; t_State : TwoPCState; t_Shards : list string; t_prepareAck : gmap string bool
}.
Abbreviation TwoPCCoordinator := (gmap string TwoPCTransaction).

Definition NewTwoPCCoordinator : TwoPCCoordinator := ∅.

Definition Begin (txID : string) (shards : list string) (c : TwoPCCoordinator)
    : res string unit * TwoPCCoordinator :=
  match c !! txID with
  | Some _ => (Err ("2PC: transaction " ++ txID ++ " already exists")%string, c)
  | None => (Ok tt, <[txID := {| t_ID := txID; t_State := TwoPCPrepared; t_Shards := shards;
                                 t_prepareAck := ∅ |}]> c)
  end.

(** One goroutine per shard: [order] is the order in which they finish, [f] the
    answer of each shard ([None]: no error). *)
Definition prepare_acks (f : string → option string) (order : list string) (acks : gmap string bool)
    : gmap string bool :=
  foldl (fun acks s => match f s with None => <[s := true]> acks | Some _ => acks end) acks order.
Definition first_error (f : string → option string) (order : list string) : option string :=
  head (omap f order).

Definition Prepare (txID : string) (f : string → option string) (order : list string)
    (c : TwoPCCoordinator) : res string unit * TwoPCCoordinator :=
  match c !! txID with
  | None => (Err ("2PC: unknown transaction " ++ txID)%string, c)
  | Some tx =>
      let tx := {| t_ID := t_ID tx; t_State := t_State tx; t_Shards := t_Shards tx;
                   t_prepareAck := prepare_acks f order (t_prepareAck tx) |} in
      (match first_error f order with
       | Some e => Err ("2PC prepare failed: " ++ e)%string
       | None => Ok tt
       end, <[txID := tx]> c)
  end.

Definition broadcast (txID : string) (f : string → option string) (order : list string)
    (finalState : TwoPCState) (c : TwoPCCoordinator) : res string unit * TwoPCCoordinator :=
  match c !! txID with
  | None => (Err ("2PC: unknown transaction " ++ txID)%string, c)
  | Some tx =>
      let tx := {| t_ID := t_ID tx; t_State := finalState; t_Shards := t_Shards tx;
                   t_prepareAck := t_prepareAck tx |} in
      (match first_error f order with Some e => Err e | None => Ok tt end, <[txID := tx]> c)
  end.
Definition Commit txID f order c := broadcast txID f order TwoPCCommitted c.
Definition Abort txID f order c := broadcast txID f order TwoPCAborted c.

Lemma first_error_None f order : first_error f order = None ↔ Forall (fun s => f s = None) order.
Proof.
  unfold first_error. induction order as [|s order IH]; cbn; [by split; [constructor|]|].
  rewrite Forall_cons. destruct (f s) as [e|]; cbn; [|rewrite IH; tauto]. split; [done|by intros [? _]].
Qed.

Lemma prepare_acks_lookup f order acks s :
  prepare_acks f order acks !! s
  = if bool_decide (s ∈ order ∧ f s = None) then Some true else acks !! s.
Proof.
  unfold prepare_acks. revert acks. induction order as [|x order IH]; intros acks; cbn [foldl].
  { rewrite bool_decide_eq_false_2; [done|]. intros [[]%elem_of_nil _]. }
  rewrite IH. destruct (decide (s ∈ order ∧ f s = None)) as [Hs|Hs].
  { rewrite !bool_decide_eq_true_2; [done| |done]. destruct Hs. split; [by right|done]. }
  rewrite bool_decide_eq_false_2 by done. destruct (decide (s = x)) as [->|Hne].
  - destruct (f x) eqn:E.
    + rewrite bool_decide_eq_false_2 by (by intros [_ ?]). done.
    + rewrite lookup_insert_eq, bool_decide_eq_true_2; [done|]. split; [left|done].
  - rewrite bool_decide_eq_false_2.
    + destruct (f x); [done|]. by rewrite lookup_insert_ne.
    + intros [[?|?]%elem_of_cons ?]; [done|]. by apply Hs.
Qed.

(** Whatever the order in which the shards answer, the prepare
    phase of a fresh transaction succeeds exactly when every shard accepts, it
    acknowledges exactly the shards that accepted, and the transaction is not
    decided by it; other transactions are not touched. *)
Theorem two_pc_prepare txID shards f order c :
  c !! txID = None → order ≡ₚ shards →
  let c1 := snd (Begin txID shards c) in
  let '(r, c2) := Prepare txID f order c1 in
  (r = Ok tt ↔ Forall (fun s => f s = None) shards) ∧
  (∃ tx, c2 !! txID = Some tx ∧ t_State tx = TwoPCPrepared ∧ t_Shards tx = shards ∧
     ∀ s, t_prepareAck tx !! s = Some true ↔ s ∈ shards ∧ f s = None) ∧
  (∀ t, t ≠ txID → c2 !! t = c !! t).
Proof.
  intros Hc Ho. unfold Begin. rewrite Hc. cbn [snd]. unfold Prepare. rewrite lookup_insert_eq.
  cbn [t_ID t_State t_Shards t_prepareAck]. split; [|split].
  - rewrite <- Ho, <- first_error_None. destruct (first_error f order); by split.
  - rewrite lookup_insert_eq. eexists. split; [done|]. cbn. split; [done|]. split; [done|].
    intros s. rewrite prepare_acks_lookup, lookup_empty, <- Ho. by case_bool_decide.
  - intros t Ht. by rewrite !lookup_insert_ne.
Qed.

Lemma two_pc_prepare_witness :
  let f s := if bool_decide (s = "s2") then Some "no" else None in
  NewTwoPCCoordinator !! "t" = None ∧
  ¬ (fst (Prepare "t" f ["s2"; "s1"] (snd (Begin "t" ["s1"; "s2"] NewTwoPCCoordinator))) = Ok tt).
Proof.
  split; [done|]. intros H.
  destruct (two_pc_prepare "t" ["s1"; "s2"]
    (fun s => if bool_decide (s = "s2"%string) then Some "no"%string else None) ["s2"; "s1"]
    NewTwoPCCoordinator eq_refl (Permutation_swap _ _ _)) as [[Hall _] _].
  specialize (Hall H). rewrite !Forall_cons in Hall. destruct Hall as (_ & Hno & _). discriminate Hno.
Defined.

(** A transaction whose prepare phase was refused can
    still be committed: [Commit] looks neither at the acknowledgements nor at
    the state, and it overwrites an earlier abort. *)
Theorem two_pc_commit_unguarded :
  let refuse := fun _ : string => Some "no"%string in
  let accept := fun _ : string => @None string in
  let c1 := snd (Begin "t" ["s"] NewTwoPCCoordinator) in
  let '(r2, c2) := Prepare "t" refuse ["s"] c1 in
  let '(r3, c3) := Abort "t" accept ["s"] c2 in
  let '(r4, c4) := Commit "t" accept ["s"] c3 in
  r2 = Err "2PC prepare failed: no"%string ∧ r3 = Ok tt ∧ r4 = Ok tt ∧
  t_State <$> c4 !! "t" = Some TwoPCCommitted.
Proof. vm_compute. by conjs. Qed.

End TwoPC.
