(* ===== verification/VectorPayload.v ===== *)
(** * Payloads of the vector records ([persistence/wal.go], the end of the file)

    The byte layouts in which the log carries a vector insertion, a batch of
    them and the parameters of an index migration. A [float32] is its bit
    pattern, a number below 2^32; [math.Float32bits] and its inverse are the
    identity on it. *)

From S2P Require Import Prelude GoStd.

Abbreviation float32 := Z (only parsing).
Definition f32_ok (v : float32) : Prop := 0 ≤ v < 2 ^ 32.

(** ** Migration start *)
Definition EncodeVMigrateStartPayload (dim : Z) (encoding : string) : list byte :=
  be_put 4 (u32 dim) ++ be_put 4 (u32 (strlen encoding)) ++ bytes_of encoding.

Definition DecodeVMigrateStartPayload (data : list byte) : res string (Z * string) :=
  if zlen data <? 8 then Err "short migrate start payload"%string
  else
    let dim := be_get (take 4 data) in
    let encLen := be_get (take 4 (drop 4 data)) in
    if (dim <=? 0) || (encLen <? 0) || (zlen data <? 8 + encLen)
    then Err "invalid migrate start payload"%string
    else Ok (dim, str_of (sub data 8 (8 + encLen))).

(** ** One vector *)
Definition EncodeVAddPayload (docID : string) (vec : list float32) : list byte :=
  be_put 4 (u32 (strlen docID)) ++ bytes_of docID ++ mjoin (be_put 4 <$> vec).

Fixpoint read_be_vec (n : nat) (rest : list byte) : list float32 :=
  match n with O => [] | S n => be_get (take 4 rest) :: read_be_vec n (drop 4 rest) end.

(** The second component is nil ([None]) when the payload is too short. *)
Definition DecodeVAddPayload (data : list byte) : string * option (list float32) :=
  if zlen data <? 4 then (""%string, None)
  else
    let docLen := be_get (take 4 data) in
    if zlen data <? 4 + docLen then (""%string, None)
    else
      let docID := str_of (sub data 4 (4 + docLen)) in
      let rest := drop (Z.to_nat (4 + docLen)) data in
      (docID, Some (read_be_vec (Z.to_nat (Z.quot (zlen rest) 4)) rest)).

(** ** A batch *)

(** [vec[j]] for [j < dim], with the index panic of a shorter vector. *)
Definition vec_prefix (dim : Z) (vec : list float32) : res string (list float32) :=
  if zlen vec <? dim then Panic else Ok (take (Z.to_nat dim) vec).

Fixpoint encode_batch (dim : Z) (ids : list string) (vecs : list (list float32)) : res string (list byte) :=
  match ids, vecs with
  | [], _ => Ok []
  | _ :: _, [] => Panic
  | id_ :: ids, vec :: vecs =>
      let? v := vec_prefix dim vec in
      let? rest := encode_batch dim ids vecs in
      Ok (le_put 4 (u32 (strlen id_)) ++ bytes_of id_ ++ mjoin (le_put 4 <$> v) ++ rest)
  end.

Definition EncodeVAddBatchPayload (dim : Z) (ids : list string) (vecs : list (list float32))
    : res string (list byte) :=
  let? body := encode_batch dim ids vecs in
  Ok (le_put 4 (u32 dim) ++ le_put 4 (u32 (zlen ids)) ++ body).

(** The slice expression [data[offset : offset+n]] and what follows it; it
    panics past the end. *)
Definition slice_n (n : Z) (rest : list byte) : res string (list byte * list byte) :=
  if zlen rest <? n then Panic else Ok (take (Z.to_nat n) rest, drop (Z.to_nat n) rest).

Fixpoint read_le_vec (n : nat) (rest : list byte) : res string (list float32 * list byte) :=
  match n with
  | O => Ok ([], rest)
  | S n =>
      let? p := slice_n 4 rest in
      let? q := read_le_vec n (snd p) in
      Ok (le_get (fst p) :: fst q, snd q)
  end.

Fixpoint decode_batch (dim : Z) (n : nat) (rest : list byte)
    : res string (list string * list (list float32)) :=
  match n with
  | O => Ok ([], [])
  | S n =>
      let? p := slice_n 4 rest in
      let? q := slice_n (le_get (fst p)) (snd p) in
      let? v := read_le_vec (Z.to_nat dim) (snd q) in
      let? r := decode_batch dim n (snd v) in
      Ok (str_of (fst q) :: fst r, fst v :: snd r)
  end.

Definition DecodeVAddBatchPayload (data : list byte) : res string (Z * list string * list (list float32)) :=
  if zlen data <? 8 then Ok (0, [], [])
  else
    let dim := le_get (take 4 data) in
    let numVectors := le_get (take 4 (drop 4 data)) in
    let? p := decode_batch dim (Z.to_nat numVectors) (drop 8 data) in
    Ok (dim, fst p, snd p).

(** ** Round trips *)
Lemma take_be4 z l : take 4 (be_put 4 z ++ l) = be_put 4 z.
Proof. by rewrite take_app_length' by (by rewrite length_be_put). Qed.
Lemma drop_be4 z l : drop 4 (be_put 4 z ++ l) = l.
Proof. by rewrite drop_app_length' by (by rewrite length_be_put). Qed.
Lemma be4 z : be_get (be_put 4 (u32 z)) = u32 z.
Proof. apply be_get_put_small. apply Z.mod_pos_bound. done. Qed.
Lemma u32_id z : 0 ≤ z < 2 ^ 32 → u32 z = z.
Proof. intros. unfold u32. by apply Z.mod_small. Qed.

Lemma read_be_vec_put vec rest :
  Forall f32_ok vec → read_be_vec (length vec) (mjoin (be_put 4 <$> vec) ++ rest) = vec.
Proof.
  induction 1 as [|v vec Hv _ IH]; [done|]. rewrite fmap_cons.
  change (mjoin (?x :: ?l)) with (x ++ mjoin l). rewrite <- app_assoc. cbn [length read_be_vec].
  rewrite take_be4, drop_be4, IH, be_get_put_small by exact Hv. done.
Qed.

Lemma length_be_vec vec : length (mjoin (be_put 4 <$> vec)) = (4 * length vec)%nat.
Proof.
  induction vec as [|v vec IH]; [done|]. rewrite fmap_cons.
  change (mjoin (?x :: ?l)) with (x ++ mjoin l). rewrite length_app, length_be_put, IH. cbn. lia.
Qed.

Lemma slice_n_app n (p rest : list byte) : zlen p = n → slice_n n (p ++ rest) = Ok (p, rest).
Proof.
  intros <-. unfold slice_n. rewrite zlen_app, (proj2 (Z.ltb_ge _ _)) by (pose proof (zlen_nonneg rest); lia).
  unfold zlen. rewrite Nat2Z.id. by rewrite take_app_length, drop_app_length.
Qed.

Lemma le4 z : 0 ≤ z < 2 ^ 32 → zlen (le_put 4 z) = 4 ∧ le_get (le_put 4 z) = z.
Proof. intros Hz. split; [unfold zlen; by rewrite length_le_put|]. by apply le_get_put_small. Qed.

Lemma read_le_vec_put vec rest :
  Forall f32_ok vec → read_le_vec (length vec) (mjoin (le_put 4 <$> vec) ++ rest) = Ok (vec, rest).
Proof.
  induction 1 as [|v vec Hv _ IH]; [done|]. rewrite fmap_cons. destruct (le4 v Hv) as [H1 H2].
  change (mjoin (?x :: ?l)) with (x ++ mjoin l). rewrite <- app_assoc. cbn [length read_le_vec].
  rewrite slice_n_app by done. cbn [rbind fst snd]. rewrite IH. cbn [rbind fst snd]. by rewrite H2.
Qed.

Definition batch_ok (dim : Z) (p : string * list float32) : Prop :=
  strlen (fst p) < 2 ^ 32 ∧ zlen (snd p) = dim ∧ Forall f32_ok (snd p).

Lemma decode_encode_batch dim items :
  0 ≤ dim → Forall (batch_ok dim) items →
  ∃ body, encode_batch dim (fst <$> items) (snd <$> items) = Ok body ∧
    decode_batch dim (length items) body = Ok (fst <$> items, snd <$> items).
Proof.
  intros Hd. induction 1 as [|[id_ vec] items (Hid & Hlen & Hv) _ (body & He & Hdec)]; [by eexists|].
  cbn [fst snd] in *. rewrite !fmap_cons. cbn [fst snd encode_batch]. unfold vec_prefix.
  rewrite (proj2 (Z.ltb_ge _ _)) by lia. cbn [rbind]. rewrite He. cbn [rbind].
  rewrite take_ge by (unfold zlen in Hlen; lia). eexists. split; [done|].
  assert (Hs : 0 ≤ strlen id_ < 2 ^ 32) by (split; [unfold strlen; lia|done]).
  rewrite u32_id by done. destruct (le4 _ Hs) as [H1 H2]. cbn [length decode_batch].
  rewrite slice_n_app by done. cbn [rbind fst snd]. rewrite H2, slice_n_app
    by (unfold zlen, strlen; by rewrite length_bytes_of). cbn [rbind fst snd].
  replace (Z.to_nat dim) with (length vec) by (unfold zlen in Hlen; lia).
  rewrite read_le_vec_put by done. cbn [rbind fst snd]. rewrite Hdec. cbn [rbind fst snd].
  by rewrite str_of_bytes_of.
Qed.

(** What the log stores for a vector insertion, for a
    batch of insertions and for the start of a migration is decoded to the
    document names, vectors (bit for bit), dimension and encoding it was made
    from. *)
Theorem vector_payload_roundtrip docID vec dim encoding items :
  strlen docID < 2 ^ 32 → Forall f32_ok vec → 0 < dim < 2 ^ 32 → strlen encoding < 2 ^ 32 →
  zlen items < 2 ^ 32 → Forall (batch_ok dim) items →
  DecodeVAddPayload (EncodeVAddPayload docID vec) = (docID, Some vec) ∧
  DecodeVMigrateStartPayload (EncodeVMigrateStartPayload dim encoding) = Ok (dim, encoding) ∧
  (let? data := EncodeVAddBatchPayload dim (fst <$> items) (snd <$> items) in
   DecodeVAddBatchPayload data) = Ok (dim, fst <$> items, snd <$> items).
Proof.
  intros Hd Hv Hdim He Hn Hit. conjs.
  - unfold DecodeVAddPayload, EncodeVAddPayload.
    rewrite (u32_id (strlen docID)) by (unfold strlen in *; lia). set (tail := bytes_of docID ++ _).
    rewrite take_be4. unfold strlen in *. rewrite be_get_put_small by (change (256 ^ Z.of_nat 4) with (2 ^ 32); lia).
    rewrite !zlen_app. unfold zlen at 1 3 5. rewrite !length_be_put.
    assert (Ht : zlen tail = Z.of_nat (String.length docID) + 4 * zlen vec).
    { unfold tail. rewrite zlen_app. unfold zlen. rewrite length_bytes_of, length_be_vec. lia. }
    pose proof (zlen_nonneg vec). rewrite !(proj2 (Z.ltb_ge _ _)) by lia.
    replace (Z.to_nat (4 + _)) with (4 + String.length docID)%nat by lia.
    rewrite <- drop_drop, drop_be4. unfold sub.
    replace (Z.to_nat (4 + _ - 4)) with (String.length docID) by lia.
    change (Z.to_nat 4) with 4%nat. rewrite drop_be4. unfold tail.
    rewrite take_app_length', drop_app_length' by (by rewrite length_bytes_of).
    rewrite str_of_bytes_of. f_equal. f_equal. unfold zlen. rewrite length_be_vec.
    rewrite Z.quot_div_nonneg by lia. replace (Z.to_nat _) with (length vec).
    + rewrite <- (app_nil_r (mjoin _)). by apply read_be_vec_put.
    + rewrite Nat2Z.inj_mul, Z.mul_comm, Z.div_mul by done. lia.
  - unfold DecodeVMigrateStartPayload, EncodeVMigrateStartPayload.
    rewrite take_be4, drop_be4, take_be4, !be4, !u32_id by (unfold strlen in *; lia).
    rewrite !zlen_app. unfold zlen. rewrite !length_be_put, length_bytes_of. unfold strlen.
    rewrite !(proj2 (Z.ltb_ge _ _)), (proj2 (Z.leb_gt _ _)) by lia. cbn [orb].
    unfold sub. change (Z.to_nat 8) with (4 + 4)%nat. rewrite <- drop_drop, !drop_be4.
    rewrite take_ge, str_of_bytes_of by (rewrite length_bytes_of; lia). done.
  - destruct (decode_encode_batch dim items ltac:(lia) Hit) as (body & Hb1 & Hb2).
    unfold EncodeVAddBatchPayload. rewrite Hb1. cbn [rbind]. unfold DecodeVAddBatchPayload.
    rewrite !u32_id by (unfold zlen in *; rewrite ?length_fmap; lia).
    destruct (le4 dim ltac:(lia)) as [H1 H2].
    destruct (le4 (zlen (fst <$> items))) as [H3 H4]; [unfold zlen in *; rewrite length_fmap; lia|].
    rewrite !zlen_app, H1, H3, (proj2 (Z.ltb_ge _ _)) by (pose proof (zlen_nonneg body); lia).
    rewrite (take_app_length' (le_put 4 dim)) by (by rewrite length_le_put).
    rewrite (drop_app_length' (le_put 4 dim)) by (by rewrite length_le_put).
    rewrite take_app_length' by (by rewrite length_le_put). rewrite H2, H4.
    change 8%nat with (4 + 4)%nat. rewrite <- drop_drop, !drop_app_length' by (by rewrite length_le_put).
    unfold zlen. rewrite length_fmap, Nat2Z.id, Hb2. done.
Qed.

Lemma vector_payload_roundtrip_witness :
  DecodeVAddPayload (EncodeVAddPayload "doc" [1065353216; 0]) = ("doc"%string, Some [1065353216; 0]) ∧
  DecodeVMigrateStartPayload (EncodeVMigrateStartPayload 2 "f16") = Ok (2, "f16"%string).
Proof.
  pose proof (vector_payload_roundtrip "doc" [1065353216; 0] 2 "f16" [("a"%string, [1; 2])]) as H.
  destruct H as (H1 & H2 & _); try done; repeat constructor; done.
Defined.
