(* ===== verification/Float32.v ===== *)
(** * Single-precision numbers

    Go's [float32] arithmetic on the Standard Library's executable IEEE 754
    model, and the bit patterns of [math.Float32bits] and
    [math.Float32frombits]. A stored coordinate is a bit pattern ([float32] of
    [VectorPayload]); [single] is the number it denotes. There is one NaN. *)

From S2P Require Import Prelude GoStd Types GoFloat Rounding VectorPayload.
From Stdlib Require Import Floats.SpecFloat.
Open Scope Z_scope.

Abbreviation single := spec_float (only parsing).

(** ** Arithmetic *)
Definition f32_add (x y : single) : single := SFadd 24 128 x y.
Definition f32_mul (x y : single) : single := SFmul 24 128 x y.
Definition f32_div (x y : single) : single := SFdiv 24 128 x y.
Definition f32_zero : single := S754_zero false.

(** A float of the other width with the same value, rounded to nearest even. *)
Definition convert (prec emax : Z) (x : spec_float) : spec_float :=
  match x with
  | S754_finite s m e => binary_normalize prec emax (cond_Zopp s (Zpos m)) e s
  | x => x
  end.
Definition to_f32 (x : float64) : single := convert 24 128 x.
Definition to_f64 (x : single) : float64 := convert 53 1024 x.
Definition f32_of_int (n : Z) : single := binary_normalize 24 128 n 0 false.
Definition f32_one : single := f32_of_int 1.

(** [float32(math.Sqrt(float64(x)))] *)
Definition f32_sqrt (x : single) : single := to_f32 (SFsqrt 53 1024 (to_f64 x)).

(** [int(math.Round(float64(x)))]: half away from zero; 0 when not finite. *)
Definition round_int (x : single) : Z :=
  match x with
  | S754_finite s m e =>
      let n := if e >=? 0 then Zpos m * 2 ^ e else (2 * Zpos m + 2 ^ (- e)) / (2 * 2 ^ (- e)) in
      cond_Zopp s n
  | _ => 0
  end.

Definition f32_isNaN (x : single) : bool := match x with S754_nan => true | _ => false end.
Definition f32_isInf (x : single) : bool := match x with S754_infinity _ => true | _ => false end.

(** ** Bit patterns *)
Definition Float32frombits (b : float32) : single :=
  let s := b >=? 2 ^ 31 in
  let ex := (b / 2 ^ 23) mod 256 in
  let f := b mod 2 ^ 23 in
  if ex =? 255 then (if f =? 0 then S754_infinity s else S754_nan)
  else if ex =? 0 then
    match f with Zpos m => S754_finite s m (-149) | _ => S754_zero s end
  else match 2 ^ 23 + f with Zpos m => S754_finite s m (ex - 150) | _ => S754_nan end.

Definition Float32bits (x : single) : float32 :=
  let sign (s : bool) := if s then 2 ^ 31 else 0 in
  match x with
  | S754_zero s => sign s
  | S754_infinity s => sign s + 255 * 2 ^ 23
  | S754_nan => 255 * 2 ^ 23 + 2 ^ 22
  | S754_finite s m e =>
      if Zpos m <? 2 ^ 23 then sign s + Zpos m
      else sign s + (e + 150) * 2 ^ 23 + (Zpos m - 2 ^ 23)
  end.

Example single_values :
  Float32frombits 1065353216 = f32_one ∧ Float32bits f32_one = 1065353216 ∧
  Float32bits (f32_div f32_one (f32_of_int 3)) = 1051372203 ∧
  Float32bits (f32_sqrt (f32_of_int 2)) = 1068827891 ∧
  round_int (f32_div (f32_of_int (-5)) (f32_of_int 2)) = -3 ∧
  Float32bits (f32_mul (f32_of_int 16777217) f32_one) = 1266679808.
Proof. vm_compute. repeat split. Qed.

(** A bit pattern that is not a NaN is that of the number it denotes. *)
Lemma bits_frombits b : f32_ok b → Float32frombits b ≠ S754_nan → Float32bits (Float32frombits b) = b.
Proof.
  unfold f32_ok, Float32frombits. intros Hb Hn.
  assert (He : 0 ≤ (b / 2 ^ 23) mod 256 < 256) by (apply Z.mod_pos_bound; lia).
  assert (Hf : 0 ≤ b mod 2 ^ 23 < 2 ^ 23) by (apply Z.mod_pos_bound; lia).
  assert (Hsplit : b = (if b >=? 2 ^ 31 then 2 ^ 31 else 0)
                       + (b / 2 ^ 23) mod 256 * 2 ^ 23 + b mod 2 ^ 23).
  { pose proof (Z.div_mod b (2 ^ 23) ltac:(lia)). pose proof (Z.div_mod (b / 2 ^ 23) 256 ltac:(lia)).
    assert (b / 2 ^ 23 / 256 = b / 2 ^ 31) as Hd by (rewrite Z.div_div by lia; f_equal; lia).
    rewrite Hd in *. destruct (Z.geb_spec b (2 ^ 31)).
    - assert (b / 2 ^ 31 = 1) by (symmetry; apply (Z.div_unique _ _ _ (b - 2 ^ 31)); lia). lia.
    - assert (b / 2 ^ 31 = 0) by (apply Z.div_small; lia). lia. }
  set (s := b >=? 2 ^ 31) in *. set (ex := (b / 2 ^ 23) mod 256) in *. set (f := b mod 2 ^ 23) in *.
  destruct (Z.eqb_spec ex 255).
  { destruct (Z.eqb_spec f 0); [|done]. cbn [Float32bits]. destruct s; lia. }
  destruct (Z.eqb_spec ex 0).
  { destruct f as [|m|m] eqn:Ef; cbn [Float32bits]; [destruct s; lia| |lia].
    replace (Z.pos m <? 2 ^ 23) with true by (symmetry; apply Z.ltb_lt; lia). destruct s; lia. }
  destruct (2 ^ 23 + f) as [|m|m] eqn:Em; [lia| |lia]. cbn [Float32bits].
  replace (Z.pos m <? 2 ^ 23) with false by (symmetry; apply Z.ltb_ge; lia). destruct s; lia.
Qed.

(** The numbers of single precision. *)
Definition single_ok (x : single) : bool :=
  match x with
  | S754_finite _ m e =>
      (Zpos m <? 2 ^ 24) && (-149 <=? e) && (e <=? 104) && ((2 ^ 23 <=? Zpos m) || (e =? -149))
  | _ => true
  end.

Lemma frombits_bits x : single_ok x = true → Float32frombits (Float32bits x) = x.
Proof.
  unfold single_ok. destruct x as [s|s| |s m e]; intros Hok; [by destruct s..|done|].
  rewrite !andb_true_iff, orb_true_iff in Hok. destruct Hok as [[[Hm He1] He2] Hc].
  bool_to_prop. cbn [Float32bits]. set (z := Z.pos m) in *.
  destruct (Z.ltb_spec z (2 ^ 23)) as [Hsub|Hnorm].
  - assert (e = -149) as -> by lia. unfold Float32frombits.
    assert (E : ((if s then 2 ^ 31 else 0) + z) / 2 ^ 23 = if s then 256 else 0).
    { symmetry. apply (Z.div_unique _ _ _ z); [lia|]. destruct s; lia. }
    assert (F : ((if s then 2 ^ 31 else 0) + z) mod 2 ^ 23 = z).
    { symmetry. apply (Z.mod_unique _ _ (if s then 256 else 0)); [lia|]. destruct s; lia. }
    rewrite E, F. replace ((if s then 256 else 0) mod 256) with 0 by (by destruct s). cbn -[Z.pow Z.geb].
    unfold z at 1. f_equal. destruct s; lia.
  - unfold Float32frombits. set (b := _ + _ + _).
    assert (E : b / 2 ^ 23 = (if s then 256 else 0) + (e + 150)).
    { symmetry. apply (Z.div_unique _ _ _ (z - 2 ^ 23)); [lia|]. unfold b. destruct s; lia. }
    assert (F : b mod 2 ^ 23 = z - 2 ^ 23).
    { symmetry. apply (Z.mod_unique _ _ ((if s then 256 else 0) + (e + 150))); [lia|]. unfold b. destruct s; lia. }
    assert (G : ((if s then 256 else 0) + (e + 150)) mod 256 = e + 150).
    { destruct s; [symmetry; apply (Z.mod_unique _ _ 1); lia|rewrite Z.add_0_l; apply Z.mod_small; lia]. }
    rewrite E, F, G. replace (e + 150 =? 255) with false by lia. replace (e + 150 =? 0) with false by lia.
    replace (2 ^ 23 + (z - 2 ^ 23)) with z by lia. unfold z at 1. f_equal; [|lia].
    unfold b. destruct s; lia.
Qed.

(** ** Results are numbers of single precision *)
Lemma valid_single x : valid_binary 24 128 x = true → single_ok x = true.
Proof.
  destruct x as [s|s| |s m e]; try done. cbn [valid_binary single_ok]. unfold bounded, canonical_mantissa, fexp.
  rewrite emin_eq. intros [Hc He]%andb_prop. apply Z.eqb_eq in Hc. apply Z.leb_le in He. pose proof (digits_bounds m) as [H1 H2].
  assert (Hd : Z.pos (digits2_pos m) ≤ 24) by lia.
  assert (Hm : Z.pos m < 2 ^ 24) by (eapply Z.lt_le_trans; [exact H2|]; apply Z.pow_le_mono_r; lia).
  rewrite !andb_true_iff, orb_true_iff, !Z.ltb_lt, !Z.leb_le, Z.eqb_eq. repeat split; try lia.
  destruct (Z.eq_dec (Z.pos (digits2_pos m)) 24) as [E|E]; [|right; lia]. left. rewrite E in H1. change (24 - 1) with 23 in H1. lia.
Qed.

Lemma f32_div_ok x y : single_ok (f32_div x y) = true.
Proof. apply valid_single, div_valid; lia. Qed.

Lemma scaled_ok neg m base x : single_ok (scaled_in 24 128 neg m base x) = true.
Proof.
  unfold scaled_in. destruct m as [|m|m]; [done| |done]. destruct (x >=? 0).
  - assert (H : single_ok (binary_normalize 24 128 (Z.pos m * base ^ x) 0 false) = true) by (apply valid_single, normalize_valid; lia).
    by destruct (binary_normalize 24 128 (Z.pos m * base ^ x) 0 false).
  - destruct (base ^ (- x)); [done| |done]. apply valid_single, div_valid; lia.
Qed.

Lemma ParseFloat32_ok s : single_ok (fst (ParseFloat32 s)) = true.
Proof.
  unfold ParseFloat32, parse_float. destruct (match bytes_of s with [] => _ | _ => _ end) as [[neg signed] body].
  destruct (_ || _); [done|]. destruct (_ && _); [done|].
  assert (H : ∀ f, read_number 24 128 neg body = Some f → single_ok f = true).
  { intros f. unfold read_number. destruct (read_mantissa _ _ _ _ _ _) as [[[m frac] digits] rest].
    assert (Hv : ∀ e, single_ok (if is_hex_prefix body then scaled_in 24 128 neg m 2 (e - 4 * frac) else scaled_in 24 128 neg m 10 (e - frac)) = true)
      by (intros e; destruct (is_hex_prefix body); apply scaled_ok).
    repeat (case_match; try done); intros [= <-]; first [apply scaled_ok|apply Hv]. }
  destruct (read_number 24 128 neg body); [by apply H|done].
Qed.

Lemma Float32bits_range x : single_ok x = true → 0 ≤ Float32bits x < 2 ^ 32.
Proof.
  unfold single_ok. destruct x as [s|s| |s m e]; intros Hok; [by destruct s..|done|].
  rewrite !andb_true_iff, orb_true_iff in Hok. destruct Hok as [[[Hm He1] He2] Hc]. bool_to_prop. cbn [Float32bits].
  destruct (Z.ltb_spec (Z.pos m) (2 ^ 23)); destruct s; lia.
Qed.
