(* ===== verification/Hnsw.v ===== *)
(** * The navigable small-world graph of a vector shard ([engine/hnsw.go], and
      [Validate] of [engine/hnsw_persist.go])

    [searchLayer] walks the edges of one layer with a max-heap of candidates and
    a bounded min-heap of the nearest rows seen; [Insert] descends the layers to
    the level of the new row and connects it on every layer below; [Search]
    descends to layer 0 and collects there.

    Scores are arguments ([score] of a query, [nscore] between rows), so the
    results hold for every encoding of the rows. Pointers to nodes are kept only
    in [Nodes] and, as a dense index of the same pointers, in [byID], of which
    the length matters. [math.Log] is an argument of the level of a row. The
    order [sort.Slice] gives to equal scores is that of a stable sort. *)

From S2P Require Import Prelude GoStd Types GoFloat BinHeap VectorPayload Float32.
From Stdlib Require Import Floats.SpecFloat.
Open Scope Z_scope.

Definition M : Z := 16.
Definition M0 : Z := 32.
Definition DefaultEfSearch : Z := 80.
Definition EfConstruct : Z := 200.
Definition hnswShards : Z := 8.

(** ** The score heaps *)
Record intNode := { in_ID : Z; in_Score : single }.
#[export] Instance intNode_eq_dec : EqDecision intNode.
Proof. solve_decision. Defined.
#[export] Instance intNode_inhabited : Inhabited intNode := populate {| in_ID := 0; in_Score := f32_zero |}.

Section Heaps.
(** [stop p c]: the parent stays above the child; [better r l]: the right child
    goes up rather than the left. *)
Variables stop better : intNode → intNode → bool.

Fixpoint up (fuel : nat) (h : list intNode) (i : nat) : list intNode :=
  match fuel with
  | O => h
  | S fuel' =>
      if (i =? 0)%nat then h else
      let p := Nat.div2 (i - 1) in
      if stop (h !!! p) (h !!! i) then h else up fuel' (swap h p i) p
  end.

Fixpoint down (fuel : nat) (h : list intNode) (i : nat) : list intNode :=
  match fuel with
  | O => h
  | S fuel' =>
      let n := length h in
      let l := (2 * i + 1)%nat in
      if (n <=? l)%nat then h else
      let r := (l + 1)%nat in
      let j := if (r <? n)%nat && better (h !!! r) (h !!! l) then r else l in
      if stop (h !!! i) (h !!! j) then h else down fuel' (swap h i j) j
  end.

Definition push (n : intNode) (h : list intNode) : list intNode :=
  let h' := h ++ [n] in up (length h') h' (length h).

(** What is left after [pop]; the result of [pop] is the root. *)
Definition pop (h : list intNode) : list intNode :=
  let rest := take (length h - 1) h in
  match rest with
  | [] => []
  | _ => down (length rest) (<[0%nat := h !!! (length h - 1)%nat]> rest) 0
  end.
End Heaps.

Definition max_stop (p c : intNode) : bool := SFleb (in_Score c) (in_Score p).
Definition max_better (r l : intNode) : bool := SFltb (in_Score l) (in_Score r).
Definition min_stop (p c : intNode) : bool := SFleb (in_Score p) (in_Score c).
Definition min_better (r l : intNode) : bool := SFltb (in_Score r) (in_Score l).
Definition max_push := push max_stop.
Definition max_pop := pop max_stop max_better.
Definition min_push := push min_stop.
Definition min_pop := pop min_stop min_better.

(** ** Scratch buffers

    A row is visited when its cell holds the current stamp. *)
Record searchScratch := {
  stamp : Z;
  visited : list Z;
  candidates : list intNode;
  nearest : list intNode
}.

Definition new_scratch : searchScratch := {| stamp := 0; visited := []; candidates := []; nearest := [] |}.

Definition reset (size : Z) (s : searchScratch) : searchScratch :=
  let st := u32 (stamp s + 1) in
  let '(st, vis) := if st =? 0 then (1, replicate (length (visited s)) 0) else (st, visited s) in
  let size := if size <? 1 then 1 else size in
  {| stamp := st; visited := if zlen vis <? size then replicate (Z.to_nat size) 0 else vis;
     candidates := []; nearest := [] |}.

(** The doubling loop of [mark]. *)
Fixpoint double (fuel : nat) (n id : Z) : Z :=
  match fuel with
  | O => n
  | S fuel' => if n <=? id then double fuel' (n * 2) id else n
  end.

Definition mark (id : Z) (s : searchScratch) : bool * searchScratch :=
  if id <? 0 then (true, s) else
  let vis :=
    if id >=? zlen (visited s) then
      let n := if zlen (visited s) <? 16 then 16 else zlen (visited s) in
      visited s ++ replicate (Z.to_nat (double 64 n id) - length (visited s)) 0
    else visited s in
  let set v := {| stamp := stamp s; visited := v; candidates := candidates s; nearest := nearest s |} in
  if bool_decide (vis !! Z.to_nat id = Some (stamp s)) then (true, set vis)
  else (false, set (<[Z.to_nat id := stamp s]> vis)).

Definition set_heaps (c n : list intNode) (s : searchScratch) : searchScratch :=
  {| stamp := stamp s; visited := visited s; candidates := c; nearest := n |}.

(** ** The graph *)
Record Node := { node_ID : Z; Layer : Z; Edges : gmap Z (list Z) }.

Record HNSWGraph := {
  Nodes : gmap Z Node;
  byID_len : Z;
  EntryPoint : Z;
  MaxLayer : Z;
  Size : Z;
  EfSearch : Z
}.

Definition NewHNSWGraph : HNSWGraph :=
  {| Nodes := ∅; byID_len := 0; EntryPoint := -1; MaxLayer := -1; Size := 0; EfSearch := DefaultEfSearch |}.

Definition node (g : HNSWGraph) (id : Z) : option Node := Nodes g !! id.

Definition set_Nodes (f : gmap Z Node → gmap Z Node) (g : HNSWGraph) : HNSWGraph :=
  {| Nodes := f (Nodes g); byID_len := byID_len g; EntryPoint := EntryPoint g; MaxLayer := MaxLayer g;
     Size := Size g; EfSearch := EfSearch g |}.

Definition attachNode (n : Node) (g : HNSWGraph) : HNSWGraph :=
  {| Nodes := <[node_ID n := n]> (Nodes g);
     byID_len := if node_ID n >=? byID_len g then node_ID n + 1 else byID_len g;
     EntryPoint := EntryPoint g; MaxLayer := MaxLayer g; Size := Size g; EfSearch := EfSearch g |}.

Definition edges_at (g : HNSWGraph) (lc id : Z) : list Z :=
  match node g id with Some n => default [] (Edges n !! lc) | None => [] end.

(** ** Searching one layer *)
Section Search.
Variable g : HNSWGraph.
Variable score : Z → single.
Variables ef lc : Z.

Definition enter (s : searchScratch) (entryPoint : Z) : searchScratch :=
  match node g entryPoint with
  | None => s
  | Some _ =>
      let '(seen, s) := mark entryPoint s in
      if seen then s
      else
        let c := {| in_ID := entryPoint; in_Score := score entryPoint |} in
        set_heaps (max_push c (candidates s)) (min_push c (nearest s)) s
  end.

(** [for len(nearest) > ef { nearest.pop() }] *)
Fixpoint shrink (fuel : nat) (h : list intNode) : list intNode :=
  match fuel with
  | O => h
  | S fuel' => if zlen h >? ef then shrink fuel' (min_pop h) else h
  end.

Definition visit (s : searchScratch) (neighbor : Z) : searchScratch :=
  let '(seen, s) := mark neighbor s in
  if seen then s
  else
    let nScore := score neighbor in
    if (zlen (nearest s) <? ef) || SFltb (in_Score (nearest s !!! 0%nat)) nScore then
      let c := {| in_ID := neighbor; in_Score := nScore |} in
      let near := min_push c (nearest s) in
      set_heaps (max_push c (candidates s)) (if zlen near >? ef then min_pop near else near) s
    else s.

(** The loop over the candidates; [None] when [fuel] runs out. *)
Fixpoint layer_loop (fuel : nat) (s : searchScratch) : option searchScratch :=
  match candidates s with
  | [] => Some s
  | c :: _ =>
      match fuel with
      | O => None
      | S fuel' =>
          let s := set_heaps (max_pop (candidates s)) (nearest s) s in
          if (zlen (nearest s) >=? ef) && SFltb (in_Score c) (in_Score (nearest s !!! 0%nat)) then Some s
          else
            match node g (in_ID c) with
            | None => layer_loop fuel' s
            | Some n => layer_loop fuel' (foldl visit s (default [] (Edges n !! lc)))
            end
      end
  end.

(** The loop that empties [nearest]. *)
Fixpoint drain (fuel : nat) (filter : option (Z → bool)) (h : list intNode) : list intNode :=
  match fuel, h with
  | S fuel', c :: _ =>
      let rest := drain fuel' filter (min_pop h) in
      match filter with
      | None => c :: rest
      | Some f => if f (in_ID c) then c :: rest else rest
      end
  | _, _ => []
  end.
End Search.

(** ** The order of scores

    [fle a b]: [a] is at most [b]. *)
Definition fle (a b : single) : Prop := ¬ lex3 (rank3 b) (rank3 a).

Lemma fle_refl a : fle a a.
Proof. unfold fle, lex3. lia. Qed.
Lemma fle_trans a b c : fle a b → fle b c → fle a c.
Proof. unfold fle, lex3. lia. Qed.
Lemma fle_total a b : fle a b ∨ fle b a.
Proof. unfold fle, lex3. lia. Qed.

(** The order of the answers. [sort.Slice] is used with the comparison of Go,
    which is not an order in the presence of a NaN; a NaN counts as zero here. *)
Definition by_score_desc (a b : intNode) : Prop := fle (in_Score b) (in_Score a).
#[export] Instance by_score_desc_dec a b : Decision (by_score_desc a b).
Proof. unfold by_score_desc, fle, lex3. apply _. Defined.
#[export] Instance by_score_desc_total : Total by_score_desc.
Proof. intros a b. apply fle_total. Qed.
#[export] Instance by_score_desc_trans : Transitive by_score_desc.
Proof. intros a b c H1 H2. by eapply fle_trans. Qed.

(** Every round of the loop takes a candidate, and a candidate enters once: the
    entry points and the edges of the layer bound the rounds. *)
Definition search_fuel (g : HNSWGraph) (lc : Z) (entryPoints : list Z) : nat :=
  length entryPoints + sum_list_with (λ p, length (default [] (Edges p.2 !! lc))) (map_to_list (Nodes g)).

Definition searchLayer (g : HNSWGraph) (score : Z → single) (entryPoints : list Z) (ef lc : Z)
    (filter : option (Z → bool)) (s : searchScratch) : list intNode * searchScratch :=
  let ef := if ef <? 1 then 1 else ef in
  let s := foldl (enter g score) s entryPoints in
  let s := set_heaps (candidates s) (shrink ef (length (nearest s)) (nearest s)) s in
  match layer_loop g score ef lc (search_fuel g lc entryPoints) s with
  | Some s => (merge_sort by_score_desc (drain (length (nearest s)) filter (nearest s)),
               set_heaps (candidates s) [] s)
  | None => ([], s)                                    (* not reached: [searchLayer_spec] *)
  end.

(** ** Insertion *)

Definition insertNeighborID (nscore : Z → Z → single) (owner : Z) (edges : list Z) (candidate limit : Z)
    : list Z :=
  if candidate =? owner then edges
  else if bool_decide (candidate ∈ edges) then edges
  else
    let score := nscore owner candidate in
    let position := sort_Search (length edges) (λ i, SFleb (nscore owner (nth i edges 0)) score) in
    if (zlen edges >=? limit) && (position =? length edges)%nat then edges
    else
      let edges := take position edges ++ candidate :: drop position edges in
      if zlen edges >? limit then take (Z.to_nat limit) edges else edges.

Fixpoint select_loop (queryRow limit : Z) (candidates : list intNode) (result : list Z) : list Z :=
  match candidates with
  | [] => result
  | c :: cs =>
      if in_ID c =? queryRow then select_loop queryRow limit cs result
      else if bool_decide (in_ID c ∈ result) then select_loop queryRow limit cs result
      else
        let result := result ++ [in_ID c] in
        if zlen result =? limit then result else select_loop queryRow limit cs result
  end.

Definition selectClosestNeighbors (queryRow : Z) (candidates : list intNode) (limit : Z) : list Z :=
  select_loop queryRow limit candidates [].

Definition set_edges (lc : Z) (edges : list Z) (n : Node) : Node :=
  {| node_ID := node_ID n; Layer := Layer n; Edges := <[lc := edges]> (Edges n) |}.

(** The level of a row: [log] is [math.Log], [Mult] the constant 1 / (4 ln 2). *)
Definition Mult : float64 := scaled false 36067376022224085183998117025047 10 (-32).
Definition deterministicLevel (log : float64 → float64) (row : Z) : Z :=
  let x := u64 (u64 (row + 1) + 0x9e3779b97f4a7c15) in
  let x := u64 (Z.lxor x (Z.shiftr x 30) * 0xbf58476d1ce4e5b9) in
  let x := u64 (Z.lxor x (Z.shiftr x 27) * 0x94d049bb133111eb) in
  let x := Z.lxor x (Z.shiftr x 31) in
  let u := SFdiv 53 1024 (binary_normalize 53 1024 (Z.shiftr x 11 + 1) 0 false)
             (binary_normalize 53 1024 (2 ^ 53) 0 false) in
  let level :=
    match SFmul 53 1024 (SFopp (log u)) Mult with
    | S754_finite s m e => SpecFloat.cond_Zopp s (if e >=? 0 then Zpos m * 2 ^ e else Zpos m / 2 ^ (- e))
    | _ => 0
    end in
  if level <? 0 then 0 else level.

Section Insert.
(** The level of a row, the score of a row against the new one, and the score
    between two rows. *)
Variable level : Z → Z.
Variable nscore : Z → Z → single.

(** [for lc := maxLayer; lc > l; lc--], [n] rounds from [lc] down. *)
Fixpoint descend (n : nat) (g : HNSWGraph) (score : Z → single) (lc ep : Z) (s : searchScratch)
    : Z * searchScratch :=
  match n with
  | O => (ep, s)
  | S n =>
      let s := reset (byID_len g + 1) s in
      let '(found, s) := searchLayer g score [ep] 1 lc None s in
      let ep := match found with c :: _ => in_ID c | [] => ep end in
      descend n g score (lc - 1) ep s
  end.

Definition link (row lc revLimit : Z) (g : HNSWGraph) (neighborID : Z) : HNSWGraph :=
  set_Nodes (alter (λ n, set_edges lc
    (insertNeighborID nscore neighborID (default [] (Edges n !! lc)) row revLimit) n) neighborID) g.

(** One layer of the new row: its edges, the reverse edges, the next entry. *)
Definition connect (row lc : Z) (g : HNSWGraph) (entryPoints : list Z) (s : searchScratch)
    : HNSWGraph * list Z * searchScratch :=
  let ef := if lc >? 0 then 16 else EfConstruct in
  let '(neighbors, s) := searchLayer g (nscore row) entryPoints ef lc None s in
  let maxM := if lc =? 0 then M0 else M in
  let edges := selectClosestNeighbors row neighbors maxM in
  let g := set_Nodes (alter (set_edges lc edges) row) g in
  let g := foldl (link row lc (if lc =? 0 then maxM * 2 else maxM)) g edges in
  (g, match neighbors with c :: _ => [in_ID c] | [] => entryPoints end, s).

(** [for lc := min(maxLayer, l); lc >= 0; lc--] *)
Fixpoint connect_all (n : nat) (row lc : Z) (g : HNSWGraph) (entryPoints : list Z) (s : searchScratch)
    : HNSWGraph :=
  match n with
  | O => g
  | S n =>
      let s := reset (byID_len g + 1) s in
      let '(g, entryPoints, s) := connect row lc g entryPoints s in
      connect_all n row (lc - 1) g entryPoints s
  end.

(** The empty layers of a row above the old top. *)
Fixpoint fill_layers (n : nat) (lc : Z) (edges : gmap Z (list Z)) : gmap Z (list Z) :=
  match n with
  | O => edges
  | S n =>
      fill_layers n (lc + 1) (if bool_decide (is_Some (edges !! lc)) then edges else <[lc := []]> edges)
  end.

(** [scratch] is the buffer taken from the pool; its contents are never read. *)
Definition Insert (row : Z) (scratch : searchScratch) (g : HNSWGraph) : HNSWGraph :=
  let l := level row in
  let g := attachNode {| node_ID := row; Layer := l; Edges := ∅ |} g in
  if Size g =? 0 then
    {| Nodes := Nodes g; byID_len := byID_len g; EntryPoint := row; MaxLayer := l; Size := Size g + 1;
       EfSearch := EfSearch g |}
  else
    let s := reset (Size g + 2) scratch in
    let maxLayer := MaxLayer g in
    let '(ep, s) := descend (Z.to_nat (maxLayer - l)) g (nscore row) maxLayer (EntryPoint g) s in
    let top := Z.min maxLayer l in
    let g := connect_all (Z.to_nat (top + 1)) row top g [ep] s in
    if l >? maxLayer then
      {| Nodes := alter (λ n, {| node_ID := node_ID n; Layer := Layer n;
             Edges := fill_layers (Z.to_nat (l - maxLayer)) (maxLayer + 1) (Edges n) |}) row (Nodes g);
         byID_len := byID_len g; EntryPoint := row; MaxLayer := l; Size := Size g + 1;
         EfSearch := EfSearch g |}
    else
      {| Nodes := Nodes g; byID_len := byID_len g; EntryPoint := EntryPoint g; MaxLayer := MaxLayer g;
         Size := Size g + 1; EfSearch := EfSearch g |}.
End Insert.

(** ** Searching the graph *)
Definition search_ef (efSearch k : Z) (g : HNSWGraph) : Z :=
  let ef := efSearch in
  let ef := if ef <=? 0 then EfSearch g else ef in
  let ef := if ef <=? 0 then DefaultEfSearch else ef in
  if k >? ef then k else ef.

Definition Search (score : Z → single) (k : Z) (filter : Z → bool) (efSearch : Z) (scratch : searchScratch)
    (g : HNSWGraph) : list intNode :=
  if (Size g =? 0) || (k <=? 0) then []
  else
    let s := reset (byID_len g + 1) scratch in
    let '(ep, s) := descend (Z.to_nat (MaxLayer g)) g score (MaxLayer g) (EntryPoint g) s in
    let s := reset (byID_len g + 1) s in
    let '(results, _) := searchLayer g score [ep] (search_ef efSearch k g) 0 (Some filter) s in
    if zlen results >? k then take (Z.to_nat k) results else results.

Definition SetEfSearch (v : Z) (g : HNSWGraph) : HNSWGraph :=
  {| Nodes := Nodes g; byID_len := byID_len g; EntryPoint := EntryPoint g; MaxLayer := MaxLayer g;
     Size := Size g; EfSearch := if v <? 1 then 1 else v |}.

(** ** [Validate]: the error, if any, without its text *)
Definition valid_edges (g : HNSWGraph) (n : Node) (p : Z * list Z) : bool :=
  let '(layer, edges) := p in
  negb ((layer <? 0) || (layer >? Layer n)) &&
  negb (zlen edges >? (if layer =? 0 then M0 else M) * 2) &&
  forallb (λ nb, match node g nb with
                 | Some target => negb ((Layer target <? layer) || (nb =? node_ID n))
                 | None => false
                 end) edges.

Definition Validate (expectedSize : Z) (g : HNSWGraph) : bool :=
  if negb (Size g =? expectedSize) || negb (Z.of_nat (size (Nodes g)) =? expectedSize) then false
  else if expectedSize =? 0 then EntryPoint g =? -1
  else
    bool_decide (is_Some (node g (EntryPoint g))) &&
    forallb (λ p : Z * Node, let '(id, n) := p in
      negb (negb (node_ID n =? id) || (Layer n <? 0) || (Layer n >? 64)) &&
      forallb (valid_edges g n) (map_to_list (Edges n))) (map_to_list (Nodes g)).

(** A line of points scored by closeness; every third row reaches layer 1. *)
Definition demo_level (row : Z) : Z := if row mod 3 =? 0 then 1 else 0.
Definition demo_nscore (a b : Z) : single := f32_of_int (- Z.abs (a - b)).
Definition demo_graph : HNSWGraph :=
  foldl (λ g row, Insert demo_level demo_nscore row new_scratch g) NewHNSWGraph [0; 1; 2; 3; 4; 5; 6].

Example demo_search :
  in_ID <$> Search (λ r, demo_nscore 6 r) 3 (λ r, negb (r =? 5)) 0 new_scratch demo_graph = [6; 4; 3] ∧
  Validate 7 demo_graph = true.
Proof. vm_compute. done. Qed.

(** ** The heaps keep their items *)
Section HeapPerm.
Variables stop better : intNode → intNode → bool.

Lemma up_perm fuel h i : (i < length h)%nat → up stop fuel h i ≡ₚ h.
Proof.
  revert h i. induction fuel as [|fuel IH]; intros h i Hi; cbn [up]; [done|].
  destruct (Nat.eqb_spec i 0); [done|]. case_match; [done|].
  pose proof (parent_child i ltac:(done)) as Hp. unfold child in Hp.
  rewrite IH by (rewrite length_swap; lia). apply swap_Permutation; lia.
Qed.

Lemma push_perm n h : push stop n h ≡ₚ n :: h.
Proof.
  unfold push. rewrite up_perm by (rewrite length_app; cbn; lia). by rewrite Permutation_app_comm.
Qed.

Lemma down_perm fuel h i : (i < length h)%nat → down stop better fuel h i ≡ₚ h.
Proof.
  revert h i. induction fuel as [|fuel IH]; intros h i Hi; cbn [down]; [done|].
  destruct (Nat.leb_spec (length h) (2 * i + 1)); [done|]. set (j := if _ && _ then _ else _).
  assert (j < length h)%nat.
  { subst j. case_match eqn:E; [|lia]. apply andb_prop in E as [E%Nat.ltb_lt _]. done. }
  case_match; [done|]. rewrite IH by (rewrite length_swap; lia). by apply swap_Permutation.
Qed.

Lemma pop_perm h : h ≠ [] → (h !!! 0%nat) :: pop stop better h ≡ₚ h.
Proof.
  intros Hne. destruct (decide (length h = 1%nat)) as [H1|H1].
  { destruct h as [|x [|]]; [done|done|cbn in H1; lia]. }
  assert (Hl : (1 < length h)%nat) by (destruct h; [done|cbn in *; lia]).
  unfold pop. set (n := (length h - 1)%nat). set (rest := take n h).
  assert (Hr : length rest = n) by (subst rest; rewrite length_take; lia).
  assert (Hx : h !! n = Some (h !!! n)) by (apply list_lookup_lookup_total_lt; lia).
  assert (Hh : h = rest ++ [h !!! n]).
  { subst rest. rewrite <- (take_S_r _ _ _ Hx), take_ge by lia. done. }
  destruct rest as [|x rest'] eqn:Er; [cbn in Hr; lia|].
  assert (h !!! 0%nat = x) as -> by (by rewrite Hh). rewrite down_perm by (cbn; lia). cbn.
  rewrite Hh at 2. cbn. apply perm_skip. by rewrite Permutation_app_comm.
Qed.

Lemma length_pop h : length (pop stop better h) = (length h - 1)%nat.
Proof.
  destruct (decide (h = [])) as [->|Hne]; [done|]. pose proof (Permutation_length (pop_perm h Hne)) as Hp.
  cbn in Hp. lia.
Qed.

(** ... and their order, on items whose comparisons [R] describes. *)
Variable P : intNode → Prop.
Variable R : intNode → intNode → Prop.
Hypothesis R_refl : ∀ a, R a a.
Hypothesis R_trans : ∀ a b c, R a b → R b c → R a c.
Hypothesis stop_R : ∀ a b, P a → P b → if stop a b then R a b else R b a.
Hypothesis better_R : ∀ r l, P r → P l → if better r l then R r l else R l r.

Lemma P_lookup h i : Forall P h → (i < length h)%nat → P (h !!! i).
Proof. intros HP Hi. rewrite Forall_forall in HP. apply HP. by apply list_elem_of_lookup_total_2. Qed.

Lemma up_heap fuel h i :
  (i < fuel)%nat → (i < length h)%nat → Forall P h → up_inv R h (length h) i →
  heap_ok R (up stop fuel h i) (length h).
Proof.
  revert h i. induction fuel as [|fuel IH]; intros h i Hf Hi HP Hinv; [lia|]. cbn [up].
  destruct (Nat.eqb_spec i 0) as [->|Hi0].
  { eapply up_inv_ok; [done|]. unfold child. intros. lia. }
  pose proof (parent_child i Hi0) as Hp. set (p := Nat.div2 (i - 1)) in *.
  assert (p < i)%nat by (unfold child in Hp; lia).
  pose proof (stop_R (h !!! p) (h !!! i)) as Hs. destruct (stop (h !!! p) (h !!! i)).
  - eapply up_inv_ok; [done|]. intros q Hq. rewrite (child_unique q p i) by done.
    apply Hs; apply P_lookup; auto; lia.
  - assert (R (h !!! i) (h !!! p)) by (apply Hs; apply P_lookup; auto; lia).
    pose proof (IH (swap h p i) p) as HI. rewrite !length_swap in HI. apply HI; [lia|lia| |].
    + by rewrite swap_Permutation by lia.
    + by apply up_inv_step.
Qed.

Lemma push_heap n h :
  P n → Forall P h → heap_ok R h (length h) →
  heap_ok R (push stop n h) (length (push stop n h)) ∧ Forall P (push stop n h).
Proof.
  intros Hn HP Hok. pose proof (push_perm n h) as Hp. split; [|by rewrite Hp; constructor].
  rewrite (Permutation_length Hp). cbn [length]. unfold push.
  assert (Hl : length (h ++ [n]) = S (length h)) by (rewrite length_app; cbn; lia).
  rewrite <- Hl. apply up_heap; [lia|lia| |rewrite Hl; by apply up_inv_snoc].
  apply Forall_app. split; [done|by constructor].
Qed.

Lemma down_heap fuel h i :
  (length h ≤ i + fuel)%nat → Forall P h → down_inv R h (length h) i →
  heap_ok R (down stop better fuel h i) (length h).
Proof.
  revert h i. induction fuel as [|fuel IH]; intros h i Hf HP Hinv; cbn [down].
  { apply (down_inv_leaf _ _ _ i); [lia|done]. }
  destruct (Nat.leb_spec (length h) (2 * i + 1)) as [Hle|Hgt]; [by apply (down_inv_leaf _ _ _ i); [lia|]|].
  set (j := if _ && _ then _ else _).
  assert (Hj : child i j ∧ (j < length h)%nat ∧ ∀ c, child i c → (c < length h)%nat → R (h !!! j) (h !!! c)).
  { subst j. replace (2 * i + 1 + 1)%nat with (2 * i + 2)%nat by lia.
    destruct (Nat.ltb_spec (2 * i + 2) (length h)); cbn [andb].
    - pose proof (better_R (h !!! (2 * i + 2)%nat) (h !!! (2 * i + 1)%nat)) as Hb.
      specialize (Hb ltac:(apply P_lookup; auto; lia) ltac:(apply P_lookup; auto; lia)).
      destruct (better _ _); (split; [unfold child; lia|]; split; [lia|]); intros c [->| ->] _; auto.
    - split; [unfold child; lia|]. split; [lia|]. intros c [->| ->] ?; [auto|lia]. }
  destruct Hj as (Hij & Hj & Hmin). pose proof (stop_R (h !!! i) (h !!! j)) as Hs.
  specialize (Hs ltac:(apply P_lookup; auto; unfold child in Hij; lia) ltac:(by apply P_lookup)).
  destruct (stop (h !!! i) (h !!! j)).
  - intros p c Hpc Hc. destruct (decide (p = i)) as [->|]; [|by apply (proj1 Hinv)].
    eapply R_trans; [done|]. by apply Hmin.
  - pose proof (IH (swap h i j) j) as HI. rewrite !length_swap in HI. unfold child in Hij.
    apply HI; [lia|by rewrite swap_Permutation by lia|]. apply down_inv_step; unfold child; auto; lia.
Qed.

Lemma pop_heap h :
  Forall P h → heap_ok R h (length h) →
  heap_ok R (pop stop better h) (length (pop stop better h)) ∧ Forall P (pop stop better h).
Proof.
  intros HP Hok. destruct (decide (h = [])) as [->|Hne]; [split; [apply heap_ok_nil|constructor]|].
  pose proof (pop_perm h Hne) as Hp. split; [|rewrite <- Hp in HP; by inv HP].
  assert (0 < length h)%nat by (destruct h; [done|cbn; lia]).
  rewrite length_pop. unfold pop. set (n := (length h - 1)%nat).
  assert (Hl : length (take n h) = n) by (rewrite length_take; lia).
  destruct (take n h) as [|x rest] eqn:Er; [cbn in Hl; rewrite <- Hl; apply heap_ok_nil|].
  set (h' := <[0%nat := h !!! n]> (x :: rest)). assert (Hl' : length h' = n) by done.
  rewrite Hl, <- Hl'. apply down_heap; [lia| |].
  - apply Forall_forall. intros y Hy. rewrite Forall_forall in HP.
    apply list_elem_of_lookup in Hy as [k Hk]. destruct k; cbn in Hk.
    + injection Hk as <-. apply HP, list_elem_of_lookup_total_2. lia.
    + apply HP. eapply (list_elem_of_lookup_2 _ (S k)). rewrite <- (take_drop n h), Er.
      apply lookup_app_l_Some. done.
  - rewrite Hl'. apply down_inv_root. rewrite <- Er. apply heap_ok_take.
    intros p c Hpc Hc. apply Hok; [done|lia].
Qed.
End HeapPerm.

(** ** Scratch buffers hold a set of rows *)
Definition scratch_ok (s : searchScratch) : Prop :=
  0 ≤ stamp s < 2 ^ 32 ∧ Forall (λ v, 0 ≤ v ≤ stamp s) (visited s).
Definition marked (s : searchScratch) (id : Z) : Prop :=
  0 ≤ id ∧ visited s !! Z.to_nat id = Some (stamp s).
#[export] Instance marked_dec s id : Decision (marked s id).
Proof. unfold marked. apply _. Defined.

Lemma reset_spec size s :
  scratch_ok s →
  scratch_ok (reset size s) ∧ 0 < stamp (reset size s) ∧ (∀ id, ¬ marked (reset size s) id) ∧
  candidates (reset size s) = [] ∧ nearest (reset size s) = [].
Proof.
  intros [Hs Hv]. unfold reset.
  assert (Hfresh : ∀ st vis sz, 0 < st < 2 ^ 32 → Forall (λ v, 0 ≤ v < st) vis →
    let r := {| stamp := st; visited := if zlen vis <? sz then replicate (Z.to_nat sz) 0 else vis;
                candidates := []; nearest := [] |} in
    scratch_ok r ∧ 0 < stamp r ∧ (∀ id, ¬ marked r id)).
  { intros st vis sz Hst Hvis r.
    assert (Hr : Forall (λ v, 0 ≤ v < st) (visited r)).
    { cbn. case_match; [|done]. apply Forall_replicate. lia. }
    split; [split; [cbn; lia|]|split; [cbn; lia|]].
    - eapply Forall_impl; [exact Hr|]. cbn. lia.
    - intros id [_ Hm]. rewrite Forall_lookup in Hr. apply Hr in Hm. cbn in Hm. lia. }
  unfold u32. destruct (Z.eqb_spec ((stamp s + 1) mod 2 ^ 32) 0) as [E|E].
  - destruct (Hfresh 1 (replicate (length (visited s)) 0) (if size <? 1 then 1 else size))
      as (H1 & H2 & H3); [lia|apply Forall_replicate; lia|]. auto.
  - assert (stamp s + 1 < 2 ^ 32).
    { destruct (Z.eq_dec (stamp s + 1) (2 ^ 32)) as [E'|]; [|lia]. rewrite E' in E. by rewrite Z_mod_same_full in E. }
    rewrite Z.mod_small in * by lia.
    destruct (Hfresh (stamp s + 1) (visited s) (if size <? 1 then 1 else size))
      as (H1 & H2 & H3); [lia| |auto]. eapply Forall_impl; [exact Hv|]. cbn. lia.
Qed.

Lemma double_spec fuel n id : 0 < n → id < n * 2 ^ Z.of_nat fuel → id < double fuel n id ∧ n ≤ double fuel n id.
Proof.
  revert n. induction fuel as [|fuel IH]; intros n Hn Hid; cbn [double]; [cbn in Hid; lia|].
  destruct (Z.leb_spec n id); [|lia]. rewrite Nat2Z.inj_succ, Z.pow_succ_r in Hid by lia.
  destruct (IH (n * 2)); lia.
Qed.

(** The cells after [mark] has grown them. *)
Lemma grown_lookup (l : list Z) n i v : v ≠ 0 → (l ++ replicate n 0) !! i = Some v ↔ l !! i = Some v.
Proof.
  intros Hv. split; [|by apply lookup_app_l_Some]. intros [?|[_ Hr]]%lookup_app_Some; [done|].
  by apply lookup_replicate in Hr as [-> _].
Qed.

Lemma mark_spec id s :
  scratch_ok s → 0 < stamp s → id < 2 ^ 63 →
  let r := mark id s in
  (fst r = true ↔ id < 0 ∨ marked s id) ∧ scratch_ok (snd r) ∧ stamp (snd r) = stamp s ∧
  candidates (snd r) = candidates s ∧ nearest (snd r) = nearest s ∧
  (∀ x, marked (snd r) x ↔ marked s x ∨ (x = id ∧ 0 ≤ id)).
Proof.
  intros [Hs Hv] Hpos Hid r. subst r. unfold mark. destruct (Z.ltb_spec id 0) as [Hneg|Hnn].
  { cbn. conjs; try done; [split; auto|]. intros x. split; [auto|]. intros [?|[_ ?]]; [done|lia]. }
  set (vis := if id >=? zlen (visited s) then _ else _).
  assert (Hvis : (Z.to_nat id < length vis)%nat ∧ Forall (λ v, 0 ≤ v ≤ stamp s) vis ∧
    ∀ i, vis !! i = Some (stamp s) ↔ visited s !! i = Some (stamp s)).
  { subst vis. destruct (Z.geb_spec id (zlen (visited s))) as [Hge|Hlt]; unfold zlen in *.
    - set (n := if _ <? 16 then 16 else _). assert (0 < n ∧ Z.of_nat (length (visited s)) ≤ n) by (subst n; case_match; lia).
      destruct (double_spec 64 n id) as [Hd Hd']; [lia| |]. { change (Z.of_nat 64) with 64. nia. }
      rewrite length_app, length_replicate. split; [lia|]. split.
      + apply Forall_app. split; [done|]. apply Forall_replicate. lia.
      + intros i. apply grown_lookup. lia.
    - split; [lia|]. done. }
  destruct Hvis as (Hlen & HF & Hiff). clearbody vis.
  case_bool_decide as Hm; cbn.
  - conjs; try done; [by split; [right; split; [done|by apply Hiff]|]|].
    intros x. unfold marked. cbn. rewrite Hiff. split; [auto|]. intros [?|[-> _]]; [done|]. split; [done|by apply Hiff].
  - conjs; try done.
    + split; [done|]. intros [?|[_ ?%Hiff]]; [lia|done].
    + split; [done|]. cbn. apply Forall_insert; [done|lia].
    + intros x. unfold marked. cbn. destruct (decide (x = id)) as [->|Hne].
      * rewrite list_lookup_insert_eq by done. tauto.
      * split.
        -- intros [Hx Hl]. left. split; [done|]. rewrite list_lookup_insert_ne in Hl by lia. by apply Hiff.
        -- intros [[Hx Hl%Hiff]|[-> _]]; [|done]. split; [done|]. by rewrite list_lookup_insert_ne by lia.
Qed.

Lemma SFleb_fle a b : not_nan a → not_nan b → if SFleb a b then fle a b else fle b a.
Proof.
  intros Ha Hb. pose proof (SFcompare_rank a b Ha Hb) as Hc. unfold SFleb, fle, lex3 in *.
  destruct (SFcompare a b) as [[]|]; [rewrite Hc|..]; lia.
Qed.
Lemma SFleb_iff a b : not_nan a → not_nan b → SFleb a b = true ↔ fle a b.
Proof.
  intros Ha Hb. pose proof (SFcompare_rank a b Ha Hb) as Hc. unfold SFleb, fle, lex3 in *.
  destruct (SFcompare a b) as [[]|]; split; intros; try done; try lia. rewrite Hc. lia.
Qed.
Lemma SFltb_fle a b : not_nan a → not_nan b → if SFltb a b then fle a b else fle b a.
Proof.
  intros Ha Hb. pose proof (SFcompare_rank a b Ha Hb) as Hc. unfold SFltb, fle, lex3 in *.
  destruct (SFcompare a b) as [[]|]; [rewrite Hc|..]; lia.
Qed.

Definition real (c : intNode) : Prop := not_nan (in_Score c).
Definition below (a b : intNode) : Prop := fle (in_Score a) (in_Score b).
Abbreviation is_min_heap h := (heap_ok below h (length h)).

Lemma below_trans a b c : below a b → below b c → below a c.
Proof. apply fle_trans. Qed.

Lemma min_push_heap n h :
  real n → Forall real h → is_min_heap h → is_min_heap (min_push n h) ∧ Forall real (min_push n h).
Proof.
  intros. apply (push_heap min_stop real below); eauto using below_trans.
  intros a b Ha Hb. by apply SFleb_fle.
Qed.

Lemma min_pop_heap h : Forall real h → is_min_heap h → is_min_heap (min_pop h) ∧ Forall real (min_pop h).
Proof.
  intros. apply (pop_heap min_stop min_better real below); eauto using below_trans.
  - intros a. apply fle_refl.
  - intros a b Ha Hb. by apply SFleb_fle.
  - intros r l Hr Hl. by apply SFltb_fle.
Qed.

Lemma min_heap_root h c : is_min_heap h → c ∈ h → below (h !!! 0%nat) c.
Proof.
  intros Hok [i Hi]%list_elem_of_lookup. pose proof (lookup_lt_Some _ _ _ Hi).
  rewrite <- (list_lookup_total_correct _ _ _ Hi). apply (heap_root below); eauto using below_trans.
  intros a. apply fle_refl.
Qed.

(** ** The invariant of the search of a layer *)
Definition passes (f : option (Z → bool)) (c : intNode) : bool :=
  match f with Some f => f (in_ID c) | None => true end.

Section LayerInv.
Variable g : HNSWGraph.
Variable score : Z → single.
Variables ef lc : Z.
Variable eps : list Z.
Hypothesis ef_pos : 1 ≤ ef.

Definition edge (a b : Z) : Prop := b ∈ edges_at g lc a.
Definition reach (x : Z) : Prop := ∃ ep, ep ∈ eps ∧ is_Some (node g ep) ∧ rtc edge ep x.

Definition items_ok (s : searchScratch) (l : list intNode) : Prop :=
  NoDup (in_ID <$> l) ∧ ∀ c, c ∈ l → marked s (in_ID c) ∧ in_Score c = score (in_ID c).

(** All rows fit in the bound of the search. *)
Definition bound : Prop := ∃ R : list Z, zlen R ≤ ef ∧ ∀ x, reach x → x ∈ R.
Definition nonan : Prop := ∀ x, not_nan (score x).

(** The rows that were scored and are not among the nearest are worse than all
    of them, and the nearest are as many as allowed. *)
Definition kept_best (s : searchScratch) : Prop :=
  is_min_heap (nearest s) ∧
  ∀ x, marked s x → x ∈ (in_ID <$> nearest s) ∨
    (zlen (nearest s) = ef ∧ ∀ c, c ∈ nearest s → fle (score x) (in_Score c)).

Record layer_inv (s : searchScratch) : Prop := {
  li_ok : scratch_ok s;
  li_stamp : 0 < stamp s;
  li_near : items_ok s (nearest s);
  li_cand : items_ok s (candidates s);
  li_reach : ∀ x, marked s x → reach x;
  li_ef : zlen (nearest s) ≤ ef;
  li_full : bound → ∀ x, marked s x → x ∈ (in_ID <$> nearest s);
  li_best : nonan → kept_best s
}.

Lemma items_perm s l l' : l ≡ₚ l' → items_ok s l → items_ok s l'.
Proof. intros Hp [H1 H2]. split; [by rewrite <- Hp|]. intros c. rewrite <- Hp. apply H2. Qed.

Lemma items_marked s s' l :
  (∀ x, marked s x → marked s' x) → items_ok s l → items_ok s' l.
Proof. intros Hm [H1 H2]. split; [done|]. intros c Hc. destruct (H2 c Hc). auto. Qed.

Lemma items_cons s l x :
  ¬ marked s x → items_ok s l → ∀ s', (∀ y, marked s y → marked s' y) → marked s' x →
  items_ok s' ({| in_ID := x; in_Score := score x |} :: l).
Proof.
  intros Hx [H1 H2] s' Hm Hx'. split.
  - rewrite fmap_cons. apply NoDup_cons. split; [|done].
    intros (c & Hc & Hin)%list_elem_of_fmap. cbn in Hc. subst x. by apply Hx, H2.
  - intros c [->|Hc]%elem_of_cons; [done|]. destruct (H2 c Hc). auto.
Qed.

Lemma items_sub s l l' x : x :: l ≡ₚ l' → items_ok s l' → items_ok s l.
Proof.
  intros Hp Hi. apply (items_perm _ _ _ (symmetry Hp)) in Hi as [H1 H2]. rewrite fmap_cons in H1.
  apply NoDup_cons in H1 as [_ ?]. split; [done|]. intros c Hc. apply H2. by right.
Qed.

Lemma items_real s l : nonan → items_ok s l → Forall real l.
Proof. intros Hn [_ H]. apply Forall_forall. intros c Hc. unfold real. rewrite (proj2 (H c Hc)). apply Hn. Qed.

(** The bounded insertion into the nearest. *)
Definition put_near (c : intNode) (h : list intNode) : list intNode :=
  let near := min_push c h in if zlen near >? ef then min_pop near else near.

Lemma put_near_cases c h :
  zlen h ≤ ef →
  let near := min_push c h in
  (zlen h < ef ∧ put_near c h = near) ∨
  (zlen h = ef ∧ put_near c h = min_pop near ∧ near ≠ [] ∧ (near !!! 0%nat) :: min_pop near ≡ₚ c :: h).
Proof.
  intros Hl near. pose proof (push_perm min_stop c h) as Hp. fold min_push in Hp. fold near in Hp.
  assert (zlen near = zlen h + 1) as Hn by (unfold zlen; rewrite (Permutation_length Hp); cbn; lia).
  unfold put_near. fold near. destruct (Z.gtb_spec (zlen near) ef); [right|left; split; [lia|done]].
  assert (near ≠ []) by (intros E; unfold zlen in *; rewrite E in Hn; cbn in Hn; lia).
  split; [lia|]. split; [done|]. split; [done|]. rewrite <- Hp. by apply pop_perm.
Qed.

(** A row [x] is scored for the first time: [s1] is [s] with [x] marked. *)
Section Scored.
Variables (s s1 : searchScratch) (x : Z).
Hypothesis Hs : layer_inv s.
Hypothesis Hx : ¬ marked s x.
Hypothesis Hreach : reach x.
Hypothesis Hok1 : scratch_ok s1.
Hypothesis Hstamp1 : 0 < stamp s1.
Hypothesis Hm1 : ∀ y, marked s1 y ↔ marked s y ∨ y = x.
Let c : intNode := {| in_ID := x; in_Score := score x |}.

Lemma scored_mono y : marked s y → marked s1 y.
Proof. intros. apply Hm1. auto. Qed.

Lemma scored_reach y : marked s1 y → reach y.
Proof. intros [?| ->]%Hm1; [by apply (li_reach s Hs)|done]. Qed.

Lemma scored_room : bound → zlen (nearest s) < ef.
Proof.
  intros (R & HR & Hin). destruct (items_cons s (nearest s) x Hx (li_near s Hs) s1) as [Hnd Hall];
    [apply scored_mono|apply Hm1; auto|].
  assert (Hsub : in_ID <$> (c :: nearest s) ⊆+ R).
  { apply NoDup_submseteq; [done|]. intros y (c' & -> & Hc')%list_elem_of_fmap.
    apply Hin, scored_reach. by apply Hall. }
  apply submseteq_length in Hsub. rewrite length_fmap in Hsub. cbn in Hsub. unfold zlen in *. lia.
Qed.

Lemma put_near_items : items_ok s1 (put_near c (nearest s)).
Proof.
  assert (Hi : items_ok s1 (c :: nearest s)).
  { apply (items_cons s); auto; [apply (li_near s Hs)|apply scored_mono|apply Hm1; auto]. }
  destruct (put_near_cases c (nearest s) (li_ef s Hs)) as [[_ ->]|(_ & -> & _ & Hp)].
  - eapply items_perm; [symmetry; apply push_perm|done].
  - eapply items_sub; [exact Hp|done].
Qed.

Lemma put_near_ef : zlen (put_near c (nearest s)) ≤ ef ∧ (zlen (nearest s) = ef → zlen (put_near c (nearest s)) = ef).
Proof.
  pose proof (li_ef s Hs) as Hl.
  destruct (put_near_cases c (nearest s) Hl) as [[Hlt ->]|(He & -> & _ & Hp)].
  - unfold zlen in *. unfold min_push. rewrite (Permutation_length (push_perm _ _ _)). cbn. lia.
  - apply Permutation_length in Hp. unfold zlen in *. cbn in Hp. lia.
Qed.

Lemma put_near_best s2 :
  nonan → (∀ y, marked s2 y ↔ marked s1 y) → nearest s2 = put_near c (nearest s) → kept_best s2.
Proof.
  intros Hn Hm2 Hnear. destruct (li_best s Hs Hn) as [Hh Hb].
  pose proof (items_real s (nearest s) Hn (li_near s Hs)) as Hr.
  assert (Hc : real c) by (unfold real; cbn; apply Hn).
  destruct (min_push_heap c (nearest s) Hc Hr Hh) as [Hh1 Hr1].
  pose proof (push_perm min_stop c (nearest s)) as Hpp. fold min_push in Hpp.
  unfold kept_best. rewrite Hnear.
  destruct (put_near_cases c (nearest s) (li_ef s Hs)) as [[Hlt ->]|(He & Hpe & Hne & Hp)].
  - split; [done|]. intros y [Hy| ->]%Hm2%Hm1; left; rewrite Hpp, fmap_cons; [right|by left].
    destruct (Hb y Hy) as [?|[? _]]; [done|lia].
  - destruct put_near_ef as [_ Hef]. specialize (Hef He). rewrite Hpe in *.
    split; [by apply min_pop_heap|].
    set (r := min_push c (nearest s) !!! 0%nat) in *.
    assert (Hroot : ∀ c', c' ∈ min_pop (min_push c (nearest s)) → below r c').
    { intros c' Hc'. apply min_heap_root; [done|]. rewrite Hpp, <- Hp. by right. }
    intros y Hy%Hm2. assert (Hin : y = in_ID r ∨ y ∈ in_ID <$> min_pop (min_push c (nearest s))
      ∨ ∀ c', c' ∈ nearest s → fle (score y) (in_Score c')).
    { apply Hm1 in Hy as [Hy| ->].
      - destruct (Hb y Hy) as [Hin|[_ ?]]; [|auto].
        assert (Hin' : y ∈ in_ID <$> (c :: nearest s)) by (rewrite fmap_cons; by right).
        rewrite <- Hp, fmap_cons in Hin'. apply elem_of_cons in Hin' as [?|?]; auto.
      - assert (Hin' : x ∈ in_ID <$> (c :: nearest s)) by (rewrite fmap_cons; by left).
        rewrite <- Hp, fmap_cons in Hin'. apply elem_of_cons in Hin' as [?|?]; auto. }
    assert (Hrs : in_Score r = score (in_ID r) ∧ (r = c ∨ r ∈ nearest s)).
    { assert (Hin' : r ∈ c :: nearest s) by (rewrite <- Hp; by left).
      apply elem_of_cons in Hin' as [->|Hin']; [auto|]. split; [|auto]. by apply (li_near s Hs). }
    destruct Hrs as [Hrs Hrc]. destruct Hin as [->|[?|Hlow]]; [|by left|].
    { right. split; [done|]. intros c' Hc'. rewrite <- Hrs. by apply Hroot. }
    right. split; [done|]. intros c' Hc'.
    assert (Hin' : c' ∈ c :: nearest s) by (rewrite <- Hp; by right).
    apply elem_of_cons in Hin' as [->|Hin']; [|by apply Hlow].
    destruct Hrc as [Hrc|Hrc].
    { exfalso. destruct (items_cons s (nearest s) x Hx (li_near s Hs) s1) as [Hnd _];
        [apply scored_mono|apply Hm1; auto|]. fold c in Hnd. rewrite <- Hp, Hrc, fmap_cons in Hnd.
      apply NoDup_cons in Hnd as [Hnd _]. apply Hnd, list_elem_of_fmap. by exists c. }
    eapply fle_trans; [by apply Hlow|]. by apply (Hroot c).
Qed.

(** The row is taken up as a candidate. *)
Lemma scored_push s2 :
  scratch_ok s2 → stamp s2 = stamp s1 → (∀ y, marked s2 y ↔ marked s1 y) →
  candidates s2 = max_push c (candidates s) → nearest s2 = put_near c (nearest s) → layer_inv s2.
Proof.
  intros Hok2 Hst Hm2 Hcand Hnear. split; [done|lia| | | | | |].
  - rewrite Hnear. eapply items_marked; [|apply put_near_items]. intros y. apply Hm2.
  - rewrite Hcand. eapply items_perm; [symmetry; apply push_perm|].
    apply (items_cons s); auto; [apply (li_cand s Hs)|intros; by apply Hm2, scored_mono|apply Hm2, Hm1; auto].
  - intros y Hy%Hm2. by apply scored_reach.
  - rewrite Hnear. apply put_near_ef.
  - intros Hb y Hy. rewrite Hnear. pose proof (scored_room Hb) as Hlt.
    destruct (put_near_cases c (nearest s) (li_ef s Hs)) as [[_ ->]|(He & _)]; [|lia].
    unfold min_push. rewrite push_perm, fmap_cons.
    apply Hm2, Hm1 in Hy as [Hy| ->]; [right; by apply (li_full s Hs)|by left].
  - intros Hn. by apply put_near_best.
Qed.

(** The row is passed over: the nearest are full and all better. *)
Lemma scored_skip :
  candidates s1 = candidates s → nearest s1 = nearest s → zlen (nearest s) = ef →
  SFltb (in_Score (nearest s !!! 0%nat)) (score x) = false → layer_inv s1.
Proof.
  intros Hcand Hnear Hfull Hlow. split; [done|done| | | | | |].
  - rewrite Hnear. eapply items_marked; [apply scored_mono|apply (li_near s Hs)].
  - rewrite Hcand. eapply items_marked; [apply scored_mono|apply (li_cand s Hs)].
  - apply scored_reach.
  - rewrite Hnear. lia.
  - intros Hb. pose proof (scored_room Hb). lia.
  - intros Hn. destruct (li_best s Hs Hn) as [Hh Hbest]. split; [by rewrite Hnear|].
    rewrite Hnear. intros y [Hy| ->]%Hm1; [by apply Hbest|]. right. split; [done|]. intros c' Hc'.
    assert (Hne : (0 < length (nearest s))%nat) by (unfold zlen in Hfull; lia).
    pose proof (items_real s _ Hn (li_near s Hs)) as Hr.
    pose proof (SFltb_fle (in_Score (nearest s !!! 0%nat)) (score x) (P_lookup real _ 0 Hr Hne) (Hn x)) as Hf.
    rewrite Hlow in Hf. eapply fle_trans; [exact Hf|]. by apply (min_heap_root (nearest s)).
Qed.
End Scored.

(** A buffer that only grew. *)
Lemma layer_inv_same s s1 :
  layer_inv s → scratch_ok s1 → stamp s1 = stamp s → (∀ y, marked s1 y ↔ marked s y) →
  candidates s1 = candidates s → nearest s1 = nearest s → layer_inv s1.
Proof.
  intros Hs Hok Hst Hm Hc Hn. split; [done|rewrite Hst; apply (li_stamp s Hs)| | | | | |].
  - rewrite Hn. eapply items_marked; [|apply (li_near s Hs)]. intros; by apply Hm.
  - rewrite Hc. eapply items_marked; [|apply (li_cand s Hs)]. intros; by apply Hm.
  - intros y Hy%Hm. by apply (li_reach s Hs).
  - rewrite Hn. apply (li_ef s Hs).
  - intros Hb y Hy%Hm. rewrite Hn. by apply (li_full s Hs).
  - intros Hnan. destruct (li_best s Hs Hnan) as [H1 H2]. split; [by rewrite Hn|].
    intros y Hy%Hm. rewrite Hn. by apply H2.
Qed.

(** Taking a candidate off. *)
Lemma layer_inv_pop s c cs :
  candidates s = c :: cs → layer_inv s → layer_inv (set_heaps (max_pop (candidates s)) (nearest s) s).
Proof.
  intros Hc Hs. destruct Hs as [H1 H2 H3 H4 H5 H6 H7 H8]. split; try done.
  eapply items_sub; [apply (pop_perm max_stop max_better); by rewrite Hc|exact H4].
Qed.

(** [nb] is scored, or was seen before. *)
Definition extends (nb : Z) (s s' : searchScratch) : Prop :=
  (∀ y, marked s' y ↔ marked s y ∨ (y = nb ∧ 0 ≤ nb)) ∧
  ((candidates s' = candidates s ∧ (bound → nb < 0 ∨ marked s nb)) ∨
   (¬ marked s nb ∧ 0 ≤ nb ∧ candidates s' ≡ₚ {| in_ID := nb; in_Score := score nb |} :: candidates s)).

Lemma visit_spec s nb :
  layer_inv s → reach nb → nb < 2 ^ 63 →
  layer_inv (visit score ef s nb) ∧ extends nb s (visit score ef s nb).
Proof.
  intros Hs Hr Hid. unfold visit.
  destruct (mark_spec nb s (li_ok s Hs) (li_stamp s Hs) Hid) as (Hseen & Hok & Hst & Hc & Hn & Hm).
  destruct (mark nb s) as [seen s1]. cbn [fst snd] in *. destruct seen.
  { assert (Hsame : ∀ y, marked s1 y ↔ marked s y).
    { intros y. rewrite Hm. split; [|auto]. intros [?|[-> ?]]; [done|].
      destruct (proj1 Hseen eq_refl); [lia|done]. }
    split; [by eapply layer_inv_same|]. split; [done|]. left. split; [done|]. intros _. by apply Hseen. }
  assert (Hfresh : ¬ marked s nb ∧ 0 ≤ nb).
  { split; [intros ?|destruct (Z.lt_ge_cases nb 0); [|done]]; (assert (false = true); [apply Hseen; auto|done]). }
  destruct Hfresh as [Hnm Hnn].
  assert (Hm' : ∀ y, marked s1 y ↔ marked s y ∨ y = nb).
  { intros y. rewrite Hm. split; intros [?|?]; auto. right. tauto. }
  rewrite Hn, Hc. destruct ((zlen (nearest s) <? ef) || _) eqn:E.
  - split.
    + apply (scored_push s s1 nb); auto. rewrite Hst. apply (li_stamp s Hs).
    + split; [done|]. right. split; [done|]. split; [done|]. apply push_perm.
  - apply orb_false_iff in E as [E1%Z.ltb_ge E2]. pose proof (li_ef s Hs). split.
    + apply (scored_skip s s1 nb); auto; [rewrite Hst; apply (li_stamp s Hs)|lia].
    + split; [done|]. left. split; [done|]. intros Hb. exfalso.
      pose proof (scored_room s s1 nb Hs Hnm Hr Hm' Hb). lia.
Qed.

(** Rounds left: the candidates, and the targets of the layer not yet seen. *)
Variable U : list Z.
Definition measure (s : searchScratch) : nat :=
  length (candidates s) + length (filter (λ x, ¬ marked s x) U).

Lemma unmarked_le (l : list Z) (P Q : Z → Prop) `{∀ x, Decision (P x), ∀ x, Decision (Q x)} :
  (∀ x, P x → Q x) → (length (filter P l) ≤ length (filter Q l))%nat.
Proof.
  intros HPQ. induction l as [|x l IH]; [done|]. rewrite !filter_cons.
  repeat case_decide; cbn; try lia. exfalso. auto.
Qed.

Lemma unmarked_lt (l : list Z) (P Q : Z → Prop) `{∀ x, Decision (P x), ∀ x, Decision (Q x)} z :
  (∀ x, P x → Q x) → z ∈ l → Q z → ¬ P z → (length (filter P l) < length (filter Q l))%nat.
Proof.
  intros HPQ Hz HQ HP. induction l as [|x l IH]; [by apply not_elem_of_nil in Hz|].
  rewrite !filter_cons. apply elem_of_cons in Hz as [<-|Hz].
  - rewrite decide_False, decide_True by done. cbn. pose proof (unmarked_le l P Q HPQ). lia.
  - specialize (IH Hz). repeat case_decide; cbn; try lia. exfalso. auto.
Qed.

Lemma extends_measure nb s s' : nb ∈ U → extends nb s s' → (measure s' ≤ measure s)%nat.
Proof.
  intros HU [Hm Hcase]. unfold measure. destruct Hcase as [[-> _]|(Hnm & Hnn & Hp)].
  - apply Nat.add_le_mono_l, unmarked_le. intros x Hx Hy. apply Hx, Hm. auto.
  - rewrite Hp. cbn. rewrite <- Nat.add_succ_r. apply Nat.add_le_mono_l.
    apply (unmarked_lt _ _ _ nb); [|done..|]; [intros x Hx Hy; apply Hx, Hm; auto|].
    intros Hx. apply Hx, Hm. auto.
Qed.

Lemma visits_spec nbs s :
  layer_inv s → (∀ nb, nb ∈ nbs → reach nb ∧ nb < 2 ^ 63 ∧ nb ∈ U) →
  let s' := foldl (visit score ef) s nbs in
  layer_inv s' ∧ (measure s' ≤ measure s)%nat ∧
  (∀ y, marked s' y ↔ marked s y ∨ (y ∈ nbs ∧ 0 ≤ y)) ∧
  (∀ y, y ∈ in_ID <$> candidates s → y ∈ in_ID <$> candidates s') ∧
  (bound → ∀ y, marked s' y → marked s y ∨ y ∈ in_ID <$> candidates s').
Proof.
  revert s. induction nbs as [|nb nbs IH]; intros s Hs Hnbs; cbn [foldl].
  { conjs; auto. intros y. split; [auto|]. by intros [?|[?%not_elem_of_nil _]]. }
  destruct (Hnbs nb ltac:(by left)) as (Hr & Hid & HU).
  destruct (visit_spec s nb Hs Hr Hid) as [Hs1 Hx]. pose proof (extends_measure nb s _ HU Hx) as Hmeas.
  destruct Hx as [Hm Hcase]. set (s1 := visit score ef s nb) in *.
  destruct (IH s1 Hs1 ltac:(intros; apply Hnbs; by right)) as (H1 & H2 & H3 & H4 & H5).
  assert (Hsub : ∀ y, y ∈ in_ID <$> candidates s → y ∈ in_ID <$> candidates s1).
  { intros y Hy. destruct Hcase as [[-> _]|(_ & _ & ->)]; [done|]. rewrite fmap_cons. by right. }
  conjs; [done|lia| |auto|].
  - intros y. rewrite H3, Hm, elem_of_cons. split; [intros [[?|[-> ?]]|[? ?]]; auto|intros [?|[[->|?] ?]]; auto].
  - intros Hb y Hy. destruct (H5 Hb y Hy) as [Hy1|?]; [|auto]. apply Hm in Hy1 as [?|[-> Hnn]]; [auto|].
    destruct Hcase as [[_ Hcase]|(_ & _ & Hp)].
    + destruct (Hcase Hb); [lia|auto].
    + right. apply H4. rewrite Hp, fmap_cons. by left.
Qed.

(** ** The loop over the candidates *)
Hypothesis edge_ids : ∀ a b, edge a b → 0 ≤ b < 2 ^ 63 ∧ b ∈ U.

(** With room for every row, a row that is no longer a candidate has had its
    edges followed. *)
Definition closed (s : searchScratch) : Prop :=
  ∀ x, marked s x → x ∈ in_ID <$> candidates s ∨ ∀ y, edge x y → marked s y.

Lemma reach_edge x y : reach x → edge x y → reach y.
Proof. intros (ep & H1 & H2 & H3) He. exists ep. split; [done|]. split; [done|]. by eapply rtc_r. Qed.

Definition entered (s : searchScratch) : Prop := ∀ ep, ep ∈ eps → is_Some (node g ep) → marked s ep.

Lemma near_all_done s :
  layer_inv s → entered s → bound → candidates s = [] → closed s → ∀ x, reach x → x ∈ in_ID <$> nearest s.
Proof.
  intros Hs He Hb Hc Hcl x (ep & Hin & Hsome & Hr). apply (li_full s Hs Hb).
  assert (Hm : marked s ep) by (by apply He). clear Hin Hsome. induction Hr as [|a b c Hab _ IH]; [done|].
  apply IH. destruct (Hcl a Hm) as [Hx|Hx]; [rewrite Hc in Hx; by apply not_elem_of_nil in Hx|auto].
Qed.

Lemma near_all_full s :
  layer_inv s → bound → ef ≤ zlen (nearest s) → ∀ x, reach x → x ∈ in_ID <$> nearest s.
Proof.
  intros Hs (R & HR & Hin) Hfull x Hx. destruct (li_near s Hs) as [Hnd Hall].
  assert (Hsub : in_ID <$> nearest s ⊆+ R).
  { apply NoDup_submseteq; [done|]. intros y (c & -> & Hc)%list_elem_of_fmap.
    apply Hin, (li_reach s Hs). by apply Hall. }
  apply submseteq_length_Permutation in Hsub as ->; [by apply Hin|]. rewrite length_fmap. unfold zlen in *. lia.
Qed.

Lemma layer_loop_spec fuel s :
  layer_inv s → entered s → (bound → closed s) → (measure s ≤ fuel)%nat →
  ∃ s', layer_loop g score ef lc fuel s = Some s' ∧ layer_inv s' ∧ entered s' ∧
    (bound → ∀ x, reach x → x ∈ in_ID <$> nearest s').
Proof.
  revert s. induction fuel as [|fuel IH]; intros s Hs He Hcl Hf; cbn [layer_loop];
    (destruct (candidates s) as [|c cs] eqn:Ec;
      [exists s; split; [done|]; split; [done|]; split; [done|]; intros Hb; apply near_all_done; auto|]).
  { unfold measure in Hf. rewrite Ec in Hf. cbn in Hf. lia. }
  rewrite <- Ec. set (s1 := set_heaps (max_pop (candidates s)) (nearest s) s).
  assert (Hs1 : layer_inv s1) by (by eapply layer_inv_pop).
  assert (Hp : c :: candidates s1 ≡ₚ candidates s).
  { pose proof (pop_perm max_stop max_better (candidates s)) as Hp. rewrite Ec in Hp. specialize (Hp ltac:(done)).
    rewrite Ec. subst s1. cbn. rewrite Ec. exact Hp. }
  assert (Hmeas : (measure s1 < measure s)%nat).
  { unfold measure. rewrite <- Hp. cbn. apply Nat.lt_succ_diag_r. }
  destruct ((zlen (nearest s1) >=? ef) && _) eqn:E.
  { exists s1. split; [done|]. split; [done|]. split; [done|]. intros Hb. apply near_all_full; auto.
    apply andb_prop in E as [E%Z.geb_le _]. done. }
  destruct (li_cand s Hs) as [_ Hcand]. destruct (Hcand c ltac:(rewrite Ec; by left)) as [Hmc _].
  assert (Hc1 : ∀ x, x ∈ in_ID <$> candidates s → x = in_ID c ∨ x ∈ in_ID <$> candidates s1).
  { intros x. rewrite <- Hp, fmap_cons. intros [->|?]%elem_of_cons; auto. }
  set (nbs := match node g (in_ID c) with Some n => default [] (Edges n !! lc) | None => [] end).
  destruct (visits_spec nbs s1 Hs1) as (H1 & H2 & H3 & H4 & H5).
  { intros nb Hnb. assert (edge (in_ID c) nb) as Hed by done. destruct (edge_ids _ _ Hed).
    split; [|split; [lia|done]]. eapply reach_edge; [by apply (li_reach s Hs)|done]. }
  assert (Hrec : layer_loop g score ef lc fuel (foldl (visit score ef) s1 nbs) =
    match node g (in_ID c) with
    | Some n => layer_loop g score ef lc fuel (foldl (visit score ef) s1 (default [] (Edges n !! lc)))
    | None => layer_loop g score ef lc fuel s1
    end) by (subst nbs; by destruct (node g (in_ID c))).
  rewrite <- Hrec. apply IH; [done| | |lia].
  - intros ep Hep Hsome. apply H3. left. by apply He.
  - intros Hb x Hx. destruct (H5 Hb x Hx) as [Hx1|?]; [|auto].
    destruct (Hcl Hb x Hx1) as [[->|?]%Hc1|Hex]; [right|left; by apply H4|].
    + intros y Hy. apply H3. right. split; [done|]. apply edge_ids in Hy. lia.
    + right. intros y Hy. apply H3. left. by apply Hex.
Qed.

(** ** The entry points *)
Hypothesis eps_ids : ∀ ep, ep ∈ eps → is_Some (node g ep) → 0 ≤ ep < 2 ^ 63.

Lemma enter_spec s ep :
  layer_inv s → ep ∈ eps → zlen (nearest s) < ef →
  (∀ x, marked s x → x ∈ in_ID <$> candidates s) →
  let s' := enter g score s ep in
  layer_inv s' ∧ (is_Some (node g ep) → marked s' ep) ∧ (∀ x, marked s x → marked s' x) ∧
  (∀ x, marked s' x → x ∈ in_ID <$> candidates s') ∧
  (length (candidates s') ≤ S (length (candidates s)))%nat ∧ zlen (nearest s') ≤ zlen (nearest s) + 1.
Proof.
  intros Hs Hep Hroom Hall s'. subst s'. unfold enter. destruct (node g ep) as [n|] eqn:En.
  2: { conjs; auto; [by intros []|lia]. }
  destruct (eps_ids ep Hep ltac:(by rewrite En)) as [Hnn Hid].
  assert (Hr : reach ep) by (exists ep; split; [done|]; split; [by rewrite En|apply rtc_refl]).
  destruct (mark_spec ep s (li_ok s Hs) (li_stamp s Hs) Hid) as (Hseen & Hok & Hst & Hc & Hn & Hm).
  destruct (mark ep s) as [seen s1]. cbn [fst snd] in *. destruct seen.
  { assert (Hme : marked s ep) by (destruct (proj1 Hseen eq_refl); [lia|done]).
    assert (Hsame : ∀ y, marked s1 y ↔ marked s y).
    { intros y. rewrite Hm. split; [|auto]. by intros [?|[-> ?]]. }
    rewrite Hc, Hn. conjs; [by eapply layer_inv_same|intros _; by apply Hsame|intros; by apply Hsame| |lia|lia].
    intros x Hx%Hsame. auto. }
  assert (Hnm : ¬ marked s ep) by (intros ?; assert (false = true); [apply Hseen; auto|done]).
  assert (Hm' : ∀ y, marked s1 y ↔ marked s y ∨ y = ep).
  { intros y. rewrite Hm. split; intros [?|?]; auto. right. tauto. }
  rewrite Hc, Hn. set (c := {| in_ID := ep; in_Score := score ep |}).
  assert (Hput : min_push c (nearest s) = put_near c (nearest s)).
  { destruct (put_near_cases c (nearest s) (li_ef s Hs)) as [[_ ->]|[? _]]; [done|lia]. }
  pose proof (push_perm max_stop c (candidates s)) as Hpc. fold max_push in Hpc.
  pose proof (push_perm min_stop c (nearest s)) as Hpn. fold min_push in Hpn.
  conjs.
  - rewrite Hput. apply (scored_push s s1 ep); auto. rewrite Hst. apply (li_stamp s Hs).
  - intros _. apply Hm'. auto.
  - intros x Hx. apply Hm'. auto.
  - cbn. intros x Hx. rewrite Hpc, fmap_cons. apply Hm' in Hx as [?| ->]; [right; auto|by left].
  - cbn. by rewrite Hpc.
  - cbn. unfold zlen. rewrite Hpn. cbn. lia.
Qed.

Lemma enters_spec l s :
  layer_inv s → (∀ ep, ep ∈ l → ep ∈ eps) → zlen (nearest s) + zlen l ≤ ef →
  (∀ x, marked s x → x ∈ in_ID <$> candidates s) →
  let s' := foldl (enter g score) s l in
  layer_inv s' ∧ (∀ ep, ep ∈ l → is_Some (node g ep) → marked s' ep) ∧ (∀ x, marked s x → marked s' x) ∧
  (∀ x, marked s' x → x ∈ in_ID <$> candidates s') ∧
  (length (candidates s') ≤ length (candidates s) + length l)%nat.
Proof.
  revert s. induction l as [|ep l IH]; intros s Hs Hl Hroom Hall; cbn [foldl].
  { conjs; auto; [by intros ? ?%not_elem_of_nil|cbn; lia]. }
  unfold zlen in Hroom. cbn in Hroom.
  destruct (enter_spec s ep Hs ltac:(apply Hl; by left) ltac:(unfold zlen; lia) Hall)
    as (H1 & H2 & H3 & H4 & H5 & H6). set (s1 := enter g score s ep) in *.
  destruct (IH s1 H1 ltac:(intros; apply Hl; by right) ltac:(unfold zlen in *; lia) H4) as (G1 & G2 & G3 & G4 & G5).
  conjs; [done| |auto|done|cbn; lia].
  intros ep' [->|Hin]%elem_of_cons Hsome; auto.
Qed.

(** A buffer right after [reset]. *)
Definition fresh_scratch (s : searchScratch) : Prop :=
  scratch_ok s ∧ 0 < stamp s ∧ (∀ id, ¬ marked s id) ∧ candidates s = [] ∧ nearest s = [].

Lemma fresh_inv s : fresh_scratch s → layer_inv s.
Proof.
  intros (H1 & H2 & H3 & H4 & H5). split; [done|done| | | | | |].
  - rewrite H5. split; [constructor|]. by intros ? ?%not_elem_of_nil.
  - rewrite H4. split; [constructor|]. by intros ? ?%not_elem_of_nil.
  - intros x Hx. by destruct (H3 x).
  - rewrite H5. unfold zlen. cbn. lia.
  - intros _ x Hx. by destruct (H3 x).
  - intros _. split; [rewrite H5; apply heap_ok_nil|]. intros x Hx. by destruct (H3 x).
Qed.

(** What one search of a layer finds, before the filter. *)
Definition found (near : list intNode) : Prop :=
  NoDup (in_ID <$> near) ∧ zlen near ≤ ef ∧
  (∀ c, c ∈ near → reach (in_ID c) ∧ 0 ≤ in_ID c ∧ in_Score c = score (in_ID c)) ∧
  (bound → ∀ x, reach x → x ∈ in_ID <$> near) ∧
  (nonan → ∀ ep, ep ∈ eps → is_Some (node g ep) →
     ep ∈ in_ID <$> near ∨ (zlen near = ef ∧ ∀ c, c ∈ near → fle (score ep) (in_Score c))).

Lemma shrink_id fuel h : zlen h ≤ ef → shrink ef fuel h = h.
Proof. intros Hl. destruct fuel; cbn [shrink]; [done|]. by destruct (Z.gtb_spec (zlen h) ef); [lia|]. Qed.

Lemma drain_perm fuel f h :
  (length h ≤ fuel)%nat →
  drain fuel f h ≡ₚ filter (λ c, passes f c = true) h.
Proof.
  revert h. induction fuel as [|fuel IH]; intros h Hl; [destruct h; [done|cbn in Hl; lia]|].
  destruct h as [|c h]; [done|]. cbn [drain].
  pose proof (pop_perm min_stop min_better (c :: h) ltac:(done)) as Hp. fold min_pop in Hp.
  change ((c :: h) !!! 0%nat) with c in Hp.
  pose proof (Permutation_length Hp) as Hlp. cbn in Hlp, Hl.
  transitivity (filter (λ c, passes f c = true) (c :: min_pop (c :: h))); [|by rewrite Hp].
  rewrite filter_cons.
  assert (Hrest : drain fuel f (min_pop (c :: h)) ≡ₚ filter (λ c, passes f c = true) (min_pop (c :: h)))
    by (apply IH; lia).
  destruct f as [f|]; [cbn [passes]; destruct (f (in_ID c)) eqn:E|];
    [rewrite decide_True by done|rewrite decide_False by done|rewrite decide_True by done]; by rewrite Hrest.
Qed.

Lemma search_found s filter_ fuel :
  fresh_scratch s → zlen eps ≤ ef → (length eps + length U ≤ fuel)%nat →
  ∃ near, found near ∧
    let s0 := foldl (enter g score) s eps in
    let s1 := set_heaps (candidates s0) (shrink ef (length (nearest s0)) (nearest s0)) s0 in
    ∃ s', layer_loop g score ef lc fuel s1 = Some s' ∧ nearest s' = near ∧ scratch_ok s' ∧
    drain (length near) filter_ near
      ≡ₚ filter (λ c, passes filter_ c = true) near.
Proof.
  intros Hfr Heps Hfuel. destruct (enters_spec eps s (fresh_inv s Hfr) ltac:(done)) as (H1 & H2 & _ & H4 & H5).
  { destruct Hfr as (_ & _ & _ & _ & ->). unfold zlen in *. cbn. lia. }
  { intros x Hx. by destruct (proj1 (proj2 (proj2 Hfr)) x). }
  cbv zeta. set (s0 := foldl (enter g score) s eps) in *.
  rewrite (shrink_id _ _ (li_ef s0 H1)).
  assert (Hs0 : set_heaps (candidates s0) (nearest s0) s0 = s0) by (by destruct s0). rewrite Hs0.
  destruct (layer_loop_spec fuel s0 H1) as (s' & Hloop & Hs' & He' & Hfull).
  - intros ep Hep. auto.
  - intros _ x Hx. auto.
  - unfold measure. destruct Hfr as (_ & _ & _ & Hc & _). rewrite Hc in H5. cbn in H5.
    pose proof (length_filter (λ x, ¬ marked s0 x) U). lia.
  - exists (nearest s'). split; [|exists s'; split; [done|]; split; [done|]; split; [apply (li_ok s' Hs')|by apply drain_perm]].
    destruct (li_near s' Hs') as [Hnd Hall]. unfold found. conjs; [done|apply (li_ef s' Hs')| |done|].
    + intros c Hc. destruct (Hall c Hc) as [Hm ?]. split; [by apply (li_reach s' Hs')|]. split; [apply Hm|done].
    + intros Hn ep Hep Hsome. apply (li_best s' Hs' Hn). by apply He'.
Qed.
End LayerInv.

(** ** One layer *)

(** Rows are non-negative machine integers, on nodes and on edges. *)
Definition ids_ok (g : HNSWGraph) : Prop :=
  ∀ id n, node g id = Some n → 0 ≤ id < 2 ^ 63 ∧ ∀ lc l, Edges n !! lc = Some l → ∀ nb, nb ∈ l → 0 ≤ nb < 2 ^ 63.

Definition targets (g : HNSWGraph) (lc : Z) : list Z :=
  mjoin ((λ p, default [] (Edges p.2 !! lc)) <$> map_to_list (Nodes g)).

Lemma edge_targets g lc a b : ids_ok g → edge g lc a b → 0 ≤ b < 2 ^ 63 ∧ b ∈ targets g lc.
Proof.
  unfold edge, edges_at, node. intros Hok Hb. destruct (Nodes g !! a) as [n|] eqn:En; [|by apply not_elem_of_nil in Hb].
  destruct (Edges n !! lc) as [l|] eqn:El; [|by apply not_elem_of_nil in Hb]. cbn in Hb. split.
  - by apply (proj2 (Hok a n En) lc l El).
  - apply list_elem_of_join. exists l. split; [done|]. apply list_elem_of_fmap. exists (a, n).
    cbn. rewrite El. split; [done|]. by apply elem_of_map_to_list.
Qed.

Lemma length_targets g lc :
  length (targets g lc) = sum_list_with (λ p, length (default [] (Edges p.2 !! lc))) (map_to_list (Nodes g)).
Proof.
  unfold targets. induction (map_to_list (Nodes g)) as [|p l IH]; [done|].
  rewrite fmap_cons. cbn [mjoin list_join sum_list_with]. rewrite length_app. f_equal. exact IH.
Qed.

(** What [searchLayer] answers is what it found, filtered and sorted; it ends
    for every graph. *)
Lemma searchLayer_spec g score eps ef lc f s :
  ids_ok g → fresh_scratch s → zlen eps ≤ Z.max 1 ef →
  ∃ near, found g score (Z.max 1 ef) lc eps near ∧
    let r := searchLayer g score eps ef lc f s in
    fst r ≡ₚ filter (λ c, passes f c = true) near ∧ StronglySorted by_score_desc (fst r) ∧ scratch_ok (snd r).
Proof.
  intros Hok Hfr Hl. unfold searchLayer. replace (if ef <? 1 then 1 else ef) with (Z.max 1 ef) by (destruct (Z.ltb_spec ef 1); lia).
  destruct (search_found g score (Z.max 1 ef) lc eps ltac:(lia) (targets g lc)
    (λ a b, edge_targets g lc a b Hok) ltac:(intros ep Hep [n Hn]; by apply (Hok ep n)) s f
    (search_fuel g lc eps) Hfr Hl) as (near & Hf & s' & Hloop & Hn & Hsc & Hd).
  { unfold search_fuel. rewrite <- length_targets. lia. }
  exists near. split; [done|]. cbv zeta in Hloop |- *. rewrite Hloop, Hn. split; [|split].
  - cbn. by rewrite merge_sort_Permutation.
  - apply StronglySorted_merge_sort; apply _.
  - done.
Qed.

(** ** The graph *)
Definition layer_of (g : HNSWGraph) (id : Z) : option Z := Layer <$> node g id.
(** [id] is a node that reaches up to layer [lc]. *)
Definition on_layer (g : HNSWGraph) (lc id : Z) : Prop := ∃ L, layer_of g id = Some L ∧ lc ≤ L.

Definition max_edges (lc : Z) : Z := if lc =? 0 then M0 * 2 else M.
Definition edges_wf (g : HNSWGraph) (id layer lc : Z) (l : list Z) : Prop :=
  0 ≤ lc ≤ layer ∧ zlen l ≤ max_edges lc ∧ NoDup l ∧ ∀ nb, nb ∈ l → nb ≠ id ∧ on_layer g lc nb.
Definition node_wf (g : HNSWGraph) (id : Z) (n : Node) : Prop :=
  node_ID n = id ∧ 0 ≤ id < 2 ^ 63 ∧ 0 ≤ Layer n ≤ 64 ∧
  ∀ lc l, Edges n !! lc = Some l → edges_wf g id (Layer n) lc l.
Definition nodes_wf (g : HNSWGraph) : Prop := ∀ id n, node g id = Some n → node_wf g id n.

Record graph_wf (g : HNSWGraph) : Prop := {
  gw_nodes : nodes_wf g;
  gw_size : Size g = Z.of_nat (size (Nodes g));
  gw_entry : (Nodes g = ∅ ∧ EntryPoint g = -1 ∧ MaxLayer g = -1) ∨ layer_of g (EntryPoint g) = Some (MaxLayer g);
  gw_top : ∀ id L, layer_of g id = Some L → L ≤ MaxLayer g
}.

Lemma layer_of_node g id L : layer_of g id = Some L → ∃ n, node g id = Some n ∧ Layer n = L.
Proof. unfold layer_of. intros (n & -> & ->)%fmap_Some. eauto. Qed.

Lemma on_layer_ids g lc id : nodes_wf g → on_layer g lc id → 0 ≤ id < 2 ^ 63.
Proof. intros Hg (L & (n & Hn & _)%layer_of_node & _). by destruct (Hg id n Hn) as (_ & ? & _). Qed.

Lemma nodes_ids g : nodes_wf g → ids_ok g.
Proof.
  intros Hg id n Hn. destruct (Hg id n Hn) as (_ & Hid & _ & He). split; [done|].
  intros lc l Hl nb Hnb. destruct (He lc l Hl) as (_ & _ & _ & Ht). by eapply on_layer_ids, Ht.
Qed.

Lemma edge_layer g lc a b : nodes_wf g → edge g lc a b → on_layer g lc b.
Proof.
  unfold edge, edges_at. intros Hg Hb. destruct (node g a) as [n|] eqn:En; [|by apply not_elem_of_nil in Hb].
  destruct (Edges n !! lc) as [l|] eqn:El; [|by apply not_elem_of_nil in Hb].
  destruct (Hg a n En) as (_ & _ & _ & He). by apply (He lc l El).
Qed.

Lemma reach_layer g lc eps x :
  nodes_wf g → (∀ ep, ep ∈ eps → on_layer g lc ep) → reach g lc eps x → on_layer g lc x.
Proof.
  intros Hg Heps (ep & Hin & _ & Hr). assert (Hep : on_layer g lc ep) by auto. clear Hin.
  induction Hr as [|a b c Hab _ IH]; [done|]. by eapply IH, edge_layer.
Qed.

(** The shape of a graph: its nodes with their layers, and its scalar fields. *)
Definition same_shape (g g' : HNSWGraph) : Prop :=
  (∀ id, layer_of g' id = layer_of g id) ∧ byID_len g' = byID_len g ∧ EntryPoint g' = EntryPoint g ∧
  MaxLayer g' = MaxLayer g ∧ Size g' = Size g ∧ EfSearch g' = EfSearch g.

Lemma same_shape_refl g : same_shape g g.
Proof. done. Qed.
Lemma same_shape_trans g1 g2 g3 : same_shape g1 g2 → same_shape g2 g3 → same_shape g1 g3.
Proof. unfold same_shape. intros (H1 & ?) (H2 & ?). split; [intros id; by rewrite H2|]. intuition congruence. Qed.

Lemma on_layer_shape g g' lc id : same_shape g g' → on_layer g lc id ↔ on_layer g' lc id.
Proof. intros [H _]. unfold on_layer. by rewrite H. Qed.

Lemma edges_wf_shape g g' id L lc l : same_shape g g' → edges_wf g id L lc l → edges_wf g' id L lc l.
Proof.
  intros Hs (H1 & H2 & H3 & H4). split; [done|]. split; [done|]. split; [done|]. intros nb Hnb.
  destruct (H4 nb Hnb). split; [done|]. by apply (on_layer_shape g).
Qed.

(** Replacing the edges of one layer of one node. *)
Lemma set_edges_shape F lc id g : same_shape g (set_Nodes (alter (λ n, set_edges lc (F n) n) id) g).
Proof.
  split; [|done]. intros id'. unfold layer_of, node, set_Nodes. cbn. destruct (decide (id' = id)) as [->|].
  - rewrite lookup_alter_eq. by destruct (Nodes g !! id).
  - by rewrite lookup_alter_ne.
Qed.

Lemma set_edges_wf F lc id g :
  nodes_wf g → (∀ n, node g id = Some n → edges_wf g id (Layer n) lc (F n)) →
  nodes_wf (set_Nodes (alter (λ n, set_edges lc (F n) n) id) g).
Proof.
  intros Hg HF id' n' Hn'. pose proof (set_edges_shape F lc id g) as Hs.
  set (g' := set_Nodes _ g) in *. unfold node in Hn'. subst g'. unfold set_Nodes in Hn'. cbn in Hn'.
  destruct (decide (id' = id)) as [->|Hne].
  - rewrite lookup_alter_eq in Hn'. apply fmap_Some in Hn' as (n & Hn & ->).
    destruct (Hg id n Hn) as (H1 & H2 & H3 & H4). split; [done|]. split; [done|]. split; [done|].
    intros lc' l. cbn. rewrite lookup_insert. case_decide as Hlc.
    + intros [= <-]. subst lc'. by eapply edges_wf_shape, HF.
    + intros Hl. by eapply edges_wf_shape, H4.
  - rewrite lookup_alter_ne in Hn' by done. destruct (Hg id' n' Hn') as (H1 & H2 & H3 & H4).
    split; [done|]. split; [done|]. split; [done|]. intros lc' l Hl. by eapply edges_wf_shape, H4.
Qed.

(** *** Neighbour lists *)
Lemma insertNeighborID_spec nscore owner edges cand limit :
  NoDup edges → 0 ≤ limit →
  let r := insertNeighborID nscore owner edges cand limit in
  NoDup r ∧ zlen r ≤ Z.max (zlen edges) limit ∧ (∀ x, x ∈ r → x ∈ edges ∨ (x = cand ∧ cand ≠ owner)) ∧
  (cand ≠ owner → zlen edges < limit → cand ∈ r ∧ ∀ x, x ∈ edges → x ∈ r).
Proof.
  intros Hnd Hlim r. subst r. unfold insertNeighborID. destruct (Z.eqb_spec cand owner) as [->|Hne].
  { conjs; auto; [lia|]. by intros []. }
  case_bool_decide as Hin. { conjs; auto. lia. }
  set (p := sort_Search _ _).
  assert (Hperm : take p edges ++ cand :: drop p edges ≡ₚ cand :: edges).
  { rewrite <- Permutation_middle, take_drop. done. }
  assert (Hnd' : NoDup (take p edges ++ cand :: drop p edges)).
  { rewrite Hperm. by apply NoDup_cons. }
  assert (Hlen : zlen (take p edges ++ cand :: drop p edges) = zlen edges + 1).
  { unfold zlen. rewrite (Permutation_length Hperm). cbn. lia. }
  destruct ((zlen edges >=? limit) && _) eqn:E.
  { conjs; auto; [lia|]. intros _ Hlt. apply andb_prop in E as [E%Z.geb_le _]. lia. }
  destruct (Z.gtb_spec (zlen (take p edges ++ cand :: drop p edges)) limit) as [Hgt|Hle].
  - conjs.
    + eapply sublist_NoDup; [exact Hnd'|apply sublist_take].
    + unfold zlen. rewrite length_take. lia.
    + intros x Hx. apply elem_of_take in Hx as (i & Hx%list_elem_of_lookup_2 & _).
      rewrite Hperm in Hx. apply elem_of_cons in Hx as [->|?]; auto.
    + intros _ Hlt. lia.
  - conjs; [done|lia| |].
    + intros x Hx. rewrite Hperm in Hx. apply elem_of_cons in Hx as [->|?]; auto.
    + intros _ _. split; [rewrite Hperm; by left|]. intros x Hx. rewrite Hperm. by right.
Qed.

Lemma select_loop_spec row limit cs acc :
  NoDup acc → row ∉ acc → zlen acc < limit →
  let r := select_loop row limit cs acc in
  NoDup r ∧ (row ∉ r) ∧ zlen r ≤ limit ∧ (∀ x, x ∈ r → x ∈ acc ∨ x ∈ in_ID <$> cs) ∧
  (∀ x, x ∈ acc → x ∈ r) ∧
  (zlen r < limit → ∀ x, x ∈ in_ID <$> cs → x ≠ row → x ∈ r).
Proof.
  revert acc. induction cs as [|c cs IH]; intros acc Hnd Hrow Hlen; cbn [select_loop]; cbv zeta.
  { conjs; auto; [lia|]. by intros _ x ?%not_elem_of_nil. }
  destruct (Z.eqb_spec (in_ID c) row) as [E|Hne].
  { destruct (IH acc Hnd Hrow Hlen) as (H1 & H2 & H3 & H4 & H5 & H6). conjs; auto.
    - intros x Hx. destruct (H4 x Hx); [auto|]. right. rewrite fmap_cons. by right.
    - intros Hlt x Hx Hxr. rewrite fmap_cons in Hx. apply elem_of_cons in Hx as [->|?]; [done|auto]. }
  case_bool_decide as Hin.
  { destruct (IH acc Hnd Hrow Hlen) as (H1 & H2 & H3 & H4 & H5 & H6). conjs; auto.
    - intros x Hx. destruct (H4 x Hx); [auto|]. right. rewrite fmap_cons. by right.
    - intros Hlt x Hx Hxr. rewrite fmap_cons in Hx. apply elem_of_cons in Hx as [->|?]; auto. }
  assert (Hnd' : NoDup (acc ++ [in_ID c])).
  { rewrite Permutation_app_comm. by apply NoDup_cons. }
  assert (Hrow' : row ∉ acc ++ [in_ID c]).
  { rewrite elem_of_app. intros [?|[->|[]%not_elem_of_nil]%elem_of_cons]; done. }
  assert (Hlen' : zlen (acc ++ [in_ID c]) = zlen acc + 1) by (rewrite zlen_app; done).
  destruct (Z.eqb_spec (zlen (acc ++ [in_ID c])) limit) as [E|E].
  { conjs; auto; [lia| | |lia].
    - intros x [?|[->|[]%not_elem_of_nil]%elem_of_cons]%elem_of_app; [auto|]. right. rewrite fmap_cons. by left.
    - intros x Hx. apply elem_of_app. auto. }
  destruct (IH (acc ++ [in_ID c]) Hnd' Hrow' ltac:(lia)) as (H1 & H2 & H3 & H4 & H5 & H6). conjs; auto.
  - intros x Hx. rewrite fmap_cons. destruct (H4 x Hx) as [[?|[->|[]%not_elem_of_nil]%elem_of_cons]%elem_of_app|?];
      [auto|right; by left|right; by right].
  - intros x Hx. apply H5, elem_of_app. auto.
  - intros Hlt x Hx Hxr. rewrite fmap_cons in Hx. apply elem_of_cons in Hx as [->|?]; [|auto].
    apply H5, elem_of_app. right. by left.
Qed.

(** *** One layer of an insertion *)
Section InsertWf.
Variable nscore : Z → Z → single.

Lemma link_wf row lc g nb :
  nodes_wf g → on_layer g lc row → on_layer g lc nb → 0 ≤ lc → nb ≠ row →
  let g' := link nscore row lc (max_edges lc) g nb in
  nodes_wf g' ∧ same_shape g g'.
Proof.
  intros Hg Hrow Hnb Hlc Hne g'. split; [|apply set_edges_shape].
  apply set_edges_wf; [done|]. intros n Hn. destruct (Hg nb n Hn) as (_ & _ & HL & He).
  assert (HLn : lc ≤ Layer n).
  { destruct Hnb as (L & (n' & Hn' & <-)%layer_of_node & ?). congruence. }
  assert (Hold : NoDup (default [] (Edges n !! lc)) ∧ zlen (default [] (Edges n !! lc)) ≤ max_edges lc ∧
    ∀ x, x ∈ default [] (Edges n !! lc) → x ≠ nb ∧ on_layer g lc x).
  { destruct (Edges n !! lc) as [l|] eqn:El; cbn.
    - destruct (He lc l El) as (_ & ? & ? & ?). auto.
    - split; [constructor|]. split; [unfold max_edges, M0, M; case_match; done|]. by intros x ?%not_elem_of_nil. }
  destruct Hold as (Hnd & Hlen & Hall).
  assert (Hlim : 0 ≤ max_edges lc) by (unfold max_edges, M0, M; case_match; lia).
  destruct (insertNeighborID_spec nscore nb _ row (max_edges lc) Hnd Hlim) as (H1 & H2 & H3 & _).
  split; [lia|]. split; [lia|]. split; [done|].
  intros x Hx. destruct (H3 x Hx) as [?|[-> ?]]; auto.
Qed.

Lemma links_wf row lc nbs g :
  nodes_wf g → on_layer g lc row → 0 ≤ lc → (∀ nb, nb ∈ nbs → on_layer g lc nb ∧ nb ≠ row) →
  let g' := foldl (link nscore row lc (max_edges lc)) g nbs in
  nodes_wf g' ∧ same_shape g g'.
Proof.
  revert g. induction nbs as [|nb nbs IH]; intros g Hg Hrow Hlc Hnbs; cbn [foldl]; [by split|].
  destruct (Hnbs nb ltac:(by left)) as [Hnb Hne].
  destruct (link_wf row lc g nb Hg Hrow Hnb Hlc Hne) as [Hg1 Hs1]. set (g1 := link _ _ _ _ _ _) in *.
  destruct (IH g1 Hg1) as [Hg2 Hs2].
  - by apply (on_layer_shape g).
  - done.
  - intros x Hx. destruct (Hnbs x ltac:(by right)). split; [by apply (on_layer_shape g)|done].
  - split; [done|]. by eapply same_shape_trans.
Qed.

Lemma set_row_wf row lc edges g :
  nodes_wf g → on_layer g lc row → 0 ≤ lc → NoDup edges → zlen edges ≤ max_edges lc →
  (∀ x, x ∈ edges → on_layer g lc x ∧ x ≠ row) →
  let g' := set_Nodes (alter (set_edges lc edges) row) g in nodes_wf g' ∧ same_shape g g'.
Proof.
  intros Hg Hrow Hlc Hnd Hlen Hin g'. split; [|apply (set_edges_shape (λ _, edges))].
  apply (set_edges_wf (λ _, edges)); [done|]. intros n Hn. destruct (Hg row n Hn) as (_ & _ & HL & _).
  assert (lc ≤ Layer n) by (destruct Hrow as (L & (n' & Hn' & <-)%layer_of_node & ?); congruence).
  split; [lia|]. split; [lia|]. split; [done|]. intros x Hx. destruct (Hin x Hx). auto.
Qed.

Lemma connect_wf row lc g eps s :
  nodes_wf g → on_layer g lc row → 0 ≤ lc → fresh_scratch s → zlen eps = 1 →
  (∀ ep, ep ∈ eps → on_layer g lc ep) →
  let '(g', eps', s') := connect nscore row lc g eps s in
  nodes_wf g' ∧ same_shape g g' ∧ zlen eps' = 1 ∧ (∀ ep, ep ∈ eps' → on_layer g lc ep) ∧ scratch_ok s'.
Proof.
  intros Hg Hrow Hlc Hs Heps Hep. unfold connect.
  destruct (searchLayer_spec g (nscore row) eps (if lc >? 0 then 16 else EfConstruct) lc None s
    (nodes_ids g Hg) Hs ltac:(rewrite Heps; apply Z.le_max_l)) as (near & Hf & Hp & _ & Hs').
  destruct (searchLayer _ _ _ _ _ _ _) as [neighbors s']. cbn [fst snd] in *.
  assert (Hnb : ∀ c, c ∈ neighbors → on_layer g lc (in_ID c)).
  { intros c Hc. rewrite Hp in Hc. apply list_elem_of_filter in Hc as [_ Hc].
    destruct Hf as (_ & _ & Hf & _). destruct (Hf c Hc) as [Hr _]. by eapply reach_layer. }
  set (maxM := if lc =? 0 then M0 else M).
  assert (Hmax : 0 < maxM ∧ (if lc =? 0 then maxM * 2 else maxM) = max_edges lc ∧ maxM ≤ max_edges lc)
    by (unfold maxM, max_edges, M0, M; destruct (lc =? 0); lia).
  destruct Hmax as (Hpos & -> & Hle).
  destruct (select_loop_spec row maxM neighbors [] ltac:(constructor) ltac:(apply not_elem_of_nil) Hpos)
    as (H1 & H2 & H3 & H4 & _ & _). fold (selectClosestNeighbors row neighbors maxM) in *.
  set (edges := selectClosestNeighbors row neighbors maxM) in *.
  assert (Hedges : ∀ x, x ∈ edges → on_layer g lc x ∧ x ≠ row).
  { intros x Hx. split; [|by intros ->].
    destruct (H4 x Hx) as [[]%not_elem_of_nil|(c & -> & Hc)%list_elem_of_fmap]. by apply Hnb. }
  destruct (set_row_wf row lc edges g) as [Hg1 Hs1]; auto; [lia|].
  set (g1 := set_Nodes (alter (set_edges lc edges) row) g) in *.
  destruct (links_wf row lc edges g1 Hg1) as [Hg2 Hs2].
  - by apply (on_layer_shape g).
  - done.
  - intros nb Hin. destruct (Hedges nb Hin). split; [by apply (on_layer_shape g)|done].
  - split; [done|]. split; [by eapply same_shape_trans|]. split; [|split; [|done]].
    + by destruct neighbors.
    + destruct neighbors as [|c cs]; [done|]. intros ep [->|[]%not_elem_of_nil]%elem_of_cons. apply Hnb. by left.
Qed.

Lemma on_layer_mono g lc lc' id : lc' ≤ lc → on_layer g lc id → on_layer g lc' id.
Proof. intros Hle (L & ? & ?). exists L. split; [done|lia]. Qed.

Lemma connect_all_wf n row lc g eps s :
  nodes_wf g → on_layer g lc row → Z.of_nat n ≤ lc + 1 → scratch_ok s → zlen eps = 1 →
  (∀ ep, ep ∈ eps → on_layer g lc ep) →
  let g' := connect_all nscore n row lc g eps s in nodes_wf g' ∧ same_shape g g'.
Proof.
  revert lc g eps s. induction n as [|n IH]; intros lc g eps s Hg Hrow Hn Hs Heps Hep; cbn [connect_all]; [by split|].
  destruct (reset_spec (byID_len g + 1) s Hs) as (R1 & R2 & R3 & R4 & R5).
  pose proof (connect_wf row lc g eps (reset (byID_len g + 1) s) Hg Hrow ltac:(lia)
    ltac:(by unfold fresh_scratch) Heps Hep) as Hc.
  destruct (connect _ _ _ _ _ _) as [[g1 eps1] s1]. destruct Hc as (Hg1 & Hs1 & He1 & Hep1 & Hsc1).
  destruct (IH (lc - 1) g1 eps1 s1 Hg1) as [Hg2 Hs2].
  - apply (on_layer_mono _ lc); [lia|]. by apply (on_layer_shape g).
  - lia.
  - done.
  - done.
  - intros ep Hin. apply (on_layer_mono _ lc); [lia|]. apply (on_layer_shape g); auto.
  - split; [done|]. by eapply same_shape_trans.
Qed.

Lemma descend_spec n g score lc ep s :
  nodes_wf g → scratch_ok s → on_layer g lc ep →
  let r := descend n g score lc ep s in on_layer g (lc - Z.of_nat n) (fst r) ∧ scratch_ok (snd r).
Proof.
  revert lc ep s. induction n as [|n IH]; intros lc ep s Hg Hs Hep; cbn [descend].
  { cbn. by rewrite Z.sub_0_r. }
  destruct (reset_spec (byID_len g + 1) s Hs) as (R1 & R2 & R3 & R4 & R5).
  destruct (searchLayer_spec g score [ep] 1 lc None (reset (byID_len g + 1) s) (nodes_ids g Hg)
    ltac:(by unfold fresh_scratch) ltac:(done)) as (near & Hf & Hp & _ & Hs').
  destruct (searchLayer _ _ _ _ _ _ _) as [fnd s']. cbn [fst snd] in *.
  set (ep' := match fnd with c :: _ => in_ID c | [] => ep end).
  assert (Hep' : on_layer g lc ep').
  { subst ep'. destruct fnd as [|c cs]; [done|].
    assert (Hc : c ∈ near).
    { assert (Hc : c ∈ c :: cs) by (by left). rewrite Hp in Hc. by apply list_elem_of_filter in Hc as [_ ?]. }
    destruct Hf as (_ & _ & Hf & _). destruct (Hf c Hc) as [Hr _]. eapply reach_layer; [done| |exact Hr].
    by intros x [->|[]%not_elem_of_nil]%elem_of_cons. }
  destruct (IH (lc - 1) ep' s' Hg Hs') as [H1 H2]; [by apply (on_layer_mono _ lc); [lia|]|].
  split; [|done]. by replace (lc - Z.of_nat (S n)) with (lc - 1 - Z.of_nat n) by lia.
Qed.
End InsertWf.

(** A graph with rows has an entry point on its top layer. *)
Lemma entry_top g :
  graph_wf g → Size g ≠ 0 → layer_of g (EntryPoint g) = Some (MaxLayer g) ∧ 0 ≤ MaxLayer g.
Proof.
  intros [Hg Hsz He _] H0.
  assert (Hl : layer_of g (EntryPoint g) = Some (MaxLayer g)).
  { destruct He as [(Hemp & _)|?]; [|done]. rewrite Hemp, map_size_empty in Hsz. lia. }
  split; [done|]. apply layer_of_node in Hl as (n & Hn & <-). destruct (Hg _ _ Hn) as (_ & _ & ? & _). lia.
Qed.

(** *** A whole insertion *)
Section InsertGraph.
Variable level : Z → Z.
Variable nscore : Z → Z → single.

(** A row that can be added to [g]. *)
Definition insertable (g : HNSWGraph) (row : Z) : Prop :=
  node g row = None ∧ 0 ≤ row < 2 ^ 63 ∧ 0 ≤ level row ≤ 64.

(** The nodes after an insertion. *)
Definition grown (row : Z) (g g' : HNSWGraph) : Prop :=
  ∀ id, layer_of g' id = if decide (id = row) then Some (level row) else layer_of g id.

Definition attached (row : Z) (g : HNSWGraph) : HNSWGraph :=
  attachNode {| node_ID := row; Layer := level row; Edges := ∅ |} g.

Lemma attach_grown row g : grown row g (attached row g).
Proof.
  intros id. unfold layer_of, node, attached, attachNode. cbn. rewrite lookup_insert.
  case_decide as E; case_decide; congruence || done.
Qed.

Lemma grown_on_layer row g g' lc id : node g row = None → grown row g g' → on_layer g lc id → on_layer g' lc id.
Proof.
  intros Hn Hg (L & HL & ?). exists L. split; [|done]. rewrite Hg. case_decide as E; [|done].
  subst id. unfold layer_of in HL. by rewrite Hn in HL.
Qed.

Lemma attach_wf row g : insertable g row → nodes_wf g → nodes_wf (attached row g).
Proof.
  intros (Hn & Hid & HL) Hg id n. unfold node, attached, attachNode. cbn. rewrite lookup_insert.
  case_decide as E; [intros [= <-]; subst id; cbn; by conjs|].
  intros Hn'. destruct (Hg id n Hn') as (H1 & H2 & H3 & H4). split; [done|]. split; [done|]. split; [done|].
  intros lc l Hl. destruct (H4 lc l Hl) as (G1 & G2 & G3 & G4). split; [done|]. split; [done|]. split; [done|].
  intros nb Hnb. destruct (G4 nb Hnb). split; [done|].
  eapply grown_on_layer; [exact Hn|apply attach_grown|done].
Qed.

Lemma grown_size row g g' :
  node g row = None → grown row g g' → size (Nodes g') = S (size (Nodes g)).
Proof.
  intros Hn Hg. rewrite <- !size_dom.
  assert (Hd : dom (Nodes g') = {[row]} ∪ dom (Nodes g)).
  { apply set_eq. intros id. rewrite elem_of_union, elem_of_singleton, !elem_of_dom.
    assert (Hs : ∀ h : HNSWGraph, is_Some (Nodes h !! id) ↔ is_Some (layer_of h id)).
    { intros h. unfold layer_of, node. by rewrite fmap_is_Some. }
    rewrite !Hs, Hg. case_decide; [by split; [left|eauto]|]. split; [by right|]. by intros [?|?]. }
  rewrite Hd, size_union, size_singleton; [done|]. apply disjoint_singleton_l. by apply not_elem_of_dom.
Qed.

Lemma fill_layers_lookup n lc edges k :
  fill_layers n lc edges !! k =
  match edges !! k with
  | Some l => Some l
  | None => if decide (lc ≤ k < lc + Z.of_nat n) then Some [] else None
  end.
Proof.
  revert lc edges. induction n as [|n IH]; intros lc edges; cbn [fill_layers].
  { destruct (edges !! k); [done|]. by rewrite decide_False by lia. }
  rewrite IH. destruct (decide (k = lc)) as [->|Hne].
  - destruct (edges !! lc) as [l|] eqn:E.
    + by rewrite bool_decide_eq_true_2, E by done.
    + rewrite bool_decide_eq_false_2 by (by intros []). rewrite lookup_insert_eq. by rewrite decide_True by lia.
  - case_bool_decide; rewrite ?lookup_insert_ne by done; destruct (edges !! k); try done; repeat case_decide; lia || done.
Qed.

(** The node of the row gets its empty layers. *)
Lemma fill_wf row g lo :
  nodes_wf g → layer_of g row = Some (level row) → 0 ≤ lo →
  let g' := set_Nodes (alter (λ n, {| node_ID := node_ID n; Layer := Layer n;
             Edges := fill_layers (Z.to_nat (level row - lo)) (lo + 1) (Edges n) |}) row) g in
  nodes_wf g' ∧ same_shape g g'.
Proof.
  intros Hg HL Hlo g'. assert (Hs : same_shape g g').
  { split; [|done]. intros id. unfold layer_of, node, g', set_Nodes. cbn.
    destruct (decide (id = row)) as [->|]; [rewrite lookup_alter_eq; by destruct (Nodes g !! row)|by rewrite lookup_alter_ne]. }
  split; [|done]. intros id n. unfold node, g', set_Nodes. cbn. destruct (decide (id = row)) as [->|Hne].
  - rewrite lookup_alter_eq. intros (n0 & Hn0 & ->)%fmap_Some. destruct (Hg row n0 Hn0) as (H1 & H2 & H3 & H4).
    assert (Layer n0 = level row) as HLn by (unfold layer_of, node in HL; rewrite Hn0 in HL; by injection HL).
    split; [done|]. split; [done|]. split; [done|]. intros lc l. cbn. rewrite fill_layers_lookup.
    destruct (Edges n0 !! lc) as [l0|] eqn:El; [intros [= <-]; by eapply edges_wf_shape, H4|].
    case_decide; [|done]. intros [= <-]. split; [lia|]. split; [unfold max_edges, M0, M; case_match; done|].
    split; [constructor|]. by intros nb ?%not_elem_of_nil.
  - rewrite lookup_alter_ne by done. intros Hn. destruct (Hg id n Hn) as (H1 & H2 & H3 & H4).
    split; [done|]. split; [done|]. split; [done|]. intros lc l Hl. by eapply edges_wf_shape, H4.
Qed.

Lemma Insert_wf row s g :
  graph_wf g → insertable g row → scratch_ok s →
  graph_wf (Insert level nscore row s g) ∧ grown row g (Insert level nscore row s g).
Proof.
  intros Hwf Hins Hsc. pose proof Hwf as [Hg Hsz He Htop]. pose proof Hins as (Hn & Hid & HL). unfold Insert.
  fold (attached row g). set (g0 := attached row g).
  pose proof (attach_wf row g Hins Hg) as Hg0. pose proof (attach_grown row g) as Hgr. fold g0 in Hg0, Hgr.
  pose proof (grown_size row g g0 Hn Hgr) as Hsz0.
  assert (Hrow0 : layer_of g0 row = Some (level row)) by (rewrite Hgr; by rewrite decide_True).
  change (Size g0) with (Size g). change (MaxLayer g0) with (MaxLayer g). change (EntryPoint g0) with (EntryPoint g).
  destruct (Z.eqb_spec (Size g) 0) as [E0|E0].
  { split; [|exact Hgr]. split; [exact Hg0| |right; exact Hrow0|].
    - change (Size g + 1 = Z.of_nat (size (Nodes g0))). rewrite Hsz0. lia.
    - intros id L HidL. pose proof (Hgr id) as Hgi. change (layer_of g0 id = Some L) in HidL. rewrite HidL in Hgi.
      cbn. case_decide; [injection Hgi; lia|]. symmetry in Hgi. apply layer_of_node in Hgi as (n & Hn' & _).
      assert (Nodes g = ∅) as Hemp by (apply map_size_empty_iff; lia). unfold node in Hn'. by rewrite Hemp in Hn'. }
  destruct (entry_top g Hwf ltac:(lia)) as [Hent Hml].
  assert (Hner : EntryPoint g ≠ row) by (intros E; rewrite E in Hent; unfold layer_of in Hent; by rewrite Hn in Hent).
  assert (Hent0 : layer_of g0 (EntryPoint g) = Some (MaxLayer g)) by (rewrite Hgr; by rewrite decide_False).
  destruct (reset_spec (Size g + 2) s Hsc) as (R1 & _).
  destruct (descend_spec (Z.to_nat (MaxLayer g - level row)) g0 (nscore row) (MaxLayer g) (EntryPoint g)
    (reset (Size g + 2) s) Hg0 R1) as [Hep Hs1]; [exists (MaxLayer g); split; [done|lia]|].
  destruct (descend _ _ _ _ _ _) as [ep s1]. cbn [fst snd] in Hep, Hs1.
  set (top := Z.min (MaxLayer g) (level row)).
  destruct (connect_all_wf nscore (Z.to_nat (top + 1)) row top g0 [ep] s1 Hg0) as [Hg1 Hs2].
  - exists (level row). split; [done|lia].
  - lia.
  - done.
  - done.
  - intros x [->|[]%not_elem_of_nil]%elem_of_cons. eapply on_layer_mono; [|exact Hep]. lia.
  - set (g1 := connect_all _ _ _ _ _ _ _) in *.
    assert (Hgr1 : grown row g g1) by (intros id; by rewrite (proj1 Hs2), Hgr).
    pose proof (grown_size row g g1 Hn Hgr1) as Hsz1.
    assert (HSz : Size g1 = Size g) by apply Hs2.
    destruct (Z.gtb_spec (level row) (MaxLayer g)) as [Hgt|Hle].
    + destruct (fill_wf row g1 (MaxLayer g) Hg1) as [Hg2 Hs3]; [rewrite Hgr1; by rewrite decide_True|done|].
      assert (Hgr2 : grown row g (set_Nodes (alter (λ n, {| node_ID := node_ID n; Layer := Layer n;
        Edges := fill_layers (Z.to_nat (level row - MaxLayer g)) (MaxLayer g + 1) (Edges n) |}) row) g1))
        by (intros id; by rewrite (proj1 Hs3), Hgr1).
      split; [|exact Hgr2]. split; [exact Hg2| | |].
      * change (Size g1 + 1 = Z.of_nat (size (Nodes (set_Nodes (alter (λ n, {| node_ID := node_ID n; Layer := Layer n;
          Edges := fill_layers (Z.to_nat (level row - MaxLayer g)) (MaxLayer g + 1) (Edges n) |}) row) g1)))).
        rewrite (grown_size row g _ Hn Hgr2). lia.
      * right. cbn. exact (eq_trans (Hgr2 row) (decide_True _ _ eq_refl)).
      * intros id L HidL. pose proof (eq_trans (eq_sym (Hgr2 id)) HidL) as Hgi. cbn.
        case_decide; [injection Hgi; lia|]. apply Htop in Hgi. lia.
    + destruct Hs2 as (_ & _ & HE & HM & _).
      split; [|exact Hgr1]. split; [exact Hg1|cbn; lia|right; cbn|cbn; rewrite HM].
      * rewrite HE, HM. change (layer_of g1 (EntryPoint g) = Some (MaxLayer g)). rewrite Hgr1. by rewrite decide_False.
      * intros id L HidL. pose proof (eq_trans (eq_sym (Hgr1 id)) HidL) as Hgi.
        change (MaxLayer g0) with (MaxLayer g). case_decide; [injection Hgi; lia|]. by apply Htop in Hgi.
Qed.
End InsertGraph.

(** ** Graphs built by insertions *)

(** Each row comes with the buffer the pool hands out. *)
Definition build (level : Z → Z) (nscore : Z → Z → single) (rows : list (Z * searchScratch)) : HNSWGraph :=
  foldl (λ g '(row, s), Insert level nscore row s g) NewHNSWGraph rows.

Definition buildable (level : Z → Z) (rows : list (Z * searchScratch)) : Prop :=
  NoDup rows.*1 ∧ Forall (λ '(row, s), 0 ≤ row < 2 ^ 63 ∧ 0 ≤ level row ≤ 64 ∧ scratch_ok s) rows.

Lemma NewHNSWGraph_wf : graph_wf NewHNSWGraph.
Proof.
  assert (Hnone : ∀ id, node NewHNSWGraph id = None) by (intros; apply lookup_empty).
  split; [intros id n; by rewrite Hnone|done|by left|]. intros id L. unfold layer_of. by rewrite Hnone.
Qed.

Lemma build_snoc level nscore rows row s :
  build level nscore (rows ++ [(row, s)]) = Insert level nscore row s (build level nscore rows).
Proof. unfold build. by rewrite foldl_snoc. Qed.

Lemma graph_build_wf level nscore rows :
  buildable level rows →
  graph_wf (build level nscore rows) ∧
  (∀ id, layer_of (build level nscore rows) id = if bool_decide (id ∈ rows.*1) then Some (level id) else None).
Proof.
  intros [Hnd HF]. induction rows as [|[row s] rows IH] using rev_ind.
  { split; [apply NewHNSWGraph_wf|]. intros id. by rewrite bool_decide_eq_false_2 by apply not_elem_of_nil. }
  rewrite fmap_app in Hnd. apply NoDup_app in Hnd as (Hnd & Hx & _).
  apply Forall_app in HF as [HF (Hrow & HL & Hs)%Forall_singleton].
  destruct (IH Hnd HF) as [Hg Hl]. rewrite build_snoc.
  assert (Hfresh : row ∉ rows.*1) by (intros Hin; apply (Hx row Hin); by left).
  destruct (Insert_wf level nscore row s _ Hg) as [Hg' Hgr].
  - split; [|done]. specialize (Hl row). rewrite bool_decide_eq_false_2 in Hl by done.
    unfold layer_of in Hl. by apply fmap_None in Hl.
  - done.
  - split; [done|]. intros id. rewrite Hgr, Hl, fmap_app. cbn.
    case_decide as E; [subst id; by rewrite bool_decide_eq_true_2 by (apply elem_of_app; right; by left)|].
    apply (f_equal (λ b : bool, if b then Some (level id) else None)). apply bool_decide_ext.
    rewrite elem_of_app, elem_of_cons. split; [auto|]. by intros [?|[?|[]%not_elem_of_nil]].
Qed.

Lemma node_layer g id : is_Some (node g id) ↔ is_Some (layer_of g id).
Proof. unfold layer_of. by rewrite fmap_is_Some. Qed.

Lemma build_nodes level nscore rows id :
  buildable level rows → is_Some (node (build level nscore rows) id) ↔ id ∈ rows.*1.
Proof.
  intros Hb. destruct (graph_build_wf level nscore rows Hb) as [_ Hl]. rewrite node_layer, Hl.
  case_bool_decide; [naive_solver|]. split; [by intros []|done].
Qed.

Lemma build_size level nscore rows :
  buildable level rows → Size (build level nscore rows) = zlen rows.
Proof.
  intros Hb. destruct (graph_build_wf level nscore rows Hb) as [Hg _]. rewrite (gw_size _ Hg), <- size_dom.
  assert (Hd : dom (Nodes (build level nscore rows)) = list_to_set (C := gset Z) rows.*1).
  { apply set_eq. intros id. rewrite elem_of_dom, elem_of_list_to_set. by apply build_nodes. }
  rewrite Hd, size_list_to_set by apply Hb. unfold zlen. by rewrite length_fmap.
Qed.

(** The invariant is what [Validate] checks. *)
Lemma graph_wf_Validate g : graph_wf g → Validate (Size g) g = true.
Proof.
  intros Hwf. pose proof Hwf as [Hg Hsz He _]. unfold Validate. rewrite Z.eqb_refl. replace (Z.of_nat (size (Nodes g)) =? Size g) with true by lia.
  cbn [negb orb]. destruct (Z.eqb_spec (Size g) 0) as [E|E].
  { destruct He as [(_ & -> & _)|Hl]; [done|]. exfalso. apply layer_of_node in Hl as (n & Hn & _).
    assert (Nodes g = ∅) as Hemp by (apply map_size_empty_iff; lia). unfold node in Hn. by rewrite Hemp in Hn. }
  destruct (entry_top g Hwf E) as [Hl _].
  rewrite bool_decide_eq_true_2 by (apply node_layer; by rewrite Hl). cbn [andb].
  apply forallb_forall. intros [id n] Hin%list_elem_of_In%elem_of_map_to_list.
  destruct (Hg id n Hin) as (H1 & H2 & H3 & H4).
  replace (negb (negb (node_ID n =? id) || (Layer n <? 0) || (Layer n >? 64))) with true by lia. cbn [andb].
  apply forallb_forall. intros [lc l] Hl'%list_elem_of_In%elem_of_map_to_list.
  destruct (H4 lc l Hl') as (G1 & G2 & G3 & G4). unfold valid_edges.
  replace (negb ((lc <? 0) || (lc >? Layer n))) with true by lia. cbn [andb].
  assert (Hlim : zlen l ≤ (if lc =? 0 then M0 else M) * 2)
    by (unfold max_edges, M0, M in *; destruct (lc =? 0); lia).
  replace (negb (zlen l >? _)) with true by lia. cbn [andb].
  apply forallb_forall. intros nb Hnb%list_elem_of_In. destruct (G4 nb Hnb) as (Hne & L & (t & Ht & <-)%layer_of_node & HL).
  rewrite Ht. lia.
Qed.

(** C39: whatever distinct rows are inserted, in whatever order,
    with whatever levels up to 64, scores (NaN included) and search buffers, the
    graph holds exactly those rows on the layers they were given, its size and
    entry point agree with them, every edge leads to another row that reaches
    that layer, no neighbour list repeats a row or exceeds its bound, and the
    graph passes the check made when it is loaded. *)
Theorem hnsw_validates level nscore rows :
  buildable level rows →
  let g := build level nscore rows in
  Validate (zlen rows) g = true ∧
  (∀ id, layer_of g id = if bool_decide (id ∈ rows.*1) then Some (level id) else None) ∧
  (rows ≠ [] → layer_of g (EntryPoint g) = Some (MaxLayer g) ∧ ∀ id, id ∈ rows.*1 → level id ≤ MaxLayer g) ∧
  (∀ id n lc l, node g id = Some n → Edges n !! lc = Some l →
     NoDup l ∧ zlen l ≤ max_edges lc ∧ ∀ nb, nb ∈ l → nb ≠ id ∧ on_layer g lc nb).
Proof.
  intros Hb g. destruct (graph_build_wf level nscore rows Hb) as [Hg Hl]. fold g in Hg, Hl. conjs; [|done| |].
  - rewrite <- (build_size level nscore rows Hb). by apply graph_wf_Validate.
  - intros Hne. split.
    + destruct (gw_entry g Hg) as [(Hemp & _)|?]; [|done]. destruct rows as [|[row s] rows]; [done|].
      destruct (proj2 (build_nodes level nscore _ row Hb) ltac:(by left)) as [n Hn].
      fold g in Hn. unfold node in Hn. by rewrite Hemp in Hn.
    + intros id Hid. apply (gw_top g Hg id). rewrite Hl. by rewrite bool_decide_eq_true_2.
  - intros id n lc l Hn He. destruct (gw_nodes g Hg id n Hn) as (_ & _ & _ & Hw).
    destruct (Hw lc l He) as (_ & ? & ? & ?). auto.
Qed.

(** ** Small graphs are searched exhaustively

    Up to 33 rows layer 0 is a complete graph: an insertion finds all the other
    rows, and the 32 neighbours of a row and the 64 reverse neighbours leave
    room for them. *)
Definition complete (except : Z → Prop) (g : HNSWGraph) : Prop :=
  ∀ a b, is_Some (node g a) → is_Some (node g b) → a ≠ b → ¬ except a → ¬ except b → edge g 0 a b.

Lemma same_shape_node g g' id : same_shape g g' → is_Some (node g' id) ↔ is_Some (node g id).
Proof. intros [H _]. by rewrite !node_layer, H. Qed.

Lemma edges_at_set F lc id g lc' id' :
  edges_at (set_Nodes (alter (λ n, set_edges lc (F n) n) id) g) lc' id' =
  if decide (id' = id ∧ lc' = lc) then match node g id with Some n => F n | None => [] end
  else edges_at g lc' id'.
Proof.
  unfold edges_at, node, set_Nodes. cbn. destruct (decide (id' = id)) as [->|Hne].
  - rewrite lookup_alter_eq. destruct (Nodes g !! id) as [n|]; cbn; [|by case_decide].
    destruct (decide (lc' = lc)) as [->|Hlc].
    + rewrite lookup_insert_eq, decide_True by done. done.
    + rewrite lookup_insert_ne, decide_False by (done || tauto). done.
  - rewrite lookup_alter_ne by done. by rewrite decide_False by tauto.
Qed.

Lemma edges_few g lc a : nodes_wf g → NoDup (edges_at g lc a) ∧ zlen (edges_at g lc a) ≤ Z.of_nat (size (Nodes g)).
Proof.
  intros Hg. unfold edges_at. destruct (node g a) as [n|] eqn:En; [|split; [constructor|unfold zlen; cbn; lia]].
  destruct (Edges n !! lc) as [l|] eqn:El; [|split; [constructor|unfold zlen; cbn; lia]].
  destruct (Hg a n En) as (_ & _ & _ & He). destruct (He lc l El) as (_ & _ & Hnd & Hin). cbn. split; [done|].
  assert (Hsub : (list_to_set l : gset Z) ⊆ dom (Nodes g)).
  { intros x Hx%elem_of_list_to_set. destruct (Hin x Hx) as (_ & L & (t & Ht & _)%layer_of_node & _).
    apply elem_of_dom. by exists t. }
  apply subseteq_size in Hsub. rewrite size_list_to_set, size_dom in Hsub by done. unfold zlen. lia.
Qed.

Section Exact.
Variable nscore : Z → Z → single.

Lemma links_complete row nbs g :
  nodes_wf g → on_layer g 0 row → (∀ nb, nb ∈ nbs → on_layer g 0 nb ∧ nb ≠ row) →
  (size (Nodes g) < 64)%nat →
  let g' := foldl (link nscore row 0 (max_edges 0)) g nbs in
  (∀ a b, edge g 0 a b → edge g' 0 a b) ∧ (∀ nb, nb ∈ nbs → edge g' 0 nb row).
Proof.
  revert g. induction nbs as [|nb nbs IH]; intros g Hg Hrow Hnbs Hsz; cbn [foldl].
  { split; [done|]. by intros nb ?%not_elem_of_nil. }
  destruct (Hnbs nb ltac:(by left)) as [Hnb Hne].
  destruct (link_wf nscore row 0 g nb Hg Hrow Hnb ltac:(lia) Hne) as [Hg1 Hs1].
  assert (Hlink : (∀ a b, edge g 0 a b → edge (link nscore row 0 (max_edges 0) g nb) 0 a b) ∧
    edge (link nscore row 0 (max_edges 0) g nb) 0 nb row).
  { destruct (edges_few g 0 nb Hg) as [Hnd Hfew]. change (max_edges 0) with 64.
    destruct (insertNeighborID_spec nscore nb (edges_at g 0 nb) row 64 Hnd ltac:(lia)) as (_ & _ & _ & Hall).
    destruct (Hall ltac:(done) ltac:(lia)) as [Hr Hold]. destruct Hnb as (L & (n & Hn & _)%layer_of_node & _).
    assert (Heq : edges_at (link nscore row 0 64 g nb) 0 nb = insertNeighborID nscore nb (edges_at g 0 nb) row 64).
    { unfold link. rewrite edges_at_set, decide_True by done. unfold edges_at. by rewrite Hn. }
    split; [|unfold edge; by rewrite Heq]. intros a b Hab. unfold edge in *. destruct (decide (a = nb)) as [->|].
    - rewrite Heq. by apply Hold.
    - unfold link. rewrite edges_at_set, decide_False by tauto. done. }
  destruct Hlink as [Hmono Hnew]. set (g1 := link _ _ _ _ _ _) in *.
  assert (Hsz1 : size (Nodes g1) = size (Nodes g)).
  { rewrite <- !size_dom. f_equal. apply set_eq. intros id. rewrite !elem_of_dom. by apply (same_shape_node g g1). }
  destruct (IH g1 Hg1) as [H1 H2].
  - by apply (on_layer_shape g).
  - intros x Hx. destruct (Hnbs x ltac:(by right)). split; [by apply (on_layer_shape g)|done].
  - lia.
  - split; [auto|]. intros x [->|Hx]%elem_of_cons; auto.
Qed.

(** No edge leads to the new row yet on the layers up to [lc]. *)
Definition unlinked (row lc : Z) (g : HNSWGraph) : Prop := ∀ lc' a, lc' ≤ lc → ¬ edge g lc' a row.

Lemma reach_unlinked g lc eps row x :
  unlinked row lc g → (row ∉ eps) → reach g lc eps x → x ≠ row.
Proof.
  intros Hu Heps (ep & Hep & _ & Hr) ->. apply rtc_inv_r in Hr as [->|(y & _ & Hy)]; [done|].
  by apply (Hu lc y).
Qed.

(** Connecting on a layer changes the edges of that layer only. *)
Lemma links_other row lc lim nbs g lc' a :
  lc' ≠ lc → edges_at (foldl (link nscore row lc lim) g nbs) lc' a = edges_at g lc' a.
Proof.
  intros Hne. revert g. induction nbs as [|nb nbs IH]; intros g; cbn [foldl]; [done|].
  rewrite IH. unfold link. by rewrite edges_at_set, decide_False by tauto.
Qed.

Lemma connect_other row lc g eps s lc' a :
  lc' ≠ lc → edges_at (fst (fst (connect nscore row lc g eps s))) lc' a = edges_at g lc' a.
Proof.
  intros Hne. unfold connect. destruct (searchLayer _ _ _ _ _ _ _) as [nb s']. cbn [fst].
  rewrite links_other by done.
  rewrite (edges_at_set (λ _, selectClosestNeighbors row nb (if lc =? 0 then M0 else M))).
  by rewrite decide_False by tauto.
Qed.

Lemma connect_eps row lc g eps s :
  nodes_wf g → on_layer g lc row → 0 ≤ lc → fresh_scratch s → zlen eps = 1 →
  (∀ ep, ep ∈ eps → on_layer g lc ep) → unlinked row lc g → (row ∉ eps) →
  row ∉ snd (fst (connect nscore row lc g eps s)).
Proof.
  intros Hg Hrow Hlc Hs Heps Hep Hu Hnot. unfold connect.
  destruct (searchLayer_spec g (nscore row) eps (if lc >? 0 then 16 else EfConstruct) lc None s
    (nodes_ids g Hg) Hs ltac:(rewrite Heps; apply Z.le_max_l)) as (near & Hf & Hp & _ & _).
  destruct (searchLayer _ _ _ _ _ _ _) as [[|c nb] s']; cbn [fst snd] in *; [done|].
  intros [E|[]%not_elem_of_nil]%elem_of_cons.
  assert (Hc : c ∈ near).
  { assert (Hc : c ∈ c :: nb) by (by left). rewrite Hp in Hc. by apply list_elem_of_filter in Hc as [_ ?]. }
  destruct Hf as (_ & _ & Hf & _). destruct (Hf c Hc) as [Hr _]. by apply (reach_unlinked g lc eps row (in_ID c)).
Qed.

Lemma same_shape_size g g' : same_shape g g' → size (Nodes g') = size (Nodes g).
Proof.
  intros Hs. rewrite <- !size_dom. f_equal. apply set_eq. intros id. rewrite !elem_of_dom.
  by apply (same_shape_node g g').
Qed.

Lemma on_layer_node g lc id : on_layer g lc id → is_Some (node g id).
Proof. intros (L & (n & -> & _)%layer_of_node & _). by eexists. Qed.

Lemma node_on_layer g id : nodes_wf g → is_Some (node g id) → on_layer g 0 id.
Proof.
  intros Hg [n Hn]. destruct (Hg id n Hn) as (_ & _ & ? & _). exists (Layer n). unfold layer_of. rewrite Hn. split; [done|lia].
Qed.

Lemma one_entry g lc ep : on_layer g lc ep → ∀ x, x ∈ [ep] → on_layer g lc x.
Proof. by intros H x [->|[]%not_elem_of_nil]%elem_of_cons. Qed.

(** A search of layer 0 with room for every row finds all the rows that are one
    edge away from the entry point. *)
Lemma found_neighbours g score ef ep near x :
  nodes_wf g → on_layer g 0 ep → Z.of_nat (size (Nodes g)) ≤ ef → found g score ef 0 [ep] near →
  (x = ep ∨ edge g 0 ep x) → x ∈ in_ID <$> near.
Proof.
  intros Hg Hep Hef (_ & _ & _ & Hfull & _) Hx. apply Hfull.
  - exists (elements (dom (Nodes g))). split.
    + unfold zlen. change (length (elements ?X)) with (size X). by rewrite size_dom.
    + intros y Hy. apply elem_of_elements, elem_of_dom.
      by eapply on_layer_node, reach_layer; [|apply one_entry|].
  - exists ep. split; [by left|]. split; [by eapply on_layer_node|].
    destruct Hx as [->|Hx]; [apply rtc_refl|by apply rtc_once].
Qed.

(** At most 33 rows: the 32 others are all selected. *)
Lemma select_all g row neighbors :
  is_Some (node g row) → (size (Nodes g) ≤ 33)%nat →
  (∀ c, c ∈ neighbors → is_Some (node g (in_ID c))) →
  (∀ x, is_Some (node g x) → x ≠ row → x ∈ in_ID <$> neighbors) →
  ∀ x, x ∈ selectClosestNeighbors row neighbors M0 ↔ is_Some (node g x) ∧ x ≠ row.
Proof.
  intros Hrow Hsz Hin Hall.
  destruct (select_loop_spec row M0 neighbors [] ltac:(constructor) ltac:(apply not_elem_of_nil) ltac:(done))
    as (H1 & H2 & H3 & H4 & _ & H6). fold (selectClosestNeighbors row neighbors M0) in *.
  set (edges := selectClosestNeighbors row neighbors M0) in *.
  assert (Hsub : ∀ x, x ∈ edges → is_Some (node g x) ∧ x ≠ row).
  { intros x Hx. split; [|by intros ->].
    destruct (H4 x Hx) as [[]%not_elem_of_nil|(c & -> & Hc)%list_elem_of_fmap]. by apply Hin. }
  intros x. split; [apply Hsub|]. intros [Hx Hxr].
  destruct (Z.lt_ge_cases (zlen edges) M0) as [Hlt|Hge]; [by apply H6; [|apply Hall|]|].
  assert (Hs : edges ⊆+ elements (dom (Nodes g) ∖ {[row]})).
  { apply NoDup_submseteq; [done|]. intros y Hy. destruct (Hsub y Hy).
    apply elem_of_elements, elem_of_difference. split; [by apply elem_of_dom|by rewrite elem_of_singleton]. }
  assert (Hcard : length (elements (dom (Nodes g) ∖ {[row]})) = (size (Nodes g) - 1)%nat).
  { change (length (elements ?X)) with (size X).
    rewrite size_difference, size_dom, size_singleton; [done|]. by apply singleton_subseteq_l, elem_of_dom. }
  apply submseteq_length_Permutation in Hs; [|rewrite Hcard; unfold zlen, M0 in *; lia].
  rewrite Hs. apply elem_of_elements, elem_of_difference. split; [by apply elem_of_dom|by rewrite elem_of_singleton].
Qed.

(** The bottom layer of an insertion among at most 32 rows. *)
Lemma connect_complete row g ep s :
  nodes_wf g → on_layer g 0 row → fresh_scratch s → on_layer g 0 ep → ep ≠ row →
  complete (λ x, x = row) g → (size (Nodes g) ≤ 33)%nat →
  complete (λ _, False) (fst (fst (connect nscore row 0 g [ep] s))).
Proof.
  intros Hg Hrow Hs Hep Hne Hc Hsz. unfold connect. change (0 >? 0) with false. change (0 =? 0) with true. cbv iota.
  destruct (searchLayer_spec g (nscore row) [ep] EfConstruct 0 None s (nodes_ids g Hg) Hs ltac:(done))
    as (near & Hf & Hp & _ & _).
  destruct (searchLayer _ _ _ _ _ _ _) as [neighbors s']. cbn [fst snd] in *.
  rewrite list_filter_all in Hp by done.
  assert (Hsel : ∀ x, x ∈ selectClosestNeighbors row neighbors M0 ↔ is_Some (node g x) ∧ x ≠ row).
  { apply select_all; [by eapply on_layer_node|done| |].
    - intros c Hin. rewrite Hp in Hin. destruct Hf as (_ & _ & Hf & _). destruct (Hf c Hin) as [Hr _].
      by eapply on_layer_node, reach_layer; [|apply one_entry|].
    - intros x Hx Hxr. rewrite Hp.
      apply (found_neighbours g (nscore row) EfConstruct ep); auto; [unfold EfConstruct; lia|].
      destruct (decide (x = ep)); [by left|right]. apply Hc; auto. by eapply on_layer_node. }
  set (edges := selectClosestNeighbors row neighbors M0) in *.
  destruct (select_loop_spec row M0 neighbors [] ltac:(constructor) ltac:(apply not_elem_of_nil) ltac:(done))
    as (Hnd & _ & Hlen & _). fold (selectClosestNeighbors row neighbors M0) in *. fold edges in Hnd, Hlen.
  assert (Hin : ∀ x, x ∈ edges → on_layer g 0 x ∧ x ≠ row).
  { intros x Hx. apply Hsel in Hx as [Hx ?]. split; [by apply node_on_layer|done]. }
  destruct (set_row_wf row 0 edges g Hg Hrow ltac:(lia) Hnd ltac:(unfold max_edges, M0 in *; cbn; lia) Hin) as [Hg1 Hs1].
  set (g1 := set_Nodes (alter (set_edges 0 edges) row) g) in *.
  assert (He1 : ∀ a, edges_at g1 0 a = if decide (a = row) then edges else edges_at g 0 a).
  { intros a. unfold g1. rewrite (edges_at_set (λ _, edges)).
    destruct (on_layer_node g 0 row Hrow) as [n ->]. repeat case_decide; try tauto; done. }
  assert (Hrow1 : on_layer g1 0 row) by (by apply (on_layer_shape g)).
  assert (Hin1 : ∀ x, x ∈ edges → on_layer g1 0 x ∧ x ≠ row).
  { intros x Hx. destruct (Hin x Hx). split; [by apply (on_layer_shape g)|done]. }
  destruct (links_complete row edges g1 Hg1 Hrow1 Hin1) as [Hmono Hrev];
    [rewrite (same_shape_size g g1 Hs1); lia|].
  destruct (links_wf nscore row 0 edges g1 Hg1 Hrow1 ltac:(done) Hin1) as [_ Hs2].
  intros a b Ha Hb Hab _ _. change (if true then M0 * 2 else M0) with (max_edges 0) in *.
  apply (same_shape_node _ _ _ Hs2), (same_shape_node _ _ _ Hs1) in Ha, Hb.
  destruct (decide (b = row)) as [->|Hbr]; [by apply Hrev, Hsel|]. apply Hmono. unfold edge. rewrite He1.
  case_decide; [by apply Hsel|]. by apply Hc.
Qed.

Lemma connect_all_complete n row g ep s :
  nodes_wf g → on_layer g (Z.of_nat n) row → scratch_ok s → on_layer g (Z.of_nat n) ep →
  unlinked row (Z.of_nat n) g → ep ≠ row → complete (λ x, x = row) g → (size (Nodes g) ≤ 33)%nat →
  complete (λ _, False) (connect_all nscore (S n) row (Z.of_nat n) g [ep] s).
Proof.
  revert g ep s. induction n as [|n IH]; intros g ep s Hg Hrow Hs Hep Hu Hne Hc Hsz; cbn [connect_all];
    destruct (reset_spec (byID_len g + 1) s Hs) as (R1 & R2 & R3 & R4 & R5).
  - pose proof (connect_complete row g ep (reset (byID_len g + 1) s) Hg Hrow ltac:(by unfold fresh_scratch)
      Hep Hne Hc Hsz) as H. change (Z.of_nat 0) with 0. by destruct (connect _ _ _ _ _ _) as [[g1 e1] s1].
  - set (lc := Z.of_nat (S n)) in *. set (s0 := reset (byID_len g + 1) s) in *.
    assert (Hfr : fresh_scratch s0) by done.
    pose proof (connect_wf nscore row lc g [ep] s0 Hg Hrow ltac:(lia) Hfr ltac:(done) (one_entry g lc ep Hep)) as Hw.
    pose proof (connect_eps row lc g [ep] s0 Hg Hrow ltac:(lia) Hfr ltac:(done) (one_entry g lc ep Hep) Hu
      ltac:(by rewrite elem_of_cons, elem_of_nil; intros [->|[]])) as Hx.
    pose proof (connect_other row lc g [ep] s0) as Ho.
    destruct (connect _ _ _ _ _ _) as [[g1 eps1] s1]. destruct Hw as (Hg1 & Hs1 & He1 & Hep1 & Hsc1).
    cbn [fst snd] in *. destruct eps1 as [|ep1 [|]]; [done| |unfold zlen in He1; cbn in He1; lia].
    replace (lc - 1) with (Z.of_nat n) by lia. apply IH; auto.
    + apply (on_layer_shape g); [done|]. by eapply on_layer_mono; [|exact Hrow]; lia.
    + apply (on_layer_shape g); [done|]. eapply on_layer_mono; [|apply (Hep1 ep1); by left]. lia.
    + intros lc' a Hle. unfold edge. rewrite Ho by lia. apply Hu. lia.
    + intros ->. apply Hx. by left.
    + intros a b Ha Hb. unfold edge. rewrite Ho by lia. intros. apply Hc; auto; by apply (same_shape_node g g1).
    + by rewrite (same_shape_size g g1).
Qed.

Lemma descend_unlinked n g score lc ep s row :
  nodes_wf g → scratch_ok s → (∀ lc', unlinked row lc' g) → ep ≠ row → fst (descend n g score lc ep s) ≠ row.
Proof.
  revert lc ep s. induction n as [|n IH]; intros lc ep s Hg Hs Hu Hne; cbn [descend]; [done|].
  destruct (reset_spec (byID_len g + 1) s Hs) as (R1 & R2 & R3 & R4 & R5).
  destruct (searchLayer_spec g score [ep] 1 lc None (reset (byID_len g + 1) s) (nodes_ids g Hg)
    ltac:(by unfold fresh_scratch) ltac:(done)) as (near & Hf & Hp & _ & Hs').
  destruct (searchLayer _ _ _ _ _ _ _) as [fnd s']. cbn [fst snd] in *. apply IH; auto.
  destruct fnd as [|c cs]; [done|].
  assert (Hc : c ∈ c :: cs) by (by left). rewrite Hp in Hc. apply list_elem_of_filter in Hc as [_ Hc].
  destruct Hf as (_ & _ & Hf & _). destruct (Hf c Hc) as [Hr _].
  apply (reach_unlinked g lc [ep]); auto. by rewrite elem_of_cons, elem_of_nil; intros [->|[]].
Qed.

(** ** An insertion keeps layer 0 complete *)
Variable level : Z → Z.

Lemma attached_edges row g lc a :
  node g row = None → edges_at (attached level row g) lc a = edges_at g lc a.
Proof.
  intros Hn. unfold edges_at, attached, attachNode. unfold node in *. cbn. rewrite lookup_insert.
  case_decide as E; [|done]. subst a. rewrite Hn. cbn. by rewrite lookup_empty.
Qed.

Lemma attached_unlinked row g lc : nodes_wf g → node g row = None → unlinked row lc (attached level row g).
Proof.
  intros Hg Hn lc' a _. unfold edge. rewrite attached_edges by done. intros Hr%edge_layer; [|done].
  apply on_layer_node in Hr as [n Hr]. congruence.
Qed.

Lemma attached_complete row g :
  node g row = None → complete (λ _, False) g → complete (λ x, x = row) (attached level row g).
Proof.
  intros Hn Hc a b Ha Hb Hab Har Hbr. unfold edge. rewrite attached_edges by done.
  assert (Hold : ∀ x, x ≠ row → is_Some (node (attached level row g) x) → is_Some (node g x)).
  { intros x Hx. rewrite !node_layer, (attach_grown level row g x). by case_decide. }
  apply Hc; auto.
Qed.

(** The entry of the new layers leaves the edges of layer 0 alone. *)
Lemma fill_edges row g lo n a :
  0 ≤ lo →
  edges_at (set_Nodes (alter (λ nd, {| node_ID := node_ID nd; Layer := Layer nd;
    Edges := fill_layers n (lo + 1) (Edges nd) |}) row) g) 0 a = edges_at g 0 a.
Proof.
  intros Hlo. unfold edges_at, node, set_Nodes. cbn. destruct (decide (a = row)) as [->|].
  - rewrite lookup_alter_eq. destruct (Nodes g !! row) as [nd|]; cbn; [|done]. rewrite fill_layers_lookup.
    destruct (Edges nd !! 0); [done|]. by rewrite decide_False by lia.
  - by rewrite lookup_alter_ne.
Qed.

Lemma complete_ext P g g' :
  (∀ a, edges_at g' 0 a = edges_at g 0 a) → (∀ a, layer_of g' a = layer_of g a) → complete P g → complete P g'.
Proof.
  intros He Hl Hc a b. rewrite !node_layer, !Hl, <- !node_layer. unfold edge. rewrite He. apply Hc.
Qed.

Lemma Insert_complete row s g :
  graph_wf g → insertable level g row → scratch_ok s → complete (λ _, False) g → (size (Nodes g) ≤ 32)%nat →
  complete (λ _, False) (Insert level nscore row s g).
Proof.
  intros Hwf Hins Hsc Hc Hcard. pose proof Hwf as [Hg Hsz _ _]. pose proof Hins as (Hn & Hid & HL). unfold Insert.
  fold (attached level row g). set (g0 := attached level row g).
  pose proof (attach_wf level row g Hins Hg) as Hg0. pose proof (attach_grown level row g) as Hgr. fold g0 in Hg0, Hgr.
  pose proof (grown_size level row g g0 Hn Hgr) as Hsz0.
  pose proof (attached_complete row g Hn Hc) as Hc0. fold g0 in Hc0.
  assert (Hrow0 : layer_of g0 row = Some (level row)) by (rewrite Hgr; by rewrite decide_True).
  change (Size g0) with (Size g). change (MaxLayer g0) with (MaxLayer g). change (EntryPoint g0) with (EntryPoint g).
  destruct (Z.eqb_spec (Size g) 0) as [E0|E0].
  { assert (Hemp : Nodes g = ∅) by (apply map_size_empty_iff; lia).
    assert (Honly : ∀ x, is_Some (node g0 x) → x = row).
    { intros x. rewrite node_layer, Hgr. case_decide; [done|]. unfold layer_of, node. rewrite Hemp.
      rewrite lookup_empty. by intros []. }
    intros a b Ha Hb Hab _ _. destruct Hab. by rewrite (Honly a Ha), (Honly b Hb). }
  destruct (entry_top g Hwf ltac:(lia)) as [Hent Hml].
  assert (Hner : EntryPoint g ≠ row) by (intros E; rewrite E in Hent; unfold layer_of in Hent; by rewrite Hn in Hent).
  assert (Hent0 : layer_of g0 (EntryPoint g) = Some (MaxLayer g)) by (rewrite Hgr; by rewrite decide_False).
  destruct (reset_spec (Size g + 2) s Hsc) as (R1 & _).
  destruct (descend_spec (Z.to_nat (MaxLayer g - level row)) g0 (nscore row) (MaxLayer g) (EntryPoint g)
    (reset (Size g + 2) s) Hg0 R1) as [Hep Hs1]; [exists (MaxLayer g); split; [done|lia]|].
  pose proof (descend_unlinked (Z.to_nat (MaxLayer g - level row)) g0 (nscore row) (MaxLayer g) (EntryPoint g)
    (reset (Size g + 2) s) row Hg0 R1 (λ lc', attached_unlinked row g lc' Hg Hn) Hner) as Hepr.
  destruct (descend _ _ _ _ _ _) as [ep s1]. cbn [fst snd] in Hep, Hs1, Hepr.
  set (top := Z.min (MaxLayer g) (level row)).
  assert (Hc1 : complete (λ _, False) (connect_all nscore (Z.to_nat (top + 1)) row top g0 [ep] s1)).
  { replace (Z.to_nat (top + 1)) with (S (Z.to_nat top)) by lia. replace top with (Z.of_nat (Z.to_nat top)) at 2 by lia.
    apply connect_all_complete; auto; [| | |lia].
    - exists (level row). split; [done|lia].
    - eapply on_layer_mono; [|exact Hep]. lia.
    - by apply attached_unlinked. }
  set (g1 := connect_all _ _ _ _ _ _ _) in *. destruct (level row >? MaxLayer g); [|exact Hc1].
  eapply (complete_ext _ g1); [| |exact Hc1].
  - intros a. exact (fill_edges row g1 (MaxLayer g) _ a Hml).
  - intros a. unfold layer_of, node. cbn.
    destruct (decide (a = row)) as [->|]; [rewrite lookup_alter_eq; by destruct (Nodes g1 !! row)|by rewrite lookup_alter_ne].
Qed.
End Exact.

(** ** What [Search] answers *)
Lemma Search_layer score k f efSearch s g :
  graph_wf g → Size g ≠ 0 → 0 < k → scratch_ok s →
  ∃ ep near L, on_layer g 0 ep ∧ found g score (Z.max 1 (search_ef efSearch k g)) 0 [ep] near ∧
    L ≡ₚ filter (λ c, f (in_ID c) = true) near ∧ StronglySorted by_score_desc L ∧
    Search score k f efSearch s g = take (Z.to_nat k) L.
Proof.
  intros Hwf H0 Hk Hs. pose proof (gw_nodes g Hwf) as Hg. unfold Search.
  replace (Size g =? 0) with false by lia. replace (k <=? 0) with false by lia. cbn [orb].
  destruct (entry_top g Hwf ltac:(lia)) as [Hent Hml].
  destruct (reset_spec (byID_len g + 1) s Hs) as (R1 & _).
  destruct (descend_spec (Z.to_nat (MaxLayer g)) g score (MaxLayer g) (EntryPoint g)
    (reset (byID_len g + 1) s) Hg R1) as [Hep Hs1]; [exists (MaxLayer g); split; [done|lia]|].
  destruct (descend _ _ _ _ _ _) as [ep s1]. cbn [fst snd] in Hep, Hs1.
  destruct (reset_spec (byID_len g + 1) s1 Hs1) as (Q1 & Q2 & Q3 & Q4 & Q5).
  destruct (searchLayer_spec g score [ep] (search_ef efSearch k g) 0 (Some f) (reset (byID_len g + 1) s1)
    (nodes_ids g Hg) ltac:(by unfold fresh_scratch) ltac:(apply Z.le_max_l)) as (near & Hf & Hp & Hso & _).
  destruct (searchLayer _ _ _ _ _ _ _) as [L s2]. cbn [fst snd] in *.
  exists ep, near, L. conjs; [|done|done|done|].
  - eapply on_layer_mono; [|exact Hep]. lia.
  - destruct (Z.gtb_spec (zlen L) k) as [|Hle]; [done|]. rewrite take_ge; [done|]. unfold zlen in Hle. lia.
Qed.

(** Whatever the graph: the answers are distinct rows of the graph that pass the
    filter, with their scores, at most [k], the best first. *)
Lemma Search_sound score k f efSearch s g :
  graph_wf g → scratch_ok s →
  let r := Search score k f efSearch s g in
  NoDup (in_ID <$> r) ∧ zlen r ≤ Z.max 0 k ∧ StronglySorted by_score_desc r ∧
  ∀ c, c ∈ r → is_Some (node g (in_ID c)) ∧ f (in_ID c) = true ∧ in_Score c = score (in_ID c).
Proof.
  intros Hg Hs r. subst r. destruct (decide (Size g = 0 ∨ k ≤ 0)) as [H0|H0].
  { unfold Search. replace ((Size g =? 0) || (k <=? 0)) with true by lia.
    conjs; [constructor|unfold zlen; cbn; lia|constructor|]. by intros c ?%not_elem_of_nil. }
  destruct (Search_layer score k f efSearch s g Hg ltac:(lia) ltac:(lia) Hs)
    as (ep & near & L & Hep & (Hnd & _ & Hin & _) & Hp & Hso & ->).
  assert (HL : ∀ c, c ∈ L → c ∈ near ∧ f (in_ID c) = true).
  { intros c Hc. rewrite Hp in Hc. by apply list_elem_of_filter in Hc as [? ?]. }
  conjs.
  - eapply sublist_NoDup; [|apply fmap_sublist, sublist_take].
    rewrite (fmap_Permutation _ _ _ Hp). eapply sublist_NoDup; [exact Hnd|apply fmap_sublist, sublist_filter].
  - unfold zlen. rewrite length_take. lia.
  - rewrite <- (take_drop (Z.to_nat k) L) in Hso. by apply StronglySorted_app in Hso as (_ & ? & _).
  - intros c Hc. assert (Hc' : c ∈ L) by (by eapply elem_of_sublist; [|apply sublist_take]).
    destruct (HL c Hc') as [Hn Hf']. destruct (Hin c Hn) as (Hr & _ & Hsc). conjs; [|done|done].
    by eapply on_layer_node, reach_layer; [apply (gw_nodes _ Hg)|apply one_entry|].
Qed.

(** ** The index of at most 33 rows *)
Lemma links_ef nscore row lc lim nbs g : EfSearch (foldl (link nscore row lc lim) g nbs) = EfSearch g.
Proof. revert g. induction nbs as [|nb nbs IH]; intros g; cbn [foldl]; [done|]. by rewrite IH. Qed.

Lemma connect_all_ef nscore n row lc g eps s : EfSearch (connect_all nscore n row lc g eps s) = EfSearch g.
Proof.
  revert lc g eps s. induction n as [|n IH]; intros lc g eps s; cbn [connect_all]; [done|].
  unfold connect. destruct (searchLayer _ _ _ _ _ _ _) as [nb s']. by rewrite IH, links_ef.
Qed.

Lemma Insert_ef level nscore row s g : EfSearch (Insert level nscore row s g) = EfSearch g.
Proof.
  unfold Insert. case_match; [done|]. destruct (descend _ _ _ _ _ _) as [ep s'].
  case_match; cbn; by rewrite connect_all_ef.
Qed.

Lemma build_ef level nscore rows : EfSearch (build level nscore rows) = DefaultEfSearch.
Proof.
  induction rows as [|[row s] rows IH] using rev_ind; [done|]. by rewrite build_snoc, Insert_ef.
Qed.

Lemma buildable_snoc level rows row s :
  buildable level (rows ++ [(row, s)]) →
  buildable level rows ∧ (row ∉ rows.*1) ∧ 0 ≤ row < 2 ^ 63 ∧ 0 ≤ level row ≤ 64 ∧ scratch_ok s.
Proof.
  intros [Hnd HF]. rewrite fmap_app in Hnd. apply NoDup_app in Hnd as (Hnd & Hx & _).
  apply Forall_app in HF as [HF Hrow]. rewrite Forall_singleton in Hrow. split; [by split|]. split; [|exact Hrow].
  intros Hin. apply (Hx row Hin). by left.
Qed.

Lemma build_complete level nscore rows :
  buildable level rows → (length rows ≤ 33)%nat → complete (λ _, False) (build level nscore rows).
Proof.
  induction rows as [|[row s] rows IH] using rev_ind; intros Hb Hlen.
  { intros a b [n Hn]. unfold build, node in Hn. cbn in Hn. by rewrite lookup_empty in Hn. }
  apply buildable_snoc in Hb as (Hb & Hx & Hrow & HL & Hs). rewrite length_app in Hlen. cbn in Hlen.
  rewrite build_snoc. destruct (graph_build_wf level nscore rows Hb) as [Hg Hl]. apply Insert_complete; [done| |done|apply IH; auto; lia|].
  - split; [|done]. apply eq_None_not_Some. by rewrite (build_nodes level nscore rows row Hb).
  - pose proof (gw_size _ Hg) as Hsz. rewrite build_size in Hsz by done. unfold zlen in Hsz. lia.
Qed.

(** The scored rows that pass the filter: a scan of all the rows. *)
Definition scan (score : Z → single) (f : Z → bool) (rows : list Z) : list intNode :=
  (λ r, {| in_ID := r; in_Score := score r |}) <$> filter (λ r, f r = true) rows.

Lemma found_all score f near rows :
  NoDup (in_ID <$> near) → NoDup rows → (∀ x, x ∈ in_ID <$> near ↔ x ∈ rows) →
  (∀ c, c ∈ near → in_Score c = score (in_ID c)) →
  filter (λ c, f (in_ID c) = true) near ≡ₚ scan score f rows.
Proof.
  intros Hnd Hr Hin Hsc. apply NoDup_Permutation.
  - apply NoDup_filter. by eapply NoDup_fmap_1.
  - apply NoDup_fmap_2; [by intros x y [= ->]|by apply NoDup_filter].
  - intros [x v]. unfold scan. rewrite list_elem_of_filter, list_elem_of_fmap. cbn. split.
    + intros [Hf Hc]. exists x. pose proof (Hsc _ Hc) as Hv. cbn in Hv. rewrite Hv. split; [done|]. apply list_elem_of_filter. split; [done|].
      apply Hin, list_elem_of_fmap. by exists {| in_ID := x; in_Score := v |}.
    + intros (y & [= -> ->] & [Hf Hy]%list_elem_of_filter). split; [done|].
      apply Hin in Hy as ([y' v'] & -> & Hc)%list_elem_of_fmap. pose proof (Hsc _ Hc) as Hv. cbn in Hv. by subst v'.
Qed.

(** A search of a complete layer 0 that is as wide as the graph. *)
Lemma Search_all score k f efSearch s g rows :
  graph_wf g → complete (λ _, False) g → scratch_ok s → 0 < k →
  NoDup rows → (∀ x, x ∈ rows ↔ is_Some (node g x)) → zlen rows ≤ search_ef efSearch k g →
  ∃ L, L ≡ₚ scan score f rows ∧ StronglySorted by_score_desc L ∧
    Search score k f efSearch s g = take (Z.to_nat k) L.
Proof.
  intros Hg Hc Hs Hk Hnd Hrows Hef.
  assert (Hsz : Size g = zlen rows).
  { rewrite (gw_size g Hg), <- size_dom.
    assert (dom (Nodes g) = list_to_set (C := gset Z) rows) as ->.
    { apply set_eq. intros x. rewrite elem_of_dom, elem_of_list_to_set. symmetry. apply Hrows. }
    by rewrite size_list_to_set by done. }
  destruct (decide (rows = [])) as [->|Hne].
  { exists []. conjs; [done|constructor|]. unfold Search. rewrite Hsz. by rewrite take_nil. }
  assert (zlen rows ≠ 0) by (destruct rows; [done|unfold zlen; cbn; lia]).
  destruct (Search_layer score k f efSearch s g Hg ltac:(lia) Hk Hs) as (ep & near & L & Hep & Hf & Hp & Hso & HS).
  exists L. split; [|by split]. rewrite Hp. pose proof Hf as (Hnd' & _ & Hin & _).
  apply found_all; [done|done| |by intros c Hc'; apply (Hin c Hc')].
  intros x. rewrite Hrows. split.
  - intros (c & -> & Hc')%list_elem_of_fmap. destruct (Hin c Hc') as [Hr _].
    by eapply on_layer_node, reach_layer; [apply (gw_nodes _ Hg)|apply one_entry|].
  - intros Hx. eapply (found_neighbours g score _ ep); [apply (gw_nodes _ Hg)|done| |exact Hf|].
    + rewrite <- (gw_size _ Hg), Hsz. lia.
    + destruct (decide (x = ep)); [by left|right]. apply Hc; auto. by eapply on_layer_node.
Qed.

(** C40: a search of any graph built by insertions answers at most [k]
    distinct rows of the graph, all of which pass the filter, each with its own
    score, the best first. While the graph holds at most 33 rows, [k] is positive
    and the width is the default one (no width, or none that is positive, is given)
    or [k] or the given width is at least the number of rows, the answer is exactly
    the first [k] rows of a scan of all the rows sorted by score. A smaller width
    may miss rows: with width 1 a filter that rejects the best row leaves nothing. *)
Theorem hnsw_search level nscore rows score k f efSearch s :
  buildable level rows → scratch_ok s →
  let r := Search score k f efSearch s (build level nscore rows) in
  (NoDup (in_ID <$> r) ∧ zlen r ≤ Z.max 0 k ∧ StronglySorted by_score_desc r ∧
   ∀ c, c ∈ r → in_ID c ∈ rows.*1 ∧ f (in_ID c) = true ∧ in_Score c = score (in_ID c)) ∧
  (zlen rows ≤ 33 → 0 < k → efSearch ≤ 0 ∨ zlen rows ≤ Z.max k efSearch →
   ∃ L, L ≡ₚ scan score f rows.*1 ∧ StronglySorted by_score_desc L ∧ r = take (Z.to_nat k) L).
Proof.
  intros Hb Hs r. destruct (graph_build_wf level nscore rows Hb) as [Hg _]. split.
  { destruct (Search_sound score k f efSearch s _ Hg Hs) as (H1 & H2 & H3 & H4). conjs; [done..|].
    intros c Hc. destruct (H4 c Hc) as (Hn & ? & ?). by rewrite <- (build_nodes level nscore rows _ Hb). }
  intros H33 Hk Hef. apply Search_all; [done| |done|done|apply Hb| |].
  - apply build_complete; [done|unfold zlen in H33; lia].
  - intros x. by rewrite (build_nodes level nscore rows x Hb).
  - unfold search_ef. rewrite build_ef. unfold DefaultEfSearch, zlen in *. rewrite length_fmap.
    destruct (Z.leb_spec efSearch 0) as [Hle|Hgt].
    + change (80 <=? 0) with false. cbv iota. destruct (Z.gtb_spec k 80); lia.
    + replace (efSearch <=? 0) with false by lia. destruct (Z.gtb_spec k efSearch); lia.
Qed.

Definition demo_rows : list (Z * searchScratch) := (λ r, (r, new_scratch)) <$> [0; 1; 2; 3; 4; 5; 6].

Lemma new_scratch_ok : scratch_ok new_scratch.
Proof. unfold scratch_ok. apply (bool_decide_unpack _). vm_compute. exact I. Qed.

Lemma demo_buildable : buildable demo_level demo_rows.
Proof.
  split; [apply (bool_decide_unpack _); vm_compute; exact I|].
  apply Forall_fmap. repeat constructor; try (vm_compute; by intros).
Qed.

Lemma hnsw_validates_witness :
  buildable demo_level demo_rows ∧ Validate 7 (build demo_level demo_nscore demo_rows) = true.
Proof. split; [exact demo_buildable|]. exact (proj1 (hnsw_validates demo_level demo_nscore demo_rows demo_buildable)). Defined.

Lemma hnsw_search_witness :
  buildable demo_level demo_rows ∧
  ∃ L, L ≡ₚ scan (demo_nscore 6) (λ r, negb (r =? 5)) demo_rows.*1 ∧ StronglySorted by_score_desc L ∧
    Search (demo_nscore 6) 3 (λ r, negb (r =? 5)) 0 new_scratch (build demo_level demo_nscore demo_rows) = take 3 L.
Proof.
  split; [exact demo_buildable|].
  apply (proj2 (hnsw_search demo_level demo_nscore demo_rows (demo_nscore 6) 3 (λ r, negb (r =? 5)) 0 new_scratch
    demo_buildable new_scratch_ok)); [done|lia|by left].
Defined.

(** A search of width 1 whose best row is rejected by the filter. *)
Example narrow_search_misses :
  Search (demo_nscore 6) 1 (λ r, negb (r =? 6)) 1 new_scratch (build demo_level demo_nscore demo_rows) = [] ∧
  in_ID <$> Search (demo_nscore 6) 1 (λ r, negb (r =? 6)) 0 new_scratch (build demo_level demo_nscore demo_rows) = [5].
Proof. vm_compute. split; reflexivity. Qed.
