(* ===== verification/VectorRows.v ===== *)
(** * Rows of vectors ([engine/vector_encoding.go], [engine/vector_space.go], the
      quantization of [engine/vector.go] and the scores of [engine/hnsw.go])

    A row is the bytes of one vector in the mapped file: with [sq8] one signed
    byte per coordinate, the scale and the squared norm of what they stand for;
    with [float32] the coordinates and the norm. A vector is a list of bit
    patterns ([float32]); its coordinates are the numbers they denote. Products
    and sums are rounded one by one (no fused multiply-add). *)

From S2P Require Import Prelude GoStd Types GoFloat VectorPayload Float32 Hnsw.
From Stdlib Require Import Floats.SpecFloat.
Open Scope Z_scope.

(** ** Encodings *)
Definition EncodingSQ8 : string := "sq8".
Definition EncodingFloat32 : string := "float32".

Definition NormalizeVectorEncoding (value : string) : res string string :=
  let v := ToLower (TrimSpace value) in
  if bool_decide (v = "" ∨ v = EncodingSQ8 ∨ v = "int8")%string then Ok EncodingSQ8
  else if bool_decide (v = EncodingFloat32 ∨ v = "fp32")%string then Ok EncodingFloat32
  else Err ("vector encoding " ++ quoted value ++ " is not supported; use sq8 or float32")%string.

Definition is_f32 (encoding : string) : bool := bool_decide (encoding = EncodingFloat32).

Definition VectorRowSize (dim : Z) (encoding : string) : Z :=
  if is_f32 encoding then dim * 4 + 4 else dim + 8.

(** ** Spaces of an index *)
Definition maxSpaceNameBytes : Z := 64.
Definition vectorSpaceMark : list byte := z2b 0 :: bytes_of "spc:".
Definition vectorSpaceSep : byte := z2b 31.

Definition space_byte (b : byte) : bool :=
  let c := b2z b in
  ((97 <=? c) && (c <=? 122)) || ((65 <=? c) && (c <=? 90)) || ((48 <=? c) && (c <=? 57)) ||
  (c =? 95) || (c =? 45) || (c =? 46).

Definition ValidateSpaceName (name : string) : res string unit :=
  if bool_decide (name = ""%string) then Err "space name must not be empty"%string
  else if strlen name >? maxSpaceNameBytes then
    Err ("space name must be at most " ++ FormatInt maxSpaceNameBytes ++ " bytes")%string
  else if forallb space_byte (bytes_of name) then Ok tt
  else Err "space name may contain letters, digits, '_', '-', and '.' only"%string.

Definition VectorSpaceKey (index space : string) : string :=
  if bool_decide (space = ""%string) then index
  else str_of (vectorSpaceMark ++ bytes_of index ++ vectorSpaceSep :: bytes_of space).

(** ** Quantization *)
Definition int8_of (b : byte) : Z := if b2z b <? 128 then b2z b else b2z b - 256.
Definition i8 (z : Z) : Z := (z + 2 ^ 7) mod 2 ^ 8 - 2 ^ 7.
Definition i32 (z : Z) : Z := (z + 2 ^ 31) mod 2 ^ 32 - 2 ^ 31.

Definition abs32 (v : single) : single := if SFltb v f32_zero then SFopp v else v.
Definition max_abs (vec : list single) : single :=
  foldl (λ maxAbs v, let absV := abs32 v in if SFltb maxAbs absV then absV else maxAbs) f32_zero vec.

Definition sq8_scale (vec : list single) : single :=
  let scale := f32_div (max_abs vec) (f32_of_int 127) in
  if SFeqb scale f32_zero then f32_one else scale.

Definition sq8_code (scale v : single) : Z :=
  let q := round_int (f32_div v scale) in
  if q >? 127 then 127 else if q <? -127 then -127 else q.

(** The codes, the scale and the squared norm of the reconstruction. *)
Definition quantizeInto (vec : list single) : list Z * single * single :=
  let scale := sq8_scale vec in
  let '(qVec, reconNorm) :=
    foldl (λ '(qVec, reconNorm) v,
      let q := sq8_code scale v in
      let recon := f32_mul (f32_of_int q) scale in
      (qVec ++ [i8 q], f32_add reconNorm (f32_mul recon recon))) ([], f32_zero) vec in
  (qVec, scale, reconNorm).

Definition writeSQ8 (qVec : list Z) (scale norm : single) : list byte :=
  map z2b qVec ++ le_put 4 (Float32bits scale) ++ le_put 4 (Float32bits norm).

(** The same in one pass, straight into the row. *)
Definition writeQuantized (vec : list single) : list byte :=
  let scale := sq8_scale vec in
  let '(dst, reconNorm) :=
    foldl (λ '(dst, reconNorm) v,
      let q := sq8_code scale v in
      let recon := f32_mul (f32_of_int (i8 q)) scale in
      (dst ++ [z2b (i8 q)], f32_add reconNorm (f32_mul recon recon))) ([], f32_zero) vec in
  dst ++ le_put 4 (Float32bits scale) ++ le_put 4 (Float32bits reconNorm).

Definition readSQ8 (src : list byte) (dim : Z) : list single :=
  let scale := Float32frombits (le_get (sub src dim (dim + 4))) in
  (λ b, f32_mul (f32_of_int (int8_of b)) scale) <$> take (Z.to_nat dim) src.

(** ** Rows of floats *)
Definition l2Norm (vector : list single) : single :=
  f32_sqrt (foldl (λ squared v, f32_add squared (f32_mul v v)) f32_zero vector).

Definition coords (vec : list float32) : list single := Float32frombits <$> vec.

Definition writeFloat32Row (vec : list float32) : list byte :=
  mjoin (le_put 4 <$> vec) ++ le_put 4 (Float32bits (l2Norm (coords vec))).

Definition readFloat32Row (src : list byte) (dim : Z) : list float32 :=
  (λ i : nat, le_get (sub src (Z.of_nat i * 4) (Z.of_nat i * 4 + 4))) <$> seq 0 (Z.to_nat dim).

(** ** One row, in the encoding of the index *)
Definition encodeRow (encoding : string) (vec : list float32) : list byte :=
  if is_f32 encoding then writeFloat32Row vec else writeQuantized (coords vec).

Definition decodeRow (encoding : string) (dim : Z) (src : list byte) : list float32 :=
  if is_f32 encoding then readFloat32Row src dim else Float32bits <$> readSQ8 src dim.

(** ** Inverse norms *)
Definition invScale (scale reconNorm : single) : single :=
  if SFleb reconNorm f32_zero then f32_zero else f32_div scale (f32_sqrt reconNorm).

Definition mmapRowInv (mmap : list byte) (dim row : Z) : single :=
  let rowSize := dim + 8 in
  let off := row * rowSize in
  if (off <? 0) || (off + rowSize >? zlen mmap) then f32_zero
  else
    let scale := Float32frombits (le_get (sub mmap (off + dim) (off + dim + 4))) in
    let recon := Float32frombits (le_get (sub mmap (off + dim + 4) (off + dim + 8))) in
    invScale scale recon.

Definition mmapRowInvEncoded (mmap : list byte) (dim row : Z) (encoding : string) : single :=
  if is_f32 encoding then
    let rowSize := VectorRowSize dim EncodingFloat32 in
    let off := row * rowSize in
    if (off <? 0) || (off + rowSize >? zlen mmap) then f32_zero
    else
      let norm := Float32frombits (le_get (sub mmap (off + dim * 4) (off + dim * 4 + 4))) in
      if SFeqb norm f32_zero then f32_zero else f32_div f32_one norm
  else mmapRowInv mmap dim row.

(** ** Sums of products, eight terms at a time *)
Section Unrolled.
Context {A : Type} (add : A → A → A) (t : nat → A).

(** [for ; i+7 < dim; i += 8] *)
Fixpoint blocks (fuel i dim : nat) (dot : A) : nat * A :=
  match fuel with
  | O => (i, dot)
  | S fuel' =>
      if (i + 7 <? dim)%nat then
        blocks fuel' (i + 8) dim
          (add dot (add (add (add (add (add (add (add (t i) (t (i + 1))) (t (i + 2))) (t (i + 3)))
             (t (i + 4))) (t (i + 5))) (t (i + 6))) (t (i + 7))))
      else (i, dot)
  end%nat.

(** [for ; i < dim; i++] *)
Fixpoint singles (fuel i dim : nat) (dot : A) : A :=
  match fuel with
  | O => dot
  | S fuel' => if (i <? dim)%nat then singles fuel' (i + 1) dim (add dot (t i)) else dot
  end.

Definition unrolled (dim : nat) (dot : A) : A :=
  let '(i, dot) := blocks dim 0 dim dot in singles dim i dim dot.
End Unrolled.

Definition int8DotBytes (a b : list byte) (dim : Z) : Z :=
  unrolled (λ x y, i32 (x + y)) (λ i, i32 (int8_of (nth i a (z2b 0)) * int8_of (nth i b (z2b 0)))) (Z.to_nat dim) 0.

Definition int8DotQuery (q : list Z) (row : list byte) (dim : Z) : Z :=
  unrolled (λ x y, i32 (x + y)) (λ i, i32 (nth i q 0 * int8_of (nth i row (z2b 0)))) (Z.to_nat dim) 0.

(** ** Scores *)
Definition is_zero (x : single) : bool := SFeqb x f32_zero.
Definition row_inv (rowInv : list single) (row : Z) : single := nth (Z.to_nat row) rowInv f32_zero.
Definition from {A} (off : Z) (l : list A) : list A := drop (Z.to_nat off) l.

Definition cosineSQ8Rows (mmap : list byte) (dim rowA rowB : Z) (rowInv : list single) : single :=
  if (rowA <? 0) || (rowB <? 0) || (rowA >=? zlen rowInv) || (rowB >=? zlen rowInv) then f32_zero
  else
    let invA := row_inv rowInv rowA in
    let invB := row_inv rowInv rowB in
    if is_zero invA || is_zero invB then f32_zero
    else
      let rowSize := dim + 8 in
      let offA := rowA * rowSize in
      let offB := rowB * rowSize in
      if (offA <? 0) || (offB <? 0) || (offA + dim >? zlen mmap) || (offB + dim >? zlen mmap) then f32_zero
      else f32_mul (f32_mul (f32_of_int (int8DotBytes (from offA mmap) (from offB mmap) dim)) invA) invB.

Definition cosineSQ8Query (q8 : list Z) (qInv : single) (mmap : list byte) (dim row : Z) (rowInv : list single)
    : single :=
  if is_zero qInv || (row <? 0) || (row >=? zlen rowInv) || is_zero (row_inv rowInv row) then f32_zero
  else
    let off := row * (dim + 8) in
    if (off <? 0) || (off + dim >? zlen mmap) then f32_zero
    else f32_mul (f32_mul (f32_of_int (int8DotQuery q8 (from off mmap) dim)) qInv) (row_inv rowInv row).

Definition cosineF32Query (query : list single) (queryNorm : single) (mmap : list byte) (dim row : Z)
    (rowInv : list single) : single :=
  let inv := if (row >=? 0) && (row <? zlen rowInv) then row_inv rowInv row else mmapRowInv mmap dim row in
  if is_zero queryNorm || is_zero inv then f32_zero
  else
    let off := row * (dim + 8) in
    if (off <? 0) || (off + dim >? zlen mmap) then f32_zero
    else
      let rowBytes := from off mmap in
      let dot := unrolled f32_add
        (λ i, f32_mul (nth i query f32_zero) (f32_of_int (int8_of (nth i rowBytes (z2b 0))))) (Z.to_nat dim) f32_zero in
      f32_div (f32_mul dot inv) queryNorm.

Definition f32_at (mmap : list byte) (off : Z) : single := Float32frombits (le_get (sub mmap off (off + 4))).

Definition cosineF32Native (query : list single) (queryNorm : single) (mmap : list byte) (dim row : Z)
    (rowInv : list single) : single :=
  let inv := if (row >=? 0) && (row <? zlen rowInv) then row_inv rowInv row
             else mmapRowInvEncoded mmap dim row EncodingFloat32 in
  if is_zero queryNorm || is_zero inv then f32_zero
  else
    let off := row * VectorRowSize dim EncodingFloat32 in
    if (off <? 0) || (off + dim * 4 >? zlen mmap) then f32_zero
    else
      let dot := foldl (λ dot i, f32_add dot (f32_mul (nth i query f32_zero) (f32_at mmap (off + Z.of_nat i * 4))))
                   f32_zero (seq 0 (Z.to_nat dim)) in
      f32_div (f32_mul dot inv) queryNorm.

Definition cosineF32Rows (mmap : list byte) (dim rowA rowB : Z) (rowInv : list single) : single :=
  if (rowA <? 0) || (rowB <? 0) || (rowA >=? zlen rowInv) || (rowB >=? zlen rowInv) then f32_zero
  else
    let invA := row_inv rowInv rowA in
    let invB := row_inv rowInv rowB in
    if is_zero invA || is_zero invB then f32_zero
    else
      let rowSize := VectorRowSize dim EncodingFloat32 in
      let offA := rowA * rowSize in
      let offB := rowB * rowSize in
      if (offA <? 0) || (offB <? 0) || (offA + dim * 4 >? zlen mmap) || (offB + dim * 4 >? zlen mmap) then f32_zero
      else
        let dot := foldl (λ dot i, f32_add dot
                      (f32_mul (f32_at mmap (offA + Z.of_nat i * 4)) (f32_at mmap (offB + Z.of_nat i * 4))))
                     f32_zero (seq 0 (Z.to_nat dim)) in
        f32_mul (f32_mul dot invA) invB.

Definition neighborScore (mmap : list byte) (dim rowA rowB : Z) (rowInv : list single) (encoding : string) : single :=
  if is_f32 encoding then cosineF32Rows mmap dim rowA rowB rowInv else cosineSQ8Rows mmap dim rowA rowB rowInv.

Record sq8Query := {
  q_q8 : list Z; q_qInv : single; q_qf32 : list single; q_qNorm : single;
  q_mmap : list byte; q_dim : Z; q_rowInv : list single; q_queryRow : Z; q_encoding : string
}.

Definition score (q : sq8Query) (row : Z) : single :=
  if is_f32 (q_encoding q) then
    if q_queryRow q >=? 0 then cosineF32Rows (q_mmap q) (q_dim q) (q_queryRow q) row (q_rowInv q)
    else cosineF32Native (q_qf32 q) (q_qNorm q) (q_mmap q) (q_dim q) row (q_rowInv q)
  else if q_queryRow q >=? 0 then cosineSQ8Rows (q_mmap q) (q_dim q) (q_queryRow q) row (q_rowInv q)
  else cosineSQ8Query (q_q8 q) (q_qInv q) (q_mmap q) (q_dim q) row (q_rowInv q).

Definition demo_vec : list float32 := [1065353216; 3221225472; 1056964608].   (* 1, -2, 0.5 *)

Example rows_demo :
  map int8_of (take 3 (encodeRow EncodingSQ8 demo_vec)) = [64; -127; 32] ∧
  decodeRow EncodingFloat32 3 (encodeRow EncodingFloat32 demo_vec) = demo_vec ∧
  int8DotBytes (encodeRow EncodingSQ8 demo_vec) (encodeRow EncodingSQ8 demo_vec) 3 = 21249 ∧
  NormalizeVectorEncoding " FP32 " = Ok EncodingFloat32.
Proof. vm_compute. done. Qed.

(** ** Codes *)
Lemma sq8_code_range scale v : -127 ≤ sq8_code scale v ≤ 127.
Proof. unfold sq8_code. repeat case_match; lia. Qed.

Lemma i8_id z : -128 ≤ z < 128 → i8 z = z.
Proof. intros. unfold i8. rewrite Z.mod_small; lia. Qed.

Lemma int8_of_range b : -128 ≤ int8_of b < 128.
Proof. unfold int8_of. pose proof (b2z_range b). destruct (Z.ltb_spec (b2z b) 128); lia. Qed.

Lemma int8_of_z2b z : -128 ≤ z < 128 → int8_of (z2b z) = z.
Proof.
  intros Hz. unfold int8_of. rewrite b2z_z2b. unfold u8. destruct (decide (0 ≤ z)).
  - rewrite Z.mod_small by lia. destruct (Z.ltb_spec z 128); lia.
  - rewrite <- (Z.mod_unique z (2 ^ 8) (-1) (z + 256)) by lia. destruct (Z.ltb_spec (z + 256) 128); lia.
Qed.

(** What both quantizers accumulate. *)
Definition recon_norm (scale : single) (vec : list single) : single :=
  foldl (λ r v, let recon := f32_mul (f32_of_int (sq8_code scale v)) scale in f32_add r (f32_mul recon recon))
    f32_zero vec.

Lemma quantize_fold {B} (f : Z → B) scale vec :
  foldl (λ '(out, r) v,
      let q := sq8_code scale v in
      let recon := f32_mul (f32_of_int q) scale in
      (out ++ [f q], f32_add r (f32_mul recon recon))) ([], f32_zero) vec
  = (map (λ v, f (sq8_code scale v)) vec, recon_norm scale vec).
Proof.
  induction vec as [|v vec IH] using rev_ind; [done|].
  rewrite foldl_snoc, IH, map_app. unfold recon_norm. by rewrite foldl_snoc.
Qed.

Lemma foldl_ext_fun {A B} (f g : A → B → A) a l : (∀ a b, f a b = g a b) → foldl f a l = foldl g a l.
Proof. intros H. revert a. induction l as [|b l IH]; intros a; cbn; [done|]. by rewrite H, IH. Qed.

Lemma quantizeInto_eq vec :
  quantizeInto vec = (map (sq8_code (sq8_scale vec)) vec, sq8_scale vec, recon_norm (sq8_scale vec) vec).
Proof.
  unfold quantizeInto. rewrite (quantize_fold i8). f_equal. f_equal. apply map_ext. intros v.
  apply i8_id. pose proof (sq8_code_range (sq8_scale vec) v). lia.
Qed.

Lemma writeQuantized_eq vec :
  writeQuantized vec =
  map z2b (map (sq8_code (sq8_scale vec)) vec) ++ le_put 4 (Float32bits (sq8_scale vec))
    ++ le_put 4 (Float32bits (recon_norm (sq8_scale vec) vec)).
Proof.
  unfold writeQuantized. set (scale := sq8_scale vec). rewrite (foldl_ext_fun _ (λ '(out, r) v,
      let q := sq8_code scale v in
      let recon := f32_mul (f32_of_int q) scale in
      (out ++ [z2b q], f32_add r (f32_mul recon recon)))).
  - rewrite (quantize_fold z2b), map_map. done.
  - intros [out r] v. pose proof (sq8_code_range scale v). by rewrite i8_id by lia.
Qed.

Lemma writeQuantized_writeSQ8 vec :
  writeQuantized vec = let '(qVec, scale, norm) := quantizeInto vec in writeSQ8 qVec scale norm.
Proof. rewrite writeQuantized_eq, quantizeInto_eq. done. Qed.

Lemma sub_app_mid {A} (a b c : list A) i j : zlen a = i → zlen b = j - i → sub (a ++ b ++ c) i j = b.
Proof.
  intros Ha Hb. unfold sub, zlen in *. rewrite drop_app_length' by lia. by rewrite take_app_length' by lia.
Qed.

(** ** Reading back what was written *)
Lemma sq8_scale_ok vec : single_ok (sq8_scale vec) = true.
Proof. unfold sq8_scale. case_match; [done|]. apply f32_div_ok. Qed.

Lemma readSQ8_write vec :
  readSQ8 (writeQuantized vec) (zlen vec)
  = (λ v, f32_mul (f32_of_int (sq8_code (sq8_scale vec) v)) (sq8_scale vec)) <$> vec.
Proof.
  pose proof (sq8_scale_ok vec) as Hok. unfold readSQ8. rewrite writeQuantized_eq. set (codes := map z2b _).
  assert (Hc : zlen codes = zlen vec) by (unfold zlen, codes; by rewrite !length_map).
  rewrite sub_app_mid; [|done|unfold zlen; rewrite length_le_put; lia].
  rewrite le_get_put_small by (by apply Float32bits_range). rewrite frombits_bits by done.
  unfold zlen in *. rewrite take_app_length' by lia. unfold codes. clear. generalize (sq8_scale vec). intros scale.
  induction vec as [|v vec IH]; [done|]. cbn [map]. rewrite !fmap_cons, IH. f_equal.
  pose proof (sq8_code_range scale v). by rewrite int8_of_z2b by lia.
Qed.

Lemma length_le_vec vec : length (mjoin (le_put 4 <$> vec)) = (4 * length vec)%nat.
Proof.
  induction vec as [|v vec IH]; [done|]. rewrite fmap_cons.
  change (mjoin (?x :: ?l)) with (x ++ mjoin l). rewrite length_app, length_le_put, IH. cbn. lia.
Qed.

Lemma le_vec_nth vec rest (i : nat) v :
  Forall f32_ok vec → vec !! i = Some v →
  le_get (sub (mjoin (le_put 4 <$> vec) ++ rest) (Z.of_nat i * 4) (Z.of_nat i * 4 + 4)) = v.
Proof.
  intros HF. revert i. induction HF as [|w vec Hw _ IH]; intros i Hi; [done|].
  rewrite fmap_cons. change (mjoin (?x :: ?l)) with (x ++ mjoin l). rewrite <- app_assoc.
  destruct i as [|i]; cbn in Hi.
  - injection Hi as ->. unfold sub. cbn [Z.of_nat]. rewrite drop_0, take_app_length' by (by rewrite length_le_put).
    by apply le_get_put_small.
  - rewrite <- (IH i Hi). unfold sub. replace (Z.to_nat (Z.of_nat (S i) * 4)) with (4 + Z.to_nat (Z.of_nat i * 4))%nat by lia.
    rewrite <- drop_drop, drop_app_length' by (by rewrite length_le_put). f_equal. f_equal. lia.
Qed.

Lemma list_eq_seq {A} (l : list A) (f : nat → A) : (∀ i x, l !! i = Some x → f i = x) → f <$> seq 0 (length l) = l.
Proof.
  intros H. apply list_eq. intros i. destruct (decide (i < length l)%nat) as [Hi|Hi].
  - rewrite list_lookup_fmap, lookup_seq_lt by done. destruct (lookup_lt_is_Some_2 l i Hi) as [x Hx].
    rewrite Hx. cbn. f_equal. by apply H.
  - rewrite !lookup_ge_None_2; [done|lia|rewrite length_fmap, length_seq; lia].
Qed.

Lemma readFloat32Row_write vec : Forall f32_ok vec → readFloat32Row (writeFloat32Row vec) (zlen vec) = vec.
Proof.
  intros HF. unfold readFloat32Row, writeFloat32Row, zlen. rewrite Nat2Z.id. apply list_eq_seq. intros i x Hx.
  by apply le_vec_nth.
Qed.

Lemma length_encodeRow encoding vec : zlen (encodeRow encoding vec) = VectorRowSize (zlen vec) encoding.
Proof.
  unfold encodeRow, VectorRowSize. destruct (is_f32 encoding).
  - unfold writeFloat32Row. rewrite zlen_app. unfold zlen. rewrite length_le_vec, length_le_put. lia.
  - rewrite writeQuantized_eq, !zlen_app. unfold zlen, coords. rewrite !length_le_put, !length_map, ?length_fmap. lia.
Qed.

(** ** The sums of the unrolled loops *)
Lemma i32_id z : - 2 ^ 31 ≤ z < 2 ^ 31 → i32 z = z.
Proof. intros. unfold i32. rewrite Z.mod_small; lia. Qed.

Lemma i32_add_l x y : i32 (i32 x + y) = i32 (x + y).
Proof.
  unfold i32. f_equal. replace ((x + 2 ^ 31) mod 2 ^ 32 - 2 ^ 31 + y + 2 ^ 31) with ((x + 2 ^ 31) mod 2 ^ 32 + y) by lia.
  rewrite Zplus_mod_idemp_l. f_equal. lia.
Qed.

Lemma i32_add_r x y : i32 (x + i32 y) = i32 (x + y).
Proof. by rewrite Z.add_comm, i32_add_l, Z.add_comm. Qed.

Section Sums.
Variable t : nat → Z.
Variable B : Z.
Hypothesis t_bound : ∀ i, - B ≤ t i ≤ B.

Definition sum_to (n : nat) : Z := foldl (λ acc i, acc + t i) 0 (seq 0 n).

Lemma sum_to_S n : sum_to (S n) = sum_to n + t n.
Proof. unfold sum_to. rewrite seq_S, foldl_snoc. done. Qed.

Lemma sum_to_bound n : - (Z.of_nat n * B) ≤ sum_to n ≤ Z.of_nat n * B.
Proof. induction n as [|n IH]; [done|]. rewrite sum_to_S. pose proof (t_bound n). lia. Qed.

Abbreviation add32 := (λ x y, i32 (x + y)).

Lemma blocks_sum fuel i dim :
  (i ≤ dim)%nat → (dim ≤ i + fuel)%nat → Z.of_nat dim * B < 2 ^ 31 →
  ∃ j, blocks add32 t fuel i dim (sum_to i) = (j, sum_to j) ∧ (i ≤ j ≤ dim)%nat.
Proof.
  revert i. induction fuel as [|fuel IH]; intros i Hi Hf HB; cbn [blocks]; [by exists i|].
  destruct (Nat.ltb_spec (i + 7) dim) as [Hlt|]; [|by exists i].
  match goal with |- context [blocks _ _ fuel (i + 8) dim ?x] => set (s := x) end.
  assert (Hs : s = sum_to (i + 8)).
  { assert (H8 : sum_to (i + 8) = sum_to i + t i + t (i + 1) + t (i + 2) + t (i + 3) + t (i + 4) + t (i + 5)
      + t (i + 6) + t (i + 7)).
    { replace (i + 8)%nat with (S (S (S (S (S (S (S (S i)))))))) by lia. rewrite !sum_to_S.
      repeat (f_equal; try lia). }
    pose proof (sum_to_bound (i + 8)). pose proof (t_bound 0). assert (Z.of_nat (i + 8) * B < 2 ^ 31) by nia.
    subst s. repeat first [rewrite i32_add_l | rewrite <- Z.add_assoc | rewrite i32_add_r]. rewrite i32_id; lia. }
  rewrite Hs. destruct (IH (i + 8)%nat) as (j & Hj & Hr); [lia|lia|done|]. exists j. split; [done|lia].
Qed.

Lemma singles_sum fuel i dim :
  (i ≤ dim)%nat → (dim ≤ i + fuel)%nat → Z.of_nat dim * B < 2 ^ 31 →
  singles add32 t fuel i dim (sum_to i) = sum_to dim.
Proof.
  revert i. induction fuel as [|fuel IH]; intros i Hi Hf HB; cbn [singles]; [by replace dim with i by lia|].
  destruct (Nat.ltb_spec i dim) as [Hlt|]; [|by replace dim with i by lia].
  assert (Hs : add32 (sum_to i) (t i) = sum_to (i + 1)).
  { replace (i + 1)%nat with (S i) by lia. rewrite sum_to_S. apply i32_id.
    pose proof (sum_to_bound (S i)). rewrite sum_to_S in *. pose proof (t_bound 0). nia. }
  rewrite Hs. apply IH; [lia|lia|done].
Qed.

Lemma unrolled_sum dim : Z.of_nat dim * B < 2 ^ 31 → unrolled add32 t dim 0 = sum_to dim.
Proof.
  intros HB. unfold unrolled. change 0 with (sum_to 0) at 1.
  destruct (blocks_sum dim 0 dim ltac:(lia) ltac:(lia) HB) as (j & -> & Hj). apply singles_sum; [lia|lia|done].
Qed.
End Sums.

Lemma product_bound x y : -128 ≤ x < 128 → -128 ≤ y < 128 → -16384 ≤ x * y ≤ 16384.
Proof. nia. Qed.

(** The sum of products, over the integers. *)
Definition dot (x y : nat → Z) (n : nat) : Z := sum_to (λ i, x i * y i) n.

Lemma unrolled_products x y dim :
  (∀ i, -128 ≤ x i < 128) → (∀ i, -128 ≤ y i < 128) → (Z.of_nat dim ≤ 4096) →
  unrolled (λ a b, i32 (a + b)) (λ i, i32 (x i * y i)) dim 0 = dot x y dim ∧
  - 2 ^ 26 ≤ dot x y dim ≤ 2 ^ 26.
Proof.
  intros Hx Hy Hd. assert (Hp : ∀ i, -16384 ≤ x i * y i ≤ 16384) by (intros i; by apply product_bound).
  pose proof (sum_to_bound _ 16384 Hp dim) as Hs. unfold dot. split; [|lia].
  rewrite (unrolled_sum _ 16384); [|intros i; rewrite i32_id; specialize (Hp i); lia|lia].
  unfold sum_to. apply foldl_ext_fun. intros acc i. specialize (Hp i). by rewrite i32_id by lia.
Qed.

(** For every dimension the store accepts (up to 4096) the dot
    products of the graph search, computed eight terms at a time in 32-bit
    arithmetic, are the exact sums of the products of the signed bytes: no
    intermediate sum wraps around. *)
Theorem int8_dot_exact a b q dim :
  0 ≤ dim ≤ 4096 → Forall (λ z, -128 ≤ z < 128) q →
  int8DotBytes a b dim = dot (λ i, int8_of (nth i a (z2b 0))) (λ i, int8_of (nth i b (z2b 0))) (Z.to_nat dim) ∧
  int8DotQuery q b dim = dot (λ i, nth i q 0) (λ i, int8_of (nth i b (z2b 0))) (Z.to_nat dim) ∧
  Z.abs (int8DotBytes a b dim) ≤ 2 ^ 26 ∧ Z.abs (int8DotQuery q b dim) ≤ 2 ^ 26.
Proof.
  intros Hd Hq. assert (Hqi : ∀ i, -128 ≤ nth i q 0 < 128).
  { intros i. destruct (nth_in_or_default i q 0) as [Hin| ->]; [|lia].
    rewrite Forall_forall in Hq. apply Hq. by apply list_elem_of_In. }
  destruct (unrolled_products (λ i, int8_of (nth i a (z2b 0))) (λ i, int8_of (nth i b (z2b 0))) (Z.to_nat dim))
    as [H1 B1]; [intros; apply int8_of_range..|lia|].
  destruct (unrolled_products (λ i, nth i q 0) (λ i, int8_of (nth i b (z2b 0))) (Z.to_nat dim))
    as [H2 B2]; [done|intros; apply int8_of_range|lia|].
  unfold int8DotBytes, int8DotQuery. rewrite H1, H2. lia.
Qed.

Lemma int8_dot_exact_witness :
  int8DotBytes (encodeRow EncodingSQ8 demo_vec) (encodeRow EncodingSQ8 demo_vec) 3 = 21249 ∧
  int8DotQuery [64; -127; 32] (encodeRow EncodingSQ8 demo_vec) 3 = 21249.
Proof.
  destruct (int8_dot_exact (encodeRow EncodingSQ8 demo_vec) (encodeRow EncodingSQ8 demo_vec) [64; -127; 32] 3)
    as (H1 & H2 & _); [lia|repeat constructor; lia|]. rewrite H1, H2. clear. vm_compute. split; reflexivity.
Defined.

(** A row is as long as the stride of its encoding; a float32 row
    is read back bit for bit; an sq8 row is read back as its codes, all within
    ±127, times the scale of the vector; and the one-pass writer of sq8 rows
    stores what the two-step quantizer of queries computes. *)
Theorem row_roundtrip vec encoding :
  Forall f32_ok vec →
  zlen (encodeRow encoding vec) = VectorRowSize (zlen vec) encoding ∧
  decodeRow EncodingFloat32 (zlen vec) (encodeRow EncodingFloat32 vec) = vec ∧
  (let '(codes, scale, norm) := quantizeInto (coords vec) in
   encodeRow EncodingSQ8 vec = writeSQ8 codes scale norm ∧ Forall (λ c, -127 ≤ c ≤ 127) codes ∧
   decodeRow EncodingSQ8 (zlen vec) (encodeRow EncodingSQ8 vec)
     = (λ c, Float32bits (f32_mul (f32_of_int c) scale)) <$> codes).
Proof.
  intros HF. split; [apply length_encodeRow|]. split; [by apply readFloat32Row_write|].
  rewrite quantizeInto_eq. unfold encodeRow, decodeRow. change (is_f32 EncodingSQ8) with false. cbv iota. conjs.
  - by rewrite writeQuantized_writeSQ8, quantizeInto_eq.
  - apply Forall_forall. intros c Hc. apply list_elem_of_In, in_map_iff in Hc as (v & <- & _). apply sq8_code_range.
  - replace (zlen vec) with (zlen (coords vec)) by (unfold zlen, coords; by rewrite length_fmap).
    rewrite readSQ8_write by done. generalize (sq8_scale (coords vec)). intros scale. clear.
    induction (coords vec) as [|v l IH]; [done|]. cbn [map]. by rewrite !fmap_cons, IH.
Qed.

Lemma row_roundtrip_witness :
  Forall f32_ok demo_vec ∧ decodeRow EncodingFloat32 3 (encodeRow EncodingFloat32 demo_vec) = demo_vec.
Proof.
  assert (HF : Forall f32_ok demo_vec) by (unfold f32_ok, demo_vec; repeat constructor; lia).
  split; [exact HF|]. exact (proj1 (proj2 (row_roundtrip demo_vec EncodingSQ8 HF))).
Defined.

(** ** Space keys *)
Lemma last_sep (a b c d : list byte) (x : byte) :
  (x ∉ b) → (x ∉ d) → a ++ x :: b = c ++ x :: d → a = c ∧ b = d.
Proof.
  intros Hb Hd Heq. apply app_eq_inv in Heq as [(k & -> & Hk)|(k & -> & Hk)].
  - destruct k as [|y k]; [cbn in Hk; injection Hk as ->; by rewrite app_nil_r|].
    injection Hk as <- ->. exfalso. revert Hb Hd. rewrite elem_of_app, elem_of_cons. tauto.
  - destruct k as [|y k]; [cbn in Hk; injection Hk as ->; by rewrite app_nil_r|].
    injection Hk as <- ->. exfalso. revert Hb Hd. rewrite elem_of_app, elem_of_cons. tauto.
Qed.

Lemma ValidateSpaceName_bytes s : ValidateSpaceName s = Ok tt → s ≠ ""%string ∧ (vectorSpaceSep ∉ bytes_of s).
Proof.
  unfold ValidateSpaceName. case_bool_decide; [done|]. case_match; [done|]. destruct (forallb _ _) eqn:E; [|done].
  intros _. split; [done|]. intros Hin%list_elem_of_In. rewrite forallb_forall in E. by apply E in Hin.
Qed.

Lemma space_key_inj i1 s1 i2 s2 :
  ValidateSpaceName s1 = Ok tt → ValidateSpaceName s2 = Ok tt →
  VectorSpaceKey i1 s1 = VectorSpaceKey i2 s2 → i1 = i2 ∧ s1 = s2.
Proof.
  intros [H1 B1]%ValidateSpaceName_bytes [H2 B2]%ValidateSpaceName_bytes. unfold VectorSpaceKey.
  rewrite !bool_decide_eq_false_2 by done. intros Heq%(f_equal bytes_of). rewrite !bytes_of_str_of in Heq.
  apply app_inv_head, last_sep in Heq as [Hi Hs]; [|done|done].
  split; [by rewrite <- (str_of_bytes_of i1), Hi, str_of_bytes_of|by rewrite <- (str_of_bytes_of s1), Hs, str_of_bytes_of].
Qed.

(** The key of a space can be the plain name of another index. *)
Example space_key_collision :
  let index := str_of (vectorSpaceMark ++ bytes_of "a" ++ vectorSpaceSep :: bytes_of "b") in
  VectorSpaceKey index "" = VectorSpaceKey "a" "b" ∧ index ≠ "a"%string.
Proof. vm_compute. split; [reflexivity|discriminate]. Qed.
