(* ===== verification/VectorIndex.v ===== *)
(** * A memory-mapped vector index ([engine/vector.go])

    The mapped rows, the tables that name them, the eight graphs over them and
    the three files of an index. An operation works on the index object; the
    store that finds the object of a key is in [Vectors].

    What the file system and the clock decide are arguments: whether the file
    can grow ([grow_ok]), whether the metadata can be written ([meta_ok]), and
    whether the last write of the metadata is less than a second old ([recent]).
    The files keep what was written to them: the mapped pages survive the
    process. JSON, gob and the encryption of the files are left out: a file
    holds the value that was stored. The level of a row in its graph and the
    scratch buffers of the pool are arguments, as in [Hnsw]. Slice accesses are
    in range by the invariant [index_ok]. *)

From S2P Require Import Prelude GoStd Types GoFloat VectorPayload Float32 Hnsw VectorRows.
From Stdlib Require Import Floats.SpecFloat.
Open Scope Z_scope.

Definition maxVectorDimensions : Z := 4096.
Definition maxVectorIDBytes : Z := 512.
Definition maxVectorBatch : Z := 1000.
Definition metaFlushRows : Z := 4096.

(** ** State *)
Record vectorMetadata := {
  meta_Dim : Z; meta_Encoding : string; meta_IDs : list string; meta_Tombstones : list bool;
  meta_Generations : list Z
}.

(** The files of an index: the rows, [.meta] and [.hnsw]. *)
Record Files := {
  f_rows : list byte; f_meta : option vectorMetadata; f_hnsw : option (list HNSWGraph)
}.
Definition no_files : Files := {| f_rows := []; f_meta := None; f_hnsw := None |}.

Record MMapVectorIndex := {
  ix_mmap : list byte;
  ix_dim : Z;
  ix_count : Z;
  ix_idMap : gmap string Z;
  ix_idList : list string;
  ix_tombstones : list bool;
  ix_generations : list Z;
  ix_rowInv : list single;
  ix_graphs : list HNSWGraph;
  ix_metaDirty : Z;
  ix_encoding : string;
  ix_meta : option vectorMetadata;       (* the contents of [.meta] *)
  ix_hnsw : option (list HNSWGraph)      (* the contents of [.hnsw] *)
}.

Definition rowBytes (ix : MMapVectorIndex) : Z := VectorRowSize (ix_dim ix) (ix_encoding ix).

(** ** Shards *)
Definition newHNSWShards : list HNSWGraph := replicate (Z.to_nat hnswShards) NewHNSWGraph.
Definition shardIndex (row : Z) : Z := if row <? 0 then 0 else Z.rem row hnswShards.
Definition shardExpectedSize (count shard : Z) : Z :=
  if count <=? shard then 0 else Z.quot (count - shard + hnswShards - 1) hnswShards.

(** The error, if any, without its text. *)
Fixpoint validate_from (shard : Z) (graphs : list HNSWGraph) (count : Z) : bool :=
  match graphs with
  | [] => true
  | g :: graphs => Validate (shardExpectedSize count shard) g && validate_from (shard + 1) graphs count
  end.
Definition validateShards (graphs : list HNSWGraph) (count : Z) : bool :=
  (zlen graphs =? hnswShards) && validate_from 0 graphs count &&
  (foldl (λ total g, total + Size g) 0 graphs =? count).

(** ** Rows *)
Definition splice (off : Z) (bs m : list byte) : list byte :=
  take (Z.to_nat off) m ++ bs ++ drop (Z.to_nat off + length bs) m.

Definition set_rows (m : list byte) (ix : MMapVectorIndex) : MMapVectorIndex :=
  {| ix_mmap := m; ix_dim := ix_dim ix; ix_count := ix_count ix; ix_idMap := ix_idMap ix;
     ix_idList := ix_idList ix; ix_tombstones := ix_tombstones ix; ix_generations := ix_generations ix;
     ix_rowInv := ix_rowInv ix; ix_graphs := ix_graphs ix; ix_metaDirty := ix_metaDirty ix;
     ix_encoding := ix_encoding ix; ix_meta := ix_meta ix; ix_hnsw := ix_hnsw ix |}.
Definition set_rowInv (l : list single) (ix : MMapVectorIndex) : MMapVectorIndex :=
  {| ix_mmap := ix_mmap ix; ix_dim := ix_dim ix; ix_count := ix_count ix; ix_idMap := ix_idMap ix;
     ix_idList := ix_idList ix; ix_tombstones := ix_tombstones ix; ix_generations := ix_generations ix;
     ix_rowInv := l; ix_graphs := ix_graphs ix; ix_metaDirty := ix_metaDirty ix;
     ix_encoding := ix_encoding ix; ix_meta := ix_meta ix; ix_hnsw := ix_hnsw ix |}.
Definition set_graphs (gs : list HNSWGraph) (ix : MMapVectorIndex) : MMapVectorIndex :=
  {| ix_mmap := ix_mmap ix; ix_dim := ix_dim ix; ix_count := ix_count ix; ix_idMap := ix_idMap ix;
     ix_idList := ix_idList ix; ix_tombstones := ix_tombstones ix; ix_generations := ix_generations ix;
     ix_rowInv := ix_rowInv ix; ix_graphs := gs; ix_metaDirty := ix_metaDirty ix;
     ix_encoding := ix_encoding ix; ix_meta := ix_meta ix; ix_hnsw := ix_hnsw ix |}.
Definition set_hnsw (h : option (list HNSWGraph)) (ix : MMapVectorIndex) : MMapVectorIndex :=
  {| ix_mmap := ix_mmap ix; ix_dim := ix_dim ix; ix_count := ix_count ix; ix_idMap := ix_idMap ix;
     ix_idList := ix_idList ix; ix_tombstones := ix_tombstones ix; ix_generations := ix_generations ix;
     ix_rowInv := ix_rowInv ix; ix_graphs := ix_graphs ix; ix_metaDirty := ix_metaDirty ix;
     ix_encoding := ix_encoding ix; ix_meta := ix_meta ix; ix_hnsw := h |}.
(** The tables of the rows: count, names, tombstones, generations, unsaved changes. *)
Definition set_tables (count : Z) (idMap : gmap string Z) (idList : list string) (tombs : list bool)
    (gens : list Z) (dirty : Z) (ix : MMapVectorIndex) : MMapVectorIndex :=
  {| ix_mmap := ix_mmap ix; ix_dim := ix_dim ix; ix_count := count; ix_idMap := idMap;
     ix_idList := idList; ix_tombstones := tombs; ix_generations := gens;
     ix_rowInv := ix_rowInv ix; ix_graphs := ix_graphs ix; ix_metaDirty := dirty;
     ix_encoding := ix_encoding ix; ix_meta := ix_meta ix; ix_hnsw := ix_hnsw ix |}.

Definition writeRow (row : Z) (vec : list float32) (ix : MMapVectorIndex) : MMapVectorIndex :=
  set_rows (splice (row * rowBytes ix) (encodeRow (ix_encoding ix) vec) (ix_mmap ix)) ix.

Definition rowOf (ix : MMapVectorIndex) (row : Z) : list byte :=
  sub (ix_mmap ix) (row * rowBytes ix) (row * rowBytes ix + rowBytes ix).

Definition readRow (row : Z) (ix : MMapVectorIndex) : option (list float32) :=
  let off := row * rowBytes ix in
  if (off <? 0) || (off + rowBytes ix >? zlen (ix_mmap ix)) then None
  else Some (decodeRow (ix_encoding ix) (ix_dim ix) (rowOf ix row)).

Definition syncRowInv (ix : MMapVectorIndex) : MMapVectorIndex :=
  set_rowInv ((λ row : nat, mmapRowInvEncoded (ix_mmap ix) (ix_dim ix) (Z.of_nat row) (ix_encoding ix))
                <$> seq 0 (Z.to_nat (ix_count ix))) ix.

(** Cells the slice gains are 0: a row is at most one past the end. *)
Definition setRowInv (row : Z) (ix : MMapVectorIndex) : MMapVectorIndex :=
  if row <? 0 then ix
  else
    let l := ix_rowInv ix in
    let l := l ++ replicate (Z.to_nat (row + 1) - length l) f32_zero in
    set_rowInv (<[Z.to_nat row := mmapRowInvEncoded (ix_mmap ix) (ix_dim ix) row (ix_encoding ix)]> l) ix.

(** The file doubles, or grows to what is needed; new pages are 0. *)
Definition ensureCapacity (grow_ok : bool) (needed : Z) (ix : MMapVectorIndex) : res string MMapVectorIndex :=
  let old := zlen (ix_mmap ix) in
  if needed <=? old then Ok ix
  else if grow_ok then
    let newSize := if old * 2 <? needed then needed else old * 2 in
    Ok (set_rows (ix_mmap ix ++ replicate (Z.to_nat (newSize - old)) (z2b 0)) ix)
  else Err "grow vector file"%string.

(** ** Metadata *)
Definition metadata (ix : MMapVectorIndex) : vectorMetadata :=
  {| meta_Dim := ix_dim ix;
     meta_Encoding := if bool_decide (ix_encoding ix = EncodingSQ8) then ""%string else ix_encoding ix;
     meta_IDs := ix_idList ix; meta_Tombstones := ix_tombstones ix; meta_Generations := ix_generations ix |}.

Definition writeMetadata (durable recent meta_ok : bool) (ix : MMapVectorIndex) : res string MMapVectorIndex :=
  if negb durable && (ix_metaDirty ix <? metaFlushRows) && recent then Ok ix
  else if meta_ok then
    Ok {| ix_mmap := ix_mmap ix; ix_dim := ix_dim ix; ix_count := ix_count ix; ix_idMap := ix_idMap ix;
          ix_idList := ix_idList ix; ix_tombstones := ix_tombstones ix; ix_generations := ix_generations ix;
          ix_rowInv := ix_rowInv ix; ix_graphs := ix_graphs ix; ix_metaDirty := 0;
          ix_encoding := ix_encoding ix; ix_meta := Some (metadata ix); ix_hnsw := ix_hnsw ix |}
  else Err "write metadata"%string.

Section Index.
Variable level : Z → Z.
Variable pool : Z → searchScratch.

(** ** The graphs *)
Definition insertGraph (ix : MMapVectorIndex) (gs : list HNSWGraph) (row : Z) : list HNSWGraph :=
  alter (Insert level (λ a b, neighborScore (ix_mmap ix) (ix_dim ix) a b (ix_rowInv ix) (ix_encoding ix))
           row (pool row)) (Z.to_nat (shardIndex row)) gs.

Definition rebuild_from (ix : MMapVectorIndex) (rows : list Z) (gs : list HNSWGraph) : list HNSWGraph :=
  foldl (insertGraph ix) gs rows.

(** Each shard inserts its rows in increasing order, in a goroutine of its own;
    the rows are all within the mapped file. *)
Definition rebuildGraph (ix : MMapVectorIndex) : MMapVectorIndex :=
  let ix := syncRowInv ix in
  set_graphs (rebuild_from ix (Z.of_nat <$> seq 0 (Z.to_nat (ix_count ix))) newHNSWShards) ix.

(** ** Opening and closing *)
Definition pad {A} (x : A) (n : Z) (l : list A) : list A := l ++ replicate (Z.to_nat n - length l) x.

Definition openIndex (f : Files) (dim capacity : Z) (enc : string) : res string MMapVectorIndex :=
  let? encoding := NormalizeVectorEncoding enc in
  let capacity := if capacity <? 1000 then 1000 else capacity in
  let rows := if zlen (f_rows f) =? 0
              then replicate (Z.to_nat (capacity * VectorRowSize dim encoding)) (z2b 0) else f_rows f in
  let ix := {| ix_mmap := rows; ix_dim := dim; ix_count := 0; ix_idMap := ∅; ix_idList := [];
               ix_tombstones := []; ix_generations := []; ix_rowInv := []; ix_graphs := newHNSWShards;
               ix_metaDirty := 0; ix_encoding := encoding; ix_meta := f_meta f; ix_hnsw := f_hnsw f |} in
  let? ix :=
    match f_meta f with
    | None => Ok ix
    | Some meta =>
        if negb (meta_Dim meta =? dim) then Err "invalid vector metadata"%string
        else
          match NormalizeVectorEncoding (meta_Encoding meta) with
          | Ok fileEnc =>
              let n := zlen (meta_IDs meta) in
              if n >? Z.quot (zlen rows) (VectorRowSize dim fileEnc)
              then Err "vector metadata exceeds index capacity"%string
              else
                let ix := {| ix_mmap := rows; ix_dim := dim; ix_count := n;
                   ix_idMap := foldl (λ m '(row, id), <[id := Z.of_nat row]> m) ∅
                                 (zip (seq 0 (length (meta_IDs meta))) (meta_IDs meta));
                   ix_idList := meta_IDs meta;
                   ix_tombstones := pad false n (meta_Tombstones meta);
                   ix_generations := pad 1 n (meta_Generations meta);
                   ix_rowInv := []; ix_graphs := newHNSWShards; ix_metaDirty := 0; ix_encoding := fileEnc;
                   ix_meta := f_meta f; ix_hnsw := f_hnsw f |} in
                Ok (syncRowInv ix)
          | _ => Err "invalid vector metadata encoding"%string
          end
    end in
  match f_hnsw f with
  | Some graphs => if validateShards graphs (ix_count ix) then Ok (set_graphs graphs ix) else Ok (rebuildGraph ix)
  | None => Ok (rebuildGraph ix)
  end.

(** The files of an index closed without an error, and those a crash leaves. *)
Definition closeIndex (ix : MMapVectorIndex) : Files :=
  {| f_rows := ix_mmap ix; f_meta := Some (metadata ix); f_hnsw := Some (ix_graphs ix) |}.
Definition crashIndex (ix : MMapVectorIndex) : Files :=
  {| f_rows := ix_mmap ix; f_meta := ix_meta ix; f_hnsw := ix_hnsw ix |}.

(** ** Adding vectors *)
Definition validateVector (id : string) (vec : list float32) : res string unit :=
  if bool_decide (id = ""%string) || (strlen id >? maxVectorIDBytes) then
    Err ("vector id must contain 1.." ++ FormatInt maxVectorIDBytes ++ " bytes")%string
  else if (zlen vec =? 0) || (zlen vec >? maxVectorDimensions) then
    Err ("vector dimension must be between 1 and " ++ FormatInt maxVectorDimensions)%string
  else if existsb (λ v, f32_isNaN (Float32frombits v) || f32_isInf (Float32frombits v)) vec then
    Err "vector contains a non-finite value"%string
  else Ok tt.

Definition quota_error (maxVectors : Z) : string :=
  ("tenant vector quota exceeded: maximum of " ++ FormatInt maxVectors ++ " vectors allowed")%string.
Definition dim_error (want got : Z) : string :=
  ("dimension mismatch: expected " ++ FormatInt want ++ ", got " ++ FormatInt got)%string.

(** The row a name gets: its old one, revived if it was deleted, or a new one. *)
Definition claimRow (id : string) (ix : MMapVectorIndex) : Z * bool * MMapVectorIndex :=
  match ix_idMap ix !! id with
  | Some row =>
      if nth (Z.to_nat row) (ix_tombstones ix) false then
        (row, false,
         set_tables (ix_count ix) (ix_idMap ix) (ix_idList ix) (<[Z.to_nat row := false]> (ix_tombstones ix))
           (alter (λ g, u64 (g + 1)) (Z.to_nat row) (ix_generations ix)) (ix_metaDirty ix + 1) ix)
      else (row, false, ix)
  | None =>
      let row := ix_count ix in
      (row, true,
       set_tables (ix_count ix + 1) (<[id := row]> (ix_idMap ix)) (ix_idList ix ++ [id])
         (ix_tombstones ix ++ [false]) (ix_generations ix ++ [1]) (ix_metaDirty ix + 1) ix)
  end.

(** Claim the row and write it. *)
Definition putRow (id : string) (vec : list float32) (ix : MMapVectorIndex) : Z * bool * MMapVectorIndex :=
  let '(row, isNew, ix) := claimRow id ix in (row, isNew, setRowInv row (writeRow row vec ix)).

(** The part of [VAdd] after the index is found; the error, if any, and the
    index it leaves. *)
Definition addVector (maxVectors : Z) (grow_ok recent meta_ok : bool) (id : string) (vec : list float32)
    (ix : MMapVectorIndex) : option string * MMapVectorIndex :=
  let dim := zlen vec in
  let exists_ := bool_decide (is_Some (ix_idMap ix !! id)) in
  if negb (ix_dim ix =? dim) then (Some (dim_error (ix_dim ix) dim), ix)
  else if (maxVectors >? 0) && (ix_count ix >=? maxVectors) && negb exists_
  then (Some (quota_error maxVectors), ix)
  else
    match ensureCapacity grow_ok ((if exists_ then ix_count ix else ix_count ix + 1) * rowBytes ix) ix with
    | Err e => (Some e, ix)
    | Panic => (None, ix)                                                   (* not reached *)
    | Ok ix =>
        let '(row, isNew, ix) := putRow id vec ix in
        match writeMetadata false recent meta_ok ix with
        | Ok ix => (None, if isNew then set_graphs (insertGraph ix (ix_graphs ix) row) ix else ix)
        | Err e => (Some e, ix)
        | Panic => (None, ix)                                               (* not reached *)
        end
    end.

Fixpoint putRows (items : list (string * list float32)) (ix : MMapVectorIndex) (newRows : list Z)
    : list Z * MMapVectorIndex :=
  match items with
  | [] => (newRows, ix)
  | (id, vec) :: items =>
      let '(row, isNew, ix) := putRow id vec ix in
      putRows items ix (if isNew then newRows ++ [row] else newRows)
  end.

Definition new_ids (ix : MMapVectorIndex) (ids : list string) : gset string :=
  list_to_set (List.filter (λ id, negb (bool_decide (is_Some (ix_idMap ix !! id)))) ids).

(** The checks of a batch before the index is looked up. *)
Definition validateBatch (dim : Z) (ids : list string) (vecs : list (list float32)) : res string unit :=
  if negb (zlen ids =? zlen vecs) then Err "length of ids and vecs must match"%string
  else if zlen ids >? maxVectorBatch then
    Err ("batch size exceeds maximum of " ++ FormatInt maxVectorBatch)%string
  else if (dim <=? 0) || (dim >? maxVectorDimensions) then
    Err ("vector dimension must be between 1 and " ++ FormatInt maxVectorDimensions)%string
  else
    foldl (λ r '(id, vec),
      let? _ := r in
      if negb (zlen vec =? dim) then Err "dimension mismatch in batch"%string else validateVector id vec)
      (Ok tt) (zip ids vecs).

(** The part of [VAddBatch] after the index is found. The shards insert their
    new rows concurrently, each in the order of the batch. *)
Definition addBatch (maxVectors : Z) (grow_ok recent meta_ok : bool) (dim : Z)
    (items : list (string * list float32)) (ix : MMapVectorIndex) : option string * MMapVectorIndex :=
  if negb (ix_dim ix =? dim) then (Some (dim_error (ix_dim ix) dim), ix)
  else
    let newAdditions := Z.of_nat (size (new_ids ix items.*1)) in
    if (maxVectors >? 0) && (ix_count ix + newAdditions >? maxVectors) then (Some (quota_error maxVectors), ix)
    else
      match ensureCapacity grow_ok ((ix_count ix + newAdditions) * rowBytes ix) ix with
      | Err e => (Some e, ix)
      | Panic => (None, ix)                                                 (* not reached *)
      | Ok ix =>
          let '(newRows, ix) := putRows items ix [] in
          match writeMetadata false recent meta_ok ix with
          | Ok ix => (None, set_graphs (foldl (insertGraph ix) (ix_graphs ix) newRows) ix)
          | Err e => (Some e, ix)
          | Panic => (None, ix)                                             (* not reached *)
          end
      end.

(** ** Deleting and compacting *)
Definition is_live (ix : MMapVectorIndex) (row : Z) : bool := negb (nth (Z.to_nat row) (ix_tombstones ix) false).

Definition HasLiveVector (id : string) (ix : MMapVectorIndex) : bool :=
  match ix_idMap ix !! id with Some row => is_live ix row | None => false end.

Definition deleteVector (meta_ok : bool) (id : string) (ix : MMapVectorIndex) : res string bool * MMapVectorIndex :=
  match ix_idMap ix !! id with
  | None => (Ok false, ix)
  | Some row =>
      if nth (Z.to_nat row) (ix_tombstones ix) false then (Ok false, ix)
      else
        let ix' := set_tables (ix_count ix) (ix_idMap ix) (ix_idList ix)
          (<[Z.to_nat row := true]> (ix_tombstones ix))
          (alter (λ g, u64 (g + 1)) (Z.to_nat row) (ix_generations ix)) (ix_metaDirty ix) ix in
        match writeMetadata true false meta_ok ix' with
        | Ok ix' => (Ok true, ix')
        | Err e =>
            (Err e, set_tables (ix_count ix) (ix_idMap ix) (ix_idList ix)
              (<[Z.to_nat row := false]> (ix_tombstones ix'))
              (alter (λ g, u64 (g - 1)) (Z.to_nat row) (ix_generations ix')) (ix_metaDirty ix) ix)
        | Panic => (Panic, ix)                                              (* not reached *)
        end
  end.

(** The deleted rows and all the rows; the quotient is a [float64]. *)
Definition TombstoneRatio (ix : MMapVectorIndex) : float64 :=
  if ix_count ix =? 0 then S754_zero false
  else
    let deleted := zlen (List.filter id (ix_tombstones ix)) in
    SFdiv 53 1024 (binary_normalize 53 1024 deleted 0 false) (binary_normalize 53 1024 (ix_count ix) 0 false).

Definition active (ix : MMapVectorIndex) : list (string * Z * list byte) :=
  row ← seq 0 (length (ix_idList ix));
  if is_live ix (Z.of_nat row)
  then [(nth row (ix_idList ix) ""%string, nth row (ix_generations ix) 0, rowOf ix (Z.of_nat row))]
  else [].

(** The first error ends the compaction. Of the flush and the sync of the mapped
    rows ([flush_ok]) and of the metadata it leaves the new rows with the old
    graphs, of the graph file ([hnsw_ok]) the new graphs with the old file. *)
Definition compact (flush_ok meta_ok hnsw_ok : bool) (ix : MMapVectorIndex) : res string Z * MMapVectorIndex :=
  let rows := active ix in
  let removed := zlen (ix_idList ix) - zlen rows in
  if removed =? 0 then (Ok 0, ix)
  else
    let n := length rows in
    let m := foldl (λ m '(row, (_, _, data)), splice (Z.of_nat row * rowBytes ix) data m) (ix_mmap ix)
               (zip (seq 0 n) rows) in
    let ids := (λ r, r.1.1) <$> rows in
    let idMap := foldl (λ m '(row, id), <[id := Z.of_nat row]> m) ∅ (zip (seq 0 n) ids) in
    let ix := set_tables (Z.of_nat n) idMap ids (replicate n false) ((λ r, r.1.2) <$> rows)
                (ix_metaDirty ix) (set_rows m ix) in
    let ix := syncRowInv ix in
    if negb flush_ok then (Err "flush vector file"%string, ix)
    else
      match writeMetadata true false meta_ok ix with
      | Ok ix =>
          let ix := rebuildGraph ix in
          if hnsw_ok then (Ok removed, set_hnsw (Some (ix_graphs ix)) ix) else (Err "save graphs"%string, ix)
      | Err e => (Err e, ix)
      | Panic => (Panic, ix)                                                (* not reached *)
      end.

(** ** Reading *)
Definition getVector (id : string) (ix : MMapVectorIndex) : res string (list float32) :=
  match ix_idMap ix !! id with
  | None => Err "vector id not found"%string
  | Some row =>
      if (row <? 0) || (row >=? ix_count ix)
         || ((row <? zlen (ix_tombstones ix)) && nth (Z.to_nat row) (ix_tombstones ix) false)
      then Err "vector id not found"%string
      else match readRow row ix with Some vec => Ok vec | None => Err "vector id not found"%string end
  end.

Record SearchResult := { r_ID : string; r_Score : single }.
Record SearchOpts := {
  o_K : Z; o_Filter : option (string → bool); o_MinScore : single; o_HasMinScore : bool; o_EfSearch : Z;
  o_ExcludeID : string
}.

Definition hnswFilter (opts : SearchOpts) (ix : MMapVectorIndex) (row : Z) : bool :=
  if (row <? 0) || (row >=? zlen (ix_idList ix)) || (row >=? zlen (ix_tombstones ix))
     || nth (Z.to_nat row) (ix_tombstones ix) false then false
  else
    let id := nth (Z.to_nat row) (ix_idList ix) ""%string in
    if negb (bool_decide (o_ExcludeID opts = ""%string)) && bool_decide (id = o_ExcludeID opts) then false
    else match o_Filter opts with None => true | Some f => f id end.

(** How many rows each shard is asked for. *)
Definition retrieve_count (opts : SearchOpts) : Z :=
  let k := o_K opts in
  let retrieve := if k <? 10 then 10 else k in
  if o_HasMinScore opts || negb (bool_decide (o_ExcludeID opts = ""%string)) then
    let retrieve := if retrieve <? i64 (k * 8) then i64 (k * 8) else retrieve in
    let retrieve := if retrieve <? 32 then 32 else retrieve in
    if retrieve >? 256 then 256 else retrieve
  else retrieve.

Definition query_of (query : list single) (ix : MMapVectorIndex) : sq8Query :=
  let '(q8, qInv) :=
    if is_f32 (ix_encoding ix) then ([], f32_zero)
    else let '(q8, scale, recon) := quantizeInto query in (q8, invScale scale recon) in
  {| q_q8 := q8; q_qInv := qInv; q_qf32 := query; q_qNorm := l2Norm query; q_mmap := ix_mmap ix;
     q_dim := ix_dim ix; q_rowInv := ix_rowInv ix; q_queryRow := -1; q_encoding := ix_encoding ix |}.

(** The score an answer carries. *)
Definition rescore (query : list single) (ix : MMapVectorIndex) (row : Z) : single :=
  if is_f32 (ix_encoding ix) then cosineF32Native query (l2Norm query) (ix_mmap ix) (ix_dim ix) row (ix_rowInv ix)
  else cosineF32Query query (l2Norm query) (ix_mmap ix) (ix_dim ix) row (ix_rowInv ix).

(** The loop over the sorted hits. *)
Fixpoint collect (opts : SearchOpts) (ix : MMapVectorIndex) (hits : list intNode) (seen : gset Z)
    (results : list SearchResult) : list SearchResult :=
  match hits with
  | [] => results
  | res :: hits =>
      if (in_ID res <? 0) || (in_ID res >=? zlen (ix_idList ix)) then collect opts ix hits seen results
      else if bool_decide (in_ID res ∈ seen) then collect opts ix hits seen results
      else
        let seen := {[in_ID res]} ∪ seen in
        if o_HasMinScore opts && SFltb (in_Score res) (o_MinScore opts) then collect opts ix hits seen results
        else
          let results := results ++ [{| r_ID := nth (Z.to_nat (in_ID res)) (ix_idList ix) ""%string;
                                        r_Score := in_Score res |}] in
          if zlen results >=? o_K opts then results else collect opts ix hits seen results
  end.

(** The hits of all the shards, with the scores of the answers. *)
Definition shard_hits (query : list single) (opts : SearchOpts) (ix : MMapVectorIndex) : list intNode :=
  let retrieve := retrieve_count opts in
  let q := query_of query ix in
  (λ hit, {| in_ID := in_ID hit; in_Score := rescore query ix (in_ID hit) |})
    <$> (graph ← ix_graphs ix; Search (score q) retrieve (hnswFilter opts ix) (o_EfSearch opts) (pool 0) graph).

(** [make([]T, 0, cap)] for elements of [size] bytes: a capacity that is negative or
    beyond the address space panics. *)
Definition maxAlloc : Z := 2 ^ 48.
Definition makeslice_ok (size cap : Z) : bool := (0 <=? cap) && (cap * size <=? maxAlloc).

Definition searchIndex (query : list single) (opts : SearchOpts) (ix : MMapVectorIndex)
    : res string (list SearchResult) :=
  if ix_count ix =? 0 then Ok []
  else if negb (zlen query =? ix_dim ix) then Err (dim_error (ix_dim ix) (zlen query))
  else if o_K opts <=? 0 then Ok []
  else if negb (makeslice_ok 16 (i64 (retrieve_count opts * zlen (ix_graphs ix)))) || negb (makeslice_ok 24 (o_K opts))
  then Panic
  else Ok (collect opts ix (merge_sort by_score_desc (shard_hits query opts ix)) ∅ []).

Definition setEfSearch (ef : Z) (ix : MMapVectorIndex) : MMapVectorIndex :=
  set_graphs (SetEfSearch ef <$> ix_graphs ix) ix.

(** ** Accounting *)
Definition index_memory (ix : MMapVectorIndex) : Z :=
  zlen (ix_mmap ix) + foldl (λ total id, total + (strlen id + 32)) 0 (ix_idList ix) + ix_count ix * 16 * 8.

Definition live_count (ix : MMapVectorIndex) : Z :=
  zlen (List.filter (λ row : nat, negb ((Z.of_nat row <? zlen (ix_tombstones ix)) && nth row (ix_tombstones ix) false))
         (seq 0 (Z.to_nat (ix_count ix)))).
End Index.

Definition demo_opts (k : Z) : SearchOpts :=
  {| o_K := k; o_Filter := None; o_MinScore := f32_zero; o_HasMinScore := false; o_EfSearch := 0;
     o_ExcludeID := "" |}.

(** Three points of the plane. *)
Definition f1 : float32 := 1065353216.
Definition demo_pool (row : Z) : searchScratch := new_scratch.
Definition demo_index (enc : string) : MMapVectorIndex :=
  match openIndex demo_level demo_pool no_files 2 2 enc with
  | Ok ix =>
      snd (addVector demo_level demo_pool 0 true true true "c" [f1; f1]
        (snd (addVector demo_level demo_pool 0 true true true "b" [0; f1]
           (snd (addVector demo_level demo_pool 0 true true true "a" [f1; 0] ix)))))
  | _ => {| ix_mmap := []; ix_dim := 0; ix_count := 0; ix_idMap := ∅; ix_idList := []; ix_tombstones := [];
            ix_generations := []; ix_rowInv := []; ix_graphs := []; ix_metaDirty := 0; ix_encoding := "";
            ix_meta := None; ix_hnsw := None |}
  end.

Example demo_index_search :
  match searchIndex demo_pool (coords [f1; 0]) (demo_opts 2) (demo_index "sq8") with
  | Ok l => r_ID <$> l = ["a"; "c"]%string
  | _ => False
  end ∧
  match searchIndex demo_pool (coords [0; f1]) (demo_opts 2)
          (snd (deleteVector true "b" (demo_index "float32"))) with
  | Ok l => r_ID <$> l = ["c"; "a"]%string
  | _ => False
  end.
Proof. vm_compute. split; reflexivity. Qed.

(** ** Bytes of the mapped file *)
Lemma lookup_splice off bs m (k : nat) :
  (off + length bs ≤ length m)%nat →
  splice (Z.of_nat off) bs m !! k = if decide (off ≤ k < off + length bs)%nat then bs !! (k - off)%nat else m !! k.
Proof.
  intros Hl. unfold splice. rewrite Nat2Z.id. case_decide as Hk.
  - rewrite lookup_app_r by (rewrite length_take; lia). rewrite length_take, lookup_app_l by lia. f_equal. lia.
  - destruct (decide (k < off)%nat).
    + rewrite lookup_app_l by (rewrite length_take; lia). by rewrite lookup_take_lt by lia.
    + rewrite lookup_app_r by (rewrite length_take; lia). rewrite length_take, lookup_app_r by lia.
      rewrite lookup_drop. f_equal. lia.
Qed.

Lemma length_splice off bs m :
  (Z.to_nat off + length bs ≤ length m)%nat → length (splice off bs m) = length m.
Proof. intros H. unfold splice. rewrite !length_app, length_take, length_drop. lia. Qed.

Lemma sub_ext {A} (l l' : list A) i j :
  0 ≤ i → (∀ k : nat, i ≤ Z.of_nat k < j → l !! k = l' !! k) → sub l i j = sub l' i j.
Proof.
  intros Hi H. unfold sub. apply list_eq. intros k. destruct (decide (k < Z.to_nat (j - i))%nat).
  - rewrite !lookup_take_lt, !lookup_drop by done. apply H. lia.
  - by rewrite !lookup_take_ge by lia.
Qed.

Lemma sub_splice_same off bs m :
  0 ≤ off → off + zlen bs ≤ zlen m → sub (splice off bs m) off (off + zlen bs) = bs.
Proof.
  intros H0 Hl. unfold sub, splice, zlen in *. rewrite drop_app_length' by (rewrite length_take; lia).
  rewrite take_app_length' by lia. done.
Qed.

Lemma sub_splice_other off bs m i j :
  0 ≤ off → off + zlen bs ≤ zlen m → 0 ≤ i → j ≤ off ∨ off + zlen bs ≤ i → sub (splice off bs m) i j = sub m i j.
Proof.
  intros H0 Hl Hi Hd. unfold zlen in *. apply sub_ext; [done|]. intros k Hk. replace off with (Z.of_nat (Z.to_nat off)) by lia.
  rewrite lookup_splice by lia. by rewrite decide_False by lia.
Qed.

Lemma zlen_sub {A} (l : list A) i j : 0 ≤ i → i ≤ j → j ≤ zlen l → zlen (sub l i j) = j - i.
Proof. intros. unfold zlen, sub in *. rewrite length_take, length_drop. lia. Qed.

Lemma sub_sub {A} (l : list A) a b i j : 0 ≤ a → 0 ≤ i → j ≤ b - a → sub (sub l a b) i j = sub l (a + i) (a + j).
Proof.
  intros Ha Hi Hj. unfold sub. rewrite skipn_firstn_comm, take_take, drop_drop. f_equal; [lia|]. f_equal. lia.
Qed.

Lemma sub_app_l {A} (l k : list A) i j : 0 ≤ i → j ≤ zlen l → sub (l ++ k) i j = sub l i j.
Proof. intros Hi Hj. apply sub_ext; [done|]. unfold zlen in Hj. intros x Hx. by rewrite lookup_app_l by lia. Qed.

(** Two rows do not overlap. *)
Lemma rows_disjoint r r' sz : 0 < sz → r ≠ r' → r' * sz + sz ≤ r * sz ∨ r * sz + sz ≤ r' * sz.
Proof. intros Hs Hne. destruct (Z.lt_total r r') as [?|[?|?]]; [right|done|left]; nia. Qed.

(** ** The scores depend on the bytes of the row only *)
Definition inv_of_row (encoding : string) (dim : Z) (bs : list byte) : single := mmapRowInvEncoded bs dim 0 encoding.

Lemma mmapRowInvEncoded_row m dim row encoding :
  1 ≤ dim → 0 ≤ row → let sz := VectorRowSize dim encoding in row * sz + sz ≤ zlen m →
  mmapRowInvEncoded m dim row encoding = inv_of_row encoding dim (sub m (row * sz) (row * sz + sz)).
Proof.
  intros Hd Hr sz Hl. unfold inv_of_row, mmapRowInvEncoded, mmapRowInv, VectorRowSize in *. subst sz.
  change (is_f32 EncodingFloat32) with true. destruct (is_f32 encoding); cbv iota.
  - assert (0 ≤ row * (dim * 4 + 4)) by nia.
    replace ((row * (dim * 4 + 4) <? 0) || (row * (dim * 4 + 4) + (dim * 4 + 4) >? zlen m)) with false by lia.
    rewrite zlen_sub by lia. replace ((_ <? 0) || (_ >? _)) with false by lia.
    rewrite sub_sub by lia. by rewrite !(Z.mul_0_l (dim * 4 + 4)), !Z.add_0_l, !Z.add_assoc.
  - assert (0 ≤ row * (dim + 8)) by nia.
    replace ((row * (dim + 8) <? 0) || (row * (dim + 8) + (dim + 8) >? zlen m)) with false by lia.
    rewrite zlen_sub by lia. replace ((_ <? 0) || (_ >? _)) with false by lia.
    rewrite !sub_sub by lia. by rewrite !(Z.mul_0_l (dim + 8)), !Z.add_0_l, !Z.add_assoc.
Qed.

Lemma foldl_ext_in {A B} (f g : A → B → A) a l :
  (∀ a b, b ∈ l → f a b = g a b) → foldl f a l = foldl g a l.
Proof.
  revert a. induction l as [|b l IH]; intros a H; cbn; [done|]. rewrite H by (by left). apply IH.
  intros a' b' Hb. apply H. by right.
Qed.

Lemma unrolled_ext {A} (add : A → A → A) (t t' : nat → A) dim x :
  (∀ i, (i < dim)%nat → t i = t' i) → unrolled add t dim x = unrolled add t' dim x.
Proof.
  intros H. unfold unrolled.
  assert (Hb : ∀ fuel i y, blocks add t fuel i dim y = blocks add t' fuel i dim y).
  { induction fuel as [|fuel IH]; intros i y; cbn [blocks]; [done|].
    destruct (Nat.ltb_spec (i + 7) dim); [|done]. rewrite IH, !H by lia. done. }
  assert (Hs : ∀ fuel i y, singles add t fuel i dim y = singles add t' fuel i dim y).
  { induction fuel as [|fuel IH]; intros i y; cbn [singles]; [done|].
    destruct (Nat.ltb_spec i dim); [|done]. rewrite IH, H by lia. done. }
  rewrite Hb. destruct (blocks add t' dim 0 dim x) as [i y]. apply Hs.
Qed.

Lemma nth_from {A} (l : list A) a n (i : nat) d :
  0 ≤ a → Z.of_nat i < n → nth i (from a l) d = nth i (sub l a (a + n)) d.
Proof.
  intros Ha Hi. unfold from, sub. rewrite !nth_lookup, lookup_take_lt by lia. done.
Qed.

(** The score of a query against the bytes of a row. *)
Definition row_score (encoding : string) (query : list single) (dim : Z) (bs : list byte) : single :=
  if is_f32 encoding then cosineF32Native query (l2Norm query) bs dim 0 []
  else cosineF32Query query (l2Norm query) bs dim 0 [].

Lemma from_sub_nth l a n (i : nat) : 0 ≤ a → Z.of_nat i < n → nth i (from a l) (z2b 0) = nth i (from 0 (sub l a (a + n))) (z2b 0).
Proof. intros Ha Hi. rewrite (nth_from l a n) by done. unfold from. done. Qed.

Lemma rescore_row query ix row :
  1 ≤ ix_dim ix → 0 ≤ row < zlen (ix_rowInv ix) → row * rowBytes ix + rowBytes ix ≤ zlen (ix_mmap ix) →
  row_inv (ix_rowInv ix) row = mmapRowInvEncoded (ix_mmap ix) (ix_dim ix) row (ix_encoding ix) →
  rescore query ix row = row_score (ix_encoding ix) query (ix_dim ix) (rowOf ix row).
Proof.
  intros Hd Hr Hl Hinv. unfold rescore, row_score, rowOf, rowBytes in *.
  set (m := ix_mmap ix) in *. set (dim := ix_dim ix) in *. set (inv := ix_rowInv ix) in *.
  set (enc := ix_encoding ix) in *.
  rewrite (mmapRowInvEncoded_row m dim row enc Hd ltac:(lia) Hl) in Hinv.
  set (bs := sub m _ _) in *. unfold inv_of_row in Hinv.
  assert (Hbs : zlen bs = VectorRowSize dim enc).
  { subst bs. assert (0 < VectorRowSize dim enc) by (unfold VectorRowSize; destruct (is_f32 enc); lia).
    rewrite zlen_sub; nia. }
  unfold VectorRowSize in *. destruct (is_f32 enc) eqn:Ef.
  - assert (enc = EncodingFloat32) as -> by (by apply bool_decide_eq_true_1 in Ef).
    unfold cosineF32Native. replace ((row >=? 0) && (row <? zlen inv)) with true by lia.
    replace ((0 >=? 0) && (0 <? zlen [])) with false by done. rewrite Hinv.
    destruct (is_zero _ || is_zero _); [done|]. unfold VectorRowSize. change (is_f32 EncodingFloat32) with true. cbv iota.
    replace ((row * (dim * 4 + 4) <? 0) || (row * (dim * 4 + 4) + dim * 4 >? zlen m)) with false by nia.
    replace ((0 * (dim * 4 + 4) <? 0) || (0 * (dim * 4 + 4) + dim * 4 >? zlen bs)) with false by lia.
    f_equal. f_equal. apply foldl_ext_in. intros acc i Hi. do 2 f_equal. unfold f32_at. do 2 f_equal. subst bs.
    apply elem_of_seq in Hi. rewrite sub_sub by nia. f_equal; lia.
  - unfold cosineF32Query. replace ((row >=? 0) && (row <? zlen inv)) with true by lia.
    replace ((0 >=? 0) && (0 <? zlen [])) with false by done. rewrite Hinv. unfold mmapRowInvEncoded. rewrite Ef.
    destruct (is_zero _ || is_zero _); [done|].
    replace ((row * (dim + 8) <? 0) || (row * (dim + 8) + dim >? zlen m)) with false by nia.
    replace ((0 * (dim + 8) <? 0) || (0 * (dim + 8) + dim >? zlen bs)) with false by lia.
    f_equal. f_equal. apply unrolled_ext. intros i Hi. do 3 f_equal.
    change (0 * (dim + 8)) with 0. apply from_sub_nth; nia.
Qed.
