(* ===== verification/VectorIndexCorrect.v ===== *)
(** * Correctness of a vector index

    The invariant of an index, and its meaning: a partial function from names to
    row bytes ([live]). Additions, deletions, compaction and reopening are shown
    to act on it as on a map, and searches to answer from it. *)

From S2P Require Import Prelude GoStd Types GoFloat VectorPayload Float32 Hnsw VectorRows VectorIndex.
From Stdlib Require Import Floats.SpecFloat.
Open Scope Z_scope.

(** ** The invariant *)

(** Names, rows and their tables. *)
Record tables_ok (ix : MMapVectorIndex) : Prop := {
  to_dim : 1 ≤ ix_dim ix;
  to_count : ix_count ix = zlen (ix_idList ix);
  to_tombs : zlen (ix_tombstones ix) = ix_count ix;
  to_gens : zlen (ix_generations ix) = ix_count ix;
  to_nodup : NoDup (ix_idList ix);
  to_map : ∀ id row, ix_idMap ix !! id = Some row ↔ 0 ≤ row ∧ ix_idList ix !! Z.to_nat row = Some id;
  to_room : ix_count ix * rowBytes ix ≤ zlen (ix_mmap ix);
  to_inv : ix_rowInv ix = (λ row : nat, mmapRowInvEncoded (ix_mmap ix) (ix_dim ix) (Z.of_nat row) (ix_encoding ix))
                            <$> seq 0 (Z.to_nat (ix_count ix))
}.

(** The graph of shard [s] over the first [n] rows. *)
Record shard_ok (level : Z → Z) (n : Z) (s : nat) (g : HNSWGraph) : Prop := {
  sh_wf : graph_wf g;
  sh_rows : ∀ row, layer_of g row =
    if bool_decide (0 ≤ row < n ∧ row mod hnswShards = Z.of_nat s) then Some (level row) else None;
  sh_small : (size (Nodes g) ≤ 33)%nat → complete (λ _, False) g
}.

Definition shards_ok (level : Z → Z) (n : Z) (gs : list HNSWGraph) : Prop :=
  zlen gs = hnswShards ∧ ∀ s g, gs !! s = Some g → shard_ok level n s g.

Record index_ok (level : Z → Z) (ix : MMapVectorIndex) : Prop := {
  io_tables : tables_ok ix;
  io_graphs : shards_ok level (ix_count ix) (ix_graphs ix);
  io_encoding : ix_encoding ix = EncodingSQ8 ∨ ix_encoding ix = EncodingFloat32
}.

(** What the index holds under a name. *)
Definition live (ix : MMapVectorIndex) (id : string) : option (list byte) :=
  match ix_idMap ix !! id with
  | Some row => if is_live ix row then Some (rowOf ix row) else None
  | None => None
  end.

Lemma rowBytes_pos ix : 1 ≤ ix_dim ix → 0 < rowBytes ix.
Proof. intros. unfold rowBytes, VectorRowSize. destruct (is_f32 _); lia. Qed.

Lemma to_row ix id row : tables_ok ix → ix_idMap ix !! id = Some row → 0 ≤ row < ix_count ix.
Proof.
  intros Hok [H0 Hl]%(to_map ix Hok). apply lookup_lt_Some in Hl. rewrite (to_count ix Hok). unfold zlen. lia.
Qed.

Lemma to_fits ix row :
  tables_ok ix → 0 ≤ row < ix_count ix → 0 ≤ row * rowBytes ix ∧ row * rowBytes ix + rowBytes ix ≤ zlen (ix_mmap ix).
Proof.
  intros Hok Hr. pose proof (rowBytes_pos ix (to_dim ix Hok)). pose proof (to_room ix Hok).
  assert ((row + 1) * rowBytes ix ≤ ix_count ix * rowBytes ix) by (apply Z.mul_le_mono_nonneg_r; lia). nia.
Qed.

Lemma to_unique ix id id' row :
  tables_ok ix → ix_idMap ix !! id = Some row → ix_idMap ix !! id' = Some row → id = id'.
Proof. intros Hok [_ H1]%(to_map ix Hok) [_ H2]%(to_map ix Hok). congruence. Qed.

(** ** Writing a row *)
Lemma nth_insert {A} (l : list A) i j x d :
  (i < length l)%nat → nth j (<[i := x]> l) d = if decide (j = i) then x else nth j l d.
Proof.
  intros Hi. rewrite !nth_lookup. case_decide as E; [subst j; by rewrite list_lookup_insert_eq|].
  by rewrite list_lookup_insert_ne by done.
Qed.

Lemma rowOf_write ix row row' vec :
  1 ≤ ix_dim ix → 0 ≤ row → 0 ≤ row' → row * rowBytes ix + rowBytes ix ≤ zlen (ix_mmap ix) → zlen vec = ix_dim ix →
  rowOf (writeRow row vec ix) row' = if decide (row' = row) then encodeRow (ix_encoding ix) vec else rowOf ix row'.
Proof.
  intros Hd Hr Hr' Hl Hv. pose proof (rowBytes_pos ix Hd) as Hp.
  assert (Hlen : zlen (encodeRow (ix_encoding ix) vec) = rowBytes ix).
  { rewrite length_encodeRow, Hv. done. }
  unfold rowOf, writeRow. change (rowBytes (set_rows _ ix)) with (rowBytes ix). cbn [ix_mmap set_rows].
  case_decide as E.
  - subst row'. replace (row * rowBytes ix + rowBytes ix)
      with (row * rowBytes ix + zlen (encodeRow (ix_encoding ix) vec)) by lia. apply sub_splice_same; nia.
  - destruct (rows_disjoint row row' (rowBytes ix) Hp ltac:(congruence)); apply sub_splice_other; nia.
Qed.

Lemma write_size row vec ix :
  0 ≤ row → row * rowBytes ix + rowBytes ix ≤ zlen (ix_mmap ix) → 0 < rowBytes ix → zlen vec = ix_dim ix →
  zlen (ix_mmap (writeRow row vec ix)) = zlen (ix_mmap ix).
Proof.
  intros Hr Hl Hp Hv. assert (Hlen : zlen (encodeRow (ix_encoding ix) vec) = rowBytes ix).
  { rewrite length_encodeRow, Hv. done. }
  unfold writeRow. cbn [ix_mmap set_rows]. unfold zlen in *. f_equal. apply length_splice. nia.
Qed.

(** The fields that the rows and tables of an index leave alone. *)
Definition same_frame (ix ix' : MMapVectorIndex) : Prop :=
  ix_dim ix' = ix_dim ix ∧ ix_encoding ix' = ix_encoding ix ∧ ix_graphs ix' = ix_graphs ix ∧
  ix_meta ix' = ix_meta ix ∧ ix_hnsw ix' = ix_hnsw ix.

Lemma same_frame_trans a b c : same_frame a b → same_frame b c → same_frame a c.
Proof. unfold same_frame. intuition congruence. Qed.

(** The inverse norm of a row after the row was written and its cell set. *)
Lemma rowInv_write ix row vec n :
  1 ≤ ix_dim ix → zlen vec = ix_dim ix → 0 ≤ row < n → n * rowBytes ix ≤ zlen (ix_mmap ix) →
  (∃ k, ix_rowInv ix = (λ r : nat, mmapRowInvEncoded (ix_mmap ix) (ix_dim ix) (Z.of_nat r) (ix_encoding ix))
                         <$> seq 0 k ∧ (Z.of_nat k = n ∨ (Z.of_nat k = row ∧ n = row + 1))) →
  let ix' := setRowInv row (writeRow row vec ix) in
  ix_rowInv ix' = (λ r : nat, mmapRowInvEncoded (ix_mmap ix') (ix_dim ix') (Z.of_nat r) (ix_encoding ix'))
                    <$> seq 0 (Z.to_nat n).
Proof.
  intros Hd Hv Hr Hroom (k & Hk & Hn) ix'. pose proof (rowBytes_pos ix Hd) as Hp.
  assert (Hfit : ∀ r, 0 ≤ r < n → r * rowBytes ix + rowBytes ix ≤ zlen (ix_mmap ix)) by (intros; nia).
  pose proof (write_size row vec ix ltac:(lia) (Hfit row Hr) Hp Hv) as Hsz.
  subst ix'. unfold setRowInv. replace (row <? 0) with false by lia. cbn [ix_rowInv set_rowInv].
  change (ix_rowInv (writeRow row vec ix)) with (ix_rowInv ix). rewrite Hk.
  set (ix' := writeRow row vec ix) in *.
  set (l := _ <$> seq 0 k). assert (Hl : length l = k) by (subst l; by rewrite length_fmap, length_seq).
  apply list_eq. intros i. cbn [ix_mmap ix_dim ix_encoding set_rowInv].
  destruct (decide (i < Z.to_nat n)%nat) as [Hi|Hi]; last first.
  { rewrite !lookup_ge_None_2; [done|..];
      rewrite ?length_fmap, ?length_seq, ?length_insert, ?length_app, ?length_replicate, ?Hl; lia. }
  rewrite list_lookup_fmap, lookup_seq_lt by done. cbn [fmap option_fmap option_map].
  destruct (decide (i = Z.to_nat row)) as [->|Hne].
  { rewrite list_lookup_insert_eq by (rewrite length_app, length_replicate, Hl; lia).
    cbn. by rewrite Z2Nat.id by lia. }
  rewrite list_lookup_insert_ne by done. rewrite lookup_app_l by (rewrite Hl; lia).
  subst l. rewrite list_lookup_fmap, lookup_seq_lt by lia. cbn [fmap option_fmap option_map]. f_equal.
  change (mmapRowInvEncoded (ix_mmap ix) (ix_dim ix) (Z.of_nat i) (ix_encoding ix)
          = mmapRowInvEncoded (ix_mmap ix') (ix_dim ix) (Z.of_nat i) (ix_encoding ix)).
  rewrite (mmapRowInvEncoded_row (ix_mmap ix) (ix_dim ix) (Z.of_nat i) (ix_encoding ix) Hd ltac:(lia) (Hfit (Z.of_nat i) ltac:(lia))).
  rewrite (mmapRowInvEncoded_row (ix_mmap ix') (ix_dim ix) (Z.of_nat i) (ix_encoding ix) Hd ltac:(lia)) by
    (rewrite Hsz; apply (Hfit (Z.of_nat i)); lia).
  f_equal. symmetry. pose proof (rowOf_write ix row (Z.of_nat i) vec Hd ltac:(lia) ltac:(lia) (Hfit row Hr) Hv) as Hw.
  rewrite decide_False in Hw by lia. exact Hw.
Qed.

(** ** Claiming a row *)

(** The tables alone, without the rows. *)
Record names_ok (ix : MMapVectorIndex) : Prop := {
  no_count : ix_count ix = zlen (ix_idList ix);
  no_tombs : zlen (ix_tombstones ix) = ix_count ix;
  no_gens : zlen (ix_generations ix) = ix_count ix;
  no_nodup : NoDup (ix_idList ix);
  no_map : ∀ id row, ix_idMap ix !! id = Some row ↔ 0 ≤ row ∧ ix_idList ix !! Z.to_nat row = Some id
}.

Lemma tables_names ix : tables_ok ix → names_ok ix.
Proof. intros []. by split. Qed.

Record claimed (id : string) (ix : MMapVectorIndex) (row : Z) (isNew : bool) (ix1 : MMapVectorIndex) : Prop := {
  cl_frame : same_frame ix ix1;
  cl_mmap : ix_mmap ix1 = ix_mmap ix;
  cl_inv : ix_rowInv ix1 = ix_rowInv ix;
  cl_new : isNew = bool_decide (ix_idMap ix !! id = None);
  cl_count : ix_count ix1 = ix_count ix + (if isNew then 1 else 0);
  cl_row : 0 ≤ row < ix_count ix1;
  cl_fresh : isNew = true → row = ix_count ix;
  cl_names : names_ok ix1;
  cl_map : ∀ x, ix_idMap ix1 !! x = if decide (x = id) then Some row else ix_idMap ix !! x;
  cl_live : ∀ r, 0 ≤ r → is_live ix1 r = if decide (r = row) then true else is_live ix r
}.

Lemma no_row ix id row : names_ok ix → ix_idMap ix !! id = Some row → 0 ≤ row < ix_count ix.
Proof.
  intros Hok [H0 Hl]%(no_map ix Hok). apply lookup_lt_Some in Hl. rewrite (no_count ix Hok). unfold zlen. lia.
Qed.

Lemma claimRow_old id row ix :
  names_ok ix → ix_idMap ix !! id = Some row → let '(r, isNew, ix1) := claimRow id ix in claimed id ix r isNew ix1.
Proof.
  intros Hok Hid. pose proof (no_row ix id row Hok Hid) as Hr. destruct Hok as [H1 H2 H3 H4 H5].
  unfold claimRow. rewrite Hid.
  assert (Hmap : ∀ x, ix_idMap ix !! x = if decide (x = id) then Some row else ix_idMap ix !! x).
  { intros x. case_decide; [by subst|done]. }
  assert (Hb : false = bool_decide (ix_idMap ix !! id = None)) by (rewrite Hid; by rewrite bool_decide_eq_false_2).
  destruct (nth (Z.to_nat row) (ix_tombstones ix) false) eqn:Et; cbn.
  - split; cbn; try done; try lia.
    + split; cbn; [done| | |done|done]; unfold zlen in *; rewrite ?length_insert, ?length_alter; done.
    + intros r Hr0. unfold is_live. cbn. rewrite nth_insert by (unfold zlen in H2; lia).
      repeat case_decide; try done; lia.
  - split; cbn; try done; try lia. intros r Hr0. unfold is_live. case_decide; [subst; by rewrite Et|done].
Qed.

Lemma claimRow_new id ix :
  names_ok ix → ix_idMap ix !! id = None → let '(r, isNew, ix1) := claimRow id ix in claimed id ix r isNew ix1.
Proof.
  intros [H1 H2 H3 H4 H5] Hid. unfold claimRow. rewrite Hid. cbn. pose proof (zlen_nonneg (ix_idList ix)) as Hn.
  split; cbn; try done; try lia.
  - by rewrite bool_decide_eq_true_2.
  - split; cbn; rewrite ?zlen_app; cbn; [unfold zlen in *; cbn; lia..| |].
    + apply NoDup_app. split; [done|]. split; [|apply NoDup_singleton].
      intros x [i Hi]%list_elem_of_lookup ->%list_elem_of_singleton.
      assert (Hs : ix_idMap ix !! id = Some (Z.of_nat i)) by (apply H5; rewrite Nat2Z.id; split; [lia|done]). congruence.
    + intros x row. rewrite lookup_insert. case_decide as E.
      * subst x. rewrite H1. split.
        -- intros [= <-]. split; [done|]. unfold zlen. rewrite Nat2Z.id, lookup_app_r, Nat.sub_diag by lia. done.
        -- intros [H0 [Hl|[Hl Hx]]%lookup_app_Some].
           ++ assert (ix_idMap ix !! id = Some row) by (by apply H5). congruence.
           ++ destruct (Z.to_nat row - length (ix_idList ix))%nat eqn:Ed; [|by destruct n]. f_equal. unfold zlen. lia.
      * rewrite H5. split; [intros [??]; split; [done|by apply lookup_app_l_Some]|].
        intros [H0 [Hl|[Hl Hx]]%lookup_app_Some]; [done|].
        destruct (Z.to_nat row - length (ix_idList ix))%nat as [|[]]; [cbn in Hx; congruence|done..].
  - intros x. rewrite lookup_insert. repeat case_decide; congruence || done.
  - intros r Hr. unfold is_live. cbn. rewrite !nth_lookup.
    destruct (decide (r = ix_count ix)) as [->|Hne].
    + rewrite lookup_app_r by (unfold zlen in *; lia).
      replace (Z.to_nat (ix_count ix) - length (ix_tombstones ix))%nat with 0%nat by (unfold zlen in *; lia). done.
    + destruct (decide (r < ix_count ix)).
      * by rewrite lookup_app_l by (unfold zlen in *; lia).
      * rewrite !lookup_ge_None_2; [done|unfold zlen in *; lia|rewrite length_app; cbn; unfold zlen in *; lia].
Qed.

Lemma claimRow_spec id ix :
  names_ok ix → let '(r, isNew, ix1) := claimRow id ix in claimed id ix r isNew ix1.
Proof. intros Hok. destruct (ix_idMap ix !! id) as [row|] eqn:E; [by eapply claimRow_old|by apply claimRow_new]. Qed.

(** ** Putting a row *)
Record put_ok (id : string) (vec : list float32) (ix : MMapVectorIndex) (row : Z) (isNew : bool)
    (ix' : MMapVectorIndex) : Prop := {
  pu_tables : tables_ok ix';
  pu_frame : same_frame ix ix';
  pu_size : zlen (ix_mmap ix') = zlen (ix_mmap ix);
  pu_new : isNew = bool_decide (ix_idMap ix !! id = None);
  pu_count : ix_count ix' = ix_count ix + (if isNew then 1 else 0);
  pu_row : 0 ≤ row < ix_count ix';
  pu_fresh : isNew = true → row = ix_count ix;
  pu_map : ∀ x, ix_idMap ix' !! x = if decide (x = id) then Some row else ix_idMap ix !! x;
  pu_live : ∀ x, live ix' x = if decide (x = id) then Some (encodeRow (ix_encoding ix) vec) else live ix x
}.

Lemma same_frame_rowBytes ix ix' : same_frame ix ix' → rowBytes ix' = rowBytes ix.
Proof. intros (H1 & H2 & _). unfold rowBytes. by rewrite H1, H2. Qed.

Lemma put_frame row vec ix : same_frame ix (setRowInv row (writeRow row vec ix)).
Proof. unfold setRowInv, same_frame. by case_match. Qed.

(** The tables do not depend on the rows. *)
Lemma setRowInv_tables row ix :
  let ix' := setRowInv row ix in
  ix_mmap ix' = ix_mmap ix ∧ ix_count ix' = ix_count ix ∧ ix_idMap ix' = ix_idMap ix ∧
  ix_idList ix' = ix_idList ix ∧ ix_tombstones ix' = ix_tombstones ix ∧ ix_generations ix' = ix_generations ix ∧
  rowBytes ix' = rowBytes ix ∧ ix_metaDirty ix' = ix_metaDirty ix.
Proof. unfold setRowInv. by case_match. Qed.

Lemma putRow_spec id vec ix :
  tables_ok ix → zlen vec = ix_dim ix →
  (ix_count ix + (if bool_decide (ix_idMap ix !! id = None) then 1 else 0)) * rowBytes ix ≤ zlen (ix_mmap ix) →
  let '(row, isNew, ix') := putRow id vec ix in put_ok id vec ix row isNew ix'.
Proof.
  intros Hok Hv Hroom. unfold putRow. pose proof (claimRow_spec id ix (tables_names ix Hok)) as Hc.
  destruct (claimRow id ix) as [[row isNew] ix1]. destruct Hc as [Hf Hm Hi Hn Hcnt Hr Hfresh Hnames Hmap Hl].
  rewrite <- Hn, <- Hcnt in Hroom. pose proof (same_frame_rowBytes ix ix1 Hf) as Hrb.
  assert (Hd1 : 1 ≤ ix_dim ix1) by (destruct Hf as (-> & _); apply (to_dim ix Hok)).
  assert (Hv1 : zlen vec = ix_dim ix1) by (by destruct Hf as (-> & _)).
  pose proof (rowBytes_pos ix1 Hd1) as Hp.
  assert (Hroom1 : ix_count ix1 * rowBytes ix1 ≤ zlen (ix_mmap ix1)) by (by rewrite Hrb, Hm).
  assert (Hfit : row * rowBytes ix1 + rowBytes ix1 ≤ zlen (ix_mmap ix1)) by nia.
  pose proof (write_size row vec ix1 ltac:(lia) Hfit Hp Hv1) as Hsz.
  pose proof (put_frame row vec ix1) as Hf2. set (ix2 := setRowInv row (writeRow row vec ix1)) in *.
  destruct (setRowInv_tables row (writeRow row vec ix1)) as (E1 & E2 & E3 & E4 & E5 & E6 & E7 & E8). fold ix2 in E1, E2, E3, E4, E5, E6, E7, E8.
  change (ix_count (writeRow row vec ix1)) with (ix_count ix1) in *.
  change (ix_idMap (writeRow row vec ix1)) with (ix_idMap ix1) in *.
  change (ix_idList (writeRow row vec ix1)) with (ix_idList ix1) in *.
  change (ix_tombstones (writeRow row vec ix1)) with (ix_tombstones ix1) in *.
  change (ix_generations (writeRow row vec ix1)) with (ix_generations ix1) in *.
  change (rowBytes (writeRow row vec ix1)) with (rowBytes ix1) in *.
  split; [|by eapply same_frame_trans|by rewrite E1, Hsz, Hm|done|by rewrite E2|by rewrite E2|done|intros x; by rewrite E3|].
  - destruct Hnames as [N1 N2 N3 N4 N5]. split; rewrite ?E1, ?E2, ?E3, ?E4, ?E5, ?E6, ?E7; auto.
    + by destruct Hf2 as (-> & _).
    + by rewrite Hsz.
    + rewrite <- E1. apply (rowInv_write ix1 row vec (ix_count ix1) Hd1 Hv1 Hr Hroom1).
      exists (Z.to_nat (ix_count ix)). rewrite Hi, Hm. destruct Hf as (-> & -> & _). split; [apply (to_inv ix Hok)|].
      pose proof (to_count ix Hok). pose proof (zlen_nonneg (ix_idList ix)). destruct isNew; [right|left]; [|lia].
      rewrite Hfresh in * by done. lia.
  - intros x. unfold live. rewrite E3, Hmap. unfold is_live. rewrite E5. case_decide as Ex.
    + pose proof (Hl row ltac:(lia)) as Hlr. unfold is_live in Hlr. rewrite decide_True in Hlr by done. rewrite Hlr.
      f_equal. pose proof (rowOf_write ix1 row row vec Hd1 ltac:(lia) ltac:(lia) Hfit Hv1) as Hw.
      rewrite decide_True in Hw by done. unfold rowOf in *. rewrite E1, E7. destruct Hf as (_ & <- & _). exact Hw.
    + destruct (ix_idMap ix !! x) as [r|] eqn:Er; [|done]. pose proof (to_row ix x r Hok Er) as Hr'.
      assert (Hne : r ≠ row).
      { intros ->. assert (Hx : ix_idMap ix1 !! x = Some row) by (by rewrite Hmap, decide_False).
        assert (Hid : ix_idMap ix1 !! id = Some row) by (by rewrite Hmap, decide_True).
        apply (no_map ix1 Hnames) in Hx as [_ Hx], Hid as [_ Hid]. congruence. }
      pose proof (Hl r ltac:(lia)) as Hlr. unfold is_live in Hlr. rewrite decide_False in Hlr by done. rewrite Hlr.
      destruct (negb (nth (Z.to_nat r) (ix_tombstones ix) false)); [|done]. f_equal.
      pose proof (rowOf_write ix1 row r vec Hd1 ltac:(lia) ltac:(lia) Hfit Hv1) as Hw.
      rewrite decide_False in Hw by done. unfold rowOf in *. rewrite E1, E7. change (rowBytes (writeRow row vec ix1)) with (rowBytes ix1) in Hw. rewrite Hw. by rewrite Hm, Hrb.
Qed.

(** ** The graphs *)
Section Graphs.
Variable level : Z → Z.
Variable pool : Z → searchScratch.
Hypothesis level_ok : ∀ row, 0 ≤ level row ≤ 64.
Hypothesis pool_ok : ∀ row, scratch_ok (pool row).

Lemma shardIndex_mod row : 0 ≤ row → shardIndex row = row mod hnswShards.
Proof. intros. unfold shardIndex, hnswShards. destruct (Z.ltb_spec row 0); [lia|]. by rewrite Z.rem_mod_nonneg by lia. Qed.

Lemma new_shard_ok s : shard_ok level 0 s NewHNSWGraph.
Proof.
  assert (Hnone : ∀ row, layer_of NewHNSWGraph row = None).
  { intros row. unfold layer_of, node, NewHNSWGraph. cbn. by rewrite lookup_empty. }
  split; [apply NewHNSWGraph_wf|intros row; rewrite Hnone; by rewrite bool_decide_eq_false_2 by lia|].
  intros _ a b Ha. rewrite node_layer, Hnone in Ha. by destruct Ha.
Qed.

Lemma new_shards_ok : shards_ok level 0 newHNSWShards.
Proof. split; [done|]. intros s g [-> _]%lookup_replicate. apply new_shard_ok. Qed.

(** One more row, in its shard. *)
Lemma shard_insert nscore n s g :
  0 ≤ n < 2 ^ 62 → n mod hnswShards = Z.of_nat s → shard_ok level n s g →
  shard_ok level (n + 1) s (Insert level nscore n (pool n) g).
Proof.
  intros Hn Hs [Hwf Hrows Hsmall].
  assert (Hins : insertable level g n).
  { split; [|split; [lia|apply level_ok]]. apply eq_None_not_Some. rewrite node_layer, Hrows.
    rewrite bool_decide_eq_false_2 by lia. by intros []. }
  destruct (Insert_wf level nscore n (pool n) g Hwf Hins (pool_ok n)) as [Hwf' Hgr]. split; [done| |].
  - intros row. rewrite Hgr, Hrows. case_decide as E.
    + subst row. by rewrite bool_decide_eq_true_2 by lia.
    + apply (f_equal (λ b : bool, if b then Some (level row) else None)). apply bool_decide_ext. lia.
  - intros Hsz. rewrite (grown_size level n g _ (proj1 Hins) Hgr) in Hsz.
    apply Insert_complete; [done|done|apply pool_ok|apply Hsmall; lia|lia].
Qed.

(** ... and the other shards as they were. *)
Lemma shard_other n s g : 0 ≤ n → n mod hnswShards ≠ Z.of_nat s → shard_ok level n s g → shard_ok level (n + 1) s g.
Proof.
  intros Hn Hs [Hwf Hrows Hsmall]. split; [done| |done]. intros row. rewrite Hrows.
  apply (f_equal (λ b : bool, if b then Some (level row) else None)). apply bool_decide_ext.
  split; [lia|]. intros [Hr Hm]. split; [|done]. assert (row ≠ n) by (by intros ->). lia.
Qed.

Lemma insertGraph_ok ix n gs :
  0 ≤ n < 2 ^ 62 → shards_ok level n gs → shards_ok level (n + 1) (insertGraph level pool ix gs n).
Proof.
  intros Hn [Hl Hgs]. unfold insertGraph. rewrite shardIndex_mod by lia. split.
  - unfold zlen in *. by rewrite length_alter.
  - intros s g. pose proof (Z.mod_pos_bound n hnswShards ltac:(done)) as Hm.
    destruct (decide (s = Z.to_nat (n mod hnswShards))) as [->|Hne].
    + rewrite list_lookup_alter_eq. intros (g0 & Hg0 & ->)%fmap_Some.
      apply shard_insert; [done|lia|]. by apply Hgs.
    + rewrite list_lookup_alter_ne by done. intros Hg. apply shard_other; [lia|lia|by apply Hgs].
Qed.

(** The new rows of a batch are consecutive. *)
Lemma insertGraphs_ok ix k n gs :
  0 ≤ n → n + Z.of_nat k ≤ 2 ^ 62 → shards_ok level n gs →
  shards_ok level (n + Z.of_nat k) (foldl (insertGraph level pool ix) gs ((λ i : nat, n + Z.of_nat i) <$> seq 0 k)).
Proof.
  intros Hn Hk Hgs. induction k as [|k IH]; [by rewrite Z.add_0_r|].
  rewrite seq_S, fmap_app, foldl_app. cbn. replace (n + Z.of_nat (S k)) with (n + Z.of_nat k + 1) by lia.
  apply insertGraph_ok; [lia|]. apply IH. lia.
Qed.

Lemma rebuild_ok ix :
  0 ≤ ix_count ix ≤ 2 ^ 62 → shards_ok level (ix_count ix) (ix_graphs (rebuildGraph level pool ix)).
Proof.
  intros Hc. unfold rebuildGraph, rebuild_from. cbn [ix_graphs set_graphs].
  change (ix_count (syncRowInv ix)) with (ix_count ix).
  pose proof (insertGraphs_ok (syncRowInv ix) (Z.to_nat (ix_count ix)) 0 newHNSWShards ltac:(lia) ltac:(lia) new_shards_ok) as H.
  rewrite Z2Nat.id in H by lia. rewrite Z.add_0_l in H.
  replace (Z.of_nat <$> seq 0 (Z.to_nat (ix_count ix))) with ((λ i : nat, 0 + Z.of_nat i) <$> seq 0 (Z.to_nat (ix_count ix))); [done|].
  apply list_fmap_ext. intros i x _. lia.
Qed.

(** The shards of a well-formed index pass the check made on loading. *)
Lemma shard_size n s g : 0 ≤ n → (s < 8)%nat → shard_ok level n s g → Size g = shardExpectedSize n (Z.of_nat s).
Proof.
  intros Hn Hs [Hwf Hrows _]. rewrite (gw_size g Hwf), <- size_dom. unfold shardExpectedSize, hnswShards in *.
  set (k := if n <=? Z.of_nat s then 0 else Z.quot (n - Z.of_nat s + 8 - 1) 8).
  assert (Hk : 0 ≤ k ∧ ∀ i, 0 ≤ i → i < k ↔ Z.of_nat s + 8 * i < n).
  { subst k. destruct (Z.leb_spec n (Z.of_nat s)); [split; [lia|]; lia|].
    rewrite Z.quot_div_nonneg by lia. pose proof (Z.div_mod (n - Z.of_nat s + 8 - 1) 8 ltac:(lia)).
    pose proof (Z.mod_pos_bound (n - Z.of_nat s + 8 - 1) 8 ltac:(lia)). split; [lia|]. intros i Hi. lia. }
  destruct Hk as [Hk0 Hk].
  assert (Hdom : dom (Nodes g) = list_to_set (C := gset Z) ((λ i : nat, Z.of_nat s + 8 * Z.of_nat i) <$> seq 0 (Z.to_nat k))).
  { apply set_eq. intros row. rewrite elem_of_dom. change (is_Some (Nodes g !! row)) with (is_Some (node g row)).
    rewrite node_layer, Hrows, elem_of_list_to_set, list_elem_of_fmap. case_bool_decide as Hb.
    - split; [intros _|by eauto]. destruct Hb as [Hr Hm]. exists (Z.to_nat (row / 8)).
      pose proof (Z.div_mod row 8 ltac:(lia)). assert (0 ≤ row / 8) by (apply Z.div_pos; lia).
      split; [lia|]. apply elem_of_seq. pose proof (Hk (row / 8) ltac:(done)). lia.
    - split; [by intros []|]. intros (i & -> & Hi%elem_of_seq). destruct Hb. pose proof (Hk (Z.of_nat i) ltac:(lia)).
      split; [lia|]. rewrite Z.mul_comm, Z_mod_plus_full. apply Z.mod_small. lia. }
  rewrite Hdom, size_list_to_set, length_fmap, length_seq; [lia|].
  apply NoDup_fmap_2; [intros i j Hij; lia|apply NoDup_seq].
Qed.
End Graphs.

(** ** Growing the file and saving the metadata *)

(** Two indexes with the same contents: only spare room, saved files and the
    count of unsaved changes may differ. *)
Record same_contents (ix ix' : MMapVectorIndex) : Prop := {
  sc_tables : tables_ok ix → tables_ok ix';
  sc_dim : ix_dim ix' = ix_dim ix;
  sc_encoding : ix_encoding ix' = ix_encoding ix;
  sc_graphs : ix_graphs ix' = ix_graphs ix;
  sc_count : ix_count ix' = ix_count ix;
  sc_map : ix_idMap ix' = ix_idMap ix;
  sc_live : tables_ok ix → ∀ x, live ix' x = live ix x
}.

Lemma same_contents_refl ix : same_contents ix ix.
Proof. by split. Qed.

Lemma same_contents_trans a b c : same_contents a b → same_contents b c → same_contents a c.
Proof.
  intros [A1 A2 A3 A4 A5 A6 A7] [B1 B2 B3 B4 B5 B6 B7]. split; [auto|congruence..|].
  intros Ha x. by rewrite B7, A7 by auto.
Qed.

Lemma same_contents_ok level ix ix' : same_contents ix ix' → index_ok level ix → index_ok level ix'.
Proof.
  intros [S1 S2 S3 S4 S5 S6 S7] [H1 H2 H3]. split; [auto|by rewrite S4, S5|by rewrite S3].
Qed.

Lemma writeMetadata_spec durable recent meta_ok ix :
  match writeMetadata durable recent meta_ok ix with
  | Ok ix' => same_contents ix ix' ∧ ix_mmap ix' = ix_mmap ix ∧
              (ix' = ix ∨ ix_meta ix' = Some (metadata ix')) ∧ ix_hnsw ix' = ix_hnsw ix
  | Err e => meta_ok = false ∧ e = "write metadata"%string
  | Panic => False
  end.
Proof.
  unfold writeMetadata. destruct (_ && recent); [split; [apply same_contents_refl|auto]|]. destruct meta_ok; [|done].
  split; [|split; [done|split; [by right|done]]]. split; try done. intros []. by split.
Qed.

Lemma ensureCapacity_spec grow_ok needed ix :
  match ensureCapacity grow_ok needed ix with
  | Ok ix' => (tables_ok ix → same_contents ix ix') ∧ needed ≤ zlen (ix_mmap ix') ∧ same_frame ix ix'
  | Err e => grow_ok = false ∧ e = "grow vector file"%string
  | Panic => False
  end.
Proof.
  unfold ensureCapacity. destruct (Z.leb_spec needed (zlen (ix_mmap ix))) as [Hle|Hgt].
  { split; [intros; apply same_contents_refl|done]. }
  destruct grow_ok; [|done]. set (n := Z.to_nat _). set (m := ix_mmap ix ++ replicate n (z2b 0)).
  assert (Hm : zlen m = zlen (ix_mmap ix) + Z.of_nat n).
  { subst m. rewrite zlen_app. unfold zlen. by rewrite length_replicate. }
  split; [|split; [cbn; rewrite Hm; subst n; destruct (Z.ltb_spec (zlen (ix_mmap ix) * 2) needed); lia|done]].
  intros Hok. pose proof (to_dim ix Hok) as Hd. pose proof (rowBytes_pos ix Hd) as Hp.
  assert (Hrow : ∀ r, 0 ≤ r < ix_count ix → rowOf (set_rows m ix) r = rowOf ix r).
  { intros r Hr. destruct (to_fits ix r Hok Hr). unfold rowOf. change (rowBytes (set_rows m ix)) with (rowBytes ix).
    cbn. subst m. apply sub_app_l; lia. }
  split; try done.
  - intros [T1 T2 T3 T4 T5 T6 T7 T8]. split; try done.
    + cbn. change (rowBytes (set_rows m ix)) with (rowBytes ix). lia.
    + cbn. rewrite T8. apply list_fmap_ext. intros i r Hi%lookup_seq. destruct Hi as [-> Hi].
      destruct (to_fits ix (Z.of_nat (0 + i)) Hok ltac:(lia)). unfold rowBytes in *.
      rewrite (mmapRowInvEncoded_row (ix_mmap ix) (ix_dim ix) (Z.of_nat (0 + i)) (ix_encoding ix) Hd ltac:(lia)) by done.
      rewrite (mmapRowInvEncoded_row m (ix_dim ix) (Z.of_nat (0 + i)) (ix_encoding ix) Hd ltac:(lia)) by lia.
      f_equal. symmetry. exact (Hrow (Z.of_nat (0 + i)) ltac:(lia)).
  - intros _ x. unfold live. cbn. destruct (ix_idMap ix !! x) as [r|] eqn:Er; [|done].
    change (is_live (set_rows m ix) r) with (is_live ix r). case_match; [|done]. f_equal. apply Hrow.
    by eapply to_row.
Qed.

(** ** Additions *)

(** The map an addition leaves. *)
Definition put (encoding : string) (f : string → option (list byte)) (item : string * list float32)
    : string → option (list byte) :=
  λ x, if decide (x = item.1) then Some (encodeRow encoding item.2) else f x.

Lemma new_ids_elem ix ids x : x ∈ new_ids ix ids ↔ x ∈ ids ∧ ix_idMap ix !! x = None.
Proof.
  unfold new_ids. rewrite elem_of_list_to_set, list_elem_of_In, filter_In, <- list_elem_of_In.
  rewrite negb_true_iff, bool_decide_eq_false, <- eq_None_not_Some. done.
Qed.

Lemma new_ids_cons ix ix' id ids row :
  (∀ x, ix_idMap ix' !! x = if decide (x = id) then Some row else ix_idMap ix !! x) →
  Z.of_nat (size (new_ids ix (id :: ids)))
  = (if bool_decide (ix_idMap ix !! id = None) then 1 else 0) + Z.of_nat (size (new_ids ix' ids)).
Proof.
  intros Hmap. assert (Hrest : ∀ x, x ∈ new_ids ix' ids ↔ x ∈ ids ∧ x ≠ id ∧ ix_idMap ix !! x = None).
  { intros x. rewrite new_ids_elem, Hmap. destruct (decide (x = id)); intuition congruence. }
  case_bool_decide as Hid.
  - assert (new_ids ix (id :: ids) = {[id]} ∪ new_ids ix' ids) as ->.
    { apply set_eq. intros x. rewrite elem_of_union, elem_of_singleton, Hrest, new_ids_elem, elem_of_cons.
      destruct (decide (x = id)); [subst|]; tauto. }
    rewrite size_union, size_singleton; [lia|]. apply disjoint_singleton_l. rewrite Hrest. tauto.
  - assert (new_ids ix (id :: ids) = new_ids ix' ids) as ->; [|lia].
    apply set_eq. intros x. rewrite Hrest, new_ids_elem, elem_of_cons. destruct (decide (x = id)); [subst|]; tauto.
Qed.

Record puts_ok (items : list (string * list float32)) (ix ix' : MMapVectorIndex) (k : nat) : Prop := {
  ps_tables : tables_ok ix';
  ps_frame : same_frame ix ix';
  ps_count : ix_count ix' = ix_count ix + Z.of_nat k;
  ps_new : k = size (new_ids ix items.*1);
  ps_map : ∀ x, x ∉ items.*1 → ix_idMap ix' !! x = ix_idMap ix !! x;
  ps_dom : ∀ x, is_Some (ix_idMap ix' !! x) ↔ x ∈ items.*1 ∨ is_Some (ix_idMap ix !! x);
  ps_live : ∀ x, live ix' x = foldl (put (ix_encoding ix)) (live ix) items x
}.

Lemma put_ext encoding f g items x :
  (∀ y, f y = g y) → foldl (put encoding) f items x = foldl (put encoding) g items x.
Proof.
  revert f g. induction items as [|it items IH]; intros f g H; cbn; [done|]. apply IH.
  intros y. unfold put. by rewrite H.
Qed.

Lemma putRows_spec items ix acc :
  tables_ok ix → Forall (λ it, zlen it.2 = ix_dim ix) items →
  (ix_count ix + Z.of_nat (size (new_ids ix items.*1))) * rowBytes ix ≤ zlen (ix_mmap ix) →
  ∃ k ix', putRows items ix acc = (acc ++ ((λ i : nat, ix_count ix + Z.of_nat i) <$> seq 0 k), ix') ∧
    puts_ok items ix ix' k.
Proof.
  revert ix acc. induction items as [|[id vec] items IH]; intros ix acc Hok HF Hroom.
  { exists 0%nat, ix. cbn. rewrite app_nil_r. split; [done|]. split; try done; [lia|].
    intros x. split; [by right|]. by intros [?%not_elem_of_nil|?]. }
  cbn [putRows]. apply Forall_cons in HF as [Hv HF]. cbn in Hv. rewrite fmap_cons in Hroom. cbn in Hroom.
  pose proof (rowBytes_pos ix (to_dim ix Hok)) as Hp.
  assert (Hlow : (if bool_decide (ix_idMap ix !! id = None) then 1 else 0) ≤ Z.of_nat (size (new_ids ix (id :: items.*1)))).
  { rewrite (new_ids_cons ix (set_tables 0 (<[id := 0]> (ix_idMap ix)) [] [] [] 0 ix) id items.*1 0); [lia|].
    intros x. cbn. rewrite lookup_insert. repeat case_decide; congruence || done. }
  assert (Hroom1 : (ix_count ix + (if bool_decide (ix_idMap ix !! id = None) then 1 else 0)) * rowBytes ix ≤ zlen (ix_mmap ix)).
  { etransitivity; [|exact Hroom]. apply Z.mul_le_mono_nonneg_r; [lia|]. apply Z.add_le_mono_l. exact Hlow. }
  pose proof (putRow_spec id vec ix Hok Hv Hroom1) as Hput. destruct (putRow id vec ix) as [[row isNew] ix1].
  destruct Hput as [P1 P2 P3 P4 P5 P6 P7 P8 P9]. pose proof (same_frame_rowBytes _ _ P2) as Hrb.
  pose proof (new_ids_cons ix ix1 id items.*1 row P8) as Hsz. rewrite <- P4 in Hsz.
  destruct (IH ix1 (if isNew then acc ++ [row] else acc)) as (k & ix' & Hrun & [Q1 Q2 Q3 Q4 Qm Qd Q5]); [done| | |].
  { eapply Forall_impl; [exact HF|]. intros [? ?]. cbn. by destruct P2 as (-> & _). }
  { rewrite P5, P3, Hrb, <- Z.add_assoc, <- Hsz. done. }
  exists ((if isNew then 1 else 0) + k)%nat, ix'. split.
  - rewrite Hrun. f_equal. destruct isNew.
    + rewrite <- app_assoc. f_equal. rewrite P7 by done. cbn [Nat.add seq]. rewrite fmap_cons, Z.add_0_r. cbn [app]. f_equal.
      rewrite <- fmap_S_seq, <- list_fmap_compose. apply list_fmap_ext. intros i x _. cbn. lia.
    + f_equal. apply list_fmap_ext. intros i x _. lia.
  - split; [done|by eapply same_frame_trans| | | | |].
    + rewrite Q3, P5. destruct isNew; lia.
    + rewrite fmap_cons. cbn [fst]. destruct isNew; lia.
    + intros x. rewrite fmap_cons, elem_of_cons. cbn [fst]. intros Hx. rewrite Qm, P8 by tauto. by rewrite decide_False by tauto.
    + intros x. rewrite Qd, P8, fmap_cons, elem_of_cons. cbn [fst]. case_decide as E; [|tauto].
      split; [tauto|]. intros _. right. by eexists.
    + intros x. rewrite Q5. cbn. destruct P2 as (_ & -> & _). apply put_ext. intros y. rewrite P9. done.
Qed.

Section Operations.
Variable level : Z → Z.
Variable pool : Z → searchScratch.
Hypothesis level_ok : ∀ row, 0 ≤ level row ≤ 64.
Hypothesis pool_ok : ∀ row, scratch_ok (pool row).

(** Adding [items] succeeded. *)
Record added (items : list (string * list float32)) (ix ix' : MMapVectorIndex) : Prop := {
  ad_ok : index_ok level ix';
  ad_dim : ix_dim ix' = ix_dim ix;
  ad_encoding : ix_encoding ix' = ix_encoding ix;
  ad_count : ix_count ix' = ix_count ix + Z.of_nat (size (new_ids ix items.*1));
  ad_map : ∀ x, x ∉ items.*1 → ix_idMap ix' !! x = ix_idMap ix !! x;
  ad_dom : ∀ x, is_Some (ix_idMap ix' !! x) ↔ x ∈ items.*1 ∨ is_Some (ix_idMap ix !! x);
  ad_meta : ix_meta ix' = ix_meta ix ∨ ix_meta ix' = Some (metadata ix');
  ad_hnsw : ix_hnsw ix' = ix_hnsw ix;
  ad_live : ∀ x, live ix' x = foldl (put (ix_encoding ix)) (live ix) items x
}.

(** The rows and the tables have changed, the graphs have not. *)
Definition half_added (items : list (string * list float32)) (ix ix' : MMapVectorIndex) : Prop :=
  tables_ok ix' ∧ ix_graphs ix' = ix_graphs ix ∧ (∀ x, live ix' x = foldl (put (ix_encoding ix)) (live ix) items x) ∧
  ix_dim ix' = ix_dim ix ∧ ix_encoding ix' = ix_encoding ix ∧
  ix_count ix' = ix_count ix + Z.of_nat (size (new_ids ix items.*1)).

Lemma set_graphs_ok ix gs :
  tables_ok ix → ix_encoding ix = EncodingSQ8 ∨ ix_encoding ix = EncodingFloat32 →
  shards_ok level (ix_count ix) gs → index_ok level (set_graphs gs ix).
Proof. intros [] He Hg. split; [by split|done|done]. Qed.

(** The common tail of the additions: rows put, metadata written, graphs grown. *)
Lemma finish_add recent meta_ok items ix ix1 k :
  index_ok level ix → puts_ok items ix ix1 k → ix_count ix + Z.of_nat k ≤ 2 ^ 62 →
  match writeMetadata false recent meta_ok ix1 with
  | Ok ix2 => added items ix (set_graphs (foldl (insertGraph level pool ix2) (ix_graphs ix2)
                ((λ i : nat, ix_count ix + Z.of_nat i) <$> seq 0 k)) ix2)
  | Err e => meta_ok = false ∧ half_added items ix ix1 ∧ e = "write metadata"%string
  | Panic => False
  end.
Proof.
  intros [T [G1 G2] E] [Q1 Q2 Q3 Q4 Qm Qd Q5] Hk. pose proof Q2 as (F1 & F2 & F3 & F4 & F5).
  pose proof (writeMetadata_spec false recent meta_ok ix1) as Hw.
  destruct (writeMetadata false recent meta_ok ix1) as [ix2|er|]; [| |done].
  2: { destruct Hw as [-> ->]. split; [done|]. split; [|done]. split; [done|]. split; [congruence|]. split; [done|].
       split; [congruence|]. split; [congruence|]. by rewrite Q3, Q4. }
  destruct Hw as ([S1 S2 S3 S4 S5 S6 S7] & Hm & Hmeta & Hh).
  split.
  - apply set_graphs_ok; [auto|by rewrite S3, F2|]. rewrite S4, S5, F3, Q3.
    apply insertGraphs_ok; [done|done| |done|by split]. rewrite (to_count ix T). apply zlen_nonneg.
  - cbn. congruence.
  - cbn. congruence.
  - cbn. by rewrite S5, Q3, Q4.
  - intros x Hx. cbn. by rewrite S6, Qm.
  - intros x. cbn. by rewrite S6, Qd.
  - destruct Hmeta as [->|Hmeta]; [left; cbn; congruence|right]. exact Hmeta.
  - cbn. congruence.
  - intros x. change (live (set_graphs _ ix2) x) with (live ix2 x). by rewrite S7, Q5.
Qed.

Lemma addBatch_spec maxVectors grow_ok recent meta_ok dim items ix :
  index_ok level ix → Forall (λ it, zlen it.2 = dim) items →
  let n := Z.of_nat (size (new_ids ix items.*1)) in
  ix_count ix + n ≤ 2 ^ 62 →
  let '(err, ix') := addBatch level pool maxVectors grow_ok recent meta_ok dim items ix in
  match err with
  | None => ix_dim ix = dim ∧ (0 < maxVectors → ix_count ix' ≤ maxVectors) ∧ added items ix ix'
  | Some e =>
      (ix' = ix ∧ (e = dim_error (ix_dim ix) dim ∧ ix_dim ix ≠ dim ∨
                   e = quota_error maxVectors ∧ 0 < maxVectors < ix_count ix + n ∨
                   grow_ok = false ∧ e = "grow vector file"%string)) ∨
      (meta_ok = false ∧ half_added items ix ix' ∧ e = "write metadata"%string)
  end.
Proof.
  intros Hix HF n Hn. unfold addBatch. fold n. destruct (Z.eqb_spec (ix_dim ix) dim) as [Hd|Hd]; cbn [negb]; [|by left; auto].
  destruct ((maxVectors >? 0) && (ix_count ix + n >? maxVectors)) eqn:Eq; [left; split; [done|]; right; left; split; [done|lia]|].
  pose proof (ensureCapacity_spec grow_ok ((ix_count ix + n) * rowBytes ix) ix) as Hcap.
  destruct (ensureCapacity _ _ ix) as [ix0| |]; [|left; auto|done].
  destruct Hcap as (Hs & Hroom & Hf). specialize (Hs (io_tables level ix Hix)).
  pose proof (same_contents_ok level ix ix0 Hs Hix) as Hix0. destruct Hs as [S1 S2 S3 S4 S5 S6 S7].
  assert (Hn0 : new_ids ix0 items.*1 = new_ids ix items.*1) by (unfold new_ids; by rewrite S6).
  destruct (putRows_spec items ix0 [] (io_tables level ix0 Hix0)) as (k & ix1 & Hrun & Hputs).
  { by rewrite S2, Hd. }
  { by rewrite Hn0, S5, (same_frame_rowBytes ix ix0 Hf). }
  rewrite Hrun. cbn [app]. clear Hrun.
  assert (Hk : Z.of_nat k = n) by (rewrite (ps_new _ _ _ _ Hputs), Hn0; done).
  pose proof (finish_add recent meta_ok items ix0 ix1 k Hix0 Hputs ltac:(rewrite S5; lia)) as Hfin.
  destruct (writeMetadata false recent meta_ok ix1) as [ix2| |]; [|right|done].
  - destruct Hfin as [A1 A2 A3 A4 Am Ad At Ah A5]. split; [done|]. destruct Hf as (F1 & F2 & F3 & F4 & F5). split.
    + intros Hm. rewrite A4, S5, Hn0. fold n. lia.
    + split; [done|cbn in *; congruence|cbn in *; congruence|by rewrite A4, S5, Hn0|intros x Hx; by rewrite Am, S6
        |intros x; by rewrite Ad, S6|by rewrite <- F4|by rewrite <- F5|].
      intros x. rewrite A5, S3. apply put_ext. intros y. by apply S7, (io_tables level ix Hix).
  - destruct Hfin as (? & (H1 & H2 & H3 & H4 & H5 & H6) & He). split; [done|]. split; [|done]. split; [done|]. split; [congruence|].
    split; [|split; [congruence|split; [congruence|by rewrite H6, S5, Hn0]]].
    intros x. rewrite H3, S3. apply put_ext. intros y. by apply S7, (io_tables level ix Hix).
Qed.

Lemma addVector_spec maxVectors grow_ok recent meta_ok id vec ix :
  index_ok level ix → ix_count ix < 2 ^ 62 →
  let '(err, ix') := addVector level pool maxVectors grow_ok recent meta_ok id vec ix in
  match err with
  | None => ix_dim ix = zlen vec ∧ added [(id, vec)] ix ix'
  | Some e =>
      (ix' = ix ∧ (e = dim_error (ix_dim ix) (zlen vec) ∧ ix_dim ix ≠ zlen vec ∨
                   e = quota_error maxVectors ∧ 0 < maxVectors ≤ ix_count ix ∧ ix_idMap ix !! id = None ∨
                   grow_ok = false ∧ e = "grow vector file"%string)) ∨
      (meta_ok = false ∧ half_added [(id, vec)] ix ix' ∧ e = "write metadata"%string)
  end.
Proof.
  intros Hix Hn. unfold addVector. destruct (Z.eqb_spec (ix_dim ix) (zlen vec)) as [Hd|Hd]; cbn [negb]; [|by left; auto].
  set (ex := bool_decide (is_Some (ix_idMap ix !! id))).
  assert (Hex : ex = negb (bool_decide (ix_idMap ix !! id = None))).
  { subst ex. destruct (ix_idMap ix !! id); [by rewrite bool_decide_eq_true_2|]. by rewrite bool_decide_eq_false_2 by (by intros []). }
  destruct ((maxVectors >? 0) && (ix_count ix >=? maxVectors) && negb ex) eqn:Eq.
  { left. split; [done|]. right. left. rewrite Hex, negb_involutive in Eq. apply andb_prop in Eq as [Eq E%bool_decide_eq_true_1].
    split; [done|]. split; [lia|done]. }
  set (need := if ex then ix_count ix else ix_count ix + 1).
  pose proof (ensureCapacity_spec grow_ok (need * rowBytes ix) ix) as Hcap.
  destruct (ensureCapacity _ _ ix) as [ix0| |]; [|left; auto|done].
  destruct Hcap as (Hs & Hroom & Hf). specialize (Hs (io_tables level ix Hix)).
  pose proof (same_contents_ok level ix ix0 Hs Hix) as Hix0. destruct Hs as [S1 S2 S3 S4 S5 S6 S7].
  assert (Hneed : need = ix_count ix + Z.of_nat (size (new_ids ix [id]))).
  { rewrite (new_ids_cons ix (set_tables 0 (<[id := 0]> (ix_idMap ix)) [] [] [] 0 ix) id [] 0);
      [|intros x; cbn; rewrite lookup_insert; repeat case_decide; congruence || done].
    assert (new_ids (set_tables 0 (<[id := 0]> (ix_idMap ix)) [] [] [] 0 ix) [] = ∅) as -> by done.
    rewrite size_empty. subst need. rewrite Hex. case_bool_decide; cbn; lia. }
  assert (Hn0 : new_ids ix0 [id] = new_ids ix [id]) by (unfold new_ids; by rewrite S6).
  destruct (putRows_spec [(id, vec)] ix0 [] (io_tables level ix0 Hix0)) as (k & ix1 & Hrun & Hputs).
  { repeat constructor. cbn. lia. }
  { change ([(id, vec)].*1) with [id]. by rewrite Hn0, S5, (same_frame_rowBytes ix ix0 Hf), <- Hneed. }
  assert (Hk : (k ≤ 1)%nat ∧ Z.of_nat k = Z.of_nat (size (new_ids ix [id]))).
  { rewrite (ps_new _ _ _ _ Hputs). change ([(id, vec)].*1) with [id]. rewrite Hn0. split; [|done]. subst need. destruct ex; lia. }
  cbn [putRows] in Hrun. destruct (putRow id vec ix0) as [[row isNew] ix1']. injection Hrun as Hrows ->.
  pose proof (finish_add recent meta_ok [(id, vec)] ix0 ix1 k Hix0 Hputs ltac:(rewrite S5; lia)) as Hfin.
  rewrite <- Hrows in Hfin.
  destruct (writeMetadata false recent meta_ok ix1) as [ix2| |]; [|right|done].
  - assert (Hg : (if isNew then set_graphs (insertGraph level pool ix2 (ix_graphs ix2) row) ix2 else ix2)
      = set_graphs (foldl (insertGraph level pool ix2) (ix_graphs ix2) (if isNew then [row] else [])) ix2).
    { destruct isNew; [done|]. by destruct ix2. }
    rewrite Hg. destruct Hfin as [A1 A2 A3 A4 Am Ad At Ah A5]. split; [done|]. destruct Hf as (F1 & F2 & F3 & F4 & F5).
    split; [done|cbn in *; congruence|cbn in *; congruence|rewrite A4, S5; change ([(id, vec)].*1) with [id]; by rewrite Hn0
      |intros x Hx; by rewrite Am, S6|intros x; by rewrite Ad, S6|by rewrite <- F4|by rewrite <- F5|].
    intros x. rewrite A5, S3. apply put_ext. intros y. by apply S7, (io_tables level ix Hix).
  - destruct Hfin as (? & (H1 & H2 & H3 & H4 & H5 & H6) & He). split; [done|]. split; [|done]. split; [done|]. split; [congruence|].
    split; [|split; [congruence|split; [congruence|]]].
    + intros x. rewrite H3, S3. apply put_ext. intros y. by apply S7, (io_tables level ix Hix).
    + rewrite H6, S5. change ([(id, vec)].*1) with [id]. by rewrite Hn0.
Qed.
End Operations.

(** ** Deletion *)
Lemma live_found ix id : HasLiveVector id ix = bool_decide (is_Some (live ix id)).
Proof.
  unfold HasLiveVector, live. destruct (ix_idMap ix !! id) as [row|].
  - destruct (is_live ix row); symmetry; [by apply bool_decide_eq_true_2|by apply bool_decide_eq_false_2; intros []].
  - symmetry. apply bool_decide_eq_false_2. by intros [].
Qed.

(** Changing the tombstone and the generation of one row. *)
Lemma mark_row_ok level ix row b gens dirty :
  index_ok level ix → 0 ≤ row < ix_count ix → zlen gens = ix_count ix →
  index_ok level (set_tables (ix_count ix) (ix_idMap ix) (ix_idList ix) (<[Z.to_nat row := b]> (ix_tombstones ix))
    gens dirty ix).
Proof.
  intros [[T1 T2 T3 T4 T5 T6 T7 T8] G E] Hr Hg. split; [|done|done]. split; try done.
  cbn. unfold zlen in *. by rewrite length_insert.
Qed.

Lemma mark_row_live ix id row (b : bool) gens dirty x :
  tables_ok ix → ix_idMap ix !! id = Some row →
  live (set_tables (ix_count ix) (ix_idMap ix) (ix_idList ix) (<[Z.to_nat row := b]> (ix_tombstones ix)) gens dirty ix) x
  = if decide (x = id) then (if b then None else Some (rowOf ix row)) else live ix x.
Proof.
  intros Hok Hid. pose proof (to_row ix id row Hok Hid) as Hr. pose proof (to_tombs ix Hok) as Ht.
  unfold live. cbn. case_decide as Ex.
  - subst x. rewrite Hid. unfold is_live. cbn. rewrite nth_insert by (unfold zlen in Ht; lia).
    rewrite decide_True by done. by destruct b.
  - destruct (ix_idMap ix !! x) as [r|] eqn:Er; [|done]. pose proof (to_row ix x r Hok Er).
    assert (r ≠ row) by (intros ->; by apply Ex, (to_unique ix x id row)).
    unfold is_live. cbn. rewrite nth_insert by (unfold zlen in Ht; lia). by rewrite decide_False by lia.
Qed.

Lemma deleteVector_spec level meta_ok id ix :
  index_ok level ix →
  let '(r, ix') := deleteVector meta_ok id ix in
  index_ok level ix' ∧ ix_count ix' = ix_count ix ∧ ix_dim ix' = ix_dim ix ∧ ix_encoding ix' = ix_encoding ix ∧
  match r with
  | Ok b => b = bool_decide (is_Some (live ix id)) ∧
            (∀ x, live ix' x = if decide (x = id) then None else live ix x) ∧
            (b = true → ix_meta ix' = Some (metadata ix'))
  | Err _ => meta_ok = false ∧ ∀ x, live ix' x = live ix x
  | Panic => False
  end.
Proof.
  intros Hix. pose proof (io_tables level ix Hix) as Hok. rewrite <- live_found. unfold deleteVector, HasLiveVector.
  assert (Hnone : live ix id = None → ∀ x, live ix x = if decide (x = id) then None else live ix x).
  { intros Hl x. case_decide; [by subst|done]. }
  destruct (ix_idMap ix !! id) as [row|] eqn:Hid; last first.
  { conjs; try done. apply Hnone. unfold live. by rewrite Hid. }
  pose proof (to_row ix id row Hok Hid) as Hr. unfold is_live.
  destruct (nth (Z.to_nat row) (ix_tombstones ix) false) eqn:Et.
  { conjs; try done. apply Hnone. unfold live. rewrite Hid. unfold is_live. by rewrite Et. }
  set (gens := alter _ _ (ix_generations ix)). set (ix1 := set_tables _ _ _ _ gens _ ix).
  assert (Hg : zlen gens = ix_count ix) by (subst gens; unfold zlen; rewrite length_alter; apply (to_gens ix Hok)).
  assert (Hix1 : index_ok level ix1) by (by apply mark_row_ok).
  assert (Hl1 : ∀ x, live ix1 x = if decide (x = id) then None else live ix x).
  { intros x. subst ix1. by rewrite (mark_row_live ix id row). }
  destruct meta_ok; cbn -[ix1 set_tables].
  - conjs; try done. by destruct Hix1 as [[] ? ?].
  - assert (Hix2 : index_ok level (set_tables (ix_count ix) (ix_idMap ix) (ix_idList ix)
      (<[Z.to_nat row := false]> (ix_tombstones ix1)) (alter (λ g, u64 (g - 1)) (Z.to_nat row) (ix_generations ix1))
      (ix_metaDirty ix) ix)).
    { apply (mark_row_ok level ix1 row false); [done|done|]. cbn. unfold zlen in *. by rewrite length_alter. }
    conjs; try done. intros x. etransitivity; [exact (mark_row_live ix1 id row false _ _ x (io_tables _ _ Hix1) Hid)|].
    rewrite Hl1. case_decide; [|done]. subst x. unfold live. rewrite Hid. unfold is_live. by rewrite Et.
Qed.

(** ** Names numbered in order *)
Lemma number_names_spec k (ids : list string) (m0 : gmap string Z) :
  NoDup ids → ∀ id row,
  foldl (λ m '(row, id), <[id := Z.of_nat row]> m) m0 (zip (seq k (length ids)) ids) !! id = Some row ↔
  (∃ i, ids !! i = Some id ∧ row = Z.of_nat (k + i)) ∨ (id ∉ ids) ∧ m0 !! id = Some row.
Proof.
  revert k m0. induction ids as [|x ids IH]; intros k m0 Hnd id row; cbn.
  { split; [intros H; right; split; [apply not_elem_of_nil|done]|]. by intros [(i & Hi & _)|[_ H]]. }
  apply NoDup_cons in Hnd as [Hx Hnd]. rewrite IH by done. rewrite lookup_insert, elem_of_cons. split.
  - intros [(i & Hi & ->)|[Hid Hm]].
    + left. exists (S i). split; [done|]. lia.
    + case_decide; [|right; split; [by intros [->|?]|done]]. subst id. injection Hm as <-. left. exists 0%nat.
      split; [done|]. lia.
  - intros [(i & Hi & ->)|[Hid Hm]].
    + destruct i as [|i]; cbn in Hi.
      * injection Hi as ->. right. split; [done|]. rewrite decide_True by done. f_equal. lia.
      * left. exists i. split; [done|]. lia.
    + right. rewrite decide_False by (intros ->; apply Hid; by left). split; [|done]. intros Hin. apply Hid. by right.
Qed.

Lemma number_names ids :
  NoDup ids → ∀ id row,
  foldl (λ m '(row, id), <[id := Z.of_nat row]> m) (∅ : gmap string Z) (zip (seq 0 (length ids)) ids) !! id = Some row ↔
  0 ≤ row ∧ ids !! Z.to_nat row = Some id.
Proof.
  intros Hnd id row. rewrite (number_names_spec 0 ids ∅ Hnd). rewrite lookup_empty. split.
  - intros [(i & Hi & ->)|[_ ?]]; [|done]. split; [lia|]. by rewrite Nat2Z.id.
  - intros [H0 Hl]. left. exists (Z.to_nat row). split; [done|]. lia.
Qed.

(** ** Rows written in order *)
Lemma write_rows sz k (datas : list (list byte)) m :
  0 < sz → Forall (λ d, zlen d = sz) datas → (Z.of_nat k + zlen datas) * sz ≤ zlen m →
  let m' := foldl (λ m '(row, data), splice (Z.of_nat row * sz) data m) m (zip (seq k (length datas)) datas) in
  zlen m' = zlen m ∧
  (∀ i d, datas !! i = Some d → sub m' (Z.of_nat (k + i) * sz) (Z.of_nat (k + i) * sz + sz) = d) ∧
  (∀ r, 0 ≤ r < Z.of_nat k → sub m' (r * sz) (r * sz + sz) = sub m (r * sz) (r * sz + sz)).
Proof.
  intros Hp. revert k m. induction datas as [|d datas IH]; intros k m HF Hroom; cbn [length seq zip zip_with foldl].
  { split; [done|]. split; [by intros i d Hd|done]. }
  apply Forall_cons in HF as [Hd HF].
  assert (Hz : zlen (d :: datas) = zlen datas + 1) by (unfold zlen; cbn; lia). pose proof (zlen_nonneg datas).
  assert (Hfit : 0 ≤ Z.of_nat k * sz ∧ Z.of_nat k * sz + zlen d ≤ zlen m) by nia.
  assert (Hs : zlen (splice (Z.of_nat k * sz) d m) = zlen m).
  { unfold zlen. f_equal. apply length_splice. unfold zlen in *. lia. }
  destruct (IH (S k) (splice (Z.of_nat k * sz) d m) HF ltac:(rewrite Hs; nia)) as (H1 & H2 & H3).
  split; [by rewrite H1|]. split.
  - intros i d' Hi. destruct i as [|i]; cbn in Hi.
    + injection Hi as <-. rewrite Nat.add_0_r. rewrite H3 by lia.
      replace (Z.of_nat k * sz + sz) with (Z.of_nat k * sz + zlen d) by lia. apply sub_splice_same; lia.
    + replace (k + S i)%nat with (S k + i)%nat by lia. by apply H2.
  - intros r Hr. rewrite H3 by lia. destruct (rows_disjoint (Z.of_nat k) r sz Hp ltac:(lia));
      apply sub_splice_other; try lia; nia.
Qed.

(** ** Compaction *)
Definition live_rows (ix : MMapVectorIndex) : list nat :=
  filter (λ row : nat, is_live ix (Z.of_nat row) = true) (seq 0 (length (ix_idList ix))).

Definition row_entry (ix : MMapVectorIndex) (row : nat) : string * Z * list byte :=
  (nth row (ix_idList ix) ""%string, nth row (ix_generations ix) 0, rowOf ix (Z.of_nat row)).

Lemma active_eq ix : active ix = row_entry ix <$> live_rows ix.
Proof.
  unfold active, live_rows. induction (seq 0 (length (ix_idList ix))) as [|row l IH]; [done|].
  rewrite bind_cons, IH, filter_cons. unfold row_entry at 2. destruct (is_live ix (Z.of_nat row)).
  - by rewrite decide_True by done.
  - by rewrite decide_False by done.
Qed.

Lemma live_rows_elem ix row :
  row ∈ live_rows ix ↔ (row < length (ix_idList ix))%nat ∧ is_live ix (Z.of_nat row) = true.
Proof. unfold live_rows. rewrite list_elem_of_filter, elem_of_seq. split; intros [? ?]; (split; [lia || done|lia || done]). Qed.

Lemma live_names_NoDup ix :
  NoDup (ix_idList ix) → NoDup ((λ row, nth row (ix_idList ix) ""%string) <$> live_rows ix).
Proof.
  intros Hnd. eapply NoDup_fmap_2_strong; [|apply NoDup_filter, NoDup_seq].
  intros a b [Ha _]%live_rows_elem [Hb _]%live_rows_elem Heq. rewrite !nth_lookup in Heq.
  destruct (lookup_lt_is_Some_2 _ _ Ha) as [x Hx], (lookup_lt_is_Some_2 _ _ Hb) as [y Hy].
  rewrite Hx, Hy in Heq. cbn in Heq. subst y. by eapply NoDup_lookup.
Qed.

Lemma splice_rows sz (rows : list (string * Z * list byte)) l m :
  foldl (λ m '(row, (_, _, data)), splice (Z.of_nat row * sz) data m) m (zip l rows)
  = foldl (λ m '(row, data), splice (Z.of_nat row * sz) data m) m (zip l (snd <$> rows)).
Proof.
  revert l m. induction rows as [|[[x y] d] rows IH]; intros [|k l] m; cbn; done.
Qed.

Lemma live_iff ix x bs :
  tables_ok ix → live ix x = Some bs ↔
  ∃ row, row ∈ live_rows ix ∧ ix_idList ix !! row = Some x ∧ bs = rowOf ix (Z.of_nat row).
Proof.
  intros Hok. unfold live. split.
  - destruct (ix_idMap ix !! x) as [r|] eqn:Er; [|done]. apply (to_map ix Hok) in Er as [H0 Hl].
    destruct (is_live ix r) eqn:El; [|done]. intros [= <-]. exists (Z.to_nat r).
    rewrite live_rows_elem, Z2Nat.id by done. split; [|done]. split; [by eapply lookup_lt_Some|done].
  - intros (row & [Hr El]%live_rows_elem & Hx & ->).
    assert (ix_idMap ix !! x = Some (Z.of_nat row)) as -> by (apply (to_map ix Hok); rewrite Nat2Z.id; split; [lia|done]).
    by rewrite El.
Qed.

Lemma option_ext {A} (a b : option A) : (∀ x, a = Some x ↔ b = Some x) → a = b.
Proof. intros H. destruct a as [x|]; [symmetry; by apply H|]. destruct b as [y|]; [by apply H|done]. Qed.

(** The index whose rows are the live ones, before the graphs are rebuilt. *)
Definition packed (ix : MMapVectorIndex) : MMapVectorIndex :=
  let rows := active ix in
  let n := length rows in
  let m := foldl (λ m '(row, (_, _, data)), splice (Z.of_nat row * rowBytes ix) data m) (ix_mmap ix)
             (zip (seq 0 n) rows) in
  let ids := (λ r, r.1.1) <$> rows in
  let idMap := foldl (λ m '(row, id), <[id := Z.of_nat row]> m) ∅ (zip (seq 0 n) ids) in
  syncRowInv (set_tables (Z.of_nat n) idMap ids (replicate n false) ((λ r, r.1.2) <$> rows)
    (ix_metaDirty ix) (set_rows m ix)).

Lemma length_live_rows ix : (length (live_rows ix) ≤ length (ix_idList ix))%nat.
Proof. unfold live_rows. etransitivity; [apply length_filter|]. by rewrite length_seq. Qed.

Lemma packed_spec ix :
  tables_ok ix →
  tables_ok (packed ix) ∧ ix_count (packed ix) = zlen (live_rows ix) ∧ same_frame ix (packed ix) ∧
  (∀ x, live (packed ix) x = live ix x) ∧ ix_tombstones (packed ix) = replicate (length (live_rows ix)) false.
Proof.
  intros Hok. pose proof (rowBytes_pos ix (to_dim ix Hok)) as Hp. unfold packed. rewrite active_eq.
  rewrite !length_fmap, splice_rows, <- !list_fmap_compose. set (R := live_rows ix).
  set (names := _ <$> R). set (gens := _ <$> R). set (datas := _ <$> R).
  assert (Hle : (length R ≤ length (ix_idList ix))%nat) by apply length_live_rows.
  assert (Hrow : ∀ i r, R !! i = Some r → 0 ≤ Z.of_nat r < ix_count ix).
  { intros i r Hi. apply list_elem_of_lookup_2, live_rows_elem in Hi as [Hr _]. rewrite (to_count ix Hok). unfold zlen. lia. }
  assert (HF : Forall (λ d, zlen d = rowBytes ix) datas).
  { subst datas. apply Forall_fmap, Forall_forall. intros r [i Hi]%list_elem_of_lookup. cbn.
    destruct (to_fits ix (Z.of_nat r) Hok (Hrow i r Hi)). unfold rowOf. rewrite zlen_sub; lia. }
  assert (Hld : length datas = length R) by (subst datas; by rewrite length_fmap).
  assert (Hroom : zlen R * rowBytes ix ≤ zlen (ix_mmap ix)).
  { etransitivity; [|apply (to_room ix Hok)]. apply Z.mul_le_mono_nonneg_r; [lia|].
    rewrite (to_count ix Hok). unfold zlen. lia. }
  destruct (write_rows (rowBytes ix) 0 datas (ix_mmap ix) Hp HF) as (W1 & W2 & _).
  { unfold zlen at 1. rewrite Hld. exact Hroom. }
  rewrite Hld in W1, W2. set (m := foldl _ (ix_mmap ix) _) in *.
  assert (Hln : length names = length R) by (subst names; by rewrite length_fmap).
  pose proof (live_names_NoDup ix (to_nodup ix Hok)) as Hnd. fold R in Hnd.
  assert (Hnames : names = (λ row, nth row (ix_idList ix) ""%string) <$> R) by done. rewrite <- Hnames in Hnd.
  pose proof (number_names names Hnd) as Hmap. rewrite Hln in Hmap.
  set (ix1 := set_tables _ _ _ _ _ _ _) in *.
  assert (Hmapx : ∀ x i, ix_idMap ix1 !! x = Some (Z.of_nat i) ↔ ∃ r, R !! i = Some r ∧ ix_idList ix !! r = Some x).
  { intros x i. subst ix1. cbn [ix_idMap set_tables]. rewrite Hmap, Nat2Z.id, Hnames, list_lookup_fmap, fmap_Some.
    split.
    - intros [_ (r & Hr & ->)]. exists r. split; [done|].
      apply list_elem_of_lookup_2, live_rows_elem in Hr as [Hr _]. destruct (lookup_lt_is_Some_2 _ _ Hr) as [y Hy].
      by rewrite nth_lookup, Hy.
    - intros (r & Hr & Hx). split; [lia|]. exists r. split; [done|]. by rewrite nth_lookup, Hx. }
  assert (Hok1 : tables_ok (syncRowInv ix1)).
  { split; cbn; try done.
    - apply (to_dim ix Hok).
    - unfold zlen. by rewrite Hln.
    - unfold zlen. by rewrite length_replicate.
    - unfold zlen. subst gens. by rewrite length_fmap.
    - change (rowBytes (syncRowInv ix1)) with (rowBytes ix). rewrite W1. unfold zlen in Hroom |- *. exact Hroom. }
  conjs; [done|done|done| |done].
  intros x. apply option_ext. intros bs. rewrite (live_iff ix x bs Hok). unfold live.
  change (ix_idMap (syncRowInv ix1)) with (ix_idMap ix1).
  assert (Hlive : ∀ i, is_live (syncRowInv ix1) (Z.of_nat i) = true).
  { intros i. unfold is_live. cbn. rewrite Nat2Z.id. rewrite nth_lookup.
    destruct (replicate (length R) false !! i) as [b|] eqn:Eb; [|done]. by apply lookup_replicate in Eb as [-> _]. }
  assert (Hbytes : ∀ i r, R !! i = Some r → rowOf (syncRowInv ix1) (Z.of_nat i) = rowOf ix (Z.of_nat r)).
  { intros i r Hi. unfold rowOf at 1. change (rowBytes (syncRowInv ix1)) with (rowBytes ix). cbn [ix_mmap].
    apply (W2 i). subst datas. by rewrite list_lookup_fmap, Hi. }
  split.
  - destruct (ix_idMap ix1 !! x) as [q|] eqn:Eq; [|done].
    assert (0 ≤ q) by (by apply (Hmap x q) in Eq as [? _]).
    replace q with (Z.of_nat (Z.to_nat q)) in * by lia. rewrite Hlive. intros [= <-].
    apply Hmapx in Eq as (r & Hr & Hx). exists r. split; [by eapply list_elem_of_lookup_2|]. split; [done|].
    by apply Hbytes.
  - intros (r & [i Hi]%list_elem_of_lookup & Hx & ->).
    assert (ix_idMap ix1 !! x = Some (Z.of_nat i)) as -> by (apply Hmapx; eauto).
    rewrite Hlive. f_equal. by apply Hbytes.
Qed.

Lemma rebuild_index_ok level pool ix :
  (∀ row, 0 ≤ level row ≤ 64) → (∀ row, scratch_ok (pool row)) →
  tables_ok ix → ix_encoding ix = EncodingSQ8 ∨ ix_encoding ix = EncodingFloat32 → ix_count ix ≤ 2 ^ 62 →
  index_ok level (rebuildGraph level pool ix) ∧ (∀ x, live (rebuildGraph level pool ix) x = live ix x).
Proof.
  intros Hlev Hpool Hok He Hc. pose proof (to_count ix Hok) as Hn. pose proof (zlen_nonneg (ix_idList ix)).
  split; [|done]. split; [|exact (rebuild_ok level pool Hlev Hpool ix ltac:(lia))|done].
  destruct Hok as [T1 T2 T3 T4 T5 T6 T7 T8]. by split.
Qed.

Lemma compact_eq level pool flush_ok meta_ok hnsw_ok ix :
  compact level pool flush_ok meta_ok hnsw_ok ix =
  if zlen (ix_idList ix) - zlen (active ix) =? 0 then (Ok 0, ix)
  else if negb flush_ok then (Err "flush vector file"%string, packed ix)
  else
    match writeMetadata true false meta_ok (packed ix) with
    | Ok ix1 =>
        if hnsw_ok
        then (Ok (zlen (ix_idList ix) - zlen (active ix)),
              set_hnsw (Some (ix_graphs (rebuildGraph level pool ix1))) (rebuildGraph level pool ix1))
        else (Err "save graphs"%string, rebuildGraph level pool ix1)
    | Err e => (Err e, packed ix)
    | Panic => (Panic, packed ix)
    end.
Proof. done. Qed.

Lemma compact_spec level pool flush_ok meta_ok hnsw_ok ix :
  (∀ row, 0 ≤ level row ≤ 64) → (∀ row, scratch_ok (pool row)) → index_ok level ix → ix_count ix ≤ 2 ^ 62 →
  let '(r, ix') := compact level pool flush_ok meta_ok hnsw_ok ix in
  (∀ x, live ix' x = live ix x) ∧ ix_dim ix' = ix_dim ix ∧ ix_encoding ix' = ix_encoding ix ∧
  match r with
  | Ok removed => index_ok level ix' ∧ removed = ix_count ix - ix_count ix' ∧ ix_count ix' = zlen (live_rows ix) ∧
                  (∀ row, 0 ≤ row < ix_count ix' → is_live ix' row = true)
  | Err _ => flush_ok && meta_ok && hnsw_ok = false ∧ tables_ok ix' ∧ ix_count ix' = zlen (live_rows ix)
  | Panic => False
  end.
Proof.
  intros Hlev Hpool Hix Hc. pose proof (io_tables level ix Hix) as Hok. rewrite compact_eq.
  assert (Hlen : zlen (active ix) = zlen (live_rows ix)) by (rewrite active_eq; unfold zlen; by rewrite length_fmap).
  rewrite Hlen, <- (to_count ix Hok). destruct (Z.eqb_spec (ix_count ix - zlen (live_rows ix)) 0) as [E|E].
  { split; [done|]. split; [done|]. split; [done|]. split; [done|]. split; [lia|]. split; [lia|].
    intros row Hr. pose proof (to_count ix Hok) as Hn. unfold zlen in *.
    assert (Hall : live_rows ix ≡ₚ seq 0 (length (ix_idList ix))).
    { unfold live_rows in *. apply submseteq_length_Permutation; [apply sublist_submseteq, sublist_filter|].
      rewrite length_seq. lia. }
    assert (Hin : Z.to_nat row ∈ live_rows ix) by (rewrite Hall, elem_of_seq; lia).
    apply live_rows_elem in Hin as [_ Hl]. by rewrite Z2Nat.id in Hl by lia. }
  destruct (packed_spec ix Hok) as (P1 & P2 & (F1 & F2 & _) & P4 & P5).
  pose proof (writeMetadata_spec true false meta_ok (packed ix)) as Hw.
  pose proof (zlen_nonneg (live_rows ix)). pose proof (length_live_rows ix). pose proof (to_count ix Hok) as Hn.
  destruct flush_ok; cbn [negb andb]; [|by conjs].
  destruct (writeMetadata true false meta_ok (packed ix)) as [ix1| |] eqn:Em; [|destruct Hw as [-> _]; by conjs|done].
  destruct Hw as ([S1 S2 S3 S4 S5 S6 S7] & Hm & _).
  destruct (rebuild_index_ok level pool ix1 Hlev Hpool (S1 P1)) as [R1 R2].
  { rewrite S3, F2. apply (io_encoding level ix Hix). }
  { rewrite S5, P2. unfold zlen in *. lia. }
  assert (Hc1 : ix_count ix1 = zlen (live_rows ix)) by (by rewrite S5).
  assert (Ht : ix_tombstones ix1 = replicate (length (live_rows ix)) false).
  { unfold writeMetadata in Em. destruct meta_ok; [|done]. injection Em as <-. exact P5. }
  destruct hnsw_ok; cycle 1.
  { rewrite andb_false_r. conjs; [|change (ix_dim ix1 = ix_dim ix); congruence|change (ix_encoding ix1 = ix_encoding ix); congruence
      |done|apply (io_tables level _ R1)|exact Hc1]. intros x. by rewrite R2, S7, P4. }
  conjs.
  - intros x. change (live (set_hnsw _ (rebuildGraph level pool ix1)) x) with (live (rebuildGraph level pool ix1) x).
    by rewrite R2, S7, P4.
  - change (ix_dim ix1 = ix_dim ix). congruence.
  - change (ix_encoding ix1 = ix_encoding ix). congruence.
  - destruct R1 as [[] ? ?]. by split.
  - change (ix_count (set_hnsw _ (rebuildGraph level pool ix1))) with (ix_count ix1). lia.
  - exact Hc1.
  - intros row Hr. unfold is_live.
    change (ix_tombstones (set_hnsw _ (rebuildGraph level pool ix1))) with (ix_tombstones ix1). rewrite Ht, nth_lookup.
    destruct (replicate _ false !! Z.to_nat row) as [b|] eqn:Eb; [|done]. by apply lookup_replicate in Eb as [-> _].
Qed.

(** ** Reading *)
Lemma getVector_spec id ix :
  tables_ok ix →
  getVector id ix = match live ix id with
                    | Some bs => Ok (decodeRow (ix_encoding ix) (ix_dim ix) bs)
                    | None => Err "vector id not found"%string
                    end.
Proof.
  intros Hok. unfold getVector, live. destruct (ix_idMap ix !! id) as [row|] eqn:Er; [|done].
  pose proof (to_row ix id row Hok Er) as Hr. pose proof (to_tombs ix Hok) as Ht.
  replace (row <? 0) with false by lia. replace (row >=? ix_count ix) with false by lia.
  replace (row <? zlen (ix_tombstones ix)) with true by lia. cbn [orb andb]. unfold is_live.
  destruct (nth (Z.to_nat row) (ix_tombstones ix) false); cbn [negb]; [done|].
  unfold readRow. destruct (to_fits ix row Hok Hr).
  replace (row * rowBytes ix <? 0) with false by lia.
  by replace (row * rowBytes ix + rowBytes ix >? zlen (ix_mmap ix)) with false by lia.
Qed.

(** ** Searching *)
Lemma StronglySorted_filter_prop {A} (R : A → A → Prop) (P : A → Prop) `{∀ x, Decision (P x)} l :
  StronglySorted R l → StronglySorted R (filter P l).
Proof.
  intros Hs. induction Hs as [|a l _ IH Ha]; [constructor|]. rewrite filter_cons. case_decide; [|done].
  constructor; [done|]. rewrite Forall_forall in Ha |- *. intros x [_ Hx]%list_elem_of_filter. by apply Ha.
Qed.

Definition result_of (ix : MMapVectorIndex) (c : intNode) : SearchResult :=
  {| r_ID := nth (Z.to_nat (in_ID c)) (ix_idList ix) ""%string; r_Score := in_Score c |}.
Definition above_min (opts : SearchOpts) (c : intNode) : bool :=
  negb (o_HasMinScore opts && SFltb (in_Score c) (o_MinScore opts)).
Definition best_first (a b : SearchResult) : Prop := fle (r_Score b) (r_Score a).

(** The loop over distinct hits takes the first [K] that reach the minimum. *)
Lemma collect_eq opts ix hits seen results :
  NoDup (in_ID <$> hits) → (∀ c, c ∈ hits → 0 ≤ in_ID c < zlen (ix_idList ix) ∧ in_ID c ∉ seen) →
  zlen results < o_K opts →
  collect opts ix hits seen results
  = take (Z.to_nat (o_K opts)) (results ++ (result_of ix <$> filter (λ c, above_min opts c = true) hits)).
Proof.
  revert seen results. induction hits as [|c hits IH]; intros seen results Hnd Hin Hk; cbn [collect].
  { rewrite app_nil_r, take_ge; [done|]. unfold zlen in Hk. lia. }
  rewrite fmap_cons in Hnd. apply NoDup_cons in Hnd as [Hc Hnd].
  destruct (Hin c ltac:(by left)) as [Hr Hseen]. replace (in_ID c <? 0) with false by lia.
  replace (in_ID c >=? zlen (ix_idList ix)) with false by lia. cbn [orb].
  rewrite bool_decide_eq_false_2 by done. rewrite filter_cons.
  assert (Hin' : ∀ d, d ∈ hits → 0 ≤ in_ID d < zlen (ix_idList ix) ∧ in_ID d ∉ ({[in_ID c]} ∪ seen : gset Z)).
  { intros d Hd. destruct (Hin d ltac:(by right)) as [? ?]. split; [done|].
    rewrite elem_of_union, elem_of_singleton. intros [E|?]; [|done]. apply Hc. rewrite <- E.
    apply list_elem_of_fmap. by exists d. }
  replace (o_HasMinScore opts && SFltb (in_Score c) (o_MinScore opts)) with (negb (above_min opts c))
    by (unfold above_min; apply negb_involutive).
  destruct (above_min opts c) eqn:Ea; cbn [negb]; last first.
  - rewrite decide_False by done. by apply IH.
  - rewrite decide_True by done. rewrite fmap_cons. fold (result_of ix c).
    rewrite (cons_middle _ _ (_ <$> filter _ hits)), app_assoc.
    destruct (Z.geb_spec (zlen (results ++ [result_of ix c])) (o_K opts)) as [Hge|Hlt].
    + rewrite take_app_length'; [done|]. rewrite zlen_app in Hge. unfold zlen in *. rewrite length_app. cbn in *. lia.
    + by apply IH.
Qed.

Section Search.
Variable level : Z → Z.
Variable pool : Z → searchScratch.
Hypothesis pool_ok : ∀ row, scratch_ok (pool row).
Variables (query : list single) (opts : SearchOpts) (ix : MMapVectorIndex).
Hypothesis ix_ok : index_ok level ix.

Abbreviation accepted := (hnswFilter opts ix).

(** A row the filter accepts is live and has a name that passes. *)
Lemma accepted_row row :
  accepted row = true ↔
  0 ≤ row < ix_count ix ∧ is_live ix row = true ∧
  ∃ id, ix_idList ix !! Z.to_nat row = Some id ∧ (o_ExcludeID opts = ""%string ∨ id ≠ o_ExcludeID opts) ∧
    match o_Filter opts with None => true | Some f => f id end = true.
Proof.
  destruct (io_tables level ix ix_ok) as [T1 T2 T3 T4 T5 T6 T7 T8]. unfold hnswFilter, is_live.
  rewrite <- T2, T3. destruct (decide (0 ≤ row < ix_count ix)) as [Hr|Hr].
  - replace (row <? 0) with false by lia. replace (row >=? ix_count ix) with false by lia. cbn [orb].
    destruct (lookup_lt_is_Some_2 (ix_idList ix) (Z.to_nat row)) as [id Hid]; [unfold zlen in T2; lia|].
    rewrite (nth_lookup (ix_idList ix)), Hid. cbn [default].
    destruct (nth (Z.to_nat row) (ix_tombstones ix) false); cbn [negb]; [split; [done|by intros (_ & ? & _)]|].
    case_bool_decide as E1; [|case_bool_decide as E2]; cbn [negb andb]; split; try done.
    + intros Hf. split; [done|]. split; [done|]. exists id. auto.
    + by intros (_ & _ & id' & [= <-] & _ & Hf).
    + intros (_ & _ & id' & [= <-] & [?|?] & Hf); done.
    + intros Hf. split; [done|]. split; [done|]. exists id. auto.
    + by intros (_ & _ & id' & [= <-] & _ & Hf).
  - destruct (Z.ltb_spec row 0), (Z.geb_spec row (ix_count ix)); cbn [orb]; try (split; [done|tauto]). lia.
Qed.

(** The hits of one shard. *)
Definition shard_search (g : HNSWGraph) : list intNode :=
  Search (score (query_of query ix)) (retrieve_count opts) accepted (o_EfSearch opts) (pool 0) g.

Lemma shard_hits_eq :
  shard_hits pool query opts ix
  = (λ c, {| in_ID := in_ID c; in_Score := rescore query ix (in_ID c) |}) <$> (g ← ix_graphs ix; shard_search g).
Proof. done. Qed.

Lemma retrieve_pos : 10 ≤ retrieve_count opts.
Proof.
  unfold retrieve_count. destruct (Z.ltb_spec (o_K opts) 10); case_match; try lia;
    repeat match goal with |- context [if ?b then _ else _] => destruct b eqn:? end; lia.
Qed.

(** Every hit of a shard is an accepted row of the shard. *)
Lemma shard_search_sound s g :
  ix_graphs ix !! s = Some g →
  NoDup (in_ID <$> shard_search g) ∧
  ∀ c, c ∈ shard_search g → in_ID c mod hnswShards = Z.of_nat s ∧ accepted (in_ID c) = true.
Proof.
  intros Hg. destruct (io_graphs level ix ix_ok) as [_ Hsh]. destruct (Hsh s g Hg) as [Hwf Hrows _].
  destruct (Search_sound (score (query_of query ix)) (retrieve_count opts) accepted (o_EfSearch opts) (pool 0) g Hwf
    (pool_ok 0)) as (H1 & _ & _ & H4). split; [done|]. intros c Hc. destruct (H4 c Hc) as (Hn & Hf & _).
  split; [|done]. rewrite node_layer, Hrows in Hn. case_bool_decide as Hb; [tauto|by destruct Hn].
Qed.

Lemma bind_elem {A B} (f : A → list B) l y : y ∈ (l ≫= f) ↔ ∃ x, x ∈ l ∧ y ∈ f x.
Proof. rewrite list_elem_of_bind. split; intros (x & ? & ?); eauto. Qed.

(** Shards do not share rows, so no row is hit twice. *)
Lemma hits_distinct : NoDup (in_ID <$> (g ← ix_graphs ix; shard_search g)).
Proof.
  assert (Hgen : ∀ gs k, (∀ s g, gs !! s = Some g → ix_graphs ix !! (k + s)%nat = Some g) →
    NoDup (in_ID <$> (g ← gs; shard_search g))); [|by apply (Hgen _ 0%nat)].
  induction gs as [|g gs IH]; intros k Hk; [constructor|]. rewrite bind_cons, fmap_app.
  destruct (shard_search_sound k g) as [Hnd Hin]; [rewrite <- (Nat.add_0_r k); by apply Hk|].
  apply NoDup_app. split; [done|]. split.
  - intros x (c & -> & Hc)%list_elem_of_fmap (d & Hd & (g' & Hg' & Hc')%bind_elem)%list_elem_of_fmap.
    apply list_elem_of_lookup in Hg' as [s Hs]. destruct (shard_search_sound (k + S s) g') as [_ Hin'].
    { apply (Hk (S s)). exact Hs. }
    destruct (Hin c Hc) as [Hm _], (Hin' d Hc') as [Hm' _]. rewrite <- Hd in Hm'. lia.
  - apply (IH (S k)). intros s g' Hs. replace (S k + s)%nat with (k + S s)%nat by lia. by apply Hk.
Qed.

Abbreviation all_hits := (shard_hits pool query opts ix).

Lemma all_hits_ok :
  NoDup (in_ID <$> all_hits) ∧
  ∀ c, c ∈ all_hits → accepted (in_ID c) = true ∧ in_Score c = rescore query ix (in_ID c).
Proof.
  rewrite shard_hits_eq. split; [rewrite <- list_fmap_compose; apply hits_distinct|].
  intros c (d & -> & (g & Hg & Hd)%bind_elem)%list_elem_of_fmap. cbn. split; [|done].
  apply list_elem_of_lookup in Hg as [s Hs]. by apply (shard_search_sound s g Hs).
Qed.

(** The answer: the hits that reach the minimum, sorted, the first [K]. *)
Lemma retrieve_le : 0 < o_K opts ≤ 2 ^ 41 → retrieve_count opts ≤ 2 ^ 41.
Proof.
  intros Hk. unfold retrieve_count. destruct (Z.ltb_spec (o_K opts) 10); case_match; try lia;
    repeat match goal with |- context [if ?b then _ else _] => destruct b eqn:? end; lia.
Qed.

Lemma slices_fit :
  0 < o_K opts ≤ 2 ^ 41 →
  makeslice_ok 16 (i64 (retrieve_count opts * zlen (ix_graphs ix))) && makeslice_ok 24 (o_K opts) = true.
Proof.
  intros Hk. pose proof (retrieve_le Hk). pose proof retrieve_pos. destruct (io_graphs level ix ix_ok) as [-> _].
  unfold hnswShards, makeslice_ok, maxAlloc in *. rewrite i64_id by (unfold in_i64, MinInt64, MaxInt64; lia).
  rewrite !andb_true_iff, !Z.leb_le. lia.
Qed.

Lemma searchIndex_fits : zlen query = ix_dim ix → o_K opts ≤ 2 ^ 41 → searchIndex pool query opts ix ≠ Panic.
Proof.
  intros Hd Hk. unfold searchIndex. destruct (ix_count ix =? 0); [done|].
  replace (zlen query =? ix_dim ix) with true by lia. cbn [negb]. destruct (Z.leb_spec (o_K opts) 0); [done|].
  by rewrite <- negb_andb, slices_fit by lia.
Qed.

Lemma searchIndex_eq :
  ix_count ix ≠ 0 → zlen query = ix_dim ix → 0 < o_K opts → searchIndex pool query opts ix ≠ Panic →
  ∃ hits, hits ≡ₚ filter (λ c, above_min opts c = true) all_hits ∧ StronglySorted by_score_desc hits ∧
    searchIndex pool query opts ix = Ok (take (Z.to_nat (o_K opts)) (result_of ix <$> hits)).
Proof.
  intros Hc Hd Hk. unfold searchIndex. replace (ix_count ix =? 0) with false by lia.
  replace (zlen query =? ix_dim ix) with true by lia. replace (o_K opts <=? 0) with false by lia. cbn [negb].
  destruct (_ || _); [done|intros _].
  destruct all_hits_ok as [Hnd Hin]. set (sorted := merge_sort by_score_desc all_hits).
  assert (Hp : sorted ≡ₚ all_hits) by apply merge_sort_Permutation.
  exists (filter (λ c, above_min opts c = true) sorted). split; [by rewrite Hp|]. split.
  { apply StronglySorted_filter_prop. apply StronglySorted_merge_sort; apply _. }
  f_equal. rewrite collect_eq; [done|by rewrite Hp| |unfold zlen; cbn; lia].
  intros c Hc'. rewrite Hp in Hc'. destruct (Hin c Hc') as [Ha _]. apply accepted_row in Ha as (Hr & _).
  rewrite <- (to_count ix (io_tables level ix ix_ok)). split; [done|]. apply not_elem_of_empty.
Qed.

Definition answer_ok (r : SearchResult) : Prop :=
  ∃ bs, live ix (r_ID r) = Some bs ∧ r_Score r = row_score (ix_encoding ix) query (ix_dim ix) bs ∧
    (o_ExcludeID opts = ""%string ∨ r_ID r ≠ o_ExcludeID opts) ∧
    match o_Filter opts with None => true | Some f => f (r_ID r) end = true ∧
    (o_HasMinScore opts = true → SFltb (r_Score r) (o_MinScore opts) = false).

(** What is known of an accepted row. *)
Lemma accepted_answer c :
  accepted (in_ID c) = true → in_Score c = rescore query ix (in_ID c) → above_min opts c = true →
  answer_ok (result_of ix c).
Proof.
  intros (Hr & Hl & id & Hid & Hex & Hf)%accepted_row Hs Hm. pose proof (io_tables level ix ix_ok) as Hok.
  unfold answer_ok, result_of. cbn [r_ID r_Score].
  assert (nth (Z.to_nat (in_ID c)) (ix_idList ix) ""%string = id) as -> by (by rewrite nth_lookup, Hid).
  exists (rowOf ix (in_ID c)). conjs; [| |done|done|].
  - unfold live. assert (ix_idMap ix !! id = Some (in_ID c)) as -> by (apply (to_map ix Hok); split; [lia|done]). by rewrite Hl.
  - rewrite Hs. destruct (to_fits ix (in_ID c) Hok Hr). pose proof (to_inv ix Hok) as Hinv.
    apply rescore_row; [apply (to_dim ix Hok)| |done|].
    + rewrite Hinv. unfold zlen. rewrite length_fmap, length_seq. lia.
    + unfold row_inv. rewrite Hinv, nth_lookup, list_lookup_fmap, lookup_seq_lt by lia. cbn. by rewrite Z2Nat.id by lia.
  - intros Hh. unfold above_min in Hm. rewrite Hh in Hm. cbn in Hm. by destruct (SFltb _ _).
Qed.

(** ** Small indexes are searched exhaustively *)
Definition hit_at (row : Z) : intNode := {| in_ID := row; in_Score := rescore query ix row |}.
Definition all_rows : list Z := Z.of_nat <$> seq 0 (Z.to_nat (ix_count ix)).

Lemma search_ef_ge ef k g : k ≤ search_ef ef k g.
Proof. unfold search_ef. set (e := if _ <=? 0 then DefaultEfSearch else _). destruct (Z.gtb_spec k e); lia. Qed.

Lemma shard_search_all s g :
  ix_graphs ix !! s = Some g → ix_count ix ≤ 8 * 33 → ix_count ix ≤ 8 * retrieve_count opts →
  ∀ row, row ∈ in_ID <$> shard_search g ↔ is_Some (node g row) ∧ accepted row = true.
Proof.
  intros Hg H33 Hret. destruct (io_graphs level ix ix_ok) as [Hlen Hsh]. pose proof (Hsh s g Hg) as Hs.
  assert (Hs8 : (s < 8)%nat) by (apply lookup_lt_Some in Hg; unfold zlen, hnswShards in Hlen; lia).
  pose proof (to_count ix (io_tables level ix ix_ok)) as Hn. pose proof (zlen_nonneg (ix_idList ix)) as Hn0.
  pose proof (shard_size level (ix_count ix) s g ltac:(lia) Hs8 Hs) as Hsz.
  pose proof retrieve_pos as Hret0.
  assert (Hle : Size g ≤ 33 ∧ Size g ≤ retrieve_count opts).
  { rewrite Hsz. unfold shardExpectedSize, hnswShards. destruct (Z.leb_spec (ix_count ix) (Z.of_nat s)); [lia|].
    rewrite Z.quot_div_nonneg by lia. split; apply Z.lt_succ_r, Z.div_lt_upper_bound; lia. }
  destruct Hs as [Hwf Hrows Hsmall]. pose proof (gw_size g Hwf) as Hgs.
  assert (Hel : zlen (elements (dom (Nodes g))) = Size g).
  { unfold zlen. change (length (elements ?X)) with (size X). by rewrite size_dom. }
  destruct (Search_all (score (query_of query ix)) (retrieve_count opts) accepted (o_EfSearch opts) (pool 0) g
    (elements (dom (Nodes g)))) as (L & HL & _ & HS);
    [done|apply Hsmall; lia|done|lia|apply NoDup_elements| |pose proof (search_ef_ge (o_EfSearch opts) (retrieve_count opts) g); lia|].
  { intros x. rewrite elem_of_elements. apply elem_of_dom. }
  assert (Hids : in_ID <$> shard_search g ≡ₚ filter (λ r, accepted r = true) (elements (dom (Nodes g)))).
  { unfold shard_search. rewrite HS, take_ge.
    - rewrite HL. unfold scan. rewrite <- list_fmap_compose. by rewrite (list_fmap_ext _ id), list_fmap_id.
    - rewrite HL. unfold scan. rewrite length_fmap. pose proof (length_filter (λ r, accepted r = true) (elements (dom (Nodes g)))).
      unfold zlen in Hel. lia. }
  intros row. rewrite Hids, list_elem_of_filter, elem_of_elements, elem_of_dom. unfold node. tauto.
Qed.

Lemma all_hits_complete :
  ix_count ix ≤ 8 * 33 → ix_count ix ≤ 8 * retrieve_count opts →
  all_hits ≡ₚ hit_at <$> filter (λ row, accepted row = true) all_rows.
Proof.
  intros H33 Hret. rewrite shard_hits_eq.
  assert (Hf : (λ c, {| in_ID := in_ID c; in_Score := rescore query ix (in_ID c) |}) <$> (g ← ix_graphs ix; shard_search g)
    = hit_at <$> (in_ID <$> (g ← ix_graphs ix; shard_search g))) by (by rewrite <- list_fmap_compose).
  rewrite Hf. apply fmap_Permutation. apply NoDup_Permutation; [apply hits_distinct| |].
  { apply NoDup_filter. unfold all_rows. apply NoDup_fmap_2; [apply _|apply NoDup_seq]. }
  intros row. rewrite list_elem_of_filter. split.
  - intros (c & -> & (g & [s Hs]%list_elem_of_lookup & Hc)%bind_elem)%list_elem_of_fmap.
    destruct (shard_search_sound s g Hs) as [_ Hin]. destruct (Hin c Hc) as [_ Ha]. split; [done|].
    apply accepted_row in Ha as (Hr & _). unfold all_rows. apply list_elem_of_fmap. exists (Z.to_nat (in_ID c)).
    split; [lia|]. apply elem_of_seq. lia.
  - intros [Ha _]. pose proof Ha as (Hr & _)%accepted_row. destruct (io_graphs level ix ix_ok) as [Hlen Hsh].
    pose proof (Z.mod_pos_bound row hnswShards ltac:(done)) as Hm.
    destruct (lookup_lt_is_Some_2 (ix_graphs ix) (Z.to_nat (row mod hnswShards))) as [g Hg]; [unfold zlen in Hlen; lia|].
    assert (Hin : row ∈ in_ID <$> shard_search g).
    { apply (shard_search_all _ g Hg H33 Hret). split; [|done]. rewrite node_layer.
      destruct (Hsh _ g Hg) as [_ Hrows _]. rewrite Hrows, bool_decide_eq_true_2 by lia. by eexists. }
    apply list_elem_of_fmap in Hin as (c & -> & Hc). apply list_elem_of_fmap. exists c. split; [done|].
    apply bind_elem. exists g. split; [by eapply list_elem_of_lookup_2|done].
Qed.
End Search.

(** The answers of a scan of all the rows. *)
Definition scan_index (query : list single) (opts : SearchOpts) (ix : MMapVectorIndex) : list SearchResult :=
  result_of ix <$> filter (λ c, above_min opts c = true)
    (hit_at query ix <$> filter (λ row, hnswFilter opts ix row = true) (all_rows ix)).

Lemma result_order ix a b : by_score_desc a b → best_first (result_of ix a) (result_of ix b).
Proof. done. Qed.

(** The answers of a search, in full. *)
Lemma searchIndex_spec level pool query opts ix :
  (∀ row, scratch_ok (pool row)) → index_ok level ix → zlen query = ix_dim ix → searchIndex pool query opts ix ≠ Panic →
  ∃ l, searchIndex pool query opts ix = Ok l ∧
    zlen l ≤ Z.max 0 (o_K opts) ∧ NoDup (r_ID <$> l) ∧ StronglySorted best_first l ∧
    (∀ r, r ∈ l → answer_ok query opts ix r) ∧
    (0 < o_K opts → ix_count ix ≤ 264 → ix_count ix ≤ 8 * retrieve_count opts →
     ∃ L, L ≡ₚ scan_index query opts ix ∧ StronglySorted best_first L ∧ l = take (Z.to_nat (o_K opts)) L).
Proof.
  intros Hpool Hix Hd Hbig. pose proof (io_tables level ix Hix) as Hok.
  destruct (decide (ix_count ix = 0)) as [H0|H0].
  { exists []. unfold searchIndex. replace (ix_count ix =? 0) with true by lia.
    conjs; [done|unfold zlen; cbn; lia|constructor|constructor|by intros r ?%not_elem_of_nil|].
    intros _ _ _. exists []. conjs; [|constructor|by rewrite take_nil]. unfold scan_index, all_rows. by rewrite H0. }
  destruct (decide (o_K opts ≤ 0)) as [Hk|Hk].
  { exists []. unfold searchIndex. replace (ix_count ix =? 0) with false by lia.
    replace (zlen query =? ix_dim ix) with true by lia. replace (o_K opts <=? 0) with true by lia.
    conjs; [done|unfold zlen; cbn; lia|constructor|constructor|by intros r ?%not_elem_of_nil|lia]. }
  destruct (searchIndex_eq level pool Hpool query opts ix Hix H0 Hd ltac:(lia) Hbig) as (hits & Hp & Hso & HS).
  destruct (all_hits_ok level pool Hpool query opts ix Hix) as [Hnd Hin].
  assert (Hhit : ∀ c, c ∈ hits → hnswFilter opts ix (in_ID c) = true ∧ in_Score c = rescore query ix (in_ID c) ∧
    above_min opts c = true).
  { intros c Hc. rewrite Hp in Hc. apply list_elem_of_filter in Hc as [Hm Hc]. destruct (Hin c Hc). auto. }
  exists (take (Z.to_nat (o_K opts)) (result_of ix <$> hits)). split; [done|].
  assert (Hsorted : StronglySorted best_first (result_of ix <$> hits)).
  { eapply StronglySorted_fmap; [|exact Hso]. apply result_order. }
  conjs.
  - unfold zlen. rewrite length_take. lia.
  - rewrite fmap_take. eapply sublist_NoDup; [|apply sublist_take]. rewrite <- list_fmap_compose.
    assert (Hndh : NoDup (in_ID <$> hits)).
    { rewrite (fmap_Permutation _ _ _ Hp). eapply sublist_NoDup; [exact Hnd|apply fmap_sublist, sublist_filter]. }
    apply NoDup_fmap_2_strong; [|by eapply NoDup_fmap_1].
    intros a b Ha Hb Heq. cbn in Heq. destruct (Hhit a Ha) as (Fa & Sa & _), (Hhit b Hb) as (Fb & Sb & _).
    apply (accepted_row level opts ix Hix) in Fa as (Ra & _ & ia & Hia & _), Fb as (Rb & _ & ib & Hib & _).
    rewrite !nth_lookup, Hia, Hib in Heq. cbn in Heq. subst ib.
    assert (in_ID a = in_ID b) as Hab.
    { pose proof (NoDup_lookup _ _ _ _ (to_nodup ix Hok) Hia Hib). lia. }
    destruct a, b. cbn in *. congruence.
  - rewrite <- (take_drop (Z.to_nat (o_K opts)) (result_of ix <$> hits)) in Hsorted.
    by apply StronglySorted_app in Hsorted as (_ & ? & _).
  - intros r Hr. assert (Hr' : r ∈ result_of ix <$> hits) by (by eapply elem_of_sublist; [|apply sublist_take]).
    apply list_elem_of_fmap in Hr' as (c & -> & Hc). destruct (Hhit c Hc) as (? & ? & ?).
    by apply (accepted_answer level query opts ix Hix).
  - intros _ H264 Hret. exists (result_of ix <$> hits). conjs; [|done|done].
    unfold scan_index. rewrite Hp. by rewrite (all_hits_complete level pool Hpool query opts ix Hix) by (done || lia).
Qed.

(** A [K] whose results do not fit in the address space. *)
Lemma searchIndex_panics pool query opts ix :
  ix_count ix ≠ 0 → zlen query = ix_dim ix → 2 ^ 44 < o_K opts → searchIndex pool query opts ix = Panic.
Proof.
  intros Hc Hd Hk. unfold searchIndex. replace (ix_count ix =? 0) with false by lia.
  replace (zlen query =? ix_dim ix) with true by lia. replace (o_K opts <=? 0) with false by lia. cbn [negb].
  assert (makeslice_ok 24 (o_K opts) = false) as ->.
  { unfold makeslice_ok, maxAlloc. apply andb_false_intro2, Z.leb_gt. lia. }
  by rewrite orb_true_r.
Qed.

(** C14: a search of a well-formed index of the dimension of the query,
    for at most 2^41 results, answers at most [K] results, best first, for distinct
    names that are live, pass the filter, are not the excluded one and reach the
    minimum, each with the cosine score of the query against the stored bytes of
    that name; and as long as the index has at most 264 rows and at most eight
    times the rows fetched per shard, the answer is exactly the first [K] of a
    sorted scan of all the rows. A search of a non-empty index for more than 2^44
    results panics. *)
Theorem index_search level pool query opts ix :
  (∀ row, scratch_ok (pool row)) → index_ok level ix → zlen query = ix_dim ix →
  (o_K opts ≤ 2 ^ 41 →
   ∃ l, searchIndex pool query opts ix = Ok l ∧
     zlen l ≤ Z.max 0 (o_K opts) ∧ NoDup (r_ID <$> l) ∧ StronglySorted best_first l ∧
     (∀ r, r ∈ l → answer_ok query opts ix r) ∧
     (0 < o_K opts → ix_count ix ≤ 264 → ix_count ix ≤ 8 * retrieve_count opts →
      ∃ L, L ≡ₚ scan_index query opts ix ∧ StronglySorted best_first L ∧ l = take (Z.to_nat (o_K opts)) L)) ∧
  (2 ^ 44 < o_K opts → ix_count ix ≠ 0 → searchIndex pool query opts ix = Panic).
Proof.
  intros Hp Hix Hd. split; [intros Hk; by apply (searchIndex_spec level), (searchIndex_fits level)|]. intros Hk Hc. by apply searchIndex_panics.
Qed.
