(* ===== verification/VectorHistory.v ===== *)
(** * Restarts, histories and crashes of a vector index

    A closed index reopens with the same contents, every history of operations
    is that of a map, and the files a crash leaves open again with what the log
    does not mention unchanged. *)

From S2P Require Import Prelude GoStd Types GoFloat VectorPayload Float32 Hnsw VectorRows VectorIndex.
From S2P Require Import VectorIndexCorrect.
From Stdlib Require Import Floats.SpecFloat.
Open Scope Z_scope.

(** ** Closing and reopening *)
Lemma validate_from_ok level n k gs :
  0 ≤ n → (k + length gs ≤ 8)%nat → (∀ s g, gs !! s = Some g → shard_ok level n (k + s) g) →
  validate_from (Z.of_nat k) gs n = true.
Proof.
  intros Hn. revert k. induction gs as [|g gs IH]; intros k Hk Hgs; cbn [validate_from]; [done|]. cbn in Hk.
  pose proof (Hgs 0%nat g eq_refl) as Hg. rewrite Nat.add_0_r in Hg.
  rewrite <- (shard_size level n k g Hn ltac:(lia) Hg), graph_wf_Validate by apply Hg. cbn [andb].
  replace (Z.of_nat k + 1) with (Z.of_nat (S k)) by lia. apply IH; [lia|].
  intros s g' Hs. replace (S k + s)%nat with (k + S s)%nat by lia. by apply Hgs.
Qed.

Lemma expected_div n s : 0 ≤ n → 0 ≤ s < 8 → shardExpectedSize n s = (n + 7 - s) / 8.
Proof.
  intros Hn Hs. unfold shardExpectedSize, hnswShards. destruct (Z.leb_spec n s).
  - symmetry. apply Z.div_small. lia.
  - rewrite Z.quot_div_nonneg by lia. f_equal. lia.
Qed.

Lemma shards_validate level n gs : 0 ≤ n → shards_ok level n gs → validateShards gs n = true.
Proof.
  intros Hn [Hl Hgs]. unfold validateShards. rewrite Hl. change (hnswShards =? hnswShards) with true. cbn [andb].
  rewrite (validate_from_ok level n 0) by (done || (unfold zlen, hnswShards in Hl; lia)). cbn [andb].
  assert (Hsz : ∀ s g, gs !! s = Some g → Size g = shardExpectedSize n (Z.of_nat s)).
  { intros s g Hs. apply (shard_size level); [done| |by apply Hgs]. apply lookup_lt_Some in Hs.
    unfold zlen, hnswShards in Hl. lia. }
  unfold zlen, hnswShards in Hl.
  destruct gs as [|g0 [|g1 [|g2 [|g3 [|g4 [|g5 [|g6 [|g7 [|]]]]]]]]]; cbn in Hl; try lia. cbn [foldl].
  rewrite (Hsz 0%nat g0), (Hsz 1%nat g1), (Hsz 2%nat g2), (Hsz 3%nat g3), (Hsz 4%nat g4), (Hsz 5%nat g5),
    (Hsz 6%nat g6), (Hsz 7%nat g7) by done.
  rewrite !expected_div by lia. clear Hsz Hl Hgs. apply Z.eqb_eq. Z.div_mod_to_equations. lia.
Qed.

Lemma pad_exact {A} (x : A) n l : zlen l = n → pad x n l = l.
Proof. intros H. unfold pad, zlen in *. replace (Z.to_nat n - length l)%nat with 0%nat by lia. apply app_nil_r. Qed.

Lemma pad_length {A} (x : A) n l : 0 ≤ n → zlen l ≤ n → zlen (pad x n l) = n.
Proof. intros H0 H. unfold pad. rewrite zlen_app. unfold zlen in *. rewrite length_replicate. lia. Qed.

Lemma saved_encoding e :
  e = EncodingSQ8 ∨ e = EncodingFloat32 →
  NormalizeVectorEncoding (if bool_decide (e = EncodingSQ8) then ""%string else e) = Ok e.
Proof. by intros [->| ->]. Qed.

Lemma normalized e e' : NormalizeVectorEncoding e = Ok e' → e' = EncodingSQ8 ∨ e' = EncodingFloat32.
Proof. unfold NormalizeVectorEncoding. repeat case_bool_decide; intros [= <-]; auto. Qed.

Section Reopen.
Variable level : Z → Z.
Variable pool : Z → searchScratch.
Hypothesis level_ok : ∀ row, 0 ≤ level row ≤ 64.
Hypothesis pool_ok : ∀ row, scratch_ok (pool row).

(** Files without metadata and graphs open as an index without vectors. *)
Lemma open_blank f dim capacity enc e :
  f_meta f = None → f_hnsw f = None → 1 ≤ dim → NormalizeVectorEncoding enc = Ok e →
  ∃ ix, openIndex level pool f dim capacity enc = Ok ix ∧ index_ok level ix ∧ ix_count ix = 0 ∧
    ix_dim ix = dim ∧ ix_encoding ix = e ∧ ix_idMap ix = ∅ ∧ ix_meta ix = None ∧ ix_hnsw ix = None ∧
    zlen (ix_mmap ix) ≠ 0.
Proof.
  intros Hm Hh Hd He. unfold openIndex. rewrite He. cbn [rbind]. rewrite Hm, Hh. cbn [rbind].
  eexists. split; [done|]. set (ix := {| ix_mmap := _ |}).
  assert (Hok : tables_ok ix).
  { split; try done; cbn.
    - constructor.
    - intros id row. rewrite lookup_empty, lookup_nil. split; [done|]. by intros [].
    - apply zlen_nonneg. }
  destruct (rebuild_index_ok level pool ix level_ok pool_ok Hok (normalized enc e He) ltac:(cbn; lia)) as [H1 _].
  conjs; [done..|]. cbn. destruct (Z.eqb_spec (zlen (f_rows f)) 0) as [E|E]; [|done].
  unfold zlen. rewrite length_replicate. unfold VectorRowSize. destruct (is_f32 e), (Z.ltb_spec capacity 1000); lia.
Qed.

Lemma empty_live ix x : ix_idMap ix = ∅ → live ix x = None.
Proof. intros H. unfold live. by rewrite H, lookup_empty. Qed.

Lemma open_fresh dim capacity enc e :
  1 ≤ dim → NormalizeVectorEncoding enc = Ok e →
  ∃ ix, openIndex level pool no_files dim capacity enc = Ok ix ∧ index_ok level ix ∧ ix_count ix = 0 ∧
    ix_dim ix = dim ∧ ix_encoding ix = e ∧ ∀ x, live ix x = None.
Proof.
  intros Hd He. destruct (open_blank no_files dim capacity enc e eq_refl eq_refl Hd He) as (ix & H1 & H2 & H3 & H4 & H5 & H6 & _).
  exists ix. conjs; try done. intros x. by apply empty_live.
Qed.

(** Opening files whose metadata names rows that are there. *)
Lemma open_meta f meta dim capacity enc e e' :
  1 ≤ dim → NormalizeVectorEncoding enc = Ok e → f_meta f = Some meta → meta_Dim meta = dim →
  NormalizeVectorEncoding (meta_Encoding meta) = Ok e' → NoDup (meta_IDs meta) →
  zlen (meta_Tombstones meta) ≤ zlen (meta_IDs meta) → zlen (meta_Generations meta) ≤ zlen (meta_IDs meta) →
  zlen (meta_IDs meta) * VectorRowSize dim e' ≤ zlen (f_rows f) → zlen (meta_IDs meta) ≤ 2 ^ 62 →
  ∃ ix, openIndex level pool f dim capacity enc = Ok ix ∧ tables_ok ix ∧
    ix_idList ix = meta_IDs meta ∧ ix_tombstones ix = pad false (zlen (meta_IDs meta)) (meta_Tombstones meta) ∧
    ix_dim ix = dim ∧ ix_encoding ix = e' ∧
    (meta_IDs meta ≠ [] → ix_mmap ix = f_rows f) ∧
    (match f_hnsw f with
     | Some gs => shards_ok level (zlen (meta_IDs meta)) gs ∨ validateShards gs (zlen (meta_IDs meta)) = false
     | None => True
     end → index_ok level ix).
Proof.
  intros Hd He Hm Hdim He' Hnd Ht Hg Hroom Hsmall. set (n := zlen (meta_IDs meta)) in *.
  assert (Hn : 0 ≤ n) by apply zlen_nonneg.
  assert (Hp : 0 < VectorRowSize dim e') by (unfold VectorRowSize; destruct (is_f32 e'); lia).
  unfold openIndex. rewrite He. cbn [rbind]. set (rows := if zlen (f_rows f) =? 0 then _ else _).
  assert (Hrows : n * VectorRowSize dim e' ≤ zlen rows).
  { subst rows. destruct (Z.eqb_spec (zlen (f_rows f)) 0) as [E|]; [|done]. assert (n = 0) as -> by nia. apply zlen_nonneg. }
  rewrite Hm. replace (meta_Dim meta =? dim) with true by lia. cbn [negb]. rewrite He'. fold n.
  assert (Hq : n ≤ Z.quot (zlen rows) (VectorRowSize dim e')).
  { rewrite Z.quot_div_nonneg by (lia || apply zlen_nonneg). apply Z.div_le_lower_bound; lia. }
  replace (n >? Z.quot (zlen rows) (VectorRowSize dim e')) with false by lia. cbn [rbind].
  match goal with |- context [syncRowInv ?x] => set (ix0 := x) end.
  assert (Hok : tables_ok (syncRowInv ix0)).
  { split; try done; cbn.
    - by apply pad_length.
    - by apply pad_length.
    - apply number_names. done. }
  assert (Hcnt : ix_count (syncRowInv ix0) = n) by done.
  assert (Henc : ix_encoding (syncRowInv ix0) = EncodingSQ8 ∨ ix_encoding (syncRowInv ix0) = EncodingFloat32)
    by (by eapply normalized).
  assert (Hmm : meta_IDs meta ≠ [] → rows = f_rows f).
  { intros Hne. subst rows. destruct (Z.eqb_spec (zlen (f_rows f)) 0) as [E|]; [|done].
    assert (n ≠ 0) by (unfold n, zlen; destruct (meta_IDs meta); [done|cbn; lia]). nia. }
  destruct (rebuild_index_ok level pool (syncRowInv ix0) level_ok pool_ok Hok Henc ltac:(lia)) as [Hr _].
  destruct (f_hnsw f) as [gs|].
  - destruct (validateShards gs (ix_count (syncRowInv ix0))) eqn:Ev; eexists; (split; [done|]).
    + split; [by destruct Hok; split|]. conjs; [done..|]. intros [Hgs|Hf]; [by apply set_graphs_ok|].
      rewrite Hcnt in Ev. congruence.
    + split; [apply (io_tables level _ Hr)|]. by conjs.
  - eexists. split; [done|]. split; [apply (io_tables level _ Hr)|]. by conjs.
Qed.

(** The graphs of the file are used if they pass the check made on loading. *)
Lemma reopen_tables ix capacity enc e :
  tables_ok ix → ix_encoding ix = EncodingSQ8 ∨ ix_encoding ix = EncodingFloat32 →
  NormalizeVectorEncoding enc = Ok e → ix_count ix ≤ 2 ^ 62 →
  ∃ ix', openIndex level pool (closeIndex ix) (ix_dim ix) capacity enc = Ok ix' ∧ tables_ok ix' ∧
    (shards_ok level (ix_count ix) (ix_graphs ix) ∨ validateShards (ix_graphs ix) (ix_count ix) = false →
     index_ok level ix') ∧
    ix_count ix' = ix_count ix ∧ ix_dim ix' = ix_dim ix ∧ ix_encoding ix' = ix_encoding ix ∧
    ∀ x, live ix' x = live ix x.
Proof.
  intros Hok Henc He Hc. pose proof Hok as [T1 T2 T3 T4 T5 T6 T7 T8].
  destruct (open_meta (closeIndex ix) (metadata ix) (ix_dim ix) capacity enc e (ix_encoding ix))
    as (ix' & Ho & Hok' & Hl & Ht & Hd & Hen & Hm & Hi); cbn [closeIndex f_rows f_meta metadata meta_IDs meta_Tombstones
      meta_Generations meta_Dim meta_Encoding]; try done; try lia.
  { by apply saved_encoding. }
  { by rewrite <- T2. }
  cbn [closeIndex f_rows f_meta metadata meta_IDs meta_Tombstones] in *.
  rewrite pad_exact in Ht by lia.
  exists ix'. split; [done|]. split; [done|]. split; [rewrite T2; exact Hi|].
  split; [by rewrite (to_count ix' Hok'), Hl|]. split; [done|]. split; [done|].
  intros x. apply option_ext. intros bs. rewrite !live_iff by done.
  assert (Hlr : live_rows ix' = live_rows ix) by (unfold live_rows, is_live; by rewrite Hl, Ht). rewrite Hlr, Hl.
  assert (Hrow : ∀ r, r ∈ live_rows ix → rowOf ix' (Z.of_nat r) = rowOf ix (Z.of_nat r)).
  { intros r [Hr _]%live_rows_elem. unfold rowOf, rowBytes. rewrite Hd, Hen, Hm; [done|]. intros E. rewrite E in Hr. cbn in Hr. lia. }
  split; intros (r & H1 & H2 & ->); exists r; (split; [done|]; split; [done|]); [|symmetry]; by apply Hrow.
Qed.

Lemma reopen_spec ix capacity enc e :
  index_ok level ix → NormalizeVectorEncoding enc = Ok e → ix_count ix ≤ 2 ^ 62 →
  ∃ ix', openIndex level pool (closeIndex ix) (ix_dim ix) capacity enc = Ok ix' ∧ index_ok level ix' ∧
    ix_count ix' = ix_count ix ∧ ix_dim ix' = ix_dim ix ∧ ix_encoding ix' = ix_encoding ix ∧
    ∀ x, live ix' x = live ix x.
Proof.
  intros [Hok Hg Henc] He Hc.
  destruct (reopen_tables ix capacity enc e Hok Henc He Hc) as (ix' & H1 & _ & H3 & H4). exists ix'. auto.
Qed.
End Reopen.

(** ** Rows and tables do not depend on the graphs

    When the metadata of an addition cannot be written the row is stored and not
    inserted in its graph; when a compaction fails half way the rows have moved and
    the graphs have not. From then on the graphs are out of step, and what the
    operations do to the rows is what they would do with graphs in step. *)
Section Graphless.
Variable level : Z → Z.
Variable pool : Z → searchScratch.

Lemma ensureCapacity_graphs gs grow_ok needed ix :
  ensureCapacity grow_ok needed (set_graphs gs ix) =
  match ensureCapacity grow_ok needed ix with Ok ix' => Ok (set_graphs gs ix') | Err e => Err e | Panic => Panic end.
Proof.
  unfold ensureCapacity. change (ix_mmap (set_graphs gs ix)) with (ix_mmap ix). by repeat case_match.
Qed.

Lemma writeMetadata_graphs gs durable recent meta_ok ix :
  writeMetadata durable recent meta_ok (set_graphs gs ix) =
  match writeMetadata durable recent meta_ok ix with Ok ix' => Ok (set_graphs gs ix') | Err e => Err e | Panic => Panic end.
Proof.
  unfold writeMetadata. change (ix_metaDirty (set_graphs gs ix)) with (ix_metaDirty ix). by repeat case_match.
Qed.

Lemma putRow_graphs gs id vec ix :
  putRow id vec (set_graphs gs ix) = let '(row, isNew, ix') := putRow id vec ix in (row, isNew, set_graphs gs ix').
Proof.
  unfold putRow, claimRow. change (ix_idMap (set_graphs gs ix)) with (ix_idMap ix).
  change (ix_tombstones (set_graphs gs ix)) with (ix_tombstones ix).
  destruct (ix_idMap ix !! id) as [row|]; [destruct (nth _ _ _)|]; unfold setRowInv; by destruct (_ <? 0).
Qed.

Lemma putRows_graphs gs items ix acc :
  putRows items (set_graphs gs ix) acc = let '(rows, ix') := putRows items ix acc in (rows, set_graphs gs ix').
Proof.
  revert ix acc. induction items as [|[id vec] items IH]; intros ix acc; cbn [putRows]; [done|].
  rewrite putRow_graphs. destruct (putRow id vec ix) as [[row isNew] ix']. apply IH.
Qed.

(** The same error, and the same index but for the graphs. *)
Definition same_but_graphs {A} (x y : A * MMapVectorIndex) : Prop :=
  y.1 = x.1 ∧ ∃ gs, y.2 = set_graphs gs x.2.

Lemma addVector_graphs gs maxVectors grow_ok recent meta_ok id vec ix :
  same_but_graphs (addVector level pool maxVectors grow_ok recent meta_ok id vec ix)
    (addVector level pool maxVectors grow_ok recent meta_ok id vec (set_graphs gs ix)).
Proof.
  unfold addVector. change (rowBytes (set_graphs gs ix)) with (rowBytes ix). rewrite ensureCapacity_graphs.
  cbn [set_graphs ix_dim ix_idMap ix_count]. destruct (negb _); [split; [done|by eexists]|].
  destruct (_ && negb _); [split; [done|by eexists]|].
  destruct (ensureCapacity _ _ ix) as [ix0|e|]; [|split; [done|by eexists]..].
  rewrite putRow_graphs. destruct (putRow id vec ix0) as [[row isNew] ix1]. rewrite writeMetadata_graphs.
  destruct (writeMetadata _ _ _ ix1) as [ix2|e|]; [|split; [done|by eexists]..]. destruct isNew; (split; [done|by eexists]).
Qed.

Lemma addBatch_graphs gs maxVectors grow_ok recent meta_ok dim items ix :
  same_but_graphs (addBatch level pool maxVectors grow_ok recent meta_ok dim items ix)
    (addBatch level pool maxVectors grow_ok recent meta_ok dim items (set_graphs gs ix)).
Proof.
  unfold addBatch. change (rowBytes (set_graphs gs ix)) with (rowBytes ix).
  change (new_ids (set_graphs gs ix) items.*1) with (new_ids ix items.*1). rewrite ensureCapacity_graphs.
  cbn [set_graphs ix_dim ix_count]. destruct (negb _); [split; [done|by eexists]|].
  destruct (_ && _); [split; [done|by eexists]|].
  destruct (ensureCapacity _ _ ix) as [ix0|e|]; [|split; [done|by eexists]..].
  rewrite putRows_graphs. destruct (putRows items ix0 []) as [rows ix1]. rewrite writeMetadata_graphs.
  destruct (writeMetadata _ _ _ ix1) as [ix2|e|]; (split; [done|by eexists]).
Qed.

Lemma deleteVector_graphs gs meta_ok id ix :
  same_but_graphs (deleteVector meta_ok id ix) (deleteVector meta_ok id (set_graphs gs ix)).
Proof.
  unfold deleteVector, writeMetadata. cbn [set_graphs ix_idMap ix_tombstones negb andb].
  destruct (ix_idMap ix !! id); [|split; [done|by eexists]]. destruct (nth _ _ _); [split; [done|by eexists]|].
  destruct meta_ok; (split; [done|by eexists]).
Qed.

(** A compaction that removed rows built its graphs anew. *)
Lemma compact_graphs gs flush_ok meta_ok hnsw_ok ix :
  same_but_graphs (compact level pool flush_ok meta_ok hnsw_ok ix) (compact level pool flush_ok meta_ok hnsw_ok (set_graphs gs ix)) ∧
  match (compact level pool flush_ok meta_ok hnsw_ok ix).1 with
  | Ok n => 0 < n → compact level pool flush_ok meta_ok hnsw_ok (set_graphs gs ix) = compact level pool flush_ok meta_ok hnsw_ok ix
  | _ => True
  end.
Proof.
  rewrite !compact_eq. change (packed (set_graphs gs ix)) with (set_graphs gs (packed ix)). rewrite writeMetadata_graphs.
  change (ix_idList (set_graphs gs ix)) with (ix_idList ix). change (active (set_graphs gs ix)) with (active ix).
  destruct (_ =? 0); [split; [split; [done|by eexists]|cbn; lia]|]. destruct flush_ok; cbn [negb]; [|split; [split; [done|by eexists]|done]].
  destruct (writeMetadata _ _ _ (packed ix)) as [ix1|e|]; [|split; [split; [done|by eexists]|done]..].
  destruct hnsw_ok; (split; [split; [done|]|]); try done;
    [exists (ix_graphs (rebuildGraph level pool ix1))|exists (ix_graphs (rebuildGraph level pool ix1))]; done.
Qed.
End Graphless.

(** ** Histories of an index

    [history n ix f clean]: from new files, through any operations of which at most
    [n] added a vector, the index is [ix] where a map would be [f]. Growing the
    file, the metadata and the files of a compaction may fail at any time; an
    addition whose metadata could not be written is stored all the same. [clean]
    tells that the graphs were not left behind by such a failure, or were built
    anew since, by a compaction that removed rows or by a restart that found
    them of the wrong size. *)
Definition stored (err : option string) : bool :=
  match err with None => true | Some e => bool_decide (e = "write metadata"%string) end.
Definition in_step (err : option string) : bool := negb (stored err) || bool_decide (err = None).

Section History.
Variable level : Z → Z.
Variable pool : Z → searchScratch.

Inductive history : nat → MMapVectorIndex → (string → option (list byte)) → bool → Prop :=
| h_open dim capacity enc ix :
    1 ≤ dim → openIndex level pool no_files dim capacity enc = Ok ix → history 0 ix (λ _, None) true
| h_add n ix f clean maxVectors grow_ok recent meta_ok id vec err ix' :
    history n ix f clean → addVector level pool maxVectors grow_ok recent meta_ok id vec ix = (err, ix') →
    history (S n) ix' (if stored err then put (ix_encoding ix) f (id, vec) else f) (clean && in_step err)
| h_batch n ix f clean maxVectors grow_ok recent meta_ok dim items err ix' :
    history n ix f clean → Forall (λ it, zlen it.2 = dim) items →
    addBatch level pool maxVectors grow_ok recent meta_ok dim items ix = (err, ix') →
    history (n + length items) ix' (if stored err then foldl (put (ix_encoding ix)) f items else f)
      (clean && in_step err)
| h_delete n ix f clean meta_ok id r ix' :
    history n ix f clean → deleteVector meta_ok id ix = (r, ix') →
    history n ix' (match r with Ok _ => λ x, if decide (x = id) then None else f x | _ => f end) clean
| h_compact n ix f clean flush_ok meta_ok hnsw_ok r ix' :
    history n ix f clean → compact level pool flush_ok meta_ok hnsw_ok ix = (r, ix') →
    history n ix' f (match r with Ok removed => clean || (0 <? removed) | _ => false end)
| h_reopen n ix f clean capacity enc ix' :
    history n ix f clean → openIndex level pool (closeIndex ix) (ix_dim ix) capacity enc = Ok ix' →
    history n ix' f (clean || negb (validateShards (ix_graphs ix) (ix_count ix)))
| h_ef n ix f clean ef : history n ix f clean → history n (setEfSearch ef ix) f clean.

Hypothesis level_ok : ∀ row, 0 ≤ level row ≤ 64.
Hypothesis pool_ok : ∀ row, scratch_ok (pool row).

Lemma setEfSearch_ok ef ix : index_ok level ix → index_ok level (setEfSearch ef ix).
Proof.
  intros [T [G1 G2] E]. split; [by destruct T; split| |done]. split; [cbn; unfold zlen in *; by rewrite length_fmap|].
  intros s g Hs. cbn in Hs. rewrite list_lookup_fmap in Hs. apply fmap_Some in Hs as (g0 & Hg0 & ->).
  destruct (G2 s g0 Hg0) as [[W1 W2 W3 W4] H2 H3]. split; [by split|done|done].
Qed.

Lemma new_ids_few ix ids : (size (new_ids ix ids) ≤ length ids)%nat.
Proof.
  change (length (elements (new_ids ix ids)) ≤ length ids)%nat. apply submseteq_length, NoDup_submseteq; [apply NoDup_elements|].
  intros x [Hx _]%elem_of_elements%new_ids_elem. done.
Qed.

Lemma open_normalized f dim capacity enc ix :
  openIndex level pool f dim capacity enc = Ok ix → ∃ e, NormalizeVectorEncoding enc = Ok e.
Proof. unfold openIndex. destruct (NormalizeVectorEncoding enc); [by eexists|done..]. Qed.

(** What a history keeps of the rows, and of the graphs while they are in step. *)
Definition rows_ok (n : Z) (f : string → option (list byte)) (ix : MMapVectorIndex) : Prop :=
  tables_ok ix ∧ (ix_encoding ix = EncodingSQ8 ∨ ix_encoding ix = EncodingFloat32) ∧ ix_count ix ≤ n ∧
  ∀ x, live ix x = f x.

Lemma index_rows n f ix : index_ok level ix → ix_count ix ≤ n → (∀ x, live ix x = f x) → rows_ok n f ix.
Proof. by intros [T _ E] Hc Hl. Qed.

Lemma rows_ok_graphs n f gs ix : rows_ok n f (set_graphs gs ix) → rows_ok n f ix.
Proof. intros ([] & H2 & H3 & H4). split; [by split|done]. Qed.

(** Any rows are those of an index with graphs in step. *)
Lemma with_graphs n f ix : rows_ok n f ix → n ≤ 2 ^ 62 → ∃ gs, index_ok level (set_graphs gs ix).
Proof.
  intros (T & E & Hc & _) Hn. exists (ix_graphs (rebuildGraph level pool ix)). apply set_graphs_ok; [done|done|].
  pose proof (to_count ix T). pose proof (zlen_nonneg (ix_idList ix)).
  exact (rebuild_ok level pool level_ok pool_ok ix ltac:(lia)).
Qed.

(** What an operation does to an index with graphs in step, it does to the rows of any index. *)
Lemma rows_transfer {A} (op : MMapVectorIndex → A * MMapVectorIndex) n f (F : A → string → option (list byte)) m r ix ix' :
  (∀ gs, same_but_graphs (op ix) (op (set_graphs gs ix))) →
  (∀ gs jx', op (set_graphs gs ix) = (r, jx') → index_ok level (set_graphs gs ix) → rows_ok m (F r) jx') →
  rows_ok n f ix → n ≤ 2 ^ 62 → op ix = (r, ix') → rows_ok m (F r) ix'.
Proof.
  intros Hop Hspec Hrows Hn E. destruct (with_graphs n f ix Hrows Hn) as [gs Hgs].
  destruct (Hop gs) as [E1 [gs' E2]]. rewrite E in E1, E2. cbn in E1, E2.
  destruct (op (set_graphs gs ix)) as [r' jx'] eqn:Ej. cbn in E1, E2. subst r' jx'.
  by eapply rows_ok_graphs, Hspec.
Qed.

Lemma dim_error_stored a b : stored (Some (dim_error a b)) = false.
Proof. apply bool_decide_eq_false_2. unfold dim_error. by cbn. Qed.
Lemma quota_error_stored m : stored (Some (quota_error m)) = false.
Proof. apply bool_decide_eq_false_2. unfold quota_error. by cbn. Qed.

(** The two kinds of additions, on an index with graphs in step. *)
Definition added_rows (items : list (string * list float32)) (f : string → option (list byte)) (encoding : string)
    (err : option string) : string → option (list byte) :=
  if stored err then foldl (put encoding) f items else f.

Lemma addBatch_rows n f mv go re mo dim items err ix ix' :
  index_ok level ix → ix_count ix ≤ n → (∀ x, live ix x = f x) → Forall (λ it, zlen it.2 = dim) items →
  n + zlen items ≤ 2 ^ 62 → addBatch level pool mv go re mo dim items ix = (err, ix') →
  rows_ok (n + zlen items) (added_rows items f (ix_encoding ix) err) ix' ∧ (in_step err = true → index_ok level ix').
Proof.
  intros Hix Hc Hl HF Hn Ha. pose proof (new_ids_few ix items.*1) as Hf. rewrite length_fmap in Hf. unfold zlen in *.
  pose proof (addBatch_spec level pool level_ok pool_ok mv go re mo dim items ix Hix HF ltac:(lia)) as Hs.
  rewrite Ha in Hs. unfold added_rows. destruct err as [e|].
  - destruct Hs as [[-> He]|(_ & (H1 & H2 & H3 & H4 & H5 & H6) & ->)].
    + assert (stored (Some e) = false) as ->.
      { destruct He as [[-> _]|[[-> _]|[_ ->]]]; [apply dim_error_stored|apply quota_error_stored|done]. }
      split; [apply index_rows; [done|lia|done]|done].
    + split; [|done]. split; [done|]. split; [rewrite H5; apply (io_encoding level ix Hix)|]. split; [lia|].
      intros x. rewrite H3. by apply put_ext.
  - destruct Hs as (_ & _ & [A1 A2 A3 A4 _ _ _ _ A5]). split; [|done]. apply index_rows; [done|lia|].
    intros x. rewrite A5. by apply put_ext.
Qed.

Lemma addVector_rows n f mv go re mo id vec err ix ix' :
  index_ok level ix → ix_count ix ≤ n → (∀ x, live ix x = f x) → n + 1 ≤ 2 ^ 62 →
  addVector level pool mv go re mo id vec ix = (err, ix') →
  rows_ok (n + 1) (added_rows [(id, vec)] f (ix_encoding ix) err) ix' ∧ (in_step err = true → index_ok level ix').
Proof.
  intros Hix Hc Hl Hn Ha. pose proof (new_ids_few ix [id]) as Hf. change (length [id]) with 1%nat in Hf.
  pose proof (addVector_spec level pool level_ok pool_ok mv go re mo id vec ix Hix ltac:(lia)) as Hs.
  rewrite Ha in Hs. unfold added_rows. destruct err as [e|].
  - destruct Hs as [[-> He]|(_ & (H1 & H2 & H3 & H4 & H5 & H6) & ->)].
    + assert (stored (Some e) = false) as ->.
      { destruct He as [[-> _]|[[-> _]|[_ ->]]]; [apply dim_error_stored|apply quota_error_stored|done]. }
      split; [apply index_rows; [done|lia|done]|done].
    + change ([(id, vec)].*1) with [id] in H6.
      split; [|done]. split; [done|]. split; [rewrite H5; apply (io_encoding level ix Hix)|]. split; [lia|].
      intros x. rewrite H3. by apply put_ext.
  - destruct Hs as (_ & [A1 A2 A3 A4 _ _ _ _ A5]). change ([(id, vec)].*1) with [id] in A4.
    split; [|done]. apply index_rows; [done|lia|]. intros x. rewrite A5. by apply put_ext.
Qed.

Lemma deleteVector_rows n f mo id r ix ix' :
  index_ok level ix → ix_count ix ≤ n → (∀ x, live ix x = f x) → deleteVector mo id ix = (r, ix') →
  index_ok level ix' ∧ rows_ok n (match r with Ok _ => λ x, if decide (x = id) then None else f x | _ => f end) ix'.
Proof.
  intros Hix Hc Hl Hr. pose proof (deleteVector_spec level mo id ix Hix) as Hs. rewrite Hr in Hs.
  destruct Hs as (D1 & D2 & _ & _ & D5). split; [done|]. apply index_rows; [done|lia|].
  intros x. destruct r as [b|e|]; [|by rewrite (proj2 D5)|done]. destruct D5 as (_ & -> & _). by rewrite Hl.
Qed.

Lemma compact_rows n f fo mo ho r ix ix' :
  index_ok level ix → ix_count ix ≤ n → (∀ x, live ix x = f x) → n ≤ 2 ^ 62 →
  compact level pool fo mo ho ix = (r, ix') →
  rows_ok n f ix' ∧ match r with Ok _ => index_ok level ix' | _ => True end.
Proof.
  intros Hix Hc Hl Hn Hr. pose proof (compact_spec level pool fo mo ho ix level_ok pool_ok Hix ltac:(lia)) as Hs.
  rewrite Hr in Hs. destruct Hs as (C1 & _ & C3 & C4). pose proof (length_live_rows ix).
  pose proof (to_count ix (io_tables level ix Hix)). unfold zlen in *.
  destruct r as [k|e|]; [|destruct C4 as (_ & C4 & C5)|done].
  - destruct C4 as (C4 & C5 & C6 & _). split; [|done]. apply index_rows; [done|lia|]. intros x. by rewrite C1.
  - split; [|done]. split; [done|]. split; [rewrite C3; apply (io_encoding level ix Hix)|]. split; [lia|]. intros x. by rewrite C1.
Qed.

Lemma history_ok n ix f clean :
  history n ix f clean → Z.of_nat n ≤ 2 ^ 62 → rows_ok (Z.of_nat n) f ix ∧ (clean = true → index_ok level ix).
Proof.
  induction 1 as [dim capacity enc ix Hd Ho|n ix f c mv go re mo id vec err ix' _ IH Ha|n ix f c mv go re mo dim items err ix' _ IH HF Ha
    |n ix f c mo id r ix' _ IH Hr|n ix f c fo mo ho r ix' _ IH Hr|n ix f c capacity enc ix' _ IH Ho|n ix f c ef _ IH]; intros Hn.
  - destruct (open_normalized _ _ _ _ _ Ho) as [e He].
    destruct (open_fresh level pool level_ok pool_ok dim capacity enc e Hd He) as (ix1 & Ho1 & H1 & H2 & _ & _ & H5).
    rewrite Ho in Ho1. injection Ho1 as <-. split; [apply index_rows; [done|lia|done]|done].
  - destruct IH as [Hrows Hclean]; [lia|]. pose proof Hrows as (_ & _ & Hc & Hl). rewrite Nat2Z.inj_succ, <- Z.add_1_r. split.
    + refine (rows_transfer _ (Z.of_nat n) f (added_rows [(id, vec)] f (ix_encoding ix)) _ err ix ix' _ _ Hrows ltac:(lia) Ha).
      * intros gs. apply addVector_graphs.
      * intros gs jx' Hj Hgs. exact (proj1 (addVector_rows (Z.of_nat n) f mv go re mo id vec err _ jx' Hgs Hc Hl ltac:(lia) Hj)).
    + intros [Hc1 Hc2]%andb_prop. exact (proj2 (addVector_rows (Z.of_nat n) f mv go re mo id vec err ix ix' (Hclean Hc1) Hc Hl ltac:(lia) Ha) Hc2).
  - destruct IH as [Hrows Hclean]; [lia|]. pose proof Hrows as (_ & _ & Hc & Hl). rewrite Nat2Z.inj_add in *. fold (zlen items) in *. split.
    + refine (rows_transfer _ (Z.of_nat n) f (added_rows items f (ix_encoding ix)) _ err ix ix' _ _ Hrows ltac:(unfold zlen in *; lia) Ha).
      * intros gs. apply addBatch_graphs.
      * intros gs jx' Hj Hgs. exact (proj1 (addBatch_rows (Z.of_nat n) f mv go re mo dim items err _ jx' Hgs Hc Hl HF Hn Hj)).
    + intros [Hc1 Hc2]%andb_prop. exact (proj2 (addBatch_rows (Z.of_nat n) f mv go re mo dim items err ix ix' (Hclean Hc1) Hc Hl HF Hn Ha) Hc2).
  - destruct IH as [Hrows Hclean]; [lia|]. pose proof Hrows as (_ & _ & Hc & Hl). split.
    + refine (rows_transfer _ (Z.of_nat n) f (λ r, match r with Ok _ => λ x, if decide (x = id) then None else f x | _ => f end)
        _ r ix ix' _ _ Hrows Hn Hr).
      * intros gs. apply deleteVector_graphs.
      * intros gs jx' Hj Hgs. exact (proj2 (deleteVector_rows (Z.of_nat n) f mo id r _ jx' Hgs Hc Hl Hj)).
    + intros Hc1. exact (proj1 (deleteVector_rows (Z.of_nat n) f mo id r ix ix' (Hclean Hc1) Hc Hl Hr)).
  - destruct IH as [Hrows Hclean]; [lia|]. pose proof Hrows as (_ & _ & Hc & Hl). split.
    + refine (rows_transfer _ (Z.of_nat n) f (λ _, f) _ r ix ix' _ _ Hrows Hn Hr).
      * intros gs. apply compact_graphs.
      * intros gs jx' Hj Hgs. exact (proj1 (compact_rows (Z.of_nat n) f fo mo ho r _ jx' Hgs Hc Hl Hn Hj)).
    + destruct r as [k|e|]; [|done..]. intros [Hc1|Hk]%orb_prop.
      * exact (proj2 (compact_rows (Z.of_nat n) f fo mo ho (Ok k) ix ix' (Hclean Hc1) Hc Hl Hn Hr)).
      * destruct (with_graphs (Z.of_nat n) f ix Hrows Hn) as [gs Hgs].
        pose proof (proj2 (compact_graphs level pool gs fo mo ho ix)) as Hsame. rewrite Hr in Hsame. cbn [fst] in Hsame.
        exact (proj2 (compact_rows (Z.of_nat n) f fo mo ho (Ok k) _ ix' Hgs Hc Hl Hn (Hsame ltac:(lia)))).
  - destruct IH as [Hrows Hclean]; [lia|]. pose proof Hrows as (T & E & Hc & Hl). destruct (open_normalized _ _ _ _ _ Ho) as [e He].
    destruct (reopen_tables level pool level_ok pool_ok ix capacity enc e T E He ltac:(lia))
      as (ix1 & Ho1 & R1 & R2 & R3 & _ & R5 & R6). rewrite Ho in Ho1. injection Ho1 as <-. split.
    + split; [done|]. split; [by rewrite R5|]. split; [lia|]. intros x. by rewrite R6.
    + intros [Hc1|Hv%negb_true_iff]%orb_prop; apply R2; [left; apply (io_graphs level ix (Hclean Hc1))|by right].
  - destruct IH as [Hrows Hclean]; [lia|]. split; [|intros Hc1; by apply setEfSearch_ok, Hclean].
    destruct Hrows as ([] & H2 & H3 & H4). by split.
Qed.
End History.


(** ** Crashes

    The log records additions and deletions. A crash loses the metadata that was
    not written yet; the mapped rows are all there. The log is replayed from the
    last checkpoint, which wrote the metadata. *)
Inductive logged := LAdd (id : string) (vec : list float32) | LDel (id : string).

Definition logged_id (op : logged) : string := match op with LAdd id _ => id | LDel id => id end.

Definition log_effect (encoding : string) (f : string → option (list byte)) (op : logged) : string → option (list byte) :=
  match op with
  | LAdd id vec => put encoding f (id, vec)
  | LDel id => λ x, if decide (x = id) then None else f x
  end.

Lemma size_lt_elem (A B : gset string) x : A ⊆ B → x ∈ B → (x ∉ A) → (size A < size B)%nat.
Proof.
  intros Hsub Hx Hn. assert (Hs : {[x]} ∪ A ⊆ B) by set_solver. apply subseteq_size in Hs.
  rewrite size_union, size_singleton in Hs by set_solver. lia.
Qed.

Section Crash.
Variable level : Z → Z.
Variable pool : Z → searchScratch.
Variable maxVectors : Z.

(** Logged operations that succeeded, in their order. *)
Definition added_ops (items : list (string * list float32)) : list logged := (λ it, LAdd it.1 it.2) <$> items.

Inductive performs : list logged → MMapVectorIndex → MMapVectorIndex → Prop :=
| perform_add ix id vec ix' grow_ok recent meta_ok :
    addVector level pool maxVectors grow_ok recent meta_ok id vec ix = (None, ix') → performs [LAdd id vec] ix ix'
| perform_batch ix dim items ix' grow_ok recent meta_ok :
    Forall (λ it, zlen it.2 = dim) items →
    addBatch level pool maxVectors grow_ok recent meta_ok dim items ix = (None, ix') → performs (added_ops items) ix ix'
| perform_del ix id b ix' meta_ok : deleteVector meta_ok id ix = (Ok b, ix') → performs [LDel id] ix ix'.

Inductive runs : MMapVectorIndex → list logged → MMapVectorIndex → Prop :=
| run_nil ix : runs ix [] ix
| run_cons ix now ix' ops ix'' : performs now ix ix' → runs ix' ops ix'' → runs ix (now ++ ops) ix''.

Hypothesis level_ok : ∀ row, 0 ≤ level row ≤ 64.
Hypothesis pool_ok : ∀ row, scratch_ok (pool row).

Definition saved_graphs_ok (ix : MMapVectorIndex) : Prop :=
  match ix_hnsw ix with None => True | Some gs => ∃ n, 0 ≤ n ∧ shards_ok level n gs end.

(** What one logged operation does. *)
Record logged_step (op : logged) (ix ix' : MMapVectorIndex) : Prop := {
  ls_ok : index_ok level ix';
  ls_dim : ix_dim ix' = ix_dim ix;
  ls_encoding : ix_encoding ix' = ix_encoding ix;
  ls_count : ix_count ix ≤ ix_count ix' ≤ ix_count ix + 1;
  ls_map : ∀ x, x ≠ logged_id op → ix_idMap ix' !! x = ix_idMap ix !! x;
  ls_dom : ∀ x, is_Some (ix_idMap ix !! x) → is_Some (ix_idMap ix' !! x);
  ls_meta : ix_meta ix' = ix_meta ix ∨ ix_meta ix' = Some (metadata ix');
  ls_hnsw : ix_hnsw ix' = ix_hnsw ix;
  ls_live : ∀ x, live ix' x = log_effect (ix_encoding ix) (live ix) op x
}.

Lemma add_step grow_ok recent meta_ok id vec ix ix' :
  index_ok level ix → ix_count ix < 2 ^ 62 →
  addVector level pool maxVectors grow_ok recent meta_ok id vec ix = (None, ix') →
  logged_step (LAdd id vec) ix ix' ∧ zlen vec = ix_dim ix ∧ is_Some (ix_idMap ix' !! id) ∧
  (∀ x, is_Some (ix_idMap ix' !! x) ↔ x = id ∨ is_Some (ix_idMap ix !! x)).
Proof.
  intros Hix Hc Ha. pose proof (addVector_spec level pool level_ok pool_ok maxVectors grow_ok recent meta_ok id vec ix Hix Hc) as Hs.
  rewrite Ha in Hs. destruct Hs as [Hd [A1 A2 A3 A4 A5 A6 A7 A8 A9]].
  pose proof (new_ids_few ix [id]) as Hf. change (length [id]) with 1%nat in Hf. change ([(id, vec)].*1) with [id] in *.
  assert (Hdom : ∀ x, is_Some (ix_idMap ix' !! x) ↔ x = id ∨ is_Some (ix_idMap ix !! x)).
  { intros x. by rewrite A6, list_elem_of_singleton. }
  split; [|split; [done|split; [apply Hdom; by left|done]]]. split; [done|done|done|lia| | |done|done|done].
  - intros x Hx. apply A5. by rewrite list_elem_of_singleton.
  - intros x Hx. apply Hdom. by right.
Qed.

Lemma delete_step meta_ok id b ix ix' :
  index_ok level ix → deleteVector meta_ok id ix = (Ok b, ix') →
  logged_step (LDel id) ix ix' ∧ ix_idMap ix' = ix_idMap ix.
Proof.
  intros Hix Hd. pose proof (deleteVector_spec level meta_ok id ix Hix) as Hs. rewrite Hd in Hs.
  destruct Hs as (D1 & D2 & D3 & D4 & D5 & D6 & D7).
  assert (Hmap : ix_idMap ix' = ix_idMap ix ∧ (b = false → ix' = ix) ∧ ix_hnsw ix' = ix_hnsw ix).
  { unfold deleteVector in Hd. destruct (ix_idMap ix !! id); [|by injection Hd as <- <-].
    destruct (nth _ _ _); [by injection Hd as <- <-|]. destruct meta_ok; cbn in Hd; [|done]. by injection Hd as <- <-. }
  destruct Hmap as (Hm & Hsame & Hh). split; [|done]. split; [done|done|done|lia| | | |done|done].
  - intros x _. by rewrite Hm.
  - intros x. by rewrite Hm.
  - destruct b; [right; auto|left; by rewrite Hsame].
Qed.

(** ** What the log does to a map *)
Lemma log_fold_untouched encoding ops f x :
  x ∉ (logged_id <$> ops) → foldl (log_effect encoding) f ops x = f x.
Proof.
  revert f. induction ops as [|op ops IH]; intros f Hx; cbn [foldl]; [done|].
  rewrite fmap_cons, elem_of_cons in Hx. rewrite IH by tauto.
  destruct op; cbn in *; unfold put; cbn; by rewrite decide_False by tauto.
Qed.

Lemma log_fold_touched encoding ops f g x :
  x ∈ (logged_id <$> ops) → foldl (log_effect encoding) f ops x = foldl (log_effect encoding) g ops x.
Proof.
  revert f g. induction ops as [|op ops IH]; intros f g Hx; [by apply not_elem_of_nil in Hx|]. cbn [foldl].
  destruct (decide (x ∈ logged_id <$> ops)) as [Hin|Hout]; [by apply IH|].
  rewrite !log_fold_untouched by done. rewrite fmap_cons, elem_of_cons in Hx. destruct Hx as [->|]; [|done].
  destruct op; cbn; unfold put; cbn; by rewrite !decide_True by done.
Qed.

Lemma log_fold_ext encoding ops f g x :
  (∀ y, f y = g y) → foldl (log_effect encoding) f ops x = foldl (log_effect encoding) g ops x.
Proof.
  revert f g. induction ops as [|op ops IH]; intros f g H; cbn [foldl]; [done|]. apply IH. intros y.
  destruct op; cbn; unfold put; cbn; by rewrite H.
Qed.

(** ** A run of logged operations *)
Record ran (ops : list logged) (ix ix1 : MMapVectorIndex) : Prop := {
  rn_ok : index_ok level ix1;
  rn_dim : ix_dim ix1 = ix_dim ix;
  rn_encoding : ix_encoding ix1 = ix_encoding ix;
  rn_count : ix_count ix ≤ ix_count ix1 ≤ ix_count ix + zlen ops;
  rn_map : ∀ x, x ∉ (logged_id <$> ops) → ix_idMap ix1 !! x = ix_idMap ix !! x;
  rn_dom : ∀ x, is_Some (ix_idMap ix !! x) → is_Some (ix_idMap ix1 !! x);
  rn_hnsw : ix_hnsw ix1 = ix_hnsw ix;
  rn_live : ∀ x, live ix1 x = foldl (log_effect (ix_encoding ix)) (live ix) ops x;
  rn_adds : ∀ id vec, LAdd id vec ∈ ops → zlen vec = ix_dim ix ∧ is_Some (ix_idMap ix1 !! id)
}.

Lemma ran_nil ix : index_ok level ix → ran [] ix ix.
Proof. intros H. split; try done; [unfold zlen; cbn; lia|]. by intros id vec ?%not_elem_of_nil. Qed.

Lemma ran_app now ops ix ix' ix1 : ran now ix ix' → ran ops ix' ix1 → ran (now ++ ops) ix ix1.
Proof.
  intros [L1 L2 L3 L4 L5 L6 L7 L8 L9] [R1 R2 R3 R4 R5 R6 R7 R8 R9]. pose proof (zlen_app now ops).
  split; [done|congruence|congruence|lia| |auto|congruence| |].
  - intros x. rewrite fmap_app, elem_of_app. intros Hx. rewrite R5, L5 by tauto. done.
  - intros x. rewrite R8, L3, foldl_app. by apply log_fold_ext.
  - intros id vec [Hin|Hin]%elem_of_app; [destruct (L9 id vec Hin); auto|]. rewrite <- L2. by apply R9.
Qed.

Lemma ran_one op ix ix' :
  logged_step op ix ix' → (∀ id vec, op = LAdd id vec → zlen vec = ix_dim ix ∧ is_Some (ix_idMap ix' !! id)) → ran [op] ix ix'.
Proof.
  intros [L1 L2 L3 L4 L5 L6 L7 L8 L9] Hop. split; try done.
  - intros x. cbn. intros Hx. apply L5. intros ->. by apply Hx, list_elem_of_singleton.
  - intros id vec Hin%list_elem_of_singleton. by apply Hop.
Qed.

Lemma added_ops_ids items : logged_id <$> added_ops items = items.*1.
Proof. unfold added_ops. rewrite <- list_fmap_compose. by apply list_fmap_ext. Qed.

Lemma added_ops_fold encoding items f x :
  foldl (log_effect encoding) f (added_ops items) x = foldl (put encoding) f items x.
Proof. revert f. induction items as [|[id vec] items IH]; intros f; [done|]. apply IH. Qed.

Lemma added_ran dim items ix ix' :
  Forall (λ it, zlen it.2 = dim) items → ix_dim ix = dim → added level items ix ix' → ran (added_ops items) ix ix'.
Proof.
  intros HF Hd [A1 A2 A3 A4 A5 A6 A7 A8 A9]. pose proof (new_ids_few ix items.*1) as Hfew. rewrite length_fmap in Hfew.
  split; try done.
  - unfold zlen, added_ops. rewrite length_fmap. lia.
  - intros x. rewrite added_ops_ids. apply A5.
  - intros x Hx. apply A6. by right.
  - intros x. by rewrite added_ops_fold.
  - intros id vec ([id' vec'] & [= <- <-] & Hin)%list_elem_of_fmap. rewrite Forall_forall in HF.
    split; [pose proof (HF _ Hin) as E; cbn in E; congruence|]. apply A6. left. apply list_elem_of_fmap. by exists (id, vec).
Qed.

Lemma performs_step ops ix ix' :
  performs ops ix ix' → index_ok level ix → ix_count ix + zlen ops ≤ 2 ^ 62 →
  ran ops ix ix' ∧ (ix_meta ix' = ix_meta ix ∨ ix_meta ix' = Some (metadata ix')).
Proof.
  intros [ix0 id vec ix0' go re mo Ha|ix0 dim items ix0' go re mo HF Ha|ix0 id b ix0' mo Hd] Hix Hc.
  - destruct (add_step go re mo id vec ix0 ix0' Hix ltac:(unfold zlen in Hc; cbn in Hc; lia) Ha) as (Hs & Hv & Hid & _).
    split; [|by destruct Hs]. apply ran_one; [done|]. by intros ? ? [= <- <-].
  - pose proof (addBatch_spec level pool level_ok pool_ok maxVectors go re mo dim items ix0 Hix HF) as Hs.
    pose proof (new_ids_few ix0 items.*1) as Hfew. rewrite length_fmap in Hfew. unfold zlen, added_ops in Hc. rewrite length_fmap in Hc.
    specialize (Hs ltac:(lia)). cbn zeta in Hs. rewrite Ha in Hs. destruct Hs as (Hd & _ & Had).
    split; [by eapply added_ran|apply Had].
  - destruct (delete_step mo id b ix0 ix0' Hix Hd) as (Hs & _). split; [by apply ran_one|by destruct Hs].
Qed.

Lemma runs_ran ix ops ix1 : runs ix ops ix1 → index_ok level ix → ix_count ix + zlen ops ≤ 2 ^ 62 → ran ops ix ix1.
Proof.
  induction 1 as [ix|ix now ix' ops ix'' Hp _ IH]; intros Hix Hc; [by apply ran_nil|].
  rewrite zlen_app in Hc. pose proof (zlen_nonneg ops).
  destruct (performs_step now ix ix' Hp Hix ltac:(lia)) as [Hs _]. apply (ran_app now ops ix ix'); [done|].
  destruct Hs. apply IH; [done|lia].
Qed.

(** The saved metadata is that of some moment of the run. *)
Lemma runs_meta ix ops ix1 :
  runs ix ops ix1 → index_ok level ix → ix_count ix + zlen ops ≤ 2 ^ 62 →
  ix_meta ix1 = ix_meta ix ∨
  ∃ a b im, ops = a ++ b ∧ ran a ix im ∧ ran b im ix1 ∧ ix_meta ix1 = Some (metadata im).
Proof.
  induction 1 as [ix|ix now ix' ops ix'' Hp Hrun IH]; intros Hix Hc; [by left|].
  rewrite zlen_app in Hc. pose proof (zlen_nonneg ops).
  destruct (performs_step now ix ix' Hp Hix ltac:(lia)) as [Hs Hsm].
  pose proof (rn_ok _ _ _ Hs) as Hix'. pose proof (rn_count _ _ _ Hs).
  destruct (IH Hix' ltac:(lia)) as [Hm|(a & b & im & -> & Ra & Rb & Hm)].
  - destruct Hsm as [E|E]; [left; congruence|right]. exists now, ops, ix'.
    split; [done|]. split; [done|]. split; [apply runs_ran; auto; lia|congruence].
  - right. exists (now ++ a), b, im. split; [by rewrite app_assoc|]. split; [by apply (ran_app now a ix ix' im)|done].
Qed.

(** A compaction leaves its own metadata and graphs on the disk. *)
Lemma compact_saved flush_ok meta_ok hnsw_ok ix c ix' :
  compact level pool flush_ok meta_ok hnsw_ok ix = (Ok c, ix') → index_ok level ix → ix_count ix ≤ 2 ^ 62 →
  ix' = ix ∨ (ix_meta ix' = Some (metadata ix') ∧ saved_graphs_ok ix').
Proof.
  intros E Hix Hc. pose proof (compact_spec level pool flush_ok meta_ok hnsw_ok ix level_ok pool_ok Hix Hc) as Hs. rewrite E in Hs.
  destruct Hs as (_ & _ & _ & Hix' & _). rewrite compact_eq in E. destruct (_ =? 0); [left; by injection E as _ <-|right].
  unfold writeMetadata in E. cbn [negb andb] in E. destruct flush_ok, meta_ok, hnsw_ok; try done. injection E as _ <-. split; [done|].
  unfold saved_graphs_ok. cbn [set_hnsw ix_hnsw]. eexists. split; [|exact (io_graphs level _ Hix')].
  rewrite (to_count _ (io_tables level _ Hix')). apply zlen_nonneg.
Qed.

(** ** Reopening after a crash *)
Lemma count_dom ix : tables_ok ix → ix_count ix = Z.of_nat (size (dom (ix_idMap ix))).
Proof.
  intros Hok. rewrite (to_count ix Hok). unfold zlen. f_equal.
  assert (dom (ix_idMap ix) = list_to_set (C := gset string) (ix_idList ix)) as ->; [|by rewrite size_list_to_set by apply (to_nodup ix Hok)].
  apply set_eq. intros x. rewrite elem_of_dom, elem_of_list_to_set, list_elem_of_lookup. split.
  - intros [r [_ Hr]%(to_map ix Hok)]. by eexists.
  - intros [i Hi]. exists (Z.of_nat i). apply (to_map ix Hok). rewrite Nat2Z.id. split; [lia|done].
Qed.

Lemma same_map_rows ix ix' : tables_ok ix → tables_ok ix' → ix_idList ix = ix_idList ix' → ix_idMap ix = ix_idMap ix'.
Proof.
  intros Hok Hok' Hl. apply map_eq. intros x. apply option_ext. intros r.
  by rewrite (to_map ix Hok), (to_map ix' Hok'), Hl.
Qed.

(** The graph file of a crash, if it is used at all, is one for these rows. *)
Lemma saved_graphs_choice ix n :
  saved_graphs_ok ix →
  match ix_hnsw ix with Some gs => shards_ok level n gs ∨ validateShards gs n = false | None => True end.
Proof.
  unfold saved_graphs_ok. destruct (ix_hnsw ix) as [gs|]; [|done]. intros (m & Hm & Hgs).
  destruct (decide (m = n)) as [->|Hne]; [by left|right]. pose proof (shards_validate level m gs Hm Hgs) as Hv.
  unfold validateShards in *. apply andb_prop in Hv as [_ Hv%Z.eqb_eq]. apply andb_false_intro2. apply Z.eqb_neq. lia.
Qed.

(** The names that no logged operation touched are there with their rows. *)
Definition reopened (ix0 : MMapVectorIndex) (ops : list logged) (ix1 ix2 : MMapVectorIndex) : Prop :=
  index_ok level ix2 ∧ ix_dim ix2 = ix_dim ix0 ∧ ix_encoding ix2 = ix_encoding ix0 ∧
  (∀ x, is_Some (ix_idMap ix2 !! x) → is_Some (ix_idMap ix1 !! x)) ∧
  (∀ x, x ∉ (logged_id <$> ops) → live ix2 x = live ix0 x).

Lemma crash_open_saved ix0 ops ix1 capacity enc e a b im :
  index_ok level ix0 → saved_graphs_ok ix0 → runs ix0 ops ix1 →
  ix_count ix0 + zlen ops ≤ 2 ^ 62 → NormalizeVectorEncoding enc = Ok e →
  ops = a ++ b → ran a ix0 im → ran b im ix1 → ix_meta ix1 = Some (metadata im) →
  ∃ ix2, openIndex level pool (crashIndex ix1) (ix_dim ix0) capacity enc = Ok ix2 ∧ reopened ix0 ops ix1 ix2.
Proof.
  intros Hix Hg Hrun Hc He -> Ra Rb Hm1. pose proof (runs_ran ix0 (a ++ b) ix1 Hrun Hix Hc) as Hall.
  pose proof (io_tables level _ (rn_ok _ _ _ Ra)) as Tm. pose proof (io_tables level _ (rn_ok _ _ _ Rb)) as T1.
  pose proof (io_tables level ix0 Hix) as T0.
  pose proof (rn_count _ _ _ Rb). pose proof (rn_count _ _ _ Ra). pose proof (zlen_nonneg (ix_idList im)).
  pose proof (to_count im Tm) as Hcm. pose proof (rowBytes_pos ix1 (to_dim ix1 T1)) as Hp.
  assert (Hrb : rowBytes ix1 = VectorRowSize (ix_dim ix0) (ix_encoding im)).
  { unfold rowBytes. by rewrite (rn_dim _ _ _ Rb), (rn_encoding _ _ _ Rb), (rn_dim _ _ _ Ra). }
  rewrite zlen_app in Hc.
  destruct (open_meta level pool level_ok pool_ok (crashIndex ix1) (metadata im) (ix_dim ix0) capacity enc e (ix_encoding im))
    as (ix2 & Ho & T2 & Hl & Ht & Hd & Hen & Hmm & Hi);
    cbn [crashIndex f_rows f_meta f_hnsw metadata meta_IDs meta_Tombstones meta_Generations meta_Dim meta_Encoding] in *;
    try done.
  { apply (to_dim ix0 T0). }
  { apply (rn_dim _ _ _ Ra). }
  { apply saved_encoding, (io_encoding level _ (rn_ok _ _ _ Ra)). }
  { apply (to_nodup im Tm). }
  { rewrite (to_tombs im Tm). lia. }
  { rewrite (to_gens im Tm). lia. }
  { rewrite <- Hrb, <- Hcm. etransitivity; [|apply (to_room ix1 T1)]. apply Z.mul_le_mono_nonneg_r; lia. }
  { lia. }
  rewrite pad_exact in Ht by (rewrite (to_tombs im Tm); lia).
  pose proof (same_map_rows ix2 im T2 Tm Hl) as Hmap.
  exists ix2. split; [done|]. split; [apply Hi, saved_graphs_choice; unfold saved_graphs_ok; by rewrite (rn_hnsw _ _ _ Hall)|].
  split; [done|]. split; [by rewrite Hen, (rn_encoding _ _ _ Ra)|]. split; [intros x; rewrite Hmap; apply (rn_dom _ _ _ Rb)|].
  intros x Hx. rewrite fmap_app, elem_of_app in Hx.
  assert (Hlm : live im x = live ix0 x) by (rewrite (rn_live _ _ _ Ra); apply log_fold_untouched; tauto).
  assert (Hl1 : live ix1 x = live im x) by (rewrite (rn_live _ _ _ Rb); apply log_fold_untouched; tauto).
  rewrite <- Hlm. unfold live in Hl1 |- *. rewrite Hmap. rewrite (rn_map _ _ _ Rb x) in Hl1 by tauto.
  destruct (ix_idMap im !! x) as [r|] eqn:Er; [|done].
  assert (Hlv : is_live ix2 r = is_live im r) by (unfold is_live; by rewrite Ht). rewrite Hlv.
  destruct (is_live im r); [|done]. destruct (is_live ix1 r); [|done]. rewrite <- Hl1. f_equal.
  unfold rowOf, rowBytes. rewrite Hd, Hen, Hmm, (rn_dim _ _ _ Hall), (rn_encoding _ _ _ Rb); [done|].
  intros E. apply (to_map im Tm) in Er as [_ Er]. by rewrite E in Er.
Qed.

Lemma crash_open ix0 ops ix1 capacity enc e :
  index_ok level ix0 → saved_graphs_ok ix0 → ix_meta ix0 = Some (metadata ix0) → runs ix0 ops ix1 →
  ix_count ix0 + zlen ops ≤ 2 ^ 62 → NormalizeVectorEncoding enc = Ok e →
  ∃ ix2, openIndex level pool (crashIndex ix1) (ix_dim ix0) capacity enc = Ok ix2 ∧ reopened ix0 ops ix1 ix2.
Proof.
  intros Hix Hg Hm0 Hrun Hc He. destruct (runs_meta ix0 ops ix1 Hrun Hix Hc) as [E|(a & b & im & E & Ra & Rb & Hm)].
  - apply (crash_open_saved ix0 ops ix1 capacity enc e [] ops ix0); try done; [by apply ran_nil|by apply runs_ran|congruence].
  - by apply (crash_open_saved ix0 ops ix1 capacity enc e a b im).
Qed.

End Crash.

(** ** Examples *)
Lemma demo_level_ok row : 0 ≤ demo_level row ≤ 64.
Proof. unfold demo_level. case_match; lia. Qed.
Lemma demo_pool_ok row : scratch_ok (demo_pool row).
Proof. apply new_scratch_ok. Qed.

Definition demo_add (id : string) (vec : list float32) (ix : MMapVectorIndex) : MMapVectorIndex :=
  snd (addVector demo_level demo_pool 0 true false true id vec ix).

Lemma demo_add_history n ix f id vec :
  history demo_level demo_pool n ix f true →
  fst (addVector demo_level demo_pool 0 true false true id vec ix) = None →
  ∃ f', history demo_level demo_pool (S n) (demo_add id vec ix) f' true.
Proof.
  intros Hh He. unfold demo_add. pose proof (h_add demo_level demo_pool n ix f true 0 true false true id vec) as Hs.
  destruct (addVector demo_level demo_pool 0 true false true id vec ix) as [err ix'] eqn:Ea. cbn in He. subst err.
  eexists. exact (Hs None ix' Hh eq_refl).
Qed.

Definition demo_empty : MMapVectorIndex :=
  match openIndex demo_level demo_pool no_files 2 2 "sq8" with Ok ix => ix | _ => demo_index "sq8" end.
Definition demo_three : MMapVectorIndex := demo_add "c" [f1; f1] (demo_add "b" [0; f1] (demo_add "a" [f1; 0] demo_empty)).

Lemma demo_three_history : ∃ f, history demo_level demo_pool 3 demo_three f true.
Proof.
  assert (H0 : history demo_level demo_pool 0 demo_empty (λ _, None) true).
  { apply (h_open demo_level demo_pool 2 2 "sq8"); [lia|]. unfold demo_empty.
    destruct (openIndex demo_level demo_pool no_files 2 2 "sq8") as [ix|e|] eqn:E; [done|..]; exfalso;
      apply (f_equal (λ r, match r with Ok _ => true | _ => false end)) in E; vm_compute in E; discriminate. }
  destruct (demo_add_history 0 _ _ "a" [f1; 0] H0 ltac:(vm_compute; reflexivity)) as [g1 H1].
  destruct (demo_add_history 1 _ _ "b" [0; f1] H1 ltac:(vm_compute; reflexivity)) as [g2 H2].
  destruct (demo_add_history 2 _ _ "c" [f1; f1] H2 ltac:(vm_compute; reflexivity)) as [g3 H3]. by exists g3.
Qed.

Lemma demo_three_ok : index_ok demo_level demo_three.
Proof.
  destruct demo_three_history as [f Hf].
  exact (proj2 (history_ok demo_level demo_pool demo_level_ok demo_pool_ok 3 demo_three f true Hf ltac:(lia)) eq_refl).
Qed.

(** After the three additions a fourth fails for its metadata: the vector is there,
    and the graphs are not in step. *)
Definition demo_failed : MMapVectorIndex :=
  snd (addVector demo_level demo_pool 0 true false false "d" [0; f1] demo_three).

Lemma demo_failed_history : ∃ f, history demo_level demo_pool 4 demo_failed f false ∧ is_Some (f "d"%string).
Proof.
  destruct demo_three_history as [f Hf]. unfold demo_failed.
  pose proof (h_add demo_level demo_pool 3 demo_three f true 0 true false false "d" [0; f1]) as Hs.
  assert (He : fst (addVector demo_level demo_pool 0 true false false "d" [0; f1] demo_three) = Some "write metadata"%string)
    by (vm_compute; reflexivity).
  destruct (addVector demo_level demo_pool 0 true false false "d" [0; f1] demo_three) as [err ix'] eqn:Ea. cbn in He. subst err.
  eexists. split; [exact (Hs _ ix' Hf eq_refl)|]. cbn. unfold put. cbn. by eexists.
Qed.


Definition demo_query : list single := coords [f1; 0].

Lemma index_search_witness :
  index_ok demo_level demo_three ∧
  ∃ l, searchIndex demo_pool demo_query (demo_opts 2) demo_three = Ok l ∧ zlen l ≤ 2 ∧ StronglySorted best_first l.
Proof.
  split; [exact demo_three_ok|].
  destruct (index_search demo_level demo_pool demo_query (demo_opts 2) demo_three demo_pool_ok demo_three_ok
    ltac:(vm_compute; reflexivity)) as [Hs _].
  destruct (Hs ltac:(cbn; lia)) as (l & H1 & H2 & _ & H4 & _).
  exists l. split; [exact H1|]. split; [exact H2|exact H4].
Defined.

(** ** What is not covered *)
Definition ids_of (r : res string (list SearchResult)) : list string := match r with Ok l => r_ID <$> l | _ => [] end.

(** An addition whose metadata cannot be written is reported as failed, and yet
    stored; a retry sees the name, reports success and leaves it out of the
    graphs, so no search finds it. *)
Example failed_metadata_hides_vector :
  let '(err, ix) := addVector demo_level demo_pool 0 true false false "d" [0; f1] demo_three in
  let '(err', ix') := addVector demo_level demo_pool 0 true false true "d" [0; f1] ix in
  err = Some "write metadata"%string ∧ err' = None ∧ HasLiveVector "d" ix' = true ∧
  ids_of (searchIndex demo_pool (coords [0; f1]) (demo_opts 10) ix') = ["b"; "c"; "a"]%string.
Proof. vm_compute. repeat split; reflexivity. Qed.

(** A crash after the rows of a compaction were moved and before its metadata
    was written leaves names with the rows of others. *)
Definition demo_plain : MMapVectorIndex :=
  snd (deleteVector true "a" (demo_add "c" [f1; f1] (demo_add "b" [0; f1] (demo_add "a" [f1; 0]
    (match openIndex demo_level demo_pool no_files 2 2 "float32" with Ok ix => ix | _ => demo_empty end))))).

Example compaction_crash_mixes_rows :
  getVector "b" demo_plain = Ok [0; f1] ∧
  match openIndex demo_level demo_pool
          {| f_rows := ix_mmap (packed demo_plain); f_meta := ix_meta demo_plain; f_hnsw := ix_hnsw demo_plain |}
          2 2 "float32" with
  | Ok ix => getVector "b" ix = Ok [f1; f1] ∧ HasLiveVector "b" ix = true
  | _ => False
  end.
Proof. vm_compute. repeat split; reflexivity. Qed.
