(* ===== verification/Recovery.v ===== *)
(** * Checkpoints and recovery ([persistence/snapshot.go], [persistence/recovery.go])

    The image a checkpoint stores, its restoration, and the replay of the log
    records after it. The vector store is an interface: its indexes are
    memory-mapped files. Files and the gob encoding of an image are left out: a
    checkpoint is the header and the image it carries. *)

From S2P Require Import Prelude GoStd Types KV WAL VectorPayload.

(** ** The vector store, as recovery uses it *)
Record IndexSeal := { seal_Key : string; seal_Dim : Z; seal_Count : Z; seal_MetaHash : list byte }.

Class VectorStore (V : Type) := {
  ReopenPersisted : KVStore * V → res string (KVStore * V);
  VerifySeals : list IndexSeal → KVStore * V → res string unit;
  VAdd : string → string → list float32 → KVStore * V → res string (KVStore * V);
  VAddBatch : string → Z → list string → list (list float32) → KVStore * V → res string (KVStore * V);
  VDel : string → string → KVStore * V → res string (KVStore * V);
  StartMigration : string → Z → string → KVStore * V → res string (KVStore * V);
  InsertShadowVector : string → string → list float32 → KVStore * V → res string (KVStore * V);
  SwapMigration : string → KVStore * V → res string (KVStore * V);
  CancelMigration : string → KVStore * V → res string (KVStore * V);
  vec_MemoryUsage : KVStore * V → Z;
  vec_close : Entry → V → V
}.

(** A vector store without indexes. *)
#[export] Instance VectorStore_unit : VectorStore unit := {
  ReopenPersisted st := Ok st; VerifySeals _ _ := Ok tt; VAdd _ _ _ st := Ok st;
  VAddBatch _ _ _ _ st := Ok st; VDel _ _ st := Ok st; StartMigration _ _ _ st := Ok st;
  InsertShadowVector _ _ _ st := Ok st; SwapMigration _ st := Ok st; CancelMigration _ st := Ok st;
  vec_MemoryUsage _ := 0; vec_close _ v := v
}.

(** ** Checkpoints *)
Record WireEntry := { wire_Value : value; wire_Type : DataType; wire_ExpiresAt : Z }.

Definition toWireEntry (e : Entry) : WireEntry :=
  {| wire_Value := if bool_decide (EType e = TypeVector) then VNil else Value e;
     wire_Type := EType e; wire_ExpiresAt := ExpiresAt e |}.

Record SnapshotHeader := {
  hdr_Version : Z; hdr_Timestamp : Z; hdr_KeyCount : Z; hdr_Sequence : Z; hdr_VectorSeals : list IndexSeal
}.

Definition SaveCheckpoint (now : Z) (sequence : Z) (seals : list IndexSeal) (kv : KVStore)
    : SnapshotHeader * gmap string WireEntry :=
  let wire := toWireEntry <$> Snapshot now kv in
  ({| hdr_Version := 2; hdr_Timestamp := now; hdr_KeyCount := Z.of_nat (size wire);
      hdr_Sequence := sequence; hdr_VectorSeals := seals |}, wire).

(** One turn of the loop of [LoadWithHeader]: [t1] and [t2] are the clock
    readings of the remaining time and of [Set]. *)
Definition restore_entry (t1 t2 : Z) (kv : KVStore) (p : string * WireEntry) : KVStore :=
  let '(k, we) := p in
  if wire_ExpiresAt we >? 0 then
    let remaining := i64 (wire_ExpiresAt we - t1) in
    if remaining <=? 0 then kv else Set_ t2 k (wire_Value we) (wire_Type we) remaining kv
  else Set_ t2 k (wire_Value we) (wire_Type we) 0 kv.

Definition LoadWithHeader (t1 t2 : Z) (snap : SnapshotHeader * gmap string WireEntry) (kv : KVStore)
    : res string (SnapshotHeader * KVStore) :=
  let '(hdr, wire) := snap in
  if negb (hdr_Version hdr =? 2) then
    Err ("snapshot: unsupported version " ++ FormatInt (hdr_Version hdr)
         ++ "; use the offline v1 migration/reset tool")%string
  else Ok (hdr, foldl (restore_entry t1 t2) kv (map_to_list wire)).

(** ** Replay *)
Section Recovery.
Context {V : Type} `{VectorStore V}.

(** The state recovery builds: the keys, and the vector store unless it is nil. *)
Definition rstate : Type := KVStore * option V.

(** The vector branches run only when there is a vector store. *)
Definition on_vec (s : rstate) (f : KVStore * V → res string (KVStore * V)) : res string rstate :=
  match snd s with
  | None => Ok s
  | Some v => let? st := f (fst s, v) in Ok (fst st, Some (snd st))
  end.

(** [KVStore.Delete] of one key, with the index of the entry it removes. *)
Definition close_key (key : string) (kv : KVStore) (v : V) : V :=
  match data (getShard kv key) !! key with Some e => vec_close e v | None => v end.
Definition delete_key (key : string) (s : rstate) : rstate :=
  (snd (Delete [key] (fst s)), close_key key (fst s) <$> snd s).

(** [fmt.Errorf("recovery: what sequence %d", sequence)], and with [": %w"]. *)
Definition rerr (what : string) (sequence : Z) : string :=
  ("recovery: " ++ what ++ " sequence " ++ FormatInt sequence)%string.
Definition rwrap {A} (what : string) (sequence : Z) (r : res string A) : res string A :=
  match r with Err e => Err (rerr what sequence ++ ": " ++ e)%string | r => r end.

(** [t1] is the reading of the remaining time, [t2] and [t3] the readings of the
    operation on the store. *)
Definition applyRecoveredEffect (t1 t2 t3 : Z) (sequence : Z) (effect : WALEffect) (s : rstate)
    : res string rstate :=
  let '(kv, vec) := s in
  let ty := we_Type effect in
  let key := we_Key effect in
  if bool_decide (ty = RecordSet) then
    if we_ExpiresAt effect >? 0 then
      let remaining := i64 (we_ExpiresAt effect - t1) in
      if remaining <=? 0 then Ok (delete_key key s)
      else Ok (Set_ t2 key (VBytes (we_Value effect)) TypeString remaining kv, vec)
    else Ok (Set_ t2 key (VBytes (we_Value effect)) TypeString 0 kv, vec)
  else if bool_decide (ty = RecordDelete) then Ok (delete_key key s)
  else if bool_decide (ty = RecordExpire) then
    if we_ExpiresAt effect <=? 0 then Ok (snd (Persist t1 key kv), vec)
    else
      let remaining := i64 (we_ExpiresAt effect - t1) in
      if remaining <=? 0 then Ok (delete_key key s)
      else Ok (snd (Expire t2 t3 key (Z.max 1 (Z.quot remaining second)) kv), vec)
  else if bool_decide (ty = RecordVAdd) then
    on_vec s (fun st =>
      match DecodeVAddPayload (contents (we_Value effect)) with
      | (docID, Some (x :: vector)) =>
          if bool_decide (docID = ""%string) then Err (rerr "invalid vector record" sequence)
          else rwrap "vector add" sequence (VAdd key docID (x :: vector) st)
      | _ => Err (rerr "invalid vector record" sequence)
      end)
  else if bool_decide (ty = RecordVAddBatch) then
    on_vec s (fun st =>
      let? p := DecodeVAddBatchPayload (contents (we_Value effect)) in
      let '(dim, docIDs, vectors) := p in
      if (dim <=? 0) || (zlen docIDs =? 0) || negb (zlen docIDs =? zlen vectors)
      then Err (rerr "invalid vector batch" sequence)
      else rwrap "vector batch" sequence (VAddBatch key dim docIDs vectors st))
  else if bool_decide (ty = RecordVTombstone) then
    on_vec s (fun st => rwrap "vector tombstone" sequence (VDel key (to_str (we_Value effect)) st))
  else if bool_decide (ty = RecordVMigrateStart) then
    on_vec s (fun st =>
      let? p := rwrap "invalid migrate start" sequence
                  (DecodeVMigrateStartPayload (contents (we_Value effect))) in
      rwrap "migrate start" sequence (StartMigration key (fst p) (snd p) st))
  else if bool_decide (ty = RecordVMigrateAdd) then
    on_vec s (fun st =>
      match DecodeVAddPayload (contents (we_Value effect)) with
      | (docID, Some (x :: vector)) =>
          if bool_decide (docID = ""%string) then Err (rerr "invalid migrate add" sequence)
          else rwrap "migrate add" sequence (InsertShadowVector key docID (x :: vector) st)
      | _ => Err (rerr "invalid migrate add" sequence)
      end)
  else if bool_decide (ty = RecordVMigrateSwap) then
    on_vec s (fun st => rwrap "migrate swap" sequence (SwapMigration key st))
  else if bool_decide (ty = RecordVMigrateCancel) then
    on_vec s (fun st => rwrap "migrate cancel" sequence (CancelMigration key st))
  else if bool_decide (ty = RecordDeleteIndex) then Ok (delete_key key s)
  else Err ("recovery: unsupported effect type " ++ FormatInt (b2z ty) ++ " at sequence "
            ++ FormatInt sequence)%string.

Fixpoint replay_effects (t : Z) (sequence : Z) (effects : list WALEffect) (s : rstate)
    : res string rstate :=
  match effects with
  | [] => Ok s
  | effect :: effects =>
      let? s := applyRecoveredEffect t t t sequence effect s in
      replay_effects t sequence effects s
  end.

(** Step 4: the records after the checkpoint. *)
Fixpoint replay (t : Z) (checkpointSequence : Z) (records : list WALRecord) (s : rstate)
    : res string rstate :=
  match records with
  | [] => Ok s
  | rec :: records =>
      if Sequence rec <=? checkpointSequence then replay t checkpointSequence records s
      else
        let? s := replay_effects t (Sequence rec) (expandEffects rec) s in
        replay t checkpointSequence records s
  end.

(** The keys whose index was swapped after the checkpoint. *)
Definition swappedAfter (checkpointSequence : Z) (records : list WALRecord) : gset string :=
  list_to_set (rec ← List.filter (fun rec => negb (Sequence rec <=? checkpointSequence)) records;
               effect ← expandEffects rec;
               if bool_decide (we_Type effect = RecordVMigrateSwap) then [we_Key effect] else []).

(** [Recover], all clock readings at the instant [t]; [snap] is the installed
    checkpoint, [records] what [ReadAll] returned. *)
Definition Recover (t : Z) (snap : option (SnapshotHeader * gmap string WireEntry))
    (records : res string (list WALRecord)) (s : rstate) : res string rstate :=
  let? p :=
    match snap with
    | None => Ok (0, [], fst s)
    | Some sn =>
        match LoadWithHeader t t sn (fst s) with
        | Ok (hdr, kv) => Ok (hdr_Sequence hdr, hdr_VectorSeals hdr, kv)
        | Err e => Err ("recovery: load checkpoint: " ++ e)%string
        | Panic => Panic
        end
    end in
  let '(checkpointSequence, seals, kv) := p in
  let? records :=
    match records with
    | Err e => Err ("recovery: read wal: " ++ e)%string
    | r => r
    end in
  let swapped := swappedAfter checkpointSequence records in
  let seals := List.filter (fun seal => negb (bool_decide (seal_Key seal ∈ swapped))) seals in
  let? s :=
    match snd s with
    | None => Ok (kv, None)
    | Some v =>
        match ReopenPersisted (kv, v) with
        | Ok st =>
            match VerifySeals seals st with
            | Ok _ => Ok (fst st, Some (snd st))
            | Err e => Err ("recovery: vector seal mismatch: " ++ e)%string
            | Panic => Panic
            end
        | Err e => Err ("recovery: reopen vector indexes: " ++ e)%string
        | Panic => Panic
        end
    end in
  replay t checkpointSequence records s.

End Recovery.

(** ** When a recovered store stands for a live one

    At the instant [t] of a recovery, a key whose deadline has passed counts as
    absent. Two entries agree when both are strings with the same bytes (nil and
    empty are not told apart, see [reread]) and their deadlines are both absent
    or less than a second apart: an EXPIRE is replayed in whole seconds. *)
Definition slive (t : Z) (o : option Entry) : option Entry :=
  match o with
  | Some e => if (ExpiresAt e >? 0) && (ExpiresAt e <=? t) then None else Some e
  | None => None
  end.

Definition string_is (e : Entry) (b : list byte) (exp : Z) : Prop :=
  EType e = TypeString ∧ (∃ v, Value e = VBytes v ∧ contents v = b) ∧ ExpiresAt e = exp.

Definition entry_sim (e e' : Entry) : Prop :=
  ∃ b exp exp', string_is e b exp ∧ string_is e' b exp' ∧ 0 ≤ exp ≤ MaxInt64 ∧ 0 ≤ exp' ≤ MaxInt64 ∧
    (exp = 0 ↔ exp' = 0) ∧ Z.abs (exp - exp') < second.

Definition opt_sim (t : Z) (o o' : option Entry) : Prop :=
  match slive t o, slive t o' with
  | None, None => True
  | Some e, Some e' => entry_sim e e'
  | _, _ => False
  end.

Definition sim (t : Z) (m m' : gmap string Entry) : Prop := ∀ k, opt_sim t (m !! k) (m' !! k).

(** An instant at which a deadline a second away does not overflow. *)
Definition clock_ok (t : Z) : Prop := 0 ≤ t ≤ MaxInt64 - second.

Lemma slive_dead t e : 0 < ExpiresAt e ≤ t → slive t (Some e) = None.
Proof.
  intros Hx. cbn. rewrite Z.gtb_ltb, (proj2 (Z.ltb_lt _ _)), (proj2 (Z.leb_le _ _)) by lia. done.
Qed.

Lemma slive_alive t e : ¬ (0 < ExpiresAt e ≤ t) → slive t (Some e) = Some e.
Proof.
  intros Hx. cbn. destruct (_ && _) eqn:E; [|done]. bool_to_prop. lia.
Qed.

Lemma entry_sim_exact e e' b exp :
  string_is e b exp → string_is e' b exp → 0 ≤ exp ≤ MaxInt64 → entry_sim e e'.
Proof. intros H1 H2 Hx. exists b, exp, exp. rewrite Z.sub_diag. conjs; try done; tauto. Qed.

Lemma opt_sim_exact t e e' b exp :
  string_is e b exp → string_is e' b exp → 0 ≤ exp ≤ MaxInt64 → opt_sim t (Some e) (Some e').
Proof.
  intros H1 H2 Hx. pose proof (entry_sim_exact _ _ _ _ H1 H2 Hx) as Hs.
  destruct H1 as (_ & _ & He), H2 as (_ & _ & He'). unfold opt_sim. cbn. rewrite He, He'.
  by destruct (_ && _).
Qed.

Section Effects.
Context {V : Type} `{VectorStore V}.

Definition put (key : string) (v : slice) (exp : Z) : WALEffect :=
  {| we_Type := RecordSet; we_Key := key; we_Value := v; we_ExpiresAt := exp |}.
Definition del (key : string) : WALEffect :=
  {| we_Type := RecordDelete; we_Key := key; we_Value := None; we_ExpiresAt := 0 |}.
Definition expire (key : string) (exp : Z) : WALEffect :=
  {| we_Type := RecordExpire; we_Key := key; we_Value := None; we_ExpiresAt := exp |}.

(** What replaying one effect leaves: the key as [o] says, the others kept. *)
Definition leaves (key : string) (o : option Entry) (m m' : gmap string Entry) : Prop :=
  m' !! key = o ∧ ∀ k, k ≠ key → m' !! k = m !! k.

Lemma leaves_insert key e (m : gmap string Entry) : leaves key (Some e) m (<[key := e]> m).
Proof. split; [apply lookup_insert_eq|]. intros. by rewrite lookup_insert_ne. Qed.

Lemma leaves_delete key (m : gmap string Entry) : leaves key None m (delete key m).
Proof. split; [apply lookup_delete_eq|]. intros. by rewrite lookup_delete_ne. Qed.

Lemma sim_leaves t key o o' m1 m1' m2 m2' :
  sim t m1 m2 → leaves key o m1 m1' → leaves key o' m2 m2' → opt_sim t o o' → sim t m1' m2'.
Proof.
  intros Hs [H1 H1'] [H2 H2'] Ho k. destruct (decide (k = key)) as [->|Hk]; [by rewrite H1, H2|].
  rewrite H1', H2' by done. apply Hs.
Qed.

Lemma replay_put t seq key v exp kv :
  kv_wf kv → clock_ok t → 0 ≤ exp ≤ MaxInt64 →
  ∃ kv' o, applyRecoveredEffect t t t seq (put key v exp) (kv, @None V) = Ok (kv', None) ∧ kv_wf kv' ∧
    leaves key o (view kv) (view kv') ∧
    ∀ e, string_is e (contents v) exp → opt_sim t (Some e) o.
Proof.
  intros Hwf Ht Hx. unfold clock_ok, second, MaxInt64 in *. unfold applyRecoveredEffect.
  cbn [put we_Type we_Key we_Value we_ExpiresAt].
  rewrite (bool_decide_eq_true_2 (RecordSet = RecordSet)) by done.
  assert (Hset : ∀ ttl, 0 ≤ ttl → (if ttl >? 0 then i64 (t + ttl) else 0) = exp →
    ∃ kv' o, Ok (Set_ t key (VBytes v) TypeString ttl kv, @None V) = @Ok string _ (kv', None) ∧ kv_wf kv' ∧
      leaves key o (view kv) (view kv') ∧ ∀ e, string_is e (contents v) exp → opt_sim t (Some e) o).
  { intros ttl Httl Hexp. destruct (Set_spec t key (VBytes v) TypeString ttl kv Hwf) as [H1 H2].
    eexists _, _. split; [done|]. split; [done|]. rewrite H2. split; [apply leaves_insert|].
    intros e He. eapply opt_sim_exact; [done| |done]. split; [done|]. split; [by exists v|]. done. }
  destruct (exp >? 0) eqn:E; bool_to_prop; [|by apply Hset; [|change (0 >? 0) with false; cbv iota; lia]].
  rewrite i64_id by (unfold in_i64, MinInt64, MaxInt64; lia). destruct (exp - t <=? 0) eqn:Er; bool_to_prop.
  - destruct (Delete1 key kv Hwf) as (H1 & H2 & _). exists (snd (Delete [key] kv)), None. split; [done|]. split; [done|].
    rewrite H2. split; [apply leaves_delete|]. intros e (_ & _ & He). unfold opt_sim.
    by rewrite slive_dead by lia.
  - apply Hset; [lia|]. rewrite Z.gtb_ltb, (proj2 (Z.ltb_lt _ _)) by lia.
    replace (t + (exp - t)) with exp by lia. apply i64_id. unfold in_i64, MinInt64, MaxInt64. lia.
Qed.

Lemma replay_del t seq key kv :
  kv_wf kv →
  ∃ kv', applyRecoveredEffect t t t seq (del key) (kv, @None V) = Ok (kv', None) ∧ kv_wf kv' ∧
    leaves key None (view kv) (view kv').
Proof.
  intros Hwf. destruct (Delete1 key kv Hwf) as (H1 & H2 & _). exists (snd (Delete [key] kv)).
  split; [done|]. split; [done|]. rewrite H2. apply leaves_delete.
Qed.

(** The deadline of a replayed EXPIRE. *)
Definition whole_seconds (t exp : Z) : Z := t + Z.max 1 (Z.quot (exp - t) second) * second.

Lemma whole_seconds_near t exp :
  clock_ok t → t < exp ≤ MaxInt64 →
  t < whole_seconds t exp ≤ MaxInt64 ∧ Z.abs (exp - whole_seconds t exp) < second.
Proof.
  unfold clock_ok, whole_seconds, second, MaxInt64. intros Ht Hx.
  rewrite Z.quot_div_nonneg by lia.
  pose proof (Z.div_mod (exp - t) 1000000000 ltac:(lia)) as Hd.
  pose proof (Z.mod_pos_bound (exp - t) 1000000000 ltac:(lia)). lia.
Qed.

Lemma replay_expire t seq key exp b d kv e' :
  kv_wf kv → clock_ok t → 0 ≤ exp ≤ MaxInt64 →
  view kv !! key = Some e' → string_is e' b d → 0 ≤ d → ¬ (0 < d ≤ t) →
  ∃ kv' o, applyRecoveredEffect t t t seq (expire key exp) (kv, @None V) = Ok (kv', None) ∧ kv_wf kv' ∧
    leaves key o (view kv) (view kv') ∧ ∀ e, string_is e b exp → opt_sim t (Some e) o.
Proof.
  intros Hwf Ht Hx He' (Hty & Hval & Hd) Hd0 Hlive. unfold applyRecoveredEffect.
  cbn [expire we_Type we_Key we_Value we_ExpiresAt].
  rewrite !(bool_decide_eq_false_2 (RecordExpire = _)) by done.
  rewrite (bool_decide_eq_true_2 (RecordExpire = RecordExpire)) by done.
  assert (Hl : live t (view kv !! key) = Some e').
  { rewrite He'. apply live_Some. split; [done|]. unfold IsExpired. rewrite Hd.
    destruct (d =? 0) eqn:E0; [done|]. bool_to_prop. rewrite Z.gtb_ltb. apply Z.ltb_ge. lia. }
  destruct (exp <=? 0) eqn:E; bool_to_prop.
  - destruct (Persist_abs t key kv Hwf) as [H1 H2]. cbn in H1, H2. rewrite Hl, Hd in H2.
    destruct (Persist t key kv) as [pb kv'] eqn:Ep. cbn [snd fst] in *.
    exists kv'. replace exp with 0 in * by lia. destruct (d =? 0) eqn:E0; bool_to_prop.
    + exists (Some e'). injection H2 as _ Hv _. split; [done|]. split; [done|]. rewrite <- Hv.
      split; [by split|]. intros e He. eapply opt_sim_exact; [done| |lia]. split; [done|]. split; [done|lia].
    + eexists. injection H2 as _ Hv _. split; [done|]. split; [done|]. rewrite <- Hv.
      split; [apply leaves_insert|]. intros e He. eapply opt_sim_exact; [done| |lia].
      split; [done|]. by split.
  - rewrite i64_id by (unfold clock_ok, in_i64, MinInt64, MaxInt64, second in *; lia).
    destruct (exp - t <=? 0) eqn:Er; bool_to_prop.
    + destruct (Delete1 key kv Hwf) as (H1 & H2 & _). exists (snd (Delete [key] kv)), None.
      split; [done|]. split; [done|]. rewrite H2. split; [apply leaves_delete|].
      intros e (_ & _ & He). unfold opt_sim. by rewrite slive_dead by lia.
    + destruct (whole_seconds_near t exp Ht ltac:(lia)) as [Hw1 Hw2].
      destruct (Expire_abs t t key (Z.max 1 (Z.quot (exp - t) second)) kv Hwf) as [H1 H2].
      cbn in H1, H2. rewrite Hl in H2. set (sec := Z.max 1 _) in *.
      rewrite (proj2 (Z.leb_gt sec 0)) in H2 by lia.
      destruct (Expire t t key sec kv) as [pb kv'] eqn:Ep. cbn [snd fst] in *.
      assert (Hexp : i64 (t + i64 (sec * second)) = whole_seconds t exp).
      { unfold whole_seconds in *. fold sec in Hw1 |- *. unfold clock_ok in Ht.
        rewrite (i64_id (sec * second)), i64_id; [done|..];
          unfold in_i64, MinInt64, second in *; lia. }
      rewrite Hexp in H2. exists kv'. eexists. injection H2 as _ Hv _. split; [done|]. split; [done|].
      rewrite <- Hv. split; [apply leaves_insert|]. intros e He. unfold opt_sim.
      destruct He as (He1 & He2 & He3).
      rewrite !slive_alive by (cbn; unfold clock_ok in Ht; lia).
      exists b, exp, (whole_seconds t exp). unfold clock_ok in Ht. conjs; try done; try lia.
Qed.

End Effects.
