(* ===== verification/Vectors.v ===== *)
(** * The vector store ([engine/vector.go], [engine/vector_migration.go])

    The keys of the store that hold vector indexes, the index objects they point
    to, the files behind the objects, and shadow migrations. An entry of the
    key-value store holds the identity of an index object; several operations
    reach the same object through the same key, and its files outlive it. The
    operations on one index are those of [VectorIndex].

    The disk maps a file name, relative to the directory of the tenant, to the
    files of an index. It is kept up to date with every open object: the rows
    are mapped, and metadata and graphs are files. What the system decides is in
    [Env]: the clock, whether files can be opened, grown and written, and whether
    the last write of the metadata is less than a second old. The name of the
    file of a key ([sha256]) and the hash of the metadata are arguments. The
    renames of a swap succeed; a crash between two of them is [crash_in_swap].
    Commands of one store run one after the other. *)

From S2P Require Import Prelude GoStd Types KV GoFloat VectorPayload Float32 Hnsw VectorRows VectorIndex.
From S2P Require Import Recovery.
From Stdlib Require Import Floats.SpecFloat.
Open Scope Z_scope.

(** ** State *)
Record Obj := {
  ob_index : MMapVectorIndex;
  ob_path : string;
  ob_shadow : option MMapVectorIndex;
  ob_shadowPath : string;
  ob_isMigrating : bool;
  ob_shadowDim : Z;
  ob_shadowEncoding : string
}.

Record VecStore := {
  vs_maxVectors : Z; vs_maxMemory : Z; vs_encoding : string;
  vs_objs : gmap nat Obj; vs_next : nat; vs_disk : gmap string Files
}.

(** What the system decides. *)
Record Env := {
  e_now : Z; e_open : string → bool; e_grow : bool; e_recent : bool; e_meta : bool; e_hnsw : bool;
  e_flush : bool
}.

Definition NewVectorStore (maxVectors : Z) (disk : gmap string Files) : VecStore :=
  {| vs_maxVectors := maxVectors; vs_maxMemory := 0; vs_encoding := EncodingSQ8; vs_objs := ∅;
     vs_next := 0; vs_disk := disk |}.

Definition SetEncoding (encoding : string) (vs : VecStore) : res string VecStore :=
  let? normalized := NormalizeVectorEncoding encoding in
  Ok {| vs_maxVectors := vs_maxVectors vs; vs_maxMemory := vs_maxMemory vs; vs_encoding := normalized;
        vs_objs := vs_objs vs; vs_next := vs_next vs; vs_disk := vs_disk vs |}.

Definition SetMemoryLimit (bytes : Z) (vs : VecStore) : VecStore :=
  {| vs_maxVectors := vs_maxVectors vs; vs_maxMemory := bytes; vs_encoding := vs_encoding vs;
     vs_objs := vs_objs vs; vs_next := vs_next vs; vs_disk := vs_disk vs |}.

Definition files (path : string) (vs : VecStore) : Files := default no_files (vs_disk vs !! path).

Definition set_objs (objs : gmap nat Obj) (next : nat) (disk : gmap string Files) (vs : VecStore) : VecStore :=
  {| vs_maxVectors := vs_maxVectors vs; vs_maxMemory := vs_maxMemory vs; vs_encoding := vs_encoding vs;
     vs_objs := objs; vs_next := next; vs_disk := disk |}.

Definition set_files (path : string) (f : Files) (vs : VecStore) : VecStore :=
  set_objs (vs_objs vs) (vs_next vs) (<[path := f]> (vs_disk vs)) vs.
Definition remove_files (path : string) (vs : VecStore) : VecStore :=
  set_objs (vs_objs vs) (vs_next vs) (delete path (vs_disk vs)) vs.

(** An object with its files. *)
Definition write_obj (h : nat) (o : Obj) (vs : VecStore) : VecStore :=
  let disk := <[ob_path o := crashIndex (ob_index o)]> (vs_disk vs) in
  let disk := match ob_shadow o with
              | Some shadow => <[ob_shadowPath o := crashIndex shadow]> disk
              | None => disk
              end in
  set_objs (<[h := o]> (vs_objs vs)) (vs_next vs) disk vs.

Definition drop_obj (h : nat) (vs : VecStore) : VecStore :=
  set_objs (delete h (vs_objs vs)) (vs_next vs) (vs_disk vs) vs.

Definition with_index (ix : MMapVectorIndex) (o : Obj) : Obj :=
  {| ob_index := ix; ob_path := ob_path o; ob_shadow := ob_shadow o; ob_shadowPath := ob_shadowPath o;
     ob_isMigrating := ob_isMigrating o; ob_shadowDim := ob_shadowDim o;
     ob_shadowEncoding := ob_shadowEncoding o |}.
Definition with_shadow (shadow : option MMapVectorIndex) (path : string) (migrating : bool) (dim : Z)
    (encoding : string) (o : Obj) : Obj :=
  {| ob_index := ob_index o; ob_path := ob_path o; ob_shadow := shadow; ob_shadowPath := path;
     ob_isMigrating := migrating; ob_shadowDim := dim; ob_shadowEncoding := encoding |}.
Definition new_obj (path : string) (ix : MMapVectorIndex) : Obj :=
  {| ob_index := ix; ob_path := path; ob_shadow := None; ob_shadowPath := ""; ob_isMigrating := false;
     ob_shadowDim := 0; ob_shadowEncoding := "" |}.

Definition vstate : Type := KVStore * VecStore.

Section Store.
Variable level : Z → Z.
Variable pool : Z → searchScratch.
Variable vectorIndexFilename : string → string.
Variable meta_hash : vectorMetadata → list byte.
Variable env : Env.

(** ** Opening and closing *)

(** The rows [newMMapVectorIndex] maps. *)
Definition mapped_rows (f : Files) (dim capacity : Z) (encoding : string) : list byte :=
  let capacity := if capacity <? 1000 then 1000 else capacity in
  if zlen (f_rows f) =? 0 then replicate (Z.to_nat (capacity * VectorRowSize dim encoding)) (z2b 0) else f_rows f.

(** What [Close] leaves on disk: metadata and graphs are written, errors ignored. *)
Definition close_files (ix : MMapVectorIndex) : Files :=
  {| f_rows := ix_mmap ix; f_meta := if e_meta env then Some (metadata ix) else ix_meta ix;
     f_hnsw := if e_hnsw env then Some (ix_graphs ix) else ix_hnsw ix |}.

(** An index whose metadata is refused is closed while its tables are still
    empty: [Close] writes empty metadata over the refused ones. *)
Definition refused_files (f : Files) (dim capacity : Z) (encoding : string) : Files :=
  let encoding' := match f_meta f with
                   | Some meta =>
                       if negb (meta_Dim meta =? dim) then encoding
                       else match NormalizeVectorEncoding (meta_Encoding meta) with Ok e => e | _ => encoding end
                   | None => encoding
                   end in
  close_files {| ix_mmap := mapped_rows f dim capacity encoding; ix_dim := dim; ix_count := 0; ix_idMap := ∅;
                 ix_idList := []; ix_tombstones := []; ix_generations := []; ix_rowInv := [];
                 ix_graphs := newHNSWShards; ix_metaDirty := 0; ix_encoding := encoding';
                 ix_meta := f_meta f; ix_hnsw := f_hnsw f |}.

(** [newMMapVectorIndex] on a file of the disk. An empty file cannot be mapped. *)
Definition openFile (path : string) (dim capacity : Z) (enc : string) (vs : VecStore)
    : res string MMapVectorIndex * VecStore :=
  match NormalizeVectorEncoding enc with
  | Ok encoding =>
      if negb (e_open env path) then (Err "open vector file"%string, vs)
      else
        let f := files path vs in
        if zlen (mapped_rows f dim capacity encoding) =? 0 then (Err "map vector file"%string, vs)
        else
          match openIndex level pool f dim capacity enc with
          | Ok ix => (Ok ix, set_files path (crashIndex ix) vs)
          | r => (r, set_files path (refused_files f dim capacity encoding) vs)
          end
  | Err e => (Err e, vs)
  | Panic => (Panic, vs)
  end.

(** The object of a key, and the entry that points to it. *)
Definition attach (key : string) (e : Entry) (dim : Z) (st : vstate) : res string nat * vstate :=
  let '(kv, vs) := st in
  let path := vectorIndexFilename key in
  match openFile path dim (vs_maxVectors vs) (vs_encoding vs) vs with
  | (Ok ix, vs) =>
      let h := vs_next vs in
      (Ok h, (putEntry key (setValue (VVector h) e) kv,
              set_objs (<[h := new_obj path ix]> (vs_objs vs)) (S h) (vs_disk vs) vs))
  | (Err err, vs) => (Err err, (kv, vs))
  | (Panic, vs) => (Panic, (kv, vs))
  end.

Definition getOrCreate (key : string) (dim : Z) (st : vstate) : res string nat * vstate :=
  let '(o, kv) := GetForWrite (e_now env) key (fst st) in
  let st := (kv, snd st) in
  match o with
  | None => attach key (mkEntry VNil TypeVector) dim st
  | Some e =>
      if negb (bool_decide (EType e = TypeVector)) then (Err (error_Error ErrWrongType), st)
      else match Value e with
           | VNil => attach key e dim st
           | VVector h => (Ok h, st)
           | _ => (Panic, st)
           end
  end.

(** The metadata of an unopened index tell its dimension. *)
Definition openPersistedIndex (key : string) (st : vstate) : res string (option nat) * vstate :=
  match f_meta (files (vectorIndexFilename key) (snd st)) with
  | None => (Ok None, st)
  | Some meta =>
      if meta_Dim meta <=? 0 then (Err "invalid vector metadata"%string, st)
      else
        match getOrCreate key (meta_Dim meta) st with
        | (Ok h, st) => (Ok (Some h), st)
        | (Err e, st) => (Err e, st)
        | (Panic, st) => (Panic, st)
        end
  end.

Definition getReadOnly (key : string) (st : vstate) : res string (option nat) * vstate :=
  match GetForRead (e_now env) key (fst st) with
  | Some e =>
      if negb (bool_decide (EType e = TypeVector)) then (Err (error_Error ErrWrongType), st)
      else match Value e with
           | VNil => openPersistedIndex key st
           | VVector h => (Ok (Some h), st)
           | _ => (Panic, st)
           end
  | None => openPersistedIndex key st
  end.

(** Run an operation on the object an access found; [none] when there is none. *)
Definition on_obj {A} (none : res string A) (f : nat → Obj → VecStore → res string A * VecStore)
    (r : res string (option nat) * vstate) : res string A * vstate :=
  match r with
  | (Ok (Some h), (kv, vs)) =>
      match vs_objs vs !! h with
      | Some o => let '(a, vs) := f h o vs in (a, (kv, vs))
      | None => (Panic, (kv, vs))                                            (* not reached *)
      end
  | (Ok None, st) => (none, st)
  | (Err e, st) => (Err e, st)
  | (Panic, st) => (Panic, st)
  end.

(** An operation on the index of an object. *)
Definition on_index {A} (f : MMapVectorIndex → res string A * MMapVectorIndex) (h : nat) (o : Obj) (vs : VecStore)
    : res string A * VecStore :=
  let '(a, ix) := f (ob_index o) in (a, write_obj h (with_index ix o) vs).
Definition read_index {A} (f : MMapVectorIndex → res string A) (h : nat) (o : Obj) (vs : VecStore)
    : res string A * VecStore := (f (ob_index o), vs).

(** The access of an operation that creates the index. *)
Definition created (r : res string nat * vstate) : res string (option nat) * vstate :=
  match r with (Ok h, st) => (Ok (Some h), st) | (Err e, st) => (Err e, st) | (Panic, st) => (Panic, st) end.

Definition added_result (p : option string * MMapVectorIndex) : res string unit * MMapVectorIndex :=
  (match fst p with None => Ok tt | Some e => Err e end, snd p).

(** ** Vectors of a key *)
Definition VAdd (key id : string) (vec : list float32) (st : vstate) : res string unit * vstate :=
  match validateVector id vec with
  | Ok _ =>
      on_obj Panic
        (λ h o vs, on_index (λ ix, added_result
           (addVector level pool (vs_maxVectors vs) (e_grow env) (e_recent env) (e_meta env) id vec ix)) h o vs)
        (created (getOrCreate key (zlen vec) st))
  | r => (r, st)
  end.

Definition VAddBatch (key : string) (dim : Z) (ids : list string) (vecs : list (list float32)) (st : vstate)
    : res string unit * vstate :=
  if negb (zlen ids =? zlen vecs) then (Err "length of ids and vecs must match"%string, st)
  else if zlen ids =? 0 then (Ok tt, st)
  else
    match validateBatch dim ids vecs with
    | Ok _ =>
        on_obj Panic
          (λ h o vs, on_index (λ ix, added_result
             (addBatch level pool (vs_maxVectors vs) (e_grow env) (e_recent env) (e_meta env) dim (zip ids vecs) ix))
             h o vs)
          (created (getOrCreate key dim st))
    | r => (r, st)
    end.

Definition VDel (key id : string) (st : vstate) : res string bool * vstate :=
  on_obj (Ok false) (on_index (deleteVector (e_meta env) id)) (getReadOnly key st).

Definition HasLiveVector (key id : string) (st : vstate) : res string bool * vstate :=
  on_obj (Ok false) (read_index (λ ix, Ok (VectorIndex.HasLiveVector id ix))) (getReadOnly key st).

Definition TombstoneRatio (key : string) (st : vstate) : res string float64 * vstate :=
  on_obj (Ok (S754_zero false)) (read_index (λ ix, Ok (VectorIndex.TombstoneRatio ix))) (getReadOnly key st).

Definition VCompact (key : string) (st : vstate) : res string Z * vstate :=
  on_obj (Ok 0) (on_index (compact level pool (e_flush env) (e_meta env) (e_hnsw env))) (getReadOnly key st).

Definition GetVector (key id : string) (st : vstate) : res string (list float32) * vstate :=
  on_obj (Err "vector id not found"%string) (read_index (getVector id)) (getReadOnly key st).

Definition VSearchOpts (key : string) (query : list single) (opts : SearchOpts) (st : vstate)
    : res string (list SearchResult) * vstate :=
  on_obj (Ok []) (read_index (searchIndex pool query opts)) (getReadOnly key st).

Definition VSearch (key : string) (query : list single) (k : Z) (filter : option (string → bool)) (st : vstate)
    : res string (list SearchResult) * vstate :=
  VSearchOpts key query {| o_K := k; o_Filter := filter; o_MinScore := f32_zero; o_HasMinScore := false;
                           o_EfSearch := 0; o_ExcludeID := "" |} st.

Definition SetEfSearch (key : string) (ef : Z) (st : vstate) : res string unit * vstate :=
  on_obj (Ok tt) (on_index (λ ix, (Ok tt, setEfSearch ef ix))) (getReadOnly key st).

(** ** Accounting and admission *)

(** The open indexes, in the order of a sweep. *)
Definition open_indexes (st : vstate) : list (string * nat * Obj) :=
  '(key, e) ← sweep (fst st);
  match EType e, Value e with
  | TypeVector, VVector h => match vs_objs (snd st) !! h with Some o => [(key, h, o)] | None => [] end
  | _, _ => []
  end.

Definition MemoryUsage (st : vstate) : Z :=
  foldl (λ total p, total + index_memory (ob_index p.2)) 0 (open_indexes st).
Definition LiveVectorCount (st : vstate) : Z :=
  foldl (λ total p, total + live_count (ob_index p.2)) 0 (open_indexes st).

(** The bytes the new rows of an index, or a new index, are charged. *)
Definition admission (key : string) (dim : Z) (ids : list string) (currentUsage : Z) (vs : VecStore)
    (oix : option MMapVectorIndex) : res string unit :=
  let rowSize := VectorRowSize dim (vs_encoding vs) in
  let? p :=
    match oix with
    | Some ix =>
        if negb (ix_dim ix =? dim) then Err (dim_error (ix_dim ix) dim)
        else Ok (new_ids ix ids, ix_count ix, 0)
    | None => Ok (list_to_set ids, 0, 1000 * rowSize + strlen key + 96)
    end in
  let '(newIDs, currentCount, additional) := p in
  let needed := currentCount + Z.of_nat (size newIDs) in
  if (vs_maxVectors vs >? 0) && (needed >? vs_maxVectors vs) then Err (quota_error (vs_maxVectors vs))
  else
    let additional := foldl (λ a id, a + (strlen id + 160)) additional (elements newIDs) in
    let neededBytes := needed * rowSize in
    let additional :=
      match oix with
      | Some ix =>
          let capacity := zlen (ix_mmap ix) in
          if neededBytes >? capacity then
            let newCapacity := if capacity * 2 <? neededBytes then neededBytes else capacity * 2 in
            additional + (newCapacity - capacity)
          else additional
      | None => additional
      end in
    if (vs_maxMemory vs >? 0) && (currentUsage + additional >? vs_maxMemory vs)
    then Err "OOM tenant quota exceeded"%string
    else Ok tt.

(** The usage is read before the index is looked up. *)
Definition validateBatchCapacity (key : string) (dim : Z) (ids : list string) (st : vstate)
    : res string unit * vstate :=
  let currentUsage := KV.MemoryUsage (e_now env) (fst st) + MemoryUsage st in
  match getReadOnly key st with
  | (Ok None, st) => (admission key dim ids currentUsage (snd st) None, st)
  | r => on_obj Panic (λ h o vs, (admission key dim ids currentUsage vs (Some (ob_index o)), vs)) r
  end.

Definition ValidateAdd (key id : string) (vec : list float32) (st : vstate) : res string unit * vstate :=
  match validateVector id vec with
  | Ok _ => validateBatchCapacity key (zlen vec) [id] st
  | r => (r, st)
  end.

Definition ValidateAddBatch (key : string) (dim : Z) (ids : list string) (vecs : list (list float32)) (st : vstate)
    : res string unit * vstate :=
  if negb (zlen ids =? zlen vecs) || (zlen ids =? 0) || (zlen ids >? maxVectorBatch)
  then (Err "invalid vector batch size"%string, st)
  else
    match validateBatch dim ids vecs with
    | Ok _ => validateBatchCapacity key dim ids st
    | r => (r, st)
    end.

(** ** Fusion of several spaces *)
Record SpaceQuery := { sq_Space : string; sq_Query : list single }.

Fixpoint check_spaces (queries : list SpaceQuery) (seen : gset string) : res string unit :=
  match queries with
  | [] => Ok tt
  | q :: queries =>
      let? _ := if bool_decide (sq_Space q = ""%string) then Ok tt else ValidateSpaceName (sq_Space q) in
      if bool_decide (sq_Space q ∈ seen) then Err ("duplicate SPACE " ++ quoted (sq_Space q))%string
      else if zlen (sq_Query q) =? 0 then Err ("empty query vector for SPACE " ++ quoted (sq_Space q))%string
      else check_spaces queries ({[sq_Space q]} ∪ seen)
  end.

Fixpoint sum_weights (weights : list single) (sum : single) : res string single :=
  match weights with
  | [] => Ok sum
  | w :: weights =>
      if SFltb w f32_zero || f32_isNaN w || f32_isInf w then Err "WEIGHTS must be finite and non-negative"%string
      else sum_weights weights (f32_add sum w)
  end.

Definition merge_hits (w : single) (hits : list SearchResult) (merged : gmap string single) : gmap string single :=
  foldl (λ m hit, <[r_ID hit := f32_add (default f32_zero (m !! r_ID hit)) (f32_mul w (r_Score hit))]> m) merged hits.

Fixpoint fuse_loop (index : string) (queries : list (SpaceQuery * single)) (weightSum : single) (subOpts : SearchOpts)
    (merged : gmap string single) (st : vstate) : res string (gmap string single) * vstate :=
  match queries with
  | [] => (Ok merged, st)
  | (q, weight) :: queries =>
      match VSearchOpts (VectorSpaceKey index (sq_Space q)) (sq_Query q) subOpts st with
      | (Ok hits, st) =>
          fuse_loop index queries weightSum subOpts (merge_hits (f32_div weight weightSum) hits merged) st
      | (Err e, st) => (Err e, st)
      | (Panic, st) => (Panic, st)
      end
  end.

(** Best score first, equal scores by name. *)
Definition fused_le (a b : SearchResult) : Prop :=
  fle (r_Score b) (r_Score a) ∧ (fle (r_Score a) (r_Score b) → String.ltb (r_ID b) (r_ID a) = false).
#[global] Instance fused_le_dec a b : Decision (fused_le a b).
Proof. unfold fused_le, fle, lex3. apply _. Defined.

Definition kept (opts : SearchOpts) (p : string * single) : bool :=
  negb (o_HasMinScore opts && SFltb p.2 (o_MinScore opts)) &&
  negb (negb (bool_decide (o_ExcludeID opts = ""%string)) && bool_decide (p.1 = o_ExcludeID opts)).

Definition fuse_results (opts : SearchOpts) (merged : gmap string single) : list SearchResult :=
  take (Z.to_nat (o_K opts))
    (merge_sort fused_le ((λ p, {| r_ID := p.1; r_Score := p.2 |}) <$> List.filter (kept opts) (map_to_list merged))).

Definition fetch_count (k : Z) : Z :=
  let fetchK := i64 (k * 8) in
  let fetchK := if fetchK <? 32 then 32 else fetchK in
  if fetchK >? 256 then 256 else fetchK.

Definition VFuse (index : string) (queries : list SpaceQuery) (weights : list single) (opts : SearchOpts) (st : vstate)
    : res string (list SearchResult) * vstate :=
  if zlen queries <? 2 then (Err "fuse requires at least two SPACE queries"%string, st)
  else
    let weights' := if zlen weights =? 0 then replicate (length queries) f32_one else weights in
    match (let? _ := check_spaces queries ∅ in
           if negb (zlen weights' =? zlen queries) then Err "WEIGHTS count must match SPACE count"%string
           else
             let? weightSum := sum_weights weights' f32_zero in
             if SFeqb weightSum f32_zero then Err "WEIGHTS must sum to a positive value"%string
             else Ok weightSum) with
    | Ok weightSum =>
        if o_K opts <=? 0 then (Ok [], st)
        else
          let subOpts := {| o_K := fetch_count (o_K opts); o_Filter := o_Filter opts; o_MinScore := f32_zero;
                            o_HasMinScore := false; o_EfSearch := o_EfSearch opts; o_ExcludeID := "" |} in
          match fuse_loop index (zip queries weights') weightSum subOpts ∅ st with
          | (Ok merged, st) => (Ok (fuse_results opts merged), st)
          | (Err e, st) => (Err e, st)
          | (Panic, st) => (Panic, st)
          end
    | Err e => (Err e, st)
    | Panic => (Panic, st)
    end.

(** ** Checkpoints, restarts and deletions *)
Definition flush_one (r : res string unit * VecStore) (p : string * nat * Obj) : res string unit * VecStore :=
  match r with
  | (Ok _, vs) =>
      match writeMetadata true (e_recent env) (e_meta env) (ob_index p.2) with
      | Ok ix => (Ok tt, write_obj p.1.2 (with_index ix p.2) vs)
      | Err e => (Err e, vs)
      | Panic => (Panic, vs)
      end
  | r => r
  end.
Definition FlushDurable (st : vstate) : res string unit * vstate :=
  let '(r, vs) := foldl flush_one (Ok tt, snd st) (open_indexes st) in (r, (fst st, vs)).

(** A zero hash when there are no metadata. *)
Definition seal_of (p : string * nat * Obj) : IndexSeal :=
  let ix := ob_index p.2 in
  {| seal_Key := p.1.1; seal_Dim := ix_dim ix; seal_Count := ix_count ix;
     seal_MetaHash := match ix_meta ix with Some meta => meta_hash meta | None => replicate 32 (z2b 0) end |}.
Definition IndexSeals (st : vstate) : list IndexSeal := seal_of <$> open_indexes st.

Fixpoint verify_seals (byKey : gmap string IndexSeal) (seals : list IndexSeal) : res string unit :=
  match seals with
  | [] => Ok tt
  | want :: seals =>
      match byKey !! seal_Key want with
      | None => Err ("missing vector index " ++ quoted (seal_Key want) ++ " at checkpoint")%string
      | Some got =>
          if negb (seal_Dim got =? seal_Dim want) || negb (seal_Count got =? seal_Count want)
             || negb (bool_decide (seal_MetaHash got = seal_MetaHash want))
          then Err ("vector index " ++ quoted (seal_Key want) ++ " seal mismatch (dim/count/meta)")%string
          else verify_seals byKey seals
      end
  end.
Definition VerifySeals (seals : list IndexSeal) (st : vstate) : res string unit :=
  verify_seals (foldl (λ m seal, <[seal_Key seal := seal]> m) ∅ (IndexSeals st)) seals.

(** The keys a snapshot restored without their index. *)
Definition nil_keys (kv : KVStore) : list string :=
  '(key, e) ← sweep kv;
  if bool_decide (EType e = TypeVector) && bool_decide (Value e = VNil) then [key] else [].

Definition reopen_key (r : res string unit * vstate) (key : string) : res string unit * vstate :=
  match r with
  | (Ok _, st) =>
      match openPersistedIndex key st with
      | (Ok _, st) => (Ok tt, st)
      | (Err e, st) => (Err e, st)
      | (Panic, st) => (Panic, st)
      end
  | r => r
  end.
Definition ReopenPersisted (st : vstate) : res string unit * vstate :=
  foldl reopen_key (Ok tt, st) (nil_keys (fst st)).

(** [Close] of the index of an object; its shadow stays as it is. *)
Definition close_obj (h : nat) (o : Obj) (vs : VecStore) : VecStore :=
  drop_obj h (set_files (ob_path o) (close_files (ob_index o)) vs).

Definition close_entry (st : vstate) (p : string * nat * Obj) : vstate :=
  let '(key, h, o) := p in
  let '(kv, vs) := st in
  let vs := match ob_shadow o with
            | Some shadow => set_files (ob_shadowPath o) (close_files shadow) vs
            | None => vs
            end in
  (match data (getShard kv key) !! key with
   | Some e => putEntry key (setValue VNil e) kv
   | None => kv
   end, close_obj h o vs).
Definition CloseAll (st : vstate) : vstate := foldl close_entry st (open_indexes st).

(** [closeVectorEntry], and [KVStore.Delete] and [KVStore.FlushAll] with the
    indexes they close. *)
Definition closeVectorEntry (e : Entry) (vs : VecStore) : VecStore :=
  match EType e, Value e with
  | TypeVector, VVector h => match vs_objs vs !! h with Some o => close_obj h o vs | None => vs end
  | _, _ => vs
  end.
Definition DeleteKeys (keys : list string) (st : vstate) : Z * vstate :=
  foldl (λ '(deleted, (kv, vs)) key,
    match data (getShard kv key) !! key with
    | Some e => (deleted + 1, (removeEntry key kv, closeVectorEntry e vs))
    | None => (deleted, (kv, vs))
    end) (0, st) keys.
Definition FlushAll (st : vstate) : vstate :=
  (KV.FlushAll (fst st), foldl (λ vs p, closeVectorEntry p.2 vs) (snd st) (sweep (fst st))).

(** The process dies: the disk stays. *)
Definition crash (vs : VecStore) : VecStore := set_objs ∅ 0 (vs_disk vs) vs.

(** ** Migrations *)
Definition shadowFile (key : string) : string := (key ++ ".shadow")%string.

Definition startMigration (dim : Z) (enc : string) (key : string) (h : nat) (o : Obj) (vs : VecStore)
    : res string unit * VecStore :=
  match NormalizeVectorEncoding enc with
  | Err e => (Err e, vs)
  | Panic => (Panic, vs)
  | Ok encoding =>
      if ob_isMigrating o && (ob_shadowDim o =? dim) && bool_decide (ob_shadowEncoding o = encoding)
         && bool_decide (is_Some (ob_shadow o))
      then (Ok tt, vs)
      else
        let '(o, vs) :=
          if ob_isMigrating o then
            let vs := match ob_shadow o with Some _ => remove_files (ob_shadowPath o) vs | None => vs end in
            (with_shadow None (ob_shadowPath o) false (ob_shadowDim o) (ob_shadowEncoding o) o, vs)
          else (o, vs) in
        let path := shadowFile key in
        let vs := write_obj h o vs in
        if negb (e_open env path) then (Err "remove shadow files"%string, vs)
        else
          match openFile path dim 1000 encoding (remove_files path vs) with
          | (Ok shadow, vs) => (Ok tt, write_obj h (with_shadow (Some shadow) path true dim encoding o) vs)
          | (Err e, vs) => (Err e, vs)
          | (Panic, vs) => (Panic, vs)
          end
  end.

Definition StartMigration (key : string) (dim : Z) (enc : string) (st : vstate) : res string unit * vstate :=
  on_obj Panic (startMigration dim enc key) (created (getOrCreate key 0 st)).

(** The row of a name in a shadow; a tombstone is not looked at. *)
Definition shadowRow (id : string) (ix : MMapVectorIndex) : Z * bool * MMapVectorIndex :=
  match ix_idMap ix !! id with
  | Some row =>
      (row, false,
       set_tables (ix_count ix) (ix_idMap ix) (ix_idList ix) (ix_tombstones ix)
         (alter (λ g, u64 (g + 1)) (Z.to_nat row) (ix_generations ix)) (ix_metaDirty ix + 1) ix)
  | None =>
      (ix_count ix, true,
       set_tables (ix_count ix + 1) (<[id := ix_count ix]> (ix_idMap ix)) (ix_idList ix ++ [id])
         (ix_tombstones ix ++ [false]) (ix_generations ix ++ [1]) (ix_metaDirty ix + 1) ix)
  end.

Definition insertShadow (id : string) (vec : list float32) (ix : MMapVectorIndex)
    : res string unit * MMapVectorIndex :=
  if negb (zlen vec =? ix_dim ix) then (Err "vector dimension mismatch"%string, ix)
  else
    match (if bool_decide (is_Some (ix_idMap ix !! id)) then Ok ix
           else ensureCapacity (e_grow env) ((ix_count ix + 1) * rowBytes ix) ix) with
    | Err e => (Err e, ix)
    | Panic => (Panic, ix)
    | Ok ix =>
        let '(row, isNew, ix) := shadowRow id ix in
        let ix := setRowInv row (writeRow row vec ix) in
        match writeMetadata false (e_recent env) (e_meta env) ix with
        | Ok ix => (Ok tt, if isNew then set_graphs (insertGraph level pool ix (ix_graphs ix) row) ix else ix)
        | Err e => (Err e, ix)
        | Panic => (Panic, ix)
        end
    end.

Definition insertShadowVector (id : string) (vec : list float32) (h : nat) (o : Obj) (vs : VecStore)
    : res string unit * VecStore :=
  match ob_shadow o with
  | Some shadow =>
      if negb (ob_isMigrating o) then (Err "no migration in progress"%string, vs)
      else
        match validateVector id vec with
        | Ok _ =>
            let '(r, shadow) := insertShadow id vec shadow in
            (r, write_obj h (with_shadow (Some shadow) (ob_shadowPath o) (ob_isMigrating o) (ob_shadowDim o)
                               (ob_shadowEncoding o) o) vs)
        | r => (r, vs)
        end
  | None => (Err "no migration in progress"%string, vs)
  end.

Definition InsertShadowVector (key id : string) (vec : list float32) (st : vstate) : res string unit * vstate :=
  on_obj (Err "vector space not found"%string) (insertShadowVector id vec) (getReadOnly key st).

(** The six file operations of a swap: each kind of file of the index is removed
    and the one of the shadow takes its name. *)
Definition promote_rows (live shadow : string) (vs : VecStore) : VecStore :=
  let f := files live vs in
  let s := files shadow vs in
  set_files shadow {| f_rows := []; f_meta := f_meta s; f_hnsw := f_hnsw s |}
    (set_files live {| f_rows := f_rows s; f_meta := f_meta f; f_hnsw := f_hnsw f |} vs).
Definition promote_meta (live shadow : string) (vs : VecStore) : VecStore :=
  let f := files live vs in
  let s := files shadow vs in
  set_files shadow {| f_rows := f_rows s; f_meta := None; f_hnsw := f_hnsw s |}
    (set_files live {| f_rows := f_rows f; f_meta := f_meta s; f_hnsw := f_hnsw f |} vs).
Definition promote_hnsw (live shadow : string) (vs : VecStore) : VecStore :=
  let f := files live vs in
  let s := files shadow vs in
  set_files shadow {| f_rows := f_rows s; f_meta := f_meta s; f_hnsw := None |}
    (set_files live {| f_rows := f_rows f; f_meta := f_meta f; f_hnsw := f_hnsw s |} vs).

Definition swapMigration (h : nat) (o : Obj) (vs : VecStore) : res string unit * VecStore :=
  match ob_shadow o with
  | Some shadow =>
      if negb (ob_isMigrating o) then (Ok tt, vs)
      else if ix_count shadow =? 0 then (Err "cannot swap empty migration"%string, vs)
      else
        let live := ob_path o in
        let sp := ob_shadowPath o in
        let vs := set_files sp (close_files shadow) (set_files live (close_files (ob_index o)) vs) in
        let vs := promote_hnsw live sp (promote_meta live sp (promote_rows live sp vs)) in
        match openFile live (ix_dim shadow) 1000 (ix_encoding shadow) vs with
        | (Ok ix, vs) =>
            (Ok tt, write_obj h (with_shadow None sp false (ob_shadowDim o) (ob_shadowEncoding o) (with_index ix o)) vs)
        | (Err e, vs) => (Err e, drop_obj h vs)
        | (Panic, vs) => (Panic, vs)
        end
  | None => (Ok tt, vs)
  end.

Definition SwapMigration (key : string) (st : vstate) : res string unit * vstate :=
  on_obj (Err "vector space not found"%string) swapMigration (getReadOnly key st).

(** The disk of a crash after the rows, or after rows and metadata, are promoted. *)
Definition crash_in_swap (meta_too : bool) (h : nat) (vs : VecStore) : VecStore :=
  match vs_objs vs !! h with
  | Some o =>
      match ob_shadow o with
      | Some shadow =>
          let vs := set_files (ob_shadowPath o) (close_files shadow)
                      (set_files (ob_path o) (close_files (ob_index o)) vs) in
          let vs := promote_rows (ob_path o) (ob_shadowPath o) vs in
          crash (if meta_too then promote_meta (ob_path o) (ob_shadowPath o) vs else vs)
      | None => crash vs
      end
  | None => crash vs
  end.

Definition cancelMigration (h : nat) (o : Obj) (vs : VecStore) : res string unit * VecStore :=
  if negb (ob_isMigrating o) then (Ok tt, vs)
  else
    let path := ob_shadowPath o in
    let had := ob_shadow o in
    let vs := write_obj h (with_shadow None path false 0 "" o) vs in
    match had with
    | Some _ => if e_open env path then (Ok tt, remove_files path vs) else (Err "remove shadow files"%string, vs)
    | None => (Ok tt, vs)
    end.

Definition CancelMigration (key : string) (st : vstate) : res string unit * vstate :=
  on_obj (Err "vector space not found"%string) cancelMigration (getReadOnly key st).

(** An error counts as no migration. *)
Definition MigrationActive (key : string) (st : vstate) : bool * vstate :=
  match on_obj (Ok false) (λ h o vs, (Ok (ob_isMigrating o), vs)) (getReadOnly key st) with
  | (Ok b, st) => (b, st)
  | (_, st) => (false, st)
  end.

Definition ValidateSwapMigration (key : string) (st : vstate) : res string unit * vstate :=
  on_obj (Err "vector space not found"%string)
    (λ h o vs,
      (match ob_shadow o with
       | Some shadow =>
           if negb (ob_isMigrating o) then Err "no migration in progress"%string
           else if ix_count shadow =? 0 then Err "cannot swap empty migration"%string else Ok tt
       | None => Err "no migration in progress"%string
       end, vs)) (getReadOnly key st).
End Store.
