(* ===== verification/VectorsCorrect.v ===== *)
(** * What the vector store guarantees

    The invariant that ties keys, index objects and files together, the effect
    of every operation on it, histories of commands over many keys with shadow
    migrations, and the theorem that the store is a map from keys to maps from
    names to vectors. *)

From S2P Require Import Prelude GoStd Types KV Reaper GoFloat VectorPayload Float32 Hnsw VectorRows VectorIndex.
From S2P Require Import Recovery VectorIndexCorrect VectorHistory Vectors.
From Stdlib Require Import Floats.SpecFloat.
Open Scope Z_scope.

(** An index as its users see it: dimension, encoding, and the bytes stored under
    each name. *)
Record vmap := { v_dim : Z; v_enc : string; v_map : string → option (list byte) }.

Definition describes (k : vmap) (ix : MMapVectorIndex) : Prop :=
  ix_dim ix = v_dim k ∧ ix_encoding ix = v_enc k ∧ ∀ x, live ix x = v_map k x.

Definition upd {A} (key : string) (a : A) (F : string → A) (k : string) : A := if decide (k = key) then a else F k.

Lemma upd_eq {A} key (a : A) F : upd key a F key = a.
Proof. unfold upd. by rewrite decide_True. Qed.
Lemma upd_ne {A} key (a : A) F k : k ≠ key → upd key a F k = F k.
Proof. intros. unfold upd. by rewrite decide_False. Qed.

Section Store.
Variable level : Z → Z.
Variable pool : Z → searchScratch.
Variable name : string → string.
(** The keys in use, whose files have names of their own. *)
Variable K : gset string.
Hypothesis level_ok : ∀ row, 0 ≤ level row ≤ 64.
Hypothesis pool_ok : ∀ row, scratch_ok (pool row).
Hypothesis name_inj : ∀ k k', k ∈ K → k' ∈ K → name k = name k' → k = k'.
Hypothesis name_shadow : ∀ k k', k ∈ K → k' ∈ K → name k ≠ shadowFile k'.

(** ** The invariant *)

(** Files of an index that is not open hold [g]: nothing that was saved, or files
    that open again. *)
Definition at_rest (n : Z) (f : Files) (g : option vmap) : Prop :=
  match g with
  | None => f_meta f = None ∧ f_hnsw f = None
  | Some k =>
      1 ≤ v_dim k ∧ (∃ meta, f_meta f = Some meta ∧ meta_Dim meta = v_dim k) ∧
      ∀ capacity enc e, NormalizeVectorEncoding enc = Ok e →
        ∃ ix, openIndex level pool f (v_dim k) capacity enc = Ok ix ∧ index_ok level ix ∧ ix_count ix ≤ n ∧
          describes k ix
  end.

(** A shadow has no deleted rows. *)
Record shadow_ok (n : Z) (k : vmap) (ix : MMapVectorIndex) : Prop := {
  sd_index : index_ok level ix;
  sd_count : ix_count ix ≤ n;
  sd_all : ∀ x, is_Some (ix_idMap ix !! x) → is_Some (live ix x);
  sd_describes : describes k ix
}.

Record object_ok (n : Z) (key : string) (k : vmap) (sh : option vmap) (o : Obj) : Prop := {
  oo_path : ob_path o = name key;
  oo_index : index_ok level (ob_index o);
  oo_count : ix_count (ob_index o) ≤ n;
  oo_describes : describes k (ob_index o);
  oo_shadow : match sh with
              | None => ob_shadow o = None ∧ ob_isMigrating o = false
              | Some s => ∃ ix, ob_shadow o = Some ix ∧ ob_isMigrating o = true ∧
                                ob_shadowPath o = shadowFile key ∧ ob_shadowDim o = v_dim s ∧
                                ob_shadowEncoding o = v_enc s ∧ shadow_ok n s ix
              end
}.

(** A key holds [g], and [sh] in its shadow. *)
Definition holds (n : Z) (st : vstate) (key : string) (g sh : option vmap) : Prop :=
  let rest := sh = None ∧ at_rest n (files (name key) (snd st)) g in
  match view (fst st) !! key with
  | Some e =>
      EType e = TypeVector ∧ ExpiresAt e = 0 ∧
      match Value e with
      | VNil => rest
      | VVector h => ∃ o k, vs_objs (snd st) !! h = Some o ∧ g = Some k ∧ object_ok n key k sh o
      | _ => False
      end
  | None => rest
  end.

Record store_ok (n : Z) (st : vstate) (F G : string → option vmap) : Prop := {
  so_wf : kv_wf (fst st);
  so_keys : ∀ key, key ∈ K → holds n st key (F key) (G key);
  so_only : ∀ key e, view (fst st) !! key = Some e → EType e = TypeVector → key ∈ K;
  so_typed : ∀ key e h, view (fst st) !! key = Some e → Value e = VVector h → EType e = TypeVector;
  so_handles : ∀ k k' e e' h, view (fst st) !! k = Some e → view (fst st) !! k' = Some e' →
    Value e = VVector h → Value e' = VVector h → k = k';
  so_next : ∀ h, is_Some (vs_objs (snd st) !! h) → (h < vs_next (snd st))%nat;
  so_encoding : ∃ e, NormalizeVectorEncoding (vs_encoding (snd st)) = Ok e
}.

(** The key is open as object [o] with identity [h]. *)
Definition opened (st : vstate) (key : string) (h : nat) (o : Obj) : Prop :=
  ∃ e, view (fst st) !! key = Some e ∧ EType e = TypeVector ∧ ExpiresAt e = 0 ∧ Value e = VVector h ∧
       vs_objs (snd st) !! h = Some o.

Lemma opened_ok n st F G key h o :
  store_ok n st F G → opened st key h o → key ∈ K ∧ ∃ k, F key = Some k ∧ object_ok n key k (G key) o.
Proof.
  intros Hs (e & He & Ht & _ & Hv & Ho). pose proof (so_only n st F G Hs key e He Ht) as Hk. split; [done|].
  pose proof (so_keys n st F G Hs key Hk) as Hh. unfold holds in Hh. rewrite He in Hh.
  destruct Hh as (_ & _ & Hh). rewrite Hv in Hh. destruct Hh as (o' & k & Ho' & HF & Hok). exists k. split; [done|]. congruence.
Qed.

Lemma at_rest_mono n n' f g : n ≤ n' → at_rest n f g → at_rest n' f g.
Proof.
  intros Hn. destruct g as [k|]; [|done]. intros (H1 & H2 & H3). split; [done|]. split; [done|].
  intros c enc e He. destruct (H3 c enc e He) as (ix & ? & ? & ? & ?). exists ix. conjs; try done. lia.
Qed.

Lemma shadow_ok_mono n n' g ix : n ≤ n' → shadow_ok n g ix → shadow_ok n' g ix.
Proof. intros ? []. split; try done. lia. Qed.

Lemma object_ok_mono n n' key k sh o : n ≤ n' → object_ok n key k sh o → object_ok n' key k sh o.
Proof.
  intros Hn [H1 H2 H3 H4 H5]. split; try done; [lia|]. destruct sh as [s|]; [|done].
  destruct H5 as (ix & ? & ? & ? & ? & ? & ?). exists ix. conjs; try done. by eapply shadow_ok_mono.
Qed.

Lemma holds_mono n n' st key g sh : n ≤ n' → holds n st key g sh → holds n' st key g sh.
Proof.
  intros Hn. unfold holds. destruct (view (fst st) !! key) as [e|].
  - intros (H1 & H2 & H3). split; [done|]. split; [done|]. destruct (Value e); try done.
    + destruct H3 as [? ?]. split; [done|]. by eapply at_rest_mono.
    + destruct H3 as (o & k & ? & ? & ?). exists o, k. split; [done|]. split; [done|]. by eapply object_ok_mono.
  - intros [? ?]. split; [done|]. by eapply at_rest_mono.
Qed.

(** What a key holds depends on its entry, its object and its files. *)
Lemma holds_frame n st st' key g sh :
  view (fst st') !! key = view (fst st) !! key →
  (∀ e h, view (fst st) !! key = Some e → Value e = VVector h → vs_objs (snd st') !! h = vs_objs (snd st) !! h) →
  vs_disk (snd st') !! name key = vs_disk (snd st) !! name key →
  holds n st key g sh → holds n st' key g sh.
Proof.
  intros Hv Ho Hd. unfold holds, files. rewrite Hv, Hd. destruct (view (fst st) !! key) as [e|]; [|done].
  intros (H1 & H2 & H3). split; [done|]. split; [done|]. destruct (Value e) eqn:Ee; try done.
  destruct H3 as (o & k & Hobj & Hk & Hok). exists o, k. split; [|done]. by rewrite (Ho e idx eq_refl Ee).
Qed.

Lemma store_ok_ext n st F G F' G' :
  store_ok n st F G → (∀ k, k ∈ K → F k = F' k ∧ G k = G' k) → store_ok n st F' G'.
Proof.
  intros [H1 H2 H3 H4 H5 H6] He. split; try done. intros key Hk. destruct (He key Hk) as [<- <-]. by apply H2.
Qed.

Lemma store_ok_mono n n' st F G : n ≤ n' → store_ok n st F G → store_ok n' st F G.
Proof. intros Hn [H1 H2 H3 H4 H5 H6]. split; try done. intros key Hk. eapply holds_mono; [done|]. by apply H2. Qed.

(** ** Writing an object *)
Lemma write_obj_ok n st F G key h o o' k sh :
  store_ok n st F G → opened st key h o → object_ok n key k sh o' →
  store_ok n (fst st, write_obj h o' (snd st)) (upd key (Some k) F) (upd key sh G) ∧
  opened (fst st, write_obj h o' (snd st)) key h o'.
Proof.
  intros Hs Hop Ho'. destruct (opened_ok n st F G key h o Hs Hop) as [Hk _]. pose proof Hop as (e & He & Ht & Hx & Hv & Ho).
  assert (Hop' : opened (fst st, write_obj h o' (snd st)) key h o').
  { exists e. conjs; try done. unfold write_obj. cbn. by rewrite lookup_insert_eq. }
  split; [|done]. pose proof Hs as [S1 S2 S3 S4 S5 S6 S7]. split; try done.
  - intros k1 Hkk. destruct (decide (k1 = key)) as [->|Hne].
    + rewrite !upd_eq. unfold holds. cbn [fst snd]. rewrite He. split; [done|]. split; [done|]. rewrite Hv.
      exists o', k. split; [|done]. unfold write_obj. cbn. by rewrite lookup_insert_eq.
    + rewrite !upd_ne by done. apply (holds_frame n st); [done| | |by apply S2].
      * intros e1 h1 He1 Hv1. unfold write_obj. cbn. apply lookup_insert_ne. intros <-. apply Hne. by eapply S5.
      * unfold write_obj. cbn. rewrite (oo_path _ _ _ _ _ Ho').
        assert (Hn1 : name key ≠ name k1) by (intros E; apply Hne; symmetry; by apply name_inj).
        destruct sh as [s|]; pose proof (oo_shadow _ _ _ _ _ Ho') as Hsh; cbv iota in Hsh.
        -- destruct Hsh as (ix & -> & _ & -> & _).
           rewrite lookup_insert_ne by (intros E; by apply (name_shadow k1 key)). by rewrite lookup_insert_ne.
        -- destruct Hsh as [-> _]. by rewrite lookup_insert_ne.
  - intros h1 Hh. unfold write_obj in *. cbn in *. destruct (decide (h = h1)) as [<-|Hne]; [apply S6; by rewrite Ho|].
    rewrite lookup_insert_ne in Hh by done. by apply S6.
Qed.

(** ** Opening *)
Definition same_config (vs vs' : VecStore) : Prop :=
  vs_maxVectors vs' = vs_maxVectors vs ∧ vs_maxMemory vs' = vs_maxMemory vs ∧ vs_encoding vs' = vs_encoding vs.

Lemma same_config_trans a b c : same_config a b → same_config b c → same_config a c.
Proof. intros (? & ? & ?) (? & ? & ?). repeat split; congruence. Qed.

Lemma mapped_rows_some f dim capacity encoding : 1 ≤ dim → 0 < zlen (mapped_rows f dim capacity encoding).
Proof.
  intros Hd. unfold mapped_rows. pose proof (zlen_nonneg (f_rows f)). destruct (Z.eqb_spec (zlen (f_rows f)) 0); [|lia].
  unfold zlen. rewrite length_replicate. assert (0 < VectorRowSize dim encoding) by (unfold VectorRowSize; destruct (is_f32 _); lia).
  destruct (Z.ltb_spec capacity 1000); nia.
Qed.

Lemma openFile_ok env path dim capacity enc e vs ix :
  NormalizeVectorEncoding enc = Ok e → e_open env path = true → 1 ≤ dim →
  openIndex level pool (files path vs) dim capacity enc = Ok ix →
  openFile level pool env path dim capacity enc vs = (Ok ix, set_files path (crashIndex ix) vs).
Proof.
  intros He Ho Hd Hix. unfold openFile. rewrite He, Ho. cbn [negb].
  pose proof (mapped_rows_some (files path vs) dim capacity e Hd). destruct (Z.eqb_spec (zlen (mapped_rows (files path vs) dim capacity e)) 0); [lia|].
  by rewrite Hix.
Qed.

(** The index an access of dimension [dim] finds, or creates with encoding [enc]. *)
Definition fresh (dim : Z) (enc : string) : vmap := {| v_dim := dim; v_enc := enc; v_map := λ _, None |}.
Definition or_fresh (g : option vmap) (dim : Z) (enc : string) : vmap := default (fresh dim enc) g.

Lemma at_rest_open n f g dim capacity enc e :
  0 ≤ n → at_rest n f g → 1 ≤ dim → v_dim (or_fresh g dim e) = dim → NormalizeVectorEncoding enc = Ok e →
  ∃ ix, openIndex level pool f dim capacity enc = Ok ix ∧ index_ok level ix ∧ ix_count ix ≤ n ∧
    describes (or_fresh g dim e) ix ∧ (g = None → ix_idMap ix = ∅ ∧ ix_count ix = 0).
Proof.
  intros Hn Hr Hdim Hf He. destruct g as [k|]; cbn in Hr, Hf |- *.
  - subst dim. destruct Hr as (_ & _ & Hop). destruct (Hop capacity enc e He) as (ix & ? & ? & ? & ?). exists ix. by conjs.
  - destruct Hr as [Hm Hh]. destruct (open_blank level pool level_ok pool_ok f dim capacity enc e Hm Hh Hdim He) as (ix & H1 & H2 & H3 & H4 & H5 & H6 & _).
    exists ix. conjs; try done; [lia|]. split; [done|]. split; [done|]. intros x. by apply empty_live.
Qed.

Lemma store_ok_eq n st F G F' G' :
  (∀ k, F' k = F k) → (∀ k, G' k = G k) → store_ok n st F G → store_ok n st F' G'.
Proof. intros HF HG Hs. eapply store_ok_ext; [done|]. by intros k _. Qed.

(** Entries, objects and files of the other keys stay. *)
Definition framed (key : string) (st st' : vstate) : Prop :=
  ∀ k, k ∈ K → k ≠ key →
    view (fst st') !! k = view (fst st) !! k ∧ vs_disk (snd st') !! name k = vs_disk (snd st) !! name k ∧
    ∀ e h, view (fst st) !! k = Some e → Value e = VVector h → vs_objs (snd st') !! h = vs_objs (snd st) !! h.

Lemma framed_opened key st st' k h o : framed key st st' → k ∈ K → k ≠ key → opened st' k h o ↔ opened st k h o.
Proof.
  intros Hf Hk Hne. destruct (Hf k Hk Hne) as (Hv & _ & Ho). unfold opened. rewrite Hv.
  split; intros (e & He & Ht & Hx & Hval & Hobj); exists e; conjs; try done; by rewrite (Ho e h He Hval) in *.
Qed.

Lemma framed_trans key a b c : framed key a b → framed key b c → framed key a c.
Proof.
  intros H1 H2 k Hk Hne. destruct (H1 k Hk Hne) as (V1 & D1 & O1), (H2 k Hk Hne) as (V2 & D2 & O2).
  split; [congruence|]. split; [congruence|]. intros e h He Hv. rewrite (O2 e h), (O1 e h) by congruence. done.
Qed.

(** What an access that opens the index of a key leaves. *)
Record attached (key : string) (dim : Z) (st : vstate) (o : Obj) (st' : vstate) : Prop := {
  at_config : same_config (snd st) (snd st');
  at_open : openIndex level pool (files (name key) (snd st)) dim (vs_maxVectors (snd st)) (vs_encoding (snd st)) = Ok (ob_index o);
  at_frame : framed key st st';
  at_disk : vs_disk (snd st') !! name key = Some (crashIndex (ob_index o))
}.

Lemma attach_ok n env st F G key e dim enc :
  store_ok n st F G → 0 ≤ n → key ∈ K → e_open env (name key) = true → EType e = TypeVector → ExpiresAt e = 0 →
  (∀ h e', view (fst st) !! key = Some e' → Value e' ≠ VVector h) →
  1 ≤ dim → NormalizeVectorEncoding (vs_encoding (snd st)) = Ok enc → v_dim (or_fresh (F key) dim enc) = dim →
  ∃ h o st', attach level pool name env key e dim st = (Ok h, st') ∧
    store_ok n st' (upd key (Some (or_fresh (F key) dim enc)) F) G ∧ opened st' key h o ∧
    attached key dim st o st' ∧ (F key = None → ix_idMap (ob_index o) = ∅ ∧ ix_count (ob_index o) = 0).
Proof.
  intros Hs Hn Hk Hop Ht Hx Hcl Hd Henc Hf. destruct st as [kv vs]. cbn [fst snd] in *.
  pose proof Hs as [S1 S2 S3 S4 S5 S6 _]. cbn [fst snd] in *.
  assert (Hrest : G key = None ∧ at_rest n (files (name key) vs) (F key)).
  { pose proof (S2 key Hk) as Hh. unfold holds in Hh. cbn [fst snd] in Hh. destruct (view kv !! key) as [e'|] eqn:E; [|done].
    destruct Hh as (_ & _ & Hh). destruct (Value e') eqn:Ev; try done. by destruct (Hcl idx e' eq_refl). }
  destruct Hrest as [HG Hrest].
  destruct (at_rest_open n _ _ dim (vs_maxVectors vs) _ _ Hn Hrest Hd Hf Henc) as (ix & Hix & H1 & H2 & H3 & H4).
  unfold attach. rewrite (openFile_ok env _ _ _ _ enc vs ix Henc Hop Hd Hix).
  set (h := vs_next (set_files (name key) (crashIndex ix) vs)). set (o := new_obj (name key) ix).
  exists h, o. eexists. split; [done|].
  destruct (putEntry_spec key (setValue (VVector h) e) kv S1) as [W1 W2].
  assert (Hok : object_ok n key (or_fresh (F key) dim enc) (G key) o) by (rewrite HG; split; try done).
  assert (Hfresh : vs_objs vs !! h = None).
  { apply eq_None_not_Some. intros Hh%S6. subst h. cbn in Hh. lia. }
  assert (Hframe : framed key (kv, vs) (putEntry key (setValue (VVector h) e) kv,
    set_objs (<[h := o]> (vs_objs (set_files (name key) (crashIndex ix) vs))) (S h) (vs_disk (set_files (name key) (crashIndex ix) vs)) (set_files (name key) (crashIndex ix) vs))).
  { intros k Hkk Hne. cbn [fst snd]. split; [by rewrite W2, lookup_insert_ne|]. split.
    - cbn. apply lookup_insert_ne. intros E. apply Hne. symmetry. by apply name_inj.
    - intros e1 h1 He1 Hv1. cbn. apply lookup_insert_ne. intros <-. pose proof (S2 k Hkk) as Hh. unfold holds in Hh.
      cbn [fst snd] in Hh. rewrite He1 in Hh. destruct Hh as (_ & _ & Hh). rewrite Hv1 in Hh.
      destruct Hh as (o1 & k1 & Ho1 & _). change (vs_objs vs !! h = Some o1) in Ho1. congruence. }
  split; [|split; [|split; [|done]]].
  - split; cbn [fst snd]; try done.
    + intros k Hkk. destruct (decide (k = key)) as [->|Hne].
      * rewrite upd_eq. unfold holds. cbn [fst snd]. rewrite W2, lookup_insert_eq. split; [done|]. split; [done|]. cbn [Value setValue].
        exists o, (or_fresh (F key) dim enc). split; [|done]. cbn. by rewrite lookup_insert_eq.
      * rewrite upd_ne by done. destruct (Hframe k Hkk Hne) as (V1 & V2 & V3). by apply (holds_frame n (kv, vs)); [..|apply S2].
    + intros k e1. rewrite W2. destruct (decide (k = key)) as [->|Hne]; [done|]. rewrite lookup_insert_ne by done. apply S3.
    + intros k e1 h1. rewrite W2. destruct (decide (k = key)) as [->|Hne]; [rewrite lookup_insert_eq; by intros [= <-]|].
      rewrite lookup_insert_ne by done. apply S4.
    + assert (Hnot : ∀ k e1, view kv !! k = Some e1 → k ≠ key → Value e1 ≠ VVector h).
      { intros k e1 He1 Hne Hv1. pose proof (S4 k e1 h He1 Hv1) as Ht1. pose proof (S2 k (S3 k e1 He1 Ht1)) as Hh.
        unfold holds in Hh. cbn [fst snd] in Hh. rewrite He1, Hv1 in Hh. destruct Hh as (_ & _ & o1 & k1 & Ho1 & _). change (vs_objs vs !! h = Some o1) in Ho1. congruence. }
      intros k k' e1 e2 h1. rewrite W2.
      destruct (decide (k = key)) as [->|Hne], (decide (k' = key)) as [->|Hne']; [done|..];
        rewrite ?lookup_insert_eq, ?lookup_insert_ne by done.
      * intros [= <-] He2 [= <-] Hv2. by destruct (Hnot k' e2).
      * intros He1 [= <-] Hv1 [= <-]. by destruct (Hnot k e1).
      * apply S5.
    + intros h1. cbn. destruct (decide (h1 = h)) as [->|Hne]; [intros _; subst h; cbn; lia|].
      rewrite lookup_insert_ne by done. intros Hh%S6. subst h. cbn in *. lia.
    + by exists enc.
  - exists (setValue (VVector h) e). cbn [fst snd]. rewrite W2, lookup_insert_eq. conjs; try done. cbn. by rewrite lookup_insert_eq.
  - split; try done. cbn. by rewrite lookup_insert_eq.
Qed.

(** ** Accesses *)

(** An access that may create the index; one that is open, or whose files have
    the dimension [dim], is kept. *)
Lemma getOrCreate_closed n env st F G key dim enc :
  store_ok n st F G → 0 ≤ n → key ∈ K → e_open env (name key) = true → 1 ≤ dim →
  (∀ h o, ¬ opened st key h o) → NormalizeVectorEncoding (vs_encoding (snd st)) = Ok enc →
  v_dim (or_fresh (F key) dim enc) = dim →
  ∃ h o st', getOrCreate level pool name env key dim st = (Ok h, st') ∧
    store_ok n st' (upd key (Some (or_fresh (F key) dim enc)) F) G ∧ opened st' key h o ∧
    attached key dim st o st' ∧ (F key = None → ix_idMap (ob_index o) = ∅ ∧ ix_count (ob_index o) = 0).
Proof.
  intros Hs Hn Hk Hop Hd Hcl Henc Hf. pose proof Hs as [S1 S2 S3 S4 S5 S6 S7].
  destruct (GetForWrite_spec (e_now env) key (fst st) S1) as (W1 & W2 & W3).
  pose proof (S2 key Hk) as Hh. unfold holds in Hh. unfold getOrCreate.
  assert (Hlive : Types.live (e_now env) (view (fst st) !! key) = view (fst st) !! key).
  { destruct (view (fst st) !! key) as [e|]; [|done]. destruct Hh as (_ & Hx & _). unfold Types.live, IsExpired. by rewrite Hx. }
  rewrite Hlive in W1.
  assert (Hsame : snd (GetForWrite (e_now env) key (fst st)) = fst st).
  { unfold GetForWrite in *. rewrite view_lookup in Hh, W1 by done.
    destruct (data (getShard (fst st) key) !! key) as [e|]; [|done]. by destruct (IsExpired (e_now env) e). }
  destruct (GetForWrite (e_now env) key (fst st)) as [o kv] eqn:EW. cbn [fst snd] in W1, Hsame. subst o kv.
  destruct st as [kv vs]. cbn [fst snd] in *.
  destruct (view kv !! key) as [e|] eqn:Ee.
  - destruct Hh as (Ht & Hx & Hh). rewrite bool_decide_eq_true_2 by done. cbn [negb].
    destruct (Value e) eqn:Ev; try done.
    + destruct (attach_ok n env (kv, vs) F G key e dim enc Hs Hn Hk Hop Ht Hx) as (h & o & st' & H1 & H2 & H3 & H4); try done.
      { cbn [fst]. intros h e'. rewrite Ee. intros [= <-]. by rewrite Ev. }
      by exists h, o, st'.
    + destruct Hh as (o & k & Ho & _). destruct (Hcl idx o). by exists e.
  - destruct (attach_ok n env (kv, vs) F G key (mkEntry VNil TypeVector) dim enc Hs Hn Hk Hop) as (h & o & st' & H1 & H2 & H3 & H4); try done.
    { cbn [fst]. intros h e'. by rewrite Ee. }
    by exists h, o, st'.
Qed.

Lemma getOrCreate_opened env st key dim h o :
  kv_wf (fst st) → opened st key h o → getOrCreate level pool name env key dim st = (Ok h, st).
Proof.
  intros Hwf (e & He & Ht & Hx & Hv & Ho). unfold getOrCreate, GetForWrite. rewrite view_lookup in He by done.
  rewrite He. unfold IsExpired. rewrite Hx. cbn [Z.eqb]. rewrite bool_decide_eq_true_2 by done. cbn [negb]. rewrite Hv.
  by destruct st.
Qed.

Lemma opened_dec st key : kv_wf (fst st) → (∃ h o, opened st key h o) ∨ (∀ h o, ¬ opened st key h o).
Proof.
  intros Hwf. destruct (view (fst st) !! key) as [e|] eqn:Ee; [|right; intros h o (e & He & _); congruence].
  destruct (decide (EType e = TypeVector)) as [Ht|]; [|right; intros h o (e' & He & ? & _); congruence].
  destruct (decide (ExpiresAt e = 0)) as [Hx|]; [|right; intros h o (e' & He & ? & ? & _); congruence].
  destruct (Value e) eqn:Ev; try (right; intros h o (e' & He & _ & _ & Hv & _); congruence).
  destruct (vs_objs (snd st) !! idx) as [o|] eqn:Eo.
  - left. exists idx, o, e. done.
  - right. intros h o (e' & He & _ & _ & Hv & Ho). congruence.
Qed.

(** What reading access finds. *)
Lemma getReadOnly_ok n env st F G key :
  store_ok n st F G → 0 ≤ n → key ∈ K → e_open env (name key) = true →
  ∃ r st', getReadOnly level pool name env key st = (Ok r, st') ∧ store_ok n st' F G ∧ same_config (snd st) (snd st') ∧
    match r with
    | Some h => ∃ o, opened st' key h o
    | None => st' = st ∧ (∀ h o, ¬ opened st key h o) ∧ F key = None
    end.
Proof.
  intros Hs Hn Hk Hop. pose proof Hs as [S1 S2 S3 S4 S5 S6 [enc Henc]]. pose proof (S2 key Hk) as Hh. unfold holds in Hh.
  unfold getReadOnly. assert (Hrd : GetForRead (e_now env) key (fst st) = view (fst st) !! key).
  { unfold GetForRead. rewrite <- view_lookup by done. destruct (view (fst st) !! key) as [e|]; [|done].
    destruct Hh as (_ & Hx & _). unfold IsExpired. by rewrite Hx. }
  rewrite Hrd.
  assert (Hpers : (∀ h o, ¬ opened st key h o) → at_rest n (files (name key) (snd st)) (F key) →
    ∃ r st', openPersistedIndex level pool name env key st = (Ok r, st') ∧ store_ok n st' F G ∧ same_config (snd st) (snd st') ∧
    match r with
    | Some h => ∃ o, opened st' key h o
    | None => st' = st ∧ (∀ h o, ¬ opened st key h o) ∧ F key = None
    end).
  { intros Hcl Hr. unfold openPersistedIndex. destruct (F key) as [k|] eqn:EF; cbn [at_rest] in Hr.
    - destruct Hr as (Hd & (meta & Hm & Hmd) & _). rewrite Hm, Hmd. destruct (Z.leb_spec (v_dim k) 0); [lia|].
      destruct (getOrCreate_closed n env st F G key (v_dim k) enc Hs Hn Hk Hop Hd Hcl Henc) as (h & o & st' & E & H2 & H3 & H4 & _).
      { by rewrite EF. }
      rewrite E. exists (Some h), st'. pose proof (at_config _ _ _ _ _ H4). conjs; try done; [|by exists o]. eapply store_ok_eq; [|done|exact H2].
      intros x. unfold upd. case_decide; [by subst; rewrite EF|done].
    - destruct Hr as [-> _]. exists None, st. by conjs. }
  destruct (view (fst st) !! key) as [e|] eqn:Ee.
  - destruct Hh as (Ht & Hx & Hh). rewrite bool_decide_eq_true_2 by done. cbn [negb]. destruct (Value e) eqn:Ev; try done.
    + apply Hpers; [|by destruct Hh]. intros h o (e' & He & _ & _ & Hv & _). congruence.
    + destruct Hh as (o & k & Ho & _). exists (Some idx), st. conjs; try done. exists o, e. done.
  - apply Hpers; [|by destruct Hh]. intros h o (e' & He & _). congruence.
Qed.

(** ** Operations on one index *)
Definition vput (items : list (string * list float32)) (k : vmap) : vmap :=
  {| v_dim := v_dim k; v_enc := v_enc k; v_map := foldl (put (v_enc k)) (v_map k) items |}.
Definition vlookup (g : option vmap) (id : string) : option (list byte) := g ≫= λ k, v_map k id.
Definition vremove (id : string) (k : vmap) : vmap :=
  {| v_dim := v_dim k; v_enc := v_enc k; v_map := λ x, if decide (x = id) then None else v_map k x |}.

Lemma upd_same {A} key (F : string → A) x : upd key (F key) F x = F x.
Proof. unfold upd. case_decide; [by subst|done]. Qed.

Lemma with_index_ok n key k k' sh o ix :
  object_ok n key k sh o → index_ok level ix → ix_count ix ≤ n → describes k' ix →
  object_ok n key k' sh (with_index ix o).
Proof. by intros [H1 H2 H3 H4 H5] Hix Hc Hd; split. Qed.

(** An operation that replaces the index of an open key. *)
Lemma on_index_ok {A} n n' st F G key h o (none : res string A) f a ix k' :
  store_ok n st F G → n ≤ n' → opened st key h o → f (ob_index o) = (a, ix) →
  index_ok level ix → ix_count ix ≤ n' → describes k' ix →
  ∃ st', on_obj none (on_index f) (Ok (Some h), st) = (a, st') ∧ store_ok n' st' (upd key (Some k') F) G ∧
    opened st' key h (with_index ix o) ∧ same_config (snd st) (snd st').
Proof.
  intros Hs Hn Hop Hf Hix Hc Hd. apply (store_ok_mono _ n') in Hs; [|done].
  destruct (opened_ok _ _ _ _ _ _ _ Hs Hop) as (Hk & k & HF & Hok).
  destruct (write_obj_ok n' st F G key h o (with_index ix o) k' (G key) Hs Hop) as [H1 H2].
  { by eapply with_index_ok. }
  exists (fst st, write_obj h (with_index ix o) (snd st)). split; [|split; [|by split]].
  - unfold on_obj. destruct st as [kv vs]. destruct Hop as (e & _ & _ & _ & _ & Ho). cbn [snd] in Ho. rewrite Ho.
    unfold on_index. by rewrite Hf.
  - eapply store_ok_eq; [done| |exact H1]. intros x. symmetry. apply upd_same.
Qed.

Lemma read_index_ok {A} st key h o (none : res string A) f :
  opened st key h o → on_obj none (read_index f) (Ok (Some h), st) = (f (ob_index o), st).
Proof.
  intros (e & _ & _ & _ & _ & Ho). unfold on_obj, read_index. destruct st as [kv vs]. cbn [snd] in Ho. by rewrite Ho.
Qed.

Lemma describes_dim k ix : describes k ix → ix_dim ix = v_dim k.
Proof. by intros []. Qed.

Lemma added_describes items k ix ix' : describes k ix → added level items ix ix' → describes (vput items k) ix'.
Proof.
  intros (H1 & H2 & H3) Had. split; [by rewrite (ad_dim _ _ _ _ Had)|]. split; [by rewrite (ad_encoding _ _ _ _ Had)|].
  intros x. rewrite (ad_live _ _ _ _ Had). cbn. rewrite H2. by apply put_ext.
Qed.

(** Why an addition to an open index fails, the metadata being written. *)
Inductive add_failure (env : Env) (maxVectors dim count : Z) (k : vmap) : string → Prop :=
| af_dim : v_dim k ≠ dim → add_failure env maxVectors dim count k (dim_error (v_dim k) dim)
| af_quota : 0 < maxVectors < count → add_failure env maxVectors dim count k (quota_error maxVectors)
| af_grow e : e_grow env = false → add_failure env maxVectors dim count k e.

(** What an addition of [items] leaves. *)
Definition add_outcome (n : Z) (env : Env) (maxVectors dim : Z) (items : list (string * list float32)) (key : string)
    (count : Z) (k : vmap) (F G : string → option vmap) (r : res string unit) (st' : vstate) : Prop :=
  match r with
  | Ok _ => v_dim k = dim ∧ store_ok n st' (upd key (Some (vput items k)) F) G
  | Err e => store_ok n st' F G ∧ add_failure env maxVectors dim count k e
  | Panic => False
  end.

Lemma add_finish n env maxVectors st F G key h o k items dim count f err ix :
  store_ok n st F G → opened st key h o → F key = Some k →
  f (ob_index o) = added_result (err, ix) →
  match err with
  | None => ix_dim (ob_index o) = dim ∧ added level items (ob_index o) ix
  | Some e => ix = ob_index o ∧ add_failure env maxVectors dim count k e
  end →
  ∃ r st', on_obj Panic (on_index f) (Ok (Some h), st) = (r, st') ∧ same_config (snd st) (snd st') ∧
    add_outcome (n + zlen items) env maxVectors dim items key count k F G r st'.
Proof.
  intros Hs Hop HF Hf Hspec. pose proof (zlen_nonneg items) as Hz.
  destruct (opened_ok _ _ _ _ _ _ _ Hs Hop) as (Hk & k0 & HF0 & [O1 O2 O3 O4 O5]). assert (k0 = k) as -> by congruence.
  destruct err as [e|].
  - destruct Hspec as [-> Hwhy].
    destruct (on_index_ok n (n + zlen items) st F G key h o Panic f (Err e) (ob_index o) k Hs ltac:(lia) Hop Hf O2 ltac:(lia) O4)
      as (st' & H1 & H2 & _ & H4).
    exists (Err e), st'. split; [done|]. split; [done|]. split; [|done]. eapply store_ok_eq; [|done|exact H2].
    intros x. rewrite <- HF. symmetry. apply upd_same.
  - destruct Hspec as [Hd Had]. pose proof (new_ids_few (ob_index o) items.*1) as Hfew. rewrite length_fmap in Hfew.
    destruct (on_index_ok n (n + zlen items) st F G key h o Panic f (Ok tt) ix (vput items k) Hs ltac:(lia) Hop Hf)
      as (st' & H1 & H2 & _ & H4); [apply Had|rewrite (ad_count _ _ _ _ Had); unfold zlen; lia|by eapply added_describes|].
    exists (Ok tt), st'. split; [done|]. split; [done|]. split; [|done]. by rewrite <- Hd, (describes_dim _ _ O4).
Qed.

Lemma VAdd_opened n env st F G key h o k id vec :
  store_ok n st F G → n < 2 ^ 62 → opened st key h o → F key = Some k → e_meta env = true → validateVector id vec = Ok tt →
  ∃ r st', VAdd level pool name env key id vec st = (r, st') ∧ same_config (snd st) (snd st') ∧
    add_outcome (n + 1) env (vs_maxVectors (snd st)) (zlen vec) [(id, vec)] key
      (ix_count (ob_index o) + Z.of_nat (size (new_ids (ob_index o) [id]))) k F G r st'.
Proof.
  intros Hs Hn Hop HF Hm Hv. unfold VAdd. rewrite Hv, (getOrCreate_opened env st key _ h o (so_wf _ _ _ _ Hs) Hop).
  destruct (opened_ok _ _ _ _ _ _ _ Hs Hop) as (Hk & k0 & HF0 & [O1 O2 O3 O4 O5]). assert (k0 = k) as -> by congruence.
  pose proof (addVector_spec level pool level_ok pool_ok (vs_maxVectors (snd st)) (e_grow env) (e_recent env) (e_meta env)
    id vec (ob_index o) O2 ltac:(lia)) as Hspec.
  destruct (addVector level pool (vs_maxVectors (snd st)) (e_grow env) (e_recent env) (e_meta env) id vec (ob_index o))
    as [err ix] eqn:Ea.
  destruct (add_finish n env (vs_maxVectors (snd st)) st F G key h o k [(id, vec)] (zlen vec)
    (ix_count (ob_index o) + Z.of_nat (size (new_ids (ob_index o) [id])))
    (λ ix, added_result (addVector level pool (vs_maxVectors (snd st)) (e_grow env) (e_recent env) (e_meta env) id vec ix))
    err ix Hs Hop HF ltac:(cbv beta; by rewrite Ea)) as (r & st' & H1 & H2).
  - destruct err as [e|]; [|done]. destruct Hspec as [[-> Hwhy]|[Hbad _]]; [|congruence]. split; [done|].
    rewrite (describes_dim _ _ O4) in Hwhy. destruct Hwhy as [[-> ?]|[(-> & ? & Hnone)|[? _]]]; [by apply af_dim| |by apply af_grow].
    apply af_quota. assert (0 < size (new_ids (ob_index o) [id]))%nat; [|lia].
    apply Nat.neq_0_lt_0. intros E%size_empty_inv.
    assert (Hin : id ∈ new_ids (ob_index o) [id]) by (apply new_ids_elem; split; [by left|done]).
    rewrite E in Hin. by apply not_elem_of_empty in Hin.
  - exists r, st'. split; [|done]. rewrite <- H1. by destruct st.
Qed.

Lemma validateBatch_dims dim ids vecs :
  validateBatch dim ids vecs = Ok tt → zlen ids = zlen vecs ∧ 1 ≤ dim ∧ Forall (λ it, zlen it.2 = dim) (zip ids vecs).
Proof.
  unfold validateBatch. destruct (Z.eqb_spec (zlen ids) (zlen vecs)) as [Hl|]; [|done]. cbn [negb].
  destruct (zlen ids >? maxVectorBatch); [done|]. destruct ((dim <=? 0) || (dim >? maxVectorDimensions)) eqn:Ed; [done|].
  intros H. split; [done|]. split; [lia|]. clear Hl Ed. revert H. generalize (zip ids vecs). clear ids vecs.
  assert (Hstop : ∀ items e, foldl (λ r '(id, vec), let? _ := r in
    if negb (zlen vec =? dim) then Err "dimension mismatch in batch"%string else validateVector id vec) (Err e) items = Err e)
    by (induction items as [|[] items IH]; intros e; [done|apply IH]).
  assert (Hpanic : ∀ items, foldl (λ r '(id, vec), let? _ := r in
    if negb (zlen vec =? dim) then Err "dimension mismatch in batch"%string else validateVector id vec) Panic items = Panic)
    by (induction items as [|[] items IH]; [done|apply IH]).
  induction l as [|[id vec] l IH]; [constructor|]. cbn [foldl rbind].
  destruct (Z.eqb_spec (zlen vec) dim) as [E|E]; cbn [negb]; [|by rewrite Hstop].
  destruct (validateVector id vec) as [[]| |]; [|by rewrite Hstop|by rewrite Hpanic]. intros H. constructor; [done|by apply IH].
Qed.

Lemma VAddBatch_opened n env st F G key h o k dim ids vecs :
  store_ok n st F G → n + zlen ids ≤ 2 ^ 62 → opened st key h o → F key = Some k → e_meta env = true → zlen ids ≠ 0 →
  validateBatch dim ids vecs = Ok tt →
  ∃ r st', VAddBatch level pool name env key dim ids vecs st = (r, st') ∧ same_config (snd st) (snd st') ∧
    add_outcome (n + zlen ids) env (vs_maxVectors (snd st)) dim (zip ids vecs) key
      (ix_count (ob_index o) + Z.of_nat (size (new_ids (ob_index o) ids))) k F G r st'.
Proof.
  intros Hs Hn Hop HF Hm H0 Hv. destruct (validateBatch_dims dim ids vecs Hv) as (Hl & Hd & HFa).
  unfold VAddBatch. destruct (Z.eqb_spec (zlen ids) (zlen vecs)); [|done]. cbn [negb].
  destruct (Z.eqb_spec (zlen ids) 0); [done|]. rewrite Hv, (getOrCreate_opened env st key _ h o (so_wf _ _ _ _ Hs) Hop).
  destruct (opened_ok _ _ _ _ _ _ _ Hs Hop) as (Hk & k0 & HF0 & [O1 O2 O3 O4 O5]). assert (k0 = k) as -> by congruence.
  assert (Hfst : (zip ids vecs).*1 = ids) by (apply fst_zip; unfold zlen in *; lia).
  assert (Hzip : zlen (zip ids vecs) = zlen ids) by (unfold zlen in *; rewrite length_zip; lia).
  pose proof (new_ids_few (ob_index o) ids) as Hfew.
  pose proof (addBatch_spec level pool level_ok pool_ok (vs_maxVectors (snd st)) (e_grow env) (e_recent env) (e_meta env)
    dim (zip ids vecs) (ob_index o) O2 HFa) as Hspec. cbv zeta in Hspec. rewrite Hfst in Hspec.
  specialize (Hspec ltac:(unfold zlen in *; lia)).
  destruct (addBatch level pool (vs_maxVectors (snd st)) (e_grow env) (e_recent env) (e_meta env) dim (zip ids vecs) (ob_index o))
    as [err ix] eqn:Ea.
  destruct (add_finish n env (vs_maxVectors (snd st)) st F G key h o k (zip ids vecs) dim
    (ix_count (ob_index o) + Z.of_nat (size (new_ids (ob_index o) ids)))
    (λ ix, added_result (addBatch level pool (vs_maxVectors (snd st)) (e_grow env) (e_recent env) (e_meta env) dim (zip ids vecs) ix))
    err ix Hs Hop HF ltac:(cbv beta; by rewrite Ea)) as (r & st' & H1 & H2).
  - destruct err as [er|]; [|by destruct Hspec as (? & ? & ?)]. destruct Hspec as [[-> Hwhy]|[Hbad _]]; [|congruence]. split; [done|].
    rewrite (describes_dim _ _ O4) in Hwhy. destruct Hwhy as [[-> ?]|[(-> & ?)|[? _]]]; [by apply af_dim|by apply af_quota|by apply af_grow].
  - exists r, st'. rewrite Hzip in H2. split; [|done]. rewrite <- H1. by destruct st.
Qed.

(** ** Additions that were admitted *)
Lemma getOrCreate_again env st key dim h o st1 :
  kv_wf (fst st1) → getOrCreate level pool name env key dim st = (Ok h, st1) → opened st1 key h o →
  getOrCreate level pool name env key dim st = getOrCreate level pool name env key dim st1.
Proof. intros Hwf -> Hop. by rewrite (getOrCreate_opened env st1 key dim h o). Qed.

Definition within (maxVectors count : Z) : Prop := maxVectors ≤ 0 ∨ count ≤ maxVectors.

(** What a successful admission says of the key, in the state it leaves. *)
Inductive admitted (st : vstate) (F : string → option vmap) (key : string) (dim : Z) (ids : list string) : Prop :=
| ad_open h o k : opened st key h o → F key = Some k → v_dim k = dim →
    within (vs_maxVectors (snd st)) (ix_count (ob_index o) + Z.of_nat (size (new_ids (ob_index o) ids))) →
    admitted st F key dim ids
| ad_new : (∀ h o, ¬ opened st key h o) → F key = None →
    within (vs_maxVectors (snd st)) (Z.of_nat (size (list_to_set ids : gset string))) → admitted st F key dim ids.

Lemma admission_within key dim ids usage vs oix :
  admission key dim ids usage vs oix = Ok tt →
  match oix with
  | Some ix => ix_dim ix = dim ∧ within (vs_maxVectors vs) (ix_count ix + Z.of_nat (size (new_ids ix ids)))
  | None => within (vs_maxVectors vs) (Z.of_nat (size (list_to_set ids : gset string)))
  end.
Proof.
  unfold admission, within. destruct oix as [ix|].
  - destruct (Z.eqb_spec (ix_dim ix) dim) as [Hd|]; [|done]. cbn [negb rbind].
    destruct ((vs_maxVectors vs >? 0) && (ix_count ix + Z.of_nat (size (new_ids ix ids)) >? vs_maxVectors vs)) eqn:E; [done|].
    intros _. split; [done|]. lia.
  - cbn [rbind]. destruct ((vs_maxVectors vs >? 0) && (0 + Z.of_nat (size (list_to_set ids : gset string)) >? vs_maxVectors vs)) eqn:E; [done|].
    intros _. lia.
Qed.

Lemma admission_no_panic key dim ids usage vs oix : admission key dim ids usage vs oix ≠ Panic.
Proof.
  unfold admission. destruct oix as [ix|]; [destruct (negb (ix_dim ix =? dim)); [done|]|]; cbn [rbind]; by repeat case_match.
Qed.

Lemma validateBatchCapacity_ok n env st F G key dim ids :
  store_ok n st F G → 0 ≤ n → key ∈ K → e_open env (name key) = true →
  ∃ r st', validateBatchCapacity level pool name env key dim ids st = (r, st') ∧ store_ok n st' F G ∧
    same_config (snd st) (snd st') ∧ r ≠ Panic ∧ (r = Ok tt → admitted st' F key dim ids).
Proof.
  intros Hs Hn Hk Hop. unfold validateBatchCapacity. set (usage := _ + _).
  destruct (getReadOnly_ok n env st F G key Hs Hn Hk Hop) as (r & st' & -> & Hs' & Hc & Hr). destruct r as [h|].
  - destruct Hr as [o Ho]. destruct (opened_ok _ _ _ _ _ _ _ Hs' Ho) as (_ & k & HF & Hok).
    exists (admission key dim ids usage (snd st') (Some (ob_index o))), st'. conjs; try done.
    + pose proof Ho as (e & _ & _ & _ & _ & Hobj). unfold on_obj. destruct st' as [kv vs]. cbn [snd] in Hobj. by rewrite Hobj.
    + apply admission_no_panic.
    + intros [Hd Hw]%admission_within. eapply ad_open; [done..| |done].
      by rewrite <- (describes_dim _ _ (oo_describes _ _ _ _ _ Hok)).
  - destruct Hr as (-> & Hcl & HF). exists (admission key dim ids usage (snd st) None), st. conjs; try done.
    + apply admission_no_panic.
    + intros Hw%admission_within. by apply ad_new.
Qed.

(** [VADD] and [VADD_BATCH] as the executor runs them: admission, then the
    addition. *)
Definition vadd (env : Env) (key id : string) (vec : list float32) (st : vstate) : res string unit * vstate :=
  match ValidateAdd level pool name env key id vec st with
  | (Ok _, st) => VAdd level pool name env key id vec st
  | r => r
  end.
Definition vadd_batch (env : Env) (key : string) (dim : Z) (ids : list string) (vecs : list (list float32)) (st : vstate)
    : res string unit * vstate :=
  match ValidateAddBatch level pool name env key dim ids vecs st with
  | (Ok _, st) => VAddBatch level pool name env key dim ids vecs st
  | r => r
  end.

(** The index an addition works on. *)
Lemma admitted_open n env st F G key dim ids enc :
  store_ok n st F G → 0 ≤ n → key ∈ K → e_open env (name key) = true → 1 ≤ dim →
  NormalizeVectorEncoding (vs_encoding (snd st)) = Ok enc → admitted st F key dim ids →
  let k := or_fresh (F key) dim enc in
  v_dim k = dim ∧
  ∃ h o st1, getOrCreate level pool name env key dim st = (Ok h, st1) ∧ opened st1 key h o ∧
    store_ok n st1 (upd key (Some k) F) G ∧ same_config (snd st) (snd st1) ∧
    within (vs_maxVectors (snd st)) (ix_count (ob_index o) + Z.of_nat (size (new_ids (ob_index o) ids))).
Proof.
  intros Hs Hn Hk Hop Hd Henc [h o k Ho HF Hdim Hw|Hcl HF Hw]; rewrite HF; cbn.
  - split; [done|]. exists h, o, st. rewrite (getOrCreate_opened env st key dim h o (so_wf _ _ _ _ Hs) Ho). conjs; try done.
    eapply store_ok_eq; [|done|exact Hs]. intros x. rewrite <- HF. apply upd_same.
  - split; [done|].
    destruct (getOrCreate_closed n env st F G key dim enc Hs Hn Hk Hop Hd Hcl Henc) as (h & o & st1 & H1 & H2 & H3 & H4 & H5);
      [by rewrite HF|]. rewrite HF in H2. pose proof (at_config _ _ _ _ _ H4). exists h, o, st1. conjs; try done.
    destruct (H5 HF) as [N3 N1]. rewrite N1. unfold new_ids. rewrite N3.
    assert (Hids : List.filter (λ id, negb (bool_decide (is_Some ((∅ : gmap string Z) !! id)))) ids = ids)
      by (clear; induction ids as [|id ids IH]; [done|]; cbn; by rewrite IH).
    by rewrite Hids.
Qed.

Lemma upd_upd {A} key (a b : A) F x : upd key a (upd key b F) x = upd key a F x.
Proof. unfold upd. by case_decide. Qed.

(** An admitted addition fails only when the file cannot grow. *)
Definition admitted_effect (n : Z) (env : Env) (key : string) (dim : Z) (enc : string) (items : list (string * list float32))
    (F G : string → option vmap) (r : res string unit) (st' : vstate) : Prop :=
  let k := or_fresh (F key) dim enc in
  match r with
  | Ok _ => v_dim k = dim ∧ store_ok n st' (upd key (Some (vput items k)) F) G
  | Err _ => e_grow env = false ∧ store_ok n st' (upd key (Some k) F) G
  | Panic => False
  end.

(** The effect of an addition by the result [adm] of its admission: an error of the
    admission is the answer and changes nothing. *)
Definition add_effect (adm : res string unit) (n : Z) (env : Env) (key : string) (dim : Z) (enc : string)
    (items : list (string * list float32)) (F G : string → option vmap) (r : res string unit) (st' : vstate) : Prop :=
  match adm with
  | Ok _ => admitted_effect n env key dim enc items F G r st'
  | Err e => r = Err e ∧ store_ok n st' F G
  | Panic => False
  end.

Lemma outcome_effect n env maxVectors key dim enc items count F G r st' :
  within maxVectors count → v_dim (or_fresh (F key) dim enc) = dim →
  add_outcome n env maxVectors dim items key count (or_fresh (F key) dim enc) (upd key (Some (or_fresh (F key) dim enc)) F) G r st' →
  admitted_effect n env key dim enc items F G r st'.
Proof.
  intros Hw Hd. unfold add_outcome, admitted_effect. destruct r as [u|e|]; [|intros [Hs Hf]|done].
  - intros [_ Hs]. split; [done|]. eapply store_ok_eq; [|done|exact Hs]. intros x. symmetry. apply upd_upd.
  - split; [|done]. destruct Hf as [?|?|?]; [done| |done]. unfold within in Hw. lia.
Qed.

Lemma validateVector_dim id vec : validateVector id vec = Ok tt → 1 ≤ zlen vec.
Proof.
  unfold validateVector. destruct (_ || _); [done|]. pose proof (zlen_nonneg vec).
  destruct (Z.eqb_spec (zlen vec) 0); [done|]. lia.
Qed.

Lemma admitted_add n env st F G key id vec enc :
  store_ok n st F G → 0 ≤ n < 2 ^ 62 → key ∈ K → e_open env (name key) = true → e_meta env = true →
  NormalizeVectorEncoding (vs_encoding (snd st)) = Ok enc → validateVector id vec = Ok tt → admitted st F key (zlen vec) [id] →
  ∃ r st', VAdd level pool name env key id vec st = (r, st') ∧ same_config (snd st) (snd st') ∧
    admitted_effect (n + 1) env key (zlen vec) enc [(id, vec)] F G r st'.
Proof.
  intros Hs Hn Hk Hop Hm Henc Ev Had.
  destruct (admitted_open n env st F G key (zlen vec) [id] enc Hs ltac:(lia) Hk Hop (validateVector_dim _ _ Ev) Henc Had) as (Hd & h & o & st2 & E & Ho & Hs2 & Hc2 & Hw).
  destruct (VAdd_opened n env st2 _ G key h o (or_fresh (F key) (zlen vec) enc) id vec Hs2 ltac:(lia) Ho ltac:(apply upd_eq) Hm Ev)
    as (r & st' & Hr & Hc3 & Hout).
  exists r, st'. split; [|split; [by eapply same_config_trans|]].
  - rewrite <- Hr. unfold VAdd. by rewrite Ev, (getOrCreate_again env st key (zlen vec) h o st2 (so_wf _ _ _ _ Hs2) E Ho).
  - eapply outcome_effect; [|done|exact Hout]. by destruct Hc2 as (-> & _).
Qed.

Lemma vadd_ok n env st F G key id vec enc :
  store_ok n st F G → 0 ≤ n < 2 ^ 62 → key ∈ K → e_open env (name key) = true → e_meta env = true →
  NormalizeVectorEncoding (vs_encoding (snd st)) = Ok enc →
  ∃ r st', vadd env key id vec st = (r, st') ∧ same_config (snd st) (snd st') ∧
    add_effect (fst (ValidateAdd level pool name env key id vec st)) (n + 1) env key (zlen vec) enc [(id, vec)] F G r st'.
Proof.
  intros Hs Hn Hk Hop Hm Henc. unfold vadd, ValidateAdd. destruct (validateVector id vec) as [[]|e|] eqn:Ev.
  - destruct (validateBatchCapacity_ok n env st F G key (zlen vec) [id] Hs ltac:(lia) Hk Hop) as (r & st1 & -> & Hs1 & Hc1 & Hp & Had).
    destruct r as [[]|e|]; [|exists (Err e), st1; conjs; try done; split; [done|]; eapply store_ok_mono; [|exact Hs1]; lia|done].
    destruct (admitted_add n env st1 F G key id vec enc Hs1 Hn Hk Hop Hm) as (r & st' & E & Hc2 & Hout);
      [by destruct Hc1 as (_ & _ & ->)|done|by apply Had|].
    exists r, st'. split; [done|]. split; [by eapply same_config_trans|done].
  - exists (Err e), st. conjs; try done. split; [done|]. eapply store_ok_mono; [|exact Hs]. lia.
  - exfalso. revert Ev. unfold validateVector. by repeat case_match.
Qed.

Lemma validateBatch_no_panic dim ids vecs : validateBatch dim ids vecs ≠ Panic.
Proof.
  unfold validateBatch. destruct (negb _); [done|]. destruct (_ >? _); [done|]. destruct (_ || _); [done|].
  assert (∀ items r, r ≠ Panic → foldl (λ r '(id, vec), let? _ := r in
    if negb (zlen vec =? dim) then Err "dimension mismatch in batch"%string else validateVector id vec) r items ≠ Panic) as Hf.
  { induction items as [|[id vec] items IH]; intros r Hr; [done|]. cbn [foldl]. apply IH. destruct r as [[]| |]; try done. cbn [rbind].
    destruct (negb _); [done|]. unfold validateVector. by repeat case_match. }
  by apply Hf.
Qed.

Lemma admitted_batch n env st F G key dim ids vecs enc :
  store_ok n st F G → 0 ≤ n → n + zlen ids ≤ 2 ^ 62 → key ∈ K → e_open env (name key) = true → e_meta env = true →
  NormalizeVectorEncoding (vs_encoding (snd st)) = Ok enc → zlen ids ≠ 0 → validateBatch dim ids vecs = Ok tt → admitted st F key dim ids →
  ∃ r st', VAddBatch level pool name env key dim ids vecs st = (r, st') ∧ same_config (snd st) (snd st') ∧
    admitted_effect (n + zlen ids) env key dim enc (zip ids vecs) F G r st'.
Proof.
  intros Hs Hn Hb Hk Hop Hm Henc H0 Ev Had. destruct (validateBatch_dims _ _ _ Ev) as (Hl & Hd1 & _).
  destruct (admitted_open n env st F G key dim ids enc Hs Hn Hk Hop Hd1 Henc Had) as (Hd & h & o & st2 & E & Ho & Hs2 & Hc2 & Hw).
  destruct (VAddBatch_opened n env st2 _ G key h o (or_fresh (F key) dim enc) dim ids vecs Hs2 Hb Ho ltac:(apply upd_eq) Hm H0 Ev)
    as (r & st' & Hr & Hc3 & Hout).
  exists r, st'. split; [|split; [by eapply same_config_trans|]].
  - rewrite <- Hr. unfold VAddBatch. replace (zlen ids =? zlen vecs) with true by lia. replace (zlen ids =? 0) with false by lia.
    by rewrite Ev, (getOrCreate_again env st key dim h o st2 (so_wf _ _ _ _ Hs2) E Ho).
  - eapply outcome_effect; [|done|exact Hout]. by destruct Hc2 as (-> & _).
Qed.

Lemma vadd_batch_ok n env st F G key dim ids vecs enc :
  store_ok n st F G → 0 ≤ n → n + zlen ids ≤ 2 ^ 62 → key ∈ K → e_open env (name key) = true → e_meta env = true →
  NormalizeVectorEncoding (vs_encoding (snd st)) = Ok enc →
  ∃ r st', vadd_batch env key dim ids vecs st = (r, st') ∧ same_config (snd st) (snd st') ∧
    add_effect (fst (ValidateAddBatch level pool name env key dim ids vecs st)) (n + zlen ids) env key dim enc (zip ids vecs) F G r st'.
Proof.
  intros Hs Hn Hb Hk Hop Hm Henc. pose proof (zlen_nonneg ids). unfold vadd_batch, ValidateAddBatch.
  assert (Herr : ∀ e st1, store_ok n st1 F G → same_config (snd st) (snd st1) →
    ∃ r st', (Err e : res string unit, st1) = (r, st') ∧ same_config (snd st) (snd st') ∧
      add_effect (Err e) (n + zlen ids) env key dim enc (zip ids vecs) F G r st').
  { intros e st1 Hs1 Hc1. exists (Err e), st1. conjs; try done. split; [done|]. eapply store_ok_mono; [|exact Hs1]. lia. }
  destruct (negb (zlen ids =? zlen vecs) || (zlen ids =? 0) || (zlen ids >? maxVectorBatch)) eqn:Eg; [by apply Herr|].
  destruct (validateBatch dim ids vecs) as [[]|e|] eqn:Ev; [|by apply Herr|by destruct (validateBatch_no_panic dim ids vecs)].
  destruct (validateBatchCapacity_ok n env st F G key dim ids Hs Hn Hk Hop) as (r & st1 & -> & Hs1 & Hc1 & Hp & Had).
  destruct r as [[]|e|]; [|by apply Herr|done].
  destruct (admitted_batch n env st1 F G key dim ids vecs enc Hs1 Hn Hb Hk Hop Hm) as (r & st' & E & Hc2 & Hout);
    [by destruct Hc1 as (_ & _ & ->)|lia|done|by apply Had|].
  exists r, st'. split; [done|]. split; [by eapply same_config_trans|done].
Qed.

(** ** Deleting, compacting, reading *)
Lemma VDel_ok n env st F G key id :
  store_ok n st F G → 0 ≤ n → key ∈ K → e_open env (name key) = true →
  ∃ r st', VDel level pool name env key id st = (r, st') ∧ same_config (snd st) (snd st') ∧
    match r with
    | Ok b => b = bool_decide (is_Some (vlookup (F key) id)) ∧
              store_ok n st' (upd key (vremove id <$> F key) F) G
    | Err _ => e_meta env = false ∧ store_ok n st' F G
    | Panic => False
    end.
Proof.
  intros Hs Hn Hk Hop. unfold VDel. destruct (getReadOnly_ok n env st F G key Hs Hn Hk Hop) as (r & st1 & -> & Hs1 & Hc & Hr).
  destruct r as [h|].
  - destruct Hr as [o Ho]. destruct (opened_ok _ _ _ _ _ _ _ Hs1 Ho) as (_ & k & HF & [O1 O2 O3 (D1 & D2 & D3) O5]).
    pose proof (deleteVector_spec level (e_meta env) id (ob_index o) O2) as Hspec.
    destruct (deleteVector (e_meta env) id (ob_index o)) as [r ix] eqn:Ed. destruct Hspec as (H1 & H2 & H3 & H4 & H5).
    destruct r as [b|e|]; [| |done].
    + destruct H5 as (-> & Hl & _).
      destruct (on_index_ok n n st1 F G key h o (Ok false) (deleteVector (e_meta env) id) _ ix (vremove id k) Hs1 ltac:(lia) Ho Ed H1 ltac:(lia))
        as (st' & E & Hs' & _ & Hc').
      { split; [by rewrite H3|]. split; [by rewrite H4|]. intros x. rewrite Hl. cbn. case_decide; [done|apply D3]. }
      eexists _, st'. split; [exact E|]. split; [by eapply same_config_trans|]. rewrite HF. split; [|done].
      unfold vlookup. cbn. by rewrite D3.
    + destruct H5 as [Hm Hl].
      destruct (on_index_ok n n st1 F G key h o (Ok false) (deleteVector (e_meta env) id) _ ix k Hs1 ltac:(lia) Ho Ed H1 ltac:(lia))
        as (st' & E & Hs' & _ & Hc').
      { split; [by rewrite H3|]. split; [by rewrite H4|]. intros x. by rewrite Hl. }
      eexists _, st'. split; [exact E|]. split; [by eapply same_config_trans|]. split; [done|].
      eapply store_ok_eq; [|done|exact Hs']. intros x. rewrite <- HF. symmetry. apply upd_same.
  - destruct Hr as (-> & Hcl & HF). exists (Ok false), st. split; [done|]. split; [done|]. rewrite HF. split; [done|].
    eapply store_ok_eq; [|done|exact Hs]. intros x. unfold upd. case_decide; [by subst; rewrite HF|done].
Qed.

Lemma VCompact_ok n env st F G key :
  store_ok n st F G → 0 ≤ n ≤ 2 ^ 62 → key ∈ K → e_open env (name key) = true →
  ∃ r st', VCompact level pool name env key st = (r, st') ∧
    match r with
    | Ok c => same_config (snd st) (snd st') ∧ 0 ≤ c ∧ store_ok n st' F G
    | Err _ => e_flush env && e_meta env && e_hnsw env = false
    | Panic => False
    end.
Proof.
  intros Hs Hn Hk Hop. unfold VCompact. destruct (getReadOnly_ok n env st F G key Hs ltac:(lia) Hk Hop) as (r & st1 & -> & Hs1 & Hc & Hr).
  destruct r as [h|].
  - destruct Hr as [o Ho]. destruct (opened_ok _ _ _ _ _ _ _ Hs1 Ho) as (_ & k & HF & [O1 O2 O3 (D1 & D2 & D3) O5]).
    pose proof (compact_spec level pool (e_flush env) (e_meta env) (e_hnsw env) (ob_index o) level_ok pool_ok O2 ltac:(lia)) as Hspec.
    destruct (compact level pool (e_flush env) (e_meta env) (e_hnsw env) (ob_index o)) as [r ix] eqn:Ed. destruct Hspec as (H1 & H2 & H3 & H4).
    destruct r as [c|e|]; [| |done].
    + destruct H4 as (H4 & -> & H6 & _).
      assert (Hlen : ix_count ix ≤ ix_count (ob_index o)).
      { rewrite H6, (to_count _ (io_tables _ _ O2)). unfold zlen. pose proof (length_live_rows (ob_index o)). lia. }
      destruct (on_index_ok n n st1 F G key h o (Ok 0) (compact level pool (e_flush env) (e_meta env) (e_hnsw env)) _ ix k Hs1 ltac:(lia) Ho Ed H4 ltac:(lia))
        as (st' & E & Hs' & _ & Hc').
      { split; [by rewrite H2|]. split; [by rewrite H3|]. intros x. by rewrite H1. }
      eexists _, st'. split; [exact E|]. split; [by eapply same_config_trans|]. split; [lia|].
      eapply store_ok_eq; [|done|exact Hs']. intros x. rewrite <- HF. symmetry. apply upd_same.
    + pose proof Ho as (e0 & _ & _ & _ & _ & Hobj). destruct st1 as [kv vs]. cbn [snd] in Hobj.
      exists (Err e), (kv, write_obj h (with_index ix o) vs). split; [|apply H4]. unfold on_obj. rewrite Hobj. unfold on_index. by rewrite Ed.
  - destruct Hr as (-> & Hcl & HF). exists (Ok 0), st. by conjs.
Qed.

Lemma SetEfSearch_ok n env st F G key ef :
  store_ok n st F G → 0 ≤ n → key ∈ K → e_open env (name key) = true →
  ∃ st', SetEfSearch level pool name env key ef st = (Ok tt, st') ∧ same_config (snd st) (snd st') ∧ store_ok n st' F G.
Proof.
  intros Hs Hn Hk Hop. unfold SetEfSearch. destruct (getReadOnly_ok n env st F G key Hs Hn Hk Hop) as (r & st1 & -> & Hs1 & Hc & Hr).
  destruct r as [h|].
  - destruct Hr as [o Ho]. destruct (opened_ok _ _ _ _ _ _ _ Hs1 Ho) as (_ & k & HF & [O1 O2 O3 O4 O5]).
    destruct (on_index_ok n n st1 F G key h o (Ok tt) (λ ix, (Ok tt, setEfSearch ef ix)) (Ok tt) (setEfSearch ef (ob_index o)) k Hs1 ltac:(lia) Ho eq_refl)
      as (st' & E & Hs' & _ & Hc'); [by apply setEfSearch_ok|done|done|].
    exists st'. split; [exact E|]. split; [by eapply same_config_trans|].
    eapply store_ok_eq; [|done|exact Hs']. intros x. rewrite <- HF. symmetry. apply upd_same.
  - destruct Hr as (-> & Hcl & HF). by exists st.
Qed.

Lemma GetVector_ok n env st F G key id :
  store_ok n st F G → 0 ≤ n → key ∈ K → e_open env (name key) = true →
  ∃ st', GetVector level pool name env key id st =
    (match F key with
     | Some k => match v_map k id with
                 | Some bs => Ok (decodeRow (v_enc k) (v_dim k) bs)
                 | None => Err "vector id not found"%string
                 end
     | None => Err "vector id not found"%string
     end, st') ∧ same_config (snd st) (snd st') ∧ store_ok n st' F G.
Proof.
  intros Hs Hn Hk Hop. unfold GetVector. destruct (getReadOnly_ok n env st F G key Hs Hn Hk Hop) as (r & st1 & -> & Hs1 & Hc & Hr).
  destruct r as [h|].
  - destruct Hr as [o Ho]. destruct (opened_ok _ _ _ _ _ _ _ Hs1 Ho) as (_ & k & HF & [O1 O2 O3 (D1 & D2 & D3) O5]).
    exists st1. split; [|done]. rewrite (read_index_ok st1 key h o) by done. rewrite (getVector_spec _ _ (io_tables _ _ O2)), HF, D3, D1, D2. done.
  - destruct Hr as (-> & Hcl & HF). exists st. rewrite HF. by conjs.
Qed.

(** An answer of a search, in terms of the contents of the key. *)
Definition vanswer (query : list single) (opts : SearchOpts) (k : vmap) (r : SearchResult) : Prop :=
  ∃ bs, v_map k (r_ID r) = Some bs ∧ r_Score r = row_score (v_enc k) query (v_dim k) bs ∧
    (o_ExcludeID opts = ""%string ∨ r_ID r ≠ o_ExcludeID opts) ∧
    match o_Filter opts with None => true | Some f => f (r_ID r) end = true ∧
    (o_HasMinScore opts = true → SFltb (r_Score r) (o_MinScore opts) = false).

Lemma VSearchOpts_ok n env st F G key query opts :
  store_ok n st F G → 0 ≤ n → key ∈ K → e_open env (name key) = true →
  ∃ r st', VSearchOpts level pool name env key query opts st = (r, st') ∧ same_config (snd st) (snd st') ∧ store_ok n st' F G ∧
    match F key with
    | None => r = Ok []
    | Some k =>
        (v_dim k ≠ zlen query ∧ (r = Err (dim_error (v_dim k) (zlen query)) ∨ r = Ok [])) ∨
        (v_dim k = zlen query ∧ r = Panic ∧ 2 ^ 41 < o_K opts) ∨
        (v_dim k = zlen query ∧ ∃ l, r = Ok l ∧ zlen l ≤ Z.max 0 (o_K opts) ∧ NoDup (r_ID <$> l) ∧
           StronglySorted best_first l ∧ ∀ x, x ∈ l → vanswer query opts k x)
    end.
Proof.
  intros Hs Hn Hk Hop. unfold VSearchOpts. destruct (getReadOnly_ok n env st F G key Hs Hn Hk Hop) as (r & st1 & -> & Hs1 & Hc & Hr).
  destruct r as [h|].
  - destruct Hr as [o Ho]. destruct (opened_ok _ _ _ _ _ _ _ Hs1 Ho) as (_ & k & HF & [O1 O2 O3 (D1 & D2 & D3) O5]).
    eexists _, st1. split; [by apply (read_index_ok st1 key h o)|]. split; [done|]. split; [done|]. rewrite HF.
    destruct (decide (v_dim k = zlen query)) as [Hd|Hd].
    + right. rewrite <- D1 in Hd.
      assert (Hdec : searchIndex pool query opts (ob_index o) = Panic ∨ searchIndex pool query opts (ob_index o) ≠ Panic)
        by (destruct (searchIndex pool query opts (ob_index o)); auto).
      destruct Hdec as [Hpan|Hpan].
      { left. split; [congruence|]. split; [done|]. apply Z.nle_gt. intros Hle.
        by apply (searchIndex_fits level pool query opts (ob_index o) O2 (eq_sym Hd) Hle). }
      right. split; [congruence|].
      destruct (searchIndex_spec level pool query opts (ob_index o) pool_ok O2 (eq_sym Hd) Hpan) as (l & -> & H1 & H2 & H3 & H4 & _).
      exists l. conjs; try done. intros x Hx. destruct (H4 x Hx) as (bs & B1 & B2 & B3). exists bs. rewrite <- D3, <- D1, <- D2. exact (conj B1 (conj B2 B3)).
    + left. split; [done|]. unfold searchIndex. rewrite D1. destruct (ix_count (ob_index o) =? 0); [by right|].
      destruct (Z.eqb_spec (zlen query) (v_dim k)); [done|]. by left.
  - destruct Hr as (-> & Hcl & HF). exists (Ok []), st. rewrite HF. by conjs.
Qed.
End Store.
