(* ===== verification/VectorOps.v ===== *)
(** * Closing, migrating, and the simulation of the vector store

    What deletions, shutdowns, checkpoints and shadow migrations do to the
    contents of the keys, and the theorem that every operation of the store
    simulates one on maps. *)

From S2P Require Import Prelude GoStd Types KV Reaper GoFloat VectorPayload Float32 Hnsw VectorRows VectorIndex.
From S2P Require Import Recovery VectorIndexCorrect VectorHistory Vectors VectorsCorrect.
From Stdlib Require Import Floats.SpecFloat.
Open Scope Z_scope.

Section Ops.
Variable level : Z → Z.
Variable pool : Z → searchScratch.
Variable name : string → string.
Variable K : gset string.
Hypothesis level_ok : ∀ row, 0 ≤ level row ≤ 64.
Hypothesis pool_ok : ∀ row, scratch_ok (pool row).
Hypothesis name_inj : ∀ k k', k ∈ K → k' ∈ K → name k = name k' → k = k'.
Hypothesis name_shadow : ∀ k k', k ∈ K → k' ∈ K → name k ≠ shadowFile k'.

Abbreviation store_ok := (store_ok level pool name K).
Abbreviation holds := (holds level pool name).
Abbreviation object_ok := (object_ok level name).

(** The files of a closed index hold what it held. *)
Lemma close_at_rest n env k ix :
  e_meta env = true → e_hnsw env = true → n ≤ 2 ^ 62 → index_ok level ix → ix_count ix ≤ n → describes k ix →
  at_rest level pool n (close_files env ix) (Some k).
Proof.
  intros Hm Hh Hn Hix Hc (D1 & D2 & D3). unfold close_files. rewrite Hm, Hh. change {| f_rows := _ |} with (closeIndex ix).
  cbn [at_rest]. rewrite <- D1. split; [apply (to_dim _ (io_tables _ _ Hix))|]. split; [by eexists|].
  intros capacity enc e He. destruct (reopen_spec level pool level_ok pool_ok ix capacity enc e Hix He ltac:(lia)) as (ix' & H1 & H2 & H3 & H4 & H5 & H6).
  exists ix'. conjs; try done; [lia|]. split; [congruence|]. split; [congruence|]. intros x. by rewrite H6.
Qed.

(** Closing the object of a key, whatever becomes of its entry. *)
Lemma close_ok n env st F G key h o kv' vs' (o' : option Entry) :
  store_ok n st F G → n ≤ 2 ^ 62 → e_meta env = true → e_hnsw env = true → opened st key h o →
  kv_wf kv' → view kv' = partial_alter (λ _, o') key (view (fst st)) →
  (∀ e', o' = Some e' → EType e' = TypeVector ∧ ExpiresAt e' = 0 ∧ Value e' = VNil) →
  vs_objs vs' = delete h (vs_objs (snd st)) → vs_next vs' = vs_next (snd st) → vs_encoding vs' = vs_encoding (snd st) →
  vs_disk vs' !! name key = Some (close_files env (ob_index o)) →
  (∀ k, k ∈ K → k ≠ key → vs_disk vs' !! name k = vs_disk (snd st) !! name k) →
  store_ok n (kv', vs') F (upd key None G).
Proof.
  intros Hs Hn Hm Hh Hop Hwf Hv Ho' Hobjs Hnext Henc Hd1 Hd2. pose proof Hs as [S1 S2 S3 S4 S5 S6 S7].
  destruct (opened_ok _ _ _ _ _ _ _ _ _ _ _ Hs Hop) as (Hk & k & HF & [O1 O2 O3 O4 O5]).
  assert (Hrest : at_rest level pool n (files (name key) vs') (F key)).
  { unfold files. rewrite Hd1, HF. by apply close_at_rest. }
  assert (Hother : ∀ k e, view kv' !! k = Some e → k ≠ key → view (fst st) !! k = Some e).
  { intros k1 e1. rewrite Hv. intros He1 Hne. by rewrite lookup_partial_alter_ne in He1. }
  assert (Hsame : ∀ e, view kv' !! key = Some e → EType e = TypeVector ∧ ExpiresAt e = 0 ∧ Value e = VNil).
  { intros e1. rewrite Hv, lookup_partial_alter_eq. apply Ho'. }
  split; cbn [fst snd]; try done.
  - intros k1 Hk1. destruct (decide (k1 = key)) as [->|Hne].
    + rewrite upd_eq. unfold VectorsCorrect.holds. cbn [fst snd]. destruct (view kv' !! key) as [e1|] eqn:E1; [|done].
      destruct (Hsame e1 eq_refl) as (? & ? & ->). by conjs.
    + rewrite upd_ne by done. apply (holds_frame level pool name n st); cbn [fst snd]; [by rewrite Hv, lookup_partial_alter_ne| | |by apply S2].
      * intros e1 h1 He1 Hv1. rewrite Hobjs. apply lookup_delete_ne. intros <-. destruct Hop as (e & He & _ & _ & Hvv & _).
        apply Hne. by eapply S5.
      * by apply Hd2.
  - intros k1 e1 He1 Ht1. destruct (decide (k1 = key)) as [->|Hne]; [done|]. by eapply S3; [apply Hother|].
  - intros k1 e1 h1 He1 Hv1. destruct (decide (k1 = key)) as [->|Hne].
    + destruct (Hsame e1 He1) as (_ & _ & Hn1). congruence.
    + by eapply S4; [apply Hother|].
  - intros k1 k2 e1 e2 h1 He1 He2 Hv1 Hv2. destruct (decide (k1 = key)) as [->|Hne1]; [destruct (Hsame e1 He1) as (_ & _ & Hn1); congruence|].
    destruct (decide (k2 = key)) as [->|Hne2]; [destruct (Hsame e2 He2) as (_ & _ & Hn2); congruence|].
    by eapply S5; [apply Hother|apply Hother|..].
  - intros h1. rewrite Hobjs, Hnext. intros [x Hx]. apply lookup_delete_Some in Hx as [_ Hx]. apply S6. by eexists.
  - by rewrite Henc.
Qed.

(** The entry of a key that is not open goes away. *)
Lemma remove_closed_ok n st F G key kv' :
  store_ok n st F G → (∀ h o, ¬ opened st key h o) → kv_wf kv' → view kv' = delete key (view (fst st)) →
  store_ok n (kv', snd st) F G.
Proof.
  intros Hs Hcl Hwf Hv. pose proof Hs as [S1 S2 S3 S4 S5 S6 S7].
  assert (Hsub : ∀ k e, view kv' !! k = Some e → view (fst st) !! k = Some e).
  { intros k e. rewrite Hv. by intros [_ ?]%lookup_delete_Some. }
  split; cbn [fst snd]; try done.
  - intros k Hk. destruct (decide (k = key)) as [->|Hne].
    + pose proof (S2 key Hk) as Hh. unfold VectorsCorrect.holds in *. cbn [fst snd]. rewrite Hv, lookup_delete_eq.
      destruct (view (fst st) !! key) as [e|] eqn:Ee; [|done]. destruct Hh as (Ht & Hx & Hh). destruct (Value e) eqn:Ev; try done.
      destruct Hh as (o & k & Ho & _). destruct (Hcl idx o). by exists e.
    + apply (holds_frame level pool name n st); cbn [fst snd]; [by rewrite Hv, lookup_delete_ne|done|done|by apply S2].
  - intros k e He. by eapply S3, Hsub.
  - intros k e h He. by eapply S4, Hsub.
  - intros k1 k2 e1 e2 h He1 He2. eapply S5; by apply Hsub.
Qed.

(** [DEL] closes indexes and leaves their files: no vector is deleted. *)
Lemma DeleteKeys_ok n env st F G keys :
  store_ok n st F G → n ≤ 2 ^ 62 → e_meta env = true → e_hnsw env = true →
  ∃ c st' G', DeleteKeys env keys st = (c, st') ∧ same_config (snd st) (snd st') ∧ store_ok n st' F G' ∧
    (∀ k, k ∈ keys → view (fst st') !! k = None ∧ (k ∈ K → G' k = None)) ∧
    (∀ k, k ∉ keys → view (fst st') !! k = view (fst st) !! k ∧ G' k = G k).
Proof.
  intros Hs Hn Hm Hh. unfold DeleteKeys. generalize 0 as c. revert st G Hs.
  induction keys as [|key keys IH]; intros st G Hs c.
  { exists c, st, G. conjs; try done. by intros k ?%not_elem_of_nil. }
  cbn [foldl]. pose proof (so_wf _ _ _ _ _ _ _ _ Hs) as Hwf.
  assert (Hstep : ∃ c1 st1 G1, (let '(kv, vs) := st in
      match data (getShard kv key) !! key with
      | Some e => (c + 1, (removeEntry key kv, closeVectorEntry env e vs))
      | None => (c, (kv, vs))
      end) = (c1, st1) ∧ same_config (snd st) (snd st1) ∧ store_ok n st1 F G1 ∧
      (view (fst st1) !! key = None ∧ (key ∈ K → G1 key = None)) ∧
      ∀ k, k ≠ key → view (fst st1) !! k = view (fst st) !! k ∧ G1 k = G k).
  { destruct st as [kv vs]. cbn [fst snd] in *. rewrite <- view_lookup by done.
    assert (HGrest : ∀ k, k ∈ K → (∀ h o, ¬ opened (kv, vs) k h o) → G k = None).
    { intros k Hk Hcl. pose proof (so_keys _ _ _ _ _ _ _ _ Hs k Hk) as Hhold. unfold VectorsCorrect.holds in Hhold. cbn [fst snd] in Hhold.
      destruct (view kv !! k) as [e|] eqn:Ee; [|by destruct Hhold]. destruct Hhold as (Ht & Hx & Hhold).
      destruct (Value e) eqn:Ev; try done; [by destruct Hhold|]. destruct Hhold as (o & k' & Ho & _). destruct (Hcl idx o). by exists e. }
    destruct (view kv !! key) as [e|] eqn:Ee.
    - destruct (removeEntry_spec key kv Hwf) as [W1 W2].
      assert (Hgone : view (removeEntry key kv) !! key = None) by (by rewrite W2, lookup_delete_eq).
      assert (Hstay : ∀ k, k ≠ key → view (removeEntry key kv) !! k = view kv !! k) by (intros k Hne; by rewrite W2, lookup_delete_ne).
      destruct (opened_dec (kv, vs) key Hwf) as [(h & o & Hop)|Hcl].
      + pose proof Hop as (e' & He' & Ht & Hx & Hv & Ho). cbn [fst snd] in *. rewrite Ee in He'. injection He' as <-.
        destruct (opened_ok _ _ _ _ _ _ _ _ _ _ _ Hs Hop) as (Hk & k & HF & [O1 O2 O3 O4 O5]).
        exists (c + 1), (removeEntry key kv, closeVectorEntry env e vs), (upd key None G).
        split; [done|]. unfold closeVectorEntry. rewrite Ht, Hv, Ho. split; [done|]. split; [|split].
        * apply (close_ok n env (kv, vs) F G key h o _ _ None); cbn [fst snd]; try done.
          -- cbn. by rewrite O1, lookup_insert_eq.
          -- intros k1 Hk1 Hne. cbn. rewrite O1. apply lookup_insert_ne. intros E. apply Hne. symmetry. by apply name_inj.
        * split; [done|]. intros _. apply upd_eq.
        * intros k1 Hne. split; [by apply Hstay|]. by apply upd_ne.
      + assert (Hnone : closeVectorEntry env e vs = vs).
        { unfold closeVectorEntry. destruct (EType e) eqn:Et; try done. destruct (Value e) eqn:Ev; try done.
          pose proof (so_keys _ _ _ _ _ _ _ _ Hs key (so_only _ _ _ _ _ _ _ _ Hs key e Ee Et)) as Hhold.
          unfold VectorsCorrect.holds in Hhold. cbn [fst snd] in Hhold. rewrite Ee, Ev in Hhold.
          destruct Hhold as (_ & Hx & o & k & Ho & _). destruct (Hcl idx o). by exists e. }
        rewrite Hnone. exists (c + 1), (removeEntry key kv, vs), G. split; [done|]. split; [done|]. split; [|split].
        * by apply (remove_closed_ok n (kv, vs) F G key).
        * split; [done|]. intros Hk. by apply HGrest.
        * intros k1 Hne. split; [by apply Hstay|done].
    - exists c, (kv, vs), G. split; [done|]. split; [done|]. split; [done|]. split; [|done]. split; [done|].
      intros Hk. apply HGrest; [done|]. intros h o (e & He & _). cbn [fst] in He. congruence. }
  destruct Hstep as (c1 & st1 & G1 & E & Hc1 & Hs1 & Hkey & Hoth).
  destruct (IH st1 G1 Hs1 c1) as (c2 & st2 & G2 & E2 & Hc2 & Hs2 & Hin & Hout).
  exists c2, st2, G2. split; [destruct st as [kv vs]; rewrite <- E2; f_equal; exact E|].
  split; [by eapply same_config_trans|]. split; [done|]. split.
  - intros k Hk. destruct (decide (k ∈ keys)) as [Hks|Hks]; [by apply Hin|]. destruct (Hout k Hks) as [V1 V2].
    apply elem_of_cons in Hk as [->|?]; [|done]. rewrite V1, V2. done.
  - intros k Hk. apply not_elem_of_cons in Hk as [Hne Hks]. destruct (Hout k Hks) as [V1 V2], (Hoth k Hne) as [U1 U2].
    by rewrite V1, V2, U1, U2.
Qed.

(** ** Sweeps over the open indexes *)
Lemma open_indexes_elem st key h o :
  kv_wf (fst st) → (key, h, o) ∈ open_indexes st ↔
  ∃ e, view (fst st) !! key = Some e ∧ EType e = TypeVector ∧ Value e = VVector h ∧ vs_objs (snd st) !! h = Some o.
Proof.
  intros Hwf. unfold open_indexes. rewrite bind_elem. split.
  - intros ([k e] & Hin%elem_of_sweep & Hx); [|done]. destruct (EType e) eqn:Et; try by apply not_elem_of_nil in Hx.
    destruct (Value e) eqn:Ev; try by apply not_elem_of_nil in Hx.
    destruct (vs_objs (snd st) !! idx) as [o'|] eqn:Eo; [|by apply not_elem_of_nil in Hx].
    apply list_elem_of_singleton in Hx. injection Hx as -> -> ->. by exists e.
  - intros (e & He & Ht & Hv & Ho). exists (key, e). rewrite elem_of_sweep by done. split; [done|]. rewrite Ht, Hv, Ho.
    by apply list_elem_of_singleton.
Qed.

Lemma bind_keys_NoDup {A B} (f : string * A → list B) (g : B → string) (l : list (string * A)) :
  (∀ p b, b ∈ f p → g b = p.1) → (∀ p, (length (f p) ≤ 1)%nat) → NoDup l.*1 → NoDup (g <$> (l ≫= f)).
Proof.
  intros Hg Hf. induction l as [|p l IH]; [by intros _; constructor|]. cbn. intros [Hp Hl]%NoDup_cons.
  rewrite fmap_app. apply NoDup_app. split; [|split; [|by apply IH]].
  - pose proof (Hf p). destruct (f p) as [|b [|]]; cbn in *; [constructor|apply NoDup_singleton|lia].
  - intros x Hx Hx'. apply list_elem_of_fmap in Hx as (b & -> & Hb). apply list_elem_of_fmap in Hx' as (b' & E & Hb').
    apply bind_elem in Hb' as (p' & Hp' & Hb'). rewrite (Hg p b Hb) in E. rewrite (Hg p' b' Hb') in E.
    apply Hp. rewrite E. by apply list_elem_of_fmap_2.
Qed.

Lemma open_indexes_NoDup st : kv_wf (fst st) → NoDup ((λ p, p.1.1) <$> open_indexes st).
Proof.
  intros Hwf. unfold open_indexes. apply bind_keys_NoDup; [| |by apply NoDup_sweep].
  - intros [k e] b. destruct (EType e); try by intros ?%not_elem_of_nil. destruct (Value e); try by intros ?%not_elem_of_nil.
    destruct (_ !! _); [|by intros ?%not_elem_of_nil]. by intros ->%list_elem_of_singleton.
  - intros [k e]. destruct (EType e); cbn; try lia. destruct (Value e); cbn; try lia. destruct (_ !! _); cbn; lia.
Qed.

Lemma open_indexes_opened n st F G key h o :
  store_ok n st F G → (key, h, o) ∈ open_indexes st ↔ opened st key h o.
Proof.
  intros Hs. rewrite open_indexes_elem by apply Hs. split.
  - intros (e & He & Ht & Hv & Ho). exists e. conjs; try done. pose proof (so_keys _ _ _ _ _ _ _ _ Hs key (so_only _ _ _ _ _ _ _ _ Hs key e He Ht)) as Hh.
    unfold VectorsCorrect.holds in Hh. rewrite He in Hh. by destruct Hh as (_ & ? & _).
  - intros (e & He & Ht & Hx & Hv & Ho). by exists e.
Qed.

(** Writing the object of another key keeps a key open. *)
Lemma opened_other n st F G key h o key' h' o' vs' :
  store_ok n st F G → opened st key h o → opened st key' h' o' → key ≠ key' →
  (∀ i, i ≠ h' → vs_objs vs' !! i = vs_objs (snd st) !! i) → opened (fst st, vs') key h o.
Proof.
  intros Hs (e & He & Ht & Hx & Hv & Ho) (e' & He' & _ & _ & Hv' & _) Hne Hf. exists e. conjs; try done. cbn [snd].
  rewrite Hf; [done|]. intros ->. apply Hne. by eapply (so_handles _ _ _ _ _ _ _ _ Hs).
Qed.

(** A checkpoint writes the metadata of every open index. *)
Lemma flush_fold n env F G l st :
  store_ok n st F G → e_meta env = true → NoDup ((λ p, p.1.1) <$> l) → (∀ key h o, (key, h, o) ∈ l → opened st key h o) →
  ∃ vs, foldl (flush_one env) (Ok tt, snd st) l = (Ok tt, vs) ∧ same_config (snd st) vs ∧ store_ok n (fst st, vs) F G ∧
    (∀ key h o, opened (fst st, vs) key h o →
       (key ∈ ((λ p, p.1.1) <$> l) ∧ ix_meta (ob_index o) = Some (metadata (ob_index o))) ∨
       ((key ∉ ((λ p, p.1.1) <$> l)) ∧ opened st key h o)).
Proof.
  intros Hs Hm. revert st Hs. induction l as [|[[key h] o] l IH]; intros st Hs Hnd Hl.
  { exists (snd st). destruct st as [kv vs]. conjs; try done. intros key h o Ho. right. split; [by apply not_elem_of_nil|done]. }
  cbn [fmap list_fmap] in Hnd. apply NoDup_cons in Hnd as [Hkey Hnd]. cbn in Hkey. cbn [foldl flush_one].
  assert (Hop : opened st key h o) by (apply Hl; by left).
  pose proof (writeMetadata_spec true (e_recent env) (e_meta env) (ob_index o)) as Hw. rewrite Hm in Hw. cbn [fst snd].
  rewrite Hm. assert (Hwr : ∃ ix, writeMetadata true (e_recent env) true (ob_index o) = Ok ix ∧ ix_meta ix = Some (metadata ix)) by (by eexists).
  destruct Hwr as (ix & Eix & Hmeta). rewrite Eix in *. destruct (opened_ok _ _ _ _ _ _ _ _ _ _ _ Hs Hop) as (Hk & k & HF & Hok).
  assert (Hix : index_ok level ix ∧ ix_count ix = ix_count (ob_index o) ∧ describes k ix).
  { injection Eix as <-. pose proof Hok as [_ [T1 T2 T3] _ (D1 & D2 & D3) _]. split; [|done]. split; [by destruct T1; split|done|done]. }
  destruct Hix as (Hix & Hcnt & Hdesc). pose proof Hok as [O1 O2 O3 O4 O5].
  destruct (write_obj_ok level pool name K name_inj name_shadow n st F G key h o (with_index ix o) k (G key) Hs Hop) as [H1 H2].
  { eapply with_index_ok; [done|done|lia|done]. }
  assert (Hs1 : store_ok n (fst st, write_obj h (with_index ix o) (snd st)) F G).
  { eapply store_ok_eq; [| |exact H1]; intros x; [rewrite <- HF|]; symmetry; apply upd_same. }
  set (vs1 := write_obj h (with_index ix o) (snd st)) in *.
  assert (Hother : ∀ i, i ≠ h → vs_objs vs1 !! i = vs_objs (snd st) !! i) by (intros i Hi; subst vs1; cbn; by rewrite lookup_insert_ne).
  destruct (IH (fst st, vs1) Hs1 Hnd) as (vs & E & Hc & Hs2 & Hops).
  { intros key' h' o' Hin. eapply opened_other; [exact Hs|by apply Hl; right|exact Hop| |exact Hother].
    intros ->. apply Hkey. apply list_elem_of_fmap. by exists (key, h', o'). }
  exists vs. split; [exact E|]. split; [done|]. split; [done|]. intros key' h' o' Ho'. destruct (Hops key' h' o' Ho') as [[Hin ?]|[Hnin Ho1]].
  - left. split; [by right|done].
  - destruct (decide (key' = key)) as [->|Hne].
    + left. split; [by left|]. assert (o' = with_index ix o) as ->; [|done].
      destruct Ho1 as (e1 & He1 & _ & _ & Hv1 & Ho1), H2 as (e2 & He2 & _ & _ & Hv2 & Ho2). cbn [fst snd] in *. congruence.
    + right. split; [cbn; rewrite not_elem_of_cons; by split|].
      destruct Ho1 as (e1 & He1 & Ht1 & Hx1 & Hv1 & Ho1). exists e1. conjs; try done. cbn [fst snd] in *. rewrite <- Hother; [done|].
      intros ->. apply Hne. destruct Hop as (e2 & He2 & _ & _ & Hv2 & _). by eapply (so_handles _ _ _ _ _ _ _ _ Hs).
Qed.

Lemma FlushDurable_ok n env st F G :
  store_ok n st F G → e_meta env = true →
  ∃ st', FlushDurable env st = (Ok tt, st') ∧ fst st' = fst st ∧ same_config (snd st) (snd st') ∧ store_ok n st' F G ∧
    ∀ key h o, opened st' key h o → ix_meta (ob_index o) = Some (metadata (ob_index o)).
Proof.
  intros Hs Hm. destruct (flush_fold n env F G (open_indexes st) st Hs Hm) as (vs & E & Hc & Hs1 & Hops).
  - apply open_indexes_NoDup, Hs.
  - intros key h o. by apply open_indexes_opened with (n := n) (F := F) (G := G).
  - unfold FlushDurable. rewrite E. exists (fst st, vs). conjs; try done. intros key h o Ho.
    destruct (Hops key h o Ho) as [[_ ?]|[Hnin Ho1]]; [done|]. destruct Hnin. apply list_elem_of_fmap. exists (key, h, o).
    split; [done|]. by apply open_indexes_opened with (n := n) (F := F) (G := G).
Qed.

(** [close_entry] on an open key. *)
Lemma close_entry_ok n env st F G key h o :
  store_ok n st F G → n ≤ 2 ^ 62 → e_meta env = true → e_hnsw env = true → opened st key h o →
  let st' := close_entry env st (key, h, o) in
  store_ok n st' F (upd key None G) ∧ same_config (snd st) (snd st') ∧
  (∀ k i o', opened st' k i o' ↔ opened st k i o' ∧ k ≠ key).
Proof.
  intros Hs Hn Hm Hh Hop. destruct st as [kv vs]. pose proof Hop as (e & He & Ht & Hx & Hv & Ho). cbn [fst snd] in *.
  pose proof (so_wf _ _ _ _ _ _ _ _ Hs) as Hwf. cbn [fst] in Hwf. unfold close_entry. rewrite <- view_lookup, He by done.
  destruct (putEntry_spec key (setValue VNil e) kv Hwf) as [W1 W2].
  destruct (opened_ok _ _ _ _ _ _ _ _ _ _ _ Hs Hop) as (Hk & k & HF & [O1 O2 O3 O4 O5]).
  set (vs1 := match ob_shadow o with Some shadow => _ | None => vs end).
  assert (Hvs1 : vs_objs vs1 = vs_objs vs ∧ vs_next vs1 = vs_next vs ∧ same_config vs vs1 ∧
    ∀ k1, k1 ∈ K → vs_disk vs1 !! name k1 = vs_disk vs !! name k1).
  { subst vs1. destruct (G key) as [s|].
    - destruct O5 as (ix & -> & _ & -> & _). conjs; try done. intros k1 Hk1. cbn. apply lookup_insert_ne.
      intros E. by destruct (name_shadow k1 key Hk1 Hk).
    - by destruct O5 as [-> _]. }
  destruct Hvs1 as (V1 & V2 & V3 & V4). cbv zeta. split; [|split].
  - apply (close_ok n env (kv, vs) F G key h o _ _ (Some (setValue VNil e))); cbn [fst snd]; try done.
    + by intros e' [= <-].
    + cbn. by rewrite V1.
    + cbn. by destruct V3 as (_ & _ & ->).
    + cbn. by rewrite O1, lookup_insert_eq.
    + intros k1 Hk1 Hne. cbn. rewrite O1, lookup_insert_ne; [by apply V4|]. intros E. apply Hne. symmetry. by apply name_inj.
  - cbn [snd]. destruct V3 as (? & ? & ?). by repeat split.
  - intros k1 i o'. unfold opened. cbn [fst snd]. rewrite W2. split.
    + intros (e1 & He1 & Ht1 & Hx1 & Hv1 & Ho1). destruct (decide (k1 = key)) as [->|Hne].
      { rewrite lookup_insert_eq in He1. injection He1 as <-. done. }
      rewrite lookup_insert_ne in He1 by done. split; [|done]. exists e1. conjs; try done. cbn in Ho1. rewrite V1 in Ho1.
      by apply lookup_delete_Some in Ho1 as [_ ?].
    + intros [(e1 & He1 & Ht1 & Hx1 & Hv1 & Ho1) Hne]. exists e1. rewrite lookup_insert_ne by done. conjs; try done.
      cbn. rewrite V1, lookup_delete_ne; [done|]. intros <-. apply Hne. by eapply (so_handles _ _ _ _ _ _ _ _ Hs).
Qed.

Lemma CloseAll_ok n env st F G :
  store_ok n st F G → n ≤ 2 ^ 62 → e_meta env = true → e_hnsw env = true →
  store_ok n (CloseAll env st) F (λ _, None) ∧ same_config (snd st) (snd (CloseAll env st)) ∧
  ∀ key h o, ¬ opened (CloseAll env st) key h o.
Proof.
  intros Hs Hn Hm Hh. unfold CloseAll.
  assert (Hfold : ∀ l st G, store_ok n st F G → NoDup ((λ p, p.1.1) <$> l) → (∀ key h o, (key, h, o) ∈ l ↔ opened st key h o) →
    ∃ G', store_ok n (foldl (close_entry env) st l) F G' ∧ same_config (snd st) (snd (foldl (close_entry env) st l)) ∧
      ∀ key h o, ¬ opened (foldl (close_entry env) st l) key h o).
  { clear st G Hs. induction l as [|[[key h] o] l IH]; intros st G Hs Hnd Hl.
    - exists G. conjs; try done. intros key h o Ho%Hl. by apply not_elem_of_nil in Ho.
    - cbn [foldl]. cbn [fmap list_fmap] in Hnd. apply NoDup_cons in Hnd as [Hkey Hnd]. cbn in Hkey.
      destruct (close_entry_ok n env st F G key h o Hs Hn Hm Hh) as (H1 & H2 & H3); [apply Hl; by left|].
      destruct (IH _ _ H1 Hnd) as (G' & E1 & E2 & E3).
      + intros k i o'. rewrite H3, <- Hl, elem_of_cons. split.
        * intros Hin. split; [by right|]. intros ->. apply Hkey. apply list_elem_of_fmap. by exists (key, i, o').
        * intros [[[= -> -> ->]|?] Hne]; done.
      + exists G'. conjs; try done. by eapply same_config_trans. }
  destruct (Hfold (open_indexes st) st G Hs) as (G' & H1 & H2 & H3).
  - apply open_indexes_NoDup, Hs.
  - intros. by apply open_indexes_opened with (n := n) (F := F) (G := G).
  - split; [|done]. eapply store_ok_ext; [exact H1|]. intros k Hk. split; [done|].
    pose proof (so_keys _ _ _ _ _ _ _ _ H1 k Hk) as Hhold. unfold VectorsCorrect.holds in Hhold.
    destruct (view _ !! k) as [e|] eqn:Ee; [|by destruct Hhold]. destruct Hhold as (Ht & Hx & Hhold).
    destruct (Value e) eqn:Ev; try done; [by destruct Hhold|]. destruct Hhold as (o & k' & Ho & _). destruct (H3 k idx o). by exists e.
Qed.

(** Closing the entries of a list one after another writes the files of each open
    index and touches nothing else. *)
Definition close_entry (env : Env) (vs : VecStore) (p : string * Entry) : VecStore := closeVectorEntry env p.2 vs.
Lemma close_entries n env st F G :
  store_ok n st F G →
  ∀ l vs, NoDup l.*1 → (∀ k e, (k, e) ∈ l → view (fst st) !! k = Some e) →
    (∀ h o, vs_objs vs !! h = Some o → vs_objs (snd st) !! h = Some o) →
    (∀ k e h o, (k, e) ∈ l → Value e = VVector h → vs_objs (snd st) !! h = Some o → vs_objs vs !! h = Some o) →
    same_config vs (foldl (close_entry env) vs l) ∧ vs_next (foldl (close_entry env) vs l) = vs_next vs ∧
    (∀ h, is_Some (vs_objs (foldl (close_entry env) vs l) !! h) → is_Some (vs_objs vs !! h)) ∧
    (∀ k, k ∈ K → k ∉ l.*1 → vs_disk (foldl (close_entry env) vs l) !! name k = vs_disk vs !! name k) ∧
    (∀ k e, k ∈ K → (k, e) ∈ l → vs_disk (foldl (close_entry env) vs l) !! name k =
       match Value e with
       | VVector h => match vs_objs (snd st) !! h with Some o => Some (close_files env (ob_index o)) | None => vs_disk vs !! name k end
       | _ => vs_disk vs !! name k
       end).
Proof.
  intros Hs. induction l as [|[key e] l IH]; intros vs Hnd Hl Hsub Hall; cbn [foldl].
  { conjs; try done. by intros k e _ ?%not_elem_of_nil. }
  apply NoDup_cons in Hnd as [Hkey Hnd]. pose proof (Hl key e ltac:(by left)) as He.
  assert (Hvs1 : close_entry env vs (key, e) = vs ∧ (∀ h o, Value e = VVector h → vs_objs (snd st) !! h = Some o → False) ∨
    ∃ h o, EType e = TypeVector ∧ Value e = VVector h ∧ vs_objs (snd st) !! h = Some o ∧ ob_path o = name key ∧ key ∈ K ∧ close_entry env vs (key, e) = close_obj env h o vs).
  { unfold close_entry, closeVectorEntry. cbn [snd]. destruct (Value e) eqn:Ev; try (left; split; [by destruct (EType e)|done]).
    pose proof (so_typed _ _ _ _ _ _ _ _ Hs key e idx He Ev) as Ht. rewrite Ht.
    pose proof (so_only _ _ _ _ _ _ _ _ Hs key e He Ht) as Hk. pose proof (so_keys _ _ _ _ _ _ _ _ Hs key Hk) as Hhold.
    unfold VectorsCorrect.holds in Hhold. rewrite He, Ev in Hhold. destruct Hhold as (_ & _ & o & k & Ho & _ & [O1 _ _ _ _]).
    right. exists idx, o. conjs; try done. by rewrite (Hall key e idx o ltac:(by left) Ev Ho). }
  destruct Hvs1 as [[-> Hno]|(h & o & Ht & Hv & Ho & Hpath & Hk & ->)].
  - destruct (IH vs Hnd ltac:(intros; apply Hl; by right) Hsub ltac:(intros k1 e1 h1 o1 H1; apply (Hall k1 e1 h1 o1); by right)) as (I1 & I2 & I3 & I4 & I5).
    conjs; try done.
    + intros k Hkk [_ Hnin]%not_elem_of_cons. by apply I4.
    + intros k e' Hkk [[= -> ->]|Hin]%elem_of_cons; [|by apply I5]. rewrite I4 by done. destruct (Value e) eqn:Ev; try done.
      destruct (vs_objs (snd st) !! idx) eqn:Eo; [|done]. by destruct (Hno idx o).
  - destruct (IH (close_obj env h o vs) Hnd ltac:(intros; apply Hl; by right)) as (I1 & I2 & I3 & I4 & I5).
    + intros h1 o1 H1. cbn in H1. apply lookup_delete_Some in H1 as [_ H1]. by apply Hsub.
    + intros k1 e1 h1 o1 H1 Hv1 Ho1. cbn. rewrite lookup_delete_ne; [eapply Hall; [by right|done..]|]. intros <-.
      apply Hkey. assert (k1 = key) as <- by (by eapply (so_handles _ _ _ _ _ _ _ _ Hs); [apply Hl; right|..]).
      by apply (list_elem_of_fmap_2 fst l (k1, e1)).
    + conjs; try done.
      * intros h1 Hh1. destruct (I3 h1 Hh1) as [o1 Ho1]. cbn in Ho1. apply lookup_delete_Some in Ho1 as [_ ?]. by eexists.
      * intros k Hkk [Hne Hnin]%not_elem_of_cons. rewrite I4 by done. cbn. rewrite Hpath. apply lookup_insert_ne.
        intros E. apply Hne. symmetry. by apply name_inj.
      * intros k e' Hkk [[= -> ->]|Hin]%elem_of_cons.
        -- rewrite I4 by done. cbn. by rewrite Hpath, lookup_insert_eq, Hv, Ho.
        -- rewrite (I5 k e' Hkk Hin). assert (Hne : k ≠ key).
           { intros ->. apply Hkey. by apply (list_elem_of_fmap_2 fst l (key, e')). }
           assert (Hd : vs_disk (close_obj env h o vs) !! name k = vs_disk vs !! name k).
           { cbn. rewrite Hpath. apply lookup_insert_ne. intros E. apply Hne. symmetry. by apply name_inj. }
           by rewrite Hd.
Qed.

(** [FLUSHALL] closes every index and keeps the files. *)
Lemma FlushAll_ok n env st F G :
  store_ok n st F G → n ≤ 2 ^ 62 → e_meta env = true → e_hnsw env = true →
  store_ok n (FlushAll env st) F (λ _, None) ∧ same_config (snd st) (snd (FlushAll env st)) ∧ view (fst (FlushAll env st)) = ∅.
Proof.
  intros Hs Hn Hm Hh. unfold FlushAll. pose proof (so_wf _ _ _ _ _ _ _ _ Hs) as Hwf.
  destruct (FlushAll_spec (fst st) Hwf) as [Hwf' Hempty].
  change (λ vs (p : string * Entry), closeVectorEntry env p.2 vs) with (close_entry env).
  destruct (close_entries n env st F G Hs (sweep (fst st)) (snd st)) as (I1 & I2 & I3 & I4 & I5); try done.
  { by apply NoDup_sweep. }
  { intros k e. by rewrite elem_of_sweep. }
  split; [|done]. split; cbn [fst snd]; try done.
  - intros k Hk. unfold VectorsCorrect.holds. cbn [fst snd]. rewrite Hempty, lookup_empty. split; [done|].
    pose proof (so_keys _ _ _ _ _ _ _ _ Hs k Hk) as Hhold. unfold VectorsCorrect.holds in Hhold. unfold files in *.
    destruct (view (fst st) !! k) as [e|] eqn:Ee.
    + destruct Hhold as (Ht & Hx & Hhold). rewrite (I5 k e Hk) by (by apply elem_of_sweep).
      destruct (Value e) eqn:Ev; try done; [by destruct Hhold|]. destruct Hhold as (o & v & Ho & HF & [O1 O2 O3 O4 O5]). rewrite Ho, HF.
      by apply close_at_rest.
    + rewrite I4; [by destruct Hhold|done|]. intros ([k' e] & -> & Hin)%list_elem_of_fmap. apply elem_of_sweep in Hin; [|done]. cbn in Ee. congruence.
  - intros k e. by rewrite Hempty, lookup_empty.
  - intros k e h. by rewrite Hempty, lookup_empty.
  - intros k k' e e' h. by rewrite Hempty, lookup_empty.
  - intros h Hh1. rewrite I2. apply (so_next _ _ _ _ _ _ _ _ Hs). by apply I3.
  - destruct I1 as (_ & _ & ->). apply Hs.
Qed.

(** ** Migrations *)

(** The files of an open key, and other files than those of the keys, do not matter. *)
Lemma store_ok_disk n kv vs vs' F G key h o :
  store_ok n (kv, vs) F G → opened (kv, vs) key h o →
  vs_objs vs' = vs_objs vs → vs_next vs' = vs_next vs → same_config vs vs' →
  (∀ k, k ∈ K → k ≠ key → vs_disk vs' !! name k = vs_disk vs !! name k) →
  store_ok n (kv, vs') F G ∧ opened (kv, vs') key h o.
Proof.
  intros Hs Hop Ho Hn (C1 & C2 & C3) Hd. pose proof Hop as (e & He & Ht & Hx & Hv & Hobj). cbn [fst snd] in *. split.
  - pose proof Hs as [S1 S2 S3 S4 S5 S6 S7]. cbn [fst snd] in *. split; cbn [fst snd]; try done.
    + intros k Hk. destruct (decide (k = key)) as [->|Hne].
      * pose proof (S2 key Hk) as Hh. unfold VectorsCorrect.holds in *. cbn [fst snd] in *. rewrite He, Hv, Ho in *. exact Hh.
      * apply (holds_frame level pool name n (kv, vs)); cbn [fst snd]; [done|by rewrite Ho|by apply Hd|by apply S2].
    + rewrite Ho, Hn. apply S6.
    + by rewrite C3.
  - exists e. cbn [fst snd]. rewrite Ho. by conjs.
Qed.

Lemma opened_name n st F G key h o k : store_ok n st F G → opened st key h o → k ∈ K → k ≠ key → name k ≠ name key.
Proof.
  intros Hs Hop Hk Hne E. destruct (opened_ok _ _ _ _ _ _ _ _ _ _ _ Hs Hop) as [Hkey _]. apply Hne. by apply name_inj.
Qed.

Lemma opened_shadow n st F G key h o k : store_ok n st F G → opened st key h o → k ∈ K → name k ≠ shadowFile key.
Proof. intros Hs Hop Hk. destruct (opened_ok _ _ _ _ _ _ _ _ _ _ _ Hs Hop) as [Hkey _]. by apply name_shadow. Qed.

(** The shadow a start leaves: the running one if it is the same migration. *)
Definition restarted (sh : option vmap) (dim : Z) (enc : string) : vmap :=
  match sh with
  | Some s => if bool_decide (v_dim s = dim ∧ v_enc s = enc) then s else fresh dim enc
  | None => fresh dim enc
  end.

Lemma on_obj_opened {A} st key h o (none : res string A) f :
  opened st key h o → on_obj none f (Ok (Some h), st) = (fst (f h o (snd st)), (fst st, snd (f h o (snd st)))).
Proof.
  intros (e & _ & _ & _ & _ & Ho). unfold on_obj. destruct st as [kv vs]. cbn [snd] in Ho. rewrite Ho. cbn [fst snd].
  by destruct (f h o vs).
Qed.

Lemma write_fresh_shadow n env kv vs F G key h o k dim enc :
  store_ok n (kv, vs) F G → 0 ≤ n → opened (kv, vs) key h o → F key = Some k → e_open env (shadowFile key) = true → 1 ≤ dim →
  NormalizeVectorEncoding enc = Ok enc → ob_shadow o = None → ob_isMigrating o = false →
  ∃ shadow vs1, openFile level pool env (shadowFile key) dim 1000 enc (remove_files (shadowFile key) vs) = (Ok shadow, vs1) ∧
    same_config vs vs1 ∧
    store_ok n (kv, write_obj h (with_shadow (Some shadow) (shadowFile key) true dim enc o) vs1) F (upd key (Some (fresh dim enc)) G).
Proof.
  intros Hs Hn Hop HF Hopen Hd Henc Hsh Hmig. set (vs0 := remove_files (shadowFile key) vs).
  destruct (open_fresh level pool level_ok pool_ok dim 1000 enc enc Hd Henc) as (ix & E & Hix & Hc & Hdim & He & Hl).
  assert (Hfiles : files (shadowFile key) vs0 = no_files) by (unfold files; cbn; by rewrite lookup_delete_eq).
  exists ix, (set_files (shadowFile key) (crashIndex ix) vs0).
  split; [apply (openFile_ok level pool env _ _ _ _ enc); by rewrite ?Hfiles|]. split; [done|].
  destruct (store_ok_disk n kv vs (set_files (shadowFile key) (crashIndex ix) vs0) F G key h o Hs Hop) as [Hs1 Hop1]; try done.
  { intros k1 Hk1 _. pose proof (opened_shadow _ _ _ _ _ _ _ k1 Hs Hop Hk1) as Hne. cbn. rewrite lookup_insert_ne, lookup_delete_ne by done. done. }
  destruct (opened_ok _ _ _ _ _ _ _ _ _ _ _ Hs1 Hop1) as (Hk & k0 & HF0 & [O1 O2 O3 O4 O5]). assert (k0 = k) as -> by congruence.
  destruct (write_obj_ok level pool name K name_inj name_shadow n _ F G key h o (with_shadow (Some ix) (shadowFile key) true dim enc o) k
    (Some (fresh dim enc)) Hs1 Hop1) as [H1 _].
  { split; try done. exists ix. conjs; try done. split; try done; [lia|]. intros x Hx. exfalso.
    pose proof (io_tables _ _ Hix) as T. destruct Hx as [row Hrow]. apply (to_row _ _ _ T) in Hrow. lia. }
  eapply store_ok_eq; [|done|exact H1]. intros x. rewrite <- HF. symmetry. apply upd_same.
Qed.

Lemma StartMigration_ok n env st F G key h o dim enc0 enc :
  store_ok n st F G → 0 ≤ n → opened st key h o → e_open env (shadowFile key) = true → 1 ≤ dim →
  NormalizeVectorEncoding enc0 = Ok enc →
  ∃ st', StartMigration level pool name env key dim enc0 st = (Ok tt, st') ∧ same_config (snd st) (snd st') ∧
    store_ok n st' F (upd key (Some (restarted (G key) dim enc)) G).
Proof.
  intros Hs Hn Hop Hopen Hd Henc. unfold StartMigration. rewrite (getOrCreate_opened level pool name env st key 0 h o (so_wf _ _ _ _ _ _ _ _ Hs) Hop).
  cbn [created]. rewrite (on_obj_opened st key h o) by done. destruct st as [kv vs]. cbn [fst snd]. unfold startMigration. rewrite Henc.
  assert (Hidem : NormalizeVectorEncoding enc = Ok enc) by (by destruct (normalized enc0 enc Henc) as [-> | ->]).
  destruct (opened_ok _ _ _ _ _ _ _ _ _ _ _ Hs Hop) as (Hk & k & HF & Hok). pose proof Hok as [O1 O2 O3 O4 O5].
  destruct (G key) as [s|] eqn:EG.
  - destruct O5 as (ix & Hsh & Hmig & Hpath & Hsd & Hse & Hso). rewrite Hsh, Hmig, Hsd, Hse, (bool_decide_eq_true_2 (is_Some (Some ix))) by (by eexists).
    cbn [andb]. rewrite andb_true_r. unfold restarted.
    assert (Hguard : (v_dim s =? dim) && bool_decide (v_enc s = enc) = bool_decide (v_dim s = dim ∧ v_enc s = enc)).
    { destruct (Z.eqb_spec (v_dim s) dim) as [Ed|Ed].
      - cbn [andb]. apply bool_decide_ext. split; [done|]. by intros [_ ?].
      - symmetry. apply bool_decide_eq_false_2. by intros [? _]. }
    rewrite Hguard. destruct (bool_decide (v_dim s = dim ∧ v_enc s = enc)) eqn:Eb; cbn [fst snd].
    + exists (kv, vs). conjs; try done. eapply store_ok_eq; [done| |exact Hs]. intros x. rewrite <- EG. apply upd_same.
    + rewrite Hopen. cbn [negb]. set (o1 := with_shadow None _ _ _ _ o). set (vs1 := write_obj h o1 _).
      assert (Hmid : store_ok n (kv, vs1) F (upd key None G) ∧ opened (kv, vs1) key h o1).
      { destruct (store_ok_disk n kv vs (remove_files (ob_shadowPath o) vs) F G key h o Hs Hop) as [Hs0 Hop0]; try done.
        { intros k1 Hk1 _. cbn. rewrite Hpath. apply lookup_delete_ne. intros E. by apply (opened_shadow _ _ _ _ _ _ _ k1 Hs Hop). }
        destruct (write_obj_ok level pool name K name_inj name_shadow n _ F G key h o o1 k None Hs0 Hop0) as [H1 H2]; [by split|].
        split; [|exact H2]. eapply store_ok_eq; [|done|exact H1]. intros x. rewrite <- HF. symmetry. apply upd_same. }
      destruct Hmid as [Hs1 Hop1].
      destruct (write_fresh_shadow n env kv vs1 F (upd key None G) key h o1 k dim enc Hs1 Hn Hop1 HF Hopen Hd Hidem eq_refl eq_refl) as (shadow & vs2 & E & Hc & Hs2).
      rewrite E. cbn [fst snd]. eexists. split; [reflexivity|]. split; [cbn [snd]; destruct Hc as (? & ? & ?); by repeat split|].
      eapply store_ok_eq; [done| |exact Hs2]. intros x. by rewrite upd_upd.
  - destruct O5 as [Hsh Hmig]. rewrite Hmig. cbn [andb]. rewrite Hopen. cbn [negb].
    assert (Hmid : store_ok n (kv, write_obj h o vs) F G ∧ opened (kv, write_obj h o vs) key h o).
    { destruct (write_obj_ok level pool name K name_inj name_shadow n (kv, vs) F G key h o o k (G key) Hs Hop) as [H1 H2]; [by rewrite EG|].
      split; [|done]. eapply store_ok_eq; [| |exact H1]; intros x; [rewrite <- HF|]; symmetry; apply upd_same. }
    destruct Hmid as [Hs1 Hop1].
    destruct (write_fresh_shadow n env kv _ F G key h o k dim enc Hs1 Hn Hop1 HF Hopen Hd Hidem Hsh Hmig) as (shadow & vs1 & E & Hc & Hs2).
    rewrite E. cbn [fst snd]. eexists. split; [done|]. split; [|done]. cbn [snd]. destruct Hc as (? & ? & ?). by repeat split.
Qed.

(** An insertion into a shadow is an addition without a quota, after the
    generation of a known row was counted up. *)
Definition bump (id : string) (ix : MMapVectorIndex) : MMapVectorIndex :=
  match ix_idMap ix !! id with
  | Some row => set_tables (ix_count ix) (ix_idMap ix) (ix_idList ix) (ix_tombstones ix)
                  (alter (λ g, u64 (g + 1)) (Z.to_nat row) (ix_generations ix)) (ix_metaDirty ix + 1) ix
  | None => ix
  end.

Lemma bump_ok n s id ix : shadow_ok level n s ix → shadow_ok level n s (bump id ix).
Proof.
  unfold bump. destruct (ix_idMap ix !! id) as [row|] eqn:Er; [|done]. intros [[[T1 T2 T3 T4 T5 T6 T7 T8] G E] H2 H3 H4].
  split; [|done|done|done]. split; [|done|done]. split; try done. unfold zlen in *. cbn. by rewrite length_alter.
Qed.

Lemma writeMetadata_no_panic d r m ix : writeMetadata d r m ix ≠ Panic.
Proof. unfold writeMetadata. by repeat case_match. Qed.

Lemma insertShadow_eq n s env id vec ix :
  shadow_ok level n s ix → zlen vec = ix_dim ix →
  insertShadow level pool env id vec ix =
  added_result (addVector level pool 0 (e_grow env) (e_recent env) (e_meta env) id vec (bump id ix))
  ∨ (e_grow env = false ∧ insertShadow level pool env id vec ix = (Err "grow vector file"%string, ix)).
Proof.
  intros [Hix Hc Hall Hd] Hv. pose proof (io_tables _ _ Hix) as T. unfold insertShadow, addVector, bump.
  destruct (Z.eqb_spec (zlen vec) (ix_dim ix)); [|done]. cbn [negb].
  destruct (ix_idMap ix !! id) as [row|] eqn:Er.
  - left. rewrite bool_decide_eq_true_2 by done. cbn [ix_dim ix_idMap ix_count set_tables].
    destruct (Z.eqb_spec (ix_dim ix) (zlen vec)); [|done]. cbn [negb].
    rewrite Er, bool_decide_eq_true_2 by done. change (0 >? 0) with false. cbn [andb].
    unfold shadowRow. rewrite Er. set (ix1 := set_tables _ _ _ _ _ _ ix).
    assert (Hcap : ensureCapacity (e_grow env) (ix_count ix * rowBytes ix1) ix1 = Ok ix1).
    { unfold ensureCapacity. pose proof (to_room _ T) as Hroom. change (rowBytes ix1) with (rowBytes ix).
      change (ix_mmap ix1) with (ix_mmap ix). destruct (Z.leb_spec (ix_count ix * rowBytes ix) (zlen (ix_mmap ix))); [done|lia]. }
    rewrite Hcap. unfold putRow, claimRow. change (ix_idMap ix1) with (ix_idMap ix). rewrite Er.
    assert (Htomb : nth (Z.to_nat row) (ix_tombstones ix1) false = false).
    { destruct (Hall id ltac:(by eexists)) as [bs Hbs]. unfold live in Hbs. rewrite Er in Hbs. unfold is_live in Hbs.
      change (ix_tombstones ix1) with (ix_tombstones ix). by destruct (nth (Z.to_nat row) (ix_tombstones ix) false). }
    rewrite Htomb. unfold added_result. destruct (writeMetadata _ _ _ _) eqn:Ew; [done|done|by apply writeMetadata_no_panic in Ew].
  - rewrite bool_decide_eq_false_2 by (by intros [? ?]). destruct (Z.eqb_spec (ix_dim ix) (zlen vec)); [|done]. cbn [negb].
    change (0 >? 0) with false. cbn [andb]. rewrite Er, bool_decide_eq_false_2 by (by intros [? ?]).
    pose proof (ensureCapacity_spec (e_grow env) ((ix_count ix + 1) * rowBytes ix) ix) as Hcap.
    destruct (ensureCapacity _ _ _) as [ix1|er|] eqn:Ee; [| |done].
    + left. destruct Hcap as (Hsc & _ & Hfr).
      assert (Hid1 : ix_idMap ix1 = ix_idMap ix).
      { unfold ensureCapacity in Ee. destruct (_ <=? _); [by injection Ee as <-|]. destruct (e_grow env); [|done]. by injection Ee as <-. }
      unfold shadowRow, putRow, claimRow. rewrite Hid1, Er. unfold added_result. destruct (writeMetadata _ _ _ _) eqn:Ew; [done|done|by apply writeMetadata_no_panic in Ew].
    + right. split; [apply Hcap|]. unfold ensureCapacity in Ee. destruct (_ <=? _); [done|]. destruct (e_grow env); [done|]. by injection Ee as <-.
Qed.

Lemma insertShadow_ok n s env id vec ix :
  shadow_ok level n s ix → n < 2 ^ 62 → e_meta env = true →
  let '(r, ix') := insertShadow level pool env id vec ix in
  match r with
  | Ok _ => zlen vec = v_dim s ∧ shadow_ok level (n + 1) (vput [(id, vec)] s) ix'
  | Err _ => shadow_ok level n s ix' ∧ (zlen vec ≠ v_dim s ∨ e_grow env = false)
  | Panic => False
  end.
Proof.
  intros Hok Hn Hm. pose proof Hok as [Hix Hc Hall (D1 & D2 & D3)]. destruct (decide (zlen vec = ix_dim ix)) as [Hv|Hv].
  - destruct (insertShadow_eq n s env id vec ix Hok Hv) as [->|[Hg ->]]; [|split; [done|by right]].
    pose proof (bump_ok n s id ix Hok) as Hb. pose proof Hb as [Bix Bc Ball (B1 & B2 & B3)].
    pose proof (addVector_spec level pool level_ok pool_ok 0 (e_grow env) (e_recent env) (e_meta env) id vec (bump id ix) Bix ltac:(lia)) as Hspec.
    destruct (addVector _ _ _ _ _ _ _ _ _) as [err ix']. unfold added_result. cbn [fst snd]. destruct err as [e|].
    + destruct Hspec as [[-> Hwhy]|[? _]]; [|congruence]. split; [done|]. right. destruct Hwhy as [[_ Hd]|[(_ & ? & _)|[? _]]]; [|lia|done].
      rewrite B1, <- D1 in Hd. by destruct Hd.
    + destruct Hspec as [_ Had]. split; [congruence|]. pose proof (new_ids_few (bump id ix) [id]) as Hfew.
      split; [apply Had|rewrite (ad_count _ _ _ _ Had); change ([(id, vec)].*1) with [id]; cbn [length] in Hfew; lia| |].
      * intros x Hx. rewrite (ad_live _ _ _ _ Had). cbn [foldl]. unfold put. cbn [fst snd]. case_decide; [by eexists|].
        apply Ball. apply (ad_dom _ _ _ _ Had) in Hx as [Hx|?]; [|done]. change ([(id, vec)].*1) with [id] in Hx.
        by apply list_elem_of_singleton in Hx.
      * apply (added_describes level [(id, vec)] s (bump id ix)); [by split|done].
  - unfold insertShadow. destruct (Z.eqb_spec (zlen vec) (ix_dim ix)); [done|]. cbn [negb]. split; [done|]. left. congruence.
Qed.

Lemma InsertShadowVector_ok n env st F G key id vec :
  store_ok n st F G → 0 ≤ n < 2 ^ 62 → key ∈ K → e_open env (name key) = true → e_meta env = true →
  ∃ r st', InsertShadowVector level pool name env key id vec st = (r, st') ∧ same_config (snd st) (snd st') ∧
    match r with
    | Ok _ => ∃ s, G key = Some s ∧ zlen vec = v_dim s ∧ store_ok (n + 1) st' F (upd key (Some (vput [(id, vec)] s)) G)
    | Err _ => store_ok (n + 1) st' F G
    | Panic => False
    end.
Proof.
  intros Hs Hn Hk Hop Hm. unfold InsertShadowVector.
  destruct (getReadOnly_ok level pool name K level_ok pool_ok name_inj n env st F G key Hs ltac:(lia) Hk Hop) as (r & st1 & -> & Hs1 & Hc & Hr).
  assert (Hmono : ∀ st2, store_ok n st2 F G → store_ok (n + 1) st2 F G) by (intros st2; apply store_ok_mono; lia).
  destruct r as [h|]; [|destruct Hr as (-> & _); eexists _, st; split; [done|]; split; [done|by apply Hmono]].
  destruct Hr as [o Ho]. destruct (opened_ok _ _ _ _ _ _ _ _ _ _ _ Hs1 Ho) as (_ & k & HF & [O1 O2 O3 O4 O5]).
  rewrite (on_obj_opened st1 key h o) by done. unfold insertShadowVector. destruct (G key) as [s|] eqn:EG.
  - destruct O5 as (ix & -> & Hmig & Hpath & Hsd & Hse & Hso). rewrite Hmig. cbn [negb].
    destruct (validateVector id vec) as [[]|e|] eqn:Ev; cbn [fst snd].
    + pose proof (insertShadow_ok n s env id vec ix Hso ltac:(lia) Hm) as Hspec. destruct (insertShadow level pool env id vec ix) as [r ix'].
      destruct r as [[]|e|]; cbn [fst snd]; [| |done].
      * destruct Hspec as [Hv Hso']. apply (store_ok_mono _ _ _ _ _ (n + 1)) in Hs1; [|lia].
        destruct (write_obj_ok level pool name K name_inj name_shadow (n + 1) st1 F G key h o
          (with_shadow (Some ix') (ob_shadowPath o) true (ob_shadowDim o) (ob_shadowEncoding o) o) k (Some (vput [(id, vec)] s)) Hs1 Ho) as [H1 _].
        { split; try done; [cbn; lia|]. exists ix'. by conjs. }
        eexists _, _. split; [done|]. split; [by eapply same_config_trans|]. exists s. conjs; try done.
        eapply store_ok_eq; [|done|exact H1]. intros x. rewrite <- HF. symmetry. apply upd_same.
      * destruct Hspec as [Hso' _].
        destruct (write_obj_ok level pool name K name_inj name_shadow n st1 F G key h o
          (with_shadow (Some ix') (ob_shadowPath o) true (ob_shadowDim o) (ob_shadowEncoding o) o) k (Some s) Hs1 Ho) as [H1 _].
        { split; try done. exists ix'. by conjs. }
        eexists _, _. split; [done|]. split; [by eapply same_config_trans|]. apply Hmono.
        eapply store_ok_eq; [| |exact H1]; intros x; [rewrite <- HF|rewrite <- EG]; symmetry; apply upd_same.
    + eexists _, _. split; [done|]. split; [done|]. destruct st1. by apply Hmono.
    + exfalso. revert Ev. unfold validateVector. by repeat case_match.
  - destruct O5 as [-> _]. eexists _, _. split; [done|]. split; [done|]. destruct st1. by apply Hmono.
Qed.

(** The three promotions move all the files of the shadow. *)
Lemma promote_files live shadow vs :
  live ≠ shadow → files live (promote_hnsw live shadow (promote_meta live shadow (promote_rows live shadow vs))) = files shadow vs.
Proof.
  intros Hne. unfold promote_hnsw, promote_meta, promote_rows, files. cbn.
  repeat (rewrite lookup_insert_eq || rewrite lookup_insert_ne by done). cbn.
  by destruct (vs_disk vs !! shadow) as [[]|].
Qed.

Lemma promote_other live shadow vs p :
  p ≠ live → p ≠ shadow →
  vs_disk (promote_hnsw live shadow (promote_meta live shadow (promote_rows live shadow vs))) !! p = vs_disk vs !! p.
Proof. intros H1 H2. unfold promote_hnsw, promote_meta, promote_rows. cbn. by rewrite !lookup_insert_ne by done. Qed.

Lemma SwapMigration_ok n env st F G key :
  store_ok n st F G → 0 ≤ n ≤ 2 ^ 62 → key ∈ K → e_open env (name key) = true → e_meta env = true → e_hnsw env = true →
  ∃ r st', SwapMigration level pool name env key st = (r, st') ∧ same_config (snd st) (snd st') ∧
    match F key, G key with
    | Some _, Some s => r = Ok tt ∧ store_ok n st' (upd key (Some s) F) (upd key None G) ∨
                        (∃ e, r = Err e) ∧ (∀ x, v_map s x = None) ∧ store_ok n st' F G
    | Some _, None => r = Ok tt ∧ store_ok n st' F G
    | None, _ => (∃ e, r = Err e) ∧ store_ok n st' F G
    end.
Proof.
  intros Hs Hn Hk Hop Hm Hh. unfold SwapMigration.
  destruct (getReadOnly_ok level pool name K level_ok pool_ok name_inj n env st F G key Hs ltac:(lia) Hk Hop) as (r & st1 & -> & Hs1 & Hc & Hr).
  destruct r as [h|]; [|destruct Hr as (-> & _ & ->); eexists _, st; split; [done|]; split; [done|]; split; [by eexists|done]].
  destruct Hr as [o Ho]. destruct (opened_ok _ _ _ _ _ _ _ _ _ _ _ Hs1 Ho) as (_ & k & HF & [O1 O2 O3 O4 O5]).
  rewrite (on_obj_opened st1 key h o) by done. unfold swapMigration. rewrite HF. destruct (G key) as [s|] eqn:EG.
  2: { destruct O5 as [-> _]. eexists _, _. split; [done|]. split; [done|]. split; [done|]. by destruct st1. }
  destruct O5 as (ix & -> & Hmig & Hpath & Hsd & Hse & Hso). rewrite Hmig. cbn [negb]. pose proof Hso as [Hix Hcnt Hall Hdesc].
  pose proof (io_tables _ _ Hix) as T. destruct (Z.eqb_spec (ix_count ix) 0) as [H0|H0]; cbn [fst snd].
  { eexists _, _. split; [done|]. split; [done|]. right. split; [by eexists|]. split; [|by destruct st1].
    intros x. destruct Hdesc as (_ & _ & <-). unfold live. destruct (ix_idMap ix !! x) as [row|] eqn:Er; [|done].
    apply (to_row _ _ _ T) in Er. lia. }
  rewrite O1, Hpath. set (vs1 := set_files (shadowFile key) (close_files env ix) _). set (vs2 := promote_hnsw _ _ _).
  assert (Hns : name key ≠ shadowFile key) by (by apply name_shadow).
  assert (Hf : files (name key) vs2 = closeIndex ix).
  { subst vs2. rewrite promote_files by done. unfold files, vs1. cbn. rewrite lookup_insert_eq. unfold close_files. by rewrite Hm, Hh. }
  pose proof (io_encoding _ _ Hix) as Henc.
  assert (He : NormalizeVectorEncoding (ix_encoding ix) = Ok (ix_encoding ix)) by (by destruct Henc as [-> | ->]).
  destruct (reopen_spec level pool level_ok pool_ok ix 1000 _ _ Hix He ltac:(lia)) as (ix' & E & Hix' & R1 & R2 & R3 & R4).
  rewrite (openFile_ok level pool env (name key) (ix_dim ix) 1000 (ix_encoding ix) _ vs2 ix' He Hop (to_dim _ T) ltac:(by rewrite Hf)). cbn [fst snd].
  destruct st1 as [kv vs]. cbn [fst snd] in *.
  destruct (store_ok_disk n kv vs (set_files (name key) (crashIndex ix') vs2) F G key h o Hs1 Ho) as [Hs2 Ho2]; try done.
  { intros k1 Hk1 Hne. pose proof (opened_name _ _ _ _ _ _ _ k1 Hs1 Ho Hk1 Hne) as N1. pose proof (opened_shadow _ _ _ _ _ _ _ k1 Hs1 Ho Hk1) as N2.
    cbn [set_files set_objs vs_disk]. rewrite lookup_insert_ne by done. subst vs2. rewrite promote_other by done. subst vs1.
    cbn [set_files set_objs vs_disk]. by rewrite !lookup_insert_ne by done. }
  destruct (write_obj_ok level pool name K name_inj name_shadow n _ F G key h o
    (with_shadow None (shadowFile key) false (ob_shadowDim o) (ob_shadowEncoding o) (with_index ix' o)) s None Hs2 Ho2) as [H1 _].
  { split; try done; [cbn; lia|]. destruct Hdesc as (D1 & D2 & D3). split; [cbn; congruence|]. split; [cbn; congruence|].
    intros x. cbn. by rewrite R4. }
  eexists _, _. split; [done|]. split; [done|]. left. split; [done|]. exact H1.
Qed.

Lemma CancelMigration_ok n env st F G key :
  store_ok n st F G → 0 ≤ n → key ∈ K → e_open env (name key) = true → e_open env (shadowFile key) = true →
  ∃ r st', CancelMigration level pool name env key st = (r, st') ∧ same_config (snd st) (snd st') ∧
    (r = Ok tt ↔ F key ≠ None) ∧ store_ok n st' F (upd key None G).
Proof.
  intros Hs Hn Hk Hop Hop'. unfold CancelMigration.
  destruct (getReadOnly_ok level pool name K level_ok pool_ok name_inj n env st F G key Hs ltac:(lia) Hk Hop) as (r & st1 & -> & Hs1 & Hc & Hr).
  assert (Hkeep : ∀ st2, store_ok n st2 F G → G key = None → store_ok n st2 F (upd key None G)).
  { intros st2 H2 EG. eapply store_ok_eq; [done| |exact H2]. intros x. rewrite <- EG. apply upd_same. }
  destruct r as [h|].
  - destruct Hr as [o Ho]. destruct (opened_ok _ _ _ _ _ _ _ _ _ _ _ Hs1 Ho) as (_ & k & HF & [O1 O2 O3 O4 O5]).
    rewrite (on_obj_opened st1 key h o) by done. unfold cancelMigration. rewrite HF. destruct (G key) as [s|] eqn:EG.
    + destruct O5 as (ix & Hsh & Hmig & Hpath & _). rewrite Hmig, Hsh, Hpath, Hop'. cbn [negb fst snd].
      destruct (write_obj_ok level pool name K name_inj name_shadow n st1 F G key h o (with_shadow None (shadowFile key) false 0 "" o) k None Hs1 Ho) as [H1 H2].
      { by split. }
      destruct st1 as [kv vs]. cbn [fst snd] in *.
      destruct (store_ok_disk n kv _ (remove_files (shadowFile key) (write_obj h (with_shadow None (shadowFile key) false 0 "" o) vs)) _ _ key h _ H1 H2) as [H3 _]; try done.
      { intros k1 Hk1 _. cbn [remove_files set_objs vs_disk]. apply lookup_delete_ne. intros E. by apply (opened_shadow _ _ _ _ _ _ _ k1 Hs1 Ho). }
      eexists _, _. split; [done|]. split; [done|]. split; [done|]. eapply store_ok_eq; [|done|exact H3].
      intros x. rewrite <- HF. symmetry. apply upd_same.
    + destruct O5 as [Hsh Hmig]. rewrite Hmig. cbn [negb fst snd]. eexists _, _. split; [done|]. split; [done|]. split; [done|].
      apply Hkeep; [|done]. by destruct st1.
  - destruct Hr as (-> & Hcl & HF). eexists _, st. split; [done|]. split; [done|]. rewrite HF. split; [done|].
    apply Hkeep; [done|]. pose proof (so_keys _ _ _ _ _ _ _ _ Hs key Hk) as Hh. unfold VectorsCorrect.holds in Hh.
    destruct (view (fst st) !! key) as [e|] eqn:Ee; [|by destruct Hh]. destruct Hh as (Ht & Hx & Hh).
    destruct (Value e) eqn:Ev; try done; [by destruct Hh|]. destruct Hh as (o & k' & Ho & _). destruct (Hcl idx o). by exists e.
Qed.
End Ops.
