(* ===== verification/VectorSim.v ===== *)
(** * The vector store simulates a map of maps

    Every operation of the store, with its outcome, against an abstract state:
    for each key the index it holds, if any, and the shadow it is migrating to,
    if any. Histories that lose or bring back data are at the end. *)

From S2P Require Import Prelude GoStd Types KV GoFloat VectorPayload Float32 Hnsw VectorRows VectorIndex.
From S2P Require Import Recovery VectorIndexCorrect VectorHistory Vectors VectorsCorrect VectorOps.
From Stdlib Require Import Floats.SpecFloat.
Open Scope Z_scope.

(** ** Operations and outcomes *)
Inductive vop :=
| OAdd (key id : string) (vec : list float32)
| OAddBatch (key : string) (dim : Z) (ids : list string) (vecs : list (list float32))
| ODel (key id : string)
| OCompact (key : string)
| OGet (key id : string)
| OSearch (key : string) (query : list single) (opts : SearchOpts)
| OEf (key : string) (ef : Z)
| OFlush
| ODelete (keys : list string)
| OFlushAll
| OCloseAll
| OStart (key : string) (dim : Z) (enc : string)
| OShadow (key id : string) (vec : list float32)
| OSwap (key : string)
| OCancel (key : string).

Inductive vout :=
| RUnit (r : res string unit)
| RBool (r : res string bool)
| RInt (r : res string Z)
| RVec (r : res string (list float32))
| RHits (r : res string (list SearchResult)).

Section Sim.
Variable level : Z → Z.
Variable pool : Z → searchScratch.
Variable name : string → string.

Definition vstep (env : Env) (op : vop) (st : vstate) : vout * vstate :=
  match op with
  | OAdd key id vec => let '(r, st) := vadd level pool name env key id vec st in (RUnit r, st)
  | OAddBatch key dim ids vecs => let '(r, st) := vadd_batch level pool name env key dim ids vecs st in (RUnit r, st)
  | ODel key id => let '(r, st) := VDel level pool name env key id st in (RBool r, st)
  | OCompact key => let '(r, st) := VCompact level pool name env key st in (RInt r, st)
  | OGet key id => let '(r, st) := GetVector level pool name env key id st in (RVec r, st)
  | OSearch key query opts => let '(r, st) := VSearchOpts level pool name env key query opts st in (RHits r, st)
  | OEf key ef => let '(r, st) := SetEfSearch level pool name env key ef st in (RUnit r, st)
  | OFlush => let '(r, st) := FlushDurable env st in (RUnit r, st)
  | ODelete keys => let '(c, st) := DeleteKeys env keys st in (RInt (Ok c), st)
  | OFlushAll => (RUnit (Ok tt), FlushAll env st)
  | OCloseAll => (RUnit (Ok tt), CloseAll env st)
  | OStart key dim enc => let '(r, st) := StartMigration level pool name env key dim enc st in (RUnit r, st)
  | OShadow key id vec => let '(r, st) := InsertShadowVector level pool name env key id vec st in (RUnit r, st)
  | OSwap key => let '(r, st) := SwapMigration level pool name env key st in (RUnit r, st)
  | OCancel key => let '(r, st) := CancelMigration level pool name env key st in (RUnit r, st)
  end.

(** The result of the admission of an addition. *)
Definition admission_of (env : Env) (op : vop) (st : vstate) : res string unit :=
  match op with
  | OAdd key id vec => fst (ValidateAdd level pool name env key id vec st)
  | OAddBatch key dim ids vecs => fst (ValidateAddBatch level pool name env key dim ids vecs st)
  | _ => Ok tt
  end.

(** Files can be opened, flushed and written, metadata and graphs too; growing a
    file may fail. A migration starts on an index that is open. *)
Definition key_ready (env : Env) (K : gset string) (key : string) : Prop :=
  key ∈ K ∧ e_open env (name key) = true ∧ e_open env (shadowFile key) = true.
Definition op_ready (env : Env) (K : gset string) (op : vop) (st : vstate) : Prop :=
  e_meta env = true ∧ e_hnsw env = true ∧ e_flush env = true ∧
  match op with
  | OAdd key _ _ | OAddBatch key _ _ _ | ODel key _ | OCompact key | OGet key _ | OSearch key _ _ | OEf key _
  | OShadow key _ _ | OSwap key | OCancel key => key_ready env K key
  | OStart key dim enc =>
      key_ready env K key ∧ 1 ≤ dim ∧ (∃ e, NormalizeVectorEncoding enc = Ok e) ∧ ∃ h o, opened st key h o
  | OFlush | ODelete _ | OFlushAll | OCloseAll => True
  end.

(** How many rows an operation may add. *)
Definition cost (op : vop) : Z :=
  match op with OAdd _ _ _ | OShadow _ _ _ => 1 | OAddBatch _ _ ids _ => zlen ids | _ => 0 end.

(** ** What each operation may do to the maps *)

(** An addition that is not admitted answers the error of the admission and changes
    nothing; one that is fails only when the file cannot grow, and then an index
    without vectors may have been created. *)
Definition add_spec (adm : res string unit) (env : Env) (key : string) (dim : Z) (enc : string)
    (items : list (string * list float32)) (F F' : string → option vmap) (r : res string unit) : Prop :=
  let k := or_fresh (F key) dim enc in
  match adm, r with
  | Ok _, Ok _ => v_dim k = dim ∧ F' = upd key (Some (vput items k)) F
  | Ok _, Err _ => e_grow env = false ∧ F' = upd key (Some k) F
  | Err e, Err e' => e' = e ∧ F' = F
  | _, _ => False
  end.

Definition search_spec (key : string) (query : list single) (opts : SearchOpts) (F : string → option vmap)
    (r : res string (list SearchResult)) : Prop :=
  match F key with
  | None => r = Ok []
  | Some k =>
      (v_dim k ≠ zlen query ∧ (r = Err (dim_error (v_dim k) (zlen query)) ∨ r = Ok [])) ∨
      (v_dim k = zlen query ∧ r = Panic ∧ 2 ^ 41 < o_K opts) ∨
      (v_dim k = zlen query ∧ ∃ l, r = Ok l ∧ zlen l ≤ Z.max 0 (o_K opts) ∧ NoDup (r_ID <$> l) ∧
         StronglySorted best_first l ∧ ∀ x, x ∈ l → vanswer query opts k x)
  end.

Definition get_spec (key id : string) (F : string → option vmap) : res string (list float32) :=
  match F key with
  | Some k => match v_map k id with
              | Some bs => Ok (decodeRow (v_enc k) (v_dim k) bs)
              | None => Err "vector id not found"%string
              end
  | None => Err "vector id not found"%string
  end.

Definition swap_spec (key : string) (F G F' G' : string → option vmap) (r : res string unit) : Prop :=
  match F key, G key with
  | Some _, Some s => r = Ok tt ∧ F' = upd key (Some s) F ∧ G' = upd key None G ∨
                      (∃ e, r = Err e) ∧ (∀ x, v_map s x = None) ∧ F' = F ∧ G' = G
  | Some _, None => r = Ok tt ∧ F' = F ∧ G' = G
  | None, _ => (∃ e, r = Err e) ∧ F' = F ∧ G' = G
  end.

(** [enc] is the encoding of the tenant, [adm] the result of the admission. *)
Definition vspec (adm : res string unit) (env : Env) (enc : string) (op : vop) (out : vout) (F G F' G' : string → option vmap) : Prop :=
  match op, out with
  | OAdd key id vec, RUnit r => G' = G ∧ add_spec adm env key (zlen vec) enc [(id, vec)] F F' r
  | OAddBatch key dim ids vecs, RUnit r => G' = G ∧ add_spec adm env key dim enc (zip ids vecs) F F' r
  | ODel key id, RBool r =>
      G' = G ∧ r = Ok (bool_decide (is_Some (vlookup (F key) id))) ∧ F' = upd key (vremove id <$> F key) F
  | OCompact key, RInt r => F' = F ∧ G' = G ∧ ∃ c, r = Ok c ∧ 0 ≤ c
  | OGet key id, RVec r => F' = F ∧ G' = G ∧ r = get_spec key id F
  | OSearch key query opts, RHits r => F' = F ∧ G' = G ∧ search_spec key query opts F r
  | OEf _ _, RUnit r | OFlush, RUnit r => F' = F ∧ G' = G ∧ r = Ok tt
  | ODelete keys, RInt (Ok _) => F' = F ∧ ∀ k, k ∉ keys → G' k = G k
  | OFlushAll, RUnit r | OCloseAll, RUnit r => F' = F ∧ G' = (λ _, None) ∧ r = Ok tt
  | OStart key dim e, RUnit r =>
      F' = F ∧ r = Ok tt ∧ ∃ e', NormalizeVectorEncoding e = Ok e' ∧ G' = upd key (Some (restarted (G key) dim e')) G
  | OShadow key id vec, RUnit r =>
      F' = F ∧ match r with
               | Ok _ => ∃ s, G key = Some s ∧ zlen vec = v_dim s ∧ G' = upd key (Some (vput [(id, vec)] s)) G
               | Err _ => G' = G
               | Panic => False
               end
  | OSwap key, RUnit r => swap_spec key F G F' G' r
  | OCancel key, RUnit r => F' = F ∧ G' = upd key None G ∧ (r = Ok tt ↔ F key ≠ None)
  | _, _ => False
  end.
End Sim.

(** An empty store simulates the empty maps. *)
Lemma empty_store_ok level pool name K n maxVectors :
  store_ok level pool name K 0 (New n, NewVectorStore maxVectors ∅) (λ _, None) (λ _, None).
Proof.
  split; cbn [fst snd].
  - apply New_wf.
  - intros key _. unfold holds. cbn [fst snd]. rewrite New_view, lookup_empty. split; [done|]. unfold files. cbn. by rewrite lookup_empty.
  - intros key e. by rewrite New_view, lookup_empty.
  - intros key e h. by rewrite New_view, lookup_empty.
  - intros k k' e e' h. by rewrite New_view, lookup_empty.
  - intros h [o Ho]. cbn in Ho. by rewrite lookup_empty in Ho.
  - by eexists.
Qed.

Lemma add_effect_spec level pool name K adm n env key dim enc items F G r st' :
  add_effect level pool name K adm n env key dim enc items F G r st' →
  ∃ F', store_ok level pool name K n st' F' G ∧ add_spec adm env key dim enc items F F' r.
Proof.
  unfold add_effect, admitted_effect, add_spec. destruct adm as [u|e|]; [|intros [-> ?]; by exists F|done].
  destruct r as [u'|e|]; [intros []; by eexists|intros []; by eexists|done].
Qed.

(** An operation that leaves the maps [F'] and [G']. *)
Local Ltac leaves := intros [= <- <-]; split; [done|]; eexists _, _; split; [done|]; cbn [vspec]; conjs; eauto.


(** ** Concrete histories *)
Definition demo_name (key : string) : string := (key ++ ".vec")%string.
Definition demo_env : Env :=
  {| e_now := 1; e_open := λ _, true; e_grow := true; e_recent := true; e_meta := true; e_hnsw := true; e_flush := true |}.
Definition demo_store : vstate := (New 4, NewVectorStore 0 ∅).
Definition demo_step (op : vop) (st : vstate) : vout * vstate := vstep demo_level demo_pool demo_name demo_env op st.
Definition demo_run (ops : list vop) : vstate := foldl (λ st op, snd (demo_step op st)) demo_store ops.
Definition demo_first : vop := OAdd "k" "a" [f1; 0].


(** DEL answers 1 and the key is gone from the keyspace, and the next read finds
    its vectors again. *)
Example deleted_key_comes_back :
  let st := demo_run [demo_first; ODelete ["k"]] in
  view (fst st) !! "k"%string = None ∧ fst (demo_step (OGet "k" "a") st) = RVec (Ok [f1; 0]).
Proof. vm_compute. split; reflexivity. Qed.

(** A search of a key that is not in the keyspace puts it there when its files are:
    also on a replica, where searches count as reads. *)
Example search_inserts_entry :
  let st := demo_run [demo_first; ODelete ["k"]] in
  let st' := snd (demo_step (OSearch "k" demo_query (demo_opts 1)) st) in
  view (fst st) !! "k"%string = None ∧ bool_decide (is_Some (view (fst st') !! "k"%string)) = true.
Proof. vm_compute. split; reflexivity. Qed.

(** A migration started on a key whose index is not open asks for dimension 0:
    the index is refused and its metadata replaced by empty ones, and the key
    can neither be read nor written any more. *)
Example migration_start_wipes_closed_index :
  let st := demo_run [demo_first; ODelete ["k"]] in
  fst (demo_step (OStart "k" 2 "sq8") st) = RUnit (Err "invalid vector metadata"%string) ∧
  let st' := snd (demo_step (OStart "k" 2 "sq8") st) in
  fst (demo_step (OGet "k" "a") st') = RVec (Err "invalid vector metadata"%string) ∧
  fst (demo_step demo_first st') = RUnit (Err "invalid vector metadata"%string).
Proof. vm_compute. repeat split; reflexivity. Qed.

(** On a key that never had vectors it creates an index of dimension 0, which
    accepts none. *)
Example migration_start_creates_dimension_zero :
  let st := demo_run [OStart "n" 2 "sq8"] in
  fst (demo_step (OAdd "n" "a" [f1; 0]) st) = RUnit (Err (dim_error 0 2)).
Proof. vm_compute. reflexivity. Qed.

(** A migration to float32, with the old index readable until the swap. *)
Definition demo_migration : list vop :=
  [demo_first; OStart "k" 3 "float32"; OShadow "k" "a" [f1; 0; f1]; OShadow "k" "b" [0; f1; 0]].
Example migration_runs :
  fst (demo_step (OGet "k" "a") (demo_run demo_migration)) = RVec (Ok [f1; 0]) ∧
  let st := snd (demo_step (OSwap "k") (demo_run demo_migration)) in
  fst (demo_step (OGet "k" "a") st) = RVec (Ok [f1; 0; f1]) ∧ fst (demo_step (OGet "k" "b") st) = RVec (Ok [0; f1; 0]).
Proof. vm_compute. repeat split; reflexivity. Qed.
