(* ===== verification/VectorCrash.v ===== *)
(** * What a crash leaves of the vector store

    Histories of logged commands on the store (additions, batches, deletions)
    and of compactions, and what the files hold when the process dies after
    them. *)

From S2P Require Import Prelude GoStd Types KV Reaper GoFloat WAL VectorPayload Float32 Hnsw VectorRows VectorIndex.
From S2P Require Import Recovery VectorIndexCorrect VectorHistory Vectors VectorsCorrect VectorOps.
From Stdlib Require Import Floats.SpecFloat.
Open Scope Z_scope.

(** ** Logged commands *)
Inductive lcmd :=
| CAdd (key id : string) (vec : list float32)
| CBatch (key : string) (dim : Z) (ids : list string) (vecs : list (list float32))
| CDel (key id : string).

Definition cmd_key (c : lcmd) : string := match c with CAdd key _ _ | CBatch key _ _ _ | CDel key _ => key end.
Definition cmd_ops (c : lcmd) : list logged :=
  match c with
  | CAdd _ id vec => [LAdd id vec]
  | CBatch _ _ ids vecs => added_ops (zip ids vecs)
  | CDel _ id => [LDel id]
  end.
(** What the handlers check before they log a command. *)
Definition cmd_valid (c : lcmd) : Prop :=
  match c with
  | CAdd _ id vec => validateVector id vec = Ok tt ∧ Forall f32_ok vec
  | CBatch _ dim ids vecs => zlen ids ≠ 0 ∧ validateBatch dim ids vecs = Ok tt ∧ Forall (Forall f32_ok) vecs
  | CDel _ _ => True
  end.

Definition ops_of (key : string) (log : list lcmd) : list logged := mjoin (cmd_ops <$> filter (λ c, cmd_key c = key) log).
Definition log_size (log : list lcmd) : Z := zlen (mjoin (cmd_ops <$> log)).

Definition none : string → option (list byte) := λ _, None.
Definition logged_map (e : string) (base : string → option (list byte)) (ops : list logged) : string → option (list byte) :=
  foldl (log_effect e) base ops.

Lemma ops_of_snoc key log c : ops_of key (log ++ [c]) = if decide (cmd_key c = key) then ops_of key log ++ cmd_ops c else ops_of key log.
Proof.
  unfold ops_of. rewrite filter_app, fmap_app, join_app. case_decide as E.
  - rewrite filter_cons_True, filter_nil by done. cbn. by rewrite app_nil_r.
  - rewrite filter_cons_False, filter_nil by done. cbn. by rewrite app_nil_r.
Qed.

Lemma log_size_app a b : log_size (a ++ b) = log_size a + log_size b.
Proof. unfold log_size. by rewrite fmap_app, join_app, zlen_app. Qed.
Lemma log_size_one c : log_size [c] = zlen (cmd_ops c).
Proof. unfold log_size. cbn. by rewrite app_nil_r. Qed.
Lemma log_size_snoc log c : log_size (log ++ [c]) = log_size log + zlen (cmd_ops c).
Proof. by rewrite log_size_app, log_size_one. Qed.

Lemma log_size_nonneg log : 0 ≤ log_size log.
Proof. apply zlen_nonneg. Qed.

Lemma ops_of_length key log : zlen (ops_of key log) ≤ log_size log.
Proof.
  induction log as [|c log IH] using rev_ind; [done|]. rewrite ops_of_snoc, log_size_snoc. pose proof (zlen_nonneg (cmd_ops c)).
  case_decide; [rewrite zlen_app|]; lia.
Qed.

Lemma ops_of_elem key c op log : c ∈ log → cmd_key c = key → op ∈ cmd_ops c → op ∈ ops_of key log.
Proof.
  intros Hc Hk Hop. unfold ops_of. apply list_elem_of_join. exists (cmd_ops c). split; [done|].
  apply list_elem_of_fmap. exists c. split; [done|]. by apply list_elem_of_filter.
Qed.

Lemma batch_ops_size ids vecs : zlen ids = zlen vecs → zlen (added_ops (zip ids vecs)) = zlen ids.
Proof. unfold zlen, added_ops. rewrite length_fmap, length_zip. lia. Qed.

Lemma cmd_ops_cons c : cmd_valid c → cmd_ops c ≠ [].
Proof.
  destruct c as [key id vec|key dim ids vecs|key id]; cbn; [done| |done]. intros (H0 & Hv & _).
  destruct (validateBatch_dims _ _ _ Hv) as (Hl & _). intros E. pose proof (batch_ops_size ids vecs Hl). rewrite E in *. by unfold zlen in *.
Qed.

Section Crash.
Variable level : Z → Z.
Variable pool : Z → searchScratch.
Hypothesis level_ok : ∀ row, 0 ≤ level row ≤ 64.
Hypothesis pool_ok : ∀ row, scratch_ok (pool row).

(** ** One index *)
(** With rows and metadata, capacity and encoding of the tenant do not matter. *)
Lemma open_saved f meta dim c c' enc enc' e e' :
  f_meta f = Some meta → zlen (f_rows f) ≠ 0 → NormalizeVectorEncoding enc = Ok e → NormalizeVectorEncoding enc' = Ok e' →
  openIndex level pool f dim c enc = openIndex level pool f dim c' enc'.
Proof.
  intros Hm Hr He He'. unfold openIndex. rewrite He, He'. cbn [rbind]. rewrite Hm.
  destruct (Z.eqb_spec (zlen (f_rows f)) 0); [done|]. reflexivity.
Qed.

Lemma reopened_count ix0 ops ix1 ix2 : index_ok level ix1 → reopened level ix0 ops ix1 ix2 → ix_count ix2 ≤ ix_count ix1.
Proof.
  intros H1 (H2 & _ & _ & Hdom & _). rewrite (count_dom ix2), (count_dom ix1) by (eapply io_tables; done).
  apply inj_le, subseteq_size. intros x Hx%elem_of_dom. by apply elem_of_dom, Hdom.
Qed.

(** The index after the operations [ops], at a moment when its files say nothing
    or all of it: just created, or just compacted. *)
Record base_index (e : string) (ops : list logged) (ix : MMapVectorIndex) : Prop := {
  bi_ok : index_ok level ix;
  bi_encoding : ix_encoding ix = e;
  bi_live : ∀ x, live ix x = logged_map e none ops x;
  bi_count : ix_count ix ≤ zlen ops;
  bi_dims : ∀ id vec, LAdd id vec ∈ ops → zlen vec = ix_dim ix;
  bi_saved : (ix_meta ix = None ∧ ix_hnsw ix = None) ∨ (ix_meta ix = Some (metadata ix) ∧ saved_graphs_ok level ix)
}.

(** The files a crash leaves after more operations: nothing, or an index of the
    same dimension and encoding that differs in the names of these operations. *)
Lemma crash_at_rest maxVectors e pre post ix0 ix1 :
  base_index e pre ix0 → runs level pool maxVectors ix0 post ix1 → zlen pre + zlen post ≤ 2 ^ 62 →
  ∃ g, at_rest level pool (zlen pre + zlen post) (crashIndex ix1) g ∧
    ∀ k, g = Some k → v_dim k = ix_dim ix0 ∧ v_enc k = e ∧ ∀ x, x ∉ (logged_id <$> post) → v_map k x = live ix0 x.
Proof.
  intros [Hix Henc _ Hc _ Hsv] Hrun Hz. pose proof (zlen_nonneg post).
  pose proof (runs_ran level pool maxVectors level_ok pool_ok ix0 post ix1 Hrun Hix ltac:(lia)) as R. pose proof (rn_ok _ _ _ _ R) as Hix1.
  assert (Hsg : saved_graphs_ok level ix0) by (destruct Hsv as [[_ Hh]|[_ ?]]; [unfold saved_graphs_ok; by rewrite Hh|done]).
  assert (Hcase : (ix_meta ix1 = None ∧ ix_hnsw ix1 = None) ∨
    ∃ a b im, post = a ++ b ∧ ran level a ix0 im ∧ ran level b im ix1 ∧ ix_meta ix1 = Some (metadata im)).
  { destruct (runs_meta level pool maxVectors level_ok pool_ok ix0 post ix1 Hrun Hix ltac:(lia)) as [E|?]; [|by right].
    rewrite E, (rn_hnsw _ _ _ _ R). destruct Hsv as [?|[Hm _]]; [by left|right]. exists [], post, ix0. conjs; try done. by apply ran_nil. }
  destruct Hcase as [[Hm Hh]|(a & b & im & Eab & Ra & Rb & Hm1)]; [exists None; by repeat split|].
  assert (Hopen : ∀ c enc e', NormalizeVectorEncoding enc = Ok e' →
    ∃ ix2, openIndex level pool (crashIndex ix1) (ix_dim ix0) c enc = Ok ix2 ∧ reopened level ix0 post ix1 ix2).
  { intros c enc e' He. by apply (crash_open_saved level pool maxVectors level_ok pool_ok ix0 post ix1 c enc e' a b im); try done; lia. }
  destruct (Hopen 0 "sq8"%string EncodingSQ8 eq_refl) as (ix2 & Ho2 & Hr2). exists (Some {| v_dim := ix_dim ix0; v_enc := e; v_map := live ix2 |}).
  split; [|intros k [= <-]; conjs; try done; cbn; by destruct Hr2 as (_ & _ & _ & _ & Hun)].
  cbn [at_rest v_dim]. split; [apply (to_dim _ (io_tables _ _ Hix))|]. split.
  { exists (metadata im). split; [done|]. cbn. by rewrite (rn_dim _ _ _ _ Ra). }
  intros c enc e' He. destruct (Hopen c enc e' He) as (ix2' & Ho2' & Hr2'). exists ix2'. split; [done|].
  pose proof Hr2' as (H1 & H2 & H3 & H4 & H5). split; [done|]. split.
  { pose proof (reopened_count _ _ _ _ Hix1 Hr2'). pose proof (rn_count _ _ _ _ R). lia. }
  split; [done|]. split; [cbn; congruence|]. intros x. cbn. destruct (decide (zlen (ix_mmap ix1) = 0)) as [Hz0|Hz0].
  - (* no rows at all *)
    pose proof (io_tables _ _ Hix1) as T. pose proof (to_room _ T) as Hroom. pose proof (rowBytes_pos _ (to_dim _ T)).
    assert (ix_count ix1 = 0) by (pose proof (to_count _ T) as Hcc; pose proof (zlen_nonneg (ix_idList ix1)); nia).
    assert (Hnone : ∀ y, ix_idMap ix1 !! y = None).
    { intros y. destruct (ix_idMap ix1 !! y) as [r|] eqn:Er; [|done]. apply (to_row _ _ _ T) in Er. lia. }
    destruct Hr2 as (_ & _ & _ & Hd2 & _). unfold live.
    assert (Hn2 : ix_idMap ix2 !! x = None) by (apply eq_None_not_Some; intros Hs%Hd2; rewrite Hnone in Hs; by destruct Hs).
    assert (Hn2' : ix_idMap ix2' !! x = None) by (apply eq_None_not_Some; intros Hs%H4; rewrite Hnone in Hs; by destruct Hs).
    by rewrite Hn2, Hn2'.
  - rewrite (open_saved (crashIndex ix1) (metadata im) (ix_dim ix0) c 0 enc "sq8" e' EncodingSQ8 Hm1 Hz0 He eq_refl) in Ho2'. congruence.
Qed.

(** A new index, and an index that was compacted. *)
Lemma base_new dim c enc e ix : 1 ≤ dim → NormalizeVectorEncoding enc = Ok e → openIndex level pool no_files dim c enc = Ok ix → base_index e [] ix.
Proof.
  intros Hd He Ho. destruct (open_blank level pool level_ok pool_ok no_files dim c enc e eq_refl eq_refl Hd He)
    as (ix' & Ho' & Hix & Hc & Hdim & Henc & Hmap & Hm & Hh & _). rewrite Ho in Ho'. injection Ho' as <-.
  split; try done; [intros x; by apply empty_live|by rewrite Hc|by intros ? ? ?%not_elem_of_nil|by left].
Qed.

Lemma base_compacted maxVectors flush_ok meta_ok hnsw_ok e pre post ix0 ix1 c ix2 :
  base_index e pre ix0 → runs level pool maxVectors ix0 post ix1 → zlen pre + zlen post ≤ 2 ^ 62 →
  compact level pool flush_ok meta_ok hnsw_ok ix1 = (Ok c, ix2) → ix2 = ix1 ∨ base_index e (pre ++ post) ix2.
Proof.
  intros [Hix Henc Hlive Hc Hdims _] Hrun Hz Hcp. pose proof (zlen_nonneg post).
  pose proof (runs_ran level pool maxVectors level_ok pool_ok ix0 post ix1 Hrun Hix ltac:(lia)) as [R1 R2 R3 R4 R5 R6 R7 R8 R9].
  destruct (compact_saved level pool level_ok pool_ok flush_ok meta_ok hnsw_ok ix1 c ix2 Hcp R1 ltac:(lia)) as [?|Hsv]; [by left|right].
  pose proof (compact_spec level pool flush_ok meta_ok hnsw_ok ix1 level_ok pool_ok R1 ltac:(lia)) as Hs. rewrite Hcp in Hs.
  destruct Hs as (C1 & C2 & C3 & C4 & C5 & C6 & _). split; try done; [congruence| | | |by right].
  - intros x. rewrite C1, R8, Henc. unfold logged_map. rewrite foldl_app. by apply log_fold_ext.
  - rewrite zlen_app, C6. pose proof (length_live_rows ix1). rewrite (to_count _ (io_tables _ _ R1)) in R4. unfold zlen in *. lia.
  - intros id vec [Hin|Hin]%elem_of_app; [by rewrite (Hdims _ _ Hin); congruence|]. destruct (R9 _ _ Hin). congruence.
Qed.
End Crash.

(** ** The store *)
Section Log.
Variable level : Z → Z.
Variable pool : Z → searchScratch.
Variable name : string → string.
Variable K : gset string.
Hypothesis level_ok : ∀ row, 0 ≤ level row ≤ 64.
Hypothesis pool_ok : ∀ row, scratch_ok (pool row).
Hypothesis name_inj : ∀ k k', k ∈ K → k' ∈ K → name k = name k' → k = k'.
Hypothesis name_shadow : ∀ k k', k ∈ K → k' ∈ K → name k ≠ shadowFile k'.

(** A tenant without files, and what happens to it: commands that are logged and
    succeed, and compactions, which are not logged. *)
Definition new_tenant (maxVectors maxMemory : Z) (enc : string) : VecStore :=
  {| vs_maxVectors := maxVectors; vs_maxMemory := maxMemory; vs_encoding := enc; vs_objs := ∅; vs_next := 0; vs_disk := ∅ |}.

Inductive performed (shards maxVectors maxMemory : Z) (enc : string) : list lcmd → vstate → Prop :=
| pf_nil : performed shards maxVectors maxMemory enc [] (New shards, new_tenant maxVectors maxMemory enc)
| pf_add log st env key id vec st' :
    performed shards maxVectors maxMemory enc log st → key ∈ K → e_open env (name key) = true → e_meta env = true →
    cmd_valid (CAdd key id vec) → VAdd level pool name env key id vec st = (Ok tt, st') →
    performed shards maxVectors maxMemory enc (log ++ [CAdd key id vec]) st'
| pf_batch log st env key dim ids vecs st' :
    performed shards maxVectors maxMemory enc log st → key ∈ K → e_open env (name key) = true → e_meta env = true →
    cmd_valid (CBatch key dim ids vecs) → VAddBatch level pool name env key dim ids vecs st = (Ok tt, st') →
    performed shards maxVectors maxMemory enc (log ++ [CBatch key dim ids vecs]) st'
| pf_del log st env key id st' :
    performed shards maxVectors maxMemory enc log st → key ∈ K → e_open env (name key) = true →
    VDel level pool name env key id st = (Ok true, st') →
    performed shards maxVectors maxMemory enc (log ++ [CDel key id]) st'
| pf_compact log st env key c st' :
    performed shards maxVectors maxMemory enc log st → key ∈ K → e_open env (name key) = true →
    VCompact level pool name env key st = (Ok c, st') →
    performed shards maxVectors maxMemory enc log st'.

Abbreviation store_ok := (store_ok level pool name K).

(** Keys without logged commands have no files; the others are open, and their
    index is the result of their commands. *)
Definition fresh_key (st : vstate) (key : string) : Prop :=
  (∀ h o, ¬ opened st key h o) ∧ vs_disk (snd st) !! name key = None.

Definition result_of (maxVectors : Z) (e : string) (ops : list logged) (ix : MMapVectorIndex) : Prop :=
  ∃ pre post ix0, ops = pre ++ post ∧ base_index level e pre ix0 ∧ runs level pool maxVectors ix0 post ix.
Definition worked_key (maxVectors : Z) (e : string) (ops : list logged) (st : vstate) (key : string) : Prop :=
  ∃ h o, opened st key h o ∧ result_of maxVectors e ops (ob_index o) ∧
    vs_disk (snd st) !! name key = Some (crashIndex (ob_index o)).

Record performed_ok (maxVectors : Z) (enc e : string) (log : list lcmd) (st : vstate) : Prop := {
  po_store : ∃ F, store_ok (log_size log) st F (λ _, None);
  po_max : vs_maxVectors (snd st) = maxVectors;
  po_enc : vs_encoding (snd st) = enc;
  po_fresh : ∀ key, key ∈ K → ops_of key log = [] → fresh_key st key;
  po_worked : ∀ key, key ∈ K → ops_of key log ≠ [] → worked_key maxVectors e (ops_of key log) st key;
  po_cmds : ∀ c, c ∈ log → cmd_key c ∈ K ∧ cmd_valid c
}.

Lemma runs_snoc maxVectors ix ops ix1 now ix2 :
  runs level pool maxVectors ix ops ix1 → performs level pool maxVectors now ix1 ix2 → runs level pool maxVectors ix (ops ++ now) ix2.
Proof.
  induction 1 as [ix|ix now' ix' ops ix'' Hp _ IH]; intros Hlast.
  - rewrite <- (app_nil_r ([] ++ now)). eapply run_cons; [done|apply run_nil].
  - rewrite <- app_assoc. eapply run_cons; [done|]. by apply IH.
Qed.

Lemma result_step maxVectors e ops ix now ix' :
  result_of maxVectors e ops ix → performs level pool maxVectors now ix ix' → result_of maxVectors e (ops ++ now) ix'.
Proof.
  intros (pre & post & ix0 & -> & Hb & Hr) Hp. exists pre, (post ++ now), ix0. rewrite app_assoc. conjs; try done. by eapply runs_snoc.
Qed.

Lemma write_framed n st F G key h o o' :
  store_ok n st F G → opened st key h o → ob_path o' = name key → ob_shadow o' = None →
  framed name K key st (fst st, write_obj h o' (snd st)) ∧
  vs_disk (write_obj h o' (snd st)) !! name key = Some (crashIndex (ob_index o')).
Proof.
  intros Hs Hop Hp Hsh. unfold write_obj. rewrite Hsh, Hp. split; [|cbn; by rewrite lookup_insert_eq].
  intros k Hk Hne. cbn [fst snd]. split; [done|]. split.
  - cbn. apply lookup_insert_ne. intros E. by apply (opened_name level pool name K name_inj _ _ _ _ _ _ _ k Hs Hop Hk Hne).
  - intros e h' He Hv. cbn. apply lookup_insert_ne. intros <-. destruct Hop as (e' & He' & _ & _ & Hv' & _).
    apply Hne. by eapply (so_handles _ _ _ _ _ _ _ _ Hs).
Qed.

(** The keys another command does not touch. *)
Lemma framed_fresh key st st' k : framed name K key st st' → k ∈ K → k ≠ key → fresh_key st k → fresh_key st' k.
Proof.
  intros Hf Hk Hne [H1 H2]. destruct (Hf k Hk Hne) as (_ & Hd & _). split; [|by rewrite Hd].
  intros h o Ho. exact (H1 h o (proj1 (framed_opened name K key st st' k h o Hf Hk Hne) Ho)).
Qed.

Lemma framed_worked maxVectors e ops key st st' k :
  framed name K key st st' → k ∈ K → k ≠ key → worked_key maxVectors e ops st k → worked_key maxVectors e ops st' k.
Proof.
  intros Hf Hk Hne (h & o & H1 & H2 & H3). destruct (Hf k Hk Hne) as (_ & Hd & _).
  exists h, o. rewrite Hd. conjs; try done. exact (proj2 (framed_opened name K key st st' k h o Hf Hk Hne) H1).
Qed.

(** The result of an operation on the index of an open key. *)
Lemma written {A} (none : res string A) f st key h o a st' :
  on_obj none (λ h o vs, on_index (f vs) h o vs) (Ok (Some h), st) = (a, st') → opened st key h o →
  ∃ ix, f (snd st) (ob_index o) = (a, ix) ∧ st' = (fst st, write_obj h (with_index ix o) (snd st)).
Proof.
  intros Hf Hop. rewrite (on_obj_opened st key h o) in Hf by done. unfold on_index in Hf.
  destruct (f (snd st) (ob_index o)) as [a' ix] eqn:E. exists ix. cbn in Hf. by injection Hf as -> <-.
Qed.

Lemma written_opened st key h o ix : opened st key h o → opened (fst st, write_obj h (with_index ix o) (snd st)) key h (with_index ix o).
Proof. intros (e1 & He1 & Ht1 & Hx1 & Hv1 & Ho1). exists e1. conjs; try done. cbn. by rewrite lookup_insert_eq. Qed.

Lemma added_none p ix : added_result p = (Ok tt, ix) → p = (None, ix).
Proof. destruct p as [[e|] ix']; cbn; [done|]. by intros [= <-]. Qed.

Lemma opened_unique st key h o h' o' : opened st key h o → opened st key h' o' → h = h' ∧ o = o'.
Proof. intros (e & He & _ & _ & Hv & Ho) (e' & He' & _ & _ & Hv' & Ho'). assert (h = h') as <- by congruence. split; congruence. Qed.

(** An open key is found as it is. *)
Lemma readonly_opened env st key h o :
  kv_wf (fst st) → opened st key h o → getReadOnly level pool name env key st = (Ok (Some h), st).
Proof.
  intros Hwf (e & He & Ht & Hx & Hv & Ho). unfold getReadOnly, GetForRead. rewrite <- view_lookup, He by done.
  unfold IsExpired. rewrite Hx. cbn [Z.eqb]. rewrite bool_decide_eq_true_2 by done. cbn [negb]. by rewrite Hv.
Qed.

(** A key without files holds nothing. *)
Lemma fresh_holds n st F key : store_ok n st F (λ _, None) → key ∈ K → fresh_key st key → F key = None.
Proof.
  intros Hs Hk [Hcl Hd]. pose proof (so_keys _ _ _ _ _ _ _ _ Hs key Hk) as Hh. unfold holds, files in Hh. rewrite Hd in Hh.
  assert (Hr : at_rest level pool n no_files (F key)).
  { destruct (view (fst st) !! key) as [e|] eqn:Ee; [|by destruct Hh]. destruct Hh as (Ht & Hx & Hh).
    destruct (Value e) eqn:Ev; try done; [by destruct Hh|]. destruct Hh as (o & k & Ho & _). destruct (Hcl idx o). by exists e. }
  destruct (F key) as [k|]; [|done]. destruct Hr as (_ & (meta & Hm & _) & _). done.
Qed.

(** Reads and accesses of the store do not change it. *)
Lemma performed_readonly maxVectors enc e log st env key :
  performed_ok maxVectors enc e log st → key ∈ K → e_open env (name key) = true →
  ∃ r, getReadOnly level pool name env key st = (Ok r, st) ∧
    match r with Some h => ∃ o, opened st key h o ∧ ops_of key log ≠ [] | None => ops_of key log = [] end.
Proof.
  intros [[F Hs] Hmax Henc Hfr Hwk _] Hk Hop. destruct (decide (ops_of key log = [])) as [E|E].
  - destruct (getReadOnly_ok level pool name K level_ok pool_ok name_inj _ env st F _ key Hs (log_size_nonneg _) Hk Hop)
      as (r & st' & -> & Hs' & _ & Hr). destruct r as [h|]; [exfalso|].
    + destruct Hr as [o Ho]. destruct (opened_ok _ _ _ _ _ _ _ _ _ _ _ Hs' Ho) as (_ & k & HF & _).
      by rewrite (fresh_holds (log_size log) st F key Hs Hk (Hfr key Hk E)) in HF.
    + destruct Hr as (-> & _). by exists None.
  - destruct (Hwk key Hk E) as (h & o & Ho & _). exists (Some h).
    rewrite (readonly_opened env st key h o (so_wf _ _ _ _ _ _ _ _ Hs) Ho). split; [done|]. by exists o.
Qed.

(** The object an addition works on. *)
Lemma performed_access maxVectors enc e log st env key dim :
  performed_ok maxVectors enc e log st → NormalizeVectorEncoding enc = Ok e → key ∈ K → e_open env (name key) = true → 1 ≤ dim →
  ∃ h o st1 F k, getOrCreate level pool name env key dim st = (Ok h, st1) ∧ opened st1 key h o ∧
    store_ok (log_size log) st1 F (λ _, None) ∧ F key = Some k ∧ framed name K key st st1 ∧ same_config (snd st) (snd st1) ∧
    result_of maxVectors e (ops_of key log) (ob_index o).
Proof.
  intros [[F Hs] Hmax Henc Hfr Hwk _] He Hk Hop Hd.
  destruct (decide (ops_of key log = [])) as [E|E].
  - destruct (Hfr key Hk E) as [Hcl Hdisk]. assert (HF : F key = None) by (by apply (fresh_holds (log_size log) st)).
    destruct (getOrCreate_closed level pool name K level_ok pool_ok name_inj (log_size log) env st F (λ _, None) key dim e Hs (log_size_nonneg _) Hk Hop Hd Hcl)
      as (h & o & st1 & H1 & H2 & H3 & [A1 A2 A3 A4] & _); [by rewrite Henc|by rewrite HF|].
    rewrite HF in H2. unfold files in A2. rewrite Hdisk, Hmax, Henc in A2. cbn in A2.
    exists h, o, st1, (upd key (Some (fresh dim e)) F), (fresh dim e). conjs; try done; [apply upd_eq|].
    rewrite E. exists [], [], (ob_index o). split; [done|]. split; [by eapply base_new|apply run_nil].
  - destruct (Hwk key Hk E) as (h & o & Ho & Hres & _). destruct (opened_ok _ _ _ _ _ _ _ _ _ _ _ Hs Ho) as (_ & k & HF & _).
    exists h, o, st, F, k. rewrite (getOrCreate_opened level pool name env st key dim h o (so_wf _ _ _ _ _ _ _ _ Hs) Ho). by conjs.
Qed.

(** One logged command more. *)
Lemma performed_step maxVectors enc e log st c st1 F1 h o ix :
  performed_ok maxVectors enc e log st → cmd_key c ∈ K → cmd_valid c →
  framed name K (cmd_key c) st st1 → same_config (snd st) (snd st1) → store_ok (log_size log) st1 F1 (λ _, None) →
  opened st1 (cmd_key c) h o → result_of maxVectors e (ops_of (cmd_key c) log) (ob_index o) →
  performs level pool maxVectors (cmd_ops c) (ob_index o) ix →
  let st' := (fst st1, write_obj h (with_index ix o) (snd st1)) in
  (∃ F', store_ok (log_size log + zlen (cmd_ops c)) st' F' (λ _, None)) → performed_ok maxVectors enc e (log ++ [c]) st'.
Proof.
  intros [_ Hmax Henc Hfr Hwk Hcmds] Hk Hv Hfrm (C1 & C2 & C3) Hs1 Ho Hres Hp st' [F' Hs'].
  destruct (opened_ok _ _ _ _ _ _ _ _ _ _ _ Hs1 Ho) as (_ & k & _ & [O1 O2 O3 O4 O5]).
  destruct (write_framed _ st1 F1 (λ _, None) (cmd_key c) h o (with_index ix o) Hs1 Ho O1 (proj1 O5)) as [Hfrm2 Hdisk].
  assert (Hfrm' : framed name K (cmd_key c) st st') by (by eapply framed_trans).
  split; [rewrite log_size_snoc; by exists F'|cbn; congruence|cbn; congruence| | |].
  - intros key Hkey. rewrite ops_of_snoc. case_decide as E; [intros [_ ?]%app_eq_nil; by destruct (cmd_ops_cons c Hv)|].
    intros Hops. eapply framed_fresh; [done|done|congruence|by apply Hfr].
  - intros key Hkey. rewrite ops_of_snoc. case_decide as E; intros Hops; [|eapply framed_worked; [done|done|congruence|by apply Hwk]].
    subst key. exists h, (with_index ix o). split; [by apply written_opened|]. split; [by eapply result_step|exact Hdisk].
  - intros c' [Hin|Hin]%elem_of_app; [by apply Hcmds|]. apply list_elem_of_singleton in Hin. by subst.
Qed.

Lemma performed_compacts maxVectors enc e log st env key c st' :
  performed_ok maxVectors enc e log st → log_size log ≤ 2 ^ 62 → key ∈ K → e_open env (name key) = true →
  VCompact level pool name env key st = (Ok c, st') → performed_ok maxVectors enc e log st'.
Proof.
  intros Hok Hz Hk Hop Hcp. destruct (performed_readonly _ _ _ _ _ env key Hok Hk Hop) as (r & Hg & Hr).
  pose proof Hok as [[F Hs] Hmax Henc Hfr Hwk Hcmds].
  destruct (VCompact_ok level pool name K level_ok pool_ok name_inj name_shadow (log_size log) env st F (λ _, None) key Hs (conj (log_size_nonneg _) Hz) Hk Hop)
    as (c' & st2 & E2 & Hout). rewrite Hcp in E2. injection E2 as <- <-. destruct Hout as ((C1 & C2 & C3) & _ & Hs2).
  unfold VCompact in Hcp. rewrite Hg in Hcp. destruct r as [h|]; [|by injection Hcp as <- <-].
  destruct Hr as (o0 & Ho0 & E). destruct (written _ (λ _, compact level pool (e_flush env) (e_meta env) (e_hnsw env)) st key h o0 _ _ Hcp Ho0) as (ix & Hix & ->).
  destruct (opened_ok _ _ _ _ _ _ _ _ _ _ _ Hs Ho0) as (_ & k & _ & [O1 O2 O3 O4 O5]).
  destruct (write_framed _ st F (λ _, None) key h o0 (with_index ix o0) Hs Ho0 O1 (proj1 O5)) as [Hfrm Hdisk].
  split; [by exists F|cbn in *; congruence|cbn in *; congruence| | |done].
  - intros key' Hk' E'. eapply framed_fresh; [done|done|congruence|by apply Hfr].
  - intros key' Hk' E'. destruct (decide (key' = key)) as [->|Hne]; [|eapply framed_worked; [done|done|congruence|by apply Hwk]].
    destruct (Hwk key Hk E) as (h1 & o1 & Ho1 & (pre & post & ix0 & Eo & Hb & Hrun) & _).
    destruct (opened_unique st key h o0 h1 o1 Ho0 Ho1) as [<- <-].
    exists h, (with_index ix o0). split; [by apply written_opened|]. split; [|exact Hdisk].
    pose proof (ops_of_length key log) as Hlen. rewrite Eo, zlen_app in Hlen.
    destruct (base_compacted level pool level_ok pool_ok maxVectors (e_flush env) (e_meta env) (e_hnsw env) e pre post ix0 _ c ix Hb Hrun ltac:(lia) Hix) as [->|Hb2].
    + exists pre, post, ix0. by conjs.
    + exists (ops_of key log), [], ix. rewrite app_nil_r, Eo. split; [done|]. split; [done|apply run_nil].
Qed.

Lemma performed_holds shards maxVectors maxMemory enc e log st :
  performed shards maxVectors maxMemory enc log st → NormalizeVectorEncoding enc = Ok e → log_size log ≤ 2 ^ 62 →
  performed_ok maxVectors enc e log st.
Proof.
  induction 1 as [|log st env key id vec st' Hpf IH Hk Hop Hm Hval Ha|log st env key dim ids vecs st' Hpf IH Hk Hop Hm Hval Ha
    |log st env key id st' Hpf IH Hk Hop Hdel|log st env key c st' Hpf IH Hk Hop Hcp]; intros He Hz.
  - split; try done; [|intros key Hk _; split; [|cbn; by rewrite lookup_empty]; intros h o (e1 & He1 & _); cbn [fst] in He1; by rewrite New_view, lookup_empty in He1|by intros c ?%not_elem_of_nil].
    exists (λ _, None). split; cbn [fst snd]; [apply New_wf| | | | |intros h [o Ho]; cbn in Ho; by rewrite lookup_empty in Ho|by eexists].
    + intros key _. unfold holds. cbn [fst snd]. rewrite New_view, lookup_empty. split; [done|]. unfold files. cbn. by rewrite lookup_empty.
    + intros key e1. by rewrite New_view, lookup_empty.
    + intros key e1 h. by rewrite New_view, lookup_empty.
    + intros k k' e1 e' h. by rewrite New_view, lookup_empty.
  - rewrite log_size_snoc in Hz. change (zlen (cmd_ops (CAdd key id vec))) with 1 in Hz.
    pose proof (IH He ltac:(lia)) as Hok. pose proof (po_max _ _ _ _ _ Hok) as Hmax. destruct Hval as [Hv Hf].
    destruct (performed_access maxVectors enc e log st env key (zlen vec) Hok He Hk Hop (validateVector_dim _ _ Hv))
      as (h & o & st1 & F & k & Hg & Ho & Hs1 & HF & Hfrm & Hcfg & Hres).
    destruct (VAdd_opened level pool name K level_ok pool_ok name_inj name_shadow (log_size log) env st1 F (λ _, None) key h o k id vec Hs1 ltac:(lia) Ho HF Hm Hv)
      as (r & st2 & Hr & _ & Hout).
    pose proof (getOrCreate_opened level pool name env st1 key (zlen vec) h o (so_wf _ _ _ _ _ _ _ _ Hs1) Ho) as Hg1.
    unfold VAdd in Ha, Hr. rewrite Hv, Hg in Ha. rewrite Hv, Hg1 in Hr. cbn [created] in Ha, Hr. rewrite Ha in Hr. injection Hr as <- <-.
    destruct (written _ _ st1 key h o _ _ Ha Ho) as (ix & Hadd%added_none & ->).
    apply (performed_step maxVectors enc e log st (CAdd key id vec) st1 F h o ix); try done; [|by eexists; apply Hout].
    destruct Hcfg as (C1 & _). rewrite C1, Hmax in Hadd. by eapply perform_add.
  - rewrite log_size_snoc in Hz. destruct Hval as (H0 & Hv & Hf). destruct (validateBatch_dims _ _ _ Hv) as (Hl & Hd & HFa).
    change (cmd_ops (CBatch key dim ids vecs)) with (added_ops (zip ids vecs)) in Hz. rewrite batch_ops_size in Hz by done.
    pose proof (zlen_nonneg ids). pose proof (IH He ltac:(lia)) as Hok. pose proof (po_max _ _ _ _ _ Hok) as Hmax.
    destruct (performed_access maxVectors enc e log st env key dim Hok He Hk Hop Hd)
      as (h & o & st1 & F & k & Hg & Ho & Hs1 & HF & Hfrm & Hcfg & Hres).
    destruct (VAddBatch_opened level pool name K level_ok pool_ok name_inj name_shadow (log_size log) env st1 F (λ _, None) key h o k dim ids vecs Hs1 ltac:(lia) Ho HF Hm H0 Hv)
      as (r & st2 & Hr & _ & Hout).
    pose proof (getOrCreate_opened level pool name env st1 key dim h o (so_wf _ _ _ _ _ _ _ _ Hs1) Ho) as Hg1.
    unfold VAddBatch in Ha, Hr. destruct (Z.eqb_spec (zlen ids) (zlen vecs)); [|done]. cbn [negb] in Ha, Hr.
    destruct (Z.eqb_spec (zlen ids) 0); [done|]. rewrite Hv, Hg in Ha. rewrite Hv, Hg1 in Hr. cbn [created] in Ha, Hr. rewrite Ha in Hr. injection Hr as <- <-.
    destruct (written _ _ st1 key h o _ _ Ha Ho) as (ix & Hadd%added_none & ->).
    apply (performed_step maxVectors enc e log st (CBatch key dim ids vecs) st1 F h o ix); try done.
    + destruct Hcfg as (C1 & _). rewrite C1, Hmax in Hadd. by eapply perform_batch.
    + cbn [cmd_ops]. rewrite batch_ops_size by done. by eexists; apply Hout.
  - rewrite log_size_snoc in Hz. change (zlen (cmd_ops (CDel key id))) with 1 in Hz. pose proof (IH He ltac:(lia)) as Hok.
    pose proof Hok as [[F Hs] _ _ _ Hwk _].
    destruct (VDel_ok level pool name K level_ok pool_ok name_inj name_shadow (log_size log) env st F (λ _, None) key id Hs (log_size_nonneg _) Hk Hop)
      as (r & st2 & Hr & _ & Hout). rewrite Hdel in Hr. injection Hr as <- <-. destruct Hout as [_ Hs2].
    destruct (performed_readonly _ _ _ _ _ env key Hok Hk Hop) as (r & Hg & Hr). unfold VDel in Hdel. rewrite Hg in Hdel.
    destruct r as [h|]; [|done]. destruct Hr as (o & Ho & E). destruct (written _ (λ _, deleteVector (e_meta env) id) st key h o _ _ Hdel Ho) as (ix & Hdv & ->).
    apply (performed_step maxVectors enc e log st (CDel key id) st F h o ix); try done.
    + destruct (Hwk key Hk E) as (h1 & o1 & Ho1 & Hres & _).
      by destruct (opened_unique st key h o h1 o1 Ho Ho1) as [<- <-].
    + by eapply perform_del.
    + eexists. eapply store_ok_mono; [|exact Hs2]. change (zlen (cmd_ops (CDel key id))) with 1. lia.
  - by eapply performed_compacts; [apply IH|..].
Qed.
End Log.
