(* ===== verification/VectorRecovery.v ===== *)
(** * Recovery of the vector store

    The vector store as the implementation of the interface recovery and
    replication use, and the theorem that the log brings back every vector after
    a crash. The histories at the end are those after which the code refuses to
    recover. *)

From S2P Require Import Prelude GoStd Types KV Reaper GoFloat WAL VectorPayload Float32 Hnsw VectorRows VectorIndex.
From S2P Require Import Recovery VectorIndexCorrect VectorHistory Vectors VectorsCorrect VectorOps VectorSim VectorCrash.
From Stdlib Require Import Floats.SpecFloat.
Open Scope Z_scope.

(** ** The implementation of the interface *)
Definition keep {A} (p : res string A * vstate) : res string vstate :=
  match fst p with Ok _ => Ok (snd p) | Err e => Err e | Panic => Panic end.

Definition mmap_store (level : Z → Z) (pool : Z → searchScratch) (name : string → string)
    (hash : vectorMetadata → list byte) (env : Env) : VectorStore VecStore := {|
  Recovery.ReopenPersisted st := keep (ReopenPersisted level pool name env st);
  Recovery.VerifySeals seals st := VerifySeals hash seals st;
  Recovery.VAdd key id vec st := keep (VAdd level pool name env key id vec st);
  Recovery.VAddBatch key dim ids vecs st := keep (VAddBatch level pool name env key dim ids vecs st);
  Recovery.VDel key id st := keep (VDel level pool name env key id st);
  Recovery.StartMigration key dim enc st := keep (StartMigration level pool name env key dim enc st);
  Recovery.InsertShadowVector key id vec st := keep (InsertShadowVector level pool name env key id vec st);
  Recovery.SwapMigration key st := keep (SwapMigration level pool name env key st);
  Recovery.CancelMigration key st := keep (CancelMigration level pool name env key st);
  Recovery.vec_MemoryUsage st := MemoryUsage st;
  Recovery.vec_close e vs := closeVectorEntry env e vs
|}.

Section Log.
Variable level : Z → Z.
Variable pool : Z → searchScratch.
Variable name : string → string.
Variable hash : vectorMetadata → list byte.
Variable K : gset string.
Hypothesis level_ok : ∀ row, 0 ≤ level row ≤ 64.
Hypothesis pool_ok : ∀ row, scratch_ok (pool row).
Hypothesis name_inj : ∀ k k', k ∈ K → k' ∈ K → name k = name k' → k = k'.
Hypothesis name_shadow : ∀ k k', k ∈ K → k' ∈ K → name k ≠ shadowFile k'.
Abbreviation store_ok := (store_ok level pool name K).
Abbreviation performed_ok := (performed_ok level pool name K).

(** ** The live contents and those of the crashed files *)
Definition live_key (e : string) (log : list lcmd) (g : option vmap) (key : string) : Prop :=
  match g with
  | None => ops_of key log = []
  | Some k => ops_of key log ≠ [] ∧ v_enc k = e ∧ (∀ x, v_map k x = logged_map e none (ops_of key log) x) ∧
      ∀ id vec, LAdd id vec ∈ ops_of key log → zlen vec = v_dim k
  end.

Lemma live_keys maxVectors enc e log st F key :
  performed_ok maxVectors enc e log st → log_size log ≤ 2 ^ 62 →
  store_ok (log_size log) st F (λ _, None) → key ∈ K → live_key e log (F key) key.
Proof.
  intros [_ Hmax Henc Hfr Hwk _] Hz Hs Hk. unfold live_key. destruct (decide (ops_of key log = [])) as [E|E].
  - by rewrite (fresh_holds level pool name K (log_size log) st F key Hs Hk (Hfr key Hk E)).
  - destruct (Hwk key Hk E) as (h & o & Ho & (pre & post & ix0 & Eo & [B1 B2 B3 B4 B5 _] & Hruns) & _).
    destruct (opened_ok _ _ _ _ _ _ _ _ _ _ _ Hs Ho) as (_ & k & -> & [O1 O2 O3 (D1 & D2 & D3) O5]).
    pose proof (ops_of_length key log) as Hlen. rewrite Eo in *. rewrite zlen_app in Hlen.
    pose proof (runs_ran level pool maxVectors level_ok pool_ok _ _ _ Hruns B1 ltac:(lia)) as R.
    split; [done|]. split; [by rewrite <- D2, (rn_encoding _ _ _ _ R)|]. split.
    + intros x. rewrite <- D3, (rn_live _ _ _ _ R), B2. unfold logged_map. rewrite foldl_app. by apply log_fold_ext.
    + intros id vec [Hin|Hin]%elem_of_app; rewrite <- D1, (rn_dim _ _ _ _ R); [by apply (B5 id)|].
      by destruct (rn_adds _ _ _ _ R id vec Hin).
Qed.

(** What the files of a key hold, read from the disk. *)
Definition disk_map (vs : VecStore) (key : string) : option vmap :=
  match f_meta (files (name key) vs) with
  | None => None
  | Some meta =>
      match openIndex level pool (files (name key) vs) (meta_Dim meta) (vs_maxVectors vs) (vs_encoding vs) with
      | Ok ix => Some {| v_dim := ix_dim ix; v_enc := ix_encoding ix; v_map := live ix |}
      | _ => None
      end
  end.

Lemma at_rest_disk n vs key e g :
  NormalizeVectorEncoding (vs_encoding vs) = Ok e → at_rest level pool n (files (name key) vs) g →
  at_rest level pool n (files (name key) vs) (disk_map vs key) ∧
  match g, disk_map vs key with
  | None, None => True
  | Some k, Some k' => v_dim k' = v_dim k ∧ v_enc k' = v_enc k ∧ ∀ x, v_map k' x = v_map k x
  | _, _ => False
  end.
Proof.
  intros He. destruct g as [k|]; cbn [at_rest]; [|intros [Hm Hh]; unfold disk_map; rewrite Hm; by repeat split].
  intros (Hd & (meta & Hm & Hmd) & Hop). destruct (Hop (vs_maxVectors vs) _ _ He) as (ix & Hix & Hok & Hc & D1 & D2 & D3).
  unfold disk_map. rewrite Hm, Hmd, Hix. split; [|done]. cbn [at_rest v_dim]. rewrite D1. split; [done|]. split; [by exists meta|].
  intros c enc e' He'. destruct (Hop c enc e' He') as (ix' & H1 & H2 & H3 & E1 & E2 & E3). exists ix'. conjs; try done.
  split; [cbn; congruence|]. split; [cbn; congruence|]. intros x. cbn. congruence.
Qed.

(** [base]: what the crashed files hold compared with the live index [g]. *)
Definition base_ok (e : string) (log : list lcmd) (g base : option vmap) (key : string) : Prop :=
  match base with
  | None => True
  | Some k => v_enc k = e ∧ (∃ kl, g = Some kl ∧ v_dim k = v_dim kl) ∧
      ∀ x, x ∉ (logged_id <$> ops_of key log) → v_map k x = None
  end.

Lemma crashed_key maxVectors enc e log st F key :
  performed_ok maxVectors enc e log st → log_size log ≤ 2 ^ 62 → store_ok (log_size log) st F (λ _, None) → key ∈ K →
  ∃ g, at_rest level pool (log_size log) (files (name key) (crash (snd st))) g ∧ base_ok e log (F key) g key.
Proof.
  intros [_ Hmax Henc Hfr Hwk _] Hz Hs Hk. destruct (decide (ops_of key log = [])) as [E|E].
  { destruct (Hfr key Hk E) as [_ Hd]. exists None. unfold files. cbn. rewrite Hd. done. }
  destruct (Hwk key Hk E) as (h & o & Ho & (pre & post & ix0 & Eo & Hb & Hruns) & Hd).
  pose proof (ops_of_length key log) as Hlen. rewrite Eo, zlen_app in Hlen.
  destruct (crash_at_rest level pool level_ok pool_ok maxVectors e pre post ix0 (ob_index o) Hb Hruns ltac:(lia)) as (g & Hg & Hgk).
  exists g. split; [unfold files; cbn; rewrite Hd; by eapply at_rest_mono|]. destruct g as [k|]; [|done].
  destruct (Hgk k eq_refl) as (B1 & B2 & B3). destruct Hb as [H1 H2 H3 H4 _ _]. split; [done|]. split.
  - destruct (opened_ok _ _ _ _ _ _ _ _ _ _ _ Hs Ho) as (_ & kl & HF & [O1 O2 O3 (D1 & D2 & D3) O5]). exists kl. split; [done|].
    pose proof (runs_ran level pool maxVectors level_ok pool_ok _ _ _ Hruns H1 ltac:(lia)) as R. rewrite <- D1, (rn_dim _ _ _ _ R). congruence.
  - rewrite Eo, fmap_app. intros x [Hx1 Hx2]%not_elem_of_app. rewrite B3, H3 by done. unfold logged_map. by rewrite log_fold_untouched.
Qed.

Lemma crashed_store shards maxVectors enc e log st F :
  performed_ok maxVectors enc e log st → log_size log ≤ 2 ^ 62 → NormalizeVectorEncoding enc = Ok e →
  store_ok (log_size log) st F (λ _, None) →
  store_ok (log_size log) (New shards, crash (snd st)) (disk_map (crash (snd st))) (λ _, None) ∧
  ∀ key, key ∈ K → base_ok e log (F key) (disk_map (crash (snd st)) key) key.
Proof.
  intros Hok Hz He Hs. pose proof (po_enc _ _ _ _ _ _ _ _ _ Hok) as Henc.
  assert (Henc' : NormalizeVectorEncoding (vs_encoding (crash (snd st))) = Ok e) by (cbn; by rewrite Henc).
  split.
  - split; cbn [fst snd].
    + apply New_wf.
    + intros key Hk. destruct (crashed_key _ _ _ _ _ F key Hok Hz Hs Hk) as (g & Hg & _). unfold holds. cbn [fst snd].
      rewrite New_view, lookup_empty. split; [done|]. by eapply at_rest_disk.
    + intros key e1. by rewrite New_view, lookup_empty.
    + intros key e1 h. by rewrite New_view, lookup_empty.
    + intros k k' e1 e' h. by rewrite New_view, lookup_empty.
    + intros h [o Ho]. cbn in Ho. by rewrite lookup_empty in Ho.
    + by eexists.
  - intros key Hk. destruct (crashed_key _ _ _ _ _ F key Hok Hz Hs Hk) as (g & Hg & Hb). destruct (at_rest_disk _ _ key e g Henc' Hg) as [_ Hm].
    destruct g as [k|], (disk_map (crash (snd st)) key) as [k'|]; try done. destruct Hm as (M1 & M2 & M3), Hb as (B1 & (kl & B2 & B3) & B4).
    split; [congruence|]. split; [exists kl; split; congruence|]. intros x Hx. rewrite M3. by apply B4.
Qed.

(** ** Replay *)
(** The object an addition finds, in a state described by maps. *)
Lemma access_replay n env st F G key dim e :
  store_ok n st F G → 0 ≤ n → key ∈ K → e_open env (name key) = true → 1 ≤ dim →
  NormalizeVectorEncoding (vs_encoding (snd st)) = Ok e → v_dim (or_fresh (F key) dim e) = dim →
  ∃ h o st1, getOrCreate level pool name env key dim st = (Ok h, st1) ∧ opened st1 key h o ∧
    store_ok n st1 (upd key (Some (or_fresh (F key) dim e)) F) G ∧ same_config (snd st) (snd st1).
Proof.
  intros Hs Hn Hk Hop Hd He Hdim. destruct (opened_dec st key (so_wf _ _ _ _ _ _ _ _ Hs)) as [(h & o & Ho)|Hcl].
  - destruct (opened_ok _ _ _ _ _ _ _ _ _ _ _ Hs Ho) as (_ & k0 & HF & _). exists h, o, st.
    rewrite (getOrCreate_opened level pool name env st key dim h o (so_wf _ _ _ _ _ _ _ _ Hs) Ho). conjs; try done.
    eapply store_ok_eq; [|done|exact Hs]. intros x. unfold or_fresh. rewrite HF. cbn. rewrite <- HF. apply upd_same.
  - destruct (getOrCreate_closed level pool name K level_ok pool_ok name_inj n env st F G key dim e Hs Hn Hk Hop Hd Hcl He Hdim)
      as (h & o & st1 & H1 & H2 & H3 & H4 & _). exists h, o, st1. conjs; try done. apply H4.
Qed.

(** Within the quota and with the file system working, an addition succeeds. *)
Lemma outcome_replay n n' env maxVectors dim items key count e F G r (st st1 st' : vstate) :
  same_config (snd st) (snd st1) → same_config (snd st1) (snd st') → e_grow env = true →
  add_outcome level pool name K n' env maxVectors dim items key count (or_fresh (F key) dim e) (upd key (Some (or_fresh (F key) dim e)) F) G r st' →
  v_dim (or_fresh (F key) dim e) = dim → count ≤ n → within maxVectors n →
  r = Ok tt ∧ same_config (snd st) (snd st') ∧ store_ok n' st' (upd key (Some (vput items (or_fresh (F key) dim e))) F) G.
Proof.
  intros Hc1 Hc2 Hg Hout Hd Hcount Hw. unfold add_outcome in Hout. destruct r as [[]|er|]; [| |done].
  - split; [done|]. split; [by eapply same_config_trans|]. destruct Hout as [_ Hs]. eapply store_ok_eq; [|done|exact Hs]. intros x. by rewrite upd_upd.
  - exfalso. destruct Hout as [_ [?|Hq|?]]; [done| |congruence]. unfold within in Hw. lia.
Qed.

Lemma VAdd_replay n env st F G key id vec e :
  store_ok n st F G → 0 ≤ n < 2 ^ 62 → key ∈ K → e_open env (name key) = true → e_meta env = true → e_grow env = true →
  validateVector id vec = Ok tt → NormalizeVectorEncoding (vs_encoding (snd st)) = Ok e →
  v_dim (or_fresh (F key) (zlen vec) e) = zlen vec → within (vs_maxVectors (snd st)) (n + 1) →
  ∃ st', VAdd level pool name env key id vec st = (Ok tt, st') ∧ same_config (snd st) (snd st') ∧
    store_ok (n + 1) st' (upd key (Some (vput [(id, vec)] (or_fresh (F key) (zlen vec) e))) F) G.
Proof.
  intros Hs Hn Hk Hop Hm Hg Hv He Hd Hw.
  destruct (access_replay n env st F G key (zlen vec) e Hs ltac:(lia) Hk Hop (validateVector_dim _ _ Hv) He Hd) as (h & o & st1 & E & Ho & Hs1 & Hc1).
  destruct (VAdd_opened level pool name K level_ok pool_ok name_inj name_shadow n env st1 _ G key h o _ id vec Hs1 ltac:(lia) Ho ltac:(apply upd_eq) Hm Hv)
    as (r & st' & Hr & Hc2 & Hout).
  destruct (opened_ok _ _ _ _ _ _ _ _ _ _ _ Hs1 Ho) as (_ & k1 & _ & [_ _ Hcnt _ _]).
  pose proof (new_ids_few (ob_index o) [id]) as Hfew. cbn [length] in Hfew. pose proof Hc1 as (C1 & C2 & C3). rewrite C1 in Hout.
  destruct (outcome_replay (n + 1) _ env _ _ _ key _ e F G r st st1 st' Hc1 Hc2 Hg Hout Hd ltac:(lia) Hw) as (-> & Hc & Hs').
  exists st'. split; [|done]. rewrite <- Hr. unfold VAdd.
  by rewrite Hv, (getOrCreate_again level pool name env st key (zlen vec) h o st1 (so_wf _ _ _ _ _ _ _ _ Hs1) E Ho).
Qed.

Lemma VAddBatch_replay n env st F G key dim ids vecs e :
  store_ok n st F G → 0 ≤ n → n + zlen ids ≤ 2 ^ 62 → key ∈ K → e_open env (name key) = true → e_meta env = true → e_grow env = true →
  zlen ids ≠ 0 → validateBatch dim ids vecs = Ok tt → NormalizeVectorEncoding (vs_encoding (snd st)) = Ok e →
  v_dim (or_fresh (F key) dim e) = dim → within (vs_maxVectors (snd st)) (n + zlen ids) →
  ∃ st', VAddBatch level pool name env key dim ids vecs st = (Ok tt, st') ∧ same_config (snd st) (snd st') ∧
    store_ok (n + zlen ids) st' (upd key (Some (vput (zip ids vecs) (or_fresh (F key) dim e))) F) G.
Proof.
  intros Hs Hn Hz Hk Hop Hm Hg H0 Hv He Hd Hw. destruct (validateBatch_dims _ _ _ Hv) as (Hl & Hd1 & _).
  destruct (access_replay n env st F G key dim e Hs Hn Hk Hop Hd1 He Hd) as (h & o & st1 & E & Ho & Hs1 & Hc1).
  destruct (VAddBatch_opened level pool name K level_ok pool_ok name_inj name_shadow n env st1 _ G key h o _ dim ids vecs Hs1 Hz Ho ltac:(apply upd_eq) Hm H0 Hv)
    as (r & st' & Hr & Hc2 & Hout).
  destruct (opened_ok _ _ _ _ _ _ _ _ _ _ _ Hs1 Ho) as (_ & k1 & _ & [_ _ Hcnt _ _]).
  pose proof (new_ids_few (ob_index o) ids) as Hfew. pose proof Hc1 as (C1 & C2 & C3). rewrite C1 in Hout.
  destruct (outcome_replay (n + zlen ids) _ env _ _ _ key _ e F G r st st1 st' Hc1 Hc2 Hg Hout Hd ltac:(unfold zlen; lia) Hw) as (-> & Hc & Hs').
  exists st'. split; [|done]. rewrite <- Hr. unfold VAddBatch. rewrite Hl, Z.eqb_refl. rewrite Hl in H0. cbn [negb].
  rewrite (proj2 (Z.eqb_neq _ _) H0). by rewrite Hv, (getOrCreate_again level pool name env st key dim h o st1 (so_wf _ _ _ _ _ _ _ _ Hs1) E Ho).
Qed.

(** The effect the log carries for a command. *)
Definition cmd_type (c : lcmd) : byte :=
  match c with CAdd _ _ _ => RecordVAdd | CBatch _ _ _ _ => RecordVAddBatch | CDel _ _ => RecordVTombstone end.
Definition cmd_payload (c : lcmd) : res string (list byte) :=
  match c with
  | CAdd _ id vec => Ok (EncodeVAddPayload id vec)
  | CBatch _ dim ids vecs => EncodeVAddBatchPayload dim ids vecs
  | CDel _ id => Ok (bytes_of id)
  end.
Definition matches (c : lcmd) (eff : WALEffect) : Prop :=
  we_Type eff = cmd_type c ∧ we_Key eff = cmd_key c ∧ cmd_payload c = Ok (contents (we_Value eff)).

Lemma validate_id id vec : validateVector id vec = Ok tt → id ≠ ""%string ∧ strlen id < 2 ^ 32.
Proof.
  unfold validateVector. destruct (_ || _) eqn:E; [done|]. apply orb_false_elim in E as [E1 E2]. intros _.
  apply bool_decide_eq_false_1 in E1. unfold maxVectorIDBytes in E2. split; [done|lia].
Qed.

Lemma batch_valid dim ids vecs :
  validateBatch dim ids vecs = Ok tt → Forall (λ it, validateVector it.1 it.2 = Ok tt) (zip ids vecs).
Proof.
  unfold validateBatch. destruct (negb _); [done|]. destruct (_ >? _); [done|]. destruct (_ || _); [done|].
  generalize (zip ids vecs). clear ids vecs.
  assert (Hstop : ∀ items r, r ≠ Ok tt → foldl (λ r '(id, vec), let? _ := r in
    if negb (zlen vec =? dim) then Err "dimension mismatch in batch"%string else validateVector id vec) r items ≠ Ok tt).
  { induction items as [|[id vec] items IH]; intros r Hr; [done|]. cbn [foldl]. apply IH. by destruct r as [[]| |]. }
  induction l as [|[id vec] l IH]; intros H; [done|]. cbn [foldl rbind] in H.
  destruct (negb _); [by apply Hstop in H|]. destruct (validateVector id vec) as [[]| |] eqn:E; [|by apply Hstop in H..].
  constructor; [done|by apply IH].
Qed.

Section Effects.
Variable env : Env.
#[local] Instance impl : VectorStore VecStore := mmap_store level pool name hash env.

Lemma recovered_add t seq key id vec eff (st st' : vstate) :
  cmd_valid (CAdd key id vec) → VAdd level pool name env key id vec st = (Ok tt, st') → matches (CAdd key id vec) eff →
  applyRecoveredEffect t t t seq eff (fst st, Some (snd st)) = Ok (fst st', Some (snd st')).
Proof.
  intros [Hv Hf] Ha (Ht & Hk & [= Hp]). cbn [cmd_type cmd_key] in Ht, Hk. destruct (validate_id id vec Hv) as [Hne Hlen].
  destruct (vector_payload_roundtrip id vec 1 "" [] Hlen Hf) as (Hdec & _); [lia|done|done|constructor|].
  unfold applyRecoveredEffect. rewrite Ht, Hk, <- Hp.
  change (bool_decide (RecordVAdd = RecordSet)) with false. change (bool_decide (RecordVAdd = RecordDelete)) with false.
  change (bool_decide (RecordVAdd = RecordExpire)) with false. change (bool_decide (RecordVAdd = RecordVAdd)) with true. cbv iota.
  unfold on_vec. cbn [snd fst]. rewrite Hdec.
  destruct vec as [|x vec]; [by pose proof (validateVector_dim _ _ Hv)|]. rewrite bool_decide_eq_false_2 by done.
  change (Recovery.VAdd key id (x :: vec) (st.1, st.2)) with (keep (VAdd level pool name env key id (x :: vec) (st.1, st.2))).
  destruct st as [kv vs]. cbn [fst snd] in *. rewrite Ha. done.
Qed.

Lemma recovered_batch t seq key dim ids vecs eff (st st' : vstate) :
  cmd_valid (CBatch key dim ids vecs) → VAddBatch level pool name env key dim ids vecs st = (Ok tt, st') →
  matches (CBatch key dim ids vecs) eff →
  applyRecoveredEffect t t t seq eff (fst st, Some (snd st)) = Ok (fst st', Some (snd st')).
Proof.
  intros (H0 & Hv & Hf) Ha (Ht & Hk & Hp). cbn [cmd_type cmd_key cmd_payload] in Ht, Hk, Hp. destruct (validateBatch_dims _ _ _ Hv) as (Hl & Hd & HF).
  assert (Hlim : zlen ids ≤ maxVectorBatch ∧ dim ≤ maxVectorDimensions).
  { unfold validateBatch in Hv. destruct (negb _); [done|]. destruct (_ >? _) eqn:E1; [done|]. destruct (_ || _) eqn:E2; [done|]. lia. }
  destruct (vector_payload_roundtrip "" [] dim "" (zip ids vecs)) as (_ & _ & Hdec); [done|constructor|unfold maxVectorDimensions in Hlim; lia|done| | |].
  { unfold maxVectorBatch, zlen in *. rewrite length_zip. lia. }
  { apply Forall_forall. intros [id vec] Hin. rewrite Forall_forall in HF. pose proof (HF _ Hin) as Hdv.
    pose proof (proj1 (Forall_forall _ _) (batch_valid _ _ _ Hv) _ Hin) as Hvv. destruct (validate_id _ _ Hvv) as [_ Hlen].
    split; [done|]. split; [done|]. rewrite Forall_forall in Hf. apply Hf. by apply elem_of_zip_r in Hin. }
  assert (Ez1 : fst <$> zip ids vecs = ids) by (apply fst_zip; unfold zlen in Hl; lia).
  assert (Ez2 : snd <$> zip ids vecs = vecs) by (apply snd_zip; unfold zlen in Hl; lia). rewrite Ez1, Ez2 in Hdec.
  rewrite Hp in Hdec. cbn [rbind] in Hdec. unfold applyRecoveredEffect. rewrite Ht, Hk.
  change (bool_decide (RecordVAddBatch = RecordSet)) with false. change (bool_decide (RecordVAddBatch = RecordDelete)) with false.
  change (bool_decide (RecordVAddBatch = RecordExpire)) with false. change (bool_decide (RecordVAddBatch = RecordVAdd)) with false.
  change (bool_decide (RecordVAddBatch = RecordVAddBatch)) with true. cbv iota. unfold on_vec. cbn [snd fst].
  rewrite Hdec. cbn [rbind].
  rewrite (proj2 (Z.leb_gt dim 0)), (proj2 (Z.eqb_neq (zlen ids) 0)), Hl, Z.eqb_refl by lia. cbn [orb negb].
  change (Recovery.VAddBatch key dim ids vecs (st.1, st.2)) with (keep (VAddBatch level pool name env key dim ids vecs (st.1, st.2))).
  destruct st as [kv vs]. cbn [fst snd] in *. rewrite Ha. done.
Qed.

Lemma recovered_del t seq key id b eff (st st' : vstate) :
  VDel level pool name env key id st = (Ok b, st') → matches (CDel key id) eff →
  applyRecoveredEffect t t t seq eff (fst st, Some (snd st)) = Ok (fst st', Some (snd st')).
Proof.
  intros Ha (Ht & Hk & [= Hp]). cbn [cmd_type cmd_key] in Ht, Hk. unfold applyRecoveredEffect. rewrite Ht, Hk.
  change (bool_decide (RecordVTombstone = RecordSet)) with false. change (bool_decide (RecordVTombstone = RecordDelete)) with false.
  change (bool_decide (RecordVTombstone = RecordExpire)) with false. change (bool_decide (RecordVTombstone = RecordVAdd)) with false.
  change (bool_decide (RecordVTombstone = RecordVAddBatch)) with false. change (bool_decide (RecordVTombstone = RecordVTombstone)) with true.
  cbv iota. unfold on_vec. cbn [snd fst]. assert (Hid : to_str (we_Value eff) = id) by (unfold to_str; rewrite <- Hp; apply str_of_bytes_of). rewrite Hid.
  change (Recovery.VDel key id (st.1, st.2)) with (keep (VDel level pool name env key id (st.1, st.2))).
  destruct st as [kv vs]. cbn [fst snd] in *. rewrite Ha. done.
Qed.
End Effects.

(** After the commands [d] were replayed on files that held [base]. *)
Definition replayed_key (e : string) (d : list lcmd) (gl base g : option vmap) (key : string) : Prop :=
  match g with
  | None => base = None ∧ ∀ x, logged_map e none (ops_of key d) x = None
  | Some k => v_enc k = e ∧ (∃ kl, gl = Some kl ∧ v_dim k = v_dim kl) ∧
      ∀ x, v_map k x = logged_map e (default none (v_map <$> base)) (ops_of key d) x
  end.

Section Replay.
Variable env : Env.
Variable maxVectors : Z.
Variables enc e : string.
Variable log : list lcmd.
Variables FL FB : string → option vmap.
Hypothesis Henc : NormalizeVectorEncoding enc = Ok e.
Hypothesis Hopen : ∀ key, key ∈ K → e_open env (name key) = true.
Hypothesis Hmeta : e_meta env = true.
Hypothesis Hgrow : e_grow env = true.
Hypothesis Hsize : 2 * log_size log ≤ 2 ^ 62.
Hypothesis Hquota : within maxVectors (2 * log_size log).
Hypothesis Hlive : ∀ key, key ∈ K → live_key e log (FL key) key.
Hypothesis Hcmds : ∀ c, c ∈ log → cmd_key c ∈ K ∧ cmd_valid c.

#[local] Instance store_impl : VectorStore VecStore := mmap_store level pool name hash env.

Record replaying (d : list lcmd) (st : vstate) (F : string → option vmap) : Prop := {
  rp_store : store_ok (log_size log + log_size d) st F (λ _, None);
  rp_max : vs_maxVectors (snd st) = maxVectors;
  rp_enc : vs_encoding (snd st) = enc;
  rp_keys : ∀ key, key ∈ K → replayed_key e d (FL key) (FB key) (F key) key
}.

Lemma live_some c : c ∈ log → ∃ kl, FL (cmd_key c) = Some kl ∧ ∀ id vec, LAdd id vec ∈ cmd_ops c → zlen vec = v_dim kl.
Proof.
  intros Hin. destruct (Hcmds c Hin) as [Hk Hv]. pose proof (Hlive _ Hk) as Hl. destruct (FL (cmd_key c)) as [kl|].
  - exists kl. split; [done|]. destruct Hl as (_ & _ & _ & Hd). intros id vec Hop. apply (Hd id). by eapply ops_of_elem.
  - exfalso. cbn in Hl. pose proof (cmd_ops_cons c Hv). destruct (cmd_ops c) as [|op ops] eqn:E; [done|].
    assert (op ∈ ops_of (cmd_key c) log) as Ho by (eapply ops_of_elem; [done|done|rewrite E; by left]). rewrite Hl in Ho. by apply not_elem_of_nil in Ho.
Qed.

(** One more command of a key. *)
Lemma replayed_step d c k F :
  v_enc k = e → (∃ kl, FL (cmd_key c) = Some kl ∧ v_dim k = v_dim kl) →
  (∀ x, v_map k x = logged_map e (logged_map e (default none (v_map <$> FB (cmd_key c))) (ops_of (cmd_key c) d)) (cmd_ops c) x) →
  (∀ key, key ∈ K → replayed_key e d (FL key) (FB key) (F key) key) →
  ∀ key, key ∈ K → replayed_key e (d ++ [c]) (FL key) (FB key) (upd (cmd_key c) (Some k) F key) key.
Proof.
  intros He1 Hd Hmap Hold key Hk. destruct (decide (cmd_key c = key)) as [<-|Hne].
  - rewrite upd_eq. split; [done|]. split; [done|]. intros x. rewrite Hmap, ops_of_snoc, decide_True by done.
    unfold logged_map. by rewrite foldl_app.
  - rewrite upd_ne by done. pose proof (Hold key Hk) as Hr. unfold replayed_key. by rewrite ops_of_snoc, decide_False.
Qed.

(** The index after an addition, replayed. *)
Lemma replayed_add d c dim items F :
  c ∈ log → cmd_ops c = added_ops items → (∃ kl, FL (cmd_key c) = Some kl ∧ dim = v_dim kl) →
  (∀ key, key ∈ K → replayed_key e d (FL key) (FB key) (F key) key) →
  v_dim (or_fresh (F (cmd_key c)) dim e) = dim ∧
  ∀ key, key ∈ K →
    replayed_key e (d ++ [c]) (FL key) (FB key) (upd (cmd_key c) (Some (vput items (or_fresh (F (cmd_key c)) dim e))) F key) key.
Proof.
  intros Hin Hops (kl & Hkl & Hdim) Hold. destruct (Hcmds c Hin) as [Hk _]. pose proof (Hold _ Hk) as Hkey. unfold replayed_key in Hkey.
  assert (Hd : v_dim (or_fresh (F (cmd_key c)) dim e) = dim).
  { destruct (F (cmd_key c)) as [k|]; [|done]. destruct Hkey as (_ & (kl' & E & Ek) & _). cbn. congruence. }
  split; [done|]. apply replayed_step; [..|done].
  - cbn. destruct (F (cmd_key c)) as [k|]; [by destruct Hkey|done].
  - exists kl. split; [done|]. cbn. congruence.
  - intros x. unfold logged_map at 1. rewrite Hops, added_ops_fold. cbn [vput v_map].
    destruct (F (cmd_key c)) as [k|].
    + change (or_fresh (Some k) dim e) with k. destruct Hkey as (-> & _ & Hmap). by apply put_ext.
    + change (or_fresh None dim e) with (fresh dim e). cbn [fresh v_enc v_map]. destruct Hkey as [-> Hmap]. apply put_ext. intros y. symmetry. apply Hmap.
Qed.

Lemma replay_one t seq d c eff st F :
  c ∈ log → log_size d + zlen (cmd_ops c) ≤ log_size log → matches c eff → replaying d st F →
  ∃ st' F', applyRecoveredEffect t t t seq eff (fst st, Some (snd st)) = Ok (fst st', Some (snd st')) ∧ replaying (d ++ [c]) st' F'.
Proof.
  intros Hin Hd Heff [Hs Hmx Hen Hks]. pose proof (log_size_nonneg d). pose proof (log_size_nonneg log).
  destruct (live_some c Hin) as (kl & Hkl & Hdims). destruct (Hcmds c Hin) as [Hk Hv].
  destruct c as [key id vec|key dim ids vecs|key id]; cbn [cmd_key] in *.
  - pose proof Hv as [Hval _]. assert (Hdim : zlen vec = v_dim kl) by (apply (Hdims id); by left).
    change (zlen (cmd_ops (CAdd key id vec))) with 1 in Hd.
    destruct (replayed_add d (CAdd key id vec) (zlen vec) [(id, vec)] F Hin eq_refl ltac:(by exists kl) Hks) as [Hd1 Hks'].
    destruct (VAdd_replay (log_size log + log_size d) env st F (λ _, None) key id vec e Hs) as (st' & Ha & (C1 & C2 & C3) & Hs');
      [lia|done|by apply Hopen|done|done|done|by rewrite Hen|done|rewrite Hmx; unfold within in *; lia|].
    pose proof (recovered_add env t seq key id vec eff st st' Hv Ha Heff) as E2. exists st', (upd key (Some (vput [(id, vec)] (or_fresh (F key) (zlen vec) e))) F). split; [done|].
    split; [|congruence|congruence|done]. rewrite log_size_snoc. by rewrite Z.add_assoc.
  - pose proof Hv as (Hne & Hval & _). destruct (validateBatch_dims _ _ _ Hval) as (Hl & _ & HFa).
    cbn [cmd_ops] in Hd. rewrite batch_ops_size in Hd by done.
    assert (Hdim : dim = v_dim kl).
    { destruct (zip ids vecs) as [|[id vec] items] eqn:Ez.
      { apply (f_equal length) in Ez. rewrite length_zip in Ez. unfold zlen in *. cbn in Ez. lia. }
      rewrite <- (Hdims id vec); [by apply Forall_cons_1 in HFa as [<- _]|]. cbn. rewrite Ez. by left. }
    destruct (replayed_add d (CBatch key dim ids vecs) dim (zip ids vecs) F Hin eq_refl ltac:(by exists kl) Hks) as [Hd1 Hks'].
    destruct (VAddBatch_replay (log_size log + log_size d) env st F (λ _, None) key dim ids vecs e Hs) as (st' & Ha & (C1 & C2 & C3) & Hs');
      [lia|lia|done|by apply Hopen|done|done|done|done|by rewrite Hen|done|rewrite Hmx; unfold within in *; lia|].
    pose proof (recovered_batch env t seq key dim ids vecs eff st st' Hv Ha Heff) as E2.
    exists st', (upd key (Some (vput (zip ids vecs) (or_fresh (F key) dim e))) F). split; [done|].
    split; [|congruence|congruence|done]. rewrite log_size_snoc. cbn [cmd_ops]. rewrite batch_ops_size by done. by rewrite Z.add_assoc.
  - destruct (VDel_ok level pool name K level_ok pool_ok name_inj name_shadow (log_size log + log_size d) env st F (λ _, None) key id Hs ltac:(lia) Hk (Hopen key Hk))
      as (r & st' & Ha & (C1 & C2 & C3) & Hout).
    destruct r as [b|er|]; [|destruct Hout; congruence|done]. destruct Hout as [_ Hs'].
    pose proof (recovered_del env t seq key id b eff st st' Ha Heff) as E2. exists st', (upd key (vremove id <$> F key) F). split; [done|].
    split; [|congruence|congruence|].
    + rewrite log_size_snoc. change (zlen (cmd_ops (CDel key id))) with 1. eapply store_ok_mono; [|exact Hs']. lia.
    + pose proof (Hks key Hk) as Hkey. destruct (F key) as [k|] eqn:EF; cbn [fmap option_fmap option_map].
      * destruct Hkey as (Ee & Ek & Hmap). apply (replayed_step d (CDel key id)); try done. intros x. cbn. case_decide; [done|]. by rewrite Hmap.
      * destruct Hkey as [Eb Eo]. intros key' Hk'. destruct (decide (key = key')) as [<-|Hne].
        -- rewrite upd_eq. unfold replayed_key. rewrite ops_of_snoc, decide_True by done. split; [done|].
           intros x. unfold logged_map in *. rewrite foldl_app. cbn. case_decide; [done|]. apply Eo.
        -- rewrite upd_ne by done. pose proof (Hks key' Hk') as Hr. unfold replayed_key. by rewrite ops_of_snoc, decide_False.
Qed.

(** The records of the log carry the commands. *)
Definition carries (c : lcmd) (rec : WALRecord) : Prop := 0 < Sequence rec ∧ ∃ eff, matches c eff ∧ expandEffects rec = [eff].

Lemma replay_all t rest records d st F :
  log = d ++ rest → Forall2 carries rest records → replaying d st F →
  ∃ st' F', replay t 0 records (fst st, Some (snd st)) = Ok (fst st', Some (snd st')) ∧ replaying log st' F'.
Proof.
  intros Hlog Hrec. revert d st F Hlog. induction Hrec as [|c rec rest records (Hseq & eff & Heff & Hexp) Hrec IH]; intros d st F Hlog Hr.
  { rewrite app_nil_r in Hlog. subst d. by exists st, F. }
  assert (Hlen : log_size d + zlen (cmd_ops c) ≤ log_size log).
  { rewrite Hlog, (log_size_app d). change (c :: rest) with ([c] ++ rest). rewrite (log_size_app [c] rest), log_size_one. pose proof (log_size_nonneg rest). lia. }
  destruct (replay_one t (Sequence rec) d c eff st F) as (st1 & F1 & E & Hr1); [rewrite Hlog; apply elem_of_app; right; by left|lia|done|done|].
  destruct (IH (d ++ [c]) st1 F1 ltac:(by rewrite <- app_assoc) Hr1) as (st' & F' & E' & Hr'). exists st', F'. split; [|done].
  cbn [replay]. replace (Sequence rec <=? 0) with false by lia. rewrite Hexp. cbn [replay_effects]. rewrite E. exact E'.
Qed.
End Replay.

Lemma same_answer e log (gl base g : option vmap) key id :
  live_key e log gl key → base_ok e log gl base key → replayed_key e log gl base g key →
  match g with Some k => match v_map k id with
                         | Some bs => Ok (decodeRow (v_enc k) (v_dim k) bs)
                         | None => Err "vector id not found"%string
                         end | None => Err "vector id not found"%string end =
  match gl with Some k => match v_map k id with
                          | Some bs => Ok (decodeRow (v_enc k) (v_dim k) bs)
                          | None => Err "vector id not found"%string
                          end | None => Err "vector id not found"%string end.
Proof.
  intros Hl Hb Hr. destruct g as [k|]; cbn in Hr.
  - destruct Hr as (-> & (kl & -> & ->) & Hmap). destruct Hl as (_ & -> & Hml & _). rewrite Hmap, Hml. unfold logged_map.
    destruct (decide (id ∈ (logged_id <$> ops_of key log))) as [Hin|Hout]; [by rewrite (log_fold_touched e _ _ none id Hin)|].
    rewrite !log_fold_untouched by done. destruct base as [kb|]; [|done]. cbn. destruct Hb as (_ & _ & Hun). by rewrite Hun.
  - destruct Hr as [_ Hn]. destruct gl as [kl|]; [|done]. destruct Hl as (_ & _ & Hml & _). by rewrite Hml, Hn.
Qed.
End Log.

(** Without a checkpoint recovery only replays. *)
Lemma recover_replays level pool name hash env t n records vs :
  @Recover VecStore (mmap_store level pool name hash env) t None (Ok records) (New n, Some vs) =
  @replay VecStore (mmap_store level pool name hash env) t 0 records (New n, Some vs).
Proof.
  assert (Hsw : sweep (New n) = []).
  { pose proof (sweep_view (New n) (New_wf n)) as Hp. rewrite New_view, map_to_list_empty in Hp. by apply Permutation_nil_r in Hp. }
  unfold Recover. cbn [fst snd rbind List.filter].
  change (@Recovery.ReopenPersisted VecStore (mmap_store level pool name hash env) (New n, vs)) with
    (keep (ReopenPersisted level pool name env (New n, vs))).
  unfold ReopenPersisted, nil_keys. cbn [fst]. by rewrite Hsw.
Qed.

(** Any additions, batches, deletions and compactions that succeed, a crash, and
    the replay of the log. *)
Lemma crash_recovers level pool name hash K shards maxVectors maxMemory enc e log st records env t :
  (∀ row, 0 ≤ level row ≤ 64) → (∀ row, scratch_ok (pool row)) →
  (∀ k k', k ∈ K → k' ∈ K → name k = name k' → k = k') → (∀ k k', k ∈ K → k' ∈ K → name k ≠ shadowFile k') →
  performed level pool name K shards maxVectors maxMemory enc log st → NormalizeVectorEncoding enc = Ok e →
  2 * log_size log ≤ 2 ^ 62 → within maxVectors (2 * log_size log) →
  (∀ key, key ∈ K → e_open env (name key) = true) → e_meta env = true → e_grow env = true →
  Forall2 carries log records →
  ∃ kv vs, @Recover VecStore (mmap_store level pool name hash env) t None (Ok records) (New shards, Some (crash (snd st))) = Ok (kv, Some vs) ∧
    ∀ key id, key ∈ K →
      fst (GetVector level pool name env key id (kv, vs)) = fst (GetVector level pool name env key id st).
Proof.
  intros Hl Hp Hi Hsh Hpf He Hz Hq Hop Hm Hg Hrec. pose proof (log_size_nonneg log).
  pose proof (performed_holds level pool name K Hl Hp Hi Hsh shards maxVectors maxMemory enc e log st Hpf He ltac:(lia)) as Hok.
  pose proof Hok as [[FL Hs] Hmax Henc _ _ Hcmds].
  destruct (crashed_store level pool name K Hl Hp shards maxVectors enc e log st FL Hok ltac:(lia) He Hs) as [Hcs Hbase].
  set (FB := disk_map level pool name (crash (snd st))) in *.
  pose proof (λ key Hk, live_keys level pool name K Hl Hp maxVectors enc e log st FL key Hok ltac:(lia) Hs Hk) as Hlive.
  destruct (replay_all level pool name hash K Hl Hp Hi Hsh env maxVectors enc e log FL FB He Hop Hm Hg Hz Hq Hlive
    Hcmds t log records [] (New shards, crash (snd st)) FB eq_refl Hrec)
    as ([kv vs] & F' & E & [Hs' Hmx' Hen' Hks']).
  { split; [unfold log_size at 2; cbn; by rewrite Z.add_0_r|done|done|]. intros key Hk. pose proof (Hbase key Hk) as Hb. unfold replayed_key.
    destruct (FB key) as [k|]; [|done]. destruct Hb as (B1 & B2 & _). by conjs. }
  exists kv, vs. split; [rewrite recover_replays; exact E|]. intros key id Hk.
  destruct (GetVector_ok level pool name K Hl Hp Hi _ env (kv, vs) F' (λ _, None) key id Hs' ltac:(lia) Hk (Hop key Hk)) as (s1 & -> & _).
  destruct (GetVector_ok level pool name K Hl Hp Hi _ env st FL (λ _, None) key id Hs ltac:(lia) Hk (Hop key Hk)) as (s2 & -> & _).
  cbn [fst]. apply (same_answer e log (FL key) (FB key) (F' key) key id); [by apply Hlive|by apply Hbase|by apply Hks'].
Qed.

(** ** Examples *)
Definition effect (type : byte) (key : string) (v : slice) : WALEffect :=
  {| we_Type := type; we_Key := key; we_Value := v; we_ExpiresAt := 0 |}.
Definition demo_record (seq : Z) (effect : WALEffect) : WALRecord :=
  {| r_Type := we_Type effect; r_Key := we_Key effect; r_Value := we_Value effect; r_TTLNano := 0; Timestamp := 0;
     Sequence := seq; Effects := [effect] |}.
(** The first write of the metadata of an index happens, later ones are delayed. *)
Definition eager_env : Env :=
  {| e_now := 1; e_open := λ _, true; e_grow := true; e_recent := false; e_meta := true; e_hnsw := true; e_flush := true |}.
Definition demo_hash (m : vectorMetadata) : list byte :=
  bytes_of (FormatInt (meta_Dim m)) ++ mjoin (bytes_of <$> meta_IDs m) ++ ((λ b : bool, if b then z2b 1 else z2b 0) <$> meta_Tombstones m).
Definition tenant0 : vstate := (New 4, new_tenant 0 0 "").
Definition demo_vadd (env : Env) (key id : string) (vec : list float32) (st : vstate) : vstate :=
  snd (VAdd demo_level demo_pool demo_name env key id vec st).
Definition tenant1 : vstate := demo_vadd eager_env "k" "a" [f1; 0] tenant0.
Definition tenant3 : vstate := demo_vadd demo_env "k" "c" [f1; f1] (demo_vadd eager_env "j" "b" [0; f1; f1] tenant1).
Definition del_a : WALEffect := effect RecordVTombstone "k" (to_slice "a").
Definition add_a : WALEffect := effect RecordVAdd "k" (Some (EncodeVAddPayload "a" [f1; 0])).

(** ** Recoveries that fail *)
Definition demo_recover (snap : option (SnapshotHeader * gmap string WireEntry)) (records : list WALRecord) (vs : VecStore)
    : res string unit :=
  match @Recover VecStore (mmap_store demo_level demo_pool demo_name demo_hash demo_env) 1 snap (Ok records) (New 4, Some (crash vs)) with
  | Ok _ => Ok tt
  | Err e => Err e
  | Panic => Panic
  end.

(** The metadata are flushed and sealed, then the keys are saved. *)
Definition demo_checkpoint (sequence : Z) (st : vstate) : SnapshotHeader * gmap string WireEntry :=
  SaveCheckpoint 1 sequence (IndexSeals demo_hash st) (fst st).
Definition flushed (st : vstate) : vstate := snd (FlushDurable demo_env st).

(** A deletion writes the metadata at once, so they differ from the seal of the
    checkpoint before it: recovery refuses to start, although the log has the
    deletion. Without the deletion the same checkpoint recovers. *)
Example deletion_after_checkpoint_blocks_recovery :
  let st := flushed tenant3 in
  let snap := demo_checkpoint 3 st in
  demo_recover (Some snap) [] (snd st) = Ok tt ∧
  demo_recover (Some snap) [demo_record 4 del_a] (snd (snd (VDel demo_level demo_pool demo_name demo_env "k" "a" st))) =
    Err ("recovery: vector seal mismatch: vector index " ++ quoted "k" ++ " seal mismatch (dim/count/meta)")%string.
Proof. vm_compute. split; reflexivity. Qed.

Definition start3 : WALEffect := effect RecordVMigrateStart "k" (Some (EncodeVMigrateStartPayload 3 "float32")).
Definition shadow_a : WALEffect := effect RecordVMigrateAdd "k" (Some (EncodeVAddPayload "a" [f1; 0; f1])).
Definition swap_k : WALEffect := effect RecordVMigrateSwap "k" None.
Definition migrating (st : vstate) : vstate :=
  snd (InsertShadowVector demo_level demo_pool demo_name demo_env "k" "a" [f1; 0; f1]
         (snd (StartMigration demo_level demo_pool demo_name demo_env "k" 3 "float32" st))).
Definition migrated (st : vstate) : vstate := snd (SwapMigration demo_level demo_pool demo_name demo_env "k" (migrating st)).

(** After a migration to another dimension the log still starts with vectors of
    the old one: their replay on the migrated files fails, and overwrites the
    metadata of the migrated index. *)
Example migration_blocks_recovery :
  let records := zip_with demo_record [1; 2; 3; 4] [add_a; start3; shadow_a; swap_k] in
  let vs := snd (migrated tenant1) in
  demo_recover None records vs = Err "recovery: vector add sequence 1: invalid vector metadata"%string ∧
  meta_IDs <$> f_meta (files (demo_name "k") vs) = Some ["a"%string] ∧
  meta_IDs <$> f_meta (files (demo_name "k") (snd (snd (VAdd demo_level demo_pool demo_name demo_env "k" "a" [f1; 0] (New 4, crash vs))))) = Some [].
Proof. vm_compute. repeat split; reflexivity. Qed.

(** A checkpoint does not record a running migration: what is added to the
    shadow after it cannot be replayed. *)
Example checkpoint_during_migration_blocks_recovery :
  let st := flushed (snd (StartMigration demo_level demo_pool demo_name demo_env "k" 3 "float32" tenant1)) in
  let snap := demo_checkpoint 2 st in
  let vs := snd (snd (InsertShadowVector demo_level demo_pool demo_name demo_env "k" "a" [f1; 0; f1] st)) in
  demo_recover (Some snap) [demo_record 3 shadow_a] vs = Err "recovery: migrate add sequence 3: no migration in progress"%string.
Proof. vm_compute. reflexivity. Qed.

(** A crash between the renames of a swap leaves the rows of the shadow under
    the names of the old index. *)
Definition reordered (st : vstate) : vstate :=
  let start := snd (StartMigration demo_level demo_pool demo_name demo_env "k" 2 "sq8" st) in
  snd (InsertShadowVector demo_level demo_pool demo_name demo_env "k" "a" [f1; 0]
    (snd (InsertShadowVector demo_level demo_pool demo_name demo_env "k" "b" [0; f1] start))).
Example crash_in_swap_mixes_rows :
  fst (GetVector demo_level demo_pool demo_name demo_env "k" "a" tenant1) = Ok [f1; 0] ∧
  fst (GetVector demo_level demo_pool demo_name demo_env "k" "a" (New 4, crash_in_swap demo_env false 0 (snd (reordered tenant1)))) = Ok [0; f1].
Proof. vm_compute. split; reflexivity. Qed.
