(* ===== verification/Replication.v ===== *)
(** * Applying replicated records ([query/executor.go]: [ApplyWALRecord])

    A replica applies the records it receives without logging them. The branch
    for records with effects does on a store what recovery does; the branch for
    bare records takes their time to live as relative. *)

From S2P Require Import Prelude GoStd Types KV WAL VectorPayload Recovery.

Section Replication.
Context {V : Type} `{VectorStore V}.

(** The keys, the vector store and the accounted memory of the replica. *)
Record Replica := { rp_kv : KVStore; rp_vec : V; rp_accounted : Z }.

Definition with_store (r : Replica) (st : KVStore * V) : Replica :=
  {| rp_kv := fst st; rp_vec := snd st; rp_accounted := rp_accounted r |}.
Definition with_kv (r : Replica) (s : KVStore) : Replica := with_store r (s, rp_vec r).
Definition drop_key (r : Replica) (key : string) : Replica :=
  with_store r (snd (Delete [key] (rp_kv r)), close_key key (rp_kv r) (rp_vec r)).
Definition on_store (r : Replica) (f : KVStore * V → res string (KVStore * V)) : res string Replica :=
  let? st := f (rp_kv r, rp_vec r) in Ok (with_store r st).

(** [fmt.Errorf("replication: key %q not found for expire", key)]; [%q] is the
    key in quotes, for a key without special characters. *)
Definition expire_missing (key : string) : string :=
  ("replication: key " ++ str_of [Byte.x22] ++ key ++ str_of [Byte.x22] ++ " not found for expire")%string.

(** The vector operations of both branches; the decoders are not checked here. *)
Definition replicate_vector (ty : byte) (key : string) (v : slice) (r : Replica)
    : option (res string Replica) :=
  let data := contents v in
  if bool_decide (ty = RecordVAdd) then
    Some (let '(id_, vector) := DecodeVAddPayload data in on_store r (VAdd key id_ (default [] vector)))
  else if bool_decide (ty = RecordVAddBatch) then
    Some (let? p := DecodeVAddBatchPayload data in
          let '(dim, ids, vectors) := p in on_store r (VAddBatch key dim ids vectors))
  else if bool_decide (ty = RecordVTombstone) then Some (on_store r (VDel key (to_str v)))
  else if bool_decide (ty = RecordVMigrateStart) then
    Some (let? p := DecodeVMigrateStartPayload data in on_store r (StartMigration key (fst p) (snd p)))
  else if bool_decide (ty = RecordVMigrateAdd) then
    Some (let '(id_, vector) := DecodeVAddPayload data in
          on_store r (InsertShadowVector key id_ (default [] vector)))
  else if bool_decide (ty = RecordVMigrateSwap) then Some (on_store r (SwapMigration key))
  else if bool_decide (ty = RecordVMigrateCancel) then Some (on_store r (CancelMigration key))
  else None.

Definition applyReplicatedEffect (t1 t2 t3 : Z) (effect : WALEffect) (r : Replica) : res string Replica :=
  let kv := rp_kv r in
  let ty := we_Type effect in
  let key := we_Key effect in
  if bool_decide (ty = RecordSet) then
    if we_ExpiresAt effect >? 0 then
      let remaining := i64 (we_ExpiresAt effect - t1) in
      if remaining <=? 0 then Ok (drop_key r key)
      else Ok (with_kv r (Set_ t2 key (VBytes (we_Value effect)) TypeString remaining kv))
    else Ok (with_kv r (Set_ t2 key (VBytes (we_Value effect)) TypeString 0 kv))
  else if bool_decide (ty = RecordDelete) || bool_decide (ty = RecordDeleteIndex) then
    Ok (drop_key r key)
  else if bool_decide (ty = RecordExpire) then
    if we_ExpiresAt effect <=? 0 then Ok (with_kv r (snd (Persist t1 key kv)))
    else
      let remaining := i64 (we_ExpiresAt effect - t1) in
      if remaining <=? 0 then Ok (drop_key r key)
      else
        let '(ok, kv) := Expire t2 t3 key (Z.max 1 (Z.quot remaining second)) kv in
        if ok then Ok (with_kv r kv) else Err (expire_missing key)
  else
    match replicate_vector ty key (we_Value effect) r with
    | Some res => res
    | None => Err ("replication: unsupported WAL effect type " ++ FormatInt (b2z ty))%string
    end.

Fixpoint apply_effects (t : Z) (effects : list WALEffect) (r : Replica) : res string Replica :=
  match effects with
  | [] => Ok r
  | effect :: effects => let? r := applyReplicatedEffect t t t effect r in apply_effects t effects r
  end.

Definition account (t : Z) (r : Replica) : Replica :=
  {| rp_kv := rp_kv r; rp_vec := rp_vec r;
     rp_accounted := MemoryUsage t (rp_kv r) + vec_MemoryUsage (rp_kv r, rp_vec r) |}.

(** The branch for a record without effects. The migration cases return before
    the memory is accounted. *)
Definition apply_bare (t : Z) (rec : WALRecord) (r : Replica) : res string Replica :=
  let kv := rp_kv r in
  let ty := r_Type rec in
  let key := r_Key rec in
  if bool_decide (ty = RecordSet) then
    Ok (account t (with_kv r (Set_ t key (VBytes (r_Value rec)) TypeString (r_TTLNano rec) kv)))
  else if bool_decide (ty = RecordDelete) then Ok (account t (drop_key r key))
  else if bool_decide (ty = RecordExpire) then
    if r_TTLNano rec >? 0 then
      let '(ok, kv) := Expire t t key (Z.quot (r_TTLNano rec) second) kv in
      if ok then Ok (account t (with_kv r kv)) else Err (expire_missing key)
    else Ok (account t r)
  else
    match replicate_vector ty key (r_Value rec) r with
    | Some res =>
        let? r := res in
        Ok (if bool_decide (ty ∈ [RecordVAdd; RecordVAddBatch; RecordVTombstone]) then account t r else r)
    | None => Err ("replication: unsupported WAL record type " ++ FormatInt (b2z ty))%string
    end.

Definition ApplyWALRecord (t : Z) (rec : WALRecord) (r : Replica) : res string Replica :=
  match Effects rec with
  | [] => apply_bare t rec r
  | effects => let? r := apply_effects t effects r in Ok (account t r)
  end.

(** ** A replica does what recovery does *)
Definition as_rstate (r : Replica) : rstate (V := V) := (rp_kv r, Some (rp_vec r)).

(** The vector records whose payload recovery refuses to decode. *)
Definition payload_ok (effect : WALEffect) : Prop :=
  (we_Type effect = RecordVAdd ∨ we_Type effect = RecordVMigrateAdd →
   ∃ id_ x vector, DecodeVAddPayload (contents (we_Value effect)) = (id_, Some (x :: vector)) ∧
     id_ ≠ ""%string) ∧
  (we_Type effect = RecordVAddBatch → ∀ dim ids vectors,
   DecodeVAddBatchPayload (contents (we_Value effect)) = Ok (dim, ids, vectors) →
   0 < dim ∧ 0 < zlen ids ∧ zlen ids = zlen vectors).

Lemma on_store_vec r f st what seq :
  on_store r f = Ok st → on_vec (as_rstate r) (fun x => rwrap what seq (f x)) = Ok (as_rstate st).
Proof.
  unfold on_store, on_vec, as_rstate. cbn [fst snd]. destruct (f (rp_kv r, rp_vec r)) as [p| |]; [|done..].
  cbn. by intros [= <-].
Qed.

Lemma effect_agrees t1 t2 t3 seq effect r r' :
  payload_ok effect → applyReplicatedEffect t1 t2 t3 effect r = Ok r' →
  applyRecoveredEffect t1 t2 t3 seq effect (as_rstate r) = Ok (as_rstate r').
Proof.
  intros [Hp1 Hp2]. destruct effect as [ty key v exp]. unfold applyReplicatedEffect, applyRecoveredEffect, as_rstate.
  cbn [we_Type we_Key we_Value we_ExpiresAt] in *.
  case_bool_decide as E1; [destruct (exp >? 0); [destruct (_ <=? 0)|]; by intros [= <-]|].
  case_bool_decide as E2; cbn [orb]; [by intros [= <-]|].
  destruct (decide (ty = RecordDeleteIndex)) as [->|E3].
  { rewrite bool_decide_eq_true_2 by done. intros [= <-].
    by rewrite !(bool_decide_eq_false_2 (RecordDeleteIndex = _)) by done. }
  rewrite (bool_decide_eq_false_2 (ty = RecordDeleteIndex)) by done.
  case_bool_decide as E4.
  { destruct (exp <=? 0); [by intros [= <-]|]. destruct (_ <=? 0); [by intros [= <-]|].
    destruct (Expire t2 t3 key _ (rp_kv r)) as [[] kv']; [by intros [= <-]|done]. }
  unfold replicate_vector.
  case_bool_decide as E5.
  { destruct Hp1 as (id_ & x & vec & -> & Hne); [by left|]. rewrite bool_decide_eq_false_2 by done.
    apply (on_store_vec r (VAdd key id_ (x :: vec)) r' "vector add" seq). }
  case_bool_decide as E6.
  { destruct (DecodeVAddBatchPayload (contents v)) as [[[dim ids] vectors]| |] eqn:Ed; cbn [rbind]; [|done..].
    destruct (Hp2 E6 dim ids vectors eq_refl) as (Hd & Hi & Hl).
    rewrite (proj2 (Z.leb_gt _ _)), (proj2 (Z.eqb_neq (zlen ids) 0)), Hl, Z.eqb_refl by lia. cbn [orb negb].
    apply (on_store_vec r (VAddBatch key dim ids vectors) r' "vector batch" seq). }
  case_bool_decide as E7; [apply (on_store_vec r (VDel key (to_str v)) r' "vector tombstone" seq)|].
  case_bool_decide as E8.
  { destruct (DecodeVMigrateStartPayload (contents v)) as [[dim enc]| |] eqn:Ed; cbn [rbind rwrap]; [|done..].
    apply (on_store_vec r (StartMigration key dim enc) r' "migrate start" seq). }
  case_bool_decide as E9.
  { destruct Hp1 as (id_ & x & vec & -> & Hne); [by right|]. rewrite bool_decide_eq_false_2 by done.
    apply (on_store_vec r (InsertShadowVector key id_ (x :: vec)) r' "migrate add" seq). }
  case_bool_decide as E10; [apply (on_store_vec r (SwapMigration key) r' "migrate swap" seq)|].
  case_bool_decide as E11; [apply (on_store_vec r (CancelMigration key) r' "migrate cancel" seq)|].
  done.
Qed.

Lemma effects_agree t seq effects r r' :
  Forall payload_ok effects → apply_effects t effects r = Ok r' →
  replay_effects t seq effects (as_rstate r) = Ok (as_rstate r').
Proof.
  intros Hp. revert r. induction Hp as [|e es He _ IH]; intros r; cbn [apply_effects replay_effects].
  { by intros [= <-]. }
  destruct (applyReplicatedEffect t t t e r) as [r1| |] eqn:E1; cbn [rbind]; [|done..].
  rewrite (effect_agrees t t t seq e r r1 He E1). apply IH.
Qed.

(** C34: when a replica accepts a logged record, its keys and vectors
    are those recovery builds from the same record at the same instant, and its
    accounted memory is measured afresh. *)
Theorem replica_agrees t c rec r r' :
  Effects rec ≠ [] → c < Sequence rec → Forall payload_ok (Effects rec) →
  ApplyWALRecord t rec r = Ok r' →
  replay t c [rec] (as_rstate r) = Ok (as_rstate r') ∧
  rp_accounted r' = MemoryUsage t (rp_kv r') + vec_MemoryUsage (rp_kv r', rp_vec r').
Proof.
  intros Hne Hseq Hp. unfold ApplyWALRecord. destruct (Effects rec) as [|e es] eqn:Ee; [done|].
  destruct (apply_effects t (e :: es) r) as [r1| |] eqn:Ea; [|done..]. cbn [rbind]. intros [= <-].
  split; [|done]. cbn [replay]. rewrite (proj2 (Z.leb_gt _ _) Hseq). unfold expandEffects. rewrite Ee.
  rewrite (effects_agree t (Sequence rec) (e :: es) r r1 Hp Ea). done.
Qed.

End Replication.

Lemma replica_agrees_witness :
  let rec := {| r_Type := RecordSet; r_Key := "a"; r_Value := None; r_TTLNano := 0; Timestamp := 5;
                Sequence := 1; Effects := [put "a" (to_slice "1") 0; del "b"] |} in
  let r := {| rp_kv := New 4; rp_vec := tt; rp_accounted := 0 |} in
  ∃ r', ApplyWALRecord 5 rec r = Ok r' ∧ replay 5 0 [rec] (New 4, Some tt) = Ok (as_rstate r') ∧
    rp_accounted r' = 98.
Proof.
  cbv zeta. eexists. split; [reflexivity|].
  split; [|by vm_compute].
  refine (proj1 (replica_agrees 5 0 {| r_Type := RecordSet; r_Key := "a"; r_Value := None; r_TTLNano := 0;
    Timestamp := 5; Sequence := 1; Effects := [put "a" (to_slice "1") 0; del "b"] |}
    {| rp_kv := New 4; rp_vec := tt; rp_accounted := 0 |} _ _ _ _ _)); [done|done| |reflexivity].
  do 2 (constructor; [split; [by intros []|done]|]). constructor.
Defined.
