(* ===== verification/ReplSession.v ===== *)
(** * A replication session: handshake, cipher and frames
    ([replication/handshake.go], [replication/session.go], and the frames of
    [replication/stream.go])

    A connection is the bytes the peer sends, the bytes written to it and how
    many more it takes before it fails; a read past the end is the error a closed
    or timed out connection gives. HMAC is written out over [Sum256]; AES-GCM is
    the function [gcm] from a key to a cipher.

    The theorems: the handshake succeeds exactly on a proof of the token over
    both nonces, and then both ends hold the same key ([handshake_mutual]); of
    whatever bytes reach the replica it applies a prefix of the records sent to
    it in this session, and all of them when all arrive ([stream_integrity]). *)

From S2P Require Import Prelude GoStd RESP Commands Auth WAL.
Open Scope Z_scope.

(** ** HMAC ([crypto/hmac] with SHA-256) *)
Definition xor_pad (pad : Z) (key : list byte) : list byte := (λ b, z2b (Z.lxor pad (b2z b))) <$> key.
Definition hmac_key (key : list byte) : list byte :=
  let key := if (64 <? length key)%nat then Sum256 key else key in
  key ++ replicate (64 - length key) Byte.x00.
Definition hmac_Sum (key data : list byte) : list byte :=
  let k := hmac_key key in
  Sum256 (xor_pad 92 k ++ Sum256 (xor_pad 54 k ++ data)).

Example hmac_jefe :
  EncodeToString (hmac_Sum (bytes_of "Jefe") (bytes_of "what do ya want for nothing?")) =
  "5bdcc146bf60754e6a042426089575c75a003f089d2739839dec58b964ec3843"%string.
Proof. vm_compute. reflexivity. Qed.

(** ** Connections *)
Record Conn := { c_in : list byte; c_out : list byte; c_room : option nat }.

(** [writeFull]: all the bytes, or those that fit and an error. *)
Definition writeFull (payload : list byte) (c : Conn) : bool * Conn :=
  match c_room c with
  | None => (true, {| c_in := c_in c; c_out := c_out c ++ payload; c_room := None |})
  | Some n =>
      (bool_decide (length payload ≤ n)%nat,
       {| c_in := c_in c; c_out := c_out c ++ take n payload; c_room := Some (n - length payload)%nat |})
  end.

Definition maxReplicationFrameSize : Z := Z.shiftl 64 20.
Definition sealOverhead : Z := 16.
Definition maxSealedFrameSize : Z := maxReplicationFrameSize + sealOverhead.

Definition writeFrame (data : list byte) (c : Conn) : bool * Conn :=
  if (zlen data =? 0) || (zlen data >? maxSealedFrameSize) then (false, c)
  else
    let '(ok, c) := writeFull (be_put 4 (zlen data)) c in
    if ok then writeFull data c else (false, c).

Definition read (n : nat) (c : Conn) : option (list byte) * Conn :=
  match ReadFull n (c_in c) with
  | inl _ => (None, {| c_in := []; c_out := c_out c; c_room := c_room c |})
  | inr (l, rest) => (Some l, {| c_in := rest; c_out := c_out c; c_room := c_room c |})
  end.

Definition readExactFrame (want : Z) (c : Conn) : option (list byte) * Conn :=
  match read 4 c with
  | (None, c) => (None, c)
  | (Some header, c) => if negb (be_get header =? want) then (None, c) else read (Z.to_nat want) c
  end.

(** ** The cipher of a session *)
Record frameCipher := { fc_key : list byte; fc_counter : Z }.

Definition frame_nonce (counter : Z) : list byte := replicate (NonceSize - 8) Byte.x00 ++ be_put 8 counter.
Definition nextNonce (fc : frameCipher) : list byte * frameCipher :=
  (frame_nonce (fc_counter fc), {| fc_key := fc_key fc; fc_counter := u64 (fc_counter fc + 1) |}).

Section Session.
Variable gcm : list byte → AEAD.

Definition seal (fc : frameCipher) (plain : list byte) : list byte * frameCipher :=
  let '(nonce, fc1) := nextNonce fc in (Seal (gcm (fc_key fc)) nonce plain, fc1).
Definition open (fc : frameCipher) (sealed : list byte) : option (list byte) * frameCipher :=
  let '(nonce, fc1) := nextNonce fc in (Open (gcm (fc_key fc)) nonce sealed, fc1).
End Session.

(** ** The handshake *)
Definition handshakeMagic : list byte := bytes_of "DBXREPL1".
Definition handshakeNonce : Z := 32.
Definition labelPrimary : string := "dbx-repl-primary".
Definition labelReplica : string := "dbx-repl-replica".
Definition labelSession : string := "dbx-repl-session".
Definition MinTokenLength : Z := 32.

Definition handshakeMAC (token label : string) (first second : list byte) : list byte :=
  hmac_Sum (bytes_of token) (bytes_of label ++ first ++ second).

(** AES takes keys of 16, 24 or 32 bytes. *)
Definition sessionCipher (token : string) (replicaNonce primaryNonce : list byte) : option frameCipher :=
  let key := handshakeMAC token labelSession replicaNonce primaryNonce in
  if bool_decide (length key ∈ [16; 24; 32]%nat) then Some {| fc_key := key; fc_counter := 0 |} else None.

(** [fresh] is what the random source gave, [None] when it failed. *)
Definition serverHandshake (token : string) (fresh : option (list byte)) (c : Conn) : option frameCipher * Conn :=
  if strlen token <? MinTokenLength then (None, c)
  else
    match readExactFrame (zlen handshakeMagic + handshakeNonce) c with
    | (None, c) => (None, c)
    | (Some hello, c) =>
        if negb (bool_decide (take (length handshakeMagic) hello = handshakeMagic)) then (None, c)
        else
          let replicaNonce := drop (length handshakeMagic) hello in
          match fresh with
          | None => (None, c)
          | Some primaryNonce =>
              let challenge := primaryNonce ++ handshakeMAC token labelPrimary replicaNonce primaryNonce in
              let '(ok, c) := writeFrame challenge c in
              if negb ok then (None, c)
              else
                match readExactFrame 32 c with
                | (None, c) => (None, c)
                | (Some proof, c) =>
                    if negb (bool_decide (proof = handshakeMAC token labelReplica primaryNonce replicaNonce)) then (None, c)
                    else (sessionCipher token replicaNonce primaryNonce, c)
                end
          end
    end.

Definition clientHandshake (token : string) (fresh : option (list byte)) (c : Conn) : option frameCipher * Conn :=
  if strlen token <? MinTokenLength then (None, c)
  else
    match fresh with
    | None => (None, c)
    | Some replicaNonce =>
        let '(ok, c) := writeFrame (handshakeMagic ++ replicaNonce) c in
        if negb ok then (None, c)
        else
          match readExactFrame (handshakeNonce + 32) c with
          | (None, c) => (None, c)
          | (Some challenge, c) =>
              let primaryNonce := take (Z.to_nat handshakeNonce) challenge in
              if negb (bool_decide (drop (Z.to_nat handshakeNonce) challenge =
                                    handshakeMAC token labelPrimary replicaNonce primaryNonce)) then (None, c)
              else
                let '(ok, c) := writeFrame (handshakeMAC token labelReplica primaryNonce replicaNonce) c in
                if negb ok then (None, c)
                else (sessionCipher token replicaNonce primaryNonce, c)
          end
    end.

(** ** Frames *)
Section Frames.
Variable gcm : list byte → AEAD.

(** [StreamReplicaConn.send] *)
Definition send (data : list byte) (fc : frameCipher) (c : Conn) : bool * frameCipher * Conn :=
  let '(sealed, fc) := seal gcm fc data in
  let '(ok, c) := writeFrame sealed c in (ok, fc, c).

(** The frames of a session, until a write fails. *)
Fixpoint sends (datas : list (list byte)) (fc : frameCipher) (c : Conn) : bool * frameCipher * Conn :=
  match datas with
  | [] => (true, fc, c)
  | data :: datas =>
      let '(ok, fc, c) := send data fc c in
      if ok then sends datas fc c else (false, fc, c)
  end.

(** The length prefix and the frame behind it. *)
Definition next_frame (input : list byte) : option (list byte * list byte) :=
  match ReadFull 4 input with
  | inl _ => None
  | inr (header, input) =>
      let length := be_get header in
      if (length <=? sealOverhead) || (length >? maxSealedFrameSize) then None
      else match ReadFull (Z.to_nat length) input with inl _ => None | inr p => Some p end
  end.

(** [consumeStream] on the bytes that arrive. [apply] says whether the record was
    applied and what it left. Every frame takes at least four bytes. *)
Section Consume.
Context {S : Type} (apply : WALRecord → S → bool * S).

Fixpoint consume (fuel : nat) (fc : frameCipher) (input : list byte) (st : S) : S :=
  match fuel with
  | O => st
  | Datatypes.S fuel =>
      match next_frame input with
      | None => st
      | Some (sealed, input) =>
          match open gcm fc sealed with
          | (None, _) => st
          | (Some data, fc) =>
              match DecodeRecord data with
              | Ok rec =>
                  let '(ok, st) := apply rec st in
                  if ok then consume fuel fc input st else st
              | _ => st
              end
          end
      end
  end.
Definition consumeStream (fc : frameCipher) (input : list byte) (st : S) : S :=
  consume (Datatypes.S (length input)) fc input st.

(** The records in order, until one is refused. *)
Fixpoint apply_until (recs : list WALRecord) (st : S) : bool * S :=
  match recs with
  | [] => (true, st)
  | rec :: recs =>
      let '(ok, st) := apply rec st in
      if ok then apply_until recs st else (false, st)
  end.
End Consume.

(** The sealed frames in a stream of bytes. *)
Fixpoint frames_in (fuel : nat) (input : list byte) : list (list byte) :=
  match fuel with
  | O => []
  | Datatypes.S fuel =>
      match next_frame input with
      | None => []
      | Some (sealed, input) => sealed :: frames_in fuel input
      end
  end.

(** No frame was made up: what opens as frame [i] was sealed as frame [i]. *)
Definition unforged (key : list byte) (datas : list (list byte)) (input : list byte) : Prop :=
  ∀ (i : nat) c p, frames_in (Datatypes.S (length input)) input !! i = Some c →
    Open (gcm key) (frame_nonce (Z.of_nat i)) c = Some p → datas !! i = Some p.

(** A record that fits in a frame of the log and of the stream. *)
Definition sendable (rec : WALRecord) : Prop :=
  record_ok rec ∧ frame_fits None rec ∧ zlen (encodeRecordPlain rec) ≤ maxReplicationFrameSize.

(** ** Proofs about frames *)
Lemma next_frame_short input sealed rest : next_frame input = Some (sealed, rest) → (length rest < length input)%nat.
Proof.
  unfold next_frame, ReadFull. destruct (_ <? 4)%nat eqn:E; [done|]. cbn zeta. destruct (_ || _) eqn:E1; [done|].
  destruct (length (drop 4 input) <? _)%nat; [done|]. intros [= _ <-]. rewrite !length_drop. apply Nat.ltb_ge in E. lia.
Qed.

Lemma next_frame_sent data rest :
  sealOverhead < zlen data ≤ maxSealedFrameSize → next_frame (be_put 4 (zlen data) ++ data ++ rest) = Some (data, rest).
Proof.
  intros Hz. unfold next_frame. rewrite ReadFull_app by apply length_be_put. cbn zeta.
  assert (Hg : be_get (be_put 4 (zlen data)) = zlen data).
  { apply be_get_put_small. split; [apply zlen_nonneg|]. change (256 ^ Z.of_nat 4) with 4294967296.
    change maxSealedFrameSize with 67108880 in Hz. lia. }
  rewrite Hg. destruct (_ <=? _) eqn:E1; [lia|]. destruct (_ >? _) eqn:E2; [lia|]. cbn [orb].
  unfold zlen. rewrite Nat2Z.id. by rewrite ReadFull_app.
Qed.

Lemma sendable_decodes rec : sendable rec → DecodeRecord (encodeRecordPlain rec) = Ok (reread_record rec).
Proof.
  intros (Hr & Hf & _). unfold DecodeRecord. rewrite (decodeFrames_one None _ (reread_record rec)); [done|].
  by apply (encodeRecord_frame None (replicate 12 Byte.x00)).
Qed.

Lemma frames_in_cons input sealed rest :
  next_frame input = Some (sealed, rest) →
  frames_in (Datatypes.S (length input)) input = sealed :: frames_in (Datatypes.S (length rest)) rest.
Proof.
  intros E. cbn [frames_in]. rewrite E. f_equal. apply next_frame_short in E.
  assert (Hf : ∀ n m l, (length l < n)%nat → (length l < m)%nat → frames_in n l = frames_in m l).
  { clear. induction n as [|n IH]; intros m l Hn Hm; [lia|]. destruct m as [|m]; [lia|]. cbn [frames_in].
    destruct (next_frame l) as [[c r]|] eqn:E; [|done]. f_equal. apply next_frame_short in E. apply IH; lia. }
  apply (Hf _ (Datatypes.S (length rest))); lia.
Qed.

Section Receive.
Context {S : Type} (apply : WALRecord → S → bool * S) (key : list byte).

Lemma consume_fuel n m fc l st :
  (length l < n)%nat → (length l < m)%nat → consume apply n fc l st = consume apply m fc l st.
Proof.
  revert m fc l st. induction n as [|n IH]; intros m fc l st Hn Hm; [lia|]. destruct m as [|m]; [lia|]. cbn [consume].
  destruct (next_frame l) as [[c r]|] eqn:E; [|done]. destruct (open gcm fc c) as [[data|] fc1]; [|done].
  destruct (DecodeRecord data); [|done..]. destruct (apply _ _) as [[] st1]; [|done]. apply next_frame_short in E. apply IH; lia.
Qed.

Lemma consume_step fc input sealed rest st :
  next_frame input = Some (sealed, rest) →
  consumeStream apply fc input st =
  match open gcm fc sealed with
  | (Some data, fc) =>
      match DecodeRecord data with
      | Ok rec => let '(ok, st) := apply rec st in if ok then consumeStream apply fc rest st else st
      | _ => st
      end
  | (None, _) => st
  end.
Proof.
  intros E. unfold consumeStream. cbn [consume]. rewrite E. pose proof (next_frame_short _ _ _ E).
  destruct (open gcm fc sealed) as [[data|] fc1]; [|done]. destruct (DecodeRecord data); [|done..].
  destruct (apply _ _) as [[] st1]; [|done]. apply (consume_fuel _ (Datatypes.S (length rest))); lia.
Qed.

Lemma consume_prefix recs i input st :
  Forall sendable recs → Z.of_nat i + zlen recs < 2 ^ 64 →
  (∀ (j : nat) c p, frames_in (Datatypes.S (length input)) input !! j = Some c →
     Open (gcm key) (frame_nonce (Z.of_nat (i + j))) c = Some p → encodeRecordPlain <$> recs !! j = Some p) →
  ∃ n, consumeStream apply {| fc_key := key; fc_counter := Z.of_nat i |} input st =
       snd (apply_until apply (take n (reread_record <$> recs)) st).
Proof.
  intros Hs. revert i input st. induction Hs as [|rec recs Hrec Hs IH]; intros i input st Hz Hu.
  - exists 0%nat. destruct (next_frame input) as [[c rest]|] eqn:E; [|unfold consumeStream; cbn [consume]; by rewrite E].
    rewrite (consume_step _ _ _ _ _ E). unfold open, nextNonce. cbn [fc_key fc_counter].
    destruct (Open _ _ c) as [p|] eqn:Eo; [|done]. exfalso.
    specialize (Hu 0%nat c p). rewrite (frames_in_cons _ _ _ E), Nat.add_0_r in Hu. by specialize (Hu eq_refl Eo).
  - destruct (next_frame input) as [[c rest]|] eqn:E; [|exists 0%nat; unfold consumeStream; cbn [consume]; by rewrite E].
    rewrite (consume_step _ _ _ _ _ E). unfold open, nextNonce. cbn [fc_key fc_counter].
    destruct (Open _ _ c) as [p|] eqn:Eo; [|by exists 0%nat].
    pose proof (Hu 0%nat c p) as H0. rewrite (frames_in_cons _ _ _ E), Nat.add_0_r in H0. specialize (H0 eq_refl Eo).
    assert (Hp : Some (encodeRecordPlain rec) = Some p) by exact H0. injection Hp as <-. rewrite (sendable_decodes rec Hrec). destruct (apply (reread_record rec) st) as [ok st1] eqn:Ea.
    destruct ok; [|exists 1%nat; cbn; by rewrite Ea].
    change (rec :: recs) with ([rec] ++ recs) in Hz. rewrite zlen_app in Hz. change (zlen [rec]) with 1 in Hz. pose proof (zlen_nonneg recs).
    replace (u64 (Z.of_nat i + 1)) with (Z.of_nat (Datatypes.S i)) by (rewrite u64_id; lia).
    destruct (IH (Datatypes.S i) rest st1) as [n Hn]; [lia| |].
    { intros j c' p' Hj Ho. apply (Hu (Datatypes.S j) c' p'); [by rewrite (frames_in_cons _ _ _ E)|].
      by replace (i + Datatypes.S j)%nat with (Datatypes.S i + j)%nat by lia. }
    exists (Datatypes.S n). rewrite Hn. cbn. by rewrite Ea.
Qed.
End Receive.

(** The bytes of a session whose writes all succeed. *)
Fixpoint session_bytes (key : list byte) (i : nat) (datas : list (list byte)) : list byte :=
  match datas with
  | [] => []
  | data :: datas =>
      let sealed := Seal (gcm key) (frame_nonce (Z.of_nat i)) data in
      be_put 4 (zlen sealed) ++ sealed ++ session_bytes key (Datatypes.S i) datas
  end.

Lemma writeFull_out payload c :
  let '(ok, c1) := writeFull payload c in
  ∃ k, c_out c1 = c_out c ++ take k payload ∧ (ok = true → take k payload = payload).
Proof.
  unfold writeFull. destruct (c_room c) as [n|].
  - exists n. split; [done|]. intros H%bool_decide_eq_true. by apply take_ge.
  - exists (length payload). cbn [c_out]. split; [by rewrite firstn_all|]. intros _. apply firstn_all.
Qed.

Lemma writeFrame_out data c :
  let '(ok, c1) := writeFrame data c in
  ∃ k, c_out c1 = c_out c ++ take k (be_put 4 (zlen data) ++ data) ∧
       (ok = true → take k (be_put 4 (zlen data) ++ data) = be_put 4 (zlen data) ++ data).
Proof.
  unfold writeFrame. destruct (_ || _); [exists 0%nat; by rewrite app_nil_r|].
  pose proof (writeFull_out (be_put 4 (zlen data)) c) as H1. destruct (writeFull _ c) as [[] c1]; destruct H1 as (k1 & E1 & H1).
  - pose proof (writeFull_out data c1) as H2. destruct (writeFull _ c1) as [ok c2]. destruct H2 as (k2 & E2 & H2).
    exists (4 + k2)%nat. rewrite E2, E1, (H1 eq_refl), <- app_assoc, take_app_add' by (by rewrite length_be_put).
    split; [done|]. intros Hok. by rewrite (H2 Hok).
  - exists (k1 `min` 4)%nat. rewrite E1. split; [|done]. f_equal. rewrite take_app_le by (rewrite length_be_put; lia).
    destruct (decide (k1 ≤ 4)%nat); [by rewrite Nat.min_l|]. rewrite Nat.min_r, !take_ge by (rewrite ?length_be_put; lia). done.
Qed.

Lemma sends_out key datas i c :
  Z.of_nat i + zlen datas < 2 ^ 64 →
  let '(ok, _, c1) := sends datas {| fc_key := key; fc_counter := Z.of_nat i |} c in
  ∃ k, c_out c1 = c_out c ++ take k (session_bytes key i datas) ∧ (ok = true → take k (session_bytes key i datas) = session_bytes key i datas).
Proof.
  revert i c. induction datas as [|data datas IH]; intros i c Hz; cbn [sends session_bytes].
  { exists 0%nat. by rewrite app_nil_r. }
  change (data :: datas) with ([data] ++ datas) in Hz. rewrite zlen_app in Hz. change (zlen [data]) with 1 in Hz. pose proof (zlen_nonneg datas).
  unfold send, seal, nextNonce. cbn [fc_key fc_counter]. set (sealed := Seal _ _ _).
  pose proof (writeFrame_out sealed c) as H1. destruct (writeFrame sealed c) as [[] c1]; destruct H1 as (k1 & E1 & H1).
  - replace (u64 (Z.of_nat i + 1)) with (Z.of_nat (Datatypes.S i)) by (rewrite u64_id; lia).
    pose proof (IH (Datatypes.S i) c1 ltac:(lia)) as H2. destruct (sends datas _ c1) as [[ok fc2] c2]. destruct H2 as (k2 & E2 & H2).
    exists (length (be_put 4 (zlen sealed) ++ sealed) + k2)%nat. rewrite E2, E1, (H1 eq_refl).
    rewrite (app_assoc (be_put _ _)), take_app_add, <- app_assoc. split; [done|]. intros Hok. by rewrite (H2 Hok).
  - exists (k1 `min` length (be_put 4 (zlen sealed) ++ sealed))%nat. rewrite E1. split; [|done]. f_equal.
    rewrite (app_assoc (be_put _ _)). set (A := be_put 4 (zlen sealed) ++ sealed). rewrite (firstn_app (_ `min` _)).
    replace (k1 `min` length A - length A)%nat with 0%nat by lia. cbn [take]. rewrite app_nil_r.
    destruct (decide (k1 ≤ length A)%nat); [by rewrite Nat.min_l|]. rewrite Nat.min_r, !take_ge by lia. done.
Qed.

(** A frame cut short is not read. *)
Lemma next_frame_torn data rest k :
  zlen data ≤ maxSealedFrameSize → (k < 4 + length data)%nat → next_frame (take k (be_put 4 (zlen data) ++ data ++ rest)) = None.
Proof.
  intros Hz Hk. assert (Hg : be_get (be_put 4 (zlen data)) = zlen data).
  { apply be_get_put_small. split; [apply zlen_nonneg|]. change (256 ^ Z.of_nat 4) with 4294967296.
    change maxSealedFrameSize with 67108880 in Hz. lia. }
  unfold next_frame. destruct (decide (k < 4)%nat) as [H4|H4].
  - unfold ReadFull. rewrite (proj2 (Nat.ltb_lt _ _)); [done|]. rewrite length_take. lia.
  - replace k with (4 + (k - 4))%nat by lia. rewrite take_app_add' by (by rewrite length_be_put).
    rewrite ReadFull_app by apply length_be_put. cbn zeta. rewrite Hg. destruct (_ || _); [done|].
    unfold ReadFull. rewrite (proj2 (Nat.ltb_lt _ _)); [done|]. rewrite length_take. unfold zlen. lia.
Qed.

Lemma session_frames key datas i k j c :
  aead_ok (gcm key) → Forall (λ data, 0 < zlen data ≤ maxReplicationFrameSize) datas →
  frames_in (Datatypes.S (length (take k (session_bytes key i datas)))) (take k (session_bytes key i datas)) !! j = Some c →
  ∃ data, datas !! j = Some data ∧ c = Seal (gcm key) (frame_nonce (Z.of_nat (i + j))) data.
Proof.
  intros Ha Hd. revert i k j. induction Hd as [|data datas Hdata Hd IH]; intros i k j Hj.
  { cbn [session_bytes] in Hj. rewrite take_nil in Hj. by destruct j. }
  cbn [session_bytes] in Hj. set (sealed := Seal _ _ _) in *.
  assert (Hz : zlen sealed = zlen data + 16) by (unfold zlen, sealed; rewrite (proj2 (Ha _ _)); lia).
  destruct (decide (k < 4 + length sealed)%nat) as [Hk|Hk].
  - cbn [frames_in] in Hj. rewrite next_frame_torn in Hj; [by destruct j| |done]. unfold maxSealedFrameSize, sealOverhead. lia.
  - assert (E : take k (be_put 4 (zlen sealed) ++ sealed ++ session_bytes key (Datatypes.S i) datas) =
                be_put 4 (zlen sealed) ++ sealed ++ take (k - (4 + length sealed)) (session_bytes key (Datatypes.S i) datas)).
    { rewrite !(app_assoc (be_put _ _)). rewrite take_app_ge; [|rewrite length_app, length_be_put; lia].
      by rewrite length_app, length_be_put. }
    rewrite E in Hj. rewrite (frames_in_cons _ sealed (take (k - (4 + length sealed)) (session_bytes key (Datatypes.S i) datas))) in Hj.
    + destruct j as [|j]; [injection Hj as <-; exists data; split; [done|by rewrite Nat.add_0_r]|].
      destruct (IH _ _ _ Hj) as (d & Hd1 & ->). exists d. split; [done|]. do 3 f_equal. lia.
    + apply next_frame_sent. unfold maxSealedFrameSize, sealOverhead. lia.
Qed.

Lemma consume_all {S} (apply : WALRecord → S → bool * S) key recs i st :
  aead_ok (gcm key) → Forall sendable recs → Z.of_nat i + zlen recs < 2 ^ 64 →
  consumeStream apply {| fc_key := key; fc_counter := Z.of_nat i |} (session_bytes key i (encodeRecordPlain <$> recs)) st =
  snd (apply_until apply (reread_record <$> recs) st).
Proof.
  intros Ha Hs. revert i st. induction Hs as [|rec recs Hrec Hs IH]; intros i st Hz; [done|]. rewrite !fmap_cons. cbn [session_bytes].
  change (rec :: recs) with ([rec] ++ recs) in Hz. rewrite zlen_app in Hz. change (zlen [rec]) with 1 in Hz. pose proof (zlen_nonneg recs).
  set (sealed := Seal _ _ _).
  rewrite (consume_step apply _ _ sealed (session_bytes key (Datatypes.S i) (encodeRecordPlain <$> recs))).
  - unfold open, nextNonce. cbn [fc_key fc_counter]. unfold sealed. rewrite (proj1 (Ha _ _)), (sendable_decodes rec Hrec). cbn [apply_until].
    destruct (apply _ st) as [[] st1]; [|done].
    replace (u64 (Z.of_nat i + 1)) with (Z.of_nat (Datatypes.S i)) by (rewrite u64_id; lia). apply IH. lia.
  - apply next_frame_sent. destruct Hrec as (_ & _ & Hm). unfold zlen, sealed in *. rewrite (proj2 (Ha _ _)).
    unfold maxSealedFrameSize, sealOverhead. pose proof (zlen_body rec) as Hb.
    assert (0 < length (encodeRecordPlain rec))%nat by (unfold encodeRecordPlain; rewrite length_app, length_be_put; lia). lia.
Qed.
End Frames.

(** C22: take the records sent in one session. Whatever bytes
    reach the replica, as long as no frame was forged, [consumeStream] applies a
    prefix of the records, in order: a frame that is lost, repeated, reordered or
    cut stops the session before it. And over a connection that breaks after any
    number of bytes it applies a prefix, the whole sequence when every send
    succeeded (each time up to the first record the engine refuses). *)
Theorem stream_integrity gcm {S} (apply : WALRecord → S → bool * S) key recs st :
  let fc := {| fc_key := key; fc_counter := 0 |} in
  let datas := encodeRecordPlain <$> recs in
  let received := reread_record <$> recs in
  aead_ok (gcm key) → Forall sendable recs → zlen recs < 2 ^ 64 →
  (∀ input, unforged gcm key datas input →
     ∃ n, consumeStream gcm apply fc input st = snd (apply_until apply (take n received) st)) ∧
  (∀ c, c_out c = [] → let '(ok, _, c1) := sends gcm datas fc c in
     (∃ n, consumeStream gcm apply fc (c_out c1) st = snd (apply_until apply (take n received) st)) ∧
     (ok = true → consumeStream gcm apply fc (c_out c1) st = snd (apply_until apply received st))).
Proof.
  intros fc datas received Ha Hs Hz.
  assert (Hany : ∀ input, unforged gcm key datas input →
     ∃ n, consumeStream gcm apply fc input st = snd (apply_until apply (take n received) st)).
  { intros input Hu. apply (consume_prefix gcm apply key recs 0 input st Hs Hz). intros j c p Hj Ho.
    pose proof (Hu j c p Hj Ho) as H. unfold datas in H. by rewrite list_lookup_fmap in H. }
  split; [done|]. intros c Hc. pose proof (sends_out gcm key datas 0 c) as Hout. rewrite Hc in Hout. cbn [app] in Hout.
  change (Z.of_nat 0) with 0 in Hout. fold fc in Hout.
  destruct (sends gcm datas fc c) as [[ok fc1] c1]. destruct Hout as (k & Hk & Hok); [unfold datas, zlen; rewrite length_fmap; exact Hz|].
  rewrite Hk. split.
  - apply Hany. intros j d p Hj Ho. destruct (session_frames gcm key datas 0 k j d Ha) as (data & Hd & ->); [|exact Hj|].
    + apply Forall_fmap. eapply Forall_impl; [exact Hs|]. intros rec (_ & _ & Hm). split; [|exact Hm]. change (0 < zlen (encodeRecordPlain rec)).
      unfold encodeRecordPlain. rewrite zlen_app. unfold zlen at 1. rewrite length_be_put. pose proof (zlen_nonneg (encode_body rec ++ be_put 4 (ChecksumIEEE (encode_body rec)))). lia.
    + cbn [Nat.add] in Ho. rewrite (proj1 (Ha _ _)) in Ho. injection Ho as <-. exact Hd.
  - intros H. rewrite (Hok H). by apply consume_all.
Qed.

(** ** What a handshake accepts *)
Definition framed (data : list byte) : list byte := be_put 4 (zlen data) ++ data.

Lemma Sum256_length data : length (Sum256 data) = 32%nat.
Proof.
  assert (Hround : ∀ kws st, length st = 8%nat → length (foldl sha_round st kws) = 8%nat).
  { induction kws as [|kw kws IH]; intros st Hst; [done|]. cbn [foldl]. apply IH.
    do 9 (destruct st as [|? st]; [done|]); done || by destruct st. }
  assert (Hb : ∀ n st l, length st = 8%nat → length (sha_blocks n st l) = 8%nat).
  { induction n as [|n IH]; intros st l Hst; [done|]. cbn [sha_blocks]. apply IH. unfold sha_block.
    rewrite length_zip_with, Hround by done. by rewrite Hst. }
  unfold Sum256. cbn zeta. set (ws := sha_blocks _ _ _). assert (Hw : length ws = 8%nat) by by apply Hb. clearbody ws. clear -Hw.
  do 8 (destruct ws as [|? ws]; [done|]). by destruct ws.
Qed.

Lemma MAC_length token label a b : zlen (handshakeMAC token label a b) = 32.
Proof. unfold handshakeMAC, hmac_Sum, zlen. by rewrite Sum256_length. Qed.

Lemma readExactFrame_iff want c x c1 :
  0 ≤ want < 2 ^ 32 →
  readExactFrame want c = (Some x, c1) ↔
  zlen x = want ∧ c_in c = framed x ++ c_in c1 ∧ c_out c1 = c_out c ∧ c_room c1 = c_room c.
Proof.
  intros Hw. unfold readExactFrame, read, framed. split.
  - unfold ReadFull. destruct (length (c_in c) <? 4)%nat eqn:E4; [done|]. apply Nat.ltb_ge in E4. cbn [c_in c_out c_room].
    destruct (be_get (take 4 (c_in c)) =? want) eqn:Ew; [|done]. apply Z.eqb_eq in Ew. cbn [negb].
    destruct (length (drop 4 (c_in c)) <? Z.to_nat want)%nat eqn:E; [done|]. apply Nat.ltb_ge in E. intros [= <- <-]. cbn [c_in c_out c_room].
    assert (Hx : zlen (take (Z.to_nat want) (drop 4 (c_in c))) = want) by (unfold zlen; rewrite length_take; lia).
    split; [done|]. split; [|done]. rewrite Hx, <- Ew. replace 4%nat with (length (take 4 (c_in c))) at 1 by (rewrite length_take; lia).
    rewrite be_put_get, <- app_assoc, take_drop, take_drop. done.
  - intros (Hx & Hin & Ho & Hr). rewrite Hin, <- app_assoc, ReadFull_app by apply length_be_put. cbn [c_in].
    rewrite be_get_put_small, Hx, Z.eqb_refl by (change (256 ^ Z.of_nat 4) with (2 ^ 32); lia). cbn [negb].
    rewrite ReadFull_app by (unfold zlen in Hx; lia). destruct c1 as [i o r]. cbn [c_in c_out c_room] in *. by rewrite Ho, Hr.
Qed.

Lemma writeFrame_ok data c :
  c_room c = None → 0 < zlen data ≤ maxSealedFrameSize →
  writeFrame data c = (true, {| c_in := c_in c; c_out := c_out c ++ framed data; c_room := None |}).
Proof.
  intros Hr Hz. unfold writeFrame, framed. destruct (_ || _) eqn:E; [apply orb_true_iff in E as [E|E]; lia|].
  unfold writeFull. rewrite Hr. cbn [c_room c_in c_out]. by rewrite <- app_assoc.
Qed.

Definition cipher_of (token : string) (replicaNonce primaryNonce : list byte) : frameCipher :=
  {| fc_key := handshakeMAC token labelSession replicaNonce primaryNonce; fc_counter := 0 |}.

Lemma sessionCipher_ok token a b : sessionCipher token a b = Some (cipher_of token a b).
Proof.
  unfold sessionCipher. cbn zeta. rewrite bool_decide_eq_true_2; [done|]. pose proof (MAC_length token labelSession a b) as H.
  unfold zlen in H. replace (length (handshakeMAC token labelSession a b)) with 32%nat by lia. set_solver.
Qed.

Definition challenge_of (token : string) (replicaNonce primaryNonce : list byte) : list byte :=
  primaryNonce ++ handshakeMAC token labelPrimary replicaNonce primaryNonce.

(** The bytes a server waits for and the bytes it writes. *)
Lemma server_accepts token primaryNonce c fc c1 :
  c_room c = None → zlen primaryNonce = 32 →
  serverHandshake token (Some primaryNonce) c = (Some fc, c1) ↔
  MinTokenLength ≤ strlen token ∧ ∃ replicaNonce, zlen replicaNonce = 32 ∧
    c_in c = framed (handshakeMagic ++ replicaNonce) ++
             framed (handshakeMAC token labelReplica primaryNonce replicaNonce) ++ c_in c1 ∧
    c_out c1 = c_out c ++ framed (challenge_of token replicaNonce primaryNonce) ∧ c_room c1 = None ∧
    fc = cipher_of token replicaNonce primaryNonce.
Proof.
  intros Hr Hn.
  assert (Hw : ∀ rn c0, c_room c0 = None → writeFrame (challenge_of token rn primaryNonce) c0 =
    (true, {| c_in := c_in c0; c_out := c_out c0 ++ framed (challenge_of token rn primaryNonce); c_room := None |})).
  { intros rn c0 H0. apply writeFrame_ok; [done|]. unfold challenge_of. rewrite zlen_app, Hn, MAC_length. done. }
  unfold serverHandshake. split.
  - destruct (_ <? _) eqn:Et; [done|]. destruct (readExactFrame _ c) as [[hello|] c2] eqn:E1; [|done].
    apply readExactFrame_iff in E1 as (Hl & Hin & Ho & Hr2); [|done]. destruct (negb _) eqn:Em; [done|].
    apply negb_false_iff, bool_decide_eq_true in Em. rewrite Hr in Hr2. fold (challenge_of token (drop (length handshakeMagic) hello) primaryNonce).
    rewrite Hw by done. cbn [negb]. destruct (readExactFrame 32 _) as [[proof|] c3] eqn:E2; [|done].
    apply readExactFrame_iff in E2 as (Hl2 & Hin2 & Ho2 & Hr3); [|done]. cbn [c_in c_out c_room] in *.
    destruct (negb (bool_decide _)) eqn:Ep; [done|]. apply negb_false_iff, bool_decide_eq_true in Ep.
    rewrite sessionCipher_ok. intros [= <- <-]. split; [lia|]. exists (drop (length handshakeMagic) hello).
    rewrite Ho2, Ho. conjs; try done.
    + change (zlen handshakeMagic + handshakeNonce) with 40 in Hl. unfold zlen in *. rewrite length_drop. change (length handshakeMagic) with 8%nat. lia.
    + rewrite <- Em at 1. rewrite take_drop, Hin, <- Ep. by rewrite Hin2.
  - intros (Ht & rn & Hrn & Hin & Ho & Hr1 & ->). destruct (_ <? _) eqn:Et; [lia|].
    rewrite (proj2 (readExactFrame_iff (zlen handshakeMagic + handshakeNonce) c (handshakeMagic ++ rn)
      {| c_in := framed (handshakeMAC token labelReplica primaryNonce rn) ++ c_in c1; c_out := c_out c; c_room := c_room c |} ltac:(done)));
      [|rewrite zlen_app, Hrn; by rewrite Hin].
    rewrite take_app_length, drop_app_length, bool_decide_eq_true_2 by done. cbn [negb].
    fold (challenge_of token rn primaryNonce). rewrite Hw by done. cbn [negb c_in c_out].
    rewrite (proj2 (readExactFrame_iff 32 _ (handshakeMAC token labelReplica primaryNonce rn) c1 ltac:(done)));
      [|rewrite MAC_length; cbn [c_in c_out c_room]; conjs; done].
    by rewrite bool_decide_eq_true_2, sessionCipher_ok.
Qed.

Lemma client_accepts token replicaNonce c fc c1 :
  c_room c = None → zlen replicaNonce = 32 →
  clientHandshake token (Some replicaNonce) c = (Some fc, c1) ↔
  MinTokenLength ≤ strlen token ∧ ∃ primaryNonce, zlen primaryNonce = 32 ∧
    c_in c = framed (challenge_of token replicaNonce primaryNonce) ++ c_in c1 ∧
    c_out c1 = c_out c ++ framed (handshakeMagic ++ replicaNonce) ++
               framed (handshakeMAC token labelReplica primaryNonce replicaNonce) ∧ c_room c1 = None ∧
    fc = cipher_of token replicaNonce primaryNonce.
Proof.
  intros Hr Hn.
  assert (Hw1 : writeFrame (handshakeMagic ++ replicaNonce) c =
    (true, {| c_in := c_in c; c_out := c_out c ++ framed (handshakeMagic ++ replicaNonce); c_room := None |})).
  { apply writeFrame_ok; [done|]. rewrite zlen_app, Hn. done. }
  assert (Hw2 : ∀ pn c0, c_room c0 = None → writeFrame (handshakeMAC token labelReplica pn replicaNonce) c0 =
    (true, {| c_in := c_in c0; c_out := c_out c0 ++ framed (handshakeMAC token labelReplica pn replicaNonce); c_room := None |})).
  { intros pn c0 H0. apply writeFrame_ok; [done|]. by rewrite MAC_length. }
  unfold clientHandshake. rewrite Hw1. cbn [negb]. split.
  - destruct (_ <? _) eqn:Et; [done|]. destruct (readExactFrame _ _) as [[challenge|] c2] eqn:E1; [|done].
    apply readExactFrame_iff in E1 as (Hl & Hin & Ho & Hr2); [|done]. cbn [c_in c_out c_room] in *.
    destruct (negb (bool_decide _)) eqn:Em; [done|]. apply negb_false_iff, bool_decide_eq_true in Em.
    rewrite Hw2 by done. cbn [negb]. rewrite sessionCipher_ok. intros [= <- <-]. cbn [c_in c_out c_room].
    split; [lia|]. exists (take (Z.to_nat handshakeNonce) challenge). rewrite Ho, <- app_assoc. conjs; try done.
    + change (Z.to_nat handshakeNonce) with 32%nat. change (handshakeNonce + 32) with 64 in Hl. unfold zlen in *. rewrite length_take. lia.
    + unfold challenge_of. rewrite <- Em, take_drop. exact Hin.
  - intros (Ht & pn & Hpn & Hin & Ho & Hr1 & ->). destruct (_ <? _) eqn:Et; [lia|].
    rewrite (proj2 (readExactFrame_iff (handshakeNonce + 32) _ (challenge_of token replicaNonce pn)
      {| c_in := c_in c1; c_out := c_out c ++ framed (handshakeMagic ++ replicaNonce); c_room := None |} ltac:(done)));
      [|unfold challenge_of; rewrite zlen_app, Hpn, MAC_length; by cbn [c_in c_out c_room]].
    unfold challenge_of. assert (Hlen : length pn = Z.to_nat handshakeNonce) by (unfold zlen in Hpn; change handshakeNonce with 32; lia).
    rewrite <- Hlen, take_app_length, drop_app_length, bool_decide_eq_true_2 by done. cbn [negb].
    rewrite Hw2 by done. cbn [negb c_in c_out]. rewrite sessionCipher_ok. f_equal. destruct c1 as [i o r].
    cbn [c_in c_out c_room] in *. by rewrite Ho, Hr1, app_assoc.
Qed.

(** C23: over connections that do not break, the primary accepts
    exactly the peer that sends the magic with a nonce and then the proof of the
    primary's token over both nonces, having written only its challenge, and the
    replica accepts exactly the peer whose challenge proves the replica's token;
    the key of the session is then the one derived from the token and the two
    nonces. Connected to each other with the same token, both accept, hold the
    same key, and leave nothing unread. *)
Theorem handshake_mutual token primaryNonce replicaNonce :
  zlen primaryNonce = 32 → zlen replicaNonce = 32 →
  (∀ c fc c1, c_room c = None →
     serverHandshake token (Some primaryNonce) c = (Some fc, c1) ↔
     MinTokenLength ≤ strlen token ∧ ∃ nonce, zlen nonce = 32 ∧
       c_in c = framed (handshakeMagic ++ nonce) ++ framed (handshakeMAC token labelReplica primaryNonce nonce) ++ c_in c1 ∧
       c_out c1 = c_out c ++ framed (challenge_of token nonce primaryNonce) ∧ c_room c1 = None ∧
       fc = cipher_of token nonce primaryNonce) ∧
  (∀ c fc c1, c_room c = None →
     clientHandshake token (Some replicaNonce) c = (Some fc, c1) ↔
     MinTokenLength ≤ strlen token ∧ ∃ nonce, zlen nonce = 32 ∧
       c_in c = framed (challenge_of token replicaNonce nonce) ++ c_in c1 ∧
       c_out c1 = c_out c ++ framed (handshakeMagic ++ replicaNonce) ++ framed (handshakeMAC token labelReplica nonce replicaNonce) ∧
       c_room c1 = None ∧ fc = cipher_of token replicaNonce nonce) ∧
  (MinTokenLength ≤ strlen token → ∃ toReplica toPrimary,
     let fc := cipher_of token replicaNonce primaryNonce in
     serverHandshake token (Some primaryNonce) {| c_in := toPrimary; c_out := []; c_room := None |} =
       (Some fc, {| c_in := []; c_out := toReplica; c_room := None |}) ∧
     clientHandshake token (Some replicaNonce) {| c_in := toReplica; c_out := []; c_room := None |} =
       (Some fc, {| c_in := []; c_out := toPrimary; c_room := None |})).
Proof.
  intros Hp Hr. split; [|split].
  - intros c fc c1 Hc. by apply server_accepts.
  - intros c fc c1 Hc. by apply client_accepts.
  - intros Ht. exists (framed (challenge_of token replicaNonce primaryNonce)),
      (framed (handshakeMagic ++ replicaNonce) ++ framed (handshakeMAC token labelReplica primaryNonce replicaNonce)).
    split.
    + apply server_accepts; [done..|]. split; [done|]. exists replicaNonce. cbn [c_in c_out c_room]. by rewrite app_nil_r.
    + apply client_accepts; [done..|]. split; [done|]. exists primaryNonce. cbn [c_in c_out c_room]. by rewrite app_nil_r.
Qed.

(** ** A session *)
(** A cipher for the examples: the tag is the nonce. *)
Definition tag (nonce : list byte) : list byte := take 12 (nonce ++ replicate 12 Byte.x00) ++ replicate 4 Byte.x00.
Definition tagged : AEAD := {|
  Seal nonce p := p ++ tag nonce;
  Open nonce c := if (length c <? 16)%nat then None
                  else if bool_decide (drop (length c - 16) c = tag nonce)
                       then Some (take (length c - 16) c) else None
|}.

Lemma tagged_ok : aead_ok tagged.
Proof.
  intros nonce p. assert (Ht : length (tag nonce) = 16%nat).
  { unfold tag. rewrite length_app, length_take, length_app, !length_replicate. lia. }
  cbn [Open Seal tagged]. rewrite length_app, Ht. split; [|done]. rewrite nltb_false by lia.
  replace (length p + 16 - 16)%nat with (length p) by lia. rewrite drop_app_length, take_app_length. by rewrite bool_decide_eq_true_2.
Qed.

Definition demo_token : string := "0123456789abcdef0123456789abcdef".
Definition collect_all (rec : WALRecord) (st : list WALRecord) : bool * list WALRecord := (true, st ++ [rec]).
Definition demo_set (seq : Z) (key v : string) : WALRecord :=
  {| r_Type := Byte.x00; r_Key := ""; r_Value := None; r_TTLNano := 0; Timestamp := 77; Sequence := seq;
     Effects := [{| we_Type := RecordSet; we_Key := key; we_Value := to_slice v; we_ExpiresAt := 0 |}] |}.
Definition demo_sent : list WALRecord := [demo_set 1 "a" "1"; demo_set 2 "b" "2"; demo_set 3 "a" "3"].
Definition demo_fc : frameCipher := {| fc_key := []; fc_counter := 0 |}.
Definition demo_bytes : list byte := session_bytes (λ _, tagged) [] 0 (encodeRecordPlain <$> demo_sent).

(** A session in which the second frame is dropped ends before the third. *)
Example dropped_frame :
  let n := (length demo_bytes / 3)%nat in
  consumeStream (λ _, tagged) collect_all demo_fc demo_bytes [] = reread_record <$> demo_sent ∧
  consumeStream (λ _, tagged) collect_all demo_fc (take n demo_bytes ++ drop (n + n) demo_bytes) [] =
    reread_record <$> [demo_set 1 "a" "1"].
Proof. vm_compute. split; reflexivity. Qed.

Ltac small_record :=
  unfold sendable, record_ok, frame_fits, in_i64; conjs;
  [vm_compute; discriminate|reflexivity|vm_compute; discriminate|vm_compute; discriminate|vm_compute; discriminate
  |apply Forall_singleton; unfold effect_ok, in_i64; conjs;
   [reflexivity|reflexivity|vm_compute; discriminate|vm_compute; discriminate]
  |vm_compute; discriminate|vm_compute; discriminate].

Lemma demo_sendable : Forall sendable demo_sent.
Proof. unfold demo_sent. do 3 (apply Forall_cons_2; [small_record|]). apply Forall_nil_2. Qed.

Lemma lookup_pair {A} (x y z : A) i : [x; y] !! i = Some z → i = 0%nat ∧ z = x ∨ i = 1%nat ∧ z = y.
Proof. destruct i as [|[|i]]; [intros [= <-]; by left|intros [= <-]; by right|done]. Qed.

Lemma stream_integrity_witness :
  let n := (length demo_bytes / 3)%nat in
  let cut := take n demo_bytes ++ drop (n + n) demo_bytes in
  consumeStream (λ _, tagged) collect_all demo_fc demo_bytes [] = reread_record <$> demo_sent ∧
  ∃ k, consumeStream (λ _, tagged) collect_all demo_fc cut [] = snd (apply_until collect_all (take k (reread_record <$> demo_sent)) []).
Proof.
  intros n cut.
  destruct (stream_integrity (λ _, tagged) collect_all [] demo_sent [] tagged_ok demo_sendable ltac:(vm_compute; reflexivity)) as [H1 H2].
  split.
  - pose proof (H2 {| c_in := []; c_out := []; c_room := None |} eq_refl) as H. fold demo_fc in H.
    destruct (sends (λ _, tagged) (encodeRecordPlain <$> demo_sent) demo_fc {| c_in := []; c_out := []; c_room := None |}) as [[ok fc1] c1] eqn:E.
    vm_compute in E. injection E as <- <- <-. destruct H as [_ H]. exact (H eq_refl).
  - apply H1. intros i c p Hi Ho.
    assert (Hf : frames_in (S (length cut)) cut = [Seal tagged (frame_nonce 0) (encodeRecordPlain (demo_set 1 "a" "1"));
                                                    Seal tagged (frame_nonce 2) (encodeRecordPlain (demo_set 3 "a" "3"))]) by (vm_compute; reflexivity).
    rewrite Hf in Hi. apply lookup_pair in Hi as [[-> ->]|[-> ->]].
    + change (Z.of_nat 0) with 0 in Ho. rewrite (proj1 (tagged_ok _ _)) in Ho. rewrite list_lookup_fmap. exact Ho.
    + exfalso. assert (Hno : Open tagged (frame_nonce (Z.of_nat 1)) (Seal tagged (frame_nonce 2) (encodeRecordPlain (demo_set 3 "a" "3"))) = None)
        by (vm_compute; reflexivity). rewrite Hno in Ho. discriminate Ho.
Defined.

Lemma handshake_mutual_witness :
  let pn := replicate 32 Byte.x01 in
  let rn := replicate 32 Byte.x02 in
  zlen pn = 32 ∧ zlen rn = 32 ∧ ∃ toReplica toPrimary fc,
    serverHandshake demo_token (Some pn) {| c_in := toPrimary; c_out := []; c_room := None |} =
      (Some fc, {| c_in := []; c_out := toReplica; c_room := None |}) ∧
    clientHandshake demo_token (Some rn) {| c_in := toReplica; c_out := []; c_room := None |} =
      (Some fc, {| c_in := []; c_out := toPrimary; c_room := None |}).
Proof.
  intros pn rn. split; [reflexivity|]. split; [reflexivity|].
  destruct (handshake_mutual demo_token pn rn eq_refl eq_refl) as (_ & _ & H).
  destruct (H ltac:(vm_compute; discriminate)) as (b1 & b2 & H1 & H2). by exists b1, b2, (cipher_of demo_token rn pn).
Defined.
