(* ===== verification/PubSub.v ===== *)
(** * Publish and subscribe: [events/pubsub.go]

    A subscriber is a cell with a channel of 256 messages; its address is its ID,
    which is never reused. [Publish] copies the list of subscribers under the
    lock and sends after releasing it, so the sends interleave with the other
    operations: the second half of the file is a step relation over brokers with
    publications under way. *)
From S2P Require Import Prelude.
Open Scope string_scope.
Open Scope list_scope.
Open Scope Z_scope.

Abbreviation message := (list byte).

Record Subscriber := {
  Channel : string;
  Ch : list message;      (* the buffered messages, oldest first *)
  closed : bool;
}.

Record PubSub := {
  channels : gmap string (list Z);
  subsByID : gmap Z unit;              (* the IDs with a subscriber *)
  cells : gmap Z Subscriber;
  nextSubID : Z;
  maxChannels : Z;
  maxSubs : Z;
}.

Definition bufSize : Z := 256.

Definition NewPubSub (maxCh maxS : Z) : PubSub :=
  {| channels := ∅; subsByID := ∅; cells := ∅; nextSubID := 0;
     maxChannels := maxCh; maxSubs := maxS |}.

Definition set_cells (c : gmap Z Subscriber) (p : PubSub) : PubSub :=
  {| channels := channels p; subsByID := subsByID p; cells := c; nextSubID := nextSubID p;
     maxChannels := maxChannels p; maxSubs := maxSubs p |}.

(** The list [p.channels[ch]]; a missing key reads as nil. *)
Definition subs_of (ch : string) (p : PubSub) : list Z := default [] (channels p !! ch).

(** One round of the loop of [Subscribe]. *)
Definition subscribe1 (p : PubSub) (ch : string) : PubSub :=
  let id := u64 (nextSubID p + 1) in
  {| channels := <[ch := subs_of ch p ++ [id]]> (channels p);
     subsByID := <[id := tt]> (subsByID p);
     cells := <[id := {| Channel := ch; Ch := []; closed := false |}]> (cells p);
     nextSubID := id; maxChannels := maxChannels p; maxSubs := maxSubs p |}.

Fixpoint Subscribe (chs : list string) (p : PubSub) : list Z * PubSub :=
  match chs with
  | [] => ([], p)
  | ch :: chs' =>
      let p1 := subscribe1 p ch in
      let '(ids, p2) := Subscribe chs' p1 in (nextSubID p1 :: ids, p2)
  end.

Definition close_ (s : Subscriber) : Subscriber :=
  {| Channel := Channel s; Ch := Ch s; closed := true |}.

Definition Unsubscribe (subID : Z) (p : PubSub) : PubSub :=
  match subsByID p !! subID, cells p !! subID with
  | Some _, Some sub =>
      let filtered := filter (λ i, i ≠ subID) (subs_of (Channel sub) p) in
      {| channels := (if zlen filtered =? 0 then delete (Channel sub) (channels p)
                      else <[Channel sub := filtered]> (channels p));
         subsByID := delete subID (subsByID p);
         cells := <[subID := close_ sub]> (cells p);
         nextSubID := nextSubID p; maxChannels := maxChannels p; maxSubs := maxSubs p |}
  | _, _ => p
  end.

Definition enqueue (m : message) (s : Subscriber) : Subscriber :=
  {| Channel := Channel s; Ch := Ch s ++ [m]; closed := closed s |}.

(** [select { case sub.Ch <- message: count++ default: }]: a send to a closed
    channel panics, a full channel drops the message. *)
Definition send (m : message) (id : Z) (p : PubSub) : res unit (bool * PubSub) :=
  match cells p !! id with
  | None => Panic                                     (* dangling: excluded by [wf] *)
  | Some s =>
      if closed s then Panic
      else if zlen (Ch s) <? bufSize then Ok (true, set_cells (<[id := enqueue m s]> (cells p)) p)
      else Ok (false, p)
  end.

(** The loop of [Publish] over its copy of the list. *)
Fixpoint send_all (m : message) (ids : list Z) (count : Z) (p : PubSub) : res unit (Z * PubSub) :=
  match ids with
  | [] => Ok (count, p)
  | id :: ids' =>
      let? bp := send m id p in
      send_all m ids' (if bp.1 then count + 1 else count) bp.2
  end.

(** [Publish] when nothing else runs. *)
Definition Publish (ch : string) (m : message) (p : PubSub) : res unit (Z * PubSub) :=
  send_all m (subs_of ch p) 0 p.

Definition ChannelCount (p : PubSub) : Z := Z.of_nat (size (channels p)).
Definition SubscriberCount (ch : string) (p : PubSub) : Z := zlen (subs_of ch p).
Definition Channels (p : PubSub) : list string := (map_to_list (channels p)).*1.

(** The consumer's side: receiving from [sub.Ch]. *)
Definition Receive (id : Z) (p : PubSub) : option message * PubSub :=
  match cells p !! id with
  | Some s =>
      match Ch s with
      | m :: rest =>
          (Some m, set_cells (<[id := {| Channel := Channel s; Ch := rest; closed := closed s |}]> (cells p)) p)
      | [] => (None, p)
      end
  | None => (None, p)
  end.

(** ** The invariant *)
Record wf (p : PubSub) : Prop := {
  wf_listed : ∀ ch ids, channels p !! ch = Some ids → ids ≠ [] ∧ NoDup ids ∧
    ∀ id, id ∈ ids → ∃ s, cells p !! id = Some s ∧ Channel s = ch ∧ closed s = false
                        ∧ subsByID p !! id = Some tt;
  wf_subs : ∀ id s, cells p !! id = Some s →
    (closed s = false ↔ is_Some (subsByID p !! id)) ∧
    (closed s = false → id ∈ subs_of (Channel s) p) ∧
    zlen (Ch s) ≤ bufSize ∧ 0 < id ≤ nextSubID p;
  wf_ids : ∀ id, is_Some (subsByID p !! id) → is_Some (cells p !! id);
  wf_next : 0 ≤ nextSubID p < 2 ^ 64;
}.

Lemma wf_subs_of p ch id :
  wf p → id ∈ subs_of ch p ↔ ∃ s, cells p !! id = Some s ∧ Channel s = ch ∧ closed s = false.
Proof.
  intros Hw. unfold subs_of. split.
  - destruct (channels p !! ch) as [ids|] eqn:E; simpl; [|by intros ?%not_elem_of_nil].
    intros Hin. destruct (wf_listed p Hw ch ids E) as (_ & _ & H). destruct (H id Hin) as (s & ? & ? & ? & _).
    eauto.
  - intros (s & Hs & <- & Hc). by apply (wf_subs p Hw id s Hs).
Qed.

Lemma wf_NoDup p ch : wf p → NoDup (subs_of ch p).
Proof.
  intros Hw. unfold subs_of. destruct (channels p !! ch) as [ids|] eqn:E; simpl; [|apply NoDup_nil_2].
  by destruct (wf_listed p Hw ch ids E) as (_ & ? & _).
Qed.

Lemma NewPubSub_wf a b : wf (NewPubSub a b).
Proof. split; cbn; try done; try (by intros ? [? ?]); lia. Qed.

Lemma subscribe1_wf p ch : wf p → nextSubID p + 1 < 2 ^ 64 → wf (subscribe1 p ch).
Proof.
  intros Hw Hn. pose proof (wf_next p Hw) as Hnext. unfold subscribe1.
  rewrite u64_id by lia. set (id := nextSubID p + 1).
  assert (cells p !! id = None) as Hfresh.
  { apply eq_None_not_Some. intros [s Hs]. apply (wf_subs p Hw) in Hs as (_ & _ & _ & ?). lia. }
  assert (id ∉ subs_of ch p) as Hnot.
  { intros (s & Hs & _)%wf_subs_of; [congruence|done]. }
  split; cbn -[u64].
  - intros ch' ids [[<- <-]|[Hne Hl]]%lookup_insert_Some.
    + split; [by destruct (subs_of ch p)|]. split.
      { apply NoDup_app. split; [by apply wf_NoDup|]. split; [|apply NoDup_singleton].
        intros x Hx Hx'%list_elem_of_singleton. by subst. }
      intros x [Hx|Hx%list_elem_of_singleton]%elem_of_app.
      * destruct (proj1 (wf_subs_of p ch x Hw) Hx) as (s & Hs & Hc & Ho).
        exists s. rewrite lookup_insert_ne by (intros <-; congruence). split; [done|]. split; [done|].
        split; [done|]. rewrite lookup_insert_ne by (intros <-; congruence).
        apply (wf_subs p Hw x s) in Ho as [[] Ho]; done.
      * subst. eexists. rewrite !lookup_insert_eq. done.
    + destruct (wf_listed p Hw ch' ids Hl) as (H1 & H2 & H3). split; [done|]. split; [done|].
      intros x Hx. destruct (H3 x Hx) as (s & Hs & Hc & Ho & Hi).
      exists s. rewrite !lookup_insert_ne by (intros <-; congruence). done.
  - intros x s [[<- <-]|[Hne Hs]]%lookup_insert_Some.
    + cbn. rewrite lookup_insert_eq. split; [by split; [eexists|]|]. split.
      { intros _. unfold subs_of. cbn. rewrite lookup_insert_eq. apply elem_of_app. right. by left. }
      unfold bufSize, zlen. simpl. lia.
    + rewrite lookup_insert_ne by done. destruct (wf_subs p Hw x s Hs) as (H1 & H2 & H3 & H4).
      split; [done|]. split; [|split; [done|lia]].
      intros Hc%H2. unfold subs_of in *. cbn. destruct (decide (Channel s = ch)) as [Heq|Hd].
      * rewrite Heq in *. rewrite lookup_insert_eq. apply elem_of_app. by left.
      * by rewrite lookup_insert_ne.
  - intros x [[] [[<- _]|[Hne Hi]]%lookup_insert_Some].
    + rewrite lookup_insert_eq. eauto.
    + rewrite lookup_insert_ne by done. apply (wf_ids p Hw). eauto.
  - unfold id in *. lia.
Qed.

(** A change of one cell that keeps its channel, its state and the bound. *)
Lemma set_cell_wf p id s s' :
  wf p → cells p !! id = Some s → Channel s' = Channel s → closed s' = closed s →
  zlen (Ch s') ≤ bufSize → wf (set_cells (<[id := s']> (cells p)) p).
Proof.
  intros Hw Hs Hch Hcl Hb. split; cbn; [| | |apply (wf_next p Hw)].
  - intros ch ids Hl. destruct (wf_listed p Hw ch ids Hl) as (H1 & H2 & H3). split; [done|]. split; [done|].
    intros x Hx. destruct (H3 x Hx) as (sx & Hsx & ? & ? & ?).
    destruct (decide (x = id)) as [->|]; simplify_eq.
    + exists s'. rewrite lookup_insert_eq. repeat split; congruence.
    + exists sx. by rewrite lookup_insert_ne.
  - intros x sx [[<- <-]|[Hne Hx]]%lookup_insert_Some.
    + rewrite Hch, Hcl. destruct (wf_subs p Hw id s Hs) as (? & ? & ? & ?). done.
    + apply (wf_subs p Hw x sx Hx).
  - intros x Hx%(wf_ids p Hw). rewrite lookup_insert_is_Some'. auto.
Qed.

(** The lists after an ID has been taken out of the list [ch]. *)
Definition prune (ch : string) (id : Z) (p : PubSub) : gmap string (list Z) :=
  let filtered := filter (λ i, i ≠ id) (subs_of ch p) in
  if zlen filtered =? 0 then delete ch (channels p) else <[ch := filtered]> (channels p).

Lemma prune_lookup ch id p ch' ids :
  prune ch id p !! ch' = Some ids →
  (ch' = ch ∧ ids = filter (λ i, i ≠ id) (subs_of ch p) ∧ ids ≠ [])
  ∨ (ch' ≠ ch ∧ channels p !! ch' = Some ids).
Proof.
  unfold prune. case_if; bool_to_prop.
  - rewrite lookup_delete_Some. intros [? ?]. right. auto.
  - rewrite lookup_insert_Some. intros [[<- <-]|[? ?]]; [left|right; auto].
    split; [done|]. split; [done|]. intros Hnil. by rewrite Hnil in *.
Qed.

Lemma prune_elem ch id p ch' x :
  wf p → (∀ y, y ∈ subs_of ch' p → y = id → ch' = ch) →
  x ∈ default [] (prune ch id p !! ch') ↔ x ∈ subs_of ch' p ∧ x ≠ id.
Proof.
  intros Hw Hch. unfold prune. set (filtered := filter _ _).
  destruct (decide (ch' = ch)) as [->|Hne].
  - transitivity (x ∈ filtered); [|unfold filtered; rewrite list_elem_of_filter; tauto].
    case_if; bool_to_prop; [|by rewrite lookup_insert_eq].
    rewrite lookup_delete_eq. simpl. by destruct filtered.
  - assert (default [] ((if zlen filtered =? 0 then delete ch (channels p)
      else <[ch:=filtered]> (channels p)) !! ch') = subs_of ch' p) as ->.
    { by case_if; [rewrite lookup_delete_ne|rewrite lookup_insert_ne]. }
    split; [|tauto]. intros Hx. split; [done|]. intros ->. by apply Hne, (Hch id).
Qed.

Lemma Unsubscribe_wf p id : wf p → wf (Unsubscribe id p).
Proof.
  intros Hw. unfold Unsubscribe. destruct (subsByID p !! id) as [[]|] eqn:Hi; [|done].
  destruct (cells p !! id) as [sub|] eqn:Hs; [|done]. fold (prune (Channel sub) id p).
  assert (∀ ch x, x ∈ default [] (prune (Channel sub) id p !! ch) ↔ x ∈ subs_of ch p ∧ x ≠ id) as Hsub.
  { intros ch x. apply prune_elem; [done|]. intros y Hy ->.
    apply wf_subs_of in Hy as (s & ? & ? & _); [|done]. by simplify_eq. }
  split; cbn; [| | |apply (wf_next p Hw)].
  - intros ch ids Hl. specialize (Hsub ch). rewrite Hl in Hsub. simpl in Hsub. split; [|split].
    + apply prune_lookup in Hl as [(_ & _ & ?)|[_ Hl]]; [done|]. by apply (wf_listed p Hw) in Hl as [? _].
    + apply prune_lookup in Hl as [(_ & -> & _)|[_ Hl]]; [by apply NoDup_filter, wf_NoDup|].
      by apply (wf_listed p Hw) in Hl as (_ & ? & _).
    + intros x [Hx Hne]%Hsub. apply wf_subs_of in Hx as (s & Hsx & ? & Ho); [|done].
      exists s. rewrite !lookup_insert_ne, !lookup_delete_ne by done. split; [done|]. split; [done|]. split; [done|].
      apply (wf_subs p Hw x s Hsx) in Ho as [[] Ho]. done.
  - intros x sx [[<- <-]|[Hne Hx]]%lookup_insert_Some.
    + destruct (wf_subs p Hw id sub Hs) as (_ & _ & ? & ?). cbn. rewrite lookup_delete_eq.
      split; [by split; [|intros []]|]. done.
    + rewrite lookup_delete_ne by done. destruct (wf_subs p Hw x sx Hx) as (? & H2 & ? & ?).
      split; [done|]. split; [|done]. intros Hc. apply Hsub. auto.
  - intros x [[] [Hne Hx]%lookup_delete_Some]. rewrite lookup_insert_ne by done. apply (wf_ids p Hw). eauto.
Qed.

Lemma send_wf m id p b p' : wf p → send m id p = Ok (b, p') → wf p'.
Proof.
  intros Hw. unfold send. destruct (cells p !! id) as [s|] eqn:E; [|done].
  crush; intros [= <- <-]; [|done]. eapply set_cell_wf; try done. unfold enqueue, bufSize in *. cbn.
  rewrite zlen_app. unfold zlen in *. simpl. lia.
Qed.

Lemma Receive_wf id p : wf p → wf (Receive id p).2.
Proof.
  intros Hw. unfold Receive. destruct (cells p !! id) as [s|] eqn:E; [|done].
  destruct (Ch s) as [|m rest] eqn:Ec; [done|]. eapply set_cell_wf; try done. cbn.
  destruct (wf_subs p Hw id s E) as (_ & _ & Hb & _). rewrite Ec in Hb. unfold zlen in *. simpl in *. lia.
Qed.

(** ** Publishing when nothing else runs *)
Definition accepts (s : Subscriber) : bool := zlen (Ch s) <? bufSize.

(** What a publication leaves in the cell [id]. *)
Definition delivered (m : message) (ids : list Z) (id : Z) (s : Subscriber) : Subscriber :=
  if bool_decide (id ∈ ids) && accepts s then enqueue m s else s.

Definition has_room (p : PubSub) (id : Z) : bool :=
  match cells p !! id with Some s => accepts s | None => false end.

Lemma set_cells_id p : set_cells (cells p) p = p.
Proof. by destruct p. Qed.

Lemma filter_ext_elem {A} (f g : A → bool) (l : list A) : (∀ x, x ∈ l → f x = g x) → filter f l = filter g l.
Proof.
  induction l as [|x l IH]; intros H; [done|]. rewrite !filter_cons, IH by (intros; apply H; by right).
  by rewrite H by left.
Qed.

Lemma delivered_skip m id ids x s : x ≠ id → delivered m (id :: ids) x s = delivered m ids x s.
Proof.
  intros Hne. unfold delivered.
  rewrite (bool_decide_ext (x ∈ id :: ids) (x ∈ ids)); [done|]. rewrite elem_of_cons. tauto.
Qed.

Lemma send_all_spec m ids count p :
  NoDup ids → (∀ id, id ∈ ids → ∃ s, cells p !! id = Some s ∧ closed s = false) →
  ∃ c, send_all m ids count p = Ok (count + zlen (filter (has_room p) ids), set_cells c p)
    ∧ ∀ x, c !! x = delivered m ids x <$> cells p !! x.
Proof.
  revert count p. induction ids as [|id ids IH]; intros count p Hnd Hs.
  { exists (cells p). split; [by rewrite set_cells_id, Z.add_0_r|].
    intros x. unfold delivered. destruct (cells p !! x); simpl; by rewrite ?bool_decide_eq_false_2 by apply not_elem_of_nil. }
  apply NoDup_cons in Hnd as [Hid Hnd]. destruct (Hs id) as (s & Hc & Ho); [by left|].
  cbn [send_all]. unfold send. rewrite Hc, Ho. fold (accepts s). rewrite filter_cons.
  assert (has_room p id = accepts s) as Hroom by (unfold has_room; by rewrite Hc).
  rewrite Hroom. destruct (accepts s) eqn:Ha; simpl.
  - set (p1 := set_cells (<[id := enqueue m s]> (cells p)) p).
    assert (∀ x, x ≠ id → cells p1 !! x = cells p !! x) as Hoth by (intros; by apply lookup_insert_ne).
    destruct (IH (count + 1) p1) as (c & Hr & Hcells); [done| |].
    { intros x Hx. rewrite Hoth by (by intros ->). apply Hs. by right. }
    exists c. rewrite Hr. split.
    + change (set_cells c p1) with (set_cells c p). f_equal. f_equal.
      assert (filter (has_room p1) ids = filter (has_room p) ids) as ->.
      { apply filter_ext_elem. intros x Hx. unfold has_room. by rewrite Hoth by (by intros ->). }
      unfold zlen. simpl. lia.
    + intros x. rewrite Hcells. destruct (decide (x = id)) as [->|Hne].
      * unfold p1. cbn. rewrite lookup_insert_eq, Hc. simpl. unfold delivered.
        rewrite (bool_decide_eq_false_2 (id ∈ ids)), (bool_decide_eq_true_2 (id ∈ id :: ids)) by (done || left).
        by rewrite Ha.
      * rewrite Hoth by done. destruct (cells p !! x); simpl; [|done]. by rewrite delivered_skip.
  - destruct (IH count p Hnd) as (c & Hr & Hcells); [intros; apply Hs; by right|].
    exists c. rewrite Hr. split; [done|]. intros x. rewrite Hcells.
    destruct (decide (x = id)) as [->|Hne].
    + rewrite Hc. simpl. unfold delivered. by rewrite Ha, !andb_false_r.
    + destruct (cells p !! x); simpl; [|done]. by rewrite delivered_skip.
Qed.

Lemma Subscribe_wf chs p : wf p → nextSubID p + zlen chs < 2 ^ 64 → wf (Subscribe chs p).2.
Proof.
  revert p. induction chs as [|ch chs IH]; intros p Hw Hn; [done|]. cbn [Subscribe].
  unfold zlen in *. simpl in Hn. pose proof (wf_next p Hw).
  specialize (IH (subscribe1 p ch) (subscribe1_wf p ch Hw ltac:(lia))).
  destruct (Subscribe chs (subscribe1 p ch)). apply IH. unfold subscribe1. cbn -[u64].
  rewrite u64_id by lia. lia.
Qed.

Lemma Subscribe_cells chs p x s :
  cells (Subscribe chs p).2 !! x = Some s →
  cells p !! x = Some s ∨ (closed s = false ∧ Ch s = []).
Proof.
  revert p. induction chs as [|ch chs IH]; intros p; [by left|]. cbn [Subscribe].
  specialize (IH (subscribe1 p ch)). destruct (Subscribe chs (subscribe1 p ch)) as [ids p2]. simpl in *.
  intros [H|H]%IH; [|by right]. unfold subscribe1 in H. cbn -[u64] in H.
  apply lookup_insert_Some in H as [[_ <-]|[_ H]]; [by right|by left].
Qed.

Lemma Subscribe_dom chs p x : is_Some (cells p !! x) → is_Some (cells (Subscribe chs p).2 !! x).
Proof.
  revert p. induction chs as [|ch chs IH]; intros p Hx; [done|]. cbn [Subscribe].
  specialize (IH (subscribe1 p ch)). destruct (Subscribe chs (subscribe1 p ch)). apply IH.
  unfold subscribe1. cbn -[u64]. apply lookup_insert_is_Some'. by right.
Qed.

(** ** Interleavings *)
Record world := { broker : PubSub; pubs : list (list Z * message); crashed : bool }.

(** The steps of the goroutines that share a broker; [unsub] says whether
    Unsubscribe is among them. A publication is its copy of the list still to be
    served. IDs do not wrap. *)
Inductive wstep (unsub : bool) (w : world) : world → Prop :=
  | W_subscribe chs : nextSubID (broker w) + zlen chs < 2 ^ 64 →
      wstep unsub w {| broker := (Subscribe chs (broker w)).2; pubs := pubs w; crashed := crashed w |}
  | W_unsubscribe id : unsub = true →
      wstep unsub w {| broker := Unsubscribe id (broker w); pubs := pubs w; crashed := crashed w |}
  | W_receive id :
      wstep unsub w {| broker := (Receive id (broker w)).2; pubs := pubs w; crashed := crashed w |}
  | W_publish ch m :
      wstep unsub w {| broker := broker w; pubs := pubs w ++ [(subs_of ch (broker w), m)];
                       crashed := crashed w |}
  | W_send i id ids m b p : pubs w !! i = Some (id :: ids, m) → send m id (broker w) = Ok (b, p) →
      wstep unsub w {| broker := p; pubs := <[i := (ids, m)]> (pubs w); crashed := crashed w |}
  | W_crash i id ids m : pubs w !! i = Some (id :: ids, m) → send m id (broker w) = Panic →
      wstep unsub w {| broker := broker w; pubs := pubs w; crashed := true |}.

Definition start (a b : Z) : world := {| broker := NewPubSub a b; pubs := []; crashed := false |}.

Lemma wstep_wf u w w' : wf (broker w) → wstep u w w' → wf (broker w').
Proof.
  intros Hw Hs. destruct Hs; cbn; eauto using Subscribe_wf, Unsubscribe_wf, Receive_wf, send_wf.
Qed.

(** No cell is closed, and publications under way name existing cells. *)
Definition open_world (w : world) : Prop :=
  (∀ x s, cells (broker w) !! x = Some s → closed s = false) ∧
  (∀ ids m, (ids, m) ∈ pubs w → ∀ x, x ∈ ids → is_Some (cells (broker w) !! x)) ∧
  crashed w = false.

Lemma set_cell_open p id s s' :
  cells p !! id = Some s → closed s' = closed s →
  (∀ x s, cells p !! x = Some s → closed s = false) →
  (∀ x s, <[id := s']> (cells p) !! x = Some s → closed s = false) ∧
  (∀ x, is_Some (<[id := s']> (cells p) !! x) ↔ is_Some (cells p !! x)).
Proof.
  intros Hs Hc Ho. split.
  - intros x sx [[<- <-]|[_ Hx]]%lookup_insert_Some; [rewrite Hc|]; eauto.
  - intros x. rewrite lookup_insert_is_Some'. split; [|auto]. intros [<-|?]; eauto.
Qed.

Lemma send_open m id p b p' :
  (∀ x s, cells p !! x = Some s → closed s = false) → send m id p = Ok (b, p') →
  (∀ x s, cells p' !! x = Some s → closed s = false) ∧
  (∀ x, is_Some (cells p' !! x) ↔ is_Some (cells p !! x)).
Proof.
  intros Ho. unfold send. destruct (cells p !! id) as [s|] eqn:E; [|done].
  case_if; [done|]. case_if; intros [= <- <-]; [|done]. cbn.
  by apply (set_cell_open p id s).
Qed.

Lemma Receive_open id p :
  (∀ x s, cells p !! x = Some s → closed s = false) →
  (∀ x s, cells (Receive id p).2 !! x = Some s → closed s = false) ∧
  (∀ x, is_Some (cells (Receive id p).2 !! x) ↔ is_Some (cells p !! x)).
Proof.
  intros Ho. unfold Receive. destruct (cells p !! id) as [s|] eqn:E; [|done].
  destruct (Ch s); [done|]. cbn. by apply (set_cell_open p id s).
Qed.

Lemma wstep_open w w' : wf (broker w) → open_world w → wstep false w w' → open_world w'.
Proof.
  intros Hw (Ho & Hp & Hc) Hs. unfold open_world. destruct Hs as [chs _|id [=]|id|ch m|i id ids m b p Hi Hs|i id ids m Hi Hs];
    cbn.
  - conjs; [|eauto using Subscribe_dom|done].
    intros x s [H|[? _]]%Subscribe_cells; eauto.
  - destruct (Receive_open id (broker w) Ho) as [H1 H2]. conjs; [done| |done].
    intros ids m Hin x Hx. apply H2. eauto.
  - conjs; [done| |done]. intros ids m' [Hin|Hin%list_elem_of_singleton]%elem_of_app x Hx; [eauto|].
    injection Hin as -> ->. apply wf_subs_of in Hx as (s & ? & _); eauto.
  - destruct (send_open m id (broker w) b p Ho Hs) as [H1 H2]. conjs; [done| |done].
    intros ids' m' Hin x Hx. apply H2. apply list_elem_of_lookup in Hin as [j Hj].
    apply list_lookup_insert_Some in Hj as [(<- & [= -> ->] & _)|[_ Hj]].
    + apply (Hp (id :: ids') m'); [by eapply list_elem_of_lookup_2|by right].
    + apply (Hp ids' m'); [by eapply list_elem_of_lookup_2|done].
  - exfalso. destruct (Hp (id :: ids) m) with id as [s E]; [by eapply list_elem_of_lookup_2|by left|].
    unfold send in Hs. rewrite E, (Ho id s E) in Hs. by destruct (_ <? _).
Qed.

(** In every state the goroutines can reach, the lists of
    subscribers and the table of IDs agree, no buffer exceeds 256 messages, and a
    publication that runs alone appends the message to the buffer of exactly the
    open subscribers of the channel with room, in their order, drops it for the
    others and returns the number delivered. *)
Theorem pubsub_delivery u a b w ch m :
  rtc (wstep u) (start a b) w →
  wf (broker w) ∧
  ∃ c, Publish ch m (broker w)
       = Ok (zlen (filter (has_room (broker w)) (subs_of ch (broker w))), set_cells c (broker w)) ∧
    (∀ x, c !! x = delivered m (subs_of ch (broker w)) x <$> cells (broker w) !! x) ∧
    (∀ x, x ∈ subs_of ch (broker w) ↔
       ∃ s, cells (broker w) !! x = Some s ∧ Channel s = ch ∧ closed s = false).
Proof.
  intros Hr. assert (wf (broker w)) as Hw.
  { remember (start a b) as w0. assert (wf (broker w0)) by (subst; apply NewPubSub_wf). clear Heqw0.
    induction Hr; eauto using wstep_wf. }
  split; [done|].
  destruct (send_all_spec m (subs_of ch (broker w)) 0 (broker w)) as (c & Hp & Hc).
  - by apply wf_NoDup.
  - intros x (s & ? & _ & ?)%wf_subs_of; eauto.
  - exists c. split; [done|]. split; [done|]. intros x. by apply wf_subs_of.
Qed.

Definition demo_world : world :=
  {| broker := (Subscribe ["news"; "news"] (NewPubSub 1 1)).2; pubs := []; crashed := false |}.

Lemma pubsub_delivery_witness :
  ∃ c, Publish "news" [Byte.x41] (broker demo_world) = Ok (2, set_cells c (broker demo_world)).
Proof.
  destruct (pubsub_delivery false 1 1 demo_world "news" [Byte.x41]) as (_ & c & H & _).
  - apply rtc_once. apply (W_subscribe false (start 1 1) ["news"; "news"]). vm_compute. reflexivity.
  - exists c. rewrite H. reflexivity.
Defined.

(** Without Unsubscribe no interleaving of publications,
    subscriptions and receives ever sends on a closed channel; with it, a
    subscriber removed between the copy of the list and the send makes the
    publisher panic. *)
Theorem publish_race a b :
  (∀ w, rtc (wstep false) (start a b) w → crashed w = false) ∧
  (∃ w, rtc (wstep true) (start a b) w ∧ crashed w = true).
Proof.
  split.
  - intros w Hr. assert (wf (broker w) ∧ open_world w) as [_ (_ & _ & ?)]; [|done].
    remember (start a b) as w0.
    assert (wf (broker w0) ∧ open_world w0) as Hi.
    { subst. split; [apply NewPubSub_wf|]. split; [|split]; cbn; try done. by intros ? ? ?%not_elem_of_nil. }
    clear Heqw0. induction Hr; [done|]. destruct Hi. eauto using wstep_wf, wstep_open.
  - eexists. split.
    + eapply rtc_l; [apply (W_subscribe _ _ ["c"]); vm_compute; reflexivity|].
      eapply rtc_l; [apply (W_publish _ _ "c" [])|].
      eapply rtc_l; [by apply (W_unsubscribe _ _ 1)|].
      eapply rtc_l; [by eapply (W_crash _ _ 0 1 [] [])|]. apply rtc_refl.
    + done.
Qed.

(** The limits given to the broker are never looked at. *)
Lemma limits_not_enforced :
  let p := (Subscribe ["a"; "b"; "b"] (NewPubSub 1 1)).2 in
  ChannelCount p = 2 ∧ SubscriberCount "b" p = 2.
Proof. vm_compute. split; reflexivity. Qed.
