(* ===== verification/Executor.v ===== *)
(** * The command executor ([query/executor.go])

    The gates of [Execute], the effects a durable command logs before it runs
    ([prepareDurableEffects]), the memory admission ([effectsFitQuota]), and the
    commands of [Dispatch] for the server, the keys, the strings and the
    transactions. All clock readings of one command fall on one instant [now];
    the log of this process accepts a write or, when [fault] says so, fails and
    stays failed (or, when a record cannot be sealed, refuses that record). The remaining commands of [Dispatch] are the argument [rest];
    there is no Raft node. *)

From S2P Require Import Prelude GoStd Types KV RESP Commands WAL Log Transaction VectorPayload Recovery.
From S2P Require StringStore PubSub.
Import MVCC Watch Multi.

(** ** State *)

(** The write-ahead log as the executor sees it: the records written so far, the
    last sequence number, the latched failure, and the record whose frame was
    appended before the sync that failed: its write was refused, and the frame may
    or may not be in the file after a crash. *)
Record Wal := {
  w_seq : Z;
  w_records : list WALRecord;
  w_failed : option string;
  w_unsynced : option WALRecord
}.

(** The log of an empty file. *)
Definition new_wal : Wal := {| w_seq := 0; w_records := []; w_failed := None; w_unsynced := None |}.

(** How a write can fail: the frame cannot be sealed, its append fails, or (in
    mode always) the flush or the sync after the append fails. *)
Inductive wal_fault := Unsealed (e : string) | Unwritten (e : string) | Unsynced (e : string).

Record Executor := {
  kv : KVStore;
  multi : MultiManager;
  watch : WatchSet;
  mvcc : MVCCStore;
  wal : option Wal;
  suppressWAL : bool;
  maxMemory : Z;
  accountedMemory : Z;
  readOnly : bool;
  pubsub : PubSub.PubSub
}.

Definition set_kv (x : Executor) (s : KVStore) : Executor :=
  {| kv := s; multi := multi x; watch := watch x; mvcc := mvcc x; wal := wal x;
     suppressWAL := suppressWAL x; maxMemory := maxMemory x; accountedMemory := accountedMemory x;
     readOnly := readOnly x; pubsub := pubsub x |}.
Definition set_multi (x : Executor) (m : MultiManager) : Executor :=
  {| kv := kv x; multi := m; watch := watch x; mvcc := mvcc x; wal := wal x;
     suppressWAL := suppressWAL x; maxMemory := maxMemory x; accountedMemory := accountedMemory x;
     readOnly := readOnly x; pubsub := pubsub x |}.
Definition set_watch (x : Executor) (w : WatchSet) : Executor :=
  {| kv := kv x; multi := multi x; watch := w; mvcc := mvcc x; wal := wal x;
     suppressWAL := suppressWAL x; maxMemory := maxMemory x; accountedMemory := accountedMemory x;
     readOnly := readOnly x; pubsub := pubsub x |}.
Definition set_wal (x : Executor) (w : option Wal) : Executor :=
  {| kv := kv x; multi := multi x; watch := watch x; mvcc := mvcc x; wal := w;
     suppressWAL := suppressWAL x; maxMemory := maxMemory x; accountedMemory := accountedMemory x;
     readOnly := readOnly x; pubsub := pubsub x |}.
Definition set_suppress (x : Executor) (b : bool) : Executor :=
  {| kv := kv x; multi := multi x; watch := watch x; mvcc := mvcc x; wal := wal x;
     suppressWAL := b; maxMemory := maxMemory x; accountedMemory := accountedMemory x;
     readOnly := readOnly x; pubsub := pubsub x |}.
Definition set_accounted (x : Executor) (n : Z) : Executor :=
  {| kv := kv x; multi := multi x; watch := watch x; mvcc := mvcc x; wal := wal x;
     suppressWAL := suppressWAL x; maxMemory := maxMemory x; accountedMemory := n;
     readOnly := readOnly x; pubsub := pubsub x |}.

Definition set_pubsub (x : Executor) (p : PubSub.PubSub) : Executor :=
  {| kv := kv x; multi := multi x; watch := watch x; mvcc := mvcc x; wal := wal x;
     suppressWAL := suppressWAL x; maxMemory := maxMemory x; accountedMemory := accountedMemory x;
     readOnly := readOnly x; pubsub := p |}.

(** With the parts a server starts with; the limits of the broker are not used. *)
Definition NewExecutor (s : KVStore) (w : option Wal) : Executor :=
  {| kv := s; multi := NewMultiManager; watch := NewWatchSet; mvcc := NewMVCCStore 64; wal := w;
     suppressWAL := false; maxMemory := 0; accountedMemory := 0; readOnly := false;
     pubsub := PubSub.NewPubSub 0 0 |}.

(** How a handler ends: normally, with an error the caller sees, or in a panic. *)
Inductive status := Done | Failed (err : string) | Panicked.

Definition answer : Type := list byte * status * Executor.
Definition reply (out : list byte) (x : Executor) : answer := (out, Done, x).

(** ** Writing to the log

    [Write] and what the flusher does with the record before it acknowledges it.
    A failure to seal is answered and not latched; the other two are latched, and
    every later write is refused. *)
Definition wal_Write (now : Z) (fault : option wal_fault) (rec : WALRecord) (w : Wal) : option string * Wal :=
  match w_failed w with
  | Some e => (Some ("wal is write-stopped: " ++ e)%string, w)
  | None =>
      let s := u64 (w_seq w + 1) in
      let r := stamp now s rec in
      match fault with
      | Some (Unsealed e) =>
          (Some e, {| w_seq := s; w_records := w_records w; w_failed := None; w_unsynced := w_unsynced w |})
      | Some (Unwritten e) =>
          (Some e, {| w_seq := s; w_records := w_records w; w_failed := Some e; w_unsynced := w_unsynced w |})
      | Some (Unsynced e) =>
          (Some e, {| w_seq := s; w_records := w_records w; w_failed := Some e; w_unsynced := Some r |})
      | None =>
          (None, {| w_seq := s; w_records := w_records w ++ [r]; w_failed := None; w_unsynced := w_unsynced w |})
      end
  end.

(** A sync of the ticker fails between two writes: the first error is kept. *)
Definition wal_latch (e : string) (w : Wal) : Wal :=
  {| w_seq := w_seq w; w_records := w_records w;
     w_failed := match w_failed w with Some e0 => Some e0 | None => Some e end; w_unsynced := w_unsynced w |}.

Definition wal_WriteTransaction (now : Z) (fault : option wal_fault) (effects : list WALEffect) (w : Wal)
    : option string * Wal :=
  match effects with
  | [] => (None, w)
  | _ => wal_Write now fault (transaction_record effects) w
  end.

Definition writeWAL (now : Z) (fault : option wal_fault) (rec : WALRecord) (x : Executor)
    : option string * Executor :=
  match wal x with
  | None => (None, x)
  | Some w =>
      if suppressWAL x then (None, x)
      else let '(err, w) := wal_Write now fault rec w in (err, set_wal x (Some w))
  end.

(** The record literal of the handlers. *)
Definition wal_record (ty : byte) (key : string) (v : slice) (ttlNano : Z) : WALRecord :=
  {| r_Type := ty; r_Key := key; r_Value := v; r_TTLNano := ttlNano; Timestamp := 0; Sequence := 0;
     Effects := [] |}.

(** A loop of writes, up to the first error. *)
Fixpoint writeWALs (now : Z) (fault : option wal_fault) (recs : list WALRecord) (x : Executor)
    : option string * Executor :=
  match recs with
  | [] => (None, x)
  | rec :: recs =>
      let '(err, x) := writeWAL now fault rec x in
      match err with
      | Some e => (Some e, x)
      | None => writeWALs now fault recs x
      end
  end.

(** Answer [out] unless the log refused the write. *)
Definition logged (r : option string * Executor) (out : list byte) : answer :=
  match r with
  | (Some e, x) => reply (WriteError ("ERR WAL write failed: " ++ e)) x
  | (None, x) => reply out x
  end.

(** ** Error messages *)
Definition WrongNumArgsError (cmd : string) : string :=
  ("ERR wrong number of arguments for '" ++ cmd ++ "' command")%string.
Definition ErrNotInteger : string := "ERR value is not an integer or out of range".

(** The answer of a store operation: its error, a panic, or its value. *)
Definition respond {A} (r : res error A) (ok : A → list byte) (x : Executor) : answer :=
  match r with
  | Ok a => reply (ok a) x
  | Err e => reply (WriteError (error_Error e)) x
  | Panic => ([], Panicked, x)
  end.

(** ** Dispatch: server commands *)
Definition hello (clientID : Z) : list byte :=
  WriteArray 14 ++ WriteBulkStringStr "server" ++ WriteBulkStringStr "dbx" ++
  WriteBulkStringStr "version" ++ WriteBulkStringStr "1.3.0" ++ WriteBulkStringStr "proto" ++
  WriteInteger 2 ++ WriteBulkStringStr "id" ++ WriteInteger (i64 clientID) ++
  WriteBulkStringStr "mode" ++ WriteBulkStringStr "standalone" ++ WriteBulkStringStr "role" ++
  WriteBulkStringStr "master" ++ WriteBulkStringStr "modules" ++ WriteArray 0.

Definition dispatch_server (now : Z) (clientID : Z) (cmd : Command) (x : Executor) : option answer :=
  let name := Normalized cmd in
  let nm s := bool_decide (name = s) in
  if nm "PING" then
    Some (reply (if NumArgs cmd >? 0 then WriteBulkStringStr (Arg cmd 0)
                 else WriteSimpleString "PONG") x)
  else if nm "HELLO" then Some (reply (hello clientID) x)
  else if nm "ECHO" then
    Some (reply (if NumArgs cmd <? 1 then WriteError (WrongNumArgsError "ECHO")
                 else WriteBulkString (ArgBytes cmd 0)) x)
  else if nm "QUIT" then Some (WriteSimpleString "OK", Failed "quit", x)
  else if nm "DBSIZE" then Some (reply (WriteInteger (DBSize now (kv x))) x)
  else if nm "FLUSHDB" || nm "FLUSHALL" then Some (reply WriteOK (set_kv x (FlushAll (kv x))))
  else if nm "COMMAND" then Some (reply (WriteArray 0) x)
  else None.

(** ** Dispatch: keys *)

(** The options of SCAN; the count is parsed and not used. *)
Fixpoint scan_pattern (args : list slice) (pattern : string) : string :=
  match args with
  | opt :: v :: args =>
      scan_pattern args (if bool_decide (ToUpper (to_str opt) = "MATCH"%string) then to_str v else pattern)
  | _ => pattern
  end.

Definition count_existing (now : Z) (s : KVStore) (keys : list string) : Z :=
  foldl (fun count k => if Exists_ now k s then count + 1 else count) 0 keys.

Definition dispatch_keys (now : Z) (fault : option wal_fault) (cmd : Command) (x : Executor) : option answer :=
  let name := Normalized cmd in
  let nm s := bool_decide (name = s) in
  let keys := map to_str (Args cmd) in
  if nm "DEL" then Some (
    if NumArgs cmd <? 1 then reply (WriteError (WrongNumArgsError "DEL")) x
    else
      let '(deleted, s) := Delete keys (kv x) in
      let x := set_kv x s in
      let r := if deleted >? 0
               then writeWALs now fault (map (fun k => wal_record RecordDelete k None 0) keys) x
               else (None, x) in
      logged r (WriteInteger deleted))
  else if nm "EXISTS" then Some (
    if NumArgs cmd <? 1 then reply (WriteError (WrongNumArgsError "EXISTS")) x
    else reply (WriteInteger (count_existing now (kv x) keys)) x)
  else if nm "EXPIRE" then Some (
    if NumArgs cmd <? 2 then reply (WriteError (WrongNumArgsError "EXPIRE")) x
    else
      match ParseInt_ok (Arg cmd 1) with
      | None => reply (WriteError ErrNotInteger) x
      | Some sec =>
          let '(ok, s) := Expire now now (Arg cmd 0) sec (kv x) in
          let x := set_kv x s in
          if ok then
            logged (writeWAL now fault
                      (wal_record RecordExpire (Arg cmd 0) None (i64 (sec * 1000000000))) x)
                   (WriteInteger 1)
          else reply (WriteInteger 0) x
      end)
  else if nm "TTL" then Some (
    if NumArgs cmd <? 1 then reply (WriteError (WrongNumArgsError "TTL")) x
    else reply (WriteInteger (TTL now now (Arg cmd 0) (kv x))) x)
  else if nm "PERSIST" then Some (
    let '(ok, s) := Persist now (Arg cmd 0) (kv x) in
    reply (WriteInteger (if ok then 1 else 0)) (set_kv x s))
  else if nm "TYPE" then Some (
    reply (WriteSimpleString (DataType_string (Type_ now (Arg cmd 0) (kv x)))) x)
  else if nm "RENAME" then Some (
    if NumArgs cmd <? 2 then reply (WriteError (WrongNumArgsError "RENAME")) x
    else
      let '(r, s) := Rename now now now (Arg cmd 0) (Arg cmd 1) (kv x) in
      respond r (fun _ => WriteOK) (set_kv x s))
  else if nm "KEYS" then Some (
    let pattern := if NumArgs cmd >? 0 then Arg cmd 0 else "*"%string in
    reply (WriteStrings (Keys now pattern (kv x))) x)
  else if nm "SCAN" then Some (
    let pattern := scan_pattern (drop 1 (Args cmd)) "*" in
    reply (WriteArray 2 ++ WriteBulkStringStr "0" ++ WriteStrings (Keys now pattern (kv x))) x)
  else None.

(** ** Dispatch: strings *)

(** The map of key and value arguments of MSET: the last value of a key wins. *)
Fixpoint mset_pairs (args : list slice) (pairs : gmap string slice) : gmap string slice :=
  match args with
  | k :: v :: args => mset_pairs args (<[to_str k := v]> pairs)
  | _ => pairs
  end.

Definition incr_answer (now : Z) (key : string) (by_ : Z) (x : Executor) : answer :=
  let '(r, s) := StringStore.Incr now key by_ (kv x) in respond r WriteInteger (set_kv x s).

Definition dispatch_set (now : Z) (fault : option wal_fault) (cmd : Command) (x : Executor) : answer :=
  if NumArgs cmd <? 2 then reply (WriteError (WrongNumArgsError "SET")) x
  else
    let parsed :=
      if NumArgs cmd =? 2
      then Ok {| StringStore.sa_value := ArgBytes cmd 1; StringStore.sa_ttlSec := 0;
                 StringStore.sa_nx := false; StringStore.sa_xx := false |}
      else StringStore.ParseSetArgs (drop 1 (Args cmd)) in
    match parsed with
    | Panic => ([], Panicked, x)
    | Err e => reply (WriteError (error_Error e)) x
    | Ok a =>
        let v := StringStore.sa_value a in
        let ttl := StringStore.sa_ttlSec a in
        let '(ok, s) := StringStore.Set_ now now now (Arg cmd 0) v ttl (StringStore.sa_nx a)
                          (StringStore.sa_xx a) (kv x) in
        let x := set_kv x s in
        if negb ok then reply WriteNull x
        else logged (writeWAL now fault (wal_record RecordSet (Arg cmd 0) v (i64 (ttl * 1000000))) x) WriteOK
    end.

Definition dispatch_strings (now : Z) (fault : option wal_fault) (cmd : Command) (x : Executor) : option answer :=
  let name := Normalized cmd in
  let nm s := bool_decide (name = s) in
  let key := Arg cmd 0 in
  let short n := NumArgs cmd <? n in
  let usage := reply (WriteError (WrongNumArgsError name)) x in
  if nm "GET" then Some (
    if short 1 then usage else respond (StringStore.Get now key (kv x)) WriteBulkString x)
  else if nm "SET" then Some (dispatch_set now fault cmd x)
  else if nm "SETEX" then Some (
    if short 3 then usage
    else
      match ParseInt_ok (Arg cmd 1) with
      | None => reply (WriteError "ERR invalid expire time in 'setex' command") x
      | Some seconds =>
          if seconds <=? 0 then reply (WriteError "ERR invalid expire time in 'setex' command") x
          else
            let v := ArgBytes cmd 2 in
            let '(_, s) := StringStore.Set_ now now now key v seconds false false (kv x) in
            logged (writeWAL now fault (wal_record RecordSet key v (i64 (seconds * 1000000))) (set_kv x s))
                   WriteOK
      end)
  else if nm "MGET" then Some (
    reply (WriteBytes (StringStore.MGet now (map to_str (Args cmd)) (kv x))) x)
  else if nm "MSET" then Some (
    if short 2 || negb (Z.rem (NumArgs cmd) 2 =? 0) then usage
    else
      let pairs := map_to_list (mset_pairs (Args cmd) ∅) in
      let x := set_kv x (StringStore.MSet now pairs (kv x)) in
      logged (writeWALs now fault (map (fun '(k, v) => wal_record RecordSet k v 0) pairs) x) WriteOK)
  else if nm "INCR" then Some (incr_answer now key 1 x)
  else if nm "DECR" then Some (incr_answer now key (-1) x)
  else if nm "INCRBY" then Some (
    if short 2 then usage
    else match ParseInt_ok (Arg cmd 1) with
         | None => reply (WriteError ErrNotInteger) x
         | Some by_ => incr_answer now key by_ x
         end)
  else if nm "DECRBY" then Some (
    if short 2 then usage
    else match ParseInt_ok (Arg cmd 1) with
         | None => reply (WriteError ErrNotInteger) x
         | Some by_ => incr_answer now key (i64 (- by_)) x
         end)
  else if nm "APPEND" then Some (
    if short 2 then usage
    else let '(r, s) := StringStore.Append now key (ArgBytes cmd 1) (kv x) in
         respond r WriteInteger (set_kv x s))
  else if nm "STRLEN" then Some (respond (StringStore.Strlen now key (kv x)) WriteInteger x)
  else if nm "GETRANGE" then Some (
    if short 3 then usage
    else respond (StringStore.GetRange now key (fst (Atoi (Arg cmd 1))) (fst (Atoi (Arg cmd 2))) (kv x))
           WriteBulkString x)
  else if nm "SETNX" then Some (
    if short 2 then usage
    else let '(ok, s) := StringStore.Set_ now now now key (ArgBytes cmd 1) 0 true false (kv x) in
         reply (WriteInteger (if ok then 1 else 0)) (set_kv x s))
  else if nm "GETSET" then Some (
    let '(r, s) := StringStore.GetSet now now key (ArgBytes cmd 1) (kv x) in
    respond r WriteBulkString (set_kv x s))
  else None.

(** ** Dispatch: transactions

    [exec] is [Dispatch] itself, on the queued commands. *)
Section Dispatch.
Variable rest : Z → Z → Command → Executor → answer.

(** The loop of EXEC: the errors of the queued commands are dropped; a panic
    ends the command. *)
Fixpoint run_queue (dispatch : Command → Executor → answer) (cmds : list Command) (out : list byte)
    (x : Executor) : answer :=
  match cmds with
  | [] => reply out x
  | c :: cmds =>
      match dispatch c x with
      | (o, Panicked, x) => (out ++ o, Panicked, x)
      | (o, _, x) => run_queue dispatch cmds (out ++ o) x
      end
  end.

Definition dispatch_tx (exec : Command → Executor → answer) (clientID : Z) (cmd : Command) (x : Executor)
    : option answer :=
  let name := Normalized cmd in
  let nm s := bool_decide (name = s) in
  if nm "MULTI" then Some (
    let '(r, m) := Begin clientID (multi x) in
    let x := set_multi x m in
    match r with
    | Err e => reply (WriteError e) x
    | _ => reply WriteOK x
    end)
  else if nm "EXEC" then Some (
    if IsDirty clientID (mvcc x) (watch x) then
      let x := set_multi x (snd (Discard clientID (multi x))) in
      reply WriteNull (set_watch x (Unwatch clientID (watch x)))
    else
      let '(cmds, err, m) := Exec clientID (multi x) in
      let x := set_watch (set_multi x m) (Unwatch clientID (watch x)) in
      match err with
      | Some e => reply (WriteError e) x
      | None => run_queue exec cmds (WriteArray (zlen cmds)) x
      end)
  else if nm "DISCARD" then Some (
    let '(r, m) := Discard clientID (multi x) in
    let x := set_multi x m in
    match r with
    | Err e => reply (WriteError e) x
    | _ => reply WriteOK (set_watch x (Unwatch clientID (watch x)))
    end)
  else if nm "WATCH" then Some (
    if NumArgs cmd <? 1 then reply (WriteError (WrongNumArgsError "WATCH")) x
    else reply WriteOK
           (set_watch x (Watch clientID (map to_str (Args cmd)) (CurrentVersion (mvcc x)) (watch x))))
  else if nm "UNWATCH" then Some (reply WriteOK (set_watch x (Unwatch clientID (watch x))))
  else None.

(** [fuel] bounds the depth of EXEC inside EXEC: a queue never holds an EXEC
    when it was filled by [Execute], so depth two is enough. *)
Fixpoint Dispatch (fuel : nat) (now : Z) (fault : option wal_fault) (clientID : Z) (cmd : Command)
    (x : Executor) : answer :=
  match dispatch_server now clientID cmd x with
  | Some a => a
  | None =>
  match dispatch_keys now fault cmd x with
  | Some a => a
  | None =>
  match dispatch_strings now fault cmd x with
  | Some a => a
  | None =>
  match fuel with
  | O => rest now clientID cmd x
  | S fuel =>
      match dispatch_tx (Dispatch fuel now fault clientID) clientID cmd x with
      | Some a => a
      | None => rest now clientID cmd x
      end
  end end end end.

(** ** Durable effects *)

(** [stringState]: the value, its deadline, whether the key exists, and whether
    it holds a string. *)
Definition stringState (now : Z) (s : KVStore) (key : string) : slice * Z * bool * bool :=
  match Get now key s with
  | None => (None, 0, false, true)
  | Some e =>
      if negb (bool_decide (EType e = TypeString)) then (None, 0, true, false)
      else match Value e with
           | VBytes v => (scopy v, ExpiresAt e, true, true)
           | _ => (None, 0, true, false)
           end
  end.

(** The effects of MSET, in the order of the arguments. *)
Fixpoint mset_effects (args : list slice) : list WALEffect :=
  match args with
  | k :: v :: args => put (to_str k) (scopy v) 0 :: mset_effects args
  | _ => []
  end.

Definition prepare_incr (now : Z) (s : KVStore) (cmd : Command) : list WALEffect :=
  let name := Normalized cmd in
  let '(v, expiresAt, exists_, valid) := stringState now s (Arg cmd 0) in
  if negb valid then []
  else
    match (if exists_ then ParseInt_ok (to_str v) else Some 0) with
    | None => []
    | Some current =>
        let by_ :=
          if bool_decide (name = "DECR") then Some (-1)
          else if bool_decide (name = "INCRBY") then ParseInt_ok (Arg cmd 1)
          else if bool_decide (name = "DECRBY") then (fun n => i64 (- n)) <$> ParseInt_ok (Arg cmd 1)
          else Some 1 in
        match by_ with
        | None => []
        | Some by_ => [put (Arg cmd 0) (to_slice (FormatInt (i64 (current + by_)))) expiresAt]
        end
    end.

(** The effects, and whether the command is one that is prepared. *)
Definition prepareDurableEffects (now : Z) (s : KVStore) (cmd : Command) : list WALEffect * bool :=
  let name := Normalized cmd in
  let nm s := bool_decide (name = s) in
  let key := Arg cmd 0 in
  let short n := NumArgs cmd <? n in
  if nm "SET" then (
    if short 2 then []
    else
      match StringStore.ParseSetArgs (drop 1 (Args cmd)) with
      | Ok a =>
          let '(_, _, exists_, valid) := stringState now s key in
          if negb valid || (StringStore.sa_nx a && exists_) || (StringStore.sa_xx a && negb exists_) then []
          else
            let ttlSec := StringStore.sa_ttlSec a in
            let expiresAt := if ttlSec >? 0 then i64 (now + i64 (ttlSec * second)) else 0 in
            [put key (scopy (StringStore.sa_value a)) expiresAt]
      | _ => []
      end, true)
  else if nm "SETEX" then (
    if short 3 then []
    else
      match ParseInt_ok (Arg cmd 1) with
      | None => []
      | Some seconds =>
          if seconds <=? 0 then []
          else [put key (scopy (ArgBytes cmd 2)) (i64 (now + i64 (seconds * second)))]
      end, true)
  else if nm "SETNX" then (
    if short 2 then []
    else
      let '(_, _, exists_, valid) := stringState now s key in
      if negb valid || exists_ then [] else [put key (scopy (ArgBytes cmd 1)) 0], true)
  else if nm "GETSET" then (
    if short 2 then []
    else
      let '(_, _, _, valid) := stringState now s key in
      if negb valid then [] else [put key (scopy (ArgBytes cmd 1)) 0], true)
  else if nm "MSET" then (
    if short 2 || negb (Z.rem (NumArgs cmd) 2 =? 0) then [] else mset_effects (Args cmd), true)
  else if nm "DEL" then (
    map del (List.filter (fun k => Exists_ now k s) (map to_str (Args cmd))), true)
  else if nm "EXPIRE" then (
    if short 2 then []
    else
      match ParseInt_ok (Arg cmd 1) with
      | None => []
      | Some seconds =>
          if negb (Exists_ now key s) then []
          else [expire key (i64 (now + i64 (seconds * second)))]
      end, true)
  else if nm "PERSIST" then (
    match Get now key s with
    | None => []
    | Some e => if ExpiresAt e =? 0 then [] else [expire key 0]
    end, true)
  else if nm "RENAME" then (
    if short 2 then []
    else
      let '(v, expiresAt, exists_, valid) := stringState now s key in
      if negb exists_ || negb valid then [] else [put (Arg cmd 1) v expiresAt; del key], true)
  else if nm "INCR" || nm "INCRBY" || nm "DECR" || nm "DECRBY" then (prepare_incr now s cmd, true)
  else if nm "APPEND" then (
    if short 2 then []
    else
      let '(v, expiresAt, _, valid) := stringState now s key in
      if negb valid then [] else [put key (sappend v (contents (ArgBytes cmd 1))) expiresAt], true)
  else ([], false).

(** ** Memory admission *)

(** The last set or delete effect of each key. *)
Definition final_effects (effects : list WALEffect) : gmap string WALEffect :=
  foldl (fun final e =>
    if bool_decide (we_Type e = RecordSet) || bool_decide (we_Type e = RecordDelete)
    then <[we_Key e := e]> final else final) ∅ effects.

Definition project (now : Z) (s : KVStore) (projected : Z) (p : string * WALEffect) : Z :=
  let '(key, effect) := p in
  let projected :=
    match Get now key s with
    | Some e =>
        let projected := projected - (strlen key + 96) in
        if bool_decide (EType e = TypeString)
        then match Value e with VBytes v => projected - slen v | _ => projected end
        else projected
    | None => projected
    end in
  if bool_decide (we_Type effect = RecordSet)
  then projected + (strlen key + slen (we_Value effect) + 96) else projected.

Definition effectsFitQuota (now : Z) (effects : list WALEffect) (x : Executor) : bool * Z :=
  let projected := foldl (project now (kv x)) (accountedMemory x) (map_to_list (final_effects effects)) in
  ((maxMemory x <=? 0) || (projected <=? maxMemory x), projected).

(** [measureMemoryUsage] with the bytes of the vector store as an argument. *)
Definition measureMemoryUsage (now vecMemory : Z) (x : Executor) : Z := MemoryUsage now (kv x) + vecMemory.

Definition SetMemoryLimit (now vecMemory bytes : Z) (x : Executor) : Executor :=
  {| kv := kv x; multi := multi x; watch := watch x; mvcc := mvcc x; wal := wal x;
     suppressWAL := suppressWAL x; maxMemory := bytes;
     accountedMemory := measureMemoryUsage now vecMemory x; readOnly := readOnly x; pubsub := pubsub x |}.

(** ** Execute *)

(** The answer after the deferred functions: a panic is answered with an error
    and the log is written to again. *)
Definition recovered (a : answer) : answer :=
  match a with
  | (out, Panicked, x) => (out ++ WriteError "ERR internal server error", Done, x)
  | a => a
  end.

(** The part of [Execute] after the durable gate. *)
Definition dispatch_accounted (now vecMemory : Z) (fault : option wal_fault) (clientID : Z) (cmd : Command)
    (durable prepared : bool) (projected : Z) (x : Executor) : answer :=
  let '(out, st, x) := Dispatch 2 now fault clientID cmd x in
  match st with
  | Done =>
      (out, Done,
       if durable
       then set_accounted x (if prepared then projected else measureMemoryUsage now vecMemory x)
       else x)
  | _ => (out, st, x)
  end.

Definition Execute (now vecMemory : Z) (fault : option wal_fault) (clientID : Z) (cmd : Command) (x : Executor)
    : answer :=
  let name := Normalized cmd in
  if IsActive clientID (multi x) && negb (bool_decide (name ∈ ["EXEC"; "DISCARD"; "WATCH"; "MULTI"])) then
    reply (WriteSimpleString "QUEUED") (set_multi x (Queue clientID cmd (multi x)))
  else
    match Lookup name with
    | None => reply (WriteError ("ERR unknown command '" ++ Name cmd ++ "'")) x
    | Some info =>
        if bool_decide (is_Some (wal x)) && negb (SupportedInDurableV1 name) then
          reply (WriteError ("ERR command '" ++ Name cmd ++ "' is not supported by the durable DBX v1 profile")) x
        else if readOnly x && negb (ReadOnly info) then
          reply (WriteError "READONLY replica does not accept writes") x
        else
          match wal x with
          | Some w =>
              if DurableV1 info && negb (ReadOnly info) then
                let '(effects, prepared) := prepareDurableEffects now (kv x) cmd in
                if prepared && negb (bool_decide (effects = [])) then
                  let '(fits, projected) := effectsFitQuota now effects x in
                  if negb fits then reply (WriteError "OOM tenant quota exceeded") x
                  else
                    let '(err, w) := wal_WriteTransaction now fault effects w in
                    let x := set_wal x (Some w) in
                    match err with
                    | Some e => reply (WriteError ("ERR WAL write failed: " ++ e)) x
                    | None =>
                        let '(out, st, x) :=
                          recovered (dispatch_accounted now vecMemory fault clientID cmd true prepared
                                       projected (set_suppress x true)) in
                        (out, st, set_suppress x false)
                    end
                else recovered (dispatch_accounted now vecMemory fault clientID cmd true prepared
                                  (accountedMemory x) x)
              else recovered (dispatch_accounted now vecMemory fault clientID cmd false false
                                (accountedMemory x) x)
          | None => recovered (dispatch_accounted now vecMemory fault clientID cmd false false
                                 (accountedMemory x) x)
          end
    end.

End Dispatch.

(** ** What every command preserves

    A property of the executor that the updates of its parts and the writes to
    the log preserve is preserved by every command. *)
Section Preserved.
Variable rest : Z → Z → Command → Executor → answer.
Variable P : Executor → Prop.
Hypothesis P_kv : ∀ x s, P x → P (set_kv x s).
Hypothesis P_multi : ∀ x m, P x → P (set_multi x m).
Hypothesis P_watch : ∀ x w, P x → P (set_watch x w).
Hypothesis P_suppress : ∀ x b, P x → P (set_suppress x b).
Hypothesis P_accounted : ∀ x n, P x → P (set_accounted x n).
Hypothesis P_wal : ∀ now fault rec w x,
  wal x = Some w → P x → P (set_wal x (Some (snd (wal_Write now fault rec w)))).
Hypothesis P_rest : ∀ now clientID cmd x, P x → P (snd (rest now clientID cmd x)).
#[local] Hint Resolve P_kv P_multi P_watch P_suppress P_accounted P_wal P_rest : core.

Lemma writeWAL_preserves now fault rec x : P x → P (snd (writeWAL now fault rec x)).
Proof.
  intros Hx. unfold writeWAL. destruct (wal x) as [w|] eqn:Ew; [|done]. destruct (suppressWAL x); [done|].
  pose proof (P_wal now fault rec w x Ew Hx). by destruct (wal_Write now fault rec w).
Qed.
#[local] Hint Resolve writeWAL_preserves : core.

Lemma writeWALs_preserves now fault recs x : P x → P (snd (writeWALs now fault recs x)).
Proof.
  revert x. induction recs as [|rec recs IH]; intros x Hx; cbn [writeWALs]; [done|].
  pose proof (writeWAL_preserves now fault rec x Hx).
  destruct (writeWAL now fault rec x) as [[e|] x1]; cbn [snd] in *; auto.
Qed.
#[local] Hint Resolve writeWALs_preserves : core.

Lemma logged_preserves r out : P (snd r) → P (snd (logged r out)).
Proof. by destruct r as [[e|] x]. Qed.
Lemma respond_preserves {A} (r : res error A) ok x : P x → P (snd (respond r ok x)).
Proof. by destruct r. Qed.
#[local] Hint Resolve logged_preserves respond_preserves : core.

Lemma server_preserves now clientID cmd x a : P x → dispatch_server now clientID cmd x = Some a → P (snd a).
Proof. intros Hx. unfold dispatch_server. cbv zeta. repeat case_match; intros [= <-]; cbn; auto. Qed.

#[local] Hint Extern 1 (P (snd (_, _))) => progress cbn [snd] : core.
#[local] Hint Extern 1 (P (snd (reply _ _))) => progress cbn [snd reply] : core.

Lemma keys_preserves now fault cmd x a : P x → dispatch_keys now fault cmd x = Some a → P (snd a).
Proof. intros Hx. unfold dispatch_keys. cbv zeta. repeat case_match; intros [= <-]; auto. Qed.

Lemma strings_preserves now fault cmd x a : P x → dispatch_strings now fault cmd x = Some a → P (snd a).
Proof.
  intros Hx. unfold dispatch_strings, dispatch_set, incr_answer. cbv zeta.
  repeat case_match; intros [= <-]; auto.
Qed.

Lemma queue_preserves dispatch cmds out x :
  (∀ c y, P y → P (snd (dispatch c y))) → P x → P (snd (run_queue dispatch cmds out x)).
Proof.
  intros Hd. revert out x. induction cmds as [|c cmds IH]; intros out x Hx; cbn [run_queue]; [done|].
  specialize (Hd c x Hx). destruct (dispatch c x) as [[o []] x1]; cbn [snd] in Hd; auto.
Qed.

Lemma tx_preserves exec clientID cmd x a :
  (∀ c y, P y → P (snd (exec c y))) → P x → dispatch_tx exec clientID cmd x = Some a → P (snd a).
Proof.
  intros He Hx. unfold dispatch_tx. cbv zeta. repeat case_match; intros [= <-]; cbn; auto.
  apply queue_preserves; auto.
Qed.

Lemma Dispatch_preserves fuel now fault clientID cmd x :
  P x → P (snd (Dispatch rest fuel now fault clientID cmd x)).
Proof.
  revert cmd x. induction fuel as [|fuel IH]; intros cmd x Hx; cbn [Dispatch];
    (destruct (dispatch_server now clientID cmd x) eqn:E1; [by eapply server_preserves|]);
    (destruct (dispatch_keys now fault cmd x) eqn:E2; [by eapply keys_preserves|]);
    (destruct (dispatch_strings now fault cmd x) eqn:E3; [by eapply strings_preserves|]); [auto|].
  destruct (dispatch_tx _ _ _ _) eqn:E4; [|auto]. eapply tx_preserves; eauto.
Qed.

Lemma accounted_preserves now vecMemory fault clientID cmd d p pr x :
  P x → P (snd (recovered (dispatch_accounted rest now vecMemory fault clientID cmd d p pr x))).
Proof.
  intros Hx. unfold dispatch_accounted. pose proof (Dispatch_preserves 2 now fault clientID cmd x Hx) as Hd.
  destruct (Dispatch rest 2 now fault clientID cmd x) as [[out []] x1]; cbn in *; [|done..]. destruct d; auto.
Qed.
#[local] Hint Resolve accounted_preserves : core.

Lemma transaction_preserves now fault effects w x :
  wal x = Some w → P x → P (set_wal x (Some (snd (wal_WriteTransaction now fault effects w)))).
Proof.
  intros Hw Hx. destruct effects; cbn [wal_WriteTransaction snd]; [|by apply P_wal].
  replace (set_wal x (Some w)) with x; [done|]. destruct x; cbn in Hw; by rewrite Hw.
Qed.

Lemma Execute_preserves now vecMemory fault clientID cmd x :
  P x → P (snd (Execute rest now vecMemory fault clientID cmd x)).
Proof.
  intros Hx. unfold Execute. case_match; [cbn; auto|]. case_match; [|done].
  repeat (case_match; [done|]). destruct (wal x) as [w|] eqn:Ew; [|auto]. case_match; [|auto].
  destruct (prepareDurableEffects now (kv x) cmd) as [effects prepared]. case_match; [|auto].
  destruct (effectsFitQuota now effects x) as [fits projected]. case_match; [done|].
  pose proof (transaction_preserves now fault effects w x Ew Hx) as Ht.
  destruct (wal_WriteTransaction now fault effects w) as [[e|] w']; cbn [snd] in Ht; [done|].
  pose proof (accounted_preserves now vecMemory fault clientID cmd true prepared projected
                (set_suppress (set_wal x (Some w')) true) (P_suppress _ _ Ht)) as Ha.
  destruct (recovered _) as [[out st] y]. cbn [snd] in *. auto.
Qed.

(** A schedule of commands of several clients. *)
Definition run_all (sched : list (Z * Z * option wal_fault * Command)) (x : Executor) : Executor :=
  foldl (fun x '(now, clientID, fault, cmd) => snd (Execute rest now 0 fault clientID cmd x)) x sched.

Lemma run_all_preserves sched x : P x → P (run_all sched x).
Proof.
  revert x. induction sched as [|[[[now c] fault] cmd] sched IH]; intros x Hx; [done|].
  by apply IH, Execute_preserves.
Qed.
End Preserved.

(** ** The version history is never written *)
Section Versions.
Variable rest : Z → Z → Command → Executor → answer.
Hypothesis rest_mvcc : ∀ now clientID cmd x, mvcc (snd (rest now clientID cmd x)) = mvcc x.

(** Whatever clients do, the executor never writes to the
    version history that WATCH is checked against, so no client is ever found
    dirty and EXEC never aborts because a watched key has changed. *)
Theorem watch_never_aborts sched s w clientID :
  let x := run_all rest sched (NewExecutor s w) in
  history (mvcc x) = ∅ ∧ IsDirty clientID (mvcc x) (watch x) = false.
Proof.
  cbv zeta. assert (Hm : mvcc (run_all rest sched (NewExecutor s w)) = NewMVCCStore 64).
  { apply (run_all_preserves rest (λ x, mvcc x = NewMVCCStore 64)); try done.
    intros. by rewrite rest_mvcc. }
  rewrite Hm. split; [done|]. by apply IsDirty_no_history.
Qed.

End Versions.

(** A watched key is changed by another client, and EXEC runs all the same. *)
Lemma watch_never_aborts_witness :
  let rest := fun (_ _ : Z) (_ : Command) (x : Executor) => reply [] x in
  let cmd n l := {| Name := n; Args := map to_slice l |} in
  let x := run_all rest [(1, 7, None, cmd "WATCH" ["k"]); (2, 8, None, cmd "SET" ["k"; "theirs"]);
                         (3, 7, None, cmd "MULTI" []); (4, 7, None, cmd "SET" ["k"; "mine"])]
             (NewExecutor (New 4) None) in
  IsDirty 7 (mvcc x) (watch x) = false ∧
  (is_Some (watch x !! 7)) ∧
  fst (Execute rest 5 0 None 7 (cmd "EXEC" []) x) = (WriteArray 1 ++ WriteOK, Done).
Proof.
  cbv zeta. split; [|split; [by vm_compute; eexists|by vm_compute]].
  refine (proj2 (watch_never_aborts _ _ _ _ _ _)). done.
Defined.

(** ** A failed log stays failed *)
Section WriteStop.
Variable rest : Z → Z → Command → Executor → answer.
(** The remaining commands may write to the log; a log that is write-stopped
    refuses what they write. *)
Hypothesis rest_stopped : ∀ now clientID cmd x w e,
  wal x = Some w → w_failed w = Some e → wal (snd (rest now clientID cmd x)) = Some w.

(** A command of [clientID] that passes the gates and whose effects are logged
    before it runs. *)
Definition logs_first (now clientID : Z) (cmd : Command) (effects : list WALEffect) (x : Executor) : bool :=
  negb (IsActive clientID (multi x)) && negb (readOnly x) &&
  match Lookup (Normalized cmd) with
  | Some info => DurableV1 info && negb (ReadOnly info)
  | None => false
  end &&
  bool_decide (prepareDurableEffects now (kv x) cmd = (effects, true)) && negb (bool_decide (effects = [])) &&
  fst (effectsFitQuota now effects x).

Lemma logs_first_Execute now vecMemory fault clientID cmd effects x w e :
  logs_first now clientID cmd effects x = true → wal x = Some w →
  fst (wal_Write now fault (transaction_record effects) w) = Some e →
  Execute rest now vecMemory fault clientID cmd x =
  reply (WriteError ("ERR WAL write failed: " ++ e))
    (set_wal x (Some (snd (wal_Write now fault (transaction_record effects) w)))).
Proof.
  unfold logs_first. rewrite !andb_true_iff, !negb_true_iff.
  intros (((((Hm & Hr) & Hi) & Hp) & Hne) & Hq) Hw He.
  unfold Execute. rewrite Hm, Hr, Hw. cbn [andb].
  destruct (Lookup (Normalized cmd)) as [info|] eqn:Hl; [|done].
  apply andb_true_iff in Hi as [Hd Hro]. rewrite Hd, Hro, bool_decide_eq_true_2 by done. cbn [andb].
  unfold SupportedInDurableV1. assert (Hl' : Lookup (Normalized cmd) = Some info) by done. rewrite Hl', Hd.
  rewrite orb_true_r. cbn [negb]. apply bool_decide_eq_true in Hp. rewrite Hp, Hne. cbn [negb andb].
  destruct (effectsFitQuota now effects x) as [fits projected]. cbn in Hq. rewrite Hq. cbn [negb].
  destruct effects as [|f fs]; [done|]. cbn [wal_WriteTransaction].
  destruct (wal_Write now fault _ w) as [o w']. cbn in He. by rewrite He.
Qed.

Definition fault_error (f : wal_fault) : string :=
  match f with Unsealed e | Unwritten e | Unsynced e => e end.

(** C17: a command whose write to the log fails is answered with the error
    and changes no key. When the record could not be sealed the log is as before
    but for the sequence number. When its append or its sync failed the log is
    fail-stop: whatever clients send afterwards, no record is added to it, the
    failure is kept, and every command that has effects to log is refused and
    changes no key; the frame whose sync failed is the only one that may still
    turn up in the file. The commands outside this file enter as a function that
    writes to the log, if at all, as [wal_Write] does: a stopped log stays as it is. *)
Theorem write_stop now vecMemory fault clientID cmd effects x w :
  wal x = Some w → w_failed w = None → logs_first now clientID cmd effects x = true →
  let r := Execute rest now vecMemory (Some fault) clientID cmd x in
  let e := fault_error fault in
  fst r = (WriteError ("ERR WAL write failed: " ++ e), Done) ∧ kv (snd r) = kv x ∧
  match fault with
  | Unsealed _ =>
      wal (snd r) = Some {| w_seq := u64 (w_seq w + 1); w_records := w_records w; w_failed := None;
                            w_unsynced := w_unsynced w |}
  | _ =>
      ∀ sched, let y := run_all rest sched (snd r) in
      (∃ w', wal y = Some w' ∧ w_records w' = w_records w ∧ w_failed w' = Some e ∧
         w_unsynced w' = if fault is Unsynced _
                         then Some (stamp now (u64 (w_seq w + 1)) (transaction_record effects))
                         else w_unsynced w) ∧
      ∀ now' vec' fault' c' cmd' effects', logs_first now' c' cmd' effects' y = true →
        let r' := Execute rest now' vec' fault' c' cmd' y in
        fst r' = (WriteError ("ERR WAL write failed: wal is write-stopped: " ++ e), Done) ∧ kv (snd r') = kv y
  end.
Proof.
  intros Hw Hf Hl r e.
  assert (He : fst (wal_Write now (Some fault) (transaction_record effects) w) = Some e)
    by (unfold wal_Write; rewrite Hf; by destruct fault).
  pose proof (logs_first_Execute now vecMemory (Some fault) clientID cmd effects x w e Hl Hw He) as Hr.
  fold r in Hr. rewrite Hr. split; [done|]. split; [done|].
  set (w1 := snd (wal_Write now (Some fault) (transaction_record effects) w)) in *.
  assert (Hstop : w_failed w1 = Some e → ∀ sched, let y := run_all rest sched (set_wal x (Some w1)) in
    wal y = Some w1 ∧
    ∀ now' vec' fault' c' cmd' effects', logs_first now' c' cmd' effects' y = true →
      let r' := Execute rest now' vec' fault' c' cmd' y in
      fst r' = (WriteError ("ERR WAL write failed: wal is write-stopped: " ++ e), Done) ∧ kv (snd r') = kv y).
  { intros Hf1 sched y.
    assert (Hy : wal y = Some w1).
    { subst y. apply (run_all_preserves rest (λ z, wal z = Some w1)); try done; [|by eauto].
      intros now1 fault1 rec1 w2 z Hz Hz'. rewrite Hz' in Hz. injection Hz as <-. unfold wal_Write. by rewrite Hf1. }
    split; [done|]. intros now' vec' fault' c' cmd' effects' Hl' r'. subst r'.
    erewrite logs_first_Execute; [done|done|done|]. unfold wal_Write. by rewrite Hf1. }
  unfold w1, wal_Write in *. rewrite Hf in *. clear He Hr.
  destruct fault as [e1|e1|e1]; cbn [snd reply] in *; [done| |];
    intros sched; destruct (Hstop eq_refl sched) as [Hy Hrest]; (split; [by eexists|exact Hrest]).
Qed.
End WriteStop.

(** The disk fails on the first SET; a SET of another client is refused later. *)
Lemma write_stop_witness :
  let rest := fun (_ _ : Z) (_ : Command) (x : Executor) => reply [] x in
  let cmd n l := {| Name := n; Args := map to_slice l |} in
  let x := NewExecutor (New 4) (Some new_wal) in
  let y := run_all rest [(2, 8, None, cmd "GET" ["k"])]
             (snd (Execute rest 1 0 (Some (Unsynced "disk full")) 7 (cmd "SET" ["k"; "v"]) x)) in
  (∃ w', wal y = Some w' ∧ w_records w' = [] ∧ w_failed w' = Some "disk full" ∧ is_Some (w_unsynced w')) ∧
  kv (snd (Execute rest 3 0 None 8 (cmd "SET" ["j"; "v"]) y)) = kv y.
Proof.
  cbv zeta.
  destruct (write_stop (fun (_ _ : Z) (_ : Command) (x : Executor) => reply [] x) (fun _ _ _ _ _ _ H _ => H)
    1 0 (Unsynced "disk full") 7 {| Name := "SET"; Args := map to_slice ["k"; "v"] |} [put "k" (to_slice "v") 0]
    (NewExecutor (New 4) (Some new_wal)) new_wal) as (_ & _ & Hs);
    [done|done|vm_compute; reflexivity|].
  destruct (Hs [(2, 8, None, {| Name := "GET"; Args := map to_slice ["k"] |})]) as ((w' & H1 & H2 & H3 & H4) & Hr).
  split; [exists w'; split; [exact H1|split; [exact H2|split; [exact H3|rewrite H4; by eexists]]]|].
  apply (Hr 3 0 None 8 _ [put "j" (to_slice "v") 0]). vm_compute. reflexivity.
Defined.
