(* ===== verification/DispatchTyped.v ===== *)
(** * The typed commands of the executor ([query/executor.go], [Dispatch])

    The cases of [Dispatch] over hashes, lists, sets, sorted sets, bitmaps,
    streams, publish/subscribe, OBJECT, JSON.DEL and the DBX.* queries; together
    with the groups of [Executor] they make [dispatch_all], in which only the
    vector ([VectorQuery]), geo, remaining JSON, INFO and administrative commands
    are left as an argument. [pick] supplies the random choices of SPOP.

    The theorems: a registered command changes no key that [AffectedKeys] does
    not name (apart from the empty key, see [nullary_command_hits_empty_key]), a
    read-only replica is changed by no client command, and commands refused by a
    gate change nothing. *)
From S2P Require Import Prelude GoStd Types GoFloat KV TypedStore HashStore ListStore SetStore.
From S2P Require Import ZSetStore StreamStore BitmapStore RESP Commands Transaction Executor.
From S2P Require StringStore PubSub.
Open Scope Z_scope.

(** A store operation that returns a result and the new store. *)
Definition store_op {A} (p : res error A * KVStore) (ok : A → list byte) (x : Executor) : answer :=
  respond (fst p) ok (set_kv x (snd p)).

Definition usage (name : string) (x : Executor) : answer := reply (WriteError (WrongNumArgsError name)) x.
Definition int_bool (b : bool) : list byte := WriteInteger (if b then 1 else 0).
Definition WriteFloat (f : float64) : list byte := WriteBulkStringStr (FormatFloat f).
Definition args_from (i : nat) (cmd : Command) : list string := map to_str (drop i (Args cmd)).

(** ** Hashes *)
Definition write_map (m : option (gmap string slice)) : list byte :=
  let l := map_to_list (default ∅ m) in
  WriteArray (zlen l * 2) ++ mjoin ((λ p, WriteBulkStringStr p.1 ++ WriteBulkString p.2) <$> l).

Definition dispatch_hash (now : Z) (cmd : Command) (x : Executor) : option answer :=
  let name := Normalized cmd in
  let nm s := bool_decide (name = s) in
  let key := Arg cmd 0 in
  let short n := NumArgs cmd <? n in
  if nm "HSET" || nm "HMSET" then Some (
    if short 3 then usage name x
    else if negb (Z.rem (NumArgs cmd - 1) 2 =? 0) then reply (WriteError "ERR syntax error") x
    else store_op (HSet forwards now key (mset_pairs (drop 1 (Args cmd)) ∅) (kv x))
           (λ n, if nm "HMSET" then WriteOK else WriteInteger n) x)
  else if nm "HGET" then Some (
    if short 2 then usage "HGET" x else respond (HGet now key (Arg cmd 1) (kv x)) WriteBulkString x)
  else if nm "HMGET" then Some (
    if short 2 then usage "HMGET" x else respond (HMGet now key (args_from 1 cmd) (kv x)) WriteBytes x)
  else if nm "HDEL" then Some (
    if short 2 then usage "HDEL" x else store_op (HDel now key (args_from 1 cmd) (kv x)) WriteInteger x)
  else if nm "HGETALL" then Some (respond (HGetAll forwards now key (kv x)) write_map x)
  else if nm "HKEYS" then Some (respond (HKeys forwards now key (kv x)) WriteStrings x)
  else if nm "HVALS" then Some (respond (HVals forwards now key (kv x)) WriteBytes x)
  else if nm "HLEN" then Some (respond (HLen now key (kv x)) WriteInteger x)
  else if nm "HEXISTS" then Some (respond (HExists now key (Arg cmd 1) (kv x)) int_bool x)
  else if nm "HINCRBY" then Some (
    if short 3 then usage "HINCRBY" x
    else store_op (HIncrBy now key (Arg cmd 1) (fst (ParseInt (Arg cmd 2))) (kv x)) WriteInteger x)
  else None.

(** ** Lists *)
Definition write_first (vals : list slice) : list byte :=
  match vals with [] => WriteNull | v :: _ => WriteBulkString v end.

Definition dispatch_list (now : Z) (cmd : Command) (x : Executor) : option answer :=
  let name := Normalized cmd in
  let nm s := bool_decide (name = s) in
  let key := Arg cmd 0 in
  let short n := NumArgs cmd <? n in
  if nm "LPUSH" then Some (
    if short 2 then usage "LPUSH" x else store_op (LPush now key (drop 1 (Args cmd)) (kv x)) WriteInteger x)
  else if nm "RPUSH" then Some (
    if short 2 then usage "RPUSH" x else store_op (RPush now key (drop 1 (Args cmd)) (kv x)) WriteInteger x)
  else if nm "LPOP" then Some (store_op (LPop now key 1 (kv x)) write_first x)
  else if nm "RPOP" then Some (store_op (RPop now key 1 (kv x)) write_first x)
  else if nm "LRANGE" then Some (
    if short 3 then usage "LRANGE" x
    else respond (LRange now key (fst (Atoi (Arg cmd 1))) (fst (Atoi (Arg cmd 2))) (kv x)) WriteBytes x)
  else if nm "LLEN" then Some (respond (LLen now key (kv x)) WriteInteger x)
  else if nm "LINDEX" then Some (
    if short 2 then usage "LINDEX" x
    else respond (LIndex now key (fst (Atoi (Arg cmd 1))) (kv x)) WriteBulkString x)
  else None.

(** ** Sets *)
Definition dispatch_sets (now : Z) (pick : nat → nat) (cmd : Command) (x : Executor) : option answer :=
  let name := Normalized cmd in
  let nm s := bool_decide (name = s) in
  let key := Arg cmd 0 in
  let short n := NumArgs cmd <? n in
  if nm "SADD" then Some (
    if short 2 then usage "SADD" x else store_op (SAdd now key (drop 1 (Args cmd)) (kv x)) WriteInteger x)
  else if nm "SREM" then Some (
    if short 2 then usage "SREM" x else store_op (SRem now key (drop 1 (Args cmd)) (kv x)) WriteInteger x)
  else if nm "SMEMBERS" then Some (respond (SMembers now key (kv x)) WriteBytes x)
  else if nm "SISMEMBER" then Some (respond (SIsMember now key (ArgBytes cmd 1) (kv x)) int_bool x)
  else if nm "SCARD" then Some (respond (SCard now key (kv x)) WriteInteger x)
  else if nm "SPOP" then Some (store_op (SPop now pick key 1 (kv x)) write_first x)
  else None.

(** ** Sorted sets *)

(** The map of ZADD: scores that do not parse count as they are returned. *)
Fixpoint zadd_pairs (args : list slice) (members : gmap string float64) : gmap string float64 :=
  match args with
  | score :: member :: args' =>
      zadd_pairs args' (<[to_str member := fst (ParseFloat (to_str score))]> members)
  | _ => members
  end.

Definition write_opt {A} (w : A → list byte) (o : option A) : list byte :=
  match o with Some a => w a | None => WriteNull end.

Definition write_members (withScores : bool) (ms : list zsetMember) : list byte :=
  if withScores then
    WriteArray (zlen ms * 2) ++ mjoin ((λ m, WriteBulkStringStr (Member m) ++ WriteFloat (Score m)) <$> ms)
  else WriteArray (zlen ms) ++ mjoin ((λ m, WriteBulkStringStr (Member m)) <$> ms).

Definition dispatch_zset (now : Z) (cmd : Command) (x : Executor) : option answer :=
  let name := Normalized cmd in
  let nm s := bool_decide (name = s) in
  let key := Arg cmd 0 in
  let short n := NumArgs cmd <? n in
  if nm "ZADD" then Some (
    if short 3 then usage "ZADD" x
    else store_op (ZAdd now key (zadd_pairs (drop 1 (Args cmd)) ∅) (kv x)) WriteInteger x)
  else if nm "ZREM" then Some (
    if short 2 then usage "ZREM" x else store_op (ZRem now key (args_from 1 cmd) (kv x)) WriteInteger x)
  else if nm "ZSCORE" then Some (respond (ZScore now key (Arg cmd 1) (kv x)) (write_opt WriteFloat) x)
  else if nm "ZRANK" then Some (respond (ZRank now key (Arg cmd 1) (kv x)) (write_opt WriteInteger) x)
  else if nm "ZCARD" then Some (respond (ZCard now key (kv x)) WriteInteger x)
  else if nm "ZINCRBY" then Some (
    if short 3 then usage "ZINCRBY" x
    else store_op (ZIncrBy now key (Arg cmd 2) (fst (ParseFloat (Arg cmd 1))) (kv x)) WriteFloat x)
  else if nm "ZRANGE" then Some (
    if short 3 then usage "ZRANGE" x
    else
      let withScores := (NumArgs cmd >? 3) && bool_decide (ToUpper (Arg cmd 3) = "WITHSCORES"%string) in
      respond (ZRange now key (fst (Atoi (Arg cmd 1))) (fst (Atoi (Arg cmd 2))) (kv x))
        (write_members withScores) x)
  else None.

(** ** Bitmaps *)
Definition bitpos (now : Z) (cmd : Command) (x : Executor) : answer :=
  if NumArgs cmd <? 2 then usage "BITPOS" x
  else respond (BitPos now (Arg cmd 0) (fst (Atoi (Arg cmd 1))) (kv x)) WriteInteger x.

Definition dispatch_bitmap (now : Z) (cmd : Command) (x : Executor) : option answer :=
  let name := Normalized cmd in
  let nm s := bool_decide (name = s) in
  let key := Arg cmd 0 in
  let short n := NumArgs cmd <? n in
  if nm "SETBIT" then Some (
    if short 3 then usage "SETBIT" x
    else store_op (SetBit now key (fst (Atoi (Arg cmd 1))) (fst (Atoi (Arg cmd 2))) (kv x)) WriteInteger x)
  else if nm "GETBIT" then Some (
    if short 2 then usage "GETBIT" x
    else respond (GetBit now key (fst (Atoi (Arg cmd 1))) (kv x)) WriteInteger x)
  else if nm "BITCOUNT" then Some (respond (BitCount now key 0 (-1) false (kv x)) WriteInteger x)
  else if nm "BITPOS" then Some (bitpos now cmd x)
  else None.

(** ** Streams *)
Definition write_entry (e : StreamEntry) : list byte :=
  let fs := map_to_list (Types.Fields e) in
  WriteArray 2 ++ WriteBulkStringStr (Types.ID e) ++ WriteArray (zlen fs * 2) ++
  mjoin ((λ p, WriteBulkStringStr p.1 ++ WriteBulkStringStr p.2) <$> fs).
Definition write_entries (es : list StreamEntry) : list byte :=
  WriteArray (zlen es) ++ mjoin (write_entry <$> es).

Definition xadd (now : Z) (cmd : Command) (x : Executor) : answer :=
  if NumArgs cmd <? 4 then usage "XADD" x
  else
    match ParseXAddArgs (Args cmd) with
    | Ok (_, id, fields, maxLen) =>
        store_op (XAdd now now (Arg cmd 0) id fields maxLen (kv x)) WriteBulkStringStr x
    | Err e => reply (WriteError (error_Error e)) x
    | Panic => ([], Panicked, x)
    end.

Definition dispatch_stream (now : Z) (cmd : Command) (x : Executor) : option answer :=
  let name := Normalized cmd in
  let nm s := bool_decide (name = s) in
  let key := Arg cmd 0 in
  let short n := NumArgs cmd <? n in
  if nm "XADD" then Some (xadd now cmd x)
  else if nm "XLEN" then Some (respond (XLen now key (kv x)) WriteInteger x)
  else if nm "XRANGE" then Some (
    if short 3 then usage "XRANGE" x
    else respond (XRange now key (Arg cmd 1) (Arg cmd 2) 0 (kv x)) write_entries x)
  else if nm "XREVRANGE" then Some (
    if short 3 then usage "XREVRANGE" x
    else respond (XRange now key (Arg cmd 2) (Arg cmd 1) 0 (kv x)) (λ es, write_entries (reverse es)) x)
  else None.

(** ** Publish and subscribe *)
Fixpoint write_subscribed (i : Z) (chs : list string) : list byte :=
  match chs with
  | [] => []
  | ch :: chs' =>
      WriteArray 3 ++ WriteBulkStringStr "subscribe" ++ WriteBulkStringStr ch ++ WriteInteger (i + 1) ++
      write_subscribed (i + 1) chs'
  end.

Definition publish (cmd : Command) (x : Executor) : answer :=
  if NumArgs cmd <? 2 then usage "PUBLISH" x
  else
    match PubSub.Publish (Arg cmd 0) (contents (ArgBytes cmd 1)) (pubsub x) with
    | Ok (n, p) => reply (WriteInteger n) (set_pubsub x p)
    | _ => ([], Panicked, x)
    end.

Definition dispatch_pubsub (cmd : Command) (x : Executor) : option answer :=
  let name := Normalized cmd in
  let nm s := bool_decide (name = s) in
  if nm "PUBLISH" then Some (publish cmd x)
  else if nm "SUBSCRIBE" then Some (
    if NumArgs cmd <? 1 then usage "SUBSCRIBE" x
    else
      let chs := map to_str (Args cmd) in
      reply (write_subscribed 0 chs) (set_pubsub x (snd (PubSub.Subscribe chs (pubsub x)))))
  else if nm "UNSUBSCRIBE" then Some (reply WriteOK x)
  else None.

(** ** OBJECT, JSON.DEL and the DBX.* queries *)
Definition encoding (t : DataType) : string :=
  match t with
  | TypeString => "embstr"
  | TypeHash | TypeList | TypeSet => "listpack"
  | TypeZSet => "skiplist"
  | _ => "raw"
  end.

Definition object_cmd (now : Z) (cmd : Command) (x : Executor) : answer :=
  let sub s := bool_decide (ToUpper (Arg cmd 0) = s) in
  if NumArgs cmd <? 2 then usage "OBJECT" x
  else if sub "ENCODING" then reply (WriteBulkStringStr (encoding (Type_ now (Arg cmd 1) (kv x)))) x
  else if sub "IDLETIME" then reply (WriteInteger 0) x
  else if sub "REFCOUNT" then reply (WriteInteger 1) x
  else reply (WriteError "ERR unknown OBJECT subcommand") x.

Definition json_del (cmd : Command) (x : Executor) : answer :=
  if NumArgs cmd <? 1 then usage "JSON.DEL" x
  else reply (WriteInteger 1) (set_kv x (snd (Delete [Arg cmd 0] (kv x)))).

Definition dbx_mvcc (cmd : Command) (x : Executor) : answer :=
  let sub s := bool_decide (ToUpper (Arg cmd 0) = s) in
  if NumArgs cmd <? 1 then usage "DBX.MVCC" x
  else if sub "VERSION" then reply (WriteInteger (i64 (MVCC.CurrentVersion (mvcc x)))) x
  else if sub "SNAPSHOT" then
    reply (WriteBulkStringStr ("snapshot:" ++ FormatInt (MVCC.CurrentVersion (mvcc x)))) x
  else reply (WriteError "ERR unknown DBX.MVCC subcommand") x.

Definition dbx_snapshot (cmd : Command) (x : Executor) : answer :=
  let sub s := bool_decide (ToUpper (Arg cmd 0) = s) in
  if NumArgs cmd <? 1 then usage "DBX.SNAPSHOT" x
  else if sub "NOW" then reply (WriteBulkStringStr "Background snapshot initiated") x
  else if sub "STATUS" then reply (WriteBulkStringStr "idle") x
  else reply (WriteError "ERR unknown DBX.SNAPSHOT subcommand") x.

Definition dbx_keyspace (now : Z) (x : Executor) : answer :=
  reply (WriteBulkString (Some (bytes_of "# DBX Keyspace" ++ crlf ++
    mjoin ((λ p : string * Z, bytes_of (p.1 ++ ":" ++ FormatInt p.2) ++ crlf)
      <$> map_to_list (KeyspaceStats now (kv x)))))) x.

Definition dispatch_misc (now : Z) (cmd : Command) (x : Executor) : option answer :=
  let nm s := bool_decide (Normalized cmd = s) in
  if nm "OBJECT" then Some (object_cmd now cmd x)
  else if nm "JSON.DEL" then Some (json_del cmd x)
  else if nm "DBX.MVCC" then Some (dbx_mvcc cmd x)
  else if nm "DBX.SNAPSHOT" then Some (dbx_snapshot cmd x)
  else if nm "DBX.KEYSPACE" then Some (dbx_keyspace now x)
  else None.

(** ** All of them *)
Fixpoint first_some {A} (l : list (option A)) : option A :=
  match l with
  | [] => None
  | Some a :: _ => Some a
  | None :: l' => first_some l'
  end.

(** The cases of the vector, geo, remaining JSON, INFO and tenant commands. *)
Definition other_names : list string :=
  ["INFO"; "GEOADD"; "GEODIST"; "GEOPOS"; "JSON.SET"; "JSON.GET"; "JSON.TYPE"; "DBX.TENANT"; "VADD";
   "VADD_BATCH"; "VADDBIN"; "VMIGRATE"; "VDEL"; "VCOMPACT"; "VSEARCH"; "VSIM"; "VFUSE"].

Section All.
Variable others : Z → Z → Command → Executor → answer.
Variable pick : nat → nat.

Definition dispatch_typed (now clientID : Z) (cmd : Command) (x : Executor) : answer :=
  match first_some [dispatch_hash now cmd x; dispatch_list now cmd x; dispatch_sets now pick cmd x;
                    dispatch_zset now cmd x; dispatch_bitmap now cmd x; dispatch_stream now cmd x;
                    dispatch_pubsub cmd x; dispatch_misc now cmd x] with
  | Some a => a
  | None =>
      if bool_decide (Normalized cmd ∈ other_names) then others now clientID cmd x
      else reply (WriteErrorRaw ("ERR unknown command '" ++ Name cmd ++ "'")) x
  end.

Definition dispatch_all (fuel : nat) (now : Z) (fault : option wal_fault) (clientID : Z) (cmd : Command)
    (x : Executor) : answer :=
  Dispatch dispatch_typed fuel now fault clientID cmd x.

Definition execute_all (now vecMemory : Z) (fault : option wal_fault) (clientID : Z) (cmd : Command)
    (x : Executor) : answer :=
  Execute dispatch_typed now vecMemory fault clientID cmd x.
End All.

(** ** What a command may change *)

(** The store is well formed and agrees outside [ks]. *)
Definition touches (ks : list string) (s s' : KVStore) : Prop :=
  es_wf s' ∧ ∀ k, k ∉ ks → es_view s' !! k = es_view s !! k.

(** A handler leaves the store and the log alone, or is one of the writers [ws]
    and touches the keys [ks]. *)
Definition same_data (x y : Executor) : Prop := kv y = kv x ∧ wal y = wal x.
Definition acts_on (ks ws : list string) (cmd : Command) (x : Executor) (a : answer) : Prop :=
  same_data x (snd a) ∨
  (Normalized cmd ∈ ws ∧ (es_wf (kv x) → touches ks (kv x) (kv (snd a)))).
Definition acts (ws : list string) (cmd : Command) (x : Executor) (a : answer) : Prop :=
  acts_on [Arg cmd 0] ws cmd x a.

Lemma kv_respond {A} (r : res error A) ok x : kv (snd (respond r ok x)) = kv x.
Proof. by destruct r. Qed.

Lemma same_respond {A} (r : res error A) ok x : same_data x (snd (respond r ok x)).
Proof. by destruct r. Qed.

Lemma kv_store_op {A} (p : res error A * KVStore) ok x : kv (snd (store_op p ok x)) = snd p.
Proof. unfold store_op. by rewrite kv_respond. Qed.

Lemma modify_touches {A B} `{Payload A} now key (f : A → res error B * A) (s : KVStore) :
  es_wf s → touches [key] s (snd (modify now key f s)).
Proof.
  intros Hw. destruct (modify_updates now key f s Hw) as (Hw' & Hf & _). split; [done|].
  intros k Hk. apply Hf. by apply not_elem_of_cons in Hk as [? _].
Qed.

(** The primitives of the store touch their key. *)
Lemma touches_refl ks s : es_wf s → touches ks s s.
Proof. by split. Qed.

Lemma touches_trans ks s1 s2 s3 : touches ks s1 s2 → touches ks s2 s3 → touches ks s1 s3.
Proof. intros [_ H1] [Hw H2]. split; [done|]. intros k Hk. by rewrite H2, H1. Qed.

Lemma touches_weaken ks ks' s s' : ks ⊆ ks' → touches ks s s' → touches ks' s s'.
Proof. intros Hsub [Hw H]. split; [done|]. intros k Hk. apply H. intros ?. by apply Hk, Hsub. Qed.

Lemma touches_put ks key e s1 s : key ∈ ks → touches ks s1 s → touches ks s1 (es_put key e s).
Proof.
  intros Hin Ht. eapply touches_trans; [exact Ht|]. destruct Ht as [Hw _]. split; [by apply es_put_wf|].
  intros k Hk. rewrite es_put_view by done. apply lookup_insert_ne. by intros <-.
Qed.

Lemma touches_set ks now key v t ttl s1 s :
  key ∈ ks → touches ks s1 s → touches ks s1 (es_set now key v t ttl s).
Proof.
  intros Hin Ht. eapply touches_trans; [exact Ht|]. destruct Ht as [Hw _]. split; [by apply es_set_wf|].
  intros k Hk. rewrite es_set_view by done. apply lookup_insert_ne. by intros <-.
Qed.

Lemma touches_version ks s1 s : touches ks s1 s → touches ks s1 (snd (es_nextVersion s)).
Proof.
  intros Ht. eapply touches_trans; [exact Ht|]. destruct Ht as [Hw _]. split; [by apply es_nextVersion_wf|].
  intros k _. by rewrite es_nextVersion_view.
Qed.

Lemma touches_write ks now key s1 s :
  key ∈ ks → touches ks s1 s → touches ks s1 (snd (es_write now key s)).
Proof.
  intros Hin Ht. eapply touches_trans; [exact Ht|]. destruct Ht as [Hw _]. split; [by apply es_write_wf|].
  intros k Hk. rewrite es_write_view by done. apply live_alter_ne. by intros <-.
Qed.

Create HintDb touches.
#[local] Hint Resolve touches_refl touches_put touches_set touches_version touches_write : touches.
#[local] Hint Extern 1 (_ ∈ _) => (by left) : touches.

(** Follows a handler written with the primitives, innermost scrutinee first. *)
Ltac innermost t :=
  lazymatch t with
  | match ?b with _ => _ end => innermost b
  | _ => t
  end.
Ltac by_primitives :=
  repeat (cbv zeta;
    match goal with
    | |- touches _ _ (snd ?t) =>
        lazymatch t with
        | match _ with _ => _ end =>
            let b := innermost t in
            lazymatch b with
            | es_write ?now ?key ?s => rewrite (surjective_pairing (es_write now key s)); cbv iota beta
            | es_nextVersion ?s => rewrite (surjective_pairing (es_nextVersion s)); cbv iota beta
            | _ => destruct b
            end
        end
    end);
  cbn [snd]; eauto 8 with touches.

Lemma SetBit_touches now key offset v (s : KVStore) :
  es_wf s → touches [key] s (snd (SetBit now key offset v s)).
Proof. intros Hw. unfold SetBit, getBitmap. by_primitives. Qed.

Lemma Incr_touches now key n (s : KVStore) :
  es_wf s → touches [key] s (snd (StringStore.Incr now key n s)).
Proof. intros Hw. unfold StringStore.Incr. by_primitives. Qed.

Lemma Append_touches now key v (s : KVStore) :
  es_wf s → touches [key] s (snd (StringStore.Append now key v s)).
Proof. intros Hw. unfold StringStore.Append. by_primitives. Qed.

Lemma GetSet_touches now1 now2 key v (s : KVStore) :
  es_wf s → touches [key] s (snd (StringStore.GetSet now1 now2 key v s)).
Proof. intros Hw. unfold StringStore.GetSet. by_primitives. Qed.

Lemma Set_touches now1 now2 now3 key v ttl nx xx (s : KVStore) :
  es_wf s → touches [key] s (snd (StringStore.Set_ now1 now2 now3 key v ttl nx xx s)).
Proof. intros Hw. unfold StringStore.Set_. by_primitives. Qed.

(** Splits on the name tests and guards of a group of handlers; each leaf is a
    read, an error or a store operation of a writer. *)
Ltac by_name :=
  repeat match goal with
  | |- context [if ?b then _ else _] => let E := fresh "E" in destruct b eqn:E
  end.

Ltac writer :=
  match goal with
  | E : bool_decide (Normalized ?cmd = _) = true |- Normalized ?cmd ∈ _ =>
      apply bool_decide_eq_true in E; rewrite E; apply (bool_decide_unpack _); vm_compute; exact I
  end.

Ltac acts_leaf :=
  intros [= <-]; unfold acts, usage, reply; cbn [snd];
  first [ by left | left; apply same_respond
        | right; split; [writer|intros Hw; rewrite kv_store_op; (apply modify_touches || apply SetBit_touches); done] ].

Definition hash_writers : list string := ["HSET"; "HMSET"; "HDEL"; "HINCRBY"].
Definition list_writers : list string := ["LPUSH"; "RPUSH"; "LPOP"; "RPOP"].
Definition set_writers : list string := ["SADD"; "SREM"; "SPOP"].
Definition zset_writers : list string := ["ZADD"; "ZREM"; "ZINCRBY"].
Definition other_writers : list string := ["SETBIT"; "XADD"].

Lemma hash_acts now cmd x a : dispatch_hash now cmd x = Some a → acts hash_writers cmd x a.
Proof.
  unfold dispatch_hash. cbv zeta. destruct (bool_decide (Normalized cmd = "HSET"%string)) eqn:E0; cbn [orb];
  by_name; try done; acts_leaf.
Qed.

Lemma list_acts now cmd x a : dispatch_list now cmd x = Some a → acts list_writers cmd x a.
Proof. unfold dispatch_list. cbv zeta. by_name; try done; acts_leaf. Qed.

Lemma sets_acts now pick cmd x a : dispatch_sets now pick cmd x = Some a → acts set_writers cmd x a.
Proof. unfold dispatch_sets. cbv zeta. by_name; try done; acts_leaf. Qed.

Lemma zset_acts now cmd x a : dispatch_zset now cmd x = Some a → acts zset_writers cmd x a.
Proof. unfold dispatch_zset. cbv zeta. by_name; try done; acts_leaf. Qed.

Lemma bitmap_acts now cmd x a : dispatch_bitmap now cmd x = Some a → acts other_writers cmd x a.
Proof. unfold dispatch_bitmap, bitpos. cbv zeta. by_name; try done; acts_leaf. Qed.

Lemma stream_acts now cmd x a : dispatch_stream now cmd x = Some a → acts other_writers cmd x a.
Proof.
  unfold dispatch_stream, xadd. cbv zeta.
  destruct (ParseXAddArgs (Args cmd)) as [[[[? ?] ?] ?]|?|]; by_name; try done; acts_leaf.
Qed.

(** *** Keys and strings *)
Lemma kv_writeWAL now fault rec x : kv (snd (writeWAL now fault rec x)) = kv x.
Proof.
  unfold writeWAL. destruct (wal x) as [w|]; [|done]. destruct (suppressWAL x); [done|].
  by destruct (wal_Write now fault rec w).
Qed.

Lemma kv_writeWALs now fault recs x : kv (snd (writeWALs now fault recs x)) = kv x.
Proof.
  revert x. induction recs as [|rec recs IH]; intros x; cbn [writeWALs]; [done|].
  pose proof (kv_writeWAL now fault rec x) as Hw.
  destruct (writeWAL now fault rec x) as [[e|] x1]; cbn [snd] in *; [done|]. by rewrite IH.
Qed.

Lemma kv_logged r out : kv (snd (logged r out)) = kv (snd r).
Proof. by destruct r as [[e|] x]. Qed.

Lemma Delete_touches keys (s : KVStore) : es_wf s → touches keys s (snd (Delete keys s)).
Proof.
  intros Hw. destruct (Delete_spec keys s Hw) as (Hw' & _ & Ha). split; [done|].
  intros k Hk. apply (f_equal snd) in Ha. cbn in Ha. cbn. rewrite <- Ha. clear -Hk.
  unfold abs_delete. generalize (view s) 0. induction keys as [|y keys IH]; intros m n; [done|].
  apply not_elem_of_cons in Hk as [Hne Hk]. cbn [foldl].
  destruct (m !! y); rewrite IH by done; [by rewrite lookup_delete_ne|done].
Qed.

(** An operation of the store whose abstract effect is confined to [ks]. *)
Lemma op_touches ks op (s : KVStore) :
  (∀ m v k, k ∉ ks → (abs_op op (m, v)).2.1 !! k = m !! k) →
  es_wf s → touches ks s (snd (run_op op s)).
Proof.
  intros Hf Hw. destruct (run_op_spec op s Hw) as [Hw' Ha]. split; [done|].
  intros k Hk. apply (f_equal (λ p, p.2.1)) in Ha. cbn in Ha. cbn. rewrite <- Ha. by apply Hf.
Qed.

Lemma Expire_touches n1 n2 key sec (s : KVStore) : es_wf s → touches [key] s (snd (Expire n1 n2 key sec s)).
Proof.
  intros Hw. pose proof (op_touches [key] (OExpire n1 n2 key sec) s) as H. cbn in H.
  destruct (Expire n1 n2 key sec s) as [b s']. apply H; [|done]. intros m v k [Hk _]%not_elem_of_cons.
  destruct (live n1 (m !! key)); [|done].
  case_if; cbn; [by rewrite lookup_delete_ne by done|by rewrite lookup_insert_ne by done].
Qed.

Lemma Persist_touches now key (s : KVStore) : es_wf s → touches [key] s (snd (Persist now key s)).
Proof.
  intros Hw. pose proof (op_touches [key] (OPersist now key) s) as H. cbn in H.
  destruct (Persist now key s) as [b s']. apply H; [|done]. intros m v k [Hk _]%not_elem_of_cons.
  destruct (live now (m !! key)); [|done]. case_if; cbn; [done|by rewrite lookup_insert_ne by done].
Qed.

Lemma Rename_touches n1 n2 n3 key key' (s : KVStore) :
  es_wf s → touches [key; key'] s (snd (Rename n1 n2 n3 key key' s)).
Proof.
  intros Hw. pose proof (op_touches [key; key'] (ORename n1 n2 n3 key key') s) as H. cbn [run_op] in H.
  destruct (Rename n1 n2 n3 key key' s) as [b s']. apply H; [|done].
  intros m v k [Hne [Hne' _]%not_elem_of_cons]%not_elem_of_cons. cbn.
  destruct (live n1 (m !! key)); [|done].
  repeat case_if; cbn; by rewrite ?lookup_insert_ne, lookup_delete_ne by done.
Qed.

(** MSET touches the keys at the even positions. *)
Lemma mset_pairs_keys n args acc k :
  (length args ≤ n)%nat → is_Some (mset_pairs args acc !! k) → k ∈ even_args args ∨ is_Some (acc !! k).
Proof.
  revert args acc. induction n as [|n IH]; intros [|a [|b args]] acc Hn; cbn in *; auto; try lia.
  intros [Hin|Hi]%IH; [left; by right| |lia].
  apply lookup_insert_is_Some' in Hi as [<-|?]; [left; by left|by right].
Qed.

Lemma MSet_touches now pairs ks (s0 s : KVStore) :
  (∀ k v, (k, v) ∈ pairs → k ∈ ks) → touches ks s0 s → touches ks s0 (StringStore.MSet now pairs s).
Proof.
  unfold StringStore.MSet. revert s. induction pairs as [|[k v] pairs IH]; intros s Hin Ht; [done|].
  cbn [foldl]. apply IH; [intros ? v' ?; apply (Hin _ v'); by right|].
  apply touches_set; [apply (Hin k v); by left|done].
Qed.

Lemma mset_touches now args (s : KVStore) :
  es_wf s → touches (even_args args) s (StringStore.MSet now (map_to_list (mset_pairs args ∅)) s).
Proof.
  intros Hw. apply MSet_touches; [|by apply touches_refl].
  intros k v Hin%elem_of_map_to_list.
  destruct (mset_pairs_keys (length args) args ∅ k) as [?|[? [=]]]; [lia|eauto|done].
Qed.

(** The keys a handler of these groups may touch. *)
Definition write_keys (cmd : Command) : list string :=
  if bool_decide (Normalized cmd = "DEL"%string) then map to_str (Args cmd)
  else if bool_decide (Normalized cmd = "MSET"%string) then even_args (Args cmd)
  else if bool_decide (Normalized cmd = "RENAME"%string) then [Arg cmd 0; Arg cmd 1]
  else [Arg cmd 0].

Definition key_writers : list string := ["DEL"; "EXPIRE"; "PERSIST"; "RENAME"].
Definition string_writers : list string :=
  ["SET"; "SETEX"; "MSET"; "INCR"; "DECR"; "INCRBY"; "DECRBY"; "APPEND"; "SETNX"; "GETSET"].

(** The projections of an answer's store through the logging wrappers. *)
Create Rewrite HintDb kvs.
#[local] Hint Rewrite @kv_respond kv_logged kv_writeWAL kv_writeWALs : kvs.

(** Decides the comparisons of literal names. *)
Ltac literals :=
  repeat match goal with
  | |- context [bool_decide (?a = ?b :> string)] =>
      let v := eval vm_compute in (bool_decide (a = b :> string)) in
      change (bool_decide (a = b :> string)) with v; cbv iota
  end.

(** A leaf of a writer that logs after one store operation, whose effect [t]
    establishes from the well-formedness [Hw]. *)
Ltac keys_leaf t :=
  right; split; [writer|];
  match goal with E : bool_decide (Normalized _ = _) = true |- _ =>
    apply bool_decide_eq_true in E; unfold write_keys; rewrite E end;
  literals; let Hw := fresh "Hw" in intros Hw; t Hw.

Lemma keys_acts now fault cmd x a :
  dispatch_keys now fault cmd x = Some a → acts_on (write_keys cmd) key_writers cmd x a.
Proof.
  unfold dispatch_keys, acts_on. cbv zeta. intros Ha.
  repeat match type of Ha with context [if bool_decide ?P then _ else _] => destruct (bool_decide P) eqn:? end;
    try done; injection Ha as <-.
  - case_match; [by left|]. keys_leaf ltac:(fun Hw =>
      pose proof (Delete_touches (map to_str (Args cmd)) (kv x) Hw) as Ht;
      destruct (Delete _ _) as [n s]; cbn [snd] in Ht; autorewrite with kvs; case_match;
      by autorewrite with kvs).
  - case_match; by left.
  - case_match; [by left|]. destruct (ParseInt_ok _) as [sec|]; [|by left]. keys_leaf ltac:(fun Hw =>
      pose proof (Expire_touches now now (Arg cmd 0) sec (kv x) Hw) as Ht;
      destruct (Expire _ _ _ _ _) as [[] s]; by autorewrite with kvs).
  - case_match; by left.
  - keys_leaf ltac:(fun Hw =>
      pose proof (Persist_touches now (Arg cmd 0) (kv x) Hw) as Ht; by destruct (Persist _ _ _) as [[] s]).
  - by left.
  - case_match; [by left|]. keys_leaf ltac:(fun Hw =>
      pose proof (Rename_touches now now now (Arg cmd 0) (Arg cmd 1) (kv x) Hw) as Ht;
      destruct (Rename _ _ _ _ _ _) as [r s]; by autorewrite with kvs).
  - by left.
  - by left.
Qed.

Lemma set_acts now fault cmd x :
  bool_decide (Normalized cmd = "SET"%string) = true →
  acts_on (write_keys cmd) string_writers cmd x (dispatch_set now fault cmd x).
Proof.
  intros E. unfold dispatch_set, acts_on. case_match; [by left|]. cbv zeta.
  destruct (if NumArgs cmd =? 2 then _ else _) as [a|e|]; [|by left..].
  keys_leaf ltac:(fun Hw =>
    pose proof (Set_touches now now now (Arg cmd 0) (StringStore.sa_value a) (StringStore.sa_ttlSec a)
                  (StringStore.sa_nx a) (StringStore.sa_xx a) (kv x) Hw) as Ht;
    destruct (StringStore.Set_ _ _ _ _ _ _ _ _ _) as [[] s]; cbn [negb]; by autorewrite with kvs).
Qed.

Lemma kv_incr now key n x : kv (snd (incr_answer now key n x)) = snd (StringStore.Incr now key n (kv x)).
Proof. unfold incr_answer. destruct (StringStore.Incr _ _ _ _) as [r s]. by rewrite kv_respond. Qed.

Lemma strings_acts now fault cmd x a :
  dispatch_strings now fault cmd x = Some a → acts_on (write_keys cmd) string_writers cmd x a.
Proof.
  unfold dispatch_strings. cbv zeta. intros Ha.
  repeat match type of Ha with context [if bool_decide ?P then _ else _] => destruct (bool_decide P) eqn:? end;
    try done; injection Ha as <-; try (by apply set_acts); unfold acts_on.
  all: try (by left); try (left; case_match; [done|apply same_respond]); try (left; apply same_respond).
  all: try (keys_leaf ltac:(fun Hw => rewrite kv_incr; by apply Incr_touches)).
  - case_match; [by left|]. destruct (ParseInt_ok _) as [sec|]; [|by left]. case_match; [by left|].
    keys_leaf ltac:(fun Hw => autorewrite with kvs;
      exact (Set_touches now now now (Arg cmd 0) (ArgBytes cmd 2) sec false false (kv x) Hw)).
  - case_match; [by left|].
    keys_leaf ltac:(fun Hw => autorewrite with kvs; by apply mset_touches).
  - case_match; [by left|]. case_match; [|by left]. keys_leaf ltac:(fun Hw => rewrite kv_incr; by apply Incr_touches).
  - case_match; [by left|]. case_match; [|by left]. keys_leaf ltac:(fun Hw => rewrite kv_incr; by apply Incr_touches).
  - case_match; [by left|]. keys_leaf ltac:(fun Hw =>
      pose proof (Append_touches now (Arg cmd 0) (ArgBytes cmd 1) (kv x) Hw) as Ht;
      destruct (StringStore.Append _ _ _ _) as [r s]; by autorewrite with kvs).
  - case_match; [by left|]. keys_leaf ltac:(fun Hw =>
      pose proof (Set_touches now now now (Arg cmd 0) (ArgBytes cmd 1) 0 true false (kv x) Hw) as Ht;
      by destruct (StringStore.Set_ _ _ _ _ _ _ _ _ _) as [[] s]).
  - keys_leaf ltac:(fun Hw =>
      pose proof (GetSet_touches now now (Arg cmd 0) (ArgBytes cmd 1) (kv x) Hw) as Ht;
      destruct (StringStore.GetSet _ _ _ _ _) as [r s]; by autorewrite with kvs).
Qed.

(** *** The other groups *)
Definition flush_names : list string := ["FLUSHDB"; "FLUSHALL"].

Lemma server_acts now clientID cmd x a :
  dispatch_server now clientID cmd x = Some a → same_data x (snd a) ∨ Normalized cmd ∈ flush_names.
Proof.
  unfold dispatch_server. cbv zeta. intros Ha.
  destruct (bool_decide (Normalized cmd = "FLUSHDB"%string)) eqn:E1;
    [right; writer|destruct (bool_decide (Normalized cmd = "FLUSHALL"%string)) eqn:E2; [right; writer|left]].
  cbn [orb] in Ha. repeat case_match; by simplify_eq/=.
Qed.

Lemma pubsub_acts cmd x a : dispatch_pubsub cmd x = Some a → same_data x (snd a).
Proof.
  unfold dispatch_pubsub, publish. cbv zeta. intros Ha. repeat case_match; by simplify_eq/=.
Qed.

Definition misc_writers : list string := ["JSON.DEL"].

Lemma misc_acts now cmd x a : dispatch_misc now cmd x = Some a → acts misc_writers cmd x a.
Proof.
  unfold dispatch_misc, acts, acts_on. cbv zeta. intros Ha.
  destruct (bool_decide (Normalized cmd = "JSON.DEL"%string)) eqn:E.
  - rewrite (bool_decide_eq_false_2 (_ = "OBJECT"%string)) in Ha
      by (apply bool_decide_eq_true in E; by rewrite E).
    apply (inj Some) in Ha as <-. unfold json_del. case_match; [by left|]. right. split; [writer|].
    intros Hw. by apply (Delete_touches [Arg cmd 0]).
  - left. unfold object_cmd, dbx_mvcc, dbx_snapshot, dbx_keyspace in Ha. cbv zeta in Ha.
    repeat match type of Ha with context [if ?b then _ else _] => destruct b end;
      first [apply (inj Some) in Ha; rewrite <- Ha; split; reflexivity|discriminate Ha].
Qed.

(** Outside EXEC the transaction commands keep the store. *)
Lemma tx_acts exec clientID cmd x a :
  Normalized cmd ≠ "EXEC"%string → dispatch_tx exec clientID cmd x = Some a → same_data x (snd a).
Proof.
  unfold dispatch_tx. cbv zeta. intros Hne Ha. rewrite (bool_decide_eq_false_2 (_ = "EXEC"%string)) in Ha by done.
  repeat case_match; by simplify_eq/=.
Qed.

(** *** All groups *)
Definition registered_writers : list string :=
  key_writers ++ string_writers ++ hash_writers ++ list_writers ++ set_writers ++ zset_writers ++ other_writers.
Definition all_writers : list string := registered_writers ++ misc_writers.

(** Every writer outside DEL, MSET and RENAME works on its first argument. *)
Lemma write_keys_first cmd : Normalized cmd ∉ ["DEL"; "MSET"; "RENAME"] → write_keys cmd = [Arg cmd 0].
Proof.
  rewrite !not_elem_of_cons. intros (H1 & H2 & H3 & _). unfold write_keys.
  by rewrite !bool_decide_eq_false_2 by done.
Qed.

Lemma acts_lift ws cmd x a :
  bool_decide (Forall (λ w, w ∈ all_writers ∧ w ∉ ["DEL"; "MSET"; "RENAME"]) ws) = true →
  acts ws cmd x a → acts_on (write_keys cmd) all_writers cmd x a.
Proof.
  intros HF%bool_decide_eq_true [?|[Hin Ht]]; [by left|right].
  rewrite Forall_forall in HF. destruct (HF _ Hin) as [Ha Hn]. split; [done|].
  by rewrite write_keys_first.
Qed.

Lemma acts_on_mono ks ws ws' cmd x a :
  bool_decide (ws ⊆ ws') = true → acts_on ks ws cmd x a → acts_on ks ws' cmd x a.
Proof. intros Hs%bool_decide_eq_true [?|[Hin Ht]]; [by left|right; auto]. Qed.

Section Frames.
Variable others : Z → Z → Command → Executor → answer.
Variable pick : nat → nat.

Lemma typed_acts now clientID cmd x :
  Normalized cmd ∉ other_names →
  acts_on (write_keys cmd) all_writers cmd x (dispatch_typed others pick now clientID cmd x).
Proof.
  intros Hno. unfold dispatch_typed. cbn [first_some].
  destruct (dispatch_hash now cmd x) eqn:E; [apply (acts_lift hash_writers); [done|by eapply hash_acts]|clear E].
  destruct (dispatch_list now cmd x) eqn:E; [apply (acts_lift list_writers); [done|by eapply list_acts]|clear E].
  destruct (dispatch_sets now pick cmd x) eqn:E; [apply (acts_lift set_writers); [done|by eapply sets_acts]|clear E].
  destruct (dispatch_zset now cmd x) eqn:E; [apply (acts_lift zset_writers); [done|by eapply zset_acts]|clear E].
  destruct (dispatch_bitmap now cmd x) eqn:E;
    [apply (acts_lift other_writers); [done|by eapply bitmap_acts]|clear E].
  destruct (dispatch_stream now cmd x) eqn:E;
    [apply (acts_lift other_writers); [done|by eapply stream_acts]|clear E].
  destruct (dispatch_pubsub cmd x) eqn:E; [left; by eapply pubsub_acts|clear E].
  destruct (dispatch_misc now cmd x) eqn:E; [apply (acts_lift misc_writers); [done|by eapply misc_acts]|clear E].
  rewrite bool_decide_eq_false_2 by done. by left.
Qed.

(** Commands whose whole effect is described by their own arguments. *)
Definition plain (cmd : Command) : Prop := Normalized cmd ∉ "EXEC"%string :: flush_names ++ other_names.

Lemma dispatch_acts fuel now fault clientID cmd x :
  plain cmd → acts_on (write_keys cmd) all_writers cmd x (dispatch_all others pick fuel now fault clientID cmd x).
Proof.
  intros [He [Hf Ho]%not_elem_of_app]%not_elem_of_cons. unfold dispatch_all.
  destruct fuel as [|fuel]; cbn [Dispatch].
  all: destruct (dispatch_server now clientID cmd x) eqn:E;
    [destruct (server_acts _ _ _ _ _ E); [by left|done]|clear E].
  all: destruct (dispatch_keys now fault cmd x) eqn:E;
    [eapply (acts_on_mono _ key_writers); [done|by eapply keys_acts]|clear E].
  all: destruct (dispatch_strings now fault cmd x) eqn:E;
    [eapply (acts_on_mono _ string_writers); [done|by eapply strings_acts]|clear E].
  - by apply typed_acts.
  - destruct (dispatch_tx _ clientID cmd x) eqn:E; [left; by eapply tx_acts|by apply typed_acts].
Qed.

(** What the registry knows of the writers. *)
Lemma writers_registered w info :
  w ∈ all_writers → Lookup w = Some info → KeyIndex info = 1 ∧ ReadOnly info = false.
Proof.
  assert (HF : forallb (λ w, match Lookup w with
      | Some i => (KeyIndex i =? 1) && negb (ReadOnly i) | None => true end) all_writers = true)
    by (vm_compute; reflexivity).
  rewrite forallb_forall in HF. intros Hw Hl. specialize (HF w). rewrite Hl in HF.
  apply andb_prop in HF as [Hk Hr]; [|by apply list_elem_of_In]. split; [lia|by destruct (ReadOnly info)].
Qed.

Lemma first_affected cmd info k :
  Lookup (Normalized cmd) = Some info → KeyIndex info = 1 → k ≠ ""%string → k = Arg cmd 0 → k ∈ registry_key cmd.
Proof.
  intros Hl Hi Hk ->. unfold registry_key. rewrite Hl, Hi. unfold Arg in *.
  case_match; [|done].
  replace ((1 <=? 0) || (1 >? zlen (Args cmd))) with false by lia.
  cbn [Z.sub]. replace (1 - 1) with 0 by lia. rewrite H. by left.
Qed.

(** The keys a registered writer touches are named, up to the empty key. *)
Lemma write_keys_affected cmd info k :
  Normalized cmd ∈ all_writers → Lookup (Normalized cmd) = Some info → k ≠ ""%string →
  k ∈ write_keys cmd → k ∈ AffectedKeys cmd.
Proof.
  intros Hw Hl Hk. destruct (writers_registered _ _ Hw Hl) as [Hi _].
  pose proof (first_affected cmd info k Hl Hi Hk) as Hfirst.
  unfold AffectedKeys, write_keys. cbv zeta.
  destruct (decide (Normalized cmd = "DEL"%string)) as [->|Hd]; [done|].
  rewrite (bool_decide_eq_false_2 (Normalized cmd ∈ _)), (bool_decide_eq_false_2 (_ = "DEL"%string)).
  2: done.
  2: { rewrite !elem_of_cons. intros [?|[E|[E|[]%not_elem_of_nil]]]; [done|..]; rewrite E in Hw;
       by apply (bool_decide_pack _) in Hw. }
  destruct (bool_decide (Normalized cmd = "MSET"%string)); [done|].
  destruct (bool_decide (Normalized cmd = "RENAME"%string)); cbn [andb].
  - intros Hin. case_match; [done|].
    apply elem_of_cons in Hin as [?|[->|[]%not_elem_of_nil]%elem_of_cons]; [auto|].
    unfold NumArgs in *. unfold Arg in Hk. case_match; [lia|done].
  - intros [?|[]%not_elem_of_nil]%elem_of_cons; auto.
Qed.

(** C15: a registered command outside EXEC, the flushes and
    the vector, geo and JSON groups changes the entry of no key that
    [AffectedKeys] does not name, whatever its arguments, and keeps the store
    well formed; so access control and locking by [AffectedKeys] cover the
    command. The empty key is the exception, see
    [nullary_command_hits_empty_key]. *)
Theorem affected_keys_sound fuel now fault clientID cmd x info k :
  es_wf (kv x) → Lookup (Normalized cmd) = Some info → plain cmd →
  k ∉ AffectedKeys cmd → k ≠ ""%string →
  let x' := snd (dispatch_all others pick fuel now fault clientID cmd x) in
  es_wf (kv x') ∧ es_view (kv x') !! k = es_view (kv x) !! k.
Proof.
  intros Hw Hl Hp Hk Hne. cbv zeta.
  destruct (dispatch_acts fuel now fault clientID cmd x Hp) as [[-> _]|[Hin Ht]]; [done|].
  destruct (Ht Hw) as [Hw' Hf]. split; [done|]. apply Hf. intros Hk'.
  by apply Hk, (write_keys_affected cmd info k).
Qed.

Lemma recovered_same x a : same_data x (snd a) → same_data x (snd (recovered a)).
Proof. by destruct a as [[out []] y]. Qed.

Lemma accounted_same now vecMemory fault clientID cmd p pr x info :
  Lookup (Normalized cmd) = Some info → ReadOnly info = true → plain cmd →
  same_data x (snd (recovered (dispatch_accounted (dispatch_typed others pick) now vecMemory fault clientID cmd
                             false p pr x))).
Proof.
  intros Hl Hr Hp. apply recovered_same. unfold dispatch_accounted.
  pose proof (dispatch_acts 2 now fault clientID cmd x Hp) as Ha. unfold dispatch_all in Ha.
  destruct (Dispatch _ _ _ _ _ _ _) as [[out st] y]. cbn [snd] in Ha.
  destruct Ha as [?|[Hin _]]; [by destruct st|].
  destruct (writers_registered _ _ Hin Hl) as [_ Hr']. congruence.
Qed.

(** C16: on a read-only replica no command of a client other than
    INFO, DBX.TENANT and the GEO, JSON and vector commands ([other_names]) changes
    the store or the log, whatever its arguments: writes, transactions and flushes
    are refused or stay queued, unknown commands are refused, and what remains only
    reads. The commands left out are not covered by it: a vector search of a closed
    index, for one, puts the entry of the key into the store. *)
Theorem replica_unchanged now vecMemory fault clientID cmd x :
  readOnly x = true → Normalized cmd ∉ other_names →
  same_data x (snd (execute_all others pick now vecMemory fault clientID cmd x)).
Proof.
  intros Hro Ho. unfold execute_all, Execute. case_match; [done|].
  destruct (Lookup (Normalized cmd)) as [info|] eqn:Hl; [|done]. case_match; [done|]. rewrite Hro. cbn [andb].
  destruct (ReadOnly info) eqn:Hr; cbn [negb]; [|done]. rewrite andb_false_r.
  assert (Hp : plain cmd); [|destruct (wal x); by eapply accounted_same].
  assert (Hm : LookupMustReadOnly (Normalized cmd) = true) by (unfold LookupMustReadOnly; by rewrite Hl).
  unfold plain. rewrite not_elem_of_cons, not_elem_of_app. split; [|split; [|done]].
  - intros E. rewrite E in Hm. by vm_compute in Hm.
  - intros [E|[E|[]%not_elem_of_nil]%elem_of_cons]%elem_of_cons; rewrite E in Hm; by vm_compute in Hm.
Qed.
End Frames.

(** Two hash fields are written while the others of the store stay; a replica
    answers a read and refuses the write. *)
Definition no_others : Z → Z → Command → Executor → answer := fun _ _ _ x => reply [] x.
Definition demo (name : string) (args : list string) : Command := {| Name := name; Args := map to_slice args |}.
Definition demo_store : Executor :=
  snd (dispatch_all no_others id 2 5 None 1 (demo "RPUSH" ["l"; "a"; "b"]) (NewExecutor (New 4) None)).
Definition as_replica (x : Executor) : Executor :=
  {| kv := kv x; multi := multi x; watch := watch x; mvcc := mvcc x; wal := wal x;
     suppressWAL := suppressWAL x; maxMemory := maxMemory x; accountedMemory := accountedMemory x;
     readOnly := true; pubsub := pubsub x |}.

Lemma demo_store_wf : es_wf (kv demo_store).
Proof.
  destruct (dispatch_acts no_others id 2 5 None 1 (demo "RPUSH" ["l"; "a"; "b"]) (NewExecutor (New 4) None))
    as [[E _]|[_ Ht]]; [by apply (bool_decide_unpack _)| |].
  - unfold demo_store. rewrite E. apply New_wf.
  - apply Ht, New_wf.
Qed.

Lemma affected_keys_sound_witness :
  let x' := snd (dispatch_all no_others id 2 6 None 1 (demo "HSET" ["h"; "f"; "1"; "g"; "2"]) demo_store) in
  es_wf (kv x') ∧ es_view (kv x') !! "l"%string = es_view (kv demo_store) !! "l"%string ∧
  is_Some (es_view (kv x') !! "h"%string).
Proof.
  destruct (affected_keys_sound no_others id 2 6 None 1 (demo "HSET" ["h"; "f"; "1"; "g"; "2"]) demo_store
    (snd (info "HSET" (-4) false false 1 false)) "l" demo_store_wf) as [Hw Hl].
  - vm_compute. reflexivity.
  - by apply (bool_decide_unpack _).
  - apply (bool_decide_unpack _). vm_compute. exact I.
  - done.
  - split; [exact Hw|]. split; [exact Hl|]. vm_compute. by eexists.
Defined.

Lemma replica_unchanged_witness :
  let r := execute_all no_others id 7 0 None 1 (demo "LPOP" ["l"]) (as_replica demo_store) in
  same_data demo_store (snd r) ∧ fst r = (WriteError "READONLY replica does not accept writes", Done).
Proof.
  split; [|vm_compute; reflexivity].
  refine (replica_unchanged no_others id 7 0 None 1 (demo "LPOP" ["l"]) (as_replica demo_store) eq_refl _).
  apply (bool_decide_unpack _). vm_compute. exact I.
Defined.

(** ** Divergences between the registry, [AffectedKeys] and [Dispatch] *)

(** A writer sent without arguments works on the empty key, which
    [AffectedKeys] does not name. *)
Lemma nullary_command_hits_empty_key :
  AffectedKeys (demo "INCR" []) = [] ∧
  es_view (kv (snd (execute_all no_others id 5 0 None 1 (demo "INCR" []) (NewExecutor (New 4) None)))) !! ""%string
    ≠ None.
Proof. split; [by vm_compute|]. intros H. apply (f_equal (from_option (λ _, true) false)) in H. by vm_compute in H. Qed.

(** Registered commands that [Dispatch] has no case for. *)
Definition undispatched : list string :=
  ["SETRANGE"; "LSET"; "LREM"; "LTRIM"; "SINTER"; "SUNION"; "SDIFF"; "SRANDMEMBER"; "ZREVRANK"; "ZREVRANGE";
   "ZRANGEBYSCORE"; "ZCOUNT"; "XREAD"; "XGROUP"; "XREADGROUP"; "XACK"; "GEORADIUS"; "GEOSEARCH"; "PSUBSCRIBE"].

Lemma undispatched_unknown :
  Forall (λ n, is_Some (Lookup n) ∧
    ∀ others now args x, dispatch_all others id 2 now None 1 {| Name := n; Args := args |} x =
      reply (WriteErrorRaw ("ERR unknown command '" ++ n ++ "'")) x) undispatched.
Proof.
  unfold undispatched.
  repeat (apply Forall_cons; split; [split; [vm_compute; by eexists|intros; reflexivity]|]). by apply Forall_nil.
Qed.

(** Commands with a case of [Dispatch] and no entry in the registry: refused
    when sent directly, run when queued, with no keys to check. *)
Lemma unregistered_runs_in_multi :
  let x := snd (dispatch_all no_others id 2 5 None 1 (demo "SET" ["k"; "v"]) (NewExecutor (New 4) None)) in
  let run := foldl (λ x c, snd (execute_all no_others id 6 0 None 1 c x)) x in
  let held y := bool_decide (is_Some (es_view (kv y) !! "k"%string)) in
  Lookup "JSON.DEL" = None ∧ AffectedKeys (demo "JSON.DEL" ["k"]) = [] ∧
  held (run [demo "JSON.DEL" ["k"]]) = true ∧
  held (run [demo "MULTI" []; demo "JSON.DEL" ["k"]; demo "EXEC" []]) = false.
Proof. cbv zeta. conjs; by vm_compute. Qed.

(** UNSUBSCRIBE leaves the subscription made by SUBSCRIBE in place. *)
Lemma unsubscribe_keeps_subscription :
  let run := foldl (λ x c, snd (execute_all no_others id 6 0 None 1 c x)) (NewExecutor (New 4) None) in
  pubsub (run [demo "SUBSCRIBE" ["c"]; demo "UNSUBSCRIBE" ["c"]]) = pubsub (run [demo "SUBSCRIBE" ["c"]]) ∧
  fst (execute_all no_others id 6 0 None 2 (demo "PUBLISH" ["c"; "m"])
         (run [demo "SUBSCRIBE" ["c"]; demo "UNSUBSCRIBE" ["c"]])) = (WriteInteger 1, Done).
Proof. cbv zeta. split; by vm_compute. Qed.
