(* ===== verification/Durability.v ===== *)
(** * Durability: what recovery rebuilds from the log

    A durable command logs its effects before it runs. The effects a command
    prepares, replayed at a later instant, take a store that stands for the
    store before the command to one that stands for the store after it
    ([Recovery.sim]); so a whole history of commands is recovered. *)

From S2P Require Import Prelude GoStd Types KV Reaper RESP Commands WAL Log Transaction VectorPayload Recovery Executor.
From S2P Require StringStore.

(** ** Histories of effects *)
Section Mutations.
Context {V : Type} `{VectorStore V}.

(** Replaying [effects] at [t] follows the change of the live map from [m] to [m1]. *)
Definition follows (t : Z) (m m1 : gmap string Entry) (effects : list WALEffect) : Prop :=
  ∀ seq s, kv_wf s → sim t m (view s) →
  ∃ s1, replay_effects t seq effects (s, @None V) = Ok (s1, None) ∧ kv_wf s1 ∧ sim t m1 (view s1).

Lemma follows_nil t m m1 : (∀ k, slive t (m1 !! k) = slive t (m !! k)) → follows t m m1 [].
Proof.
  intros Hk seq s Hwf Hs. exists s. split; [done|]. split; [done|].
  intros k. specialize (Hs k). unfold opt_sim in *. by rewrite Hk.
Qed.

Lemma follows_app t m m1 m2 e1 e2 :
  follows t m m1 e1 → follows t m1 m2 e2 → follows t m m2 (e1 ++ e2).
Proof.
  intros H1 H2 seq s Hwf Hs. destruct (H1 seq s Hwf Hs) as (s1 & Hr1 & Hwf1 & Hs1).
  destruct (H2 seq s1 Hwf1 Hs1) as (s2 & Hr2 & Hwf2 & Hs2). exists s2. split; [|done].
  clear -Hr1 Hr2. revert Hr1. generalize (s, @None V). induction e1 as [|e e1 IH]; cbn [app replay_effects].
  - intros st [= ->]. done.
  - intros st. destruct (applyRecoveredEffect t t t seq e st); cbn [rbind]; [apply IH|done..].
Qed.

Lemma follows_one t m m1 e :
  (∀ seq s, kv_wf s → sim t m (view s) →
   ∃ s1, applyRecoveredEffect t t t seq e (s, @None V) = Ok (s1, None) ∧ kv_wf s1 ∧ sim t m1 (view s1)) →
  follows t m m1 [e].
Proof.
  intros He seq s Hwf Hs. destruct (He seq s Hwf Hs) as (s1 & Hr & Hrest). exists s1.
  cbn [replay_effects]. rewrite Hr. done.
Qed.

Lemma follows_put t m m1 key v exp e :
  clock_ok t → 0 ≤ exp ≤ MaxInt64 → leaves key (Some e) m m1 → string_is e (contents v) exp →
  follows t m m1 [put key v exp].
Proof.
  intros Ht Hx Hl He. apply follows_one. intros seq s Hwf Hs.
  destruct (replay_put t seq key v exp s Hwf Ht Hx) as (s1 & o & Hr & Hwf1 & Hl1 & Ho).
  exists s1. split; [done|]. split; [done|]. by eapply sim_leaves; [..|apply Ho].
Qed.

Lemma follows_del t m m1 key o :
  leaves key o m m1 → slive t o = None → follows t m m1 [del key].
Proof.
  intros Hl Ho. apply follows_one. intros seq s Hwf Hs.
  destruct (replay_del t seq key s Hwf) as (s1 & Hr & Hwf1 & Hl1).
  exists s1. split; [done|]. split; [done|]. eapply sim_leaves; [done..|].
  unfold opt_sim. by rewrite Ho.
Qed.

Lemma follows_expire t m m1 key exp e0 b d e :
  clock_ok t → 0 ≤ exp ≤ MaxInt64 → m !! key = Some e0 → string_is e0 b d → 0 ≤ d ≤ MaxInt64 →
  ¬ (0 < d ≤ t) → leaves key (Some e) m m1 → string_is e b exp → follows t m m1 [expire key exp].
Proof.
  intros Ht Hx Hm He0 Hd Hlive Hl He. apply follows_one. intros seq s Hwf Hs.
  pose proof (Hs key) as Hk. unfold opt_sim in Hk.
  rewrite Hm, slive_alive in Hk by (destruct He0 as (_ & _ & ->); done).
  destruct (slive t (view s !! key)) as [e'|] eqn:E; [|done].
  destruct (view s !! key) as [e1|] eqn:E1; [|done].
  assert (e1 = e' ∧ ¬ (0 < ExpiresAt e1 ≤ t)) as [-> Hl'].
  { cbn in E. destruct (_ && _) eqn:Eb; [done|]. injection E as ->. split; [done|].
    apply andb_false_iff in Eb as [Eb|Eb]; bool_to_prop; lia. }
  destruct Hk as (b' & x & x' & Hx1 & Hx2 & ? & ? & _ & _).
  assert (b' = b) as ->.
  { destruct Hx1 as (_ & (v & Hv & <-) & _), He0 as (_ & (v' & Hv' & <-) & _). congruence. }
  assert (ExpiresAt e' = x') as Hxe by (by destruct Hx2 as (_ & _ & ?)). rewrite Hxe in Hl'.
  destruct (replay_expire t seq key exp b x' s e' Hwf Ht Hx E1 Hx2) as (s1 & o & Hr & Hwf1 & Hl1 & Ho);
    [lia|done|]. exists s1. split; [done|]. split; [done|]. by eapply sim_leaves; [..|apply Ho].
Qed.

Lemma follows_expire_past t m m1 key exp :
  clock_ok t → 0 < exp ≤ t → leaves key None m m1 → follows t m m1 [expire key exp].
Proof.
  intros Ht Hx Hl. apply follows_one. intros seq s Hwf Hs.
  destruct (replay_del t seq key s Hwf) as (s1 & Hr & Hwf1 & Hl1).
  exists s1. split; [|split; [done|]; by eapply sim_leaves]. rewrite <- Hr. unfold applyRecoveredEffect.
  cbn [expire del we_Type we_Key we_Value we_ExpiresAt].
  rewrite !(bool_decide_eq_false_2 (RecordExpire = _)) by done.
  rewrite (bool_decide_eq_true_2 (RecordExpire = RecordExpire)) by done.
  rewrite (proj2 (Z.leb_gt exp 0)), i64_id, (proj2 (Z.leb_le (exp - t) 0))
    by (unfold clock_ok, in_i64, MinInt64, MaxInt64, second in *; lia). done.
Qed.

End Mutations.

(** ** The stores of the durable profile hold strings *)
Definition entry_ok (e : Entry) : Prop :=
  ∃ b, string_is e b (ExpiresAt e) ∧ 0 ≤ ExpiresAt e ≤ MaxInt64.
Definition strings_ok (m : gmap string Entry) : Prop := map_Forall (fun _ e => entry_ok e) m.

Lemma entry_ok_intro e b exp : string_is e b exp → 0 ≤ exp ≤ MaxInt64 → entry_ok e.
Proof. intros (H1 & H2 & H3) Hx. exists b. unfold string_is. by rewrite H3. Qed.

Lemma strings_leaves m m1 key o :
  strings_ok m → leaves key o m m1 → (∀ e, o = Some e → entry_ok e) → strings_ok m1.
Proof.
  intros Hm [Hk Ho] He k e Hke. destruct (decide (k = key)) as [->|Hne]; [apply He; congruence|].
  rewrite Ho in Hke by done. by eapply Hm.
Qed.

(** The visible string of a key. *)
Lemma visible now s key :
  kv_wf s → strings_ok (view s) →
  (live now (view s !! key) = None ∧ stringState now s key = (None, 0, false, true)) ∨
  (∃ e v, live now (view s !! key) = Some e ∧ view s !! key = Some e ∧ EType e = TypeString ∧
     Value e = VBytes v ∧ string_is e (contents v) (ExpiresAt e) ∧ 0 ≤ ExpiresAt e ≤ MaxInt64 ∧
     stringState now s key = (scopy v, ExpiresAt e, true, true)).
Proof.
  intros Hwf Hs. unfold stringState. rewrite Get_view by done.
  destruct (live now (view s !! key)) as [e|] eqn:E; [|by left]. right.
  pose proof E as [Hv _]%live_Some. destruct (Hs _ _ Hv) as (b & (Ht & (v & Hb & Hc) & _) & Hx).
  exists e, v. rewrite Ht, Hb, bool_decide_eq_true_2 by done. cbn [negb]. conjs; try done; try lia.
  split; [done|]. by split; [exists v|].
Qed.

Lemma live_slive t now o :
  0 ≤ now ≤ t → (∀ e, o = Some e → entry_ok e) → live now o = None → slive t o = None.
Proof.
  intros Ht Ho Hl. destruct o as [e|]; [|done]. destruct (Ho e eq_refl) as (b & _ & Hx).
  cbn in Hl. unfold IsExpired in Hl. destruct (ExpiresAt e =? 0) eqn:E0; [done|].
  destruct (now >? ExpiresAt e) eqn:E1; [|done]. bool_to_prop. apply slive_dead. lia.
Qed.

Lemma alter_live_slive t now key (m : gmap string Entry) k :
  0 ≤ now ≤ t → strings_ok m → slive t (partial_alter (live now) key m !! k) = slive t (m !! k).
Proof.
  intros Ht Hm. destruct (decide (k = key)) as [->|Hk]; [|by rewrite lookup_partial_alter_ne].
  rewrite lookup_partial_alter_eq. destruct (live now (m !! key)) as [e|] eqn:E.
  - by apply live_Some in E as [-> _].
  - symmetry. apply (live_slive t now); [done| |done]. intros e He. by eapply Hm.
Qed.

(** ** The operations of the string store *)
Lemma put_wf key e (s : KVStore) : kv_wf s → kv_wf (es_put key e s).
Proof. intros Hwf. by apply putEntry_spec. Qed.
Lemma put_view key e (s : KVStore) : kv_wf s → view (es_put key e s) = <[key := e]> (view s).
Proof. intros Hwf. by apply putEntry_spec. Qed.

Lemma Set_leaves now key v t ttl s :
  kv_wf s →
  kv_wf (KV.Set_ now key (VBytes v) t ttl s) ∧
  ∃ e, leaves key (Some e) (view s) (view (KV.Set_ now key (VBytes v) t ttl s)) ∧
    EType e = t ∧ Value e = VBytes v ∧ ExpiresAt e = if ttl >? 0 then i64 (now + ttl) else 0.
Proof.
  intros Hwf. destruct (Set_spec now key (VBytes v) t ttl s Hwf) as [H1 H2]. split; [done|].
  rewrite H2. eexists. split; [apply leaves_insert|]. done.
Qed.

Lemma leaves_put_live now key e (m : gmap string Entry) :
  leaves key (Some e) m (<[key := e]> (partial_alter (live now) key m)).
Proof. rewrite insert_live. apply leaves_insert. Qed.

(** INCR on a string store: the prepared value is the stored one. *)
Lemma Incr_leaves now key by_ s :
  kv_wf s → strings_ok (view s) → in_i64 by_ →
  let s1 := snd (StringStore.Incr now key by_ s) in
  let '(v, exp, exists_, _) := stringState now s key in
  kv_wf s1 ∧
  match (if exists_ then ParseInt_ok (to_str v) else Some 0) with
  | None => view s1 = view s
  | Some n => ∃ e, leaves key (Some e) (view s) (view s1) ∧
      string_is e (bytes_of (FormatInt (i64 (n + by_)))) exp ∧ 0 ≤ exp ≤ MaxInt64
  end.
Proof.
  intros Hwf Hs Hby s1. subst s1. unfold StringStore.Incr.
  destruct (@es_write_eq KVStore KVStore_EntryStore KVStore_EntryStoreLaws now key s Hwf) as (s0 & -> & Hwf0 & Hv0).
  destruct (@es_nextVersion_eq KVStore KVStore_EntryStore KVStore_EntryStoreLaws s0 Hwf0) as (s2 & Hver & Hwf2 & Hv2).
  change (es_view s !! key) with (view s !! key).
  destruct (visible now s key Hwf Hs) as [[Hl ->]|(e & v & Hl & Hv & Ht & Hb & He & Hx & ->)]; rewrite Hl.
  - rewrite Hver. cbn [snd]. split; [by apply put_wf|].
    change (es_view ?x) with (view x) in Hv0, Hv2. rewrite put_view, Hv2, Hv0 by done.
    eexists. split; [apply leaves_put_live|]. rewrite Z.add_0_l, (i64_id by_) by done.
    split; [|by unfold MaxInt64]. split; [done|]. split; [|done]. by eexists.
  - rewrite Ht, Hb, bool_decide_eq_true_2 by done. cbn [negb].
    change (to_str (scopy v)) with (str_of (contents (scopy v))). rewrite contents_scopy.
    change (str_of (contents v)) with (to_str v).
    destruct (ParseInt_ok (to_str v)) as [n|].
    + rewrite Hver. cbn [snd]. split; [by apply put_wf|].
      change (es_view ?x) with (view x) in Hv0, Hv2. rewrite put_view, Hv2, Hv0 by done.
      eexists. split; [apply leaves_put_live|]. split; [|done]. split; [done|]. split; [|done]. by eexists.
    + cbn [snd]. split; [done|]. change (view s0) with (es_view s0). rewrite Hv0. by eapply live_alter_live.
Qed.

Lemma Append_leaves now key a s :
  kv_wf s → strings_ok (view s) →
  let s1 := snd (StringStore.Append now key a s) in
  let '(v, exp, _, _) := stringState now s key in
  kv_wf s1 ∧ ∃ e, leaves key (Some e) (view s) (view s1) ∧
    string_is e (contents (sappend v (contents a))) exp ∧ 0 ≤ exp ≤ MaxInt64.
Proof.
  intros Hwf Hs s1. subst s1. unfold StringStore.Append.
  destruct (@es_write_eq KVStore KVStore_EntryStore KVStore_EntryStoreLaws now key s Hwf) as (s0 & -> & Hwf0 & Hv0).
  change (es_view s !! key) with (view s !! key).
  destruct (visible now s key Hwf Hs) as [[Hl ->]|(e & v & Hl & Hv & Ht & Hb & He & Hx & ->)]; rewrite Hl.
  - cbn [snd]. split; [by apply put_wf|]. change (es_view ?x) with (view x) in Hv0.
    rewrite put_view, Hv0 by done. eexists. split; [apply leaves_put_live|].
    split; [|by unfold MaxInt64]. split; [done|]. split; [|done]. exists a. split; [done|].
    by rewrite contents_sappend.
  - rewrite Ht, Hb, bool_decide_eq_true_2 by done. cbn [negb snd].
    split; [by apply put_wf|]. change (es_view ?x) with (view x) in Hv0.
    rewrite put_view, Hv0 by done. eexists. split; [apply leaves_put_live|]. split; [|done].
    split; [done|]. split; [|done]. eexists. split; [done|].
    by rewrite !contents_sappend, contents_scopy.
Qed.

(** MSET: every key of the pairs holds its value, without a deadline. *)
Lemma MSet_view now pairs s :
  kv_wf s → NoDup (fst <$> pairs) →
  let s1 := StringStore.MSet now pairs s in
  kv_wf s1 ∧
  (∀ k v, (k, v) ∈ pairs → ∃ e, view s1 !! k = Some e ∧ string_is e (contents v) 0) ∧
  (∀ k, k ∉ fst <$> pairs → view s1 !! k = view s !! k).
Proof.
  revert s. induction pairs as [|[k v] pairs IH]; intros s Hwf Hnd s1.
  { split; [done|]. split; [|done]. by intros k v ?%elem_of_nil. }
  rewrite fmap_cons in Hnd. cbn [fst] in Hnd. apply NoDup_cons in Hnd as [Hk Hnd].
  destruct (Set_leaves now k v TypeString 0 s Hwf) as (Hwf1 & e & [Hek Hother] & He1 & He2 & He3).
  destruct (IH _ Hwf1 Hnd) as (H1 & H2 & H3). split; [exact H1|]. split.
  - intros k' v' [[= -> ->]|Hin]%elem_of_cons; [|by apply H2].
    exists e. split; [|by split; [|split; [exists v|]]].
    transitivity (view (KV.Set_ now k (VBytes v) TypeString 0 s) !! k); [by apply H3|done].
  - intros k'. rewrite fmap_cons, not_elem_of_cons. cbn [fst]. intros [Hne Hk'].
    rewrite <- (Hother k' Hne). by apply H3.
Qed.

Lemma Delete_view keys s :
  kv_wf s →
  kv_wf (snd (Delete keys s)) ∧
  ∀ k, view (snd (Delete keys s)) !! k = if bool_decide (k ∈ keys) then None else view s !! k.
Proof.
  intros Hwf. destruct (Delete_spec keys s Hwf) as (H1 & _ & H3). split; [done|].
  apply (f_equal snd) in H3. cbn [snd] in H3. rewrite <- H3. clear.
  unfold abs_delete. generalize 0, (view s). induction keys as [|key keys IH]; intros n m k; cbn [foldl].
  { by rewrite bool_decide_eq_false_2 by apply not_elem_of_nil. }
  assert (Hm : snd (foldl (fun '(n, m) k => match m !! k with Some _ => (n + 1, delete k m) | None => (n, m) end)
    match m !! key with Some _ => (n + 1, delete key m) | None => (n, m) end keys) !! k
    = if bool_decide (k ∈ keys) then None else delete key m !! k).
  { destruct (m !! key) eqn:E; rewrite IH; [done|]. by rewrite delete_id. }
  rewrite Hm. destruct (decide (k ∈ keys)) as [Hk|Hk].
  { rewrite !bool_decide_eq_true_2; [done|by right|done]. }
  rewrite (bool_decide_eq_false_2 (k ∈ keys)) by done. destruct (decide (k = key)) as [->|Hne].
  - by rewrite lookup_delete_eq, bool_decide_eq_true_2 by left.
  - by rewrite lookup_delete_ne, bool_decide_eq_false_2 by (try apply not_elem_of_cons; done).
Qed.

Section Loops.
Context {V : Type} `{VectorStore V}.
Local Abbreviation follows := (follows (V := V)).

Lemma follows_dels t m m1 keys :
  (∀ k, k ∈ keys → slive t (m1 !! k) = None) →
  (∀ k, k ∉ keys → slive t (m1 !! k) = slive t (m !! k)) →
  follows t m m1 (map del keys).
Proof.
  revert m. induction keys as [|key keys IH]; intros m Hin Hout; cbn [map].
  { apply follows_nil. intros k. apply Hout, not_elem_of_nil. }
  apply (follows_app t m (delete key m) m1 [del key]).
  - by eapply follows_del; [apply leaves_delete|].
  - apply IH; intros k Hk; [apply Hin; by right|]. destruct (decide (k = key)) as [->|Hne].
    + rewrite lookup_delete_eq. apply Hin. left.
    + rewrite lookup_delete_ne by done. apply Hout. by apply not_elem_of_cons.
Qed.

Lemma mset_pairs_None args acc k : mset_pairs args acc !! k = None → acc !! k = None.
Proof.
  revert acc. induction args as [args IH] using (induction_ltof1 _ length). intros acc.
  destruct args as [|a [|b args]]; [done..|]. cbn [mset_pairs]. intros Hn.
  apply IH in Hn; [|unfold ltof; cbn; lia]. by apply lookup_insert_None in Hn as [? _].
Qed.

Lemma follows_mset t args acc m m1 :
  clock_ok t →
  (∀ k v, acc !! k = Some v → ∃ e, m !! k = Some e ∧ string_is e (contents v) 0) →
  (∀ k, match mset_pairs args acc !! k with
        | Some v => ∃ e, m1 !! k = Some e ∧ string_is e (contents v) 0
        | None => m1 !! k = m !! k
        end) →
  follows t m m1 (mset_effects args).
Proof.
  intros Ht. revert acc m. induction args as [args IH] using (induction_ltof1 _ length).
  intros acc m Hacc Hm1.
  assert (Hnil : mset_pairs args acc = acc → follows t m m1 []).
  { intros Hp seq s Hwf Hs. exists s. split; [done|]. split; [done|]. intros k.
    specialize (Hs k). specialize (Hm1 k). rewrite Hp in Hm1.
    destruct (acc !! k) as [v|] eqn:Ek; [|by rewrite Hm1].
    destruct Hm1 as (e1 & -> & He1), (Hacc _ _ Ek) as (e & He & He2). rewrite He in Hs.
    unfold opt_sim in *. rewrite slive_alive in Hs |- *
      by (destruct He1 as (_ & _ & ?), He2 as (_ & _ & ?); lia).
    destruct (slive t (view s !! k)) as [e'|]; [|done].
    destruct Hs as (b & x & x' & H1 & H2 & Hrest). exists b, x, x'. split; [|by split].
    destruct H1 as (? & (v1 & Hv1 & <-) & <-), He1 as (? & (v2 & Hv2 & Hc2) & Hx2),
      He2 as (? & (v3 & Hv3 & Hc3) & Hx3). split; [done|]. split; [|congruence].
    exists v2. split; [done|]. congruence. }
  destruct args as [|a [|b args]]; [by apply Hnil..|]. cbn [mset_effects].
  set (e := mkEntry (VBytes b) TypeString). set (key := to_str a).
  assert (He : string_is e (contents b) 0) by (by split; [|split; [exists b|]]).
  apply (follows_app t m (<[key := e]> m) m1 [put key (scopy b) 0]).
  - eapply follows_put; [done|unfold MaxInt64; lia|apply leaves_insert|]. by rewrite contents_scopy.
  - apply (IH args ltac:(unfold ltof; cbn; lia) (<[key := b]> acc)).
    + intros k v [[<- <-]|[Hne Hk]]%lookup_insert_Some.
      * exists e. by rewrite lookup_insert_eq.
      * rewrite lookup_insert_ne by done. by apply Hacc.
    + intros k. specialize (Hm1 k). cbn [mset_pairs] in Hm1. fold key in Hm1.
      destruct (mset_pairs args (<[key:=b]> acc) !! k) eqn:E; [done|].
      apply mset_pairs_None, lookup_insert_None in E as [_ Hne]. by rewrite lookup_insert_ne.
Qed.

End Loops.

(** ** The commands *)

(** Evaluate the tests on the name of the command. *)
Ltac names Hn :=
  cbv zeta; cbn [Dispatch]; unfold dispatch_server, dispatch_keys, dispatch_strings; cbv zeta;
  rewrite ?Hn;
  repeat match goal with
  | |- context [bool_decide (?a = ?b :> string)] =>
      let r := eval vm_compute in (bool_decide (a = b :> string)) in
      match r with
      | true => change (bool_decide (a = b)) with true
      | false => change (bool_decide (a = b)) with false
      end
  end; cbn [orb]; cbv iota.

Section Commands.
Context {V : Type} `{VectorStore V}.
Variable rest : Z → Z → Command → Executor → answer.
Variables (t now : Z) (fault : option wal_fault) (clientID : Z).
Hypothesis clk : clock_ok t.
Hypothesis now_t : 0 ≤ now ≤ t.

Local Abbreviation follows := (follows (V := V)).
Local Abbreviation run cmd x := (Dispatch rest 2 now fault clientID cmd x).

(** A key is not dead at the instant of the recovery. *)
Definition alive_at (o : option Entry) : Prop := ∀ e, o = Some e → ¬ (0 < ExpiresAt e ≤ t).

(** What a command must satisfy for its effects to be replayed faithfully. *)
Definition replayable (s : KVStore) (cmd : Command) : Prop :=
  let name := Normalized cmd in
  let key := Arg cmd 0 in
  (name = "SET" → ∀ a, StringStore.ParseSetArgs (drop 1 (Args cmd)) = Ok a →
     now + StringStore.sa_ttlSec a * second ≤ MaxInt64) ∧
  (name = "SETEX" → ∀ n, ParseInt_ok (Arg cmd 1) = Some n → now + n * second ≤ MaxInt64) ∧
  (name = "GETSET" → 2 ≤ NumArgs cmd) ∧
  (name = "EXPIRE" → ∀ n, ParseInt_ok (Arg cmd 1) = Some n →
     0 < now + n * second ≤ MaxInt64 ∧ (0 < n → alive_at (view s !! key))) ∧
  (name = "PERSIST" → alive_at (view s !! key)) ∧
  (name = "RENAME" → key ≠ Arg cmd 1 ∧ ∀ e, view s !! key = Some e → ExpiresAt e ≠ now).

(** What the command did: the new store, the effects, and the log when the
    command does not write to it. *)
Record executes (effects : list WALEffect) (cmd : Command) (x : Executor) (a : answer) : Prop := {
  ex_wf : kv_wf (kv (snd a));
  ex_strings : strings_ok (view (kv (snd a)));
  ex_follows : follows t (view (kv x)) (view (kv (snd a))) effects;
  ex_wal : suppressWAL x = true ∨ effects = [] ∧ Normalized cmd ≠ "DEL" → wal (snd a) = wal x
}.

Lemma executes_none cmd x a :
  kv_wf (kv (snd a)) → strings_ok (view (kv x)) → view (kv (snd a)) = view (kv x) →
  wal (snd a) = wal x → executes [] cmd x a.
Proof.
  intros Hwf Hs Hv Hw. split; [done|by rewrite Hv|rewrite Hv; by apply follows_nil|done].
Qed.

Lemma executes_put cmd x a key v exp e :
  strings_ok (view (kv x)) → kv_wf (kv (snd a)) → 0 ≤ exp ≤ MaxInt64 →
  leaves key (Some e) (view (kv x)) (view (kv (snd a))) → string_is e (contents v) exp →
  (suppressWAL x = true → wal (snd a) = wal x) → executes [put key v exp] cmd x a.
Proof.
  intros Hs Hwf Hx Hl He Hw. split; [done| |by eapply follows_put|by intros [?|[? _]]; auto].
  eapply strings_leaves; [done..|]. intros ? [= <-]. by eapply entry_ok_intro.
Qed.

Lemma reply_kv out x : kv (snd (reply out x)) = kv x.
Proof. done. Qed.

(** The answer of a logged write keeps the store, and the log when suppressed. *)
Lemma writeWAL_frame rec x :
  kv (snd (writeWAL now fault rec x)) = kv x ∧
  suppressWAL (snd (writeWAL now fault rec x)) = suppressWAL x ∧
  (suppressWAL x = true → writeWAL now fault rec x = (None, x)).
Proof.
  unfold writeWAL. destruct (wal x) as [w|]; [|done]. destruct (suppressWAL x) eqn:E; [done|].
  by destruct (wal_Write now fault rec w).
Qed.

Lemma writeWALs_frame recs x :
  kv (snd (writeWALs now fault recs x)) = kv x ∧
  (suppressWAL x = true → writeWALs now fault recs x = (None, x)).
Proof.
  revert x. induction recs as [|rec recs IH]; intros x; cbn [writeWALs]; [done|].
  destruct (writeWAL_frame rec x) as (H1 & H2 & H3).
  destruct (writeWAL now fault rec x) as [[e|] x'] eqn:E; cbn [fst snd] in *.
  - split; [done|]. intros Hs. by specialize (H3 Hs).
  - destruct (IH x') as [H4 H5]. split; [congruence|]. intros Hs. injection (H3 Hs) as ->. by apply H5.
Qed.

Lemma logged_kv r out : kv (snd (logged r out)) = kv (snd r) ∧ wal (snd (logged r out)) = wal (snd r).
Proof. by destruct r as [[e|] x]. Qed.

Lemma respond_kv {A} (r : res error A) ok x :
  kv (snd (respond r ok x)) = kv x ∧ wal (snd (respond r ok x)) = wal x.
Proof. by destruct r. Qed.

Lemma ParseSetArgs_nonneg args a : StringStore.ParseSetArgs args = Ok a → 0 ≤ StringStore.sa_ttlSec a.
Proof.
  destruct args as [|v opts]; [done|]. cbn [StringStore.ParseSetArgs].
  set (a0 := {| StringStore.sa_value := v |}). assert (0 ≤ StringStore.sa_ttlSec a0) as H0 by done.
  clearbody a0. revert a0 H0. induction opts as [opts IH] using (induction_ltof1 _ length). intros a0 H0.
  destruct opts as [|x opts]; cbn [StringStore.parse_set_opts]; [by intros [= <-]|].
  repeat case_bool_decide; try done.
  - destruct opts as [|y opts]; [done|]. destruct (ParseInt_ok _) as [n|]; [|done].
    destruct (n <=? 0) eqn:En; [done|]. bool_to_prop. apply IH; [unfold ltof; cbn; lia|]. cbn. lia.
  - destruct opts as [|y opts]; [done|]. destruct (ParseInt_ok _) as [n|]; [|done].
    destruct (n <=? 0) eqn:En; [done|]. bool_to_prop. apply IH; [unfold ltof; cbn; lia|]. cbn.
    apply Z.quot_pos; lia.
  - apply IH; [unfold ltof; cbn; lia|done].
  - apply IH; [unfold ltof; cbn; lia|done].
Qed.

(** The deadline a prepared command logs is the one it stores. *)
Lemma deadline_agrees n :
  0 ≤ n → now + n * second ≤ MaxInt64 →
  (if i64 (n * 1000000000) >? 0 then i64 (now + i64 (n * 1000000000)) else 0)
  = (if n >? 0 then i64 (now + i64 (n * second)) else 0) ∧
  0 ≤ (if n >? 0 then i64 (now + i64 (n * second)) else 0) ≤ MaxInt64.
Proof.
  unfold second, MaxInt64. intros Hn Hx.
  rewrite (i64_id (n * 1000000000)), i64_id by (unfold in_i64, MinInt64, MaxInt64; lia).
  destruct (n >? 0) eqn:E; bool_to_prop.
  - rewrite Z.gtb_ltb, (proj2 (Z.ltb_lt _ _)) by lia. lia.
  - replace n with 0 by lia. done.
Qed.

Lemma exists_state s key :
  kv_wf s → strings_ok (view s) →
  StringStore.exists_ now key s = (let '(_, _, ex, _) := stringState now s key in ex) ∧
  (let '(_, _, _, valid) := stringState now s key in valid) = true ∧
  Exists_ now key s = (let '(_, _, ex, _) := stringState now s key in ex).
Proof.
  intros Hwf Hs. unfold StringStore.exists_, Exists_. cbn [es_read KVStore_EntryStore].
  change (GetForRead now key s) with (Get now key s). rewrite Get_view by done.
  by destruct (visible now s key Hwf Hs) as [[-> ->]|(e & v & -> & _ & _ & _ & _ & _ & ->)].
Qed.

Lemma set_args cmd :
  2 ≤ NumArgs cmd →
  (if NumArgs cmd =? 2
   then Ok {| StringStore.sa_value := ArgBytes cmd 1; StringStore.sa_ttlSec := 0;
              StringStore.sa_nx := false; StringStore.sa_xx := false |}
   else StringStore.ParseSetArgs (drop 1 (Args cmd))) = StringStore.ParseSetArgs (drop 1 (Args cmd)).
Proof.
  unfold NumArgs, ArgBytes, zlen. destruct (_ =? 2) eqn:E; [|done]. bool_to_prop.
  destruct (Args cmd) as [|a [|b [|c l]]]; cbn in E; try lia. done.
Qed.

(** A store after [StringStore.Set_] without conditions. *)
Lemma set_store key v n x :
  kv_wf (kv x) → 0 ≤ n → now + n * second ≤ MaxInt64 →
  let s1 := es_set now key (VBytes v) TypeString (i64 (n * 1000000000)) (kv x) in
  let exp := if n >? 0 then i64 (now + i64 (n * second)) else 0 in
  kv_wf s1 ∧ 0 ≤ exp ≤ MaxInt64 ∧
  ∃ e, leaves key (Some e) (view (kv x)) (view s1) ∧ string_is e (contents (scopy v)) exp.
Proof.
  intros Hwf Hn Hx s1 exp. destruct (deadline_agrees n Hn Hx) as [Hd Hr].
  destruct (Set_leaves now key v TypeString (i64 (n * 1000000000)) (kv x) Hwf) as (H1 & e & Hl & Ht & Hv & He).
  split; [exact H1|]. split; [done|]. exists e. split; [exact Hl|]. split; [done|].
  split; [exists v; by rewrite contents_scopy|]. unfold exp. by rewrite He, Hd.
Qed.

(** A set followed by the write of its record, unless that is suppressed. *)
Lemma executes_logged_set cmd x key v n rec out :
  kv_wf (kv x) → strings_ok (view (kv x)) → 0 ≤ n → now + n * second ≤ MaxInt64 →
  executes [put key (scopy v) (if n >? 0 then i64 (now + i64 (n * second)) else 0)] cmd x
    (logged (writeWAL now fault rec
       (set_kv x (es_set now key (VBytes v) TypeString (i64 (n * 1000000000)) (kv x)))) out).
Proof.
  intros Hwf Hs Hn Hx. destruct (set_store key v n x Hwf Hn Hx) as (Hwf1 & Hr & e & Hl & He).
  set (x1 := set_kv x _). destruct (logged_kv (writeWAL now fault rec x1) out) as [Hk Hw].
  destruct (writeWAL_frame rec x1) as (H1 & _ & H3).
  eapply executes_put; rewrite ?Hk, ?Hw, ?H1; [done|done|done|exact Hl|exact He|].
  intros Hsup. by rewrite (H3 Hsup).
Qed.

(** A set that writes no record of its own. *)
Lemma executes_set cmd x a key v :
  kv_wf (kv x) → strings_ok (view (kv x)) →
  kv (snd a) = es_set now key (VBytes v) TypeString 0 (kv x) → wal (snd a) = wal x →
  executes [put key (scopy v) 0] cmd x a.
Proof.
  intros Hwf Hs Hk Hw.
  destruct (Set_leaves now key v TypeString 0 (kv x) Hwf) as (H1 & e & Hl & Ht & Hv & He).
  eapply executes_put; rewrite ?Hk; [done|exact H1|by unfold MaxInt64|exact Hl| |done].
  split; [done|]. split; [exists v; by rewrite contents_scopy|done].
Qed.

Lemma step_SET cmd x :
  Normalized cmd = "SET" → kv_wf (kv x) → strings_ok (view (kv x)) → replayable (kv x) cmd →
  executes (fst (prepareDurableEffects now (kv x) cmd)) cmd x (run cmd x).
Proof.
  intros Hn Hwf Hs (Hset & _). specialize (Hset Hn). unfold prepareDurableEffects. names Hn. cbn [fst].
  unfold dispatch_set. destruct (NumArgs cmd <? 2) eqn:E2; [by apply executes_none|]. bool_to_prop.
  rewrite set_args by done.
  destruct (StringStore.ParseSetArgs (drop 1 (Args cmd))) as [a|e|] eqn:Ep; [|by apply executes_none..].
  specialize (Hset a eq_refl). pose proof (ParseSetArgs_nonneg _ _ Ep) as Httl. unfold StringStore.Set_.
  destruct (exists_state (kv x) (Arg cmd 0) Hwf Hs) as (-> & Hv & _).
  destruct (stringState now (kv x) (Arg cmd 0)) as [[[v0 x0] ex] valid]. subst valid. cbn [negb orb].
  destruct (_ && ex); [by apply executes_none|]. destruct (_ && negb ex); [by apply executes_none|].
  cbn [orb negb].
  by apply executes_logged_set.
Qed.

Lemma step_SETEX cmd x :
  Normalized cmd = "SETEX" → kv_wf (kv x) → strings_ok (view (kv x)) → replayable (kv x) cmd →
  executes (fst (prepareDurableEffects now (kv x) cmd)) cmd x (run cmd x).
Proof.
  intros Hn Hwf Hs (_ & Hset & _). specialize (Hset Hn). unfold prepareDurableEffects. names Hn. cbn [fst].
  destruct (NumArgs cmd <? 3); [by apply executes_none|].
  destruct (ParseInt_ok (Arg cmd 1)) as [n|]; [|by apply executes_none]. specialize (Hset n eq_refl).
  destruct (n <=? 0) eqn:E; [by apply executes_none|]. bool_to_prop. unfold StringStore.Set_. cbn [andb].
  pose proof (executes_logged_set cmd x (Arg cmd 0) (ArgBytes cmd 2) n
    (wal_record RecordSet (Arg cmd 0) (ArgBytes cmd 2) (i64 (n * 1000000))) WriteOK Hwf Hs ltac:(lia) Hset) as He.
  rewrite (proj2 (Z.gtb_gt n 0)) in He by lia. exact He.
Qed.

Lemma step_SETNX cmd x :
  Normalized cmd = "SETNX" → kv_wf (kv x) → strings_ok (view (kv x)) → replayable (kv x) cmd →
  executes (fst (prepareDurableEffects now (kv x) cmd)) cmd x (run cmd x).
Proof.
  intros Hn Hwf Hs _. unfold prepareDurableEffects. names Hn. cbn [fst].
  destruct (NumArgs cmd <? 2); [by apply executes_none|]. unfold StringStore.Set_.
  destruct (exists_state (kv x) (Arg cmd 0) Hwf Hs) as (-> & Hv & _).
  destruct (stringState now (kv x) (Arg cmd 0)) as [[[v0 x0] ex] valid]. subst valid.
  cbn [negb orb andb]. destruct ex; [by apply executes_none|]. by apply executes_set.
Qed.

Lemma get_string s key :
  kv_wf s → strings_ok (view s) → ∃ v, StringStore.Get now key s = Ok v.
Proof.
  intros Hwf Hs. unfold StringStore.Get. cbn [es_read KVStore_EntryStore].
  change (GetForRead now key s) with (Get now key s). rewrite Get_view by done.
  destruct (visible now s key Hwf Hs) as [[-> _]|(e & v & -> & _ & Ht & Hv & _)]; [by eexists|].
  rewrite Ht, Hv, bool_decide_eq_true_2 by done. by eexists.
Qed.

Lemma step_GETSET cmd x :
  Normalized cmd = "GETSET" → kv_wf (kv x) → strings_ok (view (kv x)) → replayable (kv x) cmd →
  executes (fst (prepareDurableEffects now (kv x) cmd)) cmd x (run cmd x).
Proof.
  intros Hn Hwf Hs (_ & _ & Hget & _). specialize (Hget Hn). unfold prepareDurableEffects. names Hn.
  cbn [fst]. rewrite (proj2 (Z.ltb_ge _ _)) by lia.
  destruct (exists_state (kv x) (Arg cmd 0) Hwf Hs) as (_ & Hv & _).
  destruct (stringState now (kv x) (Arg cmd 0)) as [[[v0 x0] ex] valid]. subst valid. cbn [negb].
  unfold StringStore.GetSet. destruct (get_string (kv x) (Arg cmd 0) Hwf Hs) as [v ->].
  by apply executes_set.
Qed.

Lemma step_MSET cmd x :
  Normalized cmd = "MSET" → kv_wf (kv x) → strings_ok (view (kv x)) → replayable (kv x) cmd →
  executes (fst (prepareDurableEffects now (kv x) cmd)) cmd x (run cmd x).
Proof.
  intros Hn Hwf Hs _. unfold prepareDurableEffects. names Hn. cbn [fst].
  destruct (_ || _) eqn:Eu; [by apply executes_none|]. set (pm := mset_pairs (Args cmd) ∅).
  set (x1 := set_kv x _). set (recs := map _ _).
  destruct (logged_kv (writeWALs now fault recs x1) WriteOK) as [Hk Hw].
  destruct (writeWALs_frame recs x1) as [H1 H2]. rewrite H1 in Hk.
  destruct (MSet_view now (map_to_list pm) (kv x) Hwf) as (Hwf1 & Hin & Hout); [apply NoDup_fst_map_to_list|].
  change (StringStore.MSet now (map_to_list pm) (kv x)) with (kv x1) in Hwf1, Hin, Hout.
  assert (Hpm : ∀ k, match pm !! k with
    | Some v => ∃ e, view (kv x1) !! k = Some e ∧ string_is e (contents v) 0
    | None => view (kv x1) !! k = view (kv x) !! k end).
  { intros k. destruct (pm !! k) as [v|] eqn:E; [by apply Hin, elem_of_map_to_list|]. apply Hout.
    intros ([k' v] & -> & Hi)%list_elem_of_fmap. apply elem_of_map_to_list in Hi. cbn in E. congruence. }
  split; rewrite ?Hk; [done|..].
  - intros k e Hke. specialize (Hpm k). destruct (pm !! k) as [v|].
    + destruct Hpm as (e' & He' & Hstr). rewrite Hke in He'. injection He' as <-.
      eapply entry_ok_intro; [done|unfold MaxInt64; lia].
    + rewrite Hpm in Hke. by eapply Hs.
  - apply (follows_mset t (Args cmd) ∅); [done|by intros k v; rewrite lookup_empty|done].
  - rewrite Hw. intros [Hsup|[He _]]; [by rewrite (H2 Hsup)|]. exfalso.
    unfold NumArgs, zlen in Eu. destruct (Args cmd) as [|a [|b l]]; cbn in Eu; try done.
Qed.

Lemma step_DEL cmd x :
  Normalized cmd = "DEL" → kv_wf (kv x) → strings_ok (view (kv x)) → replayable (kv x) cmd →
  executes (fst (prepareDurableEffects now (kv x) cmd)) cmd x (run cmd x).
Proof.
  intros Hn Hwf Hs _. unfold prepareDurableEffects. names Hn. cbn [fst].
  set (keys := map to_str (Args cmd)).
  destruct (NumArgs cmd <? 1) eqn:E1; bool_to_prop.
  { unfold keys, NumArgs, zlen in *. destruct (Args cmd); cbn in *; [by apply executes_none|lia]. }
  destruct (Delete_view keys (kv x) Hwf) as [Hwf1 Hv1]. destruct (Delete keys (kv x)) as [n s1] eqn:Ed.
  cbn [snd] in Hwf1, Hv1. set (x1 := set_kv x s1). set (recs := map _ keys).
  set (r := if n >? 0 then _ else _). destruct (logged_kv r (WriteInteger n)) as [Hk Hw].
  destruct (writeWALs_frame recs x1) as [H1 H2].
  assert (Hr : kv (snd r) = s1) by (unfold r; destruct (n >? 0); [exact H1|done]). rewrite Hr in Hk.
  split; rewrite ?Hk; [done|..].
  - intros k e. rewrite Hv1. case_bool_decide; [done|]. apply Hs.
  - apply follows_dels; intros k Hk'; rewrite Hv1.
    + apply list_elem_of_In, filter_In in Hk' as [Hk' _].
      by rewrite bool_decide_eq_true_2 by (by apply list_elem_of_In).
    + case_bool_decide as Hkk; [|done]. cbn [slive]. symmetry.
      apply (live_slive t now); [done|intros e He; by eapply Hs|].
      rewrite <- Get_view by done. destruct (Get now k (kv x)) as [e|] eqn:Eg; [|done]. exfalso. apply Hk'.
      apply list_elem_of_In, filter_In. split; [by apply list_elem_of_In|]. unfold Exists_. by rewrite Eg.
  - rewrite Hw. intros [Hsup|[_ Hne]]; [|done]. unfold r. destruct (n >? 0); [|done]. by rewrite (H2 Hsup).
Qed.

Lemma executes_leaves cmd x a key o effects :
  strings_ok (view (kv x)) → kv_wf (kv (snd a)) → leaves key o (view (kv x)) (view (kv (snd a))) →
  (∀ e, o = Some e → entry_ok e) → follows t (view (kv x)) (view (kv (snd a))) effects →
  wal (snd a) = wal x ∨ (effects ≠ [] ∧ (suppressWAL x = true → wal (snd a) = wal x)) →
  executes effects cmd x a.
Proof.
  intros Hs Hwf Hl He Hf Hw. split; [done|by eapply strings_leaves|done|].
  intros Hc. destruct Hw as [Hw|[Hne Hw]]; [done|]. destruct Hc as [Hc|[Hc _]]; [by apply Hw|done].
Qed.

Lemma step_EXPIRE cmd x :
  Normalized cmd = "EXPIRE" → kv_wf (kv x) → strings_ok (view (kv x)) → replayable (kv x) cmd →
  executes (fst (prepareDurableEffects now (kv x) cmd)) cmd x (run cmd x).
Proof.
  intros Hn Hwf Hs (_ & _ & _ & Hexp & _). specialize (Hexp Hn). unfold prepareDurableEffects. names Hn.
  cbn [fst]. destruct (NumArgs cmd <? 2); [by apply executes_none|].
  destruct (ParseInt_ok (Arg cmd 1)) as [n|]; [|by apply executes_none].
  destruct (Hexp n eq_refl) as [Hrange Halive]. clear Hexp. set (key := Arg cmd 0) in *.
  destruct (exists_state (kv x) key Hwf Hs) as (_ & _ & ->).
  destruct (Expire_abs now now key n (kv x) Hwf) as [Hwf1 Ha]. cbn [run_op abs_op abs] in Hwf1, Ha.
  destruct (Expire now now key n (kv x)) as [ok s1] eqn:Ex. cbn [fst snd] in Hwf1, Ha.
  destruct (visible now (kv x) key Hwf Hs) as [[Hl ->]|(e & v & Hl & Hv & Ht & Hb & He & Hx & ->)];
    rewrite Hl in Ha; cbn [negb].
  { injection Ha as <- Hv1 _. by apply executes_none; [done..|]. }
  assert (Hi : i64 (now + i64 (n * second)) = now + n * second).
  { unfold second, MaxInt64, clock_ok in *. rewrite (i64_id (n * 1000000000)), i64_id;
      unfold in_i64, MinInt64, MaxInt64, second in *; lia. }
  set (rec := wal_record _ _ _ _). set (x1 := set_kv x s1).
  assert (Hcase : ok = true →
    executes [expire key (now + n * second)] cmd x (logged (writeWAL now fault rec x1) (WriteInteger 1))).
  2: { rewrite Hi. assert (ok = true) as -> by (destruct (n <=? 0); by injection Ha as <- _ _).
       by apply Hcase. }
  intros _. destruct (logged_kv (writeWAL now fault rec x1) (WriteInteger 1)) as [Hk Hw].
  destruct (writeWAL_frame rec x1) as (H1 & _ & H3). rewrite H1 in Hk. change (kv x1) with s1 in Hk.
  assert (Hwal : suppressWAL x = true → wal (snd (logged (writeWAL now fault rec x1) (WriteInteger 1))) = wal x).
  { intros Hsup. rewrite Hw. by rewrite (H3 Hsup). }
  destruct (n <=? 0) eqn:En; bool_to_prop; injection Ha as _ Hv1 _.
  - assert (Hl1 : leaves key None (view (kv x)) (view s1)) by (rewrite <- Hv1; apply leaves_delete).
    eapply executes_leaves; rewrite ?Hk; [done|done|exact Hl1|done| |by right].
    apply follows_expire_past; [done|unfold second in *; lia|done].
  - rewrite Hi in Hv1. set (e1 := with_deadline e _ _) in Hv1.
    assert (Hl1 : leaves key (Some e1) (view (kv x)) (view s1)) by (rewrite <- Hv1; apply leaves_insert).
    assert (He1 : string_is e1 (contents v) (now + n * second)) by (destruct He as (? & ? & _); by split; [|split]).
    eapply executes_leaves; rewrite ?Hk; [done|done|exact Hl1| | |by right].
    + intros ? [= <-]. eapply entry_ok_intro; [done|unfold second in *; lia].
    + eapply follows_expire; [done|lia|exact Hv|exact He|done| |exact Hl1|done]. by apply Halive; [lia|].
Qed.

Lemma step_PERSIST cmd x :
  Normalized cmd = "PERSIST" → kv_wf (kv x) → strings_ok (view (kv x)) → replayable (kv x) cmd →
  executes (fst (prepareDurableEffects now (kv x) cmd)) cmd x (run cmd x).
Proof.
  intros Hn Hwf Hs (_ & _ & _ & _ & Halive & _). specialize (Halive Hn).
  unfold prepareDurableEffects. names Hn. cbn [fst]. set (key := Arg cmd 0) in *. rewrite Get_view by done.
  destruct (Persist_abs now key (kv x) Hwf) as [Hwf1 Ha]. cbn [run_op abs_op abs] in Hwf1, Ha.
  destruct (Persist now key (kv x)) as [ok s1] eqn:Ex. cbn [fst snd] in Hwf1, Ha.
  destruct (visible now (kv x) key Hwf Hs) as [[Hl _]|(e & v & Hl & Hv & Ht & Hb & He & Hx & _)];
    rewrite Hl in *.
  { injection Ha as <- Hv1 _. by apply executes_none; [done..|]. }
  destruct (ExpiresAt e =? 0) eqn:E0; [injection Ha as <- Hv1 _; by apply executes_none; [done..|]|].
  injection Ha as <- Hv1 _. set (e1 := with_deadline e _ _) in Hv1.
  assert (Hl1 : leaves key (Some e1) (view (kv x)) (view s1)) by (rewrite <- Hv1; apply leaves_insert).
  assert (He1 : string_is e1 (contents v) 0) by (destruct He as (? & ? & _); by split; [|split]).
  eapply executes_leaves; [done|exact Hwf1|exact Hl1| | |by left].
  - intros ? [= <-]. eapply entry_ok_intro; [done|unfold MaxInt64; lia].
  - eapply follows_expire; [done|unfold MaxInt64; lia|exact Hv|exact He|done| |exact Hl1|done]. by apply Halive.
Qed.

Lemma step_APPEND cmd x :
  Normalized cmd = "APPEND" → kv_wf (kv x) → strings_ok (view (kv x)) → replayable (kv x) cmd →
  executes (fst (prepareDurableEffects now (kv x) cmd)) cmd x (run cmd x).
Proof.
  intros Hn Hwf Hs _. unfold prepareDurableEffects. names Hn. cbn [fst].
  destruct (NumArgs cmd <? 2); [by apply executes_none|].
  pose proof (Append_leaves now (Arg cmd 0) (ArgBytes cmd 1) (kv x) Hwf Hs) as Ha.
  destruct (exists_state (kv x) (Arg cmd 0) Hwf Hs) as (_ & Hv & _).
  destruct (stringState now (kv x) (Arg cmd 0)) as [[[v0 x0] ex] valid]. subst valid. cbn [negb].
  destruct (StringStore.Append now (Arg cmd 0) (ArgBytes cmd 1) (kv x)) as [r s1]. cbn [snd] in Ha.
  destruct Ha as (Hwf1 & e & Hl & He & Hx).
  destruct (respond_kv r WriteInteger (set_kv x s1)) as [Hk Hw].
  eapply executes_put; rewrite ?Hk, ?Hw; [done|exact Hwf1|exact Hx|exact Hl|exact He|done].
Qed.

Lemma incr_executes cmd x by_ :
  kv_wf (kv x) → strings_ok (view (kv x)) → in_i64 by_ →
  executes
    (let '(v, expiresAt, exists_, valid) := stringState now (kv x) (Arg cmd 0) in
     match (if exists_ then ParseInt_ok (to_str v) else Some 0) with
     | None => []
     | Some current => [put (Arg cmd 0) (to_slice (FormatInt (i64 (current + by_)))) expiresAt]
     end) cmd x (incr_answer now (Arg cmd 0) by_ x).
Proof.
  intros Hwf Hs Hby. pose proof (Incr_leaves now (Arg cmd 0) by_ (kv x) Hwf Hs Hby) as Hi.
  unfold incr_answer. destruct (StringStore.Incr now (Arg cmd 0) by_ (kv x)) as [r s1]. cbn [snd] in Hi.
  destruct (respond_kv r WriteInteger (set_kv x s1)) as [Hk Hw].
  destruct (stringState now (kv x) (Arg cmd 0)) as [[[v0 x0] ex] valid]. destruct Hi as [Hwf1 Hi].
  destruct (if ex then _ else _) as [n|].
  - destruct Hi as (e & Hl & He & Hx).
    eapply executes_put; rewrite ?Hk, ?Hw; [done|exact Hwf1|exact Hx|exact Hl|exact He|done].
  - by apply executes_none; rewrite ?Hk, ?Hw.
Qed.

Lemma step_INCR cmd x :
  (Normalized cmd = "INCR" ∨ Normalized cmd = "DECR" ∨ Normalized cmd = "INCRBY" ∨
   Normalized cmd = "DECRBY") →
  kv_wf (kv x) → strings_ok (view (kv x)) →
  executes (fst (prepareDurableEffects now (kv x) cmd)) cmd x (run cmd x).
Proof.
  intros Hn Hwf Hs. pose proof (incr_executes cmd x) as Hi.
  destruct (exists_state (kv x) (Arg cmd 0) Hwf Hs) as (_ & Hv & _).
  destruct (stringState now (kv x) (Arg cmd 0)) as [[[v0 x0] ex] valid] eqn:Est. subst valid.
  assert (Hnone : ∀ out, executes [] cmd x (reply out x)) by (intros; by apply executes_none).
  assert (Hempty : (if ex then ParseInt_ok (to_str v0) else Some 0) = None → ∀ by_, in_i64 by_ →
     executes [] cmd x (incr_answer now (Arg cmd 0) by_ x)).
  { intros Ec by_ Hb. specialize (Hi by_ Hwf Hs Hb). by rewrite Ec in Hi. }
  assert (H1 : in_i64 1) by (unfold in_i64, MinInt64, MaxInt64; lia).
  assert (H2 : in_i64 (-1)) by (unfold in_i64, MinInt64, MaxInt64; lia).
  unfold prepareDurableEffects, prepare_incr. destruct Hn as [Hn|[Hn|[Hn|Hn]]]; names Hn; cbn [fst].
  - rewrite Est. cbn [negb]. specialize (Hi 1 Hwf Hs H1). by destruct (if ex then _ else _).
  - rewrite Est. cbn [negb]. specialize (Hi (-1) Hwf Hs H2). by destruct (if ex then _ else _).
  - rewrite Est. cbn [negb]. destruct (NumArgs cmd <? 2) eqn:E2.
    { assert (ParseInt_ok (Arg cmd 1) = None) as ->; [|by destruct (if ex then _ else _)].
      unfold Arg. bool_to_prop. unfold NumArgs in E2. by rewrite (proj2 (Z.ltb_ge _ _)) by lia. }
    destruct (ParseInt_ok (Arg cmd 1)) as [n|] eqn:En; [|by destruct (if ex then _ else _)].
    apply ParseInt_ok_range in En. specialize (Hi n Hwf Hs En). by destruct (if ex then _ else _).
  - rewrite Est. cbn [negb]. destruct (NumArgs cmd <? 2) eqn:E2.
    { assert (ParseInt_ok (Arg cmd 1) = None) as ->; [|by destruct (if ex then _ else _)].
      unfold Arg. bool_to_prop. unfold NumArgs in E2. by rewrite (proj2 (Z.ltb_ge _ _)) by lia. }
    destruct (ParseInt_ok (Arg cmd 1)) as [n|] eqn:En; [|by destruct (if ex then _ else _)].
    cbn [fmap option_fmap option_map]. specialize (Hi (i64 (- n)) Hwf Hs (i64_in _)).
    by destruct (if ex then _ else _).
Qed.

Lemma step_RENAME cmd x :
  Normalized cmd = "RENAME" → kv_wf (kv x) → strings_ok (view (kv x)) → replayable (kv x) cmd →
  executes (fst (prepareDurableEffects now (kv x) cmd)) cmd x (run cmd x).
Proof.
  intros Hn Hwf Hs (_ & _ & _ & _ & _ & Hren). destruct (Hren Hn) as [Hne Hnow].
  unfold prepareDurableEffects. names Hn. cbn [fst]. destruct (NumArgs cmd <? 2); [by apply executes_none|].
  set (key := Arg cmd 0) in *. set (newKey := Arg cmd 1) in *.
  destruct (Rename_abs now now now key newKey (kv x) Hwf) as [Hwf1 Ha]. cbn [run_op abs_op abs] in Hwf1, Ha.
  destruct (Rename now now now key newKey (kv x)) as [r s1] eqn:Er. cbn [fst snd] in Hwf1, Ha.
  destruct (respond_kv r (fun _ => WriteOK) (set_kv x s1)) as [Hk Hw].
  destruct (visible now (kv x) key Hwf Hs) as [[Hl ->]|(e & v & Hl & Hv & Ht & Hb & He & Hx & ->)];
    rewrite Hl in Ha; cbn [negb orb].
  { injection Ha as <- Hv1 _. by apply executes_none; rewrite ?Hk, ?Hw. }
  assert (Hce : closeVectorEntry e = e).
  { unfold closeVectorEntry. by rewrite bool_decide_eq_false_2 by (rewrite Ht; done). }
  rewrite Hce, Ht, Hb in Ha. apply live_Some in Hl as [_ Hlive].
  assert (Hs1 : ∃ e1, string_is e1 (contents v) (ExpiresAt e) ∧
    <[newKey := e1]> (delete key (view (kv x))) = view s1).
  { specialize (Hnow e Hv). unfold IsExpired in Hlive. unfold abs_set in Ha. cbn [fst snd] in Ha.
    destruct (ExpiresAt e >? 0) eqn:E0; bool_to_prop.
    - rewrite (proj2 (Z.eqb_neq _ _)) in Hlive by lia. bool_to_prop.
      unfold clock_ok, MaxInt64, second in *.
      rewrite i64_id, (proj2 (Z.leb_gt _ _)) in Ha by (unfold in_i64, MinInt64, MaxInt64; lia).
      injection Ha as _ Hv1 _. eexists. split; [|exact Hv1]. split; [done|].
      split; [by exists v|]. cbn. rewrite Z.gtb_ltb, (proj2 (Z.ltb_lt _ _)) by lia.
      replace (now + (ExpiresAt e - now)) with (ExpiresAt e) by lia.
      apply i64_id. unfold in_i64, MinInt64, MaxInt64. lia.
    - injection Ha as _ Hv1 _. eexists. split; [|exact Hv1]. split; [done|].
      split; [by exists v|]. cbn. lia. }
  destruct Hs1 as (e1 & He1 & Hv1). split; rewrite ?Hk; change (kv (set_kv x s1)) with s1; [done|..].
  - rewrite <- Hv1. intros k e2 [[<- <-]|[_ Hk2]]%lookup_insert_Some; [by eapply entry_ok_intro|].
    apply lookup_delete_Some in Hk2 as [_ Hk2]. by eapply Hs.
  - apply (follows_app t _ (<[newKey := e1]> (view (kv x))) _ [put newKey (scopy v) (ExpiresAt e)] [del key]).
    + eapply follows_put; [done|done|apply leaves_insert|]. by rewrite contents_scopy.
    + apply (follows_del t _ _ key None); [|done]. rewrite <- Hv1, <- delete_insert_ne by done.
      apply leaves_delete.
  - by rewrite Hw.
Qed.

(** Every prepared command is replayed faithfully. *)
Lemma prepared_executes cmd x effects :
  kv_wf (kv x) → strings_ok (view (kv x)) → replayable (kv x) cmd →
  prepareDurableEffects now (kv x) cmd = (effects, true) → executes effects cmd x (run cmd x).
Proof.
  intros Hwf Hs Hr Hp. assert (He : effects = fst (prepareDurableEffects now (kv x) cmd)) by (by rewrite Hp).
  rewrite He. clear He. unfold prepareDurableEffects in Hp. cbv zeta in Hp.
  destruct (decide (Normalized cmd = "SET")); [by apply step_SET|].
  destruct (decide (Normalized cmd = "SETEX")); [by apply step_SETEX|].
  destruct (decide (Normalized cmd = "SETNX")); [by apply step_SETNX|].
  destruct (decide (Normalized cmd = "GETSET")); [by apply step_GETSET|].
  destruct (decide (Normalized cmd = "MSET")); [by apply step_MSET|].
  destruct (decide (Normalized cmd = "DEL")); [by apply step_DEL|].
  destruct (decide (Normalized cmd = "EXPIRE")); [by apply step_EXPIRE|].
  destruct (decide (Normalized cmd = "PERSIST")); [by apply step_PERSIST|].
  destruct (decide (Normalized cmd = "RENAME")); [by apply step_RENAME|].
  destruct (decide (Normalized cmd = "APPEND")); [by apply step_APPEND|].
  apply step_INCR; [|done..]. destruct (decide (Normalized cmd = "INCR")); [by left|].
  destruct (decide (Normalized cmd = "DECR")); [by right; left|].
  destruct (decide (Normalized cmd = "INCRBY")); [by right; right; left|].
  destruct (decide (Normalized cmd = "DECRBY")); [by right; right; right|].
  by rewrite !(bool_decide_eq_false_2 (Normalized cmd = _)) in Hp by done.
Qed.


End Commands.

(** ** The effects survive the trip through the log unchanged *)
Definition canonical (e : WALEffect) : Prop := reread e = e.

Lemma scopy_scopy v : scopy (scopy v) = scopy v.
Proof. unfold scopy at 1. by rewrite contents_scopy. Qed.
Lemma scopy_sappend v l : scopy (sappend (scopy v) l) = sappend (scopy v) l.
Proof. unfold scopy at 1. rewrite contents_sappend, contents_scopy. destruct v as [[|b v]|], l; done. Qed.

Lemma format_uint_nonempty fuel u acc : fuel ≠ O → format_uint fuel u acc ≠ [].
Proof.
  revert u acc. induction fuel as [|fuel IH]; intros u acc Hf; [done|]. cbn [format_uint].
  destruct (u <? 10); [done|]. destruct fuel; [by cbn|]. by apply IH.
Qed.

Lemma scopy_Format n : scopy (to_slice (FormatInt n)) = to_slice (FormatInt n).
Proof.
  unfold to_slice, FormatInt. rewrite bytes_of_str_of. destruct (n <? 0); [done|].
  match goal with |- context [format_uint ?f ?u ?a] =>
    pose proof (format_uint_nonempty f u a ltac:(done)); by destruct (format_uint f u a) end.
Qed.

Lemma canonical_put key v exp : scopy v = v → canonical (put key v exp).
Proof. intros Hv. unfold canonical, reread, put.
  cbn [we_Type we_Key we_Value we_ExpiresAt]. by rewrite Hv. Qed.

Lemma mset_canonical args : Forall canonical (mset_effects args).
Proof.
  induction args as [args IH] using (induction_ltof1 _ length).
  destruct args as [|a [|b args]]; cbn [mset_effects]; [constructor..|].
  constructor; [apply canonical_put, scopy_scopy|]. apply IH. unfold ltof. cbn. lia.
Qed.

Lemma prepared_canonical now s cmd : Forall canonical (fst (prepareDurableEffects now s cmd)).
Proof.
  assert (Hst : ∀ k, let '(v, _, _, _) := stringState now s k in scopy v = v).
  { intros k. unfold stringState. destruct (Get now k s) as [e|]; [|done].
    destruct (negb _); [done|]. destruct (Value e); try done. apply scopy_scopy. }
  assert (Hst' : ∀ k, let '(v, _, _, _) := stringState now s k in ∃ v0, v = scopy v0).
  { intros k. specialize (Hst k). destruct (stringState now s k) as [[[v ?] ?] ?]. by exists v. }
  assert (Hone : ∀ k v x, scopy v = v → Forall canonical [put k v x]).
  { intros. constructor; [by apply canonical_put|constructor]. }
  unfold prepareDurableEffects, prepare_incr. cbv zeta. pose proof (Hst (Arg cmd 0)) as Hv.
  pose proof (Hst' (Arg cmd 0)) as Hv'.
  destruct (stringState now s (Arg cmd 0)) as [[[v exp] ex] valid].
  repeat match goal with
  | |- Forall canonical (fst (if ?b then _ else _)) => destruct b; cbn [fst]
  | |- Forall canonical (if ?b then _ else _) => destruct b
  | |- Forall canonical (match ?b with _ => _ end) => destruct b
  end; try constructor; try (by apply Hone, scopy_scopy); try (by apply Hone, scopy_Format);
    try (by apply canonical_put, scopy_scopy); try done.
  - apply mset_canonical.
  - apply Forall_forall. by intros e (k & <- & _)%list_elem_of_In%in_map_iff.
  - by apply canonical_put.
  - by repeat constructor.
  - apply canonical_put, scopy_Format.
  - destruct Hv' as [v0 ->]. apply canonical_put, scopy_sappend.
Qed.

(** ** Writing to the log *)
Section Histories.
Context {V : Type} `{VectorStore V}.
Variable rest : Z → Z → Command → Executor → answer.
Variables (t c : Z).
Hypothesis clk : clock_ok t.
Local Abbreviation follows := (follows (V := V)).

(** The records written between two states of the log: replaying them, after a
    checkpoint at [c], follows the change of the live map. *)
Definition logs (w w1 : Wal) (m m1 : gmap string Entry) : Prop :=
  (w_seq w ≤ w_seq w1 ∧ (∀ r, w_unsynced w1 = Some r → w_unsynced w = Some r ∨ c < Sequence r)) ∧
  ∃ new, w_records w1 = w_records w ++ new ∧
    ∀ s, kv_wf s → sim t m (view s) →
    ∃ s1, replay t c new (s, @None V) = Ok (s1, None) ∧ kv_wf s1 ∧ sim t m1 (view s1).

Lemma replay_app new1 new2 (s : rstate (V := V)) :
  replay t c (new1 ++ new2) s = (let? s := replay t c new1 s in replay t c new2 s).
Proof.
  revert s. induction new1 as [|rec new1 IH]; intros s; cbn [app replay]; [done|].
  destruct (_ <=? _); [apply IH|].
  destruct (replay_effects _ _ _ _) as [s1| |]; cbn [rbind]; [apply IH|done..].
Qed.

Lemma logs_trans w w1 w2 m m1 m2 : logs w w1 m m1 → logs w1 w2 m1 m2 → logs w w2 m m2.
Proof.
  intros ([Hle Hu] & new & Hr & Hs) ([Hle' Hu'] & new' & Hr' & Hs').
  split; [split; [lia|naive_solver]|]. exists (new ++ new').
  split; [by rewrite Hr', Hr, app_assoc|]. intros s Hwf Hsim.
  destruct (Hs s Hwf Hsim) as (s1 & H1 & Hwf1 & Hsim1).
  destruct (Hs' s1 Hwf1 Hsim1) as (s2 & H2 & Hwf2 & Hsim2).
  exists s2. split; [|done]. rewrite replay_app, H1. cbn [rbind]. done.
Qed.

Lemma logs_refl w m m1 : (∀ k, slive t (m1 !! k) = slive t (m !! k)) → logs w w m m1.
Proof.
  intros Hk. split; [split; [lia|auto]|]. exists []. split; [by rewrite app_nil_r|]. intros s Hwf Hs.
  exists s. split; [done|]. split; [done|]. intros k. specialize (Hs k). unfold opt_sim in *. by rewrite Hk.
Qed.

(** A write that failed leaves the records; a frame that may survive is new. *)
Lemma logs_refused now f rec w m m1 :
  w_failed w = None → c ≤ w_seq w → 0 ≤ w_seq w → w_seq w + 1 < 2 ^ 64 →
  (∀ k, slive t (m1 !! k) = slive t (m !! k)) →
  logs w (snd (wal_Write now (Some f) rec w)) m m1.
Proof.
  intros Hf Hc H0 Hlt Hk. unfold wal_Write. rewrite Hf, (u64_id (w_seq w + 1)) by lia.
  destruct (logs_refl w m m1 Hk) as (_ & Hnew).
  destruct f; cbn [snd]; (split; [cbn; split; [lia|]|exact Hnew]); [auto..|].
  intros r [= <-]. right. cbn. lia.
Qed.

(** A record that was written carries its effects; a write that failed leaves
    the records. *)
Lemma logs_write now fault rec w m m1 :
  c ≤ w_seq w → 0 ≤ w_seq w → w_seq w + 1 < 2 ^ 64 →
  follows t m m1 (expandEffects (stamp now (w_seq w + 1) rec)) →
  (∀ k, slive t (m1 !! k) = slive t (m !! k)) ∨ fst (wal_Write now fault rec w) = None →
  logs w (snd (wal_Write now fault rec w)) m m1 ∧
  w_seq (snd (wal_Write now fault rec w)) ≤ w_seq w + 1.
Proof.
  intros Hc H0 Hlt Hf Hor. pose proof (λ f Hw, logs_refused now f rec w m m1 Hw Hc H0 Hlt) as Href.
  unfold wal_Write in *. rewrite (u64_id (w_seq w + 1)) in * by lia.
  destruct (w_failed w) as [e|]; cbn [fst snd] in *.
  { destruct Hor as [Hk|]; [|done]. split; [by apply logs_refl|lia]. }
  destruct fault as [f|]; cbn [fst snd] in *.
  { assert (Hk : ∀ k, slive t (m1 !! k) = slive t (m !! k)) by (destruct Hor; [done|by destruct f]).
    specialize (Href f eq_refl Hk). split; [by destruct f|destruct f; cbn; lia]. }
  split; [|cbn; lia]. split; [cbn; split; [lia|auto]|]. eexists. split; [cbn; done|]. intros s Hwf Hs.
  destruct (Hf (w_seq w + 1) s Hwf Hs) as (s1 & Hr & Hrest). exists s1. split; [|done].
  cbn [replay]. change (Sequence (stamp now (w_seq w + 1) rec)) with (w_seq w + 1).
  rewrite (proj2 (Z.leb_gt _ _)) by lia. rewrite Hr. done.
Qed.

Lemma transaction_effects now s effects :
  effects ≠ [] → Forall canonical effects →
  expandEffects (stamp now s (transaction_record effects)) = effects.
Proof.
  intros Hne Hc. unfold expandEffects, stamp, transaction_record. cbn [Effects].
  assert (reread <$> effects = effects) as ->.
  { clear Hne. induction Hc as [|e l He _ IH]; [done|]. rewrite fmap_cons, IH. by rewrite He. }
  by destruct effects.
Qed.

(** The records of DEL for keys that are absent at [t]. *)
Lemma logs_dels now fault keys x w m :
  wal x = Some w → suppressWAL x = false → c ≤ w_seq w → 0 ≤ w_seq w → w_seq w + zlen keys < 2 ^ 64 →
  (∀ k, k ∈ keys → m !! k = None) →
  ∃ w1, wal (snd (writeWALs now fault (map (fun k => wal_record RecordDelete k None 0) keys) x)) = Some w1 ∧
    logs w w1 m m ∧ w_seq w1 ≤ w_seq w + zlen keys.
Proof.
  revert x w. induction keys as [|k keys IH]; intros x w Hw Hs Hc H0 Hlt Hk; cbn [map writeWALs].
  { exists w. split; [done|]. split; [by apply logs_refl|]. unfold zlen. lia. }
  change (zlen (k :: keys)) with (Z.of_nat (S (length keys))) in *.
  assert (Hz : Z.of_nat (S (length keys)) = zlen keys + 1) by (unfold zlen; lia). rewrite Hz in *.
  pose proof (zlen_nonneg keys).
  unfold writeWAL. rewrite Hw, Hs. set (rec := wal_record _ _ _ _).
  destruct (logs_write now fault rec w m m) as [Hl Hq]; [done|done|lia| |by left|].
  { apply (follows_del t m m k None); [|done]. split; [by apply Hk; left|done]. }
  destruct (wal_Write now fault rec w) as [[e|] w1]; cbn [fst snd] in *.
  { exists w1. split; [done|]. split; [done|lia]. }
  destruct (IH (set_wal x (Some w1)) w1) as (w2 & Hw2 & Hl2 & Hq2); try done; try lia.
  { destruct Hl as [[Hle _] _]. lia. }
  { destruct Hl as [[Hle _] _]. lia. }
  { intros k' Hk'. apply Hk. by right. }
  exists w2. split; [done|]. split; [by eapply logs_trans|lia].
Qed.

(** ** Executing a command *)
Definition durable_writes : list string :=
  ["SET"; "SETEX"; "SETNX"; "GETSET"; "MSET"; "DEL"; "EXPIRE"; "PERSIST"; "RENAME"; "INCR"; "INCRBY";
   "DECR"; "DECRBY"; "APPEND"].
Definition plain_reads : list string :=
  ["PING"; "HELLO"; "ECHO"; "QUIT"; "DBSIZE"; "COMMAND"; "EXISTS"; "TTL"; "TYPE"; "KEYS"; "SCAN";
   "GET"; "MGET"; "STRLEN"; "GETRANGE"].

Lemma durable_write_info name :
  name ∈ durable_writes → ∃ info, Lookup name = Some info ∧ DurableV1 info && negb (ReadOnly info) = true.
Proof.
  intros Hn. assert (Hall : forallb (fun n => match Lookup n with
    | Some i => DurableV1 i && negb (ReadOnly i) | None => false end) durable_writes = true) by (by vm_compute).
  rewrite forallb_forall in Hall. specialize (Hall name). rewrite <- list_elem_of_In in Hall.
  specialize (Hall Hn). destruct (Lookup name) as [i|]; [by exists i|done].
Qed.

Lemma prepared_iff now s cmd :
  snd (prepareDurableEffects now s cmd) = bool_decide (Normalized cmd ∈ durable_writes).
Proof.
  unfold prepareDurableEffects. cbv zeta.
  repeat match goal with
  | |- context [bool_decide (Normalized cmd = ?b)] =>
      destruct (bool_decide_reflect (Normalized cmd = b)) as [E|?]; [rewrite E; by vm_compute|]
  end.
  cbn [orb snd]. symmetry. apply bool_decide_eq_false_2. unfold durable_writes.
  rewrite !not_elem_of_cons. conjs; try done. apply not_elem_of_nil.
Qed.

(** The fields a dispatched command may change. *)
Definition keeps (x x1 : Executor) : Prop := suppressWAL x1 = suppressWAL x.

Lemma keeps_set_kv x s : keeps x (set_kv x s).
Proof. done. Qed.

Lemma keeps_logged now fault rec x x1 out :
  keeps x x1 → keeps x (snd (logged (writeWAL now fault rec x1) out)).
Proof.
  unfold keeps. intros Hk. destruct (writeWAL_frame now fault rec x1) as (_ & Hs & _).
  destruct (writeWAL now fault rec x1) as [[e|] x2]; cbn in *; congruence.
Qed.

Lemma keeps_writeWALs now fault recs x : keeps x (snd (writeWALs now fault recs x)).
Proof.
  revert x. induction recs as [|rec recs IH]; intros x; cbn [writeWALs]; [done|].
  destruct (writeWAL_frame now fault rec x) as (_ & Hs & _).
  destruct (writeWAL now fault rec x) as [[e|] x2]; cbn [snd] in *; [done|].
  unfold keeps in *. by rewrite IH.
Qed.

Lemma keeps_loggeds now fault recs x x1 out :
  keeps x x1 → keeps x (snd (logged (writeWALs now fault recs x1) out)).
Proof.
  unfold keeps. intros Hk. pose proof (keeps_writeWALs now fault recs x1) as Hs. unfold keeps in Hs.
  destruct (writeWALs now fault recs x1) as [[e|] x2]; cbn in *; congruence.
Qed.

Lemma keeps_respond {A} (r : res error A) ok x x1 : keeps x x1 → keeps x (snd (respond r ok x1)).
Proof. by destruct r. Qed.

Lemma keeps_incr now key by_ x : keeps x (snd (incr_answer now key by_ x)).
Proof.
  unfold incr_answer. destruct (StringStore.Incr now key by_ (kv x)). by apply keeps_respond.
Qed.


Lemma run_keeps now fault clientID cmd x :
  Normalized cmd ∈ durable_writes → keeps x (snd (Dispatch rest 2 now fault clientID cmd x)).
Proof.
  intros Hn. unfold durable_writes in Hn.
  repeat (apply elem_of_cons in Hn as [Hn|Hn]; [names Hn; unfold dispatch_set;
    repeat case_match; eauto using keeps_set_kv, keeps_logged, keeps_loggeds, keeps_respond, keeps_incr; done|]).
  by apply elem_of_nil in Hn.
Qed.

Lemma reads_frame now fault clientID cmd x :
  Normalized cmd ∈ plain_reads →
  let x1 := snd (Dispatch rest 2 now fault clientID cmd x) in
  kv x1 = kv x ∧ wal x1 = wal x ∧ suppressWAL x1 = suppressWAL x.
Proof.
  intros Hn. unfold plain_reads in Hn.
  repeat (apply elem_of_cons in Hn as [Hn|Hn]; [names Hn; unfold respond; repeat case_match; done|]).
  by apply elem_of_nil in Hn.
Qed.


(** What one executed command does to the store and the log. *)
Definition durable_step (w : Wal) (cmd : Command) (x x1 : Executor) : Prop :=
  kv_wf (kv x1) ∧ strings_ok (view (kv x1)) ∧ suppressWAL x1 = false ∧
  ∃ w1, wal x1 = Some w1 ∧ logs w w1 (view (kv x)) (view (kv x1)) ∧
    w_seq w1 ≤ w_seq w + NumArgs cmd + 1.

Lemma durable_step_same w cmd x x1 :
  kv_wf (kv x) → strings_ok (view (kv x)) → suppressWAL x = false → wal x = Some w →
  kv x1 = kv x → wal x1 = wal x → suppressWAL x1 = suppressWAL x → durable_step w cmd x x1.
Proof.
  intros Hwf Hs Hsup Hw Hk Hw1 Hs1. split; [by rewrite Hk|]. split; [by rewrite Hk|].
  split; [by rewrite Hs1|]. exists w. split; [congruence|]. rewrite Hk.
  split; [by apply logs_refl|]. unfold NumArgs. pose proof (zlen_nonneg (Args cmd)). lia.
Qed.

(** The deferred functions and the accounting keep the store and the log. *)
Lemma accounted_frame now vecMemory fault clientID cmd durable prepared projected x :
  let a := Dispatch rest 2 now fault clientID cmd x in
  let b := recovered (dispatch_accounted rest now vecMemory fault clientID cmd durable prepared projected x) in
  kv (snd b) = kv (snd a) ∧ wal (snd b) = wal (snd a) ∧ suppressWAL (snd b) = suppressWAL (snd a).
Proof.
  cbv zeta. unfold dispatch_accounted. destruct (Dispatch rest 2 now fault clientID cmd x) as [[out []] x1];
    cbn [snd recovered]; [|done..]. by destruct durable.
Qed.

(** The branch of a command that logged its effects. *)
Lemma prepared_step now vecMemory fault clientID cmd x w effects projected :
  0 ≤ now ≤ t → kv_wf (kv x) → strings_ok (view (kv x)) → wal x = Some w →
  c ≤ w_seq w → 0 ≤ w_seq w → w_seq w + NumArgs cmd + 1 < 2 ^ 64 → replayable t now (kv x) cmd →
  prepareDurableEffects now (kv x) cmd = (effects, true) → effects ≠ [] →
  let '(err, w1) := wal_WriteTransaction now fault effects w in
  err = None →
  let b := recovered (dispatch_accounted rest now vecMemory fault clientID cmd true true projected
                        (set_suppress (set_wal x (Some w1)) true)) in
  durable_step w cmd x (set_suppress (snd b) false).
Proof.
  intros Hnow Hwf Hs Hw Hc H0 Hlt Hr Hp Hne.
  assert (Hcan : Forall canonical effects).
  { pose proof (prepared_canonical now (kv x) cmd) as Hc'. by rewrite Hp in Hc'. }
  set (rec := transaction_record effects).
  assert (wal_WriteTransaction now fault effects w = wal_Write now fault rec w) as ->
    by (unfold rec; by destruct effects).
  destruct (wal_Write now fault rec w) as [err w1] eqn:Ew.
  intros -> b. set (xs := set_suppress (set_wal x (Some w1)) true) in *.
  destruct (prepared_executes (V := V) rest t now fault clientID clk Hnow cmd xs effects)
    as [Hwf1 Hs1 Hf Hwal]; [done..|].
  destruct (accounted_frame now vecMemory fault clientID cmd true true projected xs) as (Hk & Hwb & _).
  fold b in Hk, Hwb. pose proof (zlen_nonneg (Args cmd)) as Hz.
  destruct (logs_write now fault rec w (view (kv x)) (view (kv (snd b)))) as [Hl Hq]; [done|done| | | |].
  - unfold NumArgs in Hlt. lia.
  - unfold rec. rewrite transaction_effects by done. rewrite Hk. exact Hf.
  - right. by rewrite Ew.
  - rewrite Ew in Hl, Hq. cbn [snd] in Hl, Hq. split; [cbn; by rewrite Hk|]. split; [cbn; by rewrite Hk|].
    split; [done|]. exists w1. split; [|split; [done|unfold NumArgs; lia]].
    cbn. rewrite Hwb, Hwal by (by left). done.
Qed.

(** The branch of a prepared command without effects. *)
Lemma unprepared_step now vecMemory fault clientID cmd x w projected :
  0 ≤ now ≤ t → kv_wf (kv x) → strings_ok (view (kv x)) → wal x = Some w → suppressWAL x = false →
  c ≤ w_seq w → 0 ≤ w_seq w → w_seq w + NumArgs cmd + 1 < 2 ^ 64 → replayable t now (kv x) cmd →
  prepareDurableEffects now (kv x) cmd = ([], true) →
  let b := recovered (dispatch_accounted rest now vecMemory fault clientID cmd true true projected x) in
  durable_step w cmd x (snd b).
Proof.
  intros Hnow Hwf Hs Hw Hsup Hc H0 Hlt Hr Hp b.
  destruct (prepared_executes (V := V) rest t now fault clientID clk Hnow cmd x [])
    as [Hwf1 Hs1 Hf Hwal]; [done..|].
  destruct (accounted_frame now vecMemory fault clientID cmd true true projected x) as (Hk & Hwb & Hsb).
  fold b in Hk, Hwb, Hsb. split; [by rewrite Hk|]. split; [by rewrite Hk|]. split.
  { rewrite Hsb. rewrite run_keeps; [done|]. apply (bool_decide_unpack _).
    rewrite <- (prepared_iff now (kv x) cmd), Hp. done. }
  assert (Hlogs : logs w w (view (kv x)) (view (kv (snd b)))).
  { split; [split; [lia|auto]|]. exists []. split; [by rewrite app_nil_r|]. intros s Hws Hsim.
    destruct (Hf 0 s Hws Hsim) as (s1 & [= <-] & Hrest). exists s. by rewrite Hk. }
  pose proof (zlen_nonneg (Args cmd)) as Hz. unfold NumArgs in *.
  destruct (decide (Normalized cmd = "DEL")) as [Hn|Hn].
  2: { exists w. rewrite Hwb, Hwal by (by right). split; [done|]. split; [done|lia]. }
  revert Hwb Hk Hlogs. names Hn. set (keys := map to_str (Args cmd)).
  destruct (NumArgs cmd <? 1) eqn:E1.
  { intros Hwb Hk Hlogs. exists w. rewrite Hwb. split; [done|]. split; [done|lia]. }
  destruct (Delete_view keys (kv x) Hwf) as [Hwfd Hvd]. destruct (Delete keys (kv x)) as [n s1].
  cbn [snd] in Hvd. set (x1 := set_kv x s1). destruct (n >? 0).
  2: { intros Hwb Hk Hlogs. exists w. rewrite Hwb. split; [done|]. split; [done|lia]. }
  set (recs := map _ keys). destruct (logged_kv (writeWALs now fault recs x1) (WriteInteger n)) as [Hk1 Hw1].
  intros Hwb Hk Hlogs. rewrite Hw1 in Hwb. rewrite Hk1 in Hk.
  destruct (writeWALs_frame now fault recs x1) as [Hk2 _]. rewrite Hk2 in Hk. change (kv x1) with s1 in Hk.
  destruct (logs_dels now fault keys x1 w (view s1)) as (w1 & Hx1 & Hl1 & Hq1); try done.
  { unfold keys, zlen in *. rewrite length_map. lia. }
  { intros k Hkk. by rewrite Hvd, bool_decide_eq_true_2. }
  exists w1. rewrite Hwb. split; [done|]. rewrite <- Hk in Hl1. split; [by eapply logs_trans|].
  unfold keys, zlen in *. rewrite length_map in Hq1. lia.
Qed.


Lemma execute_step now vecMemory fault clientID cmd x w :
  0 ≤ now ≤ t → kv_wf (kv x) → strings_ok (view (kv x)) → wal x = Some w → suppressWAL x = false →
  c ≤ w_seq w → 0 ≤ w_seq w → w_seq w + NumArgs cmd + 1 < 2 ^ 64 → replayable t now (kv x) cmd →
  Normalized cmd ∈ plain_reads ++ durable_writes →
  durable_step w cmd x (snd (Execute rest now vecMemory fault clientID cmd x)).
Proof.
  intros Hnow Hwf Hs Hw Hsup Hc H0 Hlt Hr Hn.
  assert (Hsame : ∀ x1, kv x1 = kv x → wal x1 = wal x → suppressWAL x1 = suppressWAL x →
    durable_step w cmd x x1) by (intros; by apply durable_step_same).
  assert (Hfail : ∀ e effects w1, wal_WriteTransaction now fault effects w = (Some e, w1) →
    durable_step w cmd x (set_wal x (Some w1))).
  { intros e effects w1 He. split; [done|]. split; [done|]. split; [done|]. exists w1. split; [done|].
    pose proof (zlen_nonneg (Args cmd)). unfold NumArgs in *.
    destruct effects as [|e0 es]; [done|]. cbn [wal_WriteTransaction] in He.
    destruct (w_failed w) eqn:Ef.
    { unfold wal_Write in He. rewrite Ef in He. injection He as <- <-. split; [by apply logs_refl|lia]. }
    destruct fault as [f|]; [|unfold wal_Write in He; by rewrite Ef in He].
    pose proof (logs_refused now f (transaction_record (e0 :: es)) w (view (kv x)) (view (kv x)) Ef Hc H0 ltac:(lia)
      (fun _ => eq_refl)) as Hlog.
    split; [by rewrite He in Hlog|]. unfold wal_Write in He. rewrite Ef, (u64_id (w_seq w + 1)) in He by lia.
    destruct f; injection He as _ <-; cbn; lia. }
  unfold Execute. destruct (_ && negb _); [by apply Hsame|].
  destruct (Lookup (Normalized cmd)) as [info|] eqn:Einfo; [|by apply Hsame].
  destruct (_ && negb _); [by apply Hsame|]. destruct (_ && negb _); [by apply Hsame|]. rewrite Hw.
  pose proof (prepared_iff now (kv x) cmd) as Hpi.
  destruct (decide (Normalized cmd ∈ durable_writes)) as [Hdw|Hdw].
  - rewrite bool_decide_eq_true_2 in Hpi by done.
    destruct (durable_write_info _ Hdw) as (i & Hi & Hd). rewrite Einfo in Hi. injection Hi as <-. rewrite Hd.
    destruct (prepareDurableEffects now (kv x) cmd) as [effects prepared] eqn:Ep. cbn [snd] in Hpi. subst prepared.
    cbn [andb]. case_bool_decide as Hne; cbn [negb]; [subst effects; by apply unprepared_step|].
    destruct (effectsFitQuota now effects x) as [fits projected]. destruct fits; cbn [negb]; [|by apply Hsame].
    pose proof (prepared_step now vecMemory fault clientID cmd x w effects projected Hnow Hwf Hs Hw Hc H0 Hlt
      Hr Ep Hne) as Hstep.
    destruct (wal_WriteTransaction now fault effects w) as [[e|] w1] eqn:Ew; [by eapply Hfail|].
    specialize (Hstep eq_refl). cbv zeta in Hstep.
    destruct (recovered _) as [[out st] x1]. exact Hstep.
  - rewrite bool_decide_eq_false_2 in Hpi by done. apply elem_of_app in Hn as [Hn|Hn]; [|done].
    destruct (reads_frame now fault clientID cmd x Hn) as (Hk & Hwl & Hsp).
    assert (Hread : ∀ d p pr, durable_step w cmd x
      (snd (recovered (dispatch_accounted rest now vecMemory fault clientID cmd d p pr x)))).
    { intros d p pr. destruct (accounted_frame now vecMemory fault clientID cmd d p pr x) as (Hk1 & Hw1 & Hs1).
      apply Hsame; congruence. }
    destruct (DurableV1 info && _); [|apply Hread].
    destruct (prepareDurableEffects now (kv x) cmd) as [effects prepared]. cbn [snd] in Hpi. subst prepared.
    apply Hread.
Qed.

(** ** Histories *)
Inductive history (x0 : Executor) : Executor → Prop :=
| history_nil : history x0 x0
| history_step x w now vecMemory fault clientID cmd :
    history x0 x → wal x = Some w → w_seq w + NumArgs cmd + 1 < 2 ^ 64 → 0 ≤ now ≤ t →
    Normalized cmd ∈ plain_reads ++ durable_writes → replayable t now (kv x) cmd →
    history x0 (snd (Execute rest now vecMemory fault clientID cmd x))
| history_latch x w e :
    (* a sync of the ticker fails *)
    history x0 x → wal x = Some w → history x0 (set_wal x (Some (wal_latch e w))).

Lemma history_logs x0 w0 x :
  kv_wf (kv x0) → strings_ok (view (kv x0)) → wal x0 = Some w0 → suppressWAL x0 = false →
  c ≤ w_seq w0 → 0 ≤ w_seq w0 → history x0 x →
  kv_wf (kv x) ∧ strings_ok (view (kv x)) ∧ suppressWAL x = false ∧
  ∃ w, wal x = Some w ∧ logs w0 w (view (kv x0)) (view (kv x)).
Proof.
  intros Hwf Hs Hw Hsup Hc H0 Hh.
  induction Hh as [|x w now vecMemory fault clientID cmd Hh IH Hwx Hlt Hnow Hn Hr|x w e Hh IH Hwx].
  { split; [done|]. split; [done|]. split; [done|]. exists w0. split; [done|]. by apply logs_refl. }
  2: { destruct IH as (Hwf1 & Hs1 & Hsup1 & w1 & Hw1 & Hl1). rewrite Hwx in Hw1. injection Hw1 as <-.
       do 3 (split; [done|]). exists (wal_latch e w). by split. }
  destruct IH as (Hwf1 & Hs1 & Hsup1 & w1 & Hw1 & Hl1). rewrite Hwx in Hw1. injection Hw1 as <-.
  pose proof Hl1 as [[Hle _] _].
  destruct (execute_step now vecMemory fault clientID cmd x w Hnow Hwf1 Hs1 Hwx Hsup1 ltac:(lia) ltac:(lia)
    Hlt Hr Hn) as (Hwf2 & Hs2 & Hsup2 & w2 & Hw2 & Hl2 & _).
  split; [done|]. split; [done|]. split; [done|]. exists w2. split; [done|]. by eapply logs_trans.
Qed.


(** ** Checkpoints *)

(** The restored store holds exactly the entries of the image that are not dead. *)
Lemma restore_view wires s :
  kv_wf s → NoDup (fst <$> wires) →
  (∀ k we, (k, we) ∈ wires → wire_ExpiresAt we ≤ MaxInt64 ∧ 0 ≤ wire_ExpiresAt we ∧ view s !! k = None) →
  let s1 := foldl (restore_entry t t) s wires in
  kv_wf s1 ∧
  (∀ k we, (k, we) ∈ wires →
     if (wire_ExpiresAt we >? 0) && (wire_ExpiresAt we <=? t) then view s1 !! k = None
     else ∃ e, view s1 !! k = Some e ∧ Value e = wire_Value we ∧ EType e = wire_Type we ∧
               ExpiresAt e = wire_ExpiresAt we) ∧
  (∀ k, k ∉ fst <$> wires → view s1 !! k = view s !! k).
Proof.
  revert s. induction wires as [|[k we] wires IH]; intros s Hwf Hnd Hin; cbn [foldl].
  { split; [done|]. split; [|done]. by intros k we ?%elem_of_nil. }
  rewrite fmap_cons in Hnd. cbn [fst] in Hnd. apply NoDup_cons in Hnd as [Hk Hnd].
  destruct (Hin k we (list_elem_of_here _ _)) as (Hmax & Hmin & Hnone).
  assert (Hone : kv_wf (restore_entry t t s (k, we)) ∧
    (if (wire_ExpiresAt we >? 0) && (wire_ExpiresAt we <=? t) then view (restore_entry t t s (k, we)) !! k = None
     else ∃ e, view (restore_entry t t s (k, we)) !! k = Some e ∧ Value e = wire_Value we ∧
               EType e = wire_Type we ∧ ExpiresAt e = wire_ExpiresAt we) ∧
    (∀ k', k' ≠ k → view (restore_entry t t s (k, we)) !! k' = view s !! k')).
  { unfold clock_ok, second, MaxInt64 in *. cbn [restore_entry].
    destruct (wire_ExpiresAt we >? 0) eqn:E0; bool_to_prop.
    - rewrite i64_id by (unfold in_i64, MinInt64, MaxInt64; lia).
      destruct (wire_ExpiresAt we <=? t) eqn:Et; bool_to_prop; cbn [andb].
      + rewrite (proj2 (Z.leb_le _ _)) by lia. done.
      + rewrite (proj2 (Z.leb_gt _ _)) by lia. destruct (Set_spec t k (wire_Value we) (wire_Type we)
          (wire_ExpiresAt we - t) s Hwf) as [H1 H2]. split; [done|]. rewrite H2. split.
        * rewrite lookup_insert_eq. eexists. split; [done|]. cbn. split; [done|]. split; [done|].
          rewrite Z.gtb_ltb, (proj2 (Z.ltb_lt _ _)) by lia.
          replace (t + (wire_ExpiresAt we - t)) with (wire_ExpiresAt we) by lia.
          apply i64_id. unfold in_i64, MinInt64, MaxInt64. lia.
        * intros k' Hk'. by rewrite lookup_insert_ne.
    - cbn [andb]. destruct (Set_spec t k (wire_Value we) (wire_Type we) 0 s Hwf) as [H1 H2].
      split; [done|]. rewrite H2. split.
      + rewrite lookup_insert_eq. eexists. split; [done|]. cbn. split; [done|]. split; [done|lia].
      + intros k' Hk'. by rewrite lookup_insert_ne. }
  destruct Hone as (Hwf1 & Hval & Hother).
  destruct (IH _ Hwf1 Hnd) as (Hwf2 & Hin2 & Hout2).
  { intros k' we' Hk'. destruct (Hin k' we') as (? & ? & ?); [by right|]. split; [done|]. split; [done|].
    rewrite Hother; [done|]. intros ->. apply Hk, list_elem_of_fmap. by exists (k, we'). }
  split; [done|]. split.
  - intros k' we' [[= -> ->]|Hk']%elem_of_cons; [|by apply Hin2]. rewrite (Hout2 k Hk). done.
  - intros k'. rewrite fmap_cons, not_elem_of_cons. cbn [fst]. intros [Hne Hk']. rewrite Hout2 by done.
    by apply Hother.
Qed.

(** A checkpoint taken at [now0] and restored at [t] stands for the live store. *)
Lemma checkpoint_sim now0 seq n s :
  0 ≤ now0 ≤ t → kv_wf s → strings_ok (view s) →
  ∃ s1, LoadWithHeader t t (SaveCheckpoint now0 seq [] s) (New n)
        = Ok (fst (SaveCheckpoint now0 seq [] s), s1) ∧ kv_wf s1 ∧ sim t (view s) (view s1).
Proof.
  intros Hnow Hwf Hs. unfold SaveCheckpoint, LoadWithHeader. cbn [hdr_Version].
  change (negb (2 =? 2)) with false. cbv iota. eexists. split; [done|].
  rewrite Snapshot_live by done. set (wire := toWireEntry <$> live_view now0 s).
  assert (Hwire : ∀ k we, (k, we) ∈ map_to_list wire →
    ∃ e, live now0 (view s !! k) = Some e ∧ we = toWireEntry e ∧ entry_ok e).
  { intros k we Hk. apply elem_of_map_to_list in Hk. unfold wire in Hk. rewrite lookup_fmap in Hk.
    rewrite live_view_lookup in Hk. destruct (live now0 (view s !! k)) as [e|] eqn:E; [|done].
    injection Hk as <-. exists e. split; [done|]. split; [done|]. apply live_Some in E as [E _]. by eapply Hs. }
  destruct (restore_view (map_to_list wire) (New n) (New_wf n) (NoDup_fst_map_to_list _)) as (H1 & H2 & H3).
  { intros k we Hk. destruct (Hwire k we Hk) as (e & _ & -> & (b & _ & Hx)).
    cbn [toWireEntry wire_ExpiresAt].
    split; [lia|]. split; [lia|]. by rewrite New_view, lookup_empty. }
  split; [done|]. intros k. destruct (live now0 (view s !! k)) as [e|] eqn:E.
  - assert (Hin : (k, toWireEntry e) ∈ map_to_list wire).
    { apply elem_of_map_to_list. unfold wire. by rewrite lookup_fmap, live_view_lookup, E. }
    specialize (H2 _ _ Hin). destruct (Hwire _ _ Hin) as (e0 & He0 & _ & (b & Hstr & Hx)).
    rewrite E in He0. injection He0 as <-. apply live_Some in E as [-> _].
    assert (Hnv : EType e ≠ TypeVector) by (destruct Hstr as (-> & _); done).
    unfold toWireEntry in H2. cbn [wire_ExpiresAt wire_Value wire_Type] in H2.
    rewrite bool_decide_eq_false_2 in H2 by done. unfold opt_sim. cbn [slive].
    destruct (_ && _) eqn:Ed; [by rewrite H2|]. destruct H2 as (e1 & -> & Hv1 & Ht1 & Hx1). cbn [slive].
    rewrite Hx1, Ed. eapply entry_sim_exact; [done| |done]. destruct Hstr as (Ht & (v & Hv & Hc) & _).
    split; [congruence|]. split; [exists v; split; [congruence|done]|done].
  - rewrite H3.
    + rewrite New_view, lookup_empty. unfold opt_sim.
      rewrite (live_slive t now0 _ Hnow); [done| |done]. intros e He. by eapply Hs.
    + intros ([k' we] & -> & Hk)%list_elem_of_fmap. destruct (Hwire _ _ Hk) as (e & He & _).
      cbn in E. congruence.
Qed.

End Histories.

(** ** Recovery *)
Lemma replay_skips {V} `{VectorStore V} t c old new (s : rstate (V := V)) :
  Forall (fun r => Sequence r ≤ c) old → replay t c (old ++ new) s = replay t c new s.
Proof.
  induction 1 as [|r old Hr _ IH]; [done|]. cbn [app replay]. by rewrite (proj2 (Z.leb_le _ _) Hr).
Qed.


Definition demo_executor : Executor :=
  NewExecutor (New 4) (Some new_wal).
Definition demo_rest : Z → Z → Command → Executor → answer := fun _ _ _ x => reply [] x.
Definition cmd_of (name : string) (args : list string) : Command :=
  {| Name := name; Args := map to_slice args |}.
Definition run1 (now : Z) (cmd : Command) (x : Executor) : Executor :=
  snd (Execute demo_rest now 0 None 1 cmd x).


(** ** What is not recovered *)

(** The value of a key after a recovery at [t] from the whole log. *)
Definition recovered_key (t : Z) (k : string) (x : Executor) : option value :=
  match wal x with
  | None => None
  | Some w =>
      match Recover t None (Ok (w_records w)) (New 4, @None unit) with
      | Ok (s, _) => Value <$> slive t (view s !! k)
      | _ => None
      end
  end.

Definition live_key (t : Z) (k : string) (x : Executor) : option value :=
  Value <$> slive t (view (kv x) !! k).

Definition vector_executor : Executor := set_kv demo_executor (KV.Set_ 1 "k" (VVector 0) TypeVector 0 (New 4)).

(** Histories of accepted commands whose outcome is lost by
    a recovery. A key whose deadline is removed by PERSIST (or moved by EXPIRE)
    is dropped when the recovery comes after the old deadline; RENAME of a key
    to itself is replayed as a deletion; GETSET without a value overwrites the
    key and logs nothing; SET with EX over a key of another type is logged with
    its seconds taken as milliseconds. *)
Theorem recovery_gaps :
  let v := VBytes (to_slice "v") in
  let set_ex := run1 second (cmd_of "SET" ["k"; "v"; "EX"; "1"]) demo_executor in
  let set_k := run1 second (cmd_of "SET" ["k"; "v"]) demo_executor in
  let later := 10 * second in
  (let x := run1 (second + 5) (cmd_of "PERSIST" ["k"]) set_ex in
   live_key later "k" x = Some v ∧ recovered_key later "k" x = None) ∧
  (let x := run1 (second + 5) (cmd_of "EXPIRE" ["k"; "100"]) set_ex in
   live_key later "k" x = Some v ∧ recovered_key later "k" x = None) ∧
  (let x := run1 (second + 5) (cmd_of "RENAME" ["k"; "k"]) set_k in
   live_key later "k" x = Some v ∧ recovered_key later "k" x = None) ∧
  (let x := run1 (second + 5) (cmd_of "GETSET" ["k"]) set_k in
   live_key later "k" x = Some (VBytes None) ∧ recovered_key later "k" x = Some v) ∧
  (let x := run1 second (cmd_of "SET" ["k"; "v"; "EX"; "100"]) vector_executor in
   live_key later "k" x = Some v ∧ recovered_key later "k" x = None).
Proof. vm_compute. by conjs. Qed.

(** A SET whose sync failed is answered with an error and is not in the store;
    the frame survived, and the recovered store has the key. *)
Example refused_write_recovered :
  let r := Execute demo_rest 5 0 (Some (Unsynced "disk")) 1 (cmd_of "SET" ["k"; "v"]) demo_executor in
  fst (fst r) = WriteError "ERR WAL write failed: disk" ∧ live_key 9 "k" (snd r) = None ∧
  match wal (snd r) with
  | Some {| w_records := l; w_unsynced := Some u |} =>
      match Recover 9 None (Ok (l ++ [u])) (New 4, @None unit) with
      | Ok (s, _) => Value <$> slive 9 (view s !! "k") = Some (VBytes (to_slice "v"))
      | _ => False
      end
  | _ => False
  end.
Proof. vm_compute. by conjs. Qed.

(** An empty value is recovered as nil, which GET answers as a missing key. *)
Example empty_value_recovers_nil :
  let x := run1 5 (cmd_of "SET" ["k"; ""]) demo_executor in
  live_key 9 "k" x = Some (VBytes (Some [])) ∧ recovered_key 9 "k" x = Some (VBytes None) ∧
  WriteBulkString (Some []) ≠ WriteNull ∧ WriteBulkString None = WriteNull.
Proof. vm_compute. by conjs. Qed.
