(* ===== verification/ReplStream.v ===== *)
(** * The replication stream ([replication/stream.go])

    The primary registers a replica after the handshake, sends it the log, and
    relays the records written meanwhile from a bounded channel; the replica
    applies the frames and reconnects when the session ends. The operations of
    the two ends are functions; the goroutines of the primary (the flusher of the
    log, the relay, one bootstrap for each connection) interleave in the step
    relation [step].

    The theorem [replica_catches_up]: a session in which no live record was sent
    during the bootstrap and none was dropped brings the replica to the contents
    of the primary. The examples at the end show what happens otherwise. *)

From S2P Require Import Prelude GoStd Types KV RESP Commands WAL Log Recovery Replication ReplSession Executor Durability.
From S2P Require StringStore.
Open Scope Z_scope.

(** ** The primary *)
Record StreamReplicaConn := { sr_conn : Conn; sr_closed : bool; sr_cipher : frameCipher }.

Record PrimaryStream := {
  p_token : string;
  p_replicas : gmap Z StreamReplicaConn;
  p_nextID : Z;
  p_done : bool;
  p_liveCh : list (list byte)
}.

Definition liveReplicationBuffer : Z := 4096.

Definition NewPrimaryStream (token : string) : PrimaryStream :=
  {| p_token := token; p_replicas := ∅; p_nextID := 0; p_done := false; p_liveCh := [] |}.

Definition set_replicas (p : PrimaryStream) (m : gmap Z StreamReplicaConn) : PrimaryStream :=
  {| p_token := p_token p; p_replicas := m; p_nextID := p_nextID p; p_done := p_done p; p_liveCh := p_liveCh p |}.
Definition set_liveCh (p : PrimaryStream) (l : list (list byte)) : PrimaryStream :=
  {| p_token := p_token p; p_replicas := p_replicas p; p_nextID := p_nextID p; p_done := p_done p; p_liveCh := l |}.

Definition addReplica (conn : Conn) (fc : frameCipher) (p : PrimaryStream) : Z * PrimaryStream :=
  let id := u64 (p_nextID p + 1) in
  (id, {| p_token := p_token p;
          p_replicas := <[id := {| sr_conn := conn; sr_closed := false; sr_cipher := fc |}]> (p_replicas p);
          p_nextID := id; p_done := p_done p; p_liveCh := p_liveCh p |}).
Definition RemoveReplica (id : Z) (p : PrimaryStream) : PrimaryStream := set_replicas p (delete id (p_replicas p)).
Definition ReplicaCount (p : PrimaryStream) : Z := Z.of_nat (size (p_replicas p)).

(** [Start] refuses a short token before it listens. *)
Definition start_check (p : PrimaryStream) : bool := MinTokenLength <=? strlen (p_token p).

(** [PrimaryStream.admit] up to the bootstrap: the identifier of the replica, if it is let in. *)
Definition admit_replica (fresh : option (list byte)) (conn : Conn) (p : PrimaryStream) : option Z * PrimaryStream :=
  match serverHandshake (p_token p) fresh conn with
  | (None, _) => (None, p)
  | (Some fc, conn) => if p_done p then (None, p) else let '(id, p) := addReplica conn fc p in (Some id, p)
  end.

Definition BroadcastRecord (rec : WALRecord) (p : PrimaryStream) : PrimaryStream :=
  if p_done p then p
  else if zlen (p_liveCh p) <? liveReplicationBuffer then set_liveCh p (p_liveCh p ++ [encodeRecordPlain rec])
  else p.

(** [Stop], once the bootstraps have ended. *)
Definition Stop (p : PrimaryStream) : PrimaryStream :=
  {| p_token := p_token p; p_replicas := ∅; p_nextID := p_nextID p; p_done := true; p_liveCh := p_liveCh p |}.

Section Cipher.
Variable gcm : list byte → AEAD.

(** A frame for one replica. A closed connection takes nothing. *)
Definition send_to (data : list byte) (r : StreamReplicaConn) : bool * StreamReplicaConn :=
  if sr_closed r then
    (false, {| sr_conn := sr_conn r; sr_closed := true; sr_cipher := snd (seal gcm (sr_cipher r) data) |})
  else
    let '(ok, fc, c) := send gcm data (sr_cipher r) (sr_conn r) in
    (ok, {| sr_conn := c; sr_closed := false; sr_cipher := fc |}).
Definition close (r : StreamReplicaConn) : StreamReplicaConn :=
  {| sr_conn := sr_conn r; sr_closed := true; sr_cipher := sr_cipher r |}.

(** [Broadcast]: a replica whose frame fails is closed here and removed by a
    goroutine of its own. *)
Definition broadcast_one (data : list byte) (r : StreamReplicaConn) : StreamReplicaConn :=
  let '(ok, r) := send_to data r in if ok then r else close r.
Definition Broadcast (data : list byte) (p : PrimaryStream) : PrimaryStream :=
  if (zlen data =? 0) || (zlen data >? maxReplicationFrameSize) then p
  else set_replicas p (broadcast_one data <$> p_replicas p).

(** One round of [relay]. *)
Definition relay (p : PrimaryStream) : PrimaryStream :=
  if p_done p then p
  else match p_liveCh p with
       | [] => p
       | data :: rest => Broadcast data (set_liveCh p rest)
       end.

(** One record of [bootstrap]; [false] ends it. *)
Definition bootstrap_send (id : Z) (rec : WALRecord) (p : PrimaryStream) : bool * PrimaryStream :=
  match p_replicas p !! id with
  | None => (false, p)
  | Some r =>
      let '(ok, r) := send_to (encodeRecordPlain rec) r in
      if ok then (true, set_replicas p (<[id := r]> (p_replicas p))) else (false, RemoveReplica id p)
  end.

(** ** The replica *)
Definition replicaReconnectMin : Z := 50 * 1000000.
Definition replicaReconnectMax : Z := 2 * second.

(** What a round of [ReplicaStream.Start] meets: no connection, or a peer that
    sends these bytes. *)
Inductive attempt := DialFailed | Peer (fresh : option (list byte)) (conn : Conn).

Section Follow.
Context {St : Type} (apply : WALRecord → St → bool * St).

(** The backoff to wait ([None]: the session ended by itself), the next backoff
    and the store. *)
Definition replica_round (token : string) (a : attempt) (backoff : Z) (st : St) : option Z * Z * St :=
  let failed := (Some backoff,
    if backoff <? replicaReconnectMax then Z.min (backoff * 2) replicaReconnectMax else backoff, st) in
  match a with
  | DialFailed => failed
  | Peer fresh conn =>
      match clientHandshake token fresh conn with
      | (None, _) => failed
      | (Some fc, conn) => (None, replicaReconnectMin, consumeStream gcm apply fc (c_in conn) st)
      end
  end.

Fixpoint replica_rounds (token : string) (l : list attempt) (backoff : Z) (st : St) : list Z * Z * St :=
  match l with
  | [] => ([], backoff, st)
  | a :: l =>
      let '(wait, backoff, st) := replica_round token a backoff st in
      let '(waits, backoff, st) := replica_rounds token l backoff st in
      (option_list wait ++ waits, backoff, st)
  end.
End Follow.
End Cipher.

(** ** What a replica makes of the records *)
Section Contents.
Context {V : Type} `{VectorStore V}.
Variable clock : nat → Z.

(** [ApplyWALRecord] with the effects done before one is refused; the readings of
    the clock of one record are one instant. *)
Fixpoint apply_each (t : Z) (effects : list WALEffect) (r : Replica (V := V)) : bool * Replica :=
  match effects with
  | [] => (true, r)
  | e :: effects =>
      match applyReplicatedEffect t t t e r with
      | Ok r => apply_each t effects r
      | _ => (false, r)
      end
  end.
Definition replica_apply (rec : WALRecord) (st : Replica (V := V) * nat) : bool * (Replica (V := V) * nat) :=
  let '(r, i) := st in
  match Effects rec with
  | [] => match apply_bare (clock i) rec r with Ok r => (true, (r, S i)) | _ => (false, (r, S i)) end
  | effects =>
      let '(ok, r) := apply_each (clock i) effects r in
      (ok, (if ok then account (clock i) r else r, S i))
  end.

Lemma apply_each_agrees t effects r r' :
  apply_effects t effects r = Ok r' → apply_each t effects r = (true, r').
Proof.
  revert r. induction effects as [|e effects IH]; intros r; cbn [apply_effects apply_each]; [by intros [= <-]|].
  destruct (applyReplicatedEffect t t t e r) as [r1| |]; cbn [rbind]; [apply IH|done..].
Qed.

Lemma replica_apply_agrees rec r i r' :
  ApplyWALRecord (clock i) rec r = Ok r' → replica_apply rec (r, i) = (true, (r', S i)).
Proof.
  unfold ApplyWALRecord, replica_apply. destruct (Effects rec) as [|e es]; [by intros ->|].
  destruct (apply_effects (clock i) (e :: es) r) as [r1| |] eqn:E; cbn [rbind]; [|done..]. intros [= <-].
  by rewrite (apply_each_agrees _ _ _ _ E).
Qed.

(** The effects of values and deletions, which say all about their key. *)
Definition plain (e : WALEffect) : Prop :=
  (we_Type e = RecordSet ∧ 0 ≤ we_ExpiresAt e ≤ MaxInt64) ∨ we_Type e = RecordDelete.

(** What such an effect does to the keys at [t]. *)
Definition kv_step (t : Z) (e : WALEffect) (s : KVStore) : KVStore :=
  let key := we_Key e in
  if bool_decide (we_Type e = RecordSet) then
    if we_ExpiresAt e >? 0 then
      if i64 (we_ExpiresAt e - t) <=? 0 then snd (Delete [key] s)
      else Set_ t key (VBytes (we_Value e)) TypeString (i64 (we_ExpiresAt e - t)) s
    else Set_ t key (VBytes (we_Value e)) TypeString 0 s
  else snd (Delete [key] s).

Lemma replicated_plain t e r :
  plain e → ∃ r', applyReplicatedEffect t t t e r = Ok r' ∧ rp_kv r' = kv_step t e (rp_kv r).
Proof.
  intros [[Ht _]|Ht]; unfold applyReplicatedEffect, kv_step; rewrite Ht.
  - rewrite bool_decide_eq_true_2 by done. destruct (_ >? 0); [destruct (_ <=? 0)|]; eexists; split; reflexivity.
  - rewrite !(bool_decide_eq_false_2 (RecordDelete = RecordSet)), (bool_decide_eq_true_2 (RecordDelete = RecordDelete)) by done.
    cbn [orb]. eexists. split; reflexivity.
Qed.

Lemma recovered_plain t seq e s :
  plain e → applyRecoveredEffect t t t seq e (s, @None V) = Ok (kv_step t e s, None).
Proof.
  intros [[Ht _]|Ht]; unfold applyRecoveredEffect, kv_step; rewrite Ht.
  - rewrite !bool_decide_eq_true_2 by done. by destruct (_ >? 0); [destruct (_ <=? 0)|].
  - by rewrite !(bool_decide_eq_false_2 (RecordDelete = RecordSet)), (bool_decide_eq_true_2 (RecordDelete = RecordDelete)) by done.
Qed.

(** At [t] the entry is what the last effect on its key says. *)
Definition shows (t : Z) (o : option Entry) (e : option WALEffect) : Prop :=
  match e with
  | None => slive t o = None
  | Some e =>
      if bool_decide (we_Type e = RecordSet) && negb ((0 <? we_ExpiresAt e) && (we_ExpiresAt e <=? t))
      then ∃ en, slive t o = Some en ∧ string_is en (contents (we_Value e)) (we_ExpiresAt e)
      else slive t o = None
  end.

Lemma kv_step_shows t ti e s :
  plain e → clock_ok ti → ti ≤ t → kv_wf s →
  kv_wf (kv_step ti e s) ∧ shows t (view (kv_step ti e s) !! we_Key e) (Some e) ∧
  ∀ k, k ≠ we_Key e → view (kv_step ti e s) !! k = view s !! k.
Proof.
  intros He Hc Hle Hwf. unfold clock_ok, second in Hc.
  assert (Hdel : kv_wf (snd (Delete [we_Key e] s)) ∧ view (snd (Delete [we_Key e] s)) !! we_Key e = None ∧
                 ∀ k, k ≠ we_Key e → view (snd (Delete [we_Key e] s)) !! k = view s !! k).
  { destruct (Delete_view [we_Key e] s Hwf) as [H1 H2]. split; [done|]. split; [rewrite H2; by rewrite bool_decide_eq_true_2 by by left|].
    intros k Hk. rewrite H2, bool_decide_eq_false_2; [done|]. by intros ->%list_elem_of_singleton. }
  assert (Hset : ∀ ttl x, (if ttl >? 0 then i64 (ti + ttl) else 0) = x → we_Type e = RecordSet → we_ExpiresAt e = x →
     let s1 := Set_ ti (we_Key e) (VBytes (we_Value e)) TypeString ttl s in
     kv_wf s1 ∧ shows t (view s1 !! we_Key e) (Some e) ∧ ∀ k, k ≠ we_Key e → view s1 !! k = view s !! k).
  { intros ttl x Hx Ht Hex s1. destruct (Set_spec ti (we_Key e) (VBytes (we_Value e)) TypeString ttl s Hwf) as [H1 H2].
    split; [done|]. unfold s1. rewrite H2. split; [|intros k Hk; by rewrite lookup_insert_ne].
    rewrite lookup_insert_eq. set (en := set_entry _ _ _ _ _ _).
    assert (Hen : string_is en (contents (we_Value e)) x).
    { split; [done|]. split; [by exists (we_Value e)|]. unfold en, set_entry. cbn [ExpiresAt]. exact Hx. }
    unfold shows. rewrite Ht, bool_decide_eq_true_2 by done. cbn [andb]. rewrite Hex. destruct Hen as (E1 & E2 & E3).
    cbn [slive]. rewrite E3, Z.gtb_ltb. destruct (_ && _); cbn [negb]; [done|]. exists en. rewrite <- Hex in E3. by rewrite Hex in E3. }
  unfold kv_step. destruct He as [[Ht Hx]|Ht]; rewrite Ht.
  - rewrite bool_decide_eq_true_2 by done. unfold MaxInt64 in *. destruct (we_ExpiresAt e >? 0) eqn:E0.
    + rewrite i64_id by (unfold in_i64, MinInt64, MaxInt64; lia). destruct (_ <=? 0) eqn:E1.
      * destruct Hdel as (H1 & H2 & H3). split; [done|]. split; [|done]. rewrite H2. unfold shows.
        rewrite Ht, bool_decide_eq_true_2 by done. rewrite (proj2 (Z.ltb_lt 0 _)), (proj2 (Z.leb_le _ t)) by lia. done.
      * apply (Hset (we_ExpiresAt e - ti) (we_ExpiresAt e)); [|done..]. rewrite Z.gtb_ltb, (proj2 (Z.ltb_lt 0 _)) by lia.
        rewrite i64_id; [lia|]. unfold in_i64, MinInt64, MaxInt64. lia.
    + apply (Hset 0 0); [done|done|lia].
  - rewrite bool_decide_eq_false_2 by done. destruct Hdel as (H1 & H2 & H3). split; [done|]. split; [|done].
    rewrite H2. unfold shows. by rewrite Ht, bool_decide_eq_false_2.
Qed.

(** The last effect on a key. *)
Definition last_on (key : string) (effs : list WALEffect) : option WALEffect :=
  last (filter (λ e, we_Key e = key) effs).

Lemma last_on_app key l1 l2 :
  last_on key (l1 ++ l2) = match last_on key l2 with Some e => Some e | None => last_on key l1 end.
Proof. unfold last_on. rewrite filter_app, last_app. done. Qed.

Definition kv_steps (s : KVStore) (l : list (Z * WALEffect)) : KVStore := foldl (λ s p, kv_step p.1 p.2 s) s l.

Lemma kv_steps_show t l s :
  Forall (λ p, plain p.2 ∧ clock_ok p.1 ∧ p.1 ≤ t) l → kv_wf s →
  kv_wf (kv_steps s l) ∧
  ∀ key, match last_on key l.*2 with
         | Some e => shows t (view (kv_steps s l) !! key) (Some e)
         | None => view (kv_steps s l) !! key = view s !! key
         end.
Proof.
  intros Hl Hwf. induction l as [|[ti e] l IH] using rev_ind; [done|]. apply Forall_app in Hl as [Hl [(Hp & Hc & Hle) _]%Forall_cons_1].
  destruct (IH Hl) as [Hwf1 Hk]. cbn [fst snd] in *. unfold kv_steps in *. rewrite foldl_app. cbn [foldl fst snd].
  destruct (kv_step_shows t ti e _ Hp Hc Hle Hwf1) as (H1 & H2 & H3). split; [done|]. intros key.
  rewrite fmap_app, last_on_app. change ([(ti, e)].*2) with [e]. unfold last_on at 1. destruct (decide (we_Key e = key)) as [<-|Hne].
  - rewrite filter_cons_True by done. cbn. exact H2.
  - rewrite filter_cons_False by done. cbn. rewrite H3 by done. apply Hk.
Qed.

(** A replica that is sent such records applies them all. *)
Lemma apply_plain t recs r i :
  (∀ j, clock_ok (clock j) ∧ clock j ≤ t) → Forall (λ rec, Effects rec ≠ [] ∧ Forall plain (Effects rec)) recs →
  ∃ r' l, apply_until replica_apply recs (r, i) = (true, (r', (i + length recs)%nat)) ∧
    rp_kv r' = kv_steps (rp_kv r) l ∧ l.*2 = recs ≫= Effects ∧ Forall (λ p, plain p.2 ∧ clock_ok p.1 ∧ p.1 ≤ t) l.
Proof.
  intros Hc Hp. revert r i. induction Hp as [|rec recs [Hne Hpl] _ IH]; intros r i.
  { exists r, []. cbn. by rewrite Nat.add_0_r. }
  assert (Heach : ∀ es r, Forall plain es → ∃ r', apply_each (clock i) es r = (true, r') ∧
            rp_kv r' = kv_steps (rp_kv r) ((λ e, (clock i, e)) <$> es)).
  { clear -V. induction es as [|e es IHe]; intros r Hes; [by exists r|]. apply Forall_cons_1 in Hes as [He Hes].
    destruct (replicated_plain (clock i) e r He) as (r1 & E1 & K1). cbn [apply_each]. rewrite E1.
    destruct (IHe r1 Hes) as (r2 & E2 & K2). exists r2. split; [done|]. rewrite K2, K1. done. }
  destruct (Heach (Effects rec) r Hpl) as (r1 & E1 & K1).
  destruct (IH (account (clock i) r1) (S i)) as (r2 & l & E2 & K2 & L2 & F2).
  exists r2, (((λ e, (clock i, e)) <$> Effects rec) ++ l). split; [|split; [|split]].
  - cbn [apply_until]. unfold replica_apply at 1. destruct (Effects rec) as [|e es] eqn:Ee; [done|]. rewrite E1, E2.
    by replace (i + length (rec :: recs))%nat with (S i + length recs)%nat by (cbn [length]; lia).
  - rewrite K2. cbn [account rp_kv]. rewrite K1. unfold kv_steps. by rewrite foldl_app.
  - rewrite fmap_app, L2, <- list_fmap_compose. cbn [mbind list_bind]. f_equal. by apply list_fmap_id.
  - apply Forall_app. split; [|done]. apply Forall_fmap. eapply Forall_impl; [exact Hpl|]. intros e He. cbn. by destruct (Hc i).
Qed.

(** So does recovery. *)
Lemma replay_plain t c recs s :
  clock_ok t → Forall (λ rec, c < Sequence rec ∧ Forall plain (expandEffects rec)) recs →
  ∃ l, replay t c recs (s, @None V) = Ok (kv_steps s l, None) ∧
    l.*2 = recs ≫= expandEffects ∧ Forall (λ p, plain p.2 ∧ clock_ok p.1 ∧ p.1 ≤ t) l.
Proof.
  intros Hc Hp. revert s. induction Hp as [|rec recs [Hseq Hpl] _ IH]; intros s; [by exists []|].
  assert (Heach : ∀ es s, Forall plain es →
            replay_effects t (Sequence rec) es (s, @None V) = Ok (kv_steps s ((λ e, (t, e)) <$> es), None)).
  { clear. induction es as [|e es IHe]; intros s Hes; [done|]. apply Forall_cons_1 in Hes as [He Hes]. cbn [replay_effects].
    rewrite (recovered_plain t _ e s He). cbn [rbind]. by rewrite IHe. }
  destruct (IH (kv_steps s ((λ e, (t, e)) <$> expandEffects rec))) as (l & E & L & F).
  exists (((λ e, (t, e)) <$> expandEffects rec) ++ l). split; [|split].
  - cbn [replay]. rewrite (proj2 (Z.leb_gt _ _)) by lia. rewrite Heach by done. cbn [rbind]. rewrite E. unfold kv_steps. by rewrite foldl_app.
  - rewrite fmap_app, L, <- list_fmap_compose. cbn [mbind list_bind]. f_equal. by apply list_fmap_id.
  - apply Forall_app. split; [|done]. apply Forall_fmap. eapply Forall_impl; [exact Hpl|]. intros e He. cbn. done.
Qed.
End Contents.

(** Sending records twice does not matter when the second time goes to the end. *)
Lemma overlap_last key (f : WALRecord → list WALEffect) recs m n :
  (m ≤ n)%nat → last_on key ((take n recs ++ drop m recs) ≫= f) = last_on key (recs ≫= f).
Proof.
  intros Hmn. rewrite bind_app, last_on_app. transitivity (last_on key ((take m recs ++ drop m recs) ≫= f)); [|by rewrite take_drop].
  rewrite bind_app, last_on_app. destruct (last_on key (drop m recs ≫= f)) as [e|] eqn:E; [done|].
  assert (Hn : take n recs = take m recs ++ take (n - m) (drop m recs)).
  { rewrite <- (take_drop m (take n recs)), take_take, Nat.min_l, skipn_firstn_comm by done. done. }
  rewrite Hn, bind_app, last_on_app. rewrite <- (take_drop (n - m) (drop m recs)), bind_app, last_on_app in E.
  destruct (last_on key (drop _ (drop m recs) ≫= f)); [done|]. by rewrite E.
Qed.

Lemma last_on_reread key l : last_on key (reread <$> l) = reread <$> last_on key l.
Proof.
  unfold last_on. rewrite <- fmap_last. f_equal. induction l as [|e l IH]; [done|]. rewrite fmap_cons.
  destruct (decide (we_Key e = key)); [rewrite !filter_cons_True by done; cbn; by rewrite IH|by rewrite !filter_cons_False].
Qed.

Lemma shows_reread t o e : shows t o (reread <$> e) ↔ shows t o e.
Proof. destruct e as [e|]; [|done]. change (reread <$> Some e) with (Some (reread e)). unfold shows. cbn [reread we_Type we_Value we_ExpiresAt].
  by rewrite contents_scopy.
Qed.

Lemma plain_reread e : plain e → plain (reread e).
Proof. done. Qed.

Lemma reread_effects rec : Effects (reread_record rec) = reread <$> expandEffects rec ∧ Effects (reread_record rec) ≠ [].
Proof. unfold reread_record. destruct (expandEffects_cons rec) as (e & es & ->). cbn. done. Qed.

Lemma encode_reread rec : encodeRecordPlain (reread_record rec) = encodeRecordPlain rec.
Proof.
  assert (E : expandEffects (reread_record rec) = reread <$> expandEffects rec).
  { destruct (reread_effects rec) as [E1 E2]. unfold expandEffects at 1. rewrite E1 in *. by destruct (reread <$> expandEffects rec). }
  assert (Hb : encode_body (reread_record rec) = encode_body rec).
  { unfold encode_body. rewrite E. unfold zlen. rewrite length_fmap, <- list_fmap_compose.
    assert (Hs : Sequence (reread_record rec) = Sequence rec ∧ Timestamp (reread_record rec) = Timestamp rec).
    { unfold reread_record. by destruct (expandEffects_cons rec) as (? & ? & ->). }
    destruct Hs as [-> ->]. do 4 f_equal. f_equal. apply list_fmap_ext. intros i e _. unfold compose, encode_effect, slen, reread. cbn [we_Type we_Key we_Value we_ExpiresAt].
    by rewrite contents_scopy. }
  unfold encodeRecordPlain. by rewrite Hb.
Qed.

Lemma same_show t a b c e :
  match e with Some e => plain e | None => True end → opt_sim t a b → shows t b e → shows t c e → opt_sim t a c.
Proof.
  intros Hp Hs Hb Hc. unfold opt_sim in *. destruct e as [e|]; cbn [shows] in Hb, Hc; [|by rewrite Hb in Hs; rewrite Hc].
  destruct (_ && _); [|by rewrite Hb in Hs; rewrite Hc].
  destruct Hb as (eb & Eb & Sb), Hc as (ec & Ec & Sc). rewrite Eb in Hs. rewrite Ec. destruct (slive t a) as [ea|]; [|done].
  destruct Hs as (b0 & x & x' & H1 & H2 & H3). exists b0, x, x'. split; [done|]. split; [|done].
  destruct Sb as (T1 & (v & V1 & C1) & X1), Sc as (T2 & (v2 & V2 & C2) & X2), H2 as (T3 & (v3 & V3 & C3) & X3).
  split; [done|]. split; [|congruence]. exists v2. split; [done|]. congruence.
Qed.

(** ** The goroutines of the primary *)
Section System.
Variable gcm : list byte → AEAD.

(** What was sent in a session: the bytes before the stream, the key, the number
    of records relayed when it was registered, the frames of the bootstrap, the
    live frames, all of them in order, and whether a live frame went out before
    the bootstrap was over. The model keeps it to speak about the session. *)
Record session := {
  g_base : list byte;
  g_key : list byte;
  g_from : nat;
  g_boot : list (list byte);
  g_live : list (list byte);
  g_sent : list (list byte);
  g_mixed : bool
}.

Definition sent_boot (data : list byte) (s : session) : session :=
  {| g_base := g_base s; g_key := g_key s; g_from := g_from s; g_boot := g_boot s ++ [data]; g_live := g_live s;
     g_sent := g_sent s ++ [data]; g_mixed := g_mixed s |}.
Definition sent_live (booting : bool) (data : list byte) (s : session) : session :=
  {| g_base := g_base s; g_key := g_key s; g_from := g_from s; g_boot := g_boot s; g_live := g_live s ++ [data];
     g_sent := g_sent s ++ [data]; g_mixed := g_mixed s || booting |}.

(** The log, the records the flusher wrote but did not pass on yet, the primary,
    the bootstraps under way ([None] before the log is read), and the history:
    the sessions, how many live records were relayed, whether one was dropped. *)
Record world := {
  w_log : list WALRecord;
  w_todo : list WALRecord;
  w_p : PrimaryStream;
  w_boot : gmap Z (option (list WALRecord));
  w_sess : gmap Z session;
  w_relayed : nat;
  w_dropped : bool
}.

Definition initial (token : string) : world :=
  {| w_log := []; w_todo := []; w_p := NewPrimaryStream token; w_boot := ∅; w_sess := ∅; w_relayed := 0; w_dropped := false |}.

Definition full (p : PrimaryStream) : bool := p_done p || negb (zlen (p_liveCh p) <? liveReplicationBuffer).

Inductive step (w : world) : world → Prop :=
(** The flusher writes a record to the log. *)
| step_write rec :
    sendable rec →
    step w {| w_log := w_log w ++ [rec]; w_todo := w_todo w ++ [rec]; w_p := w_p w; w_boot := w_boot w; w_sess := w_sess w;
              w_relayed := w_relayed w; w_dropped := w_dropped w |}
(** The flusher calls [BroadcastRecord]. *)
| step_notify rec rest :
    w_todo w = rec :: rest →
    step w {| w_log := w_log w; w_todo := rest; w_p := BroadcastRecord rec (w_p w); w_boot := w_boot w; w_sess := w_sess w;
              w_relayed := w_relayed w; w_dropped := w_dropped w || full (w_p w) |}
(** The relay sends the next live record to every replica. *)
| step_relay data rest :
    p_done (w_p w) = false → p_liveCh (w_p w) = data :: rest →
    step w {| w_log := w_log w; w_todo := w_todo w; w_p := relay gcm (w_p w); w_boot := w_boot w;
              w_sess := map_imap (λ id s, Some (sent_live (bool_decide (is_Some (w_boot w !! id))) data s)) (w_sess w);
              w_relayed := S (w_relayed w); w_dropped := w_dropped w |}
(** A connection passes the handshake and its replica is registered. *)
| step_admit fresh conn fc conn1 id p1 :
    p_nextID (w_p w) + 1 < 2 ^ 64 →
    serverHandshake (p_token (w_p w)) fresh conn = (Some fc, conn1) → admit_replica fresh conn (w_p w) = (Some id, p1) →
    step w {| w_log := w_log w; w_todo := w_todo w; w_p := p1; w_boot := <[id := None]> (w_boot w);
              w_sess := <[id := {| g_base := c_out conn1; g_key := fc_key fc; g_from := w_relayed w; g_boot := []; g_live := [];
                                   g_sent := []; g_mixed := false |}]> (w_sess w);
              w_relayed := w_relayed w; w_dropped := w_dropped w |}
(** The bootstrap reads the log, or fails to. *)
| step_read id :
    w_boot w !! id = Some None →
    step w {| w_log := w_log w; w_todo := w_todo w; w_p := w_p w; w_boot := <[id := Some (reread_record <$> w_log w)]> (w_boot w);
              w_sess := w_sess w; w_relayed := w_relayed w; w_dropped := w_dropped w |}
| step_unread id :
    w_boot w !! id = Some None →
    step w {| w_log := w_log w; w_todo := w_todo w; w_p := RemoveReplica id (w_p w); w_boot := delete id (w_boot w);
              w_sess := w_sess w; w_relayed := w_relayed w; w_dropped := w_dropped w |}
(** The bootstrap sends a record, or ends. *)
| step_boot id rec rest ok p1 :
    w_boot w !! id = Some (Some (rec :: rest)) → bootstrap_send gcm id rec (w_p w) = (ok, p1) →
    step w {| w_log := w_log w; w_todo := w_todo w; w_p := p1;
              w_boot := if ok : bool then <[id := Some rest]> (w_boot w) else delete id (w_boot w);
              w_sess := alter (sent_boot (encodeRecordPlain rec)) id (w_sess w);
              w_relayed := w_relayed w; w_dropped := w_dropped w |}
| step_booted id :
    w_boot w !! id = Some (Some []) →
    step w {| w_log := w_log w; w_todo := w_todo w; w_p := w_p w; w_boot := delete id (w_boot w);
              w_sess := w_sess w; w_relayed := w_relayed w; w_dropped := w_dropped w |}
(** A replica that failed is removed. *)
| step_remove id r :
    p_replicas (w_p w) !! id = Some r → sr_closed r = true →
    step w {| w_log := w_log w; w_todo := w_todo w; w_p := RemoveReplica id (w_p w); w_boot := w_boot w;
              w_sess := w_sess w; w_relayed := w_relayed w; w_dropped := w_dropped w |}
| step_stop :
    step w {| w_log := w_log w; w_todo := w_todo w; w_p := Stop (w_p w); w_boot := ∅;
              w_sess := w_sess w; w_relayed := w_relayed w; w_dropped := w_dropped w |}.

Inductive reachable (token : string) : world → Prop :=
| reach_init : reachable token (initial token)
| reach_step w w1 : reachable token w → step w w1 → reachable token w1.

(** ** Frames of a session *)
Lemma be_put_mod n z : be_put n (z mod 256 ^ Z.of_nat n) = be_put n z.
Proof. rewrite <- be_get_put. pose proof (be_put_get (be_put n z)) as H. by rewrite length_be_put in H. Qed.

Lemma frame_nonce_u64 z : frame_nonce (u64 z) = frame_nonce z.
Proof. unfold frame_nonce. f_equal. apply (be_put_mod 8 z). Qed.

Lemma session_bytes_snoc key i datas data :
  session_bytes gcm key i (datas ++ [data]) =
  session_bytes gcm key i datas ++ framed (Seal (gcm key) (frame_nonce (Z.of_nat (i + length datas))) data).
Proof.
  revert i. induction datas as [|d datas IH]; intros i; cbn [app session_bytes length].
  - by rewrite app_nil_r, Nat.add_0_r.
  - rewrite IH, <- !app_assoc. replace (S i + length datas)%nat with (i + S (length datas))%nat by lia. done.
Qed.

(** The connection of an open session has taken all its frames. *)
Definition conn_ok (r : StreamReplicaConn) (s : session) : Prop :=
  sr_closed r = false →
  sr_cipher r = {| fc_key := g_key s; fc_counter := u64 (zlen (g_sent s)) |} ∧
  c_out (sr_conn r) = g_base s ++ session_bytes gcm (g_key s) 0 (g_sent s).

Lemma send_to_ok data r ok r1 s s1 :
  conn_ok r s → send_to gcm data r = (ok, r1) → g_base s1 = g_base s → g_key s1 = g_key s → g_sent s1 = g_sent s ++ [data] →
  if ok then conn_ok r1 s1 else True.
Proof.
  intros Hr Hsend Hb Hk Hs. unfold send_to in Hsend. destruct (sr_closed r) eqn:Ec; [by injection Hsend as <- _|].
  destruct (Hr Ec) as [Hc Ho]. unfold send, seal, nextNonce in Hsend. rewrite Hc in Hsend. cbn [fc_key fc_counter] in Hsend.
  pose proof (writeFrame_out (Seal (gcm (g_key s)) (frame_nonce (u64 (zlen (g_sent s)))) data) (sr_conn r)) as Hw.
  destruct (writeFrame _ (sr_conn r)) as [ok1 c1]. injection Hsend as <- <-. destruct ok1; [|done]. intros _. cbn [sr_cipher sr_conn].
  destruct Hw as (k & Hw & Hall). rewrite Hk, Hs, Hb. split.
  - f_equal. rewrite zlen_app. change (zlen [data]) with 1. unfold u64. by rewrite Zplus_mod_idemp_l.
  - rewrite Hw, (Hall eq_refl), Ho, session_bytes_snoc, <- app_assoc, frame_nonce_u64. done.
Qed.

(** ** The invariant *)
Definition datas (w : world) : list (list byte) := encodeRecordPlain <$> w_log w.
(** Nothing was dropped. *)
Definition gapless (w : world) : Prop := p_done (w_p w) = false ∧ w_dropped w = false.

Record sess_ok (w : world) (id : Z) (s : session) : Prop := {
  so_order : g_mixed s = false → g_sent s = g_boot s ++ g_live s ∧ (is_Some (w_boot w !! id) → g_live s = []);
  so_live : gapless w → (g_from s ≤ w_relayed w)%nat ∧ g_live s ++ drop (w_relayed w) (datas w) = drop (g_from s) (datas w);
  so_boot : match w_boot w !! id with
            | Some None => g_boot s = []
            | Some (Some rest) => ∃ n, (n ≤ length (w_log w))%nat ∧ (gapless w → g_from s ≤ n)%nat ∧
                g_boot s ++ (encodeRecordPlain <$> rest) = take n (datas w)
            | None => ∃ n, (n ≤ length (w_log w))%nat ∧ (gapless w → g_from s ≤ n)%nat ∧ g_boot s = take n (datas w)
            end
}.

Definition sized (data : list byte) : Prop := 0 < zlen data ≤ maxReplicationFrameSize.

Record inv (w : world) : Prop := {
  i_log : Forall sendable (w_log w);
  i_sized : Forall sized (p_liveCh (w_p w)) ∧ Forall sendable (w_todo w);
  i_queue : gapless w → (w_relayed w ≤ length (w_log w))%nat ∧
              p_liveCh (w_p w) ++ (encodeRecordPlain <$> w_todo w) = drop (w_relayed w) (datas w);
  i_conn : ∀ id r, p_replicas (w_p w) !! id = Some r →
             ∃ s, w_sess w !! id = Some s ∧ conn_ok r s ∧ (sr_closed r = false → sess_ok w id s)
}.

Lemma sendable_sized rec : sendable rec → sized (encodeRecordPlain rec).
Proof.
  intros (_ & _ & Hm). split; [|done]. unfold encodeRecordPlain. rewrite zlen_app. unfold zlen at 1. rewrite length_be_put.
  pose proof (zlen_nonneg (encode_body rec ++ be_put 4 (ChecksumIEEE (encode_body rec)))). lia.
Qed.

(** Steps that leave the log, the queue and a session alone. *)
Lemma sess_frame w w1 id s :
  w_log w1 = w_log w → w_relayed w1 = w_relayed w → (gapless w1 → gapless w) → w_boot w1 !! id = w_boot w !! id →
  sess_ok w id s → sess_ok w1 id s.
Proof.
  intros Hl Hr Hg Hb [H1 H2 H3]. unfold datas in *. split; rewrite ?Hb.
  - done.
  - intros G. unfold datas. rewrite Hr, Hl. auto.
  - unfold datas. rewrite Hl. destruct (w_boot w !! id) as [[rest|]|]; [..|done|]; destruct H3 as (n & ? & ? & ?); exists n; auto.
Qed.

Lemma inv_frame w w1 :
  inv w → w_log w1 = w_log w → w_relayed w1 = w_relayed w → w_todo w1 = w_todo w →
  (gapless w1 → gapless w) → p_liveCh (w_p w1) = p_liveCh (w_p w) →
  (∀ id r, p_replicas (w_p w1) !! id = Some r →
     ∃ s, w_sess w1 !! id = Some s ∧ conn_ok r s ∧ (sr_closed r = false → sess_ok w1 id s)) → inv w1.
Proof.
  intros [H1 H0 H2 _] Hl Hr Ht Hg Hq Hc. split; [by rewrite Hl|by rewrite Hq, Ht| |done]. intros G. unfold datas in *.
  rewrite Hr, Hl, Ht, Hq. auto.
Qed.

Lemma inv_write w rec :
  inv w → sendable rec →
  inv {| w_log := w_log w ++ [rec]; w_todo := w_todo w ++ [rec]; w_p := w_p w; w_boot := w_boot w; w_sess := w_sess w;
         w_relayed := w_relayed w; w_dropped := w_dropped w |}.
Proof.
  intros [H1 [H0 H0'] H2 H3] Hrec. set (w1 := Build_world _ _ _ _ _ _ _).
  assert (Hd : datas w1 = datas w ++ [encodeRecordPlain rec]) by (unfold datas; cbn; by rewrite fmap_app).
  assert (Hlen : length (datas w) = length (w_log w)) by apply length_fmap.
  split.
  - cbn. apply Forall_app. split; [done|]. by apply Forall_singleton.
  - cbn. split; [done|]. apply Forall_app. split; [done|]. by apply Forall_singleton.
  - intros G. destruct (H2 G) as [Hr Hq]. cbn [w_relayed w_todo w_p w1]. rewrite Hd. split; [cbn; rewrite length_app; lia|].
    rewrite fmap_app, app_assoc, Hq, drop_app_le by lia. done.
  - intros id r Hr. destruct (H3 id r Hr) as (s & Hs & Hc & Hok). exists s. split; [done|]. split; [done|]. intros Ho. destruct (Hok Ho) as [S1 S2 S3]. split.
    + done.
    + intros G. destruct (S2 G) as [L1 L2]. destruct (H2 G) as [Hr0 _]. split; [done|]. rewrite Hd. cbn [w_relayed w1].
      rewrite !drop_app_le, app_assoc, L2 by lia. done.
    + cbn [w_boot w1]. rewrite Hd. destruct (w_boot w !! id) as [[rest|]|]; [..|done|]; destruct S3 as (n & N1 & N2 & N3);
        exists n; (split; [cbn; rewrite length_app; lia|]); (split; [done|]); by rewrite take_app_le by lia.
Qed.

Lemma inv_notify w rec rest :
  inv w → w_todo w = rec :: rest →
  inv {| w_log := w_log w; w_todo := rest; w_p := BroadcastRecord rec (w_p w); w_boot := w_boot w; w_sess := w_sess w;
         w_relayed := w_relayed w; w_dropped := w_dropped w || full (w_p w) |}.
Proof.
  intros [H1 [H0 H0'] H2 H3] Ht. set (w1 := Build_world _ _ _ _ _ _ _).
  assert (Hg : gapless w1 → gapless w ∧ p_liveCh (w_p w1) = p_liveCh (w_p w) ++ [encodeRecordPlain rec]).
  { intros [G1 G2]. unfold w1, BroadcastRecord, full in *. cbn [w_p w_dropped] in *. apply orb_false_iff in G2 as [G2 G3]. apply orb_false_iff in G3 as [G3 G4].
    rewrite G3 in *. apply negb_false_iff in G4. rewrite G4 in *. done. }
  assert (Hrep : p_replicas (w_p w1) = p_replicas (w_p w)) by (unfold w1, BroadcastRecord; cbn; by destruct (p_done _); [|destruct (_ <? _)]).
  rewrite Ht in H0'. apply Forall_cons_1 in H0' as [Hrec H0']. split; [done| | |].
  - split; [|done]. cbn. unfold BroadcastRecord. destruct (p_done _); [done|]. destruct (_ <? _); [|done].
    apply Forall_app. split; [done|]. apply Forall_singleton. by apply sendable_sized.
  - intros G. destruct (Hg G) as [G0 ->]. destruct (H2 G0) as [Hr Hq]. split; [done|]. rewrite Ht in Hq. rewrite <- app_assoc. exact Hq.
  - rewrite Hrep. intros id r Hr. destruct (H3 id r Hr) as (s & Hs & Hc & Hok). exists s. split; [done|]. split; [done|]. intros Ho.
    apply (sess_frame w); [done|done|by intros [? _]%Hg|done|auto].
Qed.

Lemma drop_S_head {A} n (l : list A) x rest : drop n l = x :: rest → drop (S n) l = rest ∧ (n < length l)%nat.
Proof.
  intros E. split.
  - replace (S n) with (n + 1)%nat by lia. by rewrite <- drop_drop, E.
  - apply (f_equal length) in E. rewrite length_drop in E. cbn in E. lia.
Qed.

Lemma inv_relay w data rest :
  inv w → p_done (w_p w) = false → p_liveCh (w_p w) = data :: rest →
  inv {| w_log := w_log w; w_todo := w_todo w; w_p := relay gcm (w_p w); w_boot := w_boot w;
         w_sess := map_imap (λ id s, Some (sent_live (bool_decide (is_Some (w_boot w !! id))) data s)) (w_sess w);
         w_relayed := S (w_relayed w); w_dropped := w_dropped w |}.
Proof.
  intros [H1 [H0 H0'] H2 H3] Hd Hq. rewrite Hq in H0. apply Forall_cons_1 in H0 as [Hsz H0].
  assert (Hp : relay gcm (w_p w) = set_replicas (set_liveCh (w_p w) rest) (broadcast_one gcm data <$> p_replicas (w_p w))).
  { unfold relay. rewrite Hd, Hq. unfold Broadcast. destruct Hsz. destruct (_ || _) eqn:E; [apply orb_true_iff in E as [E|E]; lia|done]. }
  rewrite Hp. set (w1 := Build_world _ _ _ _ _ _ _).
  assert (Hstep : gapless w → drop (w_relayed w) (datas w) = data :: (rest ++ (encodeRecordPlain <$> w_todo w))).
  { intros G. destruct (H2 G) as [_ <-]. by rewrite Hq. }
  split; [done|done| |].
  - intros G. destruct (drop_S_head _ _ _ _ (Hstep G)) as [E1 E2]. split; [unfold datas in E2; rewrite length_fmap in E2; cbn; lia|].
    cbn [w_relayed w1]. change (datas w1) with (datas w). by rewrite E1.
  - intros id r1 Hr1. cbn [w_p w1 set_replicas p_replicas] in Hr1. rewrite lookup_fmap in Hr1.
    destruct (p_replicas (w_p w) !! id) as [r|] eqn:Er; [|done]. injection Hr1 as <-.
    destruct (H3 id r Er) as (s & Hs & Hc & Hok). cbn [w_sess w1].
    exists (sent_live (bool_decide (is_Some (w_boot w !! id))) data s). split; [by rewrite map_lookup_imap, Hs|].
    unfold broadcast_one. destruct (send_to gcm data r) as [ok r1] eqn:Es. pose proof (send_to_ok data r ok r1 s (sent_live (bool_decide (is_Some (w_boot w !! id))) data s) Hc Es eq_refl eq_refl eq_refl) as Hc1.
    destruct ok; [|done]. split; [done|]. intros _.
    assert (Ho : sr_closed r = false) by (unfold send_to in Es; by destruct (sr_closed r)).
    destruct (Hok Ho) as [S1 S2 S3]. split.
    + cbn [g_mixed sent_live g_sent g_boot g_live w_boot w1]. intros [M1 M2]%orb_false_iff. destruct (S1 M1) as [-> _].
      split; [by rewrite app_assoc|]. intros Hb. by rewrite bool_decide_eq_true_2 in M2.
    + intros G. destruct (S2 G) as [L1 L2]. cbn [w_relayed w1 sent_live g_from g_live]. change (datas w1) with (datas w). split; [lia|].
      destruct (drop_S_head _ _ _ _ (Hstep G)) as [-> _]. by rewrite <- L2, (Hstep G), <- app_assoc.
    + exact S3.
Qed.

Lemma inv_admit w fresh conn fc conn1 id p1 :
  inv w → serverHandshake (p_token (w_p w)) fresh conn = (Some fc, conn1) → admit_replica fresh conn (w_p w) = (Some id, p1) →
  fc_counter fc = 0 →
  inv {| w_log := w_log w; w_todo := w_todo w; w_p := p1; w_boot := <[id := None]> (w_boot w);
         w_sess := <[id := {| g_base := c_out conn1; g_key := fc_key fc; g_from := w_relayed w; g_boot := []; g_live := [];
                              g_sent := []; g_mixed := false |}]> (w_sess w);
         w_relayed := w_relayed w; w_dropped := w_dropped w |}.
Proof.
  intros Hi Hh Ha Hfc. unfold admit_replica in Ha. rewrite Hh in Ha. destruct (p_done (w_p w)) eqn:Ed; [done|]. injection Ha as <- <-.
  apply (inv_frame w); [done|done|done|done|done|done|]. intros id r. cbn [w_p p_replicas w_sess w_boot].
  set (new := u64 (p_nextID (w_p w) + 1)). destruct (decide (new = id)) as [<-|Hne].
  - rewrite !lookup_insert_eq. intros [= <-]. eexists. split; [done|]. split.
    + intros _. cbn. rewrite app_nil_r. split; [|done]. destruct fc as [k n]. cbn in Hfc. by subst n.
    + intros _. split; cbn [g_mixed g_sent g_boot g_live g_from w_boot w_relayed].
      * done.
      * done.
      * by rewrite lookup_insert_eq.
  - rewrite !lookup_insert_ne by done. intros Hr. destruct (i_conn w Hi id r Hr) as (s & Hs & Hc & Hok). exists s. split; [done|]. split; [done|].
    intros Ho. apply (sess_frame w); [done|done| |by cbn; rewrite lookup_insert_ne|auto]. intros [G1 G2]. split; [exact Ed|exact G2].
Qed.

(** Steps of the bootstrap of [id] and removals. *)
Lemma inv_other w w1 id :
  inv w → w_log w1 = w_log w → w_relayed w1 = w_relayed w → w_todo w1 = w_todo w → w_dropped w1 = w_dropped w →
  p_done (w_p w1) = p_done (w_p w) → p_liveCh (w_p w1) = p_liveCh (w_p w) →
  (∀ id', id' ≠ id → w_boot w1 !! id' = w_boot w !! id' ∧ w_sess w1 !! id' = w_sess w !! id' ∧
     p_replicas (w_p w1) !! id' = p_replicas (w_p w) !! id') →
  (∀ r, p_replicas (w_p w1) !! id = Some r →
     ∃ s, w_sess w1 !! id = Some s ∧ conn_ok r s ∧ (sr_closed r = false → sess_ok w1 id s)) →
  inv w1.
Proof.
  intros Hi E1 E2 E3 E4 E5 E6 Ho Hid. assert (Hg : gapless w1 → gapless w) by (unfold gapless; by rewrite E4, E5).
  apply (inv_frame w); [done..|]. intros id' r. destruct (decide (id' = id)) as [->|Hne]; [apply Hid|].
  destruct (Ho id' Hne) as (B1 & B2 & B3). rewrite B2, B3. intros Hr. destruct (i_conn w Hi id' r Hr) as (s & Hs & Hc & Hok).
  exists s. split; [done|]. split; [done|]. intros Hcl. apply (sess_frame w); auto.
Qed.

Lemma inv_boot w id rec rest ok p1 :
  inv w → w_boot w !! id = Some (Some (rec :: rest)) → bootstrap_send gcm id rec (w_p w) = (ok, p1) →
  inv {| w_log := w_log w; w_todo := w_todo w; w_p := p1;
         w_boot := if ok : bool then <[id := Some rest]> (w_boot w) else delete id (w_boot w);
         w_sess := alter (sent_boot (encodeRecordPlain rec)) id (w_sess w);
         w_relayed := w_relayed w; w_dropped := w_dropped w |}.
Proof.
  intros Hi Hb Hsend. unfold bootstrap_send in Hsend. set (data := encodeRecordPlain rec) in *.
  destruct (p_replicas (w_p w) !! id) as [r|] eqn:Er.
  - destruct (send_to gcm data r) as [ok1 r1] eqn:Es. destruct ok1; injection Hsend as <- <-.
    + apply (inv_other w _ id); [done..| |].
      { intros id' Hne. cbn. by rewrite !lookup_insert_ne, lookup_alter_ne. }
      cbn [w_p set_replicas p_replicas w_sess]. rewrite lookup_insert_eq. intros r0 [= <-].
      destruct (i_conn w Hi id r Er) as (s & Hs & Hc & Hok). exists (sent_boot data s). split; [by rewrite lookup_alter, decide_True, Hs|].
      split; [exact (send_to_ok data r true r1 s (sent_boot data s) Hc Es eq_refl eq_refl eq_refl)|]. intros _.
      assert (Ho : sr_closed r = false) by (unfold send_to in Es; by destruct (sr_closed r)).
      destruct (Hok Ho) as [S1 S2 S3]. rewrite Hb in S1, S3. split.
      * cbn [g_mixed sent_boot g_sent g_boot g_live w_boot]. intros M. destruct (S1 M) as [-> Hl]. rewrite (Hl ltac:(by eexists)).
        split; [by rewrite !app_nil_r|done].
      * exact S2.
      * cbn [w_boot]. rewrite lookup_insert_eq. destruct S3 as (n & N1 & N2 & N3). exists n. split; [done|]. split; [done|].
        cbn [g_boot sent_boot]. rewrite <- app_assoc. exact N3.
    + apply (inv_other w _ id); [done..| |].
      { intros id' Hne. cbn. by rewrite !lookup_delete_ne, lookup_alter_ne. }
      cbn. by rewrite lookup_delete_eq.
  - injection Hsend as <- <-. apply (inv_other w _ id); [done..| |].
    { intros id' Hne. cbn. by rewrite lookup_delete_ne, lookup_alter_ne. }
    cbn [w_p]. by rewrite Er.
Qed.

Lemma inv_step w w1 : inv w → step w w1 → inv w1.
Proof.
  intros Hi Hstep. destruct Hstep as [rec Hrec|rec rest Ht|data rest Hd Hq|fresh conn fc conn1 id p1 Hn Hh Ha|id Hb|id Hb|id rec rest ok p1 Hb Hs|id Hb|id r Hr Hc|].
  - by apply inv_write.
  - by apply inv_notify.
  - by eapply inv_relay.
  - eapply inv_admit; [done|done|done|]. clear -Hh. unfold serverHandshake in Hh. destruct (_ <? _); [done|].
    destruct (readExactFrame _ conn) as [[hello|] c2]; [|done]. destruct (negb _); [done|]. destruct fresh as [pn|]; [|done].
    destruct (writeFrame _ _) as [okw c3]. destruct (negb okw); [done|]. destruct (readExactFrame _ c3) as [[proof|] c4]; [|done].
    destruct (negb _); [done|]. rewrite sessionCipher_ok in Hh. by injection Hh as <- _.
  - apply (inv_other w _ id); [done..| |].
    { intros id' Hne. cbn. by rewrite lookup_insert_ne. }
    cbn [w_p]. intros r Hr. destruct (i_conn w Hi id r Hr) as (s & Hs & Hc & Hok). exists s. split; [done|]. split; [done|].
    intros Ho. destruct (Hok Ho) as [S1 S2 S3]. rewrite Hb in S1, S3. split.
    + intros M. destruct (S1 M) as [E Hl]. split; [done|]. intros _. apply Hl. by eexists.
    + exact S2.
    + cbn [w_boot]. rewrite lookup_insert_eq. exists (length (w_log w)). split; [done|]. split.
      * intros G. destruct (S2 G) as [L1 _]. destruct (i_queue w Hi G) as [L2 _]. lia.
      * rewrite S3, take_ge by (unfold datas; rewrite length_fmap; done). unfold datas. cbn [w_log app]. rewrite <- list_fmap_compose.
        apply list_fmap_ext. intros i rec _. apply encode_reread.
  - apply (inv_other w _ id); [done..| |].
    { intros id' Hne. cbn. by rewrite !lookup_delete_ne. }
    cbn. by rewrite lookup_delete_eq.
  - by eapply inv_boot.
  - apply (inv_other w _ id); [done..| |].
    { intros id' Hne. cbn. by rewrite lookup_delete_ne. }
    cbn [w_p]. intros r Hr. destruct (i_conn w Hi id r Hr) as (s & Hs & Hc & Hok). exists s. split; [done|]. split; [done|].
    intros Ho. destruct (Hok Ho) as [S1 S2 S3]. rewrite Hb in S1, S3. split.
    + intros M. destruct (S1 M) as [E Hl]. split; [done|]. cbn. rewrite lookup_delete_eq. by intros [? ?].
    + exact S2.
    + cbn [w_boot]. rewrite lookup_delete_eq. rewrite fmap_nil in S3. destruct S3 as (n & N1 & N2 & N3). exists n. by rewrite app_nil_r in N3.
  - apply (inv_other w _ id); [done..| |].
    { intros id' Hne. cbn. by rewrite lookup_delete_ne. }
    cbn. by rewrite lookup_delete_eq.
  - apply (inv_frame w); [done|done|done|done|by intros [? _]|done|]. cbn. intros id r. by rewrite lookup_empty.
Qed.

Lemma reachable_inv token w : reachable token w → inv w.
Proof.
  induction 1 as [|w w1 _ IH Hs]; [|by eapply inv_step]. split; [constructor|by split|by split|]. cbn. intros id r. by rewrite lookup_empty.
Qed.

(** A session that is over its bootstrap, in order and with nothing left to send. *)
Lemma session_complete token w id r s :
  reachable token w → p_replicas (w_p w) !! id = Some r → sr_closed r = false → w_sess w !! id = Some s →
  w_boot w !! id = None → w_todo w = [] → p_liveCh (w_p w) = [] → gapless w → g_mixed s = false →
  Forall sendable (w_log w) ∧ fc_key (sr_cipher r) = g_key s ∧ ∃ m n, (m ≤ n)%nat ∧
    c_out (sr_conn r) = g_base s ++ session_bytes gcm (g_key s) 0 (encodeRecordPlain <$> (take n (w_log w) ++ drop m (w_log w))).
Proof.
  intros Hreach Hr Ho Hs Hb Ht Hq G Hm. pose proof (reachable_inv _ _ Hreach) as [H1 _ H2 H3].
  destruct (H3 id r Hr) as (s' & Hs' & Hc & Hok). rewrite Hs in Hs'. injection Hs' as <-. destruct (Hc Ho) as [Hfc Hout].
  destruct (Hok Ho) as [S1 S2 S3]. rewrite Hb in S3. destruct S3 as (n & N1 & N2 & N3). destruct (S1 Hm) as [Hsent _].
  destruct (S2 G) as [L1 L2]. destruct (H2 G) as [Q1 Q2]. rewrite Hq, Ht in Q2. cbn in Q2. rewrite <- Q2, app_nil_r in L2.
  split; [done|]. split; [by rewrite Hfc|]. exists (g_from s), n. split; [auto|]. rewrite Hout, Hsent, N3, L2. unfold datas.
  by rewrite fmap_app, fmap_take, fmap_drop.
Qed.
End System.


(** ** Schedules *)
Inductive action :=
| AWrite (rec : WALRecord) | ANotify | ARelay | AAdmit (fresh : option (list byte)) (conn : Conn)
| ARead (id : Z) | ABoot (id : Z) | ABooted (id : Z).

Definition act (gcm : list byte → AEAD) (a : action) (w : world) : option world :=
  let with_p p boot sess := {| w_log := w_log w; w_todo := w_todo w; w_p := p; w_boot := boot; w_sess := sess;
                               w_relayed := w_relayed w; w_dropped := w_dropped w |} in
  match a with
  | AWrite rec =>
      Some {| w_log := w_log w ++ [rec]; w_todo := w_todo w ++ [rec]; w_p := w_p w; w_boot := w_boot w; w_sess := w_sess w;
              w_relayed := w_relayed w; w_dropped := w_dropped w |}
  | ANotify =>
      match w_todo w with
      | [] => None
      | rec :: rest =>
          Some {| w_log := w_log w; w_todo := rest; w_p := BroadcastRecord rec (w_p w); w_boot := w_boot w; w_sess := w_sess w;
                  w_relayed := w_relayed w; w_dropped := w_dropped w || full (w_p w) |}
      end
  | ARelay =>
      if p_done (w_p w) then None
      else match p_liveCh (w_p w) with
           | [] => None
           | data :: _ =>
               Some {| w_log := w_log w; w_todo := w_todo w; w_p := relay gcm (w_p w); w_boot := w_boot w;
                       w_sess := map_imap (λ id s, Some (sent_live (bool_decide (is_Some (w_boot w !! id))) data s)) (w_sess w);
                       w_relayed := S (w_relayed w); w_dropped := w_dropped w |}
           end
  | AAdmit fresh conn =>
      if p_nextID (w_p w) + 1 <? 2 ^ 64 then
        match serverHandshake (p_token (w_p w)) fresh conn, admit_replica fresh conn (w_p w) with
        | (Some fc, conn1), (Some id, p1) =>
            Some (with_p p1 (<[id := None]> (w_boot w))
              (<[id := {| g_base := c_out conn1; g_key := fc_key fc; g_from := w_relayed w; g_boot := []; g_live := []; g_sent := [];
                          g_mixed := false |}]> (w_sess w)))
        | _, _ => None
        end
      else None
  | ARead id =>
      match w_boot w !! id with
      | Some None => Some (with_p (w_p w) (<[id := Some (reread_record <$> w_log w)]> (w_boot w)) (w_sess w))
      | _ => None
      end
  | ABoot id =>
      match w_boot w !! id with
      | Some (Some (rec :: rest)) =>
          let '(ok, p1) := bootstrap_send gcm id rec (w_p w) in
          Some (with_p p1 (if ok then <[id := Some rest]> (w_boot w) else delete id (w_boot w))
                 (alter (sent_boot (encodeRecordPlain rec)) id (w_sess w)))
      | _ => None
      end
  | ABooted id =>
      match w_boot w !! id with Some (Some []) => Some (with_p (w_p w) (delete id (w_boot w)) (w_sess w)) | _ => None end
  end.

Definition allowed (a : action) : Prop := if a is AWrite rec then sendable rec else True.

Lemma act_step gcm a w w1 : allowed a → act gcm a w = Some w1 → step gcm w w1.
Proof.
  destruct a as [rec| | |fresh conn|id|id|id]; cbn [act allowed]; intros Ha.
  - intros [= <-]. by constructor.
  - destruct (w_todo w) as [|rec rest] eqn:E; [done|]. intros [= <-]. by apply step_notify.
  - destruct (p_done _) eqn:Ed; [done|]. destruct (p_liveCh _) as [|data rest] eqn:E; [done|]. intros [= <-]. by eapply step_relay.
  - destruct (_ <? _) eqn:En; [|done]. apply Z.ltb_lt in En. destruct (serverHandshake _ _ _) as [[fc|] conn1] eqn:Eh; [|done].
    destruct (admit_replica _ _ _) as [[id|] p1] eqn:E; [|done]. intros [= <-]. by eapply step_admit.
  - destruct (w_boot w !! id) as [[rest|]|] eqn:E; [done| |done]. intros [= <-]. by apply step_read.
  - destruct (w_boot w !! id) as [[[|rec rest]|]|] eqn:E; [done| |done..]. destruct (bootstrap_send _ _ _ _) as [ok p1] eqn:Es. intros [= <-]. by eapply step_boot.
  - destruct (w_boot w !! id) as [[[|rec rest]|]|] eqn:E; [|done..]. intros [= <-]. by apply step_booted.
Qed.

Fixpoint acts (gcm : list byte → AEAD) (l : list action) (w : world) : option world :=
  match l with [] => Some w | a :: l => match act gcm a w with Some w => acts gcm l w | None => None end end.

Lemma acts_reach gcm token l w w1 : Forall allowed l → reachable gcm token w → acts gcm l w = Some w1 → reachable gcm token w1.
Proof.
  intros Hl. revert w. induction Hl as [|a l Ha _ IH]; intros w Hr; cbn [acts]; [by intros [= <-]|].
  destruct (act gcm a w) as [w2|] eqn:E; [|done]. apply IH. eapply reach_step; [done|]. by eapply act_step.
Qed.

(** ** Histories of one replica *)
Definition demo_rn : list byte := replicate 32 Byte.x02.
Definition demo_pn : list byte := replicate 32 Byte.x01.
Definition hello : Conn :=
  {| c_in := framed (handshakeMagic ++ demo_rn) ++ framed (handshakeMAC demo_token labelReplica demo_pn demo_rn);
     c_out := []; c_room := None |}.
Definition demo_primary : Executor :=
  run1 7 (cmd_of "incr" ["n"]) (run1 6 (cmd_of "SET" ["a"; "2"]) (run1 5 (cmd_of "SET" ["a"; "1"]) demo_executor)).
Definition demo_log : list WALRecord := Eval vm_compute in if wal demo_primary is Some w then w_records w else [].
Definition first_rec : WALRecord := Eval vm_compute in nth 0 demo_log demo_rec.
Definition second_rec : WALRecord := Eval vm_compute in nth 1 demo_log demo_rec.
Definition third_rec : WALRecord := Eval vm_compute in nth 2 demo_log demo_rec.

(** The replica connects after the first record; its bootstrap reads the first
    two, the second also comes live, the third only live. *)
Definition in_order : list action :=
  [AWrite first_rec; ANotify; ARelay; AAdmit (Some demo_pn) hello; AWrite second_rec; ARead 1; ABoot 1; ABoot 1; ABooted 1;
   ANotify; ARelay; AWrite third_rec; ANotify; ARelay].
(** The second record is written after the log was read and relayed before the
    first was sent. *)
Definition overtaken : list action :=
  [AWrite first_rec; ANotify; ARelay; AAdmit (Some demo_pn) hello; ARead 1; AWrite second_rec; ANotify; ARelay; ABoot 1; ABooted 1].

Definition demo_world (l : list action) : world := default (initial demo_token) (acts (λ _, tagged) l (initial demo_token)).
Definition new_replica : Replica (V := unit) := {| rp_kv := New 4; rp_vec := tt; rp_accounted := 0 |}.
(** The value the replica has for a key once it has read its connection. *)
Definition replica_value (key : string) (w : world) : option value :=
  match p_replicas (w_p w) !! 1, w_sess w !! 1 with
  | Some r, Some s =>
      let rep := fst (consumeStream (λ _, tagged) (replica_apply (λ _, 8)) {| fc_key := fc_key (sr_cipher r); fc_counter := 0 |}
                       (drop (length (g_base s)) (c_out (sr_conn r))) (new_replica, 0%nat)) in
      Value <$> (view (rp_kv rep) !! key)
  | _, _ => None
  end.

(** A live record that overtakes the bootstrap is undone by it: the replica ends
    with the old value although it has received both records. *)
Example bootstrap_overwrites_live :
  replica_value "a" (demo_world in_order) = Some (VBytes (to_slice "2")) ∧
  replica_value "a" (demo_world overtaken) = Some (VBytes (to_slice "1")) ∧
  p_liveCh (w_p (demo_world overtaken)) = [] ∧ w_todo (demo_world overtaken) = [].
Proof. vm_compute. repeat split; reflexivity. Qed.

Definition demo_conn : StreamReplicaConn :=
  default {| sr_conn := hello; sr_closed := true; sr_cipher := demo_fc |} (p_replicas (w_p (demo_world in_order)) !! 1).
Definition demo_session : session :=
  default {| g_base := []; g_key := []; g_from := 0; g_boot := []; g_live := []; g_sent := []; g_mixed := true |}
    (w_sess (demo_world in_order) !! 1).

Lemma plain_set now s cmd :
  0 ≤ now ≤ 9 → Normalized cmd = "SET"%string → StringStore.sa_ttlSec <$> (match StringStore.ParseSetArgs (drop 1 (Args cmd)) with Ok a => Some a | _ => None end) = Some 0 →
  replayable 9 now s cmd.
Proof.
  intros Hnow Hn Ha. unfold replayable. cbv zeta. rewrite Hn. conjs; intros He; try discriminate He.
  intros a E. rewrite E in Ha. injection Ha as ->. unfold MaxInt64. lia.
Qed.

Lemma plain_incr now s cmd : Normalized cmd = "INCR"%string → replayable 9 now s cmd.
Proof. intros Hn. unfold replayable. cbv zeta. rewrite Hn. conjs; intros He; discriminate He. Qed.

Lemma demo_history : history demo_rest 9 demo_executor demo_primary.
Proof.
  unfold demo_primary, run1.
  eapply history_step; [eapply history_step; [eapply history_step; [constructor|done|by vm_compute|lia|..]|by vm_compute|by vm_compute|lia|..]|
    by vm_compute|by vm_compute|lia|..].
  1, 3, 5: apply (bool_decide_unpack _); vm_compute; exact I.
  1, 2: apply plain_set; [lia|vm_compute; reflexivity|vm_compute; reflexivity].
  apply plain_incr. vm_compute. reflexivity.
Qed.

Lemma some_default {A} (o : option A) d : is_Some o → o = Some (default d o).
Proof. by intros [x ->]. Qed.

Lemma in_order_reaches : reachable (λ _, tagged) demo_token (demo_world in_order).
Proof.
  eapply (acts_reach _ _ in_order); [|apply reach_init|].
  - unfold in_order. repeat (apply Forall_cons_2; [first [exact I|cbn [allowed]; small_record]|]). apply Forall_nil_2.
  - apply some_default. apply (bool_decide_unpack _). vm_compute. exact I.
Qed.

