(* ===== verification/StateFile.v ===== *)
(** * The state file of the orchestrator ([orchestrator/manager.go]: [saveState],
    [loadState])

    The state is written to a temporary file, the old file is set aside, and the
    new one takes its place. A disk is the contents of the three files; a file
    whose write was cut holds no state. [saveState] answers whether it succeeded
    and lists the disk after every call to the file system: a crash leaves one of
    them. Calls that succeed are durable in their order. *)

From S2P Require Import Prelude.
Open Scope Z_scope.

Section StateFile.
Context {A : Type}.

(** [None]: no file; [Some None]: a torn one. *)
Record Disk := { d_state : option (option A); d_tmp : option (option A); d_bak : option (option A) }.

Inductive load_result := Loaded (v : A) | NotExist | Corrupt.

(** [loadState]: the backup is read when the state file cannot be. *)
Definition loadState (d : Disk) : load_result :=
  match d_state d with
  | Some (Some v) => Loaded v
  | Some None => Corrupt
  | None =>
      match d_bak d with
      | Some (Some v) => Loaded v
      | Some None => Corrupt
      | None => NotExist
      end
  end.

(** Which calls succeed: opening the temporary file, writing, syncing and closing
    it, removing the old backup, the two renames, the rename that undoes the first,
    and removing the backup and the temporary file at the end. *)
Record Faults := {
  f_open : bool; f_write : bool; f_unlink : bool; f_aside : bool; f_install : bool; f_restore : bool;
  f_clean : bool; f_untmp : bool
}.
Definition no_faults : Faults :=
  {| f_open := true; f_write := true; f_unlink := true; f_aside := true; f_install := true; f_restore := true;
     f_clean := true; f_untmp := true |}.

Definition with_tmp (t : option (option A)) (d : Disk) : Disk := {| d_state := d_state d; d_tmp := t; d_bak := d_bak d |}.
Definition remove_bak (d : Disk) : Disk := {| d_state := d_state d; d_tmp := d_tmp d; d_bak := None |}.
Definition rename_aside (d : Disk) : Disk := {| d_state := None; d_tmp := d_tmp d; d_bak := d_state d |}.
Definition rename_install (d : Disk) : Disk := {| d_state := d_tmp d; d_tmp := None; d_bak := d_bak d |}.
Definition rename_back (d : Disk) : Disk :=
  match d_bak d with Some b => {| d_state := Some b; d_tmp := d_tmp d; d_bak := None |} | None => d end.

(** [os.Remove] with the error ignored. *)
Definition unlink_bak (ok : bool) (d : Disk) : Disk := if ok then remove_bak d else d.
Definition unlink_tmp (ok : bool) (d : Disk) : Disk := if ok then with_tmp None d else d.

(** The result and the disk after each call, the last one first. A rename replaces
    the file that has the name. *)
Definition install (f : Faults) (d : Disk) (past : list Disk) : bool * list Disk :=
  if f_install f then
    let d1 := rename_install d in
    (true, unlink_bak (f_clean f) d1 :: d1 :: past)
  else (false, (if f_restore f then rename_back d else d) :: past).

Definition saveState (f : Faults) (v : A) (d : Disk) : bool * list Disk :=
  if negb (f_open f) then (false, [d])
  else
    let d1 := with_tmp (Some None) d in
    if negb (f_write f) then (false, [unlink_tmp (f_untmp f) d1; d1; d])
    else
      let d2 := with_tmp (Some (Some v)) d in
      let d3 := unlink_bak (f_unlink f) d2 in
      let past := [d3; d2; d1; d] in
      match d_state d3 with
      | None => install f d3 past
      | Some _ =>
          if f_aside f then let d4 := rename_aside d3 in install f d4 (d4 :: past)
          else (false, unlink_tmp (f_untmp f) d3 :: past)
      end.

Definition after (r : bool * list Disk) (d : Disk) : Disk := hd d (snd r).

(** A crash during [saveState] leaves a disk of which [P] holds. *)
Definition crash_leaves (P : load_result → Prop) (f : Faults) (v : A) (d : Disk) : Prop :=
  Forall (λ d1, P (loadState d1)) (snd (saveState f v d)).

End StateFile.
Arguments Disk : clear implicits.

Definition demo_disk : Disk nat := {| d_state := Some (Some 1%nat); d_tmp := None; d_bak := None |}.


(** After a crash between the two renames only the backup is left. The next save
    removes it before the new file is in place: a second crash there leaves
    neither file, and the orchestrator starts without tenants. *)
Example second_crash_loses_state :
  let between := {| d_state := None; d_tmp := Some (Some 2%nat); d_bak := Some (Some 1%nat) |} in
  between ∈ snd (saveState no_faults 2%nat demo_disk) ∧ loadState between = Loaded 1%nat ∧
  ∃ d, d ∈ snd (saveState no_faults 3%nat between) ∧ loadState d = NotExist.
Proof.
  cbv zeta. split; [cbn; do 2 right; left|]. split; [reflexivity|].
  exists {| d_state := None; d_tmp := Some (Some 3%nat); d_bak := None |}. split; [cbn; do 2 right; left|reflexivity].
Qed.
