(* ===== verification/Config.v ===== *)
(** * Configuration ([config/*.go])

    The configuration of a server with its defaults, the checks on it, memory
    sizes, and the configuration of a tenant engine. Durations are nanoseconds.
    The YAML decoder is a parameter of [Load]. *)

From S2P Require Import Prelude GoStd.
Open Scope Z_scope.

(** ** The configuration *)
Record ServerConfig := {
  Host : string; Port : Z; HTTPPort : Z; GRPCPort : Z; Socket : string; HTTPSocket : string;
  MaxConnections : Z; ReadTimeout : Z; WriteTimeout : Z; PeerPIDs : list Z
}.
Record EngineConfig := {
  MaxMemory : string; EvictionPolicy : string; DefaultTTL : Z; NumShards : Z; MaxVectorsPerTenant : Z; VectorEncoding : string
}.
Record PersistenceConfig := {
  p_Enabled : bool; DataDir : string; WALDir : string; SnapshotDir : string; BackupDir : string; WALSync : string;
  SnapshotInterval : Z; CompactionInterval : Z
}.
Record ReplicationConfig := {
  Role : string; ListenAddr : string; PrimaryAddr : string; Token : string; Replicas : list string; Quorum : Z;
  SyncTimeout : Z; LagThreshold : Z;
  RaftEnabled : bool; RaftNodeID : string; RaftBindAddr : string; RaftDir : string; RaftBootstrap : bool; RaftJoinAddr : string
}.
Record ClusterConfig := { c_Enabled : bool; NodeID : string; Nodes : list string; SlotCount : Z; RebalanceInterval : Z }.
Record AuthConfig := { a_Enabled : bool; DefaultUser : string; RequirePassword : bool; ACLFile : string }.
Record RateLimitConfig := { rl_Enabled : bool; RequestsPerSecond : Z; Burst : Z }.
Record EncryptionConfig := { enc_Enabled : bool; enc_Key : string }.
Record TLSConfig := { tls_Enabled : bool; CertFile : string; KeyFile : string; CAFile : string; RequireClientCert : bool }.
Record SecurityConfig := { RateLimit : RateLimitConfig; Encryption : EncryptionConfig; TLS : TLSConfig }.
Record PolicyConfig := { Eviction : string; MaxMemorySamples : Z; Lazyfree : bool; Retention_Default : string }.
Record TieringConfig := { t_Enabled : bool; NVMEPath : string; ThresholdMB : Z }.
Record ObservabilityConfig := {
  Metrics_Enabled : bool; Metrics_Port : Z; Metrics_Path : string; Tracing_Enabled : bool; Tracing_Endpoint : string;
  Logging_Level : string; Logging_Format : string; Profiling_Enabled : bool; Profiling_Port : Z
}.
Record WorkflowConfig := { w_Enabled : bool; MaxRetries : Z; RetryBackoff : Z; DLQMaxSize : Z }.
Record EventsConfig := { MaxChannels : Z; MaxSubscribersPerChannel : Z; Streams_MaxLength : Z; Streams_Retention : string }.
Record Config := {
  Server : ServerConfig; Engine : EngineConfig; Persistence : PersistenceConfig; Replication : ReplicationConfig;
  Cluster : ClusterConfig; Auth : AuthConfig; Security : SecurityConfig; Policy : PolicyConfig; Tiering : TieringConfig;
  Observability : ObservabilityConfig; Workflow : WorkflowConfig; Events : EventsConfig
}.

Definition sec : Z := 1000000000.

Definition Defaults : Config := {|
  Server := {| Host := "127.0.0.1"; Port := 6399; HTTPPort := 8080; GRPCPort := 9090; Socket := ""; HTTPSocket := "";
               MaxConnections := 10000; ReadTimeout := 30 * sec; WriteTimeout := 30 * sec; PeerPIDs := [] |};
  Engine := {| MaxMemory := "256mb"; EvictionPolicy := "no-eviction"; DefaultTTL := 0; NumShards := 256;
               MaxVectorsPerTenant := 0; VectorEncoding := "" |};
  Persistence := {| p_Enabled := true; DataDir := "./data"; WALDir := "./data/wal"; SnapshotDir := "./data/snapshots";
                    BackupDir := "./data/backups"; WALSync := "everysec"; SnapshotInterval := 3600 * sec; CompactionInterval := 24 * 3600 * sec |};
  Replication := {| Role := ""; ListenAddr := ""; PrimaryAddr := ""; Token := ""; Replicas := []; Quorum := 1;
                    SyncTimeout := 5 * sec; LagThreshold := 10 * sec;
                    RaftEnabled := false; RaftNodeID := ""; RaftBindAddr := ""; RaftDir := ""; RaftBootstrap := false; RaftJoinAddr := "" |};
  Cluster := {| c_Enabled := false; NodeID := "node-01"; Nodes := []; SlotCount := 16384; RebalanceInterval := 300 * sec |};
  Auth := {| a_Enabled := true; DefaultUser := "default"; RequirePassword := true; ACLFile := "" |};
  Security := {| RateLimit := {| rl_Enabled := true; RequestsPerSecond := 10000; Burst := 1000 |};
                 Encryption := {| enc_Enabled := false; enc_Key := "" |};
                 TLS := {| tls_Enabled := false; CertFile := "./certs/server.crt"; KeyFile := "./certs/server.key";
                           CAFile := "./certs/ca.crt"; RequireClientCert := true |} |};
  Policy := {| Eviction := "lru"; MaxMemorySamples := 5; Lazyfree := true; Retention_Default := "7d" |};
  Tiering := {| t_Enabled := false; NVMEPath := "./data/nvme"; ThresholdMB := 256 |};
  Observability := {| Metrics_Enabled := true; Metrics_Port := 2112; Metrics_Path := "/metrics"; Tracing_Enabled := false;
                      Tracing_Endpoint := ""; Logging_Level := "info"; Logging_Format := "json"; Profiling_Enabled := false; Profiling_Port := 0 |};
  Workflow := {| w_Enabled := true; MaxRetries := 3; RetryBackoff := sec; DLQMaxSize := 10000 |};
  Events := {| MaxChannels := 1000; MaxSubscribersPerChannel := 1000; Streams_MaxLength := 100000; Streams_Retention := "7d" |}
|}.

(** ** Updates of single fields *)
Definition set_Server (f : ServerConfig → ServerConfig) (c : Config) : Config :=
  {| Server := f (Server c); Engine := Engine c; Persistence := Persistence c; Replication := Replication c; Cluster := Cluster c;
     Auth := Auth c; Security := Security c; Policy := Policy c; Tiering := Tiering c; Observability := Observability c;
     Workflow := Workflow c; Events := Events c |}.
Definition set_Engine (f : EngineConfig → EngineConfig) (c : Config) : Config :=
  {| Server := Server c; Engine := f (Engine c); Persistence := Persistence c; Replication := Replication c; Cluster := Cluster c;
     Auth := Auth c; Security := Security c; Policy := Policy c; Tiering := Tiering c; Observability := Observability c;
     Workflow := Workflow c; Events := Events c |}.
Definition set_Persistence (f : PersistenceConfig → PersistenceConfig) (c : Config) : Config :=
  {| Server := Server c; Engine := Engine c; Persistence := f (Persistence c); Replication := Replication c; Cluster := Cluster c;
     Auth := Auth c; Security := Security c; Policy := Policy c; Tiering := Tiering c; Observability := Observability c;
     Workflow := Workflow c; Events := Events c |}.
Definition set_Replication (f : ReplicationConfig → ReplicationConfig) (c : Config) : Config :=
  {| Server := Server c; Engine := Engine c; Persistence := Persistence c; Replication := f (Replication c); Cluster := Cluster c;
     Auth := Auth c; Security := Security c; Policy := Policy c; Tiering := Tiering c; Observability := Observability c;
     Workflow := Workflow c; Events := Events c |}.
Definition set_Cluster (f : ClusterConfig → ClusterConfig) (c : Config) : Config :=
  {| Server := Server c; Engine := Engine c; Persistence := Persistence c; Replication := Replication c; Cluster := f (Cluster c);
     Auth := Auth c; Security := Security c; Policy := Policy c; Tiering := Tiering c; Observability := Observability c;
     Workflow := Workflow c; Events := Events c |}.
Definition set_Tiering (f : TieringConfig → TieringConfig) (c : Config) : Config :=
  {| Server := Server c; Engine := Engine c; Persistence := Persistence c; Replication := Replication c; Cluster := Cluster c;
     Auth := Auth c; Security := Security c; Policy := Policy c; Tiering := f (Tiering c); Observability := Observability c;
     Workflow := Workflow c; Events := Events c |}.
Definition set_Security (f : SecurityConfig → SecurityConfig) (c : Config) : Config :=
  {| Server := Server c; Engine := Engine c; Persistence := Persistence c; Replication := Replication c; Cluster := Cluster c;
     Auth := Auth c; Security := f (Security c); Policy := Policy c; Tiering := Tiering c; Observability := Observability c;
     Workflow := Workflow c; Events := Events c |}.
Definition set_Logging_Level (level : string) (c : Config) : Config :=
  {| Server := Server c; Engine := Engine c; Persistence := Persistence c; Replication := Replication c; Cluster := Cluster c;
     Auth := Auth c; Security := Security c; Policy := Policy c; Tiering := Tiering c;
     Observability := let o := Observability c in
       {| Metrics_Enabled := Metrics_Enabled o; Metrics_Port := Metrics_Port o; Metrics_Path := Metrics_Path o;
          Tracing_Enabled := Tracing_Enabled o; Tracing_Endpoint := Tracing_Endpoint o; Logging_Level := level;
          Logging_Format := Logging_Format o; Profiling_Enabled := Profiling_Enabled o; Profiling_Port := Profiling_Port o |};
     Workflow := Workflow c; Events := Events c |}.

(** ** Memory sizes *)
Definition multipliers : list (string * Z) :=
  [("gib", 2 ^ 30); ("gb", 1000000000); ("mib", 2 ^ 20); ("mb", 1000000); ("kib", 2 ^ 10); ("kb", 1000); ("b", 1)]%string.

Definition HasSuffix (s suffix : string) : bool := has_prefix (rev (bytes_of suffix)) (rev (bytes_of s)).
Definition TrimSuffix (s suffix : string) : string :=
  if HasSuffix s suffix then str_of (take (length (bytes_of s) - length (bytes_of suffix)) (bytes_of s)) else s.

Fixpoint parse_units (units : list (string * Z)) (value text : string) : res string Z :=
  match units with
  | [] => Err ("invalid memory size " ++ quoted value ++ ": unit is required")%string
  | (suffix, unit) :: units =>
      if negb (HasSuffix text suffix) then parse_units units value text
      else
        match ParseInt_ok (TrimSpace (TrimSuffix text suffix)) with
        | Some n => if (n <=? 0) || (n >? Z.quot MaxInt64 unit) then Err ("invalid memory size " ++ quoted value)%string
                    else Ok (i64 (n * unit))
        | None => Err ("invalid memory size " ++ quoted value)%string
        end
  end.
Definition ParseBytes (value : string) : res string Z := parse_units multipliers value (ToLower (TrimSpace value)).

Definition NormalizeVectorEncoding (value : string) : res string string :=
  let v := ToLower (TrimSpace value) in
  if bool_decide (v = "" ∨ v = "sq8" ∨ v = "int8")%string then Ok "sq8"%string
  else if bool_decide (v = "float32" ∨ v = "fp32")%string then Ok "float32"%string
  else Err ("vector encoding " ++ quoted value ++ " is not supported; use sq8 or float32")%string.

(** ** Checks *)
Definition MinReplicationTokenLength : Z := 32.

Definition set_encoding (enc : string) (e : EngineConfig) : EngineConfig :=
  {| MaxMemory := MaxMemory e; EvictionPolicy := EvictionPolicy e; DefaultTTL := DefaultTTL e; NumShards := NumShards e;
     MaxVectorsPerTenant := MaxVectorsPerTenant e; VectorEncoding := enc |}.
Definition set_slots (n : Z) (c : ClusterConfig) : ClusterConfig :=
  {| c_Enabled := c_Enabled c; NodeID := NodeID c; Nodes := Nodes c; SlotCount := n; RebalanceInterval := RebalanceInterval c |}.

Definition check (bad : bool) (msg : string) : res string unit := if bad then Err ("config: " ++ msg)%string else Ok tt.

(** The checks before the encoding is normalised, and those after. *)
Definition eviction_check (p : string) : res string unit :=
  if bool_decide (p = "no-eviction"%string) then Ok tt
  else if bool_decide (p ∈ ["lru"; "lfu"; "ttl"; "random"]%string)
  then Err ("config: eviction policy " ++ quoted p ++ " is not supported by the production v1 profile; use no-eviction")%string
  else Err ("config: unknown eviction policy " ++ quoted p)%string.
Definition sync_check (s : string) : res string unit :=
  if bool_decide (s ∈ ["always"; "everysec"]%string) then Ok tt
  else if bool_decide (s = "no"%string) then Err "config: wal_sync=no is not supported by the production v1 profile"%string
  else Err ("config: unknown wal_sync value " ++ quoted s)%string.
Definition role_check (r : ReplicationConfig) : res string unit :=
  let? _ := check (negb (bool_decide (Role r ∈ ["primary"; "replica"; ""]%string))) ("unknown replication role " ++ quoted (Role r)) in
  let? _ := check (RaftEnabled r) "data-plane Raft is not supported; replicate WAL bytes asynchronously instead" in
  let? _ :=
    if bool_decide (Role r = ""%string) then
      check (negb (bool_decide (ListenAddr r = ""%string)) || negb (bool_decide (PrimaryAddr r = ""%string)))
        "listen_addr and primary_addr require role primary or replica"
    else if bool_decide (Role r = "primary"%string) then
      check (bool_decide (ListenAddr r = ""%string)) "listen_addr is required for primary role"
    else check (bool_decide (PrimaryAddr r = ""%string)) "primary_addr is required for replica role" in
  check (negb (bool_decide (Role r = ""%string)) && (strlen (Token r) <? MinReplicationTokenLength))
    ("replication.token of at least " ++ FormatInt MinReplicationTokenLength ++ " characters is required for role " ++ Role r ++
     "; an unauthenticated replication listener streams the whole WAL to any local process").

(** [Validate]: the error, or the configuration with its normalised fields. *)
Definition Validate (c : Config) : res string Config :=
  let? _ := check ((Port (Server c) <=? 0) || (Port (Server c) >? 65535)) ("invalid server port " ++ FormatInt (Port (Server c))) in
  let? _ := check (a_Enabled (Auth c) && RequirePassword (Auth c) && bool_decide (DefaultUser (Auth c) = ""%string))
              "default_user is required when password authentication is enabled" in
  let? _ := eviction_check (EvictionPolicy (Engine c)) in
  let? _ := match ParseBytes (MaxMemory (Engine c)) with Err e => Err ("config: max_memory: " ++ e)%string | _ => Ok tt end in
  let? encoding := match NormalizeVectorEncoding (VectorEncoding (Engine c)) with
                   | Err e => Err ("config: vector_encoding: " ++ e)%string | r => r end in
  let c := set_Engine (set_encoding encoding) c in
  let? _ := sync_check (WALSync (Persistence c)) in
  let? _ := role_check (Replication c) in
  let? _ := check (c_Enabled (Cluster c)) "cluster mode is not supported by the single-node v1 profile" in
  let? _ := check (t_Enabled (Tiering c)) "tiering is not supported by the single-node v1 profile" in
  Ok (if SlotCount (Cluster c) <=? 0 then set_Cluster (set_slots 16384) c else c).

(** [Load]: [file] is what reading the path gave, [unmarshal] the YAML decoder. *)
Definition Load (unmarshal : list byte → Config → res string Config) (path : string) (file : res string (list byte)) : res string Config :=
  if bool_decide (path = ""%string) then Ok Defaults
  else
    match file with
    | Ok data =>
        match unmarshal data Defaults with
        | Ok c => Validate c
        | Err e => Err ("config: parse " ++ path ++ ": " ++ e)%string
        | Panic => Panic
        end
    | Err e => Err ("config: read " ++ path ++ ": " ++ e)%string
    | Panic => Panic
    end.

(** ** Tenant engines *)
(** [filepath.Join(dir, name)] of a clean, non-empty directory and a plain name. *)
Definition Join (dir name : string) : string := (dir ++ "/" ++ name)%string.

Definition TenantEngine (dataDir : string) (respPort httpPort : Z) : Config :=
  let c := set_Server (λ s, {| Host := "127.0.0.1"; Port := respPort; HTTPPort := httpPort; GRPCPort := 0; Socket := Socket s;
                               HTTPSocket := HTTPSocket s; MaxConnections := MaxConnections s; ReadTimeout := ReadTimeout s;
                               WriteTimeout := WriteTimeout s; PeerPIDs := PeerPIDs s |}) Defaults in
  let c := set_Engine (λ e, {| MaxMemory := MaxMemory e; EvictionPolicy := "no-eviction"; DefaultTTL := DefaultTTL e; NumShards := NumShards e;
                               MaxVectorsPerTenant := MaxVectorsPerTenant e; VectorEncoding := VectorEncoding e |}) c in
  let c := set_Persistence (λ p, {| p_Enabled := true; DataDir := dataDir; WALDir := Join dataDir "wal"; SnapshotDir := Join dataDir "snapshots";
                                    BackupDir := Join dataDir "backups"; WALSync := "everysec"; SnapshotInterval := SnapshotInterval p;
                                    CompactionInterval := CompactionInterval p |}) c in
  let c := set_Replication (λ r, {| Role := ""; ListenAddr := ""; PrimaryAddr := ""; Token := ""; Replicas := Replicas r; Quorum := Quorum r;
                                    SyncTimeout := SyncTimeout r; LagThreshold := LagThreshold r; RaftEnabled := false; RaftNodeID := RaftNodeID r;
                                    RaftBindAddr := RaftBindAddr r; RaftDir := RaftDir r; RaftBootstrap := false; RaftJoinAddr := RaftJoinAddr r |}) c in
  let c := set_Cluster (λ k, {| c_Enabled := false; NodeID := NodeID k; Nodes := Nodes k; SlotCount := SlotCount k; RebalanceInterval := RebalanceInterval k |}) c in
  let c := set_Tiering (λ t, {| t_Enabled := false; NVMEPath := NVMEPath t; ThresholdMB := ThresholdMB t |}) c in
  let c := set_Security (λ s, {| RateLimit := {| rl_Enabled := false; RequestsPerSecond := RequestsPerSecond (RateLimit s); Burst := Burst (RateLimit s) |};
                                 Encryption := Encryption s; TLS := TLS s |}) c in
  set_Logging_Level "info" c.

Definition ApplyReplication (c : Config) (role listenAddr primaryAddr token : string) : res string Config :=
  Validate (set_Replication (λ r,
    {| Role := role; ListenAddr := listenAddr; PrimaryAddr := primaryAddr; Token := token; Replicas := Replicas r; Quorum := Quorum r;
       SyncTimeout := SyncTimeout r; LagThreshold := LagThreshold r; RaftEnabled := false; RaftNodeID := RaftNodeID r;
       RaftBindAddr := RaftBindAddr r; RaftDir := RaftDir r; RaftBootstrap := false; RaftJoinAddr := RaftJoinAddr r |}) c).

(** ** What the checks guarantee *)
Lemma check_ok b msg : check b msg = Ok tt ↔ b = false.
Proof. unfold check. by destruct b. Qed.

Lemma encoding_ok v e : NormalizeVectorEncoding v = Ok e → (e = "sq8" ∨ e = "float32")%string ∧ NormalizeVectorEncoding e = Ok e.
Proof.
  unfold NormalizeVectorEncoding at 1. cbv zeta. case_bool_decide; [intros [= <-]; split; [by left|by vm_compute]|].
  case_bool_decide; [intros [= <-]; split; [by right|by vm_compute]|done].
Qed.

Lemma eviction_ok p : eviction_check p = Ok tt ↔ p = "no-eviction"%string.
Proof. unfold eviction_check. case_bool_decide; [done|]. by case_bool_decide. Qed.

Lemma sync_ok s : sync_check s = Ok tt ↔ (s = "always" ∨ s = "everysec")%string.
Proof.
  unfold sync_check. case_bool_decide as E.
  - split; [|done]. intros _. rewrite !elem_of_cons, elem_of_nil in E. tauto.
  - rewrite !elem_of_cons, elem_of_nil in E. case_bool_decide; (split; [done|tauto]).
Qed.

(** A replication section that passes the checks. *)
Definition role_valid (r : ReplicationConfig) : Prop :=
  RaftEnabled r = false ∧
  ((Role r = ""%string ∧ ListenAddr r = ""%string ∧ PrimaryAddr r = ""%string) ∨
   (Role r = "primary"%string ∧ ListenAddr r ≠ ""%string ∧ MinReplicationTokenLength ≤ strlen (Token r)) ∨
   (Role r = "replica"%string ∧ PrimaryAddr r ≠ ""%string ∧ MinReplicationTokenLength ≤ strlen (Token r))).

Lemma role_ok r : role_check r = Ok tt ↔ role_valid r.
Proof.
  unfold role_check, role_valid, check. split.
  - case_bool_decide as E1; cbn [negb rbind]; [|done]. rewrite !elem_of_cons, elem_of_nil in E1.
    destruct (RaftEnabled r); cbn [rbind]; [done|]. case_bool_decide as E2.
    + case_bool_decide as E3; cbn [negb orb rbind]; [|done]. case_bool_decide as E4; cbn [negb rbind]; [|done]. intros _. tauto.
    + case_bool_decide as E3; (case_bool_decide as E4; cbn [rbind]; [done|]); destruct (strlen _ <? _) eqn:E5; cbn [negb andb]; try done; intros _;
        apply Z.ltb_ge in E5; tauto.
  - intros (-> & [(-> & -> & ->)|[(-> & H1 & H2)|(-> & H1 & H2)]]).
    + rewrite !bool_decide_eq_true_2 by (first [done|set_solver]). done.
    + rewrite (bool_decide_eq_true_2 ("primary"%string ∈ _)) by set_solver. cbn [negb rbind].
      rewrite (bool_decide_eq_false_2 ("primary"%string = ""%string)), (bool_decide_eq_true_2 ("primary"%string = "primary"%string)) by done.
      rewrite bool_decide_eq_false_2 by done. cbn [rbind negb andb]. by rewrite (proj2 (Z.ltb_ge _ _)).
    + rewrite (bool_decide_eq_true_2 ("replica"%string ∈ _)) by set_solver. cbn [negb rbind].
      rewrite (bool_decide_eq_false_2 ("replica"%string = ""%string)), (bool_decide_eq_false_2 ("replica"%string = "primary"%string)) by done.
      rewrite bool_decide_eq_false_2 by done. cbn [rbind negb andb]. by rewrite (proj2 (Z.ltb_ge _ _)).
Qed.

(** The configurations that are accepted. *)
Record acceptable (c : Config) : Prop := {
  ok_port : 1 ≤ Port (Server c) ≤ 65535;
  ok_user : a_Enabled (Auth c) = true → RequirePassword (Auth c) = true → DefaultUser (Auth c) ≠ ""%string;
  ok_eviction : EvictionPolicy (Engine c) = "no-eviction"%string;
  ok_memory : ∃ n, ParseBytes (MaxMemory (Engine c)) = Ok n;
  ok_encoding : ∃ e, NormalizeVectorEncoding (VectorEncoding (Engine c)) = Ok e;
  ok_sync : (WALSync (Persistence c) = "always" ∨ WALSync (Persistence c) = "everysec")%string;
  ok_role : role_valid (Replication c);
  ok_cluster : c_Enabled (Cluster c) = false;
  ok_tiering : t_Enabled (Tiering c) = false
}.

(** What [Validate] makes of an accepted configuration. *)
Definition normalised (e : string) (c : Config) : Config :=
  let c := set_Engine (set_encoding e) c in
  if SlotCount (Cluster c) <=? 0 then set_Cluster (set_slots 16384) c else c.

Lemma parse_units_no_panic units value text : parse_units units value text ≠ Panic.
Proof.
  induction units as [|[s u] units IH]; cbn [parse_units]; [done|]. destruct (negb _); [done|].
  destruct (ParseInt_ok _); [|done]. by destruct (_ || _).
Qed.

Lemma Validate_iff c c' :
  Validate c = Ok c' ↔ acceptable c ∧ ∃ e, NormalizeVectorEncoding (VectorEncoding (Engine c)) = Ok e ∧ c' = normalised e c.
Proof.
  unfold Validate. split.
  - destruct (check ((Port _ <=? 0) || _) _) as [[]| |] eqn:E1; cbn [rbind]; [|done..]. apply check_ok, orb_false_iff in E1 as [P1 P2].
    destruct (check (a_Enabled _ && _ && _) _) as [[]| |] eqn:E2; cbn [rbind]; [|done..]. apply check_ok in E2.
    destruct (eviction_check _) as [[]| |] eqn:E3; cbn [rbind]; [|done..]. apply eviction_ok in E3.
    destruct (ParseBytes _) as [n| |] eqn:E4; cbn [rbind]; [|done|by apply parse_units_no_panic in E4].
    destruct (NormalizeVectorEncoding _) as [e| |] eqn:E5; cbn [rbind]; [|done..]. cbv zeta. cbn [set_Engine Persistence Replication Cluster Tiering].
    destruct (sync_check _) as [[]| |] eqn:E6; cbn [rbind]; [|done..]. apply sync_ok in E6.
    destruct (role_check _) as [[]| |] eqn:E7; cbn [rbind]; [|done..]. apply role_ok in E7.
    destruct (check (c_Enabled _) _) as [[]| |] eqn:E8; cbn [rbind]; [|done..]. apply check_ok in E8.
    destruct (check (t_Enabled _) _) as [[]| |] eqn:E9; cbn [rbind]; [|done..]. apply check_ok in E9.
    intros [= <-]. split; [|by exists e]. split; eauto; [lia|]. intros A1 A2 A3. rewrite A1, A2, A3 in E2. done.
  - intros ([H1 H2 H3 [n H4] _ H6 H7 H8 H9] & e & H5 & ->).
    rewrite (proj2 (check_ok ((_ <=? 0) || _) _)) by lia. cbn [rbind].
    rewrite (proj2 (check_ok (a_Enabled _ && _ && _) _)) by (destruct (a_Enabled _), (RequirePassword _); try done; by rewrite bool_decide_eq_false_2 by auto).
    cbn [rbind]. rewrite (proj2 (eviction_ok _) H3). cbn [rbind]. rewrite H4. cbn [rbind]. rewrite H5. cbn [rbind set_Engine Persistence Replication Cluster Tiering].
    rewrite (proj2 (sync_ok _) H6). cbn [rbind]. rewrite (proj2 (role_ok _) H7). cbn [rbind]. rewrite H8, H9. done.
Qed.

(** [Validate] accepts exactly the configurations it documents;
    an accepted one keeps every field but the vector encoding, which becomes
    sq8 or float32, and a slot count that was not positive, and validating it
    again changes nothing. *)
Theorem validate_sound c c' :
  (Validate c = Ok c' ↔ acceptable c ∧ ∃ e, NormalizeVectorEncoding (VectorEncoding (Engine c)) = Ok e ∧ c' = normalised e c) ∧
  (Validate c = Ok c' →
     acceptable c' ∧ (VectorEncoding (Engine c') = "sq8" ∨ VectorEncoding (Engine c') = "float32")%string ∧
     0 < SlotCount (Cluster c') ∧ Validate c' = Ok c').
Proof.
  split; [apply Validate_iff|]. rewrite Validate_iff. intros (Ha & e & He & ->). destruct (encoding_ok _ _ He) as [He1 He2].
  assert (Hs : 0 < SlotCount (Cluster (normalised e c))) by (unfold normalised; cbn; destruct (SlotCount (Cluster c) <=? 0) eqn:E; cbn; [done|lia]).
  assert (Hv : VectorEncoding (Engine (normalised e c)) = e) by (unfold normalised; cbn; by destruct (SlotCount (Cluster c) <=? 0)).
  assert (Ha' : acceptable (normalised e c)).
  { destruct Ha as [H1 H2 H3 H4 H5 H6 H7 H8 H9]. unfold normalised. cbn. destruct (SlotCount (Cluster c) <=? 0); split; cbn; eauto. }
  split; [done|]. split; [by rewrite Hv|]. split; [done|]. apply Validate_iff. split; [done|]. exists e. rewrite Hv. split; [done|].
  unfold normalised at 2. cbn. destruct (SlotCount (Cluster (normalised e c)) <=? 0) eqn:E; [lia|].
  unfold normalised. cbn. by destruct (SlotCount (Cluster c) <=? 0).
Qed.

Lemma validate_sound_witness :
  Validate Defaults = Ok (normalised "sq8" Defaults) ∧ VectorEncoding (Engine Defaults) = ""%string ∧
  Validate (normalised "sq8" Defaults) = Ok (normalised "sq8" Defaults).
Proof.
  assert (E : Validate Defaults = Ok (normalised "sq8" Defaults)) by (vm_compute; reflexivity).
  split; [exact E|]. split; [reflexivity|]. exact (proj2 (proj2 (proj2 (proj2 (validate_sound _ _) E)))).
Defined.

(** ** Memory sizes are exact *)
Lemma parse_units_range units value text n :
  (∀ s u, (s, u) ∈ units → 0 < u) → parse_units units value text = Ok n →
  ∃ s u m, (s, u) ∈ units ∧ 0 < m ∧ n = m * u ∧ 0 < n ≤ MaxInt64.
Proof.
  induction units as [|[s u] units IH]; cbn [parse_units]; intros Hu; [done|]. destruct (negb _).
  - intros (s' & u' & m & H1 & H2)%IH; [exists s', u', m; split; [by right|done]|]. intros s' u' Hin. apply (Hu s'). by right.
  - destruct (ParseInt_ok _) as [m|]; [|done]. destruct (_ || _) eqn:E; [done|]. apply orb_false_iff in E as [E1 E2].
    assert (0 < u) by (apply (Hu s); by left). intros [= <-]. exists s, u, m. split; [by left|]. split; [lia|].
    assert (m * u ≤ MaxInt64).
    { rewrite Z.quot_div_nonneg in E2 by (unfold MaxInt64; lia). pose proof (Z.mul_div_le MaxInt64 u). nia. }
    rewrite i64_id by (unfold in_i64, MinInt64, MaxInt64 in *; nia). split; [done|]. nia.
Qed.

Definition digit (b : byte) : Prop := 48 ≤ b2z b ≤ 57.

Lemma digit_cases b : digit b → b ∈ bytes_of "0123456789".
Proof.
  intros [H1 H2]. destruct b; try (exfalso; vm_compute in H1, H2; congruence); apply (bool_decide_unpack _); vm_compute; exact I.
Qed.

Lemma format_digits fuel u acc : 0 ≤ u → Forall digit acc → Forall digit (format_uint fuel u acc).
Proof.
  revert u acc. induction fuel as [|fuel IH]; intros u acc Hu Ha; cbn [format_uint]; [done|].
  assert (Hd : ∀ d, 0 ≤ d ≤ 9 → digit (z2b (48 + d))) by (intros d Hd; unfold digit; pose proof (digit_byte d Hd); lia).
  destruct (u <? 10) eqn:E; [constructor; [apply Hd; lia|done]|]. apply IH; [apply Z.div_pos; lia|]. constructor; [|done].
  apply Hd. pose proof (Z.mod_pos_bound u 10). lia.
Qed.

(** A byte that starts no white space stops the trimming. *)
Definition starts_none (ps : list (list byte)) (b : byte) : bool :=
  forallb (λ p, match p with a :: _ => negb (bool_decide (a = b)) | [] => false end) ps.

Lemma trim_left_stop fuel ps b l : starts_none ps b = true → trim_left fuel ps (b :: l) = b :: l.
Proof.
  intros Hs. destruct fuel as [|fuel]; [done|]. cbn [trim_left]. destruct (List.find _ ps) as [p|] eqn:E; [|done]. exfalso.
  apply List.find_some in E as [Hin Hp]. unfold starts_none in Hs. rewrite List.forallb_forall in Hs. specialize (Hs p Hin).
  destruct p as [|a p]; [done|]. cbn in Hp. by destruct (bool_decide (a = b)).
Qed.

Lemma TrimSpace_stop b1 l1 b2 l2 :
  b1 :: l1 = l2 ++ [b2] → starts_none spaces b1 = true → starts_none (map (@rev byte) spaces) b2 = true →
  TrimSpace (str_of (b1 :: l1)) = str_of (b1 :: l1).
Proof.
  intros E H1 H2. unfold TrimSpace. rewrite bytes_of_str_of. cbv zeta. rewrite trim_left_stop by done. rewrite E, rev_app_distr. cbn [rev app].
  rewrite trim_left_stop by done. change (b2 :: rev l2) with (rev [b2] ++ rev l2). by rewrite <- rev_app_distr, rev_involutive.
Qed.

Lemma digit_starts b : digit b → starts_none spaces b = true ∧ starts_none (map (@rev byte) spaces) b = true ∧ lower_byte b = b.
Proof.
  intros H%digit_cases. assert (Hall : Forall (λ b, starts_none spaces b = true ∧ starts_none (map (@rev byte) spaces) b = true ∧ lower_byte b = b) (bytes_of "0123456789"))
    by (apply (bool_decide_unpack _); vm_compute; exact I). rewrite Forall_forall in Hall. by apply Hall.
Qed.

Lemma lower_digits ds : Forall digit ds → map lower_byte ds = ds.
Proof. induction 1 as [|d ds Hd _ IH]; [done|]. cbn [map]. rewrite IH. by rewrite (proj2 (proj2 (digit_starts d Hd))). Qed.

Lemma suffix_units value ds d suffix unit :
  (suffix, unit) ∈ multipliers → digit d →
  parse_units multipliers value (str_of (ds ++ d :: bytes_of suffix)) =
  match ParseInt_ok (TrimSpace (str_of (ds ++ [d]))) with
  | Some n => if (n <=? 0) || (n >? Z.quot MaxInt64 unit) then Err ("invalid memory size " ++ quoted value)%string else Ok (i64 (n * unit))
  | None => Err ("invalid memory size " ++ quoted value)%string
  end.
Proof.
  intros Hin Hd.
  assert (Hs : ∀ s, HasSuffix (str_of (ds ++ d :: bytes_of suffix)) s = has_prefix (rev (bytes_of s)) (rev (bytes_of suffix) ++ d :: rev ds)).
  { intros s. unfold HasSuffix. rewrite bytes_of_str_of, rev_app_distr. cbn [rev]. by rewrite <- app_assoc. }
  assert (Ht : TrimSuffix (str_of (ds ++ d :: bytes_of suffix)) suffix = str_of (ds ++ [d])).
  { unfold TrimSuffix. rewrite Hs. assert (Hp : ∀ p l, has_prefix p (p ++ l) = true) by (induction p as [|x p IH]; intros l; cbn; [done|]; by rewrite bool_decide_eq_true_2, IH).
    rewrite Hp, bytes_of_str_of. f_equal. change (d :: bytes_of suffix) with ([d] ++ bytes_of suffix). rewrite app_assoc, length_app.
    rewrite Nat.add_sub. apply take_app_length. }
  apply digit_cases in Hd. revert Hs Ht. generalize (rev ds). intros rds Hs Ht.
  assert (Hsel : ∀ units, parse_units units value (str_of (ds ++ d :: bytes_of suffix)) =
    match List.find (λ '(s, _), has_prefix (rev (bytes_of s)) (rev (bytes_of suffix) ++ d :: rds)) units with
    | Some (s, u) =>
        match ParseInt_ok (TrimSpace (TrimSuffix (str_of (ds ++ d :: bytes_of suffix)) s)) with
        | Some n => if (n <=? 0) || (n >? Z.quot MaxInt64 u) then Err ("invalid memory size " ++ quoted value)%string else Ok (i64 (n * u))
        | None => Err ("invalid memory size " ++ quoted value)%string
        end
    | None => Err ("invalid memory size " ++ quoted value ++ ": unit is required")%string
    end).
  { induction units as [|[s u] units IH]; [done|]. cbn [parse_units List.find]. rewrite Hs. by destruct (has_prefix _ _). }
  assert (Hf : List.find (λ '(s, _), has_prefix (rev (bytes_of s)) (rev (bytes_of suffix) ++ d :: rds)) multipliers = Some (suffix, unit)).
  { clear -Hin Hd. unfold multipliers in Hin. repeat (apply elem_of_cons in Hin as [[= -> ->]|Hin]; [
      repeat (apply elem_of_cons in Hd as [->|Hd]; [vm_compute; reflexivity|]); by apply not_elem_of_nil in Hd|]). by apply not_elem_of_nil in Hin. }
  rewrite Hsel, Hf, Ht. done.
Qed.

Lemma multipliers_pos suffix unit : (suffix, unit) ∈ multipliers → 0 < unit.
Proof.
  intros Hin. unfold multipliers in Hin. repeat (apply elem_of_cons in Hin as [[= -> ->]|Hin]; [done|]). by apply not_elem_of_nil in Hin.
Qed.

Lemma parse_bytes_reads suffix unit m :
  (suffix, unit) ∈ multipliers → 0 < m → m * unit ≤ MaxInt64 → ParseBytes (FormatInt m ++ suffix) = Ok (m * unit).
Proof.
  intros Hin Hm Hmax. pose proof (multipliers_pos _ _ Hin) as Hu.
  assert (Hfmt : FormatInt m = str_of (format_uint 20 m [])) by (unfold FormatInt; destruct (m <? 0) eqn:E; [lia|done]).
  assert (Hdig : Forall digit (format_uint 20 m [])) by (apply format_digits; [lia|constructor]).
  destruct (exists_last (l := format_uint 20 m [])) as (ds & d & Eds).
  { intros E0. pose proof (ParseInt_FormatInt m) as Hp. rewrite Hfmt, E0 in Hp. assert (Hi : in_i64 m) by (unfold in_i64, MinInt64, MaxInt64 in *; nia).
    specialize (Hp Hi). vm_compute in Hp. congruence. }
  rewrite Eds in Hdig. apply Forall_app in Hdig as [Hds [Hd _]%Forall_cons_1].
  assert (Htext : (FormatInt m ++ suffix)%string = str_of (ds ++ d :: bytes_of suffix)).
  { apply (inj bytes_of). rewrite bytes_of_append, Hfmt, !bytes_of_str_of, Eds, <- app_assoc. done. }
  assert (Hlast : bytes_of suffix = removelast (bytes_of suffix) ++ [Byte.x62] ∧ map lower_byte (bytes_of suffix) = bytes_of suffix).
  { clear -Hin. unfold multipliers in Hin. repeat (apply elem_of_cons in Hin as [[= -> ->]|Hin]; [vm_compute; split; reflexivity|]).
    by apply not_elem_of_nil in Hin. }
  destruct Hlast as [Hlast Hlow].
  assert (Hfirst : ∀ tl, ∃ b1 l1, ds ++ d :: tl = b1 :: l1 ∧ digit b1).
  { intros tl. destruct Hds as [|b1 ds' Hb1 _]; [by exists d, tl|]. by exists b1, (ds' ++ d :: tl). }
  assert (Hnum : TrimSpace (str_of (ds ++ [d])) = str_of (ds ++ [d])).
  { destruct (Hfirst []) as (b1 & l1 & E1 & Hb1). rewrite E1. apply (TrimSpace_stop b1 l1 d ds); [by rewrite <- E1|by apply digit_starts|by apply digit_starts]. }
  assert (Htrim : ToLower (TrimSpace (FormatInt m ++ suffix)) = str_of (ds ++ d :: bytes_of suffix)).
  { rewrite Htext. destruct (Hfirst (bytes_of suffix)) as (b1 & l1 & E1 & Hb1). rewrite E1.
    rewrite (TrimSpace_stop b1 l1 Byte.x62 (ds ++ d :: removelast (bytes_of suffix)));
      [|rewrite <- E1, Hlast at 1; by rewrite <- app_assoc|by apply digit_starts|by vm_compute].
    unfold ToLower. rewrite bytes_of_str_of, <- E1, map_app. cbn [map]. by rewrite lower_digits, (proj2 (proj2 (digit_starts d Hd))), Hlow. }
  unfold ParseBytes. rewrite Htrim, (suffix_units _ ds d suffix unit Hin Hd), Hnum, <- Eds, <- Hfmt.
  assert (Hi : in_i64 m) by (unfold in_i64, MinInt64, MaxInt64 in *; nia). unfold ParseInt_ok. rewrite ParseInt_FormatInt by done.
  rewrite (proj2 (Z.leb_gt m 0)) by lia. rewrite Z.quot_div_nonneg by (unfold MaxInt64; lia).
  assert (m ≤ MaxInt64 / unit) by (apply Z.div_le_lower_bound; lia). replace (m >? MaxInt64 / unit) with false by (symmetry; rewrite Z.gtb_ltb; apply Z.ltb_ge; lia). cbn [orb].
  rewrite i64_id by (unfold in_i64, MinInt64, MaxInt64 in *; nia). done.
Qed.

(** C25: a size that [ParseBytes] accepts is a positive multiple
    of one of the units and fits in 64 bits; and a positive number with a unit is
    read back exactly, whenever the product fits. *)
Theorem parse_bytes_exact :
  (∀ value n, ParseBytes value = Ok n → 0 < n ≤ MaxInt64 ∧ ∃ suffix unit m, (suffix, unit) ∈ multipliers ∧ n = m * unit) ∧
  (∀ suffix unit m, (suffix, unit) ∈ multipliers → 0 < m → m * unit ≤ MaxInt64 → ParseBytes (FormatInt m ++ suffix) = Ok (m * unit)).
Proof.
  split; [|exact parse_bytes_reads].
  intros value n E. destruct (parse_units_range _ _ _ _ multipliers_pos E) as (s & u & m & H1 & H2 & H3 & H4). split; [done|]. by exists s, u, m.
Qed.

Lemma parse_bytes_exact_witness :
  ParseBytes "256mb" = Ok 256000000 ∧ ParseBytes " 2GiB " = Ok (2 * 2 ^ 30) ∧ 0 < 256000000 ≤ MaxInt64 ∧
  ParseBytes (FormatInt 7 ++ "kib") = Ok (7 * 2 ^ 10).
Proof.
  assert (E : ParseBytes "256mb" = Ok 256000000) by (vm_compute; reflexivity).
  split; [exact E|]. split; [vm_compute; reflexivity|]. split; [exact (proj1 (proj1 parse_bytes_exact _ _ E))|].
  apply (proj2 parse_bytes_exact); [apply (bool_decide_unpack _); vm_compute; exact I|lia|vm_compute; discriminate].
Defined.
