(* ===== verification/Isolation.v ===== *)
(** * Isolation of tenants ([isolation/mode.go], [enforce.go], [envelope.go],
    [paths.go], [listen.go], [disk.go])

    The resolution of a profile, the checks at startup, the envelope of a
    tenant's data key, sealed files, socket paths, the listener that looks at the
    process of its peers, and the probe for an encrypted mount. The operating
    system, the environment and the contents of files are arguments; AES-GCM is
    the function [gcm] from a key to a cipher. Landlock, seccomp and cgroups are
    calls of the kernel and are not modelled.

    The theorems: a node that starts as production has its seals on
    ([production_sealed]); a tenant's key survives restarts, is bound to the
    wrapping key and is gone once shredded, and sealed files read back
    ([envelope_keys]). *)

From S2P Require Import Prelude GoStd RESP Commands Auth WAL Config.
Open Scope Z_scope.

(** ** Modes and profiles *)
Definition ModeInprocess : string := "inprocess".
Definition ModeStandard : string := "standard".
Definition ModeStrict : string := "strict".

Record Profile := {
  Mode : string; p_Encryption : bool; UnixIPC : bool; PeerCred : bool;
  Process : bool; Landlock : bool; Cgroup : bool
}.

Definition unixIPCAvailable (goos : string) : bool := bool_decide (goos ∈ ["linux"; "darwin"; "freebsd"]%string).

Definition Resolve (goos name : string) : Profile :=
  let mode := ToLower (TrimSpace name) in
  let mode := if bool_decide (mode = ModeStandard ∨ mode = ModeStrict) then mode else ModeInprocess in
  let linux := bool_decide (goos = "linux"%string) in
  let unix := unixIPCAvailable goos in
  if bool_decide (mode = ModeStandard) then
    {| Mode := mode; p_Encryption := true; UnixIPC := unix; PeerCred := linux && unix; Process := false; Landlock := false; Cgroup := false |}
  else if bool_decide (mode = ModeStrict) then
    {| Mode := if linux then mode else ModeStandard; p_Encryption := true; UnixIPC := unix; PeerCred := linux && unix;
       Process := linux; Landlock := linux; Cgroup := linux |}
  else {| Mode := mode; p_Encryption := false; UnixIPC := false; PeerCred := false; Process := false; Landlock := false; Cgroup := false |}.

Definition RequireKEK (p : Profile) : bool := p_Encryption p.

Definition show_bool (b : bool) : string := if b then "true" else "false".
Definition Profile_String (p : Profile) : string :=
  ("mode=" ++ Mode p ++ " encrypt=" ++ show_bool (p_Encryption p) ++ " unix=" ++ show_bool (UnixIPC p) ++ " peercred=" ++
   show_bool (PeerCred p) ++ " process=" ++ show_bool (Process p) ++ " landlock=" ++ show_bool (Landlock p) ++ " cgroup=" ++
   show_bool (Cgroup p))%string.

(** ** hex.DecodeString *)
Definition hex_value (b : byte) : option Z :=
  let z := b2z b in
  if (48 <=? z) && (z <=? 57) then Some (z - 48)
  else if (97 <=? z) && (z <=? 102) then Some (z - 87)
  else if (65 <=? z) && (z <=? 70) then Some (z - 55)
  else None.
Fixpoint decode_hex (l : list byte) : option (list byte) :=
  match l with
  | [] => Some []
  | [_] => None
  | a :: b :: l =>
      match hex_value a, hex_value b with
      | Some x, Some y => cons (z2b (16 * x + y)) <$> decode_hex l
      | _, _ => None
      end
  end.
Definition DecodeString (s : string) : option (list byte) := decode_hex (bytes_of s).

Lemma hex_value_digit n : 0 ≤ n < 16 → hex_value (hex_digit n) = Some n.
Proof.
  intros H. assert (Hall : Forall (λ n, hex_value (hex_digit n) = Some n) (seqZ 0 16)) by (apply (bool_decide_unpack _); vm_compute; exact I).
  rewrite Forall_forall in Hall. apply Hall. apply elem_of_seqZ. lia.
Qed.

Lemma DecodeString_Encode l : DecodeString (EncodeToString l) = Some l.
Proof.
  unfold DecodeString, EncodeToString. rewrite bytes_of_str_of. induction l as [|b l IH]; [done|].
  rewrite bind_cons. cbn [app decode_hex]. pose proof (b2z_range b). rewrite hex_value_digit by (split; [apply Z.div_pos; lia|apply Z.div_lt_upper_bound; lia]).
  rewrite hex_value_digit by (apply Z.mod_pos_bound; lia). rewrite IH. cbn. rewrite <- Z_div_mod_eq_full. by rewrite z2b_b2z.
Qed.

(** ** Startup *)
Definition dekSize : Z := 32.
(** [LoadKEK] on the value of DBX_KEK. *)
Definition LoadKEK (raw : string) : option (list byte) :=
  if bool_decide (raw = ""%string) then None
  else match DecodeString raw with
       | Some key => if zlen key =? dekSize then Some key else None
       | None => None
       end.

Record Startup := { Production : bool; AllowInprocess : bool; RequireDiskEncryption : bool; s_DataDir : string }.

Definition envTruthy (value : string) : bool := bool_decide (ToLower (TrimSpace value) ∈ ["1"; "true"; "yes"; "on"]%string).

Definition StartupFromEnv (getenv : string → string) (insecureHTTP : bool) (dataDir : string) : Startup :=
  {| Production := negb insecureHTTP || envTruthy (getenv "DBX_PRODUCTION"%string);
     AllowInprocess := envTruthy (getenv "DBX_ALLOW_INPROCESS"%string);
     RequireDiskEncryption := envTruthy (getenv "DBX_REQUIRE_DISK_ENCRYPTION"%string);
     s_DataDir := dataDir |}.

(** [Enforce]: [looks] is the answer of [DataDirLooksEncrypted]. *)
Definition Enforce (getenv : string → string) (looks : string → bool * string) (p : Profile) (s : Startup) : res string unit :=
  let? _ := if RequireKEK p then
              match LoadKEK (getenv "DBX_KEK"%string) with
              | Some _ => Ok tt
              | None => Err ("isolation: DBX_KEK must be 64 hex characters (256-bit wrapping key) (required for isolation mode " ++ Mode p ++ ")")%string
              end
            else Ok tt in
  if Production s && bool_decide (Mode p = ModeInprocess) && negb (AllowInprocess s)
  then Err "isolation: production refuses inprocess — set DBX_ISOLATION_MODE=strict (Linux) or standard, or DBX_ALLOW_INPROCESS=1 if you accept directory isolation"%string
  else if RequireDiskEncryption s && negb (bool_decide (s_DataDir s = ""%string)) then
    let '(ok, note) := looks (s_DataDir s) in
    if ok then Ok tt
    else Err ("isolation: DBX_REQUIRE_DISK_ENCRYPTION=1 but " ++ s_DataDir s ++ " is not on an encrypted mount (" ++ note ++ "); .vec rows are otherwise plaintext")%string
  else Ok tt.

Definition Banner (p : Profile) (s : Startup) : string :=
  if bool_decide (Mode p = ModeInprocess) then ("isolation " ++ Profile_String p ++ " — directory + ACL only; this is not the security USP")%string
  else if Production s && bool_decide (Mode p = ModeStrict) then ("isolation " ++ Profile_String p ++ " — Isolation Kernel is on")%string
  else ("isolation " ++ Profile_String p)%string.

(** ** The probe for an encrypted mount *)
Fixpoint split_byte (sep : byte) (l cur : list byte) : list (list byte) :=
  match l with
  | [] => [rev cur]
  | b :: l => if bool_decide (b = sep) then rev cur :: split_byte sep l [] else split_byte sep l (b :: cur)
  end.
(** [strings.Fields] *)
Fixpoint fields (fuel : nat) (l cur : list byte) : list (list byte) :=
  let flush := match cur with [] => [] | _ => [rev cur] end in
  match fuel, l with
  | O, _ | _, [] => flush
  | S fuel, b :: l' =>
      match List.find (λ p, has_prefix p l) spaces with
      | Some p => flush ++ fields fuel (drop (length p) l) []
      | None => fields fuel l' (b :: cur)
      end
  end.
Definition Fields (l : list byte) : list (list byte) := fields (S (length l)) l [].
Fixpoint contains (p l : list byte) : bool :=
  has_prefix p l || match l with [] => false | _ :: l => contains p l end.

(** The replacements of [unescapeMount]. *)
Definition escapes : list (list byte * byte) :=
  [(bytes_of "\040", Byte.x20); (bytes_of "\011", Byte.x09); (bytes_of "\012", Byte.x0a); (bytes_of "\134", Byte.x5c)].
Fixpoint unescape (fuel : nat) (l : list byte) : list byte :=
  match fuel, l with
  | O, _ | _, [] => []
  | S fuel, b :: l' =>
      match List.find (λ e, has_prefix e.1 l) escapes with
      | Some e => e.2 :: unescape fuel (drop (length e.1) l)
      | None => b :: unescape fuel l'
      end
  end.
Definition unescapeMount (l : list byte) : list byte := unescape (S (length l)) l.

Record mount := { mt_dev : list byte; mt_point : list byte; mt_fs : list byte; mt_opts : list byte }.

(** One line of the loop of [linuxMountEncrypted]. *)
Definition better_mount (abs : list byte) (best : mount * nat) (line : list byte) : mount * nat :=
  match Fields line with
  | dev :: point :: fs :: opts :: _ =>
      let mp := unescapeMount point in
      if negb (has_prefix mp abs) then best
      else if (length mp <? snd best)%nat then best
      else ({| mt_dev := dev; mt_point := mp; mt_fs := fs; mt_opts := opts |}, length mp)
  | _ => best
  end.
(** [linuxMountEncrypted] on the text of /proc/mounts, [None] when it cannot be
    read. *)
Definition linuxMountEncrypted (mounts : option (list byte)) (abs : list byte) : bool * string :=
  match mounts with
  | None => (false, "read /proc/mounts"%string)
  | Some data =>
      let '(best, _) := foldl (better_mount abs) ({| mt_dev := []; mt_point := [Byte.x2f]; mt_fs := []; mt_opts := [] |}, O) (split_byte Byte.x0a data []) in
      let note := str_of (mt_fs best ++ bytes_of " on " ++ mt_point best) in
      (has_prefix (bytes_of "/dev/mapper/") (mt_dev best) || contains (bytes_of "crypt") (mt_dev best) ||
       bool_decide (mt_fs best = bytes_of "ecryptfs") || has_prefix (bytes_of "fuse.") (mt_fs best) ||
       contains (bytes_of "fscrypt") (mt_opts best) || contains (bytes_of "encrypt") (mt_opts best), note)
  end.
(** [DataDirLooksEncrypted] of an absolute path. *)
Definition DataDirLooksEncrypted (goos : string) (mounts : option (list byte)) (dir : string) : bool * string :=
  if bool_decide (goos = "linux"%string) then linuxMountEncrypted mounts (bytes_of dir)
  else (false, "disk-encryption probe is Linux-only"%string).
Definition DiskEncryptionWarning (looks : string → bool * string) (dataDir : string) : string :=
  if bool_decide (dataDir = ""%string) then ""%string
  else
    let '(ok, note) := looks dataDir in
    if ok then ""%string
    else ("WARNING: data dir " ++ dataDir ++ " does not look disk-encrypted (" ++ note ++
          "). Isolation Kernel encrypts WAL/meta/graph; .vec rows stay plaintext unless the volume is LUKS/fscrypt")%string.

(** The prefix is taken byte by byte: a directory next to an encrypted mount whose
    name it starts with passes for encrypted. *)
Example sibling_looks_encrypted :
  let mounts := bytes_of "/dev/sda1 / ext4 rw 0 0" ++ [Byte.x0a] ++ bytes_of "/dev/mapper/vault /data ext4 rw 0 0" ++ [Byte.x0a] in
  DataDirLooksEncrypted "linux" (Some mounts) "/data/tenants" = (true, "ext4 on /data"%string) ∧
  DataDirLooksEncrypted "linux" (Some mounts) "/database" = (true, "ext4 on /data"%string) ∧
  DataDirLooksEncrypted "linux" (Some mounts) "/srv" = (false, "ext4 on /"%string).
Proof. vm_compute. done. Qed.

(** ** Paths of sockets *)
Definition unixPathLimit (goos : string) : Z := if bool_decide (goos = "darwin"%string) then 104 else 108.
(** [socketPath] in a clean directory; [tmp] is the directory for temporary
    files. *)
Definition socketPath (goos tmp dataDir name : string) : string :=
  let direct := Join dataDir name in
  if strlen direct + 1 <=? unixPathLimit goos then direct
  else Join (Join tmp ("dbx-" ++ EncodeToString (take 8 (Sum256 (bytes_of dataDir))))) name.
Definition RESPSocket (goos tmp dataDir : string) : string := socketPath goos tmp dataDir "resp.sock".
Definition HTTPSocket (goos tmp dataDir : string) : string := socketPath goos tmp dataDir "http.sock".
Definition ReplSocket (goos tmp dataDir : string) : string := socketPath goos tmp dataDir "repl.sock".
Definition ACLFile (dataDir : string) : string := Join dataDir "acl.json".

(** ** Listeners *)
Definition TrimPrefix (s prefix : string) : string :=
  if has_prefix (bytes_of prefix) (bytes_of s) then str_of (drop (length (bytes_of prefix)) (bytes_of s)) else s.
Definition unixPath (addr : string) : string := TrimPrefix addr "unix:".
Definition IsUnixAddr (addr : string) : bool :=
  let addr := unixPath addr in HasSuffix addr ".sock" || bool_decide (Byte.x2f ∈ bytes_of addr).

Definition allowedSet (pids : list Z) : gset Z := list_to_set (List.filter (λ pid, 0 <? pid) pids).

(** [pidListener.Accept] over the connections that arrive: each has the process of
    its peer, [None] when the kernel does not tell. The connection that is handed
    over, an error, or nothing yet; and those still waiting. *)
Inductive accepted := Conn_of (pid : Z) | Cred_error | Waiting.
Fixpoint Accept (allowed : gset Z) (pending : list (option Z)) : accepted * list (option Z) :=
  match pending with
  | [] => (Waiting, [])
  | None :: pending => (Cred_error, pending)
  | Some pid :: pending => if bool_decide (pid ∈ allowed) then (Conn_of pid, pending) else Accept allowed pending
  end.

(** The directory of a path, up to its last separator. *)
Fixpoint last_separator (l : list byte) (i : nat) : option nat :=
  match l with
  | [] => None
  | b :: l =>
      match last_separator l (S i) with
      | Some j => Some j
      | None => if bool_decide (b = Byte.x2f ∨ b = Byte.x5c) then Some i else None
      end
  end.
Definition parentDir (path : string) : string :=
  match last_separator (bytes_of path) 0 with
  | Some O => "/"%string
  | Some i => str_of (take i (bytes_of path))
  | None => "."%string
  end.

(** What [Listen] opened: a TCP or Unix listener as it is, or a Unix listener that
    looks at the process of its peers. *)
Inductive listener := TCP (addr : string) | Unix (path : string) | Checked (path : string) (allowed : gset Z).

(** [mkdir], [bound] and [chmod] are the answers of the operating system. *)
Definition Listen (goos addr : string) (allowedPIDs : list Z) (mkdir : string → bool) (bound chmod : bool) : res string listener :=
  if negb (IsUnixAddr addr) then (if bound then Ok (TCP addr) else Err "listen"%string)
  else
    let path := unixPath addr in
    if negb (mkdir (parentDir path)) then Err "mkdir"%string
    else if negb bound then Err "listen"%string
    else if negb chmod then Err "chmod"%string
    else if (zlen allowedPIDs =? 0) || negb (bool_decide (goos = "linux"%string)) then Ok (Unix path)
    else Ok (Checked path (allowedSet allowedPIDs)).

(** The next connection of a listener; without a list the peer is not looked at. *)
Definition accept_from (l : listener) (pending : list (option Z)) : accepted * list (option Z) :=
  match l, pending with
  | Checked _ allowed, _ => Accept allowed pending
  | _, [] => (Waiting, [])
  | _, pid :: pending => (Conn_of (default 0 pid), pending)
  end.

(** ** The envelope *)
Section Envelope.
Variable gcm : list byte → AEAD.

Definition NewEncryptor (key : list byte) : option AEAD := if zlen key =? 32 then Some (gcm key) else None.

(** What a call to the operating system did: it succeeded, or it failed and left
    this behind. *)
Abbreviation outcome := (option (option (list byte))).

(** The wrapped key in a tenant's directory, [None] when there is none. [nonce]
    is the random source, [wrote] how the write went. *)
Definition WrapDEK (kek dek : list byte) (nonce : option (list byte)) (wrote : outcome) (file : option (list byte)) : bool * option (list byte) :=
  match NewEncryptor kek, nonce with
  | Some enc, Some nonce =>
      match wrote with
      | None => (true, Some (Encrypt enc nonce dek))
      | Some remains => (false, remains)
      end
  | _, _ => (false, file)
  end.

(** [read] tells whether a file that is there can be read. *)
Definition UnwrapDEK (kek : list byte) (read : bool) (file : option (list byte)) : option (list byte) :=
  match NewEncryptor kek, (if read then file else None) with
  | Some enc, Some wrapped =>
      match Decrypt enc wrapped with
      | Some dek => if zlen dek =? dekSize then Some dek else None
      | None => None
      end
  | _, _ => None
  end.

(** [fresh] is what [GenerateDEK] gave, [stat] whether a file that is there is seen:
    an error of [os.Stat] counts as no file, and the key is made anew. *)
Definition EnsureDEK (kek : list byte) (fresh nonce : option (list byte)) (wrote : outcome) (stat read : bool)
    (file : option (list byte)) : option (list byte) * option (list byte) :=
  match (if stat then file else None) with
  | Some _ => (UnwrapDEK kek read file, file)
  | None =>
      match fresh with
      | None => (None, file)
      | Some dek =>
          let '(ok, file) := WrapDEK kek dek nonce wrote file in
          (if ok then Some dek else None, file)
      end
  end.

(** [ShredDEK]: the file is overwritten with zeros, then removed. *)
Definition ShredDEK (wrote : outcome) (removed : bool) (file : option (list byte)) : bool * option (list byte) :=
  match file with
  | None => (true, None)
  | Some data =>
      match wrote with
      | Some remains => (false, remains)
      | None => if removed then (true, None) else (false, Some (replicate (length data) Byte.x00))
      end
  end.

(** ** Sealed files *)
Definition sealedMagic : list byte := bytes_of "DBXENC1" ++ [Byte.x0a].

Definition Seal_ (enc : option AEAD) (nonce plaintext : list byte) : list byte :=
  match enc with None => plaintext | Some g => sealedMagic ++ Encrypt g nonce plaintext end.
Definition OpenSealed (enc : option AEAD) (data : list byte) : option (list byte) :=
  match enc with
  | None => Some data
  | Some g => if has_prefix sealedMagic data then Decrypt g (drop (length sealedMagic) data) else Some data
  end.

(** [WriteSealedFile]: the file and its temporary copy after each call to the file
    system, the last one first, when every call succeeds. *)
Definition WriteSealedFile (enc : option AEAD) (nonce plaintext : list byte) (file : option (list byte))
    : list (option (list byte) * option (list byte)) :=
  let payload := Seal_ enc nonce plaintext in
  [(Some payload, None); (None, Some payload); (file, Some payload); (file, None)].
Definition ReadSealedFile (enc : option AEAD) (file : option (list byte)) : option (list byte) := file ≫= OpenSealed enc.
End Envelope.

Lemma has_prefix_app p l : has_prefix p (p ++ l) = true.
Proof. induction p as [|b p IH]; [done|]. cbn. by rewrite bool_decide_eq_true_2. Qed.

Lemma Decrypt_Encrypt g nonce p : aead_ok g → length nonce = NonceSize → Decrypt g (Encrypt g nonce p) = Some p.
Proof.
  intros Hg Hn. unfold Decrypt, Encrypt. rewrite nltb_false by (rewrite length_app; lia).
  rewrite <- Hn, take_app_length, drop_app_length. apply Hg.
Qed.

(** C26: the key of a tenant is made once: whatever the random source
    answers later, as long as the file can be examined and read, [EnsureDEK] and
    [UnwrapDEK] return it, and the directory does not change; a file that cannot be
    read gives no key and stays. After [ShredDEK] the file no longer unwraps, and the
    next [EnsureDEK] makes a new key. A file sealed with the key reads back, so does
    a plain file from before encryption unless it starts with the magic, and the
    sealed copy is longer than its plaintext by the magic, the nonce and the tag. *)
Theorem envelope_keys gcm kek dek nonce :
  (∀ key, aead_ok (gcm key)) → zlen kek = 32 → zlen dek = 32 → length nonce = NonceSize →
  let '(made, file) := EnsureDEK gcm kek (Some dek) (Some nonce) None true true None in
  made = Some dek ∧ UnwrapDEK gcm kek true file = Some dek ∧
  (∀ fresh n w, EnsureDEK gcm kek fresh n w true true file = (Some dek, file)) ∧
  (∀ fresh n w, EnsureDEK gcm kek fresh n w true false file = (None, file)) ∧
  (∀ w, match ShredDEK w true file with
        | (true, f) => f = None ∧ UnwrapDEK gcm kek true f = None ∧
            ∀ dek2 n2 stat read, zlen dek2 = 32 → fst (EnsureDEK gcm kek (Some dek2) (Some n2) None stat read f) = Some dek2
        | (false, _) => w ≠ None
        end) ∧
  (∀ n p old, length n = NonceSize →
     ReadSealedFile (NewEncryptor gcm dek) (fst (hd (None, None) (WriteSealedFile (NewEncryptor gcm dek) n p old))) = Some p ∧
     zlen (Seal_ (NewEncryptor gcm dek) n p) = zlen p + 36) ∧
  (∀ p, has_prefix sealedMagic p = false → ReadSealedFile (NewEncryptor gcm dek) (Some p) = Some p).
Proof.
  intros Hg Hk Hd Hn. unfold EnsureDEK at 1, WrapDEK, NewEncryptor at 1. rewrite Hk. cbn [Z.eqb Pos.eqb]. cbn match.
  assert (Hu : UnwrapDEK gcm kek true (Some (Encrypt (gcm kek) nonce dek)) = Some dek).
  { unfold UnwrapDEK, NewEncryptor. rewrite Hk. cbn. rewrite Decrypt_Encrypt by done. by rewrite Hd. }
  split; [done|]. split; [done|]. split; [intros fresh n w; unfold EnsureDEK; by rewrite Hu|].
  split; [intros fresh n w; unfold EnsureDEK, UnwrapDEK, NewEncryptor; by rewrite Hk|].
  split; [intros [remains|]; [done|]; cbn; split; [done|]; unfold UnwrapDEK, EnsureDEK, WrapDEK, NewEncryptor; rewrite Hk; split; [done|]; by intros dek2 n2 [] []|].
  unfold NewEncryptor. rewrite Hd. cbn [Z.eqb Pos.eqb]. split; [intros n p old Hlen; split|].
  - unfold ReadSealedFile, WriteSealedFile, Seal_, OpenSealed. cbn [hd fst mbind option_bind].
    rewrite has_prefix_app, drop_app_length. by apply Decrypt_Encrypt.
  - unfold Seal_, Encrypt, zlen. rewrite !length_app, Hlen, (proj2 (Hg dek n p)). unfold NonceSize. cbn [length sealedMagic bytes_of]. 
    change (length sealedMagic) with 8%nat. lia.
  - intros p Hp. unfold ReadSealedFile, OpenSealed. cbn [mbind option_bind]. by rewrite Hp.
Qed.

Definition demo_kek : list byte := replicate 32 Byte.x11.
Definition demo_dek : list byte := replicate 32 Byte.x22.
Definition demo_nonce : list byte := replicate 12 Byte.x33.

Lemma envelope_keys_witness :
  UnwrapDEK (λ _, toy) demo_kek true (snd (EnsureDEK (λ _, toy) demo_kek (Some demo_dek) (Some demo_nonce) None true true None)) = Some demo_dek ∧
  zlen demo_kek = 32 ∧ aead_ok toy.
Proof.
  split; [|split; [reflexivity|exact toy_ok]].
  exact (proj1 (proj2 (envelope_keys (λ _, toy) demo_kek demo_dek demo_nonce (λ _, toy_ok) eq_refl eq_refl eq_refl))).
Defined.

(** An error of [os.Stat] other than a missing file makes a new key over the old
    one: what was sealed with it does not open any more. *)
Example stat_error_replaces_key :
  let file := snd (EnsureDEK (λ _, toy) demo_kek (Some demo_dek) (Some demo_nonce) None true true None) in
  let other := replicate 32 Byte.x44 in
  let '(key, file') := EnsureDEK (λ _, toy) demo_kek (Some other) (Some demo_nonce) None false true file in
  key = Some other ∧ UnwrapDEK (λ _, toy) demo_kek true file' = Some other.
Proof. vm_compute. split; reflexivity. Qed.

(** The file is removed before the new copy takes its name: a crash in between
    leaves neither the old contents nor the new under the name that is read. *)
Example sealed_file_gap :
  ∃ crash, crash ∈ WriteSealedFile None [] (bytes_of "new") (Some (bytes_of "old")) ∧ ReadSealedFile None (fst crash) = None.
Proof. exists (None, Some (bytes_of "new")). split; [vm_compute; right; left|done]. Qed.

Lemma accept_listed allowed pending pid : fst (Accept allowed pending) = Conn_of pid → pid ∈ allowed.
Proof. induction pending as [|[q|] pending IH]; cbn; [done| |done]. case_bool_decide; [by intros [= <-]|exact IH]. Qed.

(** C27: a node that [Enforce] lets start as production runs a
    profile that encrypts, unless [DBX_ALLOW_INPROCESS] waives it, and then it may
    run in the process, unencrypted and without a key; a profile that encrypts has
    a wrapping key of 32 bytes at hand; asked for disk encryption the node is on a
    mount that looks encrypted; the strict mode on Linux has every seal, and no
    profile has process isolation without encryption and peer checks. A listener
    that [Listen] opens on a Unix socket on Linux with a list of processes hands
    over connections from those processes only; on TCP, on other systems and
    without a list it looks at no peer. *)
Theorem production_sealed goos name getenv looks s addr pids mkdir bound chmod l pending :
  let p := Resolve goos name in
  (Enforce getenv looks p s = Ok tt →
     (Production s = true → AllowInprocess s = false → Mode p ≠ ModeInprocess ∧ p_Encryption p = true) ∧
     (p_Encryption p = true → ∃ kek, LoadKEK (getenv "DBX_KEK"%string) = Some kek ∧ zlen kek = 32) ∧
     (RequireDiskEncryption s = true → s_DataDir s ≠ ""%string → fst (looks (s_DataDir s)) = true)) ∧
  (goos = "linux"%string → Mode p = ModeStrict → UnixIPC p = true ∧ PeerCred p = true ∧ Process p = true ∧ Landlock p = true ∧ Cgroup p = true) ∧
  (Process p = true → goos = "linux"%string ∧ p_Encryption p = true ∧ PeerCred p = true) ∧
  (Listen goos addr pids mkdir bound chmod = Ok l →
     if IsUnixAddr addr && bool_decide (goos = "linux"%string) && negb (zlen pids =? 0)
     then ∀ pid, fst (accept_from l pending) = Conn_of pid → 0 < pid ∧ pid ∈ pids
     else ∀ pid rest, pending = Some pid :: rest → fst (accept_from l pending) = Conn_of pid).
Proof.
  intros p.
  assert (Hp : (Mode p = ModeInprocess ∧ p_Encryption p = false ∧ Process p = false) ∨
    (p_Encryption p = true ∧ Mode p ≠ ModeInprocess ∧ (Mode p = ModeStrict → goos = "linux"%string → UnixIPC p = true ∧ PeerCred p = true ∧ Process p = true ∧ Landlock p = true ∧ Cgroup p = true) ∧
     (Process p = true → goos = "linux"%string ∧ PeerCred p = true))).
  { unfold p, Resolve. cbv zeta. set (md := if bool_decide (_ ∨ _) then _ else _). case_bool_decide as E1.
    - right. cbn. rewrite E1. split; [done|]. split; [done|]. split; [done|done].
    - case_bool_decide as E2; [|left; cbn; split; [|done]; subst md; case_bool_decide as E3; [tauto|done]].
      right. cbn. rewrite E2. destruct (decide (goos = "linux"%string)) as [->|Hg]; [split; [done|]; split; [done|]; split; done|].
      rewrite (bool_decide_eq_false_2 _ Hg). split; [done|]. split; [done|]. split; [done|done]. }
  split; [|split; [|split]].
  - unfold Enforce, RequireKEK. intros He. destruct Hp as [(H1 & H2 & _)|(H1 & H2 & _)].
    + rewrite H2 in He. cbn [rbind] in He. rewrite H1, bool_decide_eq_true_2, andb_true_r in He by done.
      destruct (Production s) eqn:E1, (AllowInprocess s) eqn:E2; cbn in He; try done; (split; [done|split; [congruence|]]);
        intros Hr Hdir; rewrite Hr, bool_decide_eq_false_2 in He by done; cbn in He; by destruct (looks _) as [[] note].
    + rewrite H1 in He. destruct (LoadKEK _) as [kek|] eqn:Ek; [|done]. cbn [rbind] in He.
      rewrite (bool_decide_eq_false_2 _ H2), andb_false_r in He. cbn [andb] in He. split; [done|]. split.
      * intros _. exists kek. split; [done|]. clear He. unfold LoadKEK in Ek. case_bool_decide; [done|]. destruct (DecodeString _) as [k|]; [|done].
        destruct (zlen k =? dekSize) eqn:E; [|done]. injection Ek as <-. unfold dekSize in E. lia.
      * intros Hr Hdir. rewrite Hr, bool_decide_eq_false_2 in He by done. cbn in He. by destruct (looks _) as [[] note].
  - intros Hg Hm. destruct Hp as [(H1 & _)|(_ & _ & H & _)]; [by rewrite H1 in Hm|]. by apply H.
  - intros Hpr. destruct Hp as [(_ & _ & H3)|(H1 & _ & _ & H)]; [congruence|]. destruct (H Hpr). done.
  - unfold Listen. destruct (IsUnixAddr addr); cbn [negb andb]; [|destruct bound; [|done]; intros [= <-] pid rest ->; done].
    destruct (mkdir _), bound, chmod; cbn [negb]; try done.
    destruct (bool_decide (goos = "linux"%string)), (zlen pids =? 0); cbn [negb andb orb]; intros [= <-]; try (by intros pid rest ->).
    intros pid Hacc%accept_listed. unfold allowedSet in Hacc. rewrite elem_of_list_to_set, list_elem_of_In, filter_In, <- list_elem_of_In in Hacc. split; [lia|apply Hacc].
Qed.

Definition demo_env (name : string) : string :=
  if bool_decide (name = "DBX_KEK"%string) then EncodeToString demo_kek else ""%string.

Lemma production_sealed_witness :
  let p := Resolve "linux" " Strict " in
  let s := StartupFromEnv demo_env false "/data" in
  Enforce demo_env (λ _, (false, ""%string)) p s = Ok tt ∧ Production s = true ∧ p_Encryption p = true ∧ Process p = true ∧
  Enforce demo_env (λ _, (false, ""%string)) (Resolve "linux" "") s ≠ Ok tt ∧
  Listen "linux" "/run/t/resp.sock" [7] (λ _, true) true true = Ok (Checked "/run/t/resp.sock" {[7]}) ∧
  accept_from (Checked "/run/t/resp.sock" {[7]}) [Some 9; Some 7] = (Conn_of 7, []) ∧ 0 < 7.
Proof.
  cbv zeta. assert (E : Enforce demo_env (λ _, (false, ""%string)) (Resolve "linux" " Strict ") (StartupFromEnv demo_env false "/data") = Ok tt) by (vm_compute; reflexivity).
  assert (El : Listen "linux" "/run/t/resp.sock" [7] (λ _, true) true true = Ok (Checked "/run/t/resp.sock" {[7]})) by (vm_compute; reflexivity).
  assert (Ea : accept_from (Checked "/run/t/resp.sock" {[7]}) [Some 9; Some 7] = (Conn_of 7, [])) by (vm_compute; reflexivity).
  destruct (production_sealed "linux" " Strict " demo_env (λ _, (false, ""%string)) (StartupFromEnv demo_env false "/data")
    "/run/t/resp.sock" [7] (λ _, true) true true (Checked "/run/t/resp.sock" {[7]}) [Some 9; Some 7]) as (H & _ & _ & HL).
  split; [exact E|]. split; [vm_compute; reflexivity|].
  split; [exact (proj2 (proj1 (H E) eq_refl eq_refl))|]. split; [vm_compute; reflexivity|]. split; [vm_compute; discriminate|].
  split; [exact El|]. split; [exact Ea|]. exact (proj1 (HL El 7 (f_equal fst Ea))).
Defined.
