(* ===== verification/Orchestrator.v ===== *)
(** * The tenant manager of the orchestrator ([orchestrator/manager.go],
    [hibernate.go], [tenant_keys.go], [worker.go], [replication_key.go],
    [backup_restore.go], [fsm.go])

    Tenants are objects shared by the table and by the goroutines that start
    them, so the registry is a heap of tenants with a table of pointers into it;
    engines (in-process instances and isolated workers) are never forgotten, so
    that one that is stopped, or lost, stays visible. What the operating system,
    an engine or a peer answers is the list [o_oracle]: every fallible call takes
    the next answer, and succeeds once the list is used up. An operation that
    holds the lock in one piece is one function; [ProvisionWith], which gives it
    up in the middle, is two ([reserve] and [commit]), so that their interleavings
    can be stated. The state file is its last saved contents ([StateFile] has the
    renames). The files of a tenant, other than its ACL and its configuration, are
    only a directory that is there or not. *)

From S2P Require Import Prelude GoStd RESP Commands Auth Isolation.
From S2P Require Config ReplSession StateFile.
Open Scope Z_scope.

(** ** Data *)
Record TenantKey := {
  k_ID : string; k_Name : string; k_Hash : string; k_Role : string; KeyPatterns : list string;
  Generation : Z; Revoked : bool; CreatedAt : Z
}.

Record Tenant := {
  ID : string; Name : string; HTTPPort : Z; RESPPort : Z; GRPCPort : Z; RaftPort : Z; DataDir : string;
  Role : string; ReplicaOf : string; ReplicationPort : Z; Replicas : list string; Keys : gmap string TenantKey;
  Hibernated : bool; VectorEncoding : string
}.

Definition maxTenantsPerNode : Z := 100.
Definition maxReplicasPerTenant : Z := 2.
Definition defaultReplicationPort : Z := 7401.

(** An engine: [e_live] until it is stopped, [e_readonly] while it follows a
    primary, [e_stream] once it listens for replicas. *)
Record Engine := {
  e_worker : bool; e_cfg : Config.Config; e_tenant : string; e_users : ACLStore;
  e_live : bool; e_readonly : bool; e_stream : bool
}.

(** What does not change while the node runs. *)
Record Node := {
  n_goos : string; n_tmp : string; n_root : string; n_pid : Z; n_profile : Profile;
  n_stateFile : bool; n_newKey : list byte; n_budget : Z
}.

Record Registry := {
  r_heap : list Tenant; r_tenants : gmap string nat;
  nextHTTPPort : Z; nextRESPPort : Z; nextReplPort : Z
}.
Record Runtime := {
  instances : gmap string nat; workers : gmap string nat; engines : list Engine;
  starting : gset string; restarts : gmap string Z; tenantQuotas : gmap string Z
}.
Record Outside := {
  o_saved : option (gmap string Tenant); o_acl : gmap string (list User); o_yaml : gmap string Config.Config;
  o_dirs : gset string; o_replKey : option (list byte); o_keyFile : option (list byte); o_oracle : list bool
}.
Record Manager := { m_node : Node; m_reg : Registry; m_run : Runtime; m_out : Outside }.

Definition with_reg (m : Manager) (r : Registry) : Manager := {| m_node := m_node m; m_reg := r; m_run := m_run m; m_out := m_out m |}.
Definition with_run (m : Manager) (r : Runtime) : Manager := {| m_node := m_node m; m_reg := m_reg m; m_run := r; m_out := m_out m |}.
Definition with_out (m : Manager) (o : Outside) : Manager := {| m_node := m_node m; m_reg := m_reg m; m_run := m_run m; m_out := o |}.

(** *** The registry *)
Definition with_heap (r : Registry) (h : list Tenant) : Registry :=
  {| r_heap := h; r_tenants := r_tenants r; nextHTTPPort := nextHTTPPort r; nextRESPPort := nextRESPPort r; nextReplPort := nextReplPort r |}.
Definition with_table (r : Registry) (t : gmap string nat) : Registry :=
  {| r_heap := r_heap r; r_tenants := t; nextHTTPPort := nextHTTPPort r; nextRESPPort := nextRESPPort r; nextReplPort := nextReplPort r |}.
(** [m.tenants[id]], read through the pointer. *)
Definition tenant (r : Registry) (id : string) : option Tenant := r_tenants r !! id ≫= λ p, r_heap r !! p.
Definition set_tenant (p : nat) (t : Tenant) (r : Registry) : Registry := with_heap r (<[p := t]> (r_heap r)).
Definition all_tenants (r : Registry) : gmap string Tenant := omap (λ p, r_heap r !! p) (r_tenants r).

(** *** The runtime *)
Definition with_instances (r : Runtime) (i : gmap string nat) : Runtime :=
  {| instances := i; workers := workers r; engines := engines r; starting := starting r; restarts := restarts r; tenantQuotas := tenantQuotas r |}.
Definition with_workers (r : Runtime) (w : gmap string nat) : Runtime :=
  {| instances := instances r; workers := w; engines := engines r; starting := starting r; restarts := restarts r; tenantQuotas := tenantQuotas r |}.
Definition with_engines (r : Runtime) (e : list Engine) : Runtime :=
  {| instances := instances r; workers := workers r; engines := e; starting := starting r; restarts := restarts r; tenantQuotas := tenantQuotas r |}.
Definition with_starting (r : Runtime) (s : gset string) : Runtime :=
  {| instances := instances r; workers := workers r; engines := engines r; starting := s; restarts := restarts r; tenantQuotas := tenantQuotas r |}.
Definition with_restarts (r : Runtime) (s : gmap string Z) : Runtime :=
  {| instances := instances r; workers := workers r; engines := engines r; starting := starting r; restarts := s; tenantQuotas := tenantQuotas r |}.
Definition with_quotas (r : Runtime) (q : gmap string Z) : Runtime :=
  {| instances := instances r; workers := workers r; engines := engines r; starting := starting r; restarts := restarts r; tenantQuotas := q |}.

Definition set_live (b : bool) (e : Engine) : Engine :=
  {| e_worker := e_worker e; e_cfg := e_cfg e; e_tenant := e_tenant e; e_users := e_users e; e_live := b; e_readonly := e_readonly e; e_stream := e_stream e |}.
Definition set_users (f : ACLStore → ACLStore) (e : Engine) : Engine :=
  {| e_worker := e_worker e; e_cfg := e_cfg e; e_tenant := e_tenant e; e_users := f (e_users e); e_live := e_live e; e_readonly := e_readonly e; e_stream := e_stream e |}.
Definition SetTenantID (id : string) (e : Engine) : Engine :=
  {| e_worker := e_worker e; e_cfg := e_cfg e; e_tenant := id; e_users := e_users e; e_live := e_live e; e_readonly := e_readonly e; e_stream := e_stream e |}.

Definition upd_engine (f : Engine → Engine) (h : nat) (m : Manager) : Manager :=
  with_run m (with_engines (m_run m) (alter f h (engines (m_run m)))).
(** [Stop] of an instance or a worker, of none when there is none. *)
Definition stop (h : option nat) (m : Manager) : Manager := if h is Some h then upd_engine (set_live false) h m else m.

(** *** The outside *)
Definition ask (m : Manager) : bool * Manager :=
  let o := m_out m in
  match o_oracle o with
  | [] => (true, m)
  | b :: l => (b, with_out m {| o_saved := o_saved o; o_acl := o_acl o; o_yaml := o_yaml o; o_dirs := o_dirs o;
                                o_replKey := o_replKey o; o_keyFile := o_keyFile o; o_oracle := l |})
  end.
Definition with_saved (o : Outside) (s : option (gmap string Tenant)) : Outside :=
  {| o_saved := s; o_acl := o_acl o; o_yaml := o_yaml o; o_dirs := o_dirs o; o_replKey := o_replKey o; o_keyFile := o_keyFile o; o_oracle := o_oracle o |}.
Definition with_acl (o : Outside) (a : gmap string (list User)) : Outside :=
  {| o_saved := o_saved o; o_acl := a; o_yaml := o_yaml o; o_dirs := o_dirs o; o_replKey := o_replKey o; o_keyFile := o_keyFile o; o_oracle := o_oracle o |}.
Definition with_yaml (o : Outside) (y : gmap string Config.Config) : Outside :=
  {| o_saved := o_saved o; o_acl := o_acl o; o_yaml := y; o_dirs := o_dirs o; o_replKey := o_replKey o; o_keyFile := o_keyFile o; o_oracle := o_oracle o |}.
Definition with_dirs (o : Outside) (d : gset string) : Outside :=
  {| o_saved := o_saved o; o_acl := o_acl o; o_yaml := o_yaml o; o_dirs := d; o_replKey := o_replKey o; o_keyFile := o_keyFile o; o_oracle := o_oracle o |}.
Definition with_key (o : Outside) (k f : option (list byte)) : Outside :=
  {| o_saved := o_saved o; o_acl := o_acl o; o_yaml := o_yaml o; o_dirs := o_dirs o; o_replKey := k; o_keyFile := f; o_oracle := o_oracle o |}.

(** [saveState], with the lock held. *)
Definition saveState (m : Manager) : bool * Manager :=
  let '(ok, m) := ask m in
  if ok then (true, with_out m (with_saved (m_out m) (Some (all_tenants (m_reg m))))) else (false, m).

(** Go on when the next call succeeds, else report the error. *)
Definition asked (e : string) (m : Manager) (k : Manager → res string unit * Manager) : res string unit * Manager :=
  let '(ok, m) := ask m in if ok then k m else (Err e, m).

(** ** The key of replication ([replication_key.go]) *)
Definition loadReplicationKey (raw : list byte) : option (list byte) :=
  match DecodeString (TrimSpace (str_of raw)) with
  | Some key => if zlen key =? 32 then Some key else None
  | None => None
  end.
Definition createReplicationKey (m : Manager) : option (list byte) * Manager :=
  let '(ok, m) := ask m in
  if ok then
    let key := n_newKey (m_node m) in
    (Some key, with_out m (with_key (m_out m) (o_replKey (m_out m)) (Some (bytes_of (EncodeToString key)))))
  else (None, m).
Definition replicationKey (m : Manager) : option (list byte) * Manager :=
  match o_replKey (m_out m) with
  | Some key => (Some key, m)
  | None =>
      let '(key, m) :=
        if negb (n_stateFile (m_node m)) then
          let '(ok, m) := ask m in (if ok then Some (n_newKey (m_node m)) else None, m)
        else match o_keyFile (m_out m) with
             | Some raw => (loadReplicationKey raw, m)
             | None => createReplicationKey m
             end in
      match key with
      | Some key => (Some key, with_out m (with_key (m_out m) (Some key) (o_keyFile (m_out m))))
      | None => (None, m)
      end
  end.
Definition token_of (key : list byte) (groupID : string) : string :=
  EncodeToString (ReplSession.hmac_Sum key (bytes_of ("dbx-repl-v1:" ++ groupID))).
Definition replicationToken (groupID : string) (m : Manager) : option string * Manager :=
  let '(key, m) := replicationKey m in ((λ key, token_of key groupID) <$> key, m).
Definition replicationGroup (t : Tenant) : string :=
  if bool_decide (Role t = "replica"%string) && negb (bool_decide (ReplicaOf t = ""%string)) then ReplicaOf t else ID t.

(** ** Keys as users ([tenant_keys.go], [worker.go]) *)
Definition rolePermissions (role : string) : option Z :=
  if bool_decide (role = "reader"%string) then Some PermRead
  else if bool_decide (role = "writer"%string) then Some (Z.lor PermRead PermWrite)
  else if bool_decide (role = "tenant-admin"%string) then Some (Z.lor (Z.lor PermRead PermWrite) PermAdmin)
  else None.
Definition tenantUser (key : TenantKey) : User :=
  {| user_Name := k_ID key; PasswordHash := k_Hash key; Enabled := negb (Revoked key);
     Permissions := default 0 (rolePermissions (k_Role key)); AllowedKeys := KeyPatterns key;
     AllowedChannels := []; NoPass := false |}.
Definition live_users (keys : gmap string TenantKey) : list User :=
  map (λ p, tenantUser p.2) (List.filter (λ p, negb (Revoked p.2)) (map_to_list keys)).
Definition collectTenantUsers (r : Registry) (t : Tenant) : list User :=
  live_users (Keys t) ++
  if bool_decide (Role t = "replica"%string) then
    match tenant r (ReplicaOf t) with Some primary => live_users (Keys primary) | None => [] end
  else [].
Definition add_users (users : list User) (a : ACLStore) : ACLStore := foldl AddUser a users.
(** [WriteFile] after the users are added to an empty store, and [LoadFile]. *)
Definition acl_file (users : list User) : list User := SnapshotUsers (add_users users (DisableDefault NewACLStore)).
Definition load_acl (file : option (list User)) (a : ACLStore) : ACLStore :=
  match file with Some users => ReplaceUsers (Some <$> users) | None => a end.
Definition writeUsersACL (dir : string) (users : list User) (m : Manager) : bool * Manager :=
  let '(ok, m) := ask m in
  if ok then (true, with_out m (with_acl (m_out m) (<[dir := acl_file users]> (o_acl (m_out m))))) else (false, m).

(** ** Starting a tenant *)
Definition set_sockets (socket http : string) (pids : list Z) (s : Config.ServerConfig) : Config.ServerConfig :=
  {| Config.Host := Config.Host s; Config.Port := Config.Port s; Config.HTTPPort := Config.HTTPPort s; Config.GRPCPort := Config.GRPCPort s;
     Config.Socket := socket; Config.HTTPSocket := http; Config.MaxConnections := Config.MaxConnections s;
     Config.ReadTimeout := Config.ReadTimeout s; Config.WriteTimeout := Config.WriteTimeout s; Config.PeerPIDs := pids |}.
Definition set_ACLFile (file : string) (c : Config.Config) : Config.Config :=
  {| Config.Server := Config.Server c; Config.Engine := Config.Engine c; Config.Persistence := Config.Persistence c;
     Config.Replication := Config.Replication c; Config.Cluster := Config.Cluster c;
     Config.Auth := {| Config.a_Enabled := Config.a_Enabled (Config.Auth c); Config.DefaultUser := Config.DefaultUser (Config.Auth c);
                       Config.RequirePassword := Config.RequirePassword (Config.Auth c); Config.ACLFile := file |};
     Config.Security := Config.Security c; Config.Policy := Config.Policy c; Config.Tiering := Config.Tiering c;
     Config.Observability := Config.Observability c; Config.Workflow := Config.Workflow c; Config.Events := Config.Events c |}.

Definition resp_socket (n : Node) (dir : string) : string := RESPSocket (n_goos n) (n_tmp n) dir.
Definition http_socket (n : Node) (dir : string) : string := HTTPSocket (n_goos n) (n_tmp n) dir.
Definition repl_socket (n : Node) (dir : string) : string := ReplSocket (n_goos n) (n_tmp n) dir.

(** The configuration of an engine before replication. *)
Definition base_config (n : Node) (t : Tenant) : Config.Config :=
  let c := Config.TenantEngine (DataDir t) (RESPPort t) (HTTPPort t) in
  if bool_decide (VectorEncoding t = ""%string) then c else Config.set_Engine (Config.set_encoding (VectorEncoding t)) c.
Definition tenant_config (n : Node) (t : Tenant) : Config.Config :=
  let c := set_ACLFile (ACLFile (DataDir t)) (base_config n t) in
  if unixIPCAvailable (n_goos n)
  then Config.set_Server (set_sockets (resp_socket n (DataDir t)) (http_socket n (DataDir t))
         (if PeerCred (n_profile n) then [n_pid n] else Config.PeerPIDs (Config.Server c))) c
  else c.

Definition loopback (port : Z) : string := ("127.0.0.1:" ++ FormatInt port)%string.
(** Role, address to listen on and address of the primary. *)
Definition repl_roles (n : Node) (r : Registry) (t : Tenant) : string * string * string :=
  if bool_decide (Role t = "primary"%string) then
    ("primary", if UnixIPC (n_profile n) then repl_socket n (DataDir t) else loopback (ReplicationPort t), "")%string
  else if bool_decide (Role t = "replica"%string) then
    ("replica", "",
     match tenant r (ReplicaOf t) with
     | Some primary =>
         if UnixIPC (n_profile n) then repl_socket n (DataDir primary)
         else if ReplicationPort primary >? 0 then loopback (ReplicationPort primary) else ""
     | None => ""
     end)%string
  else ("", "", "")%string.

(** Admission: the quota is reserved once per tenant, within 70% of the budget. *)
Definition allocated (q : gmap string Z) : Z := map_fold (λ _ v acc, i64 (acc + v)) 0 q.
Definition reserve_quota (id : string) (quota : Z) (m : Manager) : res string unit * Manager :=
  let q := tenantQuotas (m_run m) in
  match q !! id with
  | Some _ => (Ok tt, m)
  | None =>
      if (n_budget (m_node m) >? 0) && (i64 (allocated q + quota) >? Z.quot (i64 (n_budget (m_node m) * 70)) 100)
      then (Err ("node admission denied: tenant quotas would exceed 70% of " ++ FormatInt (n_budget (m_node m)) ++ " bytes")%string, m)
      else (Ok tt, with_run m (with_quotas (m_run m) (<[id := quota]> q)))
  end.

Definition engine_for (t : Tenant) (cfg : Config.Config) (worker : bool) (users : ACLStore) : Engine :=
  let role := Config.Role (Config.Replication cfg) in
  {| e_worker := worker; e_cfg := cfg; e_tenant := ID t; e_users := users; e_live := true;
     e_readonly := bool_decide (role = "replica"%string);
     e_stream := bool_decide (role = "primary"%string) && negb (bool_decide (Config.ListenAddr (Config.Replication cfg) = ""%string)) |}.
(** The new engine enters the table of instances or of workers. *)
Definition register (t : Tenant) (e : Engine) (m : Manager) : res string unit * Manager :=
  let run := m_run m in
  let h := length (engines run) in
  let run1 := with_engines run (engines run ++ [e]) in
  (Ok tt, with_run m (if e_worker e then with_workers run1 (<[ID t := h]> (workers run)) else with_instances run1 (<[ID t := h]> (instances run)))).

(** The engine comes up: as a worker, or in the process; the users are those of
    the ACL file, in the process also those of the table. *)
Definition launch (t : Tenant) (cfg : Config.Config) (m : Manager) : res string unit * Manager :=
  let users := load_acl (o_acl (m_out m) !! DataDir t) ∅ in
  if Process (n_profile (m_node m)) then asked "tenant worker exited" m (register t (engine_for t cfg true users))
  else
    asked "engine start failed" m (λ m,
    let up m := register t (engine_for t cfg false (add_users (collectTenantUsers (m_reg m) t) users)) m in
    if bool_decide (Config.Socket (Config.Server cfg) = ""%string) then up m else asked "tenant sockets not ready" m up).

(** The part of [StartTenant] between marking the tenant as starting and taking
    the mark back. *)
Definition bring_up (t : Tenant) (m : Manager) : res string unit * Manager :=
  asked "mkdir" m (λ m,
  let m := with_out m (with_dirs (m_out m) ({[DataDir t]} ∪ o_dirs (m_out m))) in
  (if p_Encryption (n_profile (m_node m)) then asked "tenant key" m else λ k, k m) (λ m,
  let n := m_node m in
  let '(role, listenAddr, primaryAddr) := repl_roles n (m_reg m) t in
  let '(token, m) := if bool_decide (role = ""%string) then (Some ""%string, m) else replicationToken (replicationGroup t) m in
  match token with
  | None => (Err "replication key"%string, m)
  | Some token =>
      match Config.ApplyReplication (tenant_config n t) role listenAddr primaryAddr token with
      | Ok cfg =>
          let '(wrote, m) := ask m in
          let m := if wrote then with_out m (with_yaml (m_out m) (<[DataDir t := cfg]> (o_yaml (m_out m)))) else m in
          let '(ok, m) := writeUsersACL (DataDir t) (collectTenantUsers (m_reg m) t) m in
          if negb ok then (Err "acl"%string, m)
          else
            match Config.ParseBytes (Config.MaxMemory (Config.Engine cfg)) with
            | Ok quota =>
                match reserve_quota (ID t) quota m with
                | (Ok _, m) => launch t cfg m
                | r => r
                end
            | Err e => (Err e, m)
            | Panic => (Panic, m)
            end
      | Err e => (Err e, m)
      | Panic => (Panic, m)
      end
  end)).

Definition running (run : Runtime) (id : string) : bool :=
  bool_decide (is_Some (instances run !! id)) || bool_decide (is_Some (workers run !! id)).

(** [StartTenant] of the tenant behind a pointer. *)
Definition StartTenant (p : nat) (m : Manager) : res string unit * Manager :=
  match r_heap (m_reg m) !! p with
  | None => (Panic, m)
  | Some t =>
      if Hibernated t then (Err ("tenant " ++ ID t ++ " is hibernated")%string, m)
      else if bool_decide (ID t ∈ starting (m_run m)) || running (m_run m) (ID t) then (Ok tt, m)
      else
        let m := with_run m (with_starting (m_run m) ({[ID t]} ∪ starting (m_run m))) in
        let '(r, m) := bring_up t m in
        (r, with_run m (with_starting (m_run m) (starting (m_run m) ∖ {[ID t]})))
  end.

(** A start whose error is printed and forgotten. *)
Definition start_quietly (p : nat) (m : Manager) : Manager := snd (StartTenant p m).

(** [startReplicaSet] *)
Definition startReplicaSet (primary : nat) (replicas : list nat) (m : Manager) : Manager :=
  match StartTenant primary m with
  | (Ok _, m) => foldl (λ m p, start_quietly p m) m replicas
  | (_, m) => m
  end.

(** ** Provisioning *)
Definition replicaTenantID (id : string) (n : Z) : string := (id ++ "-r" ++ FormatInt n)%string.
Definition id_byte (b : byte) : bool :=
  let z := b2z b in
  ((97 <=? z) && (z <=? 122)) || ((65 <=? z) && (z <=? 90)) || ((48 <=? z) && (z <=? 57)) || (z =? 45).

(** The checks before the lock is taken: the normalised encoding. *)
Definition check_request (id name : string) (replicaCount : Z) (vectorEncoding : string) : res string string :=
  if bool_decide (id = ""%string) then Err "invalid tenant id"%string
  else if negb (forallb id_byte (bytes_of id)) then Err "invalid tenant id: only alphanumeric and dashes allowed"%string
  else if bool_decide (name = ""%string) then Err "tenant name is required"%string
  else if replicaCount <? 0 then Err "replica count must be >= 0"%string
  else if replicaCount >? maxReplicasPerTenant then Err ("at most " ++ FormatInt maxReplicasPerTenant ++ " replicas per tenant")%string
  else Config.NormalizeVectorEncoding vectorEncoding.

Definition data_dir (n : Node) (id : string) : string := Config.Join (Config.Join (n_root n) "tenants") id.

Definition advance (http resp repl : Z) (r : Registry) : Registry :=
  {| r_heap := r_heap r; r_tenants := r_tenants r; nextHTTPPort := nextHTTPPort r + http;
     nextRESPPort := nextRESPPort r + resp; nextReplPort := nextReplPort r + repl |}.

Fixpoint build_replicas (n : Node) (id name encoding : string) (i : Z) (count : nat) (r : Registry) : list Tenant * Registry :=
  match count with
  | O => ([], r)
  | S count =>
      let rid := replicaTenantID id i in
      let t := {| ID := rid; Name := (name ++ " replica " ++ FormatInt i)%string; HTTPPort := nextHTTPPort r; RESPPort := nextRESPPort r;
                  GRPCPort := 0; RaftPort := 0; DataDir := data_dir n rid; Role := "replica"; ReplicaOf := id;
                  ReplicationPort := nextReplPort r; Replicas := []; Keys := ∅; Hibernated := false; VectorEncoding := encoding |} in
      let '(l, r) := build_replicas n id name encoding (i + 1) count (advance 1 1 1 r) in (t :: l, r)
  end.

(** The first critical section: the checks against the table and the ports. *)
Definition reserve (n : Node) (id name : string) (replicaCount : Z) (encoding : string) (r : Registry)
    : res string (Tenant * list Tenant) * Registry :=
  let rids := map (λ i, replicaTenantID id (Z.of_nat i)) (List.seq 1 (Z.to_nat replicaCount)) in
  if bool_decide (is_Some (r_tenants r !! id)) then (Err "tenant already exists"%string, r)
  else match List.find (λ rid, bool_decide (is_Some (r_tenants r !! rid))) rids with
  | Some rid => (Err ("replica id " ++ rid ++ " already exists")%string, r)
  | None =>
      if Z.of_nat (size (r_tenants r)) + 1 + replicaCount >? maxTenantsPerNode
      then (Err ("v1 tenant limit reached: maximum " ++ FormatInt maxTenantsPerNode ++ " tenants per node")%string, r)
      else
        let primary := {| ID := id; Name := name; HTTPPort := nextHTTPPort r; RESPPort := nextRESPPort r; GRPCPort := 0; RaftPort := 0;
                          DataDir := data_dir n id; Role := if replicaCount >? 0 then "primary" else ""; ReplicaOf := "";
                          ReplicationPort := if replicaCount >? 0 then nextReplPort r else 0;
                          Replicas := rids; Keys := ∅; Hibernated := false; VectorEncoding := encoding |} in
        let r := advance 1 1 (if replicaCount >? 0 then 1 else 0) r in
        let '(replicas, r) := build_replicas n id name encoding 1 (Z.to_nat replicaCount) r in
        (Ok (primary, replicas), r)
  end.

(** The objects enter the heap and the table: their pointers. *)
Definition insert_tenants (l : list Tenant) (r : Registry) : list nat * Registry :=
  let base := length (r_heap r) in
  (List.seq base (length l),
   with_table (with_heap r (r_heap r ++ l))
     (foldl (λ tab p, <[ID p.2 := p.1]> tab) (r_tenants r) (zip (List.seq base (length l)) l))).

(** The second critical section. *)
Definition commit (primary : Tenant) (replicas : list Tenant) (m : Manager) : bool * list nat * Manager :=
  let '(ps, r) := insert_tenants (primary :: replicas) (m_reg m) in
  let '(ok, m) := saveState (with_reg m r) in (ok, ps, m).

(** Without Raft, or through it: whether this node leads and what applying the
    command answered. *)
Inductive route := Local | Raft (leader : bool) (failed : option string).

(** [ProvisionWith]: the pointers of the tenants, whose replica set a goroutine
    then starts; through Raft none, the command is applied by [Apply]. *)
Definition ProvisionWith (rt : route) (id name : string) (replicaCount : Z) (vectorEncoding : string) (m : Manager)
    : res string (list nat) * Manager :=
  match check_request id name replicaCount vectorEncoding with
  | Err e => (Err e, m)
  | Panic => (Panic, m)
  | Ok encoding =>
      let '(ready, m) := if replicaCount >? 0 then let '(key, m) := replicationKey m in (bool_decide (is_Some key), m) else (true, m) in
      if negb ready then (Err "replication key"%string, m)
      else
        match reserve (m_node m) id name replicaCount encoding (m_reg m) with
        | (Ok (primary, replicas), r) =>
            let m := with_reg m r in
            match rt with
            | Local =>
                let '(ok, ps, m) := commit primary replicas m in
                (if ok then Ok ps else Err "save state"%string, m)
            | Raft false _ => (Err "provisioning failed: not the leader"%string, m)
            | Raft true (Some e) => (Err e, m)
            | Raft true None => (Ok [], m)
            end
        | (Err e, r) => (Err e, with_reg m r)
        | (Panic, r) => (Panic, with_reg m r)
        end
  end.
Definition Provision (rt : route) (id name : string) (replicaCount : Z) (m : Manager) : res string (list nat) * Manager :=
  ProvisionWith rt id name replicaCount "" m.

(** ** Removing a tenant *)
Definition drop_tenant (id : string) (m : Manager) : Manager :=
  with_run (with_reg m (with_table (m_reg m) (delete id (r_tenants (m_reg m)))))
    (with_quotas (with_workers (with_instances (m_run m) (delete id (instances (m_run m)))) (delete id (workers (m_run m))))
       (delete id (tenantQuotas (m_run m)))).

(** [removeTenant]; the receipt of a purge is a call that succeeds or not. *)
Definition removeTenant (t : Tenant) (purge : bool) (m : Manager) : res string unit * Manager :=
  let inst := instances (m_run m) !! ID t in
  let worker := workers (m_run m) !! ID t in
  let '(saved, m) := saveState (drop_tenant (ID t) m) in
  let m := stop worker (stop inst m) in
  if negb saved then (Err "save state"%string, m)
  else if negb purge then (Ok tt, m)
  else
    asked ("tenant " ++ ID t ++ " removed from control plane but data purge failed") m (λ m,
    let o := m_out m in
    let m := with_out m (with_yaml (with_acl (with_dirs o (o_dirs o ∖ {[DataDir t]})) (delete (DataDir t) (o_acl o))) (delete (DataDir t) (o_yaml o))) in
    asked ("tenant " ++ ID t ++ " purged but receipt write failed") m (λ m, (Ok tt, m))).

Fixpoint remove_all (l : list Tenant) (purge : bool) (m : Manager) : res string unit * Manager :=
  match l with
  | [] => (Ok tt, m)
  | t :: l => match removeTenant t purge m with (Ok _, m) => remove_all l purge m | r => r end
  end.

(** The members of a replica set, read when the deletion starts. *)
Definition set_members (r : Registry) (t : Tenant) : list Tenant :=
  if bool_decide (Role t = "replica"%string) then [] else omap (tenant r) (Replicas t).

Definition set_Replicas (l : list string) (t : Tenant) : Tenant :=
  {| ID := ID t; Name := Name t; HTTPPort := HTTPPort t; RESPPort := RESPPort t; GRPCPort := GRPCPort t; RaftPort := RaftPort t;
     DataDir := DataDir t; Role := Role t; ReplicaOf := ReplicaOf t; ReplicationPort := ReplicationPort t; Replicas := l;
     Keys := Keys t; Hibernated := Hibernated t; VectorEncoding := VectorEncoding t |}.

(** Without Raft. *)
Definition deleteTenant (id : string) (purge : bool) (m : Manager) : res string unit * Manager :=
  match tenant (m_reg m) id with
  | None => (Err "tenant not found"%string, m)
  | Some t =>
      match remove_all (set_members (m_reg m) t) purge m with
      | (Ok _, m) =>
          match removeTenant t purge m with
          | (Ok _, m) =>
              if bool_decide (ReplicaOf t = ""%string) then (Ok tt, m)
              else
                match r_tenants (m_reg m) !! ReplicaOf t, tenant (m_reg m) (ReplicaOf t) with
                | Some p, Some primary =>
                    let kept := List.filter (λ rid, negb (bool_decide (rid = id))) (Replicas primary) in
                    let '(ok, m) := saveState (with_reg m (set_tenant p (set_Replicas kept primary) (m_reg m))) in
                    (if ok then Ok tt else Err "save state"%string, m)
                | _, _ => (Ok tt, m)
                end
          | r => r
          end
      | r => r
      end
  end.

(** ** Hibernation *)
Definition set_Hibernated (b : bool) (t : Tenant) : Tenant :=
  {| ID := ID t; Name := Name t; HTTPPort := HTTPPort t; RESPPort := RESPPort t; GRPCPort := GRPCPort t; RaftPort := RaftPort t;
     DataDir := DataDir t; Role := Role t; ReplicaOf := ReplicaOf t; ReplicationPort := ReplicationPort t; Replicas := Replicas t;
     Keys := Keys t; Hibernated := b; VectorEncoding := VectorEncoding t |}.

Definition drop_engines (id : string) (run : Runtime) : Runtime :=
  with_workers (with_instances run (delete id (instances run))) (delete id (workers run)).
Definition put_back (id : string) (inst worker : option nat) (run : Runtime) : Runtime :=
  let run := if inst is Some h then with_instances run (<[id := h]> (instances run)) else run in
  if worker is Some h then with_workers run (<[id := h]> (workers run)) else run.

Definition HibernateTenant (id : string) (m : Manager) : res string unit * Manager :=
  match r_tenants (m_reg m) !! id, tenant (m_reg m) id with
  | Some p, Some t =>
      if bool_decide (Role t = "replica"%string) then (Err ("hibernate the primary, not replica " ++ id)%string, m)
      else
        let inst := instances (m_run m) !! id in
        let worker := workers (m_run m) !! id in
        let m := with_run (with_reg m (set_tenant p (set_Hibernated true t) (m_reg m))) (drop_engines id (m_run m)) in
        let '(ok, m) := saveState m in
        if ok then (Ok tt, stop worker (stop inst m))
        else (Err "persist hibernation state"%string,
              with_run (with_reg m (set_tenant p (set_Hibernated false t) (m_reg m))) (put_back id inst worker (m_run m)))
  | _, _ => (Err "tenant not found"%string, m)
  end.

Definition wakeTenant (id : string) (requireHibernated : bool) (m : Manager) : res string unit * Manager :=
  match r_tenants (m_reg m) !! id, tenant (m_reg m) id with
  | Some p, Some t =>
      if requireHibernated && negb (Hibernated t) then (Err "tenant is not hibernated"%string, m)
      else
        let '(ok, m) := saveState (with_reg m (set_tenant p (set_Hibernated false t) (m_reg m))) in
        if ok then StartTenant p m
        else (Err "persist wake state"%string, with_reg m (set_tenant p (set_Hibernated true t) (m_reg m)))
  | _, _ => (Err "tenant not found"%string, m)
  end.

(** ** Restoring a backup ([backup_restore.go]): the engine is stopped, the
    directory replaced, and the tenant started again, on the old directory when a
    step failed. *)
Definition RestoreTenant (id : string) (m : Manager) : res string unit * Manager :=
  match r_tenants (m_reg m) !! id, tenant (m_reg m) id with
  | Some p, Some t =>
      let inst := instances (m_run m) !! id in
      let worker := workers (m_run m) !! id in
      let m := stop worker (stop inst (with_run m (drop_engines id (m_run m)))) in
      asked "mkdir" m (λ m,
      let '(extracted, m) := ask m in
      if negb extracted then (Err "backup"%string, start_quietly p m)
      else
        let '(aside, m) := ask m in
        if negb aside then (Err "rename"%string, start_quietly p m)
        else
          let '(installed, m) := ask m in
          if negb installed then (Err "rename"%string, start_quietly p m)
          else
            match StartTenant p m with
            | (Ok _, m) => (Ok tt, m)
            | (_, m) => (Err "restored tenant failed validation/startup"%string, start_quietly p m)
            end)
  | _, _ => (Err "tenant not found"%string, m)
  end.

(** ** Failover *)
Definition set_place (dir : string) (http resp repl : Z) (t : Tenant) : Tenant :=
  {| ID := ID t; Name := Name t; HTTPPort := http; RESPPort := resp; GRPCPort := GRPCPort t; RaftPort := RaftPort t;
     DataDir := dir; Role := Role t; ReplicaOf := ReplicaOf t; ReplicationPort := repl; Replicas := Replicas t;
     Keys := Keys t; Hibernated := Hibernated t; VectorEncoding := VectorEncoding t |}.
Definition take_place (t from : Tenant) : Tenant :=
  set_place (DataDir from) (HTTPPort from) (RESPPort from) (ReplicationPort from) t.

Definition set_repl (role listen primary : string) (c : Config.Config) : Config.Config :=
  Config.set_Replication (λ r,
    {| Config.Role := role; Config.ListenAddr := listen; Config.PrimaryAddr := primary; Config.Token := Config.Token r;
       Config.Replicas := Config.Replicas r; Config.Quorum := Config.Quorum r; Config.SyncTimeout := Config.SyncTimeout r;
       Config.LagThreshold := Config.LagThreshold r; Config.RaftEnabled := Config.RaftEnabled r; Config.RaftNodeID := Config.RaftNodeID r;
       Config.RaftBindAddr := Config.RaftBindAddr r; Config.RaftDir := Config.RaftDir r; Config.RaftBootstrap := Config.RaftBootstrap r;
       Config.RaftJoinAddr := Config.RaftJoinAddr r |}) c.
Definition promote_engine (listenAddr : string) (e : Engine) : Engine :=
  {| e_worker := e_worker e; e_cfg := set_repl "primary" listenAddr "" (e_cfg e); e_tenant := e_tenant e; e_users := e_users e;
     e_live := e_live e; e_readonly := false; e_stream := true |}.
Definition set_writable (e : Engine) : Engine :=
  {| e_worker := e_worker e; e_cfg := e_cfg e; e_tenant := e_tenant e; e_users := e_users e;
     e_live := e_live e; e_readonly := false; e_stream := e_stream e |}.
(** [Instance.BecomePrimary], for a worker by a request that may not arrive: an
    engine whose listener does not start takes writes all the same. *)
Definition BecomePrimary (h : nat) (listenAddr : string) (m : Manager) : bool * Manager :=
  match engines (m_run m) !! h with
  | None => (false, m)
  | Some e =>
      let '(reached, m) := if e_worker e then ask m else (true, m) in
      if negb reached then (false, m)
      else if e_stream e then (true, upd_engine (promote_engine listenAddr) h m)
      else let '(ok, m) := ask m in (ok, upd_engine (if ok then promote_engine listenAddr else set_writable) h m)
  end.

(** [writePromotedEngineConfig]; its error is only printed. *)
Definition writePromotedEngineConfig (t : Tenant) (listenAddr : string) (m : Manager) : Manager :=
  let n := m_node m in
  let c := base_config n t in
  let c := if unixIPCAvailable (n_goos n)
           then Config.set_Server (set_sockets (resp_socket n (DataDir t)) (http_socket n (DataDir t)) (Config.PeerPIDs (Config.Server c))) c else c in
  let '(token, m) := replicationToken (ID t) m in
  match token with
  | None => m
  | Some token =>
      match Config.ApplyReplication c "primary" listenAddr "" token with
      | Ok c => let '(ok, m) := ask m in if ok then with_out m (with_yaml (m_out m) (<[DataDir t := c]> (o_yaml (m_out m)))) else m
      | _ => m
      end
  end.

(** The table of engines after a promotion: the old primary's entry and those of
    the other replicas go, the replica's moves to the primary's name. *)
Definition move_engine (pid rid : string) (others : list string) (tab : gmap string nat) : gmap string nat :=
  let rest := foldl (λ tab o, delete o tab) (delete pid tab) others in
  match tab !! rid with
  | Some h => delete rid (<[pid := h]> rest)
  | None => rest
  end.

(** The locked part of [promoteLocal]: where the four fields are exchanged and
    the engines renamed. *)
Definition exchange (pp rp : nat) (primary replica : Tenant) (others : list string) (m : Manager) : Manager :=
  let reg := set_tenant rp (take_place replica primary) (set_tenant pp (take_place primary replica) (m_reg m)) in
  let run := m_run m in
  let run' := with_workers (with_instances run (move_engine (ID primary) (ID replica) others (instances run)))
                (move_engine (ID primary) (ID replica) others (workers run)) in
  let m := with_run (with_reg m reg) run' in
  if instances run !! ID replica is Some h then upd_engine (SetTenantID (ID primary)) h m else m.

Definition stop_all (l : list (option nat)) (m : Manager) : Manager := foldl (λ m h, stop h m) m l.

(** [promoteLocal]: once the state is saved and the other engines are stopped. *)
Definition finish_promotion (pp rp : nat) (others : list nat) (replicaInst replicaWorker : option nat) (m : Manager) : res string unit * Manager :=
  match r_heap (m_reg m) !! pp with
  | None => (Panic, m)
  | Some primary =>
      let n := m_node m in
      let listenAddr := if UnixIPC (n_profile n) then repl_socket n (DataDir primary) else loopback (ReplicationPort primary) in
      let become (h : option nat) (m : Manager) := if h is Some h then BecomePrimary h listenAddr m else (true, m) in
      let '(ok, m) := become replicaInst m in
      if negb ok then (Err "replication listener failed"%string, m)
      else
        let '(ok, m) := become replicaWorker m in
        if negb ok then (Err "worker promote"%string, m)
        else
          let m := writePromotedEngineConfig primary listenAddr m in
          let '(started, m) := if bool_decide (is_Some replicaInst) || bool_decide (is_Some replicaWorker) then (Ok tt, m) else StartTenant pp m in
          match started with
          | Ok _ => (Ok tt, foldl (λ m p, start_quietly p m) m (rp :: others))
          | r => (r, m)
          end
  end.

Definition promoteLocal (replicaID : string) (m : Manager) : res string unit * Manager :=
  let reg := m_reg m in
  let run := m_run m in
  match r_tenants reg !! replicaID, tenant reg replicaID with
  | Some rp, Some replica =>
      if negb (bool_decide (Role replica = "replica"%string)) || bool_decide (ReplicaOf replica = ""%string)
      then (Err ("tenant " ++ replicaID ++ " is not a replica")%string, m)
      else
        match r_tenants reg !! ReplicaOf replica, tenant reg (ReplicaOf replica) with
        | Some pp, Some primary =>
            let others := List.filter (λ rid, negb (bool_decide (rid = replicaID))) (Replicas primary) in
            let ri := instances run !! ID replica in
            let rw := workers run !! ID replica in
            let stopped := [instances run !! ID primary; workers run !! ID primary]
              ++ map (λ rid, instances run !! rid) others ++ map (λ rid, workers run !! rid) others in
            let hadEngines := existsb (λ h, bool_decide (is_Some h)) (ri :: rw :: stopped) in
            let '(saved, m) := saveState (exchange pp rp primary replica others m) in
            let m := stop_all stopped m in
            if negb saved then (Err "save state"%string, m)
            else if negb hadEngines then (Ok tt, m)
            else finish_promotion pp rp (omap (λ rid, r_tenants reg !! rid) others) ri rw m
        | _, _ => (Err ("primary " ++ ReplicaOf replica ++ " not found")%string, m)
        end
  | _, _ => (Err ("tenant " ++ replicaID ++ " is not a replica")%string, m)
  end.

(** ** Supervision *)
Definition owner_of (h : nat) (tab : gmap string nat) : option string :=
  fst <$> List.find (λ p, bool_decide (p.2 = h)) (map_to_list tab).
(** [superviseTenant] and [superviseWorker], once the engine has reported an
    error: the table it is registered in. *)
Definition supervise (worker : bool) (h : nat) (m : Manager) : Manager :=
  let run := m_run m in
  match owner_of h (if worker then workers run else instances run) with
  | None => m
  | Some id =>
      let m := with_run m (if worker then with_workers run (delete id (workers run)) else with_instances run (delete id (instances run))) in
      match r_tenants (m_reg m) !! id, tenant (m_reg m) id with
      | Some p, Some owner =>
          if Hibernated owner then m
          else
            let attempt := default 0 (restarts (m_run m) !! id) + 1 in
            let m := stop (Some h) (with_run m (with_restarts (m_run m) (<[id := attempt]> (restarts (m_run m))))) in
            if attempt >? 3 then m else start_quietly p m
      | _, _ => m
      end
  end.

Definition StopAll (m : Manager) : Manager :=
  let run := m_run m in
  let handles := map (λ p, Some p.2) (map_to_list (instances run)) ++ map (λ p, Some p.2) (map_to_list (workers run)) in
  stop_all handles (with_run m (with_workers (with_instances run ∅) ∅)).

(** ** What the control plane shows *)
Definition TenantRunning (m : Manager) (id : string) : bool := running (m_run m) id.
Definition view_status (m : Manager) (t : Tenant) : string * bool :=
  if Hibernated t then ("hibernated", false)%string
  else if running (m_run m) (ID t) then ("running", true)%string
  else if bool_decide (ID t ∈ starting (m_run m)) then ("starting", false)%string
  else ("down", false)%string.
Record TenantView := {
  v_ID : string; v_Name : string; v_HTTPPort : Z; v_RESPPort : Z; v_Status : string; v_Healthy : bool; v_Engine : string;
  v_Role : string; v_ReplicaOf : string; v_ReplicationPort : Z; v_Replicas : list string; v_Hibernated : bool
}.
Definition tenant_view (m : Manager) (t : Tenant) : TenantView :=
  let '(status, healthy) := view_status m t in
  {| v_ID := ID t; v_Name := Name t; v_HTTPPort := HTTPPort t; v_RESPPort := RESPPort t; v_Status := status; v_Healthy := healthy;
     v_Engine := "DBX"; v_Role := Role t; v_ReplicaOf := ReplicaOf t; v_ReplicationPort := ReplicationPort t; v_Replicas := Replicas t;
     v_Hibernated := Hibernated t |}.
(** In the order in which the map is walked. *)
Definition ListTenants (m : Manager) : list Tenant := map snd (map_to_list (all_tenants (m_reg m))).
Definition ListTenantViews (m : Manager) : list TenantView := map (tenant_view m) (ListTenants m).
(** The status of [TenantUsage]. *)
Definition usage_status (m : Manager) (id : string) : option string :=
  match tenant (m_reg m) id with
  | None => None
  | Some t => Some (if Hibernated t then "hibernated" else if running (m_run m) id then "running" else "down")%string
  end.

(** ** Credentials ([tenant_keys.go]) *)
Definition set_Keys (k : gmap string TenantKey) (t : Tenant) : Tenant :=
  {| ID := ID t; Name := Name t; HTTPPort := HTTPPort t; RESPPort := RESPPort t; GRPCPort := GRPCPort t; RaftPort := RaftPort t;
     DataDir := DataDir t; Role := Role t; ReplicaOf := ReplicaOf t; ReplicationPort := ReplicationPort t; Replicas := Replicas t;
     Keys := k; Hibernated := Hibernated t; VectorEncoding := VectorEncoding t |}.

(** [syncTenantACL]: the files of the tenant and of its replicas; a worker reads
    its file at once. *)
Definition sync_one (target : Tenant) (m : Manager) : Manager :=
  let '(ok, m) := writeUsersACL (DataDir target) (collectTenantUsers (m_reg m) target) m in
  if ok then
    match workers (m_run m) !! ID target with
    | Some h =>
        let '(reloaded, m) := ask m in
        if reloaded then upd_engine (set_users (load_acl (o_acl (m_out m) !! DataDir target))) h m else m
    | None => m
    end
  else m.
Definition syncTenantACL (t : Tenant) (m : Manager) : Manager :=
  foldl (λ m target, sync_one target m) m (t :: set_members (m_reg m) t).

(** The goroutine of an engine that looks at its file of users every 500 ms
    ([server/instance.go]): a file that is there and has changed since it was last
    read, which is an answer of the file system, replaces the users. It ends with
    the engine. *)
Definition poll_acl (h : nat) (m : Manager) : Manager :=
  match engines (m_run m) !! h with
  | Some e =>
      match o_acl (m_out m) !! Config.DataDir (Config.Persistence (e_cfg e)) with
      | Some file =>
          if e_live e then
            let '(newer, m) := ask m in
            if newer then upd_engine (set_users (load_acl (Some file))) h m else m
          else m
      | None => m
      end
  | None => m
  end.

(** [publicTenantKey] *)
Definition publicTenantKey (k : TenantKey) : TenantKey :=
  {| k_ID := k_ID k; k_Name := k_Name k; k_Hash := ""; k_Role := k_Role k; KeyPatterns := KeyPatterns k;
     Generation := Generation k; Revoked := Revoked k; CreatedAt := CreatedAt k |}.

(** base64.RawURLEncoding of 32 bytes is the argument [encode]; [random] is what
    the random source gave, identifier and secret. *)
Definition CreateTenantKey (encode : list byte → string) (random : option (list byte * list byte)) (now : Z)
    (tenantID name role : string) (patterns : list string) (m : Manager) : res string (string * TenantKey) * Manager :=
  if bool_decide (name = ""%string) then (Err "key name is required"%string, m)
  else if bool_decide (rolePermissions role = None) then (Err "role must be reader, writer, or tenant-admin"%string, m)
  else
    match random with
    | None => (Err "random source"%string, m)
    | Some (idBytes, secretBytes) =>
        let secret := encode secretBytes in
        let key := {| k_ID := EncodeToString idBytes; k_Name := name; k_Hash := HashPassword secret; k_Role := role;
                      KeyPatterns := if bool_decide (patterns = []) then ["*"%string] else patterns;
                      Generation := 1; Revoked := false; CreatedAt := now |} in
        match r_tenants (m_reg m) !! tenantID, tenant (m_reg m) tenantID with
        | Some p, Some t =>
            let t1 := set_Keys (<[k_ID key := key]> (Keys t)) t in
            let '(ok, m) := saveState (with_reg m (set_tenant p t1 (m_reg m))) in
            if negb ok then (Err "save state"%string, with_reg m (set_tenant p (set_Keys (delete (k_ID key) (Keys t)) t) (m_reg m)))
            else
              let inst := instances (m_run m) !! tenantID in
              let m := syncTenantACL t1 m in
              (Ok (secret, publicTenantKey key),
               if inst is Some h then upd_engine (set_users (λ a, AddUser a (tenantUser key))) h m else m)
        | _, _ => (Err "tenant not found"%string, m)
        end
    end.

Definition ListTenantKeys (m : Manager) (tenantID : string) : res string (list TenantKey) :=
  match tenant (m_reg m) tenantID with
  | None => Err "tenant not found"%string
  | Some t => Ok (map (λ p, publicTenantKey p.2) (map_to_list (Keys t)))
  end.

Definition set_Revoked (b : bool) (g : Z) (k : TenantKey) : TenantKey :=
  {| k_ID := k_ID k; k_Name := k_Name k; k_Hash := k_Hash k; k_Role := k_Role k; KeyPatterns := KeyPatterns k;
     Generation := g; Revoked := b; CreatedAt := CreatedAt k |}.

Definition RevokeTenantKey (tenantID keyID : string) (m : Manager) : res string unit * Manager :=
  match r_tenants (m_reg m) !! tenantID, tenant (m_reg m) tenantID with
  | Some p, Some t =>
      match Keys t !! keyID with
      | None => (Err "tenant key not found"%string, m)
      | Some key =>
          let t1 := set_Keys (<[keyID := set_Revoked true (u64 (Generation key + 1)) key]> (Keys t)) t in
          let '(ok, m) := saveState (with_reg m (set_tenant p t1 (m_reg m))) in
          if negb ok then
            (Err "save state"%string, with_reg m (set_tenant p (set_Keys (<[keyID := set_Revoked false (Generation key) key]> (Keys t)) t) (m_reg m)))
          else
            let inst := instances (m_run m) !! tenantID in
            let m := syncTenantACL t1 m in
            (Ok tt, if inst is Some h then upd_engine (set_users (λ a, snd (DeleteUser a keyID))) h m else m)
      end
  | _, _ => (Err "tenant not found"%string, m)
  end.

(** [VerifyTenantKey]: the copy of the tenant. *)
Definition VerifyTenantKey (m : Manager) (tenantID keyID secret : string) : option Tenant :=
  match tenant (m_reg m) tenantID with
  | None => None
  | Some t =>
      match Keys t !! keyID with
      | None => None
      | Some key =>
          if Revoked key then None
          else if bool_decide (HashPassword secret = k_Hash key) then Some t else None
      end
  end.

(** ** Starting the orchestrator *)
Definition set_ports (http resp : Z) (t : Tenant) : Tenant :=
  {| ID := ID t; Name := Name t; HTTPPort := http; RESPPort := resp; GRPCPort := 0; RaftPort := 0;
     DataDir := DataDir t; Role := Role t; ReplicaOf := ReplicaOf t; ReplicationPort := ReplicationPort t; Replicas := Replicas t;
     Keys := Keys t; Hibernated := Hibernated t; VectorEncoding := VectorEncoding t |}.
(** One tenant of the loop of [NewManager]. *)
Definition adopt (r : Registry) (p : nat) : Registry :=
  match r_heap r !! p with
  | None => r
  | Some t =>
      let next (v port : Z) := if port >=? v then port + 1 else v in
      let http := next (nextHTTPPort r) (HTTPPort t) in
      let resp := next (nextRESPPort r) (RESPPort t) in
      let repl := next (nextReplPort r) (ReplicationPort t) in
      let '(h, http) := if HTTPPort t =? 0 then (http, http + 1) else (HTTPPort t, http) in
      let '(s, resp) := if RESPPort t =? 0 then (resp, resp + 1) else (RESPPort t, resp) in
      {| r_heap := <[p := set_ports h s t]> (r_heap r); r_tenants := r_tenants r;
         nextHTTPPort := http; nextRESPPort := resp; nextReplPort := repl |}
  end.

Definition empty_registry : Registry :=
  {| r_heap := []; r_tenants := ∅; nextHTTPPort := 8081; nextRESPPort := 6401; nextReplPort := defaultReplicationPort |}.
Definition empty_runtime : Runtime :=
  {| instances := ∅; workers := ∅; engines := []; starting := ∅; restarts := ∅; tenantQuotas := ∅ |}.

(** The registry for the tenants of the state file, in the order in which the map
    is walked. *)
Definition load_registry (l : list (string * Tenant)) : Registry :=
  let r := with_table (with_heap empty_registry (map snd l)) (list_to_map (zip (map fst l) (List.seq 0 (length l)))) in
  foldl adopt r (List.seq 0 (length l)).

(** [NewManager] on what [loadState] read: no tenants when there was no file. *)
Definition NewManager (n : Node) (o : Outside) (file : StateFile.load_result (A := list (string * Tenant))) : res string Manager :=
  match file with
  | StateFile.Corrupt => Err "state file"%string
  | _ =>
      let l := if file is StateFile.Loaded l then l else [] in
      let reg := load_registry l in
      let m := {| m_node := n; m_reg := reg; m_run := empty_runtime; m_out := o |} in
      let is_replica p := if r_heap reg !! p is Some t then bool_decide (Role t = "replica"%string) else false in
      let ps := List.seq 0 (length l) in
      let start m p := if r_heap (m_reg m) !! p is Some t then if Hibernated t then m else start_quietly p m else m in
      Ok (foldl start (foldl start m (List.filter (λ p, negb (is_replica p)) ps)) (List.filter is_replica ps))
  end.

(** ** The replicated control plane ([fsm.go]) *)
Record fsmUpdateCommand := {
  Action : string; f_Tenant : option Tenant; Members : list (option Tenant); f_Purge : bool; ReplicaID : string
}.

(** [Apply] of a decoded command: its answer, the manager, and the replica set
    that a goroutine starts. A command without its tenant panics, which is
    recovered. *)
Definition Apply (cmd : fsmUpdateCommand) (m : Manager) : res string unit * Manager * option (nat * list nat) :=
  if bool_decide (Action cmd = "provision"%string) then
    match f_Tenant cmd with
    | None => (Err "internal error"%string, m, None)
    | Some t =>
        let '(ps, r) := insert_tenants (t :: omap id (Members cmd)) (m_reg m) in
        (Ok tt, with_reg m r, if running (m_run m) (ID t) then None else match ps with p :: ps => Some (p, ps) | [] => None end)
    end
  else if bool_decide (Action cmd = "deprovision"%string) then
    match f_Tenant cmd with
    | None => (Ok tt, m, None)
    | Some t =>
        match remove_all (omap id (Members cmd)) (f_Purge cmd) m with
        | (Ok _, m) => let '(r, m) := removeTenant t (f_Purge cmd) m in (r, m, None)
        | (r, m) => (r, m, None)
        end
    end
  else if bool_decide (Action cmd = "promote"%string) then
    let '(r, m) := promoteLocal (ReplicaID cmd) m in (r, m, None)
  else (Ok tt, m, None).

(** [Restore]: the table of the snapshot, and the tenants to start. *)
Definition Restore (state : gmap string Tenant) (m : Manager) : Manager * list nat :=
  let l := map_to_list state in
  let base := length (r_heap (m_reg m)) in
  let r := with_table (with_heap (m_reg m) (r_heap (m_reg m) ++ map snd l))
             (list_to_map (zip (map fst l) (List.seq base (length l)))) in
  (with_reg m r,
   List.filter (λ p, if r_heap r !! p is Some t then negb (running (m_run m) (ID t)) else false) (List.seq base (length l))).

(** ** The sentinel ([health.go]) *)
Record restartRecord := { attempts : Z; windowStart : Z }.
Definition maxRestartsPerWindow : Z := 3.
Definition restartWindow : Z := 5 * 60 * 1000000000.

Definition canRestart (now : Z) (tenantID : string) (s : gmap string restartRecord) : bool * gmap string restartRecord :=
  match s !! tenantID with
  | None => (true, <[tenantID := {| attempts := 1; windowStart := now |}]> s)
  | Some rec =>
      if now - windowStart rec >? restartWindow then (true, <[tenantID := {| attempts := 1; windowStart := now |}]> s)
      else if attempts rec >=? maxRestartsPerWindow then (false, s)
      else (true, <[tenantID := {| attempts := attempts rec + 1; windowStart := windowStart rec |}]> s)
  end.

(** [checkHealth] of the leader: which tenants answer, and the clock; the tenants
    to restart. *)
Fixpoint checkHealth (now : Z) (reachable : string → bool) (l : list Tenant) (s : gmap string restartRecord)
    : list string * gmap string restartRecord :=
  match l with
  | [] => ([], s)
  | t :: l =>
      if Hibernated t then checkHealth now reachable l s
      else if reachable (ID t) then checkHealth now reachable l (delete (ID t) s)
      else
        let '(ok, s) := canRestart now (ID t) s in
        let '(ids, s) := checkHealth now reachable l s in (if ok then ID t :: ids else ids, s)
  end.

(** ** A node for the examples *)
Definition demo_out : Outside :=
  {| o_saved := None; o_acl := ∅; o_yaml := ∅; o_dirs := ∅; o_replKey := None; o_keyFile := None; o_oracle := [] |}.
Definition demo_node : Node :=
  {| n_goos := "linux"; n_tmp := "/tmp"; n_root := "data"; n_pid := 7; n_profile := Resolve "linux" ""; n_stateFile := true;
     n_newKey := replicate 32 Byte.x07; n_budget := 4000000000 |}.
Definition demo_manager : Manager :=
  {| m_node := demo_node; m_reg := empty_registry; m_run := empty_runtime; m_out := demo_out |}.
