(* ===== verification/OrchestratorCorrect.v ===== *)
(** * Engines and tenants ([Orchestrator])

    The invariant of the tenant manager under any sequence of operations, with
    any answers of the operating system: every registered engine is live, serves
    the directory of the tenant it is registered for, and is registered once. *)

From S2P Require Import Prelude GoStd RESP Commands Auth Isolation Orchestrator.
From S2P Require Config StateFile.
Open Scope Z_scope.

(** ** Operations one after the other *)
Inductive op :=
| OProvision (id name : string) (replicas : Z) (encoding : string)
| ODelete (id : string) (purge : bool)
| OHibernate (id : string)
| OWake (id : string) (requireHibernated : bool)
| ORestore (id : string)
| OPromote (replica : string)
| OFail (worker : bool) (h : nat)
| ORestart (id : string)
| OCreateKey (encode : list byte → string) (random : option (list byte * list byte)) (now : Z) (id name role : string) (patterns : list string)
| ORevokeKey (id key : string)
| OStopAll
| OPoll (h : nat)
| OAnswers (l : list bool).

(** Each operation runs to its end, with the goroutine it spawns, before the next
    one: [StartTenant], [deleteTenant] and [promoteLocal] give up their locks in
    between, and what other operations do in the gaps is not among these runs
    ([deleted_tenant_started] is such a gap). The commands of Raft, [Apply] and
    [Restore], are not operations either. *)
Definition run_op (m : Manager) (o : op) : Manager :=
  match o with
  | OProvision id name rc enc =>
      match ProvisionWith Local id name rc enc m with
      | (Ok (p :: ps), m) => startReplicaSet p ps m
      | (_, m) => m
      end
  | ODelete id purge => snd (deleteTenant id purge m)
  | OHibernate id => snd (HibernateTenant id m)
  | OWake id b => snd (wakeTenant id b m)
  | ORestore id => snd (RestoreTenant id m)
  | OPromote id => snd (promoteLocal id m)
  | OFail worker h => supervise worker h m
  | ORestart id => match r_tenants (m_reg m) !! id with Some p => start_quietly p m | None => m end
  | OCreateKey encode random now id name role patterns => snd (CreateTenantKey encode random now id name role patterns m)
  | ORevokeKey id key => snd (RevokeTenantKey id key m)
  | OStopAll => StopAll m
  | OPoll h => poll_acl h m
  | OAnswers l =>
      let o := m_out m in
      with_out m {| o_saved := o_saved o; o_acl := o_acl o; o_yaml := o_yaml o; o_dirs := o_dirs o;
                    o_replKey := o_replKey o; o_keyFile := o_keyFile o; o_oracle := l |}
  end.

(** ** The invariant *)
Definition registered (run : Runtime) (id : string) (h : nat) : Prop := instances run !! id = Some h ∨ workers run !! id = Some h.
Definition dir_of (c : Config.Config) : string := Config.DataDir (Config.Persistence c).
Definition heap_ok (r : Registry) : Prop := ∀ id p, r_tenants r !! id = Some p → ∃ t, r_heap r !! p = Some t ∧ ID t = id.
Definition tenant_quota : Z := 256000000.

(** [strict] adds that a registered tenant is awake, and that every live engine
    is registered. *)
Record inv (strict : bool) (n : Node) (reg : Registry) (run : Runtime) : Prop := {
  i_heap : heap_ok reg;
  i_serves : ∀ id h, registered run id h → ∃ t e, tenant reg id = Some t ∧ engines run !! h = Some e ∧ e_live e = true ∧
    dir_of (e_cfg e) = DataDir t ∧ (strict = true → Hibernated t = false);
  i_once : ∀ id1 id2 h, registered run id1 h → registered run id2 h → id1 = id2;
  i_excl : ∀ id h, instances run !! id = Some h → workers run !! id = None;
  i_found : strict = true → ∀ h e, engines run !! h = Some e → e_live e = true → ∃ id, registered run id h;
  i_quota : map_Forall (λ _ v, v = tenant_quota) (tenantQuotas run) ∧
            (0 < n_budget n → 100 * (Z.of_nat (size (tenantQuotas run)) * tenant_quota) ≤ 70 * n_budget n)
}.
Definition ok (strict : bool) (m : Manager) : Prop := inv strict (m_node m) (m_reg m) (m_run m).

(** ** Frames *)
Lemma ask_frame m : m_node (snd (ask m)) = m_node m ∧ m_reg (snd (ask m)) = m_reg m ∧ m_run (snd (ask m)) = m_run m.
Proof. unfold ask. by destruct (o_oracle _). Qed.

Lemma saveState_frame m : m_node (snd (saveState m)) = m_node m ∧ m_reg (snd (saveState m)) = m_reg m ∧ m_run (snd (saveState m)) = m_run m.
Proof. unfold saveState. pose proof (ask_frame m). destruct (ask m) as [[] m1]; done. Qed.

Lemma writeUsersACL_frame dir us m :
  m_node (snd (writeUsersACL dir us m)) = m_node m ∧ m_reg (snd (writeUsersACL dir us m)) = m_reg m ∧ m_run (snd (writeUsersACL dir us m)) = m_run m.
Proof. unfold writeUsersACL. pose proof (ask_frame m). destruct (ask m) as [[] m1]; done. Qed.

Lemma replicationKey_frame m :
  m_node (snd (replicationKey m)) = m_node m ∧ m_reg (snd (replicationKey m)) = m_reg m ∧ m_run (snd (replicationKey m)) = m_run m.
Proof.
  unfold replicationKey, createReplicationKey. destruct (o_replKey _); [done|]. pose proof (ask_frame m). destruct (negb _).
  - destruct (ask m) as [[] m1]; done.
  - destruct (o_keyFile _); [by destruct (loadReplicationKey _)|]. destruct (ask m) as [[] m1]; done.
Qed.

Lemma replicationToken_frame g m :
  m_node (snd (replicationToken g m)) = m_node m ∧ m_reg (snd (replicationToken g m)) = m_reg m ∧ m_run (snd (replicationToken g m)) = m_run m.
Proof. unfold replicationToken. pose proof (replicationKey_frame m). by destruct (replicationKey m). Qed.

Lemma ok_frame strict m m' : m_node m' = m_node m → m_reg m' = m_reg m → m_run m' = m_run m → ok strict m → ok strict m'.
Proof. unfold ok. by intros -> -> ->. Qed.

(** ** The parts of a step *)
Lemma tenant_ID r id t : heap_ok r → tenant r id = Some t → ID t = id.
Proof.
  intros H E. unfold tenant in E. destruct (r_tenants r !! id) as [p|] eqn:Ep; [|done]. destruct (H id p Ep) as (t' & Ht & Hid).
  cbn in E. rewrite Ht in E. by injection E as <-.
Qed.

Lemma tenant_set r p t id :
  heap_ok r → r_tenants r !! ID t = Some p →
  tenant (set_tenant p t r) id = if decide (id = ID t) then Some t else tenant r id.
Proof.
  intros H Hp. unfold tenant, set_tenant. cbn. destruct (H _ _ Hp) as (t0 & Ht0 & Hid0). destruct (decide (id = ID t)) as [->|Hne].
  - rewrite Hp. cbn. by rewrite list_lookup_insert_eq by (by eapply lookup_lt_Some).
  - destruct (r_tenants r !! id) as [q|] eqn:Eq; [|done]. cbn. rewrite list_lookup_insert_ne; [done|]. intros <-.
    destruct (H _ _ Eq) as (t1 & Ht1 & Hid1). rewrite Ht0 in Ht1. injection Ht1 as <-. congruence.
Qed.

Lemma heap_ok_set r p t : heap_ok r → r_tenants r !! ID t = Some p → heap_ok (set_tenant p t r).
Proof.
  intros H Hp id q Hq. cbn in *. destruct (H _ _ Hp) as (t0 & Ht0 & Hid0). destruct (decide (q = p)) as [->|Hne].
  - rewrite list_lookup_insert_eq by (by eapply lookup_lt_Some). exists t. split; [done|]. destruct (H _ _ Hq) as (t1 & Ht1 & <-). congruence.
  - rewrite list_lookup_insert_ne by done. by apply H.
Qed.

(** The registry changes, and every running tenant keeps its directory. *)
Lemma inv_reg strict n reg reg' run :
  inv strict n reg run → heap_ok reg' →
  (∀ id h t, registered run id h → tenant reg id = Some t → ∃ t', tenant reg' id = Some t' ∧ DataDir t' = DataDir t ∧
     (strict = true → Hibernated t = false → Hibernated t' = false)) →
  inv strict n reg' run.
Proof.
  intros [H1 H2 H3 H4 H5 H6] Hh Ht. split; [done| |done..]. intros id h Hr. destruct (H2 id h Hr) as (t & e & E1 & E2 & E3 & E4 & E5).
  destruct (Ht id h t Hr E1) as (t' & F1 & F2 & F3). exists t', e. rewrite F2. auto 10.
Qed.

Lemma inv_ext strict n reg run run' :
  instances run' = instances run → workers run' = workers run → engines run' = engines run → tenantQuotas run' = tenantQuotas run →
  inv strict n reg run → inv strict n reg run'.
Proof.
  intros E1 E2 E3 E4 [H1 H2 H3 H4 H5 H6]. unfold registered in *.
  split; unfold registered; rewrite ?E1, ?E2, ?E3, ?E4; done.
Qed.

(** Tenants leave the tables and their engines stop. *)
Lemma inv_drop strict n reg run run' (D : string → Prop) :
  inv strict n reg run →
  (∀ id h, registered run' id h ↔ registered run id h ∧ ¬ D id) →
  (∀ id h, instances run' !! id = Some h → instances run !! id = Some h) → (∀ id, workers run !! id = None → workers run' !! id = None) →
  (∀ id h, D id → registered run id h → engines run' !! h = set_live false <$> engines run !! h) →
  (∀ h, (∀ id, D id → ¬ registered run id h) → engines run' !! h = engines run !! h) →
  (∀ id, D id ∨ ¬ D id) → tenantQuotas run' = tenantQuotas run →
  inv strict n reg run'.
Proof.
  intros [H1 H2 H3 H4 H5 H6] Hr Hi Hw Hs Hk Hd Hq.
  assert (Hkeep : ∀ id h, registered run id h → ¬ D id → engines run' !! h = engines run !! h).
  { intros id h Hreg Hn. apply Hk. intros id' Hd' Hreg'. by rewrite (H3 _ _ _ Hreg Hreg') in Hn. }
  split; [done|..].
  - intros id h [Hreg Hn]%Hr. destruct (H2 id h Hreg) as (t & e & E1 & E2 & E3 & E4 & E5). exists t, e. by rewrite (Hkeep id h Hreg Hn).
  - intros id1 id2 h [Hr1 _]%Hr [Hr2 _]%Hr. by eapply H3.
  - intros id h Hin. apply Hw. eapply H4. by apply Hi.
  - intros Hst h e He Hl. destruct (engines run !! h) as [e0|] eqn:E0.
    + assert (Hlive0 : e_live e0 = true → ∃ id, registered run id h) by (intros; by eapply H5).
      destruct (e_live e0) eqn:El0.
      * destruct (Hlive0 eq_refl) as (id & Hreg). exists id. apply Hr. split; [done|]. intros HD. rewrite (Hs id h HD Hreg), E0 in He.
        cbn in He. injection He as <-. done.
      * exfalso. assert (Hnr : ∀ id, ¬ registered run id h) by (intros id Hreg; destruct (H2 id h Hreg) as (t & e1 & _ & E2 & E3 & _); congruence).
        rewrite Hk in He by (intros; apply Hnr). congruence.
    + exfalso. assert (Hnr : ∀ id, ¬ registered run id h) by (intros id Hreg; destruct (H2 id h Hreg) as (t & e1 & _ & E2 & E3 & _); congruence).
      rewrite Hk in He by (intros; apply Hnr). congruence.
  - by rewrite Hq.
Qed.

(** [stop] on the runtime. *)
Definition halt (h : option nat) (run : Runtime) : Runtime :=
  if h is Some h then with_engines run (alter (set_live false) h (engines run)) else run.
Lemma stop_run h m : m_node (stop h m) = m_node m ∧ m_reg (stop h m) = m_reg m ∧ m_run (stop h m) = halt h (m_run m) ∧ m_out (stop h m) = m_out m.
Proof. by destruct h. Qed.
Lemma halt_tables h run : instances (halt h run) = instances run ∧ workers (halt h run) = workers run ∧ tenantQuotas (halt h run) = tenantQuotas run ∧
  starting (halt h run) = starting run ∧ restarts (halt h run) = restarts run.
Proof. by destruct h. Qed.
Lemma halt_engines h run k :
  engines (halt h run) !! k = if decide (h = Some k) then set_live false <$> engines run !! k else engines run !! k.
Proof.
  destruct h as [h|]; cbn; [|done]. destruct (decide (Some h = Some k)) as [[= ->]|Hne].
  - by rewrite list_lookup_alter_eq.
  - rewrite list_lookup_alter_ne; [done|]. congruence.
Qed.

Lemma stop_all_spec l m :
  m_node (stop_all l m) = m_node m ∧ m_reg (stop_all l m) = m_reg m ∧ m_out (stop_all l m) = m_out m ∧
  instances (m_run (stop_all l m)) = instances (m_run m) ∧ workers (m_run (stop_all l m)) = workers (m_run m) ∧
  tenantQuotas (m_run (stop_all l m)) = tenantQuotas (m_run m) ∧
  ∀ k, engines (m_run (stop_all l m)) !! k = if decide (Some k ∈ l) then set_live false <$> engines (m_run m) !! k else engines (m_run m) !! k.
Proof.
  unfold stop_all. revert m. induction l as [|h l IH]; intros m; cbn [foldl].
  - repeat (split; [done|]). intros k. destruct (decide _) as [H|H]; [by apply not_elem_of_nil in H|done].
  - destruct (IH (stop h m)) as (I1 & I2 & I3 & I4 & I5 & I6 & I7). destruct (stop_run h m) as (S1 & S2 & S3 & S4). rewrite S3 in *.
    destruct (halt_tables h (m_run m)) as (T1 & T2 & T3 & _). rewrite I1, I2, I3, I4, I5, I6, S1, S2, S4, T1, T2, T3.
    repeat (split; [done|]). intros k. rewrite I7, halt_engines.
    destruct (decide (Some k ∈ l)) as [Hl|Hl], (decide (h = Some k)) as [->|Hh], (decide (Some k ∈ _ :: l)) as [Hc|Hc]; try done.
    + by destruct (engines (m_run m) !! k).
    + by destruct Hc; right.
    + by destruct Hc; right.
    + by destruct Hc; left.
    + apply elem_of_cons in Hc as [Hc|]; [congruence|done].
Qed.

(** One tenant leaves: its entries, whichever they are, and its engine. *)
Lemma inv_unregister strict n reg run id :
  inv strict n reg run → inv strict n reg (halt (workers run !! id) (halt (instances run !! id) (drop_engines id run))).
Proof.
  intros Hi. apply (inv_drop strict n reg run _ (λ x, x = id) Hi).
  - intros id' h. unfold registered. destruct (halt_tables (workers run !! id) (halt (instances run !! id) (drop_engines id run))) as (-> & -> & _).
    destruct (halt_tables (instances run !! id) (drop_engines id run)) as (-> & -> & _). cbn.
    destruct (decide (id' = id)) as [->|Hne]; [rewrite !lookup_delete_eq; naive_solver|]. rewrite !lookup_delete_ne by done. naive_solver.
  - intros id' h. destruct (halt_tables (workers run !! id) (halt (instances run !! id) (drop_engines id run))) as (-> & _).
    destruct (halt_tables (instances run !! id) (drop_engines id run)) as (-> & _). cbn. by intros [_ ?]%lookup_delete_Some.
  - intros id' Hw. destruct (halt_tables (workers run !! id) (halt (instances run !! id) (drop_engines id run))) as (_ & -> & _).
    destruct (halt_tables (instances run !! id) (drop_engines id run)) as (_ & -> & _). cbn. rewrite lookup_delete_None. by right.
  - intros ? h -> [Hr|Hr]; rewrite !halt_engines, Hr; cbn.
    + rewrite (i_excl _ _ _ _ Hi _ _ Hr), (decide_True_pi (P := Some h = Some h) eq_refl). by rewrite decide_False by done.
    + rewrite decide_True by done. destruct (instances run !! id) as [h'|] eqn:E; [by rewrite (i_excl _ _ _ _ Hi _ _ E) in Hr|]. by rewrite decide_False by done.
  - intros h Hn. rewrite !halt_engines. rewrite !decide_False; [done|intros E; apply (Hn id eq_refl); by left|intros E; apply (Hn id eq_refl); by right].
  - intros x. destruct (decide (x = id)); auto.
  - destruct (halt_tables (workers run !! id) (halt (instances run !! id) (drop_engines id run))) as (_ & _ & -> & _).
    by destruct (halt_tables (instances run !! id) (drop_engines id run)) as (_ & _ & -> & _).
Qed.

(** An engine changes, but not what it serves. *)
Lemma inv_engine strict n reg run f h :
  (∀ e, e_live (f e) = e_live e ∧ dir_of (e_cfg (f e)) = dir_of (e_cfg e)) →
  inv strict n reg run → inv strict n reg (with_engines run (alter f h (engines run))).
Proof.
  intros Hf [H1 H2 H3 H4 H5 H6].
  assert (Hl : ∀ k, alter f h (engines run) !! k = (if decide (h = k) then f <$> engines run !! k else engines run !! k)).
  { intros k. destruct (decide (h = k)) as [->|]; [by rewrite list_lookup_alter_eq|by rewrite list_lookup_alter_ne]. }
  split; [done| |done|done| |done]; unfold registered; cbn.
  - intros id k Hr. destruct (H2 id k Hr) as (t & e & E1 & E2 & E3 & E4 & E5). rewrite Hl, E2. destruct (decide (h = k)); [|by exists t, e].
    exists t, (f e). destruct (Hf e) as [-> ->]. done.
  - intros Hs k e. rewrite Hl. destruct (decide (h = k)) as [Hhk|]; [|by apply H5]. destruct (engines run !! k) as [e0|] eqn:E0; [|done].
    cbn. intros [= <-]. rewrite (proj1 (Hf e0)). by apply H5.
Qed.

(** A new engine for a tenant that has none. *)
Lemma inv_register strict n reg run t e (worker : bool) :
  inv strict n reg run → tenant reg (ID t) = Some t → running run (ID t) = false → (strict = true → Hibernated t = false) →
  e_live e = true → dir_of (e_cfg e) = DataDir t →
  let h := length (engines run) in
  let run1 := with_engines run (engines run ++ [e]) in
  inv strict n reg (if worker then with_workers run1 (<[ID t := h]> (workers run)) else with_instances run1 (<[ID t := h]> (instances run))).
Proof.
  intros [H1 H2 H3 H4 H5 H6] Ht Hrun Hhib Hl Hdir h run1. unfold running in Hrun. apply orb_false_iff in Hrun as [Hi Hw].
  apply bool_decide_eq_false, eq_None_not_Some in Hi. apply bool_decide_eq_false, eq_None_not_Some in Hw.
  set (run' := if worker then _ else _).
  assert (Heng : engines run' = engines run ++ [e]) by (unfold run'; by destruct worker).
  assert (Hq : tenantQuotas run' = tenantQuotas run) by (unfold run'; by destruct worker).
  assert (Hreg : ∀ id k, registered run' id k ↔ (id = ID t ∧ k = h) ∨ registered run id k).
  { intros id k. unfold registered, run'. destruct worker; cbn; rewrite lookup_insert; destruct (decide (ID t = id)) as [<-|]; rewrite ?Hi, ?Hw; naive_solver. }
  assert (Hlt : ∀ id k, registered run id k → (k < h)%nat).
  { intros id k Hr. destruct (H2 id k Hr) as (? & ? & _ & E & _). by eapply lookup_lt_Some. }
  split; [done|..].
  - intros id k [[-> ->]|Hr]%Hreg.
    + exists t, e. rewrite Heng. unfold h. by rewrite lookup_app_r, Nat.sub_diag by lia.
    + destruct (H2 id k Hr) as (t' & e' & E1 & E2 & E3 & E4 & E5). exists t', e'. rewrite Heng, lookup_app_l by (by eapply lookup_lt_Some). done.
  - intros id1 id2 k [[-> ->]|Hr1]%Hreg [[-> Hk]|Hr2]%Hreg; [done|by apply Hlt in Hr2; lia|by apply Hlt in Hr1; lia|by eapply H3].
  - intros id k. unfold run'. destruct worker; cbn; rewrite lookup_insert; destruct (decide (ID t = id)) as [<-|]; rewrite ?Hi, ?Hw; by eauto.
  - intros Hst k e'. rewrite Heng. intros [E|[-> E]]%lookup_snoc_Some Hlive.
    + destruct E as [_ E]. destruct (H5 Hst k e' E Hlive) as (id & Hr). exists id. apply Hreg. by right.
    + exists (ID t). apply Hreg. by left.
  - by rewrite Hq.
Qed.

(** ** Admission *)
Lemma allocated_size q : map_Forall (λ _ v, v = tenant_quota) q → Z.of_nat (size q) * tenant_quota < 2 ^ 63 → allocated q = Z.of_nat (size q) * tenant_quota.
Proof.
  intros HF Hb. unfold allocated. revert HF Hb. apply (map_fold_weak_ind (λ acc q, map_Forall (λ _ v, v = tenant_quota) q →
    Z.of_nat (size q) * tenant_quota < 2 ^ 63 → acc = Z.of_nat (size q) * tenant_quota)); [done|].
  intros id v q' acc Hn IH [-> HF]%map_Forall_insert Hb; [|done]. rewrite map_size_insert_None in * by done.
  unfold tenant_quota in *. rewrite IH by (done || lia). rewrite i64_id; [lia|]. unfold in_i64, MinInt64, MaxInt64. lia.
Qed.

Lemma i64_le x : 0 ≤ x → i64 x ≤ x.
Proof. intros H. unfold i64. pose proof (Z.mod_le (x + 2 ^ 63) (2 ^ 64)). lia. Qed.

Lemma reserve_frame id quota m :
  m_node (snd (reserve_quota id quota m)) = m_node m ∧ m_reg (snd (reserve_quota id quota m)) = m_reg m ∧ m_out (snd (reserve_quota id quota m)) = m_out m ∧
  let run := m_run (snd (reserve_quota id quota m)) in
  instances run = instances (m_run m) ∧ workers run = workers (m_run m) ∧ engines run = engines (m_run m).
Proof. unfold reserve_quota. destruct (_ !! id); [done|]. by destruct (_ && _). Qed.

(** A node has at most 2^63 bytes, and the tenants with a quota fit in a machine
    integer. *)
Lemma inv_reserve strict id m :
  n_budget (m_node m) ≤ MaxInt64 → ok strict m → ok strict (snd (reserve_quota id tenant_quota m)).
Proof.
  intros Hmax [H1 H2 H3 H4 H5 [H6 H7]]. unfold reserve_quota. destruct (tenantQuotas (m_run m) !! id) as [v|] eqn:Eid; [done|].
  destruct (_ && _) eqn:E; [done|]. split; [done..|]. cbn [m_node snd with_run m_run with_quotas tenantQuotas]. split.
  - by apply map_Forall_insert_2.
  - intros Hb. rewrite map_size_insert_None by done. apply andb_false_iff in E as [E|E]; [lia|].
    rewrite Z.gtb_ltb, Z.ltb_ge in E. specialize (H7 Hb). unfold tenant_quota, MaxInt64 in *.
    rewrite allocated_size in E by (done || (unfold tenant_quota; lia)). unfold tenant_quota in E.
    rewrite i64_id in E by (unfold in_i64, MinInt64, MaxInt64; lia).
    pose proof (i64_le (n_budget (m_node m) * 70)). pose proof (Z.quot_le_mono (i64 (n_budget (m_node m) * 70)) (n_budget (m_node m) * 70) 100).
    rewrite (Z.quot_div_nonneg (n_budget (m_node m) * 70)) in * by lia. pose proof (Z.mul_div_le (n_budget (m_node m) * 70) 100). lia.
Qed.

(** ** Starting *)
Lemma config_place n t role la pa token cfg :
  Config.ApplyReplication (tenant_config n t) role la pa token = Ok cfg →
  dir_of cfg = DataDir t ∧ Config.ParseBytes (Config.MaxMemory (Config.Engine cfg)) = Ok tenant_quota ∧
  Config.Role (Config.Replication cfg) = role ∧ Config.ListenAddr (Config.Replication cfg) = la ∧ Config.PrimaryAddr (Config.Replication cfg) = pa.
Proof.
  intros (Ha & e & _ & ->)%Config.Validate_iff.
  set (c := Config.set_Replication _ _). assert (Hc : Config.Persistence c = Config.Persistence (Config.TenantEngine (DataDir t) (RESPPort t) (HTTPPort t)) ∧
    Config.MaxMemory (Config.Engine c) = "256mb"%string ∧ Config.Role (Config.Replication c) = role ∧ Config.ListenAddr (Config.Replication c) = la ∧ Config.PrimaryAddr (Config.Replication c) = pa).
  { unfold c, tenant_config, base_config. destruct (bool_decide _), (unixIPCAvailable _); done. }
  clearbody c. destruct Hc as (Hp & Hm & Hr & Hl & Hpa).
  assert (E : Config.ParseBytes "256mb" = Ok tenant_quota) by (vm_compute; reflexivity).
  set (c' := Config.normalised e c).
  assert (Hn : Config.Persistence c' = Config.Persistence c ∧ Config.MaxMemory (Config.Engine c') = Config.MaxMemory (Config.Engine c) ∧ Config.Replication c' = Config.Replication c).
  { unfold c', Config.normalised. cbv zeta. destruct (Config.SlotCount _ <=? 0); split_and!; reflexivity. }
  destruct Hn as (N1 & N2 & N3). clearbody c'. unfold dir_of. rewrite N1, N2, N3, Hp, Hm. split; [reflexivity|]. split; [exact E|]. by split_and!.
Qed.

(** What starting an engine may change. *)
Definition same_place (m m' : Manager) : Prop := m_node m' = m_node m ∧ m_reg m' = m_reg m.
Lemma same_trans m1 m2 m3 : same_place m1 m2 → same_place m2 m3 → same_place m1 m3.
Proof. unfold same_place. intros [-> ->] [-> ->]. done. Qed.

Lemma asked_case e m k : (∃ m1, same_place m m1 ∧ m_run m1 = m_run m ∧ asked e m k = k m1) ∨ (∃ m1, same_place m m1 ∧ m_run m1 = m_run m ∧ asked e m k = (Err e, m1)).
Proof.
  unfold asked, same_place. destruct (ask_frame m) as (E1 & E2 & E3). destruct (ask m) as [[] m1]; [left|right]; by exists m1.
Qed.

Lemma register_ok strict t e m m' :
  ok strict m → tenant (m_reg m) (ID t) = Some t → running (m_run m) (ID t) = false → Hibernated t = false →
  e_live e = true → dir_of (e_cfg e) = DataDir t → same_place m m' → m_run m' = m_run m →
  ok strict (snd (register t e m')) ∧ same_place m (snd (register t e m')).
Proof.
  intros Hok Ht Hrun Hhib Hl Hdir [S1 S2] S3. unfold ok, register. cbn [snd with_run m_node m_reg m_run]. rewrite S1, S2, S3.
  split; [|by split]. by apply (inv_register strict _ _ _ t e (e_worker e)).
Qed.

Lemma launch_ok strict t cfg m :
  ok strict m → tenant (m_reg m) (ID t) = Some t → running (m_run m) (ID t) = false → Hibernated t = false → dir_of cfg = DataDir t →
  ok strict (snd (launch t cfg m)) ∧ same_place m (snd (launch t cfg m)).
Proof.
  intros Hok Ht Hrun Hhib Hdir. unfold launch. cbv zeta.
  assert (Hstay : ∀ m', same_place m m' → m_run m' = m_run m → ok strict m' ∧ same_place m m').
  { intros m' [E1 E2] E3. split; [|by split]. unfold ok. by rewrite E1, E2, E3. }
  destruct (Process _); match goal with |- context [asked ?e m ?k] => destruct (asked_case e m k) as [(m1 & S & R & ->)|(m1 & S & R & ->)] end;
    [by apply register_ok|by apply Hstay| |by apply Hstay].
  destruct (bool_decide _); [by apply register_ok|].
  match goal with |- context [asked ?e m1 ?k] => destruct (asked_case e m1 k) as [(m2 & S2 & R2 & ->)|(m2 & S2 & R2 & ->)] end.
  - apply register_ok; try done; [by eapply same_trans|by rewrite R2].
  - apply Hstay; [by eapply same_trans|cbn; by rewrite R2].
Qed.

Lemma bring_up_ok strict t m :
  n_budget (m_node m) ≤ MaxInt64 →
  ok strict m → tenant (m_reg m) (ID t) = Some t → running (m_run m) (ID t) = false → Hibernated t = false →
  ok strict (snd (bring_up t m)) ∧ same_place m (snd (bring_up t m)).
Proof.
  intros Hmax Hok Ht Hrun Hhib. unfold bring_up.
  assert (Hstay : ∀ m', same_place m m' → m_run m' = m_run m → ok strict m' ∧ same_place m m').
  { intros m' [E1 E2] E3. split; [|by split]. unfold ok. by rewrite E1, E2, E3. }
  match goal with |- context [asked ?e m ?k] => destruct (asked_case e m k) as [(m1 & S & R & ->)|(m1 & S & R & ->)]; [|by apply Hstay] end.
  set (m2 := with_out m1 _). assert (S2 : same_place m m2) by exact S. assert (R2 : m_run m2 = m_run m) by exact R. clearbody m2. clear m1 S R.
  match goal with |- context [(if ?b then ?f else ?g) ?k] => assert (Hk : (∃ m3, same_place m m3 ∧ m_run m3 = m_run m ∧ (if b then f else g) k = k m3) ∨
     (∃ e m3, same_place m m3 ∧ m_run m3 = m_run m ∧ (if b then f else g) k = (Err e, m3))) end.
  { destruct (p_Encryption _); [|left; by exists m2]. match goal with |- context [asked ?e m2 ?k] => destruct (asked_case e m2 k) as [(m3 & [A1 A2] & A3 & ->)|(m3 & [A1 A2] & A3 & ->)] end.
    - left. exists m3. destruct S2 as [B1 B2]. unfold same_place. by rewrite A1, A2, A3.
    - right. exists "tenant key"%string, m3. destruct S2 as [B1 B2]. unfold same_place. by rewrite A1, A2, A3. }
  destruct Hk as [(m3 & S3 & R3 & ->)|(e & m3 & S3 & R3 & ->)]; [|by apply Hstay]. cbv beta zeta. clear m2 S2 R2.
  destruct (repl_roles _ _ t) as [[role la] pa].
  match goal with |- context [let '(token, m0) := ?x in _] => assert (Htok : same_place m (snd x) ∧ m_run (snd x) = m_run m); [|destruct x as [token m4]] end.
  { destruct (bool_decide _); [done|]. destruct (replicationToken_frame (replicationGroup t) m3) as (A1 & A2 & A3). destruct S3 as [B1 B2].
    unfold same_place. rewrite A1, A2, A3, R3. done. }
  destruct Htok as [S4 R4]. cbn [snd] in S4, R4. destruct token as [token|]; [|by apply Hstay]. clear R3.
  destruct (Config.ApplyReplication _ role la pa token) as [cfg|e|] eqn:Ecfg; [|by apply Hstay|by apply Hstay].
  destruct (config_place _ _ _ _ _ _ _ Ecfg) as (Hdir & Hquota & _).
  destruct (ask_frame m4) as (A1 & A2 & A3). destruct (ask m4) as [wrote m5]. cbn [snd] in *.
  set (m6 := if wrote then _ else _). assert (S6 : same_place m m6 ∧ m_run m6 = m_run m).
  { destruct S4 as [B1 B2]. unfold same_place, m6. destruct wrote; cbn; rewrite A1, A2, A3; done. }
  clearbody m6. destruct S6 as [S6 R6]. destruct (writeUsersACL_frame (DataDir t) (collectTenantUsers (m_reg m6) t) m6) as (C1 & C2 & C3).
  destruct (writeUsersACL _ _ m6) as [okw m7]. cbn [snd] in *.
  assert (S7 : same_place m m7 ∧ m_run m7 = m_run m) by (destruct S6; unfold same_place; by rewrite C1, C2, C3).
  destruct S7 as [S7 R7]. destruct (negb okw); [by apply Hstay|]. rewrite Hquota.
  destruct S7 as [D1 D2]. pose proof (inv_reserve strict (ID t) m7) as Hres. pose proof (reserve_frame (ID t) tenant_quota m7) as (F1 & F2 & F3 & F4 & F5 & F6).
  destruct (reserve_quota (ID t) tenant_quota m7) as [r m8] eqn:Er. cbn [snd] in *.
  assert (Hok8 : ok strict m8) by (apply Hres; [by rewrite D1|unfold ok; by rewrite D1, D2, R7]).
  assert (S8 : same_place m m8) by (unfold same_place; by rewrite F1, F2, D1, D2).
  destruct r as [[]|e|]; [|by split|by split].
  destruct (launch_ok strict t cfg m8) as [L1 L2]; [done| | |done|done|].
  - by rewrite F2, D2.
  - unfold running. by rewrite F4, F5, R7.
  - split; [done|]. by eapply same_trans.
Qed.

Lemma StartTenant_ok strict p t m :
  n_budget (m_node m) ≤ MaxInt64 → ok strict m → r_heap (m_reg m) !! p = Some t → r_tenants (m_reg m) !! ID t = Some p →
  ok strict (snd (StartTenant p m)) ∧ same_place m (snd (StartTenant p m)).
Proof.
  intros Hmax Hok Hp Ht. unfold StartTenant. rewrite Hp. destruct (Hibernated t) eqn:Eh; [done|].
  destruct (_ || _) eqn:E; [done|]. apply orb_false_iff in E as [_ E]. set (m1 := with_run m _).
  destruct (bring_up_ok strict t m1) as [B1 [B2 B3]]; [done|by apply (inv_ext strict _ _ (m_run m))| |done|done|].
  - unfold tenant. cbn. by rewrite Ht.
  - destruct (bring_up t m1) as [r m2]. cbn [snd] in *. split; [|by split]. by apply (inv_ext strict _ _ (m_run m2)).
Qed.

Definition pointer_ok (r : Registry) (p : nat) : Prop := ∃ t, r_heap r !! p = Some t ∧ r_tenants r !! ID t = Some p.

Lemma table_pointer r id p : heap_ok r → r_tenants r !! id = Some p → pointer_ok r p.
Proof. intros H E. destruct (H id p E) as (t & Ht & <-). by exists t. Qed.

Lemma start_ok strict p m :
  n_budget (m_node m) ≤ MaxInt64 → ok strict m → pointer_ok (m_reg m) p → ok strict (start_quietly p m) ∧ same_place m (start_quietly p m).
Proof. intros Hmax Hok (t & H1 & H2). by eapply StartTenant_ok. Qed.

Lemma starts_ok strict ps m :
  n_budget (m_node m) ≤ MaxInt64 → ok strict m → Forall (pointer_ok (m_reg m)) ps →
  ok strict (foldl (λ m p, start_quietly p m) m ps) ∧ same_place m (foldl (λ m p, start_quietly p m) m ps).
Proof.
  intros Hmax. revert m Hmax. induction ps as [|p ps IH]; intros m Hmax Hok HF; cbn; [by split|].
  apply Forall_cons in HF as [Hp HF]. destruct (start_ok strict p m Hmax Hok Hp) as [H1 [S1 S2]].
  destruct (IH (start_quietly p m)) as [H2 [S3 S4]]; [by rewrite S1|done|by rewrite S2|]. split; [done|]. split; congruence.
Qed.

Lemma replica_set_ok strict p ps m :
  n_budget (m_node m) ≤ MaxInt64 → ok strict m → Forall (pointer_ok (m_reg m)) (p :: ps) → ok strict (startReplicaSet p ps m).
Proof.
  intros Hmax Hok [(t & H1 & H2) HF]%Forall_cons. unfold startReplicaSet. destruct (StartTenant_ok strict p t m Hmax Hok H1 H2) as [H3 [S1 S2]].
  destruct (StartTenant p m) as [[] m1]; cbn in *; [|done|done]. apply starts_ok; [by rewrite S1|done|by rewrite S2].
Qed.

(** ** Provisioning *)
Lemma advance_same h s r reg : r_heap (advance h s r reg) = r_heap reg ∧ r_tenants (advance h s r reg) = r_tenants reg.
Proof. done. Qed.

Lemma build_spec n id name enc count : ∀ i r l r',
  build_replicas n id name enc i count r = (l, r') →
  r_heap r' = r_heap r ∧ r_tenants r' = r_tenants r ∧ length l = count ∧
  map ID l = map (λ k, replicaTenantID id (i + Z.of_nat k)) (List.seq 0 count) ∧
  map HTTPPort l = seqZ (nextHTTPPort r) (Z.of_nat count) ∧ nextHTTPPort r' = nextHTTPPort r + Z.of_nat count ∧
  map RESPPort l = seqZ (nextRESPPort r) (Z.of_nat count) ∧ nextRESPPort r' = nextRESPPort r + Z.of_nat count ∧
  map ReplicationPort l = seqZ (nextReplPort r) (Z.of_nat count) ∧ nextReplPort r' = nextReplPort r + Z.of_nat count.
Proof.
  induction count as [|count IH]; intros i r l r'; cbn [build_replicas].
  - intros [= <- <-]. cbn. rewrite !Z.add_0_r. done.
  - destruct (build_replicas n id name enc (i + 1) count (advance 1 1 1 r)) as [l1 r1] eqn:E. intros [= <- <-].
    destruct (IH _ _ _ _ E) as (H1 & H2 & H3 & H4 & H5 & H6 & H7 & H8 & H9 & H10). cbn in *. rewrite H4, H5, H7, H9, H1, H2, H3.
    rewrite !(seqZ_cons _ (Z.of_nat (S count))) by lia. replace (Z.pred (Z.of_nat (S count))) with (Z.of_nat count) by lia.
    rewrite <- !Z.add_1_r. repeat split; try lia. rewrite Z.add_0_r. f_equal. rewrite <- seq_shift, map_map. apply map_ext. intros k. f_equal. lia.
Qed.

Definition replica_ids (id : string) (count : nat) : list string := map (λ i, replicaTenantID id (Z.of_nat i)) (List.seq 1 count).

Lemma reserve_spec n id name rc enc r primary replicas r' :
  0 ≤ rc → reserve n id name rc enc r = (Ok (primary, replicas), r') →
  let l := primary :: replicas in let k := Z.of_nat (length l) in
  r_heap r' = r_heap r ∧ r_tenants r' = r_tenants r ∧ k = rc + 1 ∧ map ID l = id :: replica_ids id (Z.to_nat rc) ∧
  Forall (λ x, r_tenants r !! x = None) (map ID l) ∧ Z.of_nat (size (r_tenants r)) + k ≤ maxTenantsPerNode ∧
  map HTTPPort l = seqZ (nextHTTPPort r) k ∧ nextHTTPPort r' = nextHTTPPort r + k ∧
  map RESPPort l = seqZ (nextRESPPort r) k ∧ nextRESPPort r' = nextRESPPort r + k ∧
  (if rc >? 0 then map ReplicationPort l = seqZ (nextReplPort r) k ∧ nextReplPort r' = nextReplPort r + k
   else map ReplicationPort l = [0] ∧ nextReplPort r' = nextReplPort r).
Proof.
  intros Hrc. unfold reserve. case_bool_decide as Hid; [done|]. fold (replica_ids id (Z.to_nat rc)).
  destruct (List.find _ _) as [rid|] eqn:Ef; [done|]. destruct (_ >? maxTenantsPerNode) eqn:Es; [done|].
  destruct (build_replicas _ _ _ _ _ _ _) as [l1 r1] eqn:E. intros [= <- <- <-]. cbv zeta.
  destruct (build_spec _ _ _ _ _ _ _ _ _ E) as (H1 & H2 & H3 & H4 & H5 & H6 & H7 & H8 & H9 & H10). cbn [length map ID HTTPPort RESPPort ReplicationPort]. rewrite H3.
  assert (Hn : Z.of_nat (Z.to_nat rc) = rc) by lia.
  assert (Hids : map ID l1 = replica_ids id (Z.to_nat rc)).
  { rewrite H4. unfold replica_ids. rewrite <- seq_shift, map_map. apply map_ext. intros k. f_equal. lia. }
  cbn [nextHTTPPort nextRESPPort nextReplPort advance] in *.
  split; [by rewrite H1|]. split; [by rewrite H2|]. split; [lia|]. split; [by rewrite Hids|]. split.
  { rewrite Hids. constructor; [by apply eq_None_not_Some|]. apply Forall_forall. intros x Hx. rewrite list_elem_of_In in Hx. pose proof (find_none _ _ Ef x Hx) as Hn'.
    apply bool_decide_eq_false in Hn'. by apply eq_None_not_Some. }
  split; [lia|]. rewrite H5, H6, H7, H8, H9, H10. rewrite !(seqZ_cons _ (Z.of_nat (S (Z.to_nat rc)))) by lia.
  replace (Z.pred (Z.of_nat (S (Z.to_nat rc)))) with (Z.of_nat (Z.to_nat rc)) by lia. rewrite <- !Z.add_1_r.
  destruct (rc >? 0) eqn:Ep; repeat split; try lia. assert (Hz : rc = 0) by lia. rewrite Hz. done.
Qed.

Lemma ids_distinct id rc : rc ≤ maxReplicasPerTenant → NoDup (id :: replica_ids id (Z.to_nat rc)).
Proof.
  intros Hrc. unfold maxReplicasPerTenant in Hrc.
  assert (Hself : ∀ s, (id ++ "-r" ++ s)%string ≠ id).
  { clear. induction id as [|c id IH]; intros s; cbn; [done|]. intros [= E]. by apply (IH s). }
  assert (H12 : replicaTenantID id 1 ≠ replicaTenantID id 2) by (unfold replicaTenantID; intros E%(inj (String.append id)); vm_compute in E; congruence).
  assert (H1 : ∀ i, replicaTenantID id i ≠ id) by (intros i; unfold replicaTenantID; apply Hself).
  assert (Hc : Z.to_nat rc = 0%nat ∨ Z.to_nat rc = 1%nat ∨ Z.to_nat rc = 2%nat) by lia.
  destruct Hc as [->|[->| ->]]; unfold replica_ids; cbn [List.seq map]; repeat constructor; rewrite ?not_elem_of_cons; repeat split; auto using not_elem_of_nil; apply not_eq_sym, H1.
Qed.

Lemma insert_table l : ∀ base (tab : gmap string nat), NoDup (map ID l) →
  let tab' := foldl (λ tab (p : nat * Tenant), <[ID p.2 := p.1]> tab) tab (zip (List.seq base (length l)) l) in
  (∀ i t, l !! i = Some t → tab' !! ID t = Some (base + i)%nat) ∧ (∀ x, x ∉ map ID l → tab' !! x = tab !! x).
Proof.
  induction l as [|t l IH]; intros base tab Hnd; cbn; [done|]. apply NoDup_cons in Hnd as [Hn Hnd]. destruct (IH (S base) (<[ID t := base]> tab) Hnd) as [H1 H2]. split.
  - intros [|i] t' E; cbn in E.
    + injection E as <-. rewrite H2 by done. rewrite lookup_insert_eq. f_equal. lia.
    + rewrite (H1 i t' E). f_equal. lia.
  - intros x [Hx1 Hx2]%not_elem_of_cons. rewrite H2 by done. by rewrite lookup_insert_ne.
Qed.

Lemma insert_spec l r :
  NoDup (map ID l) → let '(ps, r') := insert_tenants l r in
  r_heap r' = r_heap r ++ l ∧ ps = List.seq (length (r_heap r)) (length l) ∧
  (∀ i t, l !! i = Some t → r_tenants r' !! ID t = Some (length (r_heap r) + i)%nat) ∧
  (∀ x, x ∉ map ID l → r_tenants r' !! x = r_tenants r !! x) ∧
  nextHTTPPort r' = nextHTTPPort r ∧ nextRESPPort r' = nextRESPPort r ∧ nextReplPort r' = nextReplPort r.
Proof.
  intros Hnd. unfold insert_tenants. cbn. destruct (insert_table l (length (r_heap r)) (r_tenants r) Hnd) as [H1 H2]. done.
Qed.

(** The table after new tenants: theirs, and the old ones. *)
Lemma insert_tenant l r ps r' :
  insert_tenants l r = (ps, r') → NoDup (map ID l) → heap_ok r →
  heap_ok r' ∧ Forall (pointer_ok r') ps ∧ (∀ t, t ∈ l → tenant r' (ID t) = Some t) ∧ (∀ x, x ∉ map ID l → tenant r' x = tenant r x).
Proof.
  intros E Hnd Hh. pose proof (insert_spec l r Hnd) as H. rewrite E in H. destruct H as (H1 & H2 & H3 & H4 & _).
  assert (Hnew : ∀ i t, l !! i = Some t → r_heap r' !! (length (r_heap r) + i)%nat = Some t).
  { intros i t Hi. rewrite H1, lookup_app_r by lia. by replace (length (r_heap r) + i - length (r_heap r))%nat with i by lia. }
  assert (Hold : ∀ x, x ∉ map ID l → tenant r' x = tenant r x).
  { intros x Hx. unfold tenant. rewrite (H4 x Hx). destruct (r_tenants r !! x) as [p|] eqn:Ep; [|done]. destruct (Hh x p Ep) as (t & Ht & _).
    cbn. rewrite H1, Ht. apply lookup_app_l_Some. exact Ht. }
  split; [|split; [|split; [|done]]].
  - intros x p Hp. destruct (decide (x ∈ map ID l)) as [Hx|Hx].
    + apply list_elem_of_fmap in Hx as (t & -> & Ht). apply list_elem_of_lookup in Ht as (i & Hi). rewrite (H3 i t Hi) in Hp. injection Hp as <-. exists t. auto.
    + rewrite (H4 x Hx) in Hp. destruct (Hh x p Hp) as (t & Ht & Hid). exists t. rewrite H1. split; [|done]. by apply lookup_app_l_Some.
  - apply Forall_forall. rewrite H2. intros p Hp. rewrite list_elem_of_In, in_seq in Hp. destruct (lookup_lt_is_Some_2 l (p - length (r_heap r))) as (t & Ht); [lia|].
    exists t. split; [rewrite <- (Hnew _ _ Ht); f_equal; lia|]. rewrite (H3 _ _ Ht). f_equal. lia.
  - intros t Ht. apply list_elem_of_lookup in Ht as (i & Hi). unfold tenant. rewrite (H3 i t Hi). cbn. by apply Hnew.
Qed.

Lemma registered_known strict n reg run id h : inv strict n reg run → registered run id h → is_Some (r_tenants reg !! id).
Proof.
  intros Hi Hr. destruct (i_serves _ _ _ _ Hi id h Hr) as (t & _ & E & _). unfold tenant in E. destruct (r_tenants reg !! id); [done|done].
Qed.

(** New tenants under new names leave the running ones alone. *)
Lemma inv_insert strict n reg run l ps reg' :
  inv strict n reg run → insert_tenants l reg = (ps, reg') → NoDup (map ID l) → Forall (λ x, r_tenants reg !! x = None) (map ID l) →
  inv strict n reg' run ∧ Forall (pointer_ok reg') ps.
Proof.
  intros Hi E Hnd Hnew. destruct (insert_tenant l reg ps reg' E Hnd (i_heap _ _ _ _ Hi)) as (H1 & H2 & H3 & H4). split; [|done].
  apply (inv_reg strict n reg); [done|done|]. intros id h t Hr Ht. exists t. split; [|by split]. rewrite H4; [done|]. intros Hin.
  rewrite Forall_forall in Hnew. destruct (registered_known _ _ _ _ _ _ Hi Hr) as (p & Hp). by rewrite (Hnew id Hin) in Hp.
Qed.

Lemma heap_ok_same r r' : r_heap r' = r_heap r → r_tenants r' = r_tenants r → heap_ok r → heap_ok r'.
Proof. unfold heap_ok. by intros -> ->. Qed.
Lemma tenant_same r r' id : r_heap r' = r_heap r → r_tenants r' = r_tenants r → tenant r' id = tenant r id.
Proof. unfold tenant. by intros -> ->. Qed.

Lemma provision_ok strict id name rc enc m :
  n_budget (m_node m) ≤ MaxInt64 → ok strict m →
  let '(r, m') := ProvisionWith Local id name rc enc m in
  ok strict m' ∧ m_node m' = m_node m ∧ (if r is Ok ps then Forall (pointer_ok (m_reg m')) ps else True).
Proof.
  intros Hmax Hok. unfold ProvisionWith. destruct (check_request id name rc enc) as [e'|e'|] eqn:Ec; [|done|done].
  assert (Hrc : 0 ≤ rc ≤ maxReplicasPerTenant).
  { unfold check_request in Ec. repeat (case_bool_decide; [done|]). destruct (negb _); [done|]. repeat (case_bool_decide; [done|]).
    destruct (rc <? 0) eqn:E1; [done|]. destruct (rc >? maxReplicasPerTenant) eqn:E2; [done|]. lia. }
  set (x := if rc >? 0 then let '(key, m) := replicationKey m in (bool_decide (is_Some key), m) else (true, m)).
  assert (Hk : same_place m (snd x) ∧ m_run (snd x) = m_run m).
  { unfold x. destruct (rc >? 0); [|done]. destruct (replicationKey_frame m) as (A1 & A2 & A3). destruct (replicationKey m). done. }
  clearbody x. destruct x as [ready m1].
  destruct Hk as [[S1 S2] R1]. cbn [snd] in *. destruct (negb ready); [unfold ok; by rewrite S1, S2, R1|].
  destruct (reserve _ id name rc e' (m_reg m1)) as [[[primary replicas]|e|] r'] eqn:Er.
  - destruct (reserve_spec _ _ _ _ _ _ _ _ _ (proj1 Hrc) Er) as (H1 & H2 & _ & H4 & H5 & _). unfold commit.
    assert (Hnd : NoDup (map ID (primary :: replicas))) by (rewrite H4; apply ids_distinct; lia).
    cbn [m_reg with_reg]. destruct (insert_tenants (primary :: replicas) r') as [ps r2] eqn:Ei.
    edestruct (inv_insert strict (m_node m) r' (m_run m)) as [I1 I2]; [|exact Ei|exact Hnd|by rewrite H2|].
    { apply (inv_reg strict _ (m_reg m)); [done| |].
      - eapply heap_ok_same; [exact H1|exact H2|]. rewrite S2. apply Hok.
      - intros x h t _ Ht. exists t. rewrite (tenant_same _ _ x H1 H2), S2. done. }
    destruct (saveState_frame (with_reg (with_reg m1 r') r2)) as (F1 & F2 & F3). destruct (saveState _) as [okS m2]. cbn in *.
    assert (Hfin : ok strict m2) by (unfold ok; rewrite F1, F2, F3, S1, R1; exact I1).
    split; [done|]. split; [by rewrite F1|]. destruct okS; [|done]. by rewrite F2.
  - unfold reserve in Er. assert (r' = m_reg m1) as -> by (repeat (case_match; simplify_eq; try done)).
    split; [|done]. unfold ok. cbn. by rewrite S1, S2, R1.
  - exfalso. unfold reserve in Er. repeat (case_match; simplify_eq; try done).
Qed.

(** ** Removing and stopping *)
Lemma inv_quotas strict n reg run q :
  inv strict n reg run → q ⊆ tenantQuotas run → inv strict n reg (with_quotas run q).
Proof.
  intros [H1 H2 H3 H4 H5 [H6 H7]] Hq. split; [done..|]. cbn. split.
  - intros id v Hv. apply (H6 id). by eapply lookup_weaken.
  - intros Hb. specialize (H7 Hb). pose proof (map_subseteq_size _ _ Hq). unfold tenant_quota in *. lia.
Qed.

Lemma table_delete r id : heap_ok r → heap_ok (with_table r (delete id (r_tenants r))) ∧
  ∀ x, tenant (with_table r (delete id (r_tenants r))) x = if decide (x = id) then None else tenant r x.
Proof.
  intros H. split.
  - intros x p Hp. cbn in Hp. apply lookup_delete_Some in Hp as [_ Hp]. by apply H.
  - intros x. unfold tenant. cbn. destruct (decide (x = id)) as [->|Hne]; [by rewrite lookup_delete_eq|by rewrite lookup_delete_ne].
Qed.

Lemma asked_last e m m' (f : Manager → Manager) :
  (∀ m, same_place m (f m) ∧ m_run (f m) = m_run m) → m' = snd (asked e m (λ m, (Ok tt, f m))) → same_place m m' ∧ m_run m' = m_run m.
Proof.
  intros Hf ->. destruct (asked_case e m (λ m, (Ok tt, f m))) as [(m1 & [S1 S2] & R & ->)|(m1 & S & R & ->)]; cbn; [|done].
  destruct (Hf m1) as [[F1 F2] F3]. unfold same_place. by rewrite F1, F2, F3, S1, S2, R.
Qed.

Lemma removeTenant_ok strict t purge m :
  ok strict m →
  let m' := snd (removeTenant t purge m) in
  ok strict m' ∧ m_node m' = m_node m ∧ m_reg m' = with_table (m_reg m) (delete (ID t) (r_tenants (m_reg m))).
Proof.
  intros Hok. unfold removeTenant.
  destruct (saveState_frame (drop_tenant (ID t) m)) as (F1 & F2 & F3). destruct (saveState _) as [saved m1]. cbn [snd] in *.
  set (m2 := stop _ (stop _ m1)).
  assert (H2 : ok strict m2 ∧ m_node m2 = m_node m ∧ m_reg m2 = with_table (m_reg m) (delete (ID t) (r_tenants (m_reg m)))).
  { unfold m2, ok. rewrite !(proj1 (stop_run _ _)), !(proj1 (proj2 (stop_run _ _))), !(proj1 (proj2 (proj2 (stop_run _ _)))).
    rewrite F1, F2, F3. split; [|done]. cbn [drop_tenant m_run with_run m_reg with_reg m_node].
    set (run := m_run m). assert (Hi : inv strict (m_node m) (m_reg m) (halt (workers run !! ID t) (halt (instances run !! ID t) (drop_engines (ID t) run)))) by (by apply inv_unregister).
    apply (inv_quotas _ _ _ _ (delete (ID t) (tenantQuotas run))) in Hi.
    2:{ rewrite (proj1 (proj2 (proj2 (halt_tables _ _)))), (proj1 (proj2 (proj2 (halt_tables _ _)))). apply delete_subseteq. }
    destruct (table_delete (m_reg m) (ID t) (i_heap _ _ _ _ Hok)) as [T1 T2].
    apply (inv_reg _ _ _ (with_table (m_reg m) (delete (ID t) (r_tenants (m_reg m))))) in Hi; [|done|].
    - eapply inv_ext; [..|exact Hi]; by destruct (workers run !! ID t), (instances run !! ID t).
    - intros id h t' Hr Ht'. exists t'. rewrite T2, decide_False; [done|]. intros ->. unfold registered in Hr.
      destruct (workers run !! ID t), (instances run !! ID t); cbn in Hr; rewrite !lookup_delete_eq in Hr; by destruct Hr. }
  clearbody m2. destruct (negb saved); [done|]. destruct (negb purge); [done|]. cbv zeta.
  match goal with |- context [asked ?e m2 ?k] => destruct (asked_case e m2 k) as [(m3 & [S1 S2] & S3 & ->)|(m3 & [S1 S2] & S3 & ->)] end;
    [|unfold ok in *; cbn; rewrite S1, S2, S3; done].
  match goal with |- context [asked ?e ?m4 _] => destruct (asked_last e m4 (snd (asked e m4 (λ m, (Ok tt, m)))) id) as [[A1 A2] A3]; [done|done|] end.
  unfold ok in *. rewrite A1, A2, A3. cbn. by rewrite S1, S2, S3.
Qed.

Lemma remove_all_ok strict l purge : ∀ m, ok strict m →
  let m' := snd (remove_all l purge m) in ok strict m' ∧ m_node m' = m_node m ∧ r_heap (m_reg m') = r_heap (m_reg m).
Proof.
  induction l as [|t l IH]; intros m Hok; cbn; [done|]. destruct (removeTenant_ok strict t purge m Hok) as (H1 & H2 & H3).
  destruct (removeTenant t purge m) as [[] m1]; cbn in *; [|by rewrite H3|by rewrite H3]. destruct (IH m1 H1) as (I1 & I2 & I3).
  split; [done|]. rewrite I2, I3, H2, H3. done.
Qed.

(** A tenant's record changes, but not its name, its directory or, when strict,
    its sleep. *)
Lemma ok_set strict m p t t' :
  ok strict m → r_tenants (m_reg m) !! ID t = Some p → tenant (m_reg m) (ID t) = Some t → ID t' = ID t → DataDir t' = DataDir t →
  (strict = true → Hibernated t = false → Hibernated t' = false) →
  ok strict (with_reg m (set_tenant p t' (m_reg m))).
Proof.
  intros Hok Hp Ht Hid Hdir Hh. unfold ok. cbn [m_reg m_node m_run with_reg]. apply (inv_reg _ _ (m_reg m)); [exact Hok|apply heap_ok_set; [apply Hok|by rewrite Hid]|].
  intros id h x Hr Hx. rewrite tenant_set by (apply Hok || by rewrite Hid). rewrite Hid. destruct (decide (id = ID t)) as [->|]; [|by exists x].
  rewrite Ht in Hx. injection Hx as <-. by exists t'.
Qed.

Lemma looked_up m id p t : heap_ok (m_reg m) → r_tenants (m_reg m) !! id = Some p → tenant (m_reg m) id = Some t → ID t = id ∧ r_heap (m_reg m) !! p = Some t.
Proof. intros H Hp Ht. split; [by eapply tenant_ID|]. unfold tenant in Ht. by rewrite Hp in Ht. Qed.

Lemma ok_save strict m : ok strict m → ok strict (snd (saveState m)) ∧ same_place m (snd (saveState m)) ∧ m_run (snd (saveState m)) = m_run m.
Proof. intros H. destruct (saveState_frame m) as (E1 & E2 & E3). unfold ok, same_place. by rewrite E1, E2, E3. Qed.

Lemma delete_ok strict id purge m : ok strict m → ok strict (snd (deleteTenant id purge m)) ∧ m_node (snd (deleteTenant id purge m)) = m_node m.
Proof.
  intros Hok. unfold deleteTenant. destruct (tenant (m_reg m) id) as [t|]; [|done].
  destruct (remove_all_ok strict (set_members (m_reg m) t) purge m Hok) as (H1 & H2 & _). destruct (remove_all _ purge m) as [[] m1]; cbn in *; [|done|done].
  destruct (removeTenant_ok strict t purge m1 H1) as (H3 & H4 & _). rewrite H2 in H4. destruct (removeTenant t purge m1) as [[] m2]; cbn in *; [|done|done].
  case_bool_decide; [done|]. destruct (r_tenants (m_reg m2) !! ReplicaOf t) as [p|] eqn:Ep; [|done]. destruct (tenant (m_reg m2) (ReplicaOf t)) as [q|] eqn:Eq; [|done].
  destruct (looked_up m2 _ _ _ (i_heap _ _ _ _ H3) Ep Eq) as [Eid _].
  destruct (ok_save strict (with_reg m2 (set_tenant p (set_Replicas (List.filter (λ rid, negb (bool_decide (rid = id))) (Replicas q)) q) (m_reg m2)))) as (S1 & [S2 S3] & S4).
  - apply (ok_set strict m2 p q); [done|by rewrite Eid|by rewrite Eid|done..].
  - destruct (saveState _) as [[] m3]; cbn in *; (split; [done|by rewrite S2]).
Qed.

(** ** Hibernation and restoration *)
Lemma set_set p a b r : set_tenant p a (set_tenant p b r) = set_tenant p a r.
Proof. unfold set_tenant, with_heap. cbn. by rewrite list_insert_insert_eq. Qed.

Lemma stopped_run i w m :
  m_node (stop w (stop i m)) = m_node m ∧ m_reg (stop w (stop i m)) = m_reg m ∧ m_run (stop w (stop i m)) = halt w (halt i (m_run m)).
Proof. destruct (stop_run w (stop i m)) as (-> & -> & -> & _). by destruct (stop_run i m) as (-> & -> & -> & _). Qed.

Lemma unregistered id run h :
  ¬ registered (halt (workers run !! id) (halt (instances run !! id) (drop_engines id run))) id h.
Proof.
  unfold registered. destruct (halt_tables (workers run !! id) (halt (instances run !! id) (drop_engines id run))) as (-> & -> & _).
  destruct (halt_tables (instances run !! id) (drop_engines id run)) as (-> & -> & _). cbn. rewrite !lookup_delete_eq. by intros [?|?].
Qed.

Lemma hibernate_ok strict id m : ok strict m → ok strict (snd (HibernateTenant id m)) ∧ m_node (snd (HibernateTenant id m)) = m_node m.
Proof.
  intros Hok. unfold HibernateTenant. destruct (r_tenants (m_reg m) !! id) as [p|] eqn:Ep; [|done]. destruct (tenant (m_reg m) id) as [t|] eqn:Et; [|done].
  case_bool_decide; [done|]. destruct (looked_up m _ _ _ (i_heap _ _ _ _ Hok) Ep Et) as [Eid Hheap].
  set (m1 := with_run _ _). destruct (saveState_frame m1) as (F1 & F2 & F3). destruct (saveState m1) as [[] m2]; cbn [snd] in *.
  - destruct (stopped_run (instances (m_run m) !! id) (workers (m_run m) !! id) m2) as (S1 & S2 & S3). split; [|by rewrite S1, F1].
    unfold ok. rewrite S1, S2, S3, F1, F2, F3. cbn. apply (inv_reg _ _ (m_reg m)).
    + by apply inv_unregister.
    + apply heap_ok_set; [apply Hok|]. cbn. by rewrite Eid.
    + intros x h t' Hr Ht'. exists t'. rewrite tenant_set by (apply Hok || (cbn; by rewrite Eid)). cbn. rewrite Eid, decide_False; [done|]. intros ->. by apply unregistered in Hr.
  - split; [|by cbn; rewrite F1]. unfold ok. cbn. rewrite F1, F2, F3. cbn. rewrite set_set.
    apply (inv_ext strict _ _ (m_run m)).
    + unfold put_back. destruct (instances (m_run m) !! id) eqn:Ei, (workers (m_run m) !! id) eqn:Ew; cbn; rewrite ?insert_delete_id, ?delete_id by done; done.
    + unfold put_back. destruct (instances (m_run m) !! id) eqn:Ei, (workers (m_run m) !! id) eqn:Ew; cbn; rewrite ?insert_delete_id, ?delete_id by done; done.
    + unfold put_back. by destruct (instances (m_run m) !! id), (workers (m_run m) !! id).
    + unfold put_back. by destruct (instances (m_run m) !! id), (workers (m_run m) !! id).
    + apply (ok_set strict m p t); [done|by rewrite Eid|by rewrite Eid|done..].
Qed.

Lemma wake_ok strict id b m :
  n_budget (m_node m) ≤ MaxInt64 → (strict = true → b = true) →
  ok strict m → ok strict (snd (wakeTenant id b m)) ∧ m_node (snd (wakeTenant id b m)) = m_node m.
Proof.
  intros Hmax Hb Hok. unfold wakeTenant. destruct (r_tenants (m_reg m) !! id) as [p|] eqn:Ep; [|done]. destruct (tenant (m_reg m) id) as [t|] eqn:Et; [|done].
  destruct (b && negb (Hibernated t)) eqn:Eb; [done|]. destruct (looked_up m _ _ _ (i_heap _ _ _ _ Hok) Ep Et) as [Eid Hheap].
  set (m1 := with_reg m _). assert (Hm1 : ok strict m1) by (apply (ok_set strict m p t); [done|by rewrite Eid|by rewrite Eid|done..]).
  destruct (ok_save strict m1 Hm1) as (O1 & [F1 F2] & F3). destruct (saveState m1) as [[] m2]; cbn [snd] in *.
  - destruct (StartTenant_ok strict p (set_Hibernated false t) m2) as [S1 [S2 S3]]; [by rewrite F1|done| | |].
    + rewrite F2. cbn. apply list_lookup_insert_eq. by eapply lookup_lt_Some.
    + rewrite F2. cbn. by rewrite Eid.
    + split; [done|]. by rewrite S2, F1.
  - split; [|cbn; by rewrite F1]. unfold ok. cbn. rewrite F1, F2, F3. cbn. rewrite set_set.
    apply (ok_set strict m p t); [done|by rewrite Eid|by rewrite Eid|done|done|]. intros Hs Hf. rewrite (Hb Hs), Hf in Eb. done.
Qed.

Lemma restore_ok strict id m :
  n_budget (m_node m) ≤ MaxInt64 → ok strict m → ok strict (snd (RestoreTenant id m)) ∧ m_node (snd (RestoreTenant id m)) = m_node m.
Proof.
  intros Hmax Hok. unfold RestoreTenant. destruct (r_tenants (m_reg m) !! id) as [p|] eqn:Ep; [|done]. destruct (tenant (m_reg m) id) as [t|] eqn:Et; [|done].
  pose proof (table_pointer _ _ _ (i_heap _ _ _ _ Hok) Ep) as Hptr.
  set (m1 := stop _ _). assert (H1 : ok strict m1 ∧ same_place m m1).
  { unfold m1. destruct (stopped_run (instances (m_run m) !! id) (workers (m_run m) !! id) (with_run m (drop_engines id (m_run m)))) as (S1 & S2 & S3).
    unfold ok, same_place. rewrite S1, S2, S3. split; [|done]. by apply inv_unregister. }
  clearbody m1.
  assert (Hgo : ∀ m', same_place m m' → m_run m' = m_run m1 → ok strict m').
  { intros m' [E1 E2] E3. destruct H1 as [H1 [G1 G2]]. unfold ok in *. by rewrite E1, E2, E3, <- G1, <- G2. }
  assert (Hst : ∀ m', same_place m m' → ok strict m' → ok strict (start_quietly p m') ∧ same_place m (start_quietly p m')).
  { intros m' [E1 E2] Ho. destruct (start_ok strict p m') as [A1 A2]; [by rewrite E1|done|by rewrite E2|]. split; [done|]. by eapply same_trans. }
  match goal with |- context [asked ?e m1 ?k] => destruct (asked_case e m1 k) as [(m2 & S2 & R2 & ->)|(m2 & S2 & R2 & ->)] end; cbv beta.
  2:{ assert (same_place m m2) as S by (destruct H1; by eapply same_trans). cbn. split; [by apply Hgo|apply S]. }
  assert (P2 : same_place m m2) by (destruct H1; by eapply same_trans). clear S2.
  assert (Hask : ∀ m', same_place m m' → m_run m' = m_run m1 → same_place m (snd (ask m')) ∧ m_run (snd (ask m')) = m_run m1).
  { intros m' [E1 E2] E3. destruct (ask_frame m') as (A1 & A2 & A3). unfold same_place. by rewrite A1, A2, A3. }
  destruct (Hask m2 P2 R2) as [P3 R3]. destruct (ask m2) as [[] m3]; cbn [snd negb] in *; [|destruct (Hst m3 P3 (Hgo m3 P3 R3)) as [? [? ?]]; done].
  destruct (Hask m3 P3 R3) as [P4 R4]. destruct (ask m3) as [[] m4]; cbn [snd negb] in *; [|destruct (Hst m4 P4 (Hgo m4 P4 R4)) as [? [? ?]]; done].
  destruct (Hask m4 P4 R4) as [P5 R5]. destruct (ask m4) as [[] m5]; cbn [snd negb] in *; [|destruct (Hst m5 P5 (Hgo m5 P5 R5)) as [? [? ?]]; done].
  destruct (Hst m5 P5 (Hgo m5 P5 R5)) as [A1 A2]. unfold start_quietly in A1, A2. destruct (StartTenant p m5) as [r m6]. cbn [snd] in *.
  destruct r as [[]|e|]; [by destruct A2|destruct (Hst m6 A2 A1) as [? [? ?]]; done..].
Qed.

(** ** Credentials *)
Lemma sync_one_ok strict t m : ok strict m → ok strict (sync_one t m) ∧ same_place m (sync_one t m).
Proof.
  intros Hok. unfold sync_one. destruct (writeUsersACL_frame (DataDir t) (collectTenantUsers (m_reg m) t) m) as (A1 & A2 & A3).
  destruct (writeUsersACL _ _ m) as [[] m1]; cbn [snd] in *; [|unfold ok, same_place; by rewrite A1, A2, A3].
  destruct (workers (m_run m1) !! ID t) as [h|]; [|unfold ok, same_place; by rewrite A1, A2, A3].
  destruct (ask_frame m1) as (B1 & B2 & B3). destruct (ask m1) as [[] m2]; cbn [snd] in *; unfold ok, same_place; cbn; rewrite B1, B2, B3, A1, A2, A3; [|done].
  split; [|done]. by apply inv_engine.
Qed.

Lemma acl_sync_ok strict t m : ok strict m → ok strict (syncTenantACL t m) ∧ same_place m (syncTenantACL t m).
Proof.
  intros Hok. unfold syncTenantACL. generalize (t :: set_members (m_reg m) t). intros l. revert m Hok.
  induction l as [|x l IH]; intros m Hok; cbn; [by split|]. destruct (sync_one_ok strict x m Hok) as [H1 S1]. destruct (IH _ H1) as [H2 S2].
  split; [done|]. by eapply same_trans.
Qed.

Lemma upd_ok strict f h m :
  (∀ e, e_live (f e) = e_live e ∧ dir_of (e_cfg (f e)) = dir_of (e_cfg e)) → ok strict m → ok strict (upd_engine f h m) ∧ same_place m (upd_engine f h m).
Proof. intros Hf Hok. split; [|done]. by apply inv_engine. Qed.

Lemma create_key_ok strict encode random now id name role patterns m :
  ok strict m → ok strict (snd (CreateTenantKey encode random now id name role patterns m)) ∧ m_node (snd (CreateTenantKey encode random now id name role patterns m)) = m_node m.
Proof.
  intros Hok. unfold CreateTenantKey. case_bool_decide; [done|]. case_bool_decide; [done|]. destruct random as [[ib sb]|]; [|done]. cbv zeta.
  destruct (r_tenants (m_reg m) !! id) as [p|] eqn:Ep; [|done]. destruct (tenant (m_reg m) id) as [t|] eqn:Et; [|done].
  destruct (looked_up m _ _ _ (i_heap _ _ _ _ Hok) Ep Et) as [Eid Hheap]. set (t1 := set_Keys _ t). set (m1 := with_reg m _).
  assert (Hm1 : ok strict m1) by (apply (ok_set strict m p t); [done|by rewrite Eid|by rewrite Eid|done..]).
  destruct (ok_save strict m1 Hm1) as (O1 & [F1 F2] & F3). destruct (saveState m1) as [[] m2]; cbn [snd negb] in *.
  - destruct (acl_sync_ok strict t1 m2 O1) as [H1 [S1 _]]. destruct (instances (m_run m2) !! id) as [h|].
    + destruct (upd_ok strict (set_users (λ a, AddUser a (tenantUser
        {| k_ID := EncodeToString ib; k_Name := name; k_Hash := HashPassword (encode sb); k_Role := role;
           KeyPatterns := if bool_decide (patterns = []) then ["*"%string] else patterns; Generation := 1; Revoked := false; CreatedAt := now |}))) h (syncTenantACL t1 m2)) as [U1 [U2 _]]; [done|done|].
      split; [done|]. by rewrite U2, S1, F1.
    + split; [done|]. by rewrite S1, F1.
  - split; [|cbn; by rewrite F1]. unfold ok. cbn. rewrite F1, F2, F3. cbn. rewrite set_set.
    apply (ok_set strict m p t); [done|by rewrite Eid|by rewrite Eid|done..].
Qed.

Lemma revoke_key_ok strict id key m : ok strict m → ok strict (snd (RevokeTenantKey id key m)) ∧ m_node (snd (RevokeTenantKey id key m)) = m_node m.
Proof.
  intros Hok. unfold RevokeTenantKey.
  destruct (r_tenants (m_reg m) !! id) as [p|] eqn:Ep; [|done]. destruct (tenant (m_reg m) id) as [t|] eqn:Et; [|done]. destruct (Keys t !! key) as [k|]; [|done].
  destruct (looked_up m _ _ _ (i_heap _ _ _ _ Hok) Ep Et) as [Eid Hheap]. cbv zeta. set (t1 := set_Keys _ t). set (m1 := with_reg m _).
  assert (Hm1 : ok strict m1) by (apply (ok_set strict m p t); [done|by rewrite Eid|by rewrite Eid|done..]).
  destruct (ok_save strict m1 Hm1) as (O1 & [F1 F2] & F3). destruct (saveState m1) as [[] m2]; cbn [snd negb] in *.
  - destruct (acl_sync_ok strict t1 m2 O1) as [H1 [S1 _]]. destruct (instances (m_run m2) !! id) as [h|].
    + destruct (upd_ok strict (set_users (λ a, snd (DeleteUser a key))) h (syncTenantACL t1 m2)) as [U1 [U2 _]]; [done|done|].
      split; [done|]. by rewrite U2, S1, F1.
    + split; [done|]. by rewrite S1, F1.
  - split; [|cbn; by rewrite F1]. unfold ok. cbn. rewrite F1, F2, F3. cbn. rewrite set_set.
    apply (ok_set strict m p t); [done|by rewrite Eid|by rewrite Eid|done..].
Qed.

(** ** Failures and shutdown *)
Lemma owner_found h tab id : owner_of h tab = Some id → tab !! id = Some h.
Proof.
  unfold owner_of. destruct (List.find _ _) as [[x k]|] eqn:E; [|done]. cbn. intros [= ->]. apply find_some in E as [Hin Hk].
  apply bool_decide_eq_true in Hk. cbn in Hk. subst. apply elem_of_map_to_list. by rewrite list_elem_of_In.
Qed.

Lemma inv_forget n reg run id : inv false n reg run → inv false n reg (drop_engines id run).
Proof.
  intros [H1 H2 H3 H4 H5 H6].
  assert (Hr : ∀ x h, registered (drop_engines id run) x h → registered run x h).
  { unfold registered. cbn. intros x h [[_ ?]%lookup_delete_Some|[_ ?]%lookup_delete_Some]; [by left|by right]. }
  split; [done| | | |done|done].
  - intros x h Hx. by apply H2, Hr.
  - intros x y h Hx Hy. eapply H3; by apply Hr.
  - cbn. intros x h [_ Hx]%lookup_delete_Some. apply lookup_delete_None. right. by eapply H4.
Qed.

Lemma supervise_ok strict worker h m :
  n_budget (m_node m) ≤ MaxInt64 → ok strict m → ok strict (supervise worker h m) ∧ m_node (supervise worker h m) = m_node m.
Proof.
  intros Hmax Hok. unfold supervise. cbv zeta. destruct (owner_of _ _) as [id|] eqn:Eo; [|done]. apply owner_found in Eo.
  set (run := m_run m) in *. set (run1 := if worker then _ else _).
  assert (Hreg : registered run id h) by (unfold registered; destruct worker; auto).
  assert (Hother : if worker then instances run !! id = None else workers run !! id = None).
  { destruct worker; [|by eapply i_excl]. destruct (instances run !! id) as [k|] eqn:E; [|done]. pose proof (i_excl _ _ _ _ Hok _ _ E) as Hn. fold run in Hn. congruence. }
  assert (Hdrop : instances run1 = instances (drop_engines id run) ∧ workers run1 = workers (drop_engines id run) ∧ engines run1 = engines run ∧ tenantQuotas run1 = tenantQuotas run).
  { unfold run1. destruct worker; cbn; rewrite (delete_id _ _ Hother); done. }
  destruct Hdrop as (D1 & D2 & D3 & D4). cbn [m_reg with_run].
  destruct (i_serves _ _ _ _ Hok id h Hreg) as (t & e & Et & _ & _ & _ & Hhib). rewrite Et.
  destruct (r_tenants (m_reg m) !! id) as [p|] eqn:Ep; [|unfold tenant in Et; by rewrite Ep in Et].
  destruct (Hibernated t) eqn:Eh.
  - split; [|done]. destruct strict; [by specialize (Hhib eq_refl)|]. unfold ok. cbn. apply (inv_ext false _ _ (drop_engines id run)); [done..|]. by apply inv_forget.
  - set (m2 := stop _ _). assert (H2 : ok strict m2 ∧ same_place m m2).
    { unfold m2. destruct (stop_run (Some h) (with_run (with_run m run1) (with_restarts (m_run (with_run m run1)) (<[id := default 0 (restarts (m_run (with_run m run1)) !! id) + 1]> (restarts (m_run (with_run m run1))))))) as (S1 & S2 & S3 & _).
      unfold ok, same_place. rewrite S1, S2, S3. split; [|done]. cbn [m_node m_reg m_run with_run].
      pose proof (inv_unregister strict (m_node m) (m_reg m) run id Hok) as Hu. destruct worker.
      - rewrite Eo, Hother in Hu. cbn [halt] in Hu. eapply inv_ext; [..|exact Hu]; cbn; rewrite ?D1, ?D2, ?D3, ?D4; done.
      - rewrite Eo, Hother in Hu. cbn [halt] in Hu. eapply inv_ext; [..|exact Hu]; cbn; rewrite ?D1, ?D2, ?D3, ?D4; done. }
    clearbody m2. destruct H2 as [H2 [S1 S2]]. destruct (_ >? 3); [by split|].
    destruct (start_ok strict p m2) as [H3 [S3 _]]; [by rewrite S1|done| |].
    + rewrite S2. by eapply table_pointer; [apply Hok|].
    + split; [done|]. by rewrite S3.
Qed.

Lemma stopall_ok strict m : ok strict m → ok strict (StopAll m) ∧ m_node (StopAll m) = m_node m.
Proof.
  intros Hok. unfold StopAll. cbv zeta. set (l := _ ++ _). set (m1 := with_run m _). destruct (stop_all_spec l m1) as (S1 & S2 & _ & S4 & S5 & S6 & S7).
  split; [|by rewrite S1]. unfold ok. rewrite S1, S2. change (m_node m1) with (m_node m). change (m_reg m1) with (m_reg m).
  assert (Hl : ∀ h, Some h ∈ l ↔ ∃ id, registered (m_run m) id h).
  { intros h. unfold l, registered. rewrite elem_of_app, !list_elem_of_In, !in_map_iff. split.
    - intros [([id k] & [= ->] & Hin)|([id k] & [= ->] & Hin)]; exists id; rewrite <- list_elem_of_In, elem_of_map_to_list in Hin; auto.
    - intros (id & [H|H]); [left|right]; exists (id, h); (split; [done|]); by rewrite <- list_elem_of_In, elem_of_map_to_list. }
  apply (inv_drop strict _ _ (m_run m) _ (λ _, True)); [done|..].
  - intros id h. unfold registered at 1. rewrite S4, S5. cbn. rewrite !lookup_empty. naive_solver.
  - intros id h. rewrite S4. cbn. by rewrite lookup_empty.
  - intros id _. rewrite S5. cbn. apply lookup_empty.
  - intros id h _ Hr. rewrite S7, decide_True by (apply Hl; by exists id). done.
  - intros h Hn. rewrite S7, decide_False; [done|]. intros (id & Hr)%Hl. by apply (Hn id).
  - auto.
  - by rewrite S6.
Qed.

(** ** Failover *)
Definition moved (pid rid y : string) : string := if decide (y = rid) then pid else y.

Lemma delete_all_lookup (others : list string) (x : string) : ∀ t0 : gmap string nat,
  foldl (λ tab o, delete o tab) t0 others !! x = if decide (x ∈ others) then None else t0 !! x.
Proof.
  induction others as [|o os IH]; intros t0; cbn; [by rewrite decide_False by apply not_elem_of_nil|]. rewrite IH.
  destruct (decide (x ∈ os)) as [H|H]; [by rewrite decide_True by (by right)|]. destruct (decide (x = o)) as [->|Ho].
  - by rewrite lookup_delete_eq, decide_True by left.
  - rewrite lookup_delete_ne by done. rewrite decide_False; [done|]. by intros [?|?]%elem_of_cons.
Qed.

Lemma move_iff pid rid others tab x h :
  rid ∉ others → move_engine pid rid others tab !! x = Some h ↔ (∃ y, tab !! y = Some h ∧ y ≠ pid ∧ (y ∉ others) ∧ x = moved pid rid y).
Proof.
  intros Hni. unfold move_engine. set (rest := foldl _ _ _).
  assert (Hrest : ∀ y, rest !! y = Some h ↔ tab !! y = Some h ∧ y ≠ pid ∧ y ∉ others).
  { intros y. unfold rest. rewrite delete_all_lookup. destruct (decide (y ∈ others)); [naive_solver|].
    rewrite lookup_delete_Some. naive_solver. }
  clearbody rest. unfold moved. destruct (tab !! rid) as [k|] eqn:Er.
  - rewrite lookup_delete_Some, lookup_insert_Some, Hrest. split.
    + intros (Hx & [[<- <-]|(Hp & Ht & Hx1 & Hx2)]); [exists rid; by rewrite decide_True|exists x; by rewrite decide_False].
    + intros (y & Hy & Hy1 & Hy2 & ->). destruct (decide (y = rid)) as [->|]; [|naive_solver]. split; [done|]. left. by simplify_eq.
  - rewrite Hrest. split.
    + intros (Ht & Hx1 & Hx2). exists x. rewrite decide_False; [done|]. naive_solver.
    + intros (y & Hy & Hy1 & Hy2 & ->). destruct (decide (y = rid)) as [->|]; [congruence|done].
Qed.

Lemma moved_inj pid rid y z : y ≠ pid → z ≠ pid → moved pid rid y = moved pid rid z → y = z.
Proof. unfold moved. destruct (decide (y = rid)), (decide (z = rid)); congruence. Qed.

Lemma take_place_self t : take_place t t = t.
Proof. by destruct t. Qed.

Lemma exchange_frame pp rp a b os m :
  m_node (exchange pp rp a b os m) = m_node m ∧
  m_reg (exchange pp rp a b os m) = set_tenant rp (take_place b a) (set_tenant pp (take_place a b) (m_reg m)) ∧
  instances (m_run (exchange pp rp a b os m)) = move_engine (ID a) (ID b) os (instances (m_run m)) ∧
  workers (m_run (exchange pp rp a b os m)) = move_engine (ID a) (ID b) os (workers (m_run m)) ∧
  tenantQuotas (m_run (exchange pp rp a b os m)) = tenantQuotas (m_run m) ∧
  ∀ h, ∃ f, (∀ e, e_live (f e) = e_live e ∧ dir_of (e_cfg (f e)) = dir_of (e_cfg e) ∧ e_users (f e) = e_users e) ∧
    engines (m_run (exchange pp rp a b os m)) !! h = f <$> engines (m_run m) !! h.
Proof.
  unfold exchange. cbv zeta. destruct (instances (m_run m) !! ID b) as [k|]; cbn; (do 5 (split; [done|])); intros h.
  - destruct (decide (k = h)) as [->|Hne].
    + exists (SetTenantID (ID a)). by rewrite list_lookup_alter_eq.
    + exists (λ e, e). split; [done|]. rewrite list_lookup_alter_ne by done. by rewrite option_fmap_id.
  - exists (λ e, e). by rewrite option_fmap_id.
Qed.

(** The registry after an exchange, seen through the table. *)
Lemma exchanged_tenants r pp rp a b :
  heap_ok r → r_tenants r !! ID a = Some pp → r_tenants r !! ID b = Some rp → tenant r (ID a) = Some a → tenant r (ID b) = Some b →
  let r' := set_tenant rp (take_place b a) (set_tenant pp (take_place a b) r) in
  heap_ok r' ∧ r_tenants r' = r_tenants r ∧
  ∀ x, tenant r' x = if decide (x = ID b) then Some (take_place b a) else if decide (x = ID a) then Some (take_place a b) else tenant r x.
Proof.
  intros H Ha Hb Ta Tb r'. assert (H1 : heap_ok (set_tenant pp (take_place a b) r)) by (by apply heap_ok_set).
  split; [by apply heap_ok_set|]. split; [done|]. intros x. unfold r'. rewrite (tenant_set _ rp (take_place b a)) by done. cbn [ID take_place set_place].
  destruct (decide (x = ID b)); [done|]. by rewrite (tenant_set _ pp (take_place a b)).
Qed.

Lemma promoted_ok strict m pp rp primary replica others stopped m1 :
  ok strict m → r_tenants (m_reg m) !! ID primary = Some pp → r_tenants (m_reg m) !! ID replica = Some rp →
  tenant (m_reg m) (ID primary) = Some primary → tenant (m_reg m) (ID replica) = Some replica → ID replica ∉ others →
  (strict = true → Hibernated primary = false) →
  (∀ h, Some h ∈ stopped ↔ ∃ x, (x = ID primary ∨ x ∈ others) ∧ registered (m_run m) x h) →
  m_node m1 = m_node m → m_reg m1 = m_reg (exchange pp rp primary replica others m) → m_run m1 = m_run (exchange pp rp primary replica others m) →
  ok strict (stop_all stopped m1).
Proof.
  intros Hok Hpp Hrp Tp Tr Hni Hhib Hst N1 R1 U1. destruct (stop_all_spec stopped m1) as (S1 & S2 & _ & S4 & S5 & S6 & S7).
  destruct (exchange_frame pp rp primary replica others m) as (X1 & X2 & X3 & X4 & X5 & X6).
  destruct (exchanged_tenants (m_reg m) pp rp primary replica (i_heap _ _ _ _ Hok) Hpp Hrp Tp Tr) as (G1 & G2 & G3).
  unfold ok. rewrite S1, S2, N1, R1, X2. set (run' := m_run (stop_all stopped m1)) in *. rewrite U1 in *. rewrite X3 in S4. rewrite X4 in S5. rewrite X5 in S6.
  assert (Hkeep : ∀ h, Some h ∉ stopped → ∃ f, (∀ e, e_live (f e) = e_live e ∧ dir_of (e_cfg (f e)) = dir_of (e_cfg e) ∧ e_users (f e) = e_users e) ∧ engines run' !! h = f <$> engines (m_run m) !! h).
  { intros h Hn. rewrite S7, decide_False by done. apply X6. }
  assert (Hlost : ∀ h e, Some h ∈ stopped → engines run' !! h = Some e → e_live e = false).
  { intros h e Hin. rewrite S7, decide_True by done. destruct (engines _ !! h); [|done]. cbn. by intros [= <-]. }
  destruct Hok as [H1 H2 H3 H4 H5 H6].
  assert (Hreg : ∀ x h, registered run' x h ↔ (∃ y, registered (m_run m) y h ∧ y ≠ ID primary ∧ (y ∉ others) ∧ x = moved (ID primary) (ID replica) y)).
  { intros x h. unfold registered. rewrite S4, S5, !move_iff by done. naive_solver. }
  assert (Hrun : ∀ y h, registered (m_run m) y h → y ≠ ID primary → y ∉ others → Some h ∉ stopped).
  { intros y h Hr Hy1 Hy2 (z & Hz & Hr')%Hst. rewrite (H3 _ _ _ Hr' Hr) in Hz. tauto. }
  split; [done|..].
  - intros x h (y & Hr & Hy1 & Hy2 & ->)%Hreg. destruct (H2 y h Hr) as (t & e & E1 & E2 & E3 & E4 & E5).
    destruct (Hkeep h (Hrun y h Hr Hy1 Hy2)) as (f & Hf & Ef). rewrite Ef, E2. cbn. destruct (Hf e) as (F1 & F2 & _).
    unfold moved. destruct (decide (y = ID replica)) as [->|Hy3].
    + exists (take_place primary replica), (f e). rewrite G3, decide_False, decide_True, F1, F2 by done. rewrite Tr in E1. injection E1 as <-. done.
    + exists t, (f e). rewrite G3, !decide_False, F1, F2 by done. done.
  - intros x1 x2 h (y1 & Hr1 & Hy1 & _ & ->)%Hreg (y2 & Hr2 & Hy2 & _ & ->)%Hreg. by rewrite (H3 _ _ _ Hr1 Hr2).
  - intros x h. rewrite S4, S5, move_iff by done. intros (y & Hy & Hy1 & _ & ->). apply eq_None_not_Some. intros (k & Hk).
    apply move_iff in Hk as (z & Hz & Hz1 & _ & E); [|done]. apply moved_inj in E; [|done..]. subst z. by rewrite (H4 _ _ Hy) in Hz.
  - intros Hs h e He Hl. destruct (decide (Some h ∈ stopped)) as [Hin|Hn]; [by rewrite (Hlost h e Hin He) in Hl|].
    destruct (Hkeep h Hn) as (f & Hf & Ef). rewrite Ef in He. destruct (engines (m_run m) !! h) as [e0|] eqn:E0; [|done]. cbn in He. injection He as <-.
    rewrite (proj1 (Hf e0)) in Hl. destruct (H5 Hs h e0 E0 Hl) as (y & Hr). exists (moved (ID primary) (ID replica) y). apply Hreg. exists y.
    assert (Hy : ¬ (y = ID primary ∨ y ∈ others)) by (intros HD; apply Hn, Hst; by exists y). tauto.
  - by rewrite S6.
Qed.

Lemma become_ok strict h la m : ok strict m → ok strict (snd (BecomePrimary h la m)) ∧ same_place m (snd (BecomePrimary h la m)).
Proof.
  intros Hok. unfold BecomePrimary. destruct (engines (m_run m) !! h) as [e|]; [|by split]. set (x := if e_worker e then ask m else (true, m)).
  assert (Hx : ok strict (snd x) ∧ same_place m (snd x)).
  { unfold x. destruct (e_worker e); [|done]. destruct (ask_frame m) as (A1 & A2 & A3). unfold ok, same_place. by rewrite A1, A2, A3. }
  clearbody x. destruct x as [reached m1]. cbn [snd] in Hx. destruct Hx as [H1 S1]. destruct (negb reached); [by split|].
  assert (Hp : ∀ f m2, (f = promote_engine la ∨ f = set_writable) → ok strict m2 → same_place m m2 → ok strict (upd_engine f h m2) ∧ same_place m (upd_engine f h m2)).
  { intros f m2 Hf Ho S. split; [|exact S]. apply upd_ok; [|done]. by destruct Hf as [-> | ->]. }
  destruct (e_stream e); [by apply Hp; auto|]. destruct (ask_frame m1) as (A1 & A2 & A3). destruct (ask m1) as [[] m2]; cbn [snd] in *.
  - apply Hp; [auto|unfold ok; by rewrite A1, A2, A3|]. destruct S1. unfold same_place. by rewrite A1, A2.
  - apply Hp; [auto|unfold ok; by rewrite A1, A2, A3|]. destruct S1. unfold same_place. by rewrite A1, A2.
Qed.

Lemma promoted_config_ok strict t la m : ok strict m → ok strict (writePromotedEngineConfig t la m) ∧ same_place m (writePromotedEngineConfig t la m).
Proof.
  intros Hok. unfold writePromotedEngineConfig. cbv zeta. destruct (replicationToken_frame (ID t) m) as (A1 & A2 & A3).
  destruct (replicationToken (ID t) m) as [token m1]. cbn [snd] in *.
  assert (H1 : ok strict m1 ∧ same_place m m1) by (unfold ok, same_place; by rewrite A1, A2, A3). destruct token as [token|]; [|done].
  destruct (Config.ApplyReplication _ _ _ _ _); [|done|done]. destruct (ask_frame m1) as (B1 & B2 & B3).
  destruct (ask m1) as [[] m2]; cbn [snd] in *; unfold ok, same_place; cbn; by rewrite B1, B2, B3, A1, A2, A3.
Qed.

Lemma finish_ok strict pp rp others ri rw m :
  n_budget (m_node m) ≤ MaxInt64 → ok strict m → Forall (pointer_ok (m_reg m)) (pp :: rp :: others) →
  ok strict (snd (finish_promotion pp rp others ri rw m)) ∧ m_node (snd (finish_promotion pp rp others ri rw m)) = m_node m.
Proof.
  intros Hmax Hok HF. apply Forall_cons in HF as [(t & Hp & Htab) HF]. unfold finish_promotion. rewrite Hp. cbv zeta.
  set (la := if UnixIPC _ then _ else _).
  assert (Hbec : ∀ h m', ok strict m' → same_place m m' → let x := (if h is Some h then BecomePrimary h la m' else (true, m')) in ok strict (snd x) ∧ same_place m (snd x)).
  { intros [h|] m' Ho S; cbn; [|done]. destruct (become_ok strict h la m' Ho) as [H1 H2]. split; [done|]. by eapply same_trans. }
  destruct (Hbec ri m Hok) as [H1 S1]; [done|]. destruct (if ri is Some h then BecomePrimary h la m else (true, m)) as [ok1 m1]. cbn [snd] in H1, S1. destruct (negb ok1); [by destruct S1|].
  destruct (Hbec rw m1 H1 S1) as [H2 S2]. destruct (if rw is Some h then BecomePrimary h la m1 else (true, m1)) as [ok2 m2]. cbn [snd] in H2, S2. destruct (negb ok2); [by destruct S2|].
  destruct (promoted_config_ok strict t la m2 H2) as [H3 S3']. assert (S3 : same_place m (writePromotedEngineConfig t la m2)) by (by eapply same_trans). clear S3'.
  set (m3 := writePromotedEngineConfig t la m2) in *. clearbody m3. clear m1 m2 H1 S1 H2 S2.
  set (x := if _ || _ then _ else _). assert (Hx : ok strict (snd x) ∧ same_place m (snd x)).
  { unfold x. destruct (_ || _); [done|]. destruct S3 as [E1 E2]. destruct (StartTenant_ok strict pp t m3) as [A1 A2]; [by rewrite E1|done|by rewrite E2|by rewrite E2|].
    split; [done|]. eapply same_trans; [|exact A2]. by split. }
  clearbody x. destruct x as [started m4]. cbn [snd] in Hx. destruct Hx as [H4 [E1 E2]]. destruct started; [|done|done].
  cbn [snd]. destruct (starts_ok strict (rp :: others) m4) as [H5 [E3 _]]; [by rewrite E1|done|by rewrite E2|]. split; [done|]. by rewrite E3.
Qed.

Lemma promote_ok strict id m :
  n_budget (m_node m) ≤ MaxInt64 → ok strict m →
  (strict = true → ∀ t p, tenant (m_reg m) id = Some t → tenant (m_reg m) (ReplicaOf t) = Some p → Hibernated p = false) →
  ok strict (snd (promoteLocal id m)) ∧ m_node (snd (promoteLocal id m)) = m_node m.
Proof.
  intros Hmax Hok Hhib. unfold promoteLocal. cbv zeta.
  destruct (r_tenants (m_reg m) !! id) as [rp|] eqn:Erp; [|done]. destruct (tenant (m_reg m) id) as [replica|] eqn:Er; [|done].
  destruct (_ || _); [done|]. destruct (r_tenants (m_reg m) !! ReplicaOf replica) as [pp|] eqn:Epp; [|done].
  destruct (tenant (m_reg m) (ReplicaOf replica)) as [primary|] eqn:Ep; [|done].
  pose proof (i_heap _ _ _ _ Hok) as Hh. destruct (looked_up m _ _ _ Hh Erp Er) as [Ir _]. destruct (looked_up m _ _ _ Hh Epp Ep) as [Ip _].
  set (others := List.filter _ _). set (stopped := [_; _] ++ _). set (m1 := exchange pp rp primary replica others m).
  destruct (saveState_frame m1) as (F1 & F2 & F3). destruct (saveState m1) as [saved m2]. cbn [snd] in *.
  destruct (exchange_frame pp rp primary replica others m) as (X1 & X2 & _). fold m1 in X1, X2.
  assert (Hni : ID replica ∉ others).
  { unfold others. rewrite list_elem_of_In, filter_In, Ir. intros [_ Hb]. by rewrite bool_decide_eq_true_2 in Hb. }
  assert (H3 : ok strict (stop_all stopped m2)).
  { eapply (promoted_ok strict m pp rp primary replica others stopped m2 Hok); [by rewrite Ip|by rewrite Ir|by rewrite Ip|by rewrite Ir|done| | |by rewrite F1|done|done].
    - intros Hs. by eapply Hhib.
    - intros h. unfold stopped, registered. rewrite !elem_of_app, !elem_of_cons, elem_of_nil, !list_elem_of_In, !in_map_iff. split.
      + intros [[?|[?|[]]]|[(x & ? & ?)|(x & ? & ?)]]; [exists (ID primary); auto| exists (ID primary); auto|..]; exists x; rewrite list_elem_of_In; auto.
      + intros (x & [->|Hx] & [?|?]); [left; auto..| |]; right; [left|right]; exists x; rewrite <- list_elem_of_In; auto. }
  destruct (stop_all_spec stopped m2) as (S1 & S2 & _). assert (N3 : m_node (stop_all stopped m2) = m_node m) by (by rewrite S1, F1, X1).
  destruct (negb saved); [done|]. destruct (negb _); [done|]. rewrite <- N3. apply finish_ok; [by rewrite N3|done|].
  assert (Hptr : ∀ x p, r_tenants (m_reg m) !! x = Some p → pointer_ok (m_reg (stop_all stopped m2)) p).
  { intros x p Hx. apply (table_pointer _ x); [apply H3|]. by rewrite S2, F2, X2. }
  repeat constructor; [by eapply Hptr|by eapply Hptr|]. apply Forall_forall. intros p (x & _ & Hx)%list_elem_of_omap. by eapply Hptr.
Qed.

(** ** The first state *)
(** A state file as [saveState] writes it: one entry per tenant, under its name. *)
Definition well_keyed (l : list (string * Tenant)) : Prop := NoDup (map fst l) ∧ Forall (λ p, ID p.2 = p.1) l.

Lemma adopt_spec r p :
  r_tenants (adopt r p) = r_tenants r ∧ length (r_heap (adopt r p)) = length (r_heap r) ∧
  ∀ q t, r_heap r !! q = Some t → ∃ t', r_heap (adopt r p) !! q = Some t' ∧ ID t' = ID t ∧ DataDir t' = DataDir t ∧ Hibernated t' = Hibernated t.
Proof.
  unfold adopt. destruct (r_heap r !! p) as [t0|] eqn:E0; [|by eauto 10]. cbv zeta.
  destruct (HTTPPort t0 =? 0), (RESPPort t0 =? 0); cbn; (split; [done|]; split; [apply length_insert|]); intros q t Hq;
    (destruct (decide (p = q)) as [<-|Hne]; [rewrite list_lookup_insert_eq by (by eapply lookup_lt_Some); rewrite E0 in Hq; injection Hq as <-; by eauto 10|
     rewrite list_lookup_insert_ne by done; by eauto 10]).
Qed.

Lemma adopts_spec ps : ∀ r,
  r_tenants (foldl adopt r ps) = r_tenants r ∧
  ∀ q t, r_heap r !! q = Some t → ∃ t', r_heap (foldl adopt r ps) !! q = Some t' ∧ ID t' = ID t ∧ DataDir t' = DataDir t ∧ Hibernated t' = Hibernated t.
Proof.
  induction ps as [|p ps IH]; intros r; cbn; [by eauto 10|]. destruct (adopt_spec r p) as (A1 & _ & A2). destruct (IH (adopt r p)) as [I1 I2]. split; [congruence|].
  intros q t Hq. destruct (A2 q t Hq) as (t1 & E1 & E2 & E3 & E4). destruct (I2 q t1 E1) as (t2 & F1 & F2 & F3 & F4). exists t2. split; [done|]. split_and!; congruence.
Qed.

Lemma zip_table l : NoDup (map fst l) → ∀ p id (t : Tenant), l !! p = Some (id, t) →
  (list_to_map (zip (map fst l) (List.seq 0 (length l))) : gmap string nat) !! id = Some p.
Proof.
  intros Hnd p id t Hp. apply elem_of_list_to_map_1.
  - rewrite fst_zip; [done|]. by rewrite length_map, length_seq.
  - apply (list_elem_of_lookup_2 _ p). apply lookup_zip_with_Some. exists id, p. split; [done|]. split.
    + change (map fst l) with (fst <$> l). by rewrite list_lookup_fmap, Hp.
    + apply lookup_seq. split; [done|]. by apply lookup_lt_Some in Hp.
Qed.

Lemma load_ok l : well_keyed l → heap_ok (load_registry l) ∧ Forall (pointer_ok (load_registry l)) (List.seq 0 (length l)).
Proof.
  intros [Hnd Hid]. unfold load_registry. set (r := with_table _ _). destruct (adopts_spec (List.seq 0 (length l)) r) as [A1 A2].
  assert (Hheap : ∀ p id t, l !! p = Some (id, t) → r_heap r !! p = Some t ∧ ID t = id).
  { intros p id t Hp. split; [|by apply (Forall_lookup_1 _ _ _ _ Hid Hp)]. cbn. change (map snd l) with (snd <$> l). by rewrite list_lookup_fmap, Hp. }
  assert (Hptr : ∀ p id t, l !! p = Some (id, t) → pointer_ok (foldl adopt r (List.seq 0 (length l))) p).
  { intros p id t Hp. destruct (Hheap p id t Hp) as [H1 H2]. destruct (A2 p t H1) as (t' & E1 & E2 & _). exists t'. split; [done|]. rewrite A1, E2, H2.
    by eapply zip_table. }
  split.
  - intros id p Hp. rewrite A1 in Hp. cbn in Hp. apply elem_of_list_to_map_2, list_elem_of_lookup in Hp as (i & Hi).
    apply lookup_zip_with_Some in Hi as (id' & p' & [= <- <-] & Hi1 & Hi2). apply lookup_seq in Hi2 as [-> Hlt].
    change (map fst l) with (fst <$> l) in Hi1. rewrite list_lookup_fmap in Hi1. destruct (l !! i) as [[id' t]|] eqn:El; [|done]. cbn in Hi1. injection Hi1 as ->.
    destruct (Hheap i id t El) as [H1 H2]. destruct (A2 i t H1) as (t' & E1 & E2 & _). exists t'. split; [done|congruence].
  - apply Forall_forall. intros p Hp. rewrite list_elem_of_In, in_seq in Hp. destruct (lookup_lt_is_Some_2 l p) as ([id t] & Ht); [lia|]. by eapply Hptr.
Qed.

Lemma new_manager_ok strict n o file m :
  n_budget n ≤ MaxInt64 → (∀ l, file = StateFile.Loaded l → well_keyed l) → NewManager n o file = Ok m → ok strict m ∧ m_node m = n.
Proof.
  intros Hmax Hk. unfold NewManager. set (l := if file is StateFile.Loaded l then l else []).
  assert (Hl : well_keyed l) by (unfold l; destruct file; [by apply Hk|split; constructor|split; constructor]).
  destruct (load_ok l Hl) as [L1 L2]. intros E.
  set (m0 := {| m_node := n; m_reg := load_registry l; m_run := empty_runtime; m_out := o |}).
  set (start := λ m p, if r_heap (m_reg m) !! p is Some t then if Hibernated t then m else start_quietly p m else m).
  assert (Hm : ∃ ps qs, Forall (pointer_ok (load_registry l)) (ps ++ qs) ∧ m = foldl start (foldl start m0 ps) qs).
  { set (isr := λ p, if r_heap (load_registry l) !! p is Some t then bool_decide (Role t = "replica"%string) else false).
    exists (List.filter (λ p, negb (isr p)) (List.seq 0 (length l))), (List.filter isr (List.seq 0 (length l))). split.
    - apply Forall_app. split; apply Forall_forall; intros p Hp; rewrite list_elem_of_In, filter_In in Hp; rewrite Forall_forall in L2; apply L2; rewrite list_elem_of_In; apply Hp.
    - destruct file; [by injection E as <-..|done]. }
  destruct Hm as (ps & qs & HF & ->). rewrite <- foldl_app.
  assert (H0 : ok strict m0).
  { split; cbn; [done|..].
    - intros id h [H|H]; cbn in H; by rewrite lookup_empty in H.
    - intros id1 id2 h [H|H]; cbn in H; by rewrite lookup_empty in H.
    - intros id h H. by rewrite lookup_empty in H.
    - intros _ h e H. by rewrite lookup_nil in H.
    - split; [apply map_Forall_empty|]. rewrite map_size_empty. unfold tenant_quota. lia. }
  assert (Hgen : ∀ l0 m1, ok strict m1 → m_node m1 = n → m_reg m1 = load_registry l → Forall (pointer_ok (load_registry l)) l0 → ok strict (foldl start m1 l0) ∧ m_node (foldl start m1 l0) = n).
  { induction l0 as [|p l0 IH]; intros m1 Ho Hn Hr HF1; cbn; [done|]. apply Forall_cons in HF1 as [Hp HF1]. unfold start at 2 4.
    destruct (r_heap (m_reg m1) !! p) as [t|]; [|by apply IH]. destruct (Hibernated t); [by apply IH|].
    destruct (start_ok strict p m1) as [S1 [S2 S3]]; [by rewrite Hn|done|by rewrite Hr|]. apply IH; [done|congruence|congruence|done]. }
  by apply Hgen.
Qed.

(** ** The theorem *)
(** Tenants are woken only when they are hibernated, and a replica is promoted
    only for a tenant that is awake. *)
Definition careful (m : Manager) (o : op) : Prop :=
  match o with
  | OWake _ b => b = true
  | OPromote id => ∀ t p, tenant (m_reg m) id = Some t → tenant (m_reg m) (ReplicaOf t) = Some p → Hibernated p = false
  | _ => True
  end.
Fixpoint all_careful (m : Manager) (ops : list op) : Prop :=
  match ops with [] => True | o :: ops => careful m o ∧ all_careful (run_op m o) ops end.

Lemma poll_ok strict h m : ok strict m → ok strict (poll_acl h m) ∧ m_node (poll_acl h m) = m_node m.
Proof.
  intros Hok. unfold poll_acl. destruct (engines (m_run m) !! h) as [e|]; [|done]. destruct (o_acl (m_out m) !! _) as [file|]; [|done].
  destruct (e_live e); [|done]. destruct (ask_frame m) as (A1 & A2 & A3). destruct (ask m) as [newer m1]. cbn [snd] in *.
  assert (H1 : ok strict m1) by (by eapply ok_frame). destruct newer; [|done]. split; [|done].
  apply inv_engine; [done|]. exact H1.
Qed.

Lemma run_op_ok strict m o :
  n_budget (m_node m) ≤ MaxInt64 → (strict = true → careful m o) → ok strict m → ok strict (run_op m o) ∧ m_node (run_op m o) = m_node m.
Proof.
  intros Hmax Hc Hok. destruct o; cbn [run_op].
  - pose proof (provision_ok strict id name replicas encoding m Hmax Hok) as Hp. destruct (ProvisionWith Local id name replicas encoding m) as [r m1].
    destruct Hp as (H1 & H2 & H3). destruct r as [[|p ps]|e|]; [done| |done|done]. split; [apply replica_set_ok; [by rewrite H2|done|done]|].
    unfold startReplicaSet. apply Forall_cons in H3 as [(t & Hp & Ht) HF]. destruct (StartTenant_ok strict p t m1) as [S1 [S2 S3]]; [by rewrite H2|done|done|done|].
    destruct (StartTenant p m1) as [[] m2]; cbn [snd] in *; [|congruence|congruence].
    destruct (starts_ok strict ps m2) as [_ [S4 _]]; [by rewrite S2, H2|done|by rewrite S3|]. congruence.
  - by apply delete_ok.
  - by apply hibernate_ok.
  - apply wake_ok; [done|exact Hc|done].
  - by apply restore_ok.
  - apply promote_ok; [done|done|exact Hc].
  - by apply supervise_ok.
  - destruct (r_tenants (m_reg m) !! id) as [p|] eqn:Ep; [|done]. destruct (start_ok strict p m) as [H1 [H2 _]]; [done|done|by eapply table_pointer; [apply Hok|]|done].
  - by apply create_key_ok.
  - by apply revoke_key_ok.
  - by apply stopall_ok.
  - by apply poll_ok.
  - done.
Qed.

Lemma run_ops_ok strict ops : ∀ m, n_budget (m_node m) ≤ MaxInt64 → (strict = true → all_careful m ops) → ok strict m → ok strict (foldl run_op m ops) ∧ m_node (foldl run_op m ops) = m_node m.
Proof.
  induction ops as [|o ops IH]; intros m Hmax Hc Hok; cbn; [done|]. destruct (run_op_ok strict m o) as [H1 H2]; [done|intros Hs; apply (Hc Hs)|done|].
  destruct (IH (run_op m o)) as [I1 I2]; [by rewrite H2|intros Hs; apply (Hc Hs)|done|]. split; [done|congruence].
Qed.

(** C9: start the orchestrator on a saved state or on none and run
    any sequence of provisioning, deletion, hibernation, waking, restoration,
    failover, engine failures, key changes, polls of the ACL files and shutdown, each
    one to its end with the goroutine it spawns before the next one begins, with any
    of their calls failing. Interleavings of the critical sections of these
    operations, and commands that arrive through Raft, are not covered. Every engine
    in the tables is live and serves the directory of the
    tenant it is registered for; no engine is registered for two tenants, no
    tenant has two engines; and the admitted quotas stay within 70% of the memory
    of the node. When tenants are woken only out of hibernation and failover is
    only of tenants that are awake, no live engine is lost: each one is
    registered, for a tenant that is awake. *)
Theorem engines_served n o file m0 ops :
  n_budget n ≤ MaxInt64 → (∀ l, file = StateFile.Loaded l → well_keyed l) → NewManager n o file = Ok m0 →
  let m := foldl run_op m0 ops in
  let run := m_run m in
  (∀ id h, registered run id h → ∃ t e, tenant (m_reg m) id = Some t ∧ engines run !! h = Some e ∧ e_live e = true ∧ dir_of (e_cfg e) = DataDir t) ∧
  (∀ id1 id2 h, registered run id1 h → registered run id2 h → id1 = id2) ∧
  (∀ id h1 h2, registered run id h1 → registered run id h2 → h1 = h2) ∧
  (0 < n_budget n → 100 * (Z.of_nat (size (tenantQuotas run)) * tenant_quota) ≤ 70 * n_budget n) ∧
  (all_careful m0 ops → ∀ h e, engines run !! h = Some e →
     e_live e = true ↔ ∃ id t, registered run id h ∧ tenant (m_reg m) id = Some t ∧ Hibernated t = false).
Proof.
  intros Hmax Hk Hnew m run. destruct (new_manager_ok false n o file m0 Hmax Hk Hnew) as [H0 Hn].
  destruct (run_ops_ok false ops m0) as [[I1 I2 I3 I4 I5 [I6 I7]] Hn']; [by rewrite Hn|done|done|]. fold m in I1, I2, I3, I4, I5, I6, I7, Hn'. fold run in I2, I3, I4, I5, I6, I7.
  split; [|split; [done|split; [|split]]].
  - intros id h Hr. destruct (I2 id h Hr) as (t & e & E1 & E2 & E3 & E4 & _). by exists t, e.
  - intros id h1 h2 [H1|H1] [H2|H2]; [congruence|by rewrite (I4 _ _ H1) in H2|by rewrite (I4 _ _ H2) in H1|congruence].
  - rewrite Hn', Hn in I7. exact I7.
  - intros Hc h e He. destruct (new_manager_ok true n o file m0 Hmax Hk Hnew) as [H0' _].
    destruct (run_ops_ok true ops m0) as [[J1 J2 J3 J4 J5 _] _]; [by rewrite Hn|done|done|]. fold m in J1, J2, J3, J4, J5. fold run in J2, J3, J4, J5. split.
    + intros Hl. destruct (J5 eq_refl h e He Hl) as (id & Hr). destruct (J2 id h Hr) as (t & _ & E1 & _ & _ & _ & E5). exists id, t. auto.
    + intros (id & t & Hr & _). destruct (J2 id h Hr) as (_ & e' & _ & E2 & E3 & _). congruence.
Qed.

(** Two replicas, a failover, a failed save and a crash of the new primary. *)
Definition demo_ops : list op :=
  [OProvision "acme" "Acme" 2 ""; OPromote "acme-r1"; OAnswers [false]; ODelete "acme-r2" false; OFail false 1; OHibernate "acme"].

Lemma engines_served_witness :
  NewManager demo_node demo_out StateFile.NotExist = Ok demo_manager ∧
  let run := m_run (foldl run_op demo_manager demo_ops) in
  length (engines run) = 6%nat ∧ registered run "acme-r1" 3 ∧
  (∀ id h, registered run id h → ∃ t e, tenant (m_reg (foldl run_op demo_manager demo_ops)) id = Some t ∧ engines run !! h = Some e ∧ e_live e = true ∧ dir_of (e_cfg e) = DataDir t) ∧
  100 * (Z.of_nat (size (tenantQuotas run)) * tenant_quota) ≤ 70 * n_budget demo_node.
Proof.
  assert (E : NewManager demo_node demo_out StateFile.NotExist = Ok demo_manager) by reflexivity.
  assert (Hb : n_budget demo_node ≤ MaxInt64) by (vm_compute; discriminate).
  assert (Hk : ∀ l, @StateFile.NotExist (list (string * Tenant)) = StateFile.Loaded l → well_keyed l) by discriminate.
  destruct (engines_served demo_node demo_out StateFile.NotExist demo_manager demo_ops Hb Hk E) as (H1 & _ & _ & H4 & _).
  split; [exact E|]. split; [vm_compute; reflexivity|]. split; [left; vm_compute; reflexivity|]. split; [exact H1|]. apply H4. vm_compute. reflexivity.
Defined.
