(* ===== verification/OrchestratorPorts.v ===== *)
(** * Ports of tenants ([Orchestrator])

    [ProvisionWith] gives up its lock between choosing ports and entering the
    tenants in the table. Here every operation of the manager interleaves with
    any number of provisionings that are between the two: no two tenants ever
    share a port of one kind. *)

From S2P Require Import Prelude GoStd RESP Commands Auth Isolation Orchestrator OrchestratorCorrect.
From S2P Require Config StateFile.
Open Scope Z_scope.

(** ** What starting leaves alone *)
Lemma asked_frame e m k : (∀ m1, same_place m m1 → same_place m (snd (k m1))) → same_place m (snd (asked e m k)).
Proof. intros H. destruct (asked_case e m k) as [(m1 & S & _ & ->)|(m1 & S & _ & ->)]; [by apply H|done]. Qed.

Lemma launch_frame t cfg m m0 : same_place m0 m → same_place m0 (snd (launch t cfg m)).
Proof.
  intros S. unfold launch. cbv zeta. destruct (Process _).
  - eapply same_trans; [exact S|]. apply asked_frame. intros m1 S1. exact S1.
  - eapply same_trans; [exact S|]. apply asked_frame. intros m1 S1. destruct (bool_decide _); [exact S1|].
    eapply same_trans; [exact S1|]. apply asked_frame. intros m2 S2. exact S2.
Qed.

Lemma bring_up_frame t m : same_place m (snd (bring_up t m)).
Proof.
  unfold bring_up. apply asked_frame. intros m1 S1.
  set (m2 := with_out m1 _). assert (S2 : same_place m m2) by exact S1. clearbody m2. clear m1 S1.
  assert (Hk : ∀ (k : Manager → res string unit * Manager), (∀ m3, same_place m m3 → same_place m (snd (k m3))) →
    same_place m (snd ((if p_Encryption (n_profile (m_node m2)) then asked "tenant key" m2 else λ k, k m2) k))).
  { intros k H. destruct (p_Encryption _); [|by apply H]. eapply same_trans; [exact S2|]. apply asked_frame. intros m3 S3.
    assert (S' : same_place m m3) by (by eapply same_trans). pose proof (H m3 S') as [E1 E2]. destruct S2 as [F1 F2]. split; congruence. }
  apply Hk. intros m3 S3. destruct (repl_roles _ _ t) as [[role la] pa].
  set (x := if bool_decide (role = ""%string) then _ else _). assert (Hx : same_place m (snd x)).
  { unfold x. destruct (bool_decide _); [done|]. destruct (replicationToken_frame (replicationGroup t) m3) as (A1 & A2 & _).
    destruct S3. unfold same_place. by rewrite A1, A2. }
  clearbody x. destruct x as [[token|] m4]; cbn [snd] in Hx; [|done].
  destruct (Config.ApplyReplication _ role la pa token) as [cfg|e|]; [|done|done].
  destruct (ask_frame m4) as (B1 & B2 & _). destruct (ask m4) as [wrote m5]. cbn [snd] in *.
  set (m6 := if wrote then _ else _). assert (S6 : same_place m m6) by (unfold m6, same_place; destruct Hx, wrote; cbn; by rewrite B1, B2). clearbody m6.
  destruct (writeUsersACL_frame (DataDir t) (collectTenantUsers (m_reg m6) t) m6) as (C1 & C2 & _). destruct (writeUsersACL _ _ m6) as [okw m7]. cbn [snd] in *.
  assert (S7 : same_place m m7) by (destruct S6; unfold same_place; by rewrite C1, C2). destruct (negb okw); [done|].
  destruct (Config.ParseBytes _) as [quota|e|]; [|done|done]. destruct (reserve_frame (ID t) quota m7) as (F1 & F2 & _).
  destruct (reserve_quota (ID t) quota m7) as [r m8]. cbn [snd] in *. assert (S8 : same_place m m8) by (destruct S7; unfold same_place; by rewrite F1, F2).
  destruct r; [by apply launch_frame|done|done].
Qed.

Lemma StartTenant_frame p m : same_place m (snd (StartTenant p m)).
Proof.
  unfold StartTenant. destruct (r_heap (m_reg m) !! p) as [t|]; [|done]. destruct (Hibernated t); [done|]. destruct (_ || _); [done|].
  set (m1 := with_run m _). pose proof (bring_up_frame t m1) as [B1 B2]. destruct (bring_up t m1) as [r m2]. exact (conj B1 B2).
Qed.

Lemma starts_frame ps : ∀ m, same_place m (foldl (λ m p, start_quietly p m) m ps).
Proof. induction ps as [|p ps IH]; intros m; cbn; [done|]. eapply same_trans; [apply (StartTenant_frame p m)|apply IH]. Qed.

(** ** Carrying ports over *)
(** The tenants of [r'] have the ports that the tenants of [r] had, perhaps under
    another name. *)
Definition carried (r r' : Registry) : Prop :=
  heap_ok r → heap_ok r' ∧ nextHTTPPort r' = nextHTTPPort r ∧ nextRESPPort r' = nextRESPPort r ∧ nextReplPort r' = nextReplPort r ∧
  ∃ σ : string → string, (∀ x y, σ x = σ y → x = y) ∧
    ∀ id t', tenant r' id = Some t' → ∃ t, tenant r (σ id) = Some t ∧ HTTPPort t' = HTTPPort t ∧ RESPPort t' = RESPPort t ∧ ReplicationPort t' = ReplicationPort t.

Lemma carried_refl r : carried r r.
Proof. intros H. split; [done|]. do 3 (split; [done|]). exists (λ x, x). by eauto 10. Qed.

Lemma carried_trans r1 r2 r3 : carried r1 r2 → carried r2 r3 → carried r1 r3.
Proof.
  intros H12 H23 H. destruct (H12 H) as (G1 & A1 & A2 & A3 & s & Hs & Ht). destruct (H23 G1) as (G2 & B1 & B2 & B3 & u & Hu & Hv).
  split; [done|]. do 3 (split; [congruence|]). exists (λ x, s (u x)). split; [auto|]. intros id t3 E3.
  destruct (Hv id t3 E3) as (t2 & E2 & C1 & C2 & C3). destruct (Ht (u id) t2 E2) as (t1 & E1 & D1 & D2 & D3). exists t1. split; [done|]. split_and!; congruence.
Qed.

Lemma carried_same m m' : same_place m m' → carried (m_reg m) (m_reg m').
Proof. intros [_ ->]. apply carried_refl. Qed.

Lemma carried_set r p t t' :
  r_tenants r !! ID t = Some p → tenant r (ID t) = Some t → ID t' = ID t → HTTPPort t' = HTTPPort t → RESPPort t' = RESPPort t →
  ReplicationPort t' = ReplicationPort t → carried r (set_tenant p t' r).
Proof.
  intros Hp Ht Hid H1 H2 H3 H. split; [apply heap_ok_set; [done|by rewrite Hid]|]. do 3 (split; [done|]). exists (λ x, x). split; [done|].
  intros id x. rewrite tenant_set by (done || by rewrite Hid). rewrite Hid. destruct (decide (id = ID t)) as [->|]; [|by eauto 10].
  intros [= <-]. exists t. auto.
Qed.

Lemma carried_delete r id : carried r (with_table r (delete id (r_tenants r))).
Proof.
  intros H. destruct (table_delete r id H) as [H1 H2]. split; [done|]. do 3 (split; [done|]). exists (λ x, x). split; [done|].
  intros x t'. rewrite H2. destruct (decide (x = id)); [done|]. by eauto 10.
Qed.

Lemma carried_exchange r pp rp a b :
  r_tenants r !! ID a = Some pp → r_tenants r !! ID b = Some rp → tenant r (ID a) = Some a → tenant r (ID b) = Some b →
  carried r (set_tenant rp (take_place b a) (set_tenant pp (take_place a b) r)).
Proof.
  intros Ha Hb Ta Tb H. destruct (exchanged_tenants r pp rp a b H Ha Hb Ta Tb) as (H1 & _ & H3). split; [done|]. do 3 (split; [done|]).
  exists (λ x, if decide (x = ID b) then ID a else if decide (x = ID a) then ID b else x). split.
  - intros x y. repeat destruct (decide _); congruence.
  - intros x t'. rewrite H3. destruct (decide (x = ID b)) as [->|]; [intros [= <-]; by exists a|].
    destruct (decide (x = ID a)) as [->|]; [intros [= <-]; by exists b|]. by eauto 10.
Qed.

Lemma carried_heap r r' : carried r r' → heap_ok r → heap_ok r'.
Proof. intros H Hr. by apply H. Qed.

Lemma save_carried r m : carried r (m_reg m) → carried r (m_reg (snd (saveState m))).
Proof. by rewrite (proj1 (proj2 (saveState_frame m))). Qed.

(** ** Each operation *)
Lemma remove_carried t purge m : carried (m_reg m) (m_reg (snd (removeTenant t purge m))).
Proof.
  unfold removeTenant. destruct (saveState_frame (drop_tenant (ID t) m)) as (_ & F2 & _). destruct (saveState _) as [saved m1]. cbn [snd] in *.
  set (m2 := stop _ (stop _ m1)). assert (E2 : m_reg m2 = m_reg m1) by (unfold m2; by destruct (stopped_run (instances (m_run m) !! ID t) (workers (m_run m) !! ID t) m1) as (_ & -> & _)).
  assert (H2 : carried (m_reg m) (m_reg m2)) by (rewrite E2, F2; apply carried_delete). clearbody m2.
  destruct (negb saved); [done|]. destruct (negb purge); [done|]. cbv zeta.
  eapply carried_trans; [exact H2|]. apply carried_same. apply asked_frame. intros m3 S3. eapply same_trans; [exact S3|].
  match goal with |- same_place m3 (snd (asked ?e ?m4 ?k)) => change (same_place m4 (snd (asked e m4 k))) end. by apply asked_frame.
Qed.

Lemma remove_all_carried l purge : ∀ m, carried (m_reg m) (m_reg (snd (remove_all l purge m))).
Proof.
  induction l as [|t l IH]; intros m; cbn; [apply carried_refl|]. pose proof (remove_carried t purge m) as H1.
  destruct (removeTenant t purge m) as [[] m1]; cbn [snd] in *; [|done|done]. eapply carried_trans; [exact H1|apply IH].
Qed.

Lemma carried_if r r' : (heap_ok r → carried r r') → carried r r'.
Proof. intros H Hh. by apply (H Hh). Qed.

Lemma delete_carried id purge m : carried (m_reg m) (m_reg (snd (deleteTenant id purge m))).
Proof.
  unfold deleteTenant. destruct (tenant (m_reg m) id) as [t|]; [|apply carried_refl].
  pose proof (remove_all_carried (set_members (m_reg m) t) purge m) as H1. destruct (remove_all _ purge m) as [[] m1]; cbn [snd] in *; [|done|done].
  pose proof (remove_carried t purge m1) as H2. destruct (removeTenant t purge m1) as [[] m2]; cbn [snd] in *; [|by eapply carried_trans|by eapply carried_trans].
  assert (H12 : carried (m_reg m) (m_reg m2)) by (by eapply carried_trans). case_bool_decide; [done|].
  destruct (r_tenants (m_reg m2) !! ReplicaOf t) as [p|] eqn:Ep; [|done]. destruct (tenant (m_reg m2) (ReplicaOf t)) as [q|] eqn:Eq; [|done].
  apply carried_if. intros Hh. assert (Hh2 : heap_ok (m_reg m2)) by (by apply H12). destruct (looked_up m2 _ _ _ Hh2 Ep Eq) as [Eid _].
  set (m3 := with_reg m2 _). assert (H3 : carried (m_reg m) (m_reg m3)).
  { eapply carried_trans; [exact H12|]. apply (carried_set _ p q); by rewrite ?Eid. }
  apply save_carried in H3. destruct (saveState m3) as [[] m4]; exact H3.
Qed.

Lemma hibernate_carried id m : carried (m_reg m) (m_reg (snd (HibernateTenant id m))).
Proof.
  unfold HibernateTenant. destruct (r_tenants (m_reg m) !! id) as [p|] eqn:Ep; [|apply carried_refl]. destruct (tenant (m_reg m) id) as [t|] eqn:Et; [|apply carried_refl].
  case_bool_decide; [apply carried_refl|]. apply carried_if. intros Hh. destruct (looked_up m _ _ _ Hh Ep Et) as [Eid _].
  set (m1 := with_run _ _). destruct (saveState_frame m1) as (_ & F2 & _). destruct (saveState m1) as [[] m2]; cbn [snd] in *.
  - destruct (stopped_run (instances (m_run m) !! id) (workers (m_run m) !! id) m2) as (_ & -> & _). rewrite F2. apply (carried_set _ p t); by rewrite ?Eid.
  - cbn [m_reg with_run with_reg]. rewrite F2. cbn [m_reg with_run with_reg m1]. rewrite set_set. apply (carried_set _ p t); by rewrite ?Eid.
Qed.

Lemma wake_carried id b m : carried (m_reg m) (m_reg (snd (wakeTenant id b m))).
Proof.
  unfold wakeTenant. destruct (r_tenants (m_reg m) !! id) as [p|] eqn:Ep; [|apply carried_refl]. destruct (tenant (m_reg m) id) as [t|] eqn:Et; [|apply carried_refl].
  destruct (_ && _); [apply carried_refl|]. apply carried_if. intros Hh. destruct (looked_up m _ _ _ Hh Ep Et) as [Eid _].
  set (m1 := with_reg m _). destruct (saveState_frame m1) as (_ & F2 & _). destruct (saveState m1) as [[] m2]; cbn [snd] in *.
  - rewrite (proj2 (StartTenant_frame p m2)), F2. apply (carried_set _ p t); by rewrite ?Eid.
  - cbn [m_reg with_reg]. rewrite F2. cbn [m_reg with_reg m1]. rewrite set_set. apply (carried_set _ p t); by rewrite ?Eid.
Qed.

Lemma restore_carried id m : carried (m_reg m) (m_reg (snd (RestoreTenant id m))).
Proof.
  apply carried_same. unfold RestoreTenant. destruct (r_tenants (m_reg m) !! id) as [p|]; [|done]. destruct (tenant (m_reg m) id) as [t|]; [|done].
  set (m1 := stop _ _). assert (S1 : same_place m m1).
  { unfold m1. destruct (stopped_run (instances (m_run m) !! id) (workers (m_run m) !! id) (with_run m (drop_engines id (m_run m)))) as (S1 & S2 & _).
    unfold same_place. by rewrite S1, S2. }
  clearbody m1. eapply same_trans; [exact S1|]. apply asked_frame. intros m2 S2.
  assert (Hask : ∀ m', same_place m1 m' → same_place m1 (snd (ask m'))).
  { intros m' [E1 E2]. destruct (ask_frame m') as (A1 & A2 & _). unfold same_place. by rewrite A1, A2. }
  assert (Hst : ∀ m', same_place m1 m' → same_place m1 (start_quietly p m')) by (intros m' S; eapply same_trans; [exact S|apply StartTenant_frame]).
  pose proof (Hask m2 S2) as S3. destruct (ask m2) as [[] m3]; cbn [snd negb] in *; [|by apply Hst].
  pose proof (Hask m3 S3) as S4. destruct (ask m3) as [[] m4]; cbn [snd negb] in *; [|by apply Hst].
  pose proof (Hask m4 S4) as S5. destruct (ask m4) as [[] m5]; cbn [snd negb] in *; [|by apply Hst].
  pose proof (Hst m5 S5) as S6. unfold start_quietly in S6. destruct (StartTenant p m5) as [[] m6]; cbn [snd] in *; [done|by apply Hst|by apply Hst].
Qed.

Lemma sync_frame t m : same_place m (syncTenantACL t m).
Proof.
  unfold syncTenantACL. generalize (t :: set_members (m_reg m) t). intros l. revert m. induction l as [|x l IH]; intros m; cbn; [done|].
  eapply same_trans; [|apply IH]. unfold sync_one. destruct (writeUsersACL_frame (DataDir x) (collectTenantUsers (m_reg m) x) m) as (A1 & A2 & _).
  destruct (writeUsersACL _ _ m) as [[] m1]; cbn [snd] in *; [|by split]. destruct (workers (m_run m1) !! ID x); [|by split].
  destruct (ask_frame m1) as (B1 & B2 & _). destruct (ask m1) as [[] m2]; cbn [snd] in *; split; cbn; congruence.
Qed.

Lemma create_carried encode random now id name role patterns m :
  carried (m_reg m) (m_reg (snd (CreateTenantKey encode random now id name role patterns m))).
Proof.
  unfold CreateTenantKey. case_bool_decide; [apply carried_refl|]. case_bool_decide; [apply carried_refl|]. destruct random as [[ib sb]|]; [|apply carried_refl]. cbv zeta.
  destruct (r_tenants (m_reg m) !! id) as [p|] eqn:Ep; [|apply carried_refl]. destruct (tenant (m_reg m) id) as [t|] eqn:Et; [|apply carried_refl].
  apply carried_if. intros Hh. destruct (looked_up m _ _ _ Hh Ep Et) as [Eid _]. set (t1 := set_Keys _ t). set (m1 := with_reg m _).
  destruct (saveState_frame m1) as (_ & F2 & _). destruct (saveState m1) as [[] m2]; cbn [snd negb] in *.
  - assert (H2 : carried (m_reg m) (m_reg m2)) by (rewrite F2; apply (carried_set _ p t); by rewrite ?Eid).
    destruct (instances (m_run m2) !! id); cbn [m_reg upd_engine with_run]; rewrite (proj2 (sync_frame t1 m2)); exact H2.
  - cbn [m_reg with_reg]. rewrite F2. cbn [m_reg with_reg m1]. rewrite set_set. apply (carried_set _ p t); by rewrite ?Eid.
Qed.

Lemma revoke_carried id key m : carried (m_reg m) (m_reg (snd (RevokeTenantKey id key m))).
Proof.
  unfold RevokeTenantKey. destruct (r_tenants (m_reg m) !! id) as [p|] eqn:Ep; [|apply carried_refl]. destruct (tenant (m_reg m) id) as [t|] eqn:Et; [|apply carried_refl].
  destruct (Keys t !! key) as [k|]; [|apply carried_refl].
  apply carried_if. intros Hh. destruct (looked_up m _ _ _ Hh Ep Et) as [Eid _]. cbv zeta. set (t1 := set_Keys _ t). set (m1 := with_reg m _).
  destruct (saveState_frame m1) as (_ & F2 & _). destruct (saveState m1) as [[] m2]; cbn [snd negb] in *.
  - assert (H2 : carried (m_reg m) (m_reg m2)) by (rewrite F2; apply (carried_set _ p t); by rewrite ?Eid).
    destruct (instances (m_run m2) !! id); cbn [m_reg upd_engine with_run]; rewrite (proj2 (sync_frame t1 m2)); exact H2.
  - cbn [m_reg with_reg]. rewrite F2. cbn [m_reg with_reg m1]. rewrite set_set. apply (carried_set _ p t); by rewrite ?Eid.
Qed.

Lemma supervise_frame worker h m : same_place m (supervise worker h m).
Proof.
  unfold supervise. cbv zeta. destruct (owner_of _ _) as [id|]; [|done]. cbn [m_reg with_run].
  destruct (r_tenants (m_reg m) !! id) as [p|]; [|done]. destruct (tenant (m_reg m) id) as [t|]; [|done]. destruct (Hibernated t); [done|].
  set (m1 := stop _ _). assert (S1 : same_place m m1) by done. clearbody m1. destruct (_ >? 3); [done|]. eapply same_trans; [exact S1|apply StartTenant_frame].
Qed.

Lemma become_frame h la m : same_place m (snd (BecomePrimary h la m)).
Proof.
  unfold BecomePrimary. destruct (engines (m_run m) !! h) as [e|]; [|done]. set (x := if e_worker e then ask m else (true, m)).
  assert (Hx : same_place m (snd x)) by (unfold x; destruct (e_worker e); [|done]; destruct (ask_frame m) as (A1 & A2 & _); by split).
  clearbody x. destruct x as [reached m1]. cbn [snd] in Hx. destruct (negb reached); [done|]. destruct (e_stream e); [exact Hx|].
  destruct (ask_frame m1) as (A1 & A2 & _). destruct (ask m1) as [[] m2]; cbn [snd] in *; destruct Hx; split; cbn; congruence.
Qed.

Lemma promoted_config_frame t la m : same_place m (writePromotedEngineConfig t la m).
Proof.
  unfold writePromotedEngineConfig. cbv zeta. destruct (replicationToken_frame (ID t) m) as (A1 & A2 & _). destruct (replicationToken (ID t) m) as [[token|] m1]; cbn [snd] in *; [|by split].
  destruct (Config.ApplyReplication _ _ _ _ _); [|by split|by split]. destruct (ask_frame m1) as (B1 & B2 & _). destruct (ask m1) as [[] m2]; cbn [snd] in *; split; cbn; congruence.
Qed.

Lemma finish_frame pp rp others ri rw m : same_place m (snd (finish_promotion pp rp others ri rw m)).
Proof.
  unfold finish_promotion. destruct (r_heap (m_reg m) !! pp) as [t|]; [|done]. cbv zeta. set (la := if UnixIPC _ then _ else _).
  assert (Hbec : ∀ h m', same_place m m' → same_place m (snd (if h is Some h then BecomePrimary h la m' else (true, m')))).
  { intros [h|] m' S; [|done]. eapply same_trans; [exact S|apply become_frame]. }
  assert (S0 : same_place m m) by done.
  pose proof (Hbec ri m S0) as S1. destruct (if ri is Some h then BecomePrimary h la m else (true, m)) as [ok1 m1]. cbn [snd] in S1. destruct (negb ok1); [done|].
  pose proof (Hbec rw m1 S1) as S2. destruct (if rw is Some h then BecomePrimary h la m1 else (true, m1)) as [ok2 m2]. cbn [snd] in S2. destruct (negb ok2); [done|].
  assert (S3 : same_place m (writePromotedEngineConfig t la m2)) by (eapply same_trans; [exact S2|apply promoted_config_frame]).
  set (x := if _ || _ then _ else _). assert (Sx : same_place m (snd x)).
  { unfold x. destruct (_ || _); [done|]. eapply same_trans; [exact S3|apply StartTenant_frame]. }
  clearbody x. destruct x as [[] m4]; cbn [snd] in *; [|done|done]. eapply same_trans; [exact Sx|apply (starts_frame (rp :: others))].
Qed.

Lemma promote_carried id m : carried (m_reg m) (m_reg (snd (promoteLocal id m))).
Proof.
  unfold promoteLocal. cbv zeta. destruct (r_tenants (m_reg m) !! id) as [rp|] eqn:Erp; [|apply carried_refl]. destruct (tenant (m_reg m) id) as [replica|] eqn:Er; [|apply carried_refl].
  destruct (_ || _); [apply carried_refl|]. destruct (r_tenants (m_reg m) !! ReplicaOf replica) as [pp|] eqn:Epp; [|apply carried_refl].
  destruct (tenant (m_reg m) (ReplicaOf replica)) as [primary|] eqn:Ep; [|apply carried_refl]. apply carried_if. intros Hh.
  destruct (looked_up m _ _ _ Hh Erp Er) as [Ir _]. destruct (looked_up m _ _ _ Hh Epp Ep) as [Ip _].
  set (others := List.filter _ _). set (stopped := [_; _] ++ _). set (m1 := exchange pp rp primary replica others m).
  destruct (saveState_frame m1) as (_ & F2 & _). destruct (saveState m1) as [saved m2]. cbn [snd] in *.
  destruct (exchange_frame pp rp primary replica others m) as (_ & X2 & _). fold m1 in X2. destruct (stop_all_spec stopped m2) as (_ & S2 & _).
  assert (H2 : carried (m_reg m) (m_reg (stop_all stopped m2))) by (rewrite S2, F2, X2; apply carried_exchange; by rewrite ?Ip, ?Ir).
  destruct (negb saved); [done|]. destruct (negb _); [done|]. eapply carried_trans; [exact H2|apply carried_same, finish_frame].
Qed.

(** ** Interleavings *)
(** A manager and the provisionings that have their ports but are not in the
    table. *)
Record World := { w_m : Manager; w_pending : list (Tenant * list Tenant) }.
Definition pending (w : World) : list Tenant := w_pending w ≫= λ x, x.1 :: x.2.

Inductive wstep (w : World) : World → Prop :=
| w_reserve id name rc enc e m1 primary replicas r :
    check_request id name rc enc = Ok e →
    (if rc >? 0 then replicationKey (w_m w) else (None, w_m w)) = (m1 : option (list byte) * Manager) →
    reserve (m_node (snd m1)) id name rc e (m_reg (snd m1)) = (Ok (primary, replicas), r) →
    wstep w {| w_m := with_reg (snd m1) r; w_pending := w_pending w ++ [(primary, replicas)] |}
| w_commit a primary replicas b :
    w_pending w = a ++ (primary, replicas) :: b →
    wstep w {| w_m := snd (commit primary replicas (w_m w)); w_pending := a ++ b |}
| w_abandon a x b : w_pending w = a ++ x :: b → wstep w {| w_m := w_m w; w_pending := a ++ b |}
| w_op o : (if o is OProvision _ _ _ _ then False else True) → wstep w {| w_m := run_op (w_m w) o; w_pending := w_pending w |}
| w_start p : wstep w {| w_m := start_quietly p (w_m w); w_pending := w_pending w |}.

Inductive wreach (w0 : World) : World → Prop :=
| wreach_refl : wreach w0 w0
| wreach_step w w' : wreach w0 w → wstep w w' → wreach w0 w'.

(** One kind of port: below the counter and, unless zero, nobody else's; [z] when
    every tenant has one. *)
Record port_inv (z : bool) (f : Tenant → Z) (nx : Z) (r : Registry) (l : list Tenant) : Prop := {
  p_pos : 0 < nx;
  p_below : ∀ id t, tenant r id = Some t → f t < nx ∧ (z = true → f t ≠ 0);
  p_below' : ∀ x, x ∈ l → f x < nx ∧ (z = true → f x ≠ 0);
  p_table : ∀ id1 id2 t1 t2, tenant r id1 = Some t1 → tenant r id2 = Some t2 → f t1 = f t2 → f t1 ≠ 0 → id1 = id2;
  p_mixed : ∀ id t x, tenant r id = Some t → x ∈ l → f t = f x → f t = 0;
  p_pending : ∀ i j x y, l !! i = Some x → l !! j = Some y → f x = f y → f x ≠ 0 → i = j
}.

Lemma port_carried z f r r' l nx :
  heap_ok r → carried r r' → (∀ t t', HTTPPort t' = HTTPPort t → RESPPort t' = RESPPort t → ReplicationPort t' = ReplicationPort t → f t' = f t) →
  port_inv z f nx r l → port_inv z f nx r' l.
Proof.
  intros Hh Hc Hf [P1 P2 P2' P3 P4 P5]. destruct (Hc Hh) as (_ & _ & _ & _ & s & Hs & Ht).
  assert (Hg : ∀ id t', tenant r' id = Some t' → ∃ t, tenant r (s id) = Some t ∧ f t' = f t).
  { intros id t' E. destruct (Ht id t' E) as (t & E1 & A1 & A2 & A3). exists t. auto. }
  split; [done| |done| | |done].
  - intros id t' E. destruct (Hg id t' E) as (t & E1 & ->). by eapply P2.
  - intros id1 id2 t1 t2 E1 E2. destruct (Hg id1 t1 E1) as (u1 & F1 & ->). destruct (Hg id2 t2 E2) as (u2 & F2 & ->). intros H1 H2. apply Hs. by eapply P3.
  - intros id t x E Hx. destruct (Hg id t E) as (u & F & ->). by eapply P4.
Qed.

(** New ports come from the counter, or there are none. *)
Definition fresh_ports (z : bool) (f : Tenant → Z) (nx nx' : Z) (new : list Tenant) : Prop :=
  (map f new = seqZ nx (zlen new) ∧ nx' = nx + zlen new) ∨ (z = false ∧ Forall (λ x, f x = 0) new ∧ nx' = nx).

Lemma port_reserve z f nx nx' r r' l new :
  (∀ id, tenant r' id = tenant r id) → fresh_ports z f nx nx' new → port_inv z f nx r l → port_inv z f nx' r' (l ++ new).
Proof.
  intros Ht Hn [P1 P2 P2' P3 P4 P5].
  assert (Hnew : ∀ i x, new !! i = Some x → f x < nx' ∧ (z = true → f x ≠ 0) ∧ (f x ≠ 0 → f x = nx + Z.of_nat i) ∧ nx ≤ nx').
  { intros i x Hx. destruct Hn as [[Hm ->]|(-> & HF & ->)].
    - assert (E : map f new !! i = Some (f x)) by (change (map f new) with (f <$> new); by rewrite list_lookup_fmap, Hx). rewrite Hm in E.
      apply lookup_seqZ in E as [-> Hlt]. unfold zlen in *. split_and!; lia.
    - rewrite (Forall_lookup_1 _ _ _ _ HF Hx). split_and!; [lia|done|done|lia]. }
  assert (Hle : nx ≤ nx') by (destruct Hn as [[_ ->]|(_ & _ & ->)]; pose proof (zlen_nonneg new); lia).
  split.
  - lia.
  - intros id t E. rewrite Ht in E. destruct (P2 id t E). split; [lia|done].
  - intros x [Hx|Hx]%elem_of_app; [destruct (P2' x Hx); split; [lia|done]|]. apply list_elem_of_lookup in Hx as (i & Hi). destruct (Hnew i x Hi) as (H1 & H2 & _). done.
  - intros id1 id2 t1 t2. rewrite !Ht. apply P3.
  - intros id t x E Hx. rewrite Ht in E. apply elem_of_app in Hx as [Hx|Hx]; [by eapply P4|]. apply list_elem_of_lookup in Hx as (i & Hi).
    destruct (Hnew i x Hi) as (_ & _ & H3 & _). destruct (P2 id t E). intros Heq. destruct (decide (f x = 0)); [congruence|]. specialize (H3 n). lia.
  - intros i j x y Hi Hj Heq Hnz. apply lookup_app_Some in Hi as [Hi|[Li Hi]], Hj as [Hj|[Lj Hj]].
    + by eapply P5.
    + destruct (Hnew _ _ Hj) as (_ & _ & H3 & _). destruct (P2' x) as [H4 _]; [by eapply list_elem_of_lookup_2|]. rewrite Heq in Hnz. specialize (H3 Hnz). lia.
    + destruct (Hnew _ _ Hi) as (_ & _ & H3 & _). destruct (P2' y) as [H4 _]; [by eapply list_elem_of_lookup_2|]. specialize (H3 Hnz). lia.
    + destruct (Hnew _ _ Hi) as (_ & _ & H3 & _). destruct (Hnew _ _ Hj) as (_ & _ & H4 & _). rewrite Heq in Hnz. specialize (H4 Hnz). rewrite <- Heq in Hnz. specialize (H3 Hnz). lia.
Qed.

Lemma middle_lookup {A} (a x b : list A) (i : nat) :
  (i < length x)%nat → (a ++ x ++ b) !! (length a + i)%nat = x !! i.
Proof. intros H. rewrite lookup_app_r by lia. replace (length a + i - length a)%nat with i by lia. by rewrite lookup_app_l. Qed.

Lemma port_drop z f nx r a x b : port_inv z f nx r (a ++ x ++ b) → port_inv z f nx r (a ++ b).
Proof.
  intros [P1 P2 P2' P3 P4 P5]. split; [done|done| |done| |].
  - intros y Hy. apply P2'. set_solver.
  - intros id t y E Hy. eapply P4; [done|]. set_solver.
  - intros i j y1 y2 Hi Hj Heq Hnz.
    set (g := λ i, if (i <? length a)%nat then i else (i + length x)%nat).
    assert (Hg : ∀ i y, (a ++ b) !! i = Some y → (a ++ x ++ b) !! g i = Some y).
    { intros k y Hk. unfold g. destruct (k <? length a)%nat eqn:E.
      - apply Nat.ltb_lt in E. rewrite lookup_app_l in Hk by done. by rewrite lookup_app_l.
      - apply Nat.ltb_ge in E. rewrite lookup_app_r in Hk by done. rewrite lookup_app_r, lookup_app_r by lia. rewrite <- Hk. f_equal. lia. }
    pose proof (P5 _ _ _ _ (Hg i y1 Hi) (Hg j y2 Hj) Heq Hnz) as E. unfold g in E.
    destruct (i <? length a)%nat eqn:E1, (j <? length a)%nat eqn:E2; rewrite ?Nat.ltb_lt, ?Nat.ltb_ge in *; lia.
Qed.

Lemma port_commit z f nx r r' a x b :
  NoDup (map ID x) → (∀ t, t ∈ x → tenant r' (ID t) = Some t) → (∀ id, id ∉ map ID x → tenant r' id = tenant r id) →
  port_inv z f nx r (a ++ x ++ b) → port_inv z f nx r' (a ++ b).
Proof.
  intros Hnd Hx Ho P. pose proof (port_drop _ _ _ _ _ _ _ P) as [_ _ Q2' _ Q4 Q5]. destruct P as [P1 P2 P2' P3 P4 P5].
  assert (Hcase : ∀ id t, tenant r' id = Some t → (∃ i, x !! i = Some t ∧ ID t = id) ∨ ((id ∉ map ID x) ∧ tenant r id = Some t)).
  { intros id t E. destruct (decide (id ∈ map ID x)) as [Hin|Hn]; [|right; by rewrite Ho in E].
    left. apply list_elem_of_fmap in Hin as (t0 & -> & Ht0). rewrite (Hx t0 Ht0) in E. injection E as <-. apply list_elem_of_lookup in Ht0 as (i & Hi). by exists i. }
  assert (Hin : ∀ i t, x !! i = Some t → t ∈ a ++ x ++ b) by (intros i t Hi; apply list_elem_of_lookup_2 in Hi; set_solver).
  assert (Hpos : ∀ i t, x !! i = Some t → (a ++ x ++ b) !! (length a + i)%nat = Some t) by (intros i t Hi; rewrite middle_lookup; [done|by eapply lookup_lt_Some]).
  split; [done| |done| | |done].
  - intros id t [(i & Hi & _)|[_ E]]%Hcase; [apply P2'; by eapply Hin|by eapply P2].
  - intros id1 id2 t1 t2 [(i & Hi & <-)|[_ E1]]%Hcase [(j & Hj & <-)|[_ E2]]%Hcase Heq Hnz.
    + pose proof (P5 _ _ _ _ (Hpos _ _ Hi) (Hpos _ _ Hj) Heq Hnz). assert (i = j) as -> by lia. congruence.
    + exfalso. apply Hnz. rewrite Heq. eapply P4; [exact E2|by eapply Hin|done].
    + exfalso. apply Hnz. eapply P4; [exact E1|by eapply Hin|done].
    + by eapply P3.
  - intros id t y [(i & Hi & <-)|[_ E]]%Hcase Hy Heq; [|eapply P4; [exact E| |exact Heq]; set_solver].
    destruct (decide (f t = 0)) as [|Hnz]; [done|]. exfalso. apply elem_of_app in Hy as [Hy|Hy]; apply list_elem_of_lookup in Hy as (j & Hj).
    + assert (Hj' : (a ++ x ++ b) !! j = Some y) by (by apply lookup_app_l_Some). pose proof (P5 _ _ _ _ (Hpos _ _ Hi) Hj' Heq Hnz). apply lookup_lt_Some in Hj. lia.
    + assert (Hj' : (a ++ x ++ b) !! (length a + length x + j)%nat = Some y).
      { rewrite lookup_app_r, lookup_app_r by lia. rewrite <- Hj. f_equal. lia. }
      pose proof (P5 _ _ _ _ (Hpos _ _ Hi) Hj' Heq Hnz). apply lookup_lt_Some in Hi. lia.
Qed.

(** ** The invariant of a world *)
Record ports_ok (w : World) : Prop := {
  o_heap : heap_ok (m_reg (w_m w));
  o_ids : Forall (λ x, NoDup (map ID (x.1 :: x.2))) (w_pending w);
  o_http : port_inv true HTTPPort (nextHTTPPort (m_reg (w_m w))) (m_reg (w_m w)) (pending w);
  o_resp : port_inv true RESPPort (nextRESPPort (m_reg (w_m w))) (m_reg (w_m w)) (pending w);
  o_repl : port_inv false ReplicationPort (nextReplPort (m_reg (w_m w))) (m_reg (w_m w)) (pending w)
}.

Lemma world_carried w m' : carried (m_reg (w_m w)) (m_reg m') → ports_ok w → ports_ok {| w_m := m'; w_pending := w_pending w |}.
Proof.
  intros Hc [H1 H2 H3 H4 H5]. destruct (Hc H1) as (G & N1 & N2 & N3 & _). split; cbn; [done|done|rewrite N1|rewrite N2|rewrite N3];
    (eapply port_carried; [exact H1|exact Hc| |done]); auto.
Qed.

Lemma run_op_carried m o : (if o is OProvision _ _ _ _ then False else True) → carried (m_reg m) (m_reg (run_op m o)).
Proof.
  destruct o; cbn [run_op]; intros Hp; [done|..].
  - apply delete_carried.
  - apply hibernate_carried.
  - apply wake_carried.
  - apply restore_carried.
  - apply promote_carried.
  - apply carried_same, supervise_frame.
  - destruct (r_tenants (m_reg m) !! id); [apply carried_same, StartTenant_frame|apply carried_refl].
  - apply create_carried.
  - apply revoke_carried.
  - apply carried_same. unfold StopAll. cbv zeta. set (l := _ ++ _). set (m1 := with_run m _). by destruct (stop_all_spec l m1) as (S1 & S2 & _).
  - apply carried_same. unfold poll_acl. destruct (engines (m_run m) !! h) as [e|]; [|done]. destruct (o_acl (m_out m) !! _); [|done].
    destruct (e_live e); [|done]. destruct (ask_frame m) as (A1 & A2 & _). destruct (ask m) as [[] m1]; exact (conj A1 A2).
  - apply carried_refl.
Qed.

Lemma request_bounds id name rc enc e : check_request id name rc enc = Ok e → 0 ≤ rc ≤ maxReplicasPerTenant.
Proof.
  intros Ec. unfold check_request in Ec. repeat (case_bool_decide; [done|]). destruct (negb _); [done|]. repeat (case_bool_decide; [done|]).
  destruct (rc <? 0) eqn:E1; [done|]. destruct (rc >? maxReplicasPerTenant) eqn:E2; [done|]. lia.
Qed.

Lemma wstep_ok w w' : wstep w w' → ports_ok w → ports_ok w'.
Proof.
  intros Hstep Hok. destruct Hstep as [id name rc enc e m1 primary replicas r Ec Ek Er|a primary replicas b Ew|a [p rs] b Ew|o Ho|p].
  - assert (Sk : m_reg (snd m1) = m_reg (w_m w)).
    { rewrite <- Ek. destruct (rc >? 0); [|done]. by destruct (replicationKey_frame (w_m w)) as (_ & -> & _). }
    pose proof (request_bounds _ _ _ _ _ Ec) as Hrc. destruct (reserve_spec _ _ _ _ _ _ _ _ _ (proj1 Hrc) Er) as (H1 & H2 & _ & H4 & _ & _ & A1 & A2 & B1 & B2 & C).
    rewrite Sk in *. destruct Hok as [G1 G2 G3 G4 G5].
    assert (Ht : ∀ x, tenant r x = tenant (m_reg (w_m w)) x) by (intros x; by apply tenant_same).
    assert (Hp : pending {| w_m := with_reg (snd m1) r; w_pending := w_pending w ++ [(primary, replicas)] |} = pending w ++ primary :: replicas).
    { unfold pending. cbn. rewrite bind_app. cbn. by rewrite app_nil_r. }
    split; cbn [w_m w_pending m_reg with_reg]; rewrite ?Hp.
    + by eapply heap_ok_same.
    + apply Forall_app. split; [done|]. constructor; [|constructor]. cbn [fst snd]. rewrite H4. apply ids_distinct. lia.
    + eapply port_reserve; [exact Ht| |exact G3]. left. by split.
    + eapply port_reserve; [exact Ht| |exact G4]. left. by split.
    + eapply port_reserve; [exact Ht| |exact G5]. destruct (rc >? 0); [left; done|]. destruct C as [C1 C2]. right. split; [done|]. split; [|done].
      apply Forall_forall. intros x Hx. assert (Hin : ReplicationPort x ∈ map ReplicationPort (primary :: replicas)) by (apply list_elem_of_fmap; eauto).
      rewrite C1 in Hin. by apply list_elem_of_singleton in Hin.
  - destruct Hok as [G1 G2 G3 G4 G5]. assert (Hp : pending w = (a ≫= λ x, x.1 :: x.2) ++ (primary :: replicas) ++ (b ≫= λ x, x.1 :: x.2)).
    { unfold pending. rewrite Ew, bind_app. reflexivity. }
    rewrite Ew in G2. apply Forall_app in G2 as [Ga [Gx Gb]%Forall_cons]. cbn [fst snd] in Gx.
    unfold commit. pose proof (insert_spec (primary :: replicas) (m_reg (w_m w)) Gx) as Hi. destruct (insert_tenants _ (m_reg (w_m w))) as [ps r] eqn:Ei.
    destruct Hi as (_ & _ & _ & _ & N1 & N2 & N3). destruct (insert_tenant _ _ _ _ Ei Gx G1) as (I1 & _ & I3 & I4).
    destruct (saveState_frame (with_reg (w_m w) r)) as (_ & F2 & _). destruct (saveState _) as [okS m2]. cbn [snd] in *.
    assert (Hp' : pending {| w_m := m2; w_pending := a ++ b |} = (a ≫= λ x, x.1 :: x.2) ++ (b ≫= λ x, x.1 :: x.2)) by (unfold pending; cbn; by rewrite bind_app).
    rewrite Hp in G3, G4, G5. split; cbn [w_m w_pending]; rewrite ?F2, ?Hp'; cbn [m_reg with_reg].
    + done.
    + by apply Forall_app.
    + rewrite N1. by eapply port_commit.
    + rewrite N2. by eapply port_commit.
    + rewrite N3. by eapply port_commit.
  - destruct Hok as [G1 G2 G3 G4 G5]. assert (Hp : pending w = (a ≫= λ x, x.1 :: x.2) ++ (p :: rs) ++ (b ≫= λ x, x.1 :: x.2)).
    { unfold pending. rewrite Ew, bind_app. reflexivity. }
    assert (Hp' : pending {| w_m := w_m w; w_pending := a ++ b |} = (a ≫= λ x, x.1 :: x.2) ++ (b ≫= λ x, x.1 :: x.2)) by (unfold pending; cbn; by rewrite bind_app).
    rewrite Ew in G2. apply Forall_app in G2 as [Ga [_ Gb]%Forall_cons]. rewrite Hp in G3, G4, G5.
    split; cbn [w_m w_pending]; rewrite ?Hp'; [done|by apply Forall_app|by eapply port_drop..].
  - apply world_carried; [by apply run_op_carried|done].
  - apply world_carried; [apply carried_same, StartTenant_frame|done].
Qed.

(** ** The first state *)
Definition port_free (f : Tenant → Z) (l : list (string * Tenant)) : Prop :=
  ∀ i j a b, l !! i = Some a → l !! j = Some b → f a.2 = f b.2 → f a.2 ≠ 0 → i = j.
(** A state file with distinct ports. *)
Record distinct_ports (l : list (string * Tenant)) : Prop := {
  d_set : ∀ p, p ∈ l → HTTPPort p.2 ≠ 0 ∧ RESPPort p.2 ≠ 0;
  d_http : port_free HTTPPort l; d_resp : port_free RESPPort l; d_repl : port_free ReplicationPort l
}.

Lemma adopts_ports ps : ∀ r, Forall (λ t, HTTPPort t ≠ 0 ∧ RESPPort t ≠ 0) (r_heap r) →
  let r' := foldl adopt r ps in
  nextHTTPPort r ≤ nextHTTPPort r' ∧ nextRESPPort r ≤ nextRESPPort r' ∧ nextReplPort r ≤ nextReplPort r' ∧
  (∀ q t, r_heap r' !! q = Some t → ∃ t0, r_heap r !! q = Some t0 ∧ HTTPPort t = HTTPPort t0 ∧ RESPPort t = RESPPort t0 ∧ ReplicationPort t = ReplicationPort t0) ∧
  (∀ q t, q ∈ ps → r_heap r !! q = Some t → HTTPPort t < nextHTTPPort r' ∧ RESPPort t < nextRESPPort r' ∧ ReplicationPort t < nextReplPort r').
Proof.
  induction ps as [|p ps IH]; intros r HF; cbn [foldl]; cbv zeta.
  { do 3 (split; [lia|]). split; [by eauto 10|]. intros q t Hq. by apply not_elem_of_nil in Hq. }
  assert (Hs : ∀ t, r_heap r !! p = Some t → adopt r p = {| r_heap := <[p := set_ports (HTTPPort t) (RESPPort t) t]> (r_heap r); r_tenants := r_tenants r;
     nextHTTPPort := if HTTPPort t >=? nextHTTPPort r then HTTPPort t + 1 else nextHTTPPort r;
     nextRESPPort := if RESPPort t >=? nextRESPPort r then RESPPort t + 1 else nextRESPPort r;
     nextReplPort := if ReplicationPort t >=? nextReplPort r then ReplicationPort t + 1 else nextReplPort r |}).
  { intros t E. unfold adopt. rewrite E. cbv zeta. destruct (Forall_lookup_1 _ _ _ _ HF E) as [Z1 Z2].
    rewrite (proj2 (Z.eqb_neq _ _) Z1), (proj2 (Z.eqb_neq _ _) Z2). done. }
  destruct (r_heap r !! p) as [t|] eqn:Ep.
  - specialize (Hs t eq_refl). destruct (IH (adopt r p)) as (I1 & I2 & I3 & I4 & I5).
    { rewrite Hs. cbn. apply Forall_insert; [done|]. cbn. exact (Forall_lookup_1 _ _ _ _ HF Ep). }
    assert (N1 : nextHTTPPort (adopt r p) = if HTTPPort t >=? nextHTTPPort r then HTTPPort t + 1 else nextHTTPPort r) by (by rewrite Hs).
    assert (N2 : nextRESPPort (adopt r p) = if RESPPort t >=? nextRESPPort r then RESPPort t + 1 else nextRESPPort r) by (by rewrite Hs).
    assert (N3 : nextReplPort (adopt r p) = if ReplicationPort t >=? nextReplPort r then ReplicationPort t + 1 else nextReplPort r) by (by rewrite Hs).
    rewrite N1 in I1. rewrite N2 in I2. rewrite N3 in I3.
    assert (Hback : ∀ q u, r_heap (adopt r p) !! q = Some u → ∃ u0, r_heap r !! q = Some u0 ∧ HTTPPort u = HTTPPort u0 ∧ RESPPort u = RESPPort u0 ∧ ReplicationPort u = ReplicationPort u0).
    { intros q u. rewrite Hs. cbn. destruct (decide (p = q)) as [<-|Hne]; [|rewrite list_lookup_insert_ne by done; by eauto 10].
      rewrite list_lookup_insert_eq by (by eapply lookup_lt_Some). intros [= <-]. exists t. done. }
    set (r' := foldl adopt (adopt r p) ps) in *.
    assert (B1 : nextHTTPPort r ≤ nextHTTPPort r' ∧ HTTPPort t < nextHTTPPort r') by (destruct (HTTPPort t >=? nextHTTPPort r) eqn:E in I1; lia).
    assert (B2 : nextRESPPort r ≤ nextRESPPort r' ∧ RESPPort t < nextRESPPort r') by (destruct (RESPPort t >=? nextRESPPort r) eqn:E in I2; lia).
    assert (B3 : nextReplPort r ≤ nextReplPort r' ∧ ReplicationPort t < nextReplPort r') by (destruct (ReplicationPort t >=? nextReplPort r) eqn:E in I3; lia).
    do 3 (split; [tauto|]). split.
    + intros q u Hu. destruct (I4 q u Hu) as (u1 & F1 & F2 & F3 & F4). destruct (Hback q u1 F1) as (u0 & K1 & K2 & K3 & K4). exists u0. split; [done|]. split_and!; congruence.
    + intros q u Hq Hu. destruct (decide (q = p)) as [->|Hne]; [rewrite Ep in Hu; injection Hu as <-; tauto|].
      apply elem_of_cons in Hq as [?|Hq]; [done|]. apply (I5 q u Hq). rewrite Hs. cbn. by rewrite list_lookup_insert_ne.
  - assert (Ha : adopt r p = r) by (unfold adopt; by rewrite Ep). rewrite Ha. destruct (IH r HF) as (I1 & I2 & I3 & I4 & I5). do 3 (split; [done|]). split; [done|].
    intros q u [->|Hq]%elem_of_cons Hu; [congruence|exact (I5 q u Hq Hu)].
Qed.

Lemma port_start z f nx l nx0 :
  well_keyed l → 0 < nx0 → nx0 ≤ nx → port_free f l → (z = true → ∀ p, p ∈ l → f p.2 ≠ 0) →
  (∀ q t, r_heap (load_registry l) !! q = Some t → ∃ p, l !! q = Some p ∧ f t = f p.2 ∧ f t < nx) →
  port_inv z f nx (load_registry l) [].
Proof.
  intros Hk H0 Hle Hf Hz Hh. destruct (load_ok l Hk) as [Hok _].
  assert (Ht : ∀ id t, tenant (load_registry l) id = Some t → ∃ q p, r_tenants (load_registry l) !! id = Some q ∧ r_heap (load_registry l) !! q = Some t ∧ l !! q = Some p ∧ f t = f p.2 ∧ f t < nx).
  { intros id t E. unfold tenant in E. destruct (r_tenants _ !! id) as [q|] eqn:Eq; [|done]. cbn in E. destruct (Hh q t E) as (p & Hp & H1 & H2). by exists q, p. }
  split; [lia| |intros x Hx; by apply not_elem_of_nil in Hx| |intros id t x _ Hx; by apply not_elem_of_nil in Hx|intros i j x y Hi; by rewrite lookup_nil in Hi].
  - intros id t (q & p & _ & _ & Hp & H1 & H2)%Ht. split; [done|]. intros Hzt. rewrite H1. apply (Hz Hzt). by eapply list_elem_of_lookup_2.
  - intros id1 id2 t1 t2 E1 E2 Heq Hnz. destruct (Ht id1 t1 E1) as (q1 & p1 & A1 & B1 & C1 & D1 & _). destruct (Ht id2 t2 E2) as (q2 & p2 & A2 & B2 & C2 & D2 & _).
    assert (q1 = q2) as -> by (eapply Hf; [exact C1|exact C2|congruence|congruence]). destruct (Hok _ _ A1) as (u & U1 & <-). destruct (Hok _ _ A2) as (v & V1 & <-). congruence.
Qed.

(** C11: start on a saved state whose ports are distinct, or on none.
    However provisionings, each with its two critical sections, interleave with
    each other and with deletions, failovers, restarts and the other operations,
    two tenants of the table never have an HTTP, RESP or replication port in
    common (a tenant without replicas has replication port zero), nor does a
    tenant that is still being provisioned with any of them; and every port lies
    below the next one to be given. *)
Theorem ports_unique n o l m0 w :
  well_keyed l → distinct_ports l → NewManager n o (StateFile.Loaded l) = Ok m0 → wreach {| w_m := m0; w_pending := [] |} w →
  let r := m_reg (w_m w) in
  (∀ id1 id2 t1 t2, tenant r id1 = Some t1 → tenant r id2 = Some t2 → id1 ≠ id2 →
     HTTPPort t1 ≠ HTTPPort t2 ∧ RESPPort t1 ≠ RESPPort t2 ∧ (ReplicationPort t1 = ReplicationPort t2 → ReplicationPort t1 = 0)) ∧
  (∀ id t x, tenant r id = Some t → x ∈ pending w →
     HTTPPort t ≠ HTTPPort x ∧ RESPPort t ≠ RESPPort x ∧ (ReplicationPort t = ReplicationPort x → ReplicationPort t = 0)) ∧
  (∀ id t, tenant r id = Some t → HTTPPort t < nextHTTPPort r ∧ RESPPort t < nextRESPPort r ∧ ReplicationPort t < nextReplPort r).
Proof.
  intros Hk Hd Hnew Hreach.
  assert (Hm0 : m_reg m0 = load_registry l).
  { unfold NewManager in Hnew. injection Hnew as <-. rewrite <- foldl_app. match goal with |- m_reg (foldl ?s _ _) = _ => assert (Hg : ∀ ps m1, m_reg (foldl s m1 ps) = m_reg m1) end.
    { induction ps as [|p ps IH]; intros m1; cbn; [done|]. rewrite IH. destruct (r_heap (m_reg m1) !! p) as [t|]; [|done]. destruct (Hibernated t); [done|]. exact (proj2 (StartTenant_frame p m1)). }
    rewrite Hg. done. }
  assert (Hinit : ports_ok {| w_m := m0; w_pending := [] |}).
  { destruct (load_ok l Hk) as [Hok _]. destruct Hd as [D1 D2 D3 D4].
    destruct (adopts_ports (List.seq 0 (length l)) (with_table (with_heap empty_registry (map snd l)) (list_to_map (zip (map fst l) (List.seq 0 (length l)))))) as (A1 & A2 & A3 & A4 & A5).
    { cbn. apply Forall_forall. intros t Ht. apply list_elem_of_fmap in Ht as (p & -> & Hp). by apply D1. }
    fold (load_registry l) in A1, A2, A3, A4, A5. cbn in A1, A2, A3.
    assert (Hh : ∀ q t, r_heap (load_registry l) !! q = Some t → ∃ p, l !! q = Some p ∧ (HTTPPort t = HTTPPort p.2 ∧ HTTPPort t < nextHTTPPort (load_registry l)) ∧
       (RESPPort t = RESPPort p.2 ∧ RESPPort t < nextRESPPort (load_registry l)) ∧ (ReplicationPort t = ReplicationPort p.2 ∧ ReplicationPort t < nextReplPort (load_registry l))).
    { intros q t Hq. destruct (A4 q t Hq) as (t0 & E0 & F1 & F2 & F3). pose proof E0 as E0'. cbn in E0. change (map snd l) with (snd <$> l) in E0. rewrite list_lookup_fmap in E0.
      destruct (l !! q) as [p|] eqn:El; [|done]. cbn in E0. injection E0 as <-. exists p. split; [done|].
      destruct (A5 q p.2) as (K1 & K2 & K3); [rewrite list_elem_of_In, in_seq; apply lookup_lt_Some in El; lia|exact E0'|]. rewrite F1, F2, F3. done. }
    split; cbn [w_m w_pending pending]; rewrite ?Hm0; [done|constructor|..].
    - apply (port_start _ _ _ l 8081); [done|done|done|done|intros _ p Hp; by apply D1|]. intros q t Hq. destruct (Hh q t Hq) as (p & Hp & H1 & H2 & H3). exists p. done.
    - apply (port_start _ _ _ l 6401); [done|done|done|done|intros _ p Hp; by apply D1|]. intros q t Hq. destruct (Hh q t Hq) as (p & Hp & H1 & H2 & H3). exists p. done.
    - apply (port_start _ _ _ l 7401); [done|done|done|done|done|]. intros q t Hq. destruct (Hh q t Hq) as (p & Hp & H1 & H2 & H3). exists p. done. }
  assert (Hw : ports_ok w) by (induction Hreach; [done|by eapply wstep_ok]). destruct Hw as [_ _ [_ A2 _ A3 A4 _] [_ B2 _ B3 B4 _] [_ C2 _ C3 C4 _]].
  intros r. split; [|split].
  - intros id1 id2 t1 t2 E1 E2 Hne. split; [|split].
    + intros Heq. apply Hne. eapply A3; [exact E1|exact E2|done|]. by apply (A2 id1 t1).
    + intros Heq. apply Hne. eapply B3; [exact E1|exact E2|done|]. by apply (B2 id1 t1).
    + intros Heq. destruct (decide (ReplicationPort t1 = 0)); [done|]. destruct Hne. by eapply C3.
  - intros id t x E Hx. split; [|split].
    + intros Heq. apply (proj2 (A2 id t E) eq_refl). by eapply A4.
    + intros Heq. apply (proj2 (B2 id t E) eq_refl). by eapply B4.
    + by eapply C4.
  - intros id t E. split; [by apply (A2 id t)|]. split; [by apply (B2 id t)|by apply (C2 id t)].
Qed.

(** ** Two provisionings at once *)
Definition reserved (id name : string) (rc : Z) (w : World) : World :=
  let m1 := if rc >? 0 then replicationKey (w_m w) else (None, w_m w) in
  match check_request id name rc "" with
  | Ok e =>
      match reserve (m_node (snd m1)) id name rc e (m_reg (snd m1)) with
      | (Ok x, r) => {| w_m := with_reg (snd m1) r; w_pending := w_pending w ++ [x] |}
      | _ => w
      end
  | _ => w
  end.
Definition committed (w : World) : World :=
  match w_pending w with (p, rs) :: l => {| w_m := snd (commit p rs (w_m w)); w_pending := l |} | [] => w end.

Lemma reserved_reach w0 w id name rc : wreach w0 w → wreach w0 (reserved id name rc w).
Proof.
  intros Hw. unfold reserved. cbv zeta. destruct (check_request id name rc "") as [e|e|] eqn:Ec; [|done|done].
  destruct (reserve _ id name rc e _) as [[[p rs]|x|] r] eqn:Er; [|done|done]. eapply wreach_step; [done|]. by eapply w_reserve.
Qed.
Lemma committed_reach w0 w : wreach w0 w → wreach w0 (committed w).
Proof.
  intros Hw. unfold committed. destruct (w_pending w) as [|[p rs] l] eqn:E; [done|]. eapply wreach_step; [done|]. by apply (w_commit w []).
Qed.

Definition demo_world : World := {| w_m := demo_manager; w_pending := [] |}.
Definition two_tenants : World := committed (committed (reserved "globex" "Globex" 0 (reserved "acme" "Acme" 1 demo_world))).

Lemma ports_unique_witness :
  wreach demo_world two_tenants ∧ ∃ t1 t2, tenant (m_reg (w_m two_tenants)) "acme" = Some t1 ∧ tenant (m_reg (w_m two_tenants)) "globex" = Some t2 ∧
  HTTPPort t1 = 8081 ∧ HTTPPort t1 ≠ HTTPPort t2.
Proof.
  assert (Hr : wreach demo_world two_tenants) by (apply committed_reach, committed_reach, reserved_reach, reserved_reach, wreach_refl). split; [exact Hr|].
  assert (Hk : well_keyed []) by (split; constructor).
  assert (Hd : distinct_ports []) by (split; [intros p Hp; by apply not_elem_of_nil in Hp|intros i j a b Hi; by rewrite lookup_nil in Hi..]).
  destruct (ports_unique demo_node demo_out [] demo_manager two_tenants Hk Hd eq_refl Hr) as (H & _).
  destruct (tenant (m_reg (w_m two_tenants)) "acme") as [t1|] eqn:E1; [|vm_compute in E1; discriminate].
  destruct (tenant (m_reg (w_m two_tenants)) "globex") as [t2|] eqn:E2; [|vm_compute in E2; discriminate].
  exists t1, t2. split; [done|]. split; [done|]. split; [by vm_compute in E1; injection E1 as <-|]. by apply (H _ _ _ _ E1 E2).
Defined.

(** Both provisionings of one name pass the check before either is in the table:
    the first tenant is overwritten, yet its engine, on its ports, is the one that
    runs. *)
Example provision_race :
  let w := committed (committed (reserved "acme" "Second" 0 (reserved "acme" "First" 0 demo_world))) in
  let m := start_quietly 1 (start_quietly 0 (w_m w)) in
  Name <$> tenant (m_reg m) "acme" = Some "Second"%string ∧ RESPPort <$> tenant (m_reg m) "acme" = Some 6402 ∧
  (λ e, Config.Port (Config.Server (e_cfg e))) <$> engines (m_run m) = [6401].
Proof. vm_compute. done. Qed.

(** A tenant without ports that is visited before one on the first port: both get
    it. *)
Definition bare_tenant (id : string) (port : Z) : Tenant :=
  {| ID := id; Name := id; HTTPPort := port; RESPPort := port; GRPCPort := 0; RaftPort := 0; DataDir := ""; Role := ""; ReplicaOf := "";
     ReplicationPort := 0; Replicas := []; Keys := ∅; Hibernated := false; VectorEncoding := "" |}.
Example adopted_ports_collide :
  let r := load_registry [("a", bare_tenant "a" 0); ("b", bare_tenant "b" 8081)]%string in
  HTTPPort <$> r_heap r = [8081; 8081].
Proof. vm_compute. done. Qed.

(** A follower that applies a provisioning does not move its counters: when it
    leads, it gives the same ports again. *)
Example follower_gives_ports_again :
  match reserve demo_node "acme" "Acme" 0 "sq8" empty_registry with
  | (Ok (t, _), _) =>
      let '(_, follower, _) := Apply {| Action := "provision"; f_Tenant := Some t; Members := []; f_Purge := false; ReplicaID := "" |} demo_manager in
      match reserve demo_node "globex" "Globex" 0 "sq8" (m_reg follower) with
      | (Ok (u, _), _) => HTTPPort t = HTTPPort u ∧ RESPPort t = RESPPort u
      | _ => False
      end
  | _ => False
  end.
Proof. vm_compute. done. Qed.
