(* ===== verification/OrchestratorAccess.v ===== *)
(** * Failover and credentials ([Orchestrator])

    What a promotion and the life of a tenant key leave behind, on every node and
    in the engines, and the places where the code does not do what it means to. *)

From S2P Require Import Prelude GoStd RESP Commands Auth Isolation Orchestrator OrchestratorCorrect OrchestratorPorts.
From S2P Require Config StateFile.
Open Scope Z_scope.

(** ** Starting only adds *)
Record extends (run run' : Runtime) : Prop := {
  x_engines : ∃ l, engines run' = engines run ++ l;
  x_instances : instances run ⊆ instances run';
  x_workers : workers run ⊆ workers run'
}.

Lemma extends_refl run run' : engines run' = engines run → instances run' = instances run → workers run' = workers run → extends run run'.
Proof. intros E1 E2 E3. split; [exists []; by rewrite app_nil_r|by rewrite E2|by rewrite E3]. Qed.

Lemma extends_trans r1 r2 r3 : extends r1 r2 → extends r2 r3 → extends r1 r3.
Proof.
  intros [(l1 & E1) A1 B1] [(l2 & E2) A2 B2]. split; [|by etrans|by etrans]. exists (l1 ++ l2). by rewrite E2, E1, app_assoc.
Qed.

Lemma extends_lookup run run' h e : extends run run' → engines run !! h = Some e → engines run' !! h = Some e.
Proof. intros [(l & ->) _ _] H. by apply lookup_app_l_Some. Qed.

Lemma register_extends t e m : running (m_run m) (ID t) = false → extends (m_run m) (m_run (snd (register t e m))).
Proof.
  unfold running. intros [Hi Hw]%orb_false_iff. apply bool_decide_eq_false, eq_None_not_Some in Hi. apply bool_decide_eq_false, eq_None_not_Some in Hw.
  unfold register. cbn. destruct (e_worker e); split; cbn; try done; try (by exists [e]); by apply insert_subseteq.
Qed.

Lemma asked_extends e m k run :
  m_run m = run → (∀ m1, m_run m1 = run → extends run (m_run (snd (k m1)))) → extends run (m_run (snd (asked e m k))).
Proof.
  intros E H. destruct (asked_case e m k) as [(m1 & _ & R & ->)|(m1 & _ & R & ->)]; [apply H; congruence|]. cbn. rewrite R, E. by apply extends_refl.
Qed.

Lemma launch_extends t cfg m : running (m_run m) (ID t) = false → extends (m_run m) (m_run (snd (launch t cfg m))).
Proof.
  intros Hr. unfold launch. cbv zeta. destruct (Process _).
  - apply asked_extends; [done|]. intros m1 R. rewrite <- R. apply register_extends. by rewrite R.
  - apply asked_extends; [done|]. intros m1 R. destruct (bool_decide _).
    + rewrite <- R. apply register_extends. by rewrite R.
    + apply asked_extends; [done|]. intros m2 R2. rewrite <- R2. apply register_extends. by rewrite R2.
Qed.

Lemma bring_up_extends t m : running (m_run m) (ID t) = false → extends (m_run m) (m_run (snd (bring_up t m))).
Proof.
  intros Hrun. set (run := m_run m) in *. assert (Hstay : ∀ m', m_run m' = run → extends run (m_run m')) by (intros m' ->; by apply extends_refl).
  unfold bring_up. apply asked_extends; [done|]. intros m1 R1. set (m2 := with_out m1 _). assert (R2 : m_run m2 = run) by exact R1. clearbody m2.
  assert (Hk : ∀ (k : Manager → res string unit * Manager), (∀ m3, m_run m3 = run → extends run (m_run (snd (k m3)))) →
    extends run (m_run (snd ((if p_Encryption (n_profile (m_node m2)) then asked "tenant key" m2 else λ k, k m2) k)))).
  { intros k H. destruct (p_Encryption _); [|by apply H]. by apply asked_extends. }
  apply Hk. intros m3 R3. destruct (repl_roles _ _ t) as [[role la] pa].
  set (x := if bool_decide (role = ""%string) then _ else _). assert (Hx : m_run (snd x) = run).
  { unfold x. destruct (bool_decide _); [done|]. by destruct (replicationToken_frame (replicationGroup t) m3) as (_ & _ & ->). }
  clearbody x. destruct x as [[token|] m4]; cbn [snd] in Hx; [|by apply Hstay].
  destruct (Config.ApplyReplication _ role la pa token) as [cfg|e|]; [|by apply Hstay|by apply Hstay].
  destruct (ask_frame m4) as (_ & _ & B3). destruct (ask m4) as [wrote m5]. cbn [snd] in *.
  set (m6 := if wrote then _ else _). assert (R6 : m_run m6 = run) by (unfold m6; destruct wrote; cbn; congruence). clearbody m6.
  destruct (writeUsersACL_frame (DataDir t) (collectTenantUsers (m_reg m6) t) m6) as (_ & _ & C3). destruct (writeUsersACL _ _ m6) as [okw m7]. cbn [snd] in *.
  assert (R7 : m_run m7 = run) by congruence. destruct (negb okw); [by apply Hstay|].
  destruct (Config.ParseBytes _) as [quota|e|]; [|by apply Hstay|by apply Hstay]. destruct (reserve_frame (ID t) quota m7) as (_ & _ & _ & F4 & F5 & F6).
  destruct (reserve_quota (ID t) quota m7) as [r m8]. cbn [snd] in *. assert (X8 : extends run (m_run m8)) by (apply extends_refl; congruence).
  destruct r; [|done|done]. eapply extends_trans; [exact X8|]. apply launch_extends. unfold running. by rewrite F4, F5, R7.
Qed.

Lemma StartTenant_extends p m : extends (m_run m) (m_run (snd (StartTenant p m))).
Proof.
  unfold StartTenant. destruct (r_heap (m_reg m) !! p) as [t|]; [|by apply extends_refl]. destruct (Hibernated t); [by apply extends_refl|].
  destruct (_ || _) eqn:E; [by apply extends_refl|]. apply orb_false_iff in E as [_ E]. set (m1 := with_run m _).
  pose proof (bring_up_extends t m1 E) as [X1 X2 X3]. destruct (bring_up t m1) as [r m2]. by split.
Qed.

Lemma starts_extends ps : ∀ m, extends (m_run m) (m_run (foldl (λ m p, start_quietly p m) m ps)).
Proof.
  induction ps as [|p ps IH]; intros m; cbn; [by apply extends_refl|]. eapply extends_trans; [apply (StartTenant_extends p m)|apply IH].
Qed.

(** ** Failover *)
Lemma become_true h la m m1 :
  BecomePrimary h la m = (true, m1) →
  engines (m_run m1) = alter (promote_engine la) h (engines (m_run m)) ∧ instances (m_run m1) = instances (m_run m) ∧ workers (m_run m1) = workers (m_run m).
Proof.
  unfold BecomePrimary. destruct (engines (m_run m) !! h) as [e|]; [|done]. set (x := if e_worker e then ask m else (true, m)).
  assert (Hx : m_run (snd x) = m_run m) by (unfold x; destruct (e_worker e); [by destruct (ask_frame m) as (_ & _ & ->)|done]).
  clearbody x. destruct x as [reached m2]. cbn [snd] in Hx. destruct (negb reached); [done|]. destruct (e_stream e); [intros [= <-]; cbn; by rewrite Hx|].
  destruct (ask_frame m2) as (_ & _ & A3). destruct (ask m2) as [[] m3]; cbn [snd] in A3; [|done]. intros [= <-]. cbn. by rewrite A3, Hx.
Qed.

Lemma promote_twice la e : promote_engine la (promote_engine la e) = promote_engine la e.
Proof. done. Qed.

Lemma finish_spec pp rp others ri rw m m' :
  finish_promotion pp rp others ri rw m = (Ok tt, m') →
  ∃ la, m_reg m' = m_reg m ∧ instances (m_run m) ⊆ instances (m_run m') ∧ workers (m_run m) ⊆ workers (m_run m') ∧
  ∀ h e, engines (m_run m) !! h = Some e →
    engines (m_run m') !! h = Some (if decide (ri = Some h ∨ rw = Some h) then promote_engine la e else e).
Proof.
  intros E. pose proof (finish_frame pp rp others ri rw m) as [_ Hreg]. rewrite E in Hreg. cbn [snd] in Hreg. revert E.
  unfold finish_promotion. destruct (r_heap (m_reg m) !! pp) as [t|]; [|done]. cbv zeta. set (la := if UnixIPC _ then _ else _). intros E. exists la. split; [done|].
  assert (Hb : ∀ h m0 m1, (if h is Some h then BecomePrimary h la m0 else (true, m0)) = (true, m1) →
    instances (m_run m1) = instances (m_run m0) ∧ workers (m_run m1) = workers (m_run m0) ∧
    ∀ k e, engines (m_run m0) !! k = Some e → engines (m_run m1) !! k = Some (if decide (h = Some k) then promote_engine la e else e)).
  { intros [h|] m0 m1 Eh; [|injection Eh as <-; split; [done|]; split; [done|]; intros k e Hk; by rewrite decide_False by done]. destruct (become_true h la m0 m1 Eh) as (B1 & B2 & B3). split; [done|]. split; [done|].
    intros k e Hk. rewrite B1. destruct (decide (Some h = Some k)) as [[= ->]|Hne]; [by rewrite list_lookup_alter_eq, Hk|]. rewrite list_lookup_alter_ne; [done|congruence]. }
  destruct (if ri is Some h then BecomePrimary h la m else (true, m)) as [[] m1] eqn:E1; cbn [negb] in E; [|done]. destruct (Hb ri m m1 E1) as (B1 & B2 & B3).
  destruct (if rw is Some h then BecomePrimary h la m1 else (true, m1)) as [[] m2] eqn:E2; cbn [negb] in E; [|done]. destruct (Hb rw m1 m2 E2) as (C1 & C2 & C3).
  set (m3 := writePromotedEngineConfig t la m2) in *. assert (R3 : m_run m3 = m_run m2).
  { unfold m3, writePromotedEngineConfig. cbv zeta. destruct (replicationToken_frame (ID t) m2) as (_ & _ & A3). destruct (replicationToken (ID t) m2) as [[token|] m4]; cbn [snd] in *; [|done].
    destruct (Config.ApplyReplication _ _ _ _ _); [|done|done]. destruct (ask_frame m4) as (_ & _ & A4). destruct (ask m4) as [[] m5]; cbn [snd] in *; cbn; congruence. }
  clearbody m3.
  assert (X : extends (m_run m3) (m_run m')).
  { destruct (_ || _).
    - injection E as <-. apply (starts_extends (rp :: others) m3).
    - pose proof (StartTenant_extends pp m3) as X1. destruct (StartTenant pp m3) as [[] m4]; [|done|done]. cbn [snd] in *. injection E as <-.
      eapply extends_trans; [exact X1|apply (starts_extends (rp :: others) m4)]. }
  pose proof X as [_ X2 X3]. rewrite R3 in *. split; [by rewrite <- B1, <- C1|]. split; [by rewrite <- B2, <- C2|].
  intros h e He. apply (extends_lookup _ _ _ _ X). apply B3, C3 in He. rewrite He. f_equal.
  destruct (decide (ri = Some h)) as [H1|H1], (decide (rw = Some h)) as [H2|H2]; first [rewrite decide_True by auto|rewrite decide_False by tauto]; done.
Qed.

(** C10: a promotion that succeeds gives the public tenant the
    directory and the ports of its replica and the replica those of the tenant,
    and changes no other tenant. An engine that ran for the replica now runs, the
    same one, for the public name: live, in the replica's directory, taking writes
    and listening for replicas as primary, with the users it had as a replica. The
    engine that ran for the tenant is stopped. The orchestrator accepts exactly the
    credentials of the tenant it accepted before; the engine accepts those that had
    reached it. *)
Theorem promote_correct m rid replica primary m' :
  ok false m → tenant (m_reg m) rid = Some replica → tenant (m_reg m) (ReplicaOf replica) = Some primary → ReplicaOf replica ≠ rid →
  promoteLocal rid m = (Ok tt, m') →
  let pid := ReplicaOf replica in
  (∀ x, tenant (m_reg m') x = if decide (x = rid) then Some (take_place replica primary)
                              else if decide (x = pid) then Some (take_place primary replica) else tenant (m_reg m) x) ∧
  (∀ h, registered (m_run m) rid h →
     registered (m_run m') pid h ∧ ∃ e0 e, engines (m_run m) !! h = Some e0 ∧ engines (m_run m') !! h = Some e ∧
     e_live e = true ∧ dir_of (e_cfg e) = DataDir replica ∧ e_users e = e_users e0 ∧
     e_readonly e = false ∧ e_stream e = true ∧ Config.Role (Config.Replication (e_cfg e)) = "primary"%string) ∧
  (∀ h, registered (m_run m) pid h → ∃ e, engines (m_run m') !! h = Some e ∧ e_live e = false) ∧
  (∀ key secret, is_Some (VerifyTenantKey m' pid key secret) ↔ is_Some (VerifyTenantKey m pid key secret)).
Proof.
  intros Hok Tr Tp Hne E pid. pose proof (i_heap _ _ _ _ Hok) as Hh. revert E. unfold promoteLocal. cbv zeta. rewrite Tr. fold pid in Tp, Hne |- *. rewrite Tp.
  destruct (r_tenants (m_reg m) !! rid) as [rp|] eqn:Erp; [|done]. destruct (_ || _); [done|]. destruct (r_tenants (m_reg m) !! pid) as [pp|] eqn:Epp; [|done].
  destruct (looked_up m _ _ _ Hh Erp Tr) as [Ir _]. destruct (looked_up m _ _ _ Hh Epp Tp) as [Ip _]. rewrite Ir, Ip.
  set (others := List.filter _ _). set (stopped := [_; _] ++ _). set (m1 := exchange pp rp primary replica others m).
  destruct (saveState_frame m1) as (_ & F2 & F3). destruct (saveState m1) as [saved m2]. cbn [snd] in *. destruct saved; cbn [negb]; [|done].
  destruct (exchange_frame pp rp primary replica others m) as (_ & X2 & X3 & X4 & _ & X6). fold m1 in X2, X3, X4, X6. rewrite Ip, Ir in X3, X4.
  destruct (stop_all_spec stopped m2) as (_ & S2 & _ & S4 & S5 & _ & S7). rewrite F3 in S4, S5, S7. rewrite X3 in S4. rewrite X4 in S5.
  destruct (exchanged_tenants (m_reg m) pp rp primary replica Hh) as (_ & _ & G3); [by rewrite Ip|by rewrite Ir|by rewrite Ip|by rewrite Ir|]. rewrite Ip, Ir in G3.
  set (ms := stop_all stopped m2) in *. intros E.
  assert (Hni : rid ∉ others) by (unfold others; rewrite list_elem_of_In, filter_In; intros [_ Hb]; by rewrite bool_decide_eq_true_2 in Hb).
  assert (Hstop : ∀ h, Some h ∈ stopped ↔ ∃ x, (x = pid ∨ x ∈ others) ∧ registered (m_run m) x h).
  { intros h. unfold stopped, registered. rewrite !elem_of_app, !elem_of_cons, elem_of_nil, !list_elem_of_In, !in_map_iff. split.
    - intros [[?|[?|[]]]|[(x & ? & ?)|(x & ? & ?)]]; [exists pid; auto|exists pid; auto|..]; exists x; rewrite list_elem_of_In; auto.
    - intros (x & [->|Hx] & [?|?]); [left; auto..| |]; right; [left|right]; exists x; rewrite <- list_elem_of_In; auto. }
  (* whether or not an engine was running, the rest only adds *)
  assert (Hfin : ∃ la, m_reg m' = m_reg ms ∧ instances (m_run ms) ⊆ instances (m_run m') ∧ workers (m_run ms) ⊆ workers (m_run m') ∧
    ∀ h e, engines (m_run ms) !! h = Some e → engines (m_run m') !! h =
      Some (if decide (instances (m_run m) !! rid = Some h ∨ workers (m_run m) !! rid = Some h) then promote_engine la e else e)).
  { destruct (existsb _ _) eqn:Ex; cbn [negb] in E; [by eapply finish_spec|]. injection E as <-. exists ""%string. do 3 (split; [done|]). intros h e He. rewrite decide_False; [done|].
    intros Hreg. apply not_true_iff_false in Ex. apply Ex. apply existsb_exists. exists (Some h). split; [|done]. destruct Hreg as [<- | <-]; [left|right; left]; done. }
  destruct Hfin as (la & R1 & R2 & R3 & R4).
  split; [|split; [|split]].
  - intros x. rewrite R1, S2, F2, X2. apply G3.
  - intros h Hr. destruct (i_serves _ _ _ _ Hok rid h Hr) as (t & e & E1 & E2 & E3 & E4 & _). rewrite Tr in E1. injection E1 as <-. split.
    + destruct Hr as [Hr|Hr]; [left; eapply lookup_weaken; [|exact R2]; rewrite S4|right; eapply lookup_weaken; [|exact R3]; rewrite S5];
        (apply move_iff; [done|]; exists rid; unfold moved; by rewrite decide_True).
    + destruct (X6 h) as (f & Hf & Ef). rewrite E2 in Ef. cbn in Ef. destruct (Hf e) as (F1 & F4 & F5).
      exists e, (promote_engine la (f e)). split; [done|]. assert (Hs : engines (m_run ms) !! h = Some (f e)).
      { rewrite S7, decide_False; [done|]. intros (x & Hx & Hr')%Hstop. rewrite (i_once _ _ _ _ Hok _ _ _ Hr' Hr) in Hx. destruct Hx; [by subst|done]. }
      rewrite (R4 h _ Hs), decide_True by exact Hr. split; [done|]. cbn. rewrite F1. split; [done|].
      split; [transitivity (dir_of (e_cfg (f e))); [done|]; by rewrite F4|]. by rewrite F5.
  - intros h Hr. destruct (i_serves _ _ _ _ Hok pid h Hr) as (t & e & _ & E2 & _). destruct (X6 h) as (f & Hf & Ef). rewrite E2 in Ef. cbn in Ef.
    assert (Hs : engines (m_run ms) !! h = Some (set_live false (f e))).
    { rewrite S7, decide_True by (apply Hstop; exists pid; auto). by rewrite Ef. }
    rewrite (R4 h _ Hs). eexists. split; [done|]. by destruct (decide _).
  - intros key secret. unfold VerifyTenantKey. rewrite R1, S2, F2, X2, G3, decide_False, decide_True by done. rewrite Tp. cbn [Keys take_place set_place].
    destruct (Keys primary !! key) as [k|]; [|done]. destruct (Revoked k); [done|]. by destruct (bool_decide _).
Qed.

Definition demo_set : Manager := run_op demo_manager (OProvision "acme" "Acme" 1 "").
Definition demo_promoted : Manager := snd (promoteLocal "acme-r1" demo_set).

Lemma demo_ok ops : ok false (foldl run_op demo_manager ops).
Proof.
  apply (run_ops_ok false); [vm_compute; discriminate|done|]. apply (new_manager_ok false demo_node demo_out StateFile.NotExist); [vm_compute; discriminate|discriminate|reflexivity].
Qed.

Lemma promote_correct_witness :
  ∃ replica primary, tenant (m_reg demo_set) "acme-r1" = Some replica ∧ tenant (m_reg demo_set) "acme" = Some primary ∧
  promoteLocal "acme-r1" demo_set = (Ok tt, demo_promoted) ∧ registered (m_run demo_set) "acme-r1" 1 ∧
  tenant (m_reg demo_promoted) "acme" = Some (take_place primary replica) ∧ registered (m_run demo_promoted) "acme" 1.
Proof.
  destruct (tenant (m_reg demo_set) "acme-r1") as [replica|] eqn:E1; [|vm_compute in E1; discriminate].
  destruct (tenant (m_reg demo_set) "acme") as [primary|] eqn:E2; [|vm_compute in E2; discriminate].
  assert (E3 : ReplicaOf replica = "acme"%string) by (vm_compute in E1; injection E1 as <-; reflexivity).
  assert (E4 : promoteLocal "acme-r1" demo_set = (Ok tt, demo_promoted)).
  { rewrite (surjective_pairing (promoteLocal "acme-r1" demo_set)). unfold demo_promoted. by f_equal. }
  assert (E5 : registered (m_run demo_set) "acme-r1" 1) by (left; vm_compute; reflexivity).
  destruct (promote_correct demo_set "acme-r1" replica primary demo_promoted (demo_ok [OProvision "acme" "Acme" 1 ""])) as (H1 & H2 & _); [exact E1|by rewrite E3|by rewrite E3|exact E4|].
  exists replica, primary. do 4 (split; [done|]). rewrite E3 in H1, H2. split; [exact (H1 "acme"%string)|]. exact (proj1 (H2 1%nat E5)).
Defined.

(** ** Credentials: what an engine reads from its file of users *)
Lemma add_users_none users name : (∀ u, u ∈ users → user_Name u ≠ name) → ∀ a, add_users users a !! name = a !! name.
Proof.
  unfold add_users. induction users as [|u users IH]; intros H a; cbn; [done|]. rewrite IH by (intros v Hv; apply H; by right).
  unfold AddUser. rewrite lookup_insert_ne; [done|]. apply H. by left.
Qed.
Lemma add_users_one users u : u ∈ users → (∀ v, v ∈ users → user_Name v = user_Name u → v = u) → ∀ a, add_users users a !! user_Name u = Some u.
Proof.
  induction users as [|v users IH]; intros Hin H a; [by apply not_elem_of_nil in Hin|]. change (add_users users (AddUser a v) !! user_Name u = Some u).
  destruct (decide (u ∈ users)) as [Hu|Hu]; [apply IH; [done|]; intros w Hw; apply H; by right|].
  apply elem_of_cons in Hin as [->|?]; [|done]. rewrite add_users_none; [unfold AddUser; apply lookup_insert_eq|].
  intros w Hw E. apply Hu. rewrite <- (H w); [done|by right|done].
Qed.
Lemma add_users_named users : ∀ a, map_Forall (λ n u, user_Name u = n) a → map_Forall (λ n u, user_Name u = n) (add_users users a).
Proof. induction users as [|u users IH]; intros a Ha; cbn; [done|]. apply IH. by apply map_Forall_insert_2. Qed.

(** A file of users that is read back opens to the users that were written. *)
Lemma ReplaceUsers_named (l : list User) name : ∀ a : ACLStore, name ≠ ""%string →
  foldl (λ a o, match o with Some u => if bool_decide (user_Name u = ""%string) then a else <[user_Name u := u]> a | None => a end) a (Some <$> l) !! name
  = add_users l a !! name.
Proof.
  intros a Hne. revert a. unfold add_users.
  assert (H : ∀ (l : list User) (a b : ACLStore), a !! name = b !! name → foldl AddUser a l !! name = foldl AddUser b l !! name).
  { clear l. induction l as [|u l IH]; intros a b E; cbn; [done|]. apply IH. unfold AddUser. destruct (decide (user_Name u = name)) as [->|?]; by simpl_map. }
  induction l as [|u l IH]; intros a; cbn; [done|]. rewrite IH. case_bool_decide as E; [|done]. apply H. unfold AddUser. rewrite lookup_insert_ne; [done|]. by rewrite E.
Qed.
Lemma acl_round users name a : name ≠ ""%string → load_acl (Some (acl_file users)) a !! name = add_users users ∅ !! name.
Proof.
  intros Hne. cbn. unfold ReplaceUsers. rewrite ReplaceUsers_named by done. unfold acl_file, SnapshotUsers.
  assert (E : DisableDefault NewACLStore = ∅) by (vm_compute; reflexivity). rewrite E. set (b := add_users users ∅).
  assert (Hb : map_Forall (λ n u, user_Name u = n) b) by (apply add_users_named; intros ? ? ?; by simplify_map_eq). clearbody b.
  destruct (b !! name) as [u|] eqn:Eu.
  - rewrite <- (Hb _ _ Eu). apply add_users_one; [|].
    + apply list_elem_of_fmap. exists (name, u). split; [done|]. by apply elem_of_map_to_list.
    + intros v ([n w] & -> & Hw)%list_elem_of_fmap E1. apply elem_of_map_to_list in Hw. cbn in E1. rewrite (Hb _ _ Hw), (Hb _ _ Eu) in E1. subst n. cbn. congruence.
  - rewrite add_users_none; [done|]. intros v ([n w] & -> & Hw)%list_elem_of_fmap E1. apply elem_of_map_to_list in Hw. cbn in E1. rewrite (Hb _ _ Hw) in E1. subst. congruence.
Qed.

(** The users of a table of keys. *)
Lemma live_users_in ks u : u ∈ live_users ks ↔ ∃ id k, ks !! id = Some k ∧ Revoked k = false ∧ u = tenantUser k.
Proof.
  unfold live_users. rewrite list_elem_of_fmap. split.
  - intros ([id k] & -> & [H1 H2]%list_elem_of_In%filter_In). apply list_elem_of_In, elem_of_map_to_list in H1. exists id, k. cbn in *. split; [done|]. split; [by destruct (Revoked k)|done].
  - intros (id & k & H1 & H2 & ->). exists (id, k). split; [done|]. apply list_elem_of_In, filter_In. split; [apply list_elem_of_In; by apply elem_of_map_to_list|]. cbn. by rewrite H2.
Qed.

Definition keys_named (t : Tenant) : Prop := map_Forall (λ id k, k_ID k = id) (Keys t).

(** A live key among well-named ones is the user of its name, a revoked one none. *)
Lemma live_user_known ks k a :
  map_Forall (λ id k, k_ID k = id) ks → ks !! k_ID k = Some k → Revoked k = false →
  add_users (live_users ks) a !! k_ID k = Some (tenantUser k).
Proof.
  intros Hn Hk Hr. change (k_ID k) with (user_Name (tenantUser k)). apply add_users_one; [apply live_users_in; by exists (k_ID k), k|].
  intros v (i & y & Hi & _ & ->)%live_users_in E. cbn in E. f_equal. rewrite <- (Hn _ _ Hi), E in Hi. congruence.
Qed.
Lemma live_user_gone ks key k a :
  map_Forall (λ id k, k_ID k = id) (delete key ks) → ks !! key = Some k → Revoked k = true → add_users (live_users ks) a !! key = a !! key.
Proof.
  intros Hn Hk Hr. apply add_users_none. intros u (i & y & Hi & Hy & ->)%live_users_in E. cbn in E.
  destruct (decide (i = key)) as [->|Hne]; [congruence|]. apply Hne. rewrite <- E. symmetry. apply (Hn i y). by rewrite lookup_delete_ne.
Qed.

(** The users of a tenant that is no replica. *)
Lemma collect_in r t u : Role t ≠ "replica"%string → u ∈ collectTenantUsers r t ↔ ∃ id k, Keys t !! id = Some k ∧ Revoked k = false ∧ u = tenantUser k.
Proof.
  intros Hr. unfold collectTenantUsers. rewrite bool_decide_eq_false_2, app_nil_r by done. apply live_users_in.
Qed.

(** ** Credentials: what a change of the keys leaves behind *)
Lemma sync_one_users x m h :
  instances (m_run (sync_one x m)) = instances (m_run m) ∧ workers (m_run (sync_one x m)) = workers (m_run m) ∧
  o_saved (m_out (sync_one x m)) = o_saved (m_out m) ∧ (o_oracle (m_out m) = [] → o_oracle (m_out (sync_one x m)) = []) ∧
  (workers (m_run m) !! ID x ≠ Some h → engines (m_run (sync_one x m)) !! h = engines (m_run m) !! h) ∧
  (workers (m_run m) !! ID x = Some h → o_oracle (m_out m) = [] → engines (m_run (sync_one x m)) !! h =
     set_users (load_acl (Some (acl_file (collectTenantUsers (m_reg m) x)))) <$> engines (m_run m) !! h).
Proof.
  destruct m as [n reg run o]. unfold sync_one, writeUsersACL, ask. cbn. destruct (o_oracle o) as [|[] l] eqn:Eo; cbn; [..|by repeat split].
  - destruct (workers run !! ID x) as [k|]; cbn; rewrite ?Eo; cbn; [|by repeat split].
    do 4 (split; [done|]). split; [intros Hk; apply list_lookup_alter_ne; congruence|]. intros [= ->] _. rewrite list_lookup_alter_eq, lookup_insert_eq. done.
  - destruct (workers run !! ID x) as [k|]; cbn; rewrite ?Eo; cbn; [|by repeat split].
    destruct l as [|[] l]; cbn; do 4 (split; [done|]); (split; [intros Hk; try done; apply list_lookup_alter_ne; congruence|done]).
Qed.

Lemma sync_one_reg x m : m_reg (sync_one x m) = m_reg m.
Proof.
  unfold sync_one. destruct (writeUsersACL_frame (DataDir x) (collectTenantUsers (m_reg m) x) m) as (_ & A2 & _).
  destruct (writeUsersACL _ _ m) as [[] m1]; cbn [snd] in *; [|done]. destruct (workers (m_run m1) !! ID x) as [h|]; [|done].
  destruct (ask_frame m1) as (_ & B2 & _). destruct (ask m1) as [[] m2]; cbn [snd] in *; cbn; congruence.
Qed.

Lemma sync_all_users r l h users : ∀ m, m_reg m = r → (∀ x, x ∈ l → workers (m_run m) !! ID x = Some h → acl_file (collectTenantUsers r x) = users) →
  let m' := foldl (λ m x, sync_one x m) m l in
  instances (m_run m') = instances (m_run m) ∧ workers (m_run m') = workers (m_run m) ∧ o_saved (m_out m') = o_saved (m_out m) ∧ m_reg m' = r ∧
  ((∀ x, x ∈ l → workers (m_run m) !! ID x ≠ Some h) → engines (m_run m') !! h = engines (m_run m) !! h) ∧
  (o_oracle (m_out m) = [] → engines (m_run m') !! h = engines (m_run m) !! h ∨ engines (m_run m') !! h = set_users (load_acl (Some users)) <$> engines (m_run m) !! h) ∧
  (o_oracle (m_out m) = [] → (∃ x, x ∈ l ∧ workers (m_run m) !! ID x = Some h) → engines (m_run m') !! h = set_users (load_acl (Some users)) <$> engines (m_run m) !! h).
Proof.
  induction l as [|x l IH]; intros m Hm Hx m'.
  - repeat split; auto. intros _ (x & Hin & _). by apply not_elem_of_nil in Hin.
  - unfold m'. cbn [foldl]. destruct (sync_one_users x m h) as (A1 & A2 & A3 & A4 & A5 & A6).
    assert (Hreg : m_reg (sync_one x m) = r) by (by rewrite sync_one_reg).
    destruct (IH (sync_one x m) Hreg) as (B1 & B2 & B3 & B4 & B5 & B6 & B7); [rewrite A2; intros y Hy; apply Hx; by right|].
    rewrite A1, A2, A3 in *. split; [done|]. split; [done|]. split; [done|]. split; [done|].
    assert (Hone : o_oracle (m_out m) = [] → engines (m_run (sync_one x m)) !! h = engines (m_run m) !! h ∨
        engines (m_run (sync_one x m)) !! h = set_users (load_acl (Some users)) <$> engines (m_run m) !! h).
    { intros Ho. destruct (decide (workers (m_run m) !! ID x = Some h)) as [Hw|Hw]; [right|left; by apply A5].
      rewrite (A6 Hw Ho), Hm, (Hx x) by (done || by left). done. }
    assert (Htwice : ∀ o : option Engine, set_users (load_acl (Some users)) <$> (set_users (load_acl (Some users)) <$> o) = set_users (load_acl (Some users)) <$> o) by (by intros [e|]).
    split; [intros Hn; rewrite B5 by (intros y Hy; apply Hn; by right); apply A5, Hn; by left|]. split.
    + intros Ho. destruct (B6 (A4 Ho)) as [-> | ->]; destruct (Hone Ho) as [-> | ->]; rewrite ?Htwice; auto.
    + intros Ho (y & Hy & Hw). apply elem_of_cons in Hy as [->|Hy].
      * assert (E : engines (m_run (sync_one x m)) !! h = set_users (load_acl (Some users)) <$> engines (m_run m) !! h) by (rewrite (A6 Hw Ho), Hm, (Hx x) by (done || by left); done).
        destruct (B6 (A4 Ho)) as [-> | ->]; rewrite E; [done|apply Htwice].
      * rewrite B7 by (auto || by exists y). destruct (Hone Ho) as [-> | ->]; [done|apply Htwice].
Qed.

(** The common part of [CreateTenantKey] and [RevokeTenantKey], once the state is
    saved. *)
Lemma keys_changed m m2 id p t t1 f :
  ok false m → r_tenants (m_reg m) !! id = Some p → tenant (m_reg m) id = Some t → ID t1 = ID t →
  saveState (with_reg m (set_tenant p t1 (m_reg m))) = (true, m2) →
  let m3 := syncTenantACL t1 m2 in
  let m' := if instances (m_run m2) !! id is Some h then upd_engine (set_users f) h m3 else m3 in
  (∀ x, tenant (m_reg m') x = if decide (x = id) then Some t1 else tenant (m_reg m) x) ∧
  o_saved (m_out m') = Some (all_tenants (m_reg m')) ∧ instances (m_run m') = instances (m_run m) ∧ workers (m_run m') = workers (m_run m) ∧
  (∀ h e, instances (m_run m) !! id = Some h → engines (m_run m') !! h = Some e → ∃ a, e_users e = f a) ∧
  (∀ h e, workers (m_run m) !! id = Some h → o_oracle (m_out m) = [] → engines (m_run m') !! h = Some e →
     ∃ r a, e_users e = load_acl (Some (acl_file (collectTenantUsers r t1))) a).
Proof.
  intros Hok Hp Ht Hid E m3 m'. pose proof (i_heap _ _ _ _ Hok) as Hh. destruct (looked_up m _ _ _ Hh Hp Ht) as [Eid _]. rewrite Eid in Hid.
  set (r := set_tenant p t1 (m_reg m)) in *. destruct (saveState_frame (with_reg m r)) as (_ & F2 & F3). rewrite E in F2, F3. cbn in F2, F3.
  assert (Hsaved : o_saved (m_out m2) = Some (all_tenants r) ∧ (o_oracle (m_out m) = [] → o_oracle (m_out m2) = [])).
  { revert E. unfold saveState, ask. cbn. destruct (o_oracle (m_out m)) as [|[] l] eqn:Eo; intros [= <-]; by cbn. }
  assert (Hten : ∀ x, tenant r x = if decide (x = id) then Some t1 else tenant (m_reg m) x) by (intros x; unfold r; rewrite tenant_set by (done || by rewrite Hid); by rewrite Hid).
  assert (Hr : heap_ok r) by (apply heap_ok_set; [done|by rewrite Hid]).
  assert (Hmem : ∀ h x, x ∈ t1 :: set_members r t1 → workers (m_run m2) !! ID x = Some h → registered (m_run m) id h → x = t1 ∧ workers (m_run m) !! id = Some h).
  { intros h x Hx Hw Hreg. rewrite F3 in Hw. assert (Ex : ID x = id) by (eapply (i_once _ _ _ _ Hok); [by right|done]). rewrite Ex in Hw. split; [|done].
    apply elem_of_cons in Hx as [->|Hx]; [done|]. unfold set_members in Hx. destruct (bool_decide _); [by apply not_elem_of_nil in Hx|].
    apply list_elem_of_omap in Hx as (y & _ & Hy). pose proof (tenant_ID r y x Hr Hy). subst y. rewrite Hten, Ex, decide_True in Hy by done. congruence. }
  assert (Hsync : ∀ h, registered (m_run m) id h → _) by (intros h Hreg; exact (sync_all_users r (t1 :: set_members r t1) h (acl_file (collectTenantUsers r t1)) m2 F2
    (λ x Hx Hw, f_equal (λ x, acl_file (collectTenantUsers r x)) (proj1 (Hmem h x Hx Hw Hreg))))).
  assert (Hfold : m3 = foldl (λ m x, sync_one x m) m2 (t1 :: set_members r t1)) by (unfold m3, syncTenantACL; by rewrite F2).
  assert (Hgen : instances (m_run m3) = instances (m_run m) ∧ workers (m_run m3) = workers (m_run m) ∧ o_saved (m_out m3) = o_saved (m_out m2) ∧ m_reg m3 = r).
  { rewrite Hfold, <- F3. clear - F2. generalize (t1 :: set_members r t1). intros l. revert m2 F2. induction l as [|x l IH]; intros m2 F2; cbn; [done|].
    destruct (sync_one_users x m2 0) as (A1 & A2 & A3 & _). rewrite <- A1, <- A2, <- A3. apply IH. by rewrite sync_one_reg. }
  destruct Hgen as (G1 & G2 & G3 & G4).
  assert (Hm' : m_reg m' = r ∧ m_out m' = m_out m3 ∧ instances (m_run m') = instances (m_run m3) ∧ workers (m_run m') = workers (m_run m3)) by (unfold m'; by destruct (instances _ !! _)).
  destruct Hm' as (K1 & K2 & K3 & K4). split; [by rewrite K1|]. rewrite K1, K2, G3, K3, K4. split; [by apply Hsaved|]. split; [done|]. split; [done|]. split.
  - intros h e Hi He. unfold m' in He. rewrite F3, Hi in He. cbn in He. rewrite list_lookup_alter_eq in He. apply fmap_Some in He as (e0 & _ & ->). by exists (e_users e0).
  - intros h e Hw Ho He. destruct (Hsync h (or_intror Hw)) as (_ & _ & _ & _ & _ & _ & S7). rewrite <- Hfold in S7. rewrite F3 in S7.
    assert (Ei : instances (m_run m) !! id = None). { destruct (instances (m_run m) !! id) as [k|] eqn:Ek; [|done]. by rewrite (i_excl _ _ _ _ Hok _ _ Ek) in Hw. }
    unfold m' in He. rewrite F3, Ei in He. rewrite S7 in He; [|by apply Hsaved|exists t1; split; [by left|by rewrite Hid]].
    apply fmap_Some in He as (e0 & _ & ->). by exists r, (e_users e0).
Qed.

(** ** Credentials: what the engines read from the files *)
Lemma sync_one_file x m :
  o_oracle (m_out m) = [] →
  o_oracle (m_out (sync_one x m)) = [] ∧ o_acl (m_out (sync_one x m)) = <[DataDir x := acl_file (collectTenantUsers (m_reg m) x)]> (o_acl (m_out m)).
Proof.
  intros Ho. unfold sync_one, writeUsersACL, ask. rewrite Ho. cbn. destruct (workers (m_run m) !! ID x); cbn; by rewrite Ho.
Qed.

Lemma sync_all_files r l : ∀ m, m_reg m = r → o_oracle (m_out m) = [] → NoDup (DataDir <$> l) →
  let m' := foldl (λ m x, sync_one x m) m l in
  o_oracle (m_out m') = [] ∧ (∀ d, d ∉ DataDir <$> l → o_acl (m_out m') !! d = o_acl (m_out m) !! d) ∧
  ∀ x, x ∈ l → o_acl (m_out m') !! DataDir x = Some (acl_file (collectTenantUsers r x)).
Proof.
  induction l as [|x l IH]; intros m Hm Ho Hnd; cbn [foldl].
  - split; [done|]. split; [done|]. by intros x ?%not_elem_of_nil.
  - rewrite fmap_cons, NoDup_cons in Hnd. destruct Hnd as [Hx Hnd]. destruct (sync_one_file x m Ho) as [O1 A1].
    destruct (IH (sync_one x m)) as (I1 & I2 & I3); [by rewrite sync_one_reg|done|done|]. split; [done|]. split.
    + intros d Hd. rewrite fmap_cons, elem_of_cons in Hd. rewrite I2, A1 by tauto. apply lookup_insert_ne. intros <-. apply Hd. by left.
    + intros y [->|Hy]%elem_of_cons; [|by apply I3]. by rewrite I2, A1, Hm, lookup_insert_eq.
Qed.

(** The tenant [id] itself, or a replica of it. *)
Definition part_of (m : Manager) (id : string) (t : Tenant) (x : string) (r : Tenant) : Prop :=
  x = id ∧ r = t ∨
  x ∈ Replicas t ∧ x ≠ id ∧ tenant (m_reg m) x = Some r ∧ Role r = "replica"%string ∧ ReplicaOf r = id.
(** The users of its own that a replica has beside those of its primary. *)
Definition own_users (id x : string) (r : Tenant) : list User := if decide (x = id) then [] else live_users (Keys r).

Lemma members_dirs reg reg' t t1 id :
  (∀ x, tenant reg' x = if decide (x = id) then Some t1 else tenant reg x) → tenant reg id = Some t → DataDir t1 = DataDir t →
  Role t1 = Role t → Replicas t1 = Replicas t → DataDir <$> set_members reg' t1 = DataDir <$> set_members reg t.
Proof.
  intros Hten Ht Hd Hr Hl. unfold set_members. rewrite Hr, Hl. destruct (bool_decide _); [done|].
  assert (Hc : ∀ g x l, omap (tenant g) (x :: l) = match tenant g x with Some y => y :: omap (tenant g) l | None => omap (tenant g) l end) by done.
  clear Hl. induction (Replicas t) as [|x l IH]; [done|]. rewrite !Hc, Hten. destruct (decide (x = id)) as [->|]; [rewrite Ht, !fmap_cons; by rewrite Hd, IH|].
  destruct (tenant reg x); [rewrite !fmap_cons|]; by rewrite IH.
Qed.

(** When no call fails, the files of the tenant and of its replicas have the new
    keys. *)
Lemma keys_filed m m2 id p t keys f :
  ok false m → r_tenants (m_reg m) !! id = Some p → tenant (m_reg m) id = Some t → Role t ≠ "replica"%string →
  let t1 := set_Keys keys t in
  saveState (with_reg m (set_tenant p t1 (m_reg m))) = (true, m2) →
  let m3 := syncTenantACL t1 m2 in
  let m' := if instances (m_run m2) !! id is Some h then upd_engine (set_users f) h m3 else m3 in
  o_oracle (m_out m) = [] → NoDup (DataDir <$> (t :: set_members (m_reg m) t)) →
  o_oracle (m_out m') = [] ∧
  ∀ x r, part_of m id t x r → ∃ y, tenant (m_reg m') x = Some y ∧
    o_acl (m_out m') !! DataDir y = Some (acl_file (own_users id x r ++ live_users keys)).
Proof.
  intros Hok Hp Ht Hr t1 E m3 m' Ho Hnd. destruct (looked_up m _ _ _ (i_heap _ _ _ _ Hok) Hp Ht) as [Eid _].
  destruct (keys_changed m m2 id p t t1 f Hok Hp Ht eq_refl E) as (A1 & _). fold m3 in A1. fold m' in A1.
  set (r1 := set_tenant p t1 (m_reg m)) in *. destruct (saveState_frame (with_reg m r1)) as (_ & F2 & _). rewrite E in F2. cbn in F2.
  assert (O2 : o_oracle (m_out m2) = []) by (revert E; unfold saveState, ask; cbn; rewrite Ho; by intros [= <-]).
  assert (Hout : m_out m' = m_out m3 ∧ m_reg m' = m_reg m3) by (unfold m'; by destruct (instances _ !! _)).
  assert (Hten : ∀ x, tenant r1 x = if decide (x = id) then Some t1 else tenant (m_reg m) x)
    by (intros x; unfold r1; change (ID t1) with (ID t) in *; rewrite tenant_set; cbn [t1 set_Keys ID]; [by rewrite Eid|apply Hok|by rewrite Eid]).
  destruct (sync_all_files r1 (t1 :: set_members r1 t1) m2 F2 O2) as (S1 & _ & S3).
  { rewrite fmap_cons, (members_dirs (m_reg m) r1 t t1 id) by done. exact Hnd. }
  assert (Hfold : m3 = foldl (λ m x, sync_one x m) m2 (t1 :: set_members r1 t1)) by (unfold m3, syncTenantACL; by rewrite F2).
  rewrite <- Hfold in S1, S3. rewrite (proj1 Hout). split; [done|].
  intros x r [[-> ->]|(Hx & Hne & Htx & Hrx & Hpx)].
  - exists t1. rewrite A1, decide_True by done. split; [done|]. rewrite S3 by (by left). unfold own_users. rewrite decide_True by done.
    unfold collectTenantUsers. cbn [Role t1 set_Keys Keys]. by rewrite bool_decide_eq_false_2, app_nil_r by done.
  - exists r. rewrite A1, decide_False by done. split; [done|]. rewrite S3.
    + unfold own_users. rewrite decide_False by done. unfold collectTenantUsers. rewrite bool_decide_eq_true_2 by done.
      by rewrite Hpx, Hten, decide_True.
    + right. unfold set_members. cbn [Role t1 set_Keys Replicas]. rewrite bool_decide_eq_false_2 by done.
      apply list_elem_of_omap. exists x. split; [done|]. by rewrite Hten, decide_False.
Qed.

(** What an engine knows once it has read its file. *)
Lemma polled_users m x y h e users name :
  ok false m → registered (m_run m) x h → tenant (m_reg m) x = Some y → o_oracle (m_out m) = [] →
  o_acl (m_out m) !! DataDir y = Some (acl_file users) → engines (m_run (poll_acl h m)) !! h = Some e → name ≠ ""%string →
  e_users e !! name = add_users users ∅ !! name.
Proof.
  intros Hok Hreg Hy Ho Hf He Hn. destruct (i_serves _ _ _ _ Hok x h Hreg) as (t & e0 & E1 & E2 & E3 & E4 & _). rewrite Hy in E1. injection E1 as <-.
  unfold poll_acl in He. rewrite E2 in He. unfold dir_of in E4. rewrite E4, Hf, E3 in He. unfold ask in He. rewrite Ho in He.
  cbn in He. rewrite list_lookup_alter_eq, E2 in He. injection He as <-. cbn [e_users set_users]. by apply acl_round.
Qed.

(** [key] of the tenant aside, the same secrets open the same tenants. *)
Definition others_kept (m m' : Manager) (id key : string) : Prop :=
  ∀ x k s, x ≠ id ∨ k ≠ key → is_Some (VerifyTenantKey m' x k s) ↔ is_Some (VerifyTenantKey m x k s).
(** An engine that has the users of the tenant: an in-process one is told, a
    worker reads its file, if no call fails. *)
Definition informed (m : Manager) (id : string) (h : nat) : Prop :=
  instances (m_run m) !! id = Some h ∨ workers (m_run m) !! id = Some h ∧ o_oracle (m_out m) = [].

Lemma others_keys m m' id key t keys :
  tenant (m_reg m) id = Some t → (∀ k, k ≠ key → keys !! k = Keys t !! k) →
  (∀ x, tenant (m_reg m') x = if decide (x = id) then Some (set_Keys keys t) else tenant (m_reg m) x) → others_kept m m' id key.
Proof.
  intros Ht Hk H x k s Hne. unfold VerifyTenantKey. rewrite H. destruct (decide (x = id)) as [->|]; [|done].
  destruct Hne as [?|Hne]; [done|]. rewrite Ht. cbn [Keys set_Keys]. rewrite Hk by done. destruct (Keys t !! k) as [y|]; [|done]. destruct (Revoked y); [done|]. by case_bool_decide.
Qed.

(** The user of a key as an engine must know it. *)
Definition knows (e : Engine) (pub : TenantKey) (secret role : string) : Prop :=
  ∃ u, GetUser (e_users e) (k_ID pub) = Some u ∧ Authenticate u secret = None ∧ rolePermissions role = Some (Permissions u) ∧
       AllowedKeys u = KeyPatterns pub.
(** No call fails, and the tenant and its replicas have directories of their own. *)
Definition files_written (m : Manager) (t : Tenant) : Prop :=
  o_oracle (m_out m) = [] ∧ NoDup (DataDir <$> (t :: set_members (m_reg m) t)).

(** What the creation of a key changes. *)
Lemma key_created m id t :
  ok false m → tenant (m_reg m) id = Some t → keys_named t → Role t ≠ "replica"%string →
  ∀ encode idBytes secretBytes now name role patterns secret pub m',
    idBytes ≠ [] → CreateTenantKey encode (Some (idBytes, secretBytes)) now id name role patterns m = (Ok (secret, pub), m') →
    k_Hash pub = ""%string ∧
    (∀ s, is_Some (VerifyTenantKey m' id (k_ID pub) s) ↔ HashPassword s = HashPassword secret) ∧
    (∀ h e, informed m id h → engines (m_run m') !! h = Some e → knows e pub secret role) ∧
    (files_written m t → ∀ x r h e, part_of m id t x r → registered (m_run m) x h →
       engines (m_run (poll_acl h m')) !! h = Some e → knows e pub secret role) ∧
    others_kept m m' id (k_ID pub) ∧ o_saved (m_out m') = Some (all_tenants (m_reg m')).
Proof.
  intros Hok Ht Hn Hr. pose proof (i_heap _ _ _ _ Hok) as Hh.
  intros encode ib sb now name role patterns secret pub m' Hib Hcr.
  pose proof (proj1 (create_key_ok false encode (Some (ib, sb)) now id name role patterns m Hok)) as Hok'. rewrite Hcr in Hok'. cbn [snd] in Hok'. revert Hcr.
  unfold CreateTenantKey. case_bool_decide; [done|]. case_bool_decide as Hrole; [done|]. cbv zeta.
  destruct (r_tenants (m_reg m) !! id) as [p|] eqn:Ep; [|done]. rewrite Ht. set (pats := if bool_decide (patterns = []) then _ else _).
  set (key := {| k_ID := _ |}). set (t1 := set_Keys _ t). destruct (saveState (with_reg m (set_tenant p t1 (m_reg m)))) as [[] m2] eqn:Es; cbn [negb]; [|done].
  destruct (keys_changed m m2 id p t t1 (λ a, AddUser a (tenantUser key)) Hok Ep Ht eq_refl Es) as (A1 & A2 & A3 & A4 & A5 & A6).
  pose proof (keys_filed m m2 id p t _ (λ a, AddUser a (tenantUser key)) Hok Ep Ht Hr Es) as Hfile. cbv zeta in Hfile. fold t1 in Hfile. intros [= <- <- Em']. rewrite Em' in *.
  assert (Hid : k_ID key ≠ ""%string). { destruct ib as [|b ib]; [done|]. cbn. discriminate. }
  assert (Hn1 : map_Forall (λ i k, k_ID k = i) (<[k_ID key := key]> (Keys t))) by (by apply map_Forall_insert_2).
  assert (Hu : ∀ e, e_users e !! k_ID key = Some (tenantUser key) → knows e (publicTenantKey key) (encode sb) role).
  { intros e Ha. exists (tenantUser key). split; [done|]. split; [unfold Authenticate; cbn; by rewrite bool_decide_eq_true_2|]. split; [|done]. cbn. by destruct (rolePermissions role). }
  split; [done|]. split; [|split; [|split; [|split; [|done]]]].
  + intros s. unfold VerifyTenantKey. rewrite A1, decide_True by done. cbn [Keys t1 set_Keys]. rewrite lookup_insert_eq. cbn [Revoked k_Hash key].
    case_bool_decide as Es'; split; intros Hs; done.
  + intros h e [Hi|[Hw Ho]] He; apply Hu.
    * destruct (A5 h e Hi He) as [a ->]. unfold AddUser. apply lookup_insert_eq.
    * destruct (A6 h e Hw Ho He) as (r & a & ->). rewrite acl_round by done. unfold collectTenantUsers. rewrite bool_decide_eq_false_2, app_nil_r by done.
      apply live_user_known; [done|apply lookup_insert_eq|done].
  + intros [Ho Hnd] x r h e Hpart Hreg He. apply Hu. destruct (Hfile Ho Hnd) as [Ho' Hf]. destruct (Hf x r Hpart) as (y & Hy & Hacl).
    assert (Hreg' : registered (m_run m') x h) by (unfold registered; by rewrite A3, A4).
    rewrite (polled_users m' x y h e _ (k_ID key) Hok' Hreg' Hy Ho' Hacl He Hid). unfold add_users. rewrite foldl_app.
    apply (live_user_known _ key); [done|apply lookup_insert_eq|done].
  + eapply others_keys; [exact Ht| |exact A1]. intros k Hk. by apply lookup_insert_ne.
Qed.

(** What its revocation changes. *)
Lemma key_revoked m id t :
  ok false m → tenant (m_reg m) id = Some t → keys_named t → Role t ≠ "replica"%string →
  ∀ key m', key ≠ ""%string → RevokeTenantKey id key m = (Ok tt, m') →
    (∀ s, VerifyTenantKey m' id key s = None) ∧
    (∀ h e, informed m id h → engines (m_run m') !! h = Some e → GetUser (e_users e) key = None) ∧
    (files_written m t → ∀ x r h e, part_of m id t x r → registered (m_run m) x h →
       (∀ u, u ∈ own_users id x r → user_Name u ≠ key) →
       engines (m_run (poll_acl h m')) !! h = Some e → GetUser (e_users e) key = None) ∧
    others_kept m m' id key ∧ o_saved (m_out m') = Some (all_tenants (m_reg m')).
Proof.
  intros Hok Ht Hn Hr. pose proof (i_heap _ _ _ _ Hok) as Hh.
  intros key m' Hid Hrv.
  pose proof (proj1 (revoke_key_ok false id key m Hok)) as Hok'. rewrite Hrv in Hok'. cbn [snd] in Hok'. revert Hrv.
  unfold RevokeTenantKey. destruct (r_tenants (m_reg m) !! id) as [p|] eqn:Ep; [|done]. rewrite Ht. destruct (Keys t !! key) as [k0|] eqn:Ek; [|done]. cbv zeta.
  set (k1 := set_Revoked _ _ _). set (t1 := set_Keys _ t). destruct (saveState (with_reg m (set_tenant p t1 (m_reg m)))) as [[] m2] eqn:Es; cbn [negb]; [|done].
  destruct (keys_changed m m2 id p t t1 (λ a, snd (DeleteUser a key)) Hok Ep Ht eq_refl Es) as (A1 & A2 & A3 & A4 & A5 & A6).
  pose proof (keys_filed m m2 id p t _ (λ a, snd (DeleteUser a key)) Hok Ep Ht Hr Es) as Hfile. cbv zeta in Hfile. fold t1 in Hfile. intros [= Em']. rewrite Em' in *.
  assert (Hn1 : map_Forall (λ i k, k_ID k = i) (delete key (<[key := k1]> (Keys t)))) by (rewrite delete_insert_eq; by apply map_Forall_delete).
  assert (Hgone : ∀ a, add_users (live_users (<[key := k1]> (Keys t))) a !! key = a !! key)
    by (intros a; apply (live_user_gone _ key k1); [done|apply lookup_insert_eq|done]).
  split; [|split; [|split; [|split; [|done]]]].
  + intros s. unfold VerifyTenantKey. rewrite A1, decide_True by done. cbn [Keys t1 set_Keys]. by rewrite lookup_insert_eq.
  + intros h e [Hi|[Hw Ho]] He; unfold GetUser.
    * destruct (A5 h e Hi He) as [a ->]. unfold DeleteUser. destruct (a !! key) eqn:E; [apply lookup_delete_eq|done].
    * destruct (A6 h e Hw Ho He) as (r & a & ->). rewrite acl_round by done. unfold collectTenantUsers. rewrite bool_decide_eq_false_2, app_nil_r by done.
      apply Hgone.
  + intros [Ho Hnd] x r h e Hpart Hreg Hown He. unfold GetUser. destruct (Hfile Ho Hnd) as [Ho' Hf]. destruct (Hf x r Hpart) as (y & Hy & Hacl).
    assert (Hreg' : registered (m_run m') x h) by (unfold registered; by rewrite A3, A4).
    rewrite (polled_users m' x y h e _ key Hok' Hreg' Hy Ho' Hacl He Hid). unfold add_users. rewrite foldl_app.
    etransitivity; [apply Hgone|]. etransitivity; [apply (add_users_none _ _ Hown)|]. apply lookup_empty.
  + eapply others_keys; [exact Ht| |exact A1]. intros k Hk. by apply lookup_insert_ne.
Qed.

(** C12: a key that was created for a tenant that is no replica opens it
    with the secret that was returned and with nothing whose hash differs, and the
    hash is not returned. The engine of the tenant knows it as a user with the
    permissions of its role and the patterns of the key: at once when it runs in the
    process, at once when it is a worker and no call failed; and when no call
    failed and the tenant and its replicas have directories of their own, every
    engine of the tenant and of its replicas knows it after it has next polled its
    file and found it changed. Once a key is revoked no secret opens
    the tenant with it, and the same engines at the same times no longer know it, a
    replica unless it has a live key of its own with that name. Either way every
    other key of every tenant works as before, and the state that was saved is the
    one in memory. Until an engine has been told or has polled, it may know a
    revoked key or not know a new one. *)
Theorem keys_correct m id t :
  ok false m → tenant (m_reg m) id = Some t → keys_named t → Role t ≠ "replica"%string →
  (∀ encode idBytes secretBytes now name role patterns secret pub m',
     idBytes ≠ [] → CreateTenantKey encode (Some (idBytes, secretBytes)) now id name role patterns m = (Ok (secret, pub), m') →
     k_Hash pub = ""%string ∧
     (∀ s, is_Some (VerifyTenantKey m' id (k_ID pub) s) ↔ HashPassword s = HashPassword secret) ∧
     (∀ h e, informed m id h → engines (m_run m') !! h = Some e → knows e pub secret role) ∧
     (files_written m t → ∀ x r h e, part_of m id t x r → registered (m_run m) x h →
        engines (m_run (poll_acl h m')) !! h = Some e → knows e pub secret role) ∧
     others_kept m m' id (k_ID pub) ∧ o_saved (m_out m') = Some (all_tenants (m_reg m'))) ∧
  (∀ key m', key ≠ ""%string → RevokeTenantKey id key m = (Ok tt, m') →
     (∀ s, VerifyTenantKey m' id key s = None) ∧
     (∀ h e, informed m id h → engines (m_run m') !! h = Some e → GetUser (e_users e) key = None) ∧
     (files_written m t → ∀ x r h e, part_of m id t x r → registered (m_run m) x h →
        (∀ u, u ∈ own_users id x r → user_Name u ≠ key) →
        engines (m_run (poll_acl h m')) !! h = Some e → GetUser (e_users e) key = None) ∧
     others_kept m m' id key ∧ o_saved (m_out m') = Some (all_tenants (m_reg m'))).
Proof. intros Hok Ht Hn Hr. split; [by apply (key_created m id t)|by apply (key_revoked m id t)]. Qed.

(** A tenant with a replica and one key; then the key is revoked. *)
Definition demo_encode : list byte → string := EncodeToString.
Definition demo_random : option (list byte * list byte) := Some ([Byte.x01; Byte.x02], [Byte.x0a; Byte.x0b]).
Definition demo_created : res string (string * TenantKey) * Manager := CreateTenantKey demo_encode demo_random 0 "acme" "ci" "writer" [] demo_set.
Definition demo_pub : TenantKey :=
  {| k_ID := "0102"; k_Name := "ci"; k_Hash := ""; k_Role := "writer"; KeyPatterns := ["*"%string]; Generation := 1; Revoked := false; CreatedAt := 0 |}.
Definition demo_keyed : Manager := snd demo_created.
Definition demo_revoked : res string unit * Manager := RevokeTenantKey "acme" "0102" demo_keyed.

Lemma keys_correct_witness :
  fst demo_created = Ok ("0a0b"%string, demo_pub) ∧ is_Some (VerifyTenantKey demo_keyed "acme" "0102" "0a0b") ∧
  fst demo_revoked = Ok tt ∧ VerifyTenantKey (snd demo_revoked) "acme" "0102" "0a0b" = None.
Proof.
  assert (E1 : fst demo_created = Ok ("0a0b"%string, demo_pub)) by (vm_compute; reflexivity).
  assert (E2 : fst demo_revoked = Ok tt) by (vm_compute; reflexivity).
  destruct (tenant (m_reg demo_set) "acme") as [t|] eqn:T1; [|vm_compute in T1; discriminate].
  assert (R1 : Role t ≠ "replica"%string ∧ keys_named t).
  { assert (E : Keys t = ∅ ∧ Role t = "primary"%string) by (vm_compute in T1; injection T1 as <-; split; reflexivity).
    destruct E as [E ->]. split; [discriminate|]. unfold keys_named. rewrite E. by apply map_Forall_empty. }
  destruct (keys_correct demo_set "acme" t (demo_ok [OProvision "acme" "Acme" 1 ""]) T1 (proj2 R1) (proj1 R1)) as [H _].
  destruct (H demo_encode [Byte.x01; Byte.x02] [Byte.x0a; Byte.x0b] 0 "ci" "writer" [] "0a0b" demo_pub demo_keyed)%string as (_ & H1 & _);
    [discriminate|rewrite <- E1; apply surjective_pairing|].
  destruct (tenant (m_reg demo_keyed) "acme") as [t'|] eqn:T2; [|vm_compute in T2; discriminate].
  assert (R2 : Role t' ≠ "replica"%string ∧ keys_named t').
  { assert (E : Keys t' = {[ "0102"%string := {| k_ID := "0102"; k_Name := "ci"; k_Hash := HashPassword "0a0b"; k_Role := "writer"; KeyPatterns := ["*"%string];
      Generation := 1; Revoked := false; CreatedAt := 0 |} ]} ∧ Role t' = "primary"%string) by (vm_compute in T2; injection T2 as <-; vm_compute; split; reflexivity).
    destruct E as [E ->]. split; [discriminate|]. unfold keys_named. rewrite E. by apply map_Forall_singleton. }
  destruct (keys_correct demo_keyed "acme" t' (demo_ok [OProvision "acme" "Acme" 1 ""; OCreateKey demo_encode demo_random 0 "acme" "ci" "writer" []]%string) T2 (proj2 R2) (proj1 R2)) as [_ G].
  destruct (G "0102" (snd demo_revoked))%string as (G1 & _); [discriminate|rewrite <- E2; apply surjective_pairing|].
  split; [exact E1|]. split; [by apply H1|]. split; [exact E2|]. apply G1.
Defined.

(** ** Where the code does not do what it means to *)
Definition answers (l : list bool) (m : Manager) : Manager := run_op m (OAnswers l).
Definition live_on (dir : string) (m : Manager) : nat :=
  length (List.filter (λ e, e_live e && bool_decide (dir_of (e_cfg e) = dir)) (engines (m_run m))).
Definition known (m : Manager) (h : nat) (user : string) : bool :=
  match engines (m_run m) !! h with Some e => e_live e && bool_decide (is_Some (e_users e !! user)) | None => false end.

(** After a promotion the tenant lives in the directory named after its replica;
    when that name is provisioned again, two live engines share the directory. *)
Example promoted_directory_shared :
  live_on "data/tenants/acme-r1" (foldl run_op demo_manager
    [OProvision "acme" "Acme" 1 ""; OPromote "acme-r1"; ODelete "acme-r1" true; OProvision "acme-r1" "New" 0 ""]%string) = 2%nat.
Proof. vm_compute. reflexivity. Qed.

(** A wake whose save fails marks a tenant as hibernated that never was: its
    engine runs on, and is dropped without a stop or a restart when it reports an
    error. *)
Example failed_wake_marks_hibernated :
  let m := snd (wakeTenant "acme" false (answers [false] demo_set)) in
  Hibernated <$> tenant (m_reg m) "acme" = Some true ∧ TenantRunning m "acme" = true ∧
  (let m := supervise false 0 m in TenantRunning m "acme" = false ∧ live_on "data/tenants/acme" m = 1%nat).
Proof. vm_compute. repeat split. Qed.

(** A second revocation whose save fails makes the key valid again. *)
Example failed_revoke_unrevokes :
  let m := snd demo_revoked in let m' := snd (RevokeTenantKey "acme" "0102" (answers [false] m)) in
  bool_decide (is_Some (VerifyTenantKey m "acme" "0102" "0a0b")) = false ∧ bool_decide (is_Some (VerifyTenantKey m' "acme" "0102" "0a0b")) = true.
Proof. vm_compute. split; reflexivity. Qed.

(** An in-process replica that was started with a key keeps it after the key is
    revoked, until it polls its file. *)
Example revoked_key_opens_replica :
  let m := foldl run_op demo_keyed [OStopAll; ORestart "acme"; ORestart "acme-r1"; ORevokeKey "acme" "0102"]%string in
  instances (m_run m) !! "acme-r1"%string = Some 3%nat ∧ known m 2 "0102" = false ∧ known m 3 "0102" = true ∧
  known (poll_acl 3 m) 3 "0102" = false.
Proof. vm_compute. repeat split. Qed.

(** A worker whose file of users cannot be written keeps the key, polls included,
    and the revocation reports success. *)
Definition worker_node : Manager :=
  {| m_node := {| n_goos := "linux"; n_tmp := "/tmp"; n_root := "data"; n_pid := 7; n_profile := Resolve "linux" "strict"; n_stateFile := true;
                  n_newKey := replicate 32 Byte.x07; n_budget := 4000000000 |};
     m_reg := empty_registry; m_run := empty_runtime; m_out := demo_out |}.
Example revoked_key_opens_worker :
  let m := foldl run_op worker_node [OProvision "acme" "Acme" 0 ""; OCreateKey demo_encode demo_random 0 "acme" "ci" "writer" []]%string in
  let '(r, m') := RevokeTenantKey "acme" "0102" (answers [true; false] m) in
  known m 0 "0102" = true ∧ r = Ok tt ∧ known m' 0 "0102" = true ∧ known (poll_acl 0 m') 0 "0102" = true.
Proof. vm_compute. repeat split. Qed.

(** A tenant that is deleted before the goroutine of its creation starts it gets
    an engine and a quota although it is gone. *)
Example deleted_tenant_started :
  let m := snd (deleteTenant "acme" true (snd (ProvisionWith Local "acme" "Acme" 0 "" demo_manager))) in
  let m := startReplicaSet 0 [] m in
  tenant (m_reg m) "acme" = None ∧ TenantRunning m "acme" = true ∧ tenantQuotas (m_run m) !! "acme"%string = Some tenant_quota.
Proof. vm_compute. repeat split. Qed.

(** A hibernated tenant cannot be restored: the start that ends it is refused. *)
Example restore_hibernated_fails :
  fst (RestoreTenant "acme" (run_op demo_set (OHibernate "acme"))) = Err "restored tenant failed validation/startup"%string.
Proof. vm_compute. reflexivity. Qed.

(** A hibernated primary whose replica is promoted runs and is hibernated. *)
Example hibernated_primary_promoted :
  let m := foldl run_op demo_set [OHibernate "acme"; OPromote "acme-r1"]%string in
  Hibernated <$> tenant (m_reg m) "acme" = Some true ∧ TenantRunning m "acme" = true.
Proof. vm_compute. split; reflexivity. Qed.

(** ** The sentinel: at most three restarts of a tenant in a window *)
Definition wins (now : Z) (id : string) (s : gmap string restartRecord) : Z :=
  match s !! id with Some rec => if now - windowStart rec >? restartWindow then 0 else attempts rec | None => 0 end.
Lemma canRestart_bounded now id s ok s' :
  0 ≤ wins now id s ≤ maxRestartsPerWindow → canRestart now id s = (ok, s') →
  wins now id s' = (if ok then wins now id s + 1 else wins now id s) ∧ wins now id s' ≤ maxRestartsPerWindow ∧ (ok = true ↔ wins now id s < maxRestartsPerWindow).
Proof.
  unfold wins, canRestart, maxRestartsPerWindow, restartWindow. intros Hw E. destruct (s !! id) as [rec|] eqn:Es.
  - destruct (now - windowStart rec >? _) eqn:Ew; [|destruct (attempts rec >=? 3) eqn:Ea]; injection E as <- <-.
    + rewrite lookup_insert_eq. cbn. replace (now - now >? _) with false by lia. lia.
    + rewrite Es, Ew. lia.
    + rewrite lookup_insert_eq. cbn. rewrite Ew. lia.
  - injection E as <- <-. rewrite lookup_insert_eq. cbn. replace (now - now >? _) with false by lia. lia.
Qed.
