(* ===== verification/Ingress.v ===== *)
(** * The data plane of the orchestrator ([orchestrator/resp_proxy.go],
    [backend.go], [proxy.go])

    A client of the public port sends AUTH with tenant, key and secret; the
    ingress checks the key, takes a connection to the engine from the pool or dials
    one, logs in there with the key, and from then on copies bytes both ways. A
    connection is a number; what was dialed for it, and whether it is still open,
    is kept for good. The goroutine of a prefetch is split where it gives up the
    lock. The input of a client is all it will ever send. *)

From S2P Require Import Prelude GoStd RESP Commands Auth Isolation Orchestrator OrchestratorCorrect.
From S2P Require Config.
Open Scope Z_scope.

(** ** The pool *)
Definition backendIdleTTL : Z := 30 * 1000000000.
Definition backendMaxIdle : nat := 8.

Record Conn := { cn_tenant : string; cn_network : string; cn_addr : string; cn_open : bool }.
Record pooledBackend := { p_conn : nat; idleAt : Z }.
Record backendPool := { idle : gmap string (list pooledBackend); conns : list Conn }.

Definition idle_of (id : string) (p : backendPool) : list pooledBackend := default [] (idle p !! id).
Definition set_idle (id : string) (l : list pooledBackend) (p : backendPool) : backendPool := {| idle := <[id := l]> (idle p); conns := conns p |}.
Definition close_conn (c : nat) (p : backendPool) : backendPool :=
  {| idle := idle p; conns := alter (λ c, {| cn_tenant := cn_tenant c; cn_network := cn_network c; cn_addr := cn_addr c; cn_open := false |}) c (conns p) |}.
Definition close_all (l : list nat) (p : backendPool) : backendPool := foldl (λ p c, close_conn c p) p l.

(** [stat] says whether there is a file of that name. *)
Definition tenantRESPAddr (n : Node) (stat : string → bool) (t : Tenant) : string * string :=
  let sock := resp_socket n (DataDir t) in
  if negb (bool_decide (DataDir t = ""%string)) && stat sock then ("unix"%string, sock) else ("tcp"%string, loopback (RESPPort t)).
Definition dialTenantBackend (n : Node) (stat : string → bool) (answers : bool) (t : Tenant) (p : backendPool) : option nat * backendPool :=
  if answers then
    let '(network, addr) := tenantRESPAddr n stat t in
    (Some (length (conns p)), {| idle := idle p; conns := conns p ++ [{| cn_tenant := ID t; cn_network := network; cn_addr := addr; cn_open := true |}] |})
  else (None, p).

(** The loop of [Acquire] from the end of the list: the connection, what is left,
    and the connections that are too old. *)
Fixpoint take_fresh (now : Z) (l : list pooledBackend) : option pooledBackend * list pooledBackend * list nat :=
  match l with
  | [] => (None, [], [])
  | item :: l =>
      if now - idleAt item >? backendIdleTTL then let '(r, l, old) := take_fresh now l in (r, l, p_conn item :: old)
      else (Some item, l, [])
  end.
Definition Acquire (n : Node) (stat : string → bool) (answers : bool) (now : Z) (t : Tenant) (p : backendPool) : option nat * backendPool :=
  let '(r, l, old) := take_fresh now (rev (idle_of (ID t) p)) in
  let p := close_all old (set_idle (ID t) (rev l) p) in
  match r with
  | Some item => (Some (p_conn item), p)
  | None => dialTenantBackend n stat answers t p
  end.

(** The goroutine of [Prefetch]: up to the connection, and its end. *)
Definition prefetch_dial (n : Node) (stat : string → bool) (answers : bool) (t : Tenant) (p : backendPool) : option nat * backendPool :=
  if (backendMaxIdle <=? length (idle_of (ID t) p))%nat then (None, p) else dialTenantBackend n stat answers t p.
Definition prefetch_insert (now : Z) (t : Tenant) (c : nat) (p : backendPool) : backendPool :=
  if (backendMaxIdle <=? length (idle_of (ID t) p))%nat then close_conn c p
  else set_idle (ID t) (idle_of (ID t) p ++ [{| p_conn := c; idleAt := now |}]) p.

Definition DropTenant (id : string) (p : backendPool) : backendPool :=
  close_all (map p_conn (idle_of id p)) {| idle := delete id (idle p); conns := conns p |}.

(** ** A client of the RESP port *)

(** [strings.SplitN(s, ":", 2)] with two parts. *)
Fixpoint cut_colon (l : list byte) : option (list byte * list byte) :=
  match l with
  | [] => None
  | b :: l => if bool_decide (b = Byte.x3a) then Some ([], l) else prod_map (cons b) id <$> cut_colon l
  end.
Definition identity (arg : string) : option (string * string) := prod_map str_of str_of <$> cut_colon (bytes_of arg).

(** What the ingress writes to the engine before the bytes of the client. *)
Definition auth_request (key secret : string) : list byte :=
  bytes_of "*3" ++ crlf ++ bytes_of "$4" ++ crlf ++ bytes_of "AUTH" ++ crlf ++
  bytes_of "$" ++ fmt_d (strlen key) ++ crlf ++ bytes_of key ++ crlf ++
  bytes_of "$" ++ fmt_d (strlen secret) ++ crlf ++ bytes_of secret ++ crlf.

(** How [handle] ends its first part: an answer to the client, or the two copying
    goroutines with what the engine is sent. [Closed] and [Piped] have taken a
    connection, which is closed in the end. *)
Inductive outcome :=
| Answered (msg : string)
| Closed (t : Tenant) (conn : nat) (msg : option string)
| Piped (t : Tenant) (tenantID key secret : string) (conn : nat) (sent : list byte).

(** Whether the engine takes the request, and the line it answers. *)
Record engine_says := { es_write : bool; es_line : option string }.

Definition handle (m : Manager) (stat : string → bool) (answers : bool) (now : Z) (says : engine_says) (input : list byte) (p : backendPool) : outcome * backendPool :=
  match ReadCommand input with
  | Ok (cmd, rest) =>
      if negb (bool_decide (Normalized cmd = "AUTH"%string)) || negb (NumArgs cmd =? 2)
      then (Answered "NOAUTH initial AUTH <tenant>:<key-id> <secret> required", p)
      else
        let secret := Arg cmd 1 in
        match identity (Arg cmd 0) with
        | Some (tenantID, key) =>
            if (strlen tenantID >? 128) || (strlen key >? 128) || (strlen secret >? 256) then (Answered "WRONGPASS invalid tenant credential", p)
            else
              match VerifyTenantKey m tenantID key secret with
              | None => (Answered "WRONGPASS invalid tenant credential", p)
              | Some t =>
                  match Acquire (m_node m) stat answers now t p with
                  | (None, p) => (Answered "ERR tenant unavailable", p)
                  | (Some c, p) =>
                      if negb (es_write says) then (Closed t c None, p)
                      else match es_line says with
                           | Some line =>
                               if String.prefix "+OK" line then (Piped t tenantID key secret c (auth_request key secret ++ rest), p)
                               else (Closed t c (Some "WRONGPASS invalid tenant credential"%string), p)
                           | None => (Closed t c (Some "WRONGPASS invalid tenant credential"%string), p)
                           end
                  end
              end
        | None => (Answered "WRONGPASS invalid tenant credential", p)
        end
  | _ => (Answered "NOAUTH initial AUTH <tenant>:<key-id> <secret> required", p)
  end.

(** ** The HTTP proxy: where a path goes *)
Inductive proxy_route := Preflight | NotFound (msg : string) | Unavailable | Forward (t : Tenant) (path : string).
Fixpoint cut_slash (l : list byte) : list byte * option (list byte) :=
  match l with
  | [] => ([], None)
  | b :: l => if bool_decide (b = Byte.x2f) then ([], Some l) else prod_map (cons b) id (cut_slash l)
  end.
Definition ServeHTTP (m : Manager) (method path : string) : proxy_route :=
  if bool_decide (method = "OPTIONS"%string) then Preflight else
  match cut_slash (bytes_of (TrimPrefix path "/")) with
  | (first, Some rest) =>
      if bool_decide (str_of first = "t"%string) then
        let '(id, sub) := cut_slash rest in
        match tenant (m_reg m) (str_of id) with
        | None => NotFound "tenant not found"
        | Some t =>
            if negb (TenantRunning m (str_of id)) then Unavailable
            else Forward t (str_of (Byte.x2f :: default [] sub))
        end
      else NotFound "not found"
  | (_, None) => NotFound "not found"
  end.
