(* ===== verification/IngressCorrect.v ===== *)
(** * Sessions of the data plane ([Ingress])

    Clients, prefetching goroutines and the operations of the tenant manager in any
    order: a connection to an engine carries at most one session, of a client that
    had a valid key of the tenant the connection was dialed for. *)

From S2P Require Import Prelude GoStd RESP Commands Auth Isolation Orchestrator OrchestratorCorrect Ingress.
From S2P Require Config StateFile.
Open Scope Z_scope.

(** ** The orchestrator with its clients *)
Inductive goroutine := GNew | GDialed (c : nat) | GDone.
Record session := { ss_tenant : Tenant; ss_id : string; ss_key : string; ss_secret : string; ss_conn : nat; ss_sent : list byte }.
Record World := {
  w_m : Manager; w_pool : backendPool; w_going : list (Tenant * goroutine); w_sessions : list session; w_used : list nat
}.

Inductive event :=
| EManager (o : op)
| EClient (stat : string → bool) (answers : bool) (now : Z) (says : engine_says) (input : list byte)
| EEnd (i : nat)
| EDial (j : nat) (stat : string → bool) (answers : bool)
| EInsert (j : nat) (now : Z)
| EDrop (id : string).

(** The end of [handle]: the connection is closed and a prefetch begins. *)
Definition finish (t : Tenant) (c : nat) (w : World) : World :=
  {| w_m := w_m w; w_pool := close_conn c (w_pool w); w_going := w_going w ++ [(t, GNew)]; w_sessions := w_sessions w; w_used := w_used w |}.
Definition set_pool (p : backendPool) (w : World) : World :=
  {| w_m := w_m w; w_pool := p; w_going := w_going w; w_sessions := w_sessions w; w_used := w_used w |}.
Definition set_going (j : nat) (t : Tenant) (g : goroutine) (w : World) : World :=
  {| w_m := w_m w; w_pool := w_pool w; w_going := <[j := (t, g)]> (w_going w); w_sessions := w_sessions w; w_used := w_used w |}.
(** [w_used] lists the connections that were handed out, in that order. *)
Definition use (c : nat) (w : World) : World :=
  {| w_m := w_m w; w_pool := w_pool w; w_going := w_going w; w_sessions := w_sessions w; w_used := w_used w ++ [c] |}.

Definition wstep (w : World) (e : event) : World :=
  match e with
  | EManager o => {| w_m := run_op (w_m w) o; w_pool := w_pool w; w_going := w_going w; w_sessions := w_sessions w; w_used := w_used w |}
  | EClient stat answers now says input =>
      match handle (w_m w) stat answers now says input (w_pool w) with
      | (Answered _, p) => set_pool p w
      | (Closed t c _, p) => finish t c (use c (set_pool p w))
      | (Piped t id key secret c sent, p) =>
          let w := use c (set_pool p w) in
          {| w_m := w_m w; w_pool := w_pool w; w_going := w_going w;
             w_sessions := w_sessions w ++ [{| ss_tenant := t; ss_id := id; ss_key := key; ss_secret := secret; ss_conn := c; ss_sent := sent |}];
             w_used := w_used w |}
      end
  | EEnd i => match w_sessions w !! i with Some s => finish (ss_tenant s) (ss_conn s) w | None => w end
  | EDial j stat answers =>
      match w_going w !! j with
      | Some (t, GNew) =>
          match prefetch_dial (m_node (w_m w)) stat answers t (w_pool w) with
          | (Some c, p) => set_going j t (GDialed c) (set_pool p w)
          | (None, p) => set_going j t GDone (set_pool p w)
          end
      | _ => w
      end
  | EInsert j now =>
      match w_going w !! j with
      | Some (t, GDialed c) => set_going j t GDone (set_pool (prefetch_insert now t c (w_pool w)) w)
      | _ => w
      end
  | EDrop id => set_pool (DropTenant id (w_pool w)) w
  end.

(** ** Where a connection is *)
Inductive place := Idle (id : string) (i : nat) | Going (j : nat) | Used (i : nat).
Definition at_place (w : World) (c : nat) (pl : place) : Prop :=
  match pl with
  | Idle id i => p_conn <$> idle_of id (w_pool w) !! i = Some c
  | Going j => ∃ t, w_going w !! j = Some (t, GDialed c)
  | Used i => w_used w !! i = Some c
  end.
Definition dialed_for (p : backendPool) (c : nat) (id : string) : Prop := ∃ cn, conns p !! c = Some cn ∧ cn_tenant cn = id.

Record inv (w : World) : Prop := {
  v_ok : ok false (w_m w) ∧ n_budget (m_node (w_m w)) ≤ MaxInt64;
  v_once : ∀ c pl1 pl2, at_place w c pl1 → at_place w c pl2 → pl1 = pl2;
  v_dialed : ∀ c pl, at_place w c pl → ∃ id, dialed_for (w_pool w) c id ∧
    match pl with Idle id' _ => id' = id | Going j => ∃ t g, w_going w !! j = Some (t, g) ∧ ID t = id | Used _ => True end;
  v_idle : ∀ id, (length (idle_of id (w_pool w)) ≤ backendMaxIdle)%nat;
  v_sessions : sublist (ss_conn <$> w_sessions w) (w_used w) ∧ ∀ s, s ∈ w_sessions w → dialed_for (w_pool w) (ss_conn s) (ss_id s)
}.

(** ** The pool *)
Definition grows (p p' : backendPool) : Prop := ∀ c id, dialed_for p c id → dialed_for p' c id.
Lemma grows_refl p : grows p p.
Proof. by intros c id H. Qed.
Lemma grows_trans p1 p2 p3 : grows p1 p2 → grows p2 p3 → grows p1 p3.
Proof. unfold grows. auto. Qed.

Lemma close_frame c p : idle (close_conn c p) = idle p ∧ length (conns (close_conn c p)) = length (conns p) ∧ grows p (close_conn c p).
Proof.
  split; [done|]. split; [cbn; apply length_alter|]. intros d id (cn & H1 & H2). unfold dialed_for. cbn. destruct (decide (c = d)) as [->|Hne].
  - rewrite list_lookup_alter_eq, H1. by eexists.
  - rewrite list_lookup_alter_ne by done. by exists cn.
Qed.
Lemma close_all_frame l : ∀ p, idle (close_all l p) = idle p ∧ length (conns (close_all l p)) = length (conns p) ∧ grows p (close_all l p).
Proof.
  induction l as [|c l IH]; intros p; [split; [done|]; split; [done|]; by intros c id H|]. destruct (close_frame c p) as (A1 & A2 & A3). destruct (IH (close_conn c p)) as (B1 & B2 & B3).
  change (close_all (c :: l) p) with (close_all l (close_conn c p)). split; [by rewrite B1|]. split; [by rewrite B2|]. by eapply grows_trans.
Qed.

Lemma dialed_known p c id : dialed_for p c id → (c < length (conns p))%nat.
Proof. intros (cn & H & _). by eapply lookup_lt_Some. Qed.

Lemma dial_spec n stat answers t p r p' : dialTenantBackend n stat answers t p = (r, p') →
  idle p' = idle p ∧ grows p p' ∧ match r with Some c => c = length (conns p) ∧ dialed_for p' c (ID t) | None => True end.
Proof.
  unfold dialTenantBackend. destruct answers; [|intros [= <- <-]; split; [done|]; split; [by intros c id H|done]]. destruct (tenantRESPAddr n stat t) as [network addr]. intros [= <- <-]. cbn. split; [done|]. split.
  - intros c id (cn & H & ?). exists cn. split; [by apply lookup_app_l_Some|done].
  - split; [done|]. eexists. split; [cbn; rewrite lookup_app_r, Nat.sub_diag by lia; reflexivity|done].
Qed.

Lemma take_spec now l r l' old : take_fresh now l = (r, l', old) →
  ∃ pre, l = pre ++ option_list r ++ l' ∧ old = p_conn <$> pre ∧ match r with Some x => now - idleAt x ≤ backendIdleTTL | None => l' = [] end.
Proof.
  revert r l' old. induction l as [|x l IH]; cbn; intros r l' old; [intros [= <- <- <-]; by exists []|].
  destruct (now - idleAt x >? backendIdleTTL) eqn:E; [|intros [= <- <- <-]; exists []; split; [done|]; split; [done|lia]].
  destruct (take_fresh now l) as [[r0 l0] old0]. intros [= <- <- <-]. destruct (IH r0 l0 old0 eq_refl) as (pre & -> & -> & H). by exists (x :: pre).
Qed.

Lemma Acquire_spec n stat answers now t p r p' : Acquire n stat answers now t p = (r, p') →
  (∀ id, id ≠ ID t → idle_of id p' = idle_of id p) ∧ (∃ rest, idle_of (ID t) p = idle_of (ID t) p' ++ rest) ∧ grows p p' ∧
  match r with
  | Some c => (∃ i, (length (idle_of (ID t) p') ≤ i)%nat ∧ p_conn <$> idle_of (ID t) p !! i = Some c) ∨
              (c = length (conns p) ∧ dialed_for p' c (ID t))
  | None => True
  end.
Proof.
  unfold Acquire. destruct (take_fresh now (rev (idle_of (ID t) p))) as [[r0 l] old] eqn:E. destruct (take_spec _ _ _ _ _ E) as (pre & Hl & _ & _).
  apply (f_equal (@rev _)) in Hl. rewrite rev_involutive, !rev_app_distr, <- app_assoc in Hl.
  destruct (close_all_frame old (set_idle (ID t) (rev l) p)) as (F1 & F2 & F3). set (p1 := close_all _ _) in *.
  assert (Hidle : ∀ id, idle_of id p1 = if decide (id = ID t) then rev l else idle_of id p).
  { intros id. unfold idle_of. rewrite F1. cbn. destruct (decide (id = ID t)) as [->|?]; by simpl_map. }
  assert (Hg : grows p p1) by exact F3. destruct r0 as [item|].
  - intros [= <- <-]. split; [intros id Hne; by rewrite Hidle, decide_False|]. rewrite Hidle, decide_True by done. split; [by eexists|]. split; [done|]. left.
    exists (length (rev l)). split; [done|]. rewrite Hl, lookup_app_r, Nat.sub_diag by lia. done.
  - intros Hd. destruct (dial_spec _ _ _ _ _ _ _ Hd) as (D1 & D2 & D3). assert (Hi : ∀ id, idle_of id p' = idle_of id p1) by (intros id; unfold idle_of; by rewrite D1).
    split; [intros id Hne; by rewrite Hi, Hidle, decide_False|]. rewrite Hi, Hidle, decide_True by done. split; [by eexists|]. split; [by eapply grows_trans|].
    destruct r as [c|]; [|done]. right. rewrite F2 in D3. exact D3.
Qed.

(** ** Preservation *)
Lemma grow_dialed w w' c0 pl0 :
  inv w → grows (w_pool w) (w_pool w') →
  (∀ j t c, w_going w !! j = Some (t, GDialed c) → ∃ g, w_going w' !! j = Some (t, g)) →
  (∀ c pl, at_place w' c pl → at_place w c pl ∨ (c = c0 ∧ pl = pl0)) → (∀ pl, at_place w' c0 pl → pl = pl0) →
  (at_place w' c0 pl0 → ∃ id, dialed_for (w_pool w') c0 id ∧ match pl0 with Idle id' _ => id' = id | Going j => ∃ t g, w_going w' !! j = Some (t, g) ∧ ID t = id | Used _ => True end) →
  (∀ c pl1 pl2, at_place w' c pl1 → at_place w' c pl2 → pl1 = pl2) ∧
  (∀ c pl, at_place w' c pl → ∃ id, dialed_for (w_pool w') c id ∧ match pl with Idle id' _ => id' = id | Going j => ∃ t g, w_going w' !! j = Some (t, g) ∧ ID t = id | Used _ => True end).
Proof.
  intros H Hg Hgo Hold Hc0 Hd. split.
  - intros c pl1 pl2 H1 H2. destruct (decide (c = c0)) as [->|Hne]; [by rewrite (Hc0 _ H1), (Hc0 _ H2)|].
    destruct (Hold _ _ H1) as [O1|[? _]]; [|done]. destruct (Hold _ _ H2) as [O2|[? _]]; [|done]. by eapply (v_once _ H).
  - intros c pl Hp. destruct (Hold _ _ Hp) as [O|[-> ->]]; [|by apply Hd]. destruct (v_dialed _ H _ _ O) as (id & D1 & D2). exists id. split; [by apply Hg|].
    destruct pl as [id' i|j|i]; [done| |done]. destruct O as [t0 Hj]. destruct D2 as (t & g & Ht & Hid). rewrite Hj in Ht. injection Ht as <- <-. destruct (Hgo _ _ _ Hj) as [g' ?]. by exists t0, g'.
Qed.

(** Connections that only leave their places. *)
Lemma inv_shrink w w' :
  inv w → w_m w' = w_m w → grows (w_pool w) (w_pool w') → w_sessions w' = w_sessions w → w_used w' = w_used w →
  (∀ j t c, w_going w !! j = Some (t, GDialed c) → ∃ g, w_going w' !! j = Some (t, g)) →
  (∀ c pl, at_place w' c pl → at_place w c pl) → (∀ id, (length (idle_of id (w_pool w')) ≤ length (idle_of id (w_pool w)))%nat) → inv w'.
Proof.
  intros H E1 Hg E2 E3 Hgo Hold Hidle. split.
  - rewrite E1. apply H.
  - intros c pl1 pl2 H1 H2. eapply (v_once _ H); eauto.
  - intros c pl Hp. apply Hold in Hp as O. destruct (v_dialed _ H _ _ O) as (id & D1 & D2). exists id. split; [by apply Hg|]. destruct pl as [id' i|j|i]; [done| |done].
    destruct O as [t0 Hj]. destruct D2 as (t & g & Ht & Hid). rewrite Hj in Ht. injection Ht as <- <-. destruct (Hgo _ _ _ Hj) as [g' ?]. by exists t0, g'.
  - intros id. etrans; [apply Hidle|apply (v_idle _ H)].
  - rewrite E2, E3. destruct (v_sessions _ H) as [S1 S2]. split; [done|]. intros s Hs. by apply Hg, S2.
Qed.

Lemma new_conn w c pl : inv w → at_place w c pl → (c < length (conns (w_pool w)))%nat.
Proof. intros H Hp. destruct (v_dialed _ H _ _ Hp) as (id & D & _). by eapply dialed_known. Qed.

Lemma idle_place w w' rest c id i : idle_of id (w_pool w) = idle_of id (w_pool w') ++ rest → at_place w' c (Idle id i) → at_place w c (Idle id i) ∧ (i < length (idle_of id (w_pool w')))%nat.
Proof.
  cbn. intros E Hp. apply fmap_Some in Hp as (x & Hx & ->). rewrite E, (lookup_app_l_Some _ _ _ _ Hx). split; [done|]. by eapply lookup_lt_Some.
Qed.

(** A connection that [Acquire] hands out. *)
Lemma acquired_ok w stat answers now t c p' :
  inv w → Acquire (m_node (w_m w)) stat answers now t (w_pool w) = (Some c, p') →
  inv (use c (set_pool p' w)) ∧ dialed_for p' c (ID t).
Proof.
  intros H E. destruct (Acquire_spec _ _ _ _ _ _ _ _ E) as (A1 & (rest & A2) & A3 & A4). set (w' := use c (set_pool p' w)).
  assert (Hold : ∀ d pl, at_place w' d pl → at_place w d pl ∨ (d = c ∧ pl = Used (length (w_used w)))).
  { intros d [id i|j|i] Hp; [|by left|].
    - left. destruct (decide (id = ID t)) as [->|Hne]; [by eapply (idle_place w w' rest)|]. cbn in Hp |- *. by rewrite A1 in Hp.
    - cbn in Hp. apply lookup_snoc_Some in Hp as [[? ?]|[-> ->]]; [by left|by right]. }
  assert (Hc : ∀ pl, at_place w c pl → match pl with Idle id i => id = ID t ∧ (length (idle_of (ID t) p') ≤ i)%nat | _ => False end).
  { intros pl Hp. destruct A4 as [(i & Hi & Hl)|[-> _]]; [|pose proof (new_conn w _ pl H Hp); lia]. rewrite (v_once _ H c pl (Idle (ID t) i) Hp Hl). done. }
  assert (Huniq : ∀ pl, at_place w' c pl → pl = Used (length (w_used w))).
  { intros pl Hp. destruct (Hold c pl Hp) as [O|[_ ->]]; [|done]. pose proof (Hc pl O) as HC. destruct pl as [id i|j|i]; [|done|done]. destruct HC as [-> Hge].
    destruct (idle_place w w' rest c (ID t) i A2 Hp) as [_ Hlt]. cbn in Hlt. lia. }
  assert (Hdial : dialed_for p' c (ID t)).
  { destruct A4 as [(i & Hi & Hl)|[_ ?]]; [|done]. destruct (v_dialed _ H c (Idle (ID t) i) Hl) as (id & D1 & ->). by apply A3. }
  split; [|done]. destruct (grow_dialed w w' c (Used (length (w_used w))) H A3) as [G1 G2]; [by eauto|done|done|intros _; by exists (ID t)|].
  split; [apply H|done|done| |].
  - intros id. etrans; [|apply (v_idle _ H id)]. cbn. destruct (decide (id = ID t)) as [->|Hne]; [rewrite A2, length_app; lia|by rewrite A1].
  - destruct (v_sessions _ H) as [S1 S2]. split; [cbn; by apply sublist_inserts_r|]. intros s Hs. by apply A3, S2.
Qed.

Lemma ended_ok w t c : inv w → inv (finish t c w).
Proof.
  intros H. destruct (close_frame c (w_pool w)) as (F1 & _ & F3). apply (inv_shrink w); try done.
  - intros j t' c' Hj. exists (GDialed c'). by apply lookup_app_l_Some.
  - intros d [id i|j|i]; [done| |done]. intros [t' Hj]. cbn in Hj. apply lookup_snoc_Some in Hj as [[_ Hj]|[_ [=]]]. by exists t'.
Qed.

Definition logged_in (m : Manager) (input : list byte) (s : session) : Prop :=
  ∃ cmd rest, ReadCommand input = Ok (cmd, rest) ∧ Normalized cmd = "AUTH"%string ∧ identity (Arg cmd 0) = Some (ss_id s, ss_key s) ∧ Arg cmd 1 = ss_secret s ∧
  strlen (ss_key s) ≤ 128 ∧ strlen (ss_secret s) ≤ 256 ∧
  VerifyTenantKey m (ss_id s) (ss_key s) (ss_secret s) = Some (ss_tenant s) ∧ ss_sent s = auth_request (ss_key s) (ss_secret s) ++ rest.

Lemma handle_cases m stat answers now says input p :
  match handle m stat answers now says input p with
  | (Answered _, p') => p' = p ∨ ∃ t, Acquire (m_node m) stat answers now t p = (None, p')
  | (Closed t c _, p') => Acquire (m_node m) stat answers now t p = (Some c, p')
  | (Piped t id key secret c sent, p') => Acquire (m_node m) stat answers now t p = (Some c, p') ∧
      logged_in m input {| ss_tenant := t; ss_id := id; ss_key := key; ss_secret := secret; ss_conn := c; ss_sent := sent |}
  end.
Proof.
  unfold handle. destruct (ReadCommand input) as [[cmd rest]|e|] eqn:Er; [|by left..]. destruct (_ || negb (NumArgs cmd =? 2)) eqn:En; [by left|].
  apply orb_false_iff in En as [En _]. apply negb_false_iff, bool_decide_eq_true in En. cbv zeta. destruct (identity (Arg cmd 0)) as [[id key]|] eqn:Ei; [|by left].
  destruct (_ || (strlen (Arg cmd 1) >? 256)) eqn:El; [by left|]. apply orb_false_iff in El as [El E3]. apply orb_false_iff in El as [_ E2].
  destruct (VerifyTenantKey m id key (Arg cmd 1)) as [t|] eqn:Ev; [|by left]. destruct (Acquire _ _ _ _ _ _) as [[c|] p'] eqn:Ea; [|right; by exists t].
  destruct (negb (es_write says)); [done|]. destruct (es_line says) as [line|]; [|done]. destruct (String.prefix "+OK" line); [|done]. split; [done|].
  exists cmd, rest. cbn. do 4 (split; [done|]). split; [lia|]. split; [lia|]. done.
Qed.

Lemma VerifyTenantKey_ID m id key secret t : heap_ok (m_reg m) → VerifyTenantKey m id key secret = Some t → ID t = id.
Proof.
  intros Hh. unfold VerifyTenantKey. destruct (tenant (m_reg m) id) as [t0|] eqn:E; [|done]. destruct (Keys t0 !! key) as [k|]; [|done]. destruct (Revoked k); [done|].
  destruct (bool_decide _); [|done]. intros [= <-]. by eapply tenant_ID.
Qed.

Lemma dialed_ok w j t stat answers : inv w → w_going w !! j = Some (t, GNew) → inv (wstep w (EDial j stat answers)).
Proof.
  intros H Ej. cbn [wstep]. rewrite Ej. destruct (prefetch_dial _ _ _ _ _) as [r p'] eqn:Ep. unfold prefetch_dial in Ep.
  assert (Hj : ∀ g (k : nat) t' c, w_going w !! k = Some (t', GDialed c) → <[j := (t, g)]> (w_going w) !! k = Some (t', GDialed c)).
  { intros g k t' c Hk. rewrite list_lookup_insert_ne; [done|]. intros ->. congruence. }
  assert (Hback : ∀ g (k : nat) t' c, g ≠ GDialed c → <[j := (t, g)]> (w_going w) !! k = Some (t', GDialed c) → w_going w !! k = Some (t', GDialed c)).
  { intros g k t' c Hg Hk. apply list_lookup_insert_Some in Hk as [(_ & E & _)|[_ ?]]; [|done]. congruence. }
  assert (Hnone : inv (set_going j t GDone (set_pool (w_pool w) w))).
  { apply (inv_shrink w); try done; try apply grows_refl; [intros k t' c Hk; exists (GDialed c); by apply Hj|]. intros c [id i|k|i]; [done| |done]. intros [t' Hk]. exists t'. by eapply Hback; [|exact Hk]. }
  destruct (_ <=? _)%nat; [injection Ep as <- <-; exact Hnone|]. destruct (dial_spec _ _ _ _ _ _ _ Ep) as (D1 & D2 & D3).
  assert (Hidle : ∀ id, idle_of id p' = idle_of id (w_pool w)) by (intros id; unfold idle_of; by rewrite D1).
  destruct r as [c|].
  - destruct D3 as [-> D3]. set (c := length (conns (w_pool w))) in *. set (w' := set_going j t (GDialed c) (set_pool p' w)).
    assert (Hold : ∀ d pl, at_place w' d pl → at_place w d pl ∨ (d = c ∧ pl = Going j)).
    { intros d [id i|k|i]; [intros Hp; left; cbn in *; by rewrite Hidle in Hp| |by left]. intros [t' Hk]. cbn in Hk. apply list_lookup_insert_Some in Hk as [(-> & [= <- <-] & _)|[_ ?]]; [by right|left; by exists t']. }
    assert (Huniq : ∀ pl, at_place w' c pl → pl = Going j).
    { intros pl Hp. destruct (Hold c pl Hp) as [O|[_ ->]]; [|done]. pose proof (new_conn w c pl H O). unfold c in *. lia. }
    assert (Hgo : w_going w' !! j = Some (t, GDialed c)) by (apply list_lookup_insert_eq; by eapply lookup_lt_Some).
    destruct (grow_dialed w w' c (Going j) H D2) as [G1 G2]; [intros k t' d Hk; exists (GDialed d); by apply Hj|done|done|intros _; exists (ID t); split; [done|by exists t, (GDialed c)]|].
    split; [apply H|done|done| |].
    + intros id. cbn. rewrite Hidle. apply (v_idle _ H).
    + destruct (v_sessions _ H) as [S1 S2]. split; [done|]. intros s Hs. by apply D2, S2.
  - apply (inv_shrink w); try done; try apply grows_refl; [intros k t' c Hk; exists (GDialed c); by apply Hj| |intros id; cbn; by rewrite Hidle].
    intros c [id i|k|i]; [cbn; by rewrite Hidle| |done]. intros [t' Hk]. exists t'. by eapply Hback; [|exact Hk].
Qed.

Lemma inserted_ok w j t c now : inv w → w_going w !! j = Some (t, GDialed c) → inv (wstep w (EInsert j now)).
Proof.
  intros H Ej. cbn [wstep]. rewrite Ej. unfold prefetch_insert.
  assert (Hj : ∀ (k : nat) t' d, w_going w !! k = Some (t', GDialed d) → ∃ g, <[j := (t, GDone)]> (w_going w) !! k = Some (t', g)).
  { intros k t' d Hk. destruct (decide (k = j)) as [->|Hne]; [exists GDone; rewrite Ej in Hk; injection Hk as <- <-; apply list_lookup_insert_eq; by eapply lookup_lt_Some|]. exists (GDialed d). by rewrite list_lookup_insert_ne. }
  assert (Hback : ∀ (k : nat) t' d, <[j := (t, GDone)]> (w_going w) !! k = Some (t', GDialed d) → w_going w !! k = Some (t', GDialed d) ∧ k ≠ j).
  { intros k t' d Hk. apply list_lookup_insert_Some in Hk as [(-> & [=] & _)|[? ?]]; done. }
  destruct (_ <=? _)%nat eqn:El.
  - destruct (close_frame c (w_pool w)) as (F1 & _ & F3). apply (inv_shrink w); try done. intros d [id i|k|i]; [done| |done]. intros [t' Hk]. destruct (Hback _ _ _ Hk). by exists t'.
  - apply Nat.leb_gt in El. set (l := idle_of (ID t) (w_pool w)) in *. set (w' := set_going _ _ _ _).
    assert (Hidle : ∀ id, idle_of id (w_pool w') = if decide (id = ID t) then l ++ [{| p_conn := c; idleAt := now |}] else idle_of id (w_pool w)).
    { intros id. unfold idle_of. cbn. destruct (decide (id = ID t)) as [->|?]; by simpl_map. }
    assert (Hold : ∀ d pl, at_place w' d pl → at_place w d pl ∨ (d = c ∧ pl = Idle (ID t) (length l))).
    { intros d [id i|k|i]; [|intros [t' Hk]; left; destruct (Hback _ _ _ Hk); by exists t'|by left]. unfold at_place. rewrite Hidle. destruct (decide (id = ID t)) as [->|?]; [|by left].
      intros Hp. apply fmap_Some in Hp as (x & Hx & ->). apply lookup_snoc_Some in Hx as [[_ Hx]|[-> <-]]; [left; fold l; by rewrite Hx|by right]. }
    assert (Huniq : ∀ pl, at_place w' c pl → pl = Idle (ID t) (length l)).
    { intros pl Hp. destruct (Hold c pl Hp) as [O|[_ ->]]; [|done]. assert (pl = Going j) as -> by (eapply (v_once _ H); [exact O|by exists t]). destruct Hp as [t' Hk]. by destruct (Hback _ _ _ Hk). }
    destruct (v_dialed _ H c (Going j)) as (id & D1 & t2 & g & Ht2 & Hid); [by exists t|]. rewrite Ej in Ht2. injection Ht2 as <- <-.
    destruct (grow_dialed w w' c (Idle (ID t) (length l)) H) as [G1 G2]; [by intros d i Hd|exact Hj|done|done|intros _; exists id; split; [exact D1|done]|].
    split; [apply H|done|done| |].
    + intros i. rewrite Hidle. destruct (decide (i = ID t)); [rewrite length_app; cbn; lia|apply (v_idle _ H)].
    + exact (v_sessions _ H).
Qed.

Lemma world_step_ok w e : inv w → inv (wstep w e).
Proof.
  intros H. destruct e as [o|stat answers now says input|i|j stat answers|j now|id].
  - destruct (v_ok _ H) as [O1 O2]. destruct (run_op_ok false (w_m w) o O2) as [R1 R2]; [done|done|]. destruct H as [H1 H2 H3 H4 H5]. split; try done. cbn. by rewrite R2.
  - cbn [wstep]. pose proof (handle_cases (w_m w) stat answers now says input (w_pool w)) as Hc. destruct (handle _ _ _ _ _ _ _) as [[msg|t c msg|t id key secret c sent] p'].
    + destruct Hc as [->|[t Ha]]; [by destruct w|]. destruct (Acquire_spec _ _ _ _ _ _ _ _ Ha) as (A1 & (rest & A2) & A3 & _). apply (inv_shrink w); try done; [by eauto| |].
      * intros c [id i|j|i]; [|done|done]. intros Hp. destruct (decide (id = ID t)) as [->|Hne]; [by eapply (idle_place w (set_pool p' w) rest)|]. cbn in Hp |- *. by rewrite A1 in Hp.
      * intros id. cbn. destruct (decide (id = ID t)) as [->|Hne]; [rewrite A2, length_app; lia|by rewrite A1].
    + apply ended_ok. by apply (acquired_ok w stat answers now t).
    + destruct Hc as [Ha Hl]. destruct (acquired_ok w stat answers now t c p' H Ha) as [[I1 I2 I3 I4 [I5 I6]] Hd]. split; try done. cbn. rewrite fmap_app. cbn. split.
      * apply sublist_app; [apply (v_sessions _ H)|done].
      * intros s [Hs|Hs]%elem_of_app; [by apply I6|]. apply list_elem_of_singleton in Hs as ->. cbn. destruct Hl as (cmd & rest & _ & _ & _ & _ & _ & _ & Hv & _). cbn in Hv.
        rewrite <- (VerifyTenantKey_ID _ _ _ _ _ (i_heap _ _ _ _ (proj1 (v_ok _ H))) Hv). exact Hd.
  - cbn [wstep]. destruct (w_sessions w !! i); [by apply ended_ok|done].
  - destruct (w_going w !! j) as [[t [|c|]]|] eqn:Ej; [by eapply dialed_ok|cbn [wstep]; by rewrite Ej..].
  - destruct (w_going w !! j) as [[t [|c|]]|] eqn:Ej; [cbn [wstep]; by rewrite Ej|by eapply inserted_ok|cbn [wstep]; by rewrite Ej..].
  - cbn [wstep]. unfold DropTenant. set (p := {| idle := delete id (idle (w_pool w)); conns := conns (w_pool w) |}).
    generalize (map p_conn (idle_of id (w_pool w))). intros old.
    destruct (close_all_frame old p) as (F1 & _ & F3).
    assert (Hidle : ∀ i, idle_of i (close_all old p) = if decide (i = id) then [] else idle_of i (w_pool w)).
    { intros i. unfold idle_of. rewrite F1. cbn. destruct (decide (i = id)) as [->|?]; by simpl_map. }
    apply (inv_shrink w); try done; [by eauto| |].
    + intros c [i k|j|k]; [|done|done]. cbn. rewrite Hidle. by destruct (decide (i = id)).
    + intros i. cbn. rewrite Hidle. destruct (decide (i = id)); cbn; [lia|done].
Qed.

(** What the ingress writes is read by the engine as AUTH. *)
Lemma auth_read key secret rest : strlen key ≤ 128 → strlen secret ≤ 256 →
  ReadCommand (auth_request key secret ++ rest) = Ok ({| RESP.Name := "AUTH"; RESP.Args := [to_slice key; to_slice secret] |}, rest).
Proof.
  intros H1 H2. assert (E : auth_request key secret = WriteBytes [to_slice "AUTH"; to_slice key; to_slice secret]).
  { unfold auth_request, WriteBytes, WriteArray, WriteBulkString, strlen, zlen. rewrite <- !length_bytes_of. cbn [fmap list_fmap to_slice mjoin list_join]. rewrite app_nil_r.
    cbn [length]. replace (Z.of_nat 3 <? 0) with false by done. cbn [app]. rewrite <- !app_assoc. reflexivity. }
  rewrite E. rewrite ReadCommand_written; [done| |vm_compute; discriminate].
  assert (Hb : ∀ s : string, strlen s ≤ 256 → bulk_ok (to_slice s)).
  { intros s Hs. change (Z.of_nat (length (bytes_of s)) ≤ 8388608). rewrite length_bytes_of. unfold strlen in Hs. lia. }
  apply Forall_cons; split; [by apply Hb|]. apply Forall_cons; split; [apply Hb; lia|]. apply Forall_singleton. by apply Hb.
Qed.

Definition start (m : Manager) : World := {| w_m := m; w_pool := {| idle := ∅; conns := [] |}; w_going := []; w_sessions := []; w_used := [] |}.
Definition reached (m : Manager) (evs : list event) : World := foldl wstep (start m) evs.

Lemma world_start_ok m : ok false m → n_budget (m_node m) ≤ MaxInt64 → inv (start m).
Proof.
  intros H1 H2. assert (Hno : ∀ c pl, ¬ at_place (start m) c pl) by (intros c [id i|j|i]; cbn; [unfold idle_of; cbn; rewrite lookup_empty; done|intros [t ?]; done|done]).
  split; [done|intros c pl1 pl2 Hp; by apply Hno in Hp|intros c pl Hp; by apply Hno in Hp|intros id; unfold idle_of; cbn; rewrite lookup_empty; cbn; lia|split; [constructor|intros s Hs; by apply not_elem_of_nil in Hs]].
Qed.

Lemma reached_ok m evs : ok false m → n_budget (m_node m) ≤ MaxInt64 → inv (reached m evs).
Proof. intros H1 H2. unfold reached. apply (foldl_invariant inv); [by apply world_start_ok|]. intros w e _ Hw. by apply world_step_ok. Qed.

Lemma reached_session m evs s : s ∈ w_sessions (reached m evs) →
  ∃ evs1 stat answers now says input evs2, evs = evs1 ++ EClient stat answers now says input :: evs2 ∧ logged_in (w_m (reached m evs1)) input s.
Proof.
  induction evs as [|e evs IH] using rev_ind; [by intros ?%not_elem_of_nil|]. unfold reached in *. rewrite foldl_snoc. set (w := foldl wstep (start m) evs) in *. intros Hs.
  assert (Hnew : s ∈ w_sessions w ∨ ∃ stat answers now says input, e = EClient stat answers now says input ∧ logged_in (w_m w) input s).
  { destruct e as [o|stat answers now says input|i|j stat answers|j now|id]; cbn [wstep] in Hs; [by left| | | | |by left].
    - pose proof (handle_cases (w_m w) stat answers now says input (w_pool w)) as Hc. destruct (handle _ _ _ _ _ _ _) as [[msg|t c msg|t id key secret c sent] p']; [by left|by left|].
      cbn in Hs. apply elem_of_app in Hs as [Hs|Hs]; [by left|]. apply list_elem_of_singleton in Hs as ->. right. exists stat, answers, now, says, input. split; [done|apply Hc].
    - destruct (w_sessions w !! i); by left.
    - destruct (w_going w !! j) as [[t [|c|]]|]; [destruct (prefetch_dial _ _ _ _ _) as [[c|] p']; by left|by left..].
    - destruct (w_going w !! j) as [[t [|c|]]|]; by left. }
  destruct Hnew as [Hold|(stat & answers & now & says & input & -> & Hl)].
  - destruct (IH Hold) as (evs1 & stat & answers & now & says & input & evs2 & -> & Hl). exists evs1, stat, answers, now, says, input, (evs2 ++ [e]). split; [by rewrite <- app_assoc|done].
  - exists evs, stat, answers, now, says, input, []. done.
Qed.

(** C5: whatever clients send and in whatever order sessions,
    prefetches and the operations of the tenant manager happen: a session exists
    only if its client began with AUTH and a key of the tenant that was valid at
    that moment; the connection it was given had been dialed for that tenant; the
    engine at its end reads AUTH with the identifier of the key and the secret,
    and then exactly the bytes the client sent after its AUTH. No connection ever
    serves two sessions or waits in the pool while or after it serves one, and at
    most eight wait per tenant. *)
Theorem sessions_isolated m evs :
  ok false m → n_budget (m_node m) ≤ MaxInt64 →
  let w := reached m evs in
  (∀ s, s ∈ w_sessions w →
     (∃ evs1 stat answers now says input evs2 cmd rest, evs = evs1 ++ EClient stat answers now says input :: evs2 ∧
        ReadCommand input = Ok (cmd, rest) ∧ Normalized cmd = "AUTH"%string ∧ identity (Arg cmd 0) = Some (ss_id s, ss_key s) ∧ Arg cmd 1 = ss_secret s ∧
        VerifyTenantKey (w_m (reached m evs1)) (ss_id s) (ss_key s) (ss_secret s) = Some (ss_tenant s) ∧
        ReadCommand (ss_sent s) = Ok ({| RESP.Name := "AUTH"; RESP.Args := [to_slice (ss_key s); to_slice (ss_secret s)] |}, rest)) ∧
     dialed_for (w_pool w) (ss_conn s) (ss_id s)) ∧
  NoDup (ss_conn <$> w_sessions w) ∧
  (∀ s id item, s ∈ w_sessions w → item ∈ idle_of id (w_pool w) → p_conn item ≠ ss_conn s) ∧
  (∀ id, (length (idle_of id (w_pool w)) ≤ backendMaxIdle)%nat).
Proof.
  intros H1 H2 w. pose proof (reached_ok m evs H1 H2) as H. fold w in H. destruct (v_sessions _ H) as [S1 S2]. split; [|split; [|split]].
  - intros s Hs. split; [|by apply S2]. destruct (reached_session m evs s Hs) as (evs1 & stat & answers & now & says & input & evs2 & -> & cmd & rest & E1 & E2 & E3 & E4 & E5 & E6 & E7 & E8).
    exists evs1, stat, answers, now, says, input, evs2, cmd, rest. rewrite E8, auth_read by done. done.
  - eapply sublist_NoDup; [|exact S1]. apply NoDup_alt. intros i j c Hi Hj. assert (E : Used i = Used j) by (eapply (v_once _ H); [exact Hi|exact Hj]). by injection E.
  - intros s id item Hs Hi E. apply list_elem_of_lookup in Hi as [i Hi].
    assert (Hu : ss_conn s ∈ w_used w) by (eapply elem_of_sublist; [|exact S1]; by apply list_elem_of_fmap_2). apply list_elem_of_lookup in Hu as [k Hk].
    assert (X : Idle id i = Used k) by (eapply (v_once _ H (ss_conn s)); [cbn; rewrite Hi; cbn; by rewrite E|exact Hk]). done.
  - apply (v_idle _ H).
Qed.

(** ** A tenant with a key, and two clients *)
Definition demo_set : Manager := run_op demo_manager (OProvision "acme" "Acme" 1 "").
Definition demo_keyed : Manager :=
  run_op demo_set (OCreateKey EncodeToString (Some ([Byte.x01; Byte.x02], [Byte.x0a; Byte.x0b])) 0 "acme" "ci" "writer" []).
Definition sends (l : list (list string)) : list byte := mjoin (map (λ c, WriteBytes (map to_slice c)) l).
Definition ok_line : engine_says := {| es_write := true; es_line := Some "+OK"%string |}.
Definition arrives (now : Z) (l : list (list string)) : event := EClient (λ _, true) true now ok_line (sends l).
Definition demo_events : list event :=
  [arrives 1 [["AUTH"; "acme:0102"; "0a0b"]; ["GET"; "k"]]%string; EEnd 0; EDial 0 (λ _, true) true; EInsert 0 2;
   arrives 3 [["AUTH"; "acme:0102"; "0a0b"]]%string].

Lemma demo_keyed_ok : ok false demo_keyed.
Proof.
  apply (run_ops_ok false [OProvision "acme" "Acme" 1 ""; OCreateKey EncodeToString (Some ([Byte.x01; Byte.x02], [Byte.x0a; Byte.x0b])) 0 "acme" "ci" "writer" []]%string demo_manager);
    [vm_compute; discriminate|done|]. apply (new_manager_ok false demo_node demo_out StateFile.NotExist); [vm_compute; discriminate|discriminate|reflexivity].
Qed.

Lemma sessions_isolated_witness :
  (ss_conn <$> w_sessions (reached demo_keyed demo_events)) = [0; 1]%nat ∧ NoDup (ss_conn <$> w_sessions (reached demo_keyed demo_events)) ∧
  (length (idle_of "acme" (w_pool (reached demo_keyed demo_events))) ≤ backendMaxIdle)%nat.
Proof.
  destruct (sessions_isolated demo_keyed demo_events demo_keyed_ok) as (_ & H2 & _ & H4); [vm_compute; discriminate|].
  split; [vm_compute; reflexivity|]. split; [exact H2|apply H4].
Defined.

(** ** Where the code does not do what it means to *)
Definition addr_of (w : World) (i : nat) : option string := s ← w_sessions w !! i; cn_addr <$> conns (w_pool w) !! ss_conn s.

(** A connection that was prefetched before a promotion goes to the socket of the
    old engine, although the tenant now lives behind another one. *)
Example pooled_connection_is_stale :
  let w := reached demo_keyed (take 4 demo_events ++ [EManager (OPromote "acme-r1"); arrives 3 [["AUTH"; "acme:0102"; "0a0b"]]%string]) in
  addr_of w 1 = Some "data/tenants/acme/resp.sock"%string ∧ (DataDir <$> tenant (m_reg (w_m w)) "acme") = Some "data/tenants/acme-r1"%string.
Proof. vm_compute. split; reflexivity. Qed.
