(* ===== verification/VectorQuery.v ===== *)
(** * The vector commands ([query/vector_query.go], [query/executor.go])

    The parsing of flags, spaces and floats, the answers, the vector cases of
    [Dispatch], and searches in the past. The executor and the vector store share
    the keys, so the state is an executor with the indexes and files beside it;
    [vx_ready] is the readiness the metrics report. *)

From S2P Require Import Prelude GoStd Types GoFloat KV RESP Commands WAL Log VectorPayload Float32 Hnsw VectorRows VectorIndex.
From S2P Require Import Recovery Vectors Executor.
From Stdlib Require Import Floats.SpecFloat.
Open Scope Z_scope.

(** ** Text *)
(** [strings.EqualFold] on ASCII text. *)
Definition EqualFold (s t : string) : bool := bool_decide (ToUpper s = ToUpper t).

Fixpoint contains_bytes (l p : list byte) : bool :=
  has_prefix p l || match l with [] => false | _ :: l => contains_bytes l p end.
(** [strings.Contains] *)
Definition Contains (s substr : string) : bool := contains_bytes (bytes_of s) (bytes_of substr).

(** [strings.Split(s, ",")] *)
Fixpoint split_comma (l cur : list byte) : list (list byte) :=
  match l with
  | [] => [rev cur]
  | b :: l => if bool_decide (b = Byte.x2c) then rev cur :: split_comma l [] else split_comma l (b :: cur)
  end.

(** ** Flags *)
Record vectorFlags := {
  withDocs : string; filterContains : string; minScore : single; hasMinScore : bool; fl_ef : Z; fl_space : string;
  fl_weights : list single; asOf : Z
}.
Definition no_flags : vectorFlags :=
  {| withDocs := ""; filterContains := ""; minScore := f32_zero; hasMinScore := false; fl_ef := 0; fl_space := "";
     fl_weights := []; asOf := 0 |}.

Fixpoint parse_weights (parts : list (list byte)) : res string (list single) :=
  match parts with
  | [] => Ok []
  | part :: parts =>
      match ParseFloat32 (TrimSpace (str_of part)) with
      | (f, true) => let? rest := parse_weights parts in Ok (f :: rest)
      | _ => Err "WEIGHTS is not a valid float list"%string
      end
  end.

(** One turn of the loop; [None] when the word is no flag. *)
Definition flag_step (allowSpace allowWeights : bool) (flag value : string) (fl : vectorFlags)
    : option (res string vectorFlags) :=
  let nm s := bool_decide (flag = s) in
  if nm "WITHDOCS" then
    Some (Ok {| withDocs := value; filterContains := filterContains fl; minScore := minScore fl; hasMinScore := hasMinScore fl;
                fl_ef := fl_ef fl; fl_space := fl_space fl; fl_weights := fl_weights fl; asOf := asOf fl |})
  else if nm "FILTER_CONTAINS" then
    Some (Ok {| withDocs := withDocs fl; filterContains := value; minScore := minScore fl; hasMinScore := hasMinScore fl;
                fl_ef := fl_ef fl; fl_space := fl_space fl; fl_weights := fl_weights fl; asOf := asOf fl |})
  else if nm "MIN_SCORE" then
    Some (match ParseFloat32 value with
          | (f, true) =>
              Ok {| withDocs := withDocs fl; filterContains := filterContains fl; minScore := f; hasMinScore := true;
                    fl_ef := fl_ef fl; fl_space := fl_space fl; fl_weights := fl_weights fl; asOf := asOf fl |}
          | _ => Err "MIN_SCORE is not a valid float"%string
          end)
  else if nm "EF" then
    Some (match ParseInt_ok value with
          | Some n =>
              if n <? 1 then Err "EF is not a valid positive integer"%string
              else Ok {| withDocs := withDocs fl; filterContains := filterContains fl; minScore := minScore fl;
                         hasMinScore := hasMinScore fl; fl_ef := n; fl_space := fl_space fl; fl_weights := fl_weights fl;
                         asOf := asOf fl |}
          | None => Err "EF is not a valid positive integer"%string
          end)
  else if nm "SPACE" then
    Some (if negb allowSpace then Err "SPACE must appear as a query segment on VFUSE"%string
          else let? _ := ValidateSpaceName value in
               Ok {| withDocs := withDocs fl; filterContains := filterContains fl; minScore := minScore fl;
                     hasMinScore := hasMinScore fl; fl_ef := fl_ef fl; fl_space := value; fl_weights := fl_weights fl;
                     asOf := asOf fl |})
  else if nm "WEIGHTS" then
    Some (if negb allowWeights then Err "WEIGHTS is only valid on VFUSE"%string
          else let? weights := parse_weights (split_comma (bytes_of value) []) in
               Ok {| withDocs := withDocs fl; filterContains := filterContains fl; minScore := minScore fl;
                     hasMinScore := hasMinScore fl; fl_ef := fl_ef fl; fl_space := fl_space fl; fl_weights := weights;
                     asOf := asOf fl |})
  else if nm "AS_OF" then
    Some (match ParseInt_ok value with
          | Some n =>
              if n <=? 0 then Err "AS_OF is not a valid positive unix timestamp"%string
              else Ok {| withDocs := withDocs fl; filterContains := filterContains fl; minScore := minScore fl;
                         hasMinScore := hasMinScore fl; fl_ef := fl_ef fl; fl_space := fl_space fl;
                         fl_weights := fl_weights fl; asOf := n |}
          | None => Err "AS_OF is not a valid positive unix timestamp"%string
          end)
  else None.

Fixpoint strip_flags (fuel : nat) (allowSpace allowWeights : bool) (cmd : Command) (end_ : Z) (fl : vectorFlags)
    : res string (Z * vectorFlags) :=
  match fuel with
  | O => Ok (end_, fl)
  | S fuel =>
      if end_ <? 2 then Ok (end_, fl)
      else
        match flag_step allowSpace allowWeights (ToUpper (Arg cmd (end_ - 2))) (Arg cmd (end_ - 1)) fl with
        | Some r => let? fl := r in strip_flags fuel allowSpace allowWeights cmd (end_ - 2) fl
        | None => Ok (end_, fl)
        end
  end.
(** Every turn removes two arguments, so their number is enough fuel. *)
Definition stripVectorFlags (cmd : Command) (allowSpace allowWeights : bool) : res string (Z * vectorFlags) :=
  strip_flags (length (Args cmd)) allowSpace allowWeights cmd (NumArgs cmd) no_flags.

Definition parseOptionalSpace (cmd : Command) (at_ : Z) : res string (string * Z) :=
  if (at_ + 1 >=? NumArgs cmd) || negb (EqualFold (Arg cmd at_) "SPACE") then Ok (""%string, at_)
  else
    let name := Arg cmd (at_ + 1) in
    let? _ := ValidateSpaceName name in Ok (name, at_ + 2).

(** The floats of [n] arguments from [i]; [bad] makes the error message. *)
Fixpoint parse_floats (bad : string → string) (cmd : Command) (i : Z) (n : nat) : res string (list single) :=
  match n with
  | O => Ok []
  | S n =>
      match ParseFloat32 (Arg cmd i) with
      | (f, true) => let? rest := parse_floats bad cmd (i + 1) n in Ok (f :: rest)
      | _ => Err (bad (Arg cmd i))
      end
  end.
Definition parseFloatArgs (cmd : Command) (start end_ : Z) : res string (list single) :=
  if end_ <? start then Err "invalid vector argument range"%string
  else parse_floats (λ s, "value is not a valid float: '" ++ s ++ "'")%string cmd start (Z.to_nat (end_ - start)).

(** The first SPACE from [i] on, or [stop]. *)
Fixpoint next_space (fuel : nat) (cmd : Command) (i stop : Z) : Z :=
  match fuel with
  | O => i
  | S fuel => if (i <? stop) && negb (EqualFold (Arg cmd i) "SPACE") then next_space fuel cmd (i + 1) stop else i
  end.

Fixpoint fuse_segments (fuel : nat) (cmd : Command) (i stop : Z) : res string (list SpaceQuery) :=
  match fuel with
  | O => Ok []
  | S fuel =>
      if i >=? stop then Ok []
      else if negb (EqualFold (Arg cmd i) "SPACE") then Err "VFUSE expected SPACE name then floats"%string
      else if i + 1 >=? stop then Err "VFUSE missing space name"%string
      else
        let name := Arg cmd (i + 1) in
        let? _ := ValidateSpaceName name in
        let start := i + 2 in
        let next := next_space (length (Args cmd)) cmd start stop in
        if next =? start then Err ("empty query vector for SPACE " ++ quoted name)%string
        else
          let? vec := parseFloatArgs cmd start next in
          let? rest := fuse_segments fuel cmd next stop in
          Ok ({| sq_Space := name; sq_Query := vec |} :: rest)
  end.

Definition parseFuseQueries (cmd : Command) (end_ : Z) : res string (string * Z * list SpaceQuery) :=
  if end_ <? 2 then Err "wrong number of arguments for 'VFUSE' command"%string
  else
    match ParseInt_ok (Arg cmd (end_ - 1)) with
    | None => Err "k is not a valid integer"%string
    | Some k =>
        let? queries := fuse_segments (length (Args cmd)) cmd 1 (end_ - 1) in
        if zlen queries <? 2 then Err "VFUSE requires at least two SPACE queries"%string
        else Ok (Arg cmd 0, k, queries)
    end.

Definition searchOptsFromFlags (k : Z) (fl : vectorFlags) (filter : option (string → bool)) : SearchOpts :=
  {| o_K := k; o_Filter := filter; o_MinScore := minScore fl; o_HasMinScore := hasMinScore fl; o_EfSearch := fl_ef fl;
     o_ExcludeID := "" |}.
Definition excluding (id : string) (opts : SearchOpts) : SearchOpts :=
  {| o_K := o_K opts; o_Filter := o_Filter opts; o_MinScore := o_MinScore opts; o_HasMinScore := o_HasMinScore opts;
     o_EfSearch := o_EfSearch opts; o_ExcludeID := id |}.

(** ** Documents beside the vectors *)
Definition doc_text (e : Entry) : string := match Value e with VBytes v => to_str v | _ => ""%string end.

Definition vectorContainsFilter (now : Z) (s : KVStore) (index substr : string) : option (string → bool) :=
  if bool_decide (substr = ""%string) then None
  else Some (λ id,
    match GetForRead now ("doc:" ++ index ++ ":" ++ id)%string s with
    | None => false
    | Some e => if negb (bool_decide (EType e = TypeString)) then false else Contains (doc_text e) substr
    end).

Definition write_hit (now : Z) (s : KVStore) (withDocsPrefix : string) (r : SearchResult) : list byte :=
  if bool_decide (withDocsPrefix = ""%string)
  then WriteArray 2 ++ WriteBulkStringStr (r_ID r) ++ WriteBulkStringStr (Sprintf_f (r_Score r))
  else
    WriteArray 3 ++ WriteBulkStringStr (r_ID r) ++ WriteBulkStringStr (Sprintf_f (r_Score r)) ++
    match GetForRead now (withDocsPrefix ++ ":" ++ r_ID r)%string s with
    | Some e => if bool_decide (EType e = TypeString) then WriteBulkStringStr (doc_text e) else WriteNull
    | None => WriteNull
    end.
Definition writeVectorHits (now : Z) (s : KVStore) (results : list SearchResult) (withDocsPrefix : string) : list byte :=
  WriteArray (zlen results) ++ mjoin (write_hit now s withDocsPrefix <$> results).

(** ** State and answers *)
Record VX := { vx_exec : Executor; vx_vec : VecStore; vx_ready : bool }.
Definition vanswer : Type := list byte * status * VX.

Definition store_of (v : VX) : vstate := (kv (vx_exec v), vx_vec v).
Definition set_store (v : VX) (st : vstate) : VX :=
  {| vx_exec := set_kv (vx_exec v) (fst st); vx_vec := snd st; vx_ready := vx_ready v |}.
Definition set_exec (v : VX) (x : Executor) : VX := {| vx_exec := x; vx_vec := vx_vec v; vx_ready := vx_ready v |}.
(** [e.metrics.TenantReady.Store(0)] *)
Definition unready (v : VX) : VX := {| vx_exec := vx_exec v; vx_vec := vx_vec v; vx_ready := false |}.

Definition vreply (out : list byte) (v : VX) : vanswer := (out, Done, v).
Definition verror (msg : string) (v : VX) : vanswer := vreply (WriteError msg) v.
Definition vusage (cmd : string) (v : VX) : vanswer := verror (WrongNumArgsError cmd) v.
Definition vbroken (what : string) (v : VX) (e : string) : vanswer := verror (what ++ e) (unready v).

(** Go on with a parsed value or a store operation, or answer its error. *)
Definition parsed {A} (r : res string A) (v : VX) (k : A → vanswer) : vanswer :=
  match r with Ok a => k a | Err e => verror e v | Panic => ([], Panicked, v) end.
Definition stored {A} (fail : VX → string → vanswer) (r : res string A * vstate) (v : VX) (k : A → VX → vanswer) : vanswer :=
  let v := set_store v (snd r) in
  match fst r with Ok a => k a v | Err e => fail v e | Panic => ([], Panicked, v) end.
Definition checked : VX → string → vanswer := λ v e, verror e v.

(** The vectors of VADD_BATCH from argument [i]. *)
Fixpoint batch_args (n : nat) (cmd : Command) (dim i : Z) : res string (list (string * list single)) :=
  match n with
  | O => Ok []
  | S n =>
      let? vec := parse_floats (λ s, "ERR value is not a valid float: '" ++ s ++ "'")%string cmd (i + 1) (Z.to_nat dim) in
      let? rest := batch_args n cmd dim (i + 1 + dim) in
      Ok ((Arg cmd i, vec) :: rest)
  end.

Definition with_bits (it : string * list single) : string * list float32 := (it.1, Float32bits <$> it.2).

Fixpoint le_floats (n : nat) (l : list byte) : list float32 :=
  match n with O => [] | S n => le_get (take 4 l) :: le_floats n (drop 4 l) end.

(** The payload of VADDBIN, [blob] from [offset] on. [size] is [dim * 4] in 64
    bits: when it or the end of the vector wrapped, the slice or the cast panics.
    The cast reads the order of the host, here little endian. *)
Fixpoint binary_args (fuel : nat) (dim offset : Z) (blob : list byte) : res string (list (string * list float32)) :=
  match fuel with
  | O => Ok []
  | S fuel =>
      match blob with
      | [] => Ok []
      | idLen :: rest =>
          if b2z idLen >? zlen rest then Err "ERR malformed binary payload (id bounds)"%string
          else
            let n := Z.to_nat (b2z idLen) in
            let id := str_of (take n rest) in
            let rest := drop n rest in
            let offset := offset + 1 + b2z idLen in
            let size := i64 (dim * 4) in
            let stop := i64 (offset + size) in
            if stop >? offset + zlen rest then Err "ERR malformed binary payload (vector bounds)"%string
            else if negb (size =? dim * 4) || negb (stop =? offset + size) then Panic
            else
              let? more := binary_args fuel dim stop (drop (Z.to_nat size) rest) in
              Ok ((id, le_floats (Z.to_nat dim) rest) :: more)
      end
  end.

Section Commands.
Variable level : Z → Z.
Variable pool : Z → searchScratch.
Variable name : string → string.
Variable env : Env.
Variable fault : option wal_fault.
Abbreviation now := (e_now env).

Definition with_log (rec : WALRecord) (v : VX) (k : VX → vanswer) : vanswer :=
  let '(err, x) := writeWAL now fault rec (vx_exec v) in
  let v := set_exec v x in
  match err with
  | Some e => verror ("ERR WAL write failed: " ++ e) v
  | None => k v
  end.

(** ** Additions *)
Definition add_vector (storageKey id : string) (vec : list float32) (v : VX) : vanswer :=
  stored checked (ValidateAdd level pool name env storageKey id vec (store_of v)) v (λ _ v,
  with_log (wal_record RecordVAdd storageKey (Some (EncodeVAddPayload id vec)) 0) v (λ v,
  stored (vbroken "ERR vector apply failed after WAL append: ") (VAdd level pool name env storageKey id vec (store_of v)) v (λ _ v,
  vreply (WriteInteger 1) v))).

Definition cmd_VADD (cmd : Command) (v : VX) : vanswer :=
  if NumArgs cmd <? 3 then vusage "VADD" v
  else
    parsed (parseOptionalSpace cmd 2) v (λ '(space, start),
    if start >=? NumArgs cmd then vusage "VADD" v
    else
      parsed (parseFloatArgs cmd start (NumArgs cmd)) v (λ vec,
      add_vector (VectorSpaceKey (Arg cmd 0) space) (Arg cmd 1) (Float32bits <$> vec) v)).

Definition add_vectors (storageKey : string) (dim : Z) (items : list (string * list float32)) (v : VX) : vanswer :=
  let ids := items.*1 in
  let vecs := items.*2 in
  stored checked (ValidateAddBatch level pool name env storageKey dim ids vecs (store_of v)) v (λ _ v,
  parsed (EncodeVAddBatchPayload dim ids vecs) v (λ payload,
  with_log (wal_record RecordVAddBatch storageKey (Some payload) 0) v (λ v,
  stored (vbroken "ERR vector apply failed after WAL append: ") (VAddBatch level pool name env storageKey dim ids vecs (store_of v)) v (λ _ v,
  vreply (WriteInteger (zlen items)) v)))).

Definition cmd_VADD_BATCH (cmd : Command) (v : VX) : vanswer :=
  if NumArgs cmd <? 4 then vusage "VADD_BATCH" v
  else
    match ParseInt_ok (Arg cmd 1) with
    | None => verror "ERR dim is not a valid positive integer" v
    | Some dim =>
        if dim <=? 0 then verror "ERR dim is not a valid positive integer" v
        else
          parsed (parseOptionalSpace cmd 2) v (λ '(space, argIdx),
          let argsRemaining := NumArgs cmd - argIdx in
          let width := i64 (dim + 1) in
          if negb (Z.rem argsRemaining width =? 0) then
            verror "ERR incorrect number of arguments for the given dimension" v
          else
            let numVectors := Z.quot argsRemaining width in
            if numVectors >? 1000 then verror "ERR batch size too large, maximum is 1000 vectors per command" v
            else
              parsed (batch_args (Z.to_nat numVectors) cmd dim argIdx) v (λ items,
              add_vectors (VectorSpaceKey (Arg cmd 0) space) dim (with_bits <$> items) v))
    end.

Definition cmd_VADDBIN (cmd : Command) (v : VX) : vanswer :=
  if negb (NumArgs cmd =? 3) then vusage "VADDBIN" v
  else
    match ParseInt_ok (Arg cmd 1) with
    | None => verror "ERR invalid dimension" v
    | Some dim =>
        if dim <=? 0 then verror "ERR invalid dimension" v
        else
          let blob := contents (ArgBytes cmd 2) in
          parsed (binary_args (length blob) dim 0 blob) v (λ items, add_vectors (Arg cmd 0) dim items v)
    end.

(** ** Migrations *)
Definition cmd_VMIGRATE (cmd : Command) (v : VX) : vanswer :=
  if NumArgs cmd <? 2 then vusage "VMIGRATE" v
  else
    let subcmd := ToUpper (Arg cmd 0) in
    let key := Arg cmd 1 in
    let nm s := bool_decide (subcmd = s) in
    if nm "START" then
      if NumArgs cmd <? 3 then verror "ERR wrong number of arguments for VMIGRATE START" v
      else
        match ParseInt_ok (Arg cmd 2) with
        | None => verror "ERR invalid dimension" v
        | Some dim =>
            if dim <=? 0 then verror "ERR invalid dimension" v
            else
              parsed (NormalizeVectorEncoding (if NumArgs cmd >=? 4 then Arg cmd 3 else EncodingSQ8)) v (λ enc,
              with_log (wal_record RecordVMigrateStart key (Some (EncodeVMigrateStartPayload dim enc)) 0) v (λ v,
              stored (vbroken "ERR migrate start failed after WAL append: ")
                (StartMigration level pool name env key dim enc (store_of v)) v (λ _ v,
              vreply (WriteSimpleString "OK") v)))
        end
    else if nm "ADD" then
      if NumArgs cmd <? 4 then verror "ERR wrong number of arguments for VMIGRATE ADD" v
      else
        let id := Arg cmd 2 in
        parsed (parseFloatArgs cmd 3 (NumArgs cmd)) v (λ vec,
        let vec := Float32bits <$> vec in
        let '(active, st) := MigrationActive level pool name env key (store_of v) in
        let v := set_store v st in
        if negb active then verror "ERR no migration in progress" v
        else
          with_log (wal_record RecordVMigrateAdd key (Some (EncodeVAddPayload id vec)) 0) v (λ v,
          stored (vbroken "ERR migrate add failed after WAL append: ")
            (InsertShadowVector level pool name env key id vec (store_of v)) v (λ _ v,
          vreply (WriteInteger 1) v)))
    else if nm "SWAP" then
      stored checked (ValidateSwapMigration level pool name env key (store_of v)) v (λ _ v,
      with_log (wal_record RecordVMigrateSwap key None 0) v (λ v,
      stored (vbroken "ERR migrate swap failed after WAL append: ") (SwapMigration level pool name env key (store_of v)) v (λ _ v,
      vreply (WriteSimpleString "OK") v)))
    else if nm "CANCEL" then
      with_log (wal_record RecordVMigrateCancel key None 0) v (λ v,
      stored (vbroken "ERR migrate cancel failed after WAL append: ") (CancelMigration level pool name env key (store_of v)) v (λ _ v,
      vreply (WriteSimpleString "OK") v))
    else verror "ERR unknown VMIGRATE subcommand" v.

(** ** Deletions *)
(** The threshold 0.20 of the automatic compaction. *)
Definition compact_ratio : float64 := fst (ParseFloat "0.20").

Definition delete_vector (storageKey id : string) (v : VX) : vanswer :=
  stored checked (HasLiveVector level pool name env storageKey id (store_of v)) v (λ exists_ v,
  if negb exists_ then vreply (WriteInteger 0) v
  else
    with_log (wal_record RecordVTombstone storageKey (to_slice id) 0) v (λ v,
    stored (vbroken "ERR vector tombstone apply failed after WAL append: ") (VDel level pool name env storageKey id (store_of v)) v (λ deleted v,
    let '(ratio, st) := TombstoneRatio level pool name env storageKey (store_of v) in
    let v := set_store v st in
    let finish v := vreply (WriteInteger (if deleted : bool then 1 else 0)) v in
    match ratio with
    | Ok r =>
        if SFltb compact_ratio r then
          stored (vbroken "ERR vector compaction failed: ") (VCompact level pool name env storageKey (store_of v)) v (λ _ v, finish v)
        else finish v
    | Err _ => finish v
    | Panic => ([], Panicked, v)
    end))).

Definition cmd_VDEL (cmd : Command) (v : VX) : vanswer :=
  if NumArgs cmd <? 2 then vusage "VDEL" v
  else
    parsed (parseOptionalSpace cmd 2) v (λ '(space, next),
    if negb (next =? NumArgs cmd) then vusage "VDEL" v
    else delete_vector (VectorSpaceKey (Arg cmd 0) space) (Arg cmd 1) v).

Definition cmd_VCOMPACT (cmd : Command) (v : VX) : vanswer :=
  if NumArgs cmd <? 1 then vusage "VCOMPACT" v
  else
    parsed (parseOptionalSpace cmd 1) v (λ '(space, next),
    if negb (next =? NumArgs cmd) then vusage "VCOMPACT" v
    else
      stored checked (VCompact level pool name env (VectorSpaceKey (Arg cmd 0) space) (store_of v)) v (λ removed v,
      vreply (WriteInteger removed) v)).

(** ** Searches in the past *)
Definition restricted (key : string) (rec : WALRecord) : option WALRecord :=
  match List.filter (λ eff, bool_decide (we_Key eff = key)) (Effects rec) with
  | [] => None
  | eff :: rest =>
      Some {| r_Type := we_Type eff; r_Key := we_Key eff; r_Value := we_Value eff; r_TTLNano := we_ExpiresAt eff;
              Timestamp := Timestamp rec; Sequence := Sequence rec; Effects := eff :: rest |}
  end.
(** The scan stops at the first record after [until]. *)
Fixpoint scan_history (key : string) (until : Z) (records : list WALRecord) : list WALRecord * Z :=
  match records with
  | [] => ([], 2 ^ 64 - 1)
  | rec :: records =>
      if Timestamp rec >? until then ([], Sequence rec)
      else
        let '(matched, cutoff) := scan_history key until records in
        (match restricted key rec with Some r => r :: matched | None => matched end, cutoff)
  end.
Definition seq_le (a b : WALRecord) : Prop := Sequence a ≤ Sequence b.
#[export] Instance seq_le_dec a b : Decision (seq_le a b).
Proof. unfold seq_le. apply _. Defined.
Definition ReadKeyHistory (key : string) (until : Z) (records : list WALRecord) : list WALRecord :=
  let '(matched, cutoff) := scan_history key until records in
  let matched := merge_sort seq_le matched in
  take (sort_Search (length matched)
          (λ i, match matched !! i with Some rec => Sequence rec >=? cutoff | None => true end)) matched.

(** The decoders with their recovered panics. *)
Definition decodeVAdd (data : list byte) : res string (string * list float32) :=
  match DecodeVAddPayload data with
  | (id, Some (x :: vector)) =>
      if bool_decide (id = ""%string) then Err "invalid VADD WAL payload"%string else Ok (id, x :: vector)
  | _ => Err "invalid VADD WAL payload"%string
  end.
Definition decodeVAddBatch (data : list byte) : res string (Z * list string * list (list float32)) :=
  match DecodeVAddBatchPayload data with
  | Ok (dim, ids, vectors) =>
      if (dim <=? 0) || (zlen ids =? 0) || negb (zlen ids =? zlen vectors)
         || negb (forallb (λ it, (zlen it.2 =? dim) && negb (bool_decide (it.1 = ""%string))) (zip ids vectors))
      then Err "invalid VADD_BATCH WAL payload"%string
      else Ok (dim, ids, vectors)
  | _ => Err "invalid VADD_BATCH WAL payload"%string
  end.

Definition replay_past (key : string) (st : res string vstate) (eff : WALEffect) : res string vstate :=
  let? st := st in
  let ty := we_Type eff in
  let data := contents (we_Value eff) in
  let finish {A} what (r : res string A * vstate) : res string vstate :=
    match fst r with
    | Ok _ => Ok (snd r)
    | Err e => Err ("replay " ++ what ++ ": " ++ e)%string
    | Panic => Panic
    end in
  if negb (bool_decide (we_Key eff = key)) then Ok st
  else if bool_decide (ty = RecordVAdd) then
    let? p := decodeVAdd data in finish "VADD"%string (VAdd level pool name env key p.1 p.2 st)
  else if bool_decide (ty = RecordVAddBatch) then
    let? p := decodeVAddBatch data in
    let '(dim, ids, vectors) := p in finish "VADD_BATCH"%string (VAddBatch level pool name env key dim ids vectors st)
  else if bool_decide (ty = RecordVTombstone) then finish "VDEL"%string (VDel level pool name env key (str_of data) st)
  else Ok st.

(** The temporary store lives in an empty directory of its own; the records of a
    log have effects, so the branch for bare records does not run. *)
Definition executeTimeTravelSearch (key : string) (asOf : Z) (query : list single) (opts : SearchOpts) (x : Executor)
    : res string (list SearchResult) :=
  match wal x with
  | None => Err "Time-Travel search requires WAL to be enabled"%string
  | Some w =>
      let? st := foldl (replay_past key) (Ok (New 64, NewVectorStore 0 ∅))
                   (mjoin (Effects <$> ReadKeyHistory key asOf (w_records w))) in
      fst (VSearchOpts level pool name env key query opts st)
  end.

(** ** Searches *)
Definition write_results (withDocsPrefix : string) (results : list SearchResult) (v : VX) : vanswer :=
  vreply (writeVectorHits now (kv (vx_exec v)) results withDocsPrefix) v.
Definition filter_of (index : string) (fl : vectorFlags) (v : VX) : option (string → bool) :=
  vectorContainsFilter now (kv (vx_exec v)) index (filterContains fl).

Definition cmd_VSEARCH (cmd : Command) (v : VX) : vanswer :=
  if NumArgs cmd <? 3 then vusage "VSEARCH" v
  else
    parsed (stripVectorFlags cmd true false) v (λ '(end_, fl),
    if end_ <? 3 then vusage "VSEARCH" v
    else
      match ParseInt_ok (Arg cmd (end_ - 1)) with
      | None => verror "ERR k is not a valid integer" v
      | Some k =>
          match parseFloatArgs cmd 1 (end_ - 1) with
          | Err e => verror ("ERR query is not a valid float: '" ++ e ++ "'") v
          | Panic => ([], Panicked, v)
          | Ok query =>
              if zlen query =? 0 then verror "ERR missing query vector" v
              else
                let index := Arg cmd 0 in
                let opts := searchOptsFromFlags k fl (filter_of index fl v) in
                let storageKey := VectorSpaceKey index (fl_space fl) in
                if asOf fl >? 0 then
                  parsed (executeTimeTravelSearch storageKey (asOf fl) query opts (vx_exec v)) v (λ results,
                  write_results (withDocs fl) results v)
                else
                  stored checked (VSearchOpts level pool name env storageKey query opts (store_of v)) v (λ results v,
                  write_results (withDocs fl) results v)
          end
      end).

Definition cmd_VSIM (cmd : Command) (v : VX) : vanswer :=
  if NumArgs cmd <? 3 then vusage "VSIM" v
  else
    parsed (stripVectorFlags cmd true false) v (λ '(end_, fl),
    if negb (end_ =? 3) then vusage "VSIM" v
    else
      let index := Arg cmd 0 in
      let id := Arg cmd 1 in
      match ParseInt_ok (Arg cmd 2) with
      | None => verror "ERR k is not a valid integer" v
      | Some k =>
          let storageKey := VectorSpaceKey index (fl_space fl) in
          stored checked (GetVector level pool name env storageKey id (store_of v)) v (λ query v,
          let opts := excluding id (searchOptsFromFlags k fl (filter_of index fl v)) in
          stored checked (VSearchOpts level pool name env storageKey (coords query) opts (store_of v)) v (λ results v,
          write_results (withDocs fl) results v))
      end).

Definition cmd_VFUSE (cmd : Command) (v : VX) : vanswer :=
  if NumArgs cmd <? 8 then vusage "VFUSE" v
  else
    parsed (stripVectorFlags cmd false true) v (λ '(end_, fl),
    parsed (parseFuseQueries cmd end_) v (λ '(index, k, queries),
    let opts := searchOptsFromFlags k fl (filter_of index fl v) in
    stored checked (VFuse level pool name env index queries (fl_weights fl) opts (store_of v)) v (λ results v,
    write_results (withDocs fl) results v))).

Definition dispatch_vector (cmd : Command) (v : VX) : option vanswer :=
  let nm s := bool_decide (Normalized cmd = s) in
  if nm "VADD" then Some (cmd_VADD cmd v)
  else if nm "VADD_BATCH" then Some (cmd_VADD_BATCH cmd v)
  else if nm "VADDBIN" then Some (cmd_VADDBIN cmd v)
  else if nm "VMIGRATE" then Some (cmd_VMIGRATE cmd v)
  else if nm "VDEL" then Some (cmd_VDEL cmd v)
  else if nm "VCOMPACT" then Some (cmd_VCOMPACT cmd v)
  else if nm "VSEARCH" then Some (cmd_VSEARCH cmd v)
  else if nm "VSIM" then Some (cmd_VSIM cmd v)
  else if nm "VFUSE" then Some (cmd_VFUSE cmd v)
  else None.
End Commands.
