(* ===== verification/VectorDurable.v ===== *)
(** * Vector commands survive a crash

    The composition of the vector commands of the executor, its log, the vector
    store and recovery: any sequence of vector commands other than migrations,
    whatever they answer, a crash, and recovery from the log, after which every
    vector is as before. *)

From S2P Require Import Prelude GoStd Types GoFloat KV Reaper RESP Commands WAL Log VectorPayload Float32 Hnsw VectorRows VectorIndex.
From S2P Require Import Recovery VectorIndexCorrect VectorHistory Vectors VectorsCorrect VectorOps VectorSim VectorCrash VectorRecovery.
From S2P Require Import Executor VectorQuery.
From Stdlib Require Import Floats.SpecFloat.
Open Scope Z_scope.

(** The store keys a command can name: a space is one of its arguments. *)
Definition command_keys (cmd : Command) : list string :=
  Arg cmd 0 :: (VectorSpaceKey (Arg cmd 0) ∘ to_str <$> Args cmd).

Lemma command_key_space cmd i space : space = ""%string ∨ space = Arg cmd i → 0 ≤ i → VectorSpaceKey (Arg cmd 0) space ∈ command_keys cmd.
Proof.
  intros Hs Hi. unfold command_keys, Arg in *. destruct Hs as [->| ->]; [by left|].
  destruct (i <? zlen (Args cmd)) eqn:E; [|by left]. right. apply list_elem_of_fmap.
  destruct (Args cmd !! Z.to_nat i) as [a|] eqn:Ea; [|apply lookup_ge_None in Ea; unfold zlen in *; lia].
  exists a. split; [done|]. by eapply list_elem_of_lookup_2.
Qed.

(** ** What the parsers return *)
Lemma optional_space cmd at_ space next :
  parseOptionalSpace cmd at_ = Ok (space, next) → space = ""%string ∨ space = Arg cmd (at_ + 1).
Proof.
  unfold parseOptionalSpace. destruct (_ || _); [intros [= <- _]; by left|]. destruct (ValidateSpaceName _); [|done..].
  intros [= <- _]. by right.
Qed.

Definition named_space (cmd : Command) (space : string) : Prop := space = ""%string ∨ ∃ i, 0 ≤ i ∧ space = Arg cmd i.

Lemma named_key cmd space : named_space cmd space → VectorSpaceKey (Arg cmd 0) space ∈ command_keys cmd.
Proof.
  intros [->|(i & Hi & ->)]; [apply (command_key_space cmd 0); [by left|done]|]. apply (command_key_space cmd i); [by right|done].
Qed.

Lemma flag_space a w flag value fl fl' :
  flag_step a w flag value fl = Some (Ok fl') → fl_space fl' = fl_space fl ∨ fl_space fl' = value.
Proof. unfold flag_step, rbind. intros H. repeat case_match; simplify_eq; auto. Qed.

Lemma stripped_space cmd a w end_ fl : stripVectorFlags cmd a w = Ok (end_, fl) → named_space cmd (fl_space fl).
Proof.
  unfold stripVectorFlags. assert (H0 : named_space cmd (fl_space no_flags)) by (by left). revert H0.
  generalize (length (Args cmd)) as fuel. generalize (NumArgs cmd) as last. generalize no_flags as fl0.
  intros fl0 last fuel. revert fl0 last. induction fuel as [|fuel IH]; intros fl0 last H0; cbn [strip_flags]; [by intros [= _ <-]|].
  destruct (Z.ltb_spec last 2); [by intros [= _ <-]|].
  destruct (flag_step a w _ (Arg cmd (last - 1)) fl0) as [[fl1| |]|] eqn:E; cbn [rbind]; try done; [|by intros [= _ <-]].
  apply IH. destruct (flag_space _ _ _ _ _ _ E) as [->| ->]; [done|]. right. exists (last - 1). split; [lia|done].
Qed.

Lemma fused_spaces cmd end_ index k queries :
  parseFuseQueries cmd end_ = Ok (index, k, queries) → index = Arg cmd 0 ∧ ∀ q, q ∈ queries → named_space cmd (sq_Space q).
Proof.
  unfold parseFuseQueries. destruct (end_ <? 2); [done|]. destruct (ParseInt_ok _); [|done].
  destruct (fuse_segments _ _ _ _) as [qs| |] eqn:E; cbn [rbind]; [|done..]. destruct (_ <? _); [done|]. intros [= <- _ <-]. split; [done|].
  revert qs E. generalize (end_ - 1) as stop. intros stop. generalize (length (Args cmd)) at 1 as fuel. assert (H1 : 0 ≤ 1) by done. revert H1. generalize 1 as i. intros i Hi fuel. revert i Hi.
  induction fuel as [|fuel IH]; intros i Hi qs; cbn [fuse_segments]; [intros [= <-] q Hq; by apply not_elem_of_nil in Hq|].
  destruct (i >=? _); [intros [= <-] q Hq; by apply not_elem_of_nil in Hq|]. destruct (negb _); [done|]. destruct (_ >=? _); [done|].
  destruct (ValidateSpaceName _); cbn [rbind]; [|done..]. destruct (_ =? _); [done|].
  destruct (parseFloatArgs _ _ _); cbn [rbind]; [|done..].
  assert (Hnext : 0 ≤ next_space (length (Args cmd)) cmd (i + 2) stop).
  { assert (Hm : ∀ f j, 0 ≤ j → 0 ≤ next_space f cmd j stop); [|apply Hm; lia].
    induction f as [|f IHf]; intros j Hj; cbn [next_space]; [done|]. destruct (_ && _); [apply IHf; lia|done]. }
  destruct (fuse_segments _ _ _ _) as [rest| |] eqn:Er; cbn [rbind]; [|done..]. intros [= <-] q [->|Hin]%elem_of_cons.
  - right. exists (i + 1). split; [lia|done].
  - exact (IH _ Hnext rest Er q Hin).
Qed.

Lemma parsed_floats bad cmd i n vec : parse_floats bad cmd i n = Ok vec → Forall f32_ok (Float32bits <$> vec).
Proof.
  revert i vec. induction n as [|n IH]; intros i vec; cbn [parse_floats]; [intros [= <-]; constructor|].
  pose proof (ParseFloat32_ok (Arg cmd i)) as Hok. destruct (ParseFloat32 (Arg cmd i)) as [f []]; [|done]. cbn [fst] in Hok.
  destruct (parse_floats bad cmd (i + 1) n) as [rest| |] eqn:E; cbn [rbind]; [|done..]. intros [= <-]. rewrite fmap_cons.
  constructor; [by apply Float32bits_range|by eapply IH].
Qed.

Lemma parsed_vector cmd start end_ vec : parseFloatArgs cmd start end_ = Ok vec → Forall f32_ok (Float32bits <$> vec).
Proof. unfold parseFloatArgs. destruct (_ <? _); [done|]. apply parsed_floats. Qed.

Lemma parsed_batch n cmd dim i items :
  batch_args n cmd dim i = Ok items → Forall (λ it, Forall f32_ok it.2) (with_bits <$> items).
Proof.
  revert i items. induction n as [|n IH]; intros i items; cbn [batch_args]; [intros [= <-]; constructor|].
  destruct (parse_floats _ _ _ _) as [vec| |] eqn:Ev; cbn [rbind]; [|done..].
  destruct (batch_args n cmd dim _) as [rest| |] eqn:E; cbn [rbind]; [|done..]. intros [= <-]. rewrite fmap_cons.
  constructor; [by eapply parsed_floats|by eapply IH].
Qed.

Lemma le_get_small l : (length l ≤ 4)%nat → f32_ok (le_get l).
Proof.
  intros Hl. unfold le_get, f32_ok. pose proof (be_get_range (rev l)) as Hr. split; [lia|]. eapply Z.lt_le_trans; [apply Hr|].
  unfold zlen. rewrite length_rev. etransitivity; [apply (Z.pow_le_mono_r 256 _ 4); lia|]. done.
Qed.

Lemma parsed_binary fuel dim offset blob items :
  binary_args fuel dim offset blob = Ok items → Forall (λ it, Forall f32_ok it.2) items.
Proof.
  revert offset blob items. induction fuel as [|fuel IH]; intros offset blob items; cbn [binary_args]; [intros [= <-]; constructor|].
  destruct blob as [|idLen rest]; [intros [= <-]; constructor|]. destruct (_ >? _); [done|]. cbn zeta. destruct (_ >? _); [done|]. destruct (negb _ || _); [done|].
  destruct (binary_args fuel dim _ _) as [more| |] eqn:E; cbn [rbind]; [|done..]. intros [= <-]. constructor; [|by eapply IH].
  cbn. clear. generalize (drop (Z.to_nat (b2z idLen)) rest). induction (Z.to_nat dim) as [|m IHm]; intros l; cbn; constructor; [|apply IHm].
  apply le_get_small. rewrite length_take. lia.
Qed.

Section Durable.
Variable level : Z → Z.
Variable pool : Z → searchScratch.
Variable name : string → string.
Variable K : gset string.
Hypothesis level_ok : ∀ row, 0 ≤ level row ≤ 64.
Hypothesis pool_ok : ∀ row, scratch_ok (pool row).
Hypothesis name_inj : ∀ k k', k ∈ K → k' ∈ K → name k = name k' → k = k'.
Hypothesis name_shadow : ∀ k k', k ∈ K → k' ∈ K → name k ≠ shadowFile k'.
Variables shards maxVectors maxMemory : Z.
Variables enc e : string.
Hypothesis Henc : NormalizeVectorEncoding enc = Ok e.

(** The file system works: files open, grow and are flushed, metadata and graphs
    are written. *)
Record io_ok (env : Env) : Prop := {
  io_open : ∀ key, key ∈ K → e_open env (name key) = true;
  io_meta : e_meta env = true;
  io_grow : e_grow env = true;
  io_compact : e_flush env && e_meta env && e_hnsw env = true
}.

(** After [n] commands the log carries exactly the commands the store performed. *)
Definition served (n : Z) (v : VX) : Prop :=
  ∃ log w, wal (vx_exec v) = Some w ∧ suppressWAL (vx_exec v) = false ∧ 0 ≤ w_seq w ≤ n ∧ log_size log ≤ maxVectorBatch * n ∧
    performed level pool name K shards maxVectors maxMemory enc log (store_of v) ∧ Forall2 carries log (w_records w).

Lemma served_mono n n' v : n ≤ n' → served n v → served n' v.
Proof.
  intros Hn (log & w & H1 & H2 & H3 & H4 & H5 & H6). exists log, w. unfold maxVectorBatch in *. conjs; try done; lia.
Qed.

Lemma store_set v st : store_of (set_store v st) = st.
Proof. by destruct st. Qed.

Lemma served_set n v st : served n v → st = store_of v → served n (set_store v st).
Proof. intros (log & w & H1 & H2 & H3 & H4 & H5 & H6) ->. exists log, w. by rewrite store_set. Qed.

Lemma served_unready n v : served n v → served n (unready v).
Proof. done. Qed.

(** What the invariant says of the store. *)
Lemma served_ok n v : served n v → maxVectorBatch * n ≤ 2 ^ 62 →
  ∃ log w F, wal (vx_exec v) = Some w ∧ suppressWAL (vx_exec v) = false ∧ 0 ≤ w_seq w ≤ n ∧ log_size log ≤ maxVectorBatch * n ∧
    performed level pool name K shards maxVectors maxMemory enc log (store_of v) ∧ Forall2 carries log (w_records w) ∧
    performed_ok level pool name K maxVectors enc e log (store_of v) ∧
    VectorsCorrect.store_ok level pool name K (log_size log) (store_of v) F (λ _, None).
Proof.
  intros (log & w & H1 & H2 & H3 & H4 & H5 & H6) Hsize.
  pose proof (performed_holds level pool name K level_ok pool_ok name_inj name_shadow shards maxVectors maxMemory enc e log _ H5 Henc ltac:(lia)) as Hok.
  destruct (po_store _ _ _ _ _ _ _ _ _ Hok) as [F HF]. exists log, w, F. conjs; try done; lia.
Qed.

Section Step.
Variable env : Env.
Variable fault : option wal_fault.
Hypothesis Hio : io_ok env.

(** ** Reads leave the store *)
Section Reads.
Variable n : Z.
Hypothesis Hsize : maxVectorBatch * n ≤ 2 ^ 62.

Lemma readonly v key : served n v → key ∈ K →
  ∃ r, getReadOnly level pool name env key (store_of v) = (Ok r, store_of v) ∧ ∀ h, r = Some h → ∃ o, opened (store_of v) key h o.
Proof.
  intros Hv Hk. destruct (served_ok n v Hv Hsize) as (log & w & F & _ & _ & _ & _ & _ & _ & Hok & _).
  destruct (performed_readonly level pool name K level_ok pool_ok name_inj _ _ _ _ _ env key Hok Hk (io_open _ Hio key Hk)) as (r & Hg & Hr).
  exists r. split; [done|]. intros h ->. destruct Hr as (o & Ho & _). by exists o.
Qed.

Lemma read_store {A} (none : res string A) f v key :
  served n v → key ∈ K → snd (on_obj none (read_index f) (getReadOnly level pool name env key (store_of v))) = store_of v.
Proof.
  intros Hv Hk. destruct (readonly v key Hv Hk) as (r & -> & Hr). destruct r as [h|]; [|done].
  destruct (Hr h eq_refl) as (o & Ho). by rewrite (read_index_ok _ _ _ _ none f Ho).
Qed.

Lemma capacity_store v key dim ids :
  served n v → key ∈ K → snd (validateBatchCapacity level pool name env key dim ids (store_of v)) = store_of v.
Proof.
  intros Hv Hk. unfold validateBatchCapacity. destruct (readonly v key Hv Hk) as (r & -> & Hr). destruct r as [h|]; [|done].
  destruct (Hr h eq_refl) as (o & (e0 & _ & _ & _ & _ & Ho)). unfold on_obj. destruct (store_of v) as [kv0 vs]. cbn [snd] in *. by rewrite Ho.
Qed.

Lemma fuse_store index queries weightSum opts merged v :
  served n v → (∀ q, q ∈ queries → VectorSpaceKey index (sq_Space q.1) ∈ K) →
  snd (fuse_loop level pool name env index queries weightSum opts merged (store_of v)) = store_of v.
Proof.
  intros Hv. revert merged. induction queries as [|[q w] queries IH]; intros merged Hq; [done|]. cbn [fuse_loop].
  pose proof (read_store (Ok []) (searchIndex pool (sq_Query q) opts) v _ Hv (Hq (q, w) ltac:(by left))) as Hr.
  unfold VSearchOpts. destruct (on_obj _ _ _) as [r st]. cbn [snd] in Hr. subst st.
  destruct r; [|done..]. apply IH. intros q' Hin. apply Hq. by right.
Qed.
End Reads.

(** ** One command *)
Section Command.
Variable n : Z.
Hypothesis Hn : 0 ≤ n.
Hypothesis Hsize : maxVectorBatch * (n + 1) ≤ 2 ^ 62.
Definition finished (a : vanswer) : Prop := served (n + 1) (snd a).

Lemma size_now : maxVectorBatch * n ≤ 2 ^ 62.
Proof. unfold maxVectorBatch in *. lia. Qed.

Lemma answered (out : list byte) (st : status) v : served n v → finished (out, st, v).
Proof. apply served_mono. lia. Qed.

Lemma parsed_served {A} (r : res string A) v k : served n v → (∀ a, r = Ok a → finished (k a)) → finished (parsed r v k).
Proof. intros Hv Hk. destruct r as [a|er|]; [by apply Hk|by apply answered..]. Qed.

(** An operation that leaves the store. *)
Lemma stored_served {A} (r : res string A * vstate) v k :
  served n v → snd r = store_of v →
  (∀ a v', fst r = Ok a → served n v' → store_of v' = store_of v → finished (k a v')) → finished (stored checked r v k).
Proof.
  intros Hv Hr Hk. unfold stored. pose proof (served_set n v (snd r) Hv Hr) as Hv'.
  destruct (fst r) as [a|er|]; [apply Hk; [done|done|by rewrite store_set]|by apply answered..].
Qed.

(** A logged command: the record reaches the log and the store, or neither. *)
Lemma logged_served {A} v c payload what (op : vstate → res string A * vstate) k :
  served n v → zlen (cmd_ops c) ≤ maxVectorBatch → cmd_payload c = Ok (contents payload) →
  (∀ log, performed level pool name K shards maxVectors maxMemory enc log (store_of v) → log_size log ≤ maxVectorBatch * n →
     ∃ a st', op (store_of v) = (Ok a, st') ∧ performed level pool name K shards maxVectors maxMemory enc (log ++ [c]) st') →
  (∀ a v', served (n + 1) v' → served (n + 1) (snd (k a v'))) →
  finished (with_log env fault (wal_record (cmd_type c) (cmd_key c) payload 0) v (λ v, stored (vbroken what) (op (store_of v)) v k)).
Proof.
  intros (log & w & H1 & H2 & H3 & H4 & H5 & H6) Hc Hp Hop Hk. unfold with_log, writeWAL. rewrite H1, H2. unfold wal_Write.
  assert (Hlater : maxVectorBatch * n ≤ maxVectorBatch * (n + 1)) by (unfold maxVectorBatch; lia).
  assert (Hseq : 0 ≤ w_seq w + 1 < 2 ^ 64) by (unfold maxVectorBatch in Hsize; lia). rewrite u64_id by lia.
  assert (Hkeep : ∀ w', 0 ≤ w_seq w' ≤ n + 1 → w_records w' = w_records w → served (n + 1) (set_exec v (set_wal (vx_exec v) (Some w')))).
  { intros w' Hs Hr. exists log, w'. split; [done|]. split; [done|]. split; [lia|]. split; [lia|]. split; [done|]. by rewrite Hr. }
  destruct (w_failed w); [apply Hkeep; [lia|done]|]. destruct fault as [[er|er|er]|]; [apply Hkeep; cbn; [lia|done]..|].
  set (w' := {| w_seq := _; w_records := _; w_failed := _; w_unsynced := _ |}).
  assert (Est : store_of (set_exec v (set_wal (vx_exec v) (Some w'))) = store_of v) by done.
  rewrite Est. destruct (Hop log H5 H4) as (a & st' & Eop & Hpf). unfold stored. rewrite Eop. cbn [fst snd]. apply Hk.
  exists (log ++ [c]), w'. split; [done|]. split; [done|]. split; [cbn; lia|]. split; [rewrite log_size_snoc; unfold maxVectorBatch in *; lia|].
  split; [by rewrite store_set|]. cbn [w_records w']. apply Forall2_app; [done|]. constructor; [|constructor].
  split; [cbn; lia|]. eexists. split; [|done]. split; [done|]. split; [done|]. cbn [we_Value wal_record r_Value]. by rewrite contents_scopy.
Qed.

Lemma added_served v key id vec :
  served n v → key ∈ K → Forall f32_ok vec → finished (add_vector level pool name env fault key id vec v).
Proof.
  intros Hv Hk Hf. unfold add_vector. destruct (validateVector id vec) as [[]|er|] eqn:Ev.
  2,3: unfold ValidateAdd; rewrite Ev; apply stored_served; done.
  apply stored_served; [done|unfold ValidateAdd; rewrite Ev; by apply (capacity_store n size_now)|]. intros [] v' Ha Hv' Est.
  apply (logged_served v' (CAdd key id vec) (Some (EncodeVAddPayload id vec))); [done|done|done| |by intros; apply served_mono with (n + 1)].
  intros log Hpf Hz. rewrite Est in *.
  pose proof (performed_holds level pool name K level_ok pool_ok name_inj name_shadow shards maxVectors maxMemory enc e log _ Hpf Henc ltac:(unfold maxVectorBatch in *; lia)) as [[F1 Hs] Hmax Hen _ _ _].
  unfold ValidateAdd in Ha. rewrite Ev in Ha.
  destruct (validateBatchCapacity_ok level pool name K level_ok pool_ok name_inj (log_size log) env (store_of v) F1 (λ _, None) key (zlen vec) [id] Hs (log_size_nonneg _) Hk (io_open _ Hio key Hk))
    as (r & st1 & E1 & Hs1 & Hc1 & _ & Had).
  pose proof (capacity_store n size_now v key (zlen vec) [id] Hv Hk) as Esame. rewrite E1 in Ha, Esame. cbn [fst snd] in Ha, Esame. subst r st1.
  destruct (admitted_add level pool name K level_ok pool_ok name_inj name_shadow (log_size log) env (store_of v) F1 (λ _, None) key id vec e Hs) as (r & st' & E2 & _ & Hout);
    [pose proof (log_size_nonneg log); unfold maxVectorBatch in *; lia|done|by apply (io_open _ Hio)|apply (io_meta _ Hio)|by rewrite Hen|done|by apply Had|].
  destruct r as [[]|er|]; [|by destruct Hout as [Hg _]; rewrite (io_grow _ Hio) in Hg|done].
  exists tt, st'. split; [done|]. eapply (pf_add level pool name K); [done|done|by apply (io_open _ Hio)|apply (io_meta _ Hio)|done|done].
Qed.

Lemma batch_served v key dim items :
  served n v → key ∈ K → Forall (λ it, Forall f32_ok it.2) items → finished (add_vectors level pool name env fault key dim items v).
Proof.
  intros Hv Hk Hf. unfold add_vectors. set (ids := items.*1). set (vecs := items.*2).
  assert (Hval : snd (ValidateAddBatch level pool name env key dim ids vecs (store_of v)) = store_of v).
  { unfold ValidateAddBatch. destruct (_ || _); [done|]. destruct (validateBatch dim ids vecs); [|done..]. by apply (capacity_store n size_now). }
  apply stored_served; [done|done|]. intros [] v' Ha Hv' Est. unfold ValidateAddBatch in Ha.
  destruct (negb (zlen ids =? zlen vecs) || (zlen ids =? 0) || (zlen ids >? maxVectorBatch)) eqn:Eg; [done|].
  destruct (validateBatch dim ids vecs) as [[]| |] eqn:Ev; [|done..].
  apply parsed_served; [done|]. intros payload Hp.
  assert (Hlen : zlen (cmd_ops (CBatch key dim ids vecs)) ≤ maxVectorBatch) by (cbn [cmd_ops]; rewrite batch_ops_size by lia; lia).
  apply (logged_served v' (CBatch key dim ids vecs) (Some payload)); [done|done|done| |by intros; apply served_mono with (n + 1)].
  intros log Hpf Hz. rewrite Est in *.
  pose proof (performed_holds level pool name K level_ok pool_ok name_inj name_shadow shards maxVectors maxMemory enc e log _ Hpf Henc ltac:(unfold maxVectorBatch in *; lia)) as [[F1 Hs] Hmax Hen _ _ _].
  destruct (validateBatchCapacity_ok level pool name K level_ok pool_ok name_inj (log_size log) env (store_of v) F1 (λ _, None) key dim ids Hs (log_size_nonneg _) Hk (io_open _ Hio key Hk))
    as (r & st1 & E1 & Hs1 & Hc1 & _ & Had).
  pose proof (capacity_store n size_now v key dim ids Hv Hk) as Esame. rewrite E1 in Ha, Esame. cbn [fst snd] in Ha, Esame. subst r st1.
  destruct (admitted_batch level pool name K level_ok pool_ok name_inj name_shadow (log_size log) env (store_of v) F1 (λ _, None) key dim ids vecs e Hs) as (r & st' & E2 & _ & Hout);
    [apply log_size_nonneg|unfold maxVectorBatch in *; lia|done|by apply (io_open _ Hio)|apply (io_meta _ Hio)|by rewrite Hen|lia|done|by apply Had|].
  destruct r as [[]|er|]; [|by destruct Hout as [Hg _]; rewrite (io_grow _ Hio) in Hg|done].
  exists tt, st'. split; [done|]. eapply (pf_batch level pool name K); [done|done|by apply (io_open _ Hio)|apply (io_meta _ Hio)| |done].
  split; [lia|]. split; [done|]. unfold vecs. by apply Forall_fmap.
Qed.

(** A deletion of a live name succeeds. *)
Lemma live_deleted v key id st :
  served n v → key ∈ K → HasLiveVector level pool name env key id (store_of v) = (Ok true, st) →
  ∃ st', VDel level pool name env key id (store_of v) = (Ok true, st').
Proof.
  intros Hv Hk. unfold HasLiveVector, VDel. destruct (readonly n size_now v key Hv Hk) as (r & -> & Hr). destruct r as [h|]; [|done].
  destruct (Hr h eq_refl) as (o & Ho). rewrite (read_index_ok _ _ _ _ _ _ Ho), (on_obj_opened _ _ _ _ _ _ Ho). intros [= Hl _].
  unfold on_index. assert (Hd : ∃ ix, deleteVector (e_meta env) id (ob_index o) = (Ok true, ix)).
  { unfold VectorIndex.HasLiveVector, is_live in Hl. unfold deleteVector. rewrite (io_meta _ Hio).
    destruct (ix_idMap (ob_index o) !! id) as [row|]; [|done]. destruct (nth _ _ _); [done|]. cbn. by eexists. }
  destruct Hd as [ix ->]. by eexists.
Qed.

Lemma compacted_served v key :
  served (n + 1) v → key ∈ K →
  ∃ c st, VCompact level pool name env key (store_of v) = (Ok c, st) ∧ served (n + 1) (set_store v st).
Proof.
  intros Hv Hk. destruct (served_ok (n + 1) v Hv Hsize) as (log & w & F & H1 & H2 & H3 & H4 & H5 & H6 & _ & Hs).
  destruct (VCompact_ok level pool name K level_ok pool_ok name_inj name_shadow (log_size log) env (store_of v) F (λ _, None) key Hs) as (r & st & E & Hout);
    [pose proof (log_size_nonneg log); lia|done|by apply (io_open _ Hio)|].
  destruct r as [c|er|]; [|by rewrite (io_compact _ Hio) in Hout|done]. exists c, st. split; [done|].
  exists log, w. rewrite store_set. conjs; try done; try lia.
  eapply (pf_compact level pool name K); [done|done|by apply (io_open _ Hio)|done].
Qed.

Lemma deleted_served v key id : served n v → key ∈ K → finished (delete_vector level pool name env fault key id v).
Proof.
  intros Hv Hk. unfold delete_vector. apply stored_served; [done|by apply (read_store n size_now)|]. intros b v' Hb Hv' Est.
  destruct b; [|by apply answered]. cbn [negb]. destruct (HasLiveVector level pool name env key id (store_of v)) as [r st0] eqn:Eh. cbn [fst] in Hb. subst r.
  apply (logged_served v' (CDel key id) (to_slice id)); [done|done|done| |].
  - intros log Hpf Hz. rewrite Est in *. destruct (live_deleted v key id st0 Hv Hk Eh) as (st' & E). exists true, st'. split; [done|].
    eapply (pf_del level pool name K); [done|done|by apply (io_open _ Hio)|done].
  - intros b v1 Hv1.
    pose proof (read_store (n + 1) Hsize (Ok (S754_zero false)) (λ ix, Ok (VectorIndex.TombstoneRatio ix)) v1 key Hv1 Hk) as Er.
    unfold TombstoneRatio. destruct (on_obj _ _ _) as [ratio st]. cbn [snd] in Er. subst st.
    pose proof (served_set (n + 1) v1 (store_of v1) Hv1 eq_refl) as Hv2. destruct ratio as [r|er|]; [|done..].
    destruct (SFltb compact_ratio r); [|done]. destruct (compacted_served _ key Hv2 Hk) as (c & st & E & Hv3). unfold stored. rewrite E. done.
Qed.

Lemma search_served v key query opts prefix :
  served n v → key ∈ K →
  finished (stored checked (VSearchOpts level pool name env key query opts (store_of v)) v (λ results v, write_results env prefix results v)).
Proof. intros Hv Hk. apply stored_served; [done|by apply (read_store n size_now)|]. intros r v' _ Hv' _. by apply answered. Qed.

Lemma fuse_served v index queries weights opts prefix :
  served n v → (∀ q, q ∈ queries → VectorSpaceKey index (sq_Space q) ∈ K) →
  finished (stored checked (VFuse level pool name env index queries weights opts (store_of v)) v (λ results v, write_results env prefix results v)).
Proof.
  intros Hv Hq. apply stored_served; [done| |intros r v' _ Hv' _; by apply answered]. unfold VFuse. destruct (_ <? _); [done|].
  destruct (let? _ := _ in _) as [ws| |]; [|done..]. destruct (_ <=? _); [done|].
  match goal with |- context [fuse_loop _ _ _ _ ?i ?q ?w ?o ?m ?st] => pose proof (fuse_store n size_now i q w o m v Hv) as Hf end.
  destruct (fuse_loop _ _ _ _ _ _ _ _ _ _) as [r st]. cbn [snd] in Hf. rewrite Hf; [by destruct r|].
  intros [q w] Hin%elem_of_zip_l. by apply Hq.
Qed.

Lemma dispatch_served v cmd a :
  served n v → (∀ key, key ∈ command_keys cmd → key ∈ K) → Normalized cmd ≠ "VMIGRATE"%string →
  dispatch_vector level pool name env fault cmd v = Some a → finished a.
Proof.
  intros Hv HK Hm. assert (Hspace : ∀ space, named_space cmd space → VectorSpaceKey (Arg cmd 0) space ∈ K) by (intros; by apply HK, named_key).
  assert (Hopt : ∀ at_ space next, 0 ≤ at_ → parseOptionalSpace cmd at_ = Ok (space, next) → VectorSpaceKey (Arg cmd 0) space ∈ K).
  { intros at_ space next Ha [->| ->]%optional_space; apply Hspace; [by left|right]. exists (at_ + 1). split; [lia|done]. }
  unfold dispatch_vector. case_bool_decide; [intros [= <-]; unfold cmd_VADD|].
  { destruct (_ <? _); [by apply answered|]. apply parsed_served; [done|]. intros [space start] Hp. destruct (_ >=? _); [by apply answered|].
    apply parsed_served; [done|]. intros vec Hvec. apply added_served; [done|by apply (Hopt 2 _ start)|by eapply parsed_vector]. }
  case_bool_decide; [intros [= <-]; unfold cmd_VADD_BATCH|].
  { destruct (_ <? _); [by apply answered|]. destruct (ParseInt_ok _) as [dim|]; [|by apply answered]. destruct (_ <=? _); [by apply answered|].
    apply parsed_served; [done|]. intros [space argIdx] Hp. cbn zeta. destruct (negb _); [by apply answered|]. destruct (_ >? _); [by apply answered|].
    apply parsed_served; [done|]. intros items Hit. apply batch_served; [done|by apply (Hopt 2 _ argIdx)|by eapply parsed_batch]. }
  case_bool_decide; [intros [= <-]; unfold cmd_VADDBIN|].
  { destruct (negb _); [by apply answered|]. destruct (ParseInt_ok _) as [dim|]; [|by apply answered]. destruct (_ <=? _); [by apply answered|].
    apply parsed_served; [done|]. intros items Hit. apply batch_served; [done|apply HK; by left|by eapply parsed_binary]. }
  rewrite (bool_decide_eq_false_2 (Normalized cmd = "VMIGRATE"%string)) by done.
  case_bool_decide; [intros [= <-]; unfold cmd_VDEL|].
  { destruct (_ <? _); [by apply answered|]. apply parsed_served; [done|]. intros [space next] Hp. destruct (negb _); [by apply answered|].
    apply deleted_served; [done|by apply (Hopt 2 _ next)]. }
  case_bool_decide; [intros [= <-]; unfold cmd_VCOMPACT|].
  { destruct (_ <? _); [by apply answered|]. apply parsed_served; [done|]. intros [space next] Hp. destruct (negb _); [by apply answered|].
    destruct (compacted_served v (VectorSpaceKey (Arg cmd 0) space)) as (c & st & E & Hs); [by eapply served_mono; [|exact Hv]; lia|by apply (Hopt 1 _ next)|].
    unfold stored. rewrite E. exact Hs. }
  case_bool_decide; [intros [= <-]; unfold cmd_VSEARCH|].
  { destruct (_ <? _); [by apply answered|]. apply parsed_served; [done|]. intros [end_ fl] Hp. destruct (_ <? _); [by apply answered|].
    destruct (ParseInt_ok _) as [k|]; [|by apply answered]. destruct (parseFloatArgs _ _ _) as [query| |]; [|by apply answered..].
    destruct (_ =? _); [by apply answered|]. cbn zeta. destruct (_ >? _).
    - apply parsed_served; [done|]. intros results _. by apply answered.
    - apply search_served; [done|]. apply Hspace. by eapply stripped_space. }
  case_bool_decide; [intros [= <-]; unfold cmd_VSIM|].
  { destruct (_ <? _); [by apply answered|]. apply parsed_served; [done|]. intros [end_ fl] Hp. destruct (negb _); [by apply answered|]. cbn zeta.
    destruct (ParseInt_ok _) as [k|]; [|by apply answered]. pose proof (Hspace _ (stripped_space _ _ _ _ _ Hp)) as Hk.
    apply stored_served; [done|by apply (read_store n size_now)|]. intros query v' _ Hv' _. by apply search_served. }
  case_bool_decide; [intros [= <-]; unfold cmd_VFUSE|done].
  destruct (_ <? _); [by apply answered|]. apply parsed_served; [done|]. intros [end_ fl] Hp. apply parsed_served; [done|].
  intros [[index k] queries] Hq. destruct (fused_spaces _ _ _ _ _ Hq) as [-> Hs]. cbn zeta. apply fuse_served; [done|]. intros q Hin. by apply Hspace, Hs.
Qed.
End Command.
End Step.
End Durable.

(** ** Sequences of commands *)
(** A command with the state of the world it meets. *)
Record event := { ev_env : Env; ev_fault : option wal_fault; ev_cmd : Command }.

Definition serve (level : Z → Z) (pool : Z → searchScratch) (name : string → string) (events : list event) (v : VX) : VX :=
  foldl (λ v ev, match dispatch_vector level pool name (ev_env ev) (ev_fault ev) (ev_cmd ev) v with Some a => snd a | None => v end) v events.

Definition keys_of (events : list event) : gset string := list_to_set (mjoin (command_keys ∘ ev_cmd <$> events)).

(** The executor of a tenant that starts without files and with an empty log. *)
Definition new_executor (shards maxVectors memory : Z) (enc : string) : VX :=
  {| vx_exec := NewExecutor (New shards) (Some new_wal);
     vx_vec := new_tenant maxVectors memory enc; vx_ready := true |}.

Lemma serve_served level pool name K shards maxVectors memory enc e events :
  (∀ row, 0 ≤ level row ≤ 64) → (∀ row, scratch_ok (pool row)) →
  (∀ k k', k ∈ K → k' ∈ K → name k = name k' → k = k') → (∀ k k', k ∈ K → k' ∈ K → name k ≠ shadowFile k') →
  NormalizeVectorEncoding enc = Ok e → keys_of events ⊆ K →
  Forall (λ ev, Normalized (ev_cmd ev) ≠ "VMIGRATE"%string ∧ io_ok name K (ev_env ev)) events →
  maxVectorBatch * zlen events ≤ 2 ^ 62 →
  served level pool name K shards maxVectors memory enc (zlen events) (serve level pool name events (new_executor shards maxVectors memory enc)).
Proof.
  intros Hl Hp Hi Hsh He. induction events as [|ev events IH] using rev_ind; intros HK Hev Hz.
  - exists [], new_wal. conjs; try done. apply pf_nil.
  - unfold serve. rewrite foldl_app. cbn [foldl]. fold (serve level pool name events (new_executor shards maxVectors memory enc)).
    apply Forall_app in Hev as [Hev [Hlast _]%Forall_cons_1]. destruct Hlast as [Hm Hio]. rewrite zlen_app in *. change (zlen [ev]) with 1 in *.
    pose proof (zlen_nonneg events). unfold keys_of in HK. rewrite fmap_app, join_app, list_to_set_app_L in HK.
    assert (Hv : served level pool name K shards maxVectors memory enc (zlen events) (serve level pool name events (new_executor shards maxVectors memory enc))).
    { apply IH; [clear -HK; unfold keys_of; set_solver|done|unfold maxVectorBatch in *; lia]. }
    destruct (dispatch_vector _ _ _ _ _ _ _) as [a|] eqn:Ed; [|by eapply served_mono; [|exact Hv]; lia].
    eapply (dispatch_served level pool name K Hl Hp Hi Hsh shards maxVectors memory enc e He (ev_env ev) (ev_fault ev) Hio (zlen events)); [unfold maxVectorBatch in *; lia|exact Hv| |exact Hm|exact Ed].
    intros key Hk. apply HK. apply elem_of_union. right. apply elem_of_list_to_set. cbn. by rewrite app_nil_r.
Qed.


(** ** A history *)
Definition vector_event (env : Env) (name : string) (args : list string) : event :=
  {| ev_env := env; ev_fault := None; ev_cmd := {| Name := name; Args := to_slice <$> args |} |}.
Definition demo_events : list event :=
  [vector_event eager_env "VADD" ["k"; "a"; "1"; "0"]; vector_event demo_env "vadd" ["k"; "b"; "0"; "1"];
   vector_event demo_env "VDEL" ["k"; "a"]; vector_event demo_env "VADD_BATCH" ["k"; "2"; "c"; "1"; "1"; "b"; "1"; "0"];
   vector_event demo_env "VADD" ["k"; "d"; "1"]; vector_event demo_env "VSEARCH" ["k"; "1"; "0"; "2"]].
Definition demo_served (maxVectors : Z) (events : list event) : VX :=
  serve demo_level demo_pool demo_name events (new_executor 4 maxVectors 0 "").
Definition demo_get (id : string) (st : vstate) : res string (list float32) :=
  fst (GetVector demo_level demo_pool demo_name demo_env "k" id st).

Lemma demo_files : (∀ k k', demo_name k = demo_name k' → k = k') ∧ ∀ k k', demo_name k ≠ shadowFile k'.
Proof.
  unfold demo_name, shadowFile. split.
  - intros k k' H. apply (f_equal bytes_of) in H. rewrite !bytes_of_append in H. apply app_inv_tail in H. by apply (inj bytes_of) in H.
  - intros k k' H. apply (f_equal bytes_of) in H. rewrite !bytes_of_append in H. apply (f_equal (@rev byte)) in H. by rewrite !rev_app_distr in H.
Qed.


(** With room for two vectors the deletion of [a] compacts, so [c] fits. The
    compaction is not in the log: replay meets [c] with [a] only marked deleted,
    and the tenant that ran within its quota does not start any more. *)
Example compaction_is_not_replayed :
  let v := demo_served 2 (take 3 demo_events ++ [vector_event demo_env "VADD" ["k"; "c"; "1"; "1"]]) in
  demo_get "c" (store_of v) = Ok [f1; f1] ∧
  match wal (vx_exec v) with
  | Some w => demo_recover None (w_records w) (vx_vec v) = Err "recovery: vector add sequence 4: tenant vector quota exceeded: maximum of 2 vectors allowed"%string
  | None => False
  end.
Proof. vm_compute. split; reflexivity. Qed.

(** A search answers the names with their scores. *)
Example search_answers :
  match dispatch_vector demo_level demo_pool demo_name demo_env None {| Name := "VSEARCH"; Args := to_slice <$> ["k"; "1"; "0"; "2"]%string |}
          (demo_served 0 (take 4 demo_events)) with
  | Some (out, _, _) => out = WriteArray 2 ++ WriteArray 2 ++ WriteBulkStringStr "b" ++ WriteBulkStringStr "1.000000" ++
                              WriteArray 2 ++ WriteBulkStringStr "c" ++ WriteBulkStringStr "0.707107"
  | None => False
  end.
Proof. vm_compute. reflexivity. Qed.
