(* ===== verification/Cluster.v ===== *)
(** * The cluster ring: [cluster/ring.go], [cluster/membership.go], [query/router.go]

    A ring hands out the 16384 hash slots to its nodes. Nodes are shared by
    pointer between the slice [r.nodes], the map [r.nodeMap] and the callers, so
    they live in a store of cells ([mem]) and the ring holds their addresses.
    The slot array holds IDs; a slot never written holds the empty string.

    The theorems: after any history of joins and departures every slot is owned
    by a node of the ring while there is one, a removed node owns nothing, the
    shares are contiguous and as equal as the division allows, and the owner of
    a key is decided by its hash tag. *)
From S2P Require Import Prelude GoStd Hash.
Open Scope string_scope.
Open Scope Z_scope.

Definition TotalSlots : Z := 16384.

Record SlotRange := { Start : Z; End : Z }.

Inductive NodeState := NodeOnline | NodeOffline | NodeFailing.

Record Node := {
  ID : string;
  Addr : string;
  Slots : list SlotRange;
  State : NodeState;
  Role : string;
}.

(** A [*Node]: the address of a cell. *)
Abbreviation loc := nat.

Record Ring := {
  mem : gmap loc Node;
  nodes : list loc;
  nodeMap : gmap string loc;
  slotMap : gmap Z string;
}.

(** [n.ID] through a pointer; pointers given to a ring point to nodes. *)
Definition id_of (m : gmap loc Node) (l : loc) : string :=
  match m !! l with Some n => ID n | None => "" end.

Definition NewRing (m : gmap loc Node) : Ring :=
  {| mem := m; nodes := []; nodeMap := ∅; slotMap := ∅ |}.

(** The comparison of [sort.Slice]. Nodes with one ID compare equal; this order
    keeps them as they were. *)
Definition id_le (m : gmap loc Node) (a b : loc) : Prop :=
  String.ltb (id_of m b) (id_of m a) = false.

#[export] Instance id_le_dec m : RelDecision (id_le m).
Proof. intros a b. unfold id_le. apply _. Defined.

Definition sort_by_id (m : gmap loc Node) (l : list loc) : list loc :=
  merge_sort (id_le m) l.

(** [for s := start; s < end; s++ { r.slotMap[s] = node.ID }] *)
Fixpoint fill_loop (k : nat) (s : Z) (id : string) (m : gmap Z string) : gmap Z string :=
  match k with
  | O => m
  | S k' => fill_loop k' (s + 1) id (<[s := id]> m)
  end.
Definition fill (start end_ : Z) (id : string) (m : gmap Z string) : gmap Z string :=
  fill_loop (Z.to_nat (end_ - start)) start id m.

Definition set_slots (rs : list SlotRange) (n : Node) : Node :=
  {| ID := ID n; Addr := Addr n; Slots := rs; State := State n; Role := Role n |}.

(** [node.Slots = []SlotRange{{start, end-1}}] for the [i]-th of [n] nodes. *)
Definition share (n per i : Z) : SlotRange :=
  {| Start := i * per; End := (if i =? n - 1 then TotalSlots else i * per + per) - 1 |}.

(** The loop over [r.nodes] in [rebalance], from index [i]. *)
Fixpoint assign (n per i : Z) (l : list loc) (m : gmap loc Node) (sm : gmap Z string)
    : gmap loc Node * gmap Z string :=
  match l with
  | [] => (m, sm)
  | node :: l' =>
      let start := i * per in
      let end_ := if i =? n - 1 then TotalSlots else start + per in
      let m' := alter (set_slots [{| Start := start; End := end_ - 1 |}]) node m in
      assign n per (i + 1) l' m' (fill start end_ (id_of m node) sm)
  end.

Definition rebalance (r : Ring) : Ring :=
  let n := zlen (nodes r) in
  if n =? 0 then r else
  let ns := sort_by_id (mem r) (nodes r) in
  let slotsPerNode := TotalSlots / n in
  let '(m, sm) := assign n slotsPerNode 0 ns (mem r) (slotMap r) in
  {| mem := m; nodes := ns; nodeMap := nodeMap r; slotMap := sm |}.

Definition AddNode (n : loc) (r : Ring) : Ring :=
  rebalance
    {| mem := mem r; nodes := nodes r ++ [n];
       nodeMap := <[id_of (mem r) n := n]> (nodeMap r); slotMap := slotMap r |}.

Definition RemoveNode (nodeID : string) (r : Ring) : Ring :=
  rebalance
    {| mem := mem r; nodes := filter (fun n => id_of (mem r) n ≠ nodeID) (nodes r);
       nodeMap := delete nodeID (nodeMap r); slotMap := slotMap r |}.

Definition NodeForSlot (slot : Z) (r : Ring) : option loc :=
  if (slot <? 0) || (slot >=? TotalSlots) then None
  else nodeMap r !! default "" (slotMap r !! slot).

Definition NodeForKey (key : string) (r : Ring) : option loc := NodeForSlot (HashSlot key) r.

Definition Nodes (r : Ring) : list loc := nodes r.

Definition SlotInfo (r : Ring) : gmap string (list SlotRange) :=
  foldl (fun m l => <[id_of (mem r) l := match mem r !! l with Some n => Slots n | None => [] end]> m)
        ∅ (nodes r).

(** [fmt.Sprintf("MOVED %d %s", slot, node.Addr)] *)
Definition Redirect (slot : Z) (node : option Node) : string :=
  match node with
  | None => "MOVED " +:+ FormatInt slot +:+ " (no owner)"
  | Some n => "MOVED " +:+ FormatInt slot +:+ " " +:+ Addr n
  end.

(** ** Membership: heartbeats beside the ring *)
Record Membership := {
  ring : Ring;
  heartbeat : gmap string Z;   (* Unix nanoseconds *)
  timeout : Z;
}.

Definition NewMembership (r : Ring) (t : Z) : Membership :=
  {| ring := r; heartbeat := ∅; timeout := t |}.

Definition Join (now : Z) (n : loc) (m : Membership) : Membership :=
  {| ring := AddNode n (ring m);
     heartbeat := <[id_of (mem (ring m)) n := now]> (heartbeat m); timeout := timeout m |}.

Definition Leave (nodeID : string) (m : Membership) : Membership :=
  {| ring := RemoveNode nodeID (ring m);
     heartbeat := delete nodeID (heartbeat m); timeout := timeout m |}.

Definition Heartbeat (now : Z) (nodeID : string) (m : Membership) : Membership :=
  {| ring := ring m; heartbeat := <[nodeID := now]> (heartbeat m); timeout := timeout m |}.

Definition FailedNodes (now : Z) (m : Membership) : list string :=
  let cutoff := now - timeout m in
  (filter (fun p => p.2 < cutoff) (map_to_list (heartbeat m))).*1.

(** ** The wrappers over the ring: [SlotAllocator], [Rebalancer], [RedirectHandler] *)
Definition Allocate (r : Ring) : Ring := rebalance r.
Definition Rebalance (r : Ring) : Ring := rebalance r.

Definition Owner (slot : Z) (r : Ring) : res string string :=
  match NodeForSlot slot r with
  | None => Err ("no owner for slot " +:+ FormatInt slot)
  | Some l => Ok (id_of (mem r) l)
  end.

Definition ShouldRedirect (selfID : string) (key : string) (r : Ring) : bool * string :=
  match NodeForKey key r with
  | None => (false, "")
  | Some l =>
      if bool_decide (id_of (mem r) l = selfID) then (false, "")
      else (true, Redirect 0 (mem r !! l))
  end.

(** [query/router.go]: the router of the executor; [None] is a nil ring. *)
Definition RouteKey (selfID : string) (r : option Ring) (key : string) : string * bool :=
  match r with
  | None => ("", false)
  | Some r =>
      match NodeForKey key r with
      | None => ("", false)
      | Some l =>
          if bool_decide (id_of (mem r) l = selfID) then ("", false)
          else (Redirect (HashSlot key) (mem r !! l), true)
      end
  end.

(** ** The loops *)
Lemma fill_loop_lookup k s0 id m s :
  fill_loop k s0 id m !! s =
  if bool_decide (s0 ≤ s < s0 + Z.of_nat k) then Some id else m !! s.
Proof.
  revert s0 m. induction k as [|k IH]; intros s0 m; cbn [fill_loop].
  { by rewrite bool_decide_eq_false_2 by lia. }
  rewrite IH. destruct (decide (s = s0)) as [->|].
  - rewrite bool_decide_eq_false_2, bool_decide_eq_true_2 by lia. by rewrite lookup_insert_eq.
  - rewrite lookup_insert_ne by done. erewrite bool_decide_ext; [done|lia].
Qed.

Lemma fill_lookup start end_ id m s :
  fill start end_ id m !! s =
  if bool_decide (start ≤ s < end_) then Some id else m !! s.
Proof. unfold fill. rewrite fill_loop_lookup. erewrite bool_decide_ext; [done|lia]. Qed.

(** The index, in ID order, of the node that owns slot [s] of a ring of [n]. *)
Definition owner_ix (n per s : Z) : Z :=
  if per =? 0 then n - 1 else Z.min (s / per) (n - 1).

Lemma id_of_alter m l l' rs : id_of (alter (set_slots rs) l' m) l = id_of m l.
Proof.
  unfold id_of. destruct (decide (l = l')) as [->|].
  - rewrite lookup_alter_eq. by destruct (m !! l').
  - by rewrite lookup_alter_ne.
Qed.

Lemma assign_ids n per i l m sm l0 : id_of (assign n per i l m sm).1 l0 = id_of m l0.
Proof.
  revert i m sm. induction l as [|x l IH]; intros i m sm; simpl; [done|].
  by rewrite IH, id_of_alter.
Qed.

Lemma owner_ix_share n per s i :
  0 ≤ per → 0 < n → n * per ≤ TotalSlots → 0 ≤ i < n → 0 ≤ s < TotalSlots →
  (i * per ≤ s < (if i =? n - 1 then TotalSlots else i * per + per)) ↔ owner_ix n per s = i.
Proof.
  intros Hper Hn Hbound Hi Hs. unfold owner_ix.
  destruct (Z.eqb_spec per 0) as [->|Hp]; destruct (Z.eqb_spec i (n - 1)) as [->|Hi1]; [lia|lia|..].
  - pose proof (Z.div_le_lower_bound s per (n - 1)). split; intros; [lia|].
    split; [|lia]. pose proof (Z.mul_div_le s per). nia.
  - split; intros H.
    + assert (s / per = i) as ->; [|lia].
      symmetry. apply Z.div_unique with (s - per * i); lia.
    + assert (s / per = i) as Hd by lia.
      pose proof (Z.mul_div_le s per). pose proof (Z.mul_succ_div_gt s per). rewrite Hd in *. lia.
Qed.

(** What the loop leaves in a slot: the ID of its owner if that is one of the
    nodes still to come, and what was there before otherwise. *)
Lemma assign_slots n per i l m sm s :
  0 ≤ per → n * per ≤ TotalSlots → 0 ≤ i → i + zlen l = n → 0 ≤ s < TotalSlots →
  (assign n per i l m sm).2 !! s =
  match l !! Z.to_nat (owner_ix n per s - i) with
  | Some x => if bool_decide (i ≤ owner_ix n per s) then Some (id_of m x) else sm !! s
  | None => sm !! s
  end.
Proof.
  intros Hper Hbound. revert i m sm. induction l as [|x l IH]; intros i m sm Hi Hlen Hs.
  { done. }
  cbn [assign]. unfold zlen in *. cbn [length] in Hlen. rewrite IH by lia.
  pose proof (owner_ix_share n per s i Hper ltac:(lia) Hbound ltac:(lia) Hs) as Ho.
  rewrite fill_lookup, (bool_decide_ext _ _ Ho). clear Ho.
  set (o := owner_ix n per s) in *.
  destruct (decide (o = i)) as [He|He].
  - rewrite (bool_decide_eq_true_2 (o = i)), (bool_decide_eq_true_2 (i ≤ o)) by lia.
    replace (Z.to_nat (o - i)) with 0%nat by lia. simpl.
    rewrite (bool_decide_eq_false_2 (i + 1 ≤ o)) by lia. by destruct (l !! _).
  - rewrite (bool_decide_eq_false_2 (o = i)) by done.
    destruct (decide (i ≤ o)).
    + replace (Z.to_nat (o - i)) with (S (Z.to_nat (o - (i + 1)))) by lia. simpl.
      rewrite (bool_decide_eq_true_2 (i ≤ o)), (bool_decide_eq_true_2 (i + 1 ≤ o)) by lia.
      destruct (l !! _); [|done]. by rewrite id_of_alter.
    + rewrite (bool_decide_eq_false_2 (i ≤ o)), (bool_decide_eq_false_2 (i + 1 ≤ o)) by lia.
      by destruct (l !! _), ((x :: l) !! _).
Qed.

(** The cell of the [j]-th node after the loop, when no node occurs twice. *)
Lemma assign_cells n per i l m sm (j : nat) x c :
  NoDup l → l !! j = Some x → m !! x = Some c →
  (assign n per i l m sm).1 !! x = Some (set_slots [share n per (i + Z.of_nat j)] c).
Proof.
  assert (∀ l i m sm x, x ∉ l → (assign n per i l m sm).1 !! x = m !! x) as Hframe.
  { clear. induction l as [|y l IH]; intros i m sm x Hx; cbn [assign]; [done|].
    apply not_elem_of_cons in Hx as [Hne Hx]. rewrite IH by done. by rewrite lookup_alter_ne. }
  intros Hnd. revert i m sm j. induction l as [|y l IH]; intros i m sm j Hj Hm; [done|].
  apply NoDup_cons in Hnd as [Hy Hnd]. cbn [assign]. destruct j as [|j]; simplify_eq/=.
  - rewrite Hframe by done. rewrite lookup_alter_eq, Hm. simpl. unfold share.
    by rewrite Z.add_0_r.
  - assert (x ≠ y) by (intros ->; apply Hy; by eapply list_elem_of_lookup_2).
    rewrite (IH Hnd _ _ _ j Hj) by (by rewrite lookup_alter_ne).
    by replace (i + 1 + Z.of_nat j) with (i + Z.of_nat (S j)) by lia.
Qed.

Lemma assign_dom n per i l m sm x :
  is_Some ((assign n per i l m sm).1 !! x) ↔ is_Some (m !! x).
Proof.
  revert i m sm. induction l as [|y l IH]; intros i m sm; cbn [assign]; [done|].
  by rewrite IH, lookup_alter_is_Some.
Qed.

(** ** The invariant of a ring *)
Definition per_node (r : Ring) : Z := TotalSlots / zlen (nodes r).

Record ring_inv (r : Ring) : Prop := {
  inv_cells : ∀ l, l ∈ nodes r → is_Some (mem r !! l);
  inv_map : ∀ id l, nodeMap r !! id = Some l → l ∈ nodes r ∧ id_of (mem r) l = id;
  inv_listed : ∀ l, l ∈ nodes r → is_Some (nodeMap r !! id_of (mem r) l);
  inv_slots : ∀ s, nodes r ≠ [] → 0 ≤ s < TotalSlots →
    ∃ l, nodes r !! Z.to_nat (owner_ix (zlen (nodes r)) (per_node r) s) = Some l
         ∧ slotMap r !! s = Some (id_of (mem r) l);
  inv_shares : ∀ (i : nat) l, NoDup (nodes r) → nodes r !! i = Some l →
    ∃ n, mem r !! l = Some n
         ∧ Slots n = [share (zlen (nodes r)) (per_node r) (Z.of_nat i)];
}.

(** What holds of the fields before [rebalance] runs. *)
Record pre_inv (r : Ring) : Prop := {
  pre_cells : ∀ l, l ∈ nodes r → is_Some (mem r !! l);
  pre_map : ∀ id l, nodeMap r !! id = Some l → l ∈ nodes r ∧ id_of (mem r) l = id;
  pre_listed : ∀ l, l ∈ nodes r → is_Some (nodeMap r !! id_of (mem r) l);
}.

Lemma owner_ix_bounds n per s : 0 < n → 0 ≤ per → 0 ≤ s → 0 ≤ owner_ix n per s < n.
Proof.
  intros. unfold owner_ix. destruct (Z.eqb_spec per 0); [lia|].
  pose proof (Z.div_pos s per). lia.
Qed.

Lemma per_node_bounds n : 0 < n → 0 ≤ TotalSlots / n ∧ n * (TotalSlots / n) ≤ TotalSlots.
Proof.
  intros. unfold TotalSlots. split; [apply Z.div_pos; lia|]. apply Z.mul_div_le. lia.
Qed.

Lemma rebalance_inv r : pre_inv r → ring_inv (rebalance r).
Proof.
  intros [Hc Hm Hl]. unfold rebalance.
  destruct (Z.eqb_spec (zlen (nodes r)) 0) as [Hz|Hz].
  { assert (nodes r = []) as He by (apply nil_length_inv; unfold zlen in Hz; lia).
    split; try done; rewrite He; done. }
  set (ns := sort_by_id (mem r) (nodes r)).
  assert (ns ≡ₚ nodes r) as Hp by apply merge_sort_Permutation.
  assert (zlen ns = zlen (nodes r)) as Hlen by (unfold zlen; by rewrite Hp).
  pose proof (zlen_nonneg (nodes r)).
  destruct (per_node_bounds (zlen (nodes r)) ltac:(lia)) as [Hb1 Hb2].
  destruct (assign _ _ _ _ _ _) as [m sm] eqn:Ha.
  pose proof (λ l, f_equal (λ p, id_of p.1 l) Ha) as Hid. simpl in Hid.
  split; cbn -[sort_by_id].
  - intros l. rewrite Hp. intros Hin%Hc.
    apply (assign_dom (zlen (nodes r)) (TotalSlots / zlen (nodes r)) 0 ns (mem r) (slotMap r)) in Hin.
    by rewrite Ha in Hin.
  - intros id l Hin%Hm. rewrite Hp, <- Hid, assign_ids. done.
  - intros l. rewrite Hp, <- Hid, assign_ids. apply Hl.
  - intros s _ Hs. unfold per_node. cbn [nodes]. rewrite Hlen.
    set (o := owner_ix _ _ s).
    assert (0 ≤ o < zlen (nodes r)) as Ho by (apply owner_ix_bounds; lia).
    destruct (lookup_lt_is_Some_2 ns (Z.to_nat o)) as [l Hlk]; [unfold zlen in *; lia|].
    exists l. split; [done|].
    pose proof (assign_slots (zlen (nodes r)) (TotalSlots / zlen (nodes r)) 0 ns (mem r)
      (slotMap r) s Hb1 Hb2 ltac:(lia) ltac:(lia) Hs) as Has.
    fold o in Has. rewrite Z.sub_0_r, Hlk, bool_decide_eq_true_2, Ha in Has by lia.
    rewrite <- Hid, assign_ids. done.
  - intros i l Hnd Hi. unfold per_node. cbn [nodes]. rewrite Hlen.
    assert (l ∈ nodes r) as Hin by (rewrite <- Hp; by eapply list_elem_of_lookup_2).
    destruct (Hc l Hin) as [c Hcell].
    pose proof (assign_cells (zlen (nodes r)) (TotalSlots / zlen (nodes r)) 0 ns (mem r)
      (slotMap r) i l c Hnd Hi Hcell) as Has.
    rewrite Ha in Has. eauto.
Qed.

(** ** Histories of a ring *)
Inductive ring_step (r : Ring) : Ring → Prop :=
  | step_add l : is_Some (mem r !! l) → ring_step r (AddNode l r)
  | step_remove id : ring_step r (RemoveNode id r)
  | step_rebalance : ring_step r (Rebalance r).

Definition ring_reachable (m : gmap loc Node) : Ring → Prop := rtc ring_step (NewRing m).

Lemma ring_inv_pre r : ring_inv r → pre_inv r.
Proof. intros []. by split. Qed.

Lemma ring_step_inv r r' : ring_inv r → ring_step r r' → ring_inv r'.
Proof.
  intros Hi Hs. destruct (ring_inv_pre r Hi) as [Hc Hm Hl].
  destruct Hs as [l Hcell|id|]; apply rebalance_inv; [split|split|by split]; cbn.
  - intros x [?| ->%list_elem_of_singleton]%elem_of_app; eauto.
  - intros id x. rewrite lookup_insert_Some, elem_of_app, list_elem_of_singleton.
    intros [[<- <-]|[_ [Hx ?]%Hm]]; auto.
  - intros x. rewrite lookup_insert_is_Some', elem_of_app, list_elem_of_singleton.
    intros [?| ->]; [right; eauto|by left].
  - intros x [_ ?]%list_elem_of_filter. eauto.
  - intros id' x [Hne Hx]%lookup_delete_Some. apply Hm in Hx as [Hx <-].
    rewrite list_elem_of_filter. done.
  - intros x [Hx ?]%list_elem_of_filter. rewrite lookup_delete_ne by done. eauto.
Qed.

Lemma NewRing_inv m : ring_inv (NewRing m).
Proof. split; cbn; try done; intros l H; by apply not_elem_of_nil in H. Qed.

Lemma ring_reachable_inv m r : ring_reachable m r → ring_inv r.
Proof.
  unfold ring_reachable. intros H. pose proof (NewRing_inv m) as Hi.
  induction H; eauto using ring_step_inv.
Qed.

(** ** What a ring promises *)
Definition ids (r : Ring) : list string := id_of (mem r) <$> nodes r.

Lemma NodeForSlot_owner r s :
  ring_inv r → nodes r ≠ [] → 0 ≤ s < TotalSlots →
  ∃ l l', nodes r !! Z.to_nat (owner_ix (zlen (nodes r)) (per_node r) s) = Some l
    ∧ NodeForSlot s r = Some l' ∧ l' ∈ nodes r ∧ id_of (mem r) l' = id_of (mem r) l.
Proof.
  intros Hi Hne Hs. destruct (inv_slots r Hi s Hne Hs) as (l & Hl & Hsl).
  destruct (inv_listed r Hi l) as [l' Hl']; [by eapply list_elem_of_lookup_2|].
  destruct (inv_map r Hi _ _ Hl') as [Hin Hid].
  exists l, l'. conjs; try done. unfold NodeForSlot, TotalSlots in *.
  rewrite Hsl. simpl. rewrite Hl'. crush.
Qed.

Lemma ids_inj r l l' :
  NoDup (ids r) → l ∈ nodes r → l' ∈ nodes r → id_of (mem r) l = id_of (mem r) l' → l = l'.
Proof.
  unfold ids. intros Hnd [i Hi]%list_elem_of_lookup [j Hj]%list_elem_of_lookup He.
  assert (i = j) as <-; [|congruence].
  eapply NoDup_lookup; [exact Hnd|..]; rewrite list_lookup_fmap, ?Hi, ?Hj; [done|].
  simpl. by rewrite He.
Qed.

(** With distinct IDs the owner of a slot is the node at the owner's index. *)
Lemma NodeForSlot_iff r s (i : nat) l :
  ring_inv r → NoDup (ids r) → nodes r !! i = Some l → 0 ≤ s < TotalSlots →
  NodeForSlot s r = Some l ↔ owner_ix (zlen (nodes r)) (per_node r) s = Z.of_nat i.
Proof.
  intros Hi Hnd Hl Hs. assert (nodes r ≠ []) as Hne by (intros E; by rewrite E in Hl).
  pose proof (lookup_lt_Some _ _ _ Hl) as Hlt.
  assert (0 < zlen (nodes r)) as Hpos by (unfold zlen; lia).
  destruct (NodeForSlot_owner r s Hi Hne Hs) as (o & l' & Ho & -> & Hin & Hid).
  assert (l' = o) as -> by (apply (ids_inj r); eauto using list_elem_of_lookup_2).
  pose proof (owner_ix_bounds (zlen (nodes r)) (per_node r) s Hpos
    (proj1 (per_node_bounds _ Hpos)) ltac:(lia)).
  split; intros H0.
  - simplify_eq. pose proof (NoDup_lookup _ _ _ _ (NoDup_fmap_1 _ _ Hnd) Ho Hl). lia.
  - rewrite H0, Nat2Z.id in Ho. congruence.
Qed.

(** The slots of the [i]-th node are those of its range. *)
Lemma NodeForSlot_share r s (i : nat) l :
  ring_inv r → NoDup (ids r) → nodes r !! i = Some l →
  let rg := share (zlen (nodes r)) (per_node r) (Z.of_nat i) in
  NodeForSlot s r = Some l ↔ Start rg ≤ s ≤ End rg.
Proof.
  intros Hi Hnd Hl. pose proof (lookup_lt_Some _ _ _ Hl) as Hlt.
  assert (0 < zlen (nodes r)) as Hpos by (unfold zlen; lia).
  destruct (per_node_bounds _ Hpos) as [Hb1 Hb2]. fold (per_node r) in Hb1, Hb2.
  assert (0 ≤ Z.of_nat i * per_node r) by nia.
  assert (Z.of_nat i < zlen (nodes r)) by (unfold zlen; lia).
  unfold share. cbn. split; intros Hn.
  - assert (0 ≤ s < TotalSlots) as Hs by (unfold NodeForSlot in Hn; crush).
    apply (NodeForSlot_iff r s i l) in Hn; [|done..]. apply owner_ix_share in Hn; lia.
  - assert (0 ≤ s < TotalSlots) as Hs.
    { split; [lia|]. destruct (Z.eqb_spec (Z.of_nat i) (zlen (nodes r) - 1)); [lia|]. nia. }
    apply (NodeForSlot_iff r s i l); [done..|]. apply owner_ix_share; lia.
Qed.

(** C35: after any sequence of joins, departures and rebalances the
    ring answers a node exactly for the slots 0 to 16383 while it has a node,
    never one that was removed, and when the IDs are distinct the node at
    position i of the ID order carries the one range it was given and owns
    exactly the slots of that range. *)
Theorem ring_partition m r :
  ring_reachable m r →
  (∀ s l, NodeForSlot s r = Some l → 0 ≤ s < TotalSlots ∧ l ∈ nodes r) ∧
  (∀ s, nodes r ≠ [] → 0 ≤ s < TotalSlots → is_Some (NodeForSlot s r)) ∧
  (NoDup (ids r) → ∀ (i : nat) l, nodes r !! i = Some l →
     ∃ n rg, mem r !! l = Some n ∧ Slots n = [rg]
       ∧ rg = share (zlen (nodes r)) (TotalSlots / zlen (nodes r)) (Z.of_nat i)
       ∧ ∀ s, NodeForSlot s r = Some l ↔ Start rg ≤ s ≤ End rg).
Proof.
  intros Hi%ring_reachable_inv. conjs.
  - intros s l. unfold NodeForSlot. crush. intros Hx. split; [lia|].
    by apply (inv_map r Hi) in Hx as [].
  - intros s Hne Hs. destruct (NodeForSlot_owner r s Hi Hne Hs) as (l & l' & _ & H & _). eauto.
  - intros Hnd i l Hl. destruct (inv_shares r Hi i l) as (n & Hn & Hsl); [by eapply NoDup_fmap_1|done|].
    eexists n, _. split; [done|]. split; [done|]. split; [done|]. intros s.
    by apply NodeForSlot_share.
Qed.

(** Three nodes joined out of ID order, in cells 0 to 2. *)
Definition demo_node (id addr : string) : Node :=
  {| ID := id; Addr := addr; Slots := []; State := NodeOnline; Role := "primary" |}.
Definition demo_mem : gmap loc Node :=
  {[0%nat := demo_node "c" "h:3"; 1%nat := demo_node "a" "h:1"; 2%nat := demo_node "b" "h:2"]}.
Definition demo_ring : Ring := AddNode 2 (AddNode 1 (AddNode 0 (NewRing demo_mem))).

Lemma demo_ring_reachable : ring_reachable demo_mem demo_ring.
Proof.
  unfold ring_reachable, demo_ring.
  do 3 (eapply rtc_r; [|apply step_add; vm_compute; by eexists]). apply rtc_refl.
Qed.

Lemma ring_partition_witness :
  nodes demo_ring = [1; 2; 0]%nat ∧ is_Some (NodeForSlot 16383 demo_ring).
Proof.
  split; [vm_compute; reflexivity|].
  destruct (ring_partition demo_mem demo_ring demo_ring_reachable) as (_ & H & _).
  apply H; [vm_compute; discriminate|unfold TotalSlots; lia].
Defined.

(** The shares differ by less than the number of nodes. *)
Lemma share_size n i :
  0 < n → 0 ≤ i < n →
  let rg := share n (TotalSlots / n) i in
  TotalSlots / n ≤ End rg - Start rg + 1 < TotalSlots / n + n.
Proof.
  intros Hn Hi. pose proof (Z.div_mod TotalSlots n ltac:(lia)) as Hd.
  pose proof (Z.mod_pos_bound TotalSlots n Hn). unfold share. cbn -[TotalSlots Z.div Z.modulo].
  destruct (Z.eqb_spec i (n - 1)) as [->|]; nia.
Qed.

Lemma HashSlot_bounds key : 0 ≤ HashSlot key < TotalSlots.
Proof. unfold HashSlot, TotalSlots. apply Z.mod_pos_bound. lia. Qed.

(** In every reachable ring with a node, every key has an owner in
    the ring, a node redirects a key exactly when another ID owns it, keys with
    one hash tag are owned by one node, the router of the executor and the
    redirect handler agree, and the ring redirects nothing once its last node
    has left. *)
Theorem ring_routes m r selfID key :
  ring_reachable m r →
  (nodes r ≠ [] → ∃ l, NodeForKey key r = Some l ∧ l ∈ nodes r
     ∧ (ShouldRedirect selfID key r).1 = bool_decide (id_of (mem r) l ≠ selfID)) ∧
  (nodes r = [] → NodeForKey key r = None ∧ ShouldRedirect selfID key r = (false, "")) ∧
  (RouteKey selfID (Some r) key).2 = (ShouldRedirect selfID key r).1 ∧
  (∀ a1 b1 a2 b2 t, Byte.x7d ∉ a1 → Byte.x7d ∉ a2 → Byte.x7b ∉ t → Byte.x7d ∉ t → t ≠ [] →
     NodeForKey (str_of (a1 ++ Byte.x7b :: t ++ Byte.x7d :: b1)) r
     = NodeForKey (str_of (a2 ++ Byte.x7b :: t ++ Byte.x7d :: b2)) r).
Proof.
  intros Hi%ring_reachable_inv. conjs.
  - intros Hne. destruct (NodeForSlot_owner r (HashSlot key) Hi Hne (HashSlot_bounds key))
      as (l & l' & _ & Hl & Hin & _).
    exists l'. split; [done|]. split; [done|]. unfold ShouldRedirect, NodeForKey. rewrite Hl.
    by destruct (decide (id_of (mem r) l' = selfID)) as [->|];
      [rewrite bool_decide_eq_true_2, bool_decide_eq_false_2 by naive_solver
      |rewrite bool_decide_eq_false_2, bool_decide_eq_true_2 by done].
  - intros He. assert (NodeForKey key r = None) as Hk.
    { unfold NodeForKey, NodeForSlot. crush. apply eq_None_not_Some. intros [l Hl].
      apply (inv_map r Hi) in Hl as [Hl _]. rewrite He in Hl. by apply not_elem_of_nil in Hl. }
    unfold ShouldRedirect. by rewrite Hk.
  - unfold RouteKey, ShouldRedirect. destruct (NodeForKey key r); [by case_bool_decide|done].
  - intros. unfold NodeForKey. by rewrite !HashSlot_tagged_aux.
Qed.

Lemma ring_routes_witness :
  NodeForKey "user:{42}:name" demo_ring = NodeForKey "cart:{42}" demo_ring
  ∧ ∃ l, NodeForKey "cart:{42}" demo_ring = Some l ∧ l ∈ nodes demo_ring.
Proof.
  destruct (ring_routes demo_mem demo_ring "a" "cart:{42}" demo_ring_reachable) as (H1 & _ & _ & H2).
  split.
  - apply (H2 (bytes_of "user:") (bytes_of ":name") (bytes_of "cart:") [] (bytes_of "42"));
      solve [apply (bool_decide_unpack _); vm_compute; exact I | done].
  - destruct H1 as (l & Hl & Hin & _); [vm_compute; discriminate|]. eauto.
Defined.

(** The redirect names slot 0 whatever the key: [ShouldRedirect] passes the
    constant 0 where the slot of the key is meant. *)
Lemma redirect_names_slot_zero :
  ShouldRedirect "c" "cart:{42}" demo_ring = (true, "MOVED 0 h:2")
  ∧ RouteKey "c" (Some demo_ring) "cart:{42}" = ("MOVED 8160 h:2", true).
Proof. split; vm_compute; reflexivity. Qed.

(** The ring is not a consistent hash: when a third node joins, slots move
    between the two nodes that were there. *)
Lemma rebalance_moves_between_old_nodes :
  let r := AddNode 1 (AddNode 0 (NewRing demo_mem)) in
  Owner 6000 r = Ok "a" ∧ Owner 6000 (AddNode 2 r) = Ok "b" ∧
  Owner 8191 r = Ok "a" ∧ Owner 8192 r = Ok "c" ∧ Owner 8192 (AddNode 2 r) = Ok "b".
Proof. vm_compute. conjs; reflexivity. Qed.

(** ** Failure detection *)
Inductive member_event :=
  | EvJoin (now : Z) (l : loc)
  | EvLeave (id : string)
  | EvBeat (now : Z) (id : string).

Definition member_apply (m : Membership) (e : member_event) : Membership :=
  match e with
  | EvJoin now l => Join now l m
  | EvLeave id => Leave id m
  | EvBeat now id => Heartbeat now id m
  end.

Definition member_run (es : list member_event) (m : Membership) : Membership :=
  foldl member_apply m es.

(** The event concerns the node [id]. *)
Definition mentions (m : gmap loc Node) (id : string) (e : member_event) : Prop :=
  match e with
  | EvJoin _ l => id_of m l = id
  | EvLeave id' => id' = id
  | EvBeat _ id' => id' = id
  end.

Lemma FailedNodes_iff now m id :
  id ∈ FailedNodes now m ↔ ∃ t, heartbeat m !! id = Some t ∧ now - t > timeout m.
Proof.
  unfold FailedNodes. rewrite list_elem_of_fmap. split.
  - intros ([id' t] & -> & [Ht Hin]%list_elem_of_filter). exists t.
    apply elem_of_map_to_list in Hin. simpl in *. split; [done|lia].
  - intros (t & Ht & Hlt). exists (id, t). split; [done|].
    apply list_elem_of_filter. rewrite elem_of_map_to_list. simpl. split; [lia|done].
Qed.

(** A heartbeat is kept even for an ID the ring does not know, which is then
    reported as failed. *)
Lemma heartbeat_of_stranger :
  let m := Heartbeat 0 "ghost" (NewMembership (NewRing demo_mem) 10) in
  FailedNodes 11 m = ["ghost"] ∧ Nodes (ring m) = [].
Proof. vm_compute. split; reflexivity. Qed.

Lemma id_of_rebalance r x : id_of (mem (rebalance r)) x = id_of (mem r) x.
Proof.
  unfold rebalance. case_if; [done|].
  destruct (assign _ _ _ _ _ _) as [m sm] eqn:Ha. cbn.
  by rewrite <- (assign_ids (zlen (nodes r)) (TotalSlots / zlen (nodes r)) 0
     (sort_by_id (mem r) (nodes r)) (mem r) (slotMap r) x), Ha.
Qed.

Lemma nodes_rebalance r : nodes (rebalance r) ≡ₚ nodes r.
Proof.
  unfold rebalance. case_if; [done|]. destruct (assign _ _ _ _ _ _). apply merge_sort_Permutation.
Qed.

Lemma id_of_apply m e x : id_of (mem (ring (member_apply m e))) x = id_of (mem (ring m)) x.
Proof. destruct e; cbn; unfold AddNode, RemoveNode; by rewrite ?id_of_rebalance. Qed.

(** Every node of the ring has a heartbeat time. *)
Definition monitored (m : Membership) : Prop :=
  ∀ l, l ∈ nodes (ring m) → is_Some (heartbeat m !! id_of (mem (ring m)) l).

Lemma monitored_apply m e : monitored m → monitored (member_apply m e).
Proof.
  intros Hm l. rewrite id_of_apply. destruct e as [now x|id|now id]; cbn;
    unfold AddNode, RemoveNode; rewrite ?nodes_rebalance; cbn.
  - rewrite elem_of_app, list_elem_of_singleton, lookup_insert_is_Some'.
    intros [?| ->]; [right; auto|by left].
  - intros [Hne ?]%list_elem_of_filter. rewrite lookup_delete_ne by done. auto.
  - rewrite lookup_insert_is_Some'. auto.
Qed.

Lemma monitored_run es m : monitored m → monitored (member_run es m).
Proof. intros. apply (foldl_invariant monitored); auto using monitored_apply. Qed.

Lemma timeout_run es m : timeout (member_run es m) = timeout m.
Proof.
  revert m. induction es as [|e es IH]; intros m; [done|]. cbn [member_run foldl].
  fold (member_run es (member_apply m e)). rewrite IH. by destruct e.
Qed.

Lemma silent_run m0 es m id :
  (∀ l, id_of (mem (ring m)) l = id_of m0 l) → Forall (λ e, ¬ mentions m0 id e) es →
  heartbeat (member_run es m) !! id = heartbeat m !! id.
Proof.
  revert m. induction es as [|e es IH]; intros m Hids Hs; [done|].
  apply Forall_cons in Hs as [He Hs]. cbn [member_run foldl].
  fold (member_run es (member_apply m e)).
  rewrite (IH (member_apply m e)); [|by intros l; rewrite id_of_apply|done].
  destruct e as [now x|id'|now id']; cbn in *.
  - rewrite lookup_insert_ne; [done|]. by rewrite Hids.
  - by rewrite lookup_delete_ne.
  - by rewrite lookup_insert_ne.
Qed.

(** After any sequence of joins, departures and heartbeats
    every node of the ring is under watch; one that then stays silent, whatever
    the others do, is not reported within the timeout of its last heartbeat and
    is reported at every later time until it is heard from. *)
Theorem failure_detection r0 tmo es l :
  nodes r0 = [] →
  let m := member_run es (NewMembership r0 tmo) in
  let id := id_of (mem (ring m)) l in
  l ∈ nodes (ring m) →
  ∃ t, heartbeat m !! id = Some t ∧
    ∀ es' now, Forall (λ e, ¬ mentions (mem (ring m)) id e) es' →
      id ∈ FailedNodes now (member_run es' m) ↔ t + tmo < now.
Proof.
  intros Hr m id Hl. assert (monitored m) as Hm.
  { apply monitored_run. intros x Hx. cbn in Hx. rewrite Hr in Hx. by apply not_elem_of_nil in Hx. }
  destruct (Hm l Hl) as [t Ht]. fold id in Ht. exists t. split; [done|]. intros es' now Hs.
  pose proof (silent_run (mem (ring m)) es' m id ltac:(done) Hs) as Hh.
  assert (timeout m = tmo) as Htm by apply timeout_run.
  rewrite FailedNodes_iff, Hh, Ht, timeout_run, Htm. split; [intros (? & [= <-] & ?); lia|].
  intros. exists t. split; [done|lia].
Qed.

Lemma failure_detection_witness :
  let m := member_run [EvJoin 5 0; EvJoin 6 1; EvBeat 20 "a"] (NewMembership (NewRing demo_mem) 10) in
  "c" ∈ FailedNodes 16 (member_run [EvBeat 15 "a"; EvLeave "b"] m).
Proof.
  destruct (failure_detection (NewRing demo_mem) 10 [EvJoin 5 0; EvJoin 6 1; EvBeat 20 "a"] 0 eq_refl)
    as (t & Ht & H); [apply (bool_decide_unpack _); vm_compute; exact I|].
  assert (t = 5) as -> by (vm_compute in Ht; by injection Ht).
  apply (H [EvBeat 15 "a"; EvLeave "b"] 16); [|lia].
  repeat constructor; vm_compute; discriminate.
Defined.
