(* ===== verification/Cache.v ===== *)
(** * Caching: [cache/entry.go], [cache/eviction.go], [cache/admission.go],
      [cache/ttl.go]

    An LRU cache keeps its entries in cells shared by the map [items] and the
    recency list [lru]; [Get] hands out the cell itself, and [Accessed] writes
    to it. [Module LRU] shows that the cache refines a list of bindings in order
    of use, that its eviction loop ends exactly when the capacity is positive,
    and that the number of entries stays within the capacity. The other Modules
    are the eviction manager, the admission gate, the tracker of hot keys and
    the table of deadlines. *)
From S2P Require Import Prelude.
Open Scope string_scope.
Open Scope list_scope.
Open Scope Z_scope.

Module LRU.
Section LRU.
Context {V : Type}.

(** The field [elem] of the source is the address of the cell: an entry is
    pushed once and its list element belongs to it alone. *)
Record Entry := {
  Key : string;
  Value : V;
  ExpiresAt : Z;
  Freq : Z;
  Size : Z;
}.

Record LRUCache := {
  capacity : Z;
  items : gmap string nat;
  lru : list nat;
  mem : gmap nat Entry;
  next : nat;               (* the next free address *)
}.

Definition IsExpired (now : Z) (e : Entry) : bool :=
  negb (ExpiresAt e =? 0) && (now >? ExpiresAt e).

Definition NewLRUCache (cap : Z) : LRUCache :=
  {| capacity := cap; items := ∅; lru := []; mem := ∅; next := 0 |}.

(** [list.Remove] and [list.MoveToFront]. *)
Definition list_Remove (l : nat) (ls : list nat) : list nat := filter (λ x, x ≠ l) ls.
Definition list_MoveToFront (l : nat) (ls : list nat) : list nat := l :: list_Remove l ls.

Definition drop_cell (key : string) (l : nat) (c : LRUCache) : LRUCache :=
  {| capacity := capacity c; items := delete key (items c); lru := list_Remove l (lru c);
     mem := mem c; next := next c |}.

Definition Get (now : Z) (key : string) (c : LRUCache) : option nat * LRUCache :=
  match items c !! key with
  | None => (None, c)
  | Some l =>
      match mem c !! l with
      | None => (None, c)                                (* dangling: excluded by [wf] *)
      | Some e =>
          if IsExpired now e then (None, drop_cell key l c)
          else (Some l, {| capacity := capacity c; items := items c;
                           lru := list_MoveToFront l (lru c); mem := mem c; next := next c |})
      end
  end.

Definition evict (c : LRUCache) : LRUCache :=
  match last (lru c) with
  | None => c
  | Some l =>
      match mem c !! l with
      | None => c                                        (* dangling: excluded by [wf] *)
      | Some e => drop_cell (Key e) l c
      end
  end.

(** [for len(c.items) >= c.capacity { c.evict() }]: [None] when the fuel ends
    before the loop does. *)
Fixpoint evict_loop (fuel : nat) (c : LRUCache) : option LRUCache :=
  if Z.of_nat (size (items c)) >=? capacity c then
    match fuel with
    | O => None
    | S fuel' => evict_loop fuel' (evict c)
    end
  else Some c.

Definition set_entry (v : V) (exp : Z) (e : Entry) : Entry :=
  {| Key := Key e; Value := v; ExpiresAt := exp; Freq := Freq e; Size := Size e |}.

Definition push (key : string) (v : V) (exp : Z) (c : LRUCache) : LRUCache :=
  {| capacity := capacity c; items := <[key := next c]> (items c);
     lru := next c :: lru c;
     mem := <[next c := {| Key := key; Value := v; ExpiresAt := exp; Freq := 0; Size := 0 |}]> (mem c);
     next := S (next c) |}.

Definition deadline (now ttlNano : Z) : Z := if ttlNano >? 0 then i64 (now + ttlNano) else 0.

Definition Set_ (fuel : nat) (now : Z) (key : string) (value : V) (ttlNano : Z) (c : LRUCache)
    : option LRUCache :=
  let exp := deadline now ttlNano in
  match items c !! key with
  | Some l =>
      Some {| capacity := capacity c; items := items c; lru := list_MoveToFront l (lru c);
              mem := alter (set_entry value exp) l (mem c); next := next c |}
  | None => push key value exp <$> evict_loop fuel c
  end.

Definition Delete (key : string) (c : LRUCache) : LRUCache :=
  match items c !! key with
  | Some l => drop_cell key l c
  | None => c
  end.

Definition Len (c : LRUCache) : Z := Z.of_nat (size (items c)).

(** ** The specification: bindings, most recently used first *)
Local Abbreviation binding := (string * (V * Z))%type.

Definition without (key : string) (rs : list binding) : list binding :=
  filter (λ p, p.1 ≠ key) rs.

Definition assoc (key : string) (rs : list binding) : option (V * Z) :=
  snd <$> head (filter (λ p, p.1 = key) rs).

Definition dead (now exp : Z) : bool := negb (exp =? 0) && (now >? exp).

Definition spec_get (now : Z) (key : string) (rs : list binding) : option (V * Z) * list binding :=
  match assoc key rs with
  | None => (None, rs)
  | Some (v, exp) =>
      if dead now exp then (None, without key rs)
      else (Some (v, exp), (key, (v, exp)) :: without key rs)
  end.

Definition spec_set (cap now : Z) (key : string) (v : V) (ttl : Z) (rs : list binding)
    : list binding :=
  let b := (key, (v, deadline now ttl)) in
  match assoc key rs with
  | Some _ => b :: without key rs
  | None => b :: take (Z.to_nat (cap - 1)) rs
  end.

(** The bindings a cache holds. *)
Definition bind_of (m : gmap nat Entry) (l : nat) : option binding :=
  (λ e, (Key e, (Value e, ExpiresAt e))) <$> m !! l.
Definition bindings (c : LRUCache) : list binding := omap (bind_of (mem c)) (lru c).

Record wf (c : LRUCache) : Prop := {
  wf_nodup : NoDup (lru c);
  wf_listed : ∀ l, l ∈ lru c → ∃ e, mem c !! l = Some e ∧ items c !! Key e = Some l;
  wf_items : ∀ k l, items c !! k = Some l → l ∈ lru c ∧ ∃ e, mem c !! l = Some e ∧ Key e = k;
  wf_fresh : ∀ l e, mem c !! l = Some e → (l < next c)%nat;
}.

(** ** Lists of cells and lists of bindings *)
Lemma wf_keys_inj c l l' e e' :
  wf c → l ∈ lru c → l' ∈ lru c → mem c !! l = Some e → mem c !! l' = Some e' →
  Key e = Key e' → l = l'.
Proof.
  intros [_ Hl _ _] H1 H2 He He' Hk.
  destruct (Hl l H1) as (e1 & ? & Hi1). destruct (Hl l' H2) as (e2 & ? & Hi2). congruence.
Qed.

Lemma bindings_elem c b :
  b ∈ bindings c ↔ ∃ l e, l ∈ lru c ∧ mem c !! l = Some e ∧ b = (Key e, (Value e, ExpiresAt e)).
Proof.
  unfold bindings, bind_of. rewrite list_elem_of_omap. split.
  - intros (l & Hl & (e & He & ->)%fmap_Some). eauto 6.
  - intros (l & e & Hl & He & ->). exists l. split; [done|]. simpl. by rewrite He.
Qed.

(** Removing a cell removes the bindings of its key. *)
Lemma omap_Remove m k l ls :
  (∀ x, x ∈ ls → ∃ e, m !! x = Some e ∧ (Key e = k ↔ x = l)) →
  omap (bind_of m) (list_Remove l ls) = without k (omap (bind_of m) ls).
Proof.
  unfold list_Remove, without. induction ls as [|x ls IH]; intros H; [done|].
  destruct (H x ltac:(left)) as (e & He & Hk).
  assert (∀ ls, omap (bind_of m) (x :: ls) = (Key e, (Value e, ExpiresAt e)) :: omap (bind_of m) ls)
    as Hcons by (intros; unfold bind_of; simpl; by rewrite He).
  rewrite Hcons, !filter_cons. rewrite <- IH by (intros; apply H; by right). simpl.
  destruct (decide (x = l)) as [->|Hne].
  - rewrite decide_False by auto. rewrite decide_False; [done|]. intros Hc. by apply Hc, Hk.
  - rewrite decide_True by done. rewrite decide_True; [by rewrite Hcons|]. by intros ?%Hk.
Qed.

Lemma bindings_Remove c k l :
  wf c → items c !! k = Some l →
  omap (bind_of (mem c)) (list_Remove l (lru c)) = without k (bindings c).
Proof.
  intros Hwf Hi. destruct (wf_items c Hwf k l Hi) as (Hl & e & He & <-).
  apply omap_Remove. intros x Hx. destruct (wf_listed c Hwf x Hx) as (ex & Hex & Hix).
  exists ex. split; [done|]. split; [intros Hk; by eapply wf_keys_inj|intros ->; congruence].
Qed.

Lemma assoc_elem (k : string) (x : V * Z) (rs : list binding) :
  NoDup rs.*1 → assoc k rs = Some x ↔ (k, x) ∈ rs.
Proof.
  unfold assoc. induction rs as [|[k' y] rs IH]; intros Hnd; cbn [fmap list_fmap] in *.
  { simpl. split; [done|]. by intros ?%not_elem_of_nil. }
  apply NoDup_cons in Hnd as [Hk Hnd]. rewrite filter_cons. simpl in *.
  rewrite elem_of_cons. case_decide as Hd; subst; simpl.
  - split; [intros [= ->]; by left|]. intros [[= ->]|Hin]; [done|].
    exfalso. apply Hk. apply list_elem_of_fmap. by exists (k, x).
  - rewrite IH by done. split; [by right|]. by intros [[= -> ->]|].
Qed.

Lemma bindings_keys c : wf c → NoDup (bindings c).*1.
Proof.
  intros Hwf. pose proof (wf_nodup c Hwf) as Hnd. unfold bindings.
  assert (∀ ls, NoDup ls → (∀ l, l ∈ ls → l ∈ lru c) → NoDup (omap (bind_of (mem c)) ls).*1) as H;
    [|by apply H].
  induction ls as [|l ls IH]; intros Hn Hin; [constructor|].
  apply NoDup_cons in Hn as [Hl Hn].
  destruct (wf_listed c Hwf l) as (e & He & Hi); [apply Hin; by left|].
  unfold bind_of at 1. simpl. rewrite He. simpl. constructor; [|apply IH; [done|]; intros; apply Hin; by right].
  intros ([k x] & Hk & (l' & Hl' & (e' & He' & [= -> ->])%fmap_Some)%list_elem_of_omap)%list_elem_of_fmap.
  simpl in Hk. assert (l' = l) as ->; [|done].
  eapply (wf_keys_inj c l' l e' e); eauto; apply Hin; [by right|by left].
Qed.

Lemma assoc_bindings c k :
  wf c → assoc k (bindings c) =
    l ← items c !! k; e ← mem c !! l; Some (Value e, ExpiresAt e).
Proof.
  intros Hwf. pose proof (bindings_keys c Hwf) as Hnd. destruct (items c !! k) as [l|] eqn:Hi; simpl.
  - destruct (wf_items c Hwf k l Hi) as (Hl & e & He & <-). rewrite He. simpl.
    apply assoc_elem; [done|]. apply bindings_elem. eauto.
  - apply eq_None_not_Some. intros [x Hx]. apply assoc_elem in Hx; [|done].
    apply bindings_elem in Hx as (l & e & Hl & He & [= -> ->]).
    destruct (wf_listed c Hwf l Hl) as (e' & ? & ?). congruence.
Qed.

Lemma length_bindings c : wf c → length (bindings c) = size (items c).
Proof.
  intros Hwf. assert (dom (items c) = list_to_set (bindings c).*1) as Hd.
  { apply set_eq. intros k. rewrite elem_of_dom, elem_of_list_to_set, list_elem_of_fmap. split.
    - intros [l Hi]. destruct (wf_items c Hwf k l Hi) as (Hl & e & He & <-).
      eexists. split; [|apply bindings_elem; eauto]. done.
    - intros (b & -> & (l & e & Hl & He & ->)%bindings_elem).
      destruct (wf_listed c Hwf l Hl) as (e' & ? & ?). simpl. simplify_eq. eauto. }
  rewrite <- size_dom, Hd, size_list_to_set by by apply bindings_keys.
  by rewrite length_fmap.
Qed.

(** ** The operations keep the cells and the map together *)
Lemma elem_of_Remove l x ls : x ∈ list_Remove l ls ↔ x ≠ l ∧ x ∈ ls.
Proof. unfold list_Remove. by rewrite list_elem_of_filter. Qed.

Lemma wf_drop c k l : wf c → items c !! k = Some l → wf (drop_cell k l c).
Proof.
  intros Hwf Hi. destruct (wf_items c Hwf k l Hi) as (Hl & e & He & <-). split; cbn.
  - apply NoDup_filter, (wf_nodup c Hwf).
  - intros x [Hne Hx]%elem_of_Remove. destruct (wf_listed c Hwf x Hx) as (ex & Hex & Hix).
    exists ex. split; [done|]. rewrite lookup_delete_ne; [done|]. intros Hk. rewrite Hk in Hi. congruence.
  - intros k' l' [Hne Hi']%lookup_delete_Some. destruct (wf_items c Hwf k' l' Hi') as (Hl' & e' & He' & <-).
    rewrite elem_of_Remove. split; [|eauto]. split; [intros ->; congruence|done].
  - apply (wf_fresh c Hwf).
Qed.

Lemma bindings_drop c k l :
  wf c → items c !! k = Some l → bindings (drop_cell k l c) = without k (bindings c).
Proof. intros. by apply (bindings_Remove c). Qed.

(** Moving a cell to the front and rewriting its value ([f] keeps the key). *)
Definition touch (f : Entry → Entry) (l : nat) (c : LRUCache) : LRUCache :=
  {| capacity := capacity c; items := items c; lru := list_MoveToFront l (lru c);
     mem := alter f l (mem c); next := next c |}.

Lemma omap_bind_ext m m' (ls : list nat) :
  (∀ l, l ∈ ls → m !! l = m' !! l) → omap (bind_of m) ls = omap (bind_of m') ls.
Proof.
  intros H. apply list_omap_ext, Forall_Forall2_diag, Forall_forall.
  intros l Hl. unfold bind_of. by rewrite H.
Qed.

Lemma wf_touch f c k l :
  (∀ e, Key (f e) = Key e) → wf c → items c !! k = Some l → wf (touch f l c).
Proof.
  intros Hf Hwf Hi. destruct (wf_items c Hwf k l Hi) as (Hl & e & He & <-).
  assert (∀ x, x ∈ list_MoveToFront l (lru c) ↔ x ∈ lru c) as Hperm.
  { intros x. unfold list_MoveToFront. rewrite elem_of_cons, elem_of_Remove.
    destruct (decide (x = l)) as [->|]; tauto. }
  split; cbn.
  - constructor; [by intros [? _]%elem_of_Remove|]. apply NoDup_filter, (wf_nodup c Hwf).
  - intros x. rewrite Hperm. intros (ex & Hex & Hix)%(wf_listed c Hwf).
    destruct (decide (x = l)) as [->|].
    + exists (f ex). by rewrite lookup_alter_eq, Hex, Hf.
    + exists ex. by rewrite lookup_alter_ne.
  - intros k' l'. rewrite Hperm. intros (Hl' & e' & He' & <-)%(wf_items c Hwf). split; [done|].
    destruct (decide (l' = l)) as [->|].
    + exists (f e'). by rewrite lookup_alter_eq, He', Hf.
    + exists e'. by rewrite lookup_alter_ne.
  - intros l' e' [(? & e0 & Hx & _)|[_ Hx]]%lookup_alter_Some; subst; by eapply (wf_fresh c Hwf).
Qed.

Lemma bindings_touch f c k l e :
  wf c → items c !! k = Some l → mem c !! l = Some e → Key (f e) = k →
  bindings (touch f l c) = (k, (Value (f e), ExpiresAt (f e))) :: without k (bindings c).
Proof.
  intros Hwf Hi He Hk. rewrite <- (bindings_Remove c k l Hwf Hi).
  unfold bindings, touch, list_MoveToFront. cbn [mem lru].
  simpl. unfold bind_of at 1. rewrite lookup_alter_eq, He. simpl. rewrite Hk. f_equal.
  apply omap_bind_ext. intros x [Hx _]%elem_of_Remove. by rewrite lookup_alter_ne.
Qed.

Lemma wf_push c k v exp : wf c → items c !! k = None → wf (push k v exp c).
Proof.
  intros Hwf Hi. assert (next c ∉ lru c) as Hfr.
  { intros (e & He & _)%(wf_listed c Hwf). apply (wf_fresh c Hwf) in He. lia. }
  split; cbn.
  - constructor; [done|apply (wf_nodup c Hwf)].
  - intros x [->|Hx]%elem_of_cons.
    + eexists. rewrite lookup_insert_eq. split; [done|]. cbn. by rewrite lookup_insert_eq.
    + destruct (wf_listed c Hwf x Hx) as (ex & Hex & Hix). exists ex.
      rewrite lookup_insert_ne by (by intros <-). split; [done|].
      rewrite lookup_insert_ne; [done|]. intros ->. congruence.
  - intros k' l' [[<- <-]|[Hne Hi']]%lookup_insert_Some.
    + split; [left|]. eexists. by rewrite lookup_insert_eq.
    + destruct (wf_items c Hwf k' l' Hi') as (Hl' & e' & He' & <-). split; [by right|].
      exists e'. rewrite lookup_insert_ne by (by intros <-). done.
  - intros l' e' [[<- _]|[_ He']]%lookup_insert_Some; [lia|]. apply (wf_fresh c Hwf) in He'. lia.
Qed.

Lemma bindings_push c k v exp : wf c → bindings (push k v exp c) = (k, (v, exp)) :: bindings c.
Proof.
  intros Hwf. unfold bindings, push. cbn [mem lru]. simpl. unfold bind_of at 1.
  rewrite lookup_insert_eq. simpl. f_equal.
  apply omap_bind_ext. intros x (e & He & _)%(wf_listed c Hwf).
  apply (wf_fresh c Hwf) in He. rewrite lookup_insert_ne; [done|lia].
Qed.

(** ** Eviction *)
Lemma without_last k x (pre : list binding) :
  NoDup (pre ++ [(k, x)]).*1 → without k (pre ++ [(k, x)]) = pre.
Proof.
  rewrite fmap_app, NoDup_app. intros (_ & Hk & _). unfold without.
  rewrite filter_app, filter_cons_False, filter_nil, app_nil_r by (simpl; tauto).
  apply list_filter_all. intros [k' y] Hy. simpl. intros ->.
  apply (Hk k); [apply list_elem_of_fmap; by exists (k, y)|by left].
Qed.

Lemma evict_spec c :
  wf c →
  wf (evict c) ∧ capacity (evict c) = capacity c ∧ items (evict c) ⊆ items c
  ∧ bindings (evict c) = take (length (bindings c) - 1) (bindings c).
Proof.
  intros Hwf. unfold evict. destruct (last (lru c)) as [l|] eqn:Hl.
  - apply last_Some in Hl as [ls Hls].
    destruct (wf_listed c Hwf l) as (e & He & Hi); [rewrite Hls; apply elem_of_app; right; by left|].
    rewrite He. conjs; [by apply wf_drop|done|apply delete_subseteq|].
    rewrite bindings_drop by done.
    assert (bindings c = omap (bind_of (mem c)) ls ++ [(Key e, (Value e, ExpiresAt e))]) as Hb.
    { unfold bindings. rewrite Hls, omap_app. f_equal. simpl. unfold bind_of. by rewrite He. }
    pose proof (bindings_keys c Hwf) as Hnd. rewrite Hb in *. rewrite without_last by done.
    rewrite length_app, Nat.add_sub. by rewrite take_app_length.
  - apply last_None in Hl. unfold bindings. rewrite Hl. done.
Qed.

(** With a positive capacity the loop ends within as many rounds as there are
    entries and keeps the [capacity - 1] most recent ones. *)
Lemma evict_loop_spec fuel c :
  wf c → 0 < capacity c → (size (items c) ≤ fuel)%nat →
  ∃ c', evict_loop fuel c = Some c' ∧ wf c' ∧ capacity c' = capacity c ∧ items c' ⊆ items c
        ∧ bindings c' = take (Z.to_nat (capacity c - 1)) (bindings c).
Proof.
  revert c. induction fuel as [|fuel IH]; intros c Hwf Hcap Hf; cbn [evict_loop];
    destruct (Z.geb_spec (Z.of_nat (size (items c))) (capacity c)) as [Hge|Hlt];
    try lia;
    try (exists c; rewrite take_ge by (rewrite length_bindings by done; lia); done).
  destruct (evict_spec c Hwf) as (Hwf' & Hc' & Hsub & Hb).
  assert (size (items (evict c)) = (size (items c) - 1)%nat) as Hsz.
  { rewrite <- !length_bindings, Hb, length_take by done. lia. }
  destruct (IH (evict c)) as (c' & -> & Hw & Hcc & Hs & Hb'); [done|lia|lia|].
  exists c'. conjs; [done|done|congruence|by etransitivity|].
  rewrite Hb', Hb, Hc', take_take. f_equal. rewrite length_bindings by done. lia.
Qed.

(** Without one it runs for ever, whatever the cache holds. *)
Lemma evict_loop_diverges fuel c : capacity c ≤ 0 → evict_loop fuel c = None.
Proof.
  assert (∀ c, capacity (evict c) = capacity c) as Hc.
  { intros c0. unfold evict. by destruct (last _) as [l|]; [destruct (mem c0 !! l)|]. }
  revert c. induction fuel as [|fuel IH]; intros c Hcap; cbn [evict_loop];
    rewrite (proj2 (Z.geb_le _ _)) by lia; [done|]. apply IH. by rewrite Hc.
Qed.

Lemma Get_spec now k c :
  wf c →
  wf (Get now k c).2 ∧ capacity (Get now k c).2 = capacity c
  ∧ (l ← (Get now k c).1; snd <$> bind_of (mem (Get now k c).2) l) = (spec_get now k (bindings c)).1
  ∧ bindings (Get now k c).2 = (spec_get now k (bindings c)).2.
Proof.
  intros Hwf. unfold Get, spec_get. rewrite assoc_bindings by done.
  destruct (items c !! k) as [l|] eqn:Hi; simpl; [|done].
  destruct (wf_items c Hwf k l Hi) as (Hl & e & He & Hk). rewrite He. simpl.
  unfold IsExpired, dead. case_if; simpl.
  - conjs; [by apply wf_drop|done|done|by apply bindings_drop].
  - assert (touch id l c = {| capacity := capacity c; items := items c;
      lru := list_MoveToFront l (lru c); mem := mem c; next := next c |}) as Ht.
    { unfold touch. f_equal. apply map_eq. intros x. destruct (decide (x = l)) as [->|];
      [rewrite lookup_alter_eq, He; done|by rewrite lookup_alter_ne]. }
    pose proof (wf_touch id c k l ltac:(done) Hwf Hi) as Hw.
    pose proof (bindings_touch id c k l e Hwf Hi He Hk) as Hb. rewrite Ht in Hw, Hb.
    conjs; [done|done|unfold bind_of; by rewrite He|done].
Qed.

Lemma lru_Set_spec fuel now k v ttl c :
  wf c → 0 < capacity c → (size (items c) ≤ fuel)%nat →
  ∃ c', Set_ fuel now k v ttl c = Some c' ∧ wf c' ∧ capacity c' = capacity c
        ∧ bindings c' = spec_set (capacity c) now k v ttl (bindings c).
Proof.
  intros Hwf Hcap Hf. unfold Set_, spec_set. rewrite assoc_bindings by done.
  destruct (items c !! k) as [l|] eqn:Hi; simpl.
  - destruct (wf_items c Hwf k l Hi) as (Hl & e & He & Hk). rewrite He. simpl.
    eexists. split; [done|].
    split; [by apply (wf_touch (set_entry v (deadline now ttl)) c k l)|]. split; [done|].
    by apply (bindings_touch (set_entry v (deadline now ttl)) c k l e).
  - destruct (evict_loop_spec fuel c Hwf Hcap Hf) as (c' & -> & Hw & Hc & Hs & Hb). simpl.
    eexists. split; [done|].
    assert (items c' !! k = None) as Hn by (by eapply lookup_weaken_None).
    split; [by apply wf_push|]. split; [done|]. by rewrite bindings_push, Hb.
Qed.

Lemma lru_Delete_spec k c :
  wf c → wf (Delete k c) ∧ capacity (Delete k c) = capacity c
         ∧ bindings (Delete k c) = without k (bindings c).
Proof.
  intros Hwf. unfold Delete. destruct (items c !! k) as [l|] eqn:Hi.
  - conjs; [by apply wf_drop|done|by apply bindings_drop].
  - conjs; [done..|]. symmetry. apply list_filter_all. intros [k' x] Hx Hk. simpl in Hk. subst.
    apply assoc_elem in Hx; [|by apply bindings_keys]. by rewrite assoc_bindings, Hi in Hx.
Qed.

Lemma NewLRUCache_wf cap : wf (NewLRUCache cap).
Proof. split; cbn; try done; [apply NoDup_nil_2|intros l Hl; by apply not_elem_of_nil in Hl]. Qed.

(** ** Histories *)
Inductive op :=
  | OpGet (now : Z) (key : string)
  | OpSet (now : Z) (key : string) (v : V) (ttl : Z)
  | OpDelete (key : string)
  | OpLen.

Inductive out :=
  | OutEntry (r : option (V * Z))
  | OutUnit
  | OutLen (n : Z).

Definition run_op (fuel : nat) (o : op) (c : LRUCache) : option (out * LRUCache) :=
  match o with
  | OpGet now k =>
      let '(r, c') := Get now k c in
      Some (OutEntry (l ← r; snd <$> bind_of (mem c') l), c')
  | OpSet now k v ttl => (λ c', (OutUnit, c')) <$> Set_ fuel now k v ttl c
  | OpDelete k => Some (OutUnit, Delete k c)
  | OpLen => Some (OutLen (Len c), c)
  end.

Fixpoint run (fuel : nat) (os : list op) (c : LRUCache) : option (list out * LRUCache) :=
  match os with
  | [] => Some ([], c)
  | o :: os' =>
      '(r, c1) ← run_op fuel o c; '(rs, c2) ← run fuel os' c1; Some (r :: rs, c2)
  end.

Definition spec_op (cap : Z) (o : op) (rs : list binding) : out * list binding :=
  match o with
  | OpGet now k => (OutEntry (spec_get now k rs).1, (spec_get now k rs).2)
  | OpSet now k v ttl => (OutUnit, spec_set cap now k v ttl rs)
  | OpDelete k => (OutUnit, without k rs)
  | OpLen => (OutLen (zlen rs), rs)
  end.

Fixpoint spec_run (cap : Z) (os : list op) (rs : list binding) : list out * list binding :=
  match os with
  | [] => ([], rs)
  | o :: os' =>
      let '(r, rs1) := spec_op cap o rs in
      let '(out, rs2) := spec_run cap os' rs1 in (r :: out, rs2)
  end.

Lemma length_without k (rs : list binding) : (length (without k rs) ≤ length rs)%nat.
Proof. apply length_filter. Qed.

Lemma assoc_shorter k x (rs : list binding) :
  assoc k rs = Some x → (length (without k rs) < length rs)%nat.
Proof.
  unfold assoc. intros ([k' y] & Hh & _)%fmap_Some.
  apply head_Some_elem_of in Hh. apply list_elem_of_filter in Hh as [Hk Hin]. simpl in Hk. subst.
  apply (length_filter_lt _ _ (k, y)); [done|]. simpl. tauto.
Qed.

Lemma spec_op_bound cap o rs :
  0 < cap → zlen rs ≤ cap → zlen (spec_op cap o rs).2 ≤ cap.
Proof.
  unfold zlen. intros Hc Hl. destruct o as [now k|now k v ttl|k|]; simpl; [| | |done].
  - unfold spec_get. destruct (assoc k rs) as [[v exp]|] eqn:E; [|done]. case_if; simpl.
    + pose proof (length_without k rs). lia.
    + pose proof (assoc_shorter k _ rs E). lia.
  - unfold spec_set. destruct (assoc k rs) as [[v' exp]|] eqn:E; simpl.
    + pose proof (assoc_shorter k _ rs E). lia.
    + rewrite length_take. lia.
  - pose proof (length_without k rs). lia.
Qed.

Lemma lru_run_op_spec fuel o c :
  wf c → 0 < capacity c → (size (items c) ≤ fuel)%nat →
  ∃ c', run_op fuel o c = Some ((spec_op (capacity c) o (bindings c)).1, c')
    ∧ wf c' ∧ capacity c' = capacity c ∧ bindings c' = (spec_op (capacity c) o (bindings c)).2.
Proof.
  intros Hwf Hcap Hf. destruct o as [now k|now k v ttl|k|]; simpl.
  - destruct (Get_spec now k c Hwf) as (? & ? & Hr & ?).
    destruct (Get now k c) as [r c'] eqn:E. simpl in *. exists c'. by rewrite <- Hr.
  - destruct (lru_Set_spec fuel now k v ttl c Hwf Hcap Hf) as (c' & -> & ? & ? & ?). simpl. eauto.
  - destruct (lru_Delete_spec k c Hwf) as (? & ? & ?). eauto.
  - exists c. unfold Len, zlen. by rewrite length_bindings.
Qed.

Lemma run_spec fuel os c :
  wf c → 0 < capacity c → zlen (bindings c) ≤ capacity c → capacity c ≤ Z.of_nat fuel →
  ∃ c', run fuel os c = Some ((spec_run (capacity c) os (bindings c)).1, c')
    ∧ wf c' ∧ bindings c' = (spec_run (capacity c) os (bindings c)).2
    ∧ zlen (bindings c') ≤ capacity c.
Proof.
  revert c. induction os as [|o os IH]; intros c Hwf Hcap Hlen Hf; [by exists c|].
  assert (size (items c) ≤ fuel)%nat as Hs.
  { rewrite <- length_bindings by done. unfold zlen in Hlen. lia. }
  destruct (lru_run_op_spec fuel o c Hwf Hcap Hs) as (c1 & Hr & Hw1 & Hc1 & Hb1).
  pose proof (spec_op_bound (capacity c) o (bindings c) Hcap Hlen) as Hl1.
  cbn [run spec_run]. rewrite Hr. cbn.
  destruct (spec_op (capacity c) o (bindings c)) as [r rs1] eqn:Eo. cbn in *.
  destruct (IH c1) as (c2 & Hr2 & Hw2 & Hb2 & Hl2); [done|rewrite ?Hc1, ?Hb1; lia..|].
  rewrite Hc1, Hb1 in Hr2, Hb2. rewrite Hr2. cbn.
  destruct (spec_run (capacity c) os rs1) as [out rs2]. cbn in *. rewrite Hc1 in Hl2. eauto.
Qed.
End LRU.
Arguments Entry : clear implicits.
Arguments LRUCache : clear implicits.
Arguments op : clear implicits.
Arguments out : clear implicits.

(** C36: from an empty cache of positive capacity, any sequence of Get,
    Set, Delete and Len gives the answers of a list of bindings kept in order of
    use, in which a new key drops all but the capacity - 1 most recent ones; the
    sequence ends with every loop finished, and the cache never holds more
    entries than its capacity. *)
Theorem lru_refines {V} (cap : Z) (os : list (op V)) (fuel : nat) :
  0 < cap → cap ≤ Z.of_nat fuel →
  ∃ c, run fuel os (NewLRUCache cap) = Some ((spec_run cap os []).1, c)
    ∧ bindings c = (spec_run cap os []).2 ∧ Len c ≤ cap.
Proof.
  intros Hcap Hf. destruct (run_spec fuel os (NewLRUCache (V := V) cap)) as (c & Hr & Hw & Hb & Hl);
    [apply NewLRUCache_wf|done|unfold zlen; cbn; lia|done|].
  exists c. split; [done|]. split; [done|]. unfold Len. rewrite <- length_bindings by done. done.
Qed.

Lemma lru_refines_witness :
  let os := [OpSet 0 "a" 1 0; OpSet 0 "b" 2 0; OpGet 1 "a"; OpSet 2 "c" 3 0; OpGet 3 "b"; OpLen] in
  (spec_run 2 os []).1
  = [OutUnit; OutUnit; OutEntry (Some (1, 0)); OutUnit; OutEntry None; OutLen 2]
  ∧ ∃ c, run 2 os (NewLRUCache 2) = Some ((spec_run 2 os []).1, c) ∧ Len c ≤ 2.
Proof.
  intros os. split; [vm_compute; reflexivity|].
  destruct (lru_refines 2 os 2) as (c & Hr & _ & Hl); [lia..|]. eauto.
Defined.

(** C37: setting a key that is not cached returns, for some number
    of rounds of the eviction loop, exactly when the capacity is positive; a
    cache built with capacity zero or less hangs on its first Set. *)
Theorem lru_terminates {V} (c : LRUCache V) now key v ttl :
  wf c → items c !! key = None →
  (∃ fuel c', Set_ fuel now key v ttl c = Some c') ↔ 0 < capacity c.
Proof.
  intros Hwf Hk. split.
  - intros (fuel & c' & H). destruct (Z.lt_ge_cases 0 (capacity c)); [done|].
    unfold Set_ in H. rewrite Hk, evict_loop_diverges in H by lia. done.
  - intros Hc. destruct (lru_Set_spec (size (items c)) now key v ttl c Hwf Hc) as (c' & H & _); [lia|].
    eauto.
Qed.

Lemma lru_terminates_witness :
  ¬ (∃ fuel c', Set_ fuel 0 "a" 1 0 (NewLRUCache 0) = Some c').
Proof.
  intros H. apply (lru_terminates (NewLRUCache 0) 0 "a" 1 0) in H; [by cbn in H|apply NewLRUCache_wf|done].
Defined.
End LRU.

(** ** [cache/eviction.go] *)
Module Eviction.
Definition PolicyLRU : string := "lru".
Definition PolicyLFU : string := "lfu".
Definition PolicyTTL : string := "ttl".
Definition PolicyRandom : string := "random".
Definition PolicyNoEvict : string := "no-eviction".

Record EvictionManager {V : Type} := {
  policy : string;
  samples : Z;
  lru : LRU.LRUCache V;
}.
Arguments EvictionManager : clear implicits.

Definition NewEvictionManager {V} (pol : string) (smp cap : Z) : EvictionManager V :=
  {| policy := pol; samples := smp; lru := LRU.NewLRUCache cap |}.

(** [s[:n]] and [make([]string, n)] panic on a negative [n]; here [n] is below
    the length. *)
Definition prefix_of (l : list string) (n : Z) : res unit (list string) :=
  if n <? 0 then Panic else Ok (take (Z.to_nat n) l).

(** [rnd i] is the [i]-th draw of [rand.Intn], reduced to its range. *)
Definition randomEvict {V} (rnd : nat → Z) (e : EvictionManager V) (candidates : list string) (n : Z)
    : res unit (list string) :=
  if zlen candidates <=? n then Ok candidates else
  let sampleSize := if samples e >? zlen candidates then zlen candidates else samples e in
  if sampleSize <? 0 then Panic else
  let sample := (λ i, nth (Z.to_nat (rnd i mod zlen candidates)) candidates "")
                  <$> seq 0 (Z.to_nat sampleSize) in
  if zlen sample >? n then prefix_of sample n else Ok sample.

Definition lruEvict (candidates : list string) (n : Z) : res unit (list string) :=
  if n >=? zlen candidates then Ok candidates else prefix_of candidates n.

Definition Evict {V} (rnd : nat → Z) (candidates : list string) (n : Z) (e : EvictionManager V)
    : res unit (list string) :=
  if bool_decide (policy e = PolicyNoEvict) || (zlen candidates =? 0) then Ok [] else
  if bool_decide (policy e = PolicyRandom) then randomEvict rnd e candidates n
  else if bool_decide (policy e = PolicyLRU) then lruEvict candidates n
  else randomEvict rnd e candidates n.

Definition set_lru {V} (c : LRU.LRUCache V) (e : EvictionManager V) : EvictionManager V :=
  {| policy := policy e; samples := samples e; lru := c |}.

Definition Track {V} (fuel : nat) (now : Z) (key : string) (value : V) (e : EvictionManager V)
    : option (EvictionManager V) :=
  (λ c, set_lru c e) <$> LRU.Set_ fuel now key value 0 (lru e).

(** [e.Freq++] on the shared cell that [Get] returned. *)
Definition bump {V} (x : LRU.Entry V) : LRU.Entry V :=
  {| LRU.Key := LRU.Key x; LRU.Value := LRU.Value x; LRU.ExpiresAt := LRU.ExpiresAt x;
     LRU.Freq := i64 (LRU.Freq x + 1); LRU.Size := LRU.Size x |}.

Definition Accessed {V} (now : Z) (key : string) (e : EvictionManager V) : EvictionManager V :=
  match LRU.Get now key (lru e) with
  | (Some l, c) =>
      set_lru {| LRU.capacity := LRU.capacity c; LRU.items := LRU.items c; LRU.lru := LRU.lru c;
                 LRU.mem := alter bump l (LRU.mem c); LRU.next := LRU.next c |} e
  | (None, c) => set_lru c e
  end.

Lemma randomEvict_spec {V} rnd (e : EvictionManager V) cs n :
  0 ≤ n → 0 ≤ samples e → cs ≠ [] →
  ∃ r, randomEvict rnd e cs n = Ok r ∧ zlen r ≤ n ∧ r ⊆ cs.
Proof.
  intros Hn Hs Hne. unfold randomEvict. pose proof (zlen_nonneg cs).
  destruct (Z.leb_spec (zlen cs) n); [by exists cs|].
  set (size := if samples e >? zlen cs then zlen cs else samples e).
  assert (0 ≤ size) as Hsz by (unfold size; case_if; lia).
  rewrite (proj2 (Z.ltb_ge size 0)) by done.
  set (sample := _ <$> seq 0 (Z.to_nat size)).
  assert (sample ⊆ cs) as Hsub.
  { intros x (i & -> & _)%list_elem_of_fmap. apply list_elem_of_In, nth_In.
    pose proof (Z.mod_pos_bound (rnd i) (zlen cs)). unfold zlen in *. lia. }
  destruct (Z.gtb_spec (zlen sample) n).
  - unfold prefix_of. rewrite (proj2 (Z.ltb_ge n 0)) by done. eexists. split; [done|].
    unfold zlen. rewrite length_take. split; [lia|]. etransitivity; [apply subseteq_take|done].
  - exists sample. done.
Qed.

Lemma lruEvict_take cs n : 0 ≤ n → lruEvict cs n = Ok (take (Z.to_nat n) cs).
Proof.
  intros Hn. unfold lruEvict, prefix_of, zlen. destruct (Z.geb_spec n (Z.of_nat (length cs))).
  - by rewrite take_ge by lia.
  - by rewrite (proj2 (Z.ltb_ge n 0)).
Qed.

(** With non-negative settings the manager never panics, names
    only candidates and at most as many as asked for; with no-eviction it names
    none. Under the policy "lru" it names the first n candidates whatever has
    been tracked or accessed, so the order of use plays no part. *)
Theorem evict_choice {V} rnd (e : EvictionManager V) cs n :
  0 ≤ n → 0 ≤ samples e →
  (∃ r, Evict rnd cs n e = Ok r ∧ zlen r ≤ n ∧ r ⊆ cs) ∧
  (policy e = PolicyNoEvict → Evict rnd cs n e = Ok []) ∧
  (policy e = PolicyLRU → Evict rnd cs n e = Ok (take (Z.to_nat n) cs)).
Proof.
  intros Hn Hs. assert (cs = [] → ∀ e, Evict (V := V) rnd cs n e = Ok []) as Hnil.
  { intros -> e'. unfold Evict. by rewrite orb_true_r. }
  assert (cs ≠ [] → (zlen cs =? 0) = false) as Hlen.
  { intros Hne. apply Z.eqb_neq. unfold zlen. destruct cs; [done|simpl; lia]. }
  conjs.
  - destruct (decide (cs = [])) as [->|Hne].
    { exists []. by rewrite Hnil. }
    unfold Evict. rewrite Hlen, orb_false_r by done. destruct (bool_decide _).
    { exists []. split; [done|]. by split; [unfold zlen|apply list_subseteq_nil]. }
    destruct (bool_decide _); [by apply randomEvict_spec|].
    destruct (bool_decide _); [|by apply randomEvict_spec].
    rewrite lruEvict_take by done. eexists. split; [done|]. unfold zlen. rewrite length_take.
    split; [lia|apply subseteq_take].
  - intros Hp. unfold Evict. by rewrite Hp.
  - intros Hp. destruct (decide (cs = [])) as [->|Hne]; [by rewrite Hnil, take_nil|].
    unfold Evict. rewrite Hp, Hlen by done. cbn. by rewrite lruEvict_take.
Qed.

Lemma evict_choice_witness :
  let e := Accessed 1 "old" (NewEvictionManager (V := Z) PolicyLRU 5 10) in
  Evict (λ _, 0) ["hot"; "old"; "older"] 1 e = Ok ["hot"].
Proof.
  intros e. apply (evict_choice (λ _, 0) e ["hot"; "old"; "older"] 1); [lia|vm_compute; discriminate|].
  vm_compute. reflexivity.
Defined.

(** The sample is drawn with replacement: it may name one key twice. *)
Lemma random_evict_repeats :
  Evict (λ _, 0) ["a"; "b"; "c"] 2 (NewEvictionManager (V := Z) PolicyRandom 5 10) = Ok ["a"; "a"].
Proof. vm_compute. reflexivity. Qed.
End Eviction.

(** ** [cache/admission.go] *)
Module Admission.
Record AdmissionGate := { counter : gmap string Z; window : Z; total : Z }.

Definition NewAdmissionGate (w : Z) : AdmissionGate := {| counter := ∅; window := w; total := 0 |}.

Definition freq (k : string) (a : AdmissionGate) : Z := default 0 (counter a !! k).

Definition Admit (incoming victim : string) (a : AdmissionGate) : bool :=
  freq incoming a >=? freq victim a.

(** One pass of the aging loop; entries that reach zero are deleted. *)
Definition halve (v : Z) : option Z := let v' := v ÷ 2 in if v' =? 0 then None else Some v'.

Definition Increment (key : string) (a : AdmissionGate) : AdmissionGate :=
  let c := <[key := i64 (freq key a + 1)]> (counter a) in
  let t := i64 (total a + 1) in
  if t >=? window a then {| counter := omap halve c; window := window a; total := 0 |}
  else {| counter := c; window := window a; total := t |}.

Definition weight (m : gmap string Z) : Z := map_fold (λ _ v acc, v + acc) 0 m.

Lemma weight_insert_new k v m : m !! k = None → weight (<[k := v]> m) = v + weight m.
Proof. intros H. unfold weight. rewrite map_fold_insert_L; [done|intros; lia|done]. Qed.

Lemma weight_delete k v m : m !! k = Some v → weight m = v + weight (delete k m).
Proof.
  intros H. rewrite <- (insert_delete_id m k v) at 1 by done. apply weight_insert_new, lookup_delete_eq.
Qed.

Lemma weight_insert k v m : weight (<[k := v]> m) = weight m + v - default 0 (m !! k).
Proof.
  destruct (m !! k) as [w|] eqn:E; simpl.
  - rewrite <- insert_delete_eq, weight_insert_new by apply lookup_delete_eq.
    rewrite (weight_delete k w m E). lia.
  - rewrite weight_insert_new by done. lia.
Qed.

Definition positive (m : gmap string Z) : Prop := map_Forall (λ _ v, 0 < v) m.

(** The number of counters is at most their sum, and aging halves the sum. *)
Lemma positive_size m : positive m → Z.of_nat (size m) ≤ weight m.
Proof.
  induction m as [|k v m Hk IH] using map_ind; intros Hp; [done|].
  apply map_Forall_insert in Hp as [Hv Hp]; [|done].
  rewrite map_size_insert_None, weight_insert_new by done. specialize (IH Hp). lia.
Qed.

Lemma weight_halve m : positive m → positive (omap halve m) ∧ 2 * weight (omap halve m) ≤ weight m.
Proof.
  induction m as [|k v m Hk IH] using map_ind; intros Hp; [by rewrite omap_empty|].
  apply map_Forall_insert in Hp as [Hv Hp]; [|done]. destruct (IH Hp) as [IH1 IH2].
  rewrite weight_insert_new by done. pose proof (Z.quot_pos v 2 ltac:(lia) ltac:(lia)).
  pose proof (Z.mul_quot_le v 2 ltac:(lia) ltac:(lia)).
  assert (omap halve m !! k = None) as Hn by (by rewrite lookup_omap, Hk).
  destruct (halve v) as [w|] eqn:Eh; unfold halve in Eh; crush.
  - rewrite (omap_insert_Some halve m k v (v ÷ 2)) by (unfold halve; by rewrite (proj2 (Z.eqb_neq _ _))).
    rewrite weight_insert_new by done. split; [|lia]. apply map_Forall_insert; [done|]. split; [lia|done].
  - rewrite (omap_insert_None halve m k v) by (unfold halve; by rewrite (proj2 (Z.eqb_eq _ _))).
    rewrite delete_id by done. split; [done|lia].
Qed.

Lemma positive_freq k a : positive (counter a) → 0 ≤ freq k a ≤ weight (counter a).
Proof.
  intros Hp. unfold freq. destruct (counter a !! k) as [v|] eqn:E; simpl.
  - pose proof (Hp k v E) as Hv. rewrite (weight_delete k v _ E). simpl in Hv.
    assert (positive (delete k (counter a))) as Hd by (by apply map_Forall_delete).
    pose proof (positive_size _ Hd). lia.
  - pose proof (positive_size _ Hp). lia.
Qed.

(** What holds between two calls of [Increment]. *)
Record gate_ok (a : AdmissionGate) : Prop := {
  ok_total : 0 ≤ total a < window a;
  ok_positive : positive (counter a);
  ok_weight : weight (counter a) ≤ window a + total a;
}.

Lemma Increment_ok k a : window a ≤ 2 ^ 62 - 1 → gate_ok a → gate_ok (Increment k a).
Proof.
  intros Hw [Ht Hp Hs]. pose proof (positive_freq k a Hp) as Hf.
  unfold Increment. rewrite !i64_id by (unfold in_i64, MinInt64, MaxInt64; lia).
  set (c := <[k := freq k a + 1]> (counter a)).
  assert (positive c) as Hpc by (apply map_Forall_insert_2; [lia|done]).
  assert (weight c = weight (counter a) + 1) as Hwc by (unfold c; rewrite weight_insert; fold (freq k a); lia).
  destruct (weight_halve c Hpc) as [H1 H2].
  destruct (Z.geb_spec (total a + 1) (window a)); split; cbn; try done; lia.
Qed.

(** However many accesses are recorded, aging keeps the sum
    of the counters below twice the window, so the gate never holds as many keys
    as that; no counter is zero, none overflows, and a key is admitted over a
    victim exactly when its counter is at least the victim's. *)
Theorem admission_bounded w (keys : list string) incoming victim :
  0 < w < 2 ^ 62 →
  let a := foldl (λ a k, Increment k a) (NewAdmissionGate w) keys in
  0 ≤ total a < w ∧ positive (counter a) ∧ weight (counter a) < 2 * w
  ∧ Z.of_nat (size (counter a)) < 2 * w
  ∧ (Admit incoming victim a = true ↔ freq victim a ≤ freq incoming a).
Proof.
  intros Hw a. assert (gate_ok a ∧ window a = w) as [[Ht Hp Hs] Ha].
  { unfold a. apply (foldl_invariant (λ a, gate_ok a ∧ window a = w)).
    - split; [|done]. split; cbn; [lia|by intros ???|unfold weight; rewrite map_fold_empty; lia].
    - intros b k _ [Hb Hwb]. split; [apply Increment_ok; [lia|done]|].
      unfold Increment. by case_if. }
  rewrite Ha in *. pose proof (positive_size _ Hp). conjs; [lia|lia|done|lia|lia|].
  unfold Admit. rewrite Z.geb_le. done.
Qed.

Lemma admission_bounded_witness :
  let a := foldl (λ a k, Increment k a) (NewAdmissionGate 4) ["x"; "y"; "x"; "x"; "z"] in
  counter a = {["x" := 1; "z" := 1]} ∧ weight (counter a) < 8.
Proof.
  intros a. split; [vm_compute; reflexivity|].
  apply (admission_bounded 4 ["x"; "y"; "x"; "x"; "z"] "x" "y"). lia.
Defined.
End Admission.

(** ** Hot keys *)
Module HotCold.
Record HotColdTracker := { hotKeys : gmap string Z; hotN : Z }.

Definition NewHotColdTracker (n : Z) : HotColdTracker := {| hotKeys := ∅; hotN := n |}.

Definition Access (key : string) (h : HotColdTracker) : HotColdTracker :=
  {| hotKeys := <[key := i64 (default 0 (hotKeys h !! key) + 1)]> (hotKeys h); hotN := hotN h |}.

Definition hotThreshold (h : HotColdTracker) : Z :=
  let counts := (map_to_list (hotKeys h)).*2 in
  if zlen counts =? 0 then 1 else
  if hotN h >=? zlen counts then 1 else
  if zlen counts >? hotN h then i64 (foldl (λ s v, i64 (s + v)) 0 counts) ÷ zlen counts
  else 1.

Definition IsHot (key : string) (h : HotColdTracker) : bool :=
  default 0 (hotKeys h !! key) >=? hotThreshold h.

(** The threshold is the mean count, not the N-th largest: with equal counts
    every key is among the "top one". *)
Lemma top_one_has_three :
  let h := foldl (λ h k, Access k h) (NewHotColdTracker 1) ["a"; "b"; "c"] in
  IsHot "a" h = true ∧ IsHot "b" h = true ∧ IsHot "c" h = true.
Proof. vm_compute. done. Qed.
End HotCold.

(** ** [cache/ttl.go] *)
Module TTL.
(** [expires]: key to expiry in Unix nanoseconds. *)
Abbreviation TTLStore := (gmap string Z).
Definition Second : Z := 1000000000.

Definition NewTTLStore : TTLStore := ∅.

Definition Set_ (now : Z) (key : string) (ttlNano : Z) (t : TTLStore) : TTLStore :=
  if ttlNano <=? 0 then delete key t else <[key := i64 (now + ttlNano)]> t.

Definition Get (key : string) (t : TTLStore) : Z := default 0 (t !! key).

Definition Delete (key : string) (t : TTLStore) : TTLStore := delete key t.

Definition IsExpired (now : Z) (key : string) (t : TTLStore) : bool :=
  let exp := Get key t in negb (exp =? 0) && (now >? exp).

Definition TTL (now : Z) (key : string) (t : TTLStore) : Z :=
  let exp := Get key t in
  if exp =? 0 then -1 else
  let remaining := i64 (exp - now) in
  if remaining <=? 0 then -2 else remaining ÷ Second.

Definition Expired (now : Z) (t : TTLStore) : list string :=
  (filter (λ p, p.2 ≠ 0 ∧ now > p.2) (map_to_list t)).*1.

(** After setting a lifetime that fits the clock, the key is
    alive until its deadline and expired after it, its TTL counts the whole
    seconds left and turns -2 at the deadline; the list of expired keys names
    exactly the expired ones; clearing the lifetime makes the TTL -1. *)
Theorem ttl_store_correct t now ttl key now' key' :
  0 ≤ now → 0 < ttl → now + ttl ≤ MaxInt64 → now ≤ now' ≤ MaxInt64 →
  let t' := Set_ now key ttl t in
  (IsExpired now' key t' = true ↔ now + ttl < now') ∧
  (TTL now' key t' = if now' <? now + ttl then (now + ttl - now') / Second else -2) ∧
  (key' ≠ key → Get key' t' = Get key' t) ∧
  (∀ k, k ∈ Expired now' t' ↔ IsExpired now' k t' = true) ∧
  TTL now' key (Delete key t') = -1 ∧ TTL now' key (Set_ now' key 0 t') = -1.
Proof.
  intros Hnow Httl Hfit Hnow' t'.
  assert (Get key t' = now + ttl) as Hget.
  { unfold t', Set_, Get. rewrite (proj2 (Z.leb_gt ttl 0)) by lia.
    rewrite lookup_insert_eq. simpl. apply i64_id. unfold in_i64, MinInt64, MaxInt64 in *. lia. }
  conjs.
  - unfold IsExpired. rewrite Hget, andb_true_iff, negb_true_iff, Z.eqb_neq, Z.gtb_lt. lia.
  - unfold TTL. rewrite Hget, (proj2 (Z.eqb_neq _ 0)) by lia.
    rewrite i64_id by (unfold in_i64, MinInt64, MaxInt64 in *; lia).
    destruct (Z.ltb_spec now' (now + ttl)).
    + rewrite (proj2 (Z.leb_gt _ 0)) by lia. apply Z.quot_div_nonneg; unfold Second; lia.
    + by rewrite (proj2 (Z.leb_le _ 0)) by lia.
  - intros Hne. unfold t', Set_, Get. case_if; [by rewrite lookup_delete_ne|by rewrite lookup_insert_ne].
  - intros k. unfold Expired, IsExpired, Get.
    rewrite andb_true_iff, negb_true_iff, Z.eqb_neq, Z.gtb_lt, list_elem_of_fmap. split.
    + intros ([k' x] & -> & [Hx Hin%elem_of_map_to_list]%list_elem_of_filter). simpl in *.
      rewrite Hin. simpl. lia.
    + intros Hx. destruct (t' !! k) as [x|] eqn:E; simpl in Hx; [|lia].
      exists (k, x). split; [done|]. apply list_elem_of_filter. rewrite elem_of_map_to_list. simpl.
      split; [lia|done].
  - unfold TTL, Delete, Get. by rewrite lookup_delete_eq.
  - unfold TTL, Set_, Get. simpl. by rewrite lookup_delete_eq.
Qed.

Lemma ttl_store_correct_witness :
  TTL 1500000000 "k" (Set_ 1000000000 "k" 3000000000 NewTTLStore) = 2.
Proof.
  destruct (ttl_store_correct NewTTLStore 1000000000 3000000000 "k" 1500000000 "k")
    as (_ & -> & _); [unfold MaxInt64; lia..|]. vm_compute. reflexivity.
Defined.
End TTL.
