(* ===== verification/Workflow.v ===== *)
(** * Work queues and backoff: [workflow/queue.go], [util/backoff.go]

    Jobs are shared by pointer between the queues and their users (a retry
    rewrites the job in place), so jobs live in cells and queues hold addresses.
    A zero time is [None]; every clock reading is after it.

    The theorems: the job queue serves the first ready job in arrival order and
    keeps the others in order; a job that is due is served before as many
    dequeues as there were jobs before it; the retry queue loses and duplicates
    nothing; the dead-letter queue keeps the most recent jobs. *)
From S2P Require Import Prelude Types.
From Stdlib Require Import Floats.SpecFloat.
Open Scope string_scope.
Open Scope list_scope.
Open Scope Z_scope.

(** ** Exponential backoff, in the executable model of doubles *)
Module Backoff.
Definition fmul (x y : float64) : float64 := SFmul 53 1024 x y.
Definition fadd (x y : float64) : float64 := SFadd 53 1024 x y.
Definition fsub (x y : float64) : float64 := SFsub 53 1024 x y.
Definition of_int (n : Z) : float64 := binary_normalize 53 1024 n 0 false.

(** [m * 10^-k] rounded to a double, for the decimal literals of the source. *)
Definition of_decimal (m k : Z) : float64 := SFdiv 53 1024 (of_int m) (of_int (10 ^ k)).

(** [int64(x)]: truncation; out of range and NaN give the value amd64 gives. *)
Definition to_int (x : float64) : Z :=
  match x with
  | S754_zero _ => 0
  | S754_finite s m e =>
      let a := if e <? 0 then Z.shiftr (Z.pos m) (- e) else Z.shiftl (Z.pos m) e in
      let v := if s then - a else a in
      if in_i64b v then v else MinInt64
  | _ => MinInt64
  end.

(** [math.Pow(x, y)] for a finite positive [x] and an integer [y >= 0]: binary
    powers of the fraction, with the exponents kept apart. *)
Fixpoint pow_loop (fuel : nat) (i : Z) (a1 : float64) (ae : Z) (x1 : float64) (xe : Z) : float64 * Z :=
  match fuel with
  | O => (a1, ae)
  | S fuel' =>
      if i =? 0 then (a1, ae) else
      if (xe <? - 2 ^ 12) || (2 ^ 12 <? xe) then (a1, ae + xe) else
      let '(a1, ae) := if Z.odd i then (fmul a1 x1, ae + xe) else (a1, ae) in
      let x1 := fmul x1 x1 in
      let xe := 2 * xe in
      let '(x1, xe) := if SFltb x1 (of_decimal 5 1) then (fadd x1 x1, xe - 1) else (x1, xe) in
      pow_loop fuel' (Z.shiftr i 1) a1 ae x1 xe
  end.

Definition Pow (x : float64) (y : Z) : float64 :=
  if (y =? 0) || SFeqb x (of_int 1) then of_int 1 else
  if y =? 1 then x else
  let '(x1, xe) := SFfrexp 53 1024 x in
  let '(a1, ae) := pow_loop 64 y (of_int 1) 0 x1 xe in
  SFldexp 53 1024 a1 ae.

Definition Millisecond : Z := 1000000.
Definition Second : Z := 1000000000.

Record Backoff := {
  Base : Z;
  Max : Z;
  Factor : float64;
  Jitter : float64;
  attempt : Z;
}.

Definition NewBackoff : Backoff :=
  {| Base := 100 * Millisecond; Max := 30 * Second; Factor := of_int 2;
     Jitter := of_decimal 3 1; attempt := 0 |}.

(** [rnd] is the reading of [rand.Float64]. *)
Definition Next (rnd : float64) (b : Backoff) : Z * Backoff :=
  let delay := fmul (of_int (Base b)) (Pow (Factor b) (attempt b)) in
  let delay := if SFltb (of_int (Max b)) delay then of_int (Max b) else delay in
  let jitter := fmul (fmul delay (Jitter b)) (fsub (fmul rnd (of_int 2)) (of_int 1)) in
  let delay := fadd delay jitter in
  let delay := if SFltb delay (of_int 0) then of_int 0 else delay in
  (to_int delay,
   {| Base := Base b; Max := Max b; Factor := Factor b; Jitter := Jitter b;
      attempt := i64 (attempt b + 1) |}).

Definition Reset (b : Backoff) : Backoff :=
  {| Base := Base b; Max := Max b; Factor := Factor b; Jitter := Jitter b; attempt := 0 |}.

(** The delays without jitter (a reading of one half): doubling from 100 ms,
    then 30 s. *)
Fixpoint delays (n : nat) (b : Backoff) : list Z :=
  match n with
  | O => []
  | S n' => let '(d, b') := Next (of_decimal 5 1) b in d :: delays n' b'
  end.

Lemma delays_double :
  delays 12 NewBackoff
  = (λ n, n * Millisecond) <$> [100; 200; 400; 800; 1600; 3200; 6400; 12800; 25600; 30000; 30000; 30000].
Proof. vm_compute. reflexivity. Qed.

(** With the extreme readings the delay stays within 30 % of that. *)
Lemma jitter_extremes :
  (Next (of_int 0) NewBackoff).1 = 70 * Millisecond
  ∧ (Next (of_decimal 999999 6) NewBackoff).1 < 130 * Millisecond.
Proof. vm_compute. split; reflexivity. Qed.

(** [Wait] either sleeps or returns the error of a context that is done first;
    which one is the argument [done]. *)
Definition Wait {E} (rnd : float64) (done_ : option E) (b : Backoff) : option E * Backoff :=
  let '(_, b') := Next rnd b in (done_, b').

(** [RetryWithBackoff]: [fn i] is what the [i]-th call returns ([None] is nil),
    [dones i] whether the context ends the wait after it. The result is the
    error returned and the number of calls made. *)
Fixpoint retry_loop {E} (k : nat) (i : Z) (maxAttempts : Z) (fn dones : Z → option E)
    (rnd : Z → float64) (b : Backoff) (lastErr : option E) : option E * Z :=
  match k with
  | O => (lastErr, i)
  | S k' =>
      match fn i with
      | None => (None, i + 1)
      | Some e =>
          if i <? maxAttempts - 1 then
            match Wait (rnd i) (dones i) b with
            | (Some e', _) => (Some e', i + 1)
            | (None, b') => retry_loop k' (i + 1) maxAttempts fn dones rnd b' (Some e)
            end
          else retry_loop k' (i + 1) maxAttempts fn dones rnd b (Some e)
      end
  end.

Definition RetryWithBackoff {E} (maxAttempts : Z) (fn dones : Z → option E) (rnd : Z → float64)
    : option E * Z :=
  retry_loop (Z.to_nat maxAttempts) 0 maxAttempts fn dones rnd NewBackoff None.

(** The loop walks through the failures before attempt [i + d]. *)
Lemma retry_loop_skip {E} (d k : nat) i maxA (fn dones : Z → option E) rnd b last :
  (d ≤ k)%nat → i + Z.of_nat k = maxA →
  (∀ x, i ≤ x < i + Z.of_nat d → is_Some (fn x)) →
  (∀ x, i ≤ x < i + Z.of_nat d → x < maxA - 1 → dones x = None) →
  ∃ b', retry_loop k i maxA fn dones rnd b last
    = retry_loop (k - d) (i + Z.of_nat d) maxA fn dones rnd b'
        (if d is O then last else fn (i + Z.of_nat d - 1)).
Proof.
  revert k i b last. induction d as [|d IH]; intros k i b last Hk Hi Hf Hd.
  { exists b. by rewrite Nat.sub_0_r, Z.add_0_r. }
  destruct k as [|k]; [lia|]. cbn [retry_loop Nat.sub].
  destruct (Hf i ltac:(lia)) as [e He]. rewrite He.
  assert (∀ b0, ∃ b', retry_loop k (i + 1) maxA fn dones rnd b0 (Some e)
    = retry_loop (k - d) (i + Z.of_nat (S d)) maxA fn dones rnd b' (fn (i + Z.of_nat (S d) - 1)))
    as Hrec.
  { intros b0. destruct (IH k (i + 1) b0 (Some e)) as (b' & ->);
      [lia|lia|intros; apply Hf; lia|intros; apply Hd; lia|].
    exists b'. replace (i + Z.of_nat (S d)) with (i + 1 + Z.of_nat d) by lia. f_equal.
    destruct d as [|d]; [|done]. rewrite <- He. f_equal. lia. }
  destruct (Z.ltb_spec i (maxA - 1)) as [Hlt|Hge]; [|done].
  unfold Wait. destruct (Next (rnd i) b) as [w b0]. by rewrite (Hd i) by lia.
Qed.

(** A retried operation is called until its first success, an
    ended wait or the limit: success at attempt j is reported after j + 1 calls,
    a context that ends during a wait gives the context's error, failure of all
    attempts gives the last error; and with a limit of zero or less nothing is
    called and success is reported. *)
Theorem retry_outcomes {E} maxA (fn dones : Z → option E) rnd j :
  let failed := ∀ i, 0 ≤ i < j → is_Some (fn i) ∧ (i < maxA - 1 → dones i = None) in
  (failed → 0 ≤ j < maxA → fn j = None →
     RetryWithBackoff maxA fn dones rnd = (None, j + 1)) ∧
  (failed → 0 ≤ j < maxA - 1 → is_Some (fn j) → ∀ e, dones j = Some e →
     RetryWithBackoff maxA fn dones rnd = (Some e, j + 1)) ∧
  (failed → 0 < j → j = maxA → RetryWithBackoff maxA fn dones rnd = (fn (maxA - 1), maxA)) ∧
  (maxA ≤ 0 → RetryWithBackoff maxA fn dones rnd = (None, 0)).
Proof.
  intros failed. assert (failed → 0 ≤ j ≤ maxA → ∃ b', RetryWithBackoff maxA fn dones rnd
    = retry_loop (Z.to_nat (maxA - j)) j maxA fn dones rnd b'
        (if Z.to_nat j is O then None else fn (j - 1))) as Hskip.
  { intros Hf Hj. destruct (retry_loop_skip (Z.to_nat j) (Z.to_nat maxA) 0 maxA fn dones rnd NewBackoff None)
      as (b' & Hr); [lia|lia|intros; apply Hf; lia|intros; apply Hf; lia|].
    exists b'. unfold RetryWithBackoff. rewrite Hr. rewrite Z.add_0_l, Z2Nat.id by lia. f_equal. lia. }
  conjs.
  - intros Hf Hj Hn. destruct (Hskip Hf ltac:(lia)) as [b' ->].
    replace (Z.to_nat (maxA - j)) with (S (Z.to_nat (maxA - j - 1))) by lia. cbn [retry_loop].
    by rewrite Hn.
  - intros Hf Hj [x Hx] e He. destruct (Hskip Hf ltac:(lia)) as [b' ->].
    replace (Z.to_nat (maxA - j)) with (S (Z.to_nat (maxA - j - 1))) by lia. cbn [retry_loop].
    rewrite Hx, (proj2 (Z.ltb_lt _ _)) by lia. unfold Wait. destruct (Next _ _). by rewrite He.
  - intros Hf Hj ->. destruct (Hskip Hf ltac:(lia)) as [b' ->]. rewrite Z.sub_diag. cbn [Z.to_nat retry_loop].
    destruct (Z.to_nat maxA) eqn:E'; [lia|done].
  - intros Hm. unfold RetryWithBackoff. by rewrite Z2Nat.nonpos.
Qed.

Lemma retry_outcomes_witness :
  RetryWithBackoff 3 (λ i, if i <? 2 then Some "down" else None) (λ _, None) (λ _, of_int 0)
  = (None, 3) ∧
  RetryWithBackoff 3 (λ _, Some "down") (λ _, None) (λ _, of_int 0) = (Some "down", 3).
Proof.
  split.
  - destruct (retry_outcomes 3 (λ i, if i <? 2 then Some "down" else None) (λ _, None)
      (λ _, of_int 0) 2) as (H & _). apply H; [|lia|done].
    intros i Hi. rewrite (proj2 (Z.ltb_lt _ _)) by lia. eauto.
  - destruct (retry_outcomes 3 (λ _, Some "down") (λ _, None) (λ _, of_int 0) 3) as (_ & _ & H & _).
    apply H; [|lia|done]. intros i Hi. eauto.
Defined.
End Backoff.

(** ** The queues *)
Abbreviation loc := nat.

Record Job := {
  ID : string;
  Payload : slice;
  MaxRetries : Z;
  Retries : Z;
  CreatedAt : option Z;
  RunAt : option Z;
  LastError : string;
}.

Abbreviation heap := (gmap loc Job).

(** [now.After(t)]; a zero [t] lies before every reading. *)
Definition After (now : Z) (t : option Z) : bool :=
  match t with None => true | Some t => t <? now end.

Definition run_at (m : heap) (l : loc) : option Z := j ← m !! l; RunAt j.

Module JobQueue.
Record JobQueue := { jobs : list loc; maxSize : Z }.

Definition NewJobQueue (n : Z) : JobQueue := {| jobs := []; maxSize := n |}.

Definition full (q : JobQueue) : bool := (maxSize q >? 0) && (zlen (jobs q) >=? maxSize q).

Definition Enqueue (job : loc) (q : JobQueue) : res string JobQueue :=
  if full q then Err "queue is full"
  else Ok {| jobs := jobs q ++ [job]; maxSize := maxSize q |}.

(** [j.RunAt.IsZero() || now.After(j.RunAt)] *)
Definition ready (m : heap) (now : Z) (l : loc) : bool := After now (run_at m l).

(** The loop of [Dequeue]: the first ready job and the list without it. *)
Fixpoint take_ready (m : heap) (now : Z) (l : list loc) : option (loc * list loc) :=
  match l with
  | [] => None
  | j :: l' =>
      if ready m now j then Some (j, l')
      else (λ p, (p.1, j :: p.2)) <$> take_ready m now l'
  end.

Definition Dequeue (m : heap) (now : Z) (q : JobQueue) : option loc * JobQueue :=
  match take_ready m now (jobs q) with
  | Some (j, l) => (Some j, {| jobs := l; maxSize := maxSize q |})
  | None => (None, q)
  end.

Definition Len (q : JobQueue) : Z := zlen (jobs q).

(** [DelayedScheduler.Schedule]: the job is rewritten even when the queue
    refuses it. *)
Definition set_RunAt (t : option Z) (j : Job) : Job :=
  {| ID := ID j; Payload := Payload j; MaxRetries := MaxRetries j; Retries := Retries j;
     CreatedAt := CreatedAt j; RunAt := t; LastError := LastError j |}.

Definition Schedule (job : loc) (runAt : option Z) (m : heap) (q : JobQueue)
    : heap * res string JobQueue :=
  (alter (set_RunAt runAt) job m, Enqueue job q).

Lemma take_ready_Some m now l j r :
  take_ready m now l = Some (j, r) ↔
  ∃ a b, l = a ++ j :: b ∧ r = a ++ b ∧ ready m now j = true ∧ Forall (λ x, ready m now x = false) a.
Proof.
  revert j r. induction l as [|x l IH]; intros j r; simpl.
  { split; [done|]. by intros ([|] & ? & ? & _). }
  destruct (ready m now x) eqn:Hx.
  - split; [intros [= -> ->]; by exists [], r|].
    intros ([|y a] & b & ? & ? & Hj & Ha); simplify_eq/=; [done|].
    apply Forall_cons in Ha as [? _]. congruence.
  - rewrite fmap_Some. split.
    + intros ([j' r'] & (a & b & -> & -> & Hj & Ha)%IH & [= -> ->]). exists (x :: a), b. auto.
    + intros ([|y a] & b & ? & ? & Hj & Ha); simplify_eq/=; [congruence|].
      apply Forall_cons in Ha as [_ Ha]. exists (j, a ++ b). split; [|done].
      apply IH. by exists a, b.
Qed.

Lemma take_ready_None m now l : take_ready m now l = None ↔ Forall (λ x, ready m now x = false) l.
Proof.
  induction l as [|x l IH]; simpl; [by split|].
  rewrite Forall_cons, <- IH. destruct (ready m now x); [naive_solver|].
  rewrite fmap_None. naive_solver.
Qed.

(** Enqueueing appends the job and fails exactly when a bounded
    queue is at its limit, leaving it as it was; dequeueing returns the first job
    in arrival order that is ready and keeps all others in order, and returns
    nothing exactly when no job is ready. *)
Theorem queue_correct m now job q :
  (Enqueue job q = Err "queue is full" ↔ 0 < maxSize q ≤ Len q) ∧
  (¬ (0 < maxSize q ≤ Len q) → ∃ q', Enqueue job q = Ok q' ∧ jobs q' = jobs q ++ [job]
       ∧ maxSize q' = maxSize q ∧ (0 < maxSize q → Len q' ≤ maxSize q)) ∧
  (∀ j q', Dequeue m now q = (Some j, q') ↔
     ready m now j = true ∧ maxSize q' = maxSize q ∧
     ∃ a b, jobs q = a ++ j :: b ∧ jobs q' = a ++ b ∧ Forall (λ x, ready m now x = false) a) ∧
  (∀ q', Dequeue m now q = (None, q') ↔ q' = q ∧ Forall (λ x, ready m now x = false) (jobs q)).
Proof.
  assert (full q = true ↔ 0 < maxSize q ≤ Len q) as Hfull.
  { unfold full, Len. rewrite andb_true_iff, Z.gtb_lt, Z.geb_le. done. }
  conjs.
  - rewrite <- Hfull. unfold Enqueue. by destruct (full q).
  - intros Hn. unfold Enqueue. destruct (full q); [naive_solver|].
    eexists. split; [done|]. split; [done|]. split; [done|]. unfold Len in *. cbn.
    rewrite zlen_app. unfold zlen in *. simpl. lia.
  - intros j [l' n']. unfold Dequeue. cbn [jobs maxSize].
    destruct (take_ready m now (jobs q)) as [[j' r]|] eqn:E; split.
    + intros [= -> -> ->]. apply take_ready_Some in E as (a & b & ? & ? & ? & ?). eauto 8.
    + intros (Hj & -> & a & b & Hq & -> & Ha).
      assert (take_ready m now (jobs q) = Some (j, a ++ b)) as E' by (apply take_ready_Some; eauto 8).
      rewrite E in E'. by simplify_eq.
    + done.
    + intros (Hj & _ & a & b & Hq & _). apply take_ready_None in E. rewrite Hq in E.
      apply Forall_app in E as [_ [? _]%Forall_cons]. congruence.
  - intros q'. unfold Dequeue. rewrite <- take_ready_None.
    destruct (take_ready m now (jobs q)) as [[j' r]|]; naive_solver.
Qed.

(** ** A job that is due is not starved *)
Inductive event :=
  | EvEnqueue (job : loc)
  | EvDequeue (m : heap) (now : Z).   (* the jobs as they are at that time *)

Fixpoint serve (es : list event) (q : JobQueue) : list loc * JobQueue :=
  match es with
  | [] => ([], q)
  | EvEnqueue job :: es' =>
      match Enqueue job q with Ok q' => serve es' q' | _ => serve es' q end
  | EvDequeue m now :: es' =>
      let '(r, q') := Dequeue m now q in
      let '(out, q'') := serve es' q' in (option_list r ++ out, q'')
  end.

Definition is_dequeue (e : event) : bool := if e is EvDequeue _ _ then true else false.

(** Dequeueing while the job at position [p] is ready serves that job or moves
    it one position forward. *)
Lemma Dequeue_progress m now q (p : nat) l :
  jobs q !! p = Some l → ready m now l = true →
  ∃ j, (Dequeue m now q).1 = Some j ∧
    (j = l ∨ ∃ p', (p' < p)%nat ∧ jobs (Dequeue m now q).2 !! p' = Some l).
Proof.
  intros Hl Hr. unfold Dequeue. destruct (take_ready m now (jobs q)) as [[j r]|] eqn:E.
  - exists j. split; [done|]. cbn. apply take_ready_Some in E as (a & b & Hq & -> & Hj & Ha).
    rewrite Hq in Hl. destruct (decide (p = length a)) as [->|Hne].
    { left. rewrite list_lookup_middle in Hl by done. congruence. }
    destruct (Nat.lt_ge_cases p (length a)) as [Hlt|Hge].
    + rewrite lookup_app_l in Hl by done.
      pose proof (Forall_lookup_1 _ _ _ _ Ha Hl) as Hf. simpl in Hf. congruence.
    + right. exists (p - 1)%nat. split; [lia|].
      rewrite lookup_app_r in Hl by lia. rewrite lookup_app_r by lia.
      destruct (p - length a)%nat as [|k] eqn:Ek; [lia|]. simpl in Hl.
      by replace (p - 1 - length a)%nat with k by lia.
  - apply take_ready_None in E. pose proof (Forall_lookup_1 _ _ _ _ E Hl) as Hf. simpl in Hf. congruence.
Qed.

(** C38: a job at position p of the queue that is ready at each
    dequeue has been returned once p + 1 dequeues have run, whatever other jobs
    arrive in between and whether or not they are ready. *)
Theorem queue_no_starvation es q (p : nat) l :
  jobs q !! p = Some l →
  (∀ m now, EvDequeue m now ∈ es → ready m now l = true) →
  (p < length (filter is_dequeue es))%nat →
  l ∈ (serve es q).1.
Proof.
  revert q p. induction es as [|e es IH]; intros q p Hl Hr Hp; [simpl in Hp; lia|].
  assert (∀ m now, EvDequeue m now ∈ es → ready m now l = true) as Hr' by (intros; apply Hr; by right).
  destruct e as [job|m now]; rewrite filter_cons in Hp; simpl in Hp; cbn [serve].
  - assert (∀ q', Enqueue job q = Ok q' → jobs q' !! p = Some l) as Hq.
    { unfold Enqueue. case_if; [done|]. intros q' [= <-]. by apply lookup_app_l_Some. }
    destruct (Enqueue job q) as [q'|e|] eqn:E; [apply (IH q' p)|apply (IH q p)|apply (IH q p)]; auto.
  - destruct (Dequeue_progress m now q p l Hl) as (j & Hj & Hcase); [apply Hr; by left|].
    destruct (Dequeue m now q) as [r q']. simpl in Hj, Hcase. subst r.
    destruct (serve es q') as [out q''] eqn:Es. simpl. apply elem_of_cons.
    destruct Hcase as [->|(p' & Hp' & Hl')]; [by left|right].
    pose proof (IH q' p' Hl' Hr' ltac:(simpl in Hp; lia)) as H. by rewrite Es in H.
Qed.

Definition demo_heap : heap :=
  {[0%nat := {| ID := "late"; Payload := None; MaxRetries := 3; Retries := 0; CreatedAt := None;
                RunAt := Some 100; LastError := "" |};
    1%nat := {| ID := "now"; Payload := None; MaxRetries := 3; Retries := 0; CreatedAt := None;
                RunAt := None; LastError := "" |}]}.

Lemma queue_no_starvation_witness :
  1%nat ∈ (serve [EvDequeue demo_heap 5; EvEnqueue 1; EvDequeue demo_heap 6]
                 {| jobs := [0; 1]%nat; maxSize := 2 |}).1.
Proof.
  apply (queue_no_starvation _ {| jobs := [0; 1]%nat; maxSize := 2 |} 1 1);
    [done| |vm_compute; lia].
  intros m now Hin. apply elem_of_cons in Hin as [[= -> ->]|Hin]; [done|].
  apply elem_of_cons in Hin as [?|Hin]; [done|].
  apply elem_of_cons in Hin as [[= -> ->]|Hin]; [done|]. by apply not_elem_of_nil in Hin.
Defined.
End JobQueue.

(** ** Retries *)
Module RetryQueue.
Record RetryQueue := { jobs : list loc; backoff : Backoff.Backoff }.

Definition NewRetryQueue : RetryQueue := {| jobs := []; backoff := Backoff.NewBackoff |}.

(** The job is rewritten in place: every other holder of it sees the change. *)
Definition retried (err : string) (t : Z) (j : Job) : Job :=
  {| ID := ID j; Payload := Payload j; MaxRetries := MaxRetries j; Retries := i64 (Retries j + 1);
     CreatedAt := CreatedAt j; RunAt := Some t; LastError := err |}.

Definition Retry (now : Z) (rnd : float64) (job : loc) (err : string) (m : heap) (r : RetryQueue)
    : heap * RetryQueue :=
  let '(d, b) := Backoff.Next rnd (backoff r) in
  (alter (retried err (now + d)) job m, {| jobs := jobs r ++ [job]; backoff := b |}).

Definition due (m : heap) (now : Z) (l : loc) : bool := After now (run_at m l).

Fixpoint split_ready (m : heap) (now : Z) (l : list loc) : list loc * list loc :=
  match l with
  | [] => ([], [])
  | j :: l' =>
      let '(rdy, rem) := split_ready m now l' in
      if due m now j then (j :: rdy, rem) else (rdy, j :: rem)
  end.

Definition Ready (m : heap) (now : Z) (r : RetryQueue) : list loc * RetryQueue :=
  let '(rdy, rem) := split_ready m now (jobs r) in
  (rdy, {| jobs := rem; backoff := backoff r |}).

Lemma split_ready_filter m now l :
  split_ready m now l = (filter (due m now) l, filter (λ x, ¬ due m now x) l).
Proof.
  induction l as [|x l IH]; [done|]. cbn [split_ready]. rewrite IH, !filter_cons.
  by destruct (due m now x).
Qed.

Inductive event :=
  | EvRetry (now : Z) (rnd : float64) (job : loc) (err : string)
  | EvReady (now : Z).

(** The jobs handed back along a sequence of events. *)
Fixpoint run (es : list event) (m : heap) (r : RetryQueue) : list loc * heap * RetryQueue :=
  match es with
  | [] => ([], m, r)
  | EvRetry now rnd job err :: es' =>
      let '(m', r') := Retry now rnd job err m r in run es' m' r'
  | EvReady now :: es' =>
      let '(rdy, r') := Ready m now r in
      let '(out, m', r'') := run es' m r' in (rdy ++ out, m', r'')
  end.

Definition submitted (es : list event) : list loc :=
  omap (λ e, if e is EvRetry _ _ job _ then Some job else None) es.

(** Over any sequence of retries and collections every retried
    job is handed back exactly once or is still waiting, a collection returns
    exactly the jobs that are due in the order they were retried, and the others
    keep their order. *)
Theorem retry_conserves es m r :
  (let '(out, m', r') := run es m r in out ++ jobs r' ≡ₚ jobs r ++ submitted es) ∧
  (∀ now, (Ready m now r).1 = filter (due m now) (jobs r) ∧
          jobs (Ready m now r).2 = filter (λ x, ¬ due m now x) (jobs r)).
Proof.
  assert (∀ now r, Ready m now r = (filter (due m now) (jobs r),
    {| jobs := filter (λ x, ¬ due m now x) (jobs r); backoff := backoff r |})) as HR.
  { intros now r0. unfold Ready. by rewrite split_ready_filter. }
  split; [|intros now; by rewrite HR]. clear HR. revert m r.
  induction es as [|e es IH]; intros m r; [cbn; by rewrite app_nil_r|].
  destruct e as [now rnd job err|now]; cbn [run].
  - unfold Retry. destruct (Backoff.Next rnd (backoff r)) as [d b].
    specialize (IH (alter (retried err (now + d)) job m) {| jobs := jobs r ++ [job]; backoff := b |}).
    destruct (run es _ _) as [[out m'] r']. rewrite IH. cbn. by rewrite <- app_assoc.
  - unfold Ready. rewrite split_ready_filter.
    specialize (IH m {| jobs := filter (λ x, ¬ due m now x) (jobs r); backoff := backoff r |}).
    destruct (run es _ _) as [[out m'] r']. rewrite <- app_assoc, IH. cbn.
    rewrite app_assoc. apply Permutation_app; [apply filter_app_complement|done].
Qed.

(** The backoff belongs to the queue, not to the job, and the limit of retries is
    not looked at: the third job waits as long as if it had failed three times,
    and a job is accepted beyond its limit. *)
Lemma retry_shares_backoff :
  let half := Backoff.of_decimal 5 1 in
  let '(m1, r1) := Retry 0 half 0%nat "e" JobQueue.demo_heap NewRetryQueue in
  let '(m2, r2) := Retry 0 half 0%nat "e" m1 r1 in
  let '(m3, r3) := Retry 0 half 0%nat "e" m2 r2 in
  let '(m4, r4) := Retry 0 half 1%nat "e" m3 r3 in
  let '(m5, r5) := Retry 0 half 0%nat "e" m4 r4 in
  run_at m4 1%nat = Some (800 * Backoff.Millisecond)
  ∧ (Retries <$> m5 !! 0%nat) = Some 4 ∧ (MaxRetries <$> m5 !! 0%nat) = Some 3.
Proof. vm_compute. conjs; reflexivity. Qed.
End RetryQueue.

(** ** Dead letters *)
Module DLQ.
Record DeadLetterQueue := { jobs : list loc; maxSize : Z }.

Definition NewDLQ (n : Z) : DeadLetterQueue := {| jobs := []; maxSize := n |}.

Definition Enqueue (job : loc) (d : DeadLetterQueue) : DeadLetterQueue :=
  let js := if (maxSize d >? 0) && (zlen (jobs d) >=? maxSize d) then drop 1 (jobs d) else jobs d in
  {| jobs := js ++ [job]; maxSize := maxSize d |}.

Definition List_ (d : DeadLetterQueue) : list loc := jobs d.

(** A bounded dead-letter queue holds the last maxSize jobs
    given to it, in order; an unbounded one holds all. *)
Theorem dlq_keeps_latest n js :
  let d := foldl (λ d j, Enqueue j d) (NewDLQ n) js in
  List_ d = if n >? 0 then drop (length js - Z.to_nat n) js else js.
Proof.
  intros d. unfold d, List_. induction js as [|j js IH] using rev_ind; [by case_if|].
  rewrite foldl_snoc. cbn [Enqueue jobs].
  assert (maxSize (foldl (λ d j, Enqueue j d) (NewDLQ n) js) = n) as ->.
  { apply (foldl_invariant (λ d, maxSize d = n)); [done|]. intros a b _ <-. done. }
  rewrite IH. unfold zlen. destruct (Z.gtb_spec n 0) as [Hn|Hn]; [|done]. simpl.
  rewrite length_app, length_drop. simpl. case_if; bool_to_prop.
  - rewrite drop_drop, drop_app_le by lia. f_equal. f_equal. lia.
  - rewrite drop_app_le by lia. f_equal. f_equal. lia.
Qed.
End DLQ.
