(* ===== verification/Limits.v ===== *)
(** * Limits, audit and replica health: [security/tenant_quota.go],
      [security/rate_limit.go], [security/audit_guard.go], [replication/lag.go]

    Each component is one Module. The token bucket computes with doubles in the
    executable model of the Standard Library; the audit file is the list of the
    events written to it. *)
From S2P Require Import Prelude Types Workflow.
From Stdlib Require Import Floats.SpecFloat.
Open Scope string_scope.
Open Scope list_scope.
Open Scope Z_scope.

(** ** Tenant quotas *)
Module Quota.
Record TenantQuota := { TenantID : string; MaxMemBytes : Z; MaxOpsPerSec : Z; MaxKeys : Z }.
Record TenantUsage := { MemBytes : Z; OpsCount : Z; KeyCount : Z }.
Record TenantQuotaManager := {
  quotas : gmap string TenantQuota;
  usage : gmap string TenantUsage;
}.

Definition NewTenantQuotaManager : TenantQuotaManager := {| quotas := ∅; usage := ∅ |}.
Definition zero_usage : TenantUsage := {| MemBytes := 0; OpsCount := 0; KeyCount := 0 |}.

Definition SetQuota (q : TenantQuota) (m : TenantQuotaManager) : TenantQuotaManager :=
  {| quotas := <[TenantID q := q]> (quotas m);
     usage := match usage m !! TenantID q with
              | Some _ => usage m
              | None => <[TenantID q := zero_usage]> (usage m)
              end |}.

Definition CheckMemory (tenantID : string) (bytes : Z) (m : TenantQuotaManager) : res string unit :=
  match quotas m !! tenantID, usage m !! tenantID with
  | Some q, Some u =>
      if (MaxMemBytes q >? 0) && (i64 (MemBytes u + bytes) >? MaxMemBytes q)
      then Err ("OOM quota exceeded for tenant " +:+ tenantID) else Ok tt
  | _, _ => Ok tt
  end.

Definition track (bytes : Z) (newKey : bool) (u : TenantUsage) : TenantUsage :=
  {| MemBytes := i64 (MemBytes u + bytes); OpsCount := i64 (OpsCount u + 1);
     KeyCount := if newKey then i64 (KeyCount u + 1) else KeyCount u |}.

Definition TrackWrite (tenantID : string) (bytes : Z) (newKey : bool) (m : TenantQuotaManager)
    : TenantQuotaManager :=
  {| quotas := quotas m; usage := alter (track bytes newKey) tenantID (usage m) |}.

Definition Usage (tenantID : string) (m : TenantQuotaManager) : TenantUsage :=
  default zero_usage (usage m !! tenantID).

(** A write that checks first and is tracked when admitted. *)
Definition guarded_write (w : string * Z * bool) (m : TenantQuotaManager) : TenantQuotaManager :=
  let '(t, bytes, newKey) := w in
  match CheckMemory t bytes m with Ok _ => TrackWrite t bytes newKey m | _ => m end.

Definition within (m : TenantQuotaManager) : Prop :=
  ∀ t q u, quotas m !! t = Some q → usage m !! t = Some u →
    0 < MaxMemBytes q → MemBytes u ≤ MaxMemBytes q.

Lemma guarded_write_within w m : within m → within (guarded_write w m).
Proof.
  destruct w as [[t bytes] nk]. intros Hw. unfold guarded_write.
  destruct (CheckMemory t bytes m) as [[]|e|] eqn:E; [|done..].
  intros t' q u Hq Hu Hpos. cbn in Hq, Hu. destruct (decide (t' = t)) as [->|Hne].
  - rewrite lookup_alter_eq in Hu. apply fmap_Some in Hu as (u0 & Hu0 & ->). cbn -[i64].
    unfold CheckMemory in E. rewrite Hq, Hu0 in E.
    destruct (Z.gtb_spec (i64 (MemBytes u0 + bytes)) (MaxMemBytes q)); [|lia].
    by rewrite (proj2 (Z.gtb_lt _ _)) in E.
  - rewrite lookup_alter_ne in Hu by done. by eapply Hw.
Qed.

(** When every write is checked before it is tracked
    and nothing runs in between, no tenant with a memory quota ever exceeds it,
    for all sequences of writes; but two writes that are both checked before
    either is tracked can exceed it, a size near the top of int64 wraps around
    and is admitted, and the key and rate quotas refuse nothing. *)
Theorem quota_check_then_track ws m :
  within m →
  within (foldl (λ m w, guarded_write w m) m ws) ∧
  (∃ m' t, within m' ∧ CheckMemory t 60 m' = Ok tt
     ∧ ¬ within (TrackWrite t 60 false (TrackWrite t 60 false m'))) ∧
  (∃ m' t, CheckMemory t 60 m' = Ok tt ∧ MemBytes (Usage t (TrackWrite t 60 true m')) = 110
     ∧ CheckMemory t MaxInt64 (TrackWrite t 60 true m') = Ok tt) ∧
  (∀ t q bytes, quotas m !! t = Some q → MaxMemBytes q = 0 → CheckMemory t bytes m = Ok tt).
Proof.
  intros Hw. conjs.
  - apply (foldl_invariant within); [done|]. intros. by apply guarded_write_within.
  - set (m0 := SetQuota {| TenantID := "t"; MaxMemBytes := 100; MaxOpsPerSec := 1; MaxKeys := 1 |}
      NewTenantQuotaManager).
    exists m0, "t". split.
    { intros t' q u Hq Hu _. unfold m0, SetQuota in Hq, Hu. cbn in Hq, Hu. apply lookup_insert_Some in Hq as [[<- <-]|[_ ?]]; [|done].
      apply lookup_insert_Some in Hu as [[_ <-]|[_ ?]]; cbn; [lia|done]. }
    split; [done|]. intros H.
    specialize (H "t" _ _ eq_refl eq_refl). vm_compute in H. by apply H.
  - exists (TrackWrite "t" 50 true (SetQuota {| TenantID := "t"; MaxMemBytes := 120; MaxOpsPerSec := 1;
      MaxKeys := 1 |} NewTenantQuotaManager)), "t". vm_compute. done.
  - intros t q bytes Hq Hz. unfold CheckMemory. rewrite Hq, Hz. by destruct (usage m !! t).
Qed.

Lemma quota_check_then_track_witness :
  within (foldl (λ m w, guarded_write w m) NewTenantQuotaManager [("t", 5, true); ("u", 7, false)]).
Proof. apply (quota_check_then_track [("t", 5, true); ("u", 7, false)] NewTenantQuotaManager). by intros t q u [=]. Defined.
End Quota.

(** ** The token bucket *)
Module RateLimiter.
Import Workflow.Backoff.

Record bucket := { tokens : float64; lastRefill : Z }.
Record RateLimiter := {
  buckets : gmap string bucket;
  rate : float64;
  capacity : float64;
  enabled : bool;
}.

Definition NewRateLimiter (ratePerSec burst : Z) (en : bool) : RateLimiter :=
  {| buckets := ∅; rate := of_int ratePerSec; capacity := of_int burst; enabled := en |}.

(** [d.Seconds()] *)
Definition Seconds (d : Z) : float64 :=
  fadd (of_int (d ÷ Second)) (SFdiv 53 1024 (of_int (Z.rem d Second)) (of_int Second)).

Definition set_bucket (id : string) (b : bucket) (r : RateLimiter) : RateLimiter :=
  {| buckets := <[id := b]> (buckets r); rate := rate r; capacity := capacity r; enabled := enabled r |}.

(** The tokens of [b] at [now]. *)
Definition refill (r : RateLimiter) (now : Z) (b : bucket) : float64 :=
  let t := fadd (tokens b) (fmul (Seconds (now - lastRefill b)) (rate r)) in
  if SFltb (capacity r) t then capacity r else t.

(** [created] is the reading taken when the bucket is made, [now] the next one. *)
Definition Allow (created now : Z) (clientID : string) (r : RateLimiter) : bool * RateLimiter :=
  if negb (enabled r) then (true, r) else
  let b := match buckets r !! clientID with
           | Some b => b
           | None => {| tokens := capacity r; lastRefill := created |}
           end in
  let t := refill r now b in
  if SFltb t (of_int 1) then (false, set_bucket clientID {| tokens := t; lastRefill := now |} r)
  else (true, set_bucket clientID {| tokens := fsub t (of_int 1); lastRefill := now |} r).

Definition Cleanup (now maxAge : Z) (r : RateLimiter) : RateLimiter :=
  {| buckets := filter (λ p, ¬ lastRefill p.2 < now - maxAge) (buckets r);
     rate := rate r; capacity := capacity r; enabled := enabled r |}.

(** The answers to requests of one client at the given times. *)
Fixpoint allow_all (times : list Z) (client : string) (r : RateLimiter) : list bool * RateLimiter :=
  match times with
  | [] => ([], r)
  | t :: times' =>
      let '(a, r1) := Allow t t client r in
      let '(as_, r2) := allow_all times' client r1 in (a :: as_, r2)
  end.

Definition burst_answers (ratePerSec burst : Z) (n : nat) : list bool :=
  (allow_all (replicate n 0) "c" (NewRateLimiter ratePerSec burst true)).1.

Definition burst_ok (burst : nat) : bool :=
  bool_decide (burst_answers 1 (Z.of_nat burst) (burst + 2) = replicate burst true ++ [false; false]).

Lemma burst_ok_all : forallb burst_ok (seq 0 129) = true.
Proof. vm_compute. reflexivity. Qed.

(** A disabled limiter admits everything and keeps no bucket; an
    enabled one changes only the bucket of the client that asks, admits it
    exactly when its refilled bucket holds at least one token, and at one instant
    admits exactly the burst and nothing more (bursts up to 128, by evaluation). *)
Theorem rate_limit created now client r :
  (enabled r = false → Allow created now client r = (true, r)) ∧
  (∀ other, other ≠ client →
     buckets (Allow created now client r).2 !! other = buckets r !! other) ∧
  (enabled r = true → ∃ b, buckets (Allow created now client r).2 !! client = Some b
     ∧ lastRefill b = now) ∧
  (∀ b, enabled r = true → buckets r !! client = Some b →
     (Allow created now client r).1 = negb (SFltb (refill r now b) (of_int 1))) ∧
  (∀ burst : nat, (burst ≤ 128)%nat →
     burst_answers 1 (Z.of_nat burst) (burst + 2) = replicate burst true ++ [false; false]).
Proof.
  unfold Allow. conjs.
  - by intros ->.
  - intros other Hne. destruct (enabled r); [|done]. cbn [negb].
    by case_if; cbn; rewrite lookup_insert_ne.
  - intros ->. cbn [negb]. case_if; cbn; rewrite lookup_insert_eq; eauto.
  - intros b -> ->. cbn [negb]. by case_if.
  - intros burst Hb. pose proof burst_ok_all as H. rewrite forallb_forall in H.
    eapply bool_decide_eq_true_1, (H burst), in_seq. lia.
Qed.
End RateLimiter.

(** ** The audit log *)
Module Audit.
Record AuditEvent := {
  Timestamp : Z;
  ClientID : Z;
  UserName : string;
  Tenant : string;
  Command : string;
  Key : string;
  Result : string;
  Reason : string;
  RemoteAddr : string;
}.

(** [file] holds the events whose lines have been written. *)
Record AuditGuard := {
  file : option (list AuditEvent);     (* [None] is a nil file *)
  enabled : bool;
  buf : list AuditEvent;
  bufSize : Z;
}.

(** [NewAuditGuard]; [opened] is the result of opening the file. *)
Definition NewAuditGuard (en : bool) (opened : res string (list AuditEvent)) : res string AuditGuard :=
  if negb en then Ok {| file := None; enabled := false; buf := []; bufSize := 0 |} else
  let? f := opened in Ok {| file := Some f; enabled := true; buf := []; bufSize := 100 |}.

Definition flush (g : AuditGuard) : AuditGuard :=
  {| file := (λ f, f ++ buf g) <$> file g; enabled := enabled g; buf := []; bufSize := bufSize g |}.

Definition stamp (now : Z) (e : AuditEvent) : AuditEvent :=
  {| Timestamp := now; ClientID := ClientID e; UserName := UserName e; Tenant := Tenant e;
     Command := Command e; Key := Key e; Result := Result e; Reason := Reason e;
     RemoteAddr := RemoteAddr e |}.

Definition Log (now : Z) (event : AuditEvent) (g : AuditGuard) : AuditGuard :=
  if negb (enabled g) then g else
  let g1 := {| file := file g; enabled := enabled g; buf := buf g ++ [stamp now event];
               bufSize := bufSize g |} in
  if zlen (buf g1) >=? bufSize g1 then flush g1 else g1.

Definition Flush (g : AuditGuard) : AuditGuard := if negb (enabled g) then g else flush g.

Definition Close (g : AuditGuard) : AuditGuard :=
  match file g with Some _ => Flush g | None => g end.

Definition log_all (es : list (Z * AuditEvent)) (g : AuditGuard) : AuditGuard :=
  foldl (λ g '(t, e), Log t e g) g es.

(** An enabled guard writes every event once and in order: the
    file followed by the buffer is the sequence of events logged, fewer than 100
    wait in the buffer (what a crash can lose), and closing leaves all of them in
    the file; a disabled guard records nothing. *)
Theorem audit_complete f0 es :
  (∃ g, NewAuditGuard true (Ok f0) = Ok g ∧
     let g' := log_all es g in
     (∃ f, file g' = Some f ∧ f ++ buf g' = f0 ++ ((λ p, stamp p.1 p.2) <$> es)) ∧
     zlen (buf g') < 100 ∧
     file (Close g') = Some (f0 ++ ((λ p, stamp p.1 p.2) <$> es))) ∧
  (∃ g, NewAuditGuard false (Ok f0) = Ok g ∧ log_all es g = g).
Proof.
  split.
  - eexists. split; [done|]. set (g := {| file := Some f0 |}). intros g'.
    assert ((∃ f, file g' = Some f ∧ f ++ buf g' = f0 ++ ((λ p, stamp p.1 p.2) <$> es)) ∧
            zlen (buf g') < 100 ∧ enabled g' = true ∧ bufSize g' = 100) as (Hf & Hb & He & Hs).
    { unfold g', log_all. induction es as [|[t e] es IH] using rev_ind.
      { split; [by exists f0|]. split; [unfold zlen; simpl; lia|done]. }
      rewrite foldl_snoc, fmap_app. set (gi := foldl _ _ es) in *.
      destruct IH as ((f & Hf & Hc) & Hb & He & Hs). unfold Log. rewrite He. cbn [negb buf bufSize].
      destruct (Z.geb_spec (zlen (buf gi ++ [stamp t e])) (bufSize gi)); cbn; rewrite Hf.
      - split; [|split; [unfold zlen; simpl; lia|done]]. exists (f ++ buf gi ++ [stamp t e]). split; [done|].
        rewrite app_nil_r, app_assoc, Hc, <- app_assoc. done.
      - split; [|split; [lia|done]]. exists f. split; [done|]. rewrite app_assoc, Hc, <- app_assoc. done. }
    split; [done|]. split; [done|]. destruct Hf as (f & Hf & Hc). unfold Close, Flush.
    rewrite Hf, He. cbn. by rewrite Hf, <- Hc.
  - eexists. split; [done|]. apply (foldl_invariant (λ g, g = {| file := None; enabled := false;
      buf := []; bufSize := 0 |})); [done|]. by intros a [t e] _ ->.
Qed.
End Audit.

(** ** Replica lag and failover *)
Module Lag.
Record replicaLag := { lag : Z; lastUpdated : Z; ackSeq : Z }.
Record LagMonitor := { lags : gmap string replicaLag; threshold : Z }.

Definition NewLagMonitor (t : Z) : LagMonitor := {| lags := ∅; threshold := t |}.

(** [seq] and [primarySeq] are uint64; the subtraction is on int64. *)
Definition UpdateLag (now : Z) (replicaID : string) (seq primarySeq : Z) (m : LagMonitor) : LagMonitor :=
  let lag0 := i64 (i64 primarySeq - i64 seq) in
  let lag0 := if lag0 <? 0 then 0 else lag0 in
  {| lags := <[replicaID := {| lag := lag0; lastUpdated := now; ackSeq := seq |}]> (lags m);
     threshold := threshold m |}.

Definition IsLagging (replicaID : string) (m : LagMonitor) : bool :=
  match lags m !! replicaID with
  | None => false
  | Some l => lag l >? threshold m
  end.

Definition LagReport (m : LagMonitor) : gmap string Z := lag <$> lags m.

Definition QuorumACK (seq quorum : Z) (m : LagMonitor) : bool :=
  foldl (λ count p, if ackSeq p.2 >=? seq then count + 1 else count) 0 (map_to_list (lags m)) >=? quorum.

Definition acked (seq : Z) (m : LagMonitor) : gset string :=
  dom (filter (λ p, seq ≤ ackSeq p.2) (lags m)).

Lemma count_acked seq (l : list (string * replicaLag)) c :
  foldl (λ count p, if ackSeq p.2 >=? seq then count + 1 else count) c l
  = c + zlen (filter (λ p, seq ≤ ackSeq p.2) l).
Proof.
  unfold zlen. revert c. induction l as [|p l IH]; intros c; cbn [foldl]; [simpl; lia|].
  rewrite IH, filter_cons. destruct (Z.geb_spec (ackSeq p.2) seq); case_decide; simpl; lia.
Qed.

Lemma size_filter (P : string * replicaLag → Prop) `{∀ p, Decision (P p)} (m : gmap string replicaLag) :
  size (filter P m) = length (filter P (map_to_list m)).
Proof.
  rewrite map_filter_alt, map_size_list_to_map; [done|].
  apply (sublist_NoDup _ (map_to_list m).*1); [apply NoDup_fst_map_to_list|].
  apply fmap_sublist, sublist_filter.
Qed.

(** A sequence number counts as acknowledged by a quorum exactly
    when at least that many distinct replicas last reported it or a later one;
    for sequence numbers below 2^63 the lag reported for a replica is how far it
    is behind, never negative. *)
Theorem quorum_ack m seq quorum now id s ps :
  (QuorumACK seq quorum m = true ↔ quorum ≤ Z.of_nat (size (acked seq m))) ∧
  (0 ≤ s < 2 ^ 63 → 0 ≤ ps < 2 ^ 63 →
     LagReport (UpdateLag now id s ps m) !! id = Some (Z.max 0 (ps - s)) ∧
     acked s (UpdateLag now id s ps m) = {[id]} ∪ acked s m).
Proof.
  split.
  - unfold QuorumACK. rewrite count_acked, Z.geb_le, Z.add_0_l. unfold acked, zlen.
    by rewrite size_dom, size_filter.
  - intros Hs Hps. unfold UpdateLag, LagReport. cbn -[i64].
    rewrite !i64_id by (rewrite ?i64_id; unfold in_i64, MinInt64, MaxInt64; lia). split.
    + rewrite lookup_fmap, lookup_insert_eq. cbn. f_equal. case_if; bool_to_prop; lia.
    + unfold acked. cbn. rewrite map_filter_insert_True by (cbn; lia). by rewrite dom_insert_L.
Qed.

Record FailoverCoordinator := { leader : string; replicas : list string; isLeader : bool }.

Definition NewFailoverCoordinator (rs : list string) : FailoverCoordinator :=
  {| leader := ""; replicas := rs; isLeader := false |}.

Definition ElectLeader (available : list string) (f : FailoverCoordinator)
    : res string string * FailoverCoordinator :=
  match available with
  | [] => (Err "no available replicas for election", f)
  | a :: _ => (Ok a, {| leader := a; replicas := replicas f; isLeader := true |})
  end.

Definition Leader (f : FailoverCoordinator) : string := leader f.

(** The lag is a number of records, the threshold a duration in nanoseconds: with
    the threshold one second a replica is lagging only a thousand million records
    behind. And an acknowledgement can be taken back. *)
Lemma lag_units :
  let m := UpdateLag 0 "r" 1000 1000000000 (NewLagMonitor 1000000000) in
  IsLagging "r" m = false ∧ QuorumACK 1000 1 m = true
  ∧ QuorumACK 1000 1 (UpdateLag 1 "r" 999 1000000000 m) = false.
Proof. vm_compute. done. Qed.
End Lag.
