(* ===== verification/Server.v ===== *)
(** * The servers of an engine ([api/server.go])

    The RESP server runs one goroutine per connection, each a loop that reads a
    command, asks the rate limiter, answers AUTH itself, looks the user up again,
    asks the enforcer, writes to the audit log and executes. An iteration is two
    steps, [Receive] up to the admission of the command and [Run], so that other
    connections and changes of the users fall in between. The input of a
    connection is all the client will ever send; whether more of it had arrived
    when a reply was written, which decides on a flush, is part of the reading
    [t]. The buffer of 32 KiB, which is also written out when it is full, is taken
    as unbounded. The HTTP server shares the executor; the decoded body of a
    request is an argument. *)

From S2P Require Import Prelude GoStd Types KV RESP Commands Auth Transaction Executor DispatchTyped.
From S2P Require Config Limits.
Open Scope Z_scope.

(** ** Data *)
Record Client := {
  c_addr : string; c_User : option User; c_in : list byte; c_pending : option Command;
  c_buf : list byte; c_sent : list byte; c_open : bool
}.
Record RESPServer := {
  acl : ACLStore; rateLimit : Limits.RateLimiter.RateLimiter; audit : Limits.Audit.AuditGuard; exec : Executor;
  clients : gmap Z Client; nextID : Z; maxConnections : Z; internalAPIToken : string; down : bool
}.
(** What one iteration reads from outside: clocks, memory of the vectors, a fault
    of the log, and whether the input was used up after it. *)
Record reading := { t_created : Z; t_now : Z; t_vec : Z; t_fault : option wal_fault; t_drained : bool }.

Definition set_acl (a : ACLStore) (s : RESPServer) : RESPServer :=
  {| acl := a; rateLimit := rateLimit s; audit := audit s; exec := exec s; clients := clients s; nextID := nextID s;
     maxConnections := maxConnections s; internalAPIToken := internalAPIToken s; down := down s |}.
Definition set_exec (x : Executor) (s : RESPServer) : RESPServer :=
  {| acl := acl s; rateLimit := rateLimit s; audit := audit s; exec := x; clients := clients s; nextID := nextID s;
     maxConnections := maxConnections s; internalAPIToken := internalAPIToken s; down := down s |}.
Definition set_rate (r : Limits.RateLimiter.RateLimiter) (s : RESPServer) : RESPServer :=
  {| acl := acl s; rateLimit := r; audit := audit s; exec := exec s; clients := clients s; nextID := nextID s;
     maxConnections := maxConnections s; internalAPIToken := internalAPIToken s; down := down s |}.
Definition set_audit (g : Limits.Audit.AuditGuard) (s : RESPServer) : RESPServer :=
  {| acl := acl s; rateLimit := rateLimit s; audit := g; exec := exec s; clients := clients s; nextID := nextID s;
     maxConnections := maxConnections s; internalAPIToken := internalAPIToken s; down := down s |}.
Definition set_clients (c : gmap Z Client) (s : RESPServer) : RESPServer :=
  {| acl := acl s; rateLimit := rateLimit s; audit := audit s; exec := exec s; clients := c; nextID := nextID s;
     maxConnections := maxConnections s; internalAPIToken := internalAPIToken s; down := down s |}.
Definition put (id : Z) (c : Client) (s : RESPServer) : RESPServer := set_clients (<[id := c]> (clients s)) s.

Definition with_user (u : option User) (c : Client) : Client :=
  {| c_addr := c_addr c; c_User := u; c_in := c_in c; c_pending := c_pending c; c_buf := c_buf c; c_sent := c_sent c; c_open := c_open c |}.
Definition with_pending (p : option Command) (c : Client) : Client :=
  {| c_addr := c_addr c; c_User := c_User c; c_in := c_in c; c_pending := p; c_buf := c_buf c; c_sent := c_sent c; c_open := c_open c |}.
Definition with_in (l : list byte) (c : Client) : Client :=
  {| c_addr := c_addr c; c_User := c_User c; c_in := l; c_pending := c_pending c; c_buf := c_buf c; c_sent := c_sent c; c_open := c_open c |}.
(** The replies written so far, and flushed (not to a closed connection); the
    connection closed. *)
Definition written (out : list byte) (c : Client) : Client :=
  {| c_addr := c_addr c; c_User := c_User c; c_in := c_in c; c_pending := c_pending c; c_buf := c_buf c ++ out; c_sent := c_sent c; c_open := c_open c |}.
Definition flushed (c : Client) : Client :=
  if c_open c then
    {| c_addr := c_addr c; c_User := c_User c; c_in := c_in c; c_pending := c_pending c; c_buf := []; c_sent := c_sent c ++ c_buf c; c_open := true |}
  else c.
Definition hung_up (c : Client) : Client :=
  {| c_addr := c_addr c; c_User := c_User c; c_in := c_in c; c_pending := c_pending c; c_buf := c_buf c; c_sent := c_sent c; c_open := false |}.

Definition userNameOrEmpty (u : option User) : string := if u is Some u then user_Name u else "anonymous"%string.
Definition event (id : Z) (user cmd result reason addr : string) : Limits.Audit.AuditEvent :=
  {| Limits.Audit.Timestamp := 0; Limits.Audit.ClientID := id; Limits.Audit.UserName := user; Limits.Audit.Tenant := "";
     Limits.Audit.Command := cmd; Limits.Audit.Key := ""; Limits.Audit.Result := result; Limits.Audit.Reason := reason;
     Limits.Audit.RemoteAddr := addr |}.
Definition log_event (now : Z) (e : Limits.Audit.AuditEvent) (s : RESPServer) : RESPServer := set_audit (Limits.Audit.Log now e (audit s)) s.

Definition ActiveConnections (s : RESPServer) : Z := Z.of_nat (size (filter (λ p, c_open p.2 = true) (clients s))).

(** ** A connection *)

(** The start of [handleConn]: the identifier, none when the server is full. *)
Definition connect (addr : string) (input : list byte) (s : RESPServer) : RESPServer :=
  if (maxConnections s >? 0) && (ActiveConnections s >=? maxConnections s) then s
  else
    let id := u64 (nextID s + 1) in
    let c := {| c_addr := addr; c_User := GetUser (acl s) "default"; c_in := input; c_pending := None; c_buf := []; c_sent := []; c_open := true |} in
    {| acl := acl s; rateLimit := rateLimit s; audit := audit s; exec := exec s; clients := <[id := c]> (clients s); nextID := id;
       maxConnections := maxConnections s; internalAPIToken := internalAPIToken s; down := down s |}.

(** User name and password of AUTH. *)
Definition credentials (cmd : Command) : string * string :=
  if NumArgs cmd =? 1 then ("default"%string, Arg cmd 0) else (Arg cmd 0, Arg cmd 1).
Definition handleAuth (a : ACLStore) (cmd : Command) (c : Client) : Client :=
  if NumArgs cmd <? 1 then written (WriteError (WrongNumArgsError "AUTH")) c
  else
    let '(username, password) := credentials cmd in
    match GetUser a username with
    | None => written (WriteErrorRaw "WRONGPASS invalid username-password pair") c
    | Some user =>
        match Authenticate user password with
        | Some err => written (WriteErrorRaw err) c
        | None => written WriteOK (with_user (Some user) c)
        end
    end.

(** The loop up to the execution of a command: refused commands are answered at
    once, an admitted one is [c_pending]. *)
Definition admission (t : reading) (id : Z) (cmd : Command) (c : Client) (s : RESPServer) : RESPServer :=
  let '(allowed, r) := Limits.RateLimiter.Allow (t_created t) (t_now t) (c_addr c) (rateLimit s) in
  let s := set_rate r s in
  if negb allowed then put id (flushed (written (WriteErrorRaw "ERR rate limit exceeded") c)) s
  else if bool_decide (Normalized cmd = "AUTH"%string) then put id (flushed (handleAuth (acl s) cmd c)) s
  else
    let c := if c_User c is Some u then with_user (GetUser (acl s) (user_Name u)) c else c in
    let name := userNameOrEmpty (c_User c) in
    match Enforce (c_User c) cmd with
    | Some err =>
        let s := log_event (t_now t) (event id name (Name cmd) "denied" err (c_addr c)) s in
        put id (flushed (written (WriteErrorRaw err) c)) s
    | None =>
        let readonly := if Lookup (Normalized cmd) is Some info then ReadOnly info else false in
        let s := if negb readonly && ShouldAudit (Normalized cmd) then log_event (t_now t) (event id name (Name cmd) "ok" "" (c_addr c)) s else s in
        put id (with_pending (Some cmd) c) s
    end.
Definition receive (t : reading) (id : Z) (s : RESPServer) : RESPServer :=
  match clients s !! id with
  | Some c =>
      if negb (c_open c) || bool_decide (is_Some (c_pending c)) then s
      else match ReadCommand (c_in c) with
           | Ok (cmd, rest) => admission t id cmd (with_in rest c) s
           | _ => put id (hung_up c) s
           end
  | None => s
  end.

Section Serve.
Variable others : Z → Z → Command → Executor → answer.
Variable pick : nat → nat.
Definition Execute (t : reading) (id : Z) (cmd : Command) (x : Executor) : answer :=
  execute_all others pick (t_now t) (t_vec t) (t_fault t) id cmd x.

(** The end of the iteration. *)
Definition run (t : reading) (id : Z) (s : RESPServer) : RESPServer :=
  match clients s !! id with
  | Some c =>
      match c_pending c with
      | Some cmd =>
          let '(out, st, x) := Execute t id cmd (exec s) in
          let c := written out (with_pending None c) in
          let c := match st with
                   | Failed "quit" => hung_up (flushed c)
                   | _ => if t_drained t then flushed c else c
                   end in
          put id c (set_exec x s)
      | None => s
      end
  | None => s
  end.

(** [Shutdown] closes the listener and every connection; a command that was
    admitted still runs. *)
Definition Shutdown (s : RESPServer) : RESPServer :=
  {| acl := acl s; rateLimit := rateLimit s; audit := audit s; exec := exec s; clients := hung_up <$> clients s; nextID := nextID s;
     maxConnections := maxConnections s; internalAPIToken := internalAPIToken s; down := true |}.

(** ** The HTTP server *)
Record request := { q_method : string; q_origin : string; q_token : string; q_host : string }.
(** An error with its text, a body, or the JSON object with the RESP reply. *)
Inductive http_answer := HTTPError (code : Z) (msg : string) | HTTPBody (code : Z) (body : list byte) | HTTPReply (out : list byte).

Definition quote_bytes (s : string) : list byte := [Byte.x22] ++ bytes_of s ++ [Byte.x22].
Definition json_status (s : string) : list byte := bytes_of "{" ++ quote_bytes "status" ++ bytes_of ":" ++ quote_bytes s ++ bytes_of "}".

(** Scheme and host of the origin are what url.Parse makes of it. *)
Definition loopbackDashboardOrigin (parsed : option (string * string)) : bool :=
  match parsed with
  | Some (scheme, host) => bool_decide (scheme ∈ ["http"; "https"]%string) && bool_decide (host ∈ ["127.0.0.1"; "localhost"; "::1"]%string)
  | None => false
  end.
Definition corsOriginAllowed (configured : list string) (parse : string → option (string * string)) (origin : string) : bool :=
  existsb (λ c, bool_decide (TrimSpace c = origin)) configured || loopbackDashboardOrigin (parse origin).
Definition withCORS {A} (allowed : string → bool) (q : request) (unchanged : A) (next : http_answer * A) : http_answer * A :=
  if bool_decide (q_method q = "OPTIONS"%string) then
    (if negb (bool_decide (q_origin q = ""%string)) && negb (allowed (q_origin q)) then HTTPError 403 "origin not allowed" else HTTPBody 200 [], unchanged)
  else next.
Definition internalAPIOnly {A} (token : string) (q : request) (unchanged : A) (next : http_answer * A) : http_answer * A :=
  if bool_decide (token = ""%string) || negb (bool_decide (q_token q = token))
  then (HTTPError 403 "engine HTTP API requires orchestrator authentication", unchanged)
  else next.

(** The body of /query after the JSON decoder. *)
Inductive query_body := TooLarge | BadJSON (err : string) | CommandLine (l : string) | CommandList (items : list (option string)) | OtherJSON.
Definition command_words (b : query_body) : list string :=
  match b with
  | CommandLine l => map str_of (Fields (bytes_of l))
  | CommandList items => omap id items
  | _ => []
  end.
Definition dashboard_internal : User :=
  {| user_Name := "dashboard_internal"; PasswordHash := ""; Enabled := true; Permissions := PermAll; AllowedKeys := ["*"%string];
     AllowedChannels := []; NoPass := false |}.

Definition only_post (q : request) (s : RESPServer) (next : http_answer * RESPServer) : http_answer * RESPServer :=
  if negb (bool_decide (q_method q = "POST"%string)) then (HTTPError 405 "Method not allowed", s) else next.

Definition query (allowed : string → bool) (t : reading) (q : request) (b : query_body) (s : RESPServer) : http_answer * RESPServer :=
  withCORS allowed q s (internalAPIOnly (internalAPIToken s) q s (only_post q s (
  match b with
  | TooLarge => (HTTPError 413 "Payload too large", s)
  | BadJSON e => (HTTPError 400 e, s)
  | _ =>
      match command_words b with
      | [] => (HTTPError 400 "empty command", s)
      | name :: args =>
          let cmd := {| Name := ToUpper name; Args := map to_slice args |} in
          match Enforce (Some dashboard_internal) cmd with
          | Some err => (HTTPReply (WriteErrorRaw err), s)
          | None =>
              let s := if ShouldAudit (Normalized cmd) then log_event (t_now t) (event 0 (user_Name dashboard_internal) (Name cmd) "ok" "" (q_host q)) s else s in
              let '(out, st, x) := Execute t 0 cmd (exec s) in
              let out := match st, out with Failed e, [] => WriteErrorRaw e | _, _ => out end in
              (HTTPReply out, set_exec x s)
          end
      end
  end))).

(** /vaddbin: the body, or the error when it is larger than 8 MiB or cannot be
    read. *)
Definition vaddbin (allowed : string → bool) (t : reading) (q : request) (key dim : string) (body : string + list byte) (s : RESPServer) : http_answer * RESPServer :=
  withCORS allowed q s (internalAPIOnly (internalAPIToken s) q s (only_post q s (
  if bool_decide (key = ""%string) || bool_decide (dim = ""%string) then (HTTPError 400 "Missing key or dim query parameters", s)
  else match body with
       | inl e => (HTTPError 500 e, s)
       | inr body =>
           let '(out, st, x) := Execute t 0 {| Name := "VADDBIN"; Args := [to_slice key; to_slice dim; Some body] |} (exec s) in
           match st with
           | Failed e => (HTTPBody 500 (match out with [] => WriteErrorRaw e | _ => out end), set_exec x s)
           | _ => (HTTPBody 200 out, set_exec x s)
           end
       end))).

(** /internal/acl/reload: what the file holds, or the error. *)
Definition acl_reload (allowed : string → bool) (q : request) (file : string + list User) (s : RESPServer) : http_answer * RESPServer :=
  withCORS allowed q s (internalAPIOnly (internalAPIToken s) q s (only_post q s (
  match file with
  | inl e => (HTTPError 500 e, s)
  | inr users => (HTTPBody 200 (json_status "ok"), set_acl (ReplaceUsers (Some <$> users)) s)
  end))).

(** /health, which needs no token. *)
Definition health (allowed : string → bool) (q : request) (ready : bool) : http_answer :=
  fst (withCORS allowed q tt (if ready then HTTPBody 200 (json_status "ok") else HTTPError 503 (str_of (json_status "not_ready")), tt)).

(** ** Steps *)
Inductive label :=
| Connect (addr : string) (input : list byte)
| Receive (id : Z) (t : reading)
| Run (id : Z) (t : reading)
| UserAdded (u : User)
| UserDeleted (name : string)
| Query (allowed : string → bool) (t : reading) (q : request) (b : query_body)
| Vaddbin (allowed : string → bool) (t : reading) (q : request) (key dim : string) (body : string + list byte)
| AclReload (allowed : string → bool) (q : request) (file : string + list User)
| Stop.

Definition step (s : RESPServer) (l : label) : RESPServer :=
  match l with
  | Connect addr input => if down s then s else connect addr input s
  | Receive id t => receive t id s
  | Run id t => run t id s
  | UserAdded u => set_acl (AddUser (acl s) u) s
  | UserDeleted name => set_acl (snd (DeleteUser (acl s) name)) s
  | Query allowed t q b => snd (query allowed t q b s)
  | Vaddbin allowed t q key dim body => snd (vaddbin allowed t q key dim body s)
  | AclReload allowed q file => snd (acl_reload allowed q file s)
  | Stop => Shutdown s
  end.
End Serve.
