(* ===== verification/ServerCorrect.v ===== *)
(** * What clients can do to an engine ([Server])

    Every change of a key is accounted for by a command that was admitted, under
    the users of that moment, for a user the connection had authenticated as, and
    every reply reaches its client in order. *)

From S2P Require Import Prelude GoStd Types KV RESP Commands Auth Transaction Executor DispatchTyped.
From S2P Require Limits.
From S2P Require Import Server.
Import MVCC Watch Multi.
Open Scope Z_scope.

(** ** Transactions: which commands touch the queues *)
Definition queue_of (id : Z) (x : Executor) : list Command := if multi x !! id is Some tx then tx_Queue tx else [].
Definition tx_names : list string := ["EXEC"; "DISCARD"; "WATCH"; "MULTI"]%string.

Lemma store_op_multi {A} (p : res error A * KVStore) ok x : multi (snd (store_op p ok x)) = multi x.
Proof. unfold store_op, respond. by destruct (fst p). Qed.

Lemma respond_multi {A} (r : res error A) ok x : multi (snd (respond r ok x)) = multi x.
Proof. by destruct r. Qed.

Section Confined.
Variable others : Z → Z → Command → Executor → answer.
Variable pick : nat → nat.
Hypothesis others_multi : ∀ now id cmd x, multi (snd (others now id cmd x)) = multi x.
Hypothesis others_wf : ∀ now id cmd x, es_wf (kv x) → es_wf (kv (snd (others now id cmd x))).

Lemma first_some_in {A} (l : list (option A)) a : first_some l = Some a → Some a ∈ l.
Proof. induction l as [|[b|] l IH]; cbn; [done|intros [= ->]; by left|intros H; right; by apply IH]. Qed.

(** One case of a dispatcher after the other. *)
Ltac same_multi := cbn [snd reply multi set_kv set_pubsub]; rewrite ?store_op_multi, ?respond_multi; solve [done | case_match; same_multi].
Ltac each_case := repeat match goal with |- (if ?b then _ else _) = Some _ → _ => destruct b; [intros [= <-]; same_multi|] end; try done.

Lemma hash_multi now cmd x a : dispatch_hash now cmd x = Some a → multi (snd a) = multi x.
Proof. unfold dispatch_hash, usage. cbv zeta. each_case. Qed.
Lemma list_multi now cmd x a : dispatch_list now cmd x = Some a → multi (snd a) = multi x.
Proof. unfold dispatch_list, usage. cbv zeta. each_case. Qed.
Lemma sets_multi now cmd x a : dispatch_sets now pick cmd x = Some a → multi (snd a) = multi x.
Proof. unfold dispatch_sets, usage. cbv zeta. each_case. Qed.
Lemma zset_multi now cmd x a : dispatch_zset now cmd x = Some a → multi (snd a) = multi x.
Proof. unfold dispatch_zset, usage. cbv zeta. each_case. Qed.
Lemma bitmap_multi now cmd x a : dispatch_bitmap now cmd x = Some a → multi (snd a) = multi x.
Proof. unfold dispatch_bitmap, bitpos, usage. cbv zeta. each_case. Qed.
Lemma stream_multi now cmd x a : dispatch_stream now cmd x = Some a → multi (snd a) = multi x.
Proof. unfold dispatch_stream, xadd, usage. cbv zeta. each_case. Qed.
Lemma pubsub_multi cmd x a : dispatch_pubsub cmd x = Some a → multi (snd a) = multi x.
Proof. unfold dispatch_pubsub, publish, usage. cbv zeta. each_case. Qed.
Lemma misc_multi now cmd x a : dispatch_misc now cmd x = Some a → multi (snd a) = multi x.
Proof.
  unfold dispatch_misc. cbv zeta. repeat (destruct (bool_decide _); [intros [= <-]|]); [..|done].
  - unfold object_cmd. repeat (destruct (_ <? _) || destruct (bool_decide _)); reflexivity.
  - unfold json_del. destruct (_ <? _); reflexivity.
  - unfold dbx_mvcc. repeat (destruct (_ <? _) || destruct (bool_decide _)); reflexivity.
  - unfold dbx_snapshot. repeat (destruct (_ <? _) || destruct (bool_decide _)); reflexivity.
  - reflexivity.
Qed.

Lemma typed_multi now id cmd x : multi (snd (dispatch_typed others pick now id cmd x)) = multi x.
Proof.
  unfold dispatch_typed. destruct (first_some _) as [a|] eqn:E; [|case_match; [apply others_multi|done]]. apply first_some_in in E.
  repeat (apply elem_of_cons in E as [E|E]; [symmetry in E|]); [..|by apply not_elem_of_nil in E];
    eauto using hash_multi, list_multi, sets_multi, zset_multi, bitmap_multi, stream_multi, pubsub_multi, misc_multi.
Qed.

Lemma groups_act now cmd x a :
  first_some [dispatch_hash now cmd x; dispatch_list now cmd x; dispatch_sets now pick cmd x; dispatch_zset now cmd x; dispatch_bitmap now cmd x;
              dispatch_stream now cmd x; dispatch_pubsub cmd x; dispatch_misc now cmd x] = Some a →
  acts_on (write_keys cmd) all_writers cmd x a.
Proof.
  intros E%first_some_in. repeat (apply elem_of_cons in E as [E|E]; [symmetry in E|]); [..|by apply not_elem_of_nil in E].
  - apply (acts_lift hash_writers); [done|by eapply hash_acts].
  - apply (acts_lift list_writers); [done|by eapply list_acts].
  - apply (acts_lift set_writers); [done|by eapply sets_acts].
  - apply (acts_lift zset_writers); [done|by eapply zset_acts].
  - apply (acts_lift other_writers); [done|by eapply bitmap_acts].
  - apply (acts_lift other_writers); [done|by eapply stream_acts].
  - left. by eapply pubsub_acts.
  - apply (acts_lift misc_writers); [done|by eapply misc_acts].
Qed.

Lemma acts_wf ks ws cmd x a : es_wf (kv x) → acts_on ks ws cmd x a → es_wf (kv (snd a)).
Proof. intros Hw [[-> _]|[_ H]]; [done|by apply H]. Qed.

Lemma server_wf now id cmd x a : es_wf (kv x) → dispatch_server now id cmd x = Some a → es_wf (kv (snd a)).
Proof.
  intros Hw Ha. destruct (server_acts _ _ _ _ _ Ha) as [[-> _]|Hf]; [done|]. revert Ha. unfold dispatch_server. cbv zeta.
  apply elem_of_cons in Hf as [->|Hf]; [|apply elem_of_cons in Hf as [->|[]%not_elem_of_nil]]; intros [= <-]; apply (FlushAll_spec (kv x) Hw).
Qed.

Lemma rest_wf now id cmd x : es_wf (kv x) → es_wf (kv (snd (dispatch_typed others pick now id cmd x))).
Proof.
  intros Hw. unfold dispatch_typed. destruct (first_some _) as [a|] eqn:E; [by eapply acts_wf, groups_act|]. case_match; [by apply others_wf|done].
Qed.

(** ** What a command can change *)
(** A key that a command may change: one it names, or the command is of the kinds
    that are not confined to their arguments. *)
Definition causes (c : Command) (k : string) : Prop :=
  k = ""%string ∨ k ∈ AffectedKeys c ∨ Normalized c ∈ flush_names ∨ Normalized c ∈ other_names ∨ Lookup (Normalized c) = None.
Definition differ (x x' : Executor) (k : string) : Prop := es_view (kv x') !! k ≠ es_view (kv x) !! k.

Lemma dispatch_wf fuel now fault id c x : Normalized c ≠ "EXEC"%string → es_wf (kv x) → es_wf (kv (snd (dispatch_all others pick fuel now fault id c x))).
Proof.
  intros Hne Hw. unfold dispatch_all. destruct fuel as [|fuel]; cbn [Dispatch].
  all: destruct (dispatch_server now id c x) eqn:E; [by eapply server_wf|clear E].
  all: destruct (dispatch_keys now fault c x) eqn:E; [eapply acts_wf; [done|by eapply keys_acts]|clear E].
  all: destruct (dispatch_strings now fault c x) eqn:E; [eapply acts_wf; [done|by eapply strings_acts]|clear E].
  - by apply rest_wf.
  - destruct (dispatch_tx _ id c x) eqn:E; [|by apply rest_wf]. by destruct (tx_acts _ _ _ _ _ Hne E) as [-> _].
Qed.

Lemma dispatch_causes fuel now fault id c x k :
  Normalized c ≠ "EXEC"%string → es_wf (kv x) → differ x (snd (dispatch_all others pick fuel now fault id c x)) k → causes c k.
Proof.
  intros Hne Hw Hd. unfold causes. destruct (decide (Normalized c ∈ flush_names)) as [?|Hf]; [tauto|]. destruct (decide (Normalized c ∈ other_names)) as [?|Ho]; [tauto|].
  destruct (Lookup (Normalized c)) as [info|] eqn:Hl; [|tauto]. destruct (decide (k = ""%string)) as [?|Hk]; [tauto|]. right. left.
  assert (Hp : plain c) by (unfold plain; rewrite not_elem_of_cons, not_elem_of_app; done).
  destruct (dispatch_acts others pick fuel now fault id c x Hp) as [[Hs _]|[Hin Ht]]; [unfold differ in Hd; by rewrite Hs in Hd|].
  destruct (Ht Hw) as [_ Hfr]. destruct (decide (k ∈ write_keys c)) as [Hkw|Hkw]; [by apply (write_keys_affected c info k)|]. by destruct Hd; apply Hfr.
Qed.

Lemma dispatch_multi fuel now fault id c x : Normalized c ∉ tx_names → multi (snd (dispatch_all others pick fuel now fault id c x)) = multi x.
Proof.
  intros Hn. unfold dispatch_all. destruct fuel as [|fuel]; cbn [Dispatch].
  all: destruct (dispatch_server now id c x) eqn:E; [by eapply (server_preserves (λ y, multi y = multi x))|clear E].
  all: destruct (dispatch_keys now fault c x) eqn:E; [by eapply (keys_preserves (λ y, multi y = multi x))|clear E].
  all: destruct (dispatch_strings now fault c x) eqn:E; [by eapply (strings_preserves (λ y, multi y = multi x))|clear E].
  - apply typed_multi.
  - destruct (dispatch_tx _ id c x) eqn:E; [|apply typed_multi]. revert E. unfold dispatch_tx. cbv zeta.
    unfold tx_names in Hn. rewrite !not_elem_of_cons in Hn. destruct Hn as (H1 & H2 & H3 & H4 & _).
    rewrite !bool_decide_eq_false_2 by done. case_match; [intros [= <-]; done|done].
Qed.

Lemma queue_run fuel now fault id cmds : ∀ out x, Forall (λ c, Normalized c ∉ tx_names) cmds → es_wf (kv x) →
  let x' := snd (run_queue (Dispatch (dispatch_typed others pick) fuel now fault id) cmds out x) in
  es_wf (kv x') ∧ multi x' = multi x ∧ (∀ k, differ x x' k → ∃ c, c ∈ cmds ∧ causes c k).
Proof.
  induction cmds as [|c cmds IH]; intros out x Hc Hw x'; [split; [done|]; split; [done|]; intros k []; done|].
  apply Forall_cons in Hc as [Hc Hcs]. assert (Hne : Normalized c ≠ "EXEC"%string) by (intros E; apply Hc; rewrite E; by left).
  pose proof (dispatch_wf fuel now fault id c x Hne Hw) as W. pose proof (dispatch_multi fuel now fault id c x Hc) as M.
  pose proof (λ k, dispatch_causes fuel now fault id c x k Hne Hw) as C. unfold dispatch_all in W, M, C. subst x'. cbn [run_queue].
  destruct (Dispatch _ fuel now fault id c x) as [[o st] y]; cbn [snd] in *.
  assert (Hgo : let x' := snd (run_queue (Dispatch (dispatch_typed others pick) fuel now fault id) cmds (out ++ o) y) in
    es_wf (kv x') ∧ multi x' = multi x ∧ (∀ k, differ x x' k → ∃ c0, c0 ∈ c :: cmds ∧ causes c0 k)).
  { cbv zeta. destruct (IH (out ++ o) y Hcs W) as (I1 & I2 & I3). split; [done|]. split; [congruence|]. intros k Hd.
    destruct (decide (es_view (kv y) !! k = es_view (kv x) !! k)) as [E|E]; [|exists c; split; [by left|by apply C]].
    destruct (I3 k) as (c' & ? & ?); [unfold differ in *; by rewrite E|]. exists c'. split; [by right|done]. }
  destruct st; [exact Hgo|exact Hgo|]. cbn [snd]. split; [done|]. split; [done|]. intros k Hd. exists c. split; [by left|by apply C].
Qed.

Definition acted (id : Z) (cmd c : Command) (x : Executor) : Prop :=
  (c = cmd ∧ Normalized cmd ≠ "EXEC"%string) ∨ (Normalized cmd = "EXEC"%string ∧ c ∈ queue_of id x).
Definition queue_ok (id : Z) (x : Executor) : Prop := Forall (λ c, Normalized c ∉ tx_names) (queue_of id x).

Lemma exec_tx fuel now fault id cmd x : Normalized cmd = "EXEC"%string →
  dispatch_all others pick (S fuel) now fault id cmd x =
  match dispatch_tx (Dispatch (dispatch_typed others pick) fuel now fault id) id cmd x with Some a => a | None => dispatch_typed others pick now id cmd x end.
Proof.
  intros E. unfold dispatch_all. cbn [Dispatch].
  assert (E1 : dispatch_server now id cmd x = None) by (unfold dispatch_server; cbv zeta; rewrite E; reflexivity).
  assert (E2 : dispatch_keys now fault cmd x = None) by (unfold dispatch_keys; cbv zeta; rewrite E; reflexivity).
  assert (E3 : dispatch_strings now fault cmd x = None) by (unfold dispatch_strings; cbv zeta; rewrite E; reflexivity).
  by rewrite E1, E2, E3.
Qed.

Lemma queue_delete id j m x c : c ∈ queue_of j (set_multi x (delete id m)) → multi x = m → c ∈ queue_of j x.
Proof.
  unfold queue_of. cbn. intros H ->. destruct (decide (j = id)) as [->|?]; [rewrite lookup_delete_eq in H; by apply not_elem_of_nil in H|by rewrite lookup_delete_ne in H].
Qed.

Lemma queue_begin id j tx x c : c ∈ queue_of j (set_multi x (<[id := tx]> (multi x))) → tx_Queue tx = [] → c ∈ queue_of j x.
Proof.
  unfold queue_of. cbn. intros H E. destruct (decide (j = id)) as [->|?]; [rewrite lookup_insert_eq, E in H; by apply not_elem_of_nil in H|by rewrite lookup_insert_ne in H].
Qed.

Lemma exec_change fuel now fault id cmd x : Normalized cmd = "EXEC"%string → es_wf (kv x) → queue_ok id x →
  let x' := snd (dispatch_all others pick (S fuel) now fault id cmd x) in
  es_wf (kv x') ∧ (∀ k, differ x x' k → ∃ c, c ∈ queue_of id x ∧ causes c k) ∧ (∀ j c, c ∈ queue_of j x' → c ∈ queue_of j x).
Proof.
  intros E Hw Hq. cbv zeta. rewrite exec_tx by done. unfold dispatch_tx. cbv zeta.
  rewrite (bool_decide_eq_false_2 (_ = "MULTI"%string)) by (by rewrite E). rewrite (bool_decide_eq_true_2 (_ = "EXEC"%string)) by done.
  assert (Hself : ∀ k, differ x x k → ∃ c, c ∈ queue_of id x ∧ causes c k) by (intros k []; done).
  destruct (IsDirty _ _ _).
  { cbn [snd reply]. split; [done|]. split; [done|]. intros j c. unfold Discard. destruct (multi x !! id) eqn:Em; [|done]. intros H. exact (queue_delete id j (multi x) x c H eq_refl). }
  unfold Exec. destruct (multi x !! id) as [tx|] eqn:Em; [|cbn; done].
  assert (Hsub : ∀ j c, c ∈ queue_of j (set_multi x (delete id (multi x))) → c ∈ queue_of j x) by (intros j c H; exact (queue_delete id j (multi x) x c H eq_refl)).
  case_bool_decide.
  - destruct (tx_Error tx); cbn [snd reply run_queue]; (split; [done|split; [done|exact Hsub]]).
  - assert (Hq' : queue_of id x = tx_Queue tx) by (unfold queue_of; by rewrite Em). unfold queue_ok in Hq. rewrite Hq' in *.
    set (y := set_watch _ _). destruct (queue_run fuel now fault id (tx_Queue tx) (WriteArray (zlen (tx_Queue tx))) y Hq Hw) as (Q1 & Q2 & Q3).
    split; [done|]. split; [exact Q3|]. intros j c. unfold queue_of at 1. rewrite Q2. exact (Hsub j c).
Qed.

Lemma dispatch_change fuel now fault id cmd x : es_wf (kv x) → queue_ok id x →
  let x' := snd (dispatch_all others pick (S fuel) now fault id cmd x) in
  es_wf (kv x') ∧ (∀ k, differ x x' k → ∃ c, acted id cmd c x ∧ causes c k) ∧ (∀ j c, c ∈ queue_of j x' → c ∈ queue_of j x).
Proof.
  intros Hw Hq. cbv zeta. destruct (decide (Normalized cmd = "EXEC"%string)) as [E|E].
  { destruct (exec_change fuel now fault id cmd x E Hw Hq) as (H1 & H2 & H3). split; [done|]. split; [|done]. intros k Hd. destruct (H2 k Hd) as (c & ? & ?). exists c. split; [by right|done]. }
  split; [by apply dispatch_wf|]. split; [intros k Hd; exists cmd; split; [by left|by eapply dispatch_causes]|].
  destruct (decide (Normalized cmd ∈ tx_names)) as [Hin|Hn]; [|intros j c; unfold queue_of; by rewrite dispatch_multi].
  intros j c. unfold dispatch_all. cbn [Dispatch].
  assert (Hnames : Normalized cmd = "DISCARD"%string ∨ Normalized cmd = "WATCH"%string ∨ Normalized cmd = "MULTI"%string).
  { unfold tx_names in Hin. rewrite !elem_of_cons in Hin. destruct Hin as [?|[?|[?|[?|[]%not_elem_of_nil]]]]; auto. done. }
  destruct (dispatch_server now id cmd x) eqn:E1.
  { revert E1. unfold dispatch_server. cbv zeta. destruct Hnames as [->|[->| ->]]; discriminate. }
  destruct (dispatch_keys now fault cmd x) eqn:E2.
  { revert E2. unfold dispatch_keys. cbv zeta. destruct Hnames as [->|[->| ->]]; discriminate. }
  destruct (dispatch_strings now fault cmd x) eqn:E3.
  { revert E3. unfold dispatch_strings. cbv zeta. destruct Hnames as [->|[->| ->]]; discriminate. }
  unfold dispatch_tx. cbv zeta. destruct Hnames as [->|[->| ->]]; cbn [snd reply].
  - cbn. unfold Discard. destruct (multi x !! id) eqn:Em; cbn; intros H; [exact (queue_delete id j (multi x) x c H eq_refl)|done].
  - destruct (NumArgs cmd <? 1); exact (λ H, H).
  - unfold Begin. destruct (IsActive id (multi x)); [exact (λ H, H)|]. intros H. exact (queue_begin id j _ x c H eq_refl).
Qed.

(** What a command of a client does to the store and to the queues. *)
Record changed (id : Z) (cmd : Command) (x x' : Executor) : Prop := {
  ch_wf : es_wf (kv x');
  ch_keys : ∀ k, differ x x' k → ∃ c, acted id cmd c x ∧ causes c k;
  ch_queues : ∀ j c, c ∈ queue_of j x' → c ∈ queue_of j x ∨ (j = id ∧ c = cmd ∧ Normalized cmd ∉ tx_names)
}.
Lemma changed_same id cmd x x' : es_wf (kv x) → kv x' = kv x → multi x' = multi x → changed id cmd x x'.
Proof. intros Hw E1 E2. split; [by rewrite E1|intros k Hd; unfold differ in Hd; by rewrite E1 in Hd|intros j c; unfold queue_of; rewrite E2; auto]. Qed.

Lemma accounted_change now vm fault id cmd d p pr x y : kv y = kv x → multi y = multi x → es_wf (kv x) → queue_ok id x →
  changed id cmd x (snd (recovered (dispatch_accounted (dispatch_typed others pick) now vm fault id cmd d p pr y))).
Proof.
  intros E1 E2 Hw Hq. assert (Hqy : queue_ok id y) by (unfold queue_ok, queue_of in *; by rewrite E2).
  destruct (dispatch_change 1 now fault id cmd y) as (D1 & D2 & D3); [by rewrite E1|done|]. unfold dispatch_all in D1, D2, D3. unfold dispatch_accounted.
  destruct (Dispatch _ 2 now fault id cmd y) as [[out st] z]. cbn [snd] in *.
  assert (Hc : ∀ z', kv z' = kv z → multi z' = multi z → changed id cmd x z').
  { intros z' F1 F2. split; [by rewrite F1| |].
    - intros k Hd. destruct (D2 k) as (c & Ha & Hc); [unfold differ in *; by rewrite E1, <- F1|]. exists c. split; [|done]. unfold acted, queue_of in *. by rewrite E2 in Ha.
    - intros j c Hin. left. unfold queue_of in *. rewrite F2 in Hin. apply D3 in Hin. by rewrite E2 in Hin. }
  destruct st; cbn; [destruct d|..]; by apply Hc.
Qed.

Lemma execute_change t id cmd x : es_wf (kv x) → queue_ok id x → changed id cmd x (snd (Execute others pick t id cmd x)).
Proof.
  intros Hw Hq. unfold Execute, execute_all, Executor.Execute. destruct (_ && _) eqn:Eq.
  { apply andb_true_iff in Eq as [_ Hn]. apply negb_true_iff, bool_decide_eq_false in Hn. cbn [snd reply].
    split; [done|intros k []; done|]. intros j c. unfold queue_of, Queue. cbn. destruct (multi x !! id) as [tx|] eqn:Em; [|by left].
    destruct (decide (j = id)) as [->|?]; [|rewrite lookup_insert_ne by done; by left]. rewrite lookup_insert_eq, Em. cbn. rewrite elem_of_app, list_elem_of_singleton.
    intros [?| ->]; [by left|by right]. }
  clear Eq. assert (Hsame : ∀ out, changed id cmd x (snd (reply out x))) by (intros out; by apply changed_same).
  destruct (Lookup (Normalized cmd)) as [info|]; [|apply Hsame]. destruct (_ && _); [apply Hsame|]. destruct (_ && _); [apply Hsame|].
  destruct (wal x) as [w|]; [|by apply accounted_change]. destruct (_ && _); [|by apply accounted_change].
  destruct (prepareDurableEffects _ _ _) as [effects prepared]. destruct (_ && _); [|by apply accounted_change].
  destruct (effectsFitQuota _ _ _) as [fits projected]. destruct (negb fits); [apply Hsame|].
  destruct (wal_WriteTransaction _ _ _ _) as [[e|] w']; [by apply changed_same|].
  pose proof (accounted_change (t_now t) (t_vec t) (t_fault t) id cmd true prepared projected x (set_suppress (set_wal x (Some w')) true) eq_refl eq_refl Hw Hq) as H.
  destruct (recovered _) as [[out st] y]. cbn [snd] in *. destruct H as [H1 H2 H3]. by split.
Qed.
End Confined.

(** ** Where a user of a connection comes from *)
Definition acl_named (a : ACLStore) : Prop := map_Forall (λ n u, user_Name u = n) a.
Lemma AddUser_named a u : acl_named a → acl_named (AddUser a u).
Proof. intros H. by apply map_Forall_insert_2. Qed.
Lemma DeleteUser_named a n : acl_named a → acl_named (snd (DeleteUser a n)).
Proof. intros H. unfold DeleteUser. destruct (a !! n); [|done]. by apply map_Forall_delete. Qed.
Lemma ReplaceUsers_acl l : acl_named (ReplaceUsers l).
Proof.
  unfold ReplaceUsers. apply (foldl_invariant acl_named); [apply map_Forall_empty|]. intros a [u|] _ H; [|done]. case_bool_decide; [done|]. by apply map_Forall_insert_2.
Qed.

(** The part of an iteration that decides on a command. *)
Definition may_run (a : ACLStore) (cmd : Command) (before after : option User) : Prop :=
  Enforce after cmd = None ∧ ∃ u0 u, before = Some u0 ∧ after = Some u ∧ GetUser a (user_Name u0) = Some u.
Definition logs_in (a : ACLStore) (cmd : Command) (u : User) : Prop :=
  Normalized cmd = "AUTH"%string ∧ ∃ name pw, credentials cmd = (name, pw) ∧ GetUser a name = Some u ∧ Authenticate u pw = None.

Lemma flushed_same c : c_User (flushed c) = c_User c ∧ c_pending (flushed c) = c_pending c.
Proof. unfold flushed. by destruct (c_open c). Qed.

Lemma handleAuth_spec a cmd c : Normalized cmd = "AUTH"%string →
  c_pending (handleAuth a cmd c) = c_pending c ∧ (∀ u, c_User (handleAuth a cmd c) = Some u → c_User c = Some u ∨ logs_in a cmd u).
Proof.
  intros Hn. unfold handleAuth. destruct (_ <? _); [auto|]. destruct (credentials cmd) as [name pw] eqn:E. destruct (GetUser a name) as [u|] eqn:Eu; [|auto].
  destruct (Authenticate u pw) eqn:Ea; [auto|]. split; [done|]. cbn. intros u' [= <-]. right. split; [done|]. by exists name, pw.
Qed.

Lemma admission_spec t id cmd c s : c_pending c = None →
  let s' := admission t id cmd c s in
  acl s' = acl s ∧ exec s' = exec s ∧ nextID s' = nextID s ∧ internalAPIToken s' = internalAPIToken s ∧
  ∃ c', clients s' = <[id := c']> (clients s) ∧
    (c_pending c' = None ∨ (c_pending c' = Some cmd ∧ may_run (acl s) cmd (c_User c) (c_User c'))) ∧
    (∀ u, c_User c' = Some u → c_User c = Some u ∨ (∃ u0, c_User c = Some u0 ∧ GetUser (acl s) (user_Name u0) = Some u) ∨ logs_in (acl s) cmd u).
Proof.
  intros Hp. unfold admission. destruct (Limits.RateLimiter.Allow _ _ _ _) as [allowed r]. cbv zeta.
  destruct allowed; cbn [negb].
  2: { do 4 (split; [done|]). eexists. split; [reflexivity|]. rewrite !(proj1 (flushed_same _)), (proj2 (flushed_same _)). split; [by left|]. intros u. by left. }
  case_bool_decide as Hn.
  { destruct (handleAuth_spec (acl s) cmd c Hn) as [H1 H2]. do 4 (split; [done|]). eexists. split; [reflexivity|]. rewrite !(proj1 (flushed_same _)), (proj2 (flushed_same _)).
    split; [left; cbn; by rewrite H1|]. intros u Hu. destruct (H2 u Hu); auto. }
  set (c1 := if c_User c is Some u then _ else _).
  assert (H1 : c_pending c1 = None) by (unfold c1; by destruct (c_User c)).
  assert (H2 : ∀ u, c_User c1 = Some u → ∃ u0, c_User c = Some u0 ∧ GetUser (acl s) (user_Name u0) = Some u).
  { unfold c1. intros u. destruct (c_User c) as [u0|] eqn:Eu; [cbn; intros H; by exists u0|congruence]. }
  destruct (Enforce (c_User c1) cmd) as [err|] eqn:Ee.
  - do 4 (split; [done|]). eexists. split; [reflexivity|]. rewrite !(proj1 (flushed_same _)), (proj2 (flushed_same _)). split; [by left|]. cbn. intros u Hu. right. left. by apply H2.
  - assert (Hx : ∀ b : bool, let s' := (if b then log_event (t_now t) (event id (userNameOrEmpty (c_User c1)) (Name cmd) "ok" "" (c_addr c1)) (set_rate r s) else set_rate r s) in
      acl s' = acl s ∧ exec s' = exec s ∧ nextID s' = nextID s ∧ internalAPIToken s' = internalAPIToken s ∧ clients s' = clients s) by (by intros []).
    destruct (Hx (negb (if Lookup (Normalized cmd) is Some info then ReadOnly info else false) && ShouldAudit (Normalized cmd))) as (A1 & A2 & A3 & A4 & A5). cbv zeta in *.
    cbn [acl exec nextID internalAPIToken clients put set_clients]. rewrite A1, A2, A3, A4, A5. do 4 (split; [done|]). eexists. split; [reflexivity|].
    split; [|intros u Hu; right; left; by apply H2]. right. change (c_pending (with_pending (Some cmd) c1)) with (Some cmd). change (c_User (with_pending (Some cmd) c1)) with (c_User c1).
    split; [reflexivity|]. split; [exact Ee|]. clear - Ee H2. destruct (c_User c1) as [u|]; [|discriminate]. destruct (H2 u eq_refl) as (u0 & G1 & G2). exists u0, u. auto.
Qed.

Section Traces.
Variable others : Z → Z → Command → Executor → answer.
Variable pick : nat → nat.
Hypothesis others_multi : ∀ now id cmd x, multi (snd (others now id cmd x)) = multi x.
Hypothesis others_wf : ∀ now id cmd x, es_wf (kv x) → es_wf (kv (snd (others now id cmd x))).
Variable s0 : RESPServer.

Definition state (tr : list label) : RESPServer := foldl (step others pick) s0 tr.
(** The next command of a connection. *)
Definition takes (s : RESPServer) (id : Z) (cmd : Command) : Prop :=
  ∃ c rest, clients s !! id = Some c ∧ ReadCommand (c_in c) = Ok (cmd, rest).
(** The connection may act as [name]: the default user, or it gave the password. *)
Definition authenticated (tr : list label) (id : Z) (name : string) : Prop :=
  name = "default"%string ∨
  ∃ tr1 t tr2 cmd u pw, tr = tr1 ++ Receive id t :: tr2 ∧ takes (state tr1) id cmd ∧ Normalized cmd = "AUTH"%string ∧
    credentials cmd = (name, pw) ∧ GetUser (acl (state tr1)) name = Some u ∧ Authenticate u pw = None.
(** The user of the connection. *)
Definition user_at (s : RESPServer) (id : Z) : option User := clients s !! id ≫= c_User.
(** The command was read when the users were such that it was allowed: [u] is the
    record the table held of a user the connection had authenticated as, and the
    one the connection acts as after the command was read. *)
Definition granted (tr : list label) (id : Z) (u : User) (cmd : Command) : Prop :=
  ∃ tr1 t tr2, tr = tr1 ++ Receive id t :: tr2 ∧ takes (state tr1) id cmd ∧ GetUser (acl (state tr1)) (user_Name u) = Some u ∧
    Enforce (Some u) cmd = None ∧ authenticated tr1 id (user_Name u) ∧ user_at (state (tr1 ++ [Receive id t])) id = Some u.

Lemma authenticated_more tr l id name : authenticated tr id name → authenticated (tr ++ l) id name.
Proof. intros [?|(tr1 & t & tr2 & H)]; [by left|right]. exists tr1, t, (tr2 ++ l). destruct H as (cmd & u & pw & -> & H). exists cmd, u, pw. split; [by rewrite <- app_assoc|done]. Qed.
Lemma granted_more tr l id u cmd : granted tr id u cmd → granted (tr ++ l) id u cmd.
Proof. intros (tr1 & t & tr2 & -> & H). exists tr1, t, (tr2 ++ l). split; [by rewrite <- app_assoc|done]. Qed.

Definition fresh : Prop :=
  acl_named (acl s0) ∧ clients s0 = ∅ ∧ nextID s0 = 0 ∧ es_wf (kv (exec s0)) ∧ multi (exec s0) = ∅.

Record inv (tr : list label) (s : RESPServer) : Prop := {
  i_wf : es_wf (kv (exec s));
  i_named : acl_named (acl s);
  i_token : internalAPIToken s = internalAPIToken s0;
  i_ids : 0 ≤ nextID s ≤ Z.of_nat (length tr) ∧ ∀ id, is_Some (clients s !! id) → 1 ≤ id ≤ nextID s;
  i_user : ∀ id c u, clients s !! id = Some c → c_User c = Some u → authenticated tr id (user_Name u);
  i_pending : ∀ id c cmd, clients s !! id = Some c → c_pending c = Some cmd → ∃ u, c_User c = Some u ∧ granted tr id u cmd;
  i_queue : ∀ id c, c ∈ queue_of id (exec s) → (Normalized c ∉ tx_names) ∧ (id ≠ 0 → ∃ u, granted tr id u c)
}.

Lemma inv_queue tr s id : inv tr s → queue_ok id (exec s).
Proof. intros H. unfold queue_ok. apply Forall_forall. intros c Hc. by apply (i_queue _ _ H id c Hc). Qed.

(** A step that leaves the connections alone. *)
Lemma inv_more tr s s' l :
  inv tr s → clients s' = clients s → nextID s' = nextID s → internalAPIToken s' = internalAPIToken s → exec s' = exec s → acl_named (acl s') → inv (tr ++ [l]) s'.
Proof.
  intros [H1 H2 H3 [H4 H5] H6 H7 H8] E1 E2 E3 E4 Ha. split; rewrite ?E1, ?E2, ?E3, ?E4; try done.
  - rewrite length_app. cbn. split; [lia|done].
  - intros. eapply authenticated_more, H6; done.
  - intros id c cmd Hc Hp. destruct (H7 id c cmd Hc Hp) as (u & ? & ?). exists u. split; [done|by apply granted_more].
  - intros id c Hc. destruct (H8 id c Hc) as [? H]. split; [done|]. intros Hne. destruct (H Hne) as [u ?]. exists u. by apply granted_more.
Qed.

(** A step that changes one connection. *)
Lemma inv_put tr s s' l id c' :
  inv tr s → clients s' = <[id := c']> (clients s) → nextID s' = nextID s → internalAPIToken s' = internalAPIToken s → exec s' = exec s → acl s' = acl s →
  is_Some (clients s !! id) → (∀ u, c_User c' = Some u → authenticated (tr ++ [l]) id (user_Name u)) →
  (∀ cmd, c_pending c' = Some cmd → ∃ u, c_User c' = Some u ∧ granted (tr ++ [l]) id u cmd) → inv (tr ++ [l]) s'.
Proof.
  intros H E1 E2 E3 E4 E5 Hid Hu Hp. destruct (inv_more tr s (set_acl (acl s') s) l H) as [I1 I2 I3 [I4 I5] I6 I7 I8]; [done..|cbn; rewrite E5; apply H|]. cbn in *.
  split; rewrite ?E1, ?E2, ?E3, ?E4; try done.
  - split; [done|]. intros j Hj. destruct (decide (j = id)) as [->|Hne]; [by apply I5|]. rewrite lookup_insert_ne in Hj by done. by apply I5.
  - intros j c u Hc. destruct (decide (j = id)) as [->|Hne]; [rewrite lookup_insert_eq in Hc; injection Hc as <-; apply Hu|rewrite lookup_insert_ne in Hc by done; by apply I6].
  - intros j c cmd Hc. destruct (decide (j = id)) as [->|Hne]; [rewrite lookup_insert_eq in Hc; injection Hc as <-; apply Hp|rewrite lookup_insert_ne in Hc by done; by apply I7].
Qed.

Lemma receive_ok tr id t : inv tr (state tr) → inv (tr ++ [Receive id t]) (receive t id (state tr)).
Proof.
  intros H. unfold receive. destruct (clients (state tr) !! id) as [c|] eqn:Ec; [|apply inv_more with (state tr); try done; apply H].
  destruct (negb (c_open c) || _) eqn:Eo; [apply inv_more with (state tr); try done; apply H|]. pose proof Eo as [_ Hp]%orb_false_iff. apply bool_decide_eq_false, eq_None_not_Some in Hp.
  assert (Hhang : inv (tr ++ [Receive id t]) (put id (hung_up c) (state tr))).
  { apply (inv_put tr (state tr) _ _ id (hung_up c)); try done; [|cbn; congruence]. cbn. intros u Hu. eapply authenticated_more, (i_user _ _ H); done. }
  destruct (ReadCommand (c_in c)) as [[cmd rest]|e|] eqn:Er; [|exact Hhang..].
  destruct (admission_spec t id cmd (with_in rest c) (state tr) Hp) as (A1 & A2 & A3 & A4 & c' & A5 & A6 & A7).
  assert (Ht : takes (state tr) id cmd) by (by exists c, rest).
  apply (inv_put tr (state tr) _ _ id c'); try done.
  - intros u Hu. destruct (A7 u Hu) as [E|[(u0 & E1 & E2)|(E1 & name & pw & E2 & E3 & E4)]].
    + eapply authenticated_more, (i_user _ _ H); done.
    + rewrite (i_named _ _ H _ _ E2). eapply authenticated_more, (i_user _ _ H); done.
    + right. exists tr, t, [], cmd, u, pw. rewrite (i_named _ _ H _ _ E3). done.
  - intros cmd' Hc'. destruct A6 as [E|(E & Hen & u0 & u & E1 & E2 & E3)]; [congruence|]. rewrite E in Hc'. injection Hc' as <-. rewrite E2 in Hen.
    exists u. split; [done|]. exists tr, t, []. rewrite (i_named _ _ H _ _ E3). do 4 (split; [done|]). split; [eapply (i_user _ _ H); done|].
    unfold user_at, state. rewrite foldl_snoc. change (foldl (step others pick) s0 tr) with (state tr). cbn [step]. unfold receive. rewrite Ec, Eo, Er, A5, lookup_insert_eq. exact E2.
Qed.

(** A step that executes a command. *)
Lemma inv_exec tr s l id cmd x' :
  inv tr s → changed id cmd (exec s) x' → (id ≠ 0 → ∃ u, granted tr id u cmd) → inv (tr ++ [l]) (set_exec x' s).
Proof.
  intros H [C1 C2 C3] Hg. destruct (inv_more tr s s l H) as [I1 I2 I3 I4 I5 I6 I7]; [done..|apply H|]. split; try done. cbn. intros j c Hc.
  destruct (C3 j c Hc) as [Hold|(-> & -> & Hn)]; [by apply I7|]. split; [done|]. intros Hne. destruct (Hg Hne) as [u ?]. exists u. by apply granted_more.
Qed.

Lemma run_ok tr id t : inv tr (state tr) → inv (tr ++ [Run id t]) (run others pick t id (state tr)).
Proof.
  intros H. unfold run. assert (Hsame : inv (tr ++ [Run id t]) (state tr)) by (apply inv_more with (state tr); try done; apply H).
  destruct (clients (state tr) !! id) as [c|] eqn:Ec; [|done]. destruct (c_pending c) as [cmd|] eqn:Ep; [|done].
  pose proof (execute_change others pick others_multi others_wf t id cmd (exec (state tr)) (i_wf _ _ H) (inv_queue _ _ id H)) as Hch.
  destruct (Execute _ _ t id cmd (exec (state tr))) as [[out st] x]. cbn [snd] in Hch.
  assert (Hx : inv (tr ++ [Run id t]) (set_exec x (state tr))).
  { eapply inv_exec; [done..|]. intros _. destruct (i_pending _ _ H _ _ _ Ec Ep) as (u & _ & ?). by exists u. }
  set (c' := match st with Done => _ | Failed _ => _ | Panicked => _ end).
  assert (Hc' : c_pending c' = None ∧ c_User c' = c_User c).
  { unfold c'. set (w := written out (with_pending None c)). assert (Hw : c_pending w = None ∧ c_User w = c_User c) by done.
    assert (Hf : c_pending (if t_drained t then flushed w else w) = None ∧ c_User (if t_drained t then flushed w else w) = c_User c).
    { destruct (t_drained t); [|done]. destruct (flushed_same w) as [-> ->]. done. }
    destruct (flushed_same w) as [F1 F2]. destruct st as [|e|]; [done| |done]. repeat (case_match; try done); cbn; by rewrite F1, F2. }
  destruct Hc' as [P1 P2]. destruct Hx as [X1 X2 X3 [X4 X5] X6 X7 X8]. split; cbn in *; try done.
  - split; [done|]. intros j Hj. destruct (decide (j = id)) as [->|Hne]; [apply X5; by eexists|]. rewrite lookup_insert_ne in Hj by done. by apply X5.
  - intros j d u Hd Hu. destruct (decide (j = id)) as [->|Hne]; [|rewrite lookup_insert_ne in Hd by done; by eapply X6]. rewrite lookup_insert_eq in Hd. injection Hd as <-. rewrite P2 in Hu. by eapply X6.
  - intros j d k Hd Hk. destruct (decide (j = id)) as [->|Hne]; [|rewrite lookup_insert_ne in Hd by done; by eapply X7]. rewrite lookup_insert_eq in Hd. injection Hd as <-. congruence.
Qed.

Lemma connect_ok tr addr input : inv tr (state tr) → Z.of_nat (length tr) < 2 ^ 64 - 1 → inv (tr ++ [Connect addr input]) (connect addr input (state tr)).
Proof.
  intros H Hlen. unfold connect. assert (Hsame : inv (tr ++ [Connect addr input]) (state tr)) by (apply inv_more with (state tr); try done; apply H).
  destruct (_ && _); [done|]. cbv zeta. destruct (i_ids _ _ H) as [Hn Hids].
  replace (u64 (nextID (state tr) + 1)) with (nextID (state tr) + 1) by (symmetry; apply u64_id; lia). set (id := nextID (state tr) + 1).
  destruct Hsame as [X1 X2 X3 [X4 X5] X6 X7 X8]. split; cbn in *; try done.
  - rewrite length_app in *. cbn in *. split; [lia|]. intros j Hj. destruct (decide (j = id)) as [->|Hne]; [lia|]. rewrite lookup_insert_ne in Hj by done. specialize (X5 j Hj). lia.
  - intros j d u Hd Hu. destruct (decide (j = id)) as [->|Hne]; [|rewrite lookup_insert_ne in Hd by done; by eapply X6]. rewrite lookup_insert_eq in Hd. injection Hd as <-.
    left. cbn in Hu. by rewrite (i_named _ _ H _ _ Hu).
  - intros j d k Hd Hk. destruct (decide (j = id)) as [->|Hne]; [|rewrite lookup_insert_ne in Hd by done; by eapply X7]. rewrite lookup_insert_eq in Hd. by injection Hd as <-.
Qed.

(** Requests over HTTP: one without the token changes nothing. *)
Definition trusted (q : request) (s : RESPServer) : Prop := internalAPIToken s ≠ ""%string ∧ q_token q = internalAPIToken s.
Lemma guarded_cases allowed q (s : RESPServer) (next : http_answer * RESPServer) :
  let r := withCORS allowed q s (internalAPIOnly (internalAPIToken s) q s (only_post q s next)) in snd r = s ∨ (trusted q s ∧ snd r = snd next).
Proof.
  cbv zeta. unfold withCORS, internalAPIOnly, only_post. case_bool_decide; [by left|]. destruct (_ || _) eqn:E; [by left|]. apply orb_false_iff in E as [E1 E2].
  apply bool_decide_eq_false in E1. apply negb_false_iff, bool_decide_eq_true in E2. destruct (negb _); [by left|]. right. done.
Qed.

Lemma vaddbin_cases allowed t q key dim body s :
  let r := snd (vaddbin others pick allowed t q key dim body s) in
  r = s ∨ (trusted q s ∧ ∃ cmd, r = set_exec (snd (Execute others pick t 0 cmd (exec s))) s).
Proof.
  cbv zeta. unfold vaddbin. match goal with |- snd (withCORS _ _ _ (internalAPIOnly _ _ _ (only_post _ _ ?n))) = _ ∨ _ => destruct (guarded_cases allowed q s n) as [E|[Ht E]]; [left; exact E|] end.
  rewrite E. clear E. destruct (_ || _); [by left|]. destruct body as [e|body]; [by left|]. right. split; [done|].
  exists {| Name := "VADDBIN"; Args := [to_slice key; to_slice dim; Some body] |}. destruct (Execute _ _ t 0 _ _) as [[out st] x]. by destruct st.
Qed.

Lemma query_cases allowed t q b s :
  let r := snd (query others pick allowed t q b s) in
  r = s ∨ (trusted q s ∧ ∃ cmd g, r = set_exec (snd (Execute others pick t 0 cmd (exec s))) (set_audit g s)).
Proof.
  cbv zeta. unfold query. match goal with |- snd (withCORS _ _ _ (internalAPIOnly _ _ _ (only_post _ _ ?n))) = _ ∨ _ => destruct (guarded_cases allowed q s n) as [E|[Ht E]]; [left; exact E|] end.
  rewrite E. clear E. assert (Hw : ∀ l : list string, let r := snd (match l with [] => (HTTPError 400 "empty command", s) | name :: args =>
      let cmd := {| Name := ToUpper name; Args := map to_slice args |} in
      match Enforce (Some dashboard_internal) cmd with
      | Some err => (HTTPReply (WriteErrorRaw err), s)
      | None =>
          let s := if ShouldAudit (Normalized cmd) then log_event (t_now t) (event 0 (user_Name dashboard_internal) (Name cmd) "ok" "" (q_host q)) s else s in
          let '(out, st, x) := Execute others pick t 0 cmd (exec s) in
          let out := match st, out with Failed e, [] => WriteErrorRaw e | _, _ => out end in
          (HTTPReply out, set_exec x s)
      end end) in r = s ∨ (trusted q s ∧ ∃ cmd g, r = set_exec (snd (Execute others pick t 0 cmd (exec s))) (set_audit g s))).
  { intros [|name args]; cbv zeta; [by left|]. set (cmd := {| Name := ToUpper name; Args := _ |}). destruct (Enforce _ _); [by left|]. right. split; [done|].
    exists cmd. destruct (ShouldAudit (Normalized cmd)).
    - eexists. change (exec (log_event _ _ s)) with (exec s). destruct (Execute _ _ t 0 cmd (exec s)) as [[out st] x]. reflexivity.
    - exists (audit s). destruct (Execute _ _ t 0 cmd (exec s)) as [[out st] x]. by destruct s. }
  destruct b; [by left|by left|apply Hw|apply Hw|by left].
Qed.

Lemma server_step_ok tr l : inv tr (state tr) → Z.of_nat (length tr) < 2 ^ 64 - 1 → inv (tr ++ [l]) (step others pick (state tr) l).
Proof.
  intros H Hlen. pose proof (i_named _ _ H) as Hn. assert (Hsame : inv (tr ++ [l]) (state tr)) by (apply inv_more with (state tr); done).
  assert (Hhttp : ∀ t cmd g, inv (tr ++ [l]) (set_exec (snd (Execute others pick t 0 cmd (exec (state tr)))) (set_audit g (state tr)))).
  { intros t cmd g. apply (inv_exec tr (set_audit g (state tr)) l 0 cmd); [destruct H; by split|apply execute_change; [done|done|apply H|by eapply inv_queue]|done]. }
  destruct l as [addr input|id t|id t|u|name|allowed t q b|allowed t q key dim body|allowed q file|]; cbn [step].
  - destruct (down _); [done|]. by apply connect_ok.
  - by apply receive_ok.
  - by apply run_ok.
  - apply inv_more with (state tr); try done. cbn. by apply AddUser_named.
  - apply inv_more with (state tr); try done. by apply DeleteUser_named.
  - destruct (query_cases allowed t q b (state tr)) as [->|(_ & cmd & g & ->)]; [done|apply Hhttp].
  - destruct (vaddbin_cases allowed t q key dim body (state tr)) as [->|(_ & cmd & ->)]; [done|]. exact (Hhttp t cmd (audit (state tr))).
  - unfold acl_reload. match goal with |- inv _ (snd (withCORS _ _ _ (internalAPIOnly _ _ _ (only_post _ _ ?n)))) => destruct (guarded_cases allowed q (state tr) n) as [->|[_ ->]]; [done|] end.
    destruct file as [e|users]; [done|]. apply inv_more with (state tr); try done. apply ReplaceUsers_acl.
  - destruct Hsame as [X1 X2 X3 [X4 X5] X6 X7 X8]. split; cbn in *; try done.
    + split; [done|]. intros id Hid. apply X5. rewrite lookup_fmap in Hid. by destruct (clients (state tr) !! id); [eexists|apply is_Some_None in Hid].
    + intros id c u Hc. rewrite lookup_fmap in Hc. apply fmap_Some in Hc as (d & Hd & ->). exact (X6 id d u Hd).
    + intros id c cmd Hc. rewrite lookup_fmap in Hc. apply fmap_Some in Hc as (d & Hd & ->). exact (X7 id d cmd Hd).
Qed.

Lemma state_ok tr : fresh → Z.of_nat (length tr) < 2 ^ 64 → inv tr (state tr).
Proof.
  intros (F1 & F2 & F3 & F4 & F5). induction tr as [|l tr IH] using rev_ind; intros Hlen.
  - split; cbn; try done; [rewrite F3; split; [lia|]; intros id; rewrite F2, lookup_empty; by intros []| | |]; intros id; [rewrite F2, lookup_empty..|unfold queue_of; rewrite F5, lookup_empty]; try done. by intros c ?%not_elem_of_nil.
  - rewrite length_app in Hlen. cbn in Hlen. unfold state. rewrite foldl_snoc. apply server_step_ok; [apply IH; lia|lia].
Qed.

(** ** Who can change a key *)
(** What the enforcer granted covers the key, or the command is of a kind that is
    not confined: a flush, which needs an administrator, the vector, geo and JSON
    groups, and commands outside the registry. *)
Definition covered (u : User) (c : Command) (k : string) : Prop :=
  k = ""%string ∨ (∃ p, p ∈ AllowedKeys u ∧ admits p k) ∨ (Normalized c ∈ flush_names ∧ has_perm u PermAdmin = true) ∨
  Normalized c ∈ other_names ∨ Lookup (Normalized c) = None.
Lemma granted_covers u c k : Enforce (Some u) c = None → causes c k → covered u c k.
Proof.
  unfold Enforce. destruct (CanExecute u (Normalized c)) eqn:Ec; [|done]. cbn [negb]. assert (Hen : Enabled u = true) by (revert Ec; unfold CanExecute; by destruct (Enabled u)).
  rewrite enforce_keys_spec by done. intros He. unfold covered. intros [?|[Hk|[Hf|[?|?]]]]; [auto| |..|auto|auto].
  - destruct (decide (k = ""%string)) as [?|Hne]; [auto|]. right. left. by apply He.
  - right. right. left. split; [done|]. revert Ec. unfold CanExecute. rewrite Hen. unfold isAdminCommand.
    apply elem_of_cons in Hf as [->|[->|[]%not_elem_of_nil]%elem_of_cons]; by cbn.
Qed.

(** C4: run a server for any sequence of steps: clients that connect,
    send bytes and have commands admitted and run, interleaved with each other,
    with requests over HTTP and with changes of the users. A step that changes the
    entry of a key is the run of a command by a connection or an HTTP request with
    the internal token. In the first case the connection acts as a user for whom
    the enforcer allowed that command, when the connection read it, with the record
    the table of users then held, under a name the connection had given the
    password of (or the name default), and the patterns of that user admit the key;
    or the command is EXEC, and the same holds of a command of the connection's
    queue and the user it acted as when it read that one. The exceptions are the
    empty key, flushes, for which the user had the administrator's permission, the
    vector, geo, JSON, INFO and tenant commands, and queued commands outside the
    registry. *)
Theorem server_confined tr l k :
  fresh → Z.of_nat (length tr) < 2 ^ 64 - 1 → differ (exec (state tr)) (exec (step others pick (state tr) l)) k →
  match l with
  | Run id _ =>
      ∃ c cmd, clients (state tr) !! id = Some c ∧ c_pending c = Some cmd ∧
        ((∃ u, c_User c = Some u ∧ granted tr id u cmd ∧ covered u cmd k) ∨
         (Normalized cmd = "EXEC"%string ∧
          ∃ u c0, c0 ∈ queue_of id (exec (state tr)) ∧ granted tr id u c0 ∧ covered u c0 k))
  | Query _ _ q _ | Vaddbin _ _ q _ _ _ => internalAPIToken s0 ≠ ""%string ∧ q_token q = internalAPIToken s0
  | _ => False
  end.
Proof.
  intros Hf Hlen Hd. assert (H : inv tr (state tr)) by (apply state_ok; [done|lia]). pose proof (i_token _ _ H) as Htok.
  destruct l as [addr input|id t|id t|u|name|allowed t q b|allowed t q key dim body|allowed q file|]; cbn [step] in Hd.
  - destruct Hd. destruct (down _); [done|]. unfold connect. by destruct (_ && _).
  - destruct Hd. unfold receive. destruct (clients _ !! id) as [c|]; [|done]. destruct (_ || _) eqn:E; [done|]. apply orb_false_iff in E as [_ Hp]. apply bool_decide_eq_false, eq_None_not_Some in Hp.
    destruct (ReadCommand _) as [[cmd rest]|e|]; [|done..]. by destruct (admission_spec t id cmd (with_in rest c) (state tr) Hp) as (_ & -> & _).
  - unfold run in Hd. destruct (clients _ !! id) as [c|] eqn:Ec; [|by destruct Hd]. destruct (c_pending c) as [cmd|] eqn:Ep; [|by destruct Hd].
    pose proof (execute_change others pick others_multi others_wf t id cmd (exec (state tr)) (i_wf _ _ H) (inv_queue _ _ id H)) as Hch.
    destruct (Execute _ _ t id cmd (exec (state tr))) as [[out st] x]. cbn [snd] in Hch. destruct (ch_keys _ _ _ _ Hch k Hd) as (c0 & Ha & Hc0).
    exists c, cmd. split; [done|]. split; [done|]. destruct Ha as [[-> _]|[Hx Hin]].
    + destruct (i_pending _ _ H _ _ _ Ec Ep) as (u & Hu & Hg). left. exists u. split; [done|]. split; [done|].
      destruct Hg as (_ & _ & _ & _ & _ & _ & He & _). by apply granted_covers.
    + right. split; [exact Hx|]. destruct (i_queue _ _ H _ _ Hin) as [_ Hq]. destruct Hq as [u Hg].
      { destruct (i_ids _ _ H) as [_ Hids]. specialize (Hids id (mk_is_Some _ _ Ec)). lia. }
      exists u, c0. split; [done|]. split; [done|]. destruct Hg as (_ & _ & _ & _ & _ & _ & He & _). by apply granted_covers.
  - by destruct Hd.
  - by destruct Hd.
  - destruct (query_cases allowed t q b (state tr)) as [E|[[T1 T2] _]]; [by rewrite E in Hd; destruct Hd|]. by rewrite Htok in T1, T2.
  - destruct (vaddbin_cases allowed t q key dim body (state tr)) as [E|[[T1 T2] _]]; [by rewrite E in Hd; destruct Hd|]. by rewrite Htok in T1, T2.
  - destruct Hd. unfold acl_reload. match goal with |- context [withCORS _ _ _ (internalAPIOnly _ _ _ (only_post _ _ ?n))] => destruct (guarded_cases allowed q (state tr) n) as [->|[_ ->]]; [done|] end. by destruct file.
  - by destruct Hd.
Qed.
End Traces.

(** ** An engine with two users *)
Definition user_of (name pw : string) (patterns : list string) : User :=
  {| user_Name := name; PasswordHash := HashPassword pw; Enabled := true; Permissions := Z.lor PermRead PermWrite; AllowedKeys := patterns;
     AllowedChannels := []; NoPass := false |}.
Definition demo_server : RESPServer :=
  {| acl := AddUser (AddUser ∅ (user_of "ann" "pw" ["a:*"%string])) (user_of "bob" "pw" ["b:*"%string]);
     rateLimit := Limits.RateLimiter.NewRateLimiter 0 0 false;
     audit := {| Limits.Audit.file := None; Limits.Audit.enabled := false; Limits.Audit.buf := []; Limits.Audit.bufSize := 0 |};
     exec := NewExecutor (New 4) None; clients := ∅; nextID := 0; maxConnections := 2; internalAPIToken := "tok"; down := false |}.
Definition wire (l : list (list string)) : list byte := mjoin (map (λ c, WriteBytes (map to_slice c)) l).
Definition at_ (drained : bool) : reading := {| t_created := 1; t_now := 1; t_vec := 0; t_fault := None; t_drained := drained |}.
Abbreviation served := (state no_others (λ _, O) demo_server).
Definition login : list string := ["AUTH"; "ann"; "pw"]%string.
Definition turn (id : Z) : list label := [Receive id (at_ true); Run id (at_ true)].

Lemma demo_fresh : fresh demo_server.
Proof. split; [|split; [done|split; [done|split; [apply (New_wf 4); lia|done]]]]. by repeat apply AddUser_named. Qed.

(** Ann logs in and writes: the change is accounted for by her pattern. *)
Lemma server_confined_witness :
  let tr := [Connect "1.2.3.4:5" (wire [login; ["SET"; "a:1"; "x"]]%string); Receive 1 (at_ true); Receive 1 (at_ true)] in
  differ (exec (served tr)) (exec (step no_others (λ _, O) (served tr) (Run 1 (at_ true)))) "a:1" ∧
  ∃ u c, granted no_others (λ _, O) demo_server tr 1 u c ∧ covered u c "a:1" ∧ user_Name u = "ann"%string.
Proof.
  intros tr. assert (Hd : differ (exec (served tr)) (exec (step no_others (λ _, O) (served tr) (Run 1 (at_ true)))) "a:1").
  { unfold differ. vm_compute. discriminate. }
  split; [exact Hd|].
  assert (Hc : ∃ c cmd, clients (served tr) !! 1 = Some c ∧ c_pending c = Some cmd ∧ user_Name <$> c_User c = Some "ann"%string ∧ Normalized cmd ≠ "EXEC"%string).
  { vm_compute. do 2 eexists. split; [reflexivity|]. split; [reflexivity|]. split; [reflexivity|discriminate]. }
  destruct Hc as (c & cmd & C1 & C2 & C3 & C4).
  destruct (server_confined no_others (λ _, O) (λ _ _ _ _, eq_refl) (λ _ _ _ _ H, H) demo_server tr (Run 1 (at_ true)) "a:1") as (c' & cmd' & H1 & H2 & H3);
    [exact demo_fresh|vm_compute; reflexivity|exact Hd|].
  rewrite C1 in H1. injection H1 as <-. rewrite C2 in H2. injection H2 as <-. destruct H3 as [(u & Hu & Hg & Hcov)|[Hx _]]; [|by destruct C4].
  exists u, cmd. split; [exact Hg|]. split; [exact Hcov|]. rewrite Hu in C3. by injection C3.
Defined.

(** ** Where the code does not do what it means to *)
Definition got (tr : list label) (id : Z) : list byte := if clients (served tr) !! id is Some c then c_sent c else [].
Definition holds (tr : list label) (key : string) : bool := bool_decide (is_Some (es_view (kv (exec (served tr))) !! key)).

(** Two commands and then bytes that are no command arrive together: both commands
    run, and the connection is closed without their replies. *)
Example replies_lost :
  let tr := [Connect "1.2.3.4:5" (wire [login; ["SET"; "a:1"; "x"]; ["SET"; "a:2"; "x"]]%string ++ bytes_of "*0" ++ crlf);
             Receive 1 (at_ false); Receive 1 (at_ false); Run 1 (at_ false); Receive 1 (at_ false); Run 1 (at_ false); Receive 1 (at_ false)] in
  holds tr "a:2" = true ∧ got tr 1 = WriteOK.
Proof. vm_compute. split; reflexivity. Qed.

(** A command that was queued before the patterns of its user changed runs after
    the change. *)
Example queued_before_role_change :
  let tr := [Connect "1.2.3.4:5" (wire [login; ["MULTI"]; ["SET"; "a:1"; "x"]; ["EXEC"]]%string)] ++ turn 1 ++ turn 1 ++ turn 1 ++
            [UserAdded (user_of "ann" "pw" ["b:*"%string])] ++ turn 1 in
  holds tr "a:1" = true.
Proof. vm_compute. reflexivity. Qed.

(** All requests over HTTP are client 0: a MULTI in one request queues the
    commands of every other. *)
Definition post (b : query_body) : label :=
  Query (λ _, false) (at_ true) {| q_method := "POST"; q_origin := ""; q_token := "tok"; q_host := "h" |} b.
Example http_requests_share_multi :
  let tr := [post (CommandLine "MULTI"); post (CommandLine "SET k v")] in
  holds tr "k" = false ∧ holds (tr ++ [post (CommandLine "EXEC")]) "k" = true.
Proof. vm_compute. split; reflexivity. Qed.

(** The queue of a connection that is closed inside MULTI is never freed. *)
Example closed_connection_keeps_queue :
  let tr := [Connect "1.2.3.4:5" (wire [login; ["MULTI"]; ["SET"; "a:1"; "x"]]%string)] ++ turn 1 ++ turn 1 ++ turn 1 ++ [Receive 1 (at_ true)] in
  (c_open <$> clients (served tr) !! 1) = Some false ∧ length (queue_of 1 (exec (served tr))) = 1%nat.
Proof. vm_compute. split; reflexivity. Qed.
