(* ===== verification/HashRing.v ===== *)
(** * Consistent hashing: [orchestrator/hashring.go]

    Each node has a number of points on the circle of 32-bit hashes; a key
    belongs to the node of the first point at or after its hash, wrapping round
    at the end. Two nodes may hash to one point, in which case the later one
    takes it. *)
From S2P Require Import Prelude GoStd Auth.
Open Scope string_scope.
Open Scope list_scope.
Open Scope Z_scope.

Record HashRing := {
  nodes : list string;
  ring : list Z;
  nodeMap : gmap Z string;
  virtualNodes : Z;
}.

Definition NewHashRing (v : Z) : HashRing :=
  {| nodes := []; ring := []; nodeMap := ∅; virtualNodes := v |}.

(** [binary.BigEndian.Uint32(sha256.Sum256([]byte(key))[:4])] *)
Definition hashKey (key : string) : Z := be_get (take 4 (Sum256 (bytes_of key))).

(** [fmt.Sprintf("%s-v%d", node, i)] *)
Definition vNodeKey (node : string) (i : nat) : string := node +:+ "-v" +:+ FormatInt (Z.of_nat i).

Definition points (node : string) (v : Z) : list Z :=
  (λ i, hashKey (vNodeKey node i)) <$> seq 0 (Z.to_nat v).

Definition AddNode (node : string) (h : HashRing) : HashRing :=
  let hs := points node (virtualNodes h) in
  {| nodes := nodes h ++ [node];
     ring := merge_sort Z.le (ring h ++ hs);
     nodeMap := foldl (λ m p, <[p := node]> m) (nodeMap h) hs;
     virtualNodes := virtualNodes h |}.

Definition GetNode (key : string) (h : HashRing) : string :=
  if zlen (ring h) =? 0 then "" else
  let hash := hashKey key in
  let idx := sort_Search (length (ring h))
               (λ i, match ring h !! i with Some p => p >=? hash | None => true end) in
  let idx := if (idx =? length (ring h))%nat then O else idx in
  match ring h !! idx with
  | Some p => default "" (nodeMap h !! p)
  | None => ""
  end.

(** ** The specification: the clockwise successor of a hash *)
Definition successor (ps : list Z) (hash p : Z) : Prop :=
  p ∈ ps ∧
  ((hash ≤ p ∧ ∀ q, q ∈ ps → hash ≤ q → p ≤ q)
   ∨ ((∀ q, q ∈ ps → q < hash) ∧ ∀ q, q ∈ ps → p ≤ q)).

Lemma successor_unique ps hash p q : successor ps hash p → successor ps hash q → p = q.
Proof.
  intros [Hp Hp'] [Hq Hq']. destruct Hp' as [[? Hp']|[Hp1 Hp']], Hq' as [[? Hq']|[Hq1 Hq']].
  - pose proof (Hp' q Hq). pose proof (Hq' p Hp). lia.
  - specialize (Hq1 p Hp). lia.
  - specialize (Hp1 q Hq). lia.
  - pose proof (Hp' q Hq). pose proof (Hq' p Hp). lia.
Qed.

#[export] Instance successor_proper : Proper ((≡ₚ) ==> (=) ==> (=) ==> iff) successor.
Proof.
  intros ps ps' Hp h ? <- p ? <-. unfold successor. rewrite Hp.
  by setoid_rewrite Hp.
Qed.

(** More points can only bring the successor closer: it stays, or is new. *)
Lemma successor_app ps new hash p p' :
  successor ps hash p → successor (ps ++ new) hash p' → p' = p ∨ p' ∈ new.
Proof.
  intros Hp [Hin Hs]. apply elem_of_app in Hin as [Hin|?]; [left|by right].
  eapply successor_unique; [|exact Hp]. split; [done|].
  destruct Hs as [[? Hs]|[Hs1 Hs2]]; [left|right]; repeat split; try done; intros q Hq;
    [apply Hs|apply Hs1|apply Hs2]; apply elem_of_app; by left.
Qed.

Record wf (h : HashRing) : Prop := {
  wf_sorted : StronglySorted Z.le (ring h);
  wf_owner : ∀ p, is_Some (nodeMap h !! p) ↔ p ∈ ring h;
  wf_nodes : ∀ p n, nodeMap h !! p = Some n → n ∈ nodes h;
}.

Lemma foldl_points node hs (m : gmap Z string) p :
  foldl (λ m p, <[p := node]> m) m hs !! p = if bool_decide (p ∈ hs) then Some node else m !! p.
Proof.
  revert m. induction hs as [|x hs IH]; intros m; cbn [foldl].
  - by rewrite bool_decide_eq_false_2 by apply not_elem_of_nil.
  - rewrite IH. destruct (decide (p ∈ hs)).
    + by rewrite !bool_decide_eq_true_2 by (done || by right).
    + rewrite (bool_decide_eq_false_2 (p ∈ hs)) by done. destruct (decide (p = x)) as [->|].
      * by rewrite lookup_insert_eq, bool_decide_eq_true_2 by left.
      * rewrite lookup_insert_ne, bool_decide_eq_false_2 by (rewrite ?elem_of_cons; tauto || congruence). done.
Qed.

Lemma AddNode_wf node h : wf h → wf (AddNode node h).
Proof.
  intros [Hs Ho Hn]. unfold AddNode. set (hs := points _ _). split; cbn.
  - apply StronglySorted_merge_sort; apply _.
  - intros p. rewrite foldl_points, merge_sort_Permutation, elem_of_app, <- Ho.
    case_bool_decide; [|tauto]. split; eauto.
  - intros p n. rewrite foldl_points, elem_of_app, list_elem_of_singleton.
    case_bool_decide; [intros [= ->]; by right|]. eauto.
Qed.

(** The search finds the successor. *)
Lemma GetNode_successor key h :
  wf h → ring h ≠ [] →
  ∃ p, successor (ring h) (hashKey key) p ∧ nodeMap h !! p = Some (GetNode key h).
Proof.
  intros Hw Hne. unfold GetNode. set (hash := hashKey key).
  set (f := λ i, match ring h !! i with Some p => p >=? hash | None => true end).
  rewrite (proj2 (Z.eqb_neq _ 0)) by (unfold zlen; destruct (ring h); [done|simpl; lia]).
  assert (∀ a b, (a ≤ b)%nat → f a = true → f b = true) as Hmono.
  { intros a b Hab. unfold f. destruct (ring h !! b) as [pb|] eqn:Eb; [|done].
    destruct (lookup_lt_is_Some_2 (ring h) a) as [pa Ea].
    { apply lookup_lt_Some in Eb. lia. }
    rewrite Ea, !Z.geb_le. destruct (decide (a = b)) as [->|]; [simplify_eq; done|].
    pose proof (StronglySorted_lookup _ _ a b pa pb (wf_sorted h Hw) ltac:(lia) Ea Eb). lia. }
  destruct (sort_Search_spec (length (ring h)) f Hmono) as (H1 & H2 & H3).
  set (r := sort_Search (length (ring h)) f) in *.
  assert (∀ p, p ∈ ring h → nodeMap h !! p = Some (default "" (nodeMap h !! p))) as Hown.
  { intros p [n Hn]%(wf_owner h Hw). by rewrite Hn. }
  destruct (Nat.eqb_spec r (length (ring h))) as [Hr|Hr].
  - destruct (lookup_lt_is_Some_2 (ring h) 0) as [p Hp]; [destruct (ring h); [done|simpl; lia]|].
    rewrite Hp. exists p. split; [|apply Hown; by eapply list_elem_of_lookup_2].
    split; [by eapply list_elem_of_lookup_2|right]. split; intros q [i Hi]%list_elem_of_lookup.
    + specialize (H2 i). unfold f in H2. rewrite Hi in H2.
      apply Z.nle_gt. intros ?%Z.geb_le. rewrite H2 in *; [done|]. apply lookup_lt_Some in Hi. lia.
    + destruct i as [|i]; [simplify_eq; lia|].
      by eapply (StronglySorted_lookup _ _ 0 (S i)); [apply (wf_sorted h Hw)|lia|..].
  - destruct (lookup_lt_is_Some_2 (ring h) r) as [p Hp]; [lia|]. rewrite Hp.
    exists p. split; [|apply Hown; by eapply list_elem_of_lookup_2].
    split; [by eapply list_elem_of_lookup_2|left].
    pose proof (H3 r ltac:(lia)) as Hfr. unfold f in Hfr. rewrite Hp in Hfr. apply Z.geb_le in Hfr.
    split; [done|]. intros q [i Hi]%list_elem_of_lookup Hq. destruct (Nat.lt_ge_cases i r) as [Hlt|Hge].
    + specialize (H2 i Hlt). unfold f in H2. rewrite Hi in H2. apply Z.geb_le in Hq. congruence.
    + destruct (decide (i = r)) as [->|]; [simplify_eq; lia|].
      by eapply (StronglySorted_lookup _ _ r i); [apply (wf_sorted h Hw)|lia|..].
Qed.

Definition build (v : Z) (ns : list string) : HashRing := foldl (λ h n, AddNode n h) (NewHashRing v) ns.

Lemma build_wf v ns : wf (build v ns).
Proof.
  apply (foldl_invariant wf); [|intros; by apply AddNode_wf].
  split; cbn; [constructor| |done]. intros p. split; [by intros []|by intros ?%not_elem_of_nil].
Qed.

Lemma build_virtual v ns : virtualNodes (build v ns) = v.
Proof. apply (foldl_invariant (λ h, virtualNodes h = v)); [done|]. by intros a b _ <-. Qed.

Lemma AddNode_ring v node h : virtualNodes h = v → ring (AddNode node h) ≡ₚ ring h ++ points node v.
Proof. intros <-. apply merge_sort_Permutation. Qed.

(** For any sequence of nodes each with at least one point,
    a key belongs to the node of the first point at or after its hash, wrapping
    round, and that is one of the nodes; adding a node moves a key only to the
    new node, never between the old ones, whatever points collide. *)
Theorem consistent_hashing v ns node key :
  0 < v →
  (ns ≠ [] → GetNode key (build v ns) ∈ ns ∧
     ∃ p, successor (ring (build v ns)) (hashKey key) p
          ∧ nodeMap (build v ns) !! p = Some (GetNode key (build v ns))) ∧
  (ns ≠ [] → GetNode key (build v (ns ++ [node])) = GetNode key (build v ns)
     ∨ GetNode key (build v (ns ++ [node])) = node) ∧
  GetNode key (build v []) = "".
Proof.
  intros Hv.
  assert (∀ ns n, ring (build v (ns ++ [n])) ≡ₚ ring (build v ns) ++ points n v) as Hring.
  { intros ms n. unfold build. rewrite foldl_snoc. apply AddNode_ring, build_virtual. }
  assert (∀ ns, nodes (build v ns) = ns) as Hnodes.
  { intros ms. induction ms as [|n ms IH] using rev_ind; [done|].
    unfold build in *. rewrite foldl_snoc. cbn. by rewrite IH. }
  assert (∀ ns, ns ≠ [] → ring (build v ns) ≠ []) as Hne.
  { intros ms Hms E. destruct ms as [|n ms _] using rev_ind; [done|].
    pose proof (Hring ms n) as Hp. rewrite E in Hp. apply Permutation_nil_l in Hp.
    symmetry in Hp. apply app_eq_nil in Hp as [_ Hp]. unfold points in Hp.
    destruct (Z.to_nat v) eqn:Ev; [lia|done]. }
  conjs; [..|done]; intros Hns.
  - destruct (GetNode_successor key (build v ns)) as (p & Hp & Ho); [apply build_wf|auto|].
    split; [|eauto]. apply (wf_nodes _ (build_wf v ns)) in Ho. by rewrite Hnodes in Ho.
  - destruct (GetNode_successor key (build v ns)) as (p & Hp & Ho); [apply build_wf|auto|].
    destruct (GetNode_successor key (build v (ns ++ [node]))) as (p' & Hp' & Ho');
      [apply build_wf|apply Hne; by destruct ns|].
    rewrite Hring in Hp'. destruct (successor_app _ _ _ _ _ Hp Hp') as [->|Hin];
      set (g := GetNode key (build v (ns ++ [node]))) in *;
      set (g0 := GetNode key (build v ns)) in *;
      unfold build in Ho'; rewrite foldl_snoc in Ho'; fold (build v ns) in Ho'; cbn in Ho';
      rewrite foldl_points, build_virtual in Ho'.
    + case_bool_decide; [right|left]; congruence.
    + rewrite bool_decide_eq_true_2 in Ho' by done. right. congruence.
Qed.

Lemma consistent_hashing_witness :
  GetNode "user:1" (build 2 ["n1"; "n2"]) ∈ ["n1"; "n2"].
Proof. by apply (consistent_hashing 2 ["n1"; "n2"] "n3" "user:1"). Defined.
